(* ===== verification/_CoqProject ===== *)
-Q . S2P
Prelude.v
Cursor.v
Algorithms.v
Coding.v
Hash.v
Crc32c.v
Comparator.v
DbFormat.v
IterKey.v
Status.v
VersionEdit.v
VersionEditProofs.v
VersionEditTheorems.v
VersionStorage.v
VersionStorageProofs.v
VersionBuilder.v
VersionBuilderProofs.v
VersionSaveProofs.v
FilePicker.v
FilePickerProofs.v
FilePickerTheorems.v
VersionBuilderTheorems.v
SkipList.v
SkipListProofs.v
SkipListInsert.v
SkipListTheorems.v
SkipListConcurrent.v
SkipListThreads.v
SkipListLinearizable.v
SkipListProgress.v
WideColumns.v
MergeOperator.v
WriteBatch.v
WriteBatchIter.v
WriteBatchSpec.v
WriteBatchProofs.v
WriteBatchTheorems.v
WriteBatchTimestamps.v
UdtUtil.v
UdtTheorems.v
LogsWithPrepTracker.v
MemTable.v
MemTableInserter.v
MemTableSpec.v
DynamicBloom.v
RangeTombstones.v
RangeTombstonesProofs.v
RangeTombstonesCursor.v
MemTableProofs.v
RangeTombstonesTheorems.v
SkipListRep.v
MemTableTheorems.v
InserterProofs.v
InserterTheorems.v
BlockBuilder.v
BlockIter.v
BlockCursor.v
BlockProofs.v
BlockHash.v
BlockTheorems.v
LogFormat.v
LogWriter.v
LogReader.v
LogProofs.v
LogTermination.v
LogRecycling.v
Manifest.v
VersionSet.v
ManifestWriter.v
VersionEditHandler.v
ManifestProofs.v
VersionEditHandlerProofs.v
ManifestTheorems.v
ManifestWriterProofs.v
ManifestCommit.v
ManifestWriterTheorems.v
Recovery.v
RecoveryProofs.v
RecoveryTheorems.v
