(* ===== verification/Prelude.v ===== *)
(** Verification of the storage-engine core of RocksDB 9.8.4 (src/rocksdb-9.8.4).

    * The program

    A write reaches RocksDB as a [WriteBatch], a serialised list of operations (db/write_batch.cc). The batch is appended to the write-ahead log
    (db/log_writer.cc), and [MemTableInserter] applies its records to the memtables of the column families (db/memtable.cc), which keep their entries
    in a skip list (memtable/inlineskiplist.h), with a Bloom filter (util/dynamic_bloom.cc) and with range tombstones that are cut into fragments
    (db/range_tombstone_fragmenter.cc). Full memtables become table files, whose blocks table/block_based/block_builder.cc writes and block.cc reads.
    Which files a column family has is its version (db/version_set.cc, db/version_builder.cc); a change of the files is a [VersionEdit], which
    [LogAndApply] writes to the MANIFEST, a log of edits, before it installs the new version. After a crash [Recover] rebuilds the versions from the
    MANIFEST (db/version_edit_handler.cc), and [RecoverLogFiles] replays the logs into the memtables (db/db_impl/db_impl_open.cc).

    * The files of the development

    A file that models code has the name of the component and keeps the names of the source; [...Proofs] files hold the lemmas about it, and
    [...Theorems] files its main theorems with their examples.

    Shared: Prelude (byte strings, integers of a width, record updates, tactics and hint databases), Cursor (the abstract cursor over sorted entries that
    the iterators implement), Algorithms (sort and binary searches of the C++ library), Status (include/rocksdb/status.h).

    Encodings: Coding (util/coding.h), Hash (util/hash.cc), Crc32c (util/crc32c.cc), Comparator (util/comparator.cc; the class [Comparator] with the laws
    [ComparatorLaws] is what the rest relies on), DbFormat (internal keys, db/dbformat.h), IterKey (the key buffer of iterators), WideColumns
    (db/wide/wide_column_serialization.cc).

    Batches: WriteBatch and WriteBatchIter (db/write_batch.cc), WriteBatchSpec, WriteBatchProofs, WriteBatchTheorems, WriteBatchTimestamps; UdtUtil and
    UdtTheorems (util/udt_util.cc).

    Memtables: MergeOperator (db/merge_operator.cc), MemTable, MemTableSpec (the history of versions), MemTableProofs, MemTableTheorems; SkipList,
    SkipListProofs, SkipListInsert, SkipListTheorems; SkipListConcurrent, SkipListThreads, SkipListLinearizable, SkipListProgress (several threads);
    SkipListRep (memtable/skiplistrep.cc), DynamicBloom, RangeTombstones with RangeTombstonesProofs, RangeTombstonesCursor and RangeTombstonesTheorems;
    MemTableInserter, InserterProofs, InserterTheorems (class [MemTableInserter] of db/write_batch.cc); LogsWithPrepTracker
    (db/logs_with_prep_tracker.cc). The table, the filter and the tombstones of a memtable are interfaces of MemTable, discharged by SkipListRep,
    DynamicBloom and RangeTombstonesTheorems.

    Blocks: BlockBuilder and BlockIter (table/block_based), BlockCursor, BlockProofs, BlockHash (data_block_hash_index.cc), BlockTheorems.

    Logs: LogFormat, LogWriter, LogReader (db/log_format.h, db/log_writer.cc, db/log_reader.cc), LogProofs, LogTermination, LogRecycling; Recovery,
    RecoveryProofs, RecoveryTheorems ([DBImpl::RecoverLogFiles]). The files below are the interfaces [WritableFileWriter] and [SequentialFileReader]
    with their laws; files in memory are the instances.

    Versions: VersionEdit (db/version_edit.cc), VersionEditProofs, VersionEditTheorems; VersionStorage ([VersionStorageInfo], db/file_indexer.cc),
    VersionStorageProofs; VersionBuilder (db/version_builder.cc), VersionBuilderProofs, VersionSaveProofs, VersionBuilderTheorems; FilePicker (of
    db/version_set.cc), FilePickerProofs, FilePickerTheorems.

    MANIFEST: Manifest ([VersionEditHandlerBase::Iterate], [AtomicGroupReadBuffer], [WalSet], the handlers of names and checksums), VersionSet (column
    families and counters, db/column_family.cc and db/version_set.cc), VersionEditHandler ([VersionEditHandler], [VersionEditHandlerPointInTime],
    [VersionSet::Recover], [TryRecover]), ManifestProofs, VersionEditHandlerProofs, ManifestTheorems; ManifestWriter ([VersionSet::LogAndApply],
    [ProcessManifestWrites], [WriteCurrentStateToManifest]), ManifestWriterProofs, ManifestCommit, ManifestWriterTheorems. What a handler does with an
    edit is the class [VersionEditHandlerOps].

    * How the code is modelled

    Integers are [Z], with the truncation to their width written out ([u8] to [u64], [wrap]). A slice, string or buffer is a list of bytes. State is a
    record that the operations take and return. A [Status] is a value. [None] is what the source leaves undefined or excludes by an assertion, an access
    out of bounds, or fuel that ran out; the theorems show a result ([Some]) where they say that an operation returns. The source's pointers into shared
    memory are indices or addresses of a store (nodes of the skip list, the buffer of a batch that is updated while it is iterated over).
    Code of the user and code outside of the repository (comparators, merge operators, files, 64-bit hashes) is an argument with named laws.

    * What the theorems show

    Encodings: round trips of varints, internal keys, wide columns and version edits; the internal order is total; the table-driven CRC is the bitwise one.

    Batches: a batch is a list of operations with save points; timestamps filled in later give the batch that is built with them; batches with other
    timestamp sizes are rebuilt.

    Memtables: a lookup has the outcome of folding the visible versions of a history; the skip list is a sorted set, also for interleaved threads
    (linearizable, and each thread returns when it runs alone); the filter has no false negatives; fragments cover what the tombstones cover; a batch
    becomes consecutive versions, and a prepared section takes effect at its commit.

    Blocks: the iterator over a built block is a cursor over its entries; lookups with the hash index miss nothing.

    Logs: what is written is read, after a crash a prefix with everything that was complete; the reader ends, except in one case that is proved to loop;
    recovery rebuilds the histories of the memtables.

    Versions: batches of edits lead to exactly the files they leave, in levels that a lookup searches completely; valid edits are not refused.

    MANIFEST: after every [LogAndApply], successful or not, the records of the MANIFEST are complete batches that leave the files of the current versions;
    what a crash leaves of it is recovered with whole batches only; a database that is opened again has the files it had.

    Errors of the code that are theorems: a recyclable header in a log of the old format makes the reader loop (LogTermination); a log number of 2^32 or
    more makes a recyclable log read as empty (LogRecycling); timestamps filled into a batch with a range deletion break its checksums
    (WriteBatchTimestamps); a timed value can be too long for its length prefix (WriteBatchTheorems); the recovery mode that skips corrupted records drops
    the rest of a log (RecoveryTheorems); a version that fails the consistency checks is dropped silently at recovery (ManifestTheorems).

    * Fuel

    Loops over data that shrinks are structural or take fuel that the model computes from the data (the bytes or nodes that are left). [ReadRecord],
    [RecoverLogFiles] and [Recover] take fuel as an argument: a bound on the number of records and one on the bytes of the file; the theorems hold for all
    fuel above the number of records and the length of the file, since each record takes at least the bytes of its header.

    * Not modelled

    The orchestration of threads, locks and background work in [DBImpl], flush and compaction, table files above their blocks and their filters, database
    iterators, caches, blob files, transactions above the recovery of prepared sections, options, ports, tools and language bindings. Within the components:
    compression of log records (the build has no streaming codec), record checksums of the log reader, index block iterators, updates in place in
    memtables, flushes during log recovery, the tailer and the dump of MANIFEST files, the waiting of MANIFEST writers for each other, statistics.
    Recovery from a MANIFEST is proved for column families without user-defined timestamps and for edits of table files (the model covers both cases and
    blob files). *)

From Stdlib Require Export ZArith Lia.
From Stdlib Require Export Init.Byte.
From coqutil Require Export Byte Word.LittleEndianList.
From stdpp Require Export base list numbers.
From stdpp Require Import sorting.

#[global] Open Scope Z_scope.

(** * Byte strings

    A [Slice], a [std::string] and the bytes of a file are lists of bytes. *)

Abbreviation bytes := (list byte).

(** The length of a buffer as a [size_t]. *)
Definition slen {A} (l : list A) : Z := Z.of_nat (length l).

(** Prefix and suffix at a [size_t] offset. *)
Definition stake {A} (n : Z) (l : list A) : list A := take (Z.to_nat n) l.
Definition sdrop {A} (n : Z) (l : list A) : list A := drop (Z.to_nat n) l.

(** [n] copies of one byte: [std::string(n, c)]. *)
Definition sfill (n : Z) (c : byte) : bytes := replicate (Z.to_nat n) c.

#[global] Instance byte_eq_dec : EqDecision byte.
Proof. intros x y. destruct (Byte.byte_eq_dec x y); [by left | by right]. Defined.

#[global] Instance byte_inhabited : Inhabited byte := populate Byte.x00.

(** * Machine integers *)

(** Unsigned integers of [w] bits wrap around. *)
Definition wrap (w z : Z) : Z := z mod 2 ^ w.
Abbreviation u8 := (wrap 8).
Abbreviation u16 := (wrap 16).
Abbreviation u32 := (wrap 32).
Abbreviation u64 := (wrap 64).

(** Reinterpretation of a 64-bit pattern as [int64_t]. *)
Definition i64 (z : Z) : Z := (z + 2 ^ 63) mod 2 ^ 64 - 2 ^ 63.

Definition fits (w z : Z) : Prop := 0 <= z < 2 ^ w.

(** * Tactics and hint databases *)

Create HintDb rocks discriminated.
Create Rewrite HintDb slen.

Ltac destruct_ifs :=
  repeat match goal with
  | |- context [if ?b then _ else _] => destruct b eqn:?
  | H : context [if ?b then _ else _] |- _ => destruct b eqn:?
  end.

(** Turns boolean integer tests into propositions. *)
Ltac bool_to_prop :=
  repeat match goal with
  | H : (_ && _)%bool = true |- _ => apply andb_prop in H as [? ?]
  | H : (_ || _)%bool = false |- _ => apply orb_false_elim in H as [? ?]
  | H : negb _ = true |- _ => apply negb_true_iff in H
  | H : negb _ = false |- _ => apply negb_false_iff in H
  | H : (_ =? _) = true |- _ => apply Z.eqb_eq in H
  | H : (_ =? _) = false |- _ => apply Z.eqb_neq in H
  | H : (_ <=? _) = true |- _ => apply Z.leb_le in H
  | H : (_ <=? _) = false |- _ => apply Z.leb_gt in H
  | H : (_ <? _) = true |- _ => apply Z.ltb_lt in H
  | H : (_ <? _) = false |- _ => apply Z.ltb_ge in H
  | H : (_ >=? _) = _ |- _ => rewrite Z.geb_leb in H
  | H : (_ >? _) = _ |- _ => rewrite Z.gtb_ltb in H
  end.

(** * Lengths, prefixes and suffixes *)

Section Lists.
Context {A : Type}.
Implicit Types l k : list A.

Lemma slen_nonneg l : 0 <= slen l.
Proof. unfold slen. lia. Qed.

Lemma slen_nil : slen (@nil A) = 0.
Proof. done. Qed.

Lemma slen_cons x l : slen (x :: l) = 1 + slen l.
Proof. unfold slen. simpl length. lia. Qed.

Lemma slen_app l k : slen (l ++ k) = slen l + slen k.
Proof. unfold slen. rewrite length_app. lia. Qed.

Lemma slen_stake n l : slen (stake n l) = Z.min (Z.max 0 n) (slen l).
Proof. unfold slen, stake. rewrite length_take. lia. Qed.

Lemma slen_sdrop n l : slen (sdrop n l) = Z.max 0 (slen l - Z.max 0 n).
Proof. unfold slen, sdrop. rewrite length_drop. lia. Qed.

Lemma slen_zero l : slen l = 0 -> l = [].
Proof. destruct l; [done |]. rewrite slen_cons. pose proof (slen_nonneg l). lia. Qed.

Lemma stake_sdrop n l : stake n l ++ sdrop n l = l.
Proof. apply take_drop. Qed.

Lemma stake_ge n l : slen l <= n -> stake n l = l.
Proof. unfold slen, stake. intros. apply take_ge. lia. Qed.

Lemma sdrop_ge n l : slen l <= n -> sdrop n l = [].
Proof. unfold slen, sdrop. intros. apply drop_ge. lia. Qed.

Lemma stake_le0 n l : n <= 0 -> stake n l = [].
Proof. unfold stake. intros. by replace (Z.to_nat n) with 0%nat by lia. Qed.

Lemma sdrop_le0 n l : n <= 0 -> sdrop n l = l.
Proof. unfold sdrop. intros. by replace (Z.to_nat n) with 0%nat by lia. Qed.

Lemma stake_app_exact n l k : n = slen l -> stake n (l ++ k) = l.
Proof. intros ->. unfold stake, slen. rewrite Nat2Z.id. apply take_app_length. Qed.

Lemma sdrop_app_exact n l k : n = slen l -> sdrop n (l ++ k) = k.
Proof. intros ->. unfold sdrop, slen. rewrite Nat2Z.id. apply drop_app_length. Qed.

Lemma stake_app_le n l k : n <= slen l -> stake n (l ++ k) = stake n l.
Proof. unfold stake, slen. intros. apply take_app_le. lia. Qed.

Lemma stake_app_ge n l k : slen l <= n -> stake n (l ++ k) = l ++ stake (n - slen l) k.
Proof.
  unfold stake, slen. intros. rewrite take_app_ge by lia.
  do 2 f_equal. lia.
Qed.

Lemma sdrop_app_le n l k : n <= slen l -> sdrop n (l ++ k) = sdrop n l ++ k.
Proof. unfold sdrop, slen. intros. apply drop_app_le. lia. Qed.

Lemma sdrop_app_ge n l k : slen l <= n -> sdrop n (l ++ k) = sdrop (n - slen l) k.
Proof.
  unfold sdrop, slen. intros. rewrite drop_app_ge by lia.
  f_equal. lia.
Qed.

Lemma sdrop_sdrop n m l : 0 <= n -> 0 <= m -> sdrop n (sdrop m l) = sdrop (m + n) l.
Proof. unfold sdrop. intros. rewrite drop_drop. f_equal. lia. Qed.

Lemma stake_stake n m l : 0 <= n -> 0 <= m -> stake n (stake m l) = stake (Z.min n m) l.
Proof. unfold stake. intros. rewrite take_take. f_equal. lia. Qed.
End Lists.

(** A prefix of [a ++ b] is a proper prefix of [a], or [a] and a prefix of [b]. *)
Lemma cut_app {A} (l e a b : list A) : l ++ e = a ++ b ->
  (exists e', l ++ e' = a /\ e' <> []) \/ exists l', l = a ++ l' /\ l' ++ e = b.
Proof.
  intros [(k & -> & ->) | (k & -> & ->)]%app_eq_inv; [right; by exists k |].
  destruct k; [right; exists []; by rewrite !app_nil_r | left; by eexists].
Qed.

Lemma sdrop_stake {A} n m (l : list A) : 0 <= n -> sdrop n (stake m l) = stake (m - n) (sdrop n l).
Proof.
  intros Hn. unfold sdrop, stake. rewrite skipn_firstn_comm. f_equal. lia.
Qed.

Lemma fold_left_pointwise {A B} (f g : A -> B -> A) (l : list B) (a : A) :
  (forall a b, f a b = g a b) -> fold_left f l a = fold_left g l a.
Proof.
  intros H. revert a. induction l as [| b l IH]; intros a; simpl; [done |].
  by rewrite H, IH.
Qed.

Lemma slen_sfill n c : slen (sfill n c) = Z.max 0 n.
Proof. unfold slen, sfill. rewrite length_replicate. lia. Qed.

Lemma slen_le_split n z : slen (le_split n z) = Z.of_nat n.
Proof. unfold slen. by rewrite length_le_split. Qed.

#[export] Hint Rewrite @slen_nil @slen_cons @slen_app @slen_stake @slen_sdrop
  slen_sfill slen_le_split @length_app @length_nil : slen.

(** Linear arithmetic over buffer lengths. *)
Ltac slen_facts :=
  repeat match goal with
  | |- context [@slen ?A ?l] => lazymatch goal with
      | _ : 0 <= @slen A l |- _ => fail
      | _ => pose proof (@slen_nonneg A l)
      end
  | _ : context [@slen ?A ?l] |- _ => lazymatch goal with
      | _ : 0 <= @slen A l |- _ => fail
      | _ => pose proof (@slen_nonneg A l)
      end
  end.
Ltac slia := autorewrite with slen in *; slen_facts; lia.

(** * Bits *)

Lemma wrap_small w z : fits w z -> wrap w z = z.
Proof. apply Z.mod_small. Qed.

Lemma wrap_fits w z : 0 <= w -> fits w (wrap w z).
Proof. intros. apply Z.mod_pos_bound. lia. Qed.

(** A number that is given fits. *)
Ltac small_fits := unfold fits; split; [vm_compute; discriminate | vm_compute; reflexivity].
Lemma fits_mono v w z : v <= w -> fits v z -> fits w z.
Proof.
  unfold fits. intros Hvw Hz. pose proof (Z.pow_le_mono_r 2 v w). lia.
Qed.

Lemma wrap_land w z : 0 <= w -> wrap w z = Z.land z (Z.ones w).
Proof. intros. symmetry. by apply Z.land_ones. Qed.

(** A non-negative number is below [2^w] exactly when its bits from [w] on are 0. *)
Lemma fits_bits w z : 0 <= w -> 0 <= z ->
  (fits w z <-> forall i, w <= i -> Z.testbit z i = false).
Proof.
  intros Hw Hz. split.
  - intros Hf i Hi. rewrite <- (wrap_small w z Hf).
    unfold wrap. apply Z.mod_pow2_bits_high. lia.
  - intros H. unfold fits. split; [done |].
    destruct (Z.eq_dec z 0) as [-> | Hnz]; [lia |].
    apply Z.log2_lt_pow2; [lia |].
    destruct (Z_lt_ge_dec (Z.log2 z) w); [done |].
    specialize (H (Z.log2 z) ltac:(lia)). rewrite Z.bit_log2 in H by lia. done.
Qed.

Lemma fits_lor w a b : 0 <= w -> fits w a -> fits w b -> fits w (Z.lor a b).
Proof.
  intros Hw Ha Hb. assert (0 <= Z.lor a b) by (apply Z.lor_nonneg; unfold fits in *; lia).
  apply fits_bits; [done.. |]. intros i Hi. rewrite Z.lor_spec.
  by rewrite (proj1 (fits_bits w a Hw ltac:(apply Ha)) Ha i Hi),
    (proj1 (fits_bits w b Hw ltac:(apply Hb)) Hb i Hi).
Qed.

Lemma fits_lxor w a b : 0 <= w -> fits w a -> fits w b -> fits w (Z.lxor a b).
Proof.
  intros Hw Ha Hb. assert (0 <= Z.lxor a b) by (apply Z.lxor_nonneg; unfold fits in *; lia).
  apply fits_bits; [done.. |]. intros i Hi. rewrite Z.lxor_spec.
  by rewrite (proj1 (fits_bits w a Hw ltac:(apply Ha)) Ha i Hi),
    (proj1 (fits_bits w b Hw ltac:(apply Hb)) Hb i Hi).
Qed.

Lemma land_le a b : 0 <= a -> 0 <= b -> 0 <= Z.land a b <= a.
Proof.
  intros Ha Hb. split; [apply Z.land_nonneg; lia |].
  pose proof (Z.add_lor_land (Z.ldiff a b) (Z.land a b)) as E.
  rewrite Z.lor_ldiff_and in E.
  assert (Z.land (Z.ldiff a b) (Z.land a b) = 0) as E0.
  { apply Z.bits_inj'. intros n _. rewrite !Z.land_spec, Z.ldiff_spec, Z.bits_0.
    destruct (Z.testbit a n), (Z.testbit b n); done. }
  assert (0 <= Z.ldiff a b) by (apply Z.ldiff_nonneg; lia). lia.
Qed.

Lemma fits_shiftr w z n : 0 <= n -> fits (w + n) z -> 0 <= w -> fits w (Z.shiftr z n).
Proof.
  unfold fits. intros Hn Hz Hw. rewrite Z.shiftr_div_pow2 by lia.
  rewrite Z.pow_add_r in Hz by lia. split; [apply Z.div_pos; lia |].
  apply Z.div_lt_upper_bound; lia.
Qed.

(** A word is its low [n] bits and the rest. *)
Lemma split_low n z : 0 <= n ->
  Z.lor (Z.land z (Z.ones n)) (Z.shiftl (Z.shiftr z n) n) = z.
Proof.
  intros Hn. apply Z.bits_inj'. intros i Hi.
  rewrite Z.lor_spec, Z.land_spec, Z.shiftl_spec by lia.
  destruct (Z.lt_ge_cases i n).
  - rewrite Z.ones_spec_low by lia.
    rewrite (Z.testbit_neg_r _ (i - n)) by lia. by rewrite andb_true_r, orb_false_r.
  - rewrite Z.ones_spec_high by lia. rewrite Z.shiftr_spec by lia.
    rewrite andb_false_r. simpl. f_equal. lia.
Qed.

(** Fields of a word that do not overlap add up. *)
Lemma lor_shift_add n a b : 0 <= n -> fits n b -> Z.lor (a * 2 ^ n) b = a * 2 ^ n + b.
Proof.
  intros Hn Hb. rewrite <- (Z.add_lor_land (a * 2 ^ n) b).
  enough (Z.land (a * 2 ^ n) b = 0) as -> by lia.
  apply Z.bits_inj'. intros i Hi. rewrite Z.land_spec, Z.bits_0.
  destruct (Z.ltb_spec i n); [by rewrite Z.mul_pow2_bits_low by lia |].
  rewrite (proj1 (fits_bits n b Hn ltac:(apply Hb)) Hb i) by lia. apply andb_false_r.
Qed.

(** Complement of a word. *)
Lemma lxor_ones w z : 0 <= w -> fits w z -> Z.lxor z (Z.ones w) = Z.ones w - z.
Proof.
  intros Hw Hz. rewrite Z.sub_nocarry_ldiff.
  - apply Z.bits_inj'. intros i Hi. rewrite Z.lxor_spec, Z.ldiff_spec.
    rewrite Z.testbit_ones_nonneg by lia. destruct (Z.ltb_spec i w).
    + by destruct (Z.testbit z i).
    + by rewrite (proj1 (fits_bits w z Hw ltac:(apply Hz)) Hz i ltac:(lia)).
  - apply Z.bits_inj'. intros i Hi. rewrite Z.ldiff_spec, Z.bits_0.
    rewrite Z.testbit_ones_nonneg by lia. destruct (Z.ltb_spec i w).
    + by rewrite andb_false_r.
    + by rewrite (proj1 (fits_bits w z Hw ltac:(apply Hz)) Hz i ltac:(lia)).
Qed.

Lemma byte_range b : 0 <= byte.unsigned b < 256.
Proof. apply byte.unsigned_range. Qed.

Lemma byte_of_Z_small z : 0 <= z < 256 -> byte.unsigned (byte.of_Z z) = z.
Proof. intros. rewrite byte.unsigned_of_Z. by apply Z.mod_small. Qed.

Lemma byte_of_Z_wrap z z' : z mod 256 = z' mod 256 -> byte.of_Z z = byte.of_Z z'.
Proof.
  intros E. apply byte.unsigned_inj. rewrite !byte.unsigned_of_Z. apply E.
Qed.

#[export] Hint Resolve slen_nonneg byte_range : rocks.

(** * Sorted lists *)

Lemma StronglySorted_map {A A'} (f : A -> A') (P : A -> Prop) (Q : A' -> A' -> Prop) (Q' : A -> A -> Prop) l :
  (forall x y, P x -> P y -> Q (f x) (f y) -> Q' x y) -> Forall P l ->
  StronglySorted Q (map f l) -> StronglySorted Q' l.
Proof.
  intros HQ HP. induction HP as [| x l Hx Hl IH]; intros Hs; [constructor |].
  apply StronglySorted_inv in Hs as [Hs Hf]. constructor; [by apply IH |].
  apply Forall_map in Hf. clear IH Hs. induction Hl; [done |].
  apply list.Forall_cons in Hf as [? ?]. constructor; [by apply HQ | by apply IHHl].
Qed.

Lemma StronglySorted_weaken {A} (P : A -> Prop) (Q Q' : A -> A -> Prop) l :
  (forall x y, P x -> P y -> Q x y -> Q' x y) -> Forall P l -> StronglySorted Q l -> StronglySorted Q' l.
Proof.
  intros HQ HP Hs. apply (StronglySorted_map (fun x => x) P Q Q'); [done.. |]. by rewrite map_id.
Qed.

Lemma StronglySorted_filter {A} (Q : A -> A -> Prop) (P : A -> Prop) `{forall x, Decision (P x)} l :
  StronglySorted Q l -> StronglySorted Q (filter P l).
Proof.
  induction 1 as [| x l Hs IH Hf]; [constructor |]. rewrite filter_cons.
  destruct (decide (P x)); [| done]. constructor; [done |].
  rewrite list.Forall_forall in Hf |- *. intros y [_ Hy]%list_elem_of_filter. by apply Hf.
Qed.

Lemma StronglySorted_lookup_lt {A} (Q : A -> A -> Prop) l i j x y :
  StronglySorted Q l -> (i < j)%nat -> l !! i = Some x -> l !! j = Some y -> Q x y.
Proof.
  intros Hs. revert i j. induction Hs as [| z l Hs IH Hf]; intros i j Hij Hx Hy; [done |].
  destruct j as [| j]; [lia |]. destruct i as [| i]; cbn in Hx, Hy; [| apply (IH i j); [lia | done..]].
  injection Hx as <-. rewrite list.Forall_forall in Hf. apply Hf. by apply list_elem_of_lookup_2 with j.
Qed.

Lemma StronglySorted_rev {A} (Q : A -> A -> Prop) l :
  StronglySorted Q l -> StronglySorted (fun x y => Q y x) (rev l).
Proof.
  induction 1 as [| x l Hs IH Hf]; simpl; [constructor |].
  apply StronglySorted_app. split_and!; [| done | repeat constructor].
  intros a b Ha ->%list_elem_of_singleton. rewrite list.Forall_forall in Hf. apply Hf.
  by rewrite list_elem_of_In, <- in_rev, <- list_elem_of_In in Ha.
Qed.

Lemma Forall_filter_holds {A} (P Q : A -> Prop) `{forall x, Decision (Q x)} l :
  (forall x, Q x -> P x) -> Forall P (filter Q l).
Proof. intros HP. apply list.Forall_forall. intros x [Hx _]%list_elem_of_filter. by apply HP. Qed.
Lemma Forall_filter_sub {A} (P Q : A -> Prop) `{forall x, Decision (Q x)} l :
  Forall P l -> Forall P (filter Q l).
Proof. rewrite !list.Forall_forall. intros HP x [_ Hx]%list_elem_of_filter. by apply HP. Qed.

(** * Updates of records

    A record with many fields has an instance of [Rebuild], which builds it from its fields; the
    update of a field replaces the projection of the field in there. *)

Class Rebuild (R : Type) : Type := rebuild : R -> R.
Class Update {R T : Type} (field : R -> T) : Type := update : (T -> T) -> R -> R.
#[global] Arguments update {R T} field {_} _ _.
Ltac solve_update :=
  lazymatch goal with
  | |- @Update ?R _ ?field =>
      let body := eval hnf in (@rebuild R _) in
      let abstracted := eval pattern field in body in
      lazymatch abstracted with
      | ?g _ => let setter := eval cbv beta in (fun f => g (fun r => f (field r))) in exact setter
      end
  end.
#[global] Hint Extern 1 (Update _) => solve_update : typeclass_instances.
Declare Scope record_scope.
Notation "r <| field := v |>" := (update field (fun _ => v) r)
  (at level 1, left associativity, field at next level, v at level 200) : record_scope.

(** * Filters *)

Lemma find_Forall {A} (f : A -> bool) l : Forall (fun x => f x = false) l -> List.find f l = None.
Proof. induction 1 as [| x l Hx _ IH]; cbn; [done |]. by rewrite Hx. Qed.
Lemma find_snoc {A} (f : A -> bool) l x :
  List.find f (l ++ [x]) = match List.find f l with Some y => Some y | None => if f x then Some x else None end.
Proof. induction l as [| y l IH]; cbn; [done |]. by destruct (f y). Qed.

Lemma filter_none {A} (P : A -> Prop) `{forall x, Decision (P x)} l :
  Forall (fun x => ~ P x) l -> filter P l = [].
Proof. induction 1; [done |]. by rewrite list.filter_cons, decide_False. Qed.
Lemma filter_all {A} (P : A -> Prop) `{forall x, Decision (P x)} l : Forall P l -> filter P l = l.
Proof. induction 1 as [| x l Hx _ IH]; [done |]. by rewrite list.filter_cons, decide_True, IH. Qed.
Lemma filter_map_comm {A B} (f : A -> B) (P : B -> Prop) `{forall x, Decision (P x)} l :
  filter P (map f l) = map f (filter (fun x => P (f x)) l).
Proof.
  induction l as [| x l IH]; [done |]. cbn [map]. rewrite !list.filter_cons, IH. by destruct (decide (P (f x))).
Qed.
Lemma filter_ext_Forall {A} (P Q : A -> Prop) `{forall x, Decision (P x)} `{forall x, Decision (Q x)} l :
  Forall (fun x => P x <-> Q x) l -> filter P l = filter Q l.
Proof.
  induction 1 as [| x l Hx _ IH]; [done |]. rewrite !list.filter_cons, IH.
  destruct (decide (P x)), (decide (Q x)); tauto.
Qed.
