(* ===== verification/Cursor.v ===== *)
(** Cursors over sorted keys: the abstract specification that the iterators of the
    development implement, and what it takes to show it. *)

From S2P Require Import Prelude.

Inductive iter_op :=
| OpSeekToFirst | OpSeekToLast | OpNext | OpPrev | OpSeek (target : bytes) | OpSeekForPrev (target : bytes).

(** The first position at which [f] holds, or the length. *)
Fixpoint first_index {A} (f : A -> bool) (keys : list A) : nat :=
  match keys with
  | [] => O
  | k :: keys => if f k then O else S (first_index f keys)
  end.

(** A cursor over sorted keys is the index of a key, or nothing. [None] as a result is
    for an operation that may only be called on a valid iterator. *)
Definition clip (n i : nat) : option nat := if decide (i < n)%nat then Some i else None.
Definition cursor_op (cmp : bytes -> bytes -> Z) (keys : list bytes) (o : option nat) (op : iter_op) :
    option (option nat) :=
  match op, o with
  | OpSeekToFirst, _ => Some (clip (length keys) 0)
  | OpSeekToLast, _ => Some (clip (length keys) (length keys - 1))
  | OpNext, Some i => Some (clip (length keys) (S i))
  | OpPrev, Some i => Some (if decide (i = 0)%nat then None else Some (i - 1)%nat)
  | OpSeek t, _ => Some (clip (length keys) (first_index (fun k => 0 <=? cmp k t) keys))
  | OpSeekForPrev t, _ =>
      let i := first_index (fun k => 0 <? cmp k t) keys in
      Some (if decide (i = 0)%nat then None else Some (i - 1)%nat)
  | _, None => None
  end.
Definition cursor_ops cmp keys (o : option nat) (ops : list iter_op) : option (option nat) :=
  fold_left (fun r op => match r with Some o => cursor_op cmp keys o op | None => None end) ops (Some o).

(** A sequence of operations of an iterator. *)
Definition iterate_ops {It} (step : It -> iter_op -> option It) (it : It) (ops : list iter_op) : option It :=
  fold_left (fun r op => match r with Some it => step it op | None => None end) ops (Some it).

Lemma first_index_unique {A} (f : A -> bool) keys i : (i <= length keys)%nat ->
  (forall j k, (j < i)%nat -> keys !! j = Some k -> f k = false) ->
  (forall k, keys !! i = Some k -> f k = true) -> first_index f keys = i.
Proof.
  revert i. induction keys as [| k keys IH]; intros i Hi Hlow Hat; cbn [first_index].
  - simpl in Hi. lia.
  - destruct i as [| i]; [by rewrite (Hat k) |]. rewrite (Hlow 0%nat k) by (done || lia).
    f_equal. apply IH; [simpl in Hi; lia | | exact Hat].
    intros j k' Hj. apply (Hlow (S j)). lia.
Qed.

Lemma first_index_le {A} (f : A -> bool) ks : (first_index f ks <= length ks)%nat.
Proof. induction ks as [| k ks IH]; cbn; [done |]. destruct (f k); lia. Qed.
Lemma first_index_holds {A} (f : A -> bool) keys k : keys !! first_index f keys = Some k -> f k = true.
Proof. induction keys as [| k' keys IH]; cbn [first_index]; [done |]. destruct (f k') eqn:E; [by intros [= <-] | exact IH]. Qed.
Lemma first_index_at {A} (f : A -> bool) keys i k : keys !! i = Some k -> f k = true -> (first_index f keys <= i)%nat.
Proof.
  revert i. induction keys as [| k' keys IH]; intros i; cbn [first_index]; [done |]. destruct i as [| i]; cbn.
  - intros [= <-] ->. done.
  - intros Hk Hf. destruct (f k'); [lia |]. apply le_n_S. by apply IH.
Qed.
Lemma first_index_before {A} (f : A -> bool) keys i k : (i < first_index f keys)%nat -> keys !! i = Some k -> f k = false.
Proof. intros Hi Ek. destruct (f k) eqn:E; [| done]. pose proof (first_index_at f keys i k Ek E). lia. Qed.
Lemma first_index_lt {A} (f : A -> bool) keys i k : (i <= first_index f keys)%nat -> keys !! i = Some k -> f k = false ->
  (S i <= first_index f keys)%nat.
Proof.
  intros Hi Hk Hf. destruct (decide (i = first_index f keys)) as [-> |]; [| lia].
  apply first_index_holds in Hk. congruence.
Qed.
Lemma find_first_index {A} (f g : A -> bool) l : (forall x, f x = g x) -> l !! first_index f l = List.find g l.
Proof. intros E. induction l as [| x l IH]; cbn; [done |]. rewrite <- E. by destruct (f x). Qed.

(** An iterator refines the cursor when each of its operations does. *)
Lemma iterate_ops_refines {It} (step : It -> iter_op -> option It) (shows : It -> option nat -> Prop) cmp keys :
  (forall it o op o', shows it o -> cursor_op cmp keys o op = Some o' ->
    exists it', step it op = Some it' /\ shows it' o') ->
  forall ops it o o', shows it o -> cursor_ops cmp keys o ops = Some o' ->
  exists it', iterate_ops step it ops = Some it' /\ shows it' o'.
Proof.
  intros Hstep ops. unfold cursor_ops, iterate_ops.
  induction ops as [| op ops IH]; intros it o o' Hsh Ho; cbn [fold_left] in *.
  - injection Ho as <-. eauto.
  - destruct (cursor_op cmp keys o op) as [o1 |] eqn:E.
    + destruct (Hstep it o op o1 Hsh E) as (it1 & -> & Hsh1). by apply (IH it1 o1).
    + exfalso. clear -Ho. induction ops; [done | auto].
Qed.
