(* ===== verification/Algorithms.v ===== *)
(** The algorithms of the C++ library that the code calls: [std::sort], [std::lower_bound],
    [std::upper_bound]. *)

From stdpp Require Import sorting.
From S2P Require Import Prelude Cursor.

(** * Sorting *)

(** [std::sort], with the comparison that is true of elements in the wanted order. *)
Fixpoint sort_insert {A} (before : A -> A -> bool) (x : A) (l : list A) : list A :=
  match l with
  | [] => [x]
  | y :: l' => if before y x then y :: sort_insert before x l' else x :: l
  end.
Definition sort {A} (before : A -> A -> bool) (l : list A) : list A := foldr (sort_insert before) [] l.

Section Sort.
Context {A : Type} (before : A -> A -> bool).

Lemma sort_insert_Permutation x l : sort_insert before x l ≡ₚ x :: l.
Proof.
  induction l as [| y l IH]; cbn; [done |]. destruct (before y x); [| done]. rewrite IH. apply Permutation_swap.
Qed.
Lemma sort_Permutation l : sort before l ≡ₚ l.
Proof. unfold sort. induction l as [| x l IH]; cbn; [done |]. by rewrite sort_insert_Permutation, IH. Qed.

(** [R] is what the order that the comparison decides guarantees. *)
Context (R : A -> A -> Prop) (HR : forall x y z, R x y -> R y z -> R x z)
  (Hb : forall x y, before y x = true -> R y x) (Hn : forall x y, before y x = false -> R x y).
Lemma sort_sorted l : StronglySorted R (sort before l).
Proof.
  unfold sort. induction l as [| x l IH]; cbn; [constructor |]. revert IH. generalize (foldr (sort_insert before) [] l). clear l.
  induction 1 as [| y l Hs IH Hf]; cbn; [repeat constructor |]. destruct (before y x) eqn:E.
  - constructor; [done |]. rewrite sort_insert_Permutation. constructor; [by apply Hb | done].
  - constructor; [by constructor |]. constructor; [by apply Hn |]. eapply list.Forall_impl; [apply Hf |].
    intros z Hz. apply (HR _ y); [by apply Hn | done].
Qed.
End Sort.

(** * Binary search *)

(** [std::lower_bound] on the positions from [first] on, [len] of them: the first at which [less] is
    false, when [less] is true of a prefix. An element that is not there counts as not less. *)
Fixpoint lower_bound_loop {A} (fuel : nat) (less : A -> bool) (l : list A) (first len : nat) : nat :=
  match fuel with
  | O => first
  | S fuel =>
      if decide (len = 0)%nat then first
      else
        let half := (len / 2)%nat in
        let middle := (first + half)%nat in
        if from_option less false (l !! middle) then lower_bound_loop fuel less l (S middle) (len - half - 1)
        else lower_bound_loop fuel less l first half
  end.
Definition lower_bound {A} (less : A -> bool) (l : list A) (first last : nat) : nat :=
  lower_bound_loop (last - first) less l first (last - first).
(** [std::upper_bound]: [greater] tells whether the value comes before an element. *)
Definition upper_bound {A} (greater : A -> bool) (l : list A) (first last : nat) : nat :=
  lower_bound (fun x => negb (greater x)) l first last.

Section LowerBound.
Context {A : Type} (less : A -> bool) (l : list A).

(** [less] holds of a prefix of the positions from [first] to [last]. *)
Definition partitioned (first last : nat) : Prop := forall i j x y, (first <= i < j)%nat -> (j < last)%nat ->
  l !! i = Some x -> l !! j = Some y -> less y = true -> less x = true.

Lemma lower_bound_loop_spec fuel : forall first len, (len <= fuel)%nat -> (first + len <= length l)%nat -> partitioned first (first + len) ->
  let r := lower_bound_loop fuel less l first len in
  (first <= r <= first + len)%nat /\ (forall i x, (first <= i < r)%nat -> l !! i = Some x -> less x = true) /\
  (forall i x, (r <= i < first + len)%nat -> l !! i = Some x -> less x = false).
Proof.
  induction fuel as [| fuel IH]; intros first len Hf Hlen Hp; cbn [lower_bound_loop]; [split_and!; [lia | lia | |]; intros; lia |].
  destruct (decide (len = 0)%nat) as [-> | Hn]; [split_and!; [lia | lia | |]; intros; lia |].
  assert (Hh : (len / 2 < len)%nat) by (apply Nat.div_lt; lia).
  destruct (lookup_lt_is_Some_2 l (first + len / 2)) as [m Em]; [lia |]. rewrite Em. cbn [from_option]. destruct (less m) eqn:El.
  - destruct (IH (S (first + len / 2)) (len - len / 2 - 1)%nat) as (H1 & H2 & H3); [lia | lia | |].
    + intros i j x y Hij Hj. apply Hp; lia.
    + split_and!; [lia | lia | |].
      * intros i x Hi Ex. destruct (decide (i < S (first + len / 2))%nat) as [Hlt |]; [| apply (H2 i); [lia | done]].
        destruct (decide (i = first + len / 2)%nat) as [-> |]; [congruence |]. apply (Hp i (first + len / 2)%nat x m); [lia | lia | done | done | done].
      * intros i x Hi Ex. apply (H3 i); [lia | done].
  - destruct (IH first (len / 2)%nat) as (H1 & H2 & H3); [lia | lia | |].
    + intros i j x y Hij Hj. apply Hp; lia.
    + split_and!; [lia | lia | exact H2 |]. intros i x Hi Ex. destruct (decide (i < first + len / 2)%nat); [apply (H3 i); [lia | done] |].
      destruct (decide (i = first + len / 2)%nat) as [-> |]; [congruence |]. destruct (less x) eqn:Ei; [| done].
      rewrite <- El. symmetry. apply (Hp (first + len / 2)%nat i m x); [lia | lia | done | done | done].
Qed.
Lemma lower_bound_spec first last : (first <= last <= length l)%nat -> partitioned first last ->
  let r := lower_bound less l first last in
  (first <= r <= last)%nat /\ (forall i x, (first <= i < r)%nat -> l !! i = Some x -> less x = true) /\
  (forall i x, (r <= i < last)%nat -> l !! i = Some x -> less x = false).
Proof.
  intros Hl Hp. pose proof (lower_bound_loop_spec (last - first) first (last - first)) as H.
  replace (first + (last - first))%nat with last in H by lia. apply H; [lia | lia | done].
Qed.
Lemma lower_bound_first_index : partitioned 0 (length l) -> lower_bound less l 0 (length l) = first_index (fun x => negb (less x)) l.
Proof.
  intros Hp. destruct (lower_bound_spec 0 (length l)) as (H1 & H2 & H3); [lia | done |]. symmetry. apply first_index_unique; [lia | |].
  - intros j x Hj Ex. apply negb_false_iff. apply (H2 j); [lia | done].
  - intros x Ex. apply negb_true_iff. eapply H3; [| exact Ex]. split; [lia |]. by apply lookup_lt_Some in Ex.
Qed.
End LowerBound.
