(* ===== verification/Coding.v ===== *)
(** util/coding_lean.h, util/coding.h and util/coding.cc: fixed-width integers,
    varints, zigzag and length-prefixed strings.

    A routine that writes to a buffer returns the bytes it writes; a [Put]
    routine appends them to its string; a [Get] routine that returns [false] is
    [None], and otherwise gives the value and what is left of the input. *)

From S2P Require Import Prelude.

(** * Fixed-width integers *)

(** [port::kLittleEndian] selects a [memcpy] of the native representation on a
    little-endian machine, and explicit shifts elsewhere. *)
Definition EncodeFixed16_at (kLittleEndian : bool) (value : Z) : bytes :=
  if kLittleEndian then le_split 2 value
  else [byte.of_Z (Z.land value 255); byte.of_Z (Z.land (Z.shiftr value 8) 255)].

Definition EncodeFixed32_at (kLittleEndian : bool) (value : Z) : bytes :=
  if kLittleEndian then le_split 4 value
  else [byte.of_Z (Z.land value 255);
        byte.of_Z (Z.land (Z.shiftr value 8) 255);
        byte.of_Z (Z.land (Z.shiftr value 16) 255);
        byte.of_Z (Z.land (Z.shiftr value 24) 255)].

Definition EncodeFixed64_at (kLittleEndian : bool) (value : Z) : bytes :=
  if kLittleEndian then le_split 8 value
  else [byte.of_Z (Z.land value 255);
        byte.of_Z (Z.land (Z.shiftr value 8) 255);
        byte.of_Z (Z.land (Z.shiftr value 16) 255);
        byte.of_Z (Z.land (Z.shiftr value 24) 255);
        byte.of_Z (Z.land (Z.shiftr value 32) 255);
        byte.of_Z (Z.land (Z.shiftr value 40) 255);
        byte.of_Z (Z.land (Z.shiftr value 48) 255);
        byte.of_Z (Z.land (Z.shiftr value 56) 255)].

(** The unsigned value of the byte at an offset of a buffer. *)
Definition byte_at (b : bytes) (i : nat) : Z := byte.unsigned (nth i b Byte.x00).

Definition DecodeFixed16_at (kLittleEndian : bool) (ptr : bytes) : Z :=
  if kLittleEndian then le_combine (take 2 ptr)
  else Z.lor (byte_at ptr 0) (Z.shiftl (byte_at ptr 1) 8).

Definition DecodeFixed32_at (kLittleEndian : bool) (ptr : bytes) : Z :=
  if kLittleEndian then le_combine (take 4 ptr)
  else Z.lor (Z.lor (Z.lor (byte_at ptr 0) (Z.shiftl (byte_at ptr 1) 8))
                (Z.shiftl (byte_at ptr 2) 16))
         (Z.shiftl (byte_at ptr 3) 24).

Definition DecodeFixed64_at (kLittleEndian : bool) (ptr : bytes) : Z :=
  if kLittleEndian then le_combine (take 8 ptr)
  else
    let lo := DecodeFixed32_at kLittleEndian ptr in
    let hi := DecodeFixed32_at kLittleEndian (drop 4 ptr) in
    Z.lor (Z.shiftl hi 32) lo.

(** The routines as the rest of the system calls them, on a little-endian
    machine; [fixed_endian_independent] shows the choice makes no difference. *)
Definition EncodeFixed16 := EncodeFixed16_at true.
Definition EncodeFixed32 := EncodeFixed32_at true.
Definition EncodeFixed64 := EncodeFixed64_at true.
Definition DecodeFixed16 := DecodeFixed16_at true.
Definition DecodeFixed32 := DecodeFixed32_at true.
Definition DecodeFixed64 := DecodeFixed64_at true.

Definition PutFixed16 (dst : bytes) (value : Z) : bytes := dst ++ EncodeFixed16 value.
Definition PutFixed32 (dst : bytes) (value : Z) : bytes := dst ++ EncodeFixed32 value.
Definition PutFixed64 (dst : bytes) (value : Z) : bytes := dst ++ EncodeFixed64 value.

Definition GetFixed16 (input : bytes) : option (Z * bytes) :=
  if slen input <? 2 then None else Some (DecodeFixed16 input, sdrop 2 input).
Definition GetFixed32 (input : bytes) : option (Z * bytes) :=
  if slen input <? 4 then None else Some (DecodeFixed32 input, sdrop 4 input).
Definition GetFixed64 (input : bytes) : option (Z * bytes) :=
  if slen input <? 8 then None else Some (DecodeFixed64 input, sdrop 8 input).

(** * Varints *)

Definition kMaxVarint64Length : Z := 10.

(** Storing a [uint32_t] expression in an [unsigned char] keeps its low 8 bits. *)
Definition EncodeVarint32 (v : Z) : bytes :=
  let B := 128 in
  if v <? Z.shiftl 1 7 then [byte.of_Z v]
  else if v <? Z.shiftl 1 14 then
    [byte.of_Z (Z.lor v B); byte.of_Z (Z.shiftr v 7)]
  else if v <? Z.shiftl 1 21 then
    [byte.of_Z (Z.lor v B); byte.of_Z (Z.lor (Z.shiftr v 7) B);
     byte.of_Z (Z.shiftr v 14)]
  else if v <? Z.shiftl 1 28 then
    [byte.of_Z (Z.lor v B); byte.of_Z (Z.lor (Z.shiftr v 7) B);
     byte.of_Z (Z.lor (Z.shiftr v 14) B); byte.of_Z (Z.shiftr v 21)]
  else
    [byte.of_Z (Z.lor v B); byte.of_Z (Z.lor (Z.shiftr v 7) B);
     byte.of_Z (Z.lor (Z.shiftr v 14) B); byte.of_Z (Z.lor (Z.shiftr v 21) B);
     byte.of_Z (Z.shiftr v 28)].

(** The loop runs at most 9 times on a [uint64_t]: [v >> 63 < 128]. *)
Fixpoint EncodeVarint64_loop (fuel : nat) (v : Z) : bytes :=
  match fuel with
  | O => [byte.of_Z v]
  | S fuel =>
      if v >=? 128 then
        byte.of_Z (Z.lor (Z.land v (128 - 1)) 128) ::
        EncodeVarint64_loop fuel (Z.shiftr v 7)
      else [byte.of_Z v]
  end.
Definition EncodeVarint64 (v : Z) : bytes := EncodeVarint64_loop 9 v.

Fixpoint VarintLength_loop (fuel : nat) (v len : Z) : Z :=
  match fuel with
  | O => len
  | S fuel => if v >=? 128 then VarintLength_loop fuel (Z.shiftr v 7) (len + 1) else len
  end.
Definition VarintLength (v : Z) : Z := VarintLength_loop 9 v 1.

Definition PutVarint32 (dst : bytes) (v : Z) : bytes := dst ++ EncodeVarint32 v.
Definition PutVarint32Varint32 (dst : bytes) (v1 v2 : Z) : bytes :=
  dst ++ (EncodeVarint32 v1 ++ EncodeVarint32 v2).
Definition PutVarint32Varint32Varint32 (dst : bytes) (v1 v2 v3 : Z) : bytes :=
  dst ++ (EncodeVarint32 v1 ++ EncodeVarint32 v2 ++ EncodeVarint32 v3).
Definition PutVarint64 (dst : bytes) (v : Z) : bytes := dst ++ EncodeVarint64 v.
Definition PutVarint64Varint64 (dst : bytes) (v1 v2 : Z) : bytes :=
  dst ++ (EncodeVarint64 v1 ++ EncodeVarint64 v2).
Definition PutVarint32Varint64 (dst : bytes) (v1 v2 : Z) : bytes :=
  dst ++ (EncodeVarint32 v1 ++ EncodeVarint64 v2).
Definition PutVarint32Varint32Varint64 (dst : bytes) (v1 v2 v3 : Z) : bytes :=
  dst ++ (EncodeVarint32 v1 ++ EncodeVarint32 v2 ++ EncodeVarint64 v3).

(** [for (shift = 0; shift <= 28 && p < limit; shift += 7)]. *)
Fixpoint GetVarint32PtrFallback_loop (shift result : Z) (p : bytes) : option (Z * bytes) :=
  match p with
  | [] => None
  | b :: p =>
      if shift <=? 28 then
        let byte := byte.unsigned b in
        if negb (Z.land byte 128 =? 0) then
          GetVarint32PtrFallback_loop (shift + 7)
            (Z.lor result (u32 (Z.shiftl (Z.land byte 127) shift))) p
        else Some (Z.lor result (u32 (Z.shiftl byte shift)), p)
      else None
  end.
Definition GetVarint32PtrFallback (p : bytes) : option (Z * bytes) :=
  GetVarint32PtrFallback_loop 0 0 p.

Definition GetVarint32Ptr (p : bytes) : option (Z * bytes) :=
  match p with
  | b :: p' =>
      let result := byte.unsigned b in
      if Z.land result 128 =? 0 then Some (result, p') else GetVarint32PtrFallback p
  | [] => GetVarint32PtrFallback p
  end.

(** [for (shift = 0; shift <= 63 && p < limit; shift += 7)]. *)
Fixpoint GetVarint64Ptr_loop (shift result : Z) (p : bytes) : option (Z * bytes) :=
  match p with
  | [] => None
  | b :: p =>
      if shift <=? 63 then
        let byte := byte.unsigned b in
        if negb (Z.land byte 128 =? 0) then
          GetVarint64Ptr_loop (shift + 7)
            (Z.lor result (u64 (Z.shiftl (Z.land byte 127) shift))) p
        else Some (Z.lor result (u64 (Z.shiftl byte shift)), p)
      else None
  end.
Definition GetVarint64Ptr (p : bytes) : option (Z * bytes) := GetVarint64Ptr_loop 0 0 p.

Definition GetVarint32 (input : bytes) : option (Z * bytes) := GetVarint32Ptr input.
Definition GetVarint64 (input : bytes) : option (Z * bytes) := GetVarint64Ptr input.

(** * Zigzag *)

(** [(uint64_t(l) << 1) ^ uint64_t(l >> 63)]; the second shift is arithmetic. *)
Definition i64ToZigzag (l : Z) : Z :=
  Z.lxor (u64 (Z.shiftl (u64 l) 1)) (u64 (Z.shiftr l 63)).
Definition zigzagToI64 (n : Z) : Z :=
  i64 (Z.lxor (Z.shiftr n 1) (u64 (- Z.land n 1))).

Definition PutVarsignedint64 (dst : bytes) (v : Z) : bytes :=
  dst ++ EncodeVarint64 (i64ToZigzag v).
Definition GetVarsignedint64Ptr (p : bytes) : option (Z * bytes) :=
  match GetVarint64Ptr p with
  | Some (u, q) => Some (zigzagToI64 u, q)
  | None => None
  end.
Definition GetVarsignedint64 (input : bytes) : option (Z * bytes) :=
  GetVarsignedint64Ptr input.

(** * Length-prefixed strings *)

Definition PutLengthPrefixedSlice (dst value : bytes) : bytes :=
  PutVarint32 dst (u32 (slen value)) ++ value.

(** [total_bytes] starts at the caller's value and adds the size of each part. *)
Definition PutLengthPrefixedSliceParts_total (dst : bytes) (total_bytes : Z)
    (slice_parts : list bytes) : bytes :=
  let total_bytes := fold_left (fun t part => u64 (t + slen part)) slice_parts total_bytes in
  fold_left (fun d part => d ++ part) slice_parts (PutVarint32 dst (u32 total_bytes)).
Definition PutLengthPrefixedSliceParts (dst : bytes) (slice_parts : list bytes) : bytes :=
  PutLengthPrefixedSliceParts_total dst 0 slice_parts.
Definition PutLengthPrefixedSlicePartsWithPadding (dst : bytes) (slice_parts : list bytes)
    (pad_sz : Z) : bytes :=
  PutLengthPrefixedSliceParts_total dst pad_sz slice_parts ++ sfill pad_sz Byte.x00.

(** The result slice and the rest of the input. *)
Definition GetLengthPrefixedSlice (input : bytes) : option (bytes * bytes) :=
  match GetVarint32 input with
  | Some (len, input) =>
      if slen input >=? len then Some (stake len input, sdrop len input) else None
  | None => None
  end.

(** The bytes before the first delimiter, and the input after it. *)
Fixpoint GetSliceUntil_len (delimiter : byte) (data : bytes) : Z :=
  match data with
  | [] => 0
  | c :: data =>
      if decide (c = delimiter) then 0 else 1 + GetSliceUntil_len delimiter data
  end.
Definition GetSliceUntil (slice : bytes) (delimiter : byte) : bytes * bytes :=
  let len := GetSliceUntil_len delimiter slice in
  (stake len slice, sdrop (len + (if len <? slen slice then 1 else 0)) slice).

(** * Fixed-width integers: lemmas *)

Lemma slen_EncodeFixed32 v : slen (EncodeFixed32 v) = 4.
Proof. apply slen_le_split. Qed.
Lemma slen_EncodeFixed64 v : slen (EncodeFixed64 v) = 8.
Proof. apply slen_le_split. Qed.
Lemma slen_EncodeFixed16 v : slen (EncodeFixed16 v) = 2.
Proof. apply slen_le_split. Qed.
#[export] Hint Rewrite slen_EncodeFixed16 slen_EncodeFixed32 slen_EncodeFixed64 : slen.

Lemma decode_split n w v rest : w = Z.of_nat n * 8 -> fits w v ->
  le_combine (take n (le_split n v ++ rest)) = v.
Proof.
  intros -> Hv. rewrite take_app_le by (by rewrite length_le_split).
  rewrite take_ge by (by rewrite length_le_split).
  rewrite le_combine_split. by apply Z.mod_small.
Qed.

Lemma DecodeFixed16_Encode v rest : fits 16 v -> DecodeFixed16 (EncodeFixed16 v ++ rest) = v.
Proof. by apply (decode_split 2 16). Qed.
Lemma DecodeFixed32_Encode v rest : fits 32 v -> DecodeFixed32 (EncodeFixed32 v ++ rest) = v.
Proof. by apply (decode_split 4 32). Qed.
Lemma DecodeFixed64_Encode v rest : fits 64 v -> DecodeFixed64 (EncodeFixed64 v ++ rest) = v.
Proof. by apply (decode_split 8 64). Qed.

Lemma DecodeFixed64_fits b : fits 64 (DecodeFixed64 b).
Proof.
  unfold DecodeFixed64, DecodeFixed64_at.
  pose proof (le_combine_bound (take 8 b)) as H.
  apply (fits_mono (8 * Z.of_nat (length (take 8 b)))); [| exact H].
  rewrite length_take. lia.
Qed.
Lemma DecodeFixed32_fits b : fits 32 (DecodeFixed32 b).
Proof.
  unfold DecodeFixed32, DecodeFixed32_at.
  pose proof (le_combine_bound (take 4 b)) as H.
  apply (fits_mono (8 * Z.of_nat (length (take 4 b)))); [| exact H].
  rewrite length_take. lia.
Qed.

Lemma EncodeFixed64_Decode b : slen b = 8 -> EncodeFixed64 (DecodeFixed64 b) = b.
Proof.
  unfold slen, EncodeFixed64, EncodeFixed64_at, DecodeFixed64, DecodeFixed64_at. intros H.
  rewrite take_ge by lia. apply split_le_combine'. lia.
Qed.

Lemma GetFixed16_Put v rest : fits 16 v -> GetFixed16 (EncodeFixed16 v ++ rest) = Some (v, rest).
Proof.
  intros Hv. unfold GetFixed16. rewrite DecodeFixed16_Encode by done.
  rewrite sdrop_app_exact by (by rewrite slen_EncodeFixed16).
  destruct (Z.ltb_spec (slen (EncodeFixed16 v ++ rest)) 2); [slia | done].
Qed.
Lemma GetFixed32_Put v rest : fits 32 v ->
  GetFixed32 (EncodeFixed32 v ++ rest) = Some (v, rest).
Proof.
  intros Hv. unfold GetFixed32. rewrite DecodeFixed32_Encode by done.
  rewrite sdrop_app_exact by (by rewrite slen_EncodeFixed32).
  destruct (Z.ltb_spec (slen (EncodeFixed32 v ++ rest)) 4); [slia | done].
Qed.

Lemma GetFixed64_Put v rest : fits 64 v ->
  GetFixed64 (EncodeFixed64 v ++ rest) = Some (v, rest).
Proof.
  intros Hv. unfold GetFixed64. rewrite DecodeFixed64_Encode by done.
  rewrite sdrop_app_exact by (by rewrite slen_EncodeFixed64).
  destruct (Z.ltb_spec (slen (EncodeFixed64 v ++ rest)) 8); [slia | done].
Qed.

Lemma byte_of_land255 z : byte.of_Z (Z.land z 255) = byte.of_Z z.
Proof.
  apply byte_of_Z_wrap. change 255 with (Z.ones 8).
  rewrite Z.land_ones by lia. apply Z.mod_mod. lia.
Qed.

Lemma le_combine_cons b l :
  le_combine (b :: l) = Z.lor (byte.unsigned b) (Z.shiftl (le_combine l) 8).
Proof. done. Qed.

Lemma DecodeFixed32_at_agree b : 4 <= slen b ->
  DecodeFixed32_at false b = DecodeFixed32_at true b.
Proof.
  destruct b as [| b0 [| b1 [| b2 [| b3 b]]]]; unfold slen; simpl length; try lia. intros _.
  unfold DecodeFixed32_at, byte_at. simpl take. simpl nth. rewrite ?take_0.
  rewrite !le_combine_cons, le_combine_nil, Z.shiftl_0_l, Z.lor_0_r.
  rewrite !Z.shiftl_lor, !Z.shiftl_shiftl by lia. by rewrite !Z.lor_assoc.
Qed.

(** the byte order of the machine does not matter: on either kind of machine
    the [EncodeFixed] routines write the same bytes, and on a buffer that is long
    enough the [DecodeFixed] routines read the same value. *)
Theorem fixed_endian_independent (v : Z) (b : bytes) :
  EncodeFixed16_at false v = EncodeFixed16_at true v /\
  EncodeFixed32_at false v = EncodeFixed32_at true v /\
  EncodeFixed64_at false v = EncodeFixed64_at true v /\
  (2 <= slen b -> DecodeFixed16_at false b = DecodeFixed16_at true b) /\
  (4 <= slen b -> DecodeFixed32_at false b = DecodeFixed32_at true b) /\
  (8 <= slen b -> DecodeFixed64_at false b = DecodeFixed64_at true b).
Proof.
  unfold EncodeFixed16_at, EncodeFixed32_at, EncodeFixed64_at, le_split.
  rewrite !byte_of_land255, !Z.shiftr_shiftr by lia.
  repeat split; [| apply DecodeFixed32_at_agree |].
  - destruct b as [| b0 [| b1 b]]; unfold slen; simpl length; try lia. intros _.
    unfold DecodeFixed16_at, byte_at. simpl take. simpl nth. rewrite ?take_0.
    by rewrite !le_combine_cons, le_combine_nil, Z.shiftl_0_l, Z.lor_0_r.
  - intros H. unfold DecodeFixed64_at.
    rewrite !DecodeFixed32_at_agree
      by (unfold slen in *; rewrite ?length_drop; lia).
    unfold DecodeFixed32_at. rewrite <- (take_drop 4 (take 8 b)), le_combine_app.
    rewrite take_take, skipn_firstn_comm, length_take.
    replace (4 `min` 8)%nat with 4%nat by lia.
    replace (4 `min` length b)%nat with 4%nat by (unfold slen in H; lia).
    apply Z.lor_comm.
Qed.

(** * Varints: lemmas *)

(** The loop of [EncodeVarint64] unfolds as written: the fuel never runs out on a
    [uint64_t]. *)
Lemma EncodeVarint64_loop_fuel n m v : fits (7 * Z.of_nat n + 7) v -> (n <= m)%nat ->
  EncodeVarint64_loop m v = EncodeVarint64_loop n v.
Proof.
  revert m v. induction n as [| n IH]; intros m v Hv Hm.
  - destruct m; [done |]. simpl. destruct (Z.geb_spec v 128); [| done].
    unfold fits in Hv. simpl in Hv. lia.
  - destruct m; [lia |]. simpl. destruct (v >=? 128); [| done]. f_equal.
    apply IH; [| lia]. apply fits_shiftr; [lia | | lia].
    eapply fits_mono; [| exact Hv]. lia.
Qed.

Lemma EncodeVarint64_unfold v : fits 64 v ->
  EncodeVarint64 v =
    if v >=? 128 then byte.of_Z (Z.lor (Z.land v 127) 128) :: EncodeVarint64 (Z.shiftr v 7)
    else [byte.of_Z v].
Proof.
  intros Hv. unfold EncodeVarint64. rewrite <- (EncodeVarint64_loop_fuel 9 10); [| | lia].
  - done.
  - eapply fits_mono; [| exact Hv]. lia.
Qed.

(** Induction along the loop. *)
Lemma varint_ind (P : Z -> Prop) :
  (forall v, fits 64 v -> v < 128 -> P v) ->
  (forall v, fits 64 v -> 128 <= v -> P (Z.shiftr v 7) -> P v) ->
  forall v, fits 64 v -> P v.
Proof.
  intros Hs Hl v [Hv0 Hv].
  revert Hv. pattern v. apply Zlt_0_ind; [| done]. clear v Hv0.
  intros v IH Hv0 Hv. destruct (Z_lt_ge_dec v 128); [by apply Hs |].
  assert (Z.shiftr v 7 < v /\ 0 <= Z.shiftr v 7) as [? ?].
  { rewrite Z.shiftr_div_pow2 by lia. change (2 ^ 7) with 128.
    split; [apply Z.div_lt; lia | apply Z.div_pos; lia]. }
  apply Hl; [done | lia |]. apply IH; lia.
Qed.

(** The byte written while more follow: bit 7 is set, the low 7 bits are those of [v]. *)
Lemma more_byte v : let b := byte.of_Z (Z.lor (Z.land v 127) 128) in
  (Z.land (byte.unsigned b) 128 =? 0) = false /\ Z.land (byte.unsigned b) 127 = Z.land v 127.
Proof.
  intros b. assert (byte.unsigned b = Z.lor (Z.land v 127) 128) as ->.
  { apply byte_of_Z_small. change 256 with (2 ^ 8). apply fits_lor; [lia | | done].
    change 127 with (Z.ones 7). rewrite Z.land_ones by lia.
    apply (fits_mono 7); [lia |]. apply wrap_fits. lia. }
  rewrite !Z.land_lor_distr_l, <- !Z.land_assoc. split.
  - apply Z.eqb_neq. change (Z.land 127 128) with 0. rewrite Z.land_0_r. done.
  - change (Z.land 128 127) with 0. change (Z.land 127 127) with 127. apply Z.lor_0_r.
Qed.

(** The last byte has bit 7 clear. *)
Lemma last_byte v : 0 <= v < 128 ->
  byte.unsigned (byte.of_Z v) = v /\ (Z.land v 128 =? 0) = true.
Proof.
  intros Hv. split; [apply byte_of_Z_small; lia |]. apply Z.eqb_eq.
  apply Z.bits_inj'. intros i Hi. rewrite Z.land_spec, Z.bits_0.
  change 128 with (2 ^ 7). rewrite Z.pow2_bits_eqb by lia.
  destruct (Z.eqb_spec 7 i) as [<- |]; [| apply andb_false_r].
  rewrite andb_true_r. apply (proj1 (fits_bits 7 v ltac:(lia) ltac:(lia))); [| lia].
  exact Hv.
Qed.

(** Shifting a value of [w - shift] bits into place does not wrap at [w] bits. *)
Lemma wrap_shiftl w v shift : 0 <= shift <= w -> fits (w - shift) v ->
  wrap w (Z.shiftl v shift) = Z.shiftl v shift.
Proof.
  unfold fits. intros Hs Hv. apply wrap_small. unfold fits. rewrite Z.shiftl_mul_pow2 by lia.
  replace (2 ^ w) with (2 ^ (w - shift) * 2 ^ shift)
    by (rewrite <- Z.pow_add_r by lia; f_equal; lia).
  pose proof (Z.pow_pos_nonneg 2 shift). nia.
Qed.

Lemma land127_fits w v : 0 <= w -> fits w v -> fits w (Z.land v 127).
Proof. intros Hw Hv. pose proof (land_le v 127). unfold fits in *. lia. Qed.

Lemma shiftl_low7 v shift : 0 <= shift ->
  Z.lor (Z.shiftl (Z.land v 127) shift) (Z.shiftl (Z.shiftr v 7) (shift + 7)) =
  Z.shiftl v shift.
Proof.
  intros Hs. rewrite (Z.add_comm shift 7), <- Z.shiftl_shiftl by lia.
  rewrite <- Z.shiftl_lor. f_equal. by apply (split_low 7).
Qed.

(** Both decoders run the same loop, at their own width. *)
Section Decoder.
Variable w max_shift : Z.
Variable loop : Z -> Z -> bytes -> option (Z * bytes).
Hypothesis loop_cons : forall shift result b p,
  loop shift result (b :: p) =
    if shift <=? max_shift then
      let byte := byte.unsigned b in
      if negb (Z.land byte 128 =? 0) then
        loop (shift + 7) (Z.lor result (wrap w (Z.shiftl (Z.land byte 127) shift))) p
      else Some (Z.lor result (wrap w (Z.shiftl byte shift)), p)
    else None.
Hypothesis width : max_shift < w.
Hypothesis last_shift : forall shift, shift mod 7 = 0 -> shift < w -> shift <= max_shift.

Lemma loop_Encode v : fits 64 v -> forall shift result rest,
  0 <= shift <= max_shift -> shift mod 7 = 0 -> fits (w - shift) v ->
  loop shift result (EncodeVarint64 v ++ rest) =
    Some (Z.lor result (Z.shiftl v shift), rest).
Proof.
  intros Hv. pattern v. apply varint_ind; [| | done]; clear v Hv.
  - intros v Hv Hs shift result rest Hshift Hmod Hf.
    rewrite EncodeVarint64_unfold by done.
    destruct (Z.geb_spec v 128); [lia |].
    destruct (last_byte v) as [E1 E2]; [unfold fits in Hv; lia |].
    simpl. rewrite loop_cons. cbv zeta. rewrite E1, E2. destruct (Z.leb_spec shift max_shift); [| lia].
    simpl. rewrite wrap_shiftl by (done || lia). done.
  - intros v Hv Hl IH shift result rest Hshift Hmod Hf.
    rewrite EncodeVarint64_unfold by done.
    destruct (Z.geb_spec v 128); [| lia].
    destruct (more_byte v) as [E1 E2].
    simpl. rewrite loop_cons. cbv zeta. rewrite E1, E2. destruct (Z.leb_spec shift max_shift); [| lia].
    assert (7 < w - shift).
    { destruct (Z_le_gt_dec (w - shift) 7); [| lia]. unfold fits in Hf.
      pose proof (Z.pow_le_mono_r 2 (w - shift) 7). lia. }
    rewrite wrap_shiftl by (try apply land127_fits; done || lia). simpl.
    assert ((shift + 7) mod 7 = 0) as Hmod'
      by (rewrite <- Hmod; change 7 with (1 * 7) at 1; apply Z.mod_add; lia).
    rewrite IH; [| split; [lia |]; apply last_shift; [done | lia] | done |].
    + by rewrite <- Z.lor_assoc, shiftl_low7 by lia.
    + replace (w - (shift + 7)) with (w - shift - 7) by lia.
      apply fits_shiftr; [lia | | lia]. by replace (w - shift - 7 + 7) with (w - shift) by lia.
Qed.
End Decoder.

Lemma GetVarint64_Encode v rest : fits 64 v ->
  GetVarint64 (EncodeVarint64 v ++ rest) = Some (v, rest).
Proof.
  intros Hv. unfold GetVarint64, GetVarint64Ptr.
  rewrite (loop_Encode 64 63 GetVarint64Ptr_loop) by (done || lia || (intros; lia)).
  by rewrite Z.shiftl_0_r.
Qed.

Lemma or128_low7 v : byte.of_Z (Z.lor v 128) = byte.of_Z (Z.lor (Z.land v 127) 128).
Proof.
  apply byte_of_Z_wrap. change 256 with (2 ^ 8). rewrite <- !Z.land_ones by lia.
  apply Z.bits_inj'. intros i Hi. rewrite !Z.land_spec, !Z.lor_spec, Z.land_spec.
  change 128 with (2 ^ 7). change 127 with (Z.ones 7).
  rewrite !Z.pow2_bits_eqb by lia. rewrite !Z.testbit_ones_nonneg by lia.
  destruct (Z.testbit v i), (Z.eqb_spec 7 i), (Z.ltb_spec i 8), (Z.ltb_spec i 7);
    simpl; done || lia.
Qed.

(** On a [uint32_t] the unrolled encoder and the loop write the same bytes. *)
Lemma EncodeVarint32_64 v : fits 32 v -> EncodeVarint32 v = EncodeVarint64 v.
Proof.
  intros [Hv0 Hv].
  assert (forall n, 0 <= n -> (Z.shiftr v n >=? 128) = negb (v <? Z.shiftl 1 (n + 7))) as E.
  { intros n Hn. rewrite Z.shiftr_div_pow2, Z.shiftl_1_l, Z.pow_add_r by lia.
    change (2 ^ 7) with 128. pose proof (Z.pow_pos_nonneg 2 n).
    destruct (Z.geb_spec (v / 2 ^ n) 128) as [H1 | H1], (Z.ltb_spec v (2 ^ n * 128)); try done.
    - pose proof (Z.div_lt_upper_bound v (2 ^ n) 128). lia.
    - pose proof (Z.div_le_lower_bound v (2 ^ n) 128). lia. }
  pose proof (E 0) as E0. rewrite Z.shiftr_0_r in E0.
  unfold EncodeVarint64.
  rewrite (EncodeVarint64_loop_fuel 4 9) by (done || lia || (unfold fits; lia)).
  cbn [EncodeVarint64_loop]. rewrite !Z.shiftr_shiftr by lia.
  rewrite <- !(or128_low7), E0, !E by lia. unfold EncodeVarint32. clear E E0.
  change (0 + 7) with 7. change (7 + 7) with 14. change (14 + 7) with 21.
  change (21 + 7) with 28.
  by repeat match goal with |- context [?a <? ?b] => destruct (a <? b) end.
Qed.

Lemma GetVarint32_Encode v rest : fits 32 v ->
  GetVarint32 (EncodeVarint32 v ++ rest) = Some (v, rest).
Proof.
  intros Hv. assert (fits 64 v) by (by apply (fits_mono 32)).
  rewrite EncodeVarint32_64 by done.
  assert (GetVarint32PtrFallback (EncodeVarint64 v ++ rest) = Some (v, rest)) as E.
  { unfold GetVarint32PtrFallback.
    rewrite (loop_Encode 32 28 GetVarint32PtrFallback_loop)
      by (done || lia || (intros s ? ?; pose proof (Z.div_mod s 7); lia)).
    by rewrite Z.shiftl_0_r. }
  unfold GetVarint32, GetVarint32Ptr. rewrite EncodeVarint64_unfold in E |- * by done.
  destruct (Z.geb_spec v 128); simpl.
  - destruct (more_byte v) as [-> _]. done.
  - destruct (last_byte v) as [E1 E2]; [unfold fits in Hv; lia |]. by rewrite E1, E2.
Qed.

Lemma VarintLength_loop_spec n v len :
  VarintLength_loop n v len = len - 1 + slen (EncodeVarint64_loop n v).
Proof.
  revert v len. induction n as [| n IH]; intros v len; simpl; [slia |].
  destruct (v >=? 128); rewrite ?IH; slia.
Qed.

Lemma slen_EncodeVarint64 v : slen (EncodeVarint64 v) = VarintLength v.
Proof. unfold VarintLength, EncodeVarint64. rewrite VarintLength_loop_spec. lia. Qed.

Lemma VarintLength_loop_bounds n v len :
  len <= VarintLength_loop n v len <= len + Z.of_nat n.
Proof.
  revert v len. induction n as [| n IH]; intros v len; simpl; [lia |].
  destruct (v >=? 128); [pose proof (IH (Z.shiftr v 7) (len + 1)) |]; lia.
Qed.

Lemma slen_EncodeVarint32_bounds v : 1 <= slen (EncodeVarint32 v) <= 5.
Proof. unfold EncodeVarint32. destruct_ifs; slia. Qed.

(** varints round trip: decoding the encoding of any 32- or 64-bit value gives
    the value back and leaves exactly what follows it; the unrolled 32-bit encoder
    agrees with the 64-bit loop; [VarintLength] is the encoded length, and the
    encodings fit the buffers of 5 and 10 bytes that the [Put] routines declare. *)
Theorem varint_roundtrip (v : Z) (rest : bytes) :
  (fits 64 v -> GetVarint64 (EncodeVarint64 v ++ rest) = Some (v, rest)) /\
  (fits 32 v -> GetVarint32 (EncodeVarint32 v ++ rest) = Some (v, rest)) /\
  (fits 32 v -> EncodeVarint32 v = EncodeVarint64 v) /\
  slen (EncodeVarint64 v) = VarintLength v /\
  1 <= slen (EncodeVarint32 v) <= 5 /\
  1 <= slen (EncodeVarint64 v) <= kMaxVarint64Length.
Proof.
  split_and!; auto using GetVarint64_Encode, GetVarint32_Encode, EncodeVarint32_64,
    slen_EncodeVarint64; try apply slen_EncodeVarint32_bounds;
    rewrite slen_EncodeVarint64; pose proof (VarintLength_loop_bounds 9 v 1);
    unfold VarintLength, kMaxVarint64Length; lia.
Qed.

(** * Zigzag *)

Lemma i64ToZigzag_value v : - 2 ^ 63 <= v < 2 ^ 63 ->
  i64ToZigzag v = if v <? 0 then - 2 * v - 1 else 2 * v.
Proof.
  intros Hv. unfold i64ToZigzag. rewrite Z.shiftl_mul_pow2, Z.shiftr_div_pow2 by lia.
  destruct (Z.ltb_spec v 0).
  - replace (v / 2 ^ 63) with (-1)
      by (apply Z.div_unique with (v + 2 ^ 63); lia).
    change (u64 (-1)) with (Z.ones 64).
    replace (u64 (u64 v * 2 ^ 1)) with (2 * v + 2 ^ 64).
    + rewrite lxor_ones by (unfold fits; lia). rewrite Z.ones_equiv. lia.
    + unfold wrap. rewrite Z.mul_mod_idemp_l by lia.
      apply Z.mod_unique with (-1); lia.
  - replace (v / 2 ^ 63) with 0 by (symmetry; apply Z.div_small; lia).
    change (u64 0) with 0. rewrite Z.lxor_0_r.
    rewrite (wrap_small 64 v) by (unfold fits; lia).
    rewrite wrap_small by (unfold fits; lia). lia.
Qed.

Lemma zigzagToI64_inverse v : - 2 ^ 63 <= v < 2 ^ 63 -> zigzagToI64 (i64ToZigzag v) = v.
Proof.
  intros Hv. rewrite i64ToZigzag_value by done. unfold zigzagToI64, i64.
  pose proof (fun z => Z.land_ones z 1 ltac:(lia)) as L. change (Z.ones 1) with 1 in L.
  rewrite L, Z.shiftr_div_pow2 by lia. clear L.
  destruct (Z.ltb_spec v 0); change (2 ^ 1) with 2.
  - replace ((-2 * v - 1) / 2) with (- v - 1) by (apply Z.div_unique with 1; lia).
    replace ((-2 * v - 1) mod 2) with 1 by (apply Z.mod_unique with (- v - 1); lia).
    change (u64 (-(1))) with (Z.ones 64). rewrite lxor_ones by (unfold fits; lia).
    rewrite Z.ones_equiv, <- (Z.mod_unique _ (2 ^ 64) 1 (v + 2 ^ 63)); lia.
  - rewrite (Z.mul_comm 2 v), Z.div_mul, Z.mod_mul by lia.
    change (u64 (-0)) with 0. rewrite Z.lxor_0_r, Z.mod_small; lia.
Qed.

(** zigzag coding maps every [int64_t] to a [uint64_t] and back, so a signed
    varint reads back as the value written, and what follows it is left over. *)
Theorem varsigned_roundtrip (v : Z) (rest : bytes) (Hv : - 2 ^ 63 <= v < 2 ^ 63) :
  fits 64 (i64ToZigzag v) /\ zigzagToI64 (i64ToZigzag v) = v /\
  GetVarsignedint64 (PutVarsignedint64 [] v ++ rest) = Some (v, rest).
Proof.
  assert (fits 64 (i64ToZigzag v)).
  { rewrite i64ToZigzag_value by done. unfold fits. destruct (Z.ltb_spec v 0); lia. }
  split_and!; [done | by apply zigzagToI64_inverse |].
  unfold GetVarsignedint64, GetVarsignedint64Ptr, PutVarsignedint64. simpl app.
  pose proof (GetVarint64_Encode (i64ToZigzag v) rest ltac:(done)) as E.
  unfold GetVarint64 in E. rewrite E. by rewrite zigzagToI64_inverse.
Qed.

Lemma varsigned_roundtrip_witness :
  - 2 ^ 63 <= -5 < 2 ^ 63 /\ zigzagToI64 (i64ToZigzag (-5)) = -5.
Proof. split; [lia |]. apply (varsigned_roundtrip (-5) []). lia. Defined.

(** * Length-prefixed strings: lemmas *)

Lemma GetLengthPrefixedSlice_Put v rest : fits 32 (slen v) ->
  GetLengthPrefixedSlice (PutLengthPrefixedSlice [] v ++ rest) = Some (v, rest).
Proof.
  intros Hv. unfold GetLengthPrefixedSlice, PutLengthPrefixedSlice, PutVarint32. simpl app.
  rewrite wrap_small by done. rewrite <- app_assoc, GetVarint32_Encode by done.
  destruct (Z.geb_spec (slen (v ++ rest)) (slen v)); [| slia].
  by rewrite stake_app_exact, sdrop_app_exact.
Qed.

Lemma PutLengthPrefixedSlice_app dst v :
  PutLengthPrefixedSlice dst v = dst ++ PutLengthPrefixedSlice [] v.
Proof. unfold PutLengthPrefixedSlice, PutVarint32. by rewrite <- !app_assoc. Qed.

Lemma fold_parts_app d parts :
  fold_left (fun d part : bytes => d ++ part) parts d = d ++ concat parts.
Proof.
  revert d. induction parts as [| p parts IH]; intros d; simpl; [by rewrite app_nil_r |].
  by rewrite IH, app_assoc.
Qed.

Lemma fold_parts_size t (parts : list bytes) : 0 <= t ->
  t + slen (concat parts) < 2 ^ 64 ->
  fold_left (fun t part => u64 (t + slen part)) parts t = t + slen (concat parts).
Proof.
  revert t. induction parts as [| p parts IH]; intros t Ht Hb; simpl in *; [slia |].
  rewrite wrap_small by (unfold fits; slia). rewrite IH by slia. slia.
Qed.

(** the gathering writers agree with the plain one: writing parts, with or
    without padding, writes the length-prefixed concatenation of the parts and the
    zero padding, which [GetLengthPrefixedSlice] reads back whole. *)
Theorem slice_parts_roundtrip (dst rest : bytes) (parts : list bytes) (pad_sz : Z)
    (Hpad : 0 <= pad_sz) (Hsize : pad_sz + slen (concat parts) < 2 ^ 32) :
  PutLengthPrefixedSliceParts dst parts = PutLengthPrefixedSlice dst (concat parts) /\
  PutLengthPrefixedSlicePartsWithPadding dst parts pad_sz =
    PutLengthPrefixedSlice dst (concat parts ++ sfill pad_sz Byte.x00) /\
  GetLengthPrefixedSlice (PutLengthPrefixedSlicePartsWithPadding [] parts pad_sz ++ rest) =
    Some (concat parts ++ sfill pad_sz Byte.x00, rest).
Proof.
  assert (forall dst, PutLengthPrefixedSlicePartsWithPadding dst parts pad_sz =
    PutLengthPrefixedSlice dst (concat parts ++ sfill pad_sz Byte.x00)) as E.
  { intros d. unfold PutLengthPrefixedSlicePartsWithPadding, PutLengthPrefixedSliceParts_total.
    rewrite fold_parts_app, fold_parts_size by lia. unfold PutLengthPrefixedSlice.
    rewrite <- app_assoc. do 3 f_equal. slia. }
  split_and!; [| apply E |].
  - unfold PutLengthPrefixedSliceParts, PutLengthPrefixedSliceParts_total.
    by rewrite fold_parts_app, fold_parts_size by slia.
  - rewrite E. apply GetLengthPrefixedSlice_Put. unfold fits. slia.
Qed.

Lemma slice_parts_roundtrip_witness :
  GetLengthPrefixedSlice
    (PutLengthPrefixedSlicePartsWithPadding [] [[Byte.x61]; [Byte.x62; Byte.x63]] 2 ++ [Byte.xff])
  = Some ([Byte.x61; Byte.x62; Byte.x63; Byte.x00; Byte.x00], [Byte.xff]).
Proof.
  apply (slice_parts_roundtrip [] [Byte.xff] [[Byte.x61]; [Byte.x62; Byte.x63]] 2); vm_compute;
    congruence.
Defined.
