(* ===== verification/Hash.v ===== *)
(** util/hash.cc and util/fastrange.h: the 32-bit hash of keys, and its reduction to a range. *)

From S2P Require Import Prelude Coding.

(** * [Hash] *)

(** [static_cast<uint32_t>(static_cast<int8_t>(b))]. *)
Definition sign_extend (b : Z) : Z := if b <? 128 then b else b + (2 ^ 32 - 256).

Definition hash_m : Z := 0xc6a4a793.
Fixpoint Hash_loop (fuel : nat) (data : bytes) (h : Z) : bytes * Z :=
  match fuel with
  | O => (data, h)
  | S fuel =>
      if 4 <=? slen data then
        let h := u32 (h + DecodeFixed32 data) in
        let h := u32 (h * hash_m) in
        Hash_loop fuel (sdrop 4 data) (Z.lxor h (Z.shiftr h 16))
      else (data, h)
  end.
Definition Hash (data : bytes) (seed : Z) : Z :=
  let n := slen data in
  let h := u32 (Z.lxor seed (n * hash_m)) in
  let '(data, h) := Hash_loop (length data) data h in
  let h := if slen data =? 3 then u32 (h + u32 (Z.shiftl (sign_extend (byte_at data 2)) 16)) else h in
  let h := if 2 <=? slen data then u32 (h + u32 (Z.shiftl (sign_extend (byte_at data 1)) 8)) else h in
  if 1 <=? slen data then
    let h := u32 (h + sign_extend (byte_at data 0)) in
    let h := u32 (h * hash_m) in
    Z.lxor h (Z.shiftr h 24)
  else h.
Definition GetSliceHash (s : bytes) : Z := Hash s 397.
Definition BloomHash (key : bytes) : Z := Hash key 0xbc9f1d34.

(** * Ranges *)

Definition FastRange32 (hash range : Z) : Z := u32 (Z.shiftr (u64 (range * hash)) 32).

Lemma FastRange32_range hash range : fits 32 hash -> fits 32 range -> 0 < range -> 0 <= FastRange32 hash range < range.
Proof.
  unfold fits, FastRange32. intros Hh Hr Hpos. assert (0 <= range * hash < 2 ^ 64) by nia.
  rewrite (wrap_small 64) by done. rewrite Z.shiftr_div_pow2 by lia.
  assert (0 <= range * hash / 2 ^ 32 < range).
  { split; [apply Z.div_pos; lia | apply Z.div_lt_upper_bound; nia]. }
  rewrite wrap_small; [done | unfold fits; lia].
Qed.

Lemma fits_xorshift h n : 0 <= n -> fits 32 h -> fits 32 (Z.lxor h (Z.shiftr h n)).
Proof.
  intros Hn Hh. apply fits_lxor; [lia | done |]. apply fits_shiftr; [lia | | lia]. by apply (fits_mono 32); [lia |].
Qed.
Lemma Hash_loop_fits fuel data h : fits 32 h -> fits 32 (Hash_loop fuel data h).2.
Proof.
  revert data h. induction fuel as [| fuel IH]; intros data h Hh; cbn [Hash_loop]; [done |]. destruct (4 <=? slen data); [| done].
  apply IH. apply fits_xorshift; [lia |]. by apply wrap_fits.
Qed.
Lemma Hash_fits data seed : fits 32 (Hash data seed).
Proof.
  unfold Hash. pose proof (Hash_loop_fits (length data) data (u32 (Z.lxor seed (slen data * hash_m)))) as Hl.
  destruct (Hash_loop _ _ _) as [rest h]. cbn zeta.
  assert (fits 32 h) by (apply Hl; by apply wrap_fits). destruct_ifs; try (by apply wrap_fits); try done.
  all: apply fits_xorshift; [lia |]; by apply wrap_fits.
Qed.
