(* ===== verification/Crc32c.v ===== *)
(** util/crc32c.h and util/crc32c.cc: CRC-32C by table lookup, the combination of
    two checksums, and the masking of stored checksums; util/math.h's trailing-zero
    count.

    The tables and the routines are those of a build without SSE4.2, ARM or POWER
    CRC instructions; the hardware variants compute the same function.  The address
    of a buffer is a parameter of [ExtendImpl], which aligns its reads. *)

From S2P Require Import Prelude Coding.

Definition table0_ : list Z := [
   0x00000000; 0xf26b8303; 0xe13b70f7; 0x1350f3f4; 0xc79a971f; 0x35f1141c; 0x26a1e7e8; 0xd4ca64eb;
   0x8ad958cf; 0x78b2dbcc; 0x6be22838; 0x9989ab3b; 0x4d43cfd0; 0xbf284cd3; 0xac78bf27; 0x5e133c24;
   0x105ec76f; 0xe235446c; 0xf165b798; 0x030e349b; 0xd7c45070; 0x25afd373; 0x36ff2087; 0xc494a384;
   0x9a879fa0; 0x68ec1ca3; 0x7bbcef57; 0x89d76c54; 0x5d1d08bf; 0xaf768bbc; 0xbc267848; 0x4e4dfb4b;
   0x20bd8ede; 0xd2d60ddd; 0xc186fe29; 0x33ed7d2a; 0xe72719c1; 0x154c9ac2; 0x061c6936; 0xf477ea35;
   0xaa64d611; 0x580f5512; 0x4b5fa6e6; 0xb93425e5; 0x6dfe410e; 0x9f95c20d; 0x8cc531f9; 0x7eaeb2fa;
   0x30e349b1; 0xc288cab2; 0xd1d83946; 0x23b3ba45; 0xf779deae; 0x05125dad; 0x1642ae59; 0xe4292d5a;
   0xba3a117e; 0x4851927d; 0x5b016189; 0xa96ae28a; 0x7da08661; 0x8fcb0562; 0x9c9bf696; 0x6ef07595;
   0x417b1dbc; 0xb3109ebf; 0xa0406d4b; 0x522bee48; 0x86e18aa3; 0x748a09a0; 0x67dafa54; 0x95b17957;
   0xcba24573; 0x39c9c670; 0x2a993584; 0xd8f2b687; 0x0c38d26c; 0xfe53516f; 0xed03a29b; 0x1f682198;
   0x5125dad3; 0xa34e59d0; 0xb01eaa24; 0x42752927; 0x96bf4dcc; 0x64d4cecf; 0x77843d3b; 0x85efbe38;
   0xdbfc821c; 0x2997011f; 0x3ac7f2eb; 0xc8ac71e8; 0x1c661503; 0xee0d9600; 0xfd5d65f4; 0x0f36e6f7;
   0x61c69362; 0x93ad1061; 0x80fde395; 0x72966096; 0xa65c047d; 0x5437877e; 0x4767748a; 0xb50cf789;
   0xeb1fcbad; 0x197448ae; 0x0a24bb5a; 0xf84f3859; 0x2c855cb2; 0xdeeedfb1; 0xcdbe2c45; 0x3fd5af46;
   0x7198540d; 0x83f3d70e; 0x90a324fa; 0x62c8a7f9; 0xb602c312; 0x44694011; 0x5739b3e5; 0xa55230e6;
   0xfb410cc2; 0x092a8fc1; 0x1a7a7c35; 0xe811ff36; 0x3cdb9bdd; 0xceb018de; 0xdde0eb2a; 0x2f8b6829;
   0x82f63b78; 0x709db87b; 0x63cd4b8f; 0x91a6c88c; 0x456cac67; 0xb7072f64; 0xa457dc90; 0x563c5f93;
   0x082f63b7; 0xfa44e0b4; 0xe9141340; 0x1b7f9043; 0xcfb5f4a8; 0x3dde77ab; 0x2e8e845f; 0xdce5075c;
   0x92a8fc17; 0x60c37f14; 0x73938ce0; 0x81f80fe3; 0x55326b08; 0xa759e80b; 0xb4091bff; 0x466298fc;
   0x1871a4d8; 0xea1a27db; 0xf94ad42f; 0x0b21572c; 0xdfeb33c7; 0x2d80b0c4; 0x3ed04330; 0xccbbc033;
   0xa24bb5a6; 0x502036a5; 0x4370c551; 0xb11b4652; 0x65d122b9; 0x97baa1ba; 0x84ea524e; 0x7681d14d;
   0x2892ed69; 0xdaf96e6a; 0xc9a99d9e; 0x3bc21e9d; 0xef087a76; 0x1d63f975; 0x0e330a81; 0xfc588982;
   0xb21572c9; 0x407ef1ca; 0x532e023e; 0xa145813d; 0x758fe5d6; 0x87e466d5; 0x94b49521; 0x66df1622;
   0x38cc2a06; 0xcaa7a905; 0xd9f75af1; 0x2b9cd9f2; 0xff56bd19; 0x0d3d3e1a; 0x1e6dcdee; 0xec064eed;
   0xc38d26c4; 0x31e6a5c7; 0x22b65633; 0xd0ddd530; 0x0417b1db; 0xf67c32d8; 0xe52cc12c; 0x1747422f;
   0x49547e0b; 0xbb3ffd08; 0xa86f0efc; 0x5a048dff; 0x8ecee914; 0x7ca56a17; 0x6ff599e3; 0x9d9e1ae0;
   0xd3d3e1ab; 0x21b862a8; 0x32e8915c; 0xc083125f; 0x144976b4; 0xe622f5b7; 0xf5720643; 0x07198540;
   0x590ab964; 0xab613a67; 0xb831c993; 0x4a5a4a90; 0x9e902e7b; 0x6cfbad78; 0x7fab5e8c; 0x8dc0dd8f;
   0xe330a81a; 0x115b2b19; 0x020bd8ed; 0xf0605bee; 0x24aa3f05; 0xd6c1bc06; 0xc5914ff2; 0x37faccf1;
   0x69e9f0d5; 0x9b8273d6; 0x88d28022; 0x7ab90321; 0xae7367ca; 0x5c18e4c9; 0x4f48173d; 0xbd23943e;
   0xf36e6f75; 0x0105ec76; 0x12551f82; 0xe03e9c81; 0x34f4f86a; 0xc69f7b69; 0xd5cf889d; 0x27a40b9e;
   0x79b737ba; 0x8bdcb4b9; 0x988c474d; 0x6ae7c44e; 0xbe2da0a5; 0x4c4623a6; 0x5f16d052; 0xad7d5351].

Definition table1_ : list Z := [
   0x00000000; 0x13a29877; 0x274530ee; 0x34e7a899; 0x4e8a61dc; 0x5d28f9ab; 0x69cf5132; 0x7a6dc945;
   0x9d14c3b8; 0x8eb65bcf; 0xba51f356; 0xa9f36b21; 0xd39ea264; 0xc03c3a13; 0xf4db928a; 0xe7790afd;
   0x3fc5f181; 0x2c6769f6; 0x1880c16f; 0x0b225918; 0x714f905d; 0x62ed082a; 0x560aa0b3; 0x45a838c4;
   0xa2d13239; 0xb173aa4e; 0x859402d7; 0x96369aa0; 0xec5b53e5; 0xfff9cb92; 0xcb1e630b; 0xd8bcfb7c;
   0x7f8be302; 0x6c297b75; 0x58ced3ec; 0x4b6c4b9b; 0x310182de; 0x22a31aa9; 0x1644b230; 0x05e62a47;
   0xe29f20ba; 0xf13db8cd; 0xc5da1054; 0xd6788823; 0xac154166; 0xbfb7d911; 0x8b507188; 0x98f2e9ff;
   0x404e1283; 0x53ec8af4; 0x670b226d; 0x74a9ba1a; 0x0ec4735f; 0x1d66eb28; 0x298143b1; 0x3a23dbc6;
   0xdd5ad13b; 0xcef8494c; 0xfa1fe1d5; 0xe9bd79a2; 0x93d0b0e7; 0x80722890; 0xb4958009; 0xa737187e;
   0xff17c604; 0xecb55e73; 0xd852f6ea; 0xcbf06e9d; 0xb19da7d8; 0xa23f3faf; 0x96d89736; 0x857a0f41;
   0x620305bc; 0x71a19dcb; 0x45463552; 0x56e4ad25; 0x2c896460; 0x3f2bfc17; 0x0bcc548e; 0x186eccf9;
   0xc0d23785; 0xd370aff2; 0xe797076b; 0xf4359f1c; 0x8e585659; 0x9dface2e; 0xa91d66b7; 0xbabffec0;
   0x5dc6f43d; 0x4e646c4a; 0x7a83c4d3; 0x69215ca4; 0x134c95e1; 0x00ee0d96; 0x3409a50f; 0x27ab3d78;
   0x809c2506; 0x933ebd71; 0xa7d915e8; 0xb47b8d9f; 0xce1644da; 0xddb4dcad; 0xe9537434; 0xfaf1ec43;
   0x1d88e6be; 0x0e2a7ec9; 0x3acdd650; 0x296f4e27; 0x53028762; 0x40a01f15; 0x7447b78c; 0x67e52ffb;
   0xbf59d487; 0xacfb4cf0; 0x981ce469; 0x8bbe7c1e; 0xf1d3b55b; 0xe2712d2c; 0xd69685b5; 0xc5341dc2;
   0x224d173f; 0x31ef8f48; 0x050827d1; 0x16aabfa6; 0x6cc776e3; 0x7f65ee94; 0x4b82460d; 0x5820de7a;
   0xfbc3faf9; 0xe861628e; 0xdc86ca17; 0xcf245260; 0xb5499b25; 0xa6eb0352; 0x920cabcb; 0x81ae33bc;
   0x66d73941; 0x7575a136; 0x419209af; 0x523091d8; 0x285d589d; 0x3bffc0ea; 0x0f186873; 0x1cbaf004;
   0xc4060b78; 0xd7a4930f; 0xe3433b96; 0xf0e1a3e1; 0x8a8c6aa4; 0x992ef2d3; 0xadc95a4a; 0xbe6bc23d;
   0x5912c8c0; 0x4ab050b7; 0x7e57f82e; 0x6df56059; 0x1798a91c; 0x043a316b; 0x30dd99f2; 0x237f0185;
   0x844819fb; 0x97ea818c; 0xa30d2915; 0xb0afb162; 0xcac27827; 0xd960e050; 0xed8748c9; 0xfe25d0be;
   0x195cda43; 0x0afe4234; 0x3e19eaad; 0x2dbb72da; 0x57d6bb9f; 0x447423e8; 0x70938b71; 0x63311306;
   0xbb8de87a; 0xa82f700d; 0x9cc8d894; 0x8f6a40e3; 0xf50789a6; 0xe6a511d1; 0xd242b948; 0xc1e0213f;
   0x26992bc2; 0x353bb3b5; 0x01dc1b2c; 0x127e835b; 0x68134a1e; 0x7bb1d269; 0x4f567af0; 0x5cf4e287;
   0x04d43cfd; 0x1776a48a; 0x23910c13; 0x30339464; 0x4a5e5d21; 0x59fcc556; 0x6d1b6dcf; 0x7eb9f5b8;
   0x99c0ff45; 0x8a626732; 0xbe85cfab; 0xad2757dc; 0xd74a9e99; 0xc4e806ee; 0xf00fae77; 0xe3ad3600;
   0x3b11cd7c; 0x28b3550b; 0x1c54fd92; 0x0ff665e5; 0x759baca0; 0x663934d7; 0x52de9c4e; 0x417c0439;
   0xa6050ec4; 0xb5a796b3; 0x81403e2a; 0x92e2a65d; 0xe88f6f18; 0xfb2df76f; 0xcfca5ff6; 0xdc68c781;
   0x7b5fdfff; 0x68fd4788; 0x5c1aef11; 0x4fb87766; 0x35d5be23; 0x26772654; 0x12908ecd; 0x013216ba;
   0xe64b1c47; 0xf5e98430; 0xc10e2ca9; 0xd2acb4de; 0xa8c17d9b; 0xbb63e5ec; 0x8f844d75; 0x9c26d502;
   0x449a2e7e; 0x5738b609; 0x63df1e90; 0x707d86e7; 0x0a104fa2; 0x19b2d7d5; 0x2d557f4c; 0x3ef7e73b;
   0xd98eedc6; 0xca2c75b1; 0xfecbdd28; 0xed69455f; 0x97048c1a; 0x84a6146d; 0xb041bcf4; 0xa3e32483].

Definition table2_ : list Z := [
   0x00000000; 0xa541927e; 0x4f6f520d; 0xea2ec073; 0x9edea41a; 0x3b9f3664; 0xd1b1f617; 0x74f06469;
   0x38513ec5; 0x9d10acbb; 0x773e6cc8; 0xd27ffeb6; 0xa68f9adf; 0x03ce08a1; 0xe9e0c8d2; 0x4ca15aac;
   0x70a27d8a; 0xd5e3eff4; 0x3fcd2f87; 0x9a8cbdf9; 0xee7cd990; 0x4b3d4bee; 0xa1138b9d; 0x045219e3;
   0x48f3434f; 0xedb2d131; 0x079c1142; 0xa2dd833c; 0xd62de755; 0x736c752b; 0x9942b558; 0x3c032726;
   0xe144fb14; 0x4405696a; 0xae2ba919; 0x0b6a3b67; 0x7f9a5f0e; 0xdadbcd70; 0x30f50d03; 0x95b49f7d;
   0xd915c5d1; 0x7c5457af; 0x967a97dc; 0x333b05a2; 0x47cb61cb; 0xe28af3b5; 0x08a433c6; 0xade5a1b8;
   0x91e6869e; 0x34a714e0; 0xde89d493; 0x7bc846ed; 0x0f382284; 0xaa79b0fa; 0x40577089; 0xe516e2f7;
   0xa9b7b85b; 0x0cf62a25; 0xe6d8ea56; 0x43997828; 0x37691c41; 0x92288e3f; 0x78064e4c; 0xdd47dc32;
   0xc76580d9; 0x622412a7; 0x880ad2d4; 0x2d4b40aa; 0x59bb24c3; 0xfcfab6bd; 0x16d476ce; 0xb395e4b0;
   0xff34be1c; 0x5a752c62; 0xb05bec11; 0x151a7e6f; 0x61ea1a06; 0xc4ab8878; 0x2e85480b; 0x8bc4da75;
   0xb7c7fd53; 0x12866f2d; 0xf8a8af5e; 0x5de93d20; 0x29195949; 0x8c58cb37; 0x66760b44; 0xc337993a;
   0x8f96c396; 0x2ad751e8; 0xc0f9919b; 0x65b803e5; 0x1148678c; 0xb409f5f2; 0x5e273581; 0xfb66a7ff;
   0x26217bcd; 0x8360e9b3; 0x694e29c0; 0xcc0fbbbe; 0xb8ffdfd7; 0x1dbe4da9; 0xf7908dda; 0x52d11fa4;
   0x1e704508; 0xbb31d776; 0x511f1705; 0xf45e857b; 0x80aee112; 0x25ef736c; 0xcfc1b31f; 0x6a802161;
   0x56830647; 0xf3c29439; 0x19ec544a; 0xbcadc634; 0xc85da25d; 0x6d1c3023; 0x8732f050; 0x2273622e;
   0x6ed23882; 0xcb93aafc; 0x21bd6a8f; 0x84fcf8f1; 0xf00c9c98; 0x554d0ee6; 0xbf63ce95; 0x1a225ceb;
   0x8b277743; 0x2e66e53d; 0xc448254e; 0x6109b730; 0x15f9d359; 0xb0b84127; 0x5a968154; 0xffd7132a;
   0xb3764986; 0x1637dbf8; 0xfc191b8b; 0x595889f5; 0x2da8ed9c; 0x88e97fe2; 0x62c7bf91; 0xc7862def;
   0xfb850ac9; 0x5ec498b7; 0xb4ea58c4; 0x11abcaba; 0x655baed3; 0xc01a3cad; 0x2a34fcde; 0x8f756ea0;
   0xc3d4340c; 0x6695a672; 0x8cbb6601; 0x29faf47f; 0x5d0a9016; 0xf84b0268; 0x1265c21b; 0xb7245065;
   0x6a638c57; 0xcf221e29; 0x250cde5a; 0x804d4c24; 0xf4bd284d; 0x51fcba33; 0xbbd27a40; 0x1e93e83e;
   0x5232b292; 0xf77320ec; 0x1d5de09f; 0xb81c72e1; 0xccec1688; 0x69ad84f6; 0x83834485; 0x26c2d6fb;
   0x1ac1f1dd; 0xbf8063a3; 0x55aea3d0; 0xf0ef31ae; 0x841f55c7; 0x215ec7b9; 0xcb7007ca; 0x6e3195b4;
   0x2290cf18; 0x87d15d66; 0x6dff9d15; 0xc8be0f6b; 0xbc4e6b02; 0x190ff97c; 0xf321390f; 0x5660ab71;
   0x4c42f79a; 0xe90365e4; 0x032da597; 0xa66c37e9; 0xd29c5380; 0x77ddc1fe; 0x9df3018d; 0x38b293f3;
   0x7413c95f; 0xd1525b21; 0x3b7c9b52; 0x9e3d092c; 0xeacd6d45; 0x4f8cff3b; 0xa5a23f48; 0x00e3ad36;
   0x3ce08a10; 0x99a1186e; 0x738fd81d; 0xd6ce4a63; 0xa23e2e0a; 0x077fbc74; 0xed517c07; 0x4810ee79;
   0x04b1b4d5; 0xa1f026ab; 0x4bdee6d8; 0xee9f74a6; 0x9a6f10cf; 0x3f2e82b1; 0xd50042c2; 0x7041d0bc;
   0xad060c8e; 0x08479ef0; 0xe2695e83; 0x4728ccfd; 0x33d8a894; 0x96993aea; 0x7cb7fa99; 0xd9f668e7;
   0x9557324b; 0x3016a035; 0xda386046; 0x7f79f238; 0x0b899651; 0xaec8042f; 0x44e6c45c; 0xe1a75622;
   0xdda47104; 0x78e5e37a; 0x92cb2309; 0x378ab177; 0x437ad51e; 0xe63b4760; 0x0c158713; 0xa954156d;
   0xe5f54fc1; 0x40b4ddbf; 0xaa9a1dcc; 0x0fdb8fb2; 0x7b2bebdb; 0xde6a79a5; 0x3444b9d6; 0x91052ba8].

Definition table3_ : list Z := [
   0x00000000; 0xdd45aab8; 0xbf672381; 0x62228939; 0x7b2231f3; 0xa6679b4b; 0xc4451272; 0x1900b8ca;
   0xf64463e6; 0x2b01c95e; 0x49234067; 0x9466eadf; 0x8d665215; 0x5023f8ad; 0x32017194; 0xef44db2c;
   0xe964b13d; 0x34211b85; 0x560392bc; 0x8b463804; 0x924680ce; 0x4f032a76; 0x2d21a34f; 0xf06409f7;
   0x1f20d2db; 0xc2657863; 0xa047f15a; 0x7d025be2; 0x6402e328; 0xb9474990; 0xdb65c0a9; 0x06206a11;
   0xd725148b; 0x0a60be33; 0x6842370a; 0xb5079db2; 0xac072578; 0x71428fc0; 0x136006f9; 0xce25ac41;
   0x2161776d; 0xfc24ddd5; 0x9e0654ec; 0x4343fe54; 0x5a43469e; 0x8706ec26; 0xe524651f; 0x3861cfa7;
   0x3e41a5b6; 0xe3040f0e; 0x81268637; 0x5c632c8f; 0x45639445; 0x98263efd; 0xfa04b7c4; 0x27411d7c;
   0xc805c650; 0x15406ce8; 0x7762e5d1; 0xaa274f69; 0xb327f7a3; 0x6e625d1b; 0x0c40d422; 0xd1057e9a;
   0xaba65fe7; 0x76e3f55f; 0x14c17c66; 0xc984d6de; 0xd0846e14; 0x0dc1c4ac; 0x6fe34d95; 0xb2a6e72d;
   0x5de23c01; 0x80a796b9; 0xe2851f80; 0x3fc0b538; 0x26c00df2; 0xfb85a74a; 0x99a72e73; 0x44e284cb;
   0x42c2eeda; 0x9f874462; 0xfda5cd5b; 0x20e067e3; 0x39e0df29; 0xe4a57591; 0x8687fca8; 0x5bc25610;
   0xb4868d3c; 0x69c32784; 0x0be1aebd; 0xd6a40405; 0xcfa4bccf; 0x12e11677; 0x70c39f4e; 0xad8635f6;
   0x7c834b6c; 0xa1c6e1d4; 0xc3e468ed; 0x1ea1c255; 0x07a17a9f; 0xdae4d027; 0xb8c6591e; 0x6583f3a6;
   0x8ac7288a; 0x57828232; 0x35a00b0b; 0xe8e5a1b3; 0xf1e51979; 0x2ca0b3c1; 0x4e823af8; 0x93c79040;
   0x95e7fa51; 0x48a250e9; 0x2a80d9d0; 0xf7c57368; 0xeec5cba2; 0x3380611a; 0x51a2e823; 0x8ce7429b;
   0x63a399b7; 0xbee6330f; 0xdcc4ba36; 0x0181108e; 0x1881a844; 0xc5c402fc; 0xa7e68bc5; 0x7aa3217d;
   0x52a0c93f; 0x8fe56387; 0xedc7eabe; 0x30824006; 0x2982f8cc; 0xf4c75274; 0x96e5db4d; 0x4ba071f5;
   0xa4e4aad9; 0x79a10061; 0x1b838958; 0xc6c623e0; 0xdfc69b2a; 0x02833192; 0x60a1b8ab; 0xbde41213;
   0xbbc47802; 0x6681d2ba; 0x04a35b83; 0xd9e6f13b; 0xc0e649f1; 0x1da3e349; 0x7f816a70; 0xa2c4c0c8;
   0x4d801be4; 0x90c5b15c; 0xf2e73865; 0x2fa292dd; 0x36a22a17; 0xebe780af; 0x89c50996; 0x5480a32e;
   0x8585ddb4; 0x58c0770c; 0x3ae2fe35; 0xe7a7548d; 0xfea7ec47; 0x23e246ff; 0x41c0cfc6; 0x9c85657e;
   0x73c1be52; 0xae8414ea; 0xcca69dd3; 0x11e3376b; 0x08e38fa1; 0xd5a62519; 0xb784ac20; 0x6ac10698;
   0x6ce16c89; 0xb1a4c631; 0xd3864f08; 0x0ec3e5b0; 0x17c35d7a; 0xca86f7c2; 0xa8a47efb; 0x75e1d443;
   0x9aa50f6f; 0x47e0a5d7; 0x25c22cee; 0xf8878656; 0xe1873e9c; 0x3cc29424; 0x5ee01d1d; 0x83a5b7a5;
   0xf90696d8; 0x24433c60; 0x4661b559; 0x9b241fe1; 0x8224a72b; 0x5f610d93; 0x3d4384aa; 0xe0062e12;
   0x0f42f53e; 0xd2075f86; 0xb025d6bf; 0x6d607c07; 0x7460c4cd; 0xa9256e75; 0xcb07e74c; 0x16424df4;
   0x106227e5; 0xcd278d5d; 0xaf050464; 0x7240aedc; 0x6b401616; 0xb605bcae; 0xd4273597; 0x09629f2f;
   0xe6264403; 0x3b63eebb; 0x59416782; 0x8404cd3a; 0x9d0475f0; 0x4041df48; 0x22635671; 0xff26fcc9;
   0x2e238253; 0xf36628eb; 0x9144a1d2; 0x4c010b6a; 0x5501b3a0; 0x88441918; 0xea669021; 0x37233a99;
   0xd867e1b5; 0x05224b0d; 0x6700c234; 0xba45688c; 0xa345d046; 0x7e007afe; 0x1c22f3c7; 0xc167597f;
   0xc747336e; 0x1a0299d6; 0x782010ef; 0xa565ba57; 0xbc65029d; 0x6120a825; 0x0302211c; 0xde478ba4;
   0x31035088; 0xec46fa30; 0x8e647309; 0x5321d9b1; 0x4a21617b; 0x9764cbc3; 0xf54642fa; 0x2803e842].

(** * Extend *)

Definition table_get (t : list Z) (i : Z) : Z := nth (Z.to_nat i) t 0.

Definition LE_LOAD32 (p : bytes) : Z := DecodeFixed32 p.

(** One table step over four bytes: the new register and the rest of the input. *)
Definition DefaultCRC32_half (l : Z) (p : bytes) : Z * bytes :=
  let c := u32 (Z.lxor l (LE_LOAD32 p)) in
  (Z.lxor
     (Z.lxor
        (Z.lxor (table_get table3_ (Z.land c 0xff))
           (table_get table2_ (Z.land (Z.shiftr c 8) 0xff)))
        (table_get table1_ (Z.land (Z.shiftr c 16) 0xff)))
     (table_get table0_ (Z.shiftr c 24)),
   sdrop 4 p).

(** Eight bytes: the step done twice. *)
Definition DefaultCRC32 (l : Z) (p : bytes) : Z * bytes :=
  let '(l, p) := DefaultCRC32_half l p in
  DefaultCRC32_half l p.

Definition STEP1 (l : Z) (b : byte) : Z :=
  let c := Z.lxor (Z.land l 0xff) (byte.unsigned b) in
  Z.lxor (table_get table0_ c) (Z.shiftr l 8).

(** [while ((e - p) >= 16)] and [while ((e - p) >= 8)]: each round consumes input,
    so the length of the input bounds the number of rounds. *)
Fixpoint ExtendImpl_16 (fuel : nat) (l : Z) (p : bytes) : Z * bytes :=
  match fuel with
  | O => (l, p)
  | S fuel =>
      if slen p >=? 16 then
        let '(l, p) := DefaultCRC32 l p in
        let '(l, p) := DefaultCRC32 l p in
        ExtendImpl_16 fuel l p
      else (l, p)
  end.
Fixpoint ExtendImpl_8 (fuel : nat) (l : Z) (p : bytes) : Z * bytes :=
  match fuel with
  | O => (l, p)
  | S fuel =>
      if slen p >=? 8 then
        let '(l, p) := DefaultCRC32 l p in ExtendImpl_8 fuel l p
      else (l, p)
  end.

(** [ALIGN(n, m)] on a 64-bit address. *)
Definition ALIGN (n m : Z) : Z := u64 (Z.land (n + (Z.shiftl 1 m - 1)) (Z.lnot (Z.shiftl 1 m - 1))).

Definition ExtendImpl (pval crc : Z) (buf : bytes) : Z :=
  let l := Z.lxor crc 0xffffffff in
  let x := ALIGN pval 4 in
  let '(l, p) :=
    if x <=? pval + slen buf then
      (fold_left STEP1 (stake (x - pval) buf) l, sdrop (x - pval) buf)
    else (l, buf) in
  let '(l, p) := ExtendImpl_16 (length p) l p in
  let '(l, p) := ExtendImpl_8 (length p) l p in
  let l := fold_left STEP1 p l in
  Z.lxor l 0xffffffff.

(** The result does not depend on the address ([crc32c_table_driven]). *)
Definition Extend (crc : Z) (buf : bytes) : Z := ExtendImpl 0 crc buf.
Definition Value (data : bytes) : Z := Extend 0 data.

(** * Masking *)

Definition kMaskDelta : Z := 0xa282ead8.
Definition Mask (crc : Z) : Z :=
  u32 (Z.lor (Z.shiftr crc 15) (u32 (Z.shiftl crc 17)) + kMaskDelta).
Definition Unmask (masked_crc : Z) : Z :=
  let rot := u32 (masked_crc - kMaskDelta) in
  Z.lor (Z.shiftr rot 17) (u32 (Z.shiftl rot 15)).

(** * Combining checksums *)

(** [gf_multiply_sw_1] recurses on [i] up to 32; [fuel] is [32 - i]. *)
Fixpoint gf_multiply_sw_1 (fuel : nat) (p a b m : Z) : Z :=
  match fuel with
  | O => p
  | S fuel =>
      gf_multiply_sw_1 fuel
        (Z.lxor p (Z.land (u32 (0 - Z.land (Z.shiftr b 31) 1)) a))
        (Z.lxor (Z.shiftr a 1) (Z.land (u32 (0 - Z.land a 1)) m))
        (u32 (Z.shiftl b 1)) m
  end.
Definition gf_multiply_sw (a b m : Z) : Z := gf_multiply_sw_1 32 0 a b m.
Definition gf_square_sw (a m : Z) : Z := gf_multiply_sw a a m.

(** [gf_powers_memo<i, m>::value] for [i = 0, ..., n - 1]. *)
Fixpoint gf_powers_make (n : nat) (value m : Z) : list Z :=
  match n with
  | O => []
  | S n => value :: gf_powers_make n (gf_square_sw value m) m
  end.

Definition crc32c_m : Z := 0x82f63b78.
Definition crc32c_powers : list Z := Eval vm_compute in gf_powers_make 62 crc32c_m crc32c_m.

(** [__builtin_ctzl] on a non-zero value. *)
Fixpoint ctz_pos (v : positive) : Z :=
  match v with
  | xO v => 1 + ctz_pos v
  | _ => 0
  end.
Definition CountTrailingZeroBits (v : Z) : Z :=
  match v with
  | Zpos v => ctz_pos v
  | _ => 0
  end.

(** [powers] is an index into the array.  Each round clears the lowest set bit of
    [len_bits], so 64 rounds suffice for a [size_t]. *)
Fixpoint Crc32AppendZeroes_loop (fuel : nat) (crc len_bits powers polynomial : Z)
    (powers_array : list Z) : Z :=
  match fuel with
  | O => crc
  | S fuel =>
      if len_bits =? 0 then crc
      else
        let r := CountTrailingZeroBits len_bits in
        let len_bits := Z.shiftr len_bits r in
        let powers := powers + r in
        let crc := gf_multiply_sw crc (table_get powers_array powers) polynomial in
        Crc32AppendZeroes_loop fuel crc (Z.shiftr len_bits 1) (powers + 1) polynomial
          powers_array
  end.
Definition Crc32AppendZeroes (crc len_over_4 polynomial : Z) (powers_array : list Z) : Z :=
  Crc32AppendZeroes_loop 64 crc len_over_4 0 polynomial powers_array.

Definition InvertedToPure (crc : Z) : Z := Z.lxor crc 0xffffffff.
Definition PureToInverted (crc : Z) : Z := Z.lxor crc 0xffffffff.
Definition PureExtend (crc : Z) (buf : bytes) : Z :=
  InvertedToPure (Extend (PureToInverted crc) buf).

Definition Crc32cCombine (crc1 crc2 crc2len : Z) : Z :=
  let pure_crc1_with_init := InvertedToPure crc1 in
  let pure_crc2_with_init := InvertedToPure crc2 in
  let pure_crc2_init := u32 (-1) in
  let zeros := [Byte.x00; Byte.x00; Byte.x00; Byte.x00] in
  let len := Z.land crc2len 3 in
  let tmp := Z.lxor pure_crc1_with_init pure_crc2_init in
  let tmp := if negb (len =? 0) then PureExtend tmp (stake len zeros) else tmp in
  PureToInverted
    (Z.lxor (Crc32AppendZeroes tmp (crc2len / 4) crc32c_m crc32c_powers)
       pure_crc2_with_init).

(** * The bitwise definition *)

(** One bit of the CRC register: multiplication by x modulo the (reflected)
    CRC-32C polynomial. *)
Definition crc_bit (r : Z) : Z := Z.lxor (Z.shiftr r 1) (if Z.odd r then crc32c_m else 0).
Definition crc_bits (n : N) (r : Z) : Z := N.iter n crc_bit r.

(** The register after one byte, and after a string. *)
Definition crc_byte (r : Z) (b : byte) : Z := crc_bits 8 (Z.lxor r (byte.unsigned b)).
Definition crc_reg (r : Z) (s : bytes) : Z := fold_left crc_byte s r.

(** The CRC-32C of a string, bit by bit: the reference for the table-driven code. *)
Definition crc32c_ref (s : bytes) : Z := Z.lxor (crc_reg 0xffffffff s) 0xffffffff.

(** ** Linearity *)

(** Maps that are linear over exclusive or. *)
Class Linear (f : Z -> Z) : Prop := linear : forall a b, f (Z.lxor a b) = Z.lxor (f a) (f b).
#[global] Hint Mode Linear ! : typeclass_instances.

Lemma lxor_swap a b c d : Z.lxor (Z.lxor a b) (Z.lxor c d) = Z.lxor (Z.lxor a c) (Z.lxor b d).
Proof.
  rewrite !Z.lxor_assoc. f_equal. rewrite <- !Z.lxor_assoc. f_equal. apply Z.lxor_comm.
Qed.

#[global] Instance crc_bit_linear : Linear crc_bit.
Proof.
  intros a b. unfold crc_bit. rewrite Z.shiftr_lxor.
  replace (Z.odd (Z.lxor a b)) with (xorb (Z.odd a) (Z.odd b))
    by (rewrite <- !Z.bit0_odd; symmetry; apply Z.lxor_spec).
  rewrite lxor_swap. f_equal.
  by destruct (Z.odd a), (Z.odd b).
Qed.

#[global] Instance crc_bits_linear n : Linear (crc_bits n).
Proof.
  intros a b. unfold crc_bits. induction n as [| n IH] using N.peano_ind; [done |].
  rewrite !N.iter_succ, IH. apply crc_bit_linear.
Qed.

Lemma linear_0 f `{!Linear f} : f 0 = 0.
Proof.
  pose proof (linear (f := f) 0 0) as E. rewrite Z.lxor_0_l in E.
  rewrite E at 1. apply Z.lxor_nilpotent.
Qed.

(** Two linear maps that agree on the powers of two agree on every word. *)
Lemma linear_ext w f g `{!Linear f, !Linear g} :
  (forall i, (i < w)%nat -> f (2 ^ Z.of_nat i) = g (2 ^ Z.of_nat i)) ->
  forall a, fits (Z.of_nat w) a -> f a = g a.
Proof.
  induction w as [| w IH]; intros Hb a Ha.
  - assert (a = 0) as -> by (unfold fits in Ha; lia). by rewrite !linear_0.
  - assert (Z.lxor (a mod 2 ^ Z.of_nat w) (if Z.testbit a (Z.of_nat w) then 2 ^ Z.of_nat w else 0) = a)
      as <-.
    { apply Z.bits_inj'. intros i Hi. rewrite Z.lxor_spec.
      assert (Z.testbit (if Z.testbit a (Z.of_nat w) then 2 ^ Z.of_nat w else 0) i =
        (Z.testbit a (Z.of_nat w) && (Z.of_nat w =? i))%bool) as ->.
      { destruct (Z.testbit a (Z.of_nat w)); [apply Z.pow2_bits_eqb; lia | apply Z.bits_0]. }
      destruct (Z.lt_trichotomy i (Z.of_nat w)) as [H | [-> | H]].
      - rewrite Z.mod_pow2_bits_low by lia.
        destruct (Z.eqb_spec (Z.of_nat w) i); [lia |]. by rewrite andb_false_r, xorb_false_r.
      - rewrite Z.mod_pow2_bits_high, Z.eqb_refl by lia. by rewrite andb_true_r.
      - rewrite Z.mod_pow2_bits_high by lia. destruct (Z.eqb_spec (Z.of_nat w) i); [lia |].
        rewrite andb_false_r. symmetry.
        apply (proj1 (fits_bits (Z.of_nat (S w)) a ltac:(lia) ltac:(apply Ha)) Ha); lia. }
    rewrite !linear. f_equal.
    + apply IH; [auto with lia |]. apply wrap_fits. lia.
    + destruct (Z.testbit a (Z.of_nat w)); [apply Hb; lia | by rewrite !linear_0].
Qed.

Lemma crc_bit_fits r : fits 32 r -> fits 32 (crc_bit r).
Proof.
  intros Hr. unfold crc_bit. apply fits_lxor; [lia | |].
  - apply fits_shiftr; [lia | | lia]. by apply (fits_mono 32).
  - by destruct (Z.odd r).
Qed.
Lemma crc_bits_fits n r : fits 32 r -> fits 32 (crc_bits n r).
Proof.
  intros Hr. unfold crc_bits. induction n as [| n IH] using N.peano_ind; [done |].
  rewrite N.iter_succ. by apply crc_bit_fits.
Qed.

Lemma crc_bits_0 r : crc_bits 0 r = r.
Proof. done. Qed.

Lemma crc_bits_add n m r : crc_bits (n + m) r = crc_bits n (crc_bits m r).
Proof. apply N.iter_add. Qed.

(** Bits shifted in from above come out unchanged. *)
Lemma crc_bits_shiftl n z : crc_bits n (Z.shiftl z (Z.of_N n)) = z.
Proof.
  revert z. induction n as [| n IH] using N.peano_ind; intros z; [apply Z.shiftl_0_r |].
  unfold crc_bits. rewrite N.iter_succ_r.
  assert (crc_bit (Z.shiftl z (Z.of_N (N.succ n))) = Z.shiftl z (Z.of_N n)) as ->; [| apply IH].
  rewrite N2Z.inj_succ. unfold Z.succ. rewrite <- Z.shiftl_shiftl by lia.
  unfold crc_bit. rewrite <- Z.bit0_odd, Z.shiftl_spec_low, Z.lxor_0_r by lia.
  rewrite Z.shiftr_shiftl_l by lia. by rewrite Z.shiftl_0_r.
Qed.

(** A string acts on the register as its little-endian value, shifted out whole. *)
Lemma crc_reg_value r s :
  crc_reg r s = crc_bits (8 * N.of_nat (length s)) (Z.lxor r (le_combine s)).
Proof.
  revert r. induction s as [| b s IH]; intros r.
  - simpl. by rewrite le_combine_nil, Z.lxor_0_r.
  - change (crc_reg r (b :: s)) with (crc_reg (crc_byte r b) s). rewrite IH. clear IH.
    unfold crc_byte.
    replace (8 * N.of_nat (length (b :: s)))%N with (8 * N.of_nat (length s) + 8)%N
      by (simpl length; lia).
    rewrite crc_bits_add. f_equal.
    rewrite <- (crc_bits_shiftl 8 (le_combine s)) at 1. rewrite <- linear. f_equal.
    rewrite Z.lxor_assoc. f_equal. rewrite le_combine_cons. change (Z.of_N 8) with 8.
    apply Z.bits_inj'. intros i Hi. rewrite Z.lxor_spec, Z.lor_spec.
    destruct (Z.lt_ge_cases i 8).
    + rewrite Z.shiftl_spec_low by lia. by rewrite xorb_false_r, orb_false_r.
    + rewrite (proj1 (fits_bits 8 _ ltac:(lia) ltac:(apply byte_range)) (byte_range b) i) by lia.
      by destruct (Z.testbit _ i).
Qed.

Lemma crc_reg_app r s t : crc_reg r (s ++ t) = crc_reg (crc_reg r s) t.
Proof. apply fold_left_app. Qed.

Lemma crc_reg_fits r s : fits 32 r -> fits 32 (crc_reg r s).
Proof.
  revert r. induction s as [| b s IH]; intros r Hr; [done |]. apply IH.
  apply crc_bits_fits, fits_lxor; [lia | done |].
  apply (fits_mono 8); [lia | apply byte_range].
Qed.

(** ** The table-driven code *)

Lemma table_check (t : list Z) (n : N) :
  forallb (fun i => table_get t (Z.of_nat i) =? crc_bits n (Z.of_nat i)) (seq 0 256) = true ->
  forall c, 0 <= c < 256 -> table_get t c = crc_bits n c.
Proof.
  rewrite forallb_forall. intros H c Hc. specialize (H (Z.to_nat c)).
  rewrite Z2Nat.id in H by lia. apply Z.eqb_eq, H, in_seq. lia.
Qed.

Lemma table0_spec c : 0 <= c < 256 -> table_get table0_ c = crc_bits 8 c.
Proof. apply table_check. by vm_compute. Qed.
Lemma table1_spec c : 0 <= c < 256 -> table_get table1_ c = crc_bits 16 c.
Proof. apply table_check. by vm_compute. Qed.
Lemma table2_spec c : 0 <= c < 256 -> table_get table2_ c = crc_bits 24 c.
Proof. apply table_check. by vm_compute. Qed.
Lemma table3_spec c : 0 <= c < 256 -> table_get table3_ c = crc_bits 32 c.
Proof. apply table_check. by vm_compute. Qed.

Lemma land255_range z : 0 <= Z.land z 255 < 256.
Proof. change 255 with (Z.ones 8). rewrite Z.land_ones by lia. apply Z.mod_pos_bound. lia. Qed.

(** The low byte and the rest, as an exclusive or. *)
Lemma split_low_lxor z : Z.lxor (Z.land z 255) (Z.shiftl (Z.shiftr z 8) 8) = z.
Proof.
  rewrite <- (split_low 8 z) at 3 by lia. change (Z.ones 8) with 255.
  apply Z.bits_inj'. intros i Hi. rewrite Z.lxor_spec, Z.lor_spec.
  destruct (Z.lt_ge_cases i 8).
  - rewrite Z.shiftl_spec_low by lia. by rewrite xorb_false_r, orb_false_r.
  - rewrite (proj1 (fits_bits 8 _ ltac:(lia) ltac:(apply land255_range)) (land255_range z) i)
      by lia. by destruct (Z.testbit _ i).
Qed.

Lemma crc_bits_split n m z : m = (n + 8)%N ->
  crc_bits m z = Z.lxor (crc_bits m (Z.land z 255)) (crc_bits n (Z.shiftr z 8)).
Proof.
  intros ->. rewrite <- (split_low_lxor z) at 1. rewrite linear. f_equal.
  rewrite crc_bits_add. f_equal. apply (crc_bits_shiftl 8).
Qed.

(** Exclusive or with a byte changes the low byte only. *)
Lemma lxor_byte_split l b :
  Z.lxor (Z.land l 255) (byte.unsigned b) = Z.land (Z.lxor l (byte.unsigned b)) 255 /\
  Z.shiftr (Z.lxor l (byte.unsigned b)) 8 = Z.shiftr l 8.
Proof.
  pose proof (byte_range b) as Hb. split.
  - apply Z.bits_inj'. intros i Hi. rewrite Z.lxor_spec, !Z.land_spec, Z.lxor_spec.
    change 255 with (Z.ones 8). rewrite Z.testbit_ones_nonneg by lia.
    destruct (Z.ltb_spec i 8); [by rewrite !andb_true_r |].
    rewrite !andb_false_r. apply (proj1 (fits_bits 8 _ ltac:(lia) ltac:(apply Hb)) Hb). lia.
  - rewrite Z.shiftr_lxor, (Z.shiftr_div_pow2 (byte.unsigned b)), Z.div_small by lia.
    apply Z.lxor_0_r.
Qed.

Lemma STEP1_spec l b : STEP1 l b = crc_byte l b.
Proof.
  unfold STEP1, crc_byte. destruct (lxor_byte_split l b) as [-> E].
  rewrite table0_spec by apply land255_range.
  rewrite (crc_bits_split 0 8 (Z.lxor l _) eq_refl), crc_bits_0, E. reflexivity.
Qed.

Lemma fold_STEP1 p l : fold_left STEP1 p l = crc_reg l p.
Proof. apply fold_left_pointwise, STEP1_spec. Qed.

Lemma DefaultCRC32_half_spec l p : fits 32 l -> 4 <= slen p ->
  DefaultCRC32_half l p = (crc_reg l (stake 4 p), sdrop 4 p).
Proof.
  intros Hl Hp. unfold DefaultCRC32_half, LE_LOAD32. f_equal.
  assert (fits 32 (Z.lxor l (DecodeFixed32 p))) as Hc
    by (apply fits_lxor; [lia | done | apply DecodeFixed32_fits]).
  rewrite wrap_small by done. rewrite crc_reg_value.
  change (le_combine (stake 4 p)) with (DecodeFixed32 p).
  replace (8 * N.of_nat (length (stake 4 p)))%N with 32%N
    by (unfold stake; rewrite length_take; unfold slen in Hp; lia).
  set (c := Z.lxor l (DecodeFixed32 p)) in *. clearbody c. clear l p Hl Hp.
  assert (0 <= Z.shiftr c 24 < 256).
  { change 256 with (2 ^ 8). apply fits_shiftr; [lia | exact Hc | lia]. }
  rewrite table0_spec, table1_spec, table2_spec, table3_spec
    by (apply land255_range || done).
  rewrite (crc_bits_split 24 32 c), (crc_bits_split 16 24 (Z.shiftr c 8)),
    (crc_bits_split 8 16 (Z.shiftr (Z.shiftr c 8) 8)) by done.
  rewrite !Z.shiftr_shiftr by lia.
  by rewrite !Z.lxor_assoc.
Qed.

Lemma DefaultCRC32_spec l p : fits 32 l -> 8 <= slen p ->
  DefaultCRC32 l p = (crc_reg l (stake 8 p), sdrop 8 p).
Proof.
  intros Hl Hp. unfold DefaultCRC32. rewrite DefaultCRC32_half_spec by (done || lia).
  rewrite DefaultCRC32_half_spec by (slia || by apply crc_reg_fits).
  rewrite <- crc_reg_app, sdrop_sdrop by lia. do 2 f_equal.
  rewrite <- (stake_sdrop 4 (stake 8 p)), stake_stake by lia. f_equal.
  unfold stake, sdrop. by rewrite skipn_firstn_comm.
Qed.

Lemma ExtendImpl_16_spec fuel l p : fits 32 l ->
  let '(l', p') := ExtendImpl_16 fuel l p in fits 32 l' /\ crc_reg l' p' = crc_reg l p.
Proof.
  revert l p. induction fuel as [| fuel IH]; intros l p Hl; cbn [ExtendImpl_16]; [done |].
  destruct (Z.geb_spec (slen p) 16); [| done].
  rewrite DefaultCRC32_spec by (done || lia).
  rewrite DefaultCRC32_spec by (slia || by apply crc_reg_fits).
  specialize (IH (crc_reg (crc_reg l (stake 8 p)) (stake 8 (sdrop 8 p))) (sdrop 8 (sdrop 8 p))).
  destruct (ExtendImpl_16 _ _ _) as [l' p'].
  destruct IH as [? ->]; [by do 2 apply crc_reg_fits |]. split; [done |].
  by rewrite <- !crc_reg_app, !stake_sdrop.
Qed.

Lemma ExtendImpl_8_spec fuel l p : fits 32 l ->
  let '(l', p') := ExtendImpl_8 fuel l p in fits 32 l' /\ crc_reg l' p' = crc_reg l p.
Proof.
  revert l p. induction fuel as [| fuel IH]; intros l p Hl; cbn [ExtendImpl_8]; [done |].
  destruct (Z.geb_spec (slen p) 8); [| done].
  rewrite DefaultCRC32_spec by (done || lia).
  specialize (IH (crc_reg l (stake 8 p)) (sdrop 8 p)).
  destruct (ExtendImpl_8 _ _ _) as [l' p'].
  destruct IH as [? ->]; [by apply crc_reg_fits |]. split; [done |].
  by rewrite <- !crc_reg_app, !stake_sdrop.
Qed.

Lemma ExtendImpl_spec pval crc buf : fits 32 crc ->
  ExtendImpl pval crc buf = Z.lxor (crc_reg (Z.lxor crc 0xffffffff) buf) 0xffffffff.
Proof.
  intros Hc. unfold ExtendImpl. rewrite fold_STEP1.
  set (start := if _ <=? _ then _ else _).
  assert (let '(l, p) := start in
    fits 32 l /\ crc_reg l p = crc_reg (Z.lxor crc 0xffffffff) buf) as Hs.
  { assert (fits 32 (Z.lxor crc 0xffffffff)) by (by apply fits_lxor).
    unfold start. destruct (_ <=? _); [| done]. split; [by apply crc_reg_fits |].
    by rewrite <- crc_reg_app, stake_sdrop. }
  destruct start as [l p]. destruct Hs as [Hl <-].
  pose proof (ExtendImpl_16_spec (length p) l p Hl) as H16.
  destruct (ExtendImpl_16 _ _ _) as [l1 p1]. destruct H16 as [Hl1 <-].
  pose proof (ExtendImpl_8_spec (length p1) l1 p1 Hl1) as H8.
  destruct (ExtendImpl_8 _ _ _) as [l2 p2]. destruct H8 as [Hl2 <-].
  by rewrite fold_STEP1.
Qed.

Lemma Extend_spec crc buf : fits 32 crc ->
  Extend crc buf = Z.lxor (crc_reg (Z.lxor crc 0xffffffff) buf) 0xffffffff.
Proof. apply ExtendImpl_spec. Qed.

Lemma Value_spec s : Value s = crc32c_ref s.
Proof. unfold Value. by rewrite Extend_spec by done. Qed.

Lemma lxor_twice a b : Z.lxor (Z.lxor a b) b = a.
Proof. by rewrite Z.lxor_assoc, Z.lxor_nilpotent, Z.lxor_0_r. Qed.

Lemma Extend_fits crc buf : fits 32 crc -> fits 32 (Extend crc buf).
Proof.
  intros Hc. rewrite Extend_spec by done. apply fits_lxor; [lia | | done].
  by apply crc_reg_fits, fits_lxor.
Qed.

Lemma Value_fits s : fits 32 (Value s).
Proof. by apply Extend_fits. Qed.

Lemma Extend_Value s t : Extend (Value s) t = Value (s ++ t).
Proof.
  rewrite Extend_spec by apply Value_fits. rewrite !Value_spec. unfold crc32c_ref.
  by rewrite lxor_twice, crc_reg_app.
Qed.

(** C40: the sliced, table-driven CRC-32C is the bitwise one, at any alignment of the
    buffer: [ExtendImpl] at every address gives the CRC of the bytes appended, so
    [Value] is the CRC-32C of its argument and [Extend] of [Value] is the [Value] of
    the concatenation. *)
Theorem crc32c_table_driven (pval : Z) (s t : bytes) :
  ExtendImpl pval 0 s = crc32c_ref s /\
  ExtendImpl pval (Value s) t = crc32c_ref (s ++ t) /\
  Value s = crc32c_ref s /\ Extend (Value s) t = Value (s ++ t).
Proof.
  split_and!; [| | apply Value_spec | apply Extend_Value].
  - by rewrite ExtendImpl_spec.
  - rewrite ExtendImpl_spec by apply Value_fits.
    rewrite <- Value_spec, <- Extend_Value, Extend_spec; [done | apply Value_fits].
Qed.

(** ** Multiplication modulo the polynomial *)

Lemma select_mask b m : fits 32 m -> Z.land (u32 (0 - Z.b2z b)) m = if b then m else 0.
Proof.
  intros Hm. destruct b; simpl.
  - change (u32 (0 - 1)) with (Z.ones 32). rewrite Z.land_comm, Z.land_ones by lia.
    by apply wrap_small.
  - change (u32 (0 - 0)) with 0. apply Z.land_0_l.
Qed.

Lemma land_1_odd a : Z.land a 1 = Z.b2z (Z.odd a).
Proof.
  pose proof (Z.land_ones a 1 ltac:(lia)) as L. change (Z.ones 1) with 1 in L.
  rewrite L. change (2 ^ 1) with 2. rewrite Zmod_odd. by destruct (Z.odd a).
Qed.

(** The product as a sum over the bits of the multiplier. *)
Fixpoint gf_sum (n : nat) (a b : Z) : Z :=
  match n with
  | O => 0
  | S n => Z.lxor (if Z.testbit b 31 then a else 0) (gf_sum n (crc_bit a) (u32 (Z.shiftl b 1)))
  end.

#[global] Instance gf_sum_linear n b : Linear (fun a => gf_sum n a b).
Proof.
  revert b. induction n as [| n IH]; intros b a a'; cbn [gf_sum]; [done |].
  rewrite crc_bit_linear, (IH _ (crc_bit a) (crc_bit a')), lxor_swap. f_equal.
  by destruct (Z.testbit b 31).
Qed.

#[global] Instance gf_sum_twice_linear n b :
  Linear (fun a => gf_sum n (gf_sum n a b) b).
Proof. intros a a'. by rewrite (gf_sum_linear n b a a'), (gf_sum_linear n b). Qed.

Lemma gf_multiply_sw_1_spec n p a b : fits 32 a ->
  gf_multiply_sw_1 n p a b crc32c_m = Z.lxor p (gf_sum n a b).
Proof.
  revert p a b. induction n as [| n IH]; intros p a b Ha; cbn [gf_multiply_sw_1 gf_sum].
  - by rewrite Z.lxor_0_r.
  - rewrite !land_1_odd, !select_mask, <- Z.bit0_odd, Z.shiftr_spec by (done || lia).
    change (Z.lxor (Z.shiftr a 1) (if Z.odd a then crc32c_m else 0)) with (crc_bit a).
    rewrite IH by (by apply crc_bit_fits). by rewrite Z.lxor_assoc.
Qed.

Lemma gf_multiply_sw_spec a b : fits 32 a -> gf_multiply_sw a b crc32c_m = gf_sum 32 a b.
Proof. intros Ha. unfold gf_multiply_sw. by rewrite gf_multiply_sw_1_spec, Z.lxor_0_l. Qed.

Lemma gf_sum_fits n a b : fits 32 a -> fits 32 (gf_sum n a b).
Proof.
  revert a b. induction n as [| n IH]; intros a b Ha; cbn [gf_sum]; [done |].
  apply fits_lxor; [lia | by destruct (Z.testbit b 31) | by apply IH, crc_bit_fits].
Qed.

(** The first power multiplies by x^32, and each next one is the square of the one
    before: checked on the 32 one-bit words, which is enough by linearity. *)
Lemma power_first a : fits 32 a -> gf_sum 32 a (table_get crc32c_powers 0) = crc_bits 32 a.
Proof.
  apply (linear_ext 32 (fun a => gf_sum 32 a (table_get crc32c_powers 0)) (crc_bits 32)).
  intros i Hi.
  assert (forallb (fun i => gf_sum 32 (2 ^ Z.of_nat i) (table_get crc32c_powers 0) =?
    crc_bits 32 (2 ^ Z.of_nat i)) (seq 0 32) = true) as E by (by vm_compute).
  rewrite forallb_forall in E. apply Z.eqb_eq, E, in_seq. lia.
Qed.

Lemma power_next k a : (k < 61)%nat -> fits 32 a ->
  gf_sum 32 a (table_get crc32c_powers (Z.of_nat (S k))) =
  gf_sum 32 (gf_sum 32 a (table_get crc32c_powers (Z.of_nat k)))
    (table_get crc32c_powers (Z.of_nat k)).
Proof.
  intros Hk. apply (linear_ext 32
    (fun a => gf_sum 32 a (table_get crc32c_powers (Z.of_nat (S k))))
    (fun a => gf_sum 32 (gf_sum 32 a (table_get crc32c_powers (Z.of_nat k)))
       (table_get crc32c_powers (Z.of_nat k)))).
  intros i Hi.
  assert (forallb (fun k => forallb (fun i =>
    gf_sum 32 (2 ^ Z.of_nat i) (table_get crc32c_powers (Z.of_nat (S k))) =?
    gf_sum 32 (gf_sum 32 (2 ^ Z.of_nat i) (table_get crc32c_powers (Z.of_nat k)))
      (table_get crc32c_powers (Z.of_nat k))) (seq 0 32)) (seq 0 61) = true) as E
    by (by vm_compute).
  rewrite forallb_forall in E. specialize (E k ltac:(apply in_seq; lia)).
  rewrite forallb_forall in E. apply Z.eqb_eq, E, in_seq. lia.
Qed.

Lemma power_spec k a : (k < 62)%nat -> fits 32 a ->
  gf_sum 32 a (table_get crc32c_powers (Z.of_nat k)) = crc_bits (32 * 2 ^ N.of_nat k) a.
Proof.
  revert a. induction k as [| k IH]; intros a Hk Ha; [by apply power_first |].
  rewrite power_next by (done || lia).
  rewrite !IH by (try lia; try apply gf_sum_fits; done). rewrite <- crc_bits_add. f_equal.
  rewrite Nat2N.inj_succ, N.pow_succ_r'. lia.
Qed.

Lemma CountTrailingZeroBits_spec v : 0 < v ->
  exists q, 0 <= q /\ 0 <= CountTrailingZeroBits v /\
    v = (2 * q + 1) * 2 ^ CountTrailingZeroBits v.
Proof.
  destruct v as [| v |]; [lia | | lia]. intros _. simpl. induction v as [v _ | v IH |]; simpl.
  - exists (Zpos v). lia.
  - destruct IH as (q & Hq & Hr & E). exists q. split_and!; [done | lia |].
    rewrite Z.pow_add_r by lia. lia.
  - exists 0. lia.
Qed.

(** Appending zeroes multiplies the register by a power of x. *)
Lemma Crc32AppendZeroes_loop_spec fuel crc len i : fits 32 crc -> 0 <= i ->
  0 <= len < 2 ^ Z.of_nat fuel -> len * 2 ^ i < 2 ^ 62 ->
  Crc32AppendZeroes_loop fuel crc len i crc32c_m crc32c_powers =
    crc_bits (32 * Z.to_N (len * 2 ^ i)) crc.
Proof.
  revert crc len i. induction fuel as [| fuel IH]; intros crc len i Hc Hi Hl Hb.
  - assert (len = 0) as -> by (simpl in Hl; lia). done.
  - cbn [Crc32AppendZeroes_loop]. destruct (Z.eqb_spec len 0) as [-> | Hnz]; [done |].
    destruct (CountTrailingZeroBits_spec len) as (q & Hq & Hr & E); [lia |].
    set (r := CountTrailingZeroBits len) in *.
    pose proof (Z.pow_pos_nonneg 2 r) as Hpr. pose proof (Z.pow_pos_nonneg 2 i) as Hpi.
    assert (Z.shiftr len r = 2 * q + 1) as ->
      by (rewrite Z.shiftr_div_pow2, E, Z.div_mul by lia; done).
    assert (Z.shiftr (2 * q + 1) 1 = q) as ->.
    { rewrite Z.shiftr_div_pow2 by lia. symmetry. apply Z.div_unique with 1; lia. }
    assert (len * 2 ^ i = (2 * q + 1) * 2 ^ (i + r)) as El
      by (rewrite E, Z.pow_add_r by lia; lia).
    assert (i + r < 62) as Hir.
    { apply (Z.pow_lt_mono_r_iff 2); [lia.. |]. nia. }
    rewrite gf_multiply_sw_spec by done.
    replace (i + r) with (Z.of_nat (Z.to_nat (i + r))) at 1 by lia.
    rewrite power_spec by (done || lia).
    rewrite IH; [| by apply crc_bits_fits | lia | | ].
    + rewrite <- crc_bits_add. f_equal. rewrite El.
      replace (N.of_nat (Z.to_nat (i + r))) with (Z.to_N (i + r)) by lia.
      replace (2 ^ Z.to_N (i + r))%N with (Z.to_N (2 ^ (i + r))).
      2: { rewrite Z2N.inj_pow by lia. done. }
      rewrite (Z.pow_add_r 2 (i + r) 1) by lia. pose proof (Z.pow_pos_nonneg 2 (i + r)). lia.
    + split; [done |]. rewrite Nat2Z.inj_succ, Z.pow_succ_r in Hl by lia. nia.
    + rewrite Z.pow_add_r by lia. nia.
Qed.

Lemma Crc32AppendZeroes_spec crc n : fits 32 crc -> 0 <= n < 2 ^ 62 ->
  Crc32AppendZeroes crc n crc32c_m crc32c_powers = crc_bits (32 * Z.to_N n) crc.
Proof.
  intros Hc Hn. unfold Crc32AppendZeroes.
  rewrite Crc32AppendZeroes_loop_spec by (done || lia). by rewrite Z.mul_1_r.
Qed.

Lemma PureExtend_zeros r len : fits 32 r -> 0 <= len <= 4 ->
  PureExtend r (stake len [Byte.x00; Byte.x00; Byte.x00; Byte.x00]) =
    crc_bits (8 * Z.to_N len) r.
Proof.
  intros Hr Hlen. unfold PureExtend, InvertedToPure, PureToInverted.
  rewrite Extend_spec by (by apply fits_lxor). rewrite !lxor_twice, crc_reg_value.
  assert (len = 0 \/ len = 1 \/ len = 2 \/ len = 3 \/ len = 4) as Hcases by lia.
  destruct Hcases as [-> | [-> | [-> | [-> | ->]]]];
    change (le_combine (stake _ _)) with 0; by rewrite Z.lxor_0_r.
Qed.

(** The register over a concatenation, from the registers over the two parts. *)
Lemma crc_reg_combine ra t :
  crc_reg ra t = Z.lxor (crc_bits (8 * N.of_nat (length t)) (Z.lxor ra 0xffffffff))
                   (crc_reg 0xffffffff t).
Proof.
  rewrite !crc_reg_value, <- linear. f_equal.
  rewrite Z.lxor_assoc, <- (Z.lxor_assoc 0xffffffff).
  by rewrite Z.lxor_nilpotent, Z.lxor_0_l.
Qed.

Lemma Crc32cCombine_Value s t : slen t < 2 ^ 64 ->
  Crc32cCombine (Value s) (Value t) (slen t) = Value (s ++ t).
Proof.
  intros Ht. unfold Crc32cCombine. change (u32 (-1)) with 0xffffffff.
  unfold InvertedToPure at 1 2. rewrite !Value_spec. unfold crc32c_ref at 1 2 3.
  rewrite !lxor_twice. set (ra := crc_reg 0xffffffff s).
  assert (fits 32 ra) as Hra by (by apply crc_reg_fits).
  set (tmp := Z.lxor ra _). assert (fits 32 tmp) as Htmp by (by apply fits_lxor).
  set (n := slen t). pose proof (slen_nonneg t : 0 <= n) as Hn0.
  assert (Z.land n 3 = n mod 4) as -> by (apply (Z.land_ones n 2); lia).
  pose proof (Z.mod_pos_bound n 4 ltac:(lia)) as Hm.
  assert ((if negb (n mod 4 =? 0) then PureExtend tmp (stake (n mod 4) [Byte.x00; Byte.x00; Byte.x00; Byte.x00]) else tmp)
    = crc_bits (8 * Z.to_N (n mod 4)) tmp) as ->.
  { destruct (Z.eqb_spec (n mod 4) 0) as [-> |]; [done |].
    apply PureExtend_zeros; [done | lia]. }
  rewrite Crc32AppendZeroes_spec; [| by apply crc_bits_fits |].
  2: { split; [apply Z.div_pos; lia |]. apply Z.div_lt_upper_bound; lia. }
  rewrite <- crc_bits_add. unfold PureToInverted, crc32c_ref. f_equal.
  rewrite crc_reg_app, (crc_reg_combine (crc_reg _ s) t).
  fold ra tmp. f_equal; [| apply lxor_twice]. f_equal.
  pose proof (Z.div_mod n 4 ltac:(lia)). unfold n, slen in *. lia.
Qed.

(** * Masking *)

(** Bits of a rotation to the right by [k] of a 32-bit word. *)
Lemma rotate_bits z k i : fits 32 z -> 0 <= k <= 32 -> 0 <= i ->
  Z.testbit (Z.lor (Z.shiftr z k) (u32 (Z.shiftl z (32 - k)))) i =
    if i <? 32 - k then Z.testbit z (i + k)
    else if i <? 32 then Z.testbit z (i - (32 - k)) else false.
Proof.
  intros Hz Hk Hi. rewrite Z.lor_spec, Z.shiftr_spec by lia.
  assert (forall j, 32 <= j -> Z.testbit z j = false) as Hhigh
    by (apply fits_bits; [lia | apply Hz | done]).
  unfold wrap. destruct (Z.ltb_spec i (32 - k)).
  - rewrite Z.mod_pow2_bits_low, Z.shiftl_spec_low by lia. apply orb_false_r.
  - rewrite Hhigh by lia. destruct (Z.ltb_spec i 32).
    + by rewrite Z.mod_pow2_bits_low, Z.shiftl_spec by lia.
    + by rewrite Z.mod_pow2_bits_high by lia.
Qed.

Lemma rotate_fits z k : fits 32 z -> 0 <= k <= 32 ->
  fits 32 (Z.lor (Z.shiftr z k) (u32 (Z.shiftl z (32 - k)))).
Proof.
  intros Hz Hk. apply fits_lor; [lia | | apply wrap_fits; lia].
  apply fits_shiftr; [lia | | lia]. by apply (fits_mono 32); [lia |].
Qed.

Lemma Mask_fits crc : fits 32 (Mask crc).
Proof. apply wrap_fits. lia. Qed.

Lemma Unmask_Mask crc : fits 32 crc -> Unmask (Mask crc) = crc.
Proof.
  intros Hcrc. unfold Unmask, Mask.
  pose proof (rotate_fits crc 15 Hcrc ltac:(lia)) as Hy.
  pose proof (fun i => rotate_bits crc 15 i Hcrc ltac:(lia)) as Hbits.
  change (32 - 15) with 17 in *.
  set (y := Z.lor (Z.shiftr crc 15) (u32 (Z.shiftl crc 17))) in *.
  replace (u32 (u32 (y + kMaskDelta) - kMaskDelta)) with y.
  - apply Z.bits_inj'. intros i Hi.
    pose proof (rotate_bits y 17 i Hy ltac:(lia) Hi) as E. change (32 - 17) with 15 in E.
    rewrite E. clear E.
    destruct (Z.ltb_spec i 15); [| destruct (Z.ltb_spec i 32)].
    + rewrite Hbits by lia. destruct (Z.ltb_spec (i + 17) 17); [lia |]. destruct (Z.ltb_spec (i + 17) 32); [| lia].
      f_equal. lia.
    + rewrite Hbits by lia. destruct (Z.ltb_spec (i - 15) 17); [| lia]. f_equal. lia.
    + symmetry. by apply (proj1 (fits_bits 32 crc ltac:(lia) ltac:(apply Hcrc)) Hcrc).
  - unfold wrap. rewrite Zminus_mod_idemp_l. replace (y + kMaskDelta - kMaskDelta) with y by lia.
    symmetry. by apply wrap_small.
Qed.

(** [Crc32cCombine] of the checksums of two strings, given the length of the
    second, is the checksum of their concatenation, so the checksum of a record can
    be put together from those of its parts; and the masked form in which it is
    stored is a 32-bit value from which [Unmask] recovers it. *)
Theorem Crc32cCombine_correct (s t : bytes) (Ht : slen t < 2 ^ 64) :
  let crc := Crc32cCombine (Value s) (Value t) (slen t) in
  crc = Value (s ++ t) /\ Extend (Value s) t = crc /\
  fits 32 (Mask crc) /\ Unmask (Mask crc) = Value (s ++ t).
Proof.
  intros crc. assert (crc = Value (s ++ t)) as -> by (by apply Crc32cCombine_Value).
  split_and!; [done | apply Extend_Value | apply Mask_fits |].
  apply Unmask_Mask, Value_fits.
Qed.

Lemma Crc32cCombine_correct_witness :
  Crc32cCombine (Value [Byte.x61]) (Value [Byte.x62; Byte.x63]) 2 =
    Value [Byte.x61; Byte.x62; Byte.x63].
Proof. apply (Crc32cCombine_correct [Byte.x61] [Byte.x62; Byte.x63]). by vm_compute. Defined.
