(* ===== verification/Comparator.v ===== *)
(** include/rocksdb/slice.h and util/comparator.cc: the order on slices and the
    built-in comparators.

    The interface that the rest of the system relies on is the class [Comparator]
    with its laws [ComparatorLaws]; the bytewise, the reverse bytewise and the two
    timestamped comparators are its instances. *)

From S2P Require Import Prelude Coding.

(** * Slices *)

(** [memcmp] compares bytes as unsigned; only the sign of its result is defined,
    and the model returns -1, 0 or 1. *)
Fixpoint memcmp (a b : bytes) : Z :=
  match a, b with
  | x :: a, y :: b =>
      if byte.unsigned x <? byte.unsigned y then -1
      else if byte.unsigned y <? byte.unsigned x then 1
      else memcmp a b
  | _, _ => 0
  end.

Definition Slice_compare (a b : bytes) : Z :=
  let min_len := if slen a <? slen b then slen a else slen b in
  let r := memcmp (stake min_len a) (stake min_len b) in
  if r =? 0 then
    if slen a <? slen b then -1 else if slen a >? slen b then 1 else r
  else r.

Definition Slice_eq (x y : bytes) : bool :=
  (slen x =? slen y) && (memcmp (stake (slen x) x) (stake (slen x) y) =? 0).

Definition starts_with (s x : bytes) : bool :=
  (slen s >=? slen x) && (memcmp (stake (slen x) s) (stake (slen x) x) =? 0).

(** The first offset at which two slices differ. *)
Fixpoint difference_offset (a b : bytes) : nat :=
  match a, b with
  | x :: a, y :: b => if decide (x = y) then S (difference_offset a b) else O
  | _, _ => O
  end.

(** * The interface *)

Class Comparator : Type := {
  timestamp_size : Z;
  Compare : bytes -> bytes -> Z;
  FindShortestSeparator : bytes -> bytes -> bytes;
  FindShortSuccessor : bytes -> bytes;
}.

(** A key a comparator may be given: long enough to hold its timestamp. *)
Definition key_ok `{Comparator} (k : bytes) : Prop := timestamp_size <= slen k.

(** What include/rocksdb/comparator.h asks of a comparator: a total order; when
    [start < limit], and only then, a separator that changes [start] to a string in
    [start, limit); a successor that is not smaller. *)
Class ComparatorLaws (C : Comparator) : Prop := {
  timestamp_size_nonneg : 0 <= timestamp_size;
  compare_refl a : Compare a a = 0;
  compare_sgn a b : Z.sgn (Compare b a) = - Z.sgn (Compare a b);
  compare_trans a b c : Compare a b <= 0 -> Compare b c <= 0 -> Compare a c <= 0;
  separator_range a b : key_ok a -> key_ok b -> Compare a b < 0 ->
    Compare a (FindShortestSeparator a b) <= 0 /\ Compare (FindShortestSeparator a b) b < 0;
  separator_noop a b : 0 <= Compare a b -> FindShortestSeparator a b = a;
  successor_range a : key_ok a -> Compare a (FindShortSuccessor a) <= 0;
  separator_ok a b : key_ok a -> key_ok (FindShortestSeparator a b);
  successor_ok a : key_ok a -> key_ok (FindShortSuccessor a);
}.

(** What comparators say about keys with timestamps. *)
Class TimestampComparator (C : Comparator) : Type := {
  CompareTimestamp : bytes -> bytes -> Z;
  CompareWithoutTimestamp : bytes -> bytes -> Z;
}.
(** The defaults of [Comparator], for a comparator without timestamps. *)
Definition DefaultTimestampComparator (C : Comparator) : TimestampComparator C :=
  {| CompareTimestamp _ _ := 0; CompareWithoutTimestamp := Compare |}.
Definition EqualWithoutTimestamp `{TimestampComparator} (a b : bytes) : bool :=
  CompareWithoutTimestamp a b =? 0.

(** * Orders *)

(** What a comparison of keys has to be: a total preorder. *)
Class KeyOrder (cmp : bytes -> bytes -> Z) : Prop := {
  cmp_sgn a b : Z.sgn (cmp b a) = - Z.sgn (cmp a b);
  cmp_trans a b c : cmp a b <= 0 -> cmp b c <= 0 -> cmp a c <= 0;
}.

Section Order.
Context {cmp : bytes -> bytes -> Z} {KO : KeyOrder cmp}.

Lemma cmp_refl a : cmp a a = 0.
Proof. pose proof (cmp_sgn a a). lia. Qed.
Lemma cmp_lt_le_trans a b c : cmp a b < 0 -> cmp b c <= 0 -> cmp a c < 0.
Proof. pose proof (cmp_trans b c a). pose proof (cmp_sgn a b). pose proof (cmp_sgn a c). lia. Qed.
Lemma cmp_le_lt_trans a b c : cmp a b <= 0 -> cmp b c < 0 -> cmp a c < 0.
Proof. pose proof (cmp_trans c a b). pose proof (cmp_sgn b c). pose proof (cmp_sgn a c). lia. Qed.
Lemma cmp_gt_ge_trans a b c : 0 < cmp a b -> cmp a c <= 0 -> 0 < cmp c b.
Proof. pose proof (cmp_trans a c b). pose proof (cmp_sgn a c). lia. Qed.
End Order.

(** Adds what the order says about keys that are compared. *)
Ltac order_sgn cmp :=
  repeat match goal with
  | |- context [cmp ?a ?b] => lazymatch goal with
      | _ : Z.sgn (cmp b a) = - Z.sgn (cmp a b) |- _ => fail
      | _ : Z.sgn (cmp a b) = - Z.sgn (cmp b a) |- _ => fail
      | _ => pose proof (cmp_sgn (cmp := cmp) a b) end
  | _ : context [cmp ?a ?b] |- _ => lazymatch goal with
      | _ : Z.sgn (cmp b a) = - Z.sgn (cmp a b) |- _ => fail
      | _ : Z.sgn (cmp a b) = - Z.sgn (cmp b a) |- _ => fail
      | _ => pose proof (cmp_sgn (cmp := cmp) a b) end
  end.

#[global] Instance Comparator_order (C : Comparator) {CL : ComparatorLaws C} : KeyOrder Compare.
Proof. split; [apply compare_sgn | apply compare_trans]. Qed.

(** The comparison without timestamps is an order too, and a coarser one: keys that differ only in their
    timestamps are next to each other. *)
Class UserKeyOrder (C : Comparator) {TC : TimestampComparator C} : Prop := {
  user_key_order :: KeyOrder CompareWithoutTimestamp;
  without_timestamp_le a b : Compare a b <= 0 -> CompareWithoutTimestamp a b <= 0;
}.
#[global] Instance Default_user_key_order (C : Comparator) {CL : ComparatorLaws C} :
  UserKeyOrder C (TC := DefaultTimestampComparator C).
Proof. split; [apply Comparator_order; exact CL | done]. Qed.

(** * The bytewise comparator *)

(** The loop that increments the first byte below 0xff and cuts the string there. *)
Fixpoint increment_first_below_ff (t : bytes) : bytes :=
  match t with
  | [] => []
  | c :: t =>
      if byte.unsigned c <? 0xff then [byte.of_Z (byte.unsigned c + 1)]
      else c :: increment_first_below_ff t
  end.

Definition Bytewise_FindShortestSeparator (start limit : bytes) : bytes :=
  let min_length := Nat.min (length start) (length limit) in
  let diff_index := difference_offset start limit in
  if (min_length <=? diff_index)%nat then start
  else
    let start_byte := byte_at start diff_index in
    let limit_byte := byte_at limit diff_index in
    if start_byte >=? limit_byte then start
    else if (Z.of_nat diff_index <? slen limit - 1) || (start_byte + 1 <? limit_byte) then
      take diff_index start ++ [byte.of_Z (start_byte + 1)]
    else
      take (S diff_index) start ++ increment_first_below_ff (drop (S diff_index) start).

Definition Bytewise_FindShortSuccessor (key : bytes) : bytes := increment_first_below_ff key.

(** The loop over the bytes after the first difference. *)
Fixpoint all_ff_and_00 (s t : bytes) : bool :=
  match s, t with
  | byte_s :: s, byte_t :: t =>
      if negb (byte.unsigned byte_s =? 0xff) || negb (byte.unsigned byte_t =? 0x00) then false
      else all_ff_and_00 s t
  | _, _ => true
  end.
Definition Bytewise_IsSameLengthImmediateSuccessor (s t : bytes) : bool :=
  if negb (slen s =? slen t) || (slen s =? 0) then false
  else
    let diff_ind := difference_offset s t in
    if (length s <=? diff_ind)%nat then false
    else
      let byte_s := byte_at s diff_ind in
      let byte_t := byte_at t diff_ind in
      if negb (byte_s =? 0xff) && (byte_s + 1 =? byte_t) then
        all_ff_and_00 (drop (S diff_ind) s) (drop (S diff_ind) t)
      else false.

Definition BytewiseComparatorImpl : Comparator := {|
  timestamp_size := 0;
  Compare := Slice_compare;
  FindShortestSeparator := Bytewise_FindShortestSeparator;
  FindShortSuccessor := Bytewise_FindShortSuccessor;
|}.

(** * The reverse bytewise comparator *)

Definition Reverse_FindShortestSeparator (start limit : bytes) : bytes :=
  let min_length := Nat.min (length start) (length limit) in
  let diff_index := difference_offset start limit in
  if (diff_index =? min_length)%nat then start
  else
    let start_byte := byte_at start diff_index in
    let limit_byte := byte_at limit diff_index in
    if (start_byte >? limit_byte) && (Z.of_nat diff_index <? slen start - 1) then
      take (S diff_index) start
    else start.

Definition ReverseBytewiseComparatorImpl : Comparator := {|
  timestamp_size := 0;
  Compare a b := - Slice_compare a b;
  FindShortestSeparator := Reverse_FindShortestSeparator;
  FindShortSuccessor key := key;
|}.

(** * Comparators with a 64-bit timestamp *)

Definition StripTimestampFromUserKey (user_key : bytes) (ts_sz : Z) : bytes :=
  stake (slen user_key - ts_sz) user_key.
Definition ExtractTimestampFromUserKey (user_key : bytes) (ts_sz : Z) : bytes :=
  stake ts_sz (sdrop (slen user_key - ts_sz) user_key).

Definition U64Ts_CompareTimestamp (ts1 ts2 : bytes) : Z :=
  let lhs := DecodeFixed64 ts1 in
  let rhs := DecodeFixed64 ts2 in
  if lhs <? rhs then -1 else if lhs >? rhs then 1 else 0.

Definition U64Ts_CompareWithoutTimestamp (cmp_without_ts : Comparator) (a : bytes)
    (a_has_ts : bool) (b : bytes) (b_has_ts : bool) : Z :=
  let ts_sz := 8 in
  let lhs := if a_has_ts then StripTimestampFromUserKey a ts_sz else a in
  let rhs := if b_has_ts then StripTimestampFromUserKey b ts_sz else b in
  Compare lhs rhs.

Definition U64Ts_Compare (cmp_without_ts : Comparator) (a b : bytes) : Z :=
  let ret := U64Ts_CompareWithoutTimestamp cmp_without_ts a true b true in
  let ts_sz := 8 in
  if negb (ret =? 0) then ret
  else - U64Ts_CompareTimestamp (ExtractTimestampFromUserKey a ts_sz)
           (ExtractTimestampFromUserKey b ts_sz).

Definition ComparatorWithU64TsImpl (cmp_without_ts : Comparator) : Comparator := {|
  timestamp_size := 8;
  Compare := U64Ts_Compare cmp_without_ts;
  FindShortestSeparator start limit := start;
  FindShortSuccessor key := key;
|}.

Definition U64TsTimestampComparator (cmp_without_ts : Comparator) : TimestampComparator (ComparatorWithU64TsImpl cmp_without_ts) := {|
  CompareTimestamp := U64Ts_CompareTimestamp;
  CompareWithoutTimestamp a b := U64Ts_CompareWithoutTimestamp cmp_without_ts a true b true;
|}.

Definition DecodeU64Ts (ts : bytes) : option Z :=
  if negb (slen ts =? 8) then None else Some (DecodeFixed64 ts).
Definition EncodeU64Ts (ts : Z) : bytes := EncodeFixed64 ts.
Definition MaxU64Ts : bytes := sfill 8 Byte.xff.
Definition MinU64Ts : bytes := sfill 8 Byte.x00.

(** * Lexicographic order *)

(** The specification of [Slice_compare]. *)
Fixpoint lex (a b : bytes) : Z :=
  match a, b with
  | [], [] => 0
  | [], _ :: _ => -1
  | _ :: _, [] => 1
  | x :: a, y :: b =>
      if byte.unsigned x <? byte.unsigned y then -1
      else if byte.unsigned y <? byte.unsigned x then 1
      else lex a b
  end.

Lemma stake_cons {A} n (x : A) l : 0 < n -> stake n (x :: l) = x :: stake (n - 1) l.
Proof.
  intros Hn. unfold stake. by replace (Z.to_nat n) with (S (Z.to_nat (n - 1))) by lia.
Qed.

Lemma Slice_compare_lex a b : Slice_compare a b = lex a b.
Proof.
  revert b. induction a as [| x a IH]; intros [| y b]; try done.
  specialize (IH b). cbn [lex]. rewrite <- IH. clear IH. unfold Slice_compare.
  rewrite !slen_cons, !Z.gtb_ltb. pose proof (slen_nonneg a). pose proof (slen_nonneg b).
  set (min_len := if 1 + slen a <? 1 + slen b then _ else _).
  assert (min_len = 1 + (if slen a <? slen b then slen a else slen b)) as ->.
  { unfold min_len. destruct (Z.ltb_spec (1 + slen a) (1 + slen b)),
      (Z.ltb_spec (slen a) (slen b)); lia. }
  set (n := if slen a <? slen b then _ else _).
  assert (0 <= n) by (unfold n; destruct (slen a <? slen b); lia).
  rewrite !stake_cons, !(Z.add_simpl_l 1 n) by lia. cbn [memcmp].
  destruct (_ <? byte.unsigned y); [done |]. destruct (_ <? byte.unsigned x); [done |].
  destruct (_ =? 0); [| done].
  destruct (Z.ltb_spec (1 + slen a) (1 + slen b)), (Z.ltb_spec (slen a) (slen b)),
    (Z.ltb_spec (1 + slen b) (1 + slen a)), (Z.ltb_spec (slen b) (slen a)); done || lia.
Qed.

(** Case analysis on the bytes at the head of two strings. *)
Ltac lex_step :=
  repeat (cbn [lex]; match goal with
  | |- context [byte.unsigned ?x <? byte.unsigned ?y] =>
      destruct (Z.ltb_spec (byte.unsigned x) (byte.unsigned y))
  | H : context [byte.unsigned ?x <? byte.unsigned ?y] |- _ =>
      destruct (Z.ltb_spec (byte.unsigned x) (byte.unsigned y))
  end).

Lemma lex_refl a : lex a a = 0.
Proof. induction a as [| x a IH]; [done |]. lex_step; done || lia. Qed.

Lemma lex_opp a b : lex b a = - lex a b.
Proof.
  revert b. induction a as [| x a IH]; intros [| y b]; try done. lex_step; lia || apply IH.
Qed.

Lemma lex_sgn a b : lex a b = -1 \/ lex a b = 0 \/ lex a b = 1.
Proof.
  revert b. induction a as [| x a IH]; intros [| y b]; simpl; auto. lex_step; auto.
Qed.

Lemma lex_eq a b : lex a b = 0 <-> a = b.
Proof.
  split; [| intros ->; apply lex_refl].
  revert b. induction a as [| x a IH]; intros [| y b]; try done. lex_step; try done.
  intros E. f_equal; [apply byte.unsigned_inj; lia | by apply IH].
Qed.

Lemma Slice_eq_spec x y : Slice_eq x y = bool_decide (x = y).
Proof.
  unfold Slice_eq. rewrite <- (bool_decide_ext _ _ (lex_eq x y)). rewrite <- Slice_compare_lex.
  unfold Slice_compare. destruct (Z.eqb_spec (slen x) (slen y)) as [E | E]; simpl.
  - rewrite E, Z.gtb_ltb, Z.ltb_irrefl. case Z.eqb_spec; intros H;
      [by rewrite bool_decide_true | by rewrite bool_decide_false].
  - destruct_ifs; bool_to_prop; try lia; by rewrite bool_decide_false by lia.
Qed.

Lemma lex_trans a b c : lex a b <= 0 -> lex b c <= 0 -> lex a c <= 0.
Proof.
  revert b c. induction a as [| x a IH]; intros [| y b] [| z c]; try done.
  intros H1 H2. cbn [lex] in *. lex_step; try lia. by apply (IH b c).
Qed.

Lemma lex_app p a b : lex (p ++ a) (p ++ b) = lex a b.
Proof. induction p as [| x p IH]; [done |]. simpl. lex_step; done || lia. Qed.

Lemma lex_prefix a b : lex a (a ++ b) <= 0.
Proof.
  rewrite <- (app_nil_r a) at 1. rewrite lex_app. by destruct b.
Qed.

(** Either one string is a prefix of the other, or they share a prefix up to the
    byte at [difference_offset], where they differ. *)
Lemma difference_offset_spec a b :
  let d := difference_offset a b in
  (d < Nat.min (length a) (length b))%nat ->
  exists p x y a' b', a = p ++ x :: a' /\ b = p ++ y :: b' /\ length p = d /\ x <> y /\
    byte_at a d = byte.unsigned x /\ byte_at b d = byte.unsigned y.
Proof.
  cbv zeta. revert b. induction a as [| x a IH]; intros [| y b]; simpl; try lia.
  destruct (decide (x = y)) as [<- | Hne].
  - intros Hd. destruct (IH b) as (p & u & v & a' & b' & -> & -> & Hp & Huv & E1 & E2); [lia |].
    exists (x :: p), u, v, a', b'. simpl. split_and!; try done. by rewrite Hp.
  - intros _. by exists [], x, y, a, b.
Qed.

Lemma difference_offset_le a b : (difference_offset a b <= Nat.min (length a) (length b))%nat.
Proof.
  revert b. induction a as [| x a IH]; intros [| y b]; simpl; try lia.
  destruct (decide (x = y)); [specialize (IH b) |]; lia.
Qed.

Lemma byte_succ c : byte.unsigned c < 255 ->
  byte.unsigned (byte.of_Z (byte.unsigned c + 1)) = byte.unsigned c + 1.
Proof. intros. apply byte_of_Z_small. pose proof (byte_range c). lia. Qed.

Lemma lex_increment s : lex s (increment_first_below_ff s) <= 0.
Proof.
  induction s as [| c s IH]; simpl; [done |].
  destruct (Z.ltb_spec (byte.unsigned c) 255).
  - rewrite byte_succ by done. destruct (Z.ltb_spec (byte.unsigned c) (byte.unsigned c + 1)); lia.
  - lex_step; lia.
Qed.

Lemma bytewise_separator_range start limit : lex start limit < 0 ->
  let sep := Bytewise_FindShortestSeparator start limit in
  lex start sep <= 0 /\ lex sep limit < 0.
Proof.
  intros Hlt sep. assert (lex start start <= 0) by (by rewrite lex_refl).
  unfold sep, Bytewise_FindShortestSeparator. destruct (Nat.leb_spec
    (Nat.min (length start) (length limit)) (difference_offset start limit)) as [| Hd]; [done |].
  destruct (difference_offset_spec start limit Hd)
    as (p & x & y & s' & l' & Es & El & Hp & Hxy & -> & ->).
  pose proof (byte_range x). pose proof (byte_range y).
  destruct (Z.geb_spec (byte.unsigned x) (byte.unsigned y)); [done |].
  rewrite <- Hp. rewrite Es, El in *. clear sep start limit Es El.
  destruct (_ || _) eqn:Hb.
  - rewrite take_app_length, !lex_app. simpl. rewrite byte_of_Z_small by lia.
    destruct (Z.ltb_spec (byte.unsigned x) (byte.unsigned x + 1)); [| lia]. split; [lia |].
    destruct (Z.ltb_spec (byte.unsigned x + 1) (byte.unsigned y)) as [| Hxy1]; [lia |].
    rewrite orb_false_r in Hb. apply Z.ltb_lt in Hb.
    destruct (Z.ltb_spec (byte.unsigned y) (byte.unsigned x + 1)); [lia |].
    destruct l'; [| lia]. unfold slen in Hb. rewrite length_app in Hb. simpl in Hb. lia.
  - replace (S (length p)) with (length (p ++ [x])) by (rewrite length_app; simpl; lia).
    change (x :: s') with ([x] ++ s'). rewrite app_assoc, take_app_length, drop_app_length.
    rewrite <- !app_assoc, !lex_app. simpl. split.
    + lex_step; try lia. apply lex_increment.
    + lex_step; lia.
Qed.

Lemma reverse_separator_range start limit : lex start limit > 0 ->
  let sep := Reverse_FindShortestSeparator start limit in
  lex start sep >= 0 /\ lex sep limit > 0.
Proof.
  intros Hgt sep. assert (lex start start >= 0) by (by rewrite lex_refl).
  unfold sep, Reverse_FindShortestSeparator.
  destruct (Nat.eqb_spec (difference_offset start limit)
    (Nat.min (length start) (length limit))) as [| Hne]; [done |].
  pose proof (difference_offset_le start limit).
  destruct (difference_offset_spec start limit ltac:(lia))
    as (p & x & y & s' & l' & Es & El & Hp & Hxy & -> & ->).
  destruct (_ && _) eqn:Hb; [| done]. apply andb_prop in Hb as [Hb _].
  rewrite Z.gtb_ltb in Hb. apply Z.ltb_lt in Hb.
  rewrite <- Hp, Es, El. replace (S (length p)) with (length (p ++ [x]))
    by (rewrite length_app; simpl; lia).
  change (x :: s') with ([x] ++ s'). rewrite app_assoc, take_app_length. split.
  - rewrite lex_opp. pose proof (lex_prefix (p ++ [x]) s'). lia.
  - rewrite lex_app. simpl. lex_step; lia.
Qed.

(** Both comparators leave [start] alone unless it is before [limit] in their order. *)
Lemma separators_noop start limit :
  (0 <= lex start limit -> Bytewise_FindShortestSeparator start limit = start) /\
  (lex start limit <= 0 -> Reverse_FindShortestSeparator start limit = start).
Proof.
  unfold Bytewise_FindShortestSeparator, Reverse_FindShortestSeparator.
  destruct (Nat.leb_spec (Nat.min (length start) (length limit)) (difference_offset start limit))
    as [Hm | Hd].
  - split; [done |]. pose proof (difference_offset_le start limit).
    by destruct (Nat.eqb_spec (difference_offset start limit)
      (Nat.min (length start) (length limit))); [| lia].
  - destruct (difference_offset_spec start limit Hd)
      as (p & x & y & s' & l' & Es & El & Hp & Hxy & -> & ->).
    assert (lex start limit = if byte.unsigned x <? byte.unsigned y then -1 else 1) as ->.
    { rewrite Es, El, lex_app. simpl. assert (byte.unsigned x <> byte.unsigned y).
      { by intros ?%byte.unsigned_inj. }
      lex_step; lia. }
    rewrite Z.gtb_ltb, Z.geb_leb. split; intros Hl.
    + destruct (Z.ltb_spec (byte.unsigned x) (byte.unsigned y)); [lia |].
      destruct (Z.leb_spec (byte.unsigned y) (byte.unsigned x)); [done | lia].
    + destruct (Nat.eqb _ _); [done |].
      destruct (Z.ltb_spec (byte.unsigned y) (byte.unsigned x)); [| done].
      destruct (Z.ltb_spec (byte.unsigned x) (byte.unsigned y)); lia.
Qed.

(** * Lawful instances *)

Lemma key_ok_0 (C : Comparator) k : timestamp_size = 0 -> key_ok k.
Proof. unfold key_ok. intros ->. apply slen_nonneg. Qed.

#[export] Instance BytewiseComparator_laws : ComparatorLaws BytewiseComparatorImpl.
Proof.
  split; simpl; intros; rewrite ?Slice_compare_lex in *; try (by apply key_ok_0).
  - done.
  - apply lex_refl.
  - rewrite lex_opp. apply Z.sgn_opp.
  - eapply lex_trans; eassumption.
  - by apply bytewise_separator_range.
  - by apply separators_noop.
  - apply lex_increment.
Qed.

#[export] Instance ReverseBytewiseComparator_laws : ComparatorLaws ReverseBytewiseComparatorImpl.
Proof.
  split; simpl; intros; rewrite ?Slice_compare_lex in *; try (by apply key_ok_0).
  - done.
  - by rewrite lex_refl.
  - rewrite (lex_opp a b), Z.opp_involutive, Z.sgn_opp. lia.
  - pose proof (lex_trans c b a). rewrite (lex_opp a c), (lex_opp a b), (lex_opp b c) in *. lia.
  - destruct (reverse_separator_range a b); lia.
  - apply separators_noop. lia.
  - rewrite lex_refl. lia.
Qed.

Section Laws.
Context {C : Comparator} {CL : ComparatorLaws C}.

Lemma compare_lt_gt a b : Compare a b < 0 <-> 0 < Compare b a.
Proof. pose proof (compare_sgn a b). lia. Qed.
Lemma compare_eq_sym a b : Compare a b = 0 <-> Compare b a = 0.
Proof. pose proof (compare_sgn a b). lia. Qed.
Lemma compare_le_ge a b : Compare a b <= 0 <-> 0 <= Compare b a.
Proof. pose proof (compare_sgn a b). lia. Qed.
Lemma compare_lt_le_trans a b c : Compare a b < 0 -> Compare b c <= 0 -> Compare a c < 0.
Proof.
  intros H1 H2. destruct (Z_lt_ge_dec (Compare a c) 0) as [| Hge]; [done |].
  assert (Compare c a <= 0) as H3 by (apply compare_le_ge; lia).
  pose proof (compare_trans b c a H2 H3) as H4. apply compare_le_ge in H4. lia.
Qed.
Lemma compare_le_lt_trans a b c : Compare a b <= 0 -> Compare b c < 0 -> Compare a c < 0.
Proof.
  intros H1 H2. destruct (Z_lt_ge_dec (Compare a c) 0) as [| Hge]; [done |].
  assert (Compare c a <= 0) as H3 by (apply compare_le_ge; lia).
  pose proof (compare_trans c a b H3 H1) as H4. apply compare_le_ge in H4. lia.
Qed.
End Laws.

(** Newer timestamps come first among equal keys. *)
Lemma U64Ts_CompareTimestamp_sgn a b :
  U64Ts_CompareTimestamp a b = Z.sgn (DecodeFixed64 a - DecodeFixed64 b).
Proof.
  unfold U64Ts_CompareTimestamp. rewrite Z.gtb_ltb.
  destruct (Z.ltb_spec (DecodeFixed64 a) (DecodeFixed64 b)); [lia |].
  destruct (Z.ltb_spec (DecodeFixed64 b) (DecodeFixed64 a)); lia.
Qed.

#[export] Instance ComparatorWithU64Ts_laws (C : Comparator) :
  ComparatorLaws C -> ComparatorLaws (ComparatorWithU64TsImpl C).
Proof.
  intros CL. split; simpl; intros; unfold U64Ts_Compare, U64Ts_CompareWithoutTimestamp in *.
  all: rewrite ?U64Ts_CompareTimestamp_sgn in *; try done.
  - rewrite compare_refl, Z.eqb_refl. simpl. lia.
  - set (a' := StripTimestampFromUserKey a 8). set (b' := StripTimestampFromUserKey b 8).
    pose proof (compare_sgn a' b').
    destruct (Z.eqb_spec (Compare a' b') 0), (Z.eqb_spec (Compare b' a') 0); simpl; lia.
  - set (a' := StripTimestampFromUserKey a 8) in *. set (b' := StripTimestampFromUserKey b 8) in *.
    set (c' := StripTimestampFromUserKey c 8) in *.
    pose proof (compare_trans a' b' c'). pose proof (compare_lt_le_trans a' b' c').
    pose proof (compare_le_lt_trans a' b' c').
    destruct (Z.eqb_spec (Compare a' b') 0), (Z.eqb_spec (Compare b' c') 0),
      (Z.eqb_spec (Compare a' c') 0); simpl in *; try lia.
  - split; [| done]. rewrite compare_refl, Z.eqb_refl. simpl. lia.
  - rewrite compare_refl, Z.eqb_refl. simpl. lia.
Qed.
#[global] Instance U64Ts_user_key_order (C : Comparator) {CL : ComparatorLaws C} :
  UserKeyOrder (ComparatorWithU64TsImpl C) (TC := U64TsTimestampComparator C).
Proof.
  split; [split; intros *; [apply compare_sgn | apply compare_trans] |]. cbn. unfold U64Ts_Compare. intros a b.
  destruct (Z.eqb_spec (U64Ts_CompareWithoutTimestamp C a true b true) 0); cbn; lia.
Qed.

(** * Theorems *)

(** [Slice::compare] is the lexicographic order of unsigned bytes: total,
    antisymmetric, transitive, and 0 exactly on equal strings. *)
Theorem Slice_compare_total_order (a b c : bytes) :
  Slice_compare a b = lex a b /\
  (Slice_compare a b = 0 <-> a = b) /\
  Slice_compare b a = - Slice_compare a b /\
  (Slice_compare a b <= 0 -> Slice_compare b c <= 0 -> Slice_compare a c <= 0).
Proof.
  rewrite !Slice_compare_lex. split_and!; auto using lex_eq, lex_opp. apply lex_trans.
Qed.

Lemma length_increment s : (length (increment_first_below_ff s) <= length s)%nat.
Proof. induction s as [| c s IH]; simpl; [done |]. destruct (_ <? _); simpl; lia. Qed.

(** the separator of the bytewise comparator lies in [start, limit) and is no
    longer than [start]; the short successor is at least its argument and no longer;
    the same holds of the reverse comparator in its own order. *)
Theorem separator_and_successor (start limit : bytes) :
  (Slice_compare start limit < 0 ->
    Slice_compare start (Bytewise_FindShortestSeparator start limit) <= 0 /\
    Slice_compare (Bytewise_FindShortestSeparator start limit) limit < 0) /\
  (slen (Bytewise_FindShortestSeparator start limit) <= slen start) /\
  Slice_compare start (Bytewise_FindShortSuccessor start) <= 0 /\
  slen (Bytewise_FindShortSuccessor start) <= slen start /\
  (Slice_compare start limit > 0 ->
    Slice_compare start (Reverse_FindShortestSeparator start limit) >= 0 /\
    Slice_compare (Reverse_FindShortestSeparator start limit) limit > 0).
Proof.
  rewrite !Slice_compare_lex. split_and!.
  - apply bytewise_separator_range.
  - unfold Bytewise_FindShortestSeparator.
    destruct (Nat.leb_spec (Nat.min (length start) (length limit)) (difference_offset start limit));
      [done |].
    destruct_ifs; try done; unfold slen; rewrite length_app, length_take.
    + simpl length. lia.
    + pose proof (length_increment (drop (S (difference_offset start limit)) start)) as Hl.
      rewrite length_drop in Hl. lia.
  - apply lex_increment.
  - pose proof (length_increment start). unfold slen, Bytewise_FindShortSuccessor. lia.
  - apply reverse_separator_range.
Qed.

(** The value of a string of bytes read as a big-endian number. *)
Fixpoint be_value (s : bytes) : Z :=
  match s with
  | [] => 0
  | x :: s => byte.unsigned x * 256 ^ slen s + be_value s
  end.

Lemma be_value_bound s : 0 <= be_value s < 256 ^ slen s.
Proof.
  induction s as [| x s IH]; simpl; [done |].
  rewrite slen_cons, Z.pow_add_r by (auto with rocks; lia).
  pose proof (byte_range x). pose proof (slen_nonneg s).
  pose proof (Z.pow_pos_nonneg 256 (slen s)). nia.
Qed.

Lemma be_value_app p s : be_value (p ++ s) = be_value p * 256 ^ slen s + be_value s.
Proof.
  induction p as [| x p IH]; simpl; [lia |]. rewrite IH, slen_app, Z.pow_add_r by auto with rocks.
  lia.
Qed.

Lemma all_ff_and_00_spec s t : slen s = slen t ->
  all_ff_and_00 s t = true <-> be_value s = 256 ^ slen s - 1 /\ be_value t = 0.
Proof.
  revert t. induction s as [| x s IH]; intros [| y t] Hl; simpl;
    rewrite ?slen_cons, ?slen_nil in *.
  - done.
  - slia.
  - slia.
  - assert (slen s = slen t) as Hl' by lia. specialize (IH t Hl'). rewrite <- Hl'.
    pose proof (byte_range x). pose proof (byte_range y).
    pose proof (be_value_bound s). pose proof (be_value_bound t). rewrite <- Hl' in *.
    rewrite Z.pow_add_r by (auto with rocks; lia).
    pose proof (Z.pow_pos_nonneg 256 (slen s) ltac:(lia) ltac:(auto with rocks)).
    destruct (Z.eqb_spec (byte.unsigned x) 255), (Z.eqb_spec (byte.unsigned y) 0); simpl.
    + rewrite IH. nia.
    + split; [done | nia].
    + split; [done | nia].
    + split; [done | nia].
Qed.

(** [IsSameLengthImmediateSuccessor] holds exactly when the two keys have the same
    length and the second is the first plus one, as big-endian numbers. *)
Theorem IsSameLengthImmediateSuccessor_iff (s t : bytes) :
  Bytewise_IsSameLengthImmediateSuccessor s t = true <->
  slen s = slen t /\ be_value t = be_value s + 1.
Proof.
  unfold Bytewise_IsSameLengthImmediateSuccessor.
  destruct (Z.eqb_spec (slen s) (slen t)) as [Hl | Hl]; [| split; [done | by intros [? _]]].
  simpl.
  destruct (Z.eqb_spec (slen s) 0) as [Hz |].
  { apply slen_zero in Hz as ->. symmetry in Hl. apply slen_zero in Hl as ->.
    split; [done | simpl; lia]. }
  destruct (Nat.leb_spec (length s) (difference_offset s t)) as [Hd | Hd].
  - assert (s = t) as ->; [| split; [done | lia]]. clear - Hl Hd. revert t Hl Hd.
    induction s as [| x s IH]; intros [| y t] Hl; simpl; rewrite ?slen_cons, ?slen_nil in *;
      try (done || slia). destruct (decide (x = y)) as [-> |]; [| lia].
    intros Hd. f_equal. apply IH; lia.
  - destruct (difference_offset_spec s t)
      as (p & x & y & s' & t' & Es & Et & Hp & Hxy & -> & ->); [unfold slen in *; lia |].
    rewrite <- Hp, Es, Et. replace (S (length p)) with (length p + 1)%nat by lia.
    rewrite !drop_app_add'; [| done..]. simpl drop. rewrite !drop_0.
    assert (slen s' = slen t') as Hl' by (rewrite Es, Et in Hl; slia).
    rewrite !be_value_app. simpl be_value. rewrite !slen_cons, <- !Hl'.
    pose proof (byte_range x). pose proof (byte_range y).
    pose proof (be_value_bound s'). pose proof (be_value_bound t'). rewrite <- Hl' in *.
    pose proof (Z.pow_pos_nonneg 256 (slen s') ltac:(lia) ltac:(auto with rocks)) as Hpow.
    assert (byte.unsigned x <> byte.unsigned y) by (by intros ?%byte.unsigned_inj).
    destruct (Z.eqb_spec (byte.unsigned x) 255), (Z.eqb_spec (byte.unsigned x + 1) (byte.unsigned y));
      simpl; rewrite ?all_ff_and_00_spec by done; try nia.
    rewrite !slen_app, !slen_cons, <- Hl', <- e.
    set (q := be_value p * _). clearbody q. split; [intros [-> ->]; nia |]. intros [_ E]. nia.
Qed.
