(* ===== verification/DbFormat.v ===== *)
(** db/dbformat.h, db/dbformat.cc, db/lookup_key.h and the separators of
    table/block_based/index_builder.cc: internal keys, their order and their
    encodings.

    An assertion of the source ([assert]) is a precondition of the routine and
    appears as a hypothesis of the theorems. *)

From S2P Require Import Prelude Coding Comparator.

(** * Value types *)

(** [ValueType] is an [unsigned char]; any byte can be read from a file. *)
Definition kTypeDeletion : Z := 0x0.
Definition kTypeValue : Z := 0x1.
Definition kTypeMerge : Z := 0x2.
Definition kTypeLogData : Z := 0x3.
Definition kTypeColumnFamilyDeletion : Z := 0x4.
Definition kTypeColumnFamilyValue : Z := 0x5.
Definition kTypeColumnFamilyMerge : Z := 0x6.
Definition kTypeSingleDeletion : Z := 0x7.
Definition kTypeColumnFamilySingleDeletion : Z := 0x8.
Definition kTypeBeginPrepareXID : Z := 0x9.
Definition kTypeEndPrepareXID : Z := 0xA.
Definition kTypeCommitXID : Z := 0xB.
Definition kTypeRollbackXID : Z := 0xC.
Definition kTypeNoop : Z := 0xD.
Definition kTypeColumnFamilyRangeDeletion : Z := 0xE.
Definition kTypeRangeDeletion : Z := 0xF.
Definition kTypeColumnFamilyBlobIndex : Z := 0x10.
Definition kTypeBlobIndex : Z := 0x11.
Definition kTypeBeginPersistedPrepareXID : Z := 0x12.
Definition kTypeBeginUnprepareXID : Z := 0x13.
Definition kTypeDeletionWithTimestamp : Z := 0x14.
Definition kTypeCommitXIDAndTimestamp : Z := 0x15.
Definition kTypeWideColumnEntity : Z := 0x16.
Definition kTypeColumnFamilyWideColumnEntity : Z := 0x17.
Definition kTypeValuePreferredSeqno : Z := 0x18.
Definition kTypeColumnFamilyValuePreferredSeqno : Z := 0x19.
Definition kTypeMaxValid : Z := 0x1A.
Definition kMaxValue : Z := 0x7F.

Definition kValueTypeForSeek : Z := kTypeValuePreferredSeqno.
Definition kValueTypeForSeekForPrev : Z := kTypeDeletion.

Definition IsValueType (t : Z) : bool :=
  (t <=? kTypeMerge) || (kTypeSingleDeletion =? t) || (kTypeBlobIndex =? t) ||
  (kTypeDeletionWithTimestamp =? t) || (kTypeWideColumnEntity =? t) ||
  (kTypeValuePreferredSeqno =? t).
Definition IsExtendedValueType (t : Z) : bool :=
  IsValueType t || (t =? kTypeRangeDeletion) || (t =? kTypeMaxValid).

Inductive EntryType :=
  | kEntryPut | kEntryDelete | kEntryDeleteWithTimestamp | kEntrySingleDelete | kEntryMerge
  | kEntryRangeDeletion | kEntryBlobIndex | kEntryWideColumnEntity | kEntryTimedPut
  | kEntryOther.

Definition GetEntryType (value_type : Z) : EntryType :=
  if value_type =? kTypeValue then kEntryPut
  else if value_type =? kTypeDeletion then kEntryDelete
  else if value_type =? kTypeDeletionWithTimestamp then kEntryDeleteWithTimestamp
  else if value_type =? kTypeSingleDeletion then kEntrySingleDelete
  else if value_type =? kTypeMerge then kEntryMerge
  else if value_type =? kTypeRangeDeletion then kEntryRangeDeletion
  else if value_type =? kTypeBlobIndex then kEntryBlobIndex
  else if value_type =? kTypeWideColumnEntity then kEntryWideColumnEntity
  else if value_type =? kTypeValuePreferredSeqno then kEntryTimedPut
  else kEntryOther.

(** * Packed sequence numbers and types *)

Definition kMaxSequenceNumber : Z := Z.shiftl 0x1 56 - 1.
Definition kDisableGlobalSequenceNumber : Z := 2 ^ 64 - 1.
Definition kNumInternalBytes : Z := 8.

Record ParsedInternalKey := {
  user_key : bytes;
  sequence : Z;
  type : Z;
}.

Definition InternalKeyEncodingLength (key : ParsedInternalKey) : Z :=
  slen (user_key key) + kNumInternalBytes.

Definition PackSequenceAndType (seq t : Z) : Z := Z.lor (u64 (Z.shiftl seq 8)) t.
Definition UnPackSequenceAndType (packed : Z) : Z * Z :=
  (Z.shiftr packed 8, Z.land packed 0xff).
Definition kRangeTombstoneSentinel : Z :=
  PackSequenceAndType kMaxSequenceNumber kTypeRangeDeletion.

(** * Building internal keys *)

Definition AppendInternalKey (result : bytes) (key : ParsedInternalKey) : bytes :=
  PutFixed64 (result ++ user_key key) (PackSequenceAndType (sequence key) (type key)).
Definition AppendInternalKeyWithDifferentTimestamp (result : bytes) (key : ParsedInternalKey)
    (ts : bytes) : bytes :=
  PutFixed64 (result ++ stake (slen (user_key key) - slen ts) (user_key key) ++ ts)
    (PackSequenceAndType (sequence key) (type key)).
Definition AppendUserKeyWithDifferentTimestamp (result key ts : bytes) : bytes :=
  result ++ stake (slen key - slen ts) key ++ ts.
Definition AppendInternalKeyFooter (result : bytes) (s t : Z) : bytes :=
  PutFixed64 result (PackSequenceAndType s t).
Definition AppendKeyWithMinTimestamp (result key : bytes) (ts_sz : Z) : bytes :=
  result ++ key ++ sfill ts_sz Byte.x00.
Definition AppendKeyWithMaxTimestamp (result key : bytes) (ts_sz : Z) : bytes :=
  result ++ key ++ sfill ts_sz Byte.xff.
Definition AppendUserKeyWithMinTimestamp (result key : bytes) (ts_sz : Z) : bytes :=
  result ++ stake (slen key - ts_sz) key ++ sfill ts_sz Byte.x00.
Definition AppendUserKeyWithMaxTimestamp (result key : bytes) (ts_sz : Z) : bytes :=
  let kTsMax := sfill 9 Byte.xff in
  result ++ stake (slen key - ts_sz) key ++
    (if ts_sz <? 9 then stake ts_sz kTsMax else sfill ts_sz Byte.xff).
Definition PadInternalKeyWithMinTimestamp (result key : bytes) (ts_sz : Z) : bytes :=
  let user_key_size := slen key - kNumInternalBytes in
  result ++ stake user_key_size key ++ sfill ts_sz Byte.x00 ++
    stake kNumInternalBytes (sdrop user_key_size key).
Definition PadInternalKeyWithMaxTimestamp (result key : bytes) (ts_sz : Z) : bytes :=
  let user_key_size := slen key - kNumInternalBytes in
  result ++ stake user_key_size key ++ sfill ts_sz Byte.xff ++
    stake kNumInternalBytes (sdrop user_key_size key).
Definition StripTimestampFromInternalKey (result key : bytes) (ts_sz : Z) : bytes :=
  result ++ stake (slen key - kNumInternalBytes - ts_sz) key ++
    stake kNumInternalBytes (sdrop (slen key - kNumInternalBytes) key).
Definition ReplaceInternalKeyWithMinTimestamp (result key : bytes) (ts_sz : Z) : bytes :=
  let key_sz := slen key in
  result ++ stake (key_sz - kNumInternalBytes - ts_sz) key ++ sfill ts_sz Byte.x00 ++
    stake kNumInternalBytes (sdrop (key_sz - kNumInternalBytes) key).

(** * Taking internal keys apart *)

Definition ExtractUserKey (internal_key : bytes) : bytes :=
  stake (slen internal_key - kNumInternalBytes) internal_key.
Definition ExtractUserKeyAndStripTimestamp (internal_key : bytes) (ts_sz : Z) : bytes :=
  stake (slen internal_key - (kNumInternalBytes + ts_sz)) internal_key.
Definition ExtractTimestampFromKey (internal_key : bytes) (ts_sz : Z) : bytes :=
  stake ts_sz (sdrop (slen internal_key - ts_sz - kNumInternalBytes) internal_key).
Definition ExtractInternalKeyFooter (internal_key : bytes) : Z :=
  DecodeFixed64 (sdrop (slen internal_key - kNumInternalBytes) internal_key).
Definition ExtractValueType (internal_key : bytes) : Z :=
  Z.land (ExtractInternalKeyFooter internal_key) 0xff.
Definition GetInternalKeySeqno (internal_key : bytes) : Z :=
  Z.shiftr (ExtractInternalKeyFooter internal_key) 8.

(** The two corruption reports of [ParseInternalKey]. *)
Inductive ParseError := InternalKeyTooSmall | CorruptedKey (k : ParsedInternalKey).

Definition ParseInternalKey (internal_key : bytes) : ParsedInternalKey + ParseError :=
  let n := slen internal_key in
  if n <? kNumInternalBytes then inr InternalKeyTooSmall
  else
    let num := DecodeFixed64 (sdrop (n - kNumInternalBytes) internal_key) in
    let c := Z.land num 0xff in
    let result := {| sequence := Z.shiftr num 8; type := c;
                     user_key := stake (n - kNumInternalBytes) internal_key |} in
    if IsExtendedValueType (type result) then inl result else inr (CorruptedKey result).

Definition UpdateInternalKey (ikey : bytes) (seq t : Z) : bytes :=
  let newval := Z.lor (u64 (Z.shiftl seq 8)) t in
  stake (slen ikey - kNumInternalBytes) ikey ++ EncodeFixed64 newval.

(** * The order on internal keys *)

Section InternalKeyComparator.
Context {C : Comparator}.

(** -1 when the first number is larger: larger sequence numbers come first. *)
Definition compare_footers (anum bnum : Z) : Z :=
  if anum >? bnum then -1 else if anum <? bnum then 1 else 0.

Definition InternalKeyComparator_Compare (akey bkey : bytes) : Z :=
  let r := Compare (ExtractUserKey akey) (ExtractUserKey bkey) in
  if r =? 0 then
    let anum := DecodeFixed64 (sdrop (slen akey - kNumInternalBytes) akey) in
    let bnum := DecodeFixed64 (sdrop (slen bkey - kNumInternalBytes) bkey) in
    compare_footers anum bnum
  else r.

Definition InternalKeyComparator_CompareKeySeq (akey bkey : bytes) : Z :=
  let r := Compare (ExtractUserKey akey) (ExtractUserKey bkey) in
  if r =? 0 then
    let anum := Z.shiftr (DecodeFixed64 (sdrop (slen akey - kNumInternalBytes) akey)) 8 in
    let bnum := Z.shiftr (DecodeFixed64 (sdrop (slen bkey - kNumInternalBytes) bkey)) 8 in
    compare_footers anum bnum
  else r.

Definition InternalKeyComparator_CompareKeySeq_parsed (a : ParsedInternalKey) (b : bytes) : Z :=
  let r := Compare (user_key a) (ExtractUserKey b) in
  if r =? 0 then
    let anum := sequence a in
    let bnum := Z.shiftr (DecodeFixed64 (sdrop (slen b - kNumInternalBytes) b)) 8 in
    compare_footers anum bnum
  else r.

Definition InternalKeyComparator_Compare_parsed (a b : ParsedInternalKey) : Z :=
  let r := Compare (user_key a) (user_key b) in
  if r =? 0 then
    if sequence a >? sequence b then -1
    else if sequence a <? sequence b then 1
    else if type a >? type b then -1
    else if type a <? type b then 1
    else r
  else r.

Definition InternalKeyComparator_Compare_slice_parsed (a : bytes) (b : ParsedInternalKey) : Z :=
  let r := Compare (ExtractUserKey a) (user_key b) in
  if r =? 0 then
    let anum := DecodeFixed64 (sdrop (slen a - kNumInternalBytes) a) in
    let bnum := Z.lor (u64 (Z.shiftl (sequence b) 8)) (type b) in
    compare_footers anum bnum
  else r.

Definition InternalKeyComparator_Compare_parsed_slice (a : ParsedInternalKey) (b : bytes) : Z :=
  - InternalKeyComparator_Compare_slice_parsed b a.

Definition InternalKeyComparator_Compare_seqno (a : bytes) (a_global_seqno : Z) (b : bytes)
    (b_global_seqno : Z) : Z :=
  let r := Compare (ExtractUserKey a) (ExtractUserKey b) in
  if r =? 0 then
    let a_footer :=
      if a_global_seqno =? kDisableGlobalSequenceNumber then ExtractInternalKeyFooter a
      else PackSequenceAndType a_global_seqno (ExtractValueType a) in
    let b_footer :=
      if b_global_seqno =? kDisableGlobalSequenceNumber then ExtractInternalKeyFooter b
      else PackSequenceAndType b_global_seqno (ExtractValueType b) in
    compare_footers a_footer b_footer
  else r.

(** ** Separators between internal keys *)

Definition FindShortestInternalKeySeparator (start limit : bytes) : bytes :=
  let user_start := ExtractUserKey start in
  let user_limit := ExtractUserKey limit in
  let scratch := FindShortestSeparator user_start user_limit in
  if (slen scratch <=? slen user_start) && (Compare user_start scratch <? 0) then
    PutFixed64 scratch (PackSequenceAndType kMaxSequenceNumber kValueTypeForSeek)
  else start.

Definition FindShortInternalKeySuccessor (key : bytes) : bytes :=
  let user_key := ExtractUserKey key in
  let scratch := FindShortSuccessor user_key in
  if (slen scratch <=? slen user_key) && (Compare user_key scratch <? 0) then
    PutFixed64 scratch (PackSequenceAndType kMaxSequenceNumber kValueTypeForSeek)
  else key.
End InternalKeyComparator.

(** * InternalKey: the encoded key as an object *)

Definition InternalKey := bytes.
Definition MakeInternalKey (_user_key : bytes) (s t : Z) : InternalKey :=
  AppendInternalKey [] {| user_key := _user_key; sequence := s; type := t |}.
Definition MakeInternalKey_ts (_user_key : bytes) (s t : Z) (ts : bytes) : InternalKey :=
  AppendInternalKeyWithDifferentTimestamp []
    {| user_key := _user_key; sequence := s; type := t |} ts.
(** The two [Set...PossibleForUserKey] append to what [rep_] already holds. *)
Definition SetMaxPossibleForUserKey (rep_ : InternalKey) (_user_key : bytes) : InternalKey :=
  AppendInternalKey rep_ {| user_key := _user_key; sequence := 0; type := 0 |}.
Definition SetMinPossibleForUserKey (rep_ : InternalKey) (_user_key : bytes) : InternalKey :=
  AppendInternalKey rep_
    {| user_key := _user_key; sequence := kMaxSequenceNumber; type := kValueTypeForSeek |}.
Definition InternalKey_Valid (rep_ : InternalKey) : bool :=
  match ParseInternalKey rep_ with inl _ => true | inr _ => false end.
Definition InternalKey_SetFrom (rep_ : InternalKey) (p : ParsedInternalKey) : InternalKey :=
  AppendInternalKey [] p.
Definition InternalKey_ConvertFromUserKey (rep_ : InternalKey) (s t : Z) : InternalKey :=
  AppendInternalKeyFooter rep_ s t.

(** * LookupKey *)

(** The buffer of a [LookupKey]: [start_] is its beginning, [kstart_] the offset
    after the length prefix, [end_] its end. *)
Record LookupKey := { lookup_rep : bytes; kstart_ : Z }.
Definition MakeLookupKey (_user_key : bytes) (s : Z) (ts : option bytes) : LookupKey :=
  let usize := slen _user_key in
  let ts_bytes := default [] ts in
  let ts_sz := slen ts_bytes in
  let prefix := EncodeVarint32 (u32 (usize + ts_sz + 8)) in
  {| lookup_rep := prefix ++ _user_key ++ ts_bytes ++
       EncodeFixed64 (PackSequenceAndType s kValueTypeForSeek);
     kstart_ := slen prefix |}.
Definition memtable_key (k : LookupKey) : bytes := lookup_rep k.
Definition internal_key (k : LookupKey) : bytes := sdrop (kstart_ k) (lookup_rep k).
Definition lookup_user_key (k : LookupKey) : bytes :=
  stake (slen (lookup_rep k) - kstart_ k - 8) (sdrop (kstart_ k) (lookup_rep k)).

(** * Range tombstones as entries *)

Record RangeTombstone := {
  start_key_ : bytes;
  end_key_ : bytes;
  seq_ : Z;
  ts_ : bytes;
}.
Definition MakeRangeTombstone (sk ek : bytes) (sn : Z) : RangeTombstone :=
  {| start_key_ := sk; end_key_ := ek; seq_ := sn; ts_ := [] |}.
Definition MakeRangeTombstone_ts (sk ek : bytes) (sn : Z) (ts : bytes) : RangeTombstone :=
  let ts_sz := slen ts in
  let pinned_start_key_ := AppendUserKeyWithDifferentTimestamp [] sk ts in
  let pinned_end_key_ := AppendUserKeyWithDifferentTimestamp [] ek ts in
  {| start_key_ := pinned_start_key_; end_key_ := pinned_end_key_; seq_ := sn;
     ts_ := stake ts_sz (sdrop (slen sk - ts_sz) pinned_start_key_) |}.
Definition RangeTombstone_of_entry (parsed_key : ParsedInternalKey) (value : bytes)
    : RangeTombstone :=
  {| start_key_ := user_key parsed_key; seq_ := sequence parsed_key; end_key_ := value;
     ts_ := [] |}.
Definition Serialize (t : RangeTombstone) : InternalKey * bytes :=
  (MakeInternalKey (start_key_ t) (seq_ t) kTypeRangeDeletion, end_key_ t).
Definition SerializeKey (t : RangeTombstone) : InternalKey :=
  MakeInternalKey (start_key_ t) (seq_ t) kTypeRangeDeletion.
Definition SerializeEndKey (t : RangeTombstone) : InternalKey :=
  if negb (slen (ts_ t) =? 0) then
    let kTsMax := sfill 9 Byte.xff in
    if slen (ts_ t) <=? 9 then
      MakeInternalKey_ts (end_key_ t) kMaxSequenceNumber kTypeRangeDeletion
        (stake (slen (ts_ t)) kTsMax)
    else
      MakeInternalKey_ts (end_key_ t) kMaxSequenceNumber kTypeRangeDeletion
        (sfill (slen (ts_ t)) Byte.xff)
  else MakeInternalKey (end_key_ t) kMaxSequenceNumber kTypeRangeDeletion.

(** * Packing *)

Definition key_wf (k : ParsedInternalKey) : Prop :=
  fits 56 (sequence k) /\ fits 8 (type k).

Lemma PackSequenceAndType_sum s t : fits 56 s -> fits 8 t ->
  PackSequenceAndType s t = s * 256 + t.
Proof.
  unfold fits. intros Hs Ht. unfold PackSequenceAndType.
  rewrite Z.shiftl_mul_pow2 by lia. rewrite wrap_small by (unfold fits; lia).
  by rewrite lor_shift_add by (unfold fits; lia).
Qed.

Lemma PackSequenceAndType_fits s t : fits 56 s -> fits 8 t -> fits 64 (PackSequenceAndType s t).
Proof. intros Hs Ht. rewrite PackSequenceAndType_sum by done. unfold fits in *. lia. Qed.

Lemma footer_div_mod f : Z.shiftr f 8 = f / 256 /\ Z.land f 0xff = f mod 256.
Proof.
  split; [by rewrite Z.shiftr_div_pow2 by lia|].
  change 0xff with (Z.ones 8). by rewrite Z.land_ones by lia.
Qed.

Lemma UnPackSequenceAndType_Pack s t : fits 56 s -> fits 8 t ->
  UnPackSequenceAndType (PackSequenceAndType s t) = (s, t).
Proof.
  intros Hs Ht. rewrite PackSequenceAndType_sum by done. unfold UnPackSequenceAndType.
  destruct (footer_div_mod (s * 256 + t)) as [-> ->]. unfold fits in *.
  f_equal; [rewrite Z.div_add_l by lia; rewrite Z.div_small; lia|].
  rewrite Z.add_comm, Z.mod_add by lia. apply Z.mod_small; lia.
Qed.

(** * An encoded key and its parts *)

(** The parts of an encoded key, whatever its type byte. *)
Definition parts (k : bytes) : ParsedInternalKey :=
  {| user_key := ExtractUserKey k; sequence := GetInternalKeySeqno k;
     type := ExtractValueType k |}.

Lemma parts_wf k : key_wf (parts k).
Proof.
  unfold key_wf, parts, GetInternalKeySeqno, ExtractValueType, ExtractInternalKeyFooter. simpl.
  set (f := DecodeFixed64 _). assert (fits 64 f) by apply DecodeFixed64_fits.
  destruct (footer_div_mod f) as [-> ->]. unfold fits in *.
  split; [split; [apply Z.div_pos | apply Z.div_lt_upper_bound]; lia |].
  apply Z.mod_pos_bound. lia.
Qed.

Lemma ExtractInternalKeyFooter_parts k :
  ExtractInternalKeyFooter k = sequence (parts k) * 256 + type (parts k).
Proof.
  unfold parts, GetInternalKeySeqno, ExtractValueType. simpl.
  set (f := ExtractInternalKeyFooter k). destruct (footer_div_mod f) as [-> ->].
  pose proof (Z_div_mod_eq_full f 256). lia.
Qed.

Lemma AppendInternalKey_parts k : 8 <= slen k -> AppendInternalKey [] (parts k) = k.
Proof.
  intros Hk. unfold AppendInternalKey, PutFixed64. destruct (parts_wf k).
  rewrite PackSequenceAndType_sum by done. rewrite <- ExtractInternalKeyFooter_parts.
  unfold ExtractInternalKeyFooter. simpl. unfold ExtractUserKey.
  rewrite EncodeFixed64_Decode by (unfold kNumInternalBytes; slia). apply stake_sdrop.
Qed.

Lemma ExtractUserKey_footer u f : ExtractUserKey (u ++ EncodeFixed64 f) = u.
Proof. apply stake_app_exact. unfold kNumInternalBytes. slia. Qed.

Lemma ExtractInternalKeyFooter_footer u f : fits 64 f ->
  ExtractInternalKeyFooter (u ++ EncodeFixed64 f) = f.
Proof.
  intros Hf. unfold ExtractInternalKeyFooter.
  rewrite sdrop_app_exact by (unfold kNumInternalBytes; slia).
  by rewrite <- (app_nil_r (EncodeFixed64 f)), DecodeFixed64_Encode.
Qed.

Lemma parts_footer u f : fits 64 f ->
  parts (u ++ EncodeFixed64 f) =
  {| user_key := u; sequence := Z.shiftr f 8; type := Z.land f 0xff |}.
Proof.
  intros Hf.
  unfold parts, GetInternalKeySeqno, ExtractValueType.
  by rewrite ExtractUserKey_footer, ExtractInternalKeyFooter_footer.
Qed.

Lemma parts_AppendInternalKey k : key_wf k -> parts (AppendInternalKey [] k) = k.
Proof.
  intros [Hs Ht]. unfold AppendInternalKey, PutFixed64. simpl.
  rewrite parts_footer by (by apply PackSequenceAndType_fits).
  pose proof (UnPackSequenceAndType_Pack _ _ Hs Ht) as E. injection E as -> ->. by destruct k.
Qed.

Lemma slen_AppendInternalKey r k :
  slen (AppendInternalKey r k) = slen r + InternalKeyEncodingLength k.
Proof. unfold AppendInternalKey, PutFixed64, InternalKeyEncodingLength, kNumInternalBytes. slia. Qed.

Lemma ParseInternalKey_parts k : ParseInternalKey k =
  if slen k <? 8 then inr InternalKeyTooSmall
  else if IsExtendedValueType (ExtractValueType k) then inl (parts k)
  else inr (CorruptedKey (parts k)).
Proof. unfold ParseInternalKey, kNumInternalBytes. by destruct (slen k <? 8). Qed.

(** C36: encoding and parsing of internal keys are inverse.  Parsing what
    [AppendInternalKey] wrote gives back the user key, the sequence number and
    the type, as a corruption exactly when the type is not one that may appear in
    a key; a string that parses is the encoding of the result; a string that is
    shorter than the footer is refused. *)
Theorem ParseInternalKey_AppendInternalKey (k : ParsedInternalKey) (b : bytes) :
  (key_wf k -> ParseInternalKey (AppendInternalKey [] k) =
     if IsExtendedValueType (type k) then inl k else inr (CorruptedKey k)) /\
  (ParseInternalKey b = inl k -> AppendInternalKey [] k = b /\ key_wf k) /\
  (ParseInternalKey b = inr InternalKeyTooSmall <-> slen b < kNumInternalBytes).
Proof.
  split_and!.
  - intros Hk. rewrite ParseInternalKey_parts, parts_AppendInternalKey by done.
    rewrite slen_AppendInternalKey. unfold InternalKeyEncodingLength, kNumInternalBytes.
    case Z.ltb_spec; [slia | intros _].
    change (ExtractValueType ?x) with (type (parts x)). by rewrite parts_AppendInternalKey.
  - rewrite ParseInternalKey_parts. destruct (Z.ltb_spec (slen b) 8); [done |].
    case_match; [| done]. intros [= <-]. split; [by apply AppendInternalKey_parts |].
    apply parts_wf.
  - rewrite ParseInternalKey_parts. unfold kNumInternalBytes.
    destruct (Z.ltb_spec (slen b) 8); [done |]. split; [by case_match | lia].
Qed.

(** * The order *)

Lemma compare_footers_parts a b :
  compare_footers (ExtractInternalKeyFooter a) (ExtractInternalKeyFooter b) =
  let p := parts a in let q := parts b in
  if sequence p >? sequence q then -1 else if sequence p <? sequence q then 1
  else if type p >? type q then -1 else if type p <? type q then 1 else 0.
Proof.
  rewrite !ExtractInternalKeyFooter_parts. cbv zeta.
  destruct (parts_wf a) as [_ Ha], (parts_wf b) as [_ Hb]. unfold fits in *.
  unfold compare_footers. rewrite !Z.gtb_ltb.
  destruct_ifs; bool_to_prop; try lia; done.
Qed.

Section KeyOrder.
Context {C : Comparator} {CL : ComparatorLaws C}.

Lemma InternalKeyComparator_Compare_parts a b :
  InternalKeyComparator_Compare a b = InternalKeyComparator_Compare_parsed (parts a) (parts b).
Proof.
  unfold InternalKeyComparator_Compare, InternalKeyComparator_Compare_parsed.
  change (DecodeFixed64 (sdrop (slen ?x - kNumInternalBytes) ?x)) with (ExtractInternalKeyFooter x).
  rewrite compare_footers_parts. cbv zeta.
  change (user_key (parts ?x)) with (ExtractUserKey x).
  destruct (Compare (ExtractUserKey a) (ExtractUserKey b) =? 0) eqn:E; [| done].
  apply Z.eqb_eq in E. by rewrite E.
Qed.

(** The order: user keys ascending, then sequence numbers and types descending. *)
Lemma Compare_parsed_le a b : InternalKeyComparator_Compare_parsed a b <= 0 <->
  Compare (user_key a) (user_key b) < 0 \/
  Compare (user_key a) (user_key b) = 0 /\
    (sequence b < sequence a \/ sequence b = sequence a /\ type b <= type a).
Proof.
  unfold InternalKeyComparator_Compare_parsed. rewrite !Z.gtb_ltb.
  destruct_ifs; bool_to_prop; lia.
Qed.

Lemma Compare_parsed_lt a b : InternalKeyComparator_Compare_parsed a b < 0 <->
  Compare (user_key a) (user_key b) < 0 \/
  Compare (user_key a) (user_key b) = 0 /\
    (sequence b < sequence a \/ sequence b = sequence a /\ type b < type a).
Proof.
  unfold InternalKeyComparator_Compare_parsed. rewrite !Z.gtb_ltb.
  destruct_ifs; bool_to_prop; lia.
Qed.

Lemma Compare_parsed_sgn a b :
  Z.sgn (InternalKeyComparator_Compare_parsed b a) =
  - Z.sgn (InternalKeyComparator_Compare_parsed a b).
Proof.
  pose proof (compare_sgn (user_key a) (user_key b)) as E.
  unfold InternalKeyComparator_Compare_parsed. rewrite !Z.gtb_ltb.
  destruct_ifs; bool_to_prop; lia.
Qed.

Lemma Compare_parsed_trans a b c :
  InternalKeyComparator_Compare_parsed a b <= 0 ->
  InternalKeyComparator_Compare_parsed b c <= 0 ->
  InternalKeyComparator_Compare_parsed a c <= 0.
Proof.
  rewrite !Compare_parsed_le. intros H1 H2.
  pose proof (compare_trans (user_key a) (user_key b) (user_key c)).
  pose proof (compare_lt_le_trans (user_key a) (user_key b) (user_key c)).
  pose proof (compare_le_lt_trans (user_key a) (user_key b) (user_key c)).
  pose proof (compare_trans (user_key c) (user_key b) (user_key a)).
  pose proof (compare_sgn (user_key a) (user_key b)).
  pose proof (compare_sgn (user_key b) (user_key c)).
  pose proof (compare_sgn (user_key a) (user_key c)). lia.
Qed.

#[global] Instance InternalKey_order : KeyOrder InternalKeyComparator_Compare.
Proof.
  split; intros *; rewrite !InternalKeyComparator_Compare_parts; [apply Compare_parsed_sgn | apply Compare_parsed_trans].
Qed.
(** Internal keys are ordered like their user keys. *)
Lemma Compare_internal_user a b : InternalKeyComparator_Compare a b <= 0 -> Compare (ExtractUserKey a) (ExtractUserKey b) <= 0.
Proof. rewrite InternalKeyComparator_Compare_parts, Compare_parsed_le. change (user_key (parts ?x)) with (ExtractUserKey x). lia. Qed.
End KeyOrder.

(** every overload of the internal key comparison is the same order: on the
    parsed parts, on encoded keys, on one of each, and, when a global sequence
    number replaces the one of a key, on the key with the footer rewritten. *)
Theorem Compare_overloads_agree {C : Comparator} {CL : ComparatorLaws C} (a b : bytes) (p : ParsedInternalKey)
    (sa sb : Z) (Hp : key_wf p) (Ha : 8 <= slen a) (Hb : 8 <= slen b)
    (Hsa : fits 56 sa) (Hsb : fits 56 sb) :
  InternalKeyComparator_Compare a b = InternalKeyComparator_Compare_parsed (parts a) (parts b) /\
  InternalKeyComparator_Compare_slice_parsed a p =
    InternalKeyComparator_Compare a (AppendInternalKey [] p) /\
  Z.sgn (InternalKeyComparator_Compare_parsed_slice p a) =
    Z.sgn (InternalKeyComparator_Compare (AppendInternalKey [] p) a) /\
  InternalKeyComparator_Compare_seqno a kDisableGlobalSequenceNumber b kDisableGlobalSequenceNumber =
    InternalKeyComparator_Compare a b /\
  InternalKeyComparator_Compare_seqno a sa b sb =
    InternalKeyComparator_Compare (UpdateInternalKey a sa (ExtractValueType a))
      (UpdateInternalKey b sb (ExtractValueType b)).
Proof.
  assert (InternalKeyComparator_Compare_slice_parsed a p =
          InternalKeyComparator_Compare a (AppendInternalKey [] p)) as Esp.
  { unfold InternalKeyComparator_Compare_slice_parsed, InternalKeyComparator_Compare.
    destruct Hp as [Hs Ht]. unfold AppendInternalKey, PutFixed64. simpl app.
    change (DecodeFixed64 (sdrop (slen ?x - kNumInternalBytes) ?x)) with (ExtractInternalKeyFooter x).
    by rewrite ExtractUserKey_footer, ExtractInternalKeyFooter_footer
      by (by apply PackSequenceAndType_fits). }
  split_and!; [apply InternalKeyComparator_Compare_parts | done | | |].
  - unfold InternalKeyComparator_Compare_parsed_slice. rewrite Esp.
    rewrite !InternalKeyComparator_Compare_parts, Z.sgn_opp. symmetry. apply Compare_parsed_sgn.
  - done.
  - unfold InternalKeyComparator_Compare_seqno, InternalKeyComparator_Compare, UpdateInternalKey.
    change (DecodeFixed64 (sdrop (slen ?x - kNumInternalBytes) ?x)) with (ExtractInternalKeyFooter x).
    pose proof (proj2 (parts_wf a)). pose proof (proj2 (parts_wf b)).
    change (Z.lor (u64 (Z.shiftl ?s 8)) ?t) with (PackSequenceAndType s t).
    rewrite !ExtractUserKey_footer, !ExtractInternalKeyFooter_footer
      by (by apply PackSequenceAndType_fits).
    unfold fits in *. destruct (Z.eqb_spec sa kDisableGlobalSequenceNumber) as [-> |]; [by destruct Hsa|].
    by destruct (Z.eqb_spec sb kDisableGlobalSequenceNumber) as [-> |]; [destruct Hsb|].
Qed.

(** C35: internal keys are totally ordered: by user key ascending, then by sequence
    number descending, then by type descending; two keys compare equal exactly
    when their user keys do and their footers are the same. *)
Theorem InternalKeyComparator_total_order {C : Comparator} {CL : ComparatorLaws C} (a b c : bytes) :
  (InternalKeyComparator_Compare a b < 0 <->
     Compare (ExtractUserKey a) (ExtractUserKey b) < 0 \/
     Compare (ExtractUserKey a) (ExtractUserKey b) = 0 /\
       (GetInternalKeySeqno b < GetInternalKeySeqno a \/
        GetInternalKeySeqno b = GetInternalKeySeqno a /\ ExtractValueType b < ExtractValueType a)) /\
  (InternalKeyComparator_Compare a b = 0 <->
     Compare (ExtractUserKey a) (ExtractUserKey b) = 0 /\
     ExtractInternalKeyFooter a = ExtractInternalKeyFooter b) /\
  Z.sgn (InternalKeyComparator_Compare b a) = - Z.sgn (InternalKeyComparator_Compare a b) /\
  (InternalKeyComparator_Compare a b <= 0 -> InternalKeyComparator_Compare b c <= 0 ->
   InternalKeyComparator_Compare a c <= 0) /\
  (InternalKeyComparator_CompareKeySeq a b <= 0 <->
     Compare (ExtractUserKey a) (ExtractUserKey b) < 0 \/
     Compare (ExtractUserKey a) (ExtractUserKey b) = 0 /\
       GetInternalKeySeqno b <= GetInternalKeySeqno a).
Proof.
  rewrite !InternalKeyComparator_Compare_parts. split_and!.
  - apply Compare_parsed_lt.
  - rewrite <- InternalKeyComparator_Compare_parts. unfold InternalKeyComparator_Compare.
    unfold compare_footers, ExtractInternalKeyFooter. rewrite !Z.gtb_ltb.
    destruct_ifs; bool_to_prop; lia.
  - apply Compare_parsed_sgn.
  - apply Compare_parsed_trans.
  - unfold InternalKeyComparator_CompareKeySeq, compare_footers, GetInternalKeySeqno.
    change (DecodeFixed64 (sdrop (slen ?x - kNumInternalBytes) ?x)) with (ExtractInternalKeyFooter x).
    rewrite !Z.gtb_ltb. destruct_ifs; bool_to_prop; lia.
Qed.

Lemma parts_PutFixed64 u s t : fits 56 s -> fits 8 t ->
  parts (PutFixed64 u (PackSequenceAndType s t)) =
  {| user_key := u; sequence := s; type := t |}.
Proof.
  intros Hs Ht. exact (parts_AppendInternalKey {| user_key := u; sequence := s; type := t |}
    (conj Hs Ht)).
Qed.

Lemma seek_fits : fits 56 kMaxSequenceNumber /\ fits 8 kValueTypeForSeek.
Proof. done. Qed.

(** the separator that an index block stores between two data blocks is at
    least the last key of the first and before the first key of the second, and
    the successor stored after the last block is at least its last key; neither is
    longer than the key it shortens.  The user comparator is any lawful one. *)
Theorem internal_key_separators {C : Comparator} {CL : ComparatorLaws C} (start limit : bytes)
    (Hs : 8 <= slen start)
    (Hok : key_ok (ExtractUserKey start)) (Hok' : key_ok (ExtractUserKey limit))
    (Hlt : InternalKeyComparator_Compare start limit < 0) :
  InternalKeyComparator_Compare start (FindShortestInternalKeySeparator start limit) <= 0 /\
  InternalKeyComparator_Compare (FindShortestInternalKeySeparator start limit) limit < 0 /\
  slen (FindShortestInternalKeySeparator start limit) <= slen start /\
  InternalKeyComparator_Compare start (FindShortInternalKeySuccessor start) <= 0 /\
  slen (FindShortInternalKeySuccessor start) <= slen start.
Proof.
  assert (InternalKeyComparator_Compare start start <= 0) as Hrefl.
  { rewrite InternalKeyComparator_Compare_parts, Compare_parsed_le, compare_refl. lia. }
  assert (slen (ExtractUserKey start) = slen start - 8) as Hlen
    by (unfold ExtractUserKey, kNumInternalBytes; slia).
  destruct seek_fits as [Hm Hk].
  unfold FindShortestInternalKeySeparator, FindShortInternalKeySuccessor. split_and!.
  1-3: destruct (_ && _) eqn:E; [| done || lia]; apply andb_prop in E as [E1 E2];
    bool_to_prop.
  - rewrite InternalKeyComparator_Compare_parts, parts_PutFixed64, Compare_parsed_le by done.
    by left.
  - rewrite InternalKeyComparator_Compare_parts in *.
    rewrite parts_PutFixed64, Compare_parsed_lt by done. left. simpl.
    destruct (Z_lt_ge_dec (Compare (ExtractUserKey start) (ExtractUserKey limit)) 0) as [Hu | Hu].
    + by apply separator_range.
    + rewrite separator_noop, compare_refl in E2 by lia. lia.
  - unfold PutFixed64. slia.
  - destruct (_ && _) eqn:E; [| done]. apply andb_prop in E as [E1 E2]. bool_to_prop.
    rewrite InternalKeyComparator_Compare_parts, parts_PutFixed64, Compare_parsed_le by done.
    by left.
  - destruct (_ && _) eqn:E; [| lia]. apply andb_prop in E as [E1 E2]. bool_to_prop.
    unfold PutFixed64. slia.
Qed.

Lemma internal_key_separators_witness :
  let start := MakeInternalKey [Byte.x61; Byte.x62; Byte.x63] 7 kTypeValue in
  let limit := MakeInternalKey [Byte.x67] 9 kTypeValue in
  let C := BytewiseComparatorImpl in
  FindShortestInternalKeySeparator start limit
    = MakeInternalKey [Byte.x62] kMaxSequenceNumber kValueTypeForSeek /\
  InternalKeyComparator_Compare (FindShortestInternalKeySeparator start limit) limit < 0.
Proof.
  split; [by vm_compute |].
  apply (internal_key_separators (C := BytewiseComparatorImpl)
    (MakeInternalKey [Byte.x61; Byte.x62; Byte.x63] 7 kTypeValue)
    (MakeInternalKey [Byte.x67] 9 kTypeValue)); by vm_compute.
Defined.

Lemma Compare_overloads_agree_witness :
  let C := BytewiseComparatorImpl in
  let a := MakeInternalKey [Byte.x61] 7 kTypeValue in
  InternalKeyComparator_Compare_seqno a 9 a 8 =
    InternalKeyComparator_Compare (UpdateInternalKey a 9 (ExtractValueType a))
      (UpdateInternalKey a 8 (ExtractValueType a)).
Proof.
  apply (Compare_overloads_agree (C := BytewiseComparatorImpl)
    (MakeInternalKey [Byte.x61] 7 kTypeValue) (MakeInternalKey [Byte.x61] 7 kTypeValue)
    {| user_key := []; sequence := 0; type := 0 |} 9 8); by vm_compute.
Defined.

Lemma InternalKeyComparator_total_order_witness :
  let C := BytewiseComparatorImpl in
  let a := MakeInternalKey [Byte.x61] 7 kTypeValue in
  let b := MakeInternalKey [Byte.x61] 6 kTypeValue in
  Z.sgn (InternalKeyComparator_Compare b a) = - Z.sgn (InternalKeyComparator_Compare a b).
Proof.
  apply (InternalKeyComparator_total_order (C := BytewiseComparatorImpl)
    (MakeInternalKey [Byte.x61] 7 kTypeValue) (MakeInternalKey [Byte.x61] 6 kTypeValue) []).
Defined.

(** * Timestamps inside keys *)

Lemma PadInternalKey_shape fill key : 8 <= slen key ->
  stake (slen key - kNumInternalBytes) key ++ fill ++
    stake kNumInternalBytes (sdrop (slen key - kNumInternalBytes) key) =
  ExtractUserKey key ++ fill ++ EncodeFixed64 (ExtractInternalKeyFooter key).
Proof.
  intros Hk. unfold ExtractUserKey, ExtractInternalKeyFooter, kNumInternalBytes.
  rewrite EncodeFixed64_Decode by slia. by rewrite (stake_ge 8) by slia.
Qed.

Lemma key_shape key : 8 <= slen key ->
  key = ExtractUserKey key ++ EncodeFixed64 (ExtractInternalKeyFooter key).
Proof.
  intros Hk. pose proof (PadInternalKey_shape [] key Hk) as E. simpl app in E. rewrite <- E.
  unfold kNumInternalBytes. rewrite (stake_ge 8) by slia. by rewrite stake_sdrop.
Qed.

(** Inserting [fill] before the footer and taking it out again. *)
Lemma strip_pad u fill f : fits 64 f ->
  let k := u ++ fill ++ EncodeFixed64 f in
  StripTimestampFromInternalKey [] k (slen fill) = u ++ EncodeFixed64 f /\
  ExtractTimestampFromKey k (slen fill) = fill /\
  ExtractUserKeyAndStripTimestamp k (slen fill) = u /\
  ExtractUserKey k = u ++ fill /\
  ExtractInternalKeyFooter k = f.
Proof.
  intros Hf k. unfold k, kNumInternalBytes in *.
  unfold StripTimestampFromInternalKey, ExtractTimestampFromKey, ExtractUserKeyAndStripTimestamp,
    kNumInternalBytes.
  assert (slen (u ++ fill ++ EncodeFixed64 f) = slen u + slen fill + 8) as E by slia.
  rewrite E. split_and!.
  - simpl app. rewrite stake_app_exact by lia. rewrite (app_assoc u), sdrop_app_exact by slia.
    by rewrite (stake_ge 8) by slia.
  - rewrite sdrop_app_exact by lia. by rewrite stake_app_exact.
  - by rewrite stake_app_exact by lia.
  - by rewrite app_assoc, ExtractUserKey_footer.
  - by rewrite app_assoc, ExtractInternalKeyFooter_footer.
Qed.

(** padding an internal key with a timestamp and stripping it are inverse, the
    padding lands between the user key and the footer and leaves both as they were,
    and replacing the timestamp of a key by the minimal one is stripping it and
    padding again. *)
Theorem timestamp_padding (key : bytes) (ts_sz : Z) (Hk : 8 <= slen key) (Hts : 0 <= ts_sz) :
  let padmin := PadInternalKeyWithMinTimestamp [] key ts_sz in
  let padmax := PadInternalKeyWithMaxTimestamp [] key ts_sz in
  StripTimestampFromInternalKey [] padmin ts_sz = key /\
  StripTimestampFromInternalKey [] padmax ts_sz = key /\
  ExtractTimestampFromKey padmin ts_sz = sfill ts_sz Byte.x00 /\
  ExtractTimestampFromKey padmax ts_sz = sfill ts_sz Byte.xff /\
  ExtractUserKeyAndStripTimestamp padmin ts_sz = ExtractUserKey key /\
  ExtractInternalKeyFooter padmin = ExtractInternalKeyFooter key /\
  ExtractUserKey padmin = AppendKeyWithMinTimestamp [] (ExtractUserKey key) ts_sz /\
  (kNumInternalBytes + ts_sz <= slen key ->
   ReplaceInternalKeyWithMinTimestamp [] key ts_sz =
   PadInternalKeyWithMinTimestamp [] (StripTimestampFromInternalKey [] key ts_sz) ts_sz).
Proof.
  unfold PadInternalKeyWithMinTimestamp, PadInternalKeyWithMaxTimestamp. simpl app.
  rewrite !PadInternalKey_shape by done.
  pose proof (DecodeFixed64_fits (sdrop (slen key - kNumInternalBytes) key)) as Hf.
  change (DecodeFixed64 _) with (ExtractInternalKeyFooter key) in Hf.
  destruct (strip_pad (ExtractUserKey key) (sfill ts_sz Byte.x00) _ Hf) as (E1 & E2 & E3 & E4 & E5).
  destruct (strip_pad (ExtractUserKey key) (sfill ts_sz Byte.xff) _ Hf) as (F1 & F2 & _).
  rewrite slen_sfill, Z.max_r in * by done. rewrite <- key_shape in * by done.
  split_and!; try done. intros Hlen. unfold kNumInternalBytes in *.
  unfold StripTimestampFromInternalKey, ReplaceInternalKeyWithMinTimestamp, kNumInternalBytes.
  set (u := stake _ key). set (f := stake 8 _). simpl app.
  assert (slen f = 8) as Hf8 by (unfold f; slia).
  assert (slen (u ++ f) - 8 = slen u) as Eu by (rewrite slen_app; lia).
  rewrite Eu, stake_app_exact, sdrop_app_exact by done. by rewrite (stake_ge 8 f) by lia.
Qed.

Lemma timestamp_padding_witness :
  let key := MakeInternalKey [Byte.x61] 7 kTypeValue in
  StripTimestampFromInternalKey [] (PadInternalKeyWithMinTimestamp [] key 8) 8 = key.
Proof.
  apply (timestamp_padding (MakeInternalKey [Byte.x61] 7 kTypeValue) 8); by vm_compute.
Defined.

Lemma strip_append_ts key fill : slen fill <= slen key ->
  StripTimestampFromUserKey (stake (slen key - slen fill) key ++ fill) (slen fill) =
    StripTimestampFromUserKey key (slen fill) /\
  ExtractTimestampFromUserKey (stake (slen key - slen fill) key ++ fill) (slen fill) = fill.
Proof.
  intros Hle. unfold StripTimestampFromUserKey, ExtractTimestampFromUserKey.
  assert (slen (stake (slen key - slen fill) key ++ fill) - slen fill = slen key - slen fill) as ->
    by slia.
  rewrite stake_app_exact, sdrop_app_exact by slia. by rewrite (stake_ge (slen fill) fill).
Qed.

(** with 64-bit timestamps the key with the maximal timestamp is the first and
    the key with the minimal timestamp the last of the versions of a user key. *)
Theorem timestamp_bounds_of_user_key {C : Comparator} {CL : ComparatorLaws C} (key : bytes)
    (Hk : 8 <= slen key) :
  U64Ts_Compare C (AppendUserKeyWithMaxTimestamp [] key 8) key <= 0 /\
  U64Ts_Compare C key (AppendUserKeyWithMinTimestamp [] key 8) <= 0.
Proof.
  destruct (strip_append_ts key (sfill 8 Byte.xff) Hk) as [E1 E2].
  destruct (strip_append_ts key (sfill 8 Byte.x00) Hk) as [E3 E4].
  change (slen (sfill 8 _)) with 8 in *.
  unfold AppendUserKeyWithMaxTimestamp, AppendUserKeyWithMinTimestamp, U64Ts_Compare,
    U64Ts_CompareWithoutTimestamp. simpl app.
  cbv zeta. change (8 <? 9) with true. change (stake 8 (sfill 9 Byte.xff)) with (sfill 8 Byte.xff).
  cbn iota.
  rewrite E1, E2, E3, E4, compare_refl, Z.eqb_refl. simpl negb. cbn iota.
  rewrite !U64Ts_CompareTimestamp_sgn.
  pose proof (DecodeFixed64_fits (ExtractTimestampFromUserKey key 8)) as Hf. unfold fits in Hf.
  change (DecodeFixed64 (sfill 8 Byte.xff)) with (2 ^ 64 - 1).
  change (DecodeFixed64 (sfill 8 Byte.x00)) with 0. lia.
Qed.

Lemma timestamp_bounds_of_user_key_witness :
  U64Ts_Compare BytewiseComparatorImpl (AppendUserKeyWithMaxTimestamp [] (sfill 9 Byte.x01) 8)
    (sfill 9 Byte.x01) <= 0.
Proof. apply (timestamp_bounds_of_user_key (sfill 9 Byte.x01)). by vm_compute. Defined.

(** * Keys made for a search *)

Lemma internal_key_MakeLookupKey u s ts :
  internal_key (MakeLookupKey u s ts) =
  MakeInternalKey (u ++ default [] ts) s kValueTypeForSeek.
Proof.
  unfold internal_key, MakeLookupKey. simpl. rewrite sdrop_app_exact by done.
  unfold MakeInternalKey, AppendInternalKey, PutFixed64. simpl. by rewrite app_assoc.
Qed.

Lemma MakeLookupKey_spec u s ts :
  fits 56 s -> slen u + slen (default [] ts) + 8 < 2 ^ 32 ->
  let lk := MakeLookupKey u s ts in
  memtable_key lk = PutLengthPrefixedSlice [] (internal_key lk) /\
  lookup_user_key lk = u ++ default [] ts /\
  slen (internal_key lk) = slen u + slen (default [] ts) + 8 /\
  parts (internal_key lk) =
    {| user_key := u ++ default [] ts; sequence := s; type := kValueTypeForSeek |}.
Proof.
  intros Hs Hlen lk. set (uts := u ++ default [] ts) in *.
  assert (slen uts = slen u + slen (default [] ts)) as Hl by apply slen_app.
  assert (internal_key lk = MakeInternalKey uts s kValueTypeForSeek) as Ei
    by apply internal_key_MakeLookupKey.
  assert (slen (internal_key lk) = slen uts + 8) as Hil.
  { rewrite Ei. unfold MakeInternalKey. rewrite slen_AppendInternalKey.
    unfold InternalKeyEncodingLength, kNumInternalBytes. simpl. slia. }
  split_and!; [| | lia | rewrite Ei; by apply parts_AppendInternalKey].
  - unfold PutLengthPrefixedSlice, PutVarint32. rewrite Hil, Hl, Ei. simpl.
    unfold MakeInternalKey, AppendInternalKey, PutFixed64, uts. simpl.
    by rewrite <- (app_assoc u).
  - unfold lookup_user_key. unfold internal_key in Hil, Ei.
    assert (slen (lookup_rep lk) - kstart_ lk - 8 = slen uts) as ->.
    { unfold lk, MakeLookupKey, uts. simpl. slia. }
    rewrite Ei. apply stake_app_exact. done.
Qed.

(** A key with the largest type sorts before the entries of the same user key that
    a read at sequence number [s] may see, and after the newer ones. *)
Lemma seek_position {C : Comparator} {CL : ComparatorLaws C} u s k :
  fits 56 s -> Compare u (user_key k) = 0 -> type k <= kValueTypeForSeek ->
  let seek := {| user_key := u; sequence := s; type := kValueTypeForSeek |} in
  (sequence k <= s <-> InternalKeyComparator_Compare_parsed seek k <= 0).
Proof.
  intros Hs Hu Ht seek. rewrite Compare_parsed_le. unfold seek. simpl. lia.
Qed.

(** a lookup key is the length-prefixed internal key that a memtable stores,
    its parts are the user key (with the timestamp) and the sequence number asked
    for, and it splits the entries of that user key: the entries at or before the
    snapshot are those that do not come before it. *)
Theorem LookupKey_seeks_snapshot {C : Comparator} {CL : ComparatorLaws C} (u : bytes) (s : Z)
    (ts : option bytes) (entry : bytes)
    (Hs : fits 56 s) (Hlen : slen u + slen (default [] ts) + 8 < 2 ^ 32)
    (Hu : Compare (u ++ default [] ts) (ExtractUserKey entry) = 0)
    (Ht : ExtractValueType entry <= kValueTypeForSeek) :
  let lk := MakeLookupKey u s ts in
  memtable_key lk = PutLengthPrefixedSlice [] (internal_key lk) /\
  GetLengthPrefixedSlice (memtable_key lk) = Some (internal_key lk, []) /\
  lookup_user_key lk = u ++ default [] ts /\
  GetInternalKeySeqno (internal_key lk) = s /\
  (GetInternalKeySeqno entry <= s <->
   InternalKeyComparator_Compare (internal_key lk) entry <= 0).
Proof.
  intros lk. pose proof (MakeLookupKey_spec u s ts Hs Hlen) as Hlk.
  fold lk in Hlk. destruct Hlk as (Em & Eu & Hil & Ep).
  pose proof (slen_nonneg u). pose proof (slen_nonneg (default [] ts)). split_and!; [done | | done | |].
  - rewrite Em, <- (app_nil_r (PutLengthPrefixedSlice _ _)).
    apply GetLengthPrefixedSlice_Put. unfold fits. lia.
  - by injection Ep.
  - rewrite InternalKeyComparator_Compare_parts, Ep. by apply (seek_position _ s (parts entry)).
Qed.

Lemma LookupKey_seeks_snapshot_witness :
  let lk := MakeLookupKey [Byte.x61] 7 None in
  memtable_key lk = PutLengthPrefixedSlice [] (internal_key lk).
Proof.
  apply (LookupKey_seeks_snapshot (C := BytewiseComparatorImpl) [Byte.x61] 7 None
    (MakeInternalKey [Byte.x61] 6 kTypeMerge)); by vm_compute.
Defined.

(** of the keys of one user key, the one with sequence number 0 and type 0 is
    the last, and the one with the maximal sequence number and the type of a seek
    comes before every key that can be stored ([IsValueType]) and every range
    tombstone.  [SetMin]/[SetMaxPossibleForUserKey] build them when the object was
    empty. *)
Theorem min_max_possible_key {C : Comparator} {CL : ComparatorLaws C} (u entry : bytes)
    (Hu : Compare u (ExtractUserKey entry) = 0)
    (Ht : IsValueType (ExtractValueType entry) = true \/ ExtractValueType entry = kTypeRangeDeletion) :
  InternalKeyComparator_Compare (SetMinPossibleForUserKey [] u) entry <= 0 /\
  InternalKeyComparator_Compare entry (SetMaxPossibleForUserKey [] u) <= 0.
Proof.
  destruct (parts_wf entry) as [Hs Hty]. unfold fits in Hs, Hty.
  rewrite !InternalKeyComparator_Compare_parts.
  unfold SetMinPossibleForUserKey, SetMaxPossibleForUserKey.
  rewrite !parts_AppendInternalKey, !Compare_parsed_le by done.
  apply compare_eq_sym in Hu as Hu'. simpl in *. rewrite Hu, Hu'.
  assert (ExtractValueType entry <= kValueTypeForSeek).
  { destruct Ht as [Ht | ->]; [| done]. unfold IsValueType in Ht.
    rewrite !orb_true_iff, !Z.eqb_eq, Z.leb_le in Ht.
    unfold kValueTypeForSeek, kTypeMerge, kTypeSingleDeletion, kTypeBlobIndex,
      kTypeDeletionWithTimestamp, kTypeWideColumnEntity, kTypeValuePreferredSeqno in *. lia. }
  unfold kMaxSequenceNumber. change (Z.shiftl 1 56) with (2 ^ 56). lia.
Qed.

Lemma min_max_possible_key_witness :
  InternalKeyComparator_Compare (C := BytewiseComparatorImpl)
    (SetMinPossibleForUserKey [] [Byte.x61]) (MakeInternalKey [Byte.x61] 6 kTypeMerge) <= 0.
Proof.
  apply (min_max_possible_key (C := BytewiseComparatorImpl) [Byte.x61]
    (MakeInternalKey [Byte.x61] 6 kTypeMerge)); [by vm_compute | by left].
Defined.

(** the [Set...PossibleForUserKey] operations append: on an object that already
    holds a key the result is not the key of the given user key. *)
Theorem SetPossible_appends (rep_ u : bytes) (Hrep : rep_ <> []) :
  ExtractUserKey (SetMaxPossibleForUserKey rep_ u) = rep_ ++ u /\
  ExtractUserKey (SetMinPossibleForUserKey rep_ u) = rep_ ++ u /\
  ExtractUserKey (SetMaxPossibleForUserKey rep_ u) <> u.
Proof.
  unfold SetMaxPossibleForUserKey, SetMinPossibleForUserKey, AppendInternalKey, PutFixed64.
  rewrite !ExtractUserKey_footer. simpl. split_and!; [done.. |].
  intros E. apply (f_equal length) in E. rewrite length_app in E. destruct rep_; simpl in E; [done | lia].
Qed.

Lemma SetPossible_appends_witness :
  ExtractUserKey (SetMaxPossibleForUserKey (MakeInternalKey [Byte.x61] 1 1) [Byte.x62]) <> [Byte.x62].
Proof. apply (SetPossible_appends (MakeInternalKey [Byte.x61] 1 1) [Byte.x62]). done. Defined.

(** a range tombstone survives being written as an entry and read back. *)
Theorem RangeTombstone_roundtrip (sk ek : bytes) (seq : Z) (Hseq : fits 56 seq) :
  let t := MakeRangeTombstone sk ek seq in
  exists p, ParseInternalKey (Serialize t).1 = inl p /\ type p = kTypeRangeDeletion /\
    RangeTombstone_of_entry p (Serialize t).2 = t /\ SerializeKey t = (Serialize t).1.
Proof.
  intros t. exists {| user_key := sk; sequence := seq; type := kTypeRangeDeletion |}.
  split_and!; try done. rewrite ParseInternalKey_parts. simpl. unfold MakeInternalKey.
  change (ExtractValueType ?x) with (type (parts x)).
  rewrite parts_AppendInternalKey by done. rewrite slen_AppendInternalKey. simpl.
  unfold InternalKeyEncodingLength, kNumInternalBytes. case Z.ltb_spec; [slia | done].
Qed.

Lemma RangeTombstone_roundtrip_witness :
  exists p, ParseInternalKey (Serialize (MakeRangeTombstone [Byte.x61] [Byte.x63] 5)).1 = inl p /\
    type p = kTypeRangeDeletion /\
    RangeTombstone_of_entry p [Byte.x63] = MakeRangeTombstone [Byte.x61] [Byte.x63] 5 /\
    SerializeKey (MakeRangeTombstone [Byte.x61] [Byte.x63] 5) =
    (Serialize (MakeRangeTombstone [Byte.x61] [Byte.x63] 5)).1.
Proof. apply (RangeTombstone_roundtrip [Byte.x61] [Byte.x63] 5). done. Defined.

(** the end key of a range tombstone (without timestamp) comes before every key
    of the same user key with a smaller sequence number and before point keys of
    smaller type at the maximal sequence number, but not before every key: the seek
    key of the same user key comes before it. *)
Theorem SerializeEndKey_position {C : Comparator} {CL : ComparatorLaws C} (sk ek : bytes) (seq : Z)
    (k : ParsedInternalKey) (Hk : key_wf k) (Hu : Compare ek (user_key k) = 0) :
  let e := SerializeEndKey (MakeRangeTombstone sk ek seq) in
  (sequence k < kMaxSequenceNumber \/ type k < kTypeRangeDeletion ->
   InternalKeyComparator_Compare e (AppendInternalKey [] k) < 0) /\
  InternalKeyComparator_Compare (SetMinPossibleForUserKey [] ek) e < 0.
Proof.
  intros e. unfold e, SerializeEndKey, MakeRangeTombstone. simpl.
  unfold MakeInternalKey, SetMinPossibleForUserKey. rewrite !InternalKeyComparator_Compare_parts.
  rewrite !parts_AppendInternalKey, !Compare_parsed_lt by done. simpl.
  rewrite Hu, compare_refl. destruct Hk as [Hs Ht]. unfold fits in Hs.
  assert (sequence k <= kMaxSequenceNumber).
  { unfold kMaxSequenceNumber. change (Z.shiftl 1 56) with (2 ^ 56). lia. }
  split; [lia |]. right. split; [done |]. by right.
Qed.

Lemma SerializeEndKey_position_witness :
  InternalKeyComparator_Compare (C := BytewiseComparatorImpl)
    (SetMinPossibleForUserKey [] [Byte.x63])
    (SerializeEndKey (MakeRangeTombstone [Byte.x61] [Byte.x63] 5)) < 0.
Proof.
  apply (SerializeEndKey_position (C := BytewiseComparatorImpl) [Byte.x61] [Byte.x63] 5
    {| user_key := [Byte.x63]; sequence := 1; type := 1 |}); done.
Defined.
