(* ===== verification/IterKey.v ===== *)
(** db/dbformat.h and db/dbformat.cc, class [IterKey]: the key buffer of the
    iterators, with its two owned buffers and its pointer to the current key.

    The bytes of a buffer that was allocated and not written are modelled as zeros;
    the inline spaces are the initial contents of the buffers. *)

From S2P Require Import Prelude Coding Comparator DbFormat.

Definition kInlineBufferSize : Z := 39.
Definition kTsMin : bytes := sfill 8 Byte.x00.

(** Where [key_] points: the start of one of the buffers, or external memory. *)
Inductive KeyLocation := InBuf | InSecondaryBuf | Pinned (data : bytes).

Record IterKey := {
  buf_ : bytes;
  secondary_buf_ : bytes;
  key_ : KeyLocation;
  key_size_ : Z;
  is_user_key_ : bool;
}.

Definition buf_size_ (k : IterKey) : Z := slen (buf_ k).
Definition secondary_buf_size_ (k : IterKey) : Z := slen (secondary_buf_ k).

(** The memory [key_] points to. *)
Definition key_memory (k : IterKey) : bytes :=
  match key_ k with
  | InBuf => buf_ k
  | InSecondaryBuf => secondary_buf_ k
  | Pinned data => data
  end.

(** [memcpy(buf + off, data, size of data)]. *)
Definition memcpy (buf : bytes) (off : Z) (data : bytes) : bytes :=
  stake off buf ++ data ++ sdrop (off + slen data) buf.

Definition MakeIterKey : IterKey := {|
  buf_ := sfill kInlineBufferSize Byte.x00; secondary_buf_ := sfill kInlineBufferSize Byte.x00;
  key_ := InBuf; key_size_ := 0; is_user_key_ := true |}.

Definition SetIsUserKey (k : IterKey) (is_user_key : bool) : IterKey := {|
  buf_ := buf_ k; secondary_buf_ := secondary_buf_ k; key_ := key_ k; key_size_ := key_size_ k;
  is_user_key_ := is_user_key |}.
Definition GetKey (k : IterKey) : bytes := stake (key_size_ k) (key_memory k).
Definition GetUserKey (k : IterKey) : bytes :=
  if is_user_key_ k then stake (key_size_ k) (key_memory k)
  else stake (key_size_ k - kNumInternalBytes) (key_memory k).
Definition Size (k : IterKey) : Z := key_size_ k.
Definition Clear (k : IterKey) : IterKey := {|
  buf_ := buf_ k; secondary_buf_ := secondary_buf_ k; key_ := key_ k; key_size_ := 0;
  is_user_key_ := is_user_key_ k |}.
Definition IsKeyPinned (k : IterKey) : bool :=
  match key_ k with Pinned _ => true | _ => false end.

(** [ResetBuffer] and the allocation: a key in the old buffer is dropped, and [key_]
    points to memory that the object no longer owns until the caller sets it. *)
Definition EnlargeBufferIfNeeded (k : IterKey) (key_size : Z) : IterKey :=
  if key_size >? buf_size_ k then {|
    buf_ := sfill key_size Byte.x00; secondary_buf_ := secondary_buf_ k;
    key_ := match key_ k with InBuf => Pinned (buf_ k) | l => l end;
    key_size_ := match key_ k with InBuf => 0 | _ => key_size_ k end;
    is_user_key_ := is_user_key_ k |}
  else k.
Definition EnlargeSecondaryBufferIfNeeded (k : IterKey) (key_size : Z) : IterKey :=
  if key_size <=? secondary_buf_size_ k then k
  else {|
    buf_ := buf_ k; secondary_buf_ := sfill key_size Byte.x00;
    key_ := match key_ k with InSecondaryBuf => Pinned (secondary_buf_ k) | l => l end;
    key_size_ := match key_ k with InSecondaryBuf => 0 | _ => key_size_ k end;
    is_user_key_ := is_user_key_ k |}.
Definition Reserve (k : IterKey) (size : Z) : IterKey :=
  let k := EnlargeBufferIfNeeded k size in {|
    buf_ := buf_ k; secondary_buf_ := secondary_buf_ k; key_ := key_ k; key_size_ := size;
    is_user_key_ := is_user_key_ k |}.

(** The key is now the first [size] bytes of [buf_], whose contents are [buf]. *)
Definition key_in_buf (k : IterKey) (buf : bytes) (size : Z) : IterKey := {|
  buf_ := buf; secondary_buf_ := secondary_buf_ k; key_ := InBuf; key_size_ := size;
  is_user_key_ := is_user_key_ k |}.
Definition key_in_secondary (k : IterKey) (buf : bytes) (size : Z) : IterKey := {|
  buf_ := buf_ k; secondary_buf_ := buf; key_ := InSecondaryBuf; key_size_ := size;
  is_user_key_ := is_user_key_ k |}.

Definition TrimAppend (k : IterKey) (shared_len : Z) (non_shared_data : bytes) : IterKey :=
  let total_size := shared_len + slen non_shared_data in
  let buf :=
    if IsKeyPinned k then
      memcpy (buf_ (EnlargeBufferIfNeeded k total_size)) 0 (stake shared_len (key_memory k))
    else if total_size >? buf_size_ k then
      memcpy (sfill total_size Byte.x00) 0 (stake shared_len (key_memory k))
    else buf_ k in
  key_in_buf k (memcpy buf shared_len non_shared_data) total_size.

Definition SetKeyImpl_slice (k : IterKey) (key : bytes) (copy : bool) : IterKey :=
  let size := slen key in
  if copy then
    let k := EnlargeBufferIfNeeded k size in key_in_buf k (memcpy (buf_ k) 0 key) size
  else {| buf_ := buf_ k; secondary_buf_ := secondary_buf_ k; key_ := Pinned key;
          key_size_ := size; is_user_key_ := is_user_key_ k |}.

(** The loop that copies the slices one after the other. *)
Fixpoint copy_slices (buf : bytes) (buf_start : Z) (key_slices : list bytes) : bytes :=
  match key_slices with
  | [] => buf
  | s :: key_slices => copy_slices (memcpy buf buf_start s) (buf_start + slen s) key_slices
  end.
(** The slices are taken from the previous key, which the other buffer holds. *)
Definition SetKeyImpl_slices (k : IterKey) (key_slices : list bytes) (total_bytes : Z) : IterKey :=
  match key_ k with
  | InBuf =>
      let k := EnlargeSecondaryBufferIfNeeded k total_bytes in
      key_in_secondary k (copy_slices (secondary_buf_ k) 0 key_slices) total_bytes
  | _ =>
      let k := EnlargeBufferIfNeeded k total_bytes in
      key_in_buf k (copy_slices (buf_ k) 0 key_slices) total_bytes
  end.

(** Adds one slice, or, once, the slice cut at [left_sz] with the timestamp there. *)
Definition MaybeAddKeyPartsWithTimestamp (slice : bytes) (add_timestamp : bool) (left_sz ts_sz : Z)
    (acc : list bytes * bool) : list bytes * bool :=
  let '(key_slices, ts_added) := acc in
  if add_timestamp && negb ts_added then
    (key_slices ++ [stake left_sz slice; stake ts_sz kTsMin; sdrop left_sz slice], true)
  else (key_slices ++ [slice], ts_added).

Definition TrimAppendWithTimestamp (k : IterKey) (shared_len : Z) (non_shared_data : bytes)
    (ts_sz : Z) : IterKey :=
  let non_shared_len := slen non_shared_data in
  let mem := key_memory k in
  let key_slices :=
    if is_user_key_ k then [stake shared_len mem; non_shared_data; stake ts_sz kTsMin]
    else
      let user_key_len := u64 (key_size_ k - kNumInternalBytes) in
      let sharable_user_key_len := u64 (user_key_len - ts_sz) in
      let shared_user_key_len := Z.min shared_len sharable_user_key_len in
      let shared_internal_bytes_len := u64 (shared_len - shared_user_key_len) in
      let acc := MaybeAddKeyPartsWithTimestamp (stake shared_user_key_len mem)
        (shared_internal_bytes_len + non_shared_len <? kNumInternalBytes)
        (u64 (shared_len + non_shared_len - kNumInternalBytes)) ts_sz ([], false) in
      let acc := MaybeAddKeyPartsWithTimestamp (stake shared_internal_bytes_len (sdrop user_key_len mem))
        (non_shared_len <? kNumInternalBytes)
        (u64 (shared_internal_bytes_len + non_shared_len - kNumInternalBytes)) ts_sz acc in
      let acc := MaybeAddKeyPartsWithTimestamp non_shared_data
        (non_shared_len >=? kNumInternalBytes)
        (u64 (non_shared_len - kNumInternalBytes)) ts_sz acc in
      acc.1 in
  SetKeyImpl_slices k key_slices (shared_len + non_shared_len + ts_sz).

Definition SetKeyWithPaddedMinTimestamp (k : IterKey) (key : bytes) (ts_sz : Z) : IterKey :=
  let key_slices :=
    if is_user_key_ k then [key; stake ts_sz kTsMin]
    else
      let user_key_size := slen key - kNumInternalBytes in
      [stake user_key_size key; stake ts_sz kTsMin;
       stake kNumInternalBytes (sdrop user_key_size key)] in
  SetKeyImpl_slices k key_slices (slen key + ts_sz).

Definition SetKey (k : IterKey) (key : bytes) (copy : bool) : IterKey := SetKeyImpl_slice k key copy.
Definition SetUserKey (k : IterKey) (key : bytes) (copy : bool) : IterKey :=
  SetKeyImpl_slice (SetIsUserKey k true) key copy.
Definition SetInternalKey (k : IterKey) (key : bytes) (copy : bool) : IterKey :=
  SetKeyImpl_slice (SetIsUserKey k false) key copy.
Definition SetInternalKey_parts (k : IterKey) (key_prefix user_key : bytes) (s value_type : Z)
    (ts : option bytes) : IterKey :=
  let psize := slen key_prefix in
  let usize := slen user_key in
  let ts_sz := slen (default [] ts) in
  let k := EnlargeBufferIfNeeded k (psize + usize + 8 + ts_sz) in
  let buf := if psize >? 0 then memcpy (buf_ k) 0 key_prefix else buf_ k in
  let buf := memcpy buf psize user_key in
  let buf := match ts with Some ts => memcpy buf (psize + usize) ts | None => buf end in
  let buf := memcpy buf (usize + psize + ts_sz) (EncodeFixed64 (PackSequenceAndType s value_type)) in
  SetIsUserKey (key_in_buf k buf (psize + usize + 8 + ts_sz)) false.

Definition SetInternalKey_ikey (k : IterKey) (key : bytes) (ikey : ParsedInternalKey) :
    IterKey * ParsedInternalKey :=
  let key_n := slen key in
  let k := SetInternalKey k key true in
  (k, {| user_key := stake (key_n - kNumInternalBytes) (key_memory k);
         sequence := sequence ikey; type := type ikey |}).
Definition SetInternalKey_user_key (k : IterKey) (user_key : bytes) (s value_type : Z)
    (ts : option bytes) : IterKey :=
  SetInternalKey_parts k [] user_key s value_type ts.
Definition SetInternalKey_prefix_parsed (k : IterKey) (key_prefix : bytes)
    (parsed_key_suffix : ParsedInternalKey) : IterKey :=
  SetInternalKey_parts k key_prefix (user_key parsed_key_suffix) (sequence parsed_key_suffix)
    (type parsed_key_suffix) None.
Definition SetInternalKey_parsed (k : IterKey) (parsed_key : ParsedInternalKey) : IterKey :=
  SetInternalKey_prefix_parsed k [] parsed_key.

(** A timestamp is written to [buf_], wherever the key is. *)
Definition IterKey_UpdateInternalKey (k : IterKey) (seq t : Z) (ts : option bytes) : IterKey :=
  let buf := match ts with
             | Some ts => memcpy (buf_ k) (key_size_ k - kNumInternalBytes - slen ts) ts
             | None => buf_ k
             end in
  let newval := EncodeFixed64 (Z.lor (u64 (Z.shiftl seq 8)) t) in
  match key_ k with
  | InBuf => {| buf_ := memcpy buf (key_size_ k - kNumInternalBytes) newval;
                secondary_buf_ := secondary_buf_ k; key_ := key_ k; key_size_ := key_size_ k;
                is_user_key_ := is_user_key_ k |}
  | _ => {| buf_ := buf;
            secondary_buf_ := memcpy (secondary_buf_ k) (key_size_ k - kNumInternalBytes) newval;
            key_ := key_ k; key_size_ := key_size_ k; is_user_key_ := is_user_key_ k |}
  end.

(** [key_size_] keeps its value. *)
Definition EncodeLengthPrefixedKey (k : IterKey) (key : bytes) : IterKey :=
  let size := slen key in
  let k := EnlargeBufferIfNeeded k (size + VarintLength size) in
  let prefix := EncodeVarint32 (u32 size) in
  SetIsUserKey (key_in_buf k (memcpy (memcpy (buf_ k) 0 prefix) (slen prefix) key) (key_size_ k)) true.

(** * Copying into the buffers *)

(** The key lies in the memory it points to. *)
Definition iter_key_wf (k : IterKey) : Prop := 0 <= key_size_ k <= slen (key_memory k).

Lemma slen_memcpy buf off data : 0 <= off -> off + slen data <= slen buf ->
  slen (memcpy buf off data) = slen buf.
Proof. intros. unfold memcpy. slia. Qed.

Lemma memcpy_prefix buf off data : 0 <= off -> off + slen data <= slen buf ->
  stake (off + slen data) (memcpy buf off data) = stake off buf ++ data.
Proof.
  intros. unfold memcpy. rewrite app_assoc, stake_app_exact; [done |]. slia.
Qed.

Lemma copy_slices_spec sl : forall buf off, 0 <= off -> off + slen (concat sl) <= slen buf ->
  slen (copy_slices buf off sl) = slen buf /\
  stake (off + slen (concat sl)) (copy_slices buf off sl) = stake off buf ++ concat sl.
Proof.
  induction sl as [| s sl IH]; intros buf off Ho Hl; cbn [copy_slices concat] in *.
  - by rewrite slen_nil, Z.add_0_r, app_nil_r.
  - rewrite slen_app in Hl. pose proof (slen_nonneg s). pose proof (slen_nonneg (concat sl)).
    pose proof (slen_memcpy buf off s) as Hm.
    destruct (IH (memcpy buf off s) (off + slen s)) as [E1 E2]; [lia.. |].
    split; [rewrite E1; apply Hm; lia |].
    rewrite slen_app, Z.add_assoc, E2, memcpy_prefix, app_assoc by lia. done.
Qed.

Lemma EnlargeBuffer_size k n : n <= slen (buf_ (EnlargeBufferIfNeeded k n)).
Proof.
  unfold EnlargeBufferIfNeeded, buf_size_. case Z.gtb_spec; intros; simpl; slia.
Qed.

Lemma EnlargeSecondaryBuffer_size k n : n <= slen (secondary_buf_ (EnlargeSecondaryBufferIfNeeded k n)).
Proof.
  unfold EnlargeSecondaryBufferIfNeeded, secondary_buf_size_. case Z.leb_spec; intros; simpl; slia.
Qed.

Lemma Enlarge_is_user k n : is_user_key_ (EnlargeBufferIfNeeded k n) = is_user_key_ k.
Proof. unfold EnlargeBufferIfNeeded. by case (_ >? _). Qed.

Lemma EnlargeSecondary_is_user k n : is_user_key_ (EnlargeSecondaryBufferIfNeeded k n) = is_user_key_ k.
Proof. unfold EnlargeSecondaryBufferIfNeeded. by case (_ <=? _). Qed.

(** [k] holds [key], and says whether it is a user key. *)
Definition holds (k : IterKey) (is_user : bool) (key : bytes) : Prop :=
  iter_key_wf k /\ GetKey k = key /\ is_user_key_ k = is_user.

Lemma SetKeyImpl_slices_holds k b sl total : is_user_key_ k = b -> total = slen (concat sl) ->
  holds (SetKeyImpl_slices k sl total) b (concat sl).
Proof.
  intros <- ->. pose proof (EnlargeBuffer_size k (slen (concat sl))) as H1.
  pose proof (EnlargeSecondaryBuffer_size k (slen (concat sl))) as H2.
  pose proof (slen_nonneg (concat sl)).
  unfold holds, iter_key_wf, GetKey, SetKeyImpl_slices.
  destruct (key_ k); cbn [key_memory key_ key_size_ is_user_key_ buf_ secondary_buf_ key_in_buf key_in_secondary];
    [destruct (copy_slices_spec sl _ 0 (Z.le_refl 0) H2) as [E1 E2]
    | destruct (copy_slices_spec sl _ 0 (Z.le_refl 0) H1) as [E1 E2] ..];
    rewrite Z.add_0_l, (stake_le0 0) in E2 by lia; rewrite E1, E2;
    rewrite ?Enlarge_is_user, ?EnlargeSecondary_is_user; repeat split; done.
Qed.

Lemma SetKeyImpl_slice_holds k key copy :
  holds (SetKeyImpl_slice k key copy) (is_user_key_ k) key.
Proof.
  pose proof (EnlargeBuffer_size k (slen key)) as H1. pose proof (slen_nonneg key).
  unfold SetKeyImpl_slice, holds, iter_key_wf, GetKey.
  destruct copy; cbn [key_memory key_ key_size_ is_user_key_ buf_ key_in_buf].
  - rewrite slen_memcpy, Enlarge_is_user by lia.
    pose proof (memcpy_prefix (buf_ (EnlargeBufferIfNeeded k (slen key))) 0 key) as E.
    rewrite Z.add_0_l, (stake_le0 0) in E by lia. rewrite E by lia. done.
  - rewrite stake_ge by lia. repeat split; done.
Qed.

(** * Padding *)

Lemma kTsMin_stake : stake 8 kTsMin = sfill 8 Byte.x00.
Proof. done. Qed.

(** The three calls put the timestamp eight bytes before the end. *)
Lemma parts_with_timestamp x y z ts_sz : 8 <= slen (x ++ y ++ z) < 2 ^ 64 ->
  concat (MaybeAddKeyPartsWithTimestamp z (slen z >=? 8) (u64 (slen z - 8)) ts_sz
    (MaybeAddKeyPartsWithTimestamp y (slen z <? 8) (u64 (slen y + slen z - 8)) ts_sz
      (MaybeAddKeyPartsWithTimestamp x (slen y + slen z <? 8) (u64 (slen x + slen y + slen z - 8))
        ts_sz ([], false)))).1 =
  stake (slen (x ++ y ++ z) - 8) (x ++ y ++ z) ++ stake ts_sz kTsMin ++
    sdrop (slen (x ++ y ++ z) - 8) (x ++ y ++ z).
Proof.
  intros H. autorewrite with slen in *. slen_facts. unfold MaybeAddKeyPartsWithTimestamp.
  rewrite (Z.geb_leb (slen z)).
  destruct (Z.ltb_spec (slen y + slen z) 8), (Z.ltb_spec (slen z) 8), (Z.leb_spec 8 (slen z)); try lia;
    cbn [andb negb fst app concat]; rewrite wrap_small by (unfold fits; lia);
    rewrite ?app_nil_r, <- ?app_assoc.
  - rewrite stake_app_le, sdrop_app_le by lia. rewrite <- ?app_assoc, ?Z.add_assoc. done.
  - rewrite (stake_app_ge _ x), (sdrop_app_ge _ x), (stake_app_le _ y), (sdrop_app_le _ y) by lia.
    replace (slen x + (slen y + slen z) - 8 - slen x) with (slen y + slen z - 8) by lia.
    by rewrite <- ?app_assoc.
  - rewrite !stake_app_ge, !sdrop_app_ge by lia.
    replace (slen x + (slen y + slen z) - 8 - slen x - slen y) with (slen z - 8) by lia.
    by rewrite <- ?app_assoc.
Qed.

Lemma stake_GetKey k n : iter_key_wf k -> 0 <= n <= key_size_ k ->
  stake n (GetKey k) = stake n (key_memory k).
Proof. intros Hw Hn. unfold GetKey. rewrite stake_stake by lia. f_equal. lia. Qed.

Lemma slen_GetKey k : iter_key_wf k -> slen (GetKey k) = key_size_ k.
Proof. unfold iter_key_wf, GetKey. intros. slia. Qed.

Lemma key_in_buf_holds k buf off data : 0 <= off -> off + slen data <= slen buf ->
  holds (key_in_buf k (memcpy buf off data) (off + slen data)) (is_user_key_ k)
    (stake off buf ++ data).
Proof.
  intros. pose proof (slen_nonneg data). pose proof (slen_memcpy buf off data).
  unfold holds, iter_key_wf, GetKey. cbn [key_memory key_ key_size_ is_user_key_ buf_ key_in_buf].
  rewrite memcpy_prefix by lia. repeat split; lia.
Qed.

Lemma TrimAppend_holds k shared_len data : iter_key_wf k -> 0 <= shared_len <= key_size_ k ->
  key_ k <> InSecondaryBuf \/ buf_size_ k < shared_len + slen data ->
  holds (TrimAppend k shared_len data) (is_user_key_ k) (stake shared_len (GetKey k) ++ data).
Proof.
  intros Hk Hs Hloc. pose proof (slen_nonneg data) as Hd. rewrite stake_GetKey by done.
  unfold iter_key_wf in Hk. unfold TrimAppend, IsKeyPinned, buf_size_ in *.
  pose proof (EnlargeBuffer_size k (shared_len + slen data)) as He.
  assert (Hp : slen (stake shared_len (key_memory k)) = shared_len) by (rewrite slen_stake; lia).
  assert (Hc : forall b, shared_len + slen data <= slen b ->
    holds (key_in_buf k (memcpy (memcpy b 0 (stake shared_len (key_memory k))) shared_len data)
             (shared_len + slen data)) (is_user_key_ k) (stake shared_len (key_memory k) ++ data)).
  { intros b Hb. pose proof (memcpy_prefix b 0 (stake shared_len (key_memory k))) as E.
    rewrite Hp, Z.add_0_l, (stake_le0 0) in E by lia. rewrite app_nil_l in E. rewrite <- E at 2 by lia.
    apply key_in_buf_holds; [| rewrite slen_memcpy]; lia. }
  assert (Hz : shared_len + slen data <= slen (sfill (shared_len + slen data) Byte.x00))
    by (rewrite slen_sfill; lia).
  destruct (key_ k) eqn:Ek; rewrite ?Z.gtb_ltb.
  - case Z.ltb_spec; intros Hlt; [exact (Hc _ Hz) |].
    replace (key_memory k) with (buf_ k) by (unfold key_memory; by rewrite Ek).
    apply key_in_buf_holds; lia.
  - destruct Hloc as [? | Hlt]; [done |]. apply Z.ltb_lt in Hlt. rewrite Hlt. exact (Hc _ Hz).
  - exact (Hc _ He).
Qed.

(** [TrimAppend] keeps the first [shared_len] bytes of the key and appends the rest
    when the key is in [buf_] or in external memory, whatever the sizes of the buffers.
    For a key in the secondary buffer that fits in [buf_], the kept bytes are those of
    [buf_], which are not the key's. *)
Theorem TrimAppend_spec (k : IterKey) (shared_len : Z) (data : bytes)
    (Hk : iter_key_wf k) (Hs : 0 <= shared_len <= key_size_ k) :
  (key_ k <> InSecondaryBuf \/ buf_size_ k < shared_len + slen data ->
   holds (TrimAppend k shared_len data) (is_user_key_ k) (stake shared_len (GetKey k) ++ data)) /\
  (key_ k = InSecondaryBuf -> shared_len + slen data <= buf_size_ k ->
   holds (TrimAppend k shared_len data) (is_user_key_ k) (stake shared_len (buf_ k) ++ data)).
Proof.
  split; [by apply TrimAppend_holds |]. intros Ek Hlt.
  unfold TrimAppend, IsKeyPinned, buf_size_ in *. rewrite Ek, Z.gtb_ltb.
  case Z.ltb_spec; intros; [lia |]. apply key_in_buf_holds; lia.
Qed.

Definition ex_iter_key : IterKey :=
  SetKeyWithPaddedMinTimestamp (SetInternalKey MakeIterKey [Byte.x01] true)
    (sfill 12 Byte.x61) 8.

Lemma TrimAppend_spec_witness :
  (key_ ex_iter_key <> InSecondaryBuf \/ buf_size_ ex_iter_key < 4 + slen [Byte.x62] ->
   holds (TrimAppend ex_iter_key 4 [Byte.x62]) (is_user_key_ ex_iter_key)
     (stake 4 (GetKey ex_iter_key) ++ [Byte.x62])) /\
  (key_ ex_iter_key = InSecondaryBuf -> 4 + slen [Byte.x62] <= buf_size_ ex_iter_key ->
   holds (TrimAppend ex_iter_key 4 [Byte.x62]) (is_user_key_ ex_iter_key)
     (stake 4 (buf_ ex_iter_key) ++ [Byte.x62])).
Proof. apply TrimAppend_spec; vm_compute; split; discriminate. Defined.

(** The first bytes of a key without its timestamp are bytes of the user key, then of
    the footer. *)
Lemma stripped_prefix k n : iter_key_wf k -> 16 <= key_size_ k -> 0 <= n ->
  stake n (StripTimestampFromInternalKey [] (GetKey k) 8) =
  stake (Z.min n (key_size_ k - 16)) (key_memory k) ++
  stake (Z.min 8 (n - Z.min n (key_size_ k - 16))) (sdrop (key_size_ k - 8) (key_memory k)).
Proof.
  intros Hw H16 Hn. unfold StripTimestampFromInternalKey, kNumInternalBytes.
  rewrite slen_GetKey, app_nil_l, stake_GetKey by (done || lia).
  unfold iter_key_wf in Hw. unfold GetKey. rewrite sdrop_stake, stake_stake by lia.
  replace (key_size_ k - 8 - 8) with (key_size_ k - 16) by lia.
  replace (Z.min 8 (key_size_ k - (key_size_ k - 8))) with 8 by lia.
  assert (Hl : slen (stake (key_size_ k - 16) (key_memory k)) = key_size_ k - 16) by slia.
  destruct (Z.le_gt_cases n (key_size_ k - 16)).
  - rewrite stake_app_le, stake_stake, Z.min_l by lia. by rewrite Z.sub_diag, app_nil_r.
  - rewrite stake_app_ge, stake_stake, Hl, (Z.min_r n) by lia. do 2 f_equal. lia.
Qed.

Lemma TrimAppendWithTimestamp_user k shared_len data : iter_key_wf k -> is_user_key_ k = true ->
  0 <= shared_len -> shared_len + 8 <= key_size_ k ->
  holds (TrimAppendWithTimestamp k shared_len data 8) true
    (stake shared_len (stake (key_size_ k - 8) (GetKey k)) ++ data ++ sfill 8 Byte.x00).
Proof.
  intros Hk Hu Hs Hl. unfold TrimAppendWithTimestamp.
  rewrite kTsMin_stake, Hu, stake_stake, Z.min_l, stake_GetKey by (done || lia).
  pose proof (SetKeyImpl_slices_holds k true [stake shared_len (key_memory k); data; sfill 8 Byte.x00]
    (shared_len + slen data + 8)) as H. unfold iter_key_wf in Hk.
  cbn [concat] in H. rewrite app_nil_r in H. apply H; [done | slia].
Qed.

Lemma TrimAppendWithTimestamp_internal k shared_len data : iter_key_wf k -> is_user_key_ k = false ->
  0 <= shared_len -> key_size_ k + slen data < 2 ^ 63 -> 16 <= key_size_ k ->
  shared_len + 8 <= key_size_ k -> 8 <= shared_len + slen data ->
  holds (TrimAppendWithTimestamp k shared_len data 8) false
    (PadInternalKeyWithMinTimestamp []
       (stake shared_len (StripTimestampFromInternalKey [] (GetKey k) 8) ++ data) 8).
Proof.
  intros Hk Hu Hs Hfit H16 Hl H8. pose proof (slen_nonneg data) as Hd. assert (Hw := Hk).
  unfold iter_key_wf in Hk. unfold TrimAppendWithTimestamp.
  rewrite kTsMin_stake, Hu, stripped_prefix by (done || lia).
  unfold kNumInternalBytes. cbv zeta.
  rewrite (wrap_small 64 (key_size_ k - 8)), (wrap_small 64 (key_size_ k - 8 - 8)) by (unfold fits; lia).
  replace (key_size_ k - 8 - 8) with (key_size_ k - 16) by lia.
  set (m := Z.min shared_len (key_size_ k - 16)).
  rewrite (wrap_small 64 (shared_len - m)), (Z.min_r 8) by (unfold fits; lia).
  set (x := stake m (key_memory k)). set (y := stake (shared_len - m) _).
  assert (Hx : slen x = m) by (unfold x, m; slia).
  assert (Hy : slen y = shared_len - m) by (unfold y, m; slia).
  rewrite <- Hy. replace (shared_len + slen data - 8) with (slen x + slen y + slen data - 8) by lia.
  unfold PadInternalKeyWithMinTimestamp, kNumInternalBytes. cbv zeta.
  rewrite app_nil_l, (stake_ge 8), <- kTsMin_stake, <- !app_assoc by slia.
  rewrite <- parts_with_timestamp by slia. apply SetKeyImpl_slices_holds; [done |].
  rewrite parts_with_timestamp by slia. rewrite kTsMin_stake. slia.
Qed.

(** the delta decoding of keys whose timestamps were not stored: the new key is the
    kept bytes of the previous key without its timestamp, then the new bytes, with the
    minimum timestamp put at the end of the user key, wherever the user key of the new
    key ends: in the kept bytes of the old user key, of the old footer, or in the new bytes. *)
Theorem TrimAppendWithTimestamp_spec (k : IterKey) (shared_len : Z) (data : bytes)
    (Hk : iter_key_wf k) (Hs : 0 <= shared_len) (Hfit : key_size_ k + slen data < 2 ^ 63) :
  (is_user_key_ k = true -> shared_len + 8 <= key_size_ k ->
   holds (TrimAppendWithTimestamp k shared_len data 8) true
     (stake shared_len (stake (key_size_ k - 8) (GetKey k)) ++ data ++ sfill 8 Byte.x00)) /\
  (is_user_key_ k = false -> 16 <= key_size_ k -> shared_len + 8 <= key_size_ k ->
   8 <= shared_len + slen data ->
   holds (TrimAppendWithTimestamp k shared_len data 8) false
     (PadInternalKeyWithMinTimestamp []
        (stake shared_len (StripTimestampFromInternalKey [] (GetKey k) 8) ++ data) 8)).
Proof.
  split; intros; [by apply TrimAppendWithTimestamp_user | by apply TrimAppendWithTimestamp_internal].
Qed.

Lemma TrimAppendWithTimestamp_spec_witness :
  (is_user_key_ ex_iter_key = true -> 10 + 8 <= key_size_ ex_iter_key ->
   holds (TrimAppendWithTimestamp ex_iter_key 10 [Byte.x62] 8) true
     (stake 10 (stake (key_size_ ex_iter_key - 8) (GetKey ex_iter_key)) ++ [Byte.x62] ++
      sfill 8 Byte.x00)) /\
  (is_user_key_ ex_iter_key = false -> 16 <= key_size_ ex_iter_key ->
   10 + 8 <= key_size_ ex_iter_key -> 8 <= 10 + slen [Byte.x62] ->
   holds (TrimAppendWithTimestamp ex_iter_key 10 [Byte.x62] 8) false
     (PadInternalKeyWithMinTimestamp []
        (stake 10 (StripTimestampFromInternalKey [] (GetKey ex_iter_key) 8) ++ [Byte.x62]) 8)).
Proof.
  apply TrimAppendWithTimestamp_spec; [vm_compute; split; discriminate | lia | reflexivity].
Defined.

(** * Setting and updating *)

(** The memory of the key that is not the secondary buffer. *)
Lemma key_memory_InBuf k : key_ k = InBuf -> key_memory k = buf_ k.
Proof. unfold key_memory. by intros ->. Qed.

Lemma SetKeyWithPadded_user k key : is_user_key_ k = true ->
  holds (SetKeyWithPaddedMinTimestamp k key 8) true (key ++ sfill 8 Byte.x00).
Proof.
  intros Hu. unfold SetKeyWithPaddedMinTimestamp. rewrite Hu, kTsMin_stake.
  rewrite <- (app_nil_r (sfill 8 Byte.x00)) at 2.
  apply (SetKeyImpl_slices_holds k true [key; sfill 8 Byte.x00]); [done |]. cbn [concat]. slia.
Qed.

Lemma SetKeyWithPadded_internal k key : is_user_key_ k = false -> 8 <= slen key ->
  holds (SetKeyWithPaddedMinTimestamp k key 8) false (PadInternalKeyWithMinTimestamp [] key 8).
Proof.
  intros Hu H8. unfold SetKeyWithPaddedMinTimestamp, PadInternalKeyWithMinTimestamp.
  rewrite Hu, kTsMin_stake, app_nil_l. unfold kNumInternalBytes.
  rewrite <- (app_nil_r (stake 8 _)) at 2.
  apply (SetKeyImpl_slices_holds k false [_; _; _]); [done |]. cbn [concat]. slia.
Qed.

(** Successive copies at adjacent offsets. *)
Lemma memcpy_memcpy buf off x y : 0 <= off -> off + slen x + slen y <= slen buf ->
  memcpy (memcpy buf off x) (off + slen x) y = memcpy buf off (x ++ y).
Proof.
  intros Ho Hl. pose proof (slen_nonneg x). pose proof (slen_nonneg y).
  assert (E := memcpy_prefix buf off x Ho ltac:(lia)).
  unfold memcpy at 1. rewrite E. unfold memcpy. rewrite <- !app_assoc. do 3 f_equal.
  rewrite !sdrop_app_ge by slia. rewrite sdrop_sdrop by slia. f_equal. slia.
Qed.

Lemma memcpy_nil buf off : memcpy buf off [] = buf.
Proof. unfold memcpy. rewrite slen_nil, Z.add_0_r. apply stake_sdrop. Qed.

Lemma SetInternalKey_parts_holds k prefix user_key s t ts :
  holds (SetInternalKey_parts k prefix user_key s t ts) false
    (prefix ++ user_key ++ default [] ts ++ EncodeFixed64 (PackSequenceAndType s t)).
Proof.
  unfold SetInternalKey_parts. cbv zeta.
  set (f := EncodeFixed64 _). assert (Hf : slen f = 8) by apply slen_EncodeFixed64.
  set (n := slen prefix + slen user_key + 8 + slen (default [] ts)).
  pose proof (EnlargeBuffer_size k n) as He. slen_facts.
  set (b := buf_ (EnlargeBufferIfNeeded k n)) in *.
  assert (E1 : (if slen prefix >? 0 then memcpy b 0 prefix else b) = memcpy b 0 prefix).
  { rewrite Z.gtb_ltb. case Z.ltb_spec; intros; [done |].
    rewrite (slen_zero prefix) by lia. by rewrite memcpy_nil. }
  assert (E2 : forall b' off, match ts with Some ts => memcpy b' off ts | None => b' end =
    memcpy b' off (default [] ts)).
  { intros b' off. destruct ts; [done |]. by rewrite memcpy_nil. }
  assert (E : memcpy (memcpy (memcpy (memcpy b 0 prefix) (slen prefix) user_key)
      (slen prefix + slen user_key) (default [] ts)) (slen user_key + slen prefix + slen (default [] ts)) f =
    memcpy b 0 (prefix ++ user_key ++ default [] ts ++ f)).
  { rewrite !app_assoc, <- !memcpy_memcpy by (unfold n in *; slia).
    rewrite !slen_app, !Z.add_0_l. do 2 f_equal. lia. }
  rewrite E1, E2, E. subst n.
  pose proof (key_in_buf_holds (EnlargeBufferIfNeeded k (slen prefix + slen user_key + 8 + slen (default [] ts)))
    b 0 (prefix ++ user_key ++ default [] ts ++ f)) as HH.
  rewrite (stake_le0 0), app_nil_l, !slen_app, Hf in HH by lia.
  replace (0 + _) with (slen prefix + slen user_key + 8 + slen (default [] ts)) in HH by lia.
  destruct (HH ltac:(lia) He) as (? & ? & ?). done.
Qed.

Lemma UpdateInternalKey_buf k seq t ts : iter_key_wf k -> slen (default [] ts) + 8 <= key_size_ k ->
  key_ k = InBuf -> holds (IterKey_UpdateInternalKey k seq t ts) (is_user_key_ k)
    (stake (key_size_ k - 8 - slen (default [] ts)) (GetKey k) ++ default [] ts ++
     EncodeFixed64 (Z.lor (u64 (Z.shiftl seq 8)) t)).
Proof.
  intros Hw Hl HK. rewrite stake_GetKey by (done || slia).
  unfold iter_key_wf in Hw. unfold IterKey_UpdateInternalKey, kNumInternalBytes. cbv zeta.
  rewrite HK. rewrite key_memory_InBuf in * by done.
  set (f := EncodeFixed64 _). assert (Hf : slen f = 8) by apply slen_EncodeFixed64.
  set (o := key_size_ k - 8 - slen (default [] ts)). slen_facts.
  assert (E : match ts with Some ts => memcpy (buf_ k) (key_size_ k - 8 - slen ts) ts | None => buf_ k end =
    memcpy (buf_ k) o (default [] ts)).
  { destruct ts; [done |]. by rewrite memcpy_nil. }
  rewrite E. replace (key_size_ k - 8) with (o + slen (default [] ts)) by lia.
  rewrite memcpy_memcpy by lia.
  pose proof (key_in_buf_holds k (buf_ k) o (default [] ts ++ f)) as HH. rewrite slen_app in HH.
  replace (o + _) with (key_size_ k) in HH by lia. exact (HH ltac:(lia) ltac:(lia)).
Qed.

Lemma UpdateInternalKey_secondary k seq t ts : iter_key_wf k -> slen (default [] ts) + 8 <= key_size_ k ->
  key_ k = InSecondaryBuf -> holds (IterKey_UpdateInternalKey k seq t ts) (is_user_key_ k)
    (stake (key_size_ k - 8) (GetKey k) ++ EncodeFixed64 (Z.lor (u64 (Z.shiftl seq 8)) t)).
Proof.
  intros Hw Hl HK. rewrite stake_GetKey by (done || slia).
  unfold iter_key_wf in Hw. unfold holds, iter_key_wf, GetKey, IterKey_UpdateInternalKey, kNumInternalBytes.
  unfold key_memory in *. rewrite HK in *. cbn [key_ key_size_ secondary_buf_ is_user_key_].
  set (f := EncodeFixed64 _). assert (Hf : slen f = 8) by apply slen_EncodeFixed64. slen_facts.
  rewrite slen_memcpy by lia.
  pose proof (memcpy_prefix (secondary_buf_ k) (key_size_ k - 8) f) as E. rewrite Hf in E.
  replace (key_size_ k - 8 + 8) with (key_size_ k) in E by lia. rewrite E by lia. done.
Qed.

(** the setters: each leaves the key it is given, padded, prefixed or packed as its
    name says, in a buffer large enough for it; and [UpdateInternalKey] replaces the footer,
    and the timestamp when one is given and the key is in [buf_]. A timestamp given for a
    key in the secondary buffer is not written to the key. *)
Theorem iter_key_setters (k : IterKey) :
  (forall key copy, holds (SetKey k key copy) (is_user_key_ k) key /\
     holds (SetUserKey k key copy) true key /\ holds (SetInternalKey k key copy) false key) /\
  (forall key, is_user_key_ k = true ->
     holds (SetKeyWithPaddedMinTimestamp k key 8) true (key ++ sfill 8 Byte.x00)) /\
  (forall key, is_user_key_ k = false -> 8 <= slen key ->
     holds (SetKeyWithPaddedMinTimestamp k key 8) false (PadInternalKeyWithMinTimestamp [] key 8)) /\
  (forall prefix user_key s t ts,
     holds (SetInternalKey_parts k prefix user_key s t ts) false
       (prefix ++ user_key ++ default [] ts ++ EncodeFixed64 (PackSequenceAndType s t))) /\
  (forall seq t ts, iter_key_wf k -> slen (default [] ts) + 8 <= key_size_ k ->
     let footer := EncodeFixed64 (Z.lor (u64 (Z.shiftl seq 8)) t) in
     (key_ k = InBuf -> holds (IterKey_UpdateInternalKey k seq t ts) (is_user_key_ k)
        (stake (key_size_ k - 8 - slen (default [] ts)) (GetKey k) ++ default [] ts ++ footer)) /\
     (key_ k = InSecondaryBuf -> holds (IterKey_UpdateInternalKey k seq t ts) (is_user_key_ k)
        (stake (key_size_ k - 8) (GetKey k) ++ footer))).
Proof.
  split_and!.
  - intros key copy. split_and!; apply SetKeyImpl_slice_holds.
  - apply SetKeyWithPadded_user.
  - apply SetKeyWithPadded_internal.
  - intros prefix user_key s t ts. apply SetInternalKey_parts_holds.
  - intros seq t ts Hw Hl. split; intros HK;
      [by apply UpdateInternalKey_buf | by apply UpdateInternalKey_secondary].
Qed.
