(* ===== verification/Status.v ===== *)
(** include/rocksdb/status.h: the status of an operation, its code and its
    subcode. The message is not part of the model, no code of the tree decides
    on it. *)

From S2P Require Import Prelude.

Inductive Code :=
  | kOk | kNotFound | kCorruption | kNotSupported | kInvalidArgument | kIOError
  | kMergeInProgress | kIncomplete | kShutdownInProgress | kTimedOut | kAborted | kBusy
  | kExpired | kTryAgain | kCompactionTooLarge | kColumnFamilyDropped.
#[global] Instance Code_eq_dec : EqDecision Code.
Proof. solve_decision. Defined.

Inductive SubCode :=
  | kNone | kMutexTimeout | kLockTimeout | kLockLimit | kNoSpace | kDeadlock | kStaleFile
  | kMemoryLimit | kSpaceLimit | kPathNotFound | KMergeOperandsInsufficientCapacity
  | kManualCompactionPaused | kOverwritten | kTxnNotPrepared | kIOFenced
  | kMergeOperatorFailed | kMergeOperandThresholdExceeded.
#[global] Instance SubCode_eq_dec : EqDecision SubCode.
Proof. solve_decision. Defined.

Record Status := MakeStatus { code_ : Code; subcode_ : SubCode }.
#[global] Instance Status_eq_dec : EqDecision Status.
Proof. solve_decision. Defined.

Definition Status_OK : Status := MakeStatus kOk kNone.
Definition Status_NotFound : Status := MakeStatus kNotFound kNone.
Definition Status_Corruption : Status := MakeStatus kCorruption kNone.
Definition Status_NotSupported : Status := MakeStatus kNotSupported kNone.
Definition Status_ColumnFamilyDropped : Status := MakeStatus kColumnFamilyDropped kNone.
Definition Status_InvalidArgument : Status := MakeStatus kInvalidArgument kNone.
Definition Status_IOError : Status := MakeStatus kIOError kNone.
Definition Status_MergeInProgress : Status := MakeStatus kMergeInProgress kNone.
Definition Status_TryAgain : Status := MakeStatus kTryAgain kNone.
Definition Status_MemoryLimit : Status := MakeStatus kAborted kMemoryLimit.

Definition status_ok (s : Status) : bool := bool_decide (code_ s = kOk).
Definition IsNotFound (s : Status) : bool := bool_decide (code_ s = kNotFound).
Definition IsNotSupported (s : Status) : bool := bool_decide (code_ s = kNotSupported).
Definition IsIOError (s : Status) : bool := bool_decide (code_ s = kIOError).
Definition IsMergeInProgress (s : Status) : bool := bool_decide (code_ s = kMergeInProgress).
Definition IsTryAgain (s : Status) : bool := bool_decide (code_ s = kTryAgain).

Lemma status_ok_code s : status_ok s = true <-> code_ s = kOk.
Proof. apply bool_decide_eq_true. Qed.

(** A status is a success, a request to try again, or another error. *)
Lemma status_cases s :
  (status_ok s = true /\ IsTryAgain s = false) \/ (status_ok s = false /\ IsTryAgain s = true) \/
  (status_ok s = false /\ IsTryAgain s = false).
Proof. unfold status_ok, IsTryAgain. destruct s as [[] sub]; vm_compute; auto. Qed.
