(* ===== verification/VersionEdit.v ===== *)
(** db/version_edit.{h,cc}, with db/wal_edit.{h,cc}, db/blob/blob_file_addition.cc,
    db/blob/blob_file_garbage.cc and the unique ids of table/unique_id.cc: the edits that the
    MANIFEST holds.

    A field with its [has_] flag is an option. An encoder returns the bytes that it appends. A
    decoder works on an edit and on the rest of the input; when it fails the edit keeps what was
    decoded before. Statistics of files that are not written, and the text of errors, are not
    part of the model. *)

From stdpp Require Import gmap.
From S2P Require Import Prelude Coding DbFormat Status.

Open Scope record_scope.

(** * Tags *)

Module Tag.
Definition kComparator : Z := 1.
Definition kLogNumber : Z := 2.
Definition kNextFileNumber : Z := 3.
Definition kLastSequence : Z := 4.
Definition kCompactCursor : Z := 5.
Definition kDeletedFile : Z := 6.
Definition kNewFile : Z := 7.
Definition kPrevLogNumber : Z := 9.
Definition kMinLogNumberToKeep : Z := 10.
Definition kNewFile2 : Z := 100.
Definition kNewFile3 : Z := 102.
Definition kNewFile4 : Z := 103.
Definition kColumnFamily : Z := 200.
Definition kColumnFamilyAdd : Z := 201.
Definition kColumnFamilyDrop : Z := 202.
Definition kMaxColumnFamily : Z := 203.
Definition kInAtomicGroup : Z := 300.
Definition kBlobFileAddition : Z := 400.
Definition kBlobFileGarbage : Z := 401.
Definition kTagSafeIgnoreMask : Z := 8192.
Definition kDbId : Z := 8193.
Definition kBlobFileAddition_DEPRECATED : Z := 8194.
Definition kBlobFileGarbage_DEPRECATED : Z := 8195.
Definition kWalAddition : Z := 8196.
Definition kWalDeletion : Z := 8197.
Definition kFullHistoryTsLow : Z := 8198.
Definition kWalAddition2 : Z := 8199.
Definition kWalDeletion2 : Z := 8200.
Definition kPersistUserDefinedTimestamps : Z := 8201.
End Tag.

Module NewFileCustomTag.
Definition kTerminate : Z := 1.
Definition kNeedCompaction : Z := 2.
Definition kMinLogNumberToKeepHack : Z := 3.
Definition kOldestBlobFileNumber : Z := 4.
Definition kOldestAncesterTime : Z := 5.
Definition kFileCreationTime : Z := 6.
Definition kFileChecksum : Z := 7.
Definition kFileChecksumFuncName : Z := 8.
Definition kTemperature : Z := 9.
Definition kUniqueId : Z := 12.
Definition kEpochNumber : Z := 13.
Definition kCompensatedRangeDeletionSize : Z := 14.
Definition kTailSize : Z := 15.
Definition kUserDefinedTimestampsPersisted : Z := 16.
Definition kCustomTagNonSafeIgnoreMask : Z := 64.
Definition kPathId : Z := 65.
End NewFileCustomTag.

(** * Files *)

Definition kFileNumberMask : Z := 0x3FFFFFFFFFFFFFFF.
Definition PackFileNumberAndPathId (number path_id : Z) : Z :=
  Z.lor number (u64 (path_id * (kFileNumberMask + 1))).

Record FileDescriptor := {
  packed_number_and_path_id : Z;
  file_size : Z;
  smallest_seqno : Z;
  largest_seqno : Z;
}.
Definition MakeFileDescriptor (number path_id size smallest largest : Z) : FileDescriptor :=
  {| packed_number_and_path_id := PackFileNumberAndPathId number path_id; file_size := size;
     smallest_seqno := smallest; largest_seqno := largest |}.
Definition GetNumber (fd : FileDescriptor) : Z := Z.land (packed_number_and_path_id fd) kFileNumberMask.
Definition GetPathId (fd : FileDescriptor) : Z := u32 (packed_number_and_path_id fd / (kFileNumberMask + 1)).

Definition kUnknownTemperature : Z := 0.
Definition kCold : Z := 0xC.
Definition kUnknownFileChecksumFuncName : bytes := [Byte.x55; Byte.x6e; Byte.x6b; Byte.x6e; Byte.x6f; Byte.x77; Byte.x6e].

Record FileMetaData := {
  fd : FileDescriptor;
  smallest : bytes;
  largest : bytes;
  compensated_range_deletion_size : Z;
  marked_for_compaction : bool;
  temperature : Z;
  oldest_blob_file_number : Z;
  oldest_ancester_time : Z;
  file_creation_time : Z;
  epoch_number : Z;
  file_checksum : bytes;
  file_checksum_func_name : bytes;
  unique_id : Z * Z;
  tail_size : Z;
  user_defined_timestamps_persisted : bool;
}.
#[global] Instance FileMetaData_rebuild : Rebuild FileMetaData := fun f =>
  {| fd := fd f; smallest := smallest f; largest := largest f;
     compensated_range_deletion_size := compensated_range_deletion_size f;
     marked_for_compaction := marked_for_compaction f; temperature := temperature f;
     oldest_blob_file_number := oldest_blob_file_number f; oldest_ancester_time := oldest_ancester_time f;
     file_creation_time := file_creation_time f; epoch_number := epoch_number f; file_checksum := file_checksum f;
     file_checksum_func_name := file_checksum_func_name f; unique_id := unique_id f; tail_size := tail_size f;
     user_defined_timestamps_persisted := user_defined_timestamps_persisted f |}.
Definition NewFileMetaData : FileMetaData :=
  {| fd := MakeFileDescriptor 0 0 0 kMaxSequenceNumber 0; smallest := []; largest := [];
     compensated_range_deletion_size := 0; marked_for_compaction := false; temperature := kUnknownTemperature;
     oldest_blob_file_number := 0; oldest_ancester_time := 0; file_creation_time := 0; epoch_number := 0;
     file_checksum := []; file_checksum_func_name := kUnknownFileChecksumFuncName; unique_id := (0, 0); tail_size := 0;
     user_defined_timestamps_persisted := true |}.

Record BlobFileAddition := {
  blob_file_number_ : Z;
  total_blob_count_ : Z;
  total_blob_bytes_ : Z;
  checksum_method_ : bytes;
  checksum_value_ : bytes;
}.
Record BlobFileGarbage := { garbage_file_number_ : Z; garbage_blob_count_ : Z; garbage_blob_bytes_ : Z }.

(** The synced size is [kUnknownWalSize] when it is not known. *)
Definition kUnknownWalSize : Z := 2 ^ 64 - 1.
Record WalAddition := { number_ : Z; synced_size_bytes_ : Z }.
Definition HasSyncedSize (size : Z) : bool := negb (size =? kUnknownWalSize).

(** * The edit *)

Record VersionEdit := {
  max_level_ : Z;
  db_id_ : option bytes;
  comparator_ : option bytes;
  log_number_ : option Z;
  prev_log_number_ : option Z;
  next_file_number_ : option Z;
  max_column_family_ : option Z;
  min_log_number_to_keep_ : option Z;
  last_sequence_ : option Z;
  compact_cursors_ : list (Z * bytes);
  deleted_files_ : list (Z * Z);
  new_files_ : list (Z * FileMetaData);
  blob_file_additions_ : list BlobFileAddition;
  blob_file_garbages_ : list BlobFileGarbage;
  wal_additions_ : list WalAddition;
  wal_deletion_ : Z;
  column_family_ : Z;
  is_column_family_add_ : bool;
  is_column_family_drop_ : bool;
  column_family_name_ : bytes;
  is_in_atomic_group_ : bool;
  remaining_entries_ : Z;
  full_history_ts_low_ : bytes;
  persist_user_defined_timestamps_ : option bool;
  files_to_quarantine_ : list Z;
}.
#[global] Instance VersionEdit_rebuild : Rebuild VersionEdit := fun e =>
  {| max_level_ := max_level_ e; db_id_ := db_id_ e; comparator_ := comparator_ e; log_number_ := log_number_ e;
     prev_log_number_ := prev_log_number_ e; next_file_number_ := next_file_number_ e;
     max_column_family_ := max_column_family_ e; min_log_number_to_keep_ := min_log_number_to_keep_ e;
     last_sequence_ := last_sequence_ e; compact_cursors_ := compact_cursors_ e; deleted_files_ := deleted_files_ e;
     new_files_ := new_files_ e; blob_file_additions_ := blob_file_additions_ e;
     blob_file_garbages_ := blob_file_garbages_ e; wal_additions_ := wal_additions_ e; wal_deletion_ := wal_deletion_ e;
     column_family_ := column_family_ e; is_column_family_add_ := is_column_family_add_ e;
     is_column_family_drop_ := is_column_family_drop_ e; column_family_name_ := column_family_name_ e;
     is_in_atomic_group_ := is_in_atomic_group_ e; remaining_entries_ := remaining_entries_ e;
     full_history_ts_low_ := full_history_ts_low_ e;
     persist_user_defined_timestamps_ := persist_user_defined_timestamps_ e;
     files_to_quarantine_ := files_to_quarantine_ e |}.
Definition NewVersionEdit : VersionEdit :=
  {| max_level_ := 0; db_id_ := None; comparator_ := None; log_number_ := None; prev_log_number_ := None;
     next_file_number_ := None; max_column_family_ := None; min_log_number_to_keep_ := None; last_sequence_ := None;
     compact_cursors_ := []; deleted_files_ := []; new_files_ := []; blob_file_additions_ := [];
     blob_file_garbages_ := []; wal_additions_ := []; wal_deletion_ := 0; column_family_ := 0;
     is_column_family_add_ := false; is_column_family_drop_ := false; column_family_name_ := [];
     is_in_atomic_group_ := false; remaining_entries_ := 0; full_history_ts_low_ := [];
     persist_user_defined_timestamps_ := None; files_to_quarantine_ := [] |}.

(** [Clear] leaves two fields as they are. *)
Definition VersionEdit_Clear (e : VersionEdit) : VersionEdit :=
  NewVersionEdit <| persist_user_defined_timestamps_ := persist_user_defined_timestamps_ e |>
    <| files_to_quarantine_ := files_to_quarantine_ e |>.

(** [std::set<std::pair<int, uint64_t>>]. *)
Definition file_before (a b : Z * Z) : bool := (a.1 <? b.1) || ((a.1 =? b.1) && (a.2 <? b.2)).
Fixpoint deleted_files_emplace (x : Z * Z) (s : list (Z * Z)) : list (Z * Z) :=
  match s with
  | [] => [x]
  | y :: s' => if file_before x y then x :: s else if file_before y x then y :: deleted_files_emplace x s' else s
  end.
Definition DeleteFile (level file : Z) (e : VersionEdit) : VersionEdit :=
  e <| deleted_files_ := deleted_files_emplace (level, file) (deleted_files_ e) |>.
Definition AddFile (level : Z) (f : FileMetaData) (e : VersionEdit) : VersionEdit :=
  let e := e <| new_files_ := new_files_ e ++ [(level, f)] |>
             <| files_to_quarantine_ := files_to_quarantine_ e ++ [GetNumber (fd f)] |> in
  if match last_sequence_ e with Some n => largest_seqno (fd f) >? n | None => true end
  then e <| last_sequence_ := Some (largest_seqno (fd f)) |> else e.
Definition AddBlobFile (b : BlobFileAddition) (e : VersionEdit) : VersionEdit :=
  e <| blob_file_additions_ := blob_file_additions_ e ++ [b] |>
    <| files_to_quarantine_ := files_to_quarantine_ e ++ [blob_file_number_ b] |>.
Definition AddBlobFileGarbage (b : BlobFileGarbage) (e : VersionEdit) : VersionEdit :=
  e <| blob_file_garbages_ := blob_file_garbages_ e ++ [b] |>.
Definition AddWal (w : WalAddition) (e : VersionEdit) : VersionEdit :=
  e <| wal_additions_ := wal_additions_ e ++ [w] |>.

(** * Encoding *)

(** A field that is absent when it is not set. *)
Definition when_set {A} (encode : A -> bytes) (x : option A) : bytes := match x with Some x => encode x | None => [] end.
Definition when (b : bool) (s : bytes) : bytes := if b then s else [].
Definition length_prefixed (s : bytes) : bytes := PutLengthPrefixedSlice [] s.

Definition BlobFileAddition_EncodeTo (b : BlobFileAddition) : bytes :=
  EncodeVarint64 (blob_file_number_ b) ++ EncodeVarint64 (total_blob_count_ b) ++ EncodeVarint64 (total_blob_bytes_ b) ++
  length_prefixed (checksum_method_ b) ++ length_prefixed (checksum_value_ b) ++ EncodeVarint32 0.
Definition BlobFileGarbage_EncodeTo (b : BlobFileGarbage) : bytes :=
  EncodeVarint64 (garbage_file_number_ b) ++ EncodeVarint64 (garbage_blob_count_ b) ++
  EncodeVarint64 (garbage_blob_bytes_ b) ++ EncodeVarint32 0.
Definition WalAddition_EncodeTo (w : WalAddition) : bytes :=
  EncodeVarint64 (number_ w) ++
  when (HasSyncedSize (synced_size_bytes_ w)) (EncodeVarint32 2 ++ EncodeVarint64 (synced_size_bytes_ w)) ++ EncodeVarint32 1.
Definition WalDeletion_EncodeTo (number : Z) : bytes := EncodeVarint64 number.
Definition EncodeUniqueIdBytes (id : Z * Z) : bytes := EncodeFixed64 id.1 ++ EncodeFixed64 id.2.

(** The bounds of the keys of a file, without timestamps that are not persisted. *)
Definition stored_boundary (ts_sz : Z) (f : FileMetaData) (key : bytes) : bytes :=
  if (ts_sz =? 0) || user_defined_timestamps_persisted f then key else StripTimestampFromInternalKey [] key ts_sz.
Definition EncodeFileBoundaries (f : FileMetaData) (ts_sz : Z) : bytes :=
  length_prefixed (stored_boundary ts_sz f (smallest f)) ++ length_prefixed (stored_boundary ts_sz f (largest f)).

Section NewFile.
Import NewFileCustomTag.

Definition custom (tag : Z) (field : bytes) : bytes := EncodeVarint32 tag ++ length_prefixed field.

(** The customized fields of a file; [min_log_number] is given with the first file of an edit. *)
Definition encode_custom_fields (min_log_number : option Z) (f : FileMetaData) : bytes :=
  custom kOldestAncesterTime (EncodeVarint64 (oldest_ancester_time f)) ++
  custom kFileCreationTime (EncodeVarint64 (file_creation_time f)) ++
  custom kEpochNumber (EncodeVarint64 (epoch_number f)) ++
  custom kFileChecksum (file_checksum f) ++
  custom kFileChecksumFuncName (file_checksum_func_name f) ++
  when (negb (GetPathId (fd f) =? 0)) (custom kPathId [byte.of_Z (GetPathId (fd f))]) ++
  when (negb (temperature f =? kUnknownTemperature)) (custom kTemperature [byte.of_Z (temperature f)]) ++
  when (marked_for_compaction f) (custom kNeedCompaction [Byte.x01]) ++
  when_set (fun n => custom kMinLogNumberToKeepHack (EncodeFixed64 n)) min_log_number ++
  when (negb (oldest_blob_file_number f =? 0)) (custom kOldestBlobFileNumber (EncodeVarint64 (oldest_blob_file_number f))) ++
  when (negb (bool_decide (unique_id f = (0, 0)))) (custom kUniqueId (EncodeUniqueIdBytes (unique_id f))) ++
  when (negb (compensated_range_deletion_size f =? 0))
    (custom kCompensatedRangeDeletionSize (EncodeVarint64 (compensated_range_deletion_size f))) ++
  when (negb (tail_size f =? 0)) (custom kTailSize (EncodeVarint64 (tail_size f))) ++
  when (negb (user_defined_timestamps_persisted f)) (custom kUserDefinedTimestampsPersisted [Byte.x00]) ++
  EncodeVarint32 kTerminate.
Definition encode_new_file (ts_sz : Z) (min_log_number : option Z) (level : Z) (f : FileMetaData) : bytes :=
  EncodeVarint32 Tag.kNewFile4 ++ EncodeVarint32 (u32 level) ++ EncodeVarint64 (GetNumber (fd f)) ++
  EncodeVarint64 (file_size (fd f)) ++ EncodeFileBoundaries f ts_sz ++ EncodeVarint64 (smallest_seqno (fd f)) ++
  EncodeVarint64 (largest_seqno (fd f)) ++ encode_custom_fields min_log_number f.
End NewFile.

Definition may_encode (f : FileMetaData) : bool :=
  InternalKey_Valid (smallest f) && InternalKey_Valid (largest f) && negb (epoch_number f =? 0).
(** The loop over the new files: whether all were encoded. *)
Fixpoint encode_new_files (ts_sz : Z) (min_log_number : option Z) (files : list (Z * FileMetaData)) : bool * bytes :=
  match files with
  | [] => (true, [])
  | (level, f) :: files =>
      if may_encode f then
        let '(ok, s) := encode_new_files ts_sz None files in (ok, encode_new_file ts_sz min_log_number level f ++ s)
      else (false, [])
  end.

Section EncodeTo.
Import Tag.
Definition encode_header (e : VersionEdit) : bytes :=
  when_set (fun s => EncodeVarint32 kDbId ++ length_prefixed s) (db_id_ e) ++
  when_set (fun s => EncodeVarint32 kComparator ++ length_prefixed s) (comparator_ e) ++
  when_set (fun n => EncodeVarint32 kLogNumber ++ EncodeVarint64 n) (log_number_ e) ++
  when_set (fun n => EncodeVarint32 kPrevLogNumber ++ EncodeVarint64 n) (prev_log_number_ e) ++
  when_set (fun n => EncodeVarint32 kNextFileNumber ++ EncodeVarint64 n) (next_file_number_ e) ++
  when_set (fun n => EncodeVarint32 kMaxColumnFamily ++ EncodeVarint32 n) (max_column_family_ e) ++
  when_set (fun n => EncodeVarint32 kMinLogNumberToKeep ++ EncodeVarint64 n) (min_log_number_to_keep_ e) ++
  when_set (fun n => EncodeVarint32 kLastSequence ++ EncodeVarint64 n) (last_sequence_ e) ++
  concat (map (fun c => when (InternalKey_Valid c.2)
                          (EncodeVarint32 kCompactCursor ++ EncodeVarint32 (u32 c.1) ++ length_prefixed c.2)) (compact_cursors_ e)) ++
  concat (map (fun d => EncodeVarint32 kDeletedFile ++ EncodeVarint32 (u32 d.1) ++ EncodeVarint64 d.2) (deleted_files_ e)).
Definition encode_trailer (e : VersionEdit) : bytes :=
  concat (map (fun b => EncodeVarint32 kBlobFileAddition ++ BlobFileAddition_EncodeTo b) (blob_file_additions_ e)) ++
  concat (map (fun b => EncodeVarint32 kBlobFileGarbage ++ BlobFileGarbage_EncodeTo b) (blob_file_garbages_ e)) ++
  concat (map (fun w => EncodeVarint32 kWalAddition2 ++ length_prefixed (WalAddition_EncodeTo w)) (wal_additions_ e)) ++
  when (negb (wal_deletion_ e =? 0)) (EncodeVarint32 kWalDeletion2 ++ length_prefixed (WalDeletion_EncodeTo (wal_deletion_ e))) ++
  when (negb (column_family_ e =? 0)) (EncodeVarint32 kColumnFamily ++ EncodeVarint32 (column_family_ e)) ++
  when (is_column_family_add_ e) (EncodeVarint32 kColumnFamilyAdd ++ length_prefixed (column_family_name_ e)) ++
  when (is_column_family_drop_ e) (EncodeVarint32 kColumnFamilyDrop) ++
  when (is_in_atomic_group_ e) (EncodeVarint32 kInAtomicGroup ++ EncodeVarint32 (remaining_entries_ e)) ++
  when (negb (bool_decide (full_history_ts_low_ e = []))) (EncodeVarint32 kFullHistoryTsLow ++ length_prefixed (full_history_ts_low_ e)) ++
  when_set (fun p : bool => EncodeVarint32 kPersistUserDefinedTimestamps ++ length_prefixed [if p then Byte.x01 else Byte.x00])
    (persist_user_defined_timestamps_ e).

(** The result is [None] when the size of timestamps is needed and not given: [std::optional::value] throws. *)
Definition EncodeTo (e : VersionEdit) (ts_sz : option Z) : option (bool * bytes) :=
  match new_files_ e, ts_sz with
  | [], _ => Some (true, encode_header e ++ encode_trailer e)
  | (_, f) :: _, None => if may_encode f then None else Some (false, encode_header e)
  | files, Some ts_sz =>
      let '(ok, s) := encode_new_files ts_sz (min_log_number_to_keep_ e) files in
      Some (ok, encode_header e ++ s ++ when ok (encode_trailer e))
  end.
End EncodeTo.

(** * Decoding *)

Definition Decode (A : Type) : Type := VersionEdit -> bytes -> VersionEdit * option (A * bytes).
#[global] Instance Decode_ret : MRet Decode := fun A x e input => (e, Some (x, input)).
#[global] Instance Decode_bind : MBind Decode := fun A B k m e input =>
  match m e input with
  | (e, Some (x, input)) => k x e input
  | (e, None) => (e, None)
  end.
Definition fail {A} : Decode A := fun e _ => (e, None).
(** A routine of util/coding.h on the input. *)
Definition read {A} (get : bytes -> option (A * bytes)) : Decode A := fun e input => (e, get input).
Definition modify (f : VersionEdit -> VersionEdit) : Decode unit := fun e input => (f e, Some (tt, input)).
(** A decoder on a field of the input: what is left of the field is dropped. *)
Definition inside {A} (field : bytes) (m : Decode A) : Decode A := fun e input =>
  let '(e, r) := m e field in (e, match r with Some (x, _) => Some (x, input) | None => None end).

(** A loop that goes on while its body says so. Every round reads from the input, so that its
    length is enough fuel. *)
Fixpoint decode_rounds {S : Type} (fuel : nat) (body : S -> Decode (S * bool)) (s : S) : Decode S :=
  match fuel with
  | O => fail
  | Datatypes.S fuel => r ← body s; if r.2 : bool then decode_rounds fuel body r.1 else mret r.1
  end.
Definition decode_loop {S : Type} (body : S -> Decode (S * bool)) (s : S) : Decode S := fun e input =>
  decode_rounds (Datatypes.S (length input)) body s e input.

(** The custom fields, of which none is known, of [BlobFileAddition] and [BlobFileGarbage]. *)
Definition BlobFileAddition_custom (_ : unit) : Decode (unit * bool) :=
  custom_field_tag ← read GetVarint32;
  if custom_field_tag =? 0 then mret (tt, false)
  else if negb (Z.land custom_field_tag 64 =? 0) then fail
  else _ ← read GetLengthPrefixedSlice; mret (tt, true).
Definition BlobFileAddition_DecodeFrom : Decode BlobFileAddition :=
  number ← read GetVarint64; count ← read GetVarint64; total ← read GetVarint64;
  method ← read GetLengthPrefixedSlice; value ← read GetLengthPrefixedSlice;
  _ ← decode_loop BlobFileAddition_custom tt;
  mret {| blob_file_number_ := number; total_blob_count_ := count; total_blob_bytes_ := total;
          checksum_method_ := method; checksum_value_ := value |}.
Definition BlobFileGarbage_DecodeFrom : Decode BlobFileGarbage :=
  number ← read GetVarint64; count ← read GetVarint64; total ← read GetVarint64;
  _ ← decode_loop BlobFileAddition_custom tt;
  mret {| garbage_file_number_ := number; garbage_blob_count_ := count; garbage_blob_bytes_ := total |}.
Definition WalAddition_tag (size : Z) : Decode (Z * bool) :=
  tag ← read GetVarint32;
  if tag =? 2 then size ← read GetVarint64; mret (size, true)
  else if tag =? 1 then mret (size, false)
  else fail.
Definition WalAddition_DecodeFrom : Decode WalAddition :=
  number ← read GetVarint64; size ← decode_loop WalAddition_tag kUnknownWalSize;
  mret {| number_ := number; synced_size_bytes_ := size |}.
Definition WalDeletion_DecodeFrom : Decode Z := read GetVarint64.
Definition DecodeUniqueIdBytes (id : bytes) : option (Z * Z) :=
  if slen id =? 16 then Some (DecodeFixed64 id, DecodeFixed64 (sdrop 8 id)) else None.

(** A [char], and an [int] from 32 bits. *)
Definition signed_char (b : byte) : Z := if byte.unsigned b <? 128 then byte.unsigned b else byte.unsigned b - 256.
Definition int32 (v : Z) : Z := if v <? 2 ^ 31 then v else v - 2 ^ 32.
Definition GetLevel : Decode Z :=
  v ← read GetVarint32;
  let level := int32 v in
  _ ← modify (fun e => if max_level_ e <? level then e <| max_level_ := level |> else e);
  mret level.
Definition GetInternalKey : Decode bytes :=
  str ← read GetLengthPrefixedSlice; if InternalKey_Valid str then mret str else fail.

Section NewFile4.
Import NewFileCustomTag.

Definition field_byte (field : bytes) : option byte := match field with [b] => Some b | _ => None end.
Definition or_fail {A} (x : option A) : Decode A := match x with Some x => mret x | None => fail end.

(** A customized field: the path id and the file. *)
Definition decode_custom_field (custom_tag : Z) (field : bytes) (path_id : Z) (f : FileMetaData) : Decode (Z * FileMetaData) :=
  let varint64 (k : Z -> FileMetaData) : Decode (Z * FileMetaData) :=
    n ← inside field (read GetVarint64); mret (path_id, k n) in
  if custom_tag =? kPathId then
    b ← or_fail (field_byte field);
    let path_id := u32 (signed_char b) in
    if path_id >? 3 then fail else mret (path_id, f)
  else if custom_tag =? kOldestAncesterTime then varint64 (fun n => f <| oldest_ancester_time := n |>)
  else if custom_tag =? kFileCreationTime then varint64 (fun n => f <| file_creation_time := n |>)
  else if custom_tag =? kEpochNumber then varint64 (fun n => f <| epoch_number := n |>)
  else if custom_tag =? kFileChecksum then mret (path_id, f <| file_checksum := field |>)
  else if custom_tag =? kFileChecksumFuncName then mret (path_id, f <| file_checksum_func_name := field |>)
  else if custom_tag =? kNeedCompaction then
    b ← or_fail (field_byte field); mret (path_id, f <| marked_for_compaction := byte.unsigned b =? 1 |>)
  else if custom_tag =? kMinLogNumberToKeepHack then
    n ← inside field (read GetFixed64);
    _ ← modify (fun e => e <| min_log_number_to_keep_ := Some n |>);
    mret (path_id, f)
  else if custom_tag =? kOldestBlobFileNumber then varint64 (fun n => f <| oldest_blob_file_number := n |>)
  else if custom_tag =? kTemperature then
    b ← or_fail (field_byte field);
    mret (path_id, if byte.unsigned b <=? kCold then f <| temperature := byte.unsigned b |> else f)
  else if custom_tag =? kUniqueId then
    id ← or_fail (DecodeUniqueIdBytes field); mret (path_id, f <| unique_id := id |>)
  else if custom_tag =? kCompensatedRangeDeletionSize then varint64 (fun n => f <| compensated_range_deletion_size := n |>)
  else if custom_tag =? kTailSize then varint64 (fun n => f <| tail_size := n |>)
  else if custom_tag =? kUserDefinedTimestampsPersisted then
    b ← or_fail (field_byte field); mret (path_id, f <| user_defined_timestamps_persisted := byte.unsigned b =? 1 |>)
  else if negb (Z.land custom_tag kCustomTagNonSafeIgnoreMask =? 0) then fail
  else mret (path_id, f).
Definition NewFile4_custom (s : Z * FileMetaData) : Decode (Z * FileMetaData * bool) :=
  custom_tag ← read GetVarint32;
  if custom_tag =? kTerminate then mret (s, false)
  else
    field ← read GetLengthPrefixedSlice;
    s ← decode_custom_field custom_tag field s.1 s.2;
    mret (s, true).
Definition push_new_file (level number path_id size : Z) (smallest_seq largest_seq : Z) (f : FileMetaData) : Decode unit :=
  modify (fun e => e <| new_files_ := new_files_ e ++
    [(level, f <| fd := MakeFileDescriptor number path_id size smallest_seq largest_seq |>)] |>).
Definition DecodeNewFile4From : Decode unit :=
  level ← GetLevel; number ← read GetVarint64; size ← read GetVarint64;
  small ← GetInternalKey; large ← GetInternalKey;
  smallest_seq ← read GetVarint64; largest_seq ← read GetVarint64;
  s ← decode_loop NewFile4_custom (0, NewFileMetaData <| smallest := small |> <| largest := large |>);
  push_new_file level number s.1 size smallest_seq largest_seq s.2.
End NewFile4.

Section DecodeFrom.
Import Tag.

(** One field of an edit. *)
Definition decode_field (tag : Z) : Decode unit :=
  if tag =? kDbId then str ← read GetLengthPrefixedSlice; modify (fun e => e <| db_id_ := Some str |>)
  else if tag =? kComparator then str ← read GetLengthPrefixedSlice; modify (fun e => e <| comparator_ := Some str |>)
  else if tag =? kLogNumber then n ← read GetVarint64; modify (fun e => e <| log_number_ := Some n |>)
  else if tag =? kPrevLogNumber then n ← read GetVarint64; modify (fun e => e <| prev_log_number_ := Some n |>)
  else if tag =? kNextFileNumber then n ← read GetVarint64; modify (fun e => e <| next_file_number_ := Some n |>)
  else if tag =? kMaxColumnFamily then n ← read GetVarint32; modify (fun e => e <| max_column_family_ := Some n |>)
  else if tag =? kMinLogNumberToKeep then n ← read GetVarint64; modify (fun e => e <| min_log_number_to_keep_ := Some n |>)
  else if tag =? kLastSequence then n ← read GetVarint64; modify (fun e => e <| last_sequence_ := Some n |>)
  else if tag =? kCompactCursor then
    level ← GetLevel; key ← GetInternalKey;
    modify (fun e => e <| compact_cursors_ := compact_cursors_ e ++ [(level, key)] |>)
  else if tag =? kDeletedFile then level ← GetLevel; number ← read GetVarint64; modify (DeleteFile level number)
  else if tag =? kNewFile then
    level ← GetLevel; number ← read GetVarint64; size ← read GetVarint64; small ← GetInternalKey; large ← GetInternalKey;
    push_new_file level number 0 size kMaxSequenceNumber 0 (NewFileMetaData <| smallest := small |> <| largest := large |>)
  else if tag =? kNewFile2 then
    level ← GetLevel; number ← read GetVarint64; size ← read GetVarint64; small ← GetInternalKey; large ← GetInternalKey;
    smallest_seq ← read GetVarint64; largest_seq ← read GetVarint64;
    push_new_file level number 0 size smallest_seq largest_seq (NewFileMetaData <| smallest := small |> <| largest := large |>)
  else if tag =? kNewFile3 then
    level ← GetLevel; number ← read GetVarint64; path_id ← read GetVarint32; size ← read GetVarint64;
    small ← GetInternalKey; large ← GetInternalKey;
    smallest_seq ← read GetVarint64; largest_seq ← read GetVarint64;
    push_new_file level number path_id size smallest_seq largest_seq (NewFileMetaData <| smallest := small |> <| largest := large |>)
  else if tag =? kNewFile4 then DecodeNewFile4From
  else if (tag =? kBlobFileAddition) || (tag =? kBlobFileAddition_DEPRECATED) then
    b ← BlobFileAddition_DecodeFrom; modify (AddBlobFile b)
  else if (tag =? kBlobFileGarbage) || (tag =? kBlobFileGarbage_DEPRECATED) then
    b ← BlobFileGarbage_DecodeFrom; modify (AddBlobFileGarbage b)
  else if tag =? kWalAddition then w ← WalAddition_DecodeFrom; modify (AddWal w)
  else if tag =? kWalAddition2 then
    encoded ← read GetLengthPrefixedSlice; w ← inside encoded WalAddition_DecodeFrom; modify (AddWal w)
  else if tag =? kWalDeletion then n ← WalDeletion_DecodeFrom; modify (fun e => e <| wal_deletion_ := n |>)
  else if tag =? kWalDeletion2 then
    encoded ← read GetLengthPrefixedSlice; n ← inside encoded WalDeletion_DecodeFrom; modify (fun e => e <| wal_deletion_ := n |>)
  else if tag =? kColumnFamily then n ← read GetVarint32; modify (fun e => e <| column_family_ := n |>)
  else if tag =? kColumnFamilyAdd then
    str ← read GetLengthPrefixedSlice; modify (fun e => e <| is_column_family_add_ := true |> <| column_family_name_ := str |>)
  else if tag =? kColumnFamilyDrop then modify (fun e => e <| is_column_family_drop_ := true |>)
  else if tag =? kInAtomicGroup then
    _ ← modify (fun e => e <| is_in_atomic_group_ := true |>);
    n ← read GetVarint32; modify (fun e => e <| remaining_entries_ := n |>)
  else if tag =? kFullHistoryTsLow then
    str ← read GetLengthPrefixedSlice;
    if bool_decide (str = []) then fail else modify (fun e => e <| full_history_ts_low_ := str |>)
  else if tag =? kPersistUserDefinedTimestamps then
    str ← read GetLengthPrefixedSlice; b ← or_fail (field_byte str);
    modify (fun e => e <| persist_user_defined_timestamps_ := Some (byte.unsigned b =? 1) |>)
  else if negb (Z.land tag kTagSafeIgnoreMask =? 0) then _ ← read GetLengthPrefixedSlice; mret tt
  else fail.
End DecodeFrom.

(** The loop over the fields: it ends when no tag can be read. *)
Fixpoint decode_fields (fuel : nat) (e : VersionEdit) (input : bytes) : Status * VersionEdit :=
  match fuel with
  | O => (Status_Corruption, e)
  | Datatypes.S fuel =>
      match GetVarint32 input with
      | None => (if bool_decide (input = []) then Status_OK else Status_Corruption, e)
      | Some (tag, input) =>
          match decode_field tag e input with
          | (e, None) => (Status_Corruption, e)
          | (e, Some (_, input)) => decode_fields fuel e input
          end
      end
  end.
Definition DecodeFrom (e : VersionEdit) (src : bytes) : Status * VersionEdit :=
  decode_fields (Datatypes.S (length src)) (VersionEdit_Clear e) src.
