(* ===== verification/VersionEditProofs.v ===== *)
(** Version edits are decoded as they were encoded. *)

From stdpp Require Import gmap sorting.
From S2P Require Import Prelude Coding DbFormat Status VersionEdit.

Open Scope record_scope.

(** * Decoders on encodings *)

(** A decoder reads exactly [b], whatever follows. *)
Definition decodes {A} (m : Decode A) (b : bytes) (e : VersionEdit) (x : A) (e' : VersionEdit) : Prop :=
  forall rest, m e (b ++ rest) = (e', Some (x, rest)).

Lemma decodes_ret {A} (x : A) e : decodes (mret x) [] e x e.
Proof. by intros rest. Qed.
Lemma decodes_bind {A B} (m : Decode A) (k : A -> Decode B) b b' e e1 e2 x y :
  decodes m b e x e1 -> decodes (k x) b' e1 y e2 -> decodes (m ≫= k) (b ++ b') e y e2.
Proof. intros Hm Hk rest. unfold mbind, Decode_bind. rewrite <- app_assoc, Hm. apply Hk. Qed.
Lemma decodes_last {A B} (m : Decode A) (k : A -> Decode B) b e e1 e2 x y :
  decodes m b e x e1 -> decodes (k x) [] e1 y e2 -> decodes (m ≫= k) b e y e2.
Proof. intros Hm Hk. rewrite <- (app_nil_r b). by apply (decodes_bind _ _ _ _ _ e1 _ x). Qed.
Lemma decodes_modify f e : decodes (modify f) [] e tt (f e).
Proof. by intros rest. Qed.
Lemma decodes_varint32 n e : fits 32 n -> decodes (read GetVarint32) (EncodeVarint32 n) e n e.
Proof. intros Hn rest. unfold read. by rewrite GetVarint32_Encode. Qed.
Lemma decodes_varint64 n e : fits 64 n -> decodes (read GetVarint64) (EncodeVarint64 n) e n e.
Proof. intros Hn rest. unfold read. by rewrite GetVarint64_Encode. Qed.
Lemma decodes_slice s e : fits 32 (slen s) -> decodes (read GetLengthPrefixedSlice) (length_prefixed s) e s e.
Proof. intros Hs rest. unfold read, length_prefixed. by rewrite GetLengthPrefixedSlice_Put. Qed.
Lemma decodes_inside {A} (m : Decode A) b e x e' : decodes m b e x e' -> decodes (inside b m) [] e x e'.
Proof. intros Hm rest. unfold inside. rewrite <- (app_nil_r b), Hm. done. Qed.

Definition level_ok (level : Z) : Prop := 0 <= level < 2 ^ 31.
Definition raise_level (level : Z) (e : VersionEdit) : VersionEdit := e <| max_level_ := Z.max (max_level_ e) level |>.
Lemma decodes_level level e : level_ok level -> decodes GetLevel (EncodeVarint32 (u32 level)) e level (raise_level level e).
Proof.
  intros Hl. unfold level_ok in Hl. assert (fits 32 level) by (unfold fits; lia). rewrite wrap_small by done.
  eapply decodes_last; [by apply decodes_varint32 |]. unfold int32. rewrite (proj2 (Z.ltb_lt _ _)) by lia.
  eapply (decodes_last _ _ [] e); [apply decodes_modify |]. unfold raise_level.
  destruct (Z.ltb_spec (max_level_ e) level) as [Hlt | Hge]; [rewrite Z.max_r by lia; apply decodes_ret |].
  rewrite Z.max_l by lia. destruct e. apply decodes_ret.
Qed.
Lemma decodes_key k e : InternalKey_Valid k = true -> fits 32 (slen k) -> decodes GetInternalKey (length_prefixed k) e k e.
Proof. intros Hv Hk. eapply decodes_last; [by apply decodes_slice |]. rewrite Hv. apply decodes_ret. Qed.

(** * Loops *)

Section Loop.
Context {S : Type} (body : S -> Decode (S * bool)).

Inductive rounds : S -> bytes -> VersionEdit -> S -> VersionEdit -> Prop :=
| rounds_nil s e : rounds s [] e s e
| rounds_cons s b e s1 e1 b' s2 e2 : decodes (body s) b e (s1, true) e1 -> b <> [] -> rounds s1 b' e1 s2 e2 ->
    rounds s (b ++ b') e s2 e2.

Lemma rounds_one s b e s1 e1 : decodes (body s) b e (s1, true) e1 -> b <> [] -> rounds s b e s1 e1.
Proof. intros Hd Hb. rewrite <- (app_nil_r b). eapply rounds_cons; [done | done | constructor]. Qed.
Lemma rounds_app s b e s1 e1 b' s2 e2 : rounds s b e s1 e1 -> rounds s1 b' e1 s2 e2 -> rounds s (b ++ b') e s2 e2.
Proof.
  induction 1 as [| s b e s1 e1 b1 s3 e3 Hd Hb Hr IH]; intros H2; [done |]. rewrite <- app_assoc.
  eapply rounds_cons; [done | done | by apply IH].
Qed.
Lemma decode_rounds_enough s b e s1 e1 b' s2 e2 : rounds s b e s1 e1 -> decodes (body s1) b' e1 (s2, false) e2 ->
  forall fuel rest, (length b < fuel)%nat -> decode_rounds fuel body s e ((b ++ b') ++ rest) = (e2, Some (s2, rest)).
Proof.
  induction 1 as [s e | s b e s1 e1 b1 s3 e3 Hd Hb Hr IH]; intros Hend fuel rest Hf; destruct fuel as [| fuel]; cbn in Hf; try lia.
  - cbn. unfold mbind, Decode_bind. by rewrite Hend.
  - cbn. unfold mbind, Decode_bind. rewrite <- !app_assoc, Hd. cbn. rewrite length_app in Hf.
    assert (0 < length b)%nat by (destruct b; [done | cbn; lia]). rewrite app_assoc. apply IH; [done | lia].
Qed.
Lemma decodes_loop s b e s1 e1 b' s2 e2 : rounds s b e s1 e1 -> decodes (body s1) b' e1 (s2, false) e2 ->
  decodes (decode_loop body s) (b ++ b') e s2 e2.
Proof.
  intros Hr Hend rest. unfold decode_loop. eapply decode_rounds_enough; [done | done |]. rewrite !length_app. lia.
Qed.
End Loop.

(** The fields of an edit. *)
Inductive fields : bytes -> VersionEdit -> VersionEdit -> Prop :=
| fields_nil e : fields [] e e
| fields_cons tag b e e1 b' e2 : fits 32 tag -> decodes (decode_field tag) b e tt e1 -> fields b' e1 e2 ->
    fields ((EncodeVarint32 tag ++ b) ++ b') e e2.
Lemma fields_one tag b e e1 : fits 32 tag -> decodes (decode_field tag) b e tt e1 -> fields (EncodeVarint32 tag ++ b) e e1.
Proof. intros Ht Hd. rewrite <- (app_nil_r (_ ++ _)). eapply fields_cons; [done | done | constructor]. Qed.
Lemma fields_app b e e1 b' e2 : fields b e e1 -> fields b' e1 e2 -> fields (b ++ b') e e2.
Proof.
  induction 1 as [| tag b e e1 b1 e3 Ht Hd Hf IH]; intros H2; [done |]. rewrite <- app_assoc.
  eapply fields_cons; [done | done | by apply IH].
Qed.
Lemma varint32_nonempty n : EncodeVarint32 n <> [].
Proof. intros E. pose proof (slen_EncodeVarint32_bounds n) as Hb. rewrite E in Hb. rewrite slen_nil in Hb. lia. Qed.
Lemma decode_fields_done b e e' : fields b e e' -> forall fuel, (length b < fuel)%nat -> decode_fields fuel e b = (Status_OK, e').
Proof.
  induction 1 as [e | tag b e e1 b1 e2 Ht Hd Hf IH]; intros fuel Hl; destruct fuel as [| fuel]; [cbn in Hl; lia | done | lia |].
  cbn [decode_fields]. rewrite <- !app_assoc, GetVarint32_Encode, Hd by done. apply IH. rewrite !length_app in Hl.
  pose proof (varint32_nonempty tag). destruct (EncodeVarint32 tag); [done | cbn in Hl; lia].
Qed.

(** * Parts *)


Record blob_addition_ok (b : BlobFileAddition) : Prop := {
  ba_number : fits 64 (blob_file_number_ b);
  ba_count : fits 64 (total_blob_count_ b);
  ba_bytes : fits 64 (total_blob_bytes_ b);
  ba_method : fits 32 (slen (checksum_method_ b));
  ba_value : fits 32 (slen (checksum_value_ b));
}.
Lemma decodes_no_customs e : decodes (decode_loop BlobFileAddition_custom tt) (EncodeVarint32 0) e tt e.
Proof.
  apply (decodes_loop _ _ [] _ tt e (EncodeVarint32 0)); [constructor |]. eapply decodes_last; [apply decodes_varint32; small_fits | apply decodes_ret].
Qed.
Lemma decodes_blob_addition b e : blob_addition_ok b ->
  decodes BlobFileAddition_DecodeFrom (BlobFileAddition_EncodeTo b) e b e.
Proof.
  intros []. unfold BlobFileAddition_DecodeFrom, BlobFileAddition_EncodeTo.
  do 3 (eapply decodes_bind; [by apply decodes_varint64 |]). do 2 (eapply decodes_bind; [by apply decodes_slice |]).
  eapply decodes_last; [apply decodes_no_customs |]. destruct b. apply decodes_ret.
Qed.
Record blob_garbage_ok (b : BlobFileGarbage) : Prop := {
  bg_number : fits 64 (garbage_file_number_ b);
  bg_count : fits 64 (garbage_blob_count_ b);
  bg_bytes : fits 64 (garbage_blob_bytes_ b);
}.
Lemma decodes_blob_garbage b e : blob_garbage_ok b ->
  decodes BlobFileGarbage_DecodeFrom (BlobFileGarbage_EncodeTo b) e b e.
Proof.
  intros []. unfold BlobFileGarbage_DecodeFrom, BlobFileGarbage_EncodeTo.
  do 3 (eapply decodes_bind; [by apply decodes_varint64 |]).
  eapply decodes_last; [apply decodes_no_customs |]. destruct b. apply decodes_ret.
Qed.
Record wal_ok (w : WalAddition) : Prop := {
  wa_number : fits 64 (number_ w);
  wa_size : fits 64 (synced_size_bytes_ w);
}.
Lemma decodes_wal w e : wal_ok w -> decodes WalAddition_DecodeFrom (WalAddition_EncodeTo w) e w e.
Proof.
  intros [Hn Hs]. unfold WalAddition_DecodeFrom, WalAddition_EncodeTo. eapply decodes_bind; [by apply decodes_varint64 |].
  eapply (decodes_last _ _ _ _ e _ (synced_size_bytes_ w)); [| destruct w; apply decodes_ret]. eapply (decodes_loop _ _ _ _ (synced_size_bytes_ w) e).
  - unfold HasSyncedSize. destruct (Z.eqb_spec (synced_size_bytes_ w) kUnknownWalSize) as [-> |]; cbn [negb when]; [constructor |].
    apply rounds_one.
    + eapply decodes_bind; [apply decodes_varint32; small_fits |]. eapply decodes_last; [by apply decodes_varint64 | apply decodes_ret].
    + intros [E _]%app_nil. by apply varint32_nonempty in E.
  - eapply decodes_last; [apply decodes_varint32; small_fits | apply decodes_ret].
Qed.

(** ** Files *)

Section Customs.
Import NewFileCustomTag.
Implicit Types (f g : FileMetaData) (e : VersionEdit).

Lemma custom_round tag field p g e p' g' e' : fits 32 tag -> tag <> kTerminate -> fits 32 (slen field) ->
  decodes (decode_custom_field tag field p g) [] e (p', g') e' -> rounds NewFile4_custom (p, g) (custom tag field) e (p', g') e'.
Proof.
  intros Ht Hne Hf Hd. apply rounds_one.
  - unfold custom. eapply decodes_bind; [by apply decodes_varint32 |]. rewrite (proj2 (Z.eqb_neq _ _) Hne).
    eapply decodes_last; [by apply decodes_slice |]. eapply (decodes_last _ _ [] e e'); [exact Hd | apply decodes_ret].
  - unfold custom. intros [E _]%app_nil. by apply varint32_nonempty in E.
Qed.
(** A field that is not written has its default already. *)
Lemma custom_when (c : bool) b p g e p' g' : (c = true -> rounds NewFile4_custom (p, g) b e (p', g') e) ->
  (c = false -> (p, g) = (p', g')) -> rounds NewFile4_custom (p, g) (when c b) e (p', g') e.
Proof. destruct c; cbn; intros H1 H2; [by apply H1 | rewrite <- H2 by done; constructor]. Qed.

Lemma slen_varint64_bounds n : 1 <= slen (EncodeVarint64 n) <= 10.
Proof. rewrite slen_EncodeVarint64. unfold VarintLength. pose proof (VarintLength_loop_bounds 9 n 1). lia. Qed.
Lemma slen_varint64 n : fits 32 (slen (EncodeVarint64 n)).
Proof. pose proof (slen_varint64_bounds n). unfold fits. lia. Qed.
Lemma rounds_eq s b e s1 e1 s2 e2 : rounds NewFile4_custom s b e s1 e1 -> s1 = s2 -> e1 = e2 -> rounds NewFile4_custom s b e s2 e2.
Proof. by intros ? -> ->. Qed.

Lemma custom_varint tag n p g (k : Z -> FileMetaData) e : fits 64 n ->
  decode_custom_field tag (EncodeVarint64 n) p g = (x ← inside (EncodeVarint64 n) (read GetVarint64); mret (p, k x)) ->
  fits 32 tag -> tag <> kTerminate -> rounds NewFile4_custom (p, g) (custom tag (EncodeVarint64 n)) e (p, k n) e.
Proof.
  intros Hn E Ht Hne. apply custom_round; [done | done | apply slen_varint64 |]. rewrite E.
  eapply (decodes_last _ _ [] e e); [by apply decodes_inside, decodes_varint64 | apply decodes_ret].
Qed.
Lemma custom_set tag field p g p' g' e : decode_custom_field tag field p g = mret (p', g') ->
  fits 32 tag -> tag <> kTerminate -> fits 32 (slen field) -> rounds NewFile4_custom (p, g) (custom tag field) e (p', g') e.
Proof. intros E Ht Hne Hf. apply custom_round; [done.. |]. rewrite E. apply decodes_ret. Qed.

Record file_ok (ts_sz : Z) (f : FileMetaData) : Prop := {
  fo_packed : fits 64 (packed_number_and_path_id (fd f));
  fo_size : fits 64 (file_size (fd f));
  fo_seqnos : fits 64 (smallest_seqno (fd f)) /\ fits 64 (largest_seqno (fd f));
  fo_smallest : InternalKey_Valid (smallest f) = true /\ InternalKey_Valid (stored_boundary ts_sz f (smallest f)) = true /\
    fits 32 (slen (stored_boundary ts_sz f (smallest f)));
  fo_largest : InternalKey_Valid (largest f) = true /\ InternalKey_Valid (stored_boundary ts_sz f (largest f)) = true /\
    fits 32 (slen (stored_boundary ts_sz f (largest f)));
  fo_temperature : 0 <= temperature f <= kCold;
  fo_numbers : Forall (fits 64) [compensated_range_deletion_size f; oldest_blob_file_number f; oldest_ancester_time f;
    file_creation_time f; epoch_number f; tail_size f; (unique_id f).1; (unique_id f).2];
  fo_epoch : epoch_number f <> 0;
  fo_checksum : fits 32 (slen (file_checksum f)) /\ fits 32 (slen (file_checksum_func_name f));
}.

Lemma pack_parts d : fits 64 (packed_number_and_path_id d) ->
  0 <= GetPathId d <= 3 /\ fits 64 (GetNumber d) /\ PackFileNumberAndPathId (GetNumber d) (GetPathId d) = packed_number_and_path_id d.
Proof.
  unfold GetPathId, GetNumber, PackFileNumberAndPathId. set (n := packed_number_and_path_id d). intros Hn.
  change (kFileNumberMask + 1) with (2 ^ 62). change kFileNumberMask with (Z.ones 62). rewrite Z.land_ones by lia. unfold fits in *.
  assert (0 <= n / 2 ^ 62 <= 3).
  { split; [apply Z.div_pos; lia |]. apply Z.lt_succ_r. apply Z.div_lt_upper_bound; lia. }
  assert (0 <= n mod 2 ^ 62 < 2 ^ 62) by (apply Z.mod_pos_bound; lia).
  rewrite wrap_small by (unfold fits; lia). rewrite wrap_small by (unfold fits; lia). split_and!; [lia | lia | lia | lia |].
  rewrite Z.lor_comm, lor_shift_add by (unfold fits; lia). pose proof (Z_div_mod_eq_full n (2 ^ 62)). lia.
Qed.

Lemma custom_path_id p g e path : 0 <= path <= 3 -> rounds NewFile4_custom (p, g) (custom kPathId [byte.of_Z path]) e (path, g) e.
Proof.
  intros Hp. apply custom_set; [| small_fits | done | small_fits]. unfold decode_custom_field.
  assert (u32 (signed_char (byte.of_Z path)) = path) as E.
  { unfold signed_char. rewrite byte_of_Z_small by lia. rewrite (proj2 (Z.ltb_lt _ _)) by lia. apply wrap_small. unfold fits. lia. }
  change (b ← or_fail (field_byte [byte.of_Z path]); if u32 (signed_char b) >? 3 then fail else mret (u32 (signed_char b), g))
    with (if u32 (signed_char (byte.of_Z path)) >? 3 then fail else mret (u32 (signed_char (byte.of_Z path)), g)).
  change (kPathId =? kPathId) with true. cbv iota. cbn [field_byte or_fail]. unfold mbind, Decode_bind, mret, Decode_ret.
  rewrite E. rewrite Z.gtb_ltb, (proj2 (Z.ltb_ge _ _)) by lia. done.
Qed.
Lemma custom_temperature p g e t : 0 <= t <= kCold ->
  rounds NewFile4_custom (p, g) (custom kTemperature [byte.of_Z t]) e (p, g <| temperature := t |>) e.
Proof.
  intros Ht. unfold kCold in Ht. apply custom_set; [| small_fits | done | small_fits].
  change (decode_custom_field kTemperature [byte.of_Z t] p g) with (fun e input => (e, Some ((p,
    if byte.unsigned (byte.of_Z t) <=? kCold then g <| temperature := byte.unsigned (byte.of_Z t) |> else g), input : bytes))).
  rewrite byte_of_Z_small by lia. unfold kCold. by rewrite (proj2 (Z.leb_le _ _)) by lia.
Qed.
Lemma custom_unique_id p g e id : fits 64 id.1 -> fits 64 id.2 ->
  rounds NewFile4_custom (p, g) (custom kUniqueId (EncodeUniqueIdBytes id)) e (p, g <| unique_id := id |>) e.
Proof.
  intros H1 H2. unfold EncodeUniqueIdBytes. apply custom_set; [| small_fits | done | unfold fits; slia].
  assert (DecodeUniqueIdBytes (EncodeFixed64 id.1 ++ EncodeFixed64 id.2) = Some id) as E.
  { unfold DecodeUniqueIdBytes. rewrite slen_app, !slen_EncodeFixed64. cbn [Z.eqb Z.add Pos.add Pos.eqb].
    rewrite sdrop_app_exact by slia. rewrite <- (app_nil_r (EncodeFixed64 id.2)) at 2. rewrite !DecodeFixed64_Encode by done. by destruct id. }
  change (decode_custom_field kUniqueId ?field p g) with (id ← or_fail (DecodeUniqueIdBytes field); (mret (p, g <| unique_id := id |>) : Decode _)).
  by rewrite E.
Qed.
Lemma custom_min_log p g e n : fits 64 n ->
  rounds NewFile4_custom (p, g) (custom kMinLogNumberToKeepHack (EncodeFixed64 n)) e (p, g) (e <| min_log_number_to_keep_ := Some n |>).
Proof.
  intros Hn. apply custom_round; [small_fits | done | unfold fits; slia |].
  change (decode_custom_field kMinLogNumberToKeepHack ?field p g) with
    (n ← inside field (read GetFixed64); _ ← modify (fun e => e <| min_log_number_to_keep_ := Some n |>); (mret (p, g) : Decode _)).
  eapply (decodes_last _ _ [] e e _ n). { apply decodes_inside. intros rest. unfold read. by rewrite GetFixed64_Put. }
  eapply (decodes_last _ _ [] e _ _ tt); [apply decodes_modify | apply decodes_ret].
Qed.

Lemma custom_min_log_again min_log p g e : min_log = None \/ min_log = min_log_number_to_keep_ e ->
  (forall n, min_log = Some n -> fits 64 n) ->
  rounds NewFile4_custom (p, g) (when_set (fun n => custom kMinLogNumberToKeepHack (EncodeFixed64 n)) min_log) e (p, g) e.
Proof.
  intros Hmin Hn. destruct min_log as [n |]; cbn [when_set]; [| constructor]. destruct Hmin as [| Hmin]; [done |].
  eapply rounds_eq; [apply custom_min_log, Hn; done | done |]. rewrite Hmin. by destruct e.
Qed.
Lemma custom_marked (c : bool) p g e : marked_for_compaction g = false ->
  rounds NewFile4_custom (p, g) (when c (custom kNeedCompaction [Byte.x01])) e (p, g <| marked_for_compaction := c |>) e.
Proof.
  intros Hg. apply custom_when; intros ->; [apply custom_set; [reflexivity | small_fits | done | small_fits] |].
  destruct g. cbn in *. by subst.
Qed.
Lemma custom_persisted (c : bool) p g e : user_defined_timestamps_persisted g = true ->
  rounds NewFile4_custom (p, g) (when (negb c) (custom kUserDefinedTimestampsPersisted [Byte.x00])) e (p, g <| user_defined_timestamps_persisted := c |>) e.
Proof.
  intros Hg. apply custom_when; destruct c; intros E; try discriminate E; [apply custom_set; [reflexivity | small_fits | done | small_fits] |].
  destruct g. cbn in *. by subst.
Qed.

(** All customized fields but the end: the file with the other fields that it starts with. *)
Lemma customs_read ts_sz min_log f e d a b : file_ok ts_sz f -> min_log = None \/ min_log = min_log_number_to_keep_ e ->
  (forall n, min_log = Some n -> fits 64 n) ->
  decodes (decode_loop NewFile4_custom (0, NewFileMetaData <| fd := d |> <| smallest := a |> <| largest := b |>))
    (encode_custom_fields min_log f) e
    (GetPathId (fd f), f <| fd := d |> <| smallest := a |> <| largest := b |>) e.
Proof.
  intros [Hp _ _ _ _ Ht Hn _ [Hc Hcn]] Hmin Hlog. destruct (pack_parts _ Hp) as (Hpath & _ & _).
  repeat match goal with H : Forall _ (_ :: _) |- _ => apply list.Forall_cons in H as [? H] end. clear Hn.
  unfold encode_custom_fields. rewrite !app_assoc. eapply decodes_loop.
  2: { eapply decodes_last; [apply decodes_varint32; small_fits | apply decodes_ret]. }
  rewrite <- !app_assoc. eapply rounds_eq.
  - eapply rounds_app; [eapply custom_varint; [done | reflexivity | small_fits | done] |].
    eapply rounds_app; [eapply custom_varint; [done | reflexivity | small_fits | done] |].
    eapply rounds_app; [eapply custom_varint; [done | reflexivity | small_fits | done] |].
    eapply rounds_app; [apply custom_set; [reflexivity | small_fits | done | done] |].
    eapply rounds_app; [apply custom_set; [reflexivity | small_fits | done | done] |].
    eapply rounds_app; [apply custom_when; [by intros _; apply custom_path_id | by intros <-%negb_false_iff%Z.eqb_eq] |].
    eapply rounds_app; [apply custom_when; [by intros _; apply custom_temperature | by intros ->%negb_false_iff%Z.eqb_eq] |].
    eapply rounds_app; [by apply custom_marked |].
    eapply rounds_app; [by apply custom_min_log_again |].
    eapply rounds_app; [apply custom_when; [by intros _; eapply custom_varint; [| reflexivity | small_fits |] | by intros ->%negb_false_iff%Z.eqb_eq] |].
    eapply rounds_app; [apply custom_when; [by intros _; apply custom_unique_id | by intros ->%negb_false_iff%bool_decide_eq_true] |].
    eapply rounds_app; [apply custom_when; [by intros _; eapply custom_varint; [| reflexivity | small_fits |] | by intros ->%negb_false_iff%Z.eqb_eq] |].
    eapply rounds_app; [apply custom_when; [by intros _; eapply custom_varint; [| reflexivity | small_fits |] | by intros ->%negb_false_iff%Z.eqb_eq] |].
    by apply custom_persisted.
  - by destruct f.
  - done.
Qed.
End Customs.

(** A file as it is stored. *)
Definition stored_file (ts_sz : Z) (f : FileMetaData) : FileMetaData :=
  f <| smallest := stored_boundary ts_sz f (smallest f) |> <| largest := stored_boundary ts_sz f (largest f) |>.
Definition add_stored (ts_sz : Z) (e : VersionEdit) (x : Z * FileMetaData) : VersionEdit :=
  (raise_level x.1 e) <| new_files_ := new_files_ e ++ [(x.1, stored_file ts_sz x.2)] |>.

Lemma stored_file_fd ts_sz f : fits 64 (packed_number_and_path_id (fd f)) ->
  stored_file ts_sz f = (f <| fd := fd NewFileMetaData |> <| smallest := stored_boundary ts_sz f (smallest f) |>
    <| largest := stored_boundary ts_sz f (largest f) |>)
    <| fd := MakeFileDescriptor (GetNumber (fd f)) (GetPathId (fd f)) (file_size (fd f)) (smallest_seqno (fd f)) (largest_seqno (fd f)) |>.
Proof.
  intros Hp. destruct (pack_parts _ Hp) as (_ & _ & E). unfold MakeFileDescriptor. rewrite E. by destruct f as [[]].
Qed.
Lemma fields_new_file ts_sz min_log level f e : level_ok level -> file_ok ts_sz f ->
  min_log = None \/ min_log = min_log_number_to_keep_ e -> (forall n, min_log = Some n -> fits 64 n) ->
  fields (encode_new_file ts_sz min_log level f) e (add_stored ts_sz e (level, f)).
Proof.
  intros Hl Hf Hmin Hlog. unfold encode_new_file, EncodeFileBoundaries. rewrite <- !app_assoc. apply fields_one; [small_fits |].
  change (decode_field Tag.kNewFile4) with DecodeNewFile4From. unfold DecodeNewFile4From.
  pose proof Hf as [Hp Hsz [Hs1 Hs2] (_ & Hv1 & Hk1) (_ & Hv2 & Hk2) _ _ _ _]. destruct (pack_parts _ Hp) as (_ & Hn & _).
  eapply decodes_bind; [by apply decodes_level |]. do 2 (eapply decodes_bind; [by apply decodes_varint64 |]).
  do 2 (eapply decodes_bind; [by apply decodes_key |]). do 2 (eapply decodes_bind; [by apply decodes_varint64 |]).
  eapply decodes_last; [by apply (customs_read ts_sz min_log f _ (fd NewFileMetaData)) |].
  unfold add_stored. cbn [fst snd]. rewrite stored_file_fd by done. by intros rest.
Qed.
Lemma fields_new_files ts_sz l : forall min_log e, Forall (fun x => level_ok x.1 /\ file_ok ts_sz x.2) l ->
  min_log = None \/ min_log = min_log_number_to_keep_ e -> (forall n, min_log = Some n -> fits 64 n) ->
  let r := encode_new_files ts_sz min_log l in r.1 = true /\ fields r.2 e (fold_left (add_stored ts_sz) l e).
Proof.
  induction l as [| [level f] l IH]; intros min_log e Hall Hmin Hlog; cbn [encode_new_files fold_left]; [split; [done | constructor] |].
  apply list.Forall_cons in Hall as [[Hl Hf] Hall]. cbn [fst snd] in Hl, Hf. assert (may_encode f = true) as ->.
  { destruct Hf as [_ _ _ (H1 & _) (H2 & _) _ _ H3 _]. unfold may_encode. rewrite H1, H2. by rewrite (proj2 (Z.eqb_neq _ _) H3). }
  destruct (IH None (add_stored ts_sz e (level, f)) Hall) as [IH1 IH2]; [by left | done |].
  destruct (encode_new_files ts_sz None l) as [ok s]. cbn [fst snd] in *. split; [done |].
  eapply fields_app; [by apply fields_new_file | done].
Qed.

(** * The other fields *)

(** [g] sets the field; one that is not written keeps its default. *)
Lemma fields_option {A} (tag : Z) (enc : A -> bytes) (x : option A) e (g : option A -> VersionEdit -> VersionEdit) : fits 32 tag ->
  (forall a, x = Some a -> decodes (decode_field tag) (enc a) e tt (g (Some a) e)) -> g None e = e ->
  fields (when_set (fun a => EncodeVarint32 tag ++ enc a) x) e (g x e).
Proof. intros Ht Hx Hn. destruct x as [a |]; cbn; [apply fields_one; [done | by apply Hx] | rewrite Hn; constructor]. Qed.
Lemma fields_when (tag : Z) b (c : bool) e e' : fits 32 tag -> (c = true -> decodes (decode_field tag) b e tt e') ->
  (c = false -> e = e') -> fields (when c (EncodeVarint32 tag ++ b)) e e'.
Proof. intros Ht Hx Hn. destruct c; cbn; [apply fields_one; [done | by apply Hx] | rewrite <- Hn by done; constructor]. Qed.
Lemma fields_flag (tag : Z) b (c : bool) e (g : bool -> VersionEdit -> VersionEdit) : fits 32 tag ->
  (c = true -> decodes (decode_field tag) b e tt (g true e)) -> (c = false -> g false e = e) ->
  fields (when c (EncodeVarint32 tag ++ b)) e (g c e).
Proof. intros Ht Hx Hn. apply fields_when; [done | by intros ->; apply Hx | by intros ->; rewrite Hn]. Qed.
Lemma fields_list {A} (enc : A -> bytes) (step : VersionEdit -> A -> VersionEdit) l e :
  Forall (fun a => forall e, fields (enc a) e (step e a)) l -> fields (concat (map enc l)) e (fold_left step l e).
Proof.
  intros Hl. revert e. induction Hl as [| a l Ha _ IH]; intros e; cbn; [constructor |]. eapply fields_app; [apply Ha | apply IH].
Qed.

(** A tag whose field is one number or one string. *)
Lemma decodes_number tag n e (g : Z -> VersionEdit -> VersionEdit) : fits 64 n ->
  decode_field tag = (n ← read GetVarint64; modify (g n)) -> decodes (decode_field tag) (EncodeVarint64 n) e tt (g n e).
Proof. intros Hn ->. eapply decodes_last; [by apply decodes_varint64 | apply decodes_modify]. Qed.
Lemma decodes_number32 tag n e (g : Z -> VersionEdit -> VersionEdit) : fits 32 n ->
  decode_field tag = (n ← read GetVarint32; modify (g n)) -> decodes (decode_field tag) (EncodeVarint32 n) e tt (g n e).
Proof. intros Hn ->. eapply decodes_last; [by apply decodes_varint32 | apply decodes_modify]. Qed.
Lemma decodes_string tag s e (g : bytes -> VersionEdit -> VersionEdit) : fits 32 (slen s) ->
  decode_field tag = (s ← read GetLengthPrefixedSlice; modify (g s)) -> decodes (decode_field tag) (length_prefixed s) e tt (g s e).
Proof. intros Hn ->. eapply decodes_last; [by apply decodes_slice | apply decodes_modify]. Qed.

Definition add_cursor (e : VersionEdit) (c : Z * bytes) : VersionEdit :=
  (raise_level c.1 e) <| compact_cursors_ := compact_cursors_ e ++ [c] |>.
Definition add_deleted (e : VersionEdit) (d : Z * Z) : VersionEdit := DeleteFile d.1 d.2 (raise_level d.1 e).
Definition levels_max {A} (m : Z) (l : list (Z * A)) : Z := fold_left (fun m x => Z.max m x.1) l m.

Lemma fold_cursors l e : fold_left add_cursor l e =
  e <| compact_cursors_ := compact_cursors_ e ++ l |> <| max_level_ := levels_max (max_level_ e) l |>.
Proof.
  revert e. induction l as [| c l IH]; intros e; cbn [fold_left]; [destruct e; cbn; by rewrite app_nil_r |].
  rewrite IH. destruct e. cbn. by rewrite <- app_assoc.
Qed.
Lemma fold_stored ts_sz l e : fold_left (add_stored ts_sz) l e =
  e <| new_files_ := new_files_ e ++ map (fun x => (x.1, stored_file ts_sz x.2)) l |> <| max_level_ := levels_max (max_level_ e) l |>.
Proof.
  revert e. induction l as [| c l IH]; intros e; cbn [fold_left map]; [destruct e; cbn; by rewrite app_nil_r |].
  rewrite IH. destruct e. cbn. by rewrite <- app_assoc.
Qed.
Lemma deleted_files_emplace_last x s : Forall (fun y => file_before y x = true) s -> deleted_files_emplace x s = s ++ [x].
Proof.
  induction 1 as [| y s Hy _ IH]; cbn; [done |]. rewrite Hy, IH.
  assert (file_before x y = false) as -> by (unfold file_before in *; destruct_ifs; bool_to_prop; lia). done.
Qed.
Lemma fold_deleted l e : StronglySorted (fun a b => file_before a b = true) (deleted_files_ e ++ l) -> fold_left add_deleted l e =
  e <| deleted_files_ := deleted_files_ e ++ l |> <| max_level_ := levels_max (max_level_ e) l |>.
Proof.
  revert e. induction l as [| [level n] l IH]; intros e Hs; cbn [fold_left]; [destruct e; cbn; by rewrite app_nil_r |].
  assert (E : deleted_files_ (add_deleted e (level, n)) = deleted_files_ e ++ [(level, n)]).
  { cbn. apply deleted_files_emplace_last. apply list.Forall_forall. intros y Hy. apply StronglySorted_app in Hs as (Hs & _ & _).
    apply Hs; [done | by left]. }
  rewrite IH by (rewrite E, <- app_assoc; done). rewrite E. destruct e. cbn. by rewrite <- app_assoc.
Qed.

(** * Edits *)

Record edit_ok (ts_sz : Z) (e : VersionEdit) : Prop := {
  eo_strings : Forall (fun s => fits 32 (slen s))
    (option_list (db_id_ e) ++ option_list (comparator_ e) ++ [column_family_name_ e; full_history_ts_low_ e]);
  eo_numbers : Forall (fits 64) (option_list (log_number_ e) ++ option_list (prev_log_number_ e) ++ option_list (next_file_number_ e) ++
    option_list (min_log_number_to_keep_ e) ++ option_list (last_sequence_ e) ++ [wal_deletion_ e]);
  eo_small_numbers : Forall (fits 32) (option_list (max_column_family_ e) ++ [column_family_ e; remaining_entries_ e]);
  eo_cursors : Forall (fun c => level_ok c.1 /\ InternalKey_Valid c.2 = true /\ fits 32 (slen c.2)) (compact_cursors_ e);
  eo_deleted : Forall (fun d => level_ok d.1 /\ fits 64 d.2) (deleted_files_ e);
  eo_deleted_set : StronglySorted (fun a b => file_before a b = true) (deleted_files_ e);
  eo_files : Forall (fun x => level_ok x.1 /\ file_ok ts_sz x.2) (new_files_ e);
  eo_blobs : Forall blob_addition_ok (blob_file_additions_ e);
  eo_garbages : Forall blob_garbage_ok (blob_file_garbages_ e);
  eo_wals : Forall wal_ok (wal_additions_ e);
  eo_name : is_column_family_add_ e = false -> column_family_name_ e = [];
  eo_group : is_in_atomic_group_ e = false -> remaining_entries_ e = 0;
}.

(** What is decoded into the edit [prev]. *)
Definition decoded (ts_sz : Z) (prev e : VersionEdit) : VersionEdit :=
  e <| max_level_ := levels_max (levels_max (levels_max 0 (compact_cursors_ e)) (deleted_files_ e)) (new_files_ e) |>
    <| new_files_ := map (fun x => (x.1, stored_file ts_sz x.2)) (new_files_ e) |>
    <| persist_user_defined_timestamps_ :=
         match persist_user_defined_timestamps_ e with Some p => Some p | None => persist_user_defined_timestamps_ prev end |>
    <| files_to_quarantine_ := files_to_quarantine_ prev ++ map blob_file_number_ (blob_file_additions_ e) |>.

(** After the fields up to the deleted files. *)
Definition after_header (prev e : VersionEdit) : VersionEdit :=
  (VersionEdit_Clear prev) <| db_id_ := db_id_ e |> <| comparator_ := comparator_ e |> <| log_number_ := log_number_ e |>
    <| prev_log_number_ := prev_log_number_ e |> <| next_file_number_ := next_file_number_ e |>
    <| max_column_family_ := max_column_family_ e |> <| min_log_number_to_keep_ := min_log_number_to_keep_ e |>
    <| last_sequence_ := last_sequence_ e |> <| compact_cursors_ := compact_cursors_ e |> <| deleted_files_ := deleted_files_ e |>
    <| max_level_ := levels_max (levels_max 0 (compact_cursors_ e)) (deleted_files_ e) |>.

(** The edit with all updates done. *)
Ltac edit_normal := cbv beta iota delta [update VersionEdit_Clear NewVersionEdit max_level_ db_id_ comparator_ log_number_
  prev_log_number_ next_file_number_ max_column_family_ min_log_number_to_keep_ last_sequence_ compact_cursors_ deleted_files_
  new_files_ blob_file_additions_ blob_file_garbages_ wal_additions_ wal_deletion_ column_family_ is_column_family_add_
  is_column_family_drop_ column_family_name_ is_in_atomic_group_ remaining_entries_ full_history_ts_low_
  persist_user_defined_timestamps_ files_to_quarantine_].
Lemma fields_eq b e e1 e2 : fields b e e1 -> e1 = e2 -> fields b e e2.
Proof. by intros ? ->. Qed.
Lemma option_list_Forall {A} (P : A -> Prop) x a : Forall P (option_list x) -> x = Some a -> P a.
Proof. intros Hx ->. by apply list.Forall_cons in Hx as [? _]. Qed.

Lemma fields_header ts_sz prev e : edit_ok ts_sz e -> fields (encode_header e) (VersionEdit_Clear prev) (after_header prev e).
Proof.
  intros [Hst Hnum Hsm Hcur Hdel Hset _ _ _ _ _ _]. rewrite !list.Forall_app in Hst. rewrite !list.Forall_app in Hnum. rewrite !list.Forall_app in Hsm.
  destruct Hst as (Hst1 & Hst2 & _), Hnum as (Hn1 & Hn2 & Hn3 & Hn4 & Hn5 & _), Hsm as (Hs1 & _). unfold encode_header, after_header.
  destruct prev, e. edit_normal. cbn in Hst1, Hst2, Hn1, Hn2, Hn3, Hn4, Hn5, Hs1, Hcur, Hdel, Hset.
  eapply fields_app; [apply (fields_option _ _ _ _ (fun x e => e <| VersionEdit.db_id_ := x |>)); [small_fits | | done] | edit_normal].
  { intros a Ha. apply (decodes_string _ _ _ (fun s e => e <| VersionEdit.db_id_ := Some s |>)); [exact (option_list_Forall _ _ _ Hst1 Ha) | done]. }
  eapply fields_app; [apply (fields_option _ _ _ _ (fun x e => e <| VersionEdit.comparator_ := x |>)); [small_fits | | done] | edit_normal].
  { intros a Ha. apply (decodes_string _ _ _ (fun s e => e <| VersionEdit.comparator_ := Some s |>)); [exact (option_list_Forall _ _ _ Hst2 Ha) | done]. }
  eapply fields_app; [apply (fields_option _ _ _ _ (fun x e => e <| VersionEdit.log_number_ := x |>)); [small_fits | | done] | edit_normal].
  { intros a Ha. apply (decodes_number _ _ _ (fun s e => e <| VersionEdit.log_number_ := Some s |>)); [exact (option_list_Forall _ _ _ Hn1 Ha) | done]. }
  eapply fields_app; [apply (fields_option _ _ _ _ (fun x e => e <| VersionEdit.prev_log_number_ := x |>)); [small_fits | | done] | edit_normal].
  { intros a Ha. apply (decodes_number _ _ _ (fun s e => e <| VersionEdit.prev_log_number_ := Some s |>)); [exact (option_list_Forall _ _ _ Hn2 Ha) | done]. }
  eapply fields_app; [apply (fields_option _ _ _ _ (fun x e => e <| VersionEdit.next_file_number_ := x |>)); [small_fits | | done] | edit_normal].
  { intros a Ha. apply (decodes_number _ _ _ (fun s e => e <| VersionEdit.next_file_number_ := Some s |>)); [exact (option_list_Forall _ _ _ Hn3 Ha) | done]. }
  eapply fields_app; [apply (fields_option _ _ _ _ (fun x e => e <| VersionEdit.max_column_family_ := x |>)); [small_fits | | done] | edit_normal].
  { intros a Ha. apply (decodes_number32 _ _ _ (fun s e => e <| VersionEdit.max_column_family_ := Some s |>)); [exact (option_list_Forall _ _ _ Hs1 Ha) | done]. }
  eapply fields_app; [apply (fields_option _ _ _ _ (fun x e => e <| VersionEdit.min_log_number_to_keep_ := x |>)); [small_fits | | done] | edit_normal].
  { intros a Ha. apply (decodes_number _ _ _ (fun s e => e <| VersionEdit.min_log_number_to_keep_ := Some s |>)); [exact (option_list_Forall _ _ _ Hn4 Ha) | done]. }
  eapply fields_app; [apply (fields_option _ _ _ _ (fun x e => e <| VersionEdit.last_sequence_ := x |>)); [small_fits | | done] | edit_normal].
  { intros a Ha. apply (decodes_number _ _ _ (fun s e => e <| VersionEdit.last_sequence_ := Some s |>)); [exact (option_list_Forall _ _ _ Hn5 Ha) | done]. }
  eapply fields_app.
  - apply (fields_list _ add_cursor). eapply list.Forall_impl; [apply Hcur |]. intros [level k] (Hl & Hv & Hk) e'. cbn [fst snd] in *.
    rewrite Hv. cbn [when]. apply fields_one; [small_fits |].
    change (decode_field Tag.kCompactCursor) with (level ← GetLevel; key ← GetInternalKey;
      modify (fun e => e <| VersionEdit.compact_cursors_ := VersionEdit.compact_cursors_ e ++ [(level, key)] |>)).
    eapply decodes_bind; [by apply decodes_level |]. eapply decodes_last; [by apply decodes_key |]. by intros rest.
  - rewrite fold_cursors. edit_normal. eapply fields_eq.
    + apply (fields_list _ add_deleted). eapply list.Forall_impl; [apply Hdel |]. intros [level n] (Hl & Hn) e'. cbn [fst snd] in *.
      apply fields_one; [small_fits |].
      change (decode_field Tag.kDeletedFile) with (level ← GetLevel; number ← read GetVarint64; modify (DeleteFile level number)).
      eapply decodes_bind; [by apply decodes_level |]. eapply decodes_last; [by apply decodes_varint64 |]. by intros rest.
    + rewrite fold_deleted by exact Hset.
      by edit_normal.
Qed.

Lemma fold_blobs l e : fold_left (fun e b => AddBlobFile b e) l e =
  e <| blob_file_additions_ := blob_file_additions_ e ++ l |> <| files_to_quarantine_ := files_to_quarantine_ e ++ map blob_file_number_ l |>.
Proof.
  revert e. induction l as [| b l IH]; intros e; cbn [fold_left map]; [destruct e; cbn; by rewrite !app_nil_r |].
  rewrite IH. destruct e. cbn. by rewrite <- !app_assoc.
Qed.
Lemma fold_garbages l e : fold_left (fun e b => AddBlobFileGarbage b e) l e = e <| blob_file_garbages_ := blob_file_garbages_ e ++ l |>.
Proof.
  revert e. induction l as [| b l IH]; intros e; cbn [fold_left]; [destruct e; cbn; by rewrite app_nil_r |].
  rewrite IH. destruct e. cbn. by rewrite <- app_assoc.
Qed.
Lemma fold_wals l e : fold_left (fun e w => AddWal w e) l e = e <| wal_additions_ := wal_additions_ e ++ l |>.
Proof.
  revert e. induction l as [| b l IH]; intros e; cbn [fold_left]; [destruct e; cbn; by rewrite app_nil_r |].
  rewrite IH. destruct e. cbn. by rewrite <- app_assoc.
Qed.
Lemma slen_WalAddition w : fits 32 (slen (WalAddition_EncodeTo w)).
Proof.
  unfold WalAddition_EncodeTo, when. pose proof (slen_varint64_bounds (number_ w)). pose proof (slen_varint64_bounds (synced_size_bytes_ w)).
  pose proof (slen_EncodeVarint32_bounds 2). pose proof (slen_EncodeVarint32_bounds 1). unfold fits. destruct_ifs; rewrite ?slen_app; slia.
Qed.

(** After the new files. *)
Definition after_files (ts_sz : Z) (prev e : VersionEdit) : VersionEdit :=
  let e1 := after_header prev e in
  e1 <| new_files_ := map (fun x => (x.1, stored_file ts_sz x.2)) (new_files_ e) |> <| max_level_ := levels_max (max_level_ e1) (new_files_ e) |>.
Lemma fields_files ts_sz prev e : edit_ok ts_sz e -> let r := encode_new_files ts_sz (min_log_number_to_keep_ e) (new_files_ e) in
  r.1 = true /\ fields r.2 (after_header prev e) (after_files ts_sz prev e).
Proof.
  intros [_ Hnum _ _ _ _ Hfiles _ _ _ _ _]. destruct (fields_new_files ts_sz (new_files_ e) (min_log_number_to_keep_ e) (after_header prev e) Hfiles)
    as [H1 H2]; [by right | |].
  - intros n En. rewrite !list.Forall_app in Hnum. exact (option_list_Forall _ _ _ (proj1 (proj2 (proj2 (proj2 Hnum)))) En).
  - split; [exact H1 |]. rewrite fold_stored in H2. exact H2.
Qed.

Lemma decodes_flag_byte p e : decodes (decode_field Tag.kPersistUserDefinedTimestamps) (length_prefixed [if p : bool then Byte.x01 else Byte.x00]) e tt
  (e <| persist_user_defined_timestamps_ := Some p |>).
Proof. eapply decodes_last; [apply decodes_slice; by small_fits |]. by destruct p; intros rest. Qed.
Lemma decodes_wal2 w e : wal_ok w -> decodes (decode_field Tag.kWalAddition2) (length_prefixed (WalAddition_EncodeTo w)) e tt (AddWal w e).
Proof.
  intros Hw. eapply decodes_last; [apply decodes_slice, slen_WalAddition |].
  eapply (decodes_last _ _ [] e); [by apply decodes_inside, decodes_wal | apply decodes_modify].
Qed.
Lemma decodes_wal_deletion2 n e : fits 64 n ->
  decodes (decode_field Tag.kWalDeletion2) (length_prefixed (WalDeletion_EncodeTo n)) e tt (e <| wal_deletion_ := n |>).
Proof.
  intros Hn. eapply decodes_last.
  - apply decodes_slice, slen_varint64.
  - eapply (decodes_last _ _ [] e); [by apply decodes_inside, decodes_varint64 | apply decodes_modify].
Qed.

(** The blob files, the garbage and the logs. *)
Lemma fields_parts bl ga wa rest e e' : Forall blob_addition_ok bl -> Forall blob_garbage_ok ga -> Forall wal_ok wa ->
  fields rest (e <| blob_file_additions_ := blob_file_additions_ e ++ bl |>
    <| files_to_quarantine_ := files_to_quarantine_ e ++ map blob_file_number_ bl |> <| blob_file_garbages_ := blob_file_garbages_ e ++ ga |>
    <| wal_additions_ := wal_additions_ e ++ wa |>) e' ->
  fields (concat (map (fun b => EncodeVarint32 Tag.kBlobFileAddition ++ BlobFileAddition_EncodeTo b) bl) ++
    concat (map (fun b => EncodeVarint32 Tag.kBlobFileGarbage ++ BlobFileGarbage_EncodeTo b) ga) ++
    concat (map (fun w => EncodeVarint32 Tag.kWalAddition2 ++ length_prefixed (WalAddition_EncodeTo w)) wa) ++ rest) e e'.
Proof.
  intros Hbl Hga Hwa Hrest. eapply fields_app.
  { apply (fields_list _ (fun e b => AddBlobFile b e)). eapply list.Forall_impl; [apply Hbl |]. intros b Hb e1.
    apply fields_one; [small_fits |]. eapply decodes_last; [by apply decodes_blob_addition | apply decodes_modify]. }
  rewrite fold_blobs. eapply fields_app.
  { apply (fields_list _ (fun e b => AddBlobFileGarbage b e)). eapply list.Forall_impl; [apply Hga |]. intros b Hb e1.
    apply fields_one; [small_fits |]. eapply decodes_last; [by apply decodes_blob_garbage | apply decodes_modify]. }
  rewrite fold_garbages. eapply fields_app.
  { apply (fields_list _ (fun e w => AddWal w e)). eapply list.Forall_impl; [apply Hwa |]. intros w Hw e1.
    apply fields_one; [small_fits | by apply decodes_wal2]. }
  rewrite fold_wals. destruct e. exact Hrest.
Qed.
Lemma fields_trailer ts_sz prev e : edit_ok ts_sz e -> fields (encode_trailer e) (after_files ts_sz prev e) (decoded ts_sz prev e).
Proof.
  intros [Hst Hnum Hsm _ _ _ _ Hbl Hga Hwa Hname Hgroup]. rewrite !list.Forall_app, !list.Forall_cons in Hst. rewrite !list.Forall_app, !list.Forall_cons in Hnum.
  rewrite !list.Forall_app, !list.Forall_cons in Hsm.
  destruct Hst as (_ & _ & Hcfn & Hts & _), Hnum as (_ & _ & _ & _ & _ & Hdel & _), Hsm as (_ & Hcf & Hrem & _).
  unfold encode_trailer, after_files, after_header, decoded. destruct prev, e. edit_normal.
  cbn in Hcfn, Hts, Hdel, Hcf, Hrem, Hbl, Hga, Hwa, Hname, Hgroup.
  apply fields_parts; [done | done | done |]. edit_normal. eapply fields_app.
  { eapply fields_when; [small_fits | by intros _; apply decodes_wal_deletion2 |].
    intros Hd%negb_false_iff%Z.eqb_eq. cbn. by rewrite Hd. }
  edit_normal. eapply fields_app.
  { eapply fields_when; [small_fits | intros _; by apply (decodes_number32 _ _ _ (fun n e => e <| VersionEdit.column_family_ := n |>)) |].
    intros Hd%negb_false_iff%Z.eqb_eq. cbn. by rewrite Hd. }
  edit_normal. eapply fields_app.
  { apply (fields_flag _ _ _ _ (fun c e => e <| VersionEdit.is_column_family_add_ := c |>
      <| VersionEdit.column_family_name_ := column_family_name_0 |>)); [small_fits | |].
    - intros _. by apply (decodes_string _ _ _ (fun str e => e <| VersionEdit.is_column_family_add_ := true |>
        <| VersionEdit.column_family_name_ := str |>)).
    - intros Hc. by rewrite (Hname Hc). }
  edit_normal. eapply fields_app.
  { rewrite <- (app_nil_r (EncodeVarint32 Tag.kColumnFamilyDrop)).
    apply (fields_flag _ _ _ _ (fun c e => e <| VersionEdit.is_column_family_drop_ := c |>)); [small_fits | by intros _ rest | done]. }
  edit_normal. eapply fields_app.
  { apply (fields_flag _ _ _ _ (fun c e => e <| VersionEdit.is_in_atomic_group_ := c |>
      <| VersionEdit.remaining_entries_ := remaining_entries_0 |>)); [small_fits | |].
    - intros _. eapply (decodes_bind _ _ []); [apply decodes_modify |]. eapply decodes_last; [by apply decodes_varint32 | apply decodes_modify].
    - intros Hc. by rewrite (Hgroup Hc). }
  edit_normal. eapply fields_app.
  { eapply fields_when; [small_fits | |].
    - intros Hc%negb_true_iff. eapply decodes_last; [by apply decodes_slice |]. rewrite Hc. apply decodes_modify.
    - intros Hd%negb_false_iff%bool_decide_eq_true. cbn. by rewrite Hd. }
  edit_normal. eapply fields_eq.
  - apply (fields_option _ _ _ _ (fun p e => match p with None => e | Some _ => e <| VersionEdit.persist_user_defined_timestamps_ := p |> end));
      [small_fits | | done]. intros p _. apply decodes_flag_byte.
  - by destruct persist_user_defined_timestamps_0.
Qed.
