(* ===== verification/VersionEditTheorems.v ===== *)
(** The decoder of version edits: what it reads depends on nothing behind it, its loops end, and it gives
    back what was encoded. *)

From stdpp Require Import gmap sorting.
From S2P Require Import Prelude Coding DbFormat Status VersionEdit VersionEditProofs.

Open Scope record_scope.

(** * What a decoder reads *)

(** A decoder that succeeds has read a prefix of the input, and reads the same whatever follows. *)
Definition reads {A} (m : Decode A) : Prop := forall e input e' x rest, m e input = (e', Some (x, rest)) ->
  exists b, input = b ++ rest /\ decodes m b e x e'.
(** It has read at least one byte. *)
Definition advances {A} (m : Decode A) : Prop := forall e input e' x rest, m e input = (e', Some (x, rest)) ->
  (length rest < length input)%nat.
(** Routines of util/coding.h. *)
Definition splits {A} (get : bytes -> option (A * bytes)) : Prop := forall input x rest, get input = Some (x, rest) ->
  exists b, input = b ++ rest /\ b <> [] /\ forall rest', get (b ++ rest') = Some (x, rest').

Section VarintLoop.
Variables (loop : Z -> Z -> bytes -> option (Z * bytes)) (limit : Z) (more : byte -> bool) (low all : Z -> Z -> byte -> Z).
Hypothesis loop_nil : forall shift result, loop shift result [] = None.
Hypothesis loop_cons : forall shift result c p, loop shift result (c :: p) =
  if shift <=? limit then if more c then loop (shift + 7) (low shift result c) p else Some (all shift result c, p) else None.
Lemma loop_splits shift result : splits (loop shift result).
Proof using loop_nil loop_cons.
  intros p. revert shift result. induction p as [| c p IH]; intros shift result x rest E; [by rewrite loop_nil in E |].
  rewrite loop_cons in E. destruct (shift <=? limit) eqn:Es; [| done]. destruct (more c) eqn:En.
  - apply IH in E as (b & -> & Hb & Hr). exists (c :: b). split; [done |]. split; [done |]. intros rest'. cbn [app].
    by rewrite loop_cons, Es, En, Hr.
  - injection E as <- <-. exists [c]. split; [done |]. split; [done |]. intros rest'. cbn [app]. by rewrite loop_cons, Es, En.
Qed.
End VarintLoop.

Lemma GetVarint64_splits : splits GetVarint64.
Proof.
  refine (loop_splits GetVarint64Ptr_loop 63 (fun c => negb (Z.land (byte.unsigned c) 128 =? 0))
    (fun shift result c => Z.lor result (u64 (Z.shiftl (Z.land (byte.unsigned c) 127) shift)))
    (fun shift result c => Z.lor result (u64 (Z.shiftl (byte.unsigned c) shift))) _ _ 0 0); done.
Qed.
Lemma GetVarint32_splits : splits GetVarint32.
Proof.
  assert (L : splits GetVarint32PtrFallback).
  { refine (loop_splits GetVarint32PtrFallback_loop 28 (fun c => negb (Z.land (byte.unsigned c) 128 =? 0))
      (fun shift result c => Z.lor result (u32 (Z.shiftl (Z.land (byte.unsigned c) 127) shift)))
      (fun shift result c => Z.lor result (u32 (Z.shiftl (byte.unsigned c) shift))) _ _ 0 0); done. }
  intros [| c p] x rest E; [done |]. unfold GetVarint32, GetVarint32Ptr in E. destruct (_ =? 0) eqn:Ec.
  - injection E as <- <-. exists [c]. split; [done |]. split; [done |]. intros rest'. cbn. by rewrite Ec.
  - apply L in E as (b & Eb & Hb & Hr). exists b. split; [done |]. split; [done |]. intros rest'. destruct b as [| c' b]; [done |].
    cbn in Eb. injection Eb as <- _. unfold GetVarint32, GetVarint32Ptr. cbn [app]. rewrite Ec. apply Hr.
Qed.
Lemma GetLengthPrefixedSlice_splits : splits GetLengthPrefixedSlice.
Proof.
  intros input x rest. unfold GetLengthPrefixedSlice. destruct (GetVarint32 input) as [[len s] |] eqn:E; [| done].
  apply GetVarint32_splits in E as (b & -> & Hb & Hr). destruct (Z.geb_spec (slen s) len) as [El | _]; [| done]. intros [= <- <-].
  exists (b ++ stake len s). rewrite <- app_assoc. split; [by rewrite stake_sdrop |]. split; [by destruct b |].
  intros rest'. rewrite <- app_assoc, Hr. destruct (Z.le_gt_cases len 0) as [Hn | Hp].
  - rewrite !(stake_le0 len), (sdrop_le0 len) by done. rewrite (proj2 (Z.geb_le _ _)) by slia. done.
  - assert (El' : slen (stake len s) = len) by (rewrite slen_stake; lia).
    rewrite (proj2 (Z.geb_le _ _)) by slia. by rewrite stake_app_exact, sdrop_app_exact.
Qed.

Create HintDb reads.

Lemma reads_ret {A} (x : A) : reads (mret x).
Proof. intros e i e' y r [= <- <- <-]. exists []. split; [done | apply decodes_ret]. Qed.
Lemma reads_fail {A} : reads (@fail A).
Proof. by intros e i e' y r. Qed.
Lemma reads_modify f : reads (modify f).
Proof. intros e i e' [] r [= <- <-]. exists []. split; [done | apply decodes_modify]. Qed.
Lemma reads_read {A} (get : bytes -> option (A * bytes)) : splits get -> reads (read get).
Proof. intros Hg e i e' x r [= <- E]. apply Hg in E as (b & -> & _ & Hr). exists b. split; [done |]. intros rest. unfold read. by rewrite Hr. Qed.
Lemma reads_bind {A B} (m : Decode A) (k : A -> Decode B) : reads m -> (forall x, reads (k x)) -> reads (m ≫= k).
Proof.
  intros Hm Hk e i e' y r. unfold mbind, Decode_bind. destruct (m e i) as [e1 [[x i1] |]] eqn:E; [| done]. intros E2.
  apply Hm in E as (b & -> & Hb). apply Hk in E2 as (b' & -> & Hb'). exists (b ++ b'). split; [by rewrite app_assoc |].
  by apply (decodes_bind _ _ _ _ _ e1 _ x).
Qed.
Lemma reads_inside {A} (field : bytes) (m : Decode A) : reads (inside field m).
Proof.
  intros e i e' x r. unfold inside. destruct (m e field) as [e1 [[y s] |]] eqn:E; intros [= <- <- <-].
  exists []. split; [done |]. intros rest. unfold inside. by rewrite E.
Qed.
Lemma reads_or_fail {A} (x : option A) : reads (or_fail x).
Proof. destruct x; [apply reads_ret | apply reads_fail]. Qed.
Lemma reads_if {A} (c : bool) (m m' : Decode A) : reads m -> reads m' -> reads (if c then m else m').
Proof. by destruct c. Qed.

Lemma advances_bind {A B} (m : Decode A) (k : A -> Decode B) : reads m -> advances m -> (forall x, reads (k x)) -> advances (m ≫= k).
Proof.
  intros Hm Ha Hk e i e' y r. unfold mbind, Decode_bind. destruct (m e i) as [e1 [[x i1] |]] eqn:E; [| done]. intros E2.
  apply Ha in E. apply Hk in E2 as (b' & -> & _). rewrite length_app in E. lia.
Qed.
Lemma advances_read {A} (get : bytes -> option (A * bytes)) : splits get -> advances (read get).
Proof. intros Hg e i e' x r [= <- E]. apply Hg in E as (b & -> & Hb & _). destruct b; [done |]. cbn. rewrite length_app. lia. Qed.

#[export] Hint Resolve GetVarint32_splits GetVarint64_splits GetLengthPrefixedSlice_splits : reads.
#[export] Hint Resolve reads_ret reads_fail reads_modify reads_read reads_bind reads_inside reads_or_fail reads_if : reads.

(** * Loops *)

Section Loop.
Context {S : Type} (body : S -> Decode (S * bool)).
Hypothesis body_reads : forall s, reads (body s).
Hypothesis body_advances : forall s, advances (body s).

(** The length of the input is enough fuel. *)
Lemma decode_rounds_fuel f1 : forall f2 s e i, (length i < f1)%nat -> (length i < f2)%nat ->
  decode_rounds f1 body s e i = decode_rounds f2 body s e i.
Proof using body_advances.
  induction f1 as [| f1 IH]; intros [| f2] s e i H1 H2; [lia | lia | lia |]. cbn. unfold mbind, Decode_bind.
  destruct (body s e i) as [e1 [[[s1 []] i1] |]] eqn:E; cbn; [| done | done]. apply body_advances in E. apply IH; lia.
Qed.
Lemma decode_rounds_reads fuel : forall s e i e' x r, decode_rounds fuel body s e i = (e', Some (x, r)) ->
  exists b, i = b ++ r /\ forall fuel' rest, (length b <= fuel')%nat -> decode_rounds (Datatypes.S fuel') body s e (b ++ rest) = (e', Some (x, rest)).
Proof using body_reads body_advances.
  induction fuel as [| fuel IH]; intros s e i e' x r; [done |]. cbn. unfold mbind, Decode_bind.
  destruct (body s e i) as [e1 [[[s1 go] i1] |]] eqn:E; cbn; [| done]. pose proof (body_advances _ _ _ _ _ _ E) as Hlt.
  apply body_reads in E as (b & -> & Hb). destruct go; cbn.
  - intros (b' & -> & Hr)%IH. exists (b ++ b'). split; [by rewrite app_assoc |]. intros fuel' rest Hf. rewrite length_app in Hf. rewrite !length_app in Hlt.
    rewrite <- app_assoc. cbn. unfold mbind, Decode_bind. rewrite Hb. cbn. destruct fuel' as [| fuel']; [lia |]. apply Hr. lia.
  - intros [= <- <- <-]. exists b. split; [done |]. intros fuel' rest _. cbn. unfold mbind, Decode_bind. by rewrite Hb.
Qed.
Lemma reads_loop s : reads (decode_loop body s).
Proof using body_reads body_advances.
  intros e i e' x r (b & -> & Hr)%decode_rounds_reads. exists b. split; [done |]. intros rest. unfold decode_loop. apply Hr.
  rewrite length_app. lia.
Qed.
End Loop.

(** * The fields *)

Lemma BlobFileAddition_custom_reads u : reads (BlobFileAddition_custom u).
Proof. unfold BlobFileAddition_custom. auto 10 with reads. Qed.
Lemma BlobFileAddition_custom_advances u : advances (BlobFileAddition_custom u).
Proof. apply advances_bind; [| apply advances_read |]; auto 10 with reads. Qed.
Lemma WalAddition_tag_reads size : reads (WalAddition_tag size).
Proof. unfold WalAddition_tag. auto 10 with reads. Qed.
Lemma WalAddition_tag_advances size : advances (WalAddition_tag size).
Proof. apply advances_bind; [| apply advances_read |]; auto 10 with reads. Qed.
Lemma decode_custom_field_reads tag field path_id f : reads (decode_custom_field tag field path_id f).
Proof. unfold decode_custom_field. auto 40 with reads. Qed.
#[export] Hint Resolve BlobFileAddition_custom_reads BlobFileAddition_custom_advances WalAddition_tag_reads WalAddition_tag_advances
  decode_custom_field_reads : reads.
Lemma NewFile4_custom_reads s : reads (NewFile4_custom s).
Proof. unfold NewFile4_custom. auto 10 with reads. Qed.
Lemma NewFile4_custom_advances s : advances (NewFile4_custom s).
Proof. apply advances_bind; [| apply advances_read |]; auto 10 with reads. Qed.
#[export] Hint Resolve reads_loop NewFile4_custom_reads NewFile4_custom_advances : reads.

Lemma GetLevel_reads : reads GetLevel.
Proof. unfold GetLevel. auto 10 with reads. Qed.
Lemma GetInternalKey_reads : reads GetInternalKey.
Proof. unfold GetInternalKey. auto 10 with reads. Qed.
Lemma BlobFileAddition_reads : reads BlobFileAddition_DecodeFrom.
Proof. unfold BlobFileAddition_DecodeFrom. auto 20 with reads. Qed.
Lemma BlobFileGarbage_reads : reads BlobFileGarbage_DecodeFrom.
Proof. unfold BlobFileGarbage_DecodeFrom. auto 20 with reads. Qed.
Lemma WalAddition_reads : reads WalAddition_DecodeFrom.
Proof. unfold WalAddition_DecodeFrom. auto 20 with reads. Qed.
#[export] Hint Resolve GetLevel_reads GetInternalKey_reads BlobFileAddition_reads BlobFileGarbage_reads WalAddition_reads : reads.
Lemma push_new_file_reads level number path_id size s l f : reads (push_new_file level number path_id size s l f).
Proof. apply reads_modify. Qed.
#[export] Hint Resolve push_new_file_reads : reads.
Lemma DecodeNewFile4From_reads : reads DecodeNewFile4From.
Proof. unfold DecodeNewFile4From. auto 20 with reads. Qed.
#[export] Hint Resolve DecodeNewFile4From_reads : reads.
Lemma decode_field_reads tag : reads (decode_field tag).
Proof. unfold decode_field, WalDeletion_DecodeFrom. auto 50 with reads. Qed.
#[export] Hint Resolve decode_field_reads : reads.

Lemma decode_fields_fuel f1 : forall f2 e i, (length i < f1)%nat -> (length i < f2)%nat -> decode_fields f1 e i = decode_fields f2 e i.
Proof.
  induction f1 as [| f1 IH]; intros [| f2] e i H1 H2; [lia | lia | lia |]. cbn [decode_fields].
  destruct (GetVarint32 i) as [[tag i1] |] eqn:Eg; [| done]. apply GetVarint32_splits in Eg as (b & -> & Hb & _).
  destruct (decode_field tag e i1) as [e1 [[[] i2] |]] eqn:Ed; [| done]. apply decode_field_reads in Ed as (b1 & -> & _).
  rewrite !length_app in H1. rewrite !length_app in H2. destruct b; [done |]. cbn in H1, H2. apply IH; lia.
Qed.
(** Fields that are decoded are decoded the same when others follow. *)
Lemma decode_fields_app fuel : forall e b1 e1, decode_fields fuel e b1 = (Status_OK, e1) -> forall b2,
  decode_fields (Datatypes.S (length (b1 ++ b2))) e (b1 ++ b2) = decode_fields (Datatypes.S (length b2)) e1 b2.
Proof.
  induction fuel as [| fuel IH]; intros e b1 e1 E b2; cbn in E; [done |]. destruct (GetVarint32 b1) as [[tag i] |] eqn:Eg.
  - apply GetVarint32_splits in Eg as (b & -> & Hb & Hr).
    destruct (decode_field tag e i) as [e2 [[[] i2] |]] eqn:Ed; [| done]. apply decode_field_reads in Ed as (b' & -> & Hd).
    rewrite <- (IH _ _ _ E b2), <- !app_assoc. set (f := Datatypes.S (length (i2 ++ b2))). cbn [decode_fields]. rewrite Hr, Hd.
    apply decode_fields_fuel; [| unfold f; lia]. rewrite !length_app. destruct b; [done |]. cbn. lia.
  - destruct (bool_decide_reflect (b1 = [])) as [-> | _]; [| done]. by injection E as <-.
Qed.

(** A field this version of the code does not know but may ignore. *)
Definition ignorable (tag : Z) : Prop := fits 32 tag /\ Z.land tag Tag.kTagSafeIgnoreMask <> 0 /\
  Forall (fun known => tag <> known) [Tag.kDbId; Tag.kBlobFileAddition_DEPRECATED; Tag.kBlobFileGarbage_DEPRECATED; Tag.kWalAddition;
    Tag.kWalDeletion; Tag.kFullHistoryTsLow; Tag.kWalAddition2; Tag.kWalDeletion2; Tag.kPersistUserDefinedTimestamps].
Lemma decode_field_ignorable tag : ignorable tag -> decode_field tag = (_ ← read GetLengthPrefixedSlice; mret tt).
Proof.
  intros (_ & Hm & Hk). assert (Hsmall : forall k, Z.land k Tag.kTagSafeIgnoreMask = 0 -> (tag =? k) = false).
  { intros k Hk0. apply Z.eqb_neq. congruence. }
  rewrite !list.Forall_cons, <- !Z.eqb_neq in Hk. destruct Hk as (H1 & H2 & H3 & H4 & H5 & H6 & H7 & H8 & H9 & _).
  unfold decode_field. rewrite H1, H2, H3, H4, H5, H6, H7, H8, H9, !Hsmall by done. by rewrite (proj2 (Z.eqb_neq _ _) Hm).
Qed.

(** decoding a version edit always ends: no input exhausts the fuel of [decode_fields] and of the loops
    over customized fields, blob file fields and WAL tags, so that more fuel never changes a result. *)
Theorem version_edit_decoding_ends :
  (forall prev src fuel, (length src < fuel)%nat -> decode_fields fuel (VersionEdit_Clear prev) src = DecodeFrom prev src) /\
  (forall s e input fuel, (length input < fuel)%nat -> decode_rounds fuel NewFile4_custom s e input = decode_loop NewFile4_custom s e input) /\
  (forall s e input fuel, (length input < fuel)%nat ->
     decode_rounds fuel BlobFileAddition_custom s e input = decode_loop BlobFileAddition_custom s e input) /\
  (forall s e input fuel, (length input < fuel)%nat -> decode_rounds fuel WalAddition_tag s e input = decode_loop WalAddition_tag s e input).
Proof.
  repeat split; intros; [apply decode_fields_fuel; lia | | |]; apply decode_rounds_fuel; auto with reads; lia.
Qed.

(** an edit written by a newer version of the code can be read: a field with an unknown tag that has the
    safe-to-ignore bit is skipped wherever it stands between the fields of the edit, whatever its content. *)
Theorem unknown_fields_ignored prev b1 e1 tag content b2 : DecodeFrom prev b1 = (Status_OK, e1) -> ignorable tag -> fits 32 (slen content) ->
  DecodeFrom prev (b1 ++ (EncodeVarint32 tag ++ length_prefixed content) ++ b2) = DecodeFrom prev (b1 ++ b2).
Proof.
  intros E1 Ht Hc. unfold DecodeFrom in *. rewrite !(decode_fields_app _ _ _ _ E1). apply (decode_fields_app (Datatypes.S (length (EncodeVarint32 tag ++ length_prefixed content)))).
  apply decode_fields_done; [| lia]. apply fields_one; [apply Ht |]. rewrite decode_field_ignorable by done.
  eapply decodes_last; [by apply decodes_slice | apply decodes_ret].
Qed.
Lemma unknown_fields_ignored_witness : ignorable 8202 /\
  DecodeFrom NewVersionEdit ((EncodeVarint32 Tag.kLogNumber ++ EncodeVarint64 9) ++ (EncodeVarint32 8202 ++ length_prefixed [Byte.x01]) ++
    (EncodeVarint32 Tag.kNextFileNumber ++ EncodeVarint64 12)) =
  (Status_OK, NewVersionEdit <| log_number_ := Some 9 |> <| next_file_number_ := Some 12 |>).
Proof.
  assert (H : ignorable 8202) by (split; [small_fits | split; [done | repeat constructor; done]]). split; [exact H |].
  rewrite (unknown_fields_ignored _ _ (NewVersionEdit <| log_number_ := Some 9 |>)); [reflexivity | reflexivity | exact H | small_fits].
Defined.

(** An edit that is encoded is decoded. *)
Lemma encoded_decoded ts_sz e : edit_ok ts_sz e -> exists b, EncodeTo e (Some ts_sz) = Some (true, b) /\
  forall prev, DecodeFrom prev b = (Status_OK, decoded ts_sz prev e).
Proof.
  intros He. set (r := encode_new_files ts_sz (min_log_number_to_keep_ e) (new_files_ e)).
  exists (encode_header e ++ r.2 ++ encode_trailer e). split.
  - unfold EncodeTo. destruct (fields_files ts_sz NewVersionEdit e He) as [Hok _]. fold r in Hok.
    destruct (new_files_ e) as [| [level f] l] eqn:El; [done |]. fold r. destruct r as [ok s]. cbn in Hok. by subst ok.
  - intros prev. apply decode_fields_done; [| lia]. eapply fields_app; [by eapply fields_header |].
    eapply fields_app; [by apply fields_files | by apply fields_trailer].
Qed.

(** C19: a version edit is decoded as it was encoded: every field of an edit whose numbers fit their widths
    and whose files have valid bounds is read back, with the bounds of the files as they are stored (without the
    timestamps that are not persisted), the highest level, and the blob files to quarantine. *)
Theorem version_edit_roundtrip ts_sz e : edit_ok ts_sz e -> exists b, EncodeTo e (Some ts_sz) = Some (true, b) /\
  forall prev, DecodeFrom prev b = (Status_OK, decoded ts_sz prev e).
Proof. apply encoded_decoded. Qed.
Lemma version_edit_roundtrip_witness :
  let key c := [c; Byte.x00; Byte.x00; Byte.x00; Byte.x00; Byte.x00; Byte.x00; Byte.x00; Byte.x00] ++ EncodeFixed64 257 in
  let f := NewFileMetaData <| fd := MakeFileDescriptor 7 1 4096 1 1 |> <| smallest := key Byte.x61 |> <| largest := key Byte.x62 |>
    <| epoch_number := 3 |> <| unique_id := (5, 6) |> <| user_defined_timestamps_persisted := false |> in
  let e := NewVersionEdit <| comparator_ := Some [Byte.x63] |> <| log_number_ := Some 4 |> <| min_log_number_to_keep_ := Some 4 |>
    <| deleted_files_ := [(0, 3); (0, 5)] |> <| new_files_ := [(2, f)] |> <| wal_additions_ := [{| number_ := 8; synced_size_bytes_ := 100 |}] |>
    <| is_in_atomic_group_ := true |> <| remaining_entries_ := 1 |> in
  edit_ok 8 e /\ exists b, EncodeTo e (Some 8) = Some (true, b) /\ forall prev, DecodeFrom prev b = (Status_OK, decoded 8 prev e).
Proof.
  intros key f e. assert (He : edit_ok 8 e).
  { split; cbn; try done; repeat constructor; try done; cbn; try lia; small_fits. }
  split; [exact He | exact (version_edit_roundtrip 8 e He)].
Defined.
