(* ===== verification/VersionStorage.v ===== *)
(** db/version_set.{h,cc}, db/file_indexer.{h,cc}, db/blob/blob_file_meta.h: the files of a version,
    where they are, and which of them a key or a range of keys concerns.

    Levels and positions of files are indices. Sizes, scores and marks for compaction, the sampled
    statistics of files, the reference counts and the arena are not modelled. *)

From stdpp Require Import gmap sorting.
From S2P Require Import Prelude Cursor Algorithms Coding Comparator DbFormat Status VersionEdit.

Open Scope record_scope.

(** * Files and versions *)

Definition kUnknownEpochNumber : Z := 0.
Definition kInvalidBlobFileNumber : Z := 0.
Inductive EpochNumberRequirement := kMightMissing | kMustPresent.
#[global] Instance EpochNumberRequirement_eq_dec : EqDecision EpochNumberRequirement.
Proof. solve_decision. Defined.

(** [SharedBlobFileMetaData] is what is written when the file is added. *)
Record BlobFileMetaData := {
  shared_meta_ : BlobFileAddition;
  linked_ssts_ : gset Z;
  meta_garbage_count_ : Z;
  meta_garbage_bytes_ : Z;
}.
Definition GetBlobFileNumber (m : BlobFileMetaData) : Z := blob_file_number_ (shared_meta_ m).

Record FdWithKeyRange := {
  brief_fd : FileDescriptor;
  file_metadata : FileMetaData;
  smallest_key : bytes;
  largest_key : bytes;
}.
Definition LevelFilesBrief : Type := list FdWithKeyRange.

(** For a file of a level: bounds of where to search the next level for a key that compares like the
    smallest or the largest key of the file. *)
Record IndexUnit := { smallest_lb : Z; largest_lb : Z; smallest_rb : Z; largest_rb : Z }.
Definition NewIndexUnit : IndexUnit := {| smallest_lb := 0; largest_lb := 0; smallest_rb := -1; largest_rb := -1 |}.
Record FileIndexer := {
  indexer_levels_ : nat;
  next_level_index_ : list (list IndexUnit);
  level_rb_ : list Z;
}.
Definition NewFileIndexer : FileIndexer := {| indexer_levels_ := 0; next_level_index_ := []; level_rb_ := [] |}.

Record VersionStorageInfo := {
  num_levels_ : nat;
  force_consistency_checks_ : bool;
  epoch_number_requirement_ : EpochNumberRequirement;
  files_ : list (list FileMetaData);
  blob_files_ : list BlobFileMetaData;
  compact_cursor_ : list bytes;
  num_non_empty_levels_ : nat;
  file_indexer_ : FileIndexer;
  level_files_brief_ : list LevelFilesBrief;
  level0_non_overlapping_ : bool;
  bottommost_files_ : list (nat * FileMetaData);
  file_locations_ : gmap Z (nat * nat);
}.
#[global] Instance VersionStorageInfo_rebuild : Rebuild VersionStorageInfo := fun v =>
  {| num_levels_ := num_levels_ v; force_consistency_checks_ := force_consistency_checks_ v;
     epoch_number_requirement_ := epoch_number_requirement_ v; files_ := files_ v; blob_files_ := blob_files_ v;
     compact_cursor_ := compact_cursor_ v; num_non_empty_levels_ := num_non_empty_levels_ v; file_indexer_ := file_indexer_ v;
     level_files_brief_ := level_files_brief_ v; level0_non_overlapping_ := level0_non_overlapping_ v;
     bottommost_files_ := bottommost_files_ v; file_locations_ := file_locations_ v |}.

(** [std::vector::resize]. *)
Definition resize {A} (n : nat) (x : A) (l : list A) : list A := take n l ++ replicate (n - length l) x.
Definition NewVersionStorageInfo (levels : nat) (ref_vstorage : option VersionStorageInfo) (force_consistency_checks : bool)
    (requirement : EpochNumberRequirement) : VersionStorageInfo :=
  {| num_levels_ := levels; force_consistency_checks_ := force_consistency_checks; epoch_number_requirement_ := requirement;
     files_ := replicate levels []; blob_files_ := [];
     compact_cursor_ := match ref_vstorage with
                        | Some r => resize levels [] (compact_cursor_ r)
                        | None => replicate levels []
                        end;
     num_non_empty_levels_ := 0; file_indexer_ := NewFileIndexer; level_files_brief_ := []; level0_non_overlapping_ := false;
     bottommost_files_ := []; file_locations_ := ∅ |}.

Definition LevelFiles (v : VersionStorageInfo) (level : nat) : list FileMetaData := default [] (files_ v !! level).
Definition VersionStorageInfo_AddFile (level : nat) (f : FileMetaData) (v : VersionStorageInfo) : VersionStorageInfo :=
  v <| files_ := <[level := LevelFiles v level ++ [f]]> (files_ v) |>.
Definition VersionStorageInfo_AddBlobFile (m : BlobFileMetaData) (v : VersionStorageInfo) : VersionStorageInfo :=
  v <| blob_files_ := blob_files_ v ++ [m] |>.
Definition AddCursorForOneLevel (level : nat) (smallest_uncompacted_key : bytes) (v : VersionStorageInfo) : VersionStorageInfo :=
  v <| compact_cursor_ := <[level := smallest_uncompacted_key]> (compact_cursor_ v) |>.

(** The position of the first blob file whose number is not smaller. *)
Definition GetBlobFileMetaDataLB (v : VersionStorageInfo) (blob_file_number : Z) : nat :=
  lower_bound (fun m => GetBlobFileNumber m <? blob_file_number) (blob_files_ v) 0 (length (blob_files_ v)).
Definition GetBlobFileMetaData (v : VersionStorageInfo) (blob_file_number : Z) : option BlobFileMetaData :=
  match blob_files_ v !! GetBlobFileMetaDataLB v blob_file_number with
  | Some m => if GetBlobFileNumber m =? blob_file_number then Some m else None
  | None => None
  end.
Definition GetFileLocation (v : VersionStorageInfo) (file_number : Z) : option (nat * nat) := file_locations_ v !! file_number.
Definition GetFileMetaDataByNumber (v : VersionStorageInfo) (file_number : Z) : option FileMetaData :=
  match GetFileLocation v file_number with
  | Some (level, position) => LevelFiles v level !! position
  | None => None
  end.

(** * Epoch numbers *)

Definition HasMissingEpochNumber (v : VersionStorageInfo) : bool :=
  existsb (fun level => existsb (fun f => epoch_number f =? kUnknownEpochNumber) (LevelFiles v level)) (seq 0 (num_levels_ v)).
Definition GetMaxEpochNumberOfFiles (v : VersionStorageInfo) : Z :=
  fold_left (fun m f => Z.max m (epoch_number f)) (concat (map (LevelFiles v) (seq 0 (num_levels_ v)))) kUnknownEpochNumber.

(** Levels from [level] down to 1: each level that has files gets one number. The column family is its next
    epoch number. *)
Fixpoint renumber_levels (level : nat) (next_epoch : Z) (v : VersionStorageInfo) : Z * VersionStorageInfo :=
  match level with
  | O => (next_epoch, v)
  | S below =>
      match LevelFiles v level with
      | [] => renumber_levels below next_epoch v
      | fs => renumber_levels below (u64 (next_epoch + 1))
                (v <| files_ := <[level := map (fun f => f <| epoch_number := next_epoch |>) fs]> (files_ v) |>)
      end
  end.
(** Level 0 from its last file, the oldest, to its first. *)
Fixpoint renumber_level0 (fs : list FileMetaData) (next_epoch : Z) : Z * list FileMetaData :=
  match fs with
  | [] => (next_epoch, [])
  | f :: fs =>
      let '(next_epoch, fs) := renumber_level0 fs next_epoch in
      (u64 (next_epoch + 1), f <| epoch_number := next_epoch |> :: fs)
  end.
Definition kFirstEpochNumber : Z := 1.
Definition RecoverEpochNumbers (v : VersionStorageInfo) (next_epoch : Z) (allow_ingest_behind restart_epoch force : bool) :
    Z * VersionStorageInfo :=
  let next_epoch := if restart_epoch then if allow_ingest_behind then kFirstEpochNumber + 1 else kFirstEpochNumber else next_epoch in
  let missing_epoch_number := HasMissingEpochNumber v in
  if missing_epoch_number || force then
    let '(next_epoch, v) := renumber_levels (num_levels_ v - 1) next_epoch v in
    let '(next_epoch, fs) := renumber_level0 (LevelFiles v 0) next_epoch in
    let v := v <| files_ := <[0%nat := fs]> (files_ v) |> in
    (next_epoch, if missing_epoch_number then v <| epoch_number_requirement_ := kMustPresent |> else v)
  else (Z.max (u64 (GetMaxEpochNumberOfFiles v + 1)) next_epoch, v).

(** * Searching a level *)

Section Search.
Context {C : Comparator} {TC : TimestampComparator C}.

Definition FindFileInRange (file_level : LevelFilesBrief) (key : bytes) (left right : nat) : nat :=
  lower_bound (fun f => InternalKeyComparator_Compare (largest_key f) key <? 0) file_level left right.
Definition FindFile (file_level : LevelFilesBrief) (key : bytes) : nat := FindFileInRange file_level key 0 (length file_level).

Definition MakeFdWithKeyRange (f : FileMetaData) : FdWithKeyRange :=
  {| brief_fd := fd f; file_metadata := f; smallest_key := smallest f; largest_key := largest f |}.
Definition DoGenerateLevelFilesBrief (files : list FileMetaData) : LevelFilesBrief := map MakeFdWithKeyRange files.

(** A user key that is not given comes before all keys for [AfterFile], after all keys for [BeforeFile]. *)
Definition AfterFile (user_key : option bytes) (f : FdWithKeyRange) : bool :=
  match user_key with
  | Some k => CompareWithoutTimestamp k (ExtractUserKey (largest_key f)) >? 0
  | None => false
  end.
Definition BeforeFile (user_key : option bytes) (f : FdWithKeyRange) : bool :=
  match user_key with
  | Some k => CompareWithoutTimestamp k (ExtractUserKey (smallest_key f)) <? 0
  | None => false
  end.
Definition SomeFileOverlapsRange (disjoint_sorted_files : bool) (file_level : LevelFilesBrief)
    (smallest_user_key largest_user_key : option bytes) : bool :=
  if negb disjoint_sorted_files then
    existsb (fun f => negb (AfterFile smallest_user_key f || BeforeFile largest_user_key f)) file_level
  else
    let index := match smallest_user_key with
                 | Some k => FindFile file_level (SetMinPossibleForUserKey [] k)
                 | None => O
                 end in
    match file_level !! index with
    | Some f => negb (BeforeFile largest_user_key f)
    | None => false
    end.
Definition OverlapInLevel (v : VersionStorageInfo) (level : nat) (smallest_user_key largest_user_key : option bytes) : bool :=
  if decide (num_non_empty_levels_ v <= level)%nat then false
  else SomeFileOverlapsRange (bool_decide (0 < level)%nat) (default [] (level_files_brief_ v !! level))
         smallest_user_key largest_user_key.

(** Keys of files: a range tombstone sentinel comes before the key itself. *)
Definition sstableKeyCompare (a b : bytes) : Z :=
  let c := CompareWithoutTimestamp (ExtractUserKey a) (ExtractUserKey b) in
  if negb (c =? 0) then c
  else
    let a_footer := ExtractInternalKeyFooter a in
    let b_footer := ExtractInternalKeyFooter b in
    if a_footer =? kRangeTombstoneSentinel then if negb (b_footer =? kRangeTombstoneSentinel) then -1 else 0
    else if b_footer =? kRangeTombstoneSentinel then 1
    else 0.

(** ** The files of level 0 that overlap a range *)

Record L0Scan := {
  scan_begin : option bytes;
  scan_end : option bytes;
  scan_inputs : list FileMetaData;
  scan_file_index : option nat;
  scan_found : bool;
}.
Definition outside (s : L0Scan) (f : FdWithKeyRange) : bool :=
  match scan_begin s with
  | Some b => CompareWithoutTimestamp (ExtractUserKey (largest_key f)) b <? 0
  | None => false
  end ||
  match scan_end s with
  | Some e => CompareWithoutTimestamp (ExtractUserKey (smallest_key f)) e >? 0
  | None => false
  end.
(** A file that overlaps; [level_files] is the level with its metadata. *)
Definition take_file (expand_range : bool) (level_files : list FileMetaData) (i : nat) (f : FdWithKeyRange) (s : L0Scan) : L0Scan :=
  let file_start := ExtractUserKey (smallest_key f) in
  let file_limit := ExtractUserKey (largest_key f) in
  {| scan_begin := match scan_begin s with
                   | Some b => Some (if expand_range && (CompareWithoutTimestamp file_start b <? 0) then file_start else b)
                   | None => None
                   end;
     scan_end := match scan_end s with
                 | Some e => Some (if expand_range && (CompareWithoutTimestamp file_limit e >? 0) then file_limit else e)
                 | None => None
                 end;
     scan_inputs := scan_inputs s ++ option_list (level_files !! i);
     scan_file_index := match scan_file_index s with Some j => Some j | None => Some i end;
     scan_found := true |}.
(** One pass over the files that are left; the result has those that are not taken. *)
Fixpoint scan_pass (expand_range : bool) (brief : LevelFilesBrief) (level_files : list FileMetaData) (index : list nat) (s : L0Scan) :
    list nat * L0Scan :=
  match index with
  | [] => ([], s)
  | i :: index =>
      match brief !! i with
      | Some f =>
          if outside s f then
            let '(rest, s) := scan_pass expand_range brief level_files index s in (i :: rest, s)
          else scan_pass expand_range brief level_files index (take_file expand_range level_files i f s)
      | None => scan_pass expand_range brief level_files index s
      end
  end.
(** Passes go on while one takes a file: the number of files is enough. *)
Fixpoint scan_passes (fuel : nat) (expand_range : bool) (brief : LevelFilesBrief) (level_files : list FileMetaData) (index : list nat)
    (s : L0Scan) : L0Scan :=
  match fuel with
  | O => s
  | S fuel =>
      match index with
      | [] => s
      | _ =>
          let '(index, s) := scan_pass expand_range brief level_files index
            {| scan_begin := scan_begin s; scan_end := scan_end s; scan_inputs := scan_inputs s;
               scan_file_index := scan_file_index s; scan_found := false |} in
          if scan_found s then scan_passes fuel expand_range brief level_files index s else s
      end
  end.

(** ** The files of a sorted level that overlap a range *)

(** Moves the start behind files that share a key with the file before them. *)
Fixpoint skip_shared_start (fuel : nat) (files : LevelFilesBrief) (start_index : nat) : nat :=
  match fuel with
  | O => start_index
  | S fuel =>
      match files !! (start_index - 1)%nat, files !! start_index with
      | Some pre, Some cur =>
          if sstableKeyCompare (largest (file_metadata pre)) (smallest (file_metadata cur)) =? 0
          then skip_shared_start fuel files (S start_index) else start_index
      | _, _ => start_index
      end
  end.
Fixpoint skip_shared_end (fuel : nat) (files : LevelFilesBrief) (start_index end_index : nat) : nat :=
  match fuel with
  | O => end_index
  | S fuel =>
      if decide (end_index <= start_index)%nat then end_index
      else
        match files !! end_index, files !! (end_index - 1)%nat with
        | Some next, Some cur =>
            if sstableKeyCompare (largest (file_metadata cur)) (smallest (file_metadata next)) =? 0
            then skip_shared_end fuel files start_index (end_index - 1) else end_index
        | _, _ => end_index
        end
  end.
(** The files, the index of the first of them, and the smallest key of the file behind them. *)
Definition GetOverlappingInputsRangeBinarySearch (v : VersionStorageInfo) (level : nat) (begin_ end_ : option bytes)
    (hint_index : option nat) (within_interval : bool) :
    list FileMetaData * option nat * option bytes :=
  let files := default [] (level_files_brief_ v !! level) in
  let num_files := length files in
  let start_index :=
    match begin_ with
    | None => O
    | Some k =>
        let start_index :=
          lower_bound (fun f => sstableKeyCompare (if within_interval then smallest (file_metadata f) else largest (file_metadata f)) k <? 0)
            files 0 (default num_files hint_index) in
        if bool_decide (0 < start_index)%nat && within_interval then skip_shared_start num_files files start_index else start_index
    end in
  let end_index :=
    match end_ with
    | None => num_files
    | Some k =>
        let end_index :=
          upper_bound (fun f => sstableKeyCompare k (if within_interval then largest (file_metadata f) else smallest (file_metadata f)) <? 0)
            files start_index num_files in
        if bool_decide (end_index < num_files)%nat && within_interval then skip_shared_end num_files files start_index end_index
        else end_index
    end in
  if decide (start_index = end_index) then ([], None, None)
  else
    (take (end_index - start_index) (drop start_index (LevelFiles v level)), Some start_index,
     smallest <$> (LevelFiles v level !! end_index)).

(** For a level that has no files the outputs of the caller stay as they are: [None]. *)
Definition GetOverlappingInputs (v : VersionStorageInfo) (level : nat) (begin_ end_ : option bytes) (hint_index : option nat)
    (expand_range : bool) : option (list FileMetaData * option nat * option bytes) :=
  if decide (num_non_empty_levels_ v <= level)%nat then None
  else if decide (0 < level)%nat then Some (GetOverlappingInputsRangeBinarySearch v level begin_ end_ hint_index false)
  else
    let brief := default [] (level_files_brief_ v !! level) in
    let s := scan_passes (length brief) expand_range brief (LevelFiles v level) (seq 0 (length brief))
      {| scan_begin := ExtractUserKey <$> begin_; scan_end := ExtractUserKey <$> end_; scan_inputs := [];
         scan_file_index := None; scan_found := false |} in
    Some (scan_inputs s, scan_file_index s, None).
Definition GetCleanInputsWithinInterval (v : VersionStorageInfo) (level : nat) (begin_ end_ : option bytes) (hint_index : option nat) :
    list FileMetaData * option nat :=
  if bool_decide (num_non_empty_levels_ v <= level)%nat || bool_decide (level = 0)%nat ||
     bool_decide (default [] (level_files_brief_ v !! level) = []) then ([], None)
  else (GetOverlappingInputsRangeBinarySearch v level begin_ end_ hint_index true).1.

Definition RangeMightExistAfterSortedRun (v : VersionStorageInfo) (smallest_user_key largest_user_key : bytes) (last_level : nat)
    (last_l0_idx : Z) : bool :=
  if bool_decide (last_level = 0)%nat && negb (last_l0_idx =? slen (LevelFiles v 0) - 1) then true
  else
    existsb (fun level => negb (bool_decide (LevelFiles v level = [])) &&
        (bool_decide (last_level = 0)%nat || OverlapInLevel v level (Some smallest_user_key) (Some largest_user_key)))
      (seq (S last_level) (num_levels_ v - S last_level)).

(** * The index from level to level *)

Definition file_at (files : list FileMetaData) (i : nat) : FileMetaData := default NewFileMetaData (files !! i).
Definition set_index_unit (i : nat) (f : IndexUnit -> IndexUnit) (index : list IndexUnit) : list IndexUnit := alter f i index.

(** Both loops: [set_index] is given the first lower file that does not compare smaller, or the number of
    lower files when they are exhausted. *)
Fixpoint CalculateLB_loop (fuel : nat) (upper_files lower_files : list FileMetaData) (cmp_op : FileMetaData -> FileMetaData -> Z)
    (set_index : Z -> IndexUnit -> IndexUnit) (upper_idx lower_idx : nat) (index : list IndexUnit) : list IndexUnit :=
  match fuel with
  | O => index
  | S fuel =>
      match upper_files !! upper_idx, lower_files !! lower_idx with
      | Some a, Some b =>
          if cmp_op a b >? 0 then CalculateLB_loop fuel upper_files lower_files cmp_op set_index upper_idx (S lower_idx) index
          else CalculateLB_loop fuel upper_files lower_files cmp_op set_index (S upper_idx) lower_idx
                 (set_index_unit upper_idx (set_index (Z.of_nat lower_idx)) index)
      | Some a, None =>
          CalculateLB_loop fuel upper_files lower_files cmp_op set_index (S upper_idx) lower_idx
            (set_index_unit upper_idx (set_index (slen lower_files)) index)
      | None, _ => index
      end
  end.
Definition CalculateLB (upper_files lower_files : list FileMetaData) (cmp_op : FileMetaData -> FileMetaData -> Z)
    (set_index : Z -> IndexUnit -> IndexUnit) (index : list IndexUnit) : list IndexUnit :=
  CalculateLB_loop (length upper_files + length lower_files) upper_files lower_files cmp_op set_index 0 0 index.
(** From the last files to the first; [upper] and [lower] are how many of the files are left, so that the
    files compared are the last ones of these. *)
Fixpoint CalculateRB_loop (fuel : nat) (upper_files lower_files : list FileMetaData) (cmp_op : FileMetaData -> FileMetaData -> Z)
    (set_index : Z -> IndexUnit -> IndexUnit) (upper lower : nat) (index : list IndexUnit) : list IndexUnit :=
  match fuel with
  | O => index
  | S fuel =>
      match upper, lower with
      | O, _ => index
      | S upper', S lower' =>
          if cmp_op (file_at upper_files upper') (file_at lower_files lower') <? 0
          then CalculateRB_loop fuel upper_files lower_files cmp_op set_index upper lower' index
          else CalculateRB_loop fuel upper_files lower_files cmp_op set_index upper' lower
                 (set_index_unit upper' (set_index (Z.of_nat lower')) index)
      | S upper', O =>
          CalculateRB_loop fuel upper_files lower_files cmp_op set_index upper' lower (set_index_unit upper' (set_index (-1)) index)
      end
  end.
Definition CalculateRB (upper_files lower_files : list FileMetaData) (cmp_op : FileMetaData -> FileMetaData -> Z)
    (set_index : Z -> IndexUnit -> IndexUnit) (index : list IndexUnit) : list IndexUnit :=
  CalculateRB_loop (length upper_files + length lower_files) upper_files lower_files cmp_op set_index
    (length upper_files) (length lower_files) index.

Definition set_smallest_lb (i : Z) (u : IndexUnit) : IndexUnit :=
  {| smallest_lb := i; largest_lb := largest_lb u; smallest_rb := smallest_rb u; largest_rb := largest_rb u |}.
Definition set_largest_lb (i : Z) (u : IndexUnit) : IndexUnit :=
  {| smallest_lb := smallest_lb u; largest_lb := i; smallest_rb := smallest_rb u; largest_rb := largest_rb u |}.
Definition set_smallest_rb (i : Z) (u : IndexUnit) : IndexUnit :=
  {| smallest_lb := smallest_lb u; largest_lb := largest_lb u; smallest_rb := i; largest_rb := largest_rb u |}.
Definition set_largest_rb (i : Z) (u : IndexUnit) : IndexUnit :=
  {| smallest_lb := smallest_lb u; largest_lb := largest_lb u; smallest_rb := smallest_rb u; largest_rb := i |}.
(** The index of one level into the next. *)
Definition index_level (upper_files lower_files : list FileMetaData) : list IndexUnit :=
  let user_cmp a b := CompareWithoutTimestamp (ExtractUserKey a) (ExtractUserKey b) in
  let index := replicate (length upper_files) NewIndexUnit in
  let index := CalculateLB upper_files lower_files (fun a b => user_cmp (smallest a) (largest b)) set_smallest_lb index in
  let index := CalculateLB upper_files lower_files (fun a b => user_cmp (largest a) (largest b)) set_largest_lb index in
  let index := CalculateRB upper_files lower_files (fun a b => user_cmp (smallest a) (smallest b)) set_smallest_rb index in
  CalculateRB upper_files lower_files (fun a b => user_cmp (largest a) (smallest b)) set_largest_rb index.
(** Levels 1 to [num_levels] - 2 have an index. *)
Definition UpdateIndex (x : FileIndexer) (num_levels : nat) (files : list (list FileMetaData)) : FileIndexer :=
  if decide (num_levels = 0)%nat then
    {| indexer_levels_ := 0; next_level_index_ := next_level_index_ x; level_rb_ := level_rb_ x |}
  else
    {| indexer_levels_ := num_levels;
       next_level_index_ :=
         map (fun level => if decide (0 < level < num_levels - 1)%nat
                           then index_level (default [] (files !! level)) (default [] (files !! S level)) else [])
           (seq 0 num_levels);
       level_rb_ :=
         map (fun level => if decide (0 < level \/ level = num_levels - 1)%nat then slen (default [] (files !! level)) - 1 else -1)
           (seq 0 num_levels) |}.

(** The bounds of the search in the next level. *)
Definition GetNextLevelIndex (x : FileIndexer) (level file_index : nat) (cmp_smallest cmp_largest : Z) : Z * Z :=
  if decide (level = indexer_levels_ x - 1)%nat then (0, -1)
  else
    let index_units := default [] (next_level_index_ x !! level) in
    let unit_at i := default NewIndexUnit (index_units !! i) in
    let index := unit_at file_index in
    if cmp_smallest <? 0 then
      (if decide (0 < level /\ 0 < file_index)%nat then largest_lb (unit_at (file_index - 1)%nat) else 0, smallest_rb index)
    else if cmp_smallest =? 0 then (smallest_lb index, smallest_rb index)
    else if cmp_largest <? 0 then (smallest_lb index, largest_rb index)
    else if cmp_largest =? 0 then (largest_lb index, largest_rb index)
    else (largest_lb index, default 0 (level_rb_ x !! S level)).

(** * Preparing a version *)

(** The number of levels up to the last one that has files. *)
Fixpoint count_non_empty (levels : nat) (v : VersionStorageInfo) : nat :=
  match levels with
  | O => O
  | S below => match LevelFiles v below with [] => count_non_empty below v | _ => levels end
  end.
Definition UpdateNumNonEmptyLevels (v : VersionStorageInfo) : VersionStorageInfo :=
  v <| num_non_empty_levels_ := count_non_empty (num_levels_ v) v |>.
Definition GenerateFileIndexer (v : VersionStorageInfo) : VersionStorageInfo :=
  v <| file_indexer_ := UpdateIndex (file_indexer_ v) (num_non_empty_levels_ v) (files_ v) |>.
Definition GenerateLevelFilesBrief (v : VersionStorageInfo) : VersionStorageInfo :=
  v <| level_files_brief_ := map (fun level => DoGenerateLevelFilesBrief (LevelFiles v level)) (seq 0 (num_non_empty_levels_ v)) |>.
Fixpoint overlap_with_previous (files : LevelFilesBrief) : bool :=
  match files with
  | prev :: (f :: _) as files' => (InternalKeyComparator_Compare (largest_key prev) (smallest_key f) >=? 0) || overlap_with_previous files'
  | _ => false
  end.
Definition GenerateLevel0NonOverlapping (v : VersionStorageInfo) : VersionStorageInfo :=
  v <| level0_non_overlapping_ :=
    match level_files_brief_ v with
    | [] => true
    | level0 :: _ =>
        negb (overlap_with_previous
          (sort (fun f1 f2 => InternalKeyComparator_Compare (smallest_key f1) (smallest_key f2) <? 0) level0))
    end |>.
Definition GenerateBottommostFiles (v : VersionStorageInfo) : VersionStorageInfo :=
  v <| bottommost_files_ := bottommost_files_ v ++
    concat (imap (fun level files =>
      concat (imap (fun file_idx f =>
        if RangeMightExistAfterSortedRun v (ExtractUserKey (smallest_key f)) (ExtractUserKey (largest_key f)) level
             (if decide (level = 0)%nat then Z.of_nat file_idx else -1)
        then [] else [(level, file_metadata f)]) files)) (level_files_brief_ v)) |>.
(** [emplace] keeps the location a number has already. *)
Definition emplace_location (m : gmap Z (nat * nat)) (x : Z * (nat * nat)) : gmap Z (nat * nat) :=
  match m !! x.1 with Some _ => m | None => <[x.1 := x.2]> m end.
Definition all_locations (v : VersionStorageInfo) : list (Z * (nat * nat)) :=
  concat (map (fun level => imap (fun pos f => (GetNumber (fd f), (level, pos))) (LevelFiles v level)) (seq 0 (num_levels_ v))).
Definition GenerateFileLocationIndex (v : VersionStorageInfo) : VersionStorageInfo :=
  v <| file_locations_ := fold_left emplace_location (all_locations v) (file_locations_ v) |>.
Definition PrepareForVersionAppend (v : VersionStorageInfo) : VersionStorageInfo :=
  GenerateFileLocationIndex (GenerateBottommostFiles (GenerateLevel0NonOverlapping (GenerateLevelFilesBrief
    (GenerateFileIndexer (UpdateNumNonEmptyLevels v))))).
End Search.
