(* ===== verification/VersionStorageProofs.v ===== *)
(** What the index from level to level says, and what the searches in a sorted level find. *)

From stdpp Require Import gmap sorting.
From S2P Require Import Prelude Cursor Algorithms Coding Comparator DbFormat Status VersionEdit VersionStorage.

Open Scope record_scope.

Abbreviation icmp := InternalKeyComparator_Compare.
Abbreviation ucmp := CompareWithoutTimestamp.
Abbreviation user k := (ExtractUserKey k).

(** * The index *)

Lemma file_at_lookup files i f : files !! i = Some f -> file_at files i = f.
Proof. intros E. unfold file_at. by rewrite E. Qed.

Section Bounds.
Variables (upper lower : list FileMetaData) (cmp_op : FileMetaData -> FileMetaData -> Z) (set_index : Z -> IndexUnit -> IndexUnit).

(** The index with the entries of some upper files set from a function of the file. *)
Definition indexed (covered : nat -> bool) (value : FileMetaData -> Z) (index : list IndexUnit) : list IndexUnit :=
  imap (fun i u => if covered i then match upper !! i with Some a => set_index (value a) u | None => u end else u) index.

Lemma indexed_step c c' value index i a : upper !! i = Some a -> c i = false -> (forall j, c' j = c j || bool_decide (j = i)) ->
  indexed c value (set_index_unit i (set_index (value a)) index) = indexed c' value index.
Proof.
  intros Ea Hc Hc'. apply list_eq. intros j. unfold indexed, set_index_unit. rewrite !list_lookup_imap, Hc'.
  destruct (decide (j = i)) as [-> | Hne].
  - rewrite list_lookup_alter_eq, Hc, bool_decide_eq_true_2 by done. cbn. rewrite Ea. by destruct (index !! i).
  - rewrite list_lookup_alter_ne, bool_decide_eq_false_2, orb_false_r by done. done.
Qed.
Lemma indexed_ext c c' value index : (forall i, (i < length upper)%nat -> c i = c' i) -> indexed c value index = indexed c' value index.
Proof.
  intros Hc. apply imap_ext. intros i u _. destruct (decide (i < length upper)%nat) as [Hi | Hi]; [by rewrite Hc |].
  rewrite lookup_ge_None_2 by lia. by destruct (c i), (c' i).
Qed.
Lemma indexed_none value index : indexed (fun _ => false) value index = index.
Proof. unfold indexed. induction index as [| u index IH]; cbn; [done |]. f_equal. exact IH. Qed.

(** A lower file that compares smaller than an upper file does so for the upper files behind it. *)
Hypothesis upper_up : forall i j a a' b, (i <= j)%nat -> upper !! i = Some a -> upper !! j = Some a' -> 0 < cmp_op a b -> 0 < cmp_op a' b.
Definition lb_of (a : FileMetaData) : Z := Z.of_nat (first_index (fun b => cmp_op a b <=? 0) lower).
Lemma CalculateLB_loop_spec fuel : forall ui li index, (length upper - ui + (length lower - li) <= fuel)%nat -> (li <= length lower)%nat ->
  (forall i j a b, (ui <= i)%nat -> upper !! i = Some a -> (j < li)%nat -> lower !! j = Some b -> 0 < cmp_op a b) ->
  CalculateLB_loop fuel upper lower cmp_op set_index ui li index = indexed (fun i => bool_decide (ui <= i)%nat) lb_of index.
Proof using upper_up.
  induction fuel as [| fuel IH]; intros ui li index Hf Hli Hlow; cbn [CalculateLB_loop].
  { rewrite (indexed_ext _ (fun _ => false)), indexed_none; [done |]. intros i Hi. apply bool_decide_eq_false. lia. }
  destruct (upper !! ui) as [a |] eqn:Ea.
  2: { rewrite (indexed_ext _ (fun _ => false)), indexed_none; [done |]. apply lookup_ge_None in Ea. intros i Hi. apply bool_decide_eq_false. lia. }
  assert (Hui := lookup_lt_Some _ _ _ Ea).
  assert (Hset : forall n, lb_of a = n -> CalculateLB_loop fuel upper lower cmp_op set_index (S ui) li
      (set_index_unit ui (set_index n) index) = indexed (fun i => bool_decide (ui <= i)%nat) lb_of index).
  { intros n <-. rewrite IH; [| lia | done | intros i j a' b Hi; apply Hlow; lia]. apply indexed_step; [done | apply bool_decide_eq_false; lia |].
    intros j. destruct (bool_decide_reflect (ui <= j)%nat), (bool_decide_reflect (S ui <= j)%nat), (bool_decide_reflect (j = ui)%nat); try done; lia. }
  destruct (lower !! li) as [b |] eqn:Eb.
  - assert (Hli' := lookup_lt_Some _ _ _ Eb). destruct (Z.gtb_spec (cmp_op a b) 0) as [Hgt | Hle].
    + apply IH; [lia | lia |]. intros i j a' b' Hi Ea' Hj Eb'. destruct (decide (j = li)) as [-> |]; [| apply (Hlow i j); [done | done | lia | done]].
      rewrite Eb in Eb'. injection Eb' as <-. by apply (upper_up ui i a a' b).
    + apply Hset. unfold lb_of. f_equal. apply first_index_unique; [lia | |].
      * intros j b' Hj Eb'. apply Z.leb_gt. by apply (Hlow ui j).
      * intros b' Eb'. rewrite Eb in Eb'. injection Eb' as <-. by apply Z.leb_le.
  - apply Hset. apply lookup_ge_None in Eb. unfold lb_of, slen. f_equal. apply first_index_unique; [done | |].
    + intros j b' Hj Eb'. apply Z.leb_gt. apply (Hlow ui j); [done | done | lia | done].
    + intros b' Eb'. apply lookup_lt_Some in Eb'. lia.
Qed.
Lemma CalculateLB_spec index : CalculateLB upper lower cmp_op set_index index = indexed (fun _ => true) lb_of index.
Proof using upper_up.
  unfold CalculateLB. rewrite CalculateLB_loop_spec; [| lia | lia | intros; lia]. apply indexed_ext. intros i Hi. apply bool_decide_eq_true. lia.
Qed.

(** A lower file that compares larger than an upper file does so for the upper files before it, and so do
    the lower files behind it. *)
Hypothesis upper_down : forall i j a a' b, (i <= j)%nat -> upper !! i = Some a -> upper !! j = Some a' -> cmp_op a' b < 0 -> cmp_op a b < 0.
Hypothesis lower_up : forall i j a b b', (i <= j)%nat -> lower !! i = Some b -> lower !! j = Some b' -> cmp_op a b < 0 -> cmp_op a b' < 0.
Definition rb_of (a : FileMetaData) : Z := Z.of_nat (first_index (fun b => cmp_op a b <? 0) lower) - 1.
Lemma CalculateRB_loop_spec fuel : forall nu nl index, (nu + nl <= fuel)%nat -> (nu <= length upper)%nat -> (nl <= length lower)%nat ->
  (forall i j a b, (i < nu)%nat -> upper !! i = Some a -> (nl <= j)%nat -> lower !! j = Some b -> cmp_op a b < 0) ->
  CalculateRB_loop fuel upper lower cmp_op set_index nu nl index = indexed (fun i => bool_decide (i < nu)%nat) rb_of index.
Proof using upper_down lower_up.
  induction fuel as [| fuel IH]; intros nu nl index Hf Hnu Hnl Hhigh; cbn [CalculateRB_loop].
  { rewrite (indexed_ext _ (fun _ => false)), indexed_none; [done |]. intros i Hi. apply bool_decide_eq_false. lia. }
  destruct nu as [| nu].
  { rewrite (indexed_ext _ (fun _ => false)), indexed_none; [done |]. intros i Hi. apply bool_decide_eq_false. lia. }
  destruct (lookup_lt_is_Some_2 upper nu) as [a Ea]; [lia |]. rewrite (file_at_lookup _ _ _ Ea).
  assert (Hset : forall n, rb_of a = n -> CalculateRB_loop fuel upper lower cmp_op set_index nu nl
      (set_index_unit nu (set_index n) index) = indexed (fun i => bool_decide (i < S nu)%nat) rb_of index).
  { intros n <-. rewrite IH; [| lia | lia | done | intros i j a' b Hi; apply Hhigh; lia]. apply indexed_step; [done | apply bool_decide_eq_false; lia |].
    intros j. destruct (bool_decide_reflect (j < nu)%nat), (bool_decide_reflect (j < S nu)%nat), (bool_decide_reflect (j = nu)%nat); try done; lia. }
  destruct nl as [| nl].
  - apply Hset. unfold rb_of. rewrite (first_index_unique _ _ 0); [done | lia | intros; lia |].
    intros b Eb. apply Z.ltb_lt. apply (Hhigh nu 0%nat); [lia | done | lia | done].
  - destruct (lookup_lt_is_Some_2 lower nl) as [b Eb]; [lia |]. rewrite (file_at_lookup _ _ _ Eb).
    destruct (Z.ltb_spec (cmp_op a b) 0) as [Hlt | Hge].
    + apply IH; [lia | lia | lia |]. intros i j a' b' Hi Ea' Hj Eb'. destruct (decide (j = nl)) as [-> |]; [| apply (Hhigh i j); [done | done | lia | done]].
      rewrite Eb in Eb'. injection Eb' as <-. apply (upper_down i nu a' a b); [lia | done | done | done].
    + apply Hset. unfold rb_of. rewrite (first_index_unique _ _ (S nl)); [lia | lia | |].
      * intros j b' Hj Eb'. apply Z.ltb_ge. destruct (Z.le_gt_cases 0 (cmp_op a b')) as [| Hb']; [done |].
        exfalso. assert (cmp_op a b < 0) by (apply (lower_up j nl a b' b); [lia | done | done | done]). lia.
      * intros b' Eb'. apply Z.ltb_lt. apply (Hhigh nu (S nl)); [lia | done | done | done].
Qed.
Lemma CalculateRB_spec index : CalculateRB upper lower cmp_op set_index index = indexed (fun _ => true) rb_of index.
Proof using upper_down lower_up.
  unfold CalculateRB. rewrite CalculateRB_loop_spec; [| lia | lia | lia |].
  - apply indexed_ext. intros i Hi. by apply bool_decide_eq_true.
  - intros i j a b _ _ Hj Eb. apply lookup_lt_Some in Eb. lia.
Qed.
End Bounds.

(** * Sorted levels *)

Section Levels.
Context {C : Comparator} {CL : ComparatorLaws C} {TC : TimestampComparator C} {UO : UserKeyOrder C}.

(** The bounds of each file are in order, and each file ends before the next begins. *)
Record level_wf (fs : list FileMetaData) : Prop := {
  wf_bounds : Forall (fun f => icmp (smallest f) (largest f) <= 0) fs;
  wf_disjoint : StronglySorted (fun f g => icmp (largest f) (smallest g) < 0) fs;
}.
Lemma icmp_user a b : icmp a b <= 0 -> ucmp (user a) (user b) <= 0.
Proof using CL UO. intros Hle. by apply without_timestamp_le, Compare_internal_user. Qed.

Section Level.
Context (fs : list FileMetaData) (WF : level_wf fs).
Lemma wf_file i f : fs !! i = Some f -> icmp (smallest f) (largest f) <= 0.
Proof using WF. intros E. apply (proj1 (list.Forall_forall _ _) (wf_bounds _ WF)). by apply list_elem_of_lookup_2 in E. Qed.
Lemma wf_before i j f g : (i < j)%nat -> fs !! i = Some f -> fs !! j = Some g -> icmp (largest f) (smallest g) < 0.
Proof using WF. intros Hij. by apply (StronglySorted_lookup_lt _ _ _ _ _ _ (wf_disjoint _ WF)). Qed.
Lemma wf_largest i j f g : (i <= j)%nat -> fs !! i = Some f -> fs !! j = Some g -> icmp (largest f) (largest g) <= 0.
Proof using WF CL.
  intros Hij Ef Eg. destruct (decide (i = j)) as [-> | Hne]; [rewrite Ef in Eg; injection Eg as <-; rewrite cmp_refl; lia |].
  apply (cmp_trans _ (smallest g)); [apply Z.lt_le_incl, (wf_before i j); [lia | done | done] | by apply (wf_file j)].
Qed.
Lemma wf_smallest i j f g : (i <= j)%nat -> fs !! i = Some f -> fs !! j = Some g -> icmp (smallest f) (smallest g) <= 0.
Proof using WF CL.
  intros Hij Ef Eg. destruct (decide (i = j)) as [-> | Hne]; [rewrite Ef in Eg; injection Eg as <-; rewrite cmp_refl; lia |].
  apply (cmp_trans _ (largest f)); [by apply (wf_file i) | apply Z.lt_le_incl, (wf_before i j); [lia | done | done]].
Qed.
Lemma user_largest i j f g : (i <= j)%nat -> fs !! i = Some f -> fs !! j = Some g -> ucmp (user (largest f)) (user (largest g)) <= 0.
Proof using WF CL UO. intros Hij Ef Eg. by apply icmp_user, (wf_largest i j). Qed.
Lemma user_smallest i j f g : (i <= j)%nat -> fs !! i = Some f -> fs !! j = Some g -> ucmp (user (smallest f)) (user (smallest g)) <= 0.
Proof using WF CL UO. intros Hij Ef Eg. by apply icmp_user, (wf_smallest i j). Qed.
End Level.

(** ** The index of a level *)

Definition unit_of (lower : list FileMetaData) (a : FileMetaData) : IndexUnit :=
  {| smallest_lb := lb_of lower (fun a b => ucmp (user (smallest a)) (user (largest b))) a;
     largest_lb := lb_of lower (fun a b => ucmp (user (largest a)) (user (largest b))) a;
     smallest_rb := rb_of lower (fun a b => ucmp (user (smallest a)) (user (smallest b))) a;
     largest_rb := rb_of lower (fun a b => ucmp (user (largest a)) (user (smallest b))) a |}.
Lemma index_level_spec upper lower : level_wf upper -> level_wf lower -> index_level upper lower = map (unit_of lower) upper.
Proof using CL UO.
  intros Hu Hl. unfold index_level. rewrite !CalculateLB_spec, !CalculateRB_spec.
  - apply list_eq. intros i. unfold indexed. rewrite !list_lookup_imap, list_lookup_fmap.
    destruct (decide (i < length upper)%nat) as [Hi | Hi].
    + rewrite lookup_replicate_2 by done. destruct (lookup_lt_is_Some_2 upper i Hi) as [a Ea]. cbn. by rewrite Ea.
    + rewrite !lookup_ge_None_2 by (rewrite ?length_replicate; lia). done.
  - intros i j a a' b Hij Ea Ea' Hlt. eapply cmp_le_lt_trans; [by apply (user_smallest upper Hu i j) | done].
  - intros i j a b b' Hij Eb Eb' Hlt. eapply cmp_lt_le_trans; [done | by apply (user_smallest lower Hl i j)].
  - intros i j a a' b Hij Ea Ea' Hlt. eapply cmp_le_lt_trans; [by apply (user_largest upper Hu i j) | done].
  - intros i j a b b' Hij Eb Eb' Hlt. eapply cmp_lt_le_trans; [done | by apply (user_smallest lower Hl i j)].
  - intros i j a a' b Hij Ea Ea' Hgt. eapply cmp_gt_ge_trans; [done | by apply (user_smallest upper Hu i j)].
  - intros i j a a' b Hij Ea Ea' Hgt. eapply cmp_gt_ge_trans; [done | by apply (user_largest upper Hu i j)].
Qed.
End Levels.
