(* ===== verification/VersionBuilder.v ===== *)
(** db/version_builder.cc: the version that a base version becomes when edits are applied to it.

    Files on levels the version does not have are only counted. Whether a file can be opened, in the mode that
    keeps track of missing files, is what the caller of [Apply] says: [verify_file], [verify_blob_file]. Undefined
    behaviour, an index out of the array of levels, is [None]. The table cache, reference counts and the memory
    charged for metadata are not modelled; a pointer to the metadata of a file of the base version is never the
    same as one to a file that was added. *)

From stdpp Require Import gmap sorting.
From S2P Require Import Prelude Cursor Algorithms Coding Comparator DbFormat Status VersionEdit VersionStorage.

Open Scope record_scope.

(** * State *)

Record LevelState := { level_deleted_files : gset Z; level_added_files : gmap Z FileMetaData }.
Definition NewLevelState : LevelState := {| level_deleted_files := ∅; level_added_files := ∅ |}.

Record BlobFileMetaDataDelta := {
  additional_garbage_count_ : Z;
  additional_garbage_bytes_ : Z;
  newly_linked_ssts_ : gset Z;
  newly_unlinked_ssts_ : gset Z;
}.
Definition NewBlobFileMetaDataDelta : BlobFileMetaDataDelta :=
  {| additional_garbage_count_ := 0; additional_garbage_bytes_ := 0; newly_linked_ssts_ := ∅; newly_unlinked_ssts_ := ∅ |}.
Definition Delta_IsEmpty (d : BlobFileMetaDataDelta) : bool :=
  (additional_garbage_count_ d =? 0) && (additional_garbage_bytes_ d =? 0) &&
  bool_decide (newly_linked_ssts_ d = ∅) && bool_decide (newly_unlinked_ssts_ d = ∅).
Definition Delta_AddGarbage (count bytes : Z) (d : BlobFileMetaDataDelta) : BlobFileMetaDataDelta :=
  {| additional_garbage_count_ := u64 (additional_garbage_count_ d + count); additional_garbage_bytes_ := u64 (additional_garbage_bytes_ d + bytes);
     newly_linked_ssts_ := newly_linked_ssts_ d; newly_unlinked_ssts_ := newly_unlinked_ssts_ d |}.
(** A file that was unlinked is linked again: it is new for neither. *)
Definition Delta_LinkSst (sst_file_number : Z) (d : BlobFileMetaDataDelta) : BlobFileMetaDataDelta :=
  if decide (sst_file_number ∈ newly_unlinked_ssts_ d)
  then {| additional_garbage_count_ := additional_garbage_count_ d; additional_garbage_bytes_ := additional_garbage_bytes_ d;
          newly_linked_ssts_ := newly_linked_ssts_ d; newly_unlinked_ssts_ := newly_unlinked_ssts_ d ∖ {[sst_file_number]} |}
  else {| additional_garbage_count_ := additional_garbage_count_ d; additional_garbage_bytes_ := additional_garbage_bytes_ d;
          newly_linked_ssts_ := newly_linked_ssts_ d ∪ {[sst_file_number]}; newly_unlinked_ssts_ := newly_unlinked_ssts_ d |}.
Definition Delta_UnlinkSst (sst_file_number : Z) (d : BlobFileMetaDataDelta) : BlobFileMetaDataDelta :=
  if decide (sst_file_number ∈ newly_linked_ssts_ d)
  then {| additional_garbage_count_ := additional_garbage_count_ d; additional_garbage_bytes_ := additional_garbage_bytes_ d;
          newly_linked_ssts_ := newly_linked_ssts_ d ∖ {[sst_file_number]}; newly_unlinked_ssts_ := newly_unlinked_ssts_ d |}
  else {| additional_garbage_count_ := additional_garbage_count_ d; additional_garbage_bytes_ := additional_garbage_bytes_ d;
          newly_linked_ssts_ := newly_linked_ssts_ d; newly_unlinked_ssts_ := newly_unlinked_ssts_ d ∪ {[sst_file_number]} |}.

Record MutableBlobFileMetaData := { mutable_meta : BlobFileMetaData; delta_ : BlobFileMetaDataDelta }.
Definition MutableBlobFileMetaData_new (shared : BlobFileAddition) : MutableBlobFileMetaData :=
  {| mutable_meta := {| shared_meta_ := shared; linked_ssts_ := ∅; meta_garbage_count_ := 0; meta_garbage_bytes_ := 0 |};
     delta_ := NewBlobFileMetaDataDelta |}.
Definition MutableBlobFileMetaData_of (meta : BlobFileMetaData) : MutableBlobFileMetaData :=
  {| mutable_meta := meta; delta_ := NewBlobFileMetaDataDelta |}.
Definition HasDelta (m : MutableBlobFileMetaData) : bool := negb (Delta_IsEmpty (delta_ m)).
(** [None] when there would be more garbage than the file has blobs. *)
Definition AddGarbage (count bytes : Z) (m : MutableBlobFileMetaData) : option MutableBlobFileMetaData :=
  let meta := mutable_meta m in
  if (u64 (meta_garbage_count_ meta + count) >? total_blob_count_ (shared_meta_ meta)) ||
     (u64 (meta_garbage_bytes_ meta + bytes) >? total_blob_bytes_ (shared_meta_ meta)) then None
  else Some {| mutable_meta := {| shared_meta_ := shared_meta_ meta; linked_ssts_ := linked_ssts_ meta;
                                  meta_garbage_count_ := u64 (meta_garbage_count_ meta + count);
                                  meta_garbage_bytes_ := u64 (meta_garbage_bytes_ meta + bytes) |};
               delta_ := Delta_AddGarbage count bytes (delta_ m) |}.
Definition set_linked_ssts (s : gset Z) (meta : BlobFileMetaData) : BlobFileMetaData :=
  {| shared_meta_ := shared_meta_ meta; linked_ssts_ := s; meta_garbage_count_ := meta_garbage_count_ meta;
     meta_garbage_bytes_ := meta_garbage_bytes_ meta |}.
Definition LinkSst (sst_file_number : Z) (m : MutableBlobFileMetaData) : MutableBlobFileMetaData :=
  {| mutable_meta := set_linked_ssts (linked_ssts_ (mutable_meta m) ∪ {[sst_file_number]}) (mutable_meta m);
     delta_ := Delta_LinkSst sst_file_number (delta_ m) |}.
Definition UnlinkSst (sst_file_number : Z) (m : MutableBlobFileMetaData) : MutableBlobFileMetaData :=
  {| mutable_meta := set_linked_ssts (linked_ssts_ (mutable_meta m) ∖ {[sst_file_number]}) (mutable_meta m);
     delta_ := Delta_UnlinkSst sst_file_number (delta_ m) |}.

Record Rep := {
  base_vstorage_ : VersionStorageInfo;
  rep_num_levels_ : nat;
  levels_ : list LevelState;
  invalid_level_sizes_ : gmap Z Z;
  has_invalid_levels_ : bool;
  table_file_levels_ : gmap Z Z;
  updated_compact_cursors_ : gmap Z bytes;
  mutable_blob_file_metas_ : gmap Z MutableBlobFileMetaData;
  track_found_and_missing_files_ : bool;
  allow_incomplete_valid_version_ : bool;
  found_files_ : gset Z;
  l0_missing_files_ : gset Z;
  non_l0_missing_files_ : gset Z;
  intermediate_files_ : list Z;
  missing_blob_files_high_ : Z;
  missing_blob_files_ : gset Z;
  valid_version_available_ : bool;
  edited_in_atomic_group_ : bool;
  version_updated_since_last_check_ : bool;
}.
#[global] Instance Rep_rebuild : Rebuild Rep := fun r =>
  {| base_vstorage_ := base_vstorage_ r; rep_num_levels_ := rep_num_levels_ r; levels_ := levels_ r;
     invalid_level_sizes_ := invalid_level_sizes_ r; has_invalid_levels_ := has_invalid_levels_ r;
     table_file_levels_ := table_file_levels_ r; updated_compact_cursors_ := updated_compact_cursors_ r;
     mutable_blob_file_metas_ := mutable_blob_file_metas_ r; track_found_and_missing_files_ := track_found_and_missing_files_ r;
     allow_incomplete_valid_version_ := allow_incomplete_valid_version_ r; found_files_ := found_files_ r;
     l0_missing_files_ := l0_missing_files_ r; non_l0_missing_files_ := non_l0_missing_files_ r;
     intermediate_files_ := intermediate_files_ r; missing_blob_files_high_ := missing_blob_files_high_ r;
     missing_blob_files_ := missing_blob_files_ r; valid_version_available_ := valid_version_available_ r;
     edited_in_atomic_group_ := edited_in_atomic_group_ r; version_updated_since_last_check_ := version_updated_since_last_check_ r |}.
(** Without tracking the flags of the tracking are not initialised. *)
Definition NewRep (base_vstorage : VersionStorageInfo) (track_found_and_missing_files allow_incomplete_valid_version : bool) : Rep :=
  {| base_vstorage_ := base_vstorage; rep_num_levels_ := num_levels_ base_vstorage;
     levels_ := replicate (num_levels_ base_vstorage) NewLevelState; invalid_level_sizes_ := ∅; has_invalid_levels_ := false;
     table_file_levels_ := ∅; updated_compact_cursors_ := ∅; mutable_blob_file_metas_ := ∅;
     track_found_and_missing_files_ := track_found_and_missing_files; allow_incomplete_valid_version_ := allow_incomplete_valid_version;
     found_files_ := ∅; l0_missing_files_ := ∅; non_l0_missing_files_ := ∅; intermediate_files_ := [];
     missing_blob_files_high_ := kInvalidBlobFileNumber; missing_blob_files_ := ∅; valid_version_available_ := true;
     edited_in_atomic_group_ := false; version_updated_since_last_check_ := false |}.

(** * Orders of files *)

Section Builder.
Context {C : Comparator} {TC : TimestampComparator C}.

Definition NewestFirstBySeqNo (lhs rhs : FileMetaData) : bool :=
  if negb (largest_seqno (fd lhs) =? largest_seqno (fd rhs)) then largest_seqno (fd lhs) >? largest_seqno (fd rhs)
  else if negb (smallest_seqno (fd lhs) =? smallest_seqno (fd rhs)) then smallest_seqno (fd lhs) >? smallest_seqno (fd rhs)
  else GetNumber (fd lhs) >? GetNumber (fd rhs).
Definition NewestFirstByEpochNumber (lhs rhs : FileMetaData) : bool :=
  if negb (epoch_number lhs =? epoch_number rhs) then epoch_number lhs >? epoch_number rhs else NewestFirstBySeqNo lhs rhs.
Definition BySmallestKey (lhs rhs : FileMetaData) : bool :=
  let r := InternalKeyComparator_Compare (smallest lhs) (smallest rhs) in
  if negb (r =? 0) then r <? 0 else GetNumber (fd lhs) <? GetNumber (fd rhs).

(** * Consistency *)

Definition UpdateExpectedLinkedSsts (table_file_number blob_file_number : Z) (expected : gmap Z (gset Z)) : gmap Z (gset Z) :=
  if blob_file_number =? kInvalidBlobFileNumber then expected
  else <[blob_file_number := default ∅ (expected !! blob_file_number) ∪ {[table_file_number]}]> expected.
Definition expect_file (f : FileMetaData) (expected : gmap Z (gset Z)) : gmap Z (gset Z) :=
  UpdateExpectedLinkedSsts (GetNumber (fd f)) (oldest_blob_file_number f) expected.
(** [checker] is true of neighbours in a consistent level. *)
Fixpoint check_neighbours (checker : FileMetaData -> FileMetaData -> bool) (lhs : FileMetaData) (files : list FileMetaData)
    (expected : gmap Z (gset Z)) : bool * gmap Z (gset Z) :=
  match files with
  | [] => (true, expected)
  | rhs :: files =>
      let expected := expect_file rhs expected in
      if checker lhs rhs then check_neighbours checker rhs files expected else (false, expected)
  end.
Definition CheckConsistencyDetailsForLevel (level_files : list FileMetaData) (checker : FileMetaData -> FileMetaData -> bool)
    (expected : gmap Z (gset Z)) : bool * gmap Z (gset Z) :=
  match level_files with
  | [] => (true, expected)
  | f :: files => check_neighbours checker f files (expect_file f expected)
  end.
Definition l0_checker (epoch_number_requirement : EpochNumberRequirement) (lhs rhs : FileMetaData) : bool :=
  match epoch_number_requirement with
  | kMightMissing => NewestFirstBySeqNo lhs rhs
  | kMustPresent =>
      let range_overlapped := (InternalKeyComparator_Compare (smallest lhs) (largest rhs) <=? 0) &&
                              (InternalKeyComparator_Compare (largest lhs) (smallest rhs) >=? 0) in
      if (epoch_number lhs =? epoch_number rhs) && range_overlapped then false else NewestFirstByEpochNumber lhs rhs
  end.
Definition checker (lhs rhs : FileMetaData) : bool :=
  BySmallestKey lhs rhs && negb (InternalKeyComparator_Compare (largest lhs) (smallest rhs) >=? 0).
(** Levels from [level] on, [n] of them. *)
Fixpoint check_levels (vstorage : VersionStorageInfo) (level n : nat) (expected : gmap Z (gset Z)) : bool * gmap Z (gset Z) :=
  match n with
  | O => (true, expected)
  | S n =>
      let '(ok, expected) := CheckConsistencyDetailsForLevel (LevelFiles vstorage level) checker expected in
      if ok then check_levels vstorage (S level) n expected else (false, expected)
  end.
Definition check_blob_file (expected : gmap Z (gset Z)) (m : BlobFileMetaData) : bool :=
  negb (meta_garbage_count_ m >=? total_blob_count_ (shared_meta_ m)) &&
  bool_decide (linked_ssts_ m = default ∅ (expected !! GetBlobFileNumber m)).
Definition CheckConsistencyDetails (num_levels : nat) (vstorage : VersionStorageInfo) : Status :=
  let '(ok, expected) :=
    match num_levels with
    | O => (true, ∅)
    | S n =>
        let '(ok, expected) := CheckConsistencyDetailsForLevel (LevelFiles vstorage 0) (l0_checker (epoch_number_requirement_ vstorage)) ∅ in
        if ok then check_levels vstorage 1 n expected else (false, expected)
    end in
  if ok && forallb (check_blob_file expected) (blob_files_ vstorage) then Status_OK else Status_Corruption.
Definition CheckConsistency (num_levels : nat) (vstorage : VersionStorageInfo) : Status :=
  if negb (force_consistency_checks_ vstorage) then Status_OK else CheckConsistencyDetails num_levels vstorage.
Definition CheckConsistencyForNumLevels (r : Rep) : bool :=
  negb (has_invalid_levels_ r) && forallb (fun p => p.2 =? 0) (map_to_list (invalid_level_sizes_ r)).

(** * Applying an edit *)

Definition IsBlobFileInVersion (r : Rep) (blob_file_number : Z) : bool :=
  match mutable_blob_file_metas_ r !! blob_file_number with
  | Some _ => true
  | None => match GetBlobFileMetaData (base_vstorage_ r) blob_file_number with Some _ => true | None => false end
  end.
(** The metadata to change, and the builder that has it. *)
Definition GetOrCreateMutableBlobFileMetaData (r : Rep) (blob_file_number : Z) : option MutableBlobFileMetaData * Rep :=
  match mutable_blob_file_metas_ r !! blob_file_number with
  | Some m => (Some m, r)
  | None =>
      match GetBlobFileMetaData (base_vstorage_ r) blob_file_number with
      | Some meta =>
          let m := MutableBlobFileMetaData_of meta in
          (Some m, r <| mutable_blob_file_metas_ := <[blob_file_number := m]> (mutable_blob_file_metas_ r) |>)
      | None => (None, r)
      end
  end.
Definition change_blob_file (blob_file_number : Z) (f : MutableBlobFileMetaData -> MutableBlobFileMetaData) (r : Rep) : Rep :=
  match GetOrCreateMutableBlobFileMetaData r blob_file_number with
  | (Some m, r) => r <| mutable_blob_file_metas_ := <[blob_file_number := f m]> (mutable_blob_file_metas_ r) |>
  | (None, r) => r
  end.
Definition is_missing (s : Status) : bool :=
  match code_ s with kNotFound | kCorruption => true | kIOError => bool_decide (subcode_ s = kPathNotFound) | _ => false end.
Definition ApplyBlobFileAddition (verify_blob_file : Z -> Status) (b : BlobFileAddition) (r : Rep) : Status * Rep :=
  let blob_file_number := blob_file_number_ b in
  if IsBlobFileInVersion r blob_file_number then (Status_Corruption, r)
  else
    let r := r <| mutable_blob_file_metas_ := <[blob_file_number := MutableBlobFileMetaData_new b]> (mutable_blob_file_metas_ r) |> in
    if track_found_and_missing_files_ r then
      let s := verify_blob_file blob_file_number in
      if is_missing s then
        (Status_OK, r <| missing_blob_files_high_ := Z.max (missing_blob_files_high_ r) blob_file_number |>
                      <| missing_blob_files_ := missing_blob_files_ r ∪ {[blob_file_number]} |>)
      else (s, r)
    else (Status_OK, r).
Definition ApplyBlobFileGarbage (g : BlobFileGarbage) (r : Rep) : Status * Rep :=
  match GetOrCreateMutableBlobFileMetaData r (garbage_file_number_ g) with
  | (None, r) => (Status_Corruption, r)
  | (Some m, r) =>
      match AddGarbage (garbage_blob_count_ g) (garbage_blob_bytes_ g) m with
      | None => (Status_Corruption, r)
      | Some m => (Status_OK, r <| mutable_blob_file_metas_ := <[garbage_file_number_ g := m]> (mutable_blob_file_metas_ r) |>)
      end
  end.

(** Level -1 is that of a file that is not there. *)
Definition kInvalidLevel : Z := -1.
Definition GetCurrentLevelForTableFile (r : Rep) (file_number : Z) : Z :=
  match table_file_levels_ r !! file_number with
  | Some level => level
  | None => match GetFileLocation (base_vstorage_ r) file_number with Some (level, _) => Z.of_nat level | None => kInvalidLevel end
  end.
Definition level_state (r : Rep) (level : Z) : option LevelState := if level <? 0 then None else levels_ r !! Z.to_nat level.
Definition set_level_state (level : Z) (l : LevelState) (r : Rep) : Rep := r <| levels_ := <[Z.to_nat level := l]> (levels_ r) |>.
Definition GetOldestBlobFileNumberForTableFile (r : Rep) (l : LevelState) (file_number : Z) : option Z :=
  match level_added_files l !! file_number with
  | Some meta => Some (oldest_blob_file_number meta)
  | None => oldest_blob_file_number <$> GetFileMetaDataByNumber (base_vstorage_ r) file_number
  end.
(** The files that are found or missing, after a deletion. *)
Definition forget_file (file_number : Z) (r : Rep) : Rep :=
  if negb (track_found_and_missing_files_ r) then r
  else if decide (file_number ∈ l0_missing_files_ r) then r <| l0_missing_files_ := l0_missing_files_ r ∖ {[file_number]} |>
  else if decide (file_number ∈ non_l0_missing_files_ r) then r <| non_l0_missing_files_ := non_l0_missing_files_ r ∖ {[file_number]} |>
  else if decide (file_number ∈ found_files_ r) then
    r <| intermediate_files_ := intermediate_files_ r ++ [file_number] |> <| found_files_ := found_files_ r ∖ {[file_number]} |>
  else r.
Definition ApplyFileDeletion (d : Z * Z) (r : Rep) : option (Status * Rep) :=
  let '(level, file_number) := d in
  let num_levels := Z.of_nat (rep_num_levels_ r) in
  if negb (level =? GetCurrentLevelForTableFile r file_number) then
    Some (Status_Corruption, if level >=? num_levels then r <| has_invalid_levels_ := true |> else r)
  else if level >=? num_levels then
    Some (Status_OK, r <| invalid_level_sizes_ := <[level := u64 (default 0 (invalid_level_sizes_ r !! level) - 1)]> (invalid_level_sizes_ r) |>
                       <| table_file_levels_ := <[file_number := kInvalidLevel]> (table_file_levels_ r) |>)
  else
    l ← level_state r level;
    blob_file_number ← GetOldestBlobFileNumberForTableFile r l file_number;
    let r := if negb (blob_file_number =? kInvalidBlobFileNumber) then change_blob_file blob_file_number (UnlinkSst file_number) r else r in
    let r := set_level_state level {| level_deleted_files := level_deleted_files l ∪ {[file_number]};
                                      level_added_files := delete file_number (level_added_files l) |} r in
    let r := r <| table_file_levels_ := <[file_number := kInvalidLevel]> (table_file_levels_ r) |> in
    Some (Status_OK, forget_file file_number r).
Definition ApplyFileAddition (verify_file : Z -> FileMetaData -> Status) (x : Z * FileMetaData) (r : Rep) : option (Status * Rep) :=
  let '(level, meta) := x in
  let num_levels := Z.of_nat (rep_num_levels_ r) in
  let file_number := GetNumber (fd meta) in
  if negb (GetCurrentLevelForTableFile r file_number =? kInvalidLevel) then
    Some (Status_Corruption, if level >=? num_levels then r <| has_invalid_levels_ := true |> else r)
  else if level >=? num_levels then
    Some (Status_OK, r <| invalid_level_sizes_ := <[level := u64 (default 0 (invalid_level_sizes_ r !! level) + 1)]> (invalid_level_sizes_ r) |>
                       <| table_file_levels_ := <[file_number := level]> (table_file_levels_ r) |>)
  else
    l ← level_state r level;
    let r := set_level_state level {| level_deleted_files := level_deleted_files l ∖ {[file_number]};
                                      level_added_files := <[file_number := meta]> (level_added_files l) |} r in
    let r := if negb (oldest_blob_file_number meta =? kInvalidBlobFileNumber)
             then change_blob_file (oldest_blob_file_number meta) (LinkSst file_number) r else r in
    let r := r <| table_file_levels_ := <[file_number := level]> (table_file_levels_ r) |> in
    if negb (track_found_and_missing_files_ r) then Some (Status_OK, r)
    else
      let s := verify_file level meta in
      if is_missing s then
        let r := if level =? 0 then r <| l0_missing_files_ := l0_missing_files_ r ∪ {[file_number]} |>
                 else r <| non_l0_missing_files_ := non_l0_missing_files_ r ∪ {[file_number]} |> in
        Some (Status_OK, if bool_decide (code_ s = kCorruption) then r <| found_files_ := found_files_ r ∪ {[file_number]} |> else r)
      else if status_ok s then Some (s, r <| found_files_ := found_files_ r ∪ {[file_number]} |>)
      else Some (s, r).
Definition ApplyCompactCursors (c : Z * bytes) (r : Rep) : Status * Rep :=
  let '(level, smallest_uncompacted_key) := c in
  if level <? 0 then (Status_Corruption, r)
  else if level <? Z.of_nat (rep_num_levels_ r)
  then (Status_OK, r <| updated_compact_cursors_ := <[level := smallest_uncompacted_key]> (updated_compact_cursors_ r) |>)
  else (Status_OK, r).

(** One after the other, up to the first that fails. *)
Fixpoint apply_each {A} (f : A -> Rep -> option (Status * Rep)) (l : list A) (r : Rep) : option (Status * Rep) :=
  match l with
  | [] => Some (Status_OK, r)
  | x :: l => '(s, r) ← f x r; if status_ok s then apply_each f l r else Some (s, r)
  end.
Definition and_then (m : option (Status * Rep)) (k : Rep -> option (Status * Rep)) : option (Status * Rep) :=
  '(s, r) ← m; if status_ok s then k r else Some (s, r).
Definition total {A} (f : A -> Rep -> Status * Rep) (x : A) (r : Rep) : option (Status * Rep) := Some (f x r).
(** The edit changes the set of files. *)
Definition version_updated (e : VersionEdit) : bool :=
  negb (bool_decide (blob_file_additions_ e = [])) || negb (bool_decide (blob_file_garbages_ e = [])) ||
  negb (bool_decide (deleted_files_ e = [])) || negb (bool_decide (new_files_ e = [])).
Definition Apply (verify_file : Z -> FileMetaData -> Status) (verify_blob_file : Z -> Status) (e : VersionEdit) (r : Rep) :
    option (Status * Rep) :=
  let s := CheckConsistency (rep_num_levels_ r) (base_vstorage_ r) in
  if negb (status_ok s) then Some (s, r)
  else
    and_then (apply_each (total (ApplyBlobFileAddition verify_blob_file)) (blob_file_additions_ e) r) (fun r =>
    and_then (apply_each (total ApplyBlobFileGarbage) (blob_file_garbages_ e) r) (fun r =>
    and_then (apply_each ApplyFileDeletion (deleted_files_ e) r) (fun r =>
    and_then (apply_each (ApplyFileAddition verify_file) (new_files_ e) r) (fun r =>
    and_then (apply_each (total ApplyCompactCursors) (compact_cursors_ e) r) (fun r =>
    Some (Status_OK,
      if track_found_and_missing_files_ r && version_updated e then
        r <| version_updated_since_last_check_ := true |>
          <| edited_in_atomic_group_ := edited_in_atomic_group_ r || is_in_atomic_group_ e |>
      else r)))))).

(** * Saving the version *)

(** The blob files of the base version and the changed ones, by number. *)
Inductive BlobEntry := InBase (m : BlobFileMetaData) | InMutable (m : MutableBlobFileMetaData) | InBoth (b : BlobFileMetaData) (m : MutableBlobFileMetaData).
Fixpoint MergeBlobFileMetas (base : list BlobFileMetaData) : list (Z * MutableBlobFileMetaData) -> list BlobEntry :=
  match base with
  | [] => map (fun p => InMutable p.2)
  | b :: base' =>
      (fix merge (metas : list (Z * MutableBlobFileMetaData)) : list BlobEntry :=
        match metas with
        | [] => InBase b :: MergeBlobFileMetas base' []
        | (n, m) :: metas' =>
            if GetBlobFileNumber b <? n then InBase b :: MergeBlobFileMetas base' metas
            else if n <? GetBlobFileNumber b then InMutable m :: merge metas'
            else InBoth b m :: MergeBlobFileMetas base' metas'
        end)
  end.
(** [std::map] goes through its keys in order. *)
Definition sorted_metas (r : Rep) : list (Z * MutableBlobFileMetaData) :=
  sort (fun a b => a.1 <? b.1) (map_to_list (mutable_blob_file_metas_ r)).
Definition blob_entries (r : Rep) (first_blob_file : Z) : list BlobEntry :=
  MergeBlobFileMetas (drop (GetBlobFileMetaDataLB (base_vstorage_ r) first_blob_file) (blob_files_ (base_vstorage_ r)))
    (filter (fun p => first_blob_file <= p.1) (sorted_metas r)).
(** The metadata after the changes. *)
Definition entry_meta (x : BlobEntry) : BlobFileMetaData :=
  match x with InBase b => b | InMutable m => mutable_meta m | InBoth _ m => mutable_meta m end.
Definition GetMinOldestBlobFileNumber (r : Rep) : Z :=
  match List.find (fun x => negb (bool_decide (linked_ssts_ (entry_meta x) = ∅))) (blob_entries r kInvalidBlobFileNumber) with
  | Some x => GetBlobFileNumber (entry_meta x)
  | None => kInvalidBlobFileNumber
  end.
Definition OnlyLinkedToMissingL0Files (r : Rep) (linked_ssts : gset Z) : bool := bool_decide (linked_ssts ⊆ l0_missing_files_ r).
Definition AddBlobFileIfNeeded (r : Rep) (m : BlobFileMetaData) (vstorage : VersionStorageInfo) : VersionStorageInfo :=
  if track_found_and_missing_files_ r &&
     (bool_decide (GetBlobFileNumber m ∈ missing_blob_files_ r) ||
      negb (bool_decide (linked_ssts_ m = ∅)) && OnlyLinkedToMissingL0Files r (linked_ssts_ m)) then vstorage
  else if bool_decide (linked_ssts_ m = ∅) && (meta_garbage_count_ m >=? total_blob_count_ (shared_meta_ m)) then vstorage
  else VersionStorageInfo_AddBlobFile m vstorage.
Definition save_blob_file (r : Rep) (vstorage : VersionStorageInfo) (x : BlobEntry) : VersionStorageInfo :=
  AddBlobFileIfNeeded r (match x with
                         | InBase b => b
                         | InMutable m => mutable_meta m
                         | InBoth b m => if HasDelta m then mutable_meta m else b
                         end) vstorage.
Definition SaveBlobFilesTo (r : Rep) (vstorage : VersionStorageInfo) : VersionStorageInfo :=
  let oldest_blob_file_with_linked_ssts := GetMinOldestBlobFileNumber r in
  if oldest_blob_file_with_linked_ssts =? kInvalidBlobFileNumber then vstorage
  else fold_left (save_blob_file r) (blob_entries r oldest_blob_file_with_linked_ssts) vstorage.

(** A file of the base version, or one that was added. *)
Inductive FilePtr := BaseFile (f : FileMetaData) | AddedFile (f : FileMetaData).
Definition deref (p : FilePtr) : FileMetaData := match p with BaseFile f | AddedFile f => f end.
Definition MaybeAddFile (r : Rep) (level : nat) (vstorage : VersionStorageInfo) (p : FilePtr) : VersionStorageInfo :=
  let file_number := GetNumber (fd (deref p)) in
  if track_found_and_missing_files_ r && bool_decide (level = 0)%nat && bool_decide (file_number ∈ l0_missing_files_ r) then vstorage
  else
    let l := default NewLevelState (levels_ r !! level) in
    if decide (file_number ∈ level_deleted_files l) then vstorage
    else
      match level_added_files l !! file_number, p with
      | Some _, BaseFile _ => vstorage
      | _, _ => VersionStorageInfo_AddFile level (deref p) vstorage
      end.
(** The added files, sorted, merged into the base files: an added file comes first when it is before the base file. *)
Fixpoint merge_files (cmp : FileMetaData -> FileMetaData -> bool) (base added : list FileMetaData) : list FilePtr :=
  match base with
  | [] => map AddedFile added
  | b :: base' =>
      (fix merge (added : list FileMetaData) : list FilePtr :=
        match added with
        | [] => BaseFile b :: merge_files cmp base' []
        | a :: added' => if cmp a b then AddedFile a :: merge added' else BaseFile b :: merge_files cmp base' added
        end) added
  end.
Definition MergeUnorderdAddedFilesWithBase (base_files : list FileMetaData) (unordered_added_files : gmap Z FileMetaData)
    (cmp : FileMetaData -> FileMetaData -> bool) : list FilePtr :=
  merge_files cmp base_files (sort cmp (map snd (map_to_list unordered_added_files))).
Definition level_added (r : Rep) (level : nat) : gmap Z FileMetaData := level_added_files (default NewLevelState (levels_ r !! level)).
Definition SaveSSTFilesToLevel (r : Rep) (level : nat) (cmp : FileMetaData -> FileMetaData -> bool) (vstorage : VersionStorageInfo) : VersionStorageInfo :=
  fold_left (MaybeAddFile r level)
    (MergeUnorderdAddedFilesWithBase (LevelFiles (base_vstorage_ r) level) (level_added r level) cmp) vstorage.
Definition PromoteEpochNumberRequirementIfNeeded (r : Rep) (vstorage : VersionStorageInfo) : VersionStorageInfo :=
  if HasMissingEpochNumber vstorage then vstorage
  else if existsb (fun level => existsb (fun p : Z * FileMetaData => epoch_number p.2 =? kUnknownEpochNumber) (map_to_list (level_added r level)))
            (seq 0 (rep_num_levels_ r)) then vstorage
  else vstorage <| epoch_number_requirement_ := kMustPresent |>.
Definition SaveSSTFilesTo (r : Rep) (vstorage : VersionStorageInfo) : VersionStorageInfo :=
  match rep_num_levels_ r with
  | O => vstorage
  | S n =>
      let vstorage := match epoch_number_requirement_ vstorage with
                      | kMightMissing => PromoteEpochNumberRequirementIfNeeded r vstorage
                      | kMustPresent => vstorage
                      end in
      let vstorage := SaveSSTFilesToLevel r 0 match epoch_number_requirement_ vstorage with
                                              | kMightMissing => NewestFirstBySeqNo
                                              | kMustPresent => NewestFirstByEpochNumber
                                              end vstorage in
      fold_left (fun vstorage level => SaveSSTFilesToLevel r level BySmallestKey vstorage) (seq 1 n) vstorage
  end.
Definition SaveCompactCursorsTo (r : Rep) (vstorage : VersionStorageInfo) : VersionStorageInfo :=
  map_fold (fun level key vstorage => AddCursorForOneLevel (Z.to_nat level) key vstorage) vstorage (updated_compact_cursors_ r).
Definition SaveTo (r : Rep) (vstorage : VersionStorageInfo) : Status * VersionStorageInfo :=
  let s := CheckConsistency (rep_num_levels_ r) vstorage in
  if negb (status_ok s) then (s, vstorage)
  else
    let vstorage := SaveCompactCursorsTo r (SaveBlobFilesTo r (SaveSSTFilesTo r vstorage)) in
    (CheckConsistency (rep_num_levels_ r) vstorage, vstorage).

(** * Missing files *)

Definition ContainsCompleteVersion (r : Rep) : bool :=
  bool_decide (l0_missing_files_ r = ∅) && bool_decide (non_l0_missing_files_ r = ∅) &&
  ((missing_blob_files_high_ r =? kInvalidBlobFileNumber) || (missing_blob_files_high_ r <? GetMinOldestBlobFileNumber r)).
Definition HasMissingFiles (r : Rep) : bool :=
  negb (bool_decide (l0_missing_files_ r = ∅)) || negb (bool_decide (non_l0_missing_files_ r = ∅)) ||
  negb (missing_blob_files_high_ r =? kInvalidBlobFileNumber).
(** All missing files are seen before the first one that is not missing. *)
Fixpoint missing_first (l0_missing unaddressed : gset Z) (files : list FilePtr) : bool :=
  match files with
  | [] => true
  | p :: files =>
      let file_number := GetNumber (fd (deref p)) in
      if decide (file_number ∈ l0_missing) then missing_first l0_missing (unaddressed ∖ {[file_number]}) files
      else bool_decide (unaddressed = ∅)
  end.
Definition MissingL0FilesAreL0Suffix (r : Rep) : bool :=
  missing_first (l0_missing_files_ r) (l0_missing_files_ r)
    (MergeUnorderdAddedFilesWithBase (LevelFiles (base_vstorage_ r) 0) (level_added r 0)
       match epoch_number_requirement_ (base_vstorage_ r) with
       | kMightMissing => NewestFirstBySeqNo
       | kMustPresent => NewestFirstByEpochNumber
       end).
Definition RemainingSstFilesNotMissingBlobFiles (r : Rep) : bool :=
  let no_l0_files_missing := bool_decide (l0_missing_files_ r = ∅) in
  let min_oldest_blob_file_num := GetMinOldestBlobFileNumber r in
  forallb (fun missing_blob_file =>
      (missing_blob_file <? min_oldest_blob_file_num) ||
      match mutable_blob_file_metas_ r !! missing_blob_file with
      | Some m =>
          let linked_ssts := linked_ssts_ (mutable_meta m) in
          negb (negb (bool_decide (linked_ssts = ∅)) && no_l0_files_missing) && OnlyLinkedToMissingL0Files r linked_ssts
      | None => false
      end) (elements (missing_blob_files_ r)).
Definition OnlyMissingL0Suffix (r : Rep) : bool :=
  if negb (bool_decide (non_l0_missing_files_ r = ∅)) then false
  else if negb (bool_decide (l0_missing_files_ r = ∅)) && negb (MissingL0FilesAreL0Suffix r) then false
  else if negb (bool_decide (missing_blob_files_ r = ∅)) && negb (RemainingSstFilesNotMissingBlobFiles r) then false
  else true.
Definition ValidVersionAvailable (r : Rep) : bool * Rep :=
  if version_updated_since_last_check_ r then
    let complete := ContainsCompleteVersion r in
    let valid := if negb complete && negb (edited_in_atomic_group_ r) && allow_incomplete_valid_version_ r
                 then OnlyMissingL0Suffix r else complete in
    (valid, r <| valid_version_available_ := valid |> <| version_updated_since_last_check_ := false |>)
  else (valid_version_available_ r, r).

(** * The builder and its save point *)

Record VersionBuilder := { rep_ : Rep; savepoint_ : option Rep }.
(** The state so far is the save point; the builder goes on with a copy of it. *)
Definition CreateOrReplaceSavePoint (b : VersionBuilder) : VersionBuilder := {| rep_ := rep_ b; savepoint_ := Some (rep_ b) |}.
Definition ClearSavePoint (b : VersionBuilder) : VersionBuilder := {| rep_ := rep_ b; savepoint_ := None |}.
Definition SaveSavePointTo (b : VersionBuilder) (vstorage : VersionStorageInfo) : Status * VersionStorageInfo * VersionBuilder :=
  match savepoint_ b with
  | None => (Status_InvalidArgument, vstorage, b)
  | Some r =>
      let '(valid, r) := ValidVersionAvailable r in
      let b := {| rep_ := rep_ b; savepoint_ := Some r |} in
      if negb valid then (Status_InvalidArgument, vstorage, b)
      else let '(s, vstorage) := SaveTo r vstorage in (s, vstorage, b)
  end.
Definition ClearFoundFiles (r : Rep) : Rep := r <| found_files_ := ∅ |>.
End Builder.
