(* ===== verification/VersionBuilderProofs.v ===== *)
(** The version that a builder saves has the files that the edits leave. *)

From stdpp Require Import gmap sorting.
From S2P Require Import Prelude Cursor Algorithms Coding Comparator DbFormat Status VersionEdit VersionStorage VersionStorageProofs VersionBuilder.

Open Scope record_scope.

(** * The specification: a map from file numbers to files and their levels *)

Abbreviation lsm := (gmap Z (Z * FileMetaData)).
Definition lsm_delete (d : Z * Z) (t : lsm) : option lsm :=
  match t !! d.2 with
  | Some (level, _) => if level =? d.1 then Some (delete d.2 t) else None
  | None => None
  end.
Definition lsm_add (x : Z * FileMetaData) (t : lsm) : option lsm :=
  match t !! GetNumber (fd x.2) with
  | Some _ => None
  | None => Some (<[GetNumber (fd x.2) := x]> t)
  end.
Fixpoint lsm_each {A} (f : A -> lsm -> option lsm) (l : list A) (t : lsm) : option lsm :=
  match l with [] => Some t | x :: l => t ← f x t; lsm_each f l t end.
Definition lsm_apply (e : VersionEdit) (t : lsm) : option lsm :=
  t ← lsm_each lsm_delete (deleted_files_ e) t; lsm_each lsm_add (new_files_ e) t.

(** * What a builder stands for *)

(** Every file is where the index of the version says, once. *)
Definition located (v : VersionStorageInfo) : Prop := forall n level pos, file_locations_ v !! n = Some (level, pos) <->
  (level < num_levels_ v)%nat /\ exists f, LevelFiles v level !! pos = Some f /\ GetNumber (fd f) = n.
Definition base_file (v : VersionStorageInfo) (level : nat) (n : Z) (f : FileMetaData) : Prop := f ∈ LevelFiles v level /\ GetNumber (fd f) = n.

Lemma located_base v level n f : located v -> (level < num_levels_ v)%nat -> base_file v level n f ->
  exists pos, file_locations_ v !! n = Some (level, pos) /\ LevelFiles v level !! pos = Some f.
Proof. intros Hv Hl [[pos Ef]%list_elem_of_lookup Hn]. exists pos. split; [| done]. apply Hv. eauto. Qed.
Lemma located_unique v level level' n f f' : located v -> (level < num_levels_ v)%nat -> (level' < num_levels_ v)%nat ->
  base_file v level n f -> base_file v level' n f' -> level = level' /\ f = f'.
Proof.
  intros Hv Hl Hl' H1 H2. destruct (located_base v level n f) as (p & E1 & F1); [done.. |].
  destruct (located_base v level' n f') as (p' & E2 & F2); [done.. |]. rewrite E1 in E2. injection E2 as <- <-. rewrite F1 in F2. by injection F2 as <-.
Qed.

(** The files of a version. *)
Definition version_files (v : VersionStorageInfo) : lsm :=
  list_to_map (concat (map (fun level => map (fun f => (GetNumber (fd f), (Z.of_nat level, f))) (LevelFiles v level)) (seq 0 (num_levels_ v)))).
Lemma version_files_spec v n level f : located v -> version_files v !! n = Some (level, f) <->
  0 <= level < Z.of_nat (num_levels_ v) /\ base_file v (Z.to_nat level) n f.
Proof.
  intros Hv. unfold version_files. set (l := concat _).
  assert (Hin : forall n level f, (n, (level, f)) ∈ l <-> 0 <= level < Z.of_nat (num_levels_ v) /\ base_file v (Z.to_nat level) n f).
  { clear n level f. intros n level f. unfold l, base_file. rewrite list_elem_of_In, in_concat. setoid_rewrite in_map_iff. split.
    - intros (x & (i & <- & Hi) & Hx). apply in_seq in Hi. apply in_map_iff in Hx as (g & [= <- <- <-] & Hg). apply list_elem_of_In in Hg.
      rewrite Nat2Z.id. split; [lia | done].
    - intros (Hl & Hf & <-). eexists. split; [exists (Z.to_nat level); split; [reflexivity |]; apply in_seq; lia |].
      apply in_map_iff. exists f. rewrite Z2Nat.id by lia. split; [done | by apply list_elem_of_In]. }
  rewrite <- Hin. assert (Hnd : forall x y y', (x, y) ∈ l -> (x, y') ∈ l -> y = y').
  { intros x [l1 f1] [l2 f2] [H1 H1']%Hin [H2 H2']%Hin. destruct (located_unique v (Z.to_nat l1) (Z.to_nat l2) x f1 f2); [done | lia | lia | done | done |]. f_equal; [lia | done]. }
  clear Hin. clearbody l. split; [apply elem_of_list_to_map_2 |]. intros H. induction l as [| [x y] l IH]; [by apply not_elem_of_nil in H |]. rewrite list_to_map_cons.
  destruct (decide (x = n)) as [-> | Hne].
  - rewrite lookup_insert_eq. f_equal. apply (Hnd n); [by left | done].
  - rewrite lookup_insert_ne by done. apply IH.
    + intros x' y1 y2 H1 H2. apply (Hnd x'); by right.
    + by apply elem_of_cons in H as [[= -> _] | H].
Qed.

Section Base.
Context (v : VersionStorageInfo) (track : bool).

(** The file of a level after the changes. *)
Definition visible (r : Rep) (level : nat) (n : Z) (f : FileMetaData) : Prop :=
  exists l, levels_ r !! level = Some l /\ (n ∉ level_deleted_files l) /\
    (level_added_files l !! n = Some f \/ level_added_files l !! n = None /\ base_file (base_vstorage_ r) level n f).
Record reps (r : Rep) (t : lsm) : Prop := {
  rp_track : track_found_and_missing_files_ r = track;
  rp_base : base_vstorage_ r = v;
  rp_num : rep_num_levels_ r = num_levels_ v;
  rp_located : located v;
  rp_levels : length (levels_ r) = num_levels_ v;
  rp_current n : GetCurrentLevelForTableFile r n = match t !! n with Some (level, _) => level | None => kInvalidLevel end;
  rp_files n level f : t !! n = Some (level, f) -> 0 <= level /\ GetNumber (fd f) = n;
  rp_added level l n f : levels_ r !! level = Some l -> level_added_files l !! n = Some f -> GetNumber (fd f) = n /\ (n ∉ level_deleted_files l);
  rp_visible level n f : (level < num_levels_ v)%nat -> t !! n = Some (Z.of_nat level, f) <-> visible r level n f;
}.

(** ** A new builder *)

Lemma NewRep_reps allow : located v -> reps (NewRep v track allow) (version_files v).
Proof.
  intros Hv. split; cbn; [done | done | done | done | apply length_replicate | | | |].
  - intros n. unfold GetCurrentLevelForTableFile. cbn. rewrite lookup_empty. unfold GetFileLocation.
    destruct (file_locations_ v !! n) as [[level pos] |] eqn:E.
    + apply Hv in E as (Hl & f & Ef & Hn). assert (version_files v !! n = Some (Z.of_nat level, f)) as ->; [| done].
      apply version_files_spec; [done |]. rewrite Nat2Z.id. split; [lia |]. split; [by apply list_elem_of_lookup_2 in Ef | done].
    + destruct (version_files v !! n) as [[level f] |] eqn:Ev; [| done]. apply version_files_spec in Ev as (Hl & Hb); [| done].
      destruct (located_base v (Z.to_nat level) n f) as (pos & E' & _); [done | lia | done |]. congruence.
  - intros n level f Ev. apply version_files_spec in Ev as (Hl & _ & Hn); [| done]. split; [lia | done].
  - intros level l n f E Ea. apply lookup_replicate in E as [-> _]. cbn in Ea. by rewrite lookup_empty in Ea.
  - intros level n f Hl. unfold visible. cbn. rewrite lookup_replicate_2 by done. rewrite version_files_spec, Nat2Z.id by done. split.
    + intros [_ Hb]. exists NewLevelState. split; [done |]. split; [set_solver |]. right. split; [apply lookup_empty | done].
    + intros (l & [= <-] & _ & [E | (_ & Hb)]); [cbn in E; by rewrite lookup_empty in E | split; [lia | done]].
Qed.

(** ** Applying an edit *)

(** The tables and where they are did not change. *)
Definition same_files (r r' : Rep) : Prop := base_vstorage_ r' = base_vstorage_ r /\ rep_num_levels_ r' = rep_num_levels_ r /\
  levels_ r' = levels_ r /\ table_file_levels_ r' = table_file_levels_ r /\ track_found_and_missing_files_ r' = track_found_and_missing_files_ r.
Lemma reps_same r r' t : same_files r r' -> reps r t -> reps r' t.
Proof.
  intros (E1 & E2 & E3 & E4 & E5) [H0 H1 H2 H3 H3' H4 H5 H5' H6]. split; unfold GetCurrentLevelForTableFile, visible in *; rewrite ?E1, ?E2, ?E3, ?E4, ?E5; done.
Qed.
Lemma same_files_trans r1 r2 r3 : same_files r1 r2 -> same_files r2 r3 -> same_files r1 r3.
Proof. unfold same_files. intuition congruence. Qed.
Lemma same_files_create r n : same_files r (GetOrCreateMutableBlobFileMetaData r n).2.
Proof. unfold GetOrCreateMutableBlobFileMetaData. destruct (_ !! _); [by cbn |]. by destruct (GetBlobFileMetaData _ _). Qed.
Lemma same_files_blob n f r : same_files r (change_blob_file n f r).
Proof. unfold change_blob_file. pose proof (same_files_create r n) as H. by destruct (GetOrCreateMutableBlobFileMetaData r n) as [[m |] r']. Qed.
Lemma same_files_forget n r : same_files r (forget_file n r).
Proof. unfold forget_file. by repeat case_match. Qed.

Lemma reps_level_state r t level : reps r t -> 0 <= level < Z.of_nat (rep_num_levels_ r) -> exists l, level_state r level = Some l /\ levels_ r !! Z.to_nat level = Some l.
Proof.
  intros Hr Hl. destruct (lookup_lt_is_Some_2 (levels_ r) (Z.to_nat level)) as [l El]; [rewrite (rp_levels r t Hr), <- (rp_num r t Hr); lia |]. exists l.
  unfold level_state. destruct (Z.ltb_spec level 0); [lia | done].
Qed.

(** The change of one level that leaves the files with other numbers. *)
Definition changed_level (n : Z) (l l' : LevelState) : Prop := forall n', n' <> n ->
  level_added_files l' !! n' = level_added_files l !! n' /\ (n' ∈ level_deleted_files l' <-> n' ∈ level_deleted_files l).
Lemma visible_other r level l l' n level' n' f where_ : levels_ r !! level = Some l -> changed_level n l l' -> n' <> n \/ level' <> level ->
  visible (set_level_state (Z.of_nat level) l' r <| table_file_levels_ := where_ |>) level' n' f <-> visible r level' n' f.
Proof.
  intros El Hc Hn. unfold visible, set_level_state. cbn. rewrite Nat2Z.id. destruct (decide (level' = level)) as [-> | Hl].
  - rewrite list_lookup_insert_eq, El by (by apply lookup_lt_Some in El). destruct Hn as [Hn | Hn]; [| done]. destruct (Hc n' Hn) as [E1 E2].
    split; intros (l1 & [= <-] & H); eexists; (split; [reflexivity |]); rewrite E1, E2 in *; done.
  - by rewrite list_lookup_insert_ne by done.
Qed.

Lemma delete_reps r t level n l f : reps r t -> levels_ r !! level = Some l -> t !! n = Some (Z.of_nat level, f) ->
  reps (set_level_state (Z.of_nat level) {| level_deleted_files := level_deleted_files l ∪ {[n]}; level_added_files := delete n (level_added_files l) |} r
        <| table_file_levels_ := <[n := kInvalidLevel]> (table_file_levels_ r) |>) (delete n t).
Proof.
  intros Hr El Et. pose proof Hr as [H0 H1 H2 H3 H3' H4 H5 H5' H6]. set (l' := {| level_deleted_files := _ |}).
  assert (Hc : changed_level n l l') by (intros n' Hn; cbn; rewrite lookup_delete_ne by done; split; [done | set_solver]). split; [done | done | done | done | cbn; by rewrite length_insert | | | |].
  - intros n'. destruct (decide (n' = n)) as [-> | Hn]; [rewrite lookup_delete_eq | rewrite lookup_delete_ne, <- H4 by done];
      unfold GetCurrentLevelForTableFile; cbn; [by rewrite lookup_insert_eq | by rewrite lookup_insert_ne].
  - intros n' level' f' E. apply lookup_delete_Some in E as [_ E]. by apply H5.
  - intros level' l1 n' f' E Ea. cbn in E. rewrite Nat2Z.id in E. apply list_lookup_insert_Some in E as [(<- & <- & _) | [_ E]]; [| by apply (H5' level' l1)].
    cbn in Ea. apply lookup_delete_Some in Ea as [Hn Ea]. destruct (H5' level l n' f' El Ea) as [? ?]. split; [done |]. cbn. set_solver.
  - intros level' n' f' Hl. destruct (decide (n' = n)) as [-> | Hn].
    + rewrite lookup_delete_eq. split; [done |]. intros Hv. destruct (decide (level' = level)) as [-> | Hne].
      * unfold visible, set_level_state in Hv. cbn in Hv. rewrite Nat2Z.id, list_lookup_insert_eq in Hv by (by apply lookup_lt_Some in El).
        destruct Hv as (l1 & [= <-] & Hd & _). cbn in Hd. set_solver.
      * apply (visible_other r level l l' n) in Hv; [| done | done | by right]. apply H6 in Hv; [| done]. rewrite Et in Hv. injection Hv as ? _. lia.
    + rewrite lookup_delete_ne by done. rewrite (visible_other r level l l' n) by (by try left). by apply H6.
Qed.
Lemma add_reps r t level l f : reps r t -> levels_ r !! level = Some l -> let n := GetNumber (fd f) in t !! n = None ->
  reps (set_level_state (Z.of_nat level) {| level_deleted_files := level_deleted_files l ∖ {[n]}; level_added_files := <[n := f]> (level_added_files l) |} r
        <| table_file_levels_ := <[n := Z.of_nat level]> (table_file_levels_ r) |>) (<[n := (Z.of_nat level, f)]> t).
Proof.
  intros Hr El n Et. pose proof Hr as [H0 H1 H2 H3 H3' H4 H5 H5' H6]. set (l' := {| level_deleted_files := _ |}).
  assert (Hc : changed_level n l l') by (intros n' Hn; cbn; rewrite lookup_insert_ne by done; split; [done | set_solver]). split; [done | done | done | done | cbn; by rewrite length_insert | | | |].
  - intros n'. destruct (decide (n' = n)) as [-> | Hn]; [rewrite lookup_insert_eq | rewrite lookup_insert_ne, <- H4 by done];
      unfold GetCurrentLevelForTableFile; cbn; [by rewrite lookup_insert_eq | by rewrite lookup_insert_ne].
  - intros n' level' f' E. apply lookup_insert_Some in E as [[<- [= <- <-]] | [_ E]]; [split; [lia | done] | by apply H5].
  - intros level' l1 n' f' E Ea. cbn in E. rewrite Nat2Z.id in E. apply list_lookup_insert_Some in E as [(<- & <- & _) | [_ E]]; [| by apply (H5' level' l1)].
    cbn in Ea. apply lookup_insert_Some in Ea as [[<- <-] | [_ Ea]]; [split; [done | cbn; set_solver] |].
    destruct (H5' level l n' f' El Ea) as [? ?]. split; [done |]. cbn. set_solver.
  - intros level' n' f' Hl. destruct (decide (n' = n)) as [-> | Hn].
    + rewrite lookup_insert_eq. destruct (decide (level' = level)) as [-> | Hne].
      * unfold visible, set_level_state. cbn. rewrite Nat2Z.id, list_lookup_insert_eq by (by apply lookup_lt_Some in El). unfold l'. cbn. split.
        -- intros [= <-]. eexists. split; [reflexivity |]. cbn. split; [set_solver |]. left. by rewrite lookup_insert_eq.
        -- intros (l1 & [= <-] & _ & [E | (E & _)]); cbn in E; rewrite lookup_insert_eq in E; [by injection E as <- | done].
      * rewrite (visible_other r level l l' n) by (by try right). rewrite <- H6, Et by done. split; [intros [= ? _]; lia | done].
    + rewrite lookup_insert_ne by done. rewrite (visible_other r level l l' n) by (by try left). by apply H6.
Qed.
(** A file on a level that the version does not have. *)
Lemma delete_reps_invalid r t n level f sizes : reps r t -> t !! n = Some (level, f) -> Z.of_nat (rep_num_levels_ r) <= level ->
  reps (r <| invalid_level_sizes_ := sizes |> <| table_file_levels_ := <[n := kInvalidLevel]> (table_file_levels_ r) |>) (delete n t).
Proof.
  intros [H0 H1 H2 H3 H3' H4 H5 H5' H6] Et Hl. split; [done | done | done | done | done | | | done |].
  - intros n'. destruct (decide (n' = n)) as [-> | Hn]; [rewrite lookup_delete_eq | rewrite lookup_delete_ne, <- H4 by done];
      unfold GetCurrentLevelForTableFile; cbn; [by rewrite lookup_insert_eq | by rewrite lookup_insert_ne].
  - intros n' level' f' E. apply lookup_delete_Some in E as [_ E]. by apply H5.
  - intros level' n' f' Hl'. change (visible _ level' n' f') with (visible r level' n' f'). rewrite <- H6 by done. rewrite lookup_delete_Some.
    split; [by intros [_ E] |]. intros E. split; [| done]. intros ->. rewrite Et in E. injection E as -> _. cbn in Hl'. lia.
Qed.
Lemma add_reps_invalid r t level f sizes : reps r t -> let n := GetNumber (fd f) in t !! n = None -> Z.of_nat (rep_num_levels_ r) <= level ->
  reps (r <| invalid_level_sizes_ := sizes |> <| table_file_levels_ := <[n := level]> (table_file_levels_ r) |>) (<[n := (level, f)]> t).
Proof.
  intros [H0 H1 H2 H3 H3' H4 H5 H5' H6] n Et Hl. split; [done | done | done | done | done | | | done |].
  - intros n'. destruct (decide (n' = n)) as [-> | Hn]; [rewrite lookup_insert_eq | rewrite lookup_insert_ne, <- H4 by done];
      unfold GetCurrentLevelForTableFile; cbn; [by rewrite lookup_insert_eq | by rewrite lookup_insert_ne].
  - intros n' level' f' E. apply lookup_insert_Some in E as [[<- [= <- <-]] | [_ E]]; [split; [lia | done] | by apply H5].
  - intros level' n' f' Hl'. change (visible _ level' n' f') with (visible r level' n' f'). rewrite <- H6 by done. rewrite lookup_insert_Some.
    split; [intros [[<- [= -> _]] | [_ E]]; [cbn in Hl'; lia | done] |]. intros E. right. split; [| done]. intros <-. congruence.
Qed.

Section Apply.
Context {C : Comparator} {TC : TimestampComparator C}.

Lemma oldest_blob_found r t level n l f : reps r t -> (level < num_levels_ v)%nat -> levels_ r !! level = Some l -> t !! n = Some (Z.of_nat level, f) ->
  is_Some (GetOldestBlobFileNumberForTableFile r l n).
Proof.
  intros Hr Hl El Et. apply (rp_visible r t Hr level n f Hl) in Et as (l1 & E1 & _ & Hv). rewrite El in E1. injection E1 as <-.
  unfold GetOldestBlobFileNumberForTableFile. destruct Hv as [-> | (-> & Hb)]; [by eexists |].
  rewrite (rp_base r t Hr) in *. destruct (located_base v level n f) as (pos & E & Ef); [apply Hr | done | done |].
  unfold GetFileMetaDataByNumber, GetFileLocation. rewrite E. cbn. rewrite Ef. by eexists.
Qed.
Lemma ApplyFileDeletion_spec d r t : reps r t -> 0 <= d.1 -> exists s r', ApplyFileDeletion d r = Some (s, r') /\
  match lsm_delete d t with Some t' => s = Status_OK /\ reps r' t' | None => s = Status_Corruption end.
Proof.
  destruct d as [level n]. cbn [fst]. intros Hr Hl. unfold ApplyFileDeletion, lsm_delete. cbn [fst snd]. rewrite (rp_current r t Hr).
  destruct (t !! n) as [[level' f] |] eqn:Et.
  2: { destruct (Z.eqb_spec level kInvalidLevel); [unfold kInvalidLevel in *; lia |]. by eexists _, _. }
  rewrite Z.eqb_sym. destruct (Z.eqb_spec level' level) as [-> |]; cbn [negb]; [| by eexists _, _].
  rewrite Z.geb_leb. destruct (Z.leb_spec (Z.of_nat (rep_num_levels_ r)) level) as [Hi | Hi].
  { eexists _, _. split; [reflexivity |]. split; [done |]. by apply delete_reps_invalid with level f. }
  destruct (reps_level_state r t level Hr) as (l & El & El'); [lia |]. rewrite El. cbn [mbind option_bind].
  assert (El2 : Z.of_nat (Z.to_nat level) = level) by lia. rewrite <- El2 in Et.
  destruct (oldest_blob_found r t (Z.to_nat level) n l f) as [b Eb]; [done | rewrite <- (rp_num r t Hr); lia | done | done |]. rewrite Eb. cbn [mbind option_bind].
  eexists _, _. split; [reflexivity |]. split; [done |]. eapply reps_same; [apply same_files_forget |]. set (r1 := if negb (b =? kInvalidBlobFileNumber) then _ else r).
  assert (Hs : same_files r r1) by (unfold r1; destruct (negb _); [apply same_files_blob | done]).
  pose proof (delete_reps r1 t (Z.to_nat level) n l f) as H. rewrite El2 in H.
  rewrite El2 in Et. refine (reps_same _ _ _ _ (H _ _ Et)); [done | by apply (reps_same r) |]. by destruct Hs as (_ & _ & -> & _).
Qed.

Definition verified (verify_file : Z -> FileMetaData -> Status) (x : Z * FileMetaData) : Prop :=
  status_ok (verify_file x.1 x.2) || is_missing (verify_file x.1 x.2) = true.
Lemma ApplyFileAddition_spec verify_file x r t : reps r t -> 0 <= x.1 -> (track = true -> verified verify_file x) ->
  exists s r', ApplyFileAddition verify_file x r = Some (s, r') /\
  match lsm_add x t with Some t' => status_ok s = true /\ reps r' t' | None => s = Status_Corruption end.
Proof.
  destruct x as [level f]. unfold verified. cbn [fst snd]. intros Hr Hl Hv. unfold ApplyFileAddition, lsm_add. cbn [fst snd]. rewrite (rp_current r t Hr).
  set (n := GetNumber (fd f)). destruct (t !! n) as [[level' f'] |] eqn:Et.
  { destruct (Z.eqb_spec level' kInvalidLevel); [apply (rp_files r t Hr) in Et; unfold kInvalidLevel in *; lia |]. by eexists _, _. }
  rewrite Z.eqb_refl. cbn [negb]. rewrite Z.geb_leb. destruct (Z.leb_spec (Z.of_nat (rep_num_levels_ r)) level) as [Hi | Hi].
  { eexists _, _. split; [reflexivity |]. split; [done |]. by apply add_reps_invalid. }
  destruct (reps_level_state r t level Hr) as (l & El & El'); [lia |]. rewrite El. cbn [mbind option_bind].
  assert (El2 : Z.of_nat (Z.to_nat level) = level) by lia.
  set (r1 := set_level_state _ _ _). set (r2 := if negb (oldest_blob_file_number f =? kInvalidBlobFileNumber) then _ else r1). set (r3 := r2 <| table_file_levels_ := _ |>).
  assert (H3 : reps r3 (<[n := (level, f)]> t)).
  { assert (Hs : same_files r1 r2) by (unfold r2; destruct (negb _); [apply same_files_blob | done]). destruct Hs as (E1 & E2 & E3 & E4 & E5).
    pose proof (add_reps r t (Z.to_nat level) l f Hr El' Et) as H. rewrite El2 in H. fold n in H. revert H. apply reps_same.
    unfold r3. split_and!; cbn; [by rewrite E1 | by rewrite E2 | by rewrite E3 | by rewrite E4 | by rewrite E5]. }
  rewrite (rp_track r3 _ H3). destruct track; cbn [negb]; [specialize (Hv eq_refl) | by eexists _, _].
  destruct (is_missing _).
  - eexists _, _. split; [reflexivity |]. split; [done |]. revert H3. apply reps_same. by repeat case_match.
  - rewrite orb_false_r in Hv. rewrite Hv. eexists _, _. split; [reflexivity |]. split; [done |]. by revert H3; apply reps_same.
Qed.
Lemma blob_addition_same verify b r : same_files r (ApplyBlobFileAddition verify b r).2.
Proof. unfold ApplyBlobFileAddition. by repeat case_match. Qed.
Lemma blob_garbage_same g r : same_files r (ApplyBlobFileGarbage g r).2.
Proof.
  unfold ApplyBlobFileGarbage. pose proof (same_files_create r (garbage_file_number_ g)) as H.
  destruct (GetOrCreateMutableBlobFileMetaData _ _) as [[m |] r']; [| done]. by destruct (AddGarbage _ _ m).
Qed.
Lemma compact_cursors_same c r : same_files r (ApplyCompactCursors c r).2.
Proof. unfold ApplyCompactCursors. by repeat case_match. Qed.

(** [m] does to what the builder stands for what the specification does, or fails with it. *)
Definition refines (m : option (Status * Rep)) (spec : option lsm) : Prop := exists s r, m = Some (s, r) /\
  match spec with Some t => status_ok s = true /\ reps r t | None => status_ok s = false end.
Lemma apply_each_refines {A} (P : A -> Prop) f g : (forall x r t, P x -> reps r t -> refines (f x r) (g x t)) ->
  forall l r t, Forall P l -> reps r t -> refines (apply_each f l r) (lsm_each g l t).
Proof.
  intros Hf l. induction l as [| x l IH]; intros r t Hl Hr; cbn [apply_each lsm_each]; [by eexists _, _ |].
  inversion Hl as [| ? ? Hx Hl']; subst. destruct (Hf x r t Hx Hr) as (s & r' & -> & H). cbn [mbind option_bind].
  destruct (g x t) as [t' |]; cbn [mbind option_bind].
  - destruct H as [-> Hr']. by apply IH.
  - rewrite H. eexists _, _. split; [reflexivity | done].
Qed.
Lemma apply_each_same {A} (f : A -> Rep -> Status * Rep) : (forall x r, same_files r (f x r).2) ->
  forall l r, exists s r', apply_each (total f) l r = Some (s, r') /\ same_files r r'.
Proof.
  intros Hf l. induction l as [| x l IH]; intros r; cbn [apply_each]; [eexists _, _; split; [reflexivity | done] |]. change (total f x r) with (Some (f x r)). specialize (Hf x r).
  destruct (f x r) as [s r1]. cbn [mbind option_bind snd] in *. destruct (status_ok s); [| eexists _, _; split; [reflexivity | done]].
  destruct (IH r1) as (s' & r' & E & Hs). eexists _, _. split; [exact E |]. by apply (same_files_trans r r1).
Qed.
Lemma apply_files_refines verify_file e r t : reps r t -> Forall (fun d => 0 <= d.1) (deleted_files_ e) ->
  Forall (fun x => 0 <= x.1 /\ (track = true -> verified verify_file x)) (new_files_ e) ->
  refines (and_then (apply_each ApplyFileDeletion (deleted_files_ e) r) (apply_each (ApplyFileAddition verify_file) (new_files_ e))) (lsm_apply e t).
Proof.
  intros Hr Hd Ha. unfold lsm_apply, and_then.
  destruct (apply_each_refines (fun d => 0 <= d.1) ApplyFileDeletion lsm_delete) with (l := deleted_files_ e) (r := r) (t := t) as (s & r' & -> & H); [| done | done |].
  { intros d r' t' Hl Hr'. destruct (ApplyFileDeletion_spec d r' t' Hr' Hl) as (s & r1 & E & H). exists s, r1. split; [done |].
    destruct (lsm_delete d t'); [by destruct H as [-> H] | by subst]. }
  cbn [mbind option_bind]. destruct (lsm_each lsm_delete _ t) as [t' |]; cbn [mbind option_bind]; [| rewrite H; eexists _, _; split; [reflexivity | done]].
  destruct H as [-> Hr']. apply (apply_each_refines (fun x => 0 <= x.1 /\ (track = true -> verified verify_file x))); [| done | done].
  intros x r1 t1 [Hl Hv] H1. destruct (ApplyFileAddition_spec verify_file x r1 t1 H1 Hl Hv) as (s1 & r2 & E & H). exists s1, r2. split; [done |].
  destruct (lsm_add x t1); [done | by subst].
Qed.
(** The levels of the files are levels, and each file can be opened or is missing, where this is checked. *)
Definition edit_wf (verify_file : Z -> FileMetaData -> Status) (e : VersionEdit) : Prop :=
  Forall (fun d => 0 <= d.1) (deleted_files_ e) /\ Forall (fun x => 0 <= x.1 /\ (track = true -> verified verify_file x)) (new_files_ e).
Definition sst_edit (e : VersionEdit) : Prop := blob_file_additions_ e = [] /\ blob_file_garbages_ e = [] /\ Forall (fun c => 0 <= c.1) (compact_cursors_ e).
Lemma apply_cursors_ok l : forall r, Forall (fun c => 0 <= c.1) l -> exists r', apply_each (total ApplyCompactCursors) l r = Some (Status_OK, r').
Proof.
  induction l as [| [level key] l IH]; intros r Hl; cbn [apply_each]; [by eexists |]. inversion Hl as [| ? ? Hx Hl']; subst. cbn in Hx.
  unfold total, ApplyCompactCursors. destruct (Z.ltb_spec level 0); [lia |]. destruct (level <? _); cbn; by apply IH.
Qed.
Lemma Apply_refines verify_file verify_blob_file e r t : reps r t -> edit_wf verify_file e ->
  status_ok (CheckConsistency (num_levels_ v) v) = true ->
  exists s r', Apply verify_file verify_blob_file e r = Some (s, r') /\
    (status_ok s = true -> exists t', lsm_apply e t = Some t' /\ reps r' t') /\ (sst_edit e -> is_Some (lsm_apply e t) -> status_ok s = true).
Proof.
  intros Hr [Hd Ha] Hc. unfold Apply. rewrite (rp_num r t Hr), (rp_base r t Hr), Hc. cbn [negb]. unfold and_then at 1.
  destruct (apply_each_same _ (blob_addition_same verify_blob_file) (blob_file_additions_ e) r) as (s1 & r1 & E1 & H1). rewrite E1. cbn [mbind option_bind].
  destruct (status_ok s1) eqn:Es1; [| eexists _, _; split; [done |]; split; [congruence |]; intros (Eb & _); rewrite Eb in E1; by injection E1 as <-].
  unfold and_then at 1. destruct (apply_each_same _ blob_garbage_same (blob_file_garbages_ e) r1) as (s2 & r2 & E2 & H2). rewrite E2. cbn [mbind option_bind].
  destruct (status_ok s2) eqn:Es2; [| eexists _, _; split; [done |]; split; [congruence |]; intros (_ & Eb & _); rewrite Eb in E2; by injection E2 as <-].
  pose proof (apply_files_refines verify_file e r2 t) as (s & r' & E & H); [by apply (reps_same r1), (reps_same r) | done | done |].
  unfold and_then in E |- *. destruct (apply_each ApplyFileDeletion _ r2) as [[sd rd] |]; [| done]. cbn [mbind option_bind] in *.
  destruct (status_ok sd) eqn:Esd.
  2: { injection E as <- <-. eexists _, _. split; [done |]. split; [congruence |]. intros _ [t' Et]. rewrite Et in H. by destruct H. }
  rewrite E. cbn [mbind option_bind]. destruct (lsm_apply e t) as [t' |].
  2: { rewrite H. eexists _, _. split; [done |]. split; [congruence | by intros _ [? ?]]. }
  destruct H as [-> H]. destruct (apply_each_same _ compact_cursors_same (compact_cursors_ e) r') as (s4 & r4 & E4 & H4). rewrite E4. cbn [mbind option_bind].
  destruct (status_ok s4) eqn:Es4.
  2: { eexists _, _. split; [done |]. split; [congruence |]. intros (_ & _ & Hcc) _. destruct (apply_cursors_ok _ r' Hcc) as [r5 E5]. rewrite E4 in E5. injection E5 as -> _. done. }
  eexists _, _. split; [done |]. split; [| done]. intros _. exists t'. split; [done |]. apply (reps_same r4); [by destruct (_ && _) | by apply (reps_same r')].
Qed.
(** Edits, one after the other. *)
Lemma apply_edits_refines verify_file verify_blob_file edits : status_ok (CheckConsistency (num_levels_ v) v) = true -> Forall (edit_wf verify_file) edits ->
  forall r t, reps r t -> exists s r', apply_each (Apply verify_file verify_blob_file) edits r = Some (s, r') /\
    (status_ok s = true -> exists t', lsm_each lsm_apply edits t = Some t' /\ reps r' t') /\
    (Forall sst_edit edits -> is_Some (lsm_each lsm_apply edits t) -> status_ok s = true).
Proof.
  intros Hc Hw. induction Hw as [| e edits He Hw IH]; intros r t Hr; cbn [apply_each lsm_each].
  - eexists _, _. split; [reflexivity |]. split; [| done]. intros _. by exists t.
  - destruct (Apply_refines verify_file verify_blob_file e r t Hr He Hc) as (s & r' & -> & H1 & H2). cbn [mbind option_bind]. destruct (status_ok s) eqn:Es.
    + destruct H1 as (t' & -> & Hr'); [done |]. cbn [mbind option_bind]. destruct (IH r' t' Hr') as (s2 & r2 & E & H3 & H4).
      eexists _, _. split; [exact E |]. split; [done |]. intros Hs. apply H4. by inversion Hs.
    + eexists _, _. split; [reflexivity |]. split; [congruence |]. intros Hs [t' Et]. apply bind_Some in Et as (t1 & Et1 & _). rewrite H2 in Es; [done | by inversion Hs | by eexists].
Qed.
End Apply.
End Base.
