(* ===== verification/VersionSaveProofs.v ===== *)
(** The files of the levels that a builder saves. *)

From stdpp Require Import gmap sorting.
From S2P Require Import Prelude Cursor Algorithms Coding Comparator DbFormat Status VersionEdit VersionStorage VersionStorageProofs VersionBuilder VersionBuilderProofs.

Open Scope record_scope.

(** * Orders of files *)

(** An order of files in which only a file with the same number is at the same place. *)
Class FileOrder (cmp : FileMetaData -> FileMetaData -> bool) : Prop := {
  fo_asym x y : cmp x y = true -> cmp y x = false;
  fo_trans x y z : cmp y x = false -> cmp z y = false -> cmp z x = false;
  fo_total x y : cmp x y = false -> cmp y x = false -> GetNumber (fd x) = GetNumber (fd y);
}.
Definition not_after (cmp : FileMetaData -> FileMetaData -> bool) (x y : FileMetaData) : Prop := cmp y x = false.

#[global] Instance NewestFirstBySeqNo_order : FileOrder NewestFirstBySeqNo.
Proof. split; unfold NewestFirstBySeqNo; intros *; destruct_ifs; bool_to_prop; slia. Qed.
#[global] Instance NewestFirstByEpochNumber_order : FileOrder NewestFirstByEpochNumber.
Proof. split; unfold NewestFirstByEpochNumber, NewestFirstBySeqNo; intros *; destruct_ifs; bool_to_prop; slia. Qed.

(** Files in an order that have different numbers are strictly in the order. *)
Lemma strictly_sorted cmp l : FileOrder cmp -> NoDup (map (fun f => GetNumber (fd f)) l) -> StronglySorted (not_after cmp) l ->
  StronglySorted (fun x y => cmp x y = true) l.
Proof.
  intros Hc Hn Hs. induction Hs as [| x l Hs IH Hf]; constructor; inversion Hn as [| ? ? Hx Hn']; subst; [by apply IH |].
  apply list.Forall_forall. intros y Hy. rewrite list.Forall_forall in Hf. specialize (Hf y Hy). unfold not_after in Hf.
  destruct (cmp x y) eqn:E; [done |]. destruct Hx. apply list_elem_of_fmap. exists y. split; [by apply (fo_total x y) | done].
Qed.
Lemma StronglySorted_image {A B} (R : B -> B -> Prop) (f : A -> B) l : StronglySorted R (map f l) <-> StronglySorted (fun x y => R (f x) (f y)) l.
Proof.
  induction l as [| x l IH]; cbn; [split; constructor |]. split; intros H; apply StronglySorted_inv in H as [Hs Hf]; constructor; [by apply IH | | by apply IH |].
  - exact (proj1 (list.Forall_fmap _ _ _) Hf).
  - exact (proj2 (list.Forall_fmap _ _ _) Hf).
Qed.

(** * The merge of the added files into the base files *)

Section Merge.
Context (cmp : FileMetaData -> FileMetaData -> bool).

Lemma merge_files_nil base : merge_files cmp base [] = map BaseFile base.
Proof. induction base as [| b base IH]; cbn; [done |]. by rewrite IH. Qed.
Lemma merge_files_cons b base a added : merge_files cmp (b :: base) (a :: added) =
  if cmp a b then AddedFile a :: merge_files cmp (b :: base) added else BaseFile b :: merge_files cmp base (a :: added).
Proof. done. Qed.
Lemma merge_files_Permutation base : forall added, merge_files cmp base added ≡ₚ map BaseFile base ++ map AddedFile added.
Proof.
  induction base as [| b base IH]; intros added; [done |]. induction added as [| a added IHa].
  - by rewrite merge_files_nil, app_nil_r.
  - rewrite merge_files_cons. destruct (cmp a b); [rewrite IHa | rewrite IH]; cbn; [| done]. rewrite <- Permutation_middle. apply perm_swap.
Qed.
Lemma merge_files_sorted `{!FileOrder cmp} base : forall added, StronglySorted (not_after cmp) base -> StronglySorted (not_after cmp) added ->
  StronglySorted (fun p q => not_after cmp (deref p) (deref q)) (merge_files cmp base added).
Proof.
  assert (Hall : forall base added x, Forall (not_after cmp x) base -> Forall (not_after cmp x) added ->
    Forall (fun q => not_after cmp x (deref q)) (merge_files cmp base added)).
  { intros base' added x Hb Ha. rewrite merge_files_Permutation. apply list.Forall_app. split; by apply (proj2 (list.Forall_fmap _ _ _)). }
  induction base as [| b base IH]; intros added Hb Ha.
  - cbn. apply (StronglySorted_image (fun p q => not_after cmp (deref p) (deref q))). done.
  - induction added as [| a added IHa].
    + rewrite merge_files_nil. by apply (StronglySorted_image (fun p q => not_after cmp (deref p) (deref q))).
    + apply StronglySorted_inv in Hb as Hb'. apply StronglySorted_inv in Ha as Ha'. destruct Hb' as [Hb1 Hb2], Ha' as [Ha1 Ha2].
      rewrite merge_files_cons. destruct (cmp a b) eqn:E; constructor; [by apply IHa | | by apply IH |]; apply Hall; cbn [deref].
      * constructor; [by apply fo_asym |]. eapply list.Forall_impl; [exact Hb2 |]. intros y. apply fo_trans. by apply fo_asym.
      * done.
      * done.
      * constructor; [done |]. eapply list.Forall_impl; [exact Ha2 |]. intros y. by apply fo_trans.
Qed.
End Merge.

(** * One level *)

Section Level.
Context (r : Rep) (level : nat) (l : LevelState) (El : levels_ r !! level = Some l).

(** A file that is missing on level 0 is left out when the builder keeps track of missing files. *)
Definition hidden (n : Z) : bool := track_found_and_missing_files_ r && bool_decide (level = 0)%nat && bool_decide (n ∈ l0_missing_files_ r).
Definition kept (p : FilePtr) : bool :=
  let n := GetNumber (fd (deref p)) in
  negb (hidden n) && negb (bool_decide (n ∈ level_deleted_files l)) &&
  match level_added_files l !! n, p with Some _, BaseFile _ => false | _, _ => true end.

Lemma AddFile_LevelFiles f w i : (level < length (files_ w))%nat ->
  LevelFiles (VersionStorageInfo_AddFile level f w) i = if decide (i = level) then LevelFiles w i ++ [f] else LevelFiles w i.
Proof.
  intros Hl. unfold LevelFiles at 1, VersionStorageInfo_AddFile. cbn. destruct (decide (i = level)) as [-> | Hn].
  - by rewrite list_lookup_insert_eq.
  - by rewrite list_lookup_insert_ne by done.
Qed.
(** The version after some files were appended to one level. *)
Definition append_files (fs : list FileMetaData) (w : VersionStorageInfo) : VersionStorageInfo :=
  w <| files_ := <[level := LevelFiles w level ++ fs]> (files_ w) |>.
Lemma append_files_nil w : (level < length (files_ w))%nat -> append_files [] w = w.
Proof using. intros Hl. unfold append_files, LevelFiles. destruct (lookup_lt_is_Some_2 _ _ Hl) as [fs E]. rewrite E. cbn [default from_option id]. rewrite app_nil_r, list_insert_id by done. by destruct w. Qed.
Lemma append_files_cons f fs w : (level < length (files_ w))%nat -> append_files fs (VersionStorageInfo_AddFile level f w) = append_files (f :: fs) w.
Proof using.
  intros Hl. unfold append_files. rewrite AddFile_LevelFiles by done. rewrite decide_True by done. unfold VersionStorageInfo_AddFile. cbn. rewrite list_insert_insert_eq.
  by rewrite <- app_assoc.
Qed.
Lemma MaybeAddFile_kept p w : MaybeAddFile r level w p = if kept p then VersionStorageInfo_AddFile level (deref p) w else w.
Proof using El.
  unfold MaybeAddFile, kept, hidden. rewrite El. cbn [default from_option id]. destruct (_ && _ && _); [done |]. cbn [negb andb].
  destruct (decide _) as [H | H].
  - by rewrite bool_decide_eq_true_2.
  - rewrite bool_decide_eq_false_2 by done. cbn. by destruct (level_added_files l !! _), p.
Qed.
Lemma fold_MaybeAddFile ps : forall w, (level < length (files_ w))%nat ->
  fold_left (MaybeAddFile r level) ps w = append_files (map deref (filter (fun p => kept p = true) ps)) w.
Proof using El.
  induction ps as [| p ps IH]; intros w Hl; cbn [fold_left]; [by rewrite append_files_nil |]. rewrite MaybeAddFile_kept, filter_cons.
  destruct (kept p) eqn:E.
  - rewrite decide_True by done. rewrite IH; [by apply append_files_cons |]. cbn. by rewrite length_insert.
  - rewrite decide_False by done. by apply IH.
Qed.
(** The files that the level has in the new version. *)
Definition saved_level (cmp : FileMetaData -> FileMetaData -> bool) : list FileMetaData :=
  map deref (filter (fun p => kept p = true) (MergeUnorderdAddedFilesWithBase (LevelFiles (base_vstorage_ r) level) (level_added_files l) cmp)).
Lemma SaveSSTFilesToLevel_append cmp w : (level < length (files_ w))%nat -> SaveSSTFilesToLevel r level cmp w = append_files (saved_level cmp) w.
Proof using El. intros Hl. unfold SaveSSTFilesToLevel. rewrite fold_MaybeAddFile by done. unfold saved_level, level_added. by rewrite El. Qed.

Context (v : VersionStorageInfo) (track : bool) (t : lsm) (Hr : reps v track r t) (Hl : (level < num_levels_ v)%nat).

Lemma saved_level_elem cmp f : f ∈ saved_level cmp <-> t !! GetNumber (fd f) = Some (Z.of_nat level, f) /\ hidden (GetNumber (fd f)) = false.
Proof using El Hr Hl.
  unfold saved_level. rewrite (rp_visible v track r t Hr level) by done. rewrite list_elem_of_fmap. unfold MergeUnorderdAddedFilesWithBase.
  setoid_rewrite list_elem_of_filter. setoid_rewrite merge_files_Permutation. setoid_rewrite sort_Permutation. split.
  - intros (p & -> & Hk & Hp). unfold kept in Hk. apply andb_prop in Hk as [[Hh%negb_true_iff Hd%negb_true_iff%bool_decide_eq_false]%andb_prop Ha]. split; [| done].
    exists l. split; [done |]. split; [done |]. rewrite elem_of_app in Hp. destruct Hp as [Hp | Hp].
    + apply list_elem_of_fmap in Hp as (b & -> & Hb). right. cbn [deref] in *. by destruct (level_added_files l !! _).
    + apply list_elem_of_fmap in Hp as (a & -> & Hp). apply list_elem_of_fmap in Hp as ([n a'] & -> & Hp). apply elem_of_map_to_list in Hp. cbn [deref snd] in *. left.
      by rewrite (proj1 (rp_added v track r t Hr level l n a' ltac:(done) ltac:(done))).
  - intros [(l' & El' & Hd & Hv) Hh]. rewrite El in El'. injection El' as <-. destruct Hv as [Ha | (Ha & Hb & _)].
    + exists (AddedFile f). split; [done |]. split; [unfold kept; cbn [deref]; by rewrite Hh, bool_decide_eq_false_2, Ha by done |]. rewrite elem_of_app. right.
      apply list_elem_of_fmap. exists f. split; [done |]. apply list_elem_of_fmap. exists (GetNumber (fd f), f). split; [done |]. by apply elem_of_map_to_list.
    + exists (BaseFile f). split; [done |]. split; [unfold kept; cbn [deref]; by rewrite Hh, bool_decide_eq_false_2, Ha by done |]. rewrite elem_of_app. left.
      apply list_elem_of_fmap. by exists f.
Qed.
Lemma base_numbers : NoDup (map (fun f => GetNumber (fd f)) (LevelFiles (base_vstorage_ r) level)).
Proof using Hr Hl.
  rewrite (rp_base v track r t Hr). apply NoDup_alt. intros i j n Ei Ej. rewrite list_lookup_fmap in Ei, Ej.
  apply fmap_Some in Ei as (f & Ei & ->). apply fmap_Some in Ej as (g & Ej & Hn).
  assert (E1 : file_locations_ v !! GetNumber (fd f) = Some (level, i)) by (apply (rp_located v track r t Hr); eauto).
  assert (E2 : file_locations_ v !! GetNumber (fd f) = Some (level, j)) by (apply (rp_located v track r t Hr); eauto).
  rewrite E1 in E2. by injection E2.
Qed.
Lemma saved_level_numbers cmp : NoDup (map (fun f => GetNumber (fd f)) (saved_level cmp)).
Proof using El Hr Hl.
  unfold saved_level. rewrite map_map. set (ps := MergeUnorderdAddedFilesWithBase _ _ _).
  assert (Hps : ps ≡ₚ map BaseFile (LevelFiles (base_vstorage_ r) level) ++ map AddedFile (map snd (map_to_list (level_added_files l)))).
  { unfold ps, MergeUnorderdAddedFilesWithBase. by rewrite merge_files_Permutation, sort_Permutation. }
  assert (Hadded : forall f, AddedFile f ∈ ps -> level_added_files l !! GetNumber (fd f) = Some f).
  { intros f. rewrite Hps, elem_of_app. intros [Hp | Hp]; apply list_elem_of_fmap in Hp as (g & [=] & Hp). subst g.
    apply list_elem_of_fmap in Hp as ([n g] & -> & Hp%elem_of_map_to_list). cbn. by rewrite (proj1 (rp_added v track r t Hr level l n g ltac:(done) ltac:(done))). }
  apply NoDup_fmap_2_strong.
  - intros p q [Hkp Hp]%list_elem_of_filter [Hkq Hq]%list_elem_of_filter Hn.
    assert (Hin : forall p, kept p = true -> p ∈ ps -> deref p ∈ saved_level cmp).
    { intros p' Hk Hp'. apply list_elem_of_fmap. exists p'. split; [done |]. by apply list_elem_of_filter. }
    destruct (proj1 (saved_level_elem cmp _) (Hin p Hkp Hp)) as [Ep _]. destruct (proj1 (saved_level_elem cmp _) (Hin q Hkq Hq)) as [Eq _].
    assert (E : deref p = deref q) by congruence. unfold kept in Hkp, Hkq. destruct p as [f | f], q as [g | g]; cbn [deref] in *; subst g; [done | | | done].
    + by rewrite (Hadded f), andb_false_r in Hkp.
    + by rewrite (Hadded f), andb_false_r in Hkq.
  - apply list.NoDup_filter. rewrite Hps. apply list.NoDup_app. split_and!.
    + apply NoDup_fmap_2; [by intros ? ? [=] |]. eapply NoDup_fmap_1, base_numbers.
    + intros p Hb Ha. apply list_elem_of_fmap in Hb as (f & -> & _). by apply list_elem_of_fmap in Ha as (g & ? & _).
    + apply NoDup_fmap_2; [by intros ? ? [=] |]. apply (NoDup_fmap_1 (fun f => GetNumber (fd f))).
      change (NoDup (map (fun f => GetNumber (fd f)) (map snd (map_to_list (level_added_files l))))). rewrite map_map.
      erewrite (list_fmap_ext _ fst); [apply NoDup_fst_map_to_list |]. intros i [n f] E. apply list_elem_of_lookup_2, elem_of_map_to_list in E. by apply (rp_added v track r t Hr level l).
Qed.
Lemma saved_level_sorted cmp : FileOrder cmp -> StronglySorted (not_after cmp) (LevelFiles v level) ->
  StronglySorted (fun x y => cmp x y = true) (saved_level cmp).
Proof using El Hr Hl.
  intros Hc Hs. apply strictly_sorted; [done | apply saved_level_numbers |]. apply StronglySorted_image, StronglySorted_filter, merge_files_sorted.
  - done.
  - by rewrite (rp_base v track r t Hr).
  - apply sort_sorted; unfold not_after.
    + intros x y z. apply fo_trans.
    + intros x y. apply fo_asym.
    + done.
Qed.
End Level.

(** * All levels *)

(** There are no blob files. *)
Definition no_blobs (r : Rep) : Prop := mutable_blob_file_metas_ r = ∅ /\ blob_files_ (base_vstorage_ r) = [].

Section Save.
Context {C : Comparator} {CL : ComparatorLaws C} {TC : TimestampComparator C}.

#[export] Instance BySmallestKey_order : FileOrder BySmallestKey.
Proof using CL.
  split; unfold BySmallestKey; intros *; [| set (a := smallest x); set (b := smallest y); set (c := smallest z);
    pose proof (cmp_trans (cmp := icmp) a b c); pose proof (cmp_trans (cmp := icmp) c b a);
    pose proof (cmp_trans (cmp := icmp) c a b); pose proof (cmp_trans (cmp := icmp) b c a); pose proof (cmp_trans (cmp := icmp) a c b) |];
    destruct_ifs; bool_to_prop; order_sgn InternalKeyComparator_Compare; slia.
Qed.
(** The order of the files of a level. *)
Definition level_order (requirement : EpochNumberRequirement) (level : nat) : FileMetaData -> FileMetaData -> bool :=
  match level, requirement with
  | O, kMightMissing => NewestFirstBySeqNo
  | O, kMustPresent => NewestFirstByEpochNumber
  | _, _ => BySmallestKey
  end.
#[export] Instance level_order_order requirement level : FileOrder (level_order requirement level).
Proof using CL. destruct level, requirement; apply _. Qed.

Context (v : VersionStorageInfo) (track : bool) (r : Rep) (t : lsm) (Hr : reps v track r t).
Definition state_of (level : nat) : LevelState := default NewLevelState (levels_ r !! level).
Definition level_files (requirement : EpochNumberRequirement) (level : nat) : list FileMetaData :=
  saved_level r level (state_of level) (level_order requirement level).
Lemma state_of_lookup level : (level < num_levels_ v)%nat -> levels_ r !! level = Some (state_of level).
Proof using Hr.
  intros Hl. unfold state_of. destruct (lookup_lt_is_Some_2 (levels_ r) level) as [l ->]; [| done]. by rewrite (rp_levels v track r t Hr).
Qed.
Lemma append_LevelFiles level fs w i : (level < length (files_ w))%nat ->
  LevelFiles (append_files level fs w) i = if decide (i = level) then LevelFiles w i ++ fs else LevelFiles w i.
Proof using.
  intros Hl. unfold LevelFiles at 1, append_files. cbn. destruct (decide (i = level)) as [-> | Hn].
  - by rewrite list_lookup_insert_eq.
  - by rewrite list_lookup_insert_ne by done.
Qed.
Lemma save_levels requirement n : forall level w, (0 < level)%nat -> (level + n <= num_levels_ v)%nat -> length (files_ w) = num_levels_ v ->
  exists fs, fold_left (fun w level => SaveSSTFilesToLevel r level BySmallestKey w) (seq level n) w = w <| files_ := fs |> /\ length fs = num_levels_ v /\
    forall i, default [] (fs !! i) = if decide (level <= i < level + n)%nat then LevelFiles w i ++ level_files requirement i else LevelFiles w i.
Proof using Hr.
  induction n as [| n IH]; intros level w Hpos Hn Hw; cbn [seq fold_left].
  - exists (files_ w). split; [by destruct w |]. split; [done |]. intros i. by rewrite decide_False by lia.
  - rewrite (SaveSSTFilesToLevel_append r level (state_of level)) by (rewrite ?Hw; first [apply state_of_lookup; lia | lia]).
    edestruct (IH (S level) (append_files level (saved_level r level (state_of level) BySmallestKey) w)) as (fs & E & Hlen & Hfs); [lia | lia | cbn; by rewrite length_insert |].
    exists fs. split; [rewrite E; by destruct w |]. split; [done |]. intros i. rewrite Hfs, append_LevelFiles by lia.
    destruct (decide (i = level)) as [-> | Hne].
    + rewrite decide_False, decide_True by lia. unfold level_files, level_order. by destruct level; [lia |].
    + destruct (decide (S level <= i < S level + n)%nat); [rewrite decide_True by lia | rewrite decide_False by lia]; done.
Qed.
(** With the epoch numbers of all files the requirement is promoted. *)
Definition epochs_known : Prop := forall n level f, t !! n = Some (level, f) -> epoch_number f <> kUnknownEpochNumber.
Definition must_present (requirement : EpochNumberRequirement) : Prop := requirement = kMustPresent \/ (0 < num_levels_ v)%nat /\ epochs_known.
Lemma promoted w : (forall level, LevelFiles w level = []) -> epochs_known -> epoch_number_requirement_ (PromoteEpochNumberRequirementIfNeeded r w) = kMustPresent.
Proof using Hr.
  intros Hw Ht. unfold PromoteEpochNumberRequirementIfNeeded, HasMissingEpochNumber.
  assert (H0 : forall (P : FileMetaData -> bool) ls, existsb (fun level => existsb P (LevelFiles w level)) ls = false) by (intros P ls; induction ls; cbn; [done | by rewrite Hw]).
  rewrite H0. destruct (existsb _ _) eqn:E; [| done]. apply existsb_exists in E as (level & Hl & E). apply in_seq in Hl. rewrite (rp_num v track r t Hr) in Hl.
  apply existsb_exists in E as ([n f] & Hf & E). apply list_elem_of_In, elem_of_map_to_list in Hf. cbn in E. apply Z.eqb_eq in E. exfalso.
  apply (Ht n (Z.of_nat level) f); [| done]. apply (rp_visible v track r t Hr); [lia |]. unfold visible. unfold level_added in Hf.
  exists (state_of level). split; [apply state_of_lookup; lia |]. split; [| by left]. by apply (rp_added v track r t Hr level (state_of level) n f); [apply state_of_lookup; lia |].
Qed.
(** What is saved of the tables: the levels, and maybe the promotion of the requirement on epoch numbers. *)
Lemma SaveSSTFilesTo_levels w : files_ w = replicate (num_levels_ v) [] -> exists fs requirement,
  SaveSSTFilesTo r w = w <| files_ := fs |> <| epoch_number_requirement_ := requirement |> /\ length fs = num_levels_ v /\
  (must_present (epoch_number_requirement_ w) -> requirement = kMustPresent) /\
  forall level, (level < num_levels_ v)%nat -> default [] (fs !! level) = level_files requirement level.
Proof using Hr.
  intros Hw. assert (Hempty : forall level, LevelFiles w level = []).
  { intros level. unfold LevelFiles. rewrite Hw. destruct (decide (level < num_levels_ v)%nat); [by rewrite lookup_replicate_2 | by rewrite lookup_ge_None_2 by (rewrite length_replicate; lia)]. }
  unfold SaveSSTFilesTo. rewrite (rp_num v track r t Hr). destruct (num_levels_ v) as [| n] eqn:En.
  { exists (files_ w), (epoch_number_requirement_ w). split; [by destruct w |]. split; [by rewrite Hw |]. split; [| lia]. unfold must_present. intros [? | [? _]]; [done | lia]. }
  set (w1 := match epoch_number_requirement_ w with kMightMissing => _ | kMustPresent => w end). set (requirement := epoch_number_requirement_ w1).
  assert (E1 : w1 = w <| epoch_number_requirement_ := requirement |>).
  { unfold requirement, w1, PromoteEpochNumberRequirementIfNeeded. destruct w as [? ? [] ? ? ? ? ? ? ? ? ?]; cbn; [| done]. by repeat case_match. }
  assert (Hp : must_present (epoch_number_requirement_ w) -> requirement = kMustPresent).
  { intros [E | [_ Ht]]; unfold requirement, w1; [by rewrite E |]. destruct (epoch_number_requirement_ w) eqn:E; [by apply promoted | done]. }
  clearbody w1 requirement. subst w1. cbn [epoch_number_requirement_]. set (cmp := match requirement with kMightMissing => _ | kMustPresent => NewestFirstByEpochNumber end).
  assert (Ec : cmp = level_order requirement 0) by by destruct requirement. rewrite Ec.
  assert (Hl : length (files_ w) = S n) by by rewrite Hw, length_replicate.
  rewrite (SaveSSTFilesToLevel_append r 0 (state_of 0)) by (first [apply state_of_lookup; lia | cbn; lia]). set (w2 := append_files 0 _ _).
  destruct (save_levels requirement n 1 w2) as (fs & E & Hlen & Hfs); [lia | lia | cbn; rewrite length_insert; lia |].
  exists fs, requirement. split; [rewrite E; by destruct w |]. split; [lia |]. split; [done |]. intros level Hlev. rewrite Hfs.
  unfold w2. rewrite append_LevelFiles by (cbn; lia). change (LevelFiles (w <| _ := _ |>) level) with (LevelFiles w level). rewrite Hempty.
  destruct level as [| level]; [by rewrite decide_False by lia |]. by rewrite decide_True by lia.
Qed.
Lemma SaveBlobFilesTo_files w : exists bs, SaveBlobFilesTo r w = w <| blob_files_ := bs |>.
Proof using.
  unfold SaveBlobFilesTo. destruct (_ =? _); [exists (blob_files_ w); by destruct w |]. generalize (blob_entries r (GetMinOldestBlobFileNumber r)). intros xs.
  revert w. induction xs as [| x xs IH]; intros w; cbn [fold_left]; [exists (blob_files_ w); by destruct w |].
  assert (exists bs, save_blob_file r w x = w <| blob_files_ := bs |>) as [bs ->].
  { unfold save_blob_file, AddBlobFileIfNeeded. destruct (_ && _); [exists (blob_files_ w); by destruct w |]. destruct (_ && _); [exists (blob_files_ w); by destruct w |]. by eexists. }
  destruct (IH (w <| blob_files_ := bs |>)) as [bs' ->]. by exists bs'.
Qed.
Lemma no_blobs_save w : no_blobs r -> SaveBlobFilesTo r w = w.
Proof using.
  intros [H1 H2]. assert (E : forall n, blob_entries r n = []).
  { intros n. unfold blob_entries, sorted_metas. by rewrite H1, H2, map_to_list_empty, drop_nil. }
  unfold SaveBlobFilesTo, GetMinOldestBlobFileNumber. by rewrite E.
Qed.
Lemma SaveCompactCursorsTo_files w : exists cs, SaveCompactCursorsTo r w = w <| compact_cursor_ := cs |>.
Proof using.
  unfold SaveCompactCursorsTo. apply (map_fold_weak_ind (fun w' _ => exists cs, w' = w <| compact_cursor_ := cs |>)).
  - exists (compact_cursor_ w). by destruct w.
  - intros level key m w' _ [cs ->]. by eexists.
Qed.
Lemma empty_consistent n w : (forall level, LevelFiles w level = []) -> blob_files_ w = [] -> CheckConsistency n w = Status_OK.
Proof using.
  intros Hl Hb. unfold CheckConsistency, CheckConsistencyDetails. rewrite Hb. destruct (negb _); [done |]. destruct n as [| n]; [done |]. rewrite Hl. cbn.
  assert (H : forall n level x, (check_levels w level n x).1 = true).
  { clear n. induction n as [| n IH]; intros level x; cbn; [done |]. rewrite Hl. cbn. apply IH. }
  specialize (H n 1%nat ∅). destruct (check_levels w 1 n ∅) as [ok x]. cbn in H. by subst ok.
Qed.
Lemma SaveTo_levels w : files_ w = replicate (num_levels_ v) [] -> blob_files_ w = [] -> exists fs requirement bs cs,
  let w' := w <| files_ := fs |> <| epoch_number_requirement_ := requirement |> <| blob_files_ := bs |> <| compact_cursor_ := cs |> in
  SaveTo r w = (CheckConsistency (num_levels_ v) w', w') /\ length fs = num_levels_ v /\
  (must_present (epoch_number_requirement_ w) -> requirement = kMustPresent) /\ (no_blobs r -> bs = []) /\
  forall level, (level < num_levels_ v)%nat -> LevelFiles w' level = level_files requirement level.
Proof using Hr.
  intros Hw Hb. destruct (SaveSSTFilesTo_levels w Hw) as (fs & requirement & E & Hlen & Hp & Hfs).
  destruct (SaveBlobFilesTo_files (SaveSSTFilesTo r w)) as [bs Eb]. destruct (SaveCompactCursorsTo_files (SaveBlobFilesTo r (SaveSSTFilesTo r w))) as [cs Ecs].
  exists fs, requirement, bs, cs. intros w'. assert (Hbs : no_blobs r -> bs = []).
  { intros Hn. rewrite no_blobs_save, E in Eb by done. apply (f_equal blob_files_) in Eb. cbn in Eb. congruence. }
  split; [| done]. unfold SaveTo. rewrite empty_consistent; [| | done].
  - cbn [negb status_ok]. cbn. rewrite (rp_num v track r t Hr), Ecs, Eb, E. done.
  - intros level. unfold LevelFiles. rewrite Hw. destruct (decide (level < num_levels_ v)%nat); [by rewrite lookup_replicate_2 | by rewrite lookup_ge_None_2 by (rewrite length_replicate; lia)].
Qed.
End Save.

(** * Consistency checks *)

Section Consistency.
Context {C : Comparator} {CL : ComparatorLaws C} {TC : TimestampComparator C}.

Lemma check_neighbours_ok checker x fs : forall expected, (check_neighbours checker x fs expected).1 = true <-> Sorted (fun x y => checker x y = true) (x :: fs).
Proof using.
  revert x. induction fs as [| y fs IH]; intros x expected; cbn; [split; [by repeat constructor | done] |]. destruct (checker x y) eqn:E.
  - rewrite IH. split; intros H; [constructor; [done | by constructor] | by inversion H].
  - split; [done |]. intros H. apply Sorted_inv in H as [_ H]. inversion H; congruence.
Qed.
Lemma check_level_ok fs checker expected : (CheckConsistencyDetailsForLevel fs checker expected).1 = true <-> Sorted (fun x y => checker x y = true) fs.
Proof using. destruct fs as [| f fs]; [split; [constructor | done] |]. apply check_neighbours_ok. Qed.
Lemma check_levels_ok w n : forall level expected, (check_levels w level n expected).1 = true <->
  forall i, (level <= i < level + n)%nat -> Sorted (fun x y => checker x y = true) (LevelFiles w i).
Proof using.
  induction n as [| n IH]; intros level expected; cbn; [split; [lia | done] |]. pose proof (check_level_ok (LevelFiles w level) checker expected) as H.
  destruct (CheckConsistencyDetailsForLevel _ _ _) as [[] x]; cbn in H.
  - rewrite IH. split; intros Hi i Hrange; [| apply Hi; lia]. destruct (decide (i = level)) as [-> |]; [by apply H | apply Hi; lia].
  - split; [done |]. intros Hi. apply H, Hi. lia.
Qed.
(** What the checks check of the tables. *)
Definition tables_consistent (n : nat) (w : VersionStorageInfo) : Prop :=
  Sorted (fun x y => l0_checker (epoch_number_requirement_ w) x y = true) (LevelFiles w 0) /\
  forall i, (0 < i < n)%nat -> Sorted (fun x y => checker x y = true) (LevelFiles w i).
Lemma check_tables n w : force_consistency_checks_ w = true -> (0 < n)%nat -> status_ok (CheckConsistency n w) = true -> tables_consistent n w.
Proof using.
  intros Hf Hn. unfold CheckConsistency, CheckConsistencyDetails. rewrite Hf. cbn [negb]. destruct n as [| n]; [lia |].
  pose proof (check_level_ok (LevelFiles w 0) (l0_checker (epoch_number_requirement_ w)) ∅) as H0. destruct (CheckConsistencyDetailsForLevel _ _ _) as [[] x]; [| done].
  pose proof (check_levels_ok w n 1 x) as H1. destruct (check_levels w 1 n x) as [[] x']; [| done]. intros _. split; [by apply H0 |]. intros i Hi. apply H1; [done | lia].
Qed.
Lemma check_tables_ok n w : tables_consistent n w -> blob_files_ w = [] -> status_ok (CheckConsistency n w) = true.
Proof using.
  intros [H0 H1] Hb. unfold CheckConsistency, CheckConsistencyDetails. rewrite Hb. destruct (negb _); [done |]. destruct n as [| n]; [done |].
  pose proof (proj2 (check_level_ok (LevelFiles w 0) (l0_checker (epoch_number_requirement_ w)) ∅) H0) as E0. destruct (CheckConsistencyDetailsForLevel _ _ _) as [ok x]. cbn in E0. subst ok.
  pose proof (proj2 (check_levels_ok w n 1 x)) as E1. destruct (check_levels w 1 n x) as [ok x']. cbn in E1. rewrite E1; [done |]. intros i Hi. apply H1. lia.
Qed.

Lemma checked_level_wf fs : Sorted (fun x y => checker x y = true) fs -> Forall (fun f => icmp (smallest f) (largest f) <= 0) fs -> level_wf fs.
Proof using CL.
  intros Hs Hb. split; [done |].
  assert (Hs' : StronglySorted (fun x y => icmp (largest x) (smallest y) < 0 /\ icmp (smallest y) (largest y) <= 0) fs).
  { apply Sorted_StronglySorted.
    - intros x y z [H1 H2] [H3 H4]. split; [| done]. eapply cmp_lt_le_trans; [exact H1 |]. eapply cmp_trans; [exact H2 |]. lia.
    - revert Hb. induction Hs as [| x fs Hs IH Hd]; intros Hb; constructor; inversion Hb as [| ? ? Hx Hb']; subst; [by apply IH |].
      destruct Hd as [| y fs Hc]; constructor. unfold checker in Hc. bool_to_prop. inversion Hb'; subst. split; [lia | done]. }
  clear Hs Hb. induction Hs' as [| x fs Hs IH Hf]; constructor; [done |]. eapply list.Forall_impl; [exact Hf |]. by intros y [].
Qed.
(** Files of one level that do not overlap. *)
Definition disjoint_files (f g : FileMetaData) : Prop := icmp (largest f) (smallest g) < 0 \/ icmp (largest g) (smallest f) < 0.
Lemma disjoint_checked fs : StronglySorted (fun x y => BySmallestKey x y = true) fs -> Forall (fun f => icmp (smallest f) (largest f) <= 0) fs ->
  (forall x y, x ∈ fs -> y ∈ fs -> GetNumber (fd x) <> GetNumber (fd y) -> disjoint_files x y) -> NoDup (map (fun f => GetNumber (fd f)) fs) ->
  Sorted (fun x y => checker x y = true) fs.
Proof using CL.
  intros Hs. induction Hs as [| x fs Hs IH Hf]; intros Hb Hd Hn; constructor.
  - inversion Hb; inversion Hn; subst. apply IH; [done | | done]. intros y z Hy Hz. apply Hd; by right.
  - destruct fs as [| y fs]; constructor. apply list.Forall_cons in Hf as [Hxy _]. inversion Hb as [| ? ? Hbx Hby]; subst. apply list.Forall_cons in Hby as [Hby _].
    unfold checker. rewrite Hxy. cbn [andb]. destruct (Hd x y) as [H | H].
    + by left.
    + by right; left.
    + intros E. inversion Hn as [| ? ? Hx _]; subst. apply Hx. cbn. rewrite E. by left.
    + apply negb_true_iff. rewrite Z.geb_leb. lia.
    + assert (icmp (smallest y) (smallest x) < 0) by (by eapply cmp_le_lt_trans). unfold BySmallestKey in Hxy.
      order_sgn InternalKeyComparator_Compare. destruct_ifs; bool_to_prop; lia.
Qed.
Lemma disjoint_checked_l0 fs : StronglySorted (fun x y => NewestFirstByEpochNumber x y = true) fs ->
  (forall x y, x ∈ fs -> y ∈ fs -> GetNumber (fd x) <> GetNumber (fd y) -> epoch_number x = epoch_number y -> disjoint_files x y) ->
  NoDup (map (fun f => GetNumber (fd f)) fs) -> Sorted (fun x y => l0_checker kMustPresent x y = true) fs.
Proof using CL.
  intros Hs. induction Hs as [| x fs Hs IH Hf]; intros Hd Hn; constructor; inversion Hn as [| ? ? Hx Hn']; subst.
  - apply IH; [| done]. intros y z Hy Hz. apply Hd; by right.
  - destruct fs as [| y fs]; constructor. apply list.Forall_cons in Hf as [Hxy _]. unfold l0_checker. rewrite Hxy.
    destruct (_ && (_ && _)) eqn:E; [| done]. bool_to_prop. destruct (Hd x y); [by left | by right; left | | done | |].
    + intros En. apply Hx. cbn. rewrite En. by left.
    + lia.
    + order_sgn InternalKeyComparator_Compare. lia.
Qed.

(** ** Versions without blob files *)

Lemma no_blobs_change n f r : no_blobs r -> change_blob_file n f r = r.
Proof using.
  intros [H1 H2]. unfold change_blob_file, GetOrCreateMutableBlobFileMetaData, GetBlobFileMetaData. by rewrite H1, H2, lookup_empty.
Qed.
Lemma no_blobs_deletion d r s r' : no_blobs r -> ApplyFileDeletion d r = Some (s, r') -> no_blobs r'.
Proof using.
  intros Hb. unfold ApplyFileDeletion. destruct d as [level n]. destruct (negb _); [by intros [= <- <-]; destruct (_ >=? _) |]. destruct (_ >=? _); [by intros [= <- <-] |].
  destruct (level_state r level); [| done]. cbn [mbind option_bind]. destruct (GetOldestBlobFileNumberForTableFile _ _ _); [| done]. cbn [mbind option_bind].
  rewrite no_blobs_change by done. intros [= <- <-]. unfold forget_file. by repeat case_match.
Qed.
Lemma no_blobs_addition verify x r s r' : no_blobs r -> ApplyFileAddition verify x r = Some (s, r') -> no_blobs r'.
Proof using.
  intros Hb. unfold ApplyFileAddition. destruct x as [level f]. destruct (negb _); [by intros [= <- <-]; destruct (_ >=? _) |]. destruct (_ >=? _); [by intros [= <- <-] |].
  destruct (level_state r level); [| done]. cbn [mbind option_bind]. rewrite no_blobs_change by done. intros E. by repeat case_match; simplify_eq.
Qed.
Lemma no_blobs_each {A} (f : A -> Rep -> option (Status * Rep)) l : (forall x r s r', no_blobs r -> f x r = Some (s, r') -> no_blobs r') ->
  forall r s r', no_blobs r -> apply_each f l r = Some (s, r') -> no_blobs r'.
Proof using.
  intros Hf. induction l as [| x l IH]; intros r s r' Hb E; cbn in E; [by injection E as <- <- |]. apply bind_Some in E as ([s1 r1] & E1 & E2).
  apply Hf in E1; [| done]. destruct (status_ok s1); [by apply IH in E2 | by injection E2 as <- <-].
Qed.
Lemma no_blobs_then m k s r' : (forall s r, m = Some (s, r) -> no_blobs r) -> (forall r s r', no_blobs r -> k r = Some (s, r') -> no_blobs r') ->
  and_then m k = Some (s, r') -> no_blobs r'.
Proof using.
  intros Hm Hk E. apply bind_Some in E as ([s1 r1] & E1 & E2). specialize (Hm s1 r1 E1). destruct (status_ok s1); [by apply Hk in E2 | by injection E2 as <- <-].
Qed.
Lemma no_blobs_Apply verify_file verify_blob_file e r s r' : sst_edit e -> no_blobs r -> Apply verify_file verify_blob_file e r = Some (s, r') -> no_blobs r'.
Proof using.
  intros (E1 & E2 & _) Hb. unfold Apply. destruct (negb _); [by intros [= <- <-] |]. rewrite E1, E2. cbn [apply_each]. unfold and_then at 1 2. cbn [mbind option_bind status_ok].
  cbn. apply no_blobs_then; [intros s1 r1; by apply (no_blobs_each ApplyFileDeletion _ no_blobs_deletion) |]. intros r1 s1 r1' Hb1.
  apply no_blobs_then; [intros s2 r2; by apply (no_blobs_each _ _ (no_blobs_addition verify_file)) |]. intros r2 s2 r2' Hb2.
  apply no_blobs_then.
  - intros s3 r3. apply no_blobs_each; [| done]. intros [level key] r4 s4 r4' Hb4. unfold total, ApplyCompactCursors. by repeat case_match; intros [= <- <-].
  - intros r3 s3 r3' Hb3 [= <- <-]. by destruct (_ && _).
Qed.
Lemma no_blobs_edits verify_file verify_blob_file edits r s r' : Forall sst_edit edits -> no_blobs r ->
  apply_each (Apply verify_file verify_blob_file) edits r = Some (s, r') -> no_blobs r'.
Proof using.
  intros He. revert r. induction He as [| e edits He Hes IH]; intros r Hb E; cbn in E; [by injection E as <- <- |]. apply bind_Some in E as ([s1 r1] & E1 & E2).
  apply no_blobs_Apply in E1; [| done | done]. destruct (status_ok s1); [by apply IH in E2 | by injection E2 as <- <-].
Qed.
End Consistency.
