(* ===== verification/FilePicker.v ===== *)
(** db/version_set.cc, [FilePicker]: the files that a lookup of a key searches, from the newest to the
    oldest, with the bounds that the index from level to level gives. *)

From stdpp Require Import gmap.
From S2P Require Import Prelude Cursor Algorithms Coding Comparator DbFormat Status VersionEdit VersionStorage.

Open Scope record_scope.

Definition kLevelMaxIndex : Z := 2 ^ 31 - 1.

Record FilePicker := {
  picker_levels_ : Z;
  curr_level_ : Z;
  returned_file_level_ : Z;
  hit_file_level_ : Z;
  search_left_bound_ : Z;
  search_right_bound_ : Z;
  search_ended_ : bool;
  is_hit_file_last_in_level_ : bool;
  curr_file_level_ : LevelFilesBrief;
  curr_index_in_curr_level_ : nat;
  start_index_in_curr_level_ : nat;
}.
#[global] Instance FilePicker_rebuild : Rebuild FilePicker := fun p =>
  {| picker_levels_ := picker_levels_ p; curr_level_ := curr_level_ p; returned_file_level_ := returned_file_level_ p;
     hit_file_level_ := hit_file_level_ p; search_left_bound_ := search_left_bound_ p; search_right_bound_ := search_right_bound_ p;
     search_ended_ := search_ended_ p; is_hit_file_last_in_level_ := is_hit_file_last_in_level_ p;
     curr_file_level_ := curr_file_level_ p; curr_index_in_curr_level_ := curr_index_in_curr_level_ p;
     start_index_in_curr_level_ := start_index_in_curr_level_ p |}.

Section FilePicker.
Context {C : Comparator} {TC : TimestampComparator C}.
(** The version, and the key that is looked up. *)
Variables (level_files_brief : list LevelFilesBrief) (file_indexer : FileIndexer) (user_key ikey : bytes).

(** A level that is not searched: all of the next one is. *)
Definition skip_level (p : FilePicker) : FilePicker :=
  p <| search_left_bound_ := 0 |> <| search_right_bound_ := kLevelMaxIndex |> <| curr_level_ := u32 (curr_level_ p + 1) |>.
Definition start_level (level : LevelFilesBrief) (start_index : nat) (p : FilePicker) : FilePicker :=
  p <| curr_file_level_ := level |> <| start_index_in_curr_level_ := start_index |> <| curr_index_in_curr_level_ := start_index |>.
(** The loop of [PrepareNextLevel] over the levels: their number is enough fuel. *)
Fixpoint find_level (fuel : nat) (p : FilePicker) : bool * FilePicker :=
  match fuel with
  | O => (false, p)
  | S fuel =>
      if curr_level_ p <? picker_levels_ p then
        let level := default [] (level_files_brief !! Z.to_nat (curr_level_ p)) in
        let p := p <| curr_file_level_ := level |> in
        if slen level =? 0 then find_level fuel (skip_level p)
        else if curr_level_ p =? 0 then (true, start_level level 0 p)
        else if search_left_bound_ p <=? search_right_bound_ p then
          let p := p <| search_right_bound_ :=
            if search_right_bound_ p =? kLevelMaxIndex then slen level - 1 else search_right_bound_ p |> in
          let start_index := FindFileInRange level ikey (Z.to_nat (search_left_bound_ p)) (Z.to_nat (search_right_bound_ p + 1)) in
          if Z.of_nat start_index =? search_right_bound_ p + 1 then find_level fuel (skip_level p)
          else (true, start_level level start_index p)
        else find_level fuel (skip_level p)
      else (false, p)
  end.
Definition PrepareNextLevel (p : FilePicker) : FilePicker :=
  let '(found, p) := find_level (S (length level_files_brief)) (p <| curr_level_ := u32 (curr_level_ p + 1) |>) in
  p <| search_ended_ := negb found |>.

Definition MakeFilePicker (num_levels : nat) : FilePicker :=
  PrepareNextLevel
    {| picker_levels_ := Z.of_nat num_levels; curr_level_ := u32 (-1); returned_file_level_ := u32 (-1); hit_file_level_ := u32 (-1);
       search_left_bound_ := 0; search_right_bound_ := kLevelMaxIndex; search_ended_ := false; is_hit_file_last_in_level_ := false;
       curr_file_level_ := []; curr_index_in_curr_level_ := 0; start_index_in_curr_level_ := 0 |}.

(** The comparisons with the bounds of a file, made when its range is looked at; the one with the largest key is made only when it matters. *)
Definition compare_with_file (f : FdWithKeyRange) : Z * Z :=
  let cmp_smallest := CompareWithoutTimestamp user_key (ExtractUserKey (smallest_key f)) in
  (cmp_smallest, if cmp_smallest >=? 0 then CompareWithoutTimestamp user_key (ExtractUserKey (largest_key f)) else -1).
Definition next_index (p : FilePicker) : FilePicker := p <| curr_index_in_curr_level_ := S (curr_index_in_curr_level_ p) |>.
(** The range of keys is looked at unless there are few files at all. *)
Definition filtered (p : FilePicker) : bool := (picker_levels_ p >? 1) || (slen (curr_file_level_ p) >? 3).
Definition note_hit (p : FilePicker) : FilePicker :=
  p <| hit_file_level_ := curr_level_ p |>
    <| is_hit_file_last_in_level_ := Z.of_nat (curr_index_in_curr_level_ p) =? slen (curr_file_level_ p) - 1 |>.
Definition set_next_bounds (cmp : Z * Z) (p : FilePicker) : FilePicker :=
  if filtered p && (curr_level_ p >? 0) then
    let b := GetNextLevelIndex file_indexer (Z.to_nat (curr_level_ p)) (curr_index_in_curr_level_ p) cmp.1 cmp.2 in
    p <| search_left_bound_ := b.1 |> <| search_right_bound_ := b.2 |>
  else p.
(** One round for a file, whose comparisons with the key are [cmp]; [next] are the rounds that follow. *)
Definition search_file (next : FilePicker -> option FdWithKeyRange * FilePicker) (f : FdWithKeyRange) (cmp : Z * Z) (p : FilePicker) :
    option FdWithKeyRange * FilePicker :=
  let '(cmp_smallest, cmp_largest) := cmp in
  let p := set_next_bounds (cmp_smallest, cmp_largest) (note_hit p) in
  if filtered p && ((cmp_smallest <? 0) || (cmp_largest >? 0)) then
    if curr_level_ p =? 0 then next (next_index p) else next (PrepareNextLevel p)
  else
    let p := p <| returned_file_level_ := curr_level_ p |> in
    if (curr_level_ p >? 0) && (cmp_largest <? 0) then (Some f, PrepareNextLevel p) else (Some f, next_index p).
(** Both loops, over the levels and over the files of a level. *)
Fixpoint GetNextFile_loop (fuel : nat) (p : FilePicker) : option FdWithKeyRange * FilePicker :=
  match fuel with
  | O => (None, p)
  | S fuel =>
      if search_ended_ p then (None, p)
      else
        match curr_file_level_ p !! curr_index_in_curr_level_ p with
        | None => GetNextFile_loop fuel (PrepareNextLevel p)
        | Some f => search_file (GetNextFile_loop fuel) f (if filtered p then compare_with_file f else (0, -1)) p
        end
  end.
(** Every round goes on to a file or to a level. *)
Definition picker_fuel : nat := S (length (concat level_files_brief) + length level_files_brief).
Definition GetNextFile (p : FilePicker) : option FdWithKeyRange * FilePicker := GetNextFile_loop picker_fuel p.

(** The files that a lookup gets when it searches until there are none. *)
Fixpoint picked_files (fuel : nat) (p : FilePicker) : list FdWithKeyRange :=
  match fuel with
  | O => []
  | S fuel => match GetNextFile p with (Some f, p) => f :: picked_files fuel p | (None, _) => [] end
  end.
End FilePicker.
