(* ===== verification/FilePickerProofs.v ===== *)
(** The files that [FilePicker] returns are those that may hold the key, level by level. *)

From stdpp Require Import gmap sorting.
From S2P Require Import Prelude Cursor Algorithms Coding Comparator DbFormat Status VersionEdit VersionStorage VersionStorageProofs FilePicker.

Open Scope record_scope.

Lemma brief_lookup fs i : DoGenerateLevelFilesBrief fs !! i = MakeFdWithKeyRange <$> fs !! i.
Proof. exact (list_lookup_fmap MakeFdWithKeyRange fs i). Qed.
Lemma slen_brief fs : slen (DoGenerateLevelFilesBrief fs) = slen fs.
Proof. unfold slen, DoGenerateLevelFilesBrief. by rewrite length_map. Qed.

Section Picker.
Context {C : Comparator} {CL : ComparatorLaws C} {TC : TimestampComparator C} {UO : UserKeyOrder C}.
Variables (levels : list (list FileMetaData)) (indexer : FileIndexer) (ikey : bytes).
Abbreviation uk := (user ikey).
Abbreviation briefs := (map DoGenerateLevelFilesBrief levels).

(** * What is searched *)

(** The key is in the range of user keys of the file. *)
Definition may_hold (f : FileMetaData) : Prop := 0 <= ucmp uk (user (smallest f)) /\ ucmp uk (user (largest f)) <= 0.
#[global] Instance may_hold_dec f : Decision (may_hold f).
Proof. unfold may_hold. apply _. Defined.
(** The files of a level that are searched. In level 0 all are when there are few files at all; in a sorted
    level the files that end before the key are not. *)
Definition searched (level : nat) (fs : list FileMetaData) : list FileMetaData :=
  match level with
  | O => if (Z.of_nat (length levels) >? 1) || (slen fs >? 3) then filter may_hold fs else fs
  | S _ => filter (fun f => may_hold f /\ 0 <= icmp (largest f) ikey) fs
  end.
Definition searched_from (level : nat) : list FileMetaData :=
  concat (imap (fun i fs => searched (level + i) fs) (drop level levels)).

Hypothesis levels_ok : forall level fs, (0 < level)%nat -> levels !! level = Some fs -> level_wf fs.
Hypothesis indexer_ok : indexer = UpdateIndex NewFileIndexer (length levels) levels.
Hypothesis levels_fit : fits 31 (Z.of_nat (length levels)).
Hypothesis files_fit : Forall (fun fs => slen fs < kLevelMaxIndex) levels.

(** * Bounds *)

(** Outside of the bounds no file of the level holds the key. *)
Record lo_ok (lower : list FileMetaData) (lo : Z) : Prop := {
  lo_nonneg : 0 <= lo;
  lo_below j g : lower !! j = Some g -> Z.of_nat j < lo -> ucmp (user (largest g)) uk < 0;
}.
Record hi_ok (lower : list FileMetaData) (hi : Z) : Prop := {
  hi_len : hi + 1 <= slen lower;
  hi_above j g : lower !! j = Some g -> hi < Z.of_nat j -> ucmp uk (user (smallest g)) < 0;
}.
Definition bounds_ok (lower : list FileMetaData) (b : Z * Z) : Prop := lo_ok lower b.1 /\ hi_ok lower b.2.

Lemma lb_ok lower (key : FileMetaData -> bytes) a : ucmp (user (key a)) uk <= 0 ->
  lo_ok lower (lb_of lower (fun a b => ucmp (user (key a)) (user (largest b))) a).
Proof using UO.
  intros Ha. split; [unfold lb_of; lia |]. intros j g Eg Hj. unfold lb_of in Hj. apply Nat2Z.inj_lt in Hj.
  apply first_index_before with (2 := Eg) in Hj. apply Z.leb_gt in Hj. eapply cmp_lt_le_trans; [| exact Ha].
  order_sgn CompareWithoutTimestamp. lia.
Qed.
Lemma rb_ok lower (key : FileMetaData -> bytes) a : level_wf lower -> ucmp uk (user (key a)) <= 0 ->
  hi_ok lower (rb_of lower (fun a b => ucmp (user (key a)) (user (smallest b))) a).
Proof using CL UO.
  intros Hl Ha. unfold rb_of. set (n := first_index _ lower).
  assert (Hn : (n <= length lower)%nat) by apply first_index_le. split; [unfold slen; lia |]. intros j g Eg Hj.
  destruct (lookup_lt_is_Some_2 lower n) as [h Eh]; [apply lookup_lt_Some in Eg; lia |].
  assert (Hh := first_index_holds _ _ _ Eh). apply Z.ltb_lt in Hh. apply (cmp_le_lt_trans _ (user (key a))); [done |].
  apply (cmp_lt_le_trans _ (user (smallest h))); [done |]. apply (user_smallest lower Hl n j); [lia | done | done].
Qed.
Lemma lo_start lower : lo_ok lower 0.
Proof using. split; [done |]. intros; lia. Qed.
Lemma hi_end lower : hi_ok lower (slen lower - 1).
Proof using. split; [lia |]. intros j g Eg Hj. apply lookup_lt_Some in Eg. unfold slen in Hj. lia. Qed.

Lemma indexer_units level fs lower : (0 < level)%nat -> levels !! level = Some fs -> levels !! S level = Some lower ->
  next_level_index_ indexer !! level = Some (map (unit_of lower) fs) /\ level_rb_ indexer !! S level = Some (slen lower - 1) /\
  indexer_levels_ indexer = length levels.
Proof using CL UO levels_ok indexer_ok.
  intros Hl Ef El. assert (Hn := lookup_lt_Some _ _ _ El). rewrite indexer_ok. unfold UpdateIndex. rewrite decide_False by lia. cbn.
  rewrite !list_lookup_fmap, !lookup_seq_lt by lia. cbn. rewrite !decide_True by lia. rewrite Ef, El. cbn.
  split_and!; [| done | done]. f_equal. apply index_level_spec; [by apply (levels_ok level) | by apply (levels_ok (S level)); [lia |]].
Qed.
Lemma GetNextLevelIndex_ok level fs lower i f : (0 < level)%nat -> levels !! level = Some fs -> levels !! S level = Some lower ->
  fs !! i = Some f -> (forall j g, (j < i)%nat -> fs !! j = Some g -> ucmp (user (largest g)) uk <= 0) ->
  let b := GetNextLevelIndex indexer level i (ucmp uk (user (smallest f))) (ucmp uk (user (largest f))) in bounds_ok lower b.
Proof using CL UO levels_ok indexer_ok.
  intros Hl Efs Elow Ef Hbefore. destruct (indexer_units level fs lower) as (Hu & Hr & Hn); [done | done | done |].
  assert (Hlw : level_wf lower) by (apply (levels_ok (S level)); [lia | done]). assert (Hlen := lookup_lt_Some _ _ _ Elow).
  unfold GetNextLevelIndex. rewrite decide_False by (rewrite Hn; lia). rewrite Hu, Hr. cbv zeta. cbn [default from_option id].
  rewrite !list_lookup_fmap, Ef. cbn [fmap option_fmap option_map default from_option id unit_of smallest_lb largest_lb smallest_rb largest_rb].
  assert (Hbk : forall a b, ucmp a b = 0 -> ucmp b a <= 0) by (intros a b; order_sgn CompareWithoutTimestamp; lia).
  destruct (Z.ltb_spec (ucmp uk (user (smallest f))) 0) as [Hs | Hs].
  { split; [| by apply rb_ok; [| lia]]. destruct (decide (0 < level /\ 0 < i)%nat) as [[_ Hi] |]; [| apply lo_start].
    destruct (lookup_lt_is_Some_2 fs (i - 1)) as [g Eg]; [apply lookup_lt_Some in Ef; lia |]. cbn. rewrite Eg. cbn.
    apply lb_ok, (Hbefore (i - 1)%nat); [lia | done]. }
  destruct (Z.eqb_spec (ucmp uk (user (smallest f))) 0) as [Hs0 | Hs0]; [split; [by apply lb_ok, Hbk | by apply rb_ok; [| lia]] |].
  assert (Hgt : forall a b, 0 < ucmp a b -> ucmp b a <= 0) by (intros a b; order_sgn CompareWithoutTimestamp; lia).
  destruct (Z.ltb_spec (ucmp uk (user (largest f))) 0); [split; [apply lb_ok, Hgt; lia | by apply rb_ok; [| lia]] |].
  destruct (Z.eqb_spec (ucmp uk (user (largest f))) 0); [split; [by apply lb_ok, Hbk | by apply rb_ok; [| lia]] |].
  split; [apply lb_ok, Hgt; lia | apply hi_end].
Qed.

(** * The next level *)

Lemma searched_from_cons level fs : levels !! level = Some fs -> searched_from level = searched level fs ++ searched_from (S level).
Proof using.
  intros E. unfold searched_from. rewrite (drop_S _ _ _ E). cbn. rewrite Nat.add_0_r. f_equal. f_equal. apply imap_ext. intros i x _.
  cbn. by rewrite Nat.add_succ_r.
Qed.
Lemma searched_from_end level : (length levels <= level)%nat -> searched_from level = [].
Proof using. intros Hl. unfold searched_from. by rewrite drop_ge. Qed.

(** Files up to [s] end before the key, the others do not. *)
Definition starts_at (fs : list FileMetaData) (s : nat) : Prop :=
  (forall j g, (j < s)%nat -> fs !! j = Some g -> icmp (largest g) ikey < 0) /\
  (forall j g, (s <= j)%nat -> fs !! j = Some g -> 0 <= icmp (largest g) ikey).
Lemma starts_at_searched level fs s : (0 < level)%nat -> starts_at fs s -> searched level fs = filter may_hold (drop s fs).
Proof using.
  intros Hl [Hlow Hhigh]. destruct level as [| level]; [lia |]. cbn [searched]. rewrite <- (take_drop s fs) at 1. rewrite list.filter_app.
  rewrite (filter_none _ (take s fs)).
  - apply filter_ext_Forall. apply list.Forall_forall. intros f [j Ef]%list_elem_of_lookup_1. rewrite lookup_drop in Ef.
    split; [by intros [] |]. intros Hm. split; [done |]. by apply (Hhigh (s + j)%nat); [lia |].
  - apply list.Forall_forall. intros f [j Ef]%list_elem_of_lookup_1 [_ Hi]. apply lookup_take_Some in Ef as [Ef Hj].
    pose proof (Hlow j f Hj Ef). lia.
Qed.
Lemma user_before_ikey g : ucmp (user (largest g)) uk < 0 -> icmp (largest g) ikey < 0.
Proof using CL UO.
  intros Hlt. destruct (Z.lt_ge_cases (icmp (largest g) ikey) 0) as [| Hge]; [done |]. exfalso.
  assert (Hi : icmp ikey (largest g) <= 0) by (order_sgn InternalKeyComparator_Compare; lia). apply icmp_user in Hi.
  order_sgn CompareWithoutTimestamp. lia.
Qed.
Lemma FindFileInRange_ok fs lo hi : level_wf fs -> bounds_ok fs (lo, hi) -> lo <= hi ->
  let r := FindFileInRange (DoGenerateLevelFilesBrief fs) ikey (Z.to_nat lo) (Z.to_nat (hi + 1)) in
  (Z.of_nat r = hi + 1 -> Forall (fun f => ~ (may_hold f /\ 0 <= icmp (largest f) ikey)) fs) /\
  (Z.of_nat r <> hi + 1 -> (r < length fs)%nat /\ starts_at fs r).
Proof using CL UO.
  intros Hwf [[Hlo Hbelow] [Hhi Habove]] Hle. cbn in *. unfold slen in Hhi.
  assert (Hb : forall i x, DoGenerateLevelFilesBrief fs !! i = Some x -> exists f, fs !! i = Some f /\ x = MakeFdWithKeyRange f).
  { intros i x. rewrite brief_lookup, fmap_Some. naive_solver. }
  destruct (lower_bound_spec (fun f => icmp (largest_key f) ikey <? 0) (DoGenerateLevelFilesBrief fs) (Z.to_nat lo) (Z.to_nat (hi + 1)))
    as (Hr & Hless & Hnot).
  { unfold DoGenerateLevelFilesBrief. rewrite length_map. lia. }
  { intros i j x y Hij Hj (f & Ef & ->)%Hb (g & Eg & ->)%Hb. cbn. rewrite !Z.ltb_lt. intros Hg.
    eapply cmp_le_lt_trans; [apply (wf_largest fs Hwf i j); [lia | done | done] | done]. }
  fold (FindFileInRange (DoGenerateLevelFilesBrief fs) ikey (Z.to_nat lo) (Z.to_nat (hi + 1))) in Hr, Hless, Hnot.
  set (r := FindFileInRange _ _ _ _) in *. clearbody r.
  assert (Hlow : forall j g, (j < r)%nat -> fs !! j = Some g -> icmp (largest g) ikey < 0).
  { intros j g Hj Eg. destruct (decide (Z.of_nat j < lo)); [by apply user_before_ikey, (Hbelow j) |].
    apply Z.ltb_lt. apply (Hless j (MakeFdWithKeyRange g)); [lia |]. by rewrite brief_lookup, Eg. }
  split.
  - intros Er. apply list.Forall_forall. intros f [j Ef]%list_elem_of_lookup_1 [[Hm _] Hi]. destruct (decide (hi < Z.of_nat j)).
    + pose proof (Habove j f Ef). lia.
    + pose proof (Hlow j f ltac:(lia) Ef). lia.
  - intros Er. assert (Hlt : (r < length fs)%nat) by lia. split; [done |]. split; [exact Hlow |]. intros j g Hj Eg.
    destruct (lookup_lt_is_Some_2 fs r Hlt) as [h Eh]. assert (Hh : 0 <= icmp (largest h) ikey).
    { apply Z.ltb_ge. apply (Hnot r (MakeFdWithKeyRange h)); [lia |]. by rewrite brief_lookup, Eh. }
    pose proof (wf_largest fs Hwf r j h g Hj Eh Eg). destruct (Z.lt_ge_cases (icmp (largest g) ikey) 0); [| done].
    exfalso. pose proof (cmp_le_lt_trans (cmp := InternalKeyComparator_Compare) (largest h) (largest g) ikey). lia.
Qed.

(** The picker is before file [i] of a level. *)
Record at_file (p : FilePicker) (level i : nat) (fs : list FileMetaData) : Prop := {
  af_levels : picker_levels_ p = Z.of_nat (length levels);
  af_level : curr_level_ p = Z.of_nat level;
  af_files : levels !! level = Some fs;
  af_brief : curr_file_level_ p = DoGenerateLevelFilesBrief fs;
  af_index : curr_index_in_curr_level_ p = i;
}.
Definition unbounded (p : FilePicker) : Prop := search_left_bound_ p = 0 /\ search_right_bound_ p = kLevelMaxIndex.
Definition search_ok (level : nat) (p : FilePicker) : Prop := unbounded p \/
  (0 < level)%nat /\ forall fs, levels !! level = Some fs -> bounds_ok fs (search_left_bound_ p, search_right_bound_ p).
(** What is left to search of a level. *)
Definition left_of (level i : nat) (fs : list FileMetaData) : list FileMetaData :=
  match level with
  | O => if (Z.of_nat (length levels) >? 1) || (slen fs >? 3) then filter may_hold (drop i fs) else drop i fs
  | S _ => filter may_hold (drop i fs)
  end.
(** The picker found a level that has files to search, or files that it has to look at. *)
Definition found_from (level : nat) (p : FilePicker) : Prop := exists level' fs s, (level <= level')%nat /\ at_file p level' s fs /\ (s < length fs)%nat /\
  searched_from level = left_of level' s fs ++ searched_from (S level') /\
  (level' = 0%nat -> unbounded p) /\ ((0 < level')%nat -> starts_at fs s).

Lemma next_level_number level : (level <= length levels)%nat -> u32 (Z.of_nat level + 1) = Z.of_nat (S level).
Proof using levels_fit. intros Hl. rewrite wrap_small; [lia |]. unfold fits in *. lia. Qed.
Lemma found_skip level p fs : levels !! level = Some fs -> searched level fs = [] -> found_from (S level) p -> found_from level p.
Proof using.
  intros E Hs (level' & fs' & s & Hle & Hat & Hlt & Hrest & H0 & H1). exists level', fs', s. rewrite (searched_from_cons _ _ E), Hs.
  split_and!; [lia | done..].
Qed.
Lemma find_level_ok fuel : forall level p, picker_levels_ p = Z.of_nat (length levels) -> curr_level_ p = Z.of_nat level ->
  (level <= length levels < level + fuel)%nat -> search_ok level p ->
  let r := find_level briefs ikey fuel p in
  search_ended_ r.2 = search_ended_ p /\ if r.1 then found_from level r.2 else searched_from level = [].
Proof using CL UO levels_ok levels_fit files_fit.
  induction fuel as [| fuel IH]; intros level p Hn Hl Hf Hs; [lia |]. cbn [find_level].
  destruct (Z.ltb_spec (curr_level_ p) (picker_levels_ p)) as [Hlt | Hge].
  2: { split; [done |]. apply searched_from_end. lia. }
  destruct (lookup_lt_is_Some_2 levels level) as [fs Efs]; [lia |]. assert (Hfit := list_elem_of_lookup_2 _ _ _ Efs). assert (Hnat : Z.to_nat (curr_level_ p) = level) by lia.
  rewrite Hnat, list_lookup_fmap, Efs. cbn [fmap option_fmap option_map default from_option id].
  assert (Hskip : forall q, picker_levels_ q = picker_levels_ p -> curr_level_ q = curr_level_ p -> search_ended_ q = search_ended_ p ->
    searched level fs = [] -> let r := find_level briefs ikey fuel (skip_level q) in
    search_ended_ r.2 = search_ended_ p /\ if r.1 then found_from level r.2 else searched_from level = []).
  { intros q Hq1 Hq2 Hq3 Hsf. destruct (IH (S level) (skip_level q)) as [He Hr].
    - cbn. congruence.
    - cbn. rewrite Hq2, Hl. apply next_level_number. lia.
    - lia.
    - by left.
    - split; [rewrite He; exact Hq3 |]. destruct (find_level _ _ _ _).1; [by apply (found_skip _ _ fs) |].
      by rewrite (searched_from_cons _ _ Efs), Hsf. }
  rewrite slen_brief.
  set (p1 := p <| curr_file_level_ := DoGenerateLevelFilesBrief fs |>). destruct (Z.eqb_spec (slen fs) 0) as [Hz | Hz].
  { apply Hskip; [done | done | done |]. apply slen_zero in Hz. rewrite Hz. destruct level; cbn; [by destruct (_ || _) | done]. }
  assert (Hpos : (0 < length fs)%nat) by (unfold slen in Hz; lia).
  change (curr_level_ p1) with (curr_level_ p). destruct (Z.eqb_spec (curr_level_ p) 0) as [H0 | H0].
  { split; [done |]. assert (level = 0%nat) as -> by lia. exists 0%nat, fs, 0%nat. split_and!; [done | done | done | | | lia].
    - rewrite (searched_from_cons _ _ Efs). unfold left_of. by rewrite drop_0.
    - intros _. destruct Hs as [Hs | [Hs _]]; [exact Hs | lia]. }
  assert (Hwf : level_wf fs) by (apply (levels_ok level); [lia | done]).
  set (hi := if search_right_bound_ p1 =? kLevelMaxIndex then slen fs - 1 else search_right_bound_ p1).
  assert (Hb : bounds_ok fs (search_left_bound_ p, hi)).
  { destruct Hs as [[Hs1 Hs2] | [_ Hs]].
    - unfold hi. change (search_right_bound_ p1) with (search_right_bound_ p). rewrite Hs1, Hs2, Z.eqb_refl. split; [apply lo_start | apply hi_end].
    - destruct (Hs fs Efs) as [Hs1 Hs2]. split; [exact Hs1 |]. unfold hi. destruct (_ =? _); [apply hi_end | exact Hs2]. }
  change (search_left_bound_ p1) with (search_left_bound_ p). destruct (Z.leb_spec (search_left_bound_ p) (search_right_bound_ p1)) as [Hle | Hgt].
  - assert (Hlh : search_left_bound_ p <= hi).
    { unfold hi. destruct (Z.eqb_spec (search_right_bound_ p1) kLevelMaxIndex) as [E |]; [| done]. destruct Hs as [[Hs1 _] | [_ Hs]]; [unfold slen; lia |].
      apply (Hs fs) in Efs as Hb'. destruct Hb' as [_ [Hb' _]]. cbn in Hb'. apply (proj1 (list.Forall_forall _ _) files_fit) in Hfit.
      change (search_right_bound_ p1) with (search_right_bound_ p) in E. lia. }
    destruct (FindFileInRange_ok fs _ _ Hwf Hb Hlh) as [Hnone Hsome]. cbv zeta.
    change (search_left_bound_ (p1 <| search_right_bound_ := hi |>)) with (search_left_bound_ p).
    change (search_right_bound_ (p1 <| search_right_bound_ := hi |>)) with hi.
    set (r := FindFileInRange _ _ _ _) in *. destruct (Z.eqb_spec (Z.of_nat r) (hi + 1)) as [Er | Er].
    + apply Hskip; [done | done | done |]. destruct level as [| level]; [lia |]. cbn [searched]. by apply filter_none, Hnone.
    + split; [done |]. destruct (Hsome Er) as [Hr Hst]. exists level, fs, r. split_and!; [done | done | done | | lia | done].
      rewrite (searched_from_cons _ _ Efs). f_equal. rewrite (starts_at_searched level fs r) by (done || lia). by destruct level; [lia |].
  - apply Hskip; [done | done | done |]. destruct level as [| level]; [lia |]. cbn [searched]. apply filter_none.
    destruct Hs as [[Hs1 Hs2] | [_ Hs]].
    { change (search_right_bound_ p1) with (search_right_bound_ p) in Hgt. rewrite Hs1, Hs2 in Hgt. done. }
    destruct (Hs fs Efs) as [[_ Hbelow] [_ Habove]]. cbn in Hbelow, Habove. apply list.Forall_forall.
    intros f [j Ef]%list_elem_of_lookup_1 [[Hm1 Hm2] _]. change (search_right_bound_ p1) with (search_right_bound_ p) in Hgt.
    destruct (Z.lt_ge_cases (search_right_bound_ p) (Z.of_nat j)); [pose proof (Habove j f Ef); lia |].
    pose proof (Hbelow j f Ef ltac:(lia)). order_sgn CompareWithoutTimestamp. lia.
Qed.

(** * The next file *)

(** Bounds the rounds over the levels from [level] on. *)
Definition rounds_from (level : nat) : nat := length (concat (drop level levels)) + length (drop level levels).
Lemma rounds_from_cons level fs : levels !! level = Some fs -> rounds_from level = (1 + length fs + rounds_from (S level))%nat.
Proof using. intros E. unfold rounds_from. rewrite (drop_S _ _ _ E). cbn. rewrite length_app. lia. Qed.
Lemma rounds_from_mono level level' : (level <= level')%nat -> (rounds_from level' <= rounds_from level)%nat.
Proof using.
  induction 1 as [| level' _ IH]; [done |]. etrans; [| exact IH]. destruct (levels !! level') as [fs |] eqn:E.
  - rewrite (rounds_from_cons _ _ E). lia.
  - apply lookup_ge_None in E. unfold rounds_from. by rewrite !drop_ge by lia.
Qed.

(** The files [r] are left, and [m] bounds the rounds it takes to see them all. *)
Definition picker_at (p : FilePicker) (r : list FileMetaData) (m : nat) : Prop :=
  search_ended_ p = true /\ r = [] \/
  search_ended_ p = false /\ exists level i fs, at_file p level i fs /\ (i <= length fs)%nat /\
    r = left_of level i fs ++ searched_from (S level) /\ (1 + (length fs - i) + rounds_from (S level) <= m)%nat /\
    (level = 0%nat -> unbounded p) /\
    ((0 < level)%nat -> (forall j g, (j < i)%nat -> fs !! j = Some g -> ucmp (user (largest g)) uk <= 0) /\
       (forall j g, (i <= j)%nat -> fs !! j = Some g -> 0 <= icmp (largest g) ikey) /\ ((i < length fs)%nat \/ search_ok (S level) p)).
Lemma picker_at_weaken p r m m' : (m <= m')%nat -> picker_at p r m -> picker_at p r m'.
Proof using.
  intros Hm [H | (He & level & i & fs & H1 & H2 & H3 & H4 & H5)]; [by left | right]. split; [done |]. exists level, i, fs. split_and!; [done.. | lia | apply H5 | apply H5].
Qed.
Lemma found_picker_at level p : search_ended_ p = false -> found_from level p -> picker_at p (searched_from level) (rounds_from level).
Proof using CL UO.
  intros He (level' & fs & s & Hle & Hat & Hs & Hr & H0 & H1). right. split; [done |]. exists level', s, fs.
  split_and!; [done | lia | done | | done |].
  - etrans; [| apply (rounds_from_mono _ _ Hle)]. rewrite (rounds_from_cons _ _ (af_files _ _ _ _ Hat)). lia.
  - intros Hpos. destruct (H1 Hpos) as [Hlow Hhigh]. split_and!; [| exact Hhigh | by left].
    intros j g Hj Eg. apply icmp_user. apply Z.lt_le_incl. by apply (Hlow j).
Qed.
Lemma PrepareNextLevel_ok level p : picker_levels_ p = Z.of_nat (length levels) -> curr_level_ p = Z.of_nat level -> (level < length levels)%nat ->
  search_ended_ p = false -> search_ok (S level) p ->
  picker_at (PrepareNextLevel briefs ikey p) (searched_from (S level)) (rounds_from (S level)).
Proof using CL UO levels_ok levels_fit files_fit.
  intros Hn Hl Hlt He Hs. unfold PrepareNextLevel. set (p1 := p <| curr_level_ := _ |>).
  destruct (find_level_ok (S (length briefs)) (S level) p1) as [He' Hf].
  - done.
  - cbn. rewrite Hl. apply next_level_number. lia.
  - rewrite length_map. lia.
  - exact Hs.
  - destruct (find_level _ _ _ _) as [found p2]. cbn in He', Hf. destruct found; cbn; [| by left; rewrite Hf].
    apply found_picker_at; [done |]. destruct Hf as (level' & fs & s & H1 & H2 & H3 & H4 & H5 & H6). exists level', fs, s.
    split_and!; [done | by destruct H2 | done..].
Qed.

Lemma compare_with_file_may_hold f : let c := compare_with_file uk (MakeFdWithKeyRange f) in
  ((c.1 <? 0) || (c.2 >? 0)) = negb (bool_decide (may_hold f)).
Proof using.
  cbn. unfold may_hold. rewrite Z.geb_leb, Z.gtb_ltb. destruct (bool_decide_reflect (0 <= ucmp uk (user (smallest f)) /\ ucmp uk (user (largest f)) <= 0));
    destruct_ifs; bool_to_prop; lia.
Qed.
Lemma left_of_cons level i fs f : fs !! i = Some f -> ((0 < level)%nat -> (1 < length levels)%nat) ->
  let filtered := (Z.of_nat (length levels) >? 1) || (slen fs >? 3) in
  left_of level i fs = (if filtered && negb (bool_decide (may_hold f)) then [] else [f]) ++ left_of level (S i) fs.
Proof using.
  intros E Hl filtered. assert (Hf : (0 < level)%nat -> filtered = true) by (intros ?; unfold filtered; apply orb_true_iff; left; lia).
  unfold left_of. fold filtered. rewrite (drop_S _ _ _ E). destruct level as [| level]; [destruct filtered; [| done] | rewrite Hf by lia].
  all: cbn [andb]; rewrite filter_cons; by destruct (decide (may_hold f)), (bool_decide_reflect (may_hold f)).
Qed.
(** In a sorted level no file behind one that starts or ends behind the key holds it. *)
Lemma left_of_none level i fs k : (0 < level)%nat -> ucmp uk (user k) < 0 ->
  (forall j g, fs !! (i + j)%nat = Some g -> icmp k (smallest g) <= 0) -> left_of level i fs = [].
Proof using CL UO.
  intros Hl Hk Hle. destruct level as [| level]; [lia |]. cbn. apply filter_none. apply list.Forall_forall.
  intros g [j Eg]%list_elem_of_lookup_1 [Hm _]. rewrite lookup_drop in Eg.
  pose proof (cmp_lt_le_trans uk (user k) (user (smallest g)) Hk (icmp_user _ _ (Hle j g Eg))). lia.
Qed.
Lemma GetNextLevelIndex_cmp x level i cmp_smallest cmp_largest :
  GetNextLevelIndex x level i cmp_smallest cmp_largest = GetNextLevelIndex x level i cmp_smallest (if cmp_smallest >=? 0 then cmp_largest else -1).
Proof using.
  unfold GetNextLevelIndex. destruct (decide _); [done |]. rewrite Z.geb_leb. by destruct (Z.ltb_spec cmp_smallest 0), (Z.leb_spec 0 cmp_smallest); try lia.
Qed.
(** What a look at a file leaves. *)
Lemma set_next_bounds_ok level i fs f p : at_file p level i fs -> fs !! i = Some f ->
  ((0 < level)%nat -> forall j g, (j < i)%nat -> fs !! j = Some g -> ucmp (user (largest g)) uk <= 0) -> (level = 0%nat -> unbounded p) ->
  let q := set_next_bounds indexer (compare_with_file uk (MakeFdWithKeyRange f)) (note_hit p) in
  at_file q level i fs /\ search_ended_ q = search_ended_ p /\ (level = 0%nat -> unbounded q) /\ search_ok (S level) q.
Proof using CL UO levels_ok indexer_ok.
  intros [Hn Hl Efs Hbr Hidx] Ef Hbefore H0. unfold set_next_bounds. change (curr_level_ (note_hit p)) with (curr_level_ p). rewrite Hl.
  destruct (decide (level = 0)%nat) as [-> | Hne].
  { rewrite andb_false_r. split_and!; [done | done | exact H0 | left; by apply H0]. }
  assert (Hlt := lookup_lt_Some _ _ _ Efs). rewrite (proj2 (Z.gtb_lt _ _)), andb_true_r by lia.
  replace (filtered (note_hit p)) with true by (unfold filtered; cbn; rewrite Hn; symmetry; apply orb_true_iff; left; lia).
  split_and!; [done | done | done |]. right. split; [lia |]. intros lower Elow. cbn. rewrite Nat2Z.id, Hidx.
  pose proof (GetNextLevelIndex_ok level fs lower i f ltac:(lia) Efs Elow Ef (Hbefore ltac:(lia))) as Hok. cbv zeta in Hok.
  erewrite <- surjective_pairing. erewrite <- GetNextLevelIndex_cmp. exact Hok.
Qed.

Lemma largest_not_before f : 0 <= icmp (largest f) ikey -> ucmp uk (user (largest f)) <= 0.
Proof using CL UO. intros Hf. apply icmp_user. order_sgn InternalKeyComparator_Compare. lia. Qed.
Lemma next_index_ok level i fs f q m : at_file q level i fs -> fs !! i = Some f -> search_ended_ q = false -> (level = 0%nat -> unbounded q) ->
  ((0 < level)%nat -> (forall j g, (j < i)%nat -> fs !! j = Some g -> ucmp (user (largest g)) uk <= 0) /\
     (forall j g, (i <= j)%nat -> fs !! j = Some g -> 0 <= icmp (largest g) ikey) /\ search_ok (S level) q /\ ucmp (user (largest f)) uk <= 0) ->
  (1 + (length fs - i) + rounds_from (S level) <= m)%nat ->
  picker_at (next_index q) (left_of level (S i) fs ++ searched_from (S level)) (m - 1).
Proof using.
  intros Hq Ef He H0 H1 Hm. assert (Hi := lookup_lt_Some _ _ _ Ef). right. split; [done |]. exists level, (S i), fs.
  split_and!; [by destruct Hq as [? ? ? ? <-] | lia | done | lia | done |]. intros Hl. destruct (H1 Hl) as (Hlow & Hhigh & Hs & Hf).
  split_and!; [| intros j g Hj; apply Hhigh; lia | by right]. intros j g Hj Eg. destruct (decide (j = i)) as [-> |]; [| apply (Hlow j); [lia | done]].
  rewrite Ef in Eg. by injection Eg as <-.
Qed.
Definition next_ok (r : list FileMetaData) (m : nat) (x : option FdWithKeyRange * FilePicker) : Prop :=
  match r with
  | [] => x.1 = None
  | f :: r => x.1 = Some (MakeFdWithKeyRange f) /\ picker_at x.2 r m
  end.
Lemma next_ok_weaken r m m' x : (m <= m')%nat -> next_ok r m x -> next_ok r m' x.
Proof using. destruct r as [| f r]; [done |]. intros Hm [H1 H2]. split; [done |]. by apply (picker_at_weaken _ _ m). Qed.
(** Comparisons that are not made do not matter. *)
Lemma search_file_unfiltered next f c c' p : (filtered p = false -> curr_level_ p = 0) ->
  search_file briefs indexer ikey next f (if filtered p then c else c') p = search_file briefs indexer ikey next f c p.
Proof using.
  destruct (filtered p) eqn:Ef; [done |]. intros Hl. specialize (Hl eq_refl). destruct c as [cs cl], c' as [cs' cl']. unfold search_file, set_next_bounds.
  change (filtered (note_hit p)) with (filtered p). rewrite Ef. cbn [andb]. change (filtered (note_hit p)) with (filtered p). rewrite Ef. cbn. by rewrite Hl.
Qed.
Lemma GetNextFile_loop_ok fuel : forall p r m, picker_at p r m -> (m < fuel)%nat ->
  next_ok r m (GetNextFile_loop briefs indexer uk ikey fuel p).
Proof using CL UO levels_ok indexer_ok levels_fit files_fit.
  induction fuel as [| fuel IH]; intros p r m Hp Hm; [lia |]. cbn [GetNextFile_loop].
  destruct Hp as [[He ->] | (He & level & i & fs & Hat & Hi & -> & Hrounds & H0 & H1)]; rewrite He; [done |].
  destruct Hat as [Hn Hl Efs Hbrief Hidx]. assert (Hlt := lookup_lt_Some _ _ _ Efs).
  assert (Hnext : forall q, picker_levels_ q = picker_levels_ p -> curr_level_ q = curr_level_ p -> search_ended_ q = false -> search_ok (S level) q ->
    left_of level i fs = [] -> next_ok (left_of level i fs ++ searched_from (S level)) m
      (GetNextFile_loop briefs indexer uk ikey fuel (PrepareNextLevel briefs ikey q))).
  { intros q Hq1 Hq2 Hq3 Hq4 ->. assert (Hq := PrepareNextLevel_ok level q ltac:(congruence) ltac:(congruence) Hlt Hq3 Hq4).
    apply (next_ok_weaken _ (rounds_from (S level))); [lia |]. apply IH; [exact Hq | lia]. }
  rewrite Hbrief, Hidx, brief_lookup. destruct (fs !! i) as [f |] eqn:Ef; cbn [fmap option_fmap option_map].
  2: { apply lookup_ge_None in Ef. apply Hnext; [done | done | done | | unfold left_of; rewrite drop_ge by lia; destruct level; [by destruct (_ || _) | done]].
    destruct (decide (level = 0)%nat) as [E0 |]; [left; by apply H0 | destruct H1 as (_ & _ & [| Hs]); [lia | lia | exact Hs]]. }
  destruct (set_next_bounds_ok level i fs f p) as (Hq & Hqe & Hq0 & Hqs); [done | done | intros Hp; apply (H1 Hp) | done |].
  rewrite search_file_unfiltered by (unfold filtered; rewrite Hn, Hl; intros [? _]%orb_false_iff; lia).
  pose proof (compare_with_file_may_hold f) as Hc. destruct (compare_with_file uk (MakeFdWithKeyRange f)) as [cs cl] eqn:Ec.
  injection Ec as Ecs Ecl. cbn in Hc. unfold search_file. rewrite Hc.
  set (q := set_next_bounds indexer (cs, cl) (note_hit p)) in *. clearbody q. rewrite He in Hqe.
  assert (Hfil : filtered q = (Z.of_nat (length levels) >? 1) || (slen fs >? 3)).
  { unfold filtered. by rewrite (af_levels _ _ _ _ Hq), (af_brief _ _ _ _ Hq), slen_brief. }
  assert (Hleft := left_of_cons level i fs f Ef ltac:(lia)). cbv zeta in Hleft.
  rewrite Hfil, (af_level _ _ _ _ Hq). destruct (_ && negb (bool_decide (may_hold f))) eqn:Eout.
  - destruct (Z.eqb_spec (Z.of_nat level) 0) as [E0 | E0].
    + rewrite Hleft. apply (next_ok_weaken _ (m - 1)); [lia |]. apply IH; [| lia]. apply (next_index_ok level i fs f q m); [done.. | lia | done].
    + apply andb_true_iff in Eout as [_ Hout%negb_true_iff%bool_decide_eq_false].
      apply Hnext; [by rewrite (af_levels _ _ _ _ Hq) | by rewrite (af_level _ _ _ _ Hq) | done | done |].
      destruct H1 as (_ & Hhigh & _); [lia |]. pose proof (largest_not_before f (Hhigh i f ltac:(lia) Ef)).
      assert (Hwf := levels_ok level fs ltac:(lia) Efs).
      apply (left_of_none level i fs (smallest f)); [lia | unfold may_hold in Hout; lia |].
      intros j g Eg. apply (wf_smallest fs Hwf i (i + j)); [lia | done | done].
  - rewrite Hleft. cbn [app next_ok]. set (q2 := q <| returned_file_level_ := Z.of_nat level |>).
    assert (Hq2 : at_file q2 level i fs) by (by destruct Hq). rewrite (af_level _ _ _ _ Hq2).
    assert (Hcl : (0 < level)%nat -> ucmp uk (user (largest f)) = cl).
    { intros Hl0. apply andb_false_iff in Eout as [Hf | [Hm1 _]%negb_false_iff%bool_decide_eq_true]; [apply orb_false_iff in Hf as [? _]; lia |].
      cbn in Ecl. by rewrite Z.geb_leb, (proj2 (Z.leb_le _ _)) in Ecl. }
    destruct ((Z.of_nat level >? 0) && (cl <? 0)) eqn:Ecl2; cbn [fst snd]; (split; [done |]).
    + apply andb_true_iff in Ecl2 as [Hl0%Z.gtb_lt Hcl0%Z.ltb_lt]. rewrite (left_of_none level (S i) fs (largest f)); [| lia | | ].
      * eapply picker_at_weaken; [| apply (PrepareNextLevel_ok level q2); [apply Hq2 | apply Hq2 | done | done | done]]. lia.
      * rewrite Hcl; [done | lia].
      * intros j g Eg. apply Z.lt_le_incl. apply (wf_before fs (levels_ok level fs ltac:(lia) Efs) i (S i + j)); [lia | done | done].
    + apply (picker_at_weaken _ _ (m - 1)); [lia |]. apply (next_index_ok level i fs f q2 m); [done.. | | done].
      intros Hl0. destruct (H1 Hl0) as (Hlow & Hhigh & _). split_and!; [done | done | done |].
      apply andb_false_iff in Ecl2 as [? | ?]; [lia |]. rewrite <- (Hcl Hl0) in *. order_sgn CompareWithoutTimestamp. lia.
Qed.

Lemma picked_files_ok fuel : forall p r m, picker_at p r m -> (m < picker_fuel briefs)%nat -> (length r < fuel)%nat ->
  picked_files briefs indexer uk ikey fuel p = map MakeFdWithKeyRange r.
Proof using CL UO levels_ok indexer_ok levels_fit files_fit.
  induction fuel as [| fuel IH]; intros p r m Hp Hm Hr; [lia |]. cbn [picked_files]. unfold GetNextFile.
  assert (Hn := GetNextFile_loop_ok (picker_fuel briefs) p r m Hp Hm). destruct (GetNextFile_loop _ _ _ _ _ p) as [o q].
  destruct r as [| f r]; cbn in Hn; [by subst o |]. destruct Hn as [-> Hq]. cbn in Hr. cbn [map]. f_equal. apply (IH q r m); [done | done | lia].
Qed.
Lemma MakeFilePicker_ok : picker_at (MakeFilePicker briefs ikey (length levels)) (searched_from 0) (rounds_from 0).
Proof using CL UO levels_ok levels_fit files_fit.
  unfold MakeFilePicker, PrepareNextLevel. set (p1 := _ <| curr_level_ := _ |>).
  destruct (find_level_ok (S (length briefs)) 0 p1) as [He Hf]; [done | done | rewrite length_map; lia | by left |].
  destruct (find_level _ _ _ _) as [found p2]. cbn in He, Hf. destruct found; cbn; [| by left; rewrite Hf].
  apply found_picker_at; [done |]. destruct Hf as (level' & fs & s & H1 & H2 & H3 & H4 & H5 & H6). exists level', fs, s.
  split_and!; [done | by destruct H2 | done..].
Qed.
Lemma picker_searches fuel : (length (searched_from 0) < fuel)%nat ->
  picked_files briefs indexer uk ikey fuel (MakeFilePicker briefs ikey (length levels)) = map MakeFdWithKeyRange (searched_from 0).
Proof using CL UO levels_ok indexer_ok levels_fit files_fit.
  intros Hf. apply (picked_files_ok fuel _ _ (rounds_from 0) MakeFilePicker_ok); [| done]. unfold picker_fuel, rounds_from.
  rewrite drop_0, length_map. assert (E : length (concat briefs) = length (concat levels)); [| lia].
  clear. induction levels as [| fs l IH]; cbn; [done |]. rewrite !length_app, IH. unfold DoGenerateLevelFilesBrief. by rewrite length_map.
Qed.
End Picker.
