(* ===== verification/FilePickerTheorems.v ===== *)
(** A lookup in a version searches the files that may hold the key. *)

From stdpp Require Import gmap sorting.
From S2P Require Import Prelude Cursor Algorithms Coding Comparator DbFormat Status VersionEdit VersionStorage VersionStorageProofs FilePicker FilePickerProofs.

Open Scope record_scope.

Section Version.
Context {C : Comparator} {TC : TimestampComparator C}.

(** The levels up to the last that has files. *)
Definition version_levels (v : VersionStorageInfo) : list (list FileMetaData) := map (LevelFiles v) (seq 0 (num_non_empty_levels_ v)).
(** The files a lookup of an internal key has to search, from the newest data to the oldest. *)
Definition searched_files (v : VersionStorageInfo) (ikey : bytes) : list FileMetaData := searched_from (version_levels v) ikey 0.
(** A version that has its files but is not prepared yet. *)
Record saved_version (v : VersionStorageInfo) : Prop := {
  sv_levels : length (files_ v) = num_levels_ v;
  sv_fits : fits 31 (Z.of_nat (num_levels_ v));
  sv_sizes level : slen (LevelFiles v level) < kLevelMaxIndex;
  sv_indexer : file_indexer_ v = NewFileIndexer;
}.
Definition sorted_levels (v : VersionStorageInfo) : Prop := forall level, (0 < level)%nat -> level_wf (LevelFiles v level).

Lemma count_non_empty_le n v : (count_non_empty n v <= n)%nat.
Proof. induction n as [| n IH]; cbn; [done |]. destruct (LevelFiles v n); lia. Qed.
Lemma count_non_empty_above n v level : (count_non_empty n v <= level < n)%nat -> LevelFiles v level = [].
Proof.
  induction n as [| n IH]; cbn; [lia |]. destruct (LevelFiles v n) eqn:E; [| lia]. intros Hl. destruct (decide (level = n)) as [-> |]; [done |]. apply IH. lia.
Qed.
Lemma UpdateIndex_levels x n files : UpdateIndex x n files = UpdateIndex x n (map (fun level => default [] (files !! level)) (seq 0 n)).
Proof.
  unfold UpdateIndex. destruct (decide (n = 0)%nat); [done |].
  assert (E : forall i, (i < n)%nat -> map (fun level => default [] (files !! level)) (seq 0 n) !! i = Some (default [] (files !! i))).
  { intros i Hi. rewrite list_lookup_fmap, lookup_seq_lt by done. done. }
  f_equal; apply list_fmap_ext; intros i level [-> Hi]%lookup_seq.
  - destruct (decide _); [| done]. cbn. by rewrite !E by lia.
  - destruct (decide _); [| done]. cbn. by rewrite E by lia.
Qed.
Lemma prepared_levels v : let w := PrepareForVersionAppend v in version_levels w = map (LevelFiles v) (seq 0 (num_non_empty_levels_ w)) /\
  level_files_brief_ w = map DoGenerateLevelFilesBrief (version_levels w) /\
  file_indexer_ w = UpdateIndex (file_indexer_ v) (length (version_levels w)) (version_levels w).
Proof.
  cbn. split_and!; [done | |].
  - unfold version_levels. by rewrite map_map.
  - unfold version_levels. rewrite length_map, length_seq. apply UpdateIndex_levels.
Qed.
End Version.

Section Complete.
Context {C : Comparator} {CL : ComparatorLaws C} {TC : TimestampComparator C} {UO : UserKeyOrder C}.

Lemma searched_from_elem levels ikey level fs f : levels !! level = Some fs -> f ∈ searched levels ikey level fs -> f ∈ searched_from levels ikey 0.
Proof using.
  intros E Hf. unfold searched_from. rewrite drop_0. apply list_elem_of_In, in_concat. exists (searched levels ikey level fs).
  split; [| by apply list_elem_of_In]. apply list_elem_of_In, list_elem_of_lookup. exists level. rewrite list_lookup_imap, E. done.
Qed.
Lemma may_hold_range ikey f k : icmp (smallest f) k <= 0 -> icmp k (largest f) <= 0 -> ucmp (user k) (user ikey) = 0 -> may_hold ikey f.
Proof using CL UO.
  intros Hs Hl Hk. apply icmp_user in Hs, Hl. split.
  - assert (ucmp (user (smallest f)) (user ikey) <= 0) by (eapply cmp_trans; [exact Hs | lia]). order_sgn CompareWithoutTimestamp. lia.
  - eapply cmp_trans; [| exact Hl]. order_sgn CompareWithoutTimestamp. lia.
Qed.
Lemma level_searched v ikey level f k : let w := PrepareForVersionAppend v in saved_version v -> f ∈ LevelFiles v level ->
  icmp (smallest f) k <= 0 -> icmp k (largest f) <= 0 -> ucmp (user k) (user ikey) = 0 -> icmp ikey k <= 0 -> f ∈ searched_files w ikey.
Proof using CL UO.
  intros w Hv Hf Hs Hl Hk Hi. assert (Hm := may_hold_range ikey f k Hs Hl Hk).
  assert (Hlev : (level < num_non_empty_levels_ w)%nat).
  { cbn. apply Nat.nle_gt. intros Hle. assert (Hb : (level < num_levels_ v)%nat).
    { rewrite <- (sv_levels _ Hv). apply Nat.nle_gt. intros Hge. unfold LevelFiles in Hf. rewrite lookup_ge_None_2 in Hf by done. by apply not_elem_of_nil in Hf. }
    rewrite (count_non_empty_above (num_levels_ v) v level) in Hf by done. by apply not_elem_of_nil in Hf. }
  apply (searched_from_elem _ _ level (LevelFiles v level)).
  - unfold version_levels. by rewrite list_lookup_fmap, lookup_seq_lt.
  - destruct level as [| level]; cbn [searched].
    + destruct (_ || _); [by apply list_elem_of_filter | done].
    + apply list_elem_of_filter. split; [| done]. split; [done |]. assert (icmp ikey (largest f) <= 0) by (by eapply cmp_trans).
      order_sgn InternalKeyComparator_Compare. lia.
Qed.
Lemma picked_searched v ikey fuel : let w := PrepareForVersionAppend v in saved_version v -> sorted_levels v -> (length (searched_files w ikey) < fuel)%nat ->
  picked_files (level_files_brief_ w) (file_indexer_ w) (ExtractUserKey ikey) ikey fuel
    (MakeFilePicker (level_files_brief_ w) ikey (num_non_empty_levels_ w)) = map MakeFdWithKeyRange (searched_files w ikey).
Proof using CL UO.
  intros w Hv Hs Hf. destruct (prepared_levels v) as (_ & Hbr & Hix). fold w in Hbr, Hix. rewrite Hbr.
  assert (Hn : num_non_empty_levels_ w = length (version_levels w)) by (unfold version_levels; by rewrite length_map, length_seq).
  rewrite Hn. apply picker_searches; [| | | | exact Hf].
  - intros level fs Hpos Efs. unfold version_levels in Efs. rewrite list_lookup_fmap in Efs. apply fmap_Some in Efs as (l & Hl & ->).
    apply lookup_seq in Hl as [-> _]. by apply Hs.
  - rewrite Hix. by rewrite (sv_indexer _ Hv).
  - rewrite <- Hn. pose proof (count_non_empty_le (num_levels_ v) v). pose proof (sv_fits _ Hv) as Hfit. unfold fits in *. cbn. lia.
  - apply list.Forall_forall. intros fs Hfs. unfold version_levels in Hfs. apply list_elem_of_fmap in Hfs as (l & -> & _). apply (sv_sizes _ Hv).
Qed.
End Complete.

