(* ===== verification/VersionBuilderTheorems.v ===== *)
(** Every version that edits lead to has the files that the edits leave, in levels that a lookup can search. *)

From stdpp Require Import gmap sorting.
From S2P Require Import Prelude Cursor Algorithms Coding Comparator DbFormat Status VersionEdit VersionStorage VersionStorageProofs VersionBuilder VersionBuilderProofs VersionSaveProofs FilePicker FilePickerProofs FilePickerTheorems.

Open Scope record_scope.

(** * The index of the files of a version *)

Lemma emplace_locations l : (forall n x y, (n, x) ∈ l -> (n, y) ∈ l -> x = y) -> forall m n x,
  fold_left emplace_location l m !! n = Some x <-> m !! n = Some x \/ m !! n = None /\ (n, x) ∈ l.
Proof.
  induction l as [| [k y] l IH]; intros Hf m n x; cbn [fold_left]; [set_solver |]. rewrite IH by (intros ? ? ? ? ?; eapply Hf; by right).
  unfold emplace_location. cbn [fst snd]. rewrite elem_of_cons. destruct (m !! k) as [z |] eqn:Ek.
  - split; [naive_solver |]. intros [E | (E & [[= -> ->] | E'])]; [by left | congruence | by right].
  - destruct (decide (n = k)) as [-> | Hne]; [rewrite lookup_insert_eq, Ek | rewrite lookup_insert_ne by done; naive_solver].
    split; [intros [[= <-] | [? _]]; [right; split; [done | by left] | done] |]. intros [? | (_ & [[= <-] | E'])]; [done | by left |].
    left. f_equal. apply (Hf k); [by left | by right].
Qed.
Lemma all_locations_elem v n level pos : (n, (level, pos)) ∈ all_locations v <->
  (level < num_levels_ v)%nat /\ exists f, LevelFiles v level !! pos = Some f /\ GetNumber (fd f) = n.
Proof.
  unfold all_locations. rewrite list_elem_of_In, in_concat. setoid_rewrite in_map_iff. split.
  - intros (xs & (i & <- & Hi) & Hx). apply in_seq in Hi. apply list_elem_of_In, elem_of_lookup_imap in Hx as (p & f & [= -> -> ->] & E). split; [lia |]. eauto.
  - intros (Hl & f & E & <-). eexists. split; [exists level; split; [reflexivity |]; apply in_seq; lia |]. apply list_elem_of_In, elem_of_lookup_imap. eauto.
Qed.

(** The files of a version that is saved: those of the specification. *)
Record holds (v : VersionStorageInfo) (t : lsm) : Prop := {
  hd_files level f : (level < num_levels_ v)%nat -> f ∈ LevelFiles v level <-> t !! GetNumber (fd f) = Some (Z.of_nat level, f);
  hd_numbers level : (level < num_levels_ v)%nat -> NoDup (map (fun f => GetNumber (fd f)) (LevelFiles v level));
  hd_levels n level f : t !! n = Some (level, f) -> 0 <= level < Z.of_nat (num_levels_ v) /\ GetNumber (fd f) = n;
}.
Lemma holds_located {C : Comparator} {TC : TimestampComparator C} v t : holds v t -> file_locations_ v = ∅ -> located (PrepareForVersionAppend v).
Proof.
  intros [H1 H2 H3] He n level pos. cbn -[all_locations].
  change (all_locations _) with (all_locations v). rewrite He, emplace_locations.
  - rewrite lookup_empty, all_locations_elem. naive_solver.
  - intros n' [l1 p1] [l2 p2]. rewrite !all_locations_elem. intros (Hl1 & f & Ef & Hf) (Hl2 & g & Eg & Hg).
    assert (E1 := proj1 (H1 l1 f Hl1) (list_elem_of_lookup_2 _ _ _ Ef)). assert (E2 := proj1 (H1 l2 g Hl2) (list_elem_of_lookup_2 _ _ _ Eg)).
    rewrite Hf in E1. rewrite Hg, E1 in E2. injection E2 as El ->. assert (l1 = l2) as <- by lia. f_equal.
    apply (NoDup_lookup _ _ _ n' (H2 l1 Hl1)); rewrite list_lookup_fmap, ?Ef, ?Eg; cbn; by f_equal.
Qed.

(** * The version after edits *)

Section Versions.
Context {C : Comparator} {CL : ComparatorLaws C} {TC : TimestampComparator C}.

Lemma levels_prepared v level : LevelFiles (PrepareForVersionAppend v) level = LevelFiles v level.
Proof using. done. Qed.
Lemma check_levels_ext v w n : (forall level, LevelFiles v level = LevelFiles w level) ->
  forall level expected, check_levels v level n expected = check_levels w level n expected.
Proof using. intros H. induction n as [| n IH]; intros level expected; cbn; [done |]. rewrite H. destruct (CheckConsistencyDetailsForLevel _ _ _) as [[] x]; [apply IH | done]. Qed.
Lemma prepared_consistent n v : CheckConsistency n (PrepareForVersionAppend v) = CheckConsistency n v.
Proof using.
  unfold CheckConsistency, CheckConsistencyDetails. rewrite levels_prepared. cbn -[check_levels CheckConsistencyDetailsForLevel]. destruct (negb _); [done |]. destruct n as [| n]; [done |].
  destruct (CheckConsistencyDetailsForLevel _ _ _) as [[] x]; [| done]. by rewrite (check_levels_ext _ v).
Qed.

(** The version that a batch of edits of one column family makes of the current one, when all goes well. *)
Definition next_version (force_consistency_checks : bool) (edits : list VersionEdit) (v : VersionStorageInfo) : option VersionStorageInfo :=
  match apply_each (Apply (fun _ _ => Status_OK) (fun _ => Status_OK)) edits (NewRep v false false) with
  | Some (s, r) =>
      if negb (status_ok s) then None
      else
        let '(s, w) := SaveTo r (NewVersionStorageInfo (num_levels_ v) (Some v) force_consistency_checks kMustPresent) in
        if negb (status_ok s) then None else Some (PrepareForVersionAppend w)
  | None => None
  end.

Definition bounded_files (t : lsm) : Prop := forall n level f, t !! n = Some (level, f) -> icmp (smallest f) (largest f) <= 0.
(** Levels are levels of the version and the bounds of new files are in order. *)
Definition edit_ok (num_levels : nat) (e : VersionEdit) : Prop := Forall (fun d => 0 <= d.1) (deleted_files_ e) /\
  Forall (fun x => 0 <= x.1 < Z.of_nat num_levels /\ icmp (smallest x.2) (largest x.2) <= 0) (new_files_ e).
(** What is true of a version in use that has the files [t]. *)
Record version_of (v : VersionStorageInfo) (t : lsm) : Prop := {
  vo_located : located v;
  vo_holds : holds v t;
  vo_bounded : bounded_files t;
  vo_sorted level : (level < num_levels_ v)%nat -> StronglySorted (fun x y => level_order kMustPresent level x y = true) (LevelFiles v level);
  vo_consistent : status_ok (CheckConsistency (num_levels_ v) v) = true;
  vo_length : length (files_ v) = num_levels_ v;
}.

Lemma lsm_each_elem {A} (f : A -> lsm -> option lsm) (P : Z -> Z * FileMetaData -> Prop) l :
  Forall (fun a => forall t t' n x, f a t = Some t' -> t' !! n = Some x -> t !! n = Some x \/ P n x) l ->
  forall t t' n x, lsm_each f l t = Some t' -> t' !! n = Some x -> t !! n = Some x \/ P n x.
Proof using.
  induction 1 as [| a l Ha Hl IH]; intros t t' n x Et Ex; cbn in Et; [injection Et as <-; by left |]. apply bind_Some in Et as (t1 & E1 & E2).
  destruct (IH t1 t' n x E2 Ex) as [H |]; [by apply (Ha t t1) | by right].
Qed.
(** A file that is there after the edits was there or is new. *)
Lemma lsm_edits_elem (P : Z -> Z * FileMetaData -> Prop) edits : Forall (fun e => Forall (fun x => P (GetNumber (fd x.2)) x) (new_files_ e)) edits ->
  forall t t' n x, lsm_each lsm_apply edits t = Some t' -> t' !! n = Some x -> t !! n = Some x \/ P n x.
Proof using.
  intros He. apply lsm_each_elem. eapply list.Forall_impl; [exact He |]. intros e Hn t t' n x Et Ex. unfold lsm_apply in Et.
  apply bind_Some in Et as (t1 & E1 & E2). apply (lsm_each_elem lsm_add P (new_files_ e)) with (t := t1) (n := n) (x := x) in E2 as [H | H]; [| by right | | done].
  - apply (lsm_each_elem lsm_delete (fun _ _ => False) (deleted_files_ e)) with (t := t) (n := n) (x := x) in E1 as [H1 | []]; [by left | | done].
    apply list.Forall_forall. intros d _ t2 t3 n' x' E Ex'. unfold lsm_delete in E. destruct (t2 !! d.2) as [[? ?] |]; [| done]. destruct (_ =? _); [| done].
    injection E as <-. apply lookup_delete_Some in Ex' as [_ Ex']. by left.
  - eapply list.Forall_impl; [exact Hn |]. intros y Hy t2 t3 n' x' E Ex'. unfold lsm_add in E. destruct (t2 !! _); [done |]. injection E as <-.
    apply lookup_insert_Some in Ex' as [[<- <-] | [_ Ex']]; [by right | by left].
Qed.
Lemma edit_ok_wf num_levels verify_file edits : Forall (edit_ok num_levels) edits -> Forall (edit_wf false verify_file) edits.
Proof using.
  intros H. eapply list.Forall_impl; [exact H |]. intros e [Hd Ha]. split; [done |]. eapply list.Forall_impl; [exact Ha |]. intros x [[Hx _] _]. done.
Qed.

Lemma holds_version_files v t : located v -> holds v t -> version_files v = t.
Proof using.
  intros Hv [H1 H2 H3]. apply map_eq. intros n. apply option_eq. intros [level f]. rewrite version_files_spec by done. unfold base_file. split.
  - intros (Hl & Hf & <-). apply (H1 (Z.to_nat level)) in Hf; [| lia]. by rewrite Z2Nat.id in Hf by lia.
  - intros E. destruct (H3 n level f E) as [Hl <-]. split; [done |]. split; [| done]. apply H1; [lia |]. by rewrite Z2Nat.id by lia.
Qed.
(** What a builder saves. *)
Record saved (num_levels : nat) (force : bool) (w : VersionStorageInfo) (t : lsm) : Prop := {
  sd_holds : holds w t;
  sd_sorted level : (level < num_levels)%nat -> StronglySorted (fun x y => level_order kMustPresent level x y = true) (LevelFiles w level);
  sd_requirement : epoch_number_requirement_ w = kMustPresent;
  sd_length : length (files_ w) = num_levels;
  sd_num : num_levels_ w = num_levels;
  sd_force : force_consistency_checks_ w = force;
  sd_locations : file_locations_ w = ∅;
  sd_indexer : file_indexer_ w = NewFileIndexer;
}.
Lemma SaveTo_saved v r t force q : reps v false r t -> must_present v t q -> (forall n level f, t !! n = Some (level, f) -> level < Z.of_nat (num_levels_ v)) ->
  (forall level, (level < num_levels_ v)%nat -> StronglySorted (not_after (level_order kMustPresent level)) (LevelFiles v level)) ->
  exists w, SaveTo r (NewVersionStorageInfo (num_levels_ v) (Some v) force q) = (CheckConsistency (num_levels_ v) w, w) /\ saved (num_levels_ v) force w t /\
    (no_blobs r -> blob_files_ w = []).
Proof using CL.
  intros Hr Hq Hlev Hs. destruct (SaveTo_levels v false r t Hr (NewVersionStorageInfo (num_levels_ v) (Some v) force q)) as (fs & requirement & bs & cs & E & Hlen & Hp & Hbs & Hfs); [done | done |].
  specialize (Hp Hq). subst requirement. set (w := (NewVersionStorageInfo _ _ _ _) <| files_ := _ |> <| epoch_number_requirement_ := _ |> <| blob_files_ := _ |> <| compact_cursor_ := _ |>) in *. exists w. split; [exact E |]. split; [| exact Hbs].
  assert (Hh : forall n level, hidden r level n = false) by (intros n level; unfold hidden; by rewrite (rp_track v false r t Hr)).
  split; try done.
  - split.
    + intros level f Hl. change (num_levels_ w) with (num_levels_ v) in Hl. rewrite Hfs by done. unfold level_files.
      rewrite (saved_level_elem r level (state_of r level) (state_of_lookup v false r t Hr level Hl) v false t Hr Hl). rewrite Hh. naive_solver.
    + intros level Hl. change (num_levels_ w) with (num_levels_ v) in Hl. rewrite Hfs by done.
      apply (saved_level_numbers r level (state_of r level) (state_of_lookup v false r t Hr level Hl) v false t Hr Hl).
    + intros n level f Et. destruct (rp_files v false r t Hr n level f Et) as [H1 H2]. apply Hlev in Et. split; [done | done].
  - intros level Hl. rewrite Hfs by done. apply (saved_level_sorted r level (state_of r level) (state_of_lookup v false r t Hr level Hl) v false t Hr Hl); [apply _ | by apply Hs].
Qed.
Lemma strict_not_after cmp l : FileOrder cmp -> StronglySorted (fun x y => cmp x y = true) l -> StronglySorted (not_after cmp) l.
Proof using. intros Hc. induction 1 as [| x l Hs IH Hf]; constructor; [done |]. eapply list.Forall_impl; [exact Hf |]. intros y. apply fo_asym. Qed.
(** The state of a builder after edits of a version in use. *)
Lemma edits_of_version v t edits : version_of v t -> Forall (edit_ok (num_levels_ v)) edits ->
  exists s r, apply_each (Apply (fun _ _ => Status_OK) (fun _ => Status_OK)) edits (NewRep v false false) = Some (s, r) /\
    (Forall sst_edit edits -> is_Some (lsm_each lsm_apply edits t) -> status_ok s = true) /\
    (status_ok s = true -> exists t', lsm_each lsm_apply edits t = Some t' /\ bounded_files t' /\
       forall force, exists w, SaveTo r (NewVersionStorageInfo (num_levels_ v) (Some v) force kMustPresent) = (CheckConsistency (num_levels_ v) w, w) /\ saved (num_levels_ v) force w t' /\
         (blob_files_ v = [] -> Forall sst_edit edits -> blob_files_ w = [])).
Proof using CL.
  intros [H1 H2 H3 H4 H5 H6] He. pose proof (NewRep_reps v false false H1) as Hr. rewrite (holds_version_files v t H1 H2) in Hr.
  destruct (apply_edits_refines v false (fun _ _ => Status_OK) (fun _ => Status_OK) edits H5 (edit_ok_wf (num_levels_ v) _ edits He) _ t Hr) as (s & r & E & Hok & Hb).
  exists s, r. split; [done |]. split; [done |]. intros Hs. destruct (Hok Hs) as (t' & Et & Hr'). exists t'. split; [done |].
  assert (Hnew : forall n x, t' !! n = Some x -> t !! n = Some x \/ x.1 < Z.of_nat (num_levels_ v) /\ icmp (smallest x.2) (largest x.2) <= 0).
  { intros n x. apply (lsm_edits_elem (fun _ x => x.1 < Z.of_nat (num_levels_ v) /\ icmp (smallest x.2) (largest x.2) <= 0) edits); [| done].
    eapply list.Forall_impl; [exact He |]. intros e [_ Ha]. eapply list.Forall_impl; [exact Ha |]. intros y [[_ Hy] Hy']. done. }
  split.
  - intros n level f Ex. destruct (Hnew n (level, f) Ex) as [Ex' | [_ Hx]]; [by apply (H3 n level) | done].
  - intros force. destruct (SaveTo_saved v r t' force kMustPresent) as (w & Ew & Hw & Hbw); [done | by left | | |].
    + intros n level f Ex. destruct (Hnew n (level, f) Ex) as [Ex' | [Hx _]]; [apply (hd_levels v t H2) in Ex' as [? _]; lia | done].
    + intros level Hl. apply strict_not_after; [apply _ | by apply H4].
    + exists w. split; [done |]. split; [done |]. intros Hv Hsst. apply Hbw. by apply no_blobs_edits in E.
Qed.
Lemma saved_version_of n force w t : saved n force w t -> bounded_files t -> status_ok (CheckConsistency n w) = true -> version_of (PrepareForVersionAppend w) t.
Proof using.
  intros [H1 H2 H3 H4 H5 H6 H7 H8] Hb Hc. split; [by apply (holds_located w t) | | done | | |].
  - destruct H1 as [? ? ?]. by split.
  - intros level Hl. change (num_levels_ _) with (num_levels_ w) in Hl. apply H2. by rewrite <- H5.
  - change (num_levels_ _) with (num_levels_ w). rewrite prepared_consistent. by rewrite H5.
  - cbn. by rewrite H4, H5.
Qed.
Lemma saved_sorted n w t : saved n true w t -> bounded_files t -> status_ok (CheckConsistency n w) = true -> sorted_levels w.
Proof using CL.
  intros [H1 H2 H3 H4 H5 H6 H7 H8] Hb Hc level Hl. destruct (decide (level < n)%nat) as [Hn |].
  - apply checked_level_wf.
    + destruct (check_tables n w) as [_ H]; [done | lia | done |]. by apply H.
    + apply list.Forall_forall. intros f Hf. apply (hd_files w t H1) in Hf; [| by rewrite H5]. by apply Hb in Hf.
  - unfold LevelFiles. rewrite lookup_ge_None_2 by lia. split; constructor.
Qed.

(** Two files of a level are disjoint, but on level 0, when they have different epoch numbers. *)
Definition lsm_valid (t : lsm) : Prop := forall n m level f g, n <> m -> t !! n = Some (level, f) -> t !! m = Some (level, g) ->
  (level = 0 -> epoch_number f = epoch_number g) -> disjoint_files f g.
Lemma saved_consistent n force w t : saved n force w t -> bounded_files t -> lsm_valid t -> (0 < n)%nat -> blob_files_ w = [] -> status_ok (CheckConsistency n w) = true.
Proof using CL.
  intros [[H1 H1' H1''] H2 H3 H4 H5 H6 H7 H8] Hb Hv Hn Hbl. rewrite H5 in *. apply check_tables_ok; [| done]. split.
  - rewrite H3. apply disjoint_checked_l0; [by apply (H2 0%nat) | | by apply H1'].
    intros x y Hx Hy Hne He. apply (H1 0%nat) in Hx, Hy; [| done | done]. by apply (Hv (GetNumber (fd x)) (GetNumber (fd y)) 0).
  - intros i Hi. apply disjoint_checked; [destruct i; [lia |]; apply (H2 (S i)); lia | | | apply H1'; lia].
    + apply list.Forall_forall. intros f Hf. apply H1 in Hf; [| lia]. by apply Hb in Hf.
    + intros x y Hx Hy Hne. apply H1 in Hx, Hy; [| lia | lia]. apply (Hv (GetNumber (fd x)) (GetNumber (fd y)) (Z.of_nat i)); [done | done | done | lia].
Qed.

(** ** The versions of a column family *)

Definition first_version (num_levels : nat) : VersionStorageInfo := PrepareForVersionAppend (NewVersionStorageInfo num_levels None true kMustPresent).
Fixpoint run_batches (batches : list (list VersionEdit)) (v : VersionStorageInfo) : option VersionStorageInfo :=
  match batches with [] => Some v | edits :: batches => v ← next_version true edits v; run_batches batches v end.
Definition lsm_batches : list (list VersionEdit) -> lsm -> option lsm := lsm_each (lsm_each lsm_apply).
(** A version in use, and what it was before it was prepared. *)
Definition made (n : nat) (v : VersionStorageInfo) (t : lsm) : Prop := exists w, v = PrepareForVersionAppend w /\ saved n true w t /\ bounded_files t /\
  status_ok (CheckConsistency n w) = true.
Lemma made_first n : made n (first_version n) ∅.
Proof using.
  eexists. split; [reflexivity |].
  assert (He : forall level, LevelFiles (NewVersionStorageInfo n None true kMustPresent) level = []).
  { intros level. unfold LevelFiles. cbn. destruct (decide (level < n)%nat); [by rewrite lookup_replicate_2 | by rewrite lookup_ge_None_2 by (rewrite length_replicate; lia)]. }
  split; [split; try done | split; [by intros ? ? ? ?%lookup_empty_Some | by rewrite empty_consistent]].
  - split; [intros level f _; rewrite He, lookup_empty; split; [by intros ?%not_elem_of_nil | done] | intros level _; rewrite He; constructor | by intros ? ? ? ?%lookup_empty_Some].
  - intros level _. rewrite He. constructor.
  - apply length_replicate.
Qed.
Lemma made_next n edits v t v' : made n v t -> Forall (edit_ok n) edits -> next_version true edits v = Some v' -> exists t', lsm_each lsm_apply edits t = Some t' /\ made n v' t'.
Proof using CL.
  intros (w & -> & Hw & Hb & Hc) He E. assert (En := sd_num _ _ _ _ Hw). unfold next_version in E.
  destruct (edits_of_version (PrepareForVersionAppend w) t edits) as (s & r & Ea & _ & H); [by apply (saved_version_of n true) | cbn; by rewrite En |].
  rewrite Ea in E. destruct (status_ok s); [| done]. destruct H as (t' & Et & Hb' & H); [done |]. exists t'. split; [done |]. destruct (H true) as (w' & Es & Hs & _).
  cbn [negb] in E. rewrite Es in E. change (num_levels_ (PrepareForVersionAppend w)) with (num_levels_ w) in *. rewrite En in *.
  destruct (status_ok (CheckConsistency n w')) eqn:Ec; [| done]. injection E as <-. by exists w'.
Qed.
Lemma made_batches n batches : Forall (Forall (edit_ok n)) batches -> forall v t v', made n v t -> run_batches batches v = Some v' ->
  exists t', lsm_batches batches t = Some t' /\ made n v' t'.
Proof using CL.
  induction 1 as [| edits batches He Hes IH]; intros v t v' Hm E; cbn in E; [injection E as <-; by exists t |]. apply bind_Some in E as (v1 & E1 & E2).
  destruct (made_next n edits v t v1 Hm He E1) as (t1 & Et & Hm1). destruct (IH v1 t1 v' Hm1 E2) as (t' & Et' & Hm'). exists t'. split; [| done]. cbn. by rewrite Et.
Qed.
Lemma made_lookup {UO : UserKeyOrder C} n v t : made n v t -> fits 31 (Z.of_nat n) -> (forall level, slen (LevelFiles v level) < kLevelMaxIndex) -> forall ikey, exists fs,
  (forall fuel, (length fs < fuel)%nat -> picked_files (level_files_brief_ v) (file_indexer_ v) (ExtractUserKey ikey) ikey fuel
     (MakeFilePicker (level_files_brief_ v) ikey (num_non_empty_levels_ v)) = map MakeFdWithKeyRange fs) /\
  (forall number level f k, t !! number = Some (level, f) -> icmp (smallest f) k <= 0 -> icmp k (largest f) <= 0 ->
     ucmp (user k) (user ikey) = 0 -> icmp ikey k <= 0 -> f ∈ fs).
Proof using CL.
  intros (w & -> & Hw & Hb & Hc) Hn Hsz ikey. exists (searched_files (PrepareForVersionAppend w) ikey).
  assert (Hsv : saved_version w) by (destruct Hw; split; [congruence | congruence | done | done]). assert (Hsl := saved_sorted n w t Hw Hb Hc).
  split; [intros fuel; by apply picked_searched |]. intros number level f k Et. destruct (hd_levels w t (sd_holds _ _ _ _ Hw) number level f Et) as [Hl <-].
  apply (level_searched w ikey (Z.to_nat level)); [done |]. apply (hd_files w t (sd_holds _ _ _ _ Hw)); [lia |]. by rewrite Z2Nat.id by lia.
Qed.

(** Each batch leads to files that are valid. *)
Fixpoint all_valid (batches : list (list VersionEdit)) (t : lsm) : Prop :=
  match batches with
  | [] => True
  | edits :: batches => exists t', lsm_each lsm_apply edits t = Some t' /\ lsm_valid t' /\ all_valid batches t'
  end.
Lemma valid_next n edits v t t' : (0 < n)%nat -> made n v t -> blob_files_ v = [] -> Forall (fun e => edit_ok n e /\ sst_edit e) edits ->
  lsm_each lsm_apply edits t = Some t' -> lsm_valid t' -> exists v', next_version true edits v = Some v' /\ made n v' t' /\ blob_files_ v' = [].
Proof using CL.
  intros Hn (w & -> & Hw & Hb & Hc) Hbl He Et Hv. assert (En := sd_num _ _ _ _ Hw). apply list.Forall_and in He as [He Hsst]. unfold next_version.
  destruct (edits_of_version (PrepareForVersionAppend w) t edits) as (s & r & Ea & Hs & H); [by apply (saved_version_of n true) | cbn; by rewrite En |].
  rewrite Ea, Hs by done. cbn [negb]. destruct H as (t1 & Et1 & Hb' & H); [by apply Hs |]. rewrite Et in Et1. injection Et1 as <-.
  destruct (H true) as (w' & Es & Hs' & Hbl'). rewrite Es. change (num_levels_ (PrepareForVersionAppend w)) with (num_levels_ w) in *. rewrite En in *.
  assert (Hc' : status_ok (CheckConsistency n w') = true) by (by apply (saved_consistent n true w' t'), Hbl'). rewrite Hc'.
  eexists. split; [reflexivity |]. split; [by exists w' | by apply Hbl'].
Qed.
Lemma valid_batches n batches : (0 < n)%nat -> Forall (Forall (fun e => edit_ok n e /\ sst_edit e)) batches -> forall v t, made n v t -> blob_files_ v = [] -> all_valid batches t ->
  is_Some (run_batches batches v).
Proof using CL.
  intros Hn. induction 1 as [| edits batches He Hes IH]; intros v t Hm Hbl Hv; [by eexists |]. destruct Hv as (t' & Et & Hv & Hvs).
  destruct (valid_next n edits v t t' Hn Hm Hbl He Et Hv) as (v' & E & Hm' & Hbl'). cbn [run_batches]. rewrite E. by apply (IH v' t').
Qed.
End Versions.

(** C11: the version that batches of edits lead to, each applied by a builder to the version before and saved, has exactly the files that the
    edits leave, on their levels: deleting a file that is not on the level the edit names, or adding one that is there, is refused by both. On the levels
    from 1 on the files are sorted and disjoint, and a lookup in the version searches every file with a version of the key it may see. *)
Theorem versions_follow_edits {C : Comparator} {CL : ComparatorLaws C} {TC : TimestampComparator C} {UO : UserKeyOrder C}
    (n : nat) (batches : list (list VersionEdit)) (v : VersionStorageInfo) : Forall (Forall (edit_ok n)) batches -> fits 31 (Z.of_nat n) ->
  run_batches batches (first_version n) = Some v -> (forall level, slen (LevelFiles v level) < kLevelMaxIndex) ->
  exists t, lsm_batches batches ∅ = Some t /\ version_files v = t /\ sorted_levels v /\
  forall ikey, exists fs,
    (forall fuel, (length fs < fuel)%nat -> picked_files (level_files_brief_ v) (file_indexer_ v) (ExtractUserKey ikey) ikey fuel
       (MakeFilePicker (level_files_brief_ v) ikey (num_non_empty_levels_ v)) = map MakeFdWithKeyRange fs) /\
    (forall number level f k, t !! number = Some (level, f) -> InternalKeyComparator_Compare (smallest f) k <= 0 ->
       InternalKeyComparator_Compare k (largest f) <= 0 -> CompareWithoutTimestamp (ExtractUserKey k) (ExtractUserKey ikey) = 0 ->
       InternalKeyComparator_Compare ikey k <= 0 -> f ∈ fs).
Proof.
  intros He Hn E Hsz. destruct (made_batches n batches He _ ∅ v (made_first n) E) as (t & Et & Hm). exists t. split; [done |].
  pose proof Hm as (w & -> & Hw & Hb & Hc). destruct (saved_version_of n true w t Hw Hb Hc) as [Hloc Hh _ _ _ _]. split; [by apply holds_version_files |].
  split; [exact (saved_sorted n w t Hw Hb Hc) | by apply (made_lookup n)].
Qed.

(** C20: edits that leave valid levels are never refused: when each batch, applied to the files, succeeds and leaves files of which no two of a level
    overlap, but on level 0 with different epoch numbers, each builder applies and saves it, so the consistency checks report no corruption. *)
Theorem valid_edits_accepted {C : Comparator} {CL : ComparatorLaws C} {TC : TimestampComparator C} (n : nat) (batches : list (list VersionEdit)) :
  (0 < n)%nat -> Forall (Forall (fun e => edit_ok n e /\ sst_edit e)) batches -> all_valid batches ∅ ->
  exists v, run_batches batches (first_version n) = Some v.
Proof. intros Hn He Hv. by apply (valid_batches n batches Hn He (first_version n) ∅ (made_first n)). Qed.

(** ** A flush and a compaction *)

Definition example_key (c : Byte.byte) (s : Z) : bytes := [c] ++ EncodeFixed64 (PackSequenceAndType s kTypeValue).
Definition example_file (n epoch : Z) (a b : Byte.byte) : FileMetaData :=
  NewFileMetaData <| fd := MakeFileDescriptor n 0 10 1 9 |> <| smallest := example_key a 9 |> <| largest := example_key b 1 |> <| epoch_number := epoch |>.
Definition example_flush : VersionEdit :=
  NewVersionEdit <| new_files_ := [(0, example_file 10 1 Byte.x61 Byte.x63); (0, example_file 11 2 Byte.x62 Byte.x64)] |>.
Definition example_compaction : VersionEdit :=
  NewVersionEdit <| deleted_files_ := [(0, 10); (0, 11)] |>
    <| new_files_ := [(1, example_file 12 1 Byte.x61 Byte.x62); (1, example_file 13 1 Byte.x63 Byte.x64)] |>.
Lemma example_ok : Forall (Forall (fun e => edit_ok (C := BytewiseComparatorImpl) 3 e /\ sst_edit e)) [[example_flush]; [example_compaction]].
Proof. repeat constructor; vm_compute; done. Qed.
Lemma example_pair_valid {C : Comparator} t a b level f g : t = (<[b := (level, g)]> (<[a := (level, f)]> ∅) : lsm) ->
  (disjoint_files f g \/ (level = 0 /\ epoch_number f <> epoch_number g)) -> lsm_valid t.
Proof.
  intros -> Hd n m l x y Hne Ex Ey He. assert (Hx : forall k z, (<[b := (level, g)]> (<[a := (level, f)]> ∅) : lsm) !! k = Some z ->
    k = b /\ z = (level, g) \/ k = a /\ z = (level, f)).
  { intros k z E. apply lookup_insert_Some in E as [[<- <-] | [_ E]]; [by left |]. apply lookup_insert_Some in E as [[<- <-] | [_ E]]; [by right |]. by rewrite lookup_empty in E. }
  unfold disjoint_files in *. apply Hx in Ex as [[-> Ex] | [-> Ex]]; apply Hx in Ey as [[-> Ey] | [-> Ey]]; try done; simplify_eq;
    destruct Hd as [Hd | [-> Hd]]; try specialize (He eq_refl); naive_solver.
Qed.
Lemma versions_follow_edits_witness :
  let C := BytewiseComparatorImpl in let TC := DefaultTimestampComparator C in
  exists v t, run_batches [[example_flush]; [example_compaction]] (first_version 3) = Some v /\ version_files v = t /\
    t = <[13 := (1, example_file 13 1 Byte.x63 Byte.x64)]> (<[12 := (1, example_file 12 1 Byte.x61 Byte.x62)]> ∅).
Proof.
  intros C TC. destruct (run_batches [[example_flush]; [example_compaction]] (first_version 3)) as [v |] eqn:E; [| vm_compute in E; discriminate].
  assert (Hsz : forall level, slen (LevelFiles v level) < kLevelMaxIndex).
  { vm_compute in E. injection E as <-. intros [| [| [| level]]]; vm_compute; done. }
  assert (He : Forall (Forall (edit_ok 3)) [[example_flush]; [example_compaction]]).
  { eapply list.Forall_impl; [apply example_ok |]. intros es Hes. eapply list.Forall_impl; [exact Hes |]. by intros e [He _]. }
  destruct (versions_follow_edits 3 [[example_flush]; [example_compaction]] v He ltac:(small_fits) E Hsz) as (t & Et & Hv & _).
  exists v, t. split; [reflexivity |]. split; [done |]. vm_compute in Et. injection Et as <-. vm_compute. reflexivity.
Defined.
Lemma valid_edits_accepted_witness :
  let C := BytewiseComparatorImpl in let TC := DefaultTimestampComparator C in
  exists v, run_batches [[example_flush]; [example_compaction]] (first_version 3) = Some v.
Proof.
  intros C TC. apply (valid_edits_accepted 3 [[example_flush]; [example_compaction]]); [lia | apply example_ok |].
  eexists. split; [vm_compute; reflexivity |]. split.
  - apply (example_pair_valid _ 10 11 0 (example_file 10 1 Byte.x61 Byte.x63) (example_file 11 2 Byte.x62 Byte.x64)); [vm_compute; reflexivity | right; done].
  - eexists. split; [vm_compute; reflexivity |]. split; [| done].
    apply (example_pair_valid _ 12 13 1 (example_file 12 1 Byte.x61 Byte.x62) (example_file 13 1 Byte.x63 Byte.x64)); [vm_compute; reflexivity | left; left; vm_compute; done].
Defined.
