(* ===== verification/SkipList.v ===== *)
(** memtable/inlineskiplist.h: the skip list of the memtable, and util/random.h: the
    generator of its heights.

    A [Node*] is an address of the store of nodes, [head_] is the node at 0 and
    [nullptr] is [None]. The links of a node are the list [next_]; access to a
    link beyond the height of the node, like running out of fuel, makes the result
    of an operation [None]. The searches have as much fuel as there are nodes and
    levels. Operations are atomic here; insertions of several threads are in
    SkipListConcurrent.v. *)

From stdpp Require Import gmap.
From S2P Require Import Prelude Status Cursor.

(** * util/random.h *)

Module Random.
Definition M : Z := 2147483647.
Definition A : Z := 16807.
Definition GoodSeed (s : Z) : Z := if negb (Z.land s M =? 0) then Z.land s M else 1.
(** The new seed, which is also the number that is returned. *)
Definition Next (seed_ : Z) : Z :=
  let product := u64 (seed_ * A) in
  let seed_ := u32 (Z.shiftr product 31 + Z.land product M) in
  if seed_ >? M then u32 (seed_ - M) else seed_.
End Random.

(** * Nodes, splices and lists *)

Record Node := { Key : bytes; next_ : list (option nat) }.
Definition head_ : nat := 0.

Record Splice := { height_ : nat; prev_ : list nat; splice_next_ : list (option nat) }.

Record InlineSkipList := {
  kMaxHeight_ : nat;
  kBranching_ : Z;
  nodes : gmap nat Node;
  max_height_ : nat;
  seq_splice_ : Splice;
}.

Definition set_nodes (l : InlineSkipList) (m : gmap nat Node) : InlineSkipList :=
  {| kMaxHeight_ := kMaxHeight_ l; kBranching_ := kBranching_ l; nodes := m;
     max_height_ := max_height_ l; seq_splice_ := seq_splice_ l |}.
Definition set_max_height (l : InlineSkipList) (h : nat) : InlineSkipList :=
  {| kMaxHeight_ := kMaxHeight_ l; kBranching_ := kBranching_ l; nodes := nodes l;
     max_height_ := h; seq_splice_ := seq_splice_ l |}.
Definition set_seq_splice (l : InlineSkipList) (s : Splice) : InlineSkipList :=
  {| kMaxHeight_ := kMaxHeight_ l; kBranching_ := kBranching_ l; nodes := nodes l;
     max_height_ := max_height_ l; seq_splice_ := s |}.

Definition key_of (l : InlineSkipList) (n : nat) : bytes :=
  match nodes l !! n with Some nd => Key nd | None => [] end.
Definition UnstashHeight (l : InlineSkipList) (n : nat) : nat :=
  match nodes l !! n with Some nd => length (next_ nd) | None => 0 end.
Definition Node_Next (l : InlineSkipList) (x level : nat) : option (option nat) :=
  nd ← nodes l !! x; next_ nd !! level.
Definition Node_SetNext (l : InlineSkipList) (x level : nat) (y : option nat) : option InlineSkipList :=
  nd ← nodes l !! x;
  if decide (level < length (next_ nd))%nat
  then Some (set_nodes l (<[x := {| Key := Key nd; next_ := <[level := y]> (next_ nd) |}]> (nodes l)))
  else None.

(** A splice that was never used: its arrays hold whatever the memory held. *)
Definition AllocateSplice (max_height : nat) : Splice :=
  {| height_ := 0; prev_ := replicate (S max_height) head_; splice_next_ := replicate (S max_height) None |}.
Definition MakeInlineSkipList (max_height : nat) (branching_factor : Z) : InlineSkipList :=
  {| kMaxHeight_ := max_height; kBranching_ := branching_factor;
     nodes := {[ head_ := {| Key := []; next_ := replicate max_height None |} ]};
     max_height_ := 1; seq_splice_ := AllocateSplice max_height |}.

(** A node is at the next free address; its height is that of its links, which are not set. *)
Definition AllocateNode (l : InlineSkipList) (key : bytes) (height : nat) : nat * InlineSkipList :=
  let x := size (nodes l) in
  (x, set_nodes l (<[x := {| Key := key; next_ := replicate height None |}]> (nodes l))).

Definition kMaxPossibleHeight : nat := 32.
Definition kScaledInverseBranching_ (l : InlineSkipList) : Z := (Random.M + 1) / kBranching_ l.
Fixpoint RandomHeight_loop (fuel : nat) (l : InlineSkipList) (height : nat) (seed : Z) : nat * Z :=
  match fuel with
  | O => (height, seed)
  | S fuel =>
      if (height <? kMaxHeight_ l)%nat && (height <? kMaxPossibleHeight)%nat then
        let seed := Random.Next seed in
        if seed <? kScaledInverseBranching_ l then RandomHeight_loop fuel l (S height) seed
        else (height, seed)
      else (height, seed)
  end.
Definition RandomHeight (l : InlineSkipList) (seed : Z) : nat * Z :=
  RandomHeight_loop kMaxPossibleHeight l 1 seed.

Section SkipList.
Context (compare_ : bytes -> bytes -> Z).
Implicit Types (l : InlineSkipList) (s : Splice).

Definition KeyIsAfterNode l (key : bytes) (n : option nat) : bool :=
  match n with Some n => compare_ (key_of l n) key <? 0 | None => false end.
Definition search_fuel l : nat := size (nodes l) + kMaxHeight_ l.

(** * Searches *)

(** With [validate], the order of the nodes that are visited is checked: the result is the
    node and, when it is out of order with its successor, that successor. *)
Definition out_of_order l (validate : bool) (x : nat) (next : option nat) : bool :=
  match next with
  | Some n => validate && negb (x =? head_)%nat && (compare_ (key_of l x) (key_of l n) >=? 0)
  | None => false
  end.

Fixpoint FindGreaterOrEqual_loop (fuel : nat) l (key : bytes) (validate : bool)
    (x level : nat) (last_bigger : option nat) : option (option nat * option nat) :=
  match fuel with
  | O => None
  | S fuel =>
      next ← Node_Next l x level;
      if out_of_order l validate x next then Some (Some x, next)
      else
        let cmp := match next with
                   | Some n => if bool_decide (next = last_bigger) then 1 else compare_ (key_of l n) key
                   | None => 1
                   end in
        if (cmp =? 0) || ((cmp >? 0) && (level =? 0)%nat) then Some (next, None)
        else if cmp <? 0 then
          match next with
          | Some n => FindGreaterOrEqual_loop fuel l key validate n level last_bigger
          | None => None
          end
        else FindGreaterOrEqual_loop fuel l key validate x (level - 1) next
  end.
Definition FindGreaterOrEqual l (key : bytes) (validate : bool) : option (option nat * option nat) :=
  FindGreaterOrEqual_loop (search_fuel l) l key validate head_ (max_height_ l - 1) None.

Fixpoint FindLessThan_loop (fuel : nat) l (key : bytes) (validate : bool)
    (x level : nat) (last_not_after : option nat) : option (nat * option nat) :=
  match fuel with
  | O => None
  | S fuel =>
      next ← Node_Next l x level;
      if out_of_order l validate x next then Some (x, next)
      else
        match next with
        | Some n =>
            if negb (bool_decide (next = last_not_after)) && KeyIsAfterNode l key next
            then FindLessThan_loop fuel l key validate n level last_not_after
            else if (level =? 0)%nat then Some (x, None)
            else FindLessThan_loop fuel l key validate x (level - 1) next
        | None =>
            if (level =? 0)%nat then Some (x, None)
            else FindLessThan_loop fuel l key validate x (level - 1) next
        end
  end.
Definition FindLessThan l (key : bytes) (validate : bool) : option (nat * option nat) :=
  FindLessThan_loop (search_fuel l) l key validate head_ (max_height_ l - 1) None.

Fixpoint FindLast_loop (fuel : nat) l (x level : nat) : option nat :=
  match fuel with
  | O => None
  | S fuel =>
      next ← Node_Next l x level;
      match next with
      | None => if (level =? 0)%nat then Some x else FindLast_loop fuel l x (level - 1)
      | Some n => FindLast_loop fuel l n level
      end
  end.
Definition FindLast l : option nat := FindLast_loop (search_fuel l) l head_ (max_height_ l - 1).

Definition Contains l (key : bytes) : option bool :=
  r ← FindGreaterOrEqual l key false;
  Some (match r.1 with Some x => compare_ key (key_of l x) =? 0 | None => false end).

(** * Insertion *)

Definition set_splice s (i : nat) (p : nat) (n : option nat) : Splice :=
  {| height_ := height_ s; prev_ := <[i := p]> (prev_ s); splice_next_ := <[i := n]> (splice_next_ s) |}.
Definition set_splice_height s (h : nat) : Splice :=
  {| height_ := h; prev_ := prev_ s; splice_next_ := splice_next_ s |}.

Fixpoint FindSpliceForLevel (fuel : nat) l (key : bytes) (before : nat) (after : option nat) (level : nat)
    : option (nat * option nat) :=
  match fuel with
  | O => None
  | S fuel =>
      next ← Node_Next l before level;
      if bool_decide (next = after) || negb (KeyIsAfterNode l key next) then Some (before, next)
      else match next with Some n => FindSpliceForLevel fuel l key n after level | None => None end
  end.

Fixpoint RecomputeSpliceLevels l (key : bytes) s (recompute_level : nat) : option Splice :=
  match recompute_level with
  | O => Some s
  | S i =>
      p ← prev_ s !! S i;
      n ← splice_next_ s !! S i;
      r ← FindSpliceForLevel (search_fuel l) l key p n i;
      RecomputeSpliceLevels l key (set_splice s i r.1 r.2) i
  end.

(** [while (array[i] == bad) ++i]. *)
Fixpoint skip_equal {A} `{EqDecision A} (fuel : nat) (array : list A) (bad : A) (i : nat) : option nat :=
  match fuel with
  | O => None
  | S fuel =>
      a ← array !! i;
      if decide (a = bad) then skip_equal fuel array bad (S i) else Some i
  end.

(** The levels below the result have to be recomputed: the level of the result brackets the key. *)
Fixpoint recompute_height (fuel : nat) l (key : bytes) s (allow_partial_splice_fix : bool)
    (max_height i : nat) : option nat :=
  match fuel with
  | O => None
  | S fuel =>
      if (max_height <=? i)%nat then Some i
      else
        p ← prev_ s !! i;
        n ← splice_next_ s !! i;
        next ← Node_Next l p i;
        if negb (bool_decide (next = n)) then
          recompute_height fuel l key s allow_partial_splice_fix max_height (S i)
        else if negb (p =? head_)%nat && negb (KeyIsAfterNode l key (Some p)) then
          if allow_partial_splice_fix then
            i ← skip_equal (length (prev_ s)) (prev_ s) p i;
            recompute_height fuel l key s allow_partial_splice_fix max_height i
          else recompute_height fuel l key s allow_partial_splice_fix max_height max_height
        else if KeyIsAfterNode l key n then
          if allow_partial_splice_fix then
            i ← skip_equal (length (splice_next_ s)) (splice_next_ s) n i;
            recompute_height fuel l key s allow_partial_splice_fix max_height i
          else recompute_height fuel l key s allow_partial_splice_fix max_height max_height
        else Some i
  end.

(** The splice that is used and the level from which on it was kept. *)
Definition prepare_splice l (key : bytes) s (allow_partial_splice_fix : bool) : option (nat * Splice) :=
  let max_height := max_height_ l in
  if (height_ s <? max_height)%nat then
    let s := set_splice_height (set_splice s max_height head_ None) max_height in
    s ← RecomputeSpliceLevels l key s max_height;
    Some (max_height, s)
  else
    i ← recompute_height (S max_height) l key s allow_partial_splice_fix max_height 0;
    s ← RecomputeSpliceLevels l key s i;
    Some (i, s).

(** The neighbours on level 0 do not have the key. *)
Definition is_duplicate l (key : bytes) (i : nat) (p : nat) (n : option nat) : bool :=
  (i =? 0)%nat &&
  (match n with Some n => compare_ (key_of l n) key <=? 0 | None => false end ||
   (negb (p =? head_)%nat && (compare_ (key_of l p) key >=? 0))).

(** The loop over the levels of the new node without compare-and-swap: [todo] levels from [i] on. *)
Fixpoint link_levels (todo : nat) l (key : bytes) (x recompute : nat) s (i : nat)
    : option (bool * InlineSkipList * Splice) :=
  match todo with
  | O => Some (true, l, s)
  | S todo =>
      p ← prev_ s !! i;
      n ← splice_next_ s !! i;
      r ← (if (recompute <=? i)%nat then
             next ← Node_Next l p i;
             if bool_decide (next = n) then Some (p, n)
             else FindSpliceForLevel (search_fuel l) l key p None i
           else Some (p, n));
      let s := set_splice s i r.1 r.2 in
      if is_duplicate l key i r.1 r.2 then Some (false, l, s)
      else
        l ← Node_SetNext l x i r.2;
        l ← Node_SetNext l r.1 i (Some x);
        link_levels todo l key x recompute s (S i)
  end.

(** [Insert<false>] of an allocated node. *)
Definition Insert_node l (x : nat) s (allow_partial_splice_fix : bool)
    : option (bool * InlineSkipList * Splice) :=
  let key := key_of l x in
  let height := UnstashHeight l x in
  let l := set_max_height l (Nat.max (max_height_ l) height) in
  r ← prepare_splice l key s allow_partial_splice_fix;
  link ← link_levels height l key x r.1 r.2 0;
  match link with
  | (false, l, s) => Some (false, l, s)
  | (true, l, s) =>
      Some (true, l, {| height_ := height_ s; prev_ := replicate height x ++ drop height (prev_ s);
                        splice_next_ := splice_next_ s |})
  end.

(** [Insert] and [InsertWithHint] of a new key of the given height; a null hint is a new splice. *)
Definition Insert l (key : bytes) (height : nat) : option (bool * InlineSkipList) :=
  let '(x, l) := AllocateNode l key height in
  r ← Insert_node l x (seq_splice_ l) false;
  Some (r.1.1, set_seq_splice r.1.2 r.2).
Definition InsertWithHint l (key : bytes) (height : nat) (hint : option Splice)
    : option (bool * InlineSkipList * option Splice) :=
  let '(x, l) := AllocateNode l key height in
  r ← Insert_node l x (default (AllocateSplice (kMaxHeight_ l)) hint) true;
  Some (r.1.1, r.1.2, Some r.2).

(** * The iterator *)

Definition Iterator : Type := option nat.
Definition Iterator_Next l (node_ : nat) : option Iterator := Node_Next l node_ 0.
Definition Iterator_Prev l (node_ : nat) : option Iterator :=
  r ← FindLessThan l (key_of l node_) false;
  Some (if (r.1 =? head_)%nat then None else Some r.1).
Definition Iterator_Seek l (target : bytes) : option Iterator :=
  r ← FindGreaterOrEqual l target false; Some r.1.
Definition Iterator_SeekToFirst l : option Iterator := Node_Next l head_ 0.
Definition Iterator_SeekToLast l : option Iterator :=
  x ← FindLast l; Some (if (x =? head_)%nat then None else Some x).
Fixpoint SeekForPrev_loop (fuel : nat) l (target : bytes) (it : Iterator) : option Iterator :=
  match fuel with
  | O => None
  | S fuel =>
      match it with
      | Some n => if compare_ target (key_of l n) <? 0
                  then it ← Iterator_Prev l n; SeekForPrev_loop fuel l target it
                  else Some it
      | None => Some it
      end
  end.
Definition Iterator_SeekForPrev l (target : bytes) : option Iterator :=
  it ← Iterator_Seek l target;
  it ← match it with None => Iterator_SeekToLast l | Some _ => Some it end;
  SeekForPrev_loop (search_fuel l) l target it.

(** The variants that check the order of the nodes; an iterator is invalid after an error. *)
Definition Iterator_NextAndValidate l (node_ : nat) : option (Status * Iterator) :=
  next ← Node_Next l node_ 0;
  Some (if out_of_order l true node_ next then (Status_Corruption, None) else (Status_OK, next)).
Definition Iterator_PrevAndValidate l (node_ : nat) : option (Status * Iterator) :=
  r ← FindLessThan l (key_of l node_) true;
  Some (match r.2 with
        | Some _ => (Status_Corruption, None)
        | None => (Status_OK, if (r.1 =? head_)%nat then None else Some r.1)
        end).
Definition Iterator_SeekAndValidate l (target : bytes) : option (Status * Iterator) :=
  r ← FindGreaterOrEqual l target true;
  Some (match r.2 with Some _ => (Status_Corruption, None) | None => (Status_OK, r.1) end).

(** The nodes that an iterator meets until it is invalid. *)
Fixpoint nodes_from (fuel : nat) l (it : Iterator) : list nat :=
  match fuel, it with
  | S fuel, Some n =>
      n :: match Iterator_Next l n with Some it => nodes_from fuel l it | None => [] end
  | _, _ => []
  end.

Definition Iterator_op l (it : Iterator) (op : iter_op) : option Iterator :=
  match op, it with
  | OpSeekToFirst, _ => Iterator_SeekToFirst l
  | OpSeekToLast, _ => Iterator_SeekToLast l
  | OpNext, Some n => Iterator_Next l n
  | OpPrev, Some n => Iterator_Prev l n
  | OpSeek t, _ => Iterator_Seek l t
  | OpSeekForPrev t, _ => Iterator_SeekForPrev l t
  | _, None => None
  end.
End SkipList.
