(* ===== verification/SkipListProofs.v ===== *)
(** The skip list is sorted linked lists, one for each level: the invariant, the
    searches, and insertion with any splice. *)

From stdpp Require Import gmap sorting.
From S2P Require Import Prelude Comparator Status Cursor SkipList.

(** * The invariant *)

Section Linked.
Context (cmp : bytes -> bytes -> Z) {KO : KeyOrder cmp}.
Implicit Types (l : InlineSkipList) (x y z p : nat) (r : option nat) (lv : nat -> nat).

(** Everything is after the head. *)
Definition node_lt l x (key : bytes) : Prop := x = head_ \/ cmp (key_of l x) key < 0.
#[global] Instance node_lt_dec l x key : Decision (node_lt l x key).
Proof. unfold node_lt. solve_decision. Defined.

(** [lv] is the number of levels on which a node is linked. A node [r] is the successor of [x] on
    a level when it is the first of the nodes of that level that are after [x]. *)
Definition on_level lv (i : nat) y : Prop := y <> head_ /\ (i < lv y)%nat.
Definition successor l lv (i : nat) x r : Prop :=
  match r with
  | None => forall z, on_level lv i z -> ~ node_lt l x (key_of l z)
  | Some y => on_level lv i y /\ node_lt l x (key_of l y) /\
      forall z, on_level lv i z -> node_lt l x (key_of l z) -> cmp (key_of l y) (key_of l z) <= 0
  end.

Record linked l lv : Prop := {
  lk_head : lv head_ = kMaxHeight_ l;
  lk_max : (1 <= max_height_ l <= kMaxHeight_ l)%nat;
  lk_node y : (0 < lv y)%nat -> exists nd, nodes l !! y = Some nd /\ (lv y <= length (next_ nd))%nat;
  lk_level y : y <> head_ -> (lv y <= max_height_ l)%nat;
  lk_distinct y z : on_level lv 0 y -> on_level lv 0 z -> cmp (key_of l y) (key_of l z) = 0 -> y = z;
  lk_next i x : (i < lv x)%nat -> exists r, Node_Next l x i = Some r /\ successor l lv i x r;
}.

Lemma on_level_le lv i j y : (j <= i)%nat -> on_level lv i y -> on_level lv j y.
Proof. unfold on_level. intros ? []. split; [done | lia]. Qed.

Lemma head_on l lv i : linked l lv -> (i < kMaxHeight_ l)%nat -> (i < lv head_)%nat.
Proof. intros H. by rewrite (lk_head l lv H). Qed.

(** * Changes that keep the nodes *)

Definition same_nodes l l' : Prop :=
  kMaxHeight_ l' = kMaxHeight_ l /\
  forall y, (fun nd => (Key nd, length (next_ nd))) <$> nodes l' !! y =
            (fun nd => (Key nd, length (next_ nd))) <$> nodes l !! y.

#[global] Instance same_nodes_refl : Reflexive same_nodes.
Proof. intros l. done. Qed.
#[global] Instance same_nodes_trans : Transitive same_nodes.
Proof. intros l1 l2 l3 [H1 H2] [H3 H4]. split; [congruence |]. intros y. by rewrite H4. Qed.

Lemma same_key l l' y : same_nodes l l' -> key_of l' y = key_of l y.
Proof.
  intros [_ H]. specialize (H y). unfold key_of.
  destruct (nodes l !! y), (nodes l' !! y); try done. cbn in H. congruence.
Qed.
Lemma same_height l l' y : same_nodes l l' -> UnstashHeight l' y = UnstashHeight l y.
Proof.
  intros [_ H]. specialize (H y). unfold UnstashHeight.
  destruct (nodes l !! y), (nodes l' !! y); try done. cbn in H. congruence.
Qed.
Lemma same_size l l' : same_nodes l l' -> size (nodes l') = size (nodes l).
Proof.
  intros [_ H]. rewrite <- !size_dom. f_equal. apply set_eq. intros y. rewrite !elem_of_dom.
  specialize (H y). destruct (nodes l !! y), (nodes l' !! y); try done; split; intros; eauto.
Qed.
Lemma same_fuel l l' : same_nodes l l' -> search_fuel l' = search_fuel l.
Proof. intros H. unfold search_fuel. rewrite (same_size l l' H). by rewrite (proj1 H). Qed.

Lemma node_lt_same l l' x key : same_nodes l l' -> node_lt l' x key <-> node_lt l x key.
Proof. intros H. unfold node_lt. by rewrite (same_key l l' x H). Qed.

(** Writing one link. *)
Lemma SetNext_spec l x i (y : option nat) nd : nodes l !! x = Some nd -> (i < length (next_ nd))%nat ->
  exists l', Node_SetNext l x i y = Some l' /\ same_nodes l l' /\ max_height_ l' = max_height_ l /\
    (forall z j, Node_Next l' z j = if decide (z = x /\ j = i) then Some y else Node_Next l z j) /\
    seq_splice_ l' = seq_splice_ l /\ kBranching_ l' = kBranching_ l.
Proof.
  intros Hx Hi. unfold Node_SetNext. rewrite Hx. cbn. rewrite decide_True by done.
  eexists. split; [done |]. split_and!; try done.
  - split; [done |]. intros z. cbn. destruct (decide (z = x)) as [-> | Hz].
    + rewrite lookup_insert_eq, Hx. cbn. by rewrite length_insert.
    + by rewrite lookup_insert_ne by done.
  - intros z j. unfold Node_Next. cbn. destruct (decide (z = x)) as [-> | Hz].
    + rewrite lookup_insert_eq, Hx. cbn. destruct (decide (j = i)) as [-> | Hj].
      * rewrite decide_True by done. by apply list_lookup_insert_eq.
      * rewrite decide_False by (intros []; done). by apply list_lookup_insert_ne.
    + rewrite lookup_insert_ne by done. by rewrite decide_False by (intros []; done).
Qed.

Lemma Next_lookup l x i r : Node_Next l x i = Some r ->
  exists nd, nodes l !! x = Some nd /\ (i < length (next_ nd))%nat.
Proof.
  unfold Node_Next. destruct (nodes l !! x) as [nd |]; [| done]. cbn. intros H.
  exists nd. split; [done |]. by apply lookup_lt_Some in H.
Qed.

(** A link above the levels on which a node is linked is private to it. *)
Lemma set_private l lv x i (y : option nat) nd : linked l lv -> nodes l !! x = Some nd ->
  (i < length (next_ nd))%nat -> (lv x <= i)%nat ->
  exists l', Node_SetNext l x i y = Some l' /\ same_nodes l l' /\ max_height_ l' = max_height_ l /\
    linked l' lv /\ (forall z j, Node_Next l' z j = if decide (z = x /\ j = i) then Some y else Node_Next l z j).
Proof.
  intros H Hx Hi Hlv. destruct (SetNext_spec l x i y nd Hx Hi) as (l' & E & Hsame & Hmax & HN & _).
  exists l'. split_and!; try done. pose proof (same_key l l') as Hk.
  constructor.
  - rewrite (lk_head l lv H). symmetry. apply Hsame.
  - rewrite Hmax, (proj1 Hsame). apply (lk_max l lv H).
  - intros z Hz. destruct (lk_node l lv H z Hz) as (nd' & E' & Hle). destruct Hsame as [_ Hs]. specialize (Hs z).
    rewrite E' in Hs. destruct (nodes l' !! z) as [nd'' |]; [| done]. exists nd''. cbn in Hs. split; [done |]. congruence.
  - intros z Hz. rewrite Hmax. by apply (lk_level l lv H).
  - intros z1 z2. rewrite !Hk by done. apply (lk_distinct l lv H).
  - intros j z Hz. destruct (lk_next l lv H j z Hz) as (r & Er & Hs). exists r.
    rewrite HN, decide_False by (intros [-> ->]; lia). split; [done |].
    unfold successor in *. destruct r as [z' |].
    + setoid_rewrite (node_lt_same l l' z); [| done..]. by setoid_rewrite (Hk _ Hsame).
    + setoid_rewrite (node_lt_same l l' z); [| done..]. by setoid_rewrite (Hk _ Hsame).
Qed.

(** * Linking a node on one level *)

Definition lv_set lv x (n : nat) : nat -> nat := fun y => if decide (y = x) then n else lv y.

Lemma node_lt_le l x a b : node_lt l x a -> cmp a b <= 0 -> node_lt l x b.
Proof. unfold node_lt. intros [-> | H] Hab; [by left | right]. by eapply cmp_lt_le_trans. Qed.
Lemma node_lt_irrefl l x : x <> head_ -> ~ node_lt l x (key_of l x).
Proof. intros Hx [-> | H]; [done |]. pose proof (cmp_refl (cmp := cmp) (key_of l x)). lia. Qed.
Lemma node_lt_trans l x y b : y <> head_ -> node_lt l x (key_of l y) -> node_lt l y b -> node_lt l x b.
Proof. intros Hy H [-> | Hb]; [done |]. apply (node_lt_le _ _ _ _ H). lia. Qed.

Section Publish.
Context l lv x p (i : nat) r (H : linked l lv) (Hx : x <> head_) (Hlv : lv x = i)
  (Hp : (i < lv p)%nat) (HNp : Node_Next l p i = Some r) (Hlt : node_lt l p (key_of l x))
  (Hr : match r with Some n => cmp (key_of l x) (key_of l n) < 0 | None => True end).

Lemma publish_successor : successor l lv i p r.
Proof. destruct (lk_next l lv H i p Hp) as (r' & E & Hs). congruence. Qed.

(** No node of the level is between [p] and [x] or has the key of [x]. *)
Lemma publish_gap z : on_level lv i z -> node_lt l p (key_of l z) -> cmp (key_of l x) (key_of l z) < 0.
Proof.
  intros Hz Hpz. pose proof publish_successor as Hs. destruct r as [n |]; cbn in Hs; [| by destruct (Hs z)].
  destruct Hs as (_ & _ & Hs). eapply cmp_lt_le_trans; [exact Hr | by apply Hs].
Qed.
Lemma publish_fresh z : on_level lv i z -> cmp (key_of l z) (key_of l x) = 0 -> False.
Proof.
  intros Hz H0. assert (Hg : cmp (key_of l x) (key_of l z) < 0).
  { apply (publish_gap z Hz), (node_lt_le l p _ _ Hlt). order_sgn cmp. lia. }
  order_sgn cmp. lia.
Qed.
Lemma publish_before z : z <> p -> (i < lv z)%nat -> node_lt l z (key_of l x) ->
  p <> head_ /\ node_lt l z (key_of l p).
Proof.
  intros Hzp Hz Hzx. destruct (decide (z = head_)) as [-> | Hz0].
  { split; [congruence | by left]. }
  assert (Hgap : ~ node_lt l p (key_of l z)).
  { intros Hpz. pose proof (publish_gap z (conj Hz0 Hz) Hpz). destruct Hzx as [| Hzx]; [done |]. order_sgn cmp. lia. }
  assert (p <> head_) as Hp0 by (intros ->; apply Hgap; by left). split; [done |].
  right. destruct (Z.lt_trichotomy (cmp (key_of l z) (key_of l p)) 0) as [| [E |]]; [done | |].
  - exfalso. apply Hzp. apply (lk_distinct l lv H); [split; [done | lia].. | done].
  - exfalso. apply Hgap. right. order_sgn cmp. lia.
Qed.

Lemma on_level_set j z : on_level (lv_set lv x (S i)) j z <-> on_level lv j z \/ (z = x /\ j = i).
Proof using Hlv Hx.
  clear -Hlv Hx. unfold on_level, lv_set. case_decide as Hz; [rewrite Hz; split |].
  - intros [_ Hj]. destruct (decide (j = i)); [by right | left; split; [done | lia]].
  - intros [[] | []]; split; try done; lia.
  - split; [by left | intros [| []]; done].
Qed.

Lemma publish_new : successor l (lv_set lv x (S i)) i x r.
Proof.
  pose proof publish_successor as Hs. destruct r as [n |]; cbn in *.
  - destruct Hs as (Hn & Hpn & Hs). split; [rewrite on_level_set; by left |]. split; [by right |].
    intros z Hz Hxz. apply on_level_set in Hz as [Hz | [-> _]].
    + apply Hs; [done |]. by apply (node_lt_trans l p x).
    + by apply node_lt_irrefl in Hxz.
  - intros z Hz Hxz. apply on_level_set in Hz as [Hz | [-> _]].
    + apply (Hs z Hz). by apply (node_lt_trans l p x).
    + by apply node_lt_irrefl in Hxz.
Qed.
Lemma publish_old : successor l (lv_set lv x (S i)) i p (Some x).
Proof.
  cbn. split; [apply on_level_set; by right |]. split; [done |].
  intros z Hz Hpz. apply on_level_set in Hz as [Hz | [-> _]].
  - pose proof (publish_gap z Hz Hpz). lia.
  - by rewrite cmp_refl.
Qed.
Lemma publish_other z r' : z <> p -> (i < lv z)%nat -> successor l lv i z r' ->
  successor l (lv_set lv x (S i)) i z r'.
Proof.
  intros Hzp Hz Hs. destruct r' as [y |]; cbn in *.
  - destruct Hs as (Hy & Hzy & Hs). split; [apply on_level_set; by left |]. split; [done |].
    intros w Hw Hzw. apply on_level_set in Hw as [Hw | [-> _]]; [by apply Hs |].
    destruct (publish_before z Hzp Hz Hzw) as [Hp0 Hzp']. eapply cmp_trans; [by apply Hs; [split |] |].
    destruct Hlt as [| Hlt']; [done | lia].
  - intros w Hw Hzw. apply on_level_set in Hw as [Hw | [-> _]]; [by apply (Hs w) |].
    destruct (publish_before z Hzp Hz Hzw) as [Hp0 Hzp']. by apply (Hs p); [split |].
Qed.
Lemma successor_other z j r' : j <> i -> successor l lv j z r' -> successor l (lv_set lv x (S i)) j z r'.
Proof.
  intros Hj. assert (HE : forall w, on_level (lv_set lv x (S i)) j w <-> on_level lv j w).
  { intros w. rewrite on_level_set. split; [intros [| []]; done | by left]. }
  unfold successor. by destruct r'; setoid_rewrite HE.
Qed.

Lemma publish (Hh : (i < UnstashHeight l x)%nat) (Hm : (i < max_height_ l)%nat) (HNx : Node_Next l x i = Some r) :
  exists l', Node_SetNext l p i (Some x) = Some l' /\ same_nodes l l' /\ max_height_ l' = max_height_ l /\
    linked l' (lv_set lv x (S i)) /\
    (forall z j, Node_Next l' z j = if decide (z = p /\ j = i) then Some (Some x) else Node_Next l z j).
Proof.
  destruct (Next_lookup l p i r HNp) as (nd & Hnd & Hi).
  destruct (SetNext_spec l p i (Some x) nd Hnd Hi) as (l' & E & Hsame & Hmax & HN & _).
  exists l'. split_and!; try done. pose proof (fun y => same_key l l' y Hsame) as Hk.
  assert (Hsucc : forall z j r', successor l (lv_set lv x (S i)) j z r' -> successor l' (lv_set lv x (S i)) j z r').
  { intros z j r'. unfold successor. destruct r'; setoid_rewrite (node_lt_same l l'); try done; by setoid_rewrite Hk. }
  constructor.
  - unfold lv_set. rewrite decide_False by done. rewrite (lk_head l lv H). symmetry. apply Hsame.
  - rewrite Hmax, (proj1 Hsame). apply (lk_max l lv H).
  - intros z Hz. pose proof (proj2 Hsame z) as Hs. unfold lv_set in *. case_decide as Hzx.
    + subst z. unfold UnstashHeight in Hh. destruct (nodes l !! x) as [nd' |]; [| lia].
      destruct (nodes l' !! x) as [nd'' |]; [| done]. exists nd''. cbn in Hs. split; [done |]. injection Hs as _ ->. lia.
    + destruct (lk_node l lv H z Hz) as (nd' & E' & Hle). rewrite E' in Hs.
      destruct (nodes l' !! z) as [nd'' |]; [| done]. exists nd''. cbn in Hs. split; [done |]. congruence.
  - intros z Hz. rewrite Hmax. unfold lv_set. case_decide; [lia |]. by apply (lk_level l lv H).
  - intros z1 z2 H1 H2. rewrite !Hk. intros H0.
    apply on_level_set in H1 as [H1 | [-> H1]], H2 as [H2 | [-> H2]]; [by apply (lk_distinct l lv H) | | | done].
    + exfalso. by apply (publish_fresh z1); [rewrite <- H2 |].
    + exfalso. apply (publish_fresh z2); [by rewrite <- H1 |]. order_sgn cmp. lia.
  - intros j z Hz. rewrite HN. case_decide as Hd; [destruct Hd as [-> ->]; eexists; split; [done |]; apply Hsucc, publish_old |].
    destruct (decide (z = x)) as [-> | Hzx].
    + unfold lv_set in Hz. rewrite decide_True in Hz by done. destruct (decide (j = i)) as [-> | Hj].
      * exists r. split; [done |]. apply Hsucc, publish_new.
      * destruct (lk_next l lv H j x) as (r' & E' & Hs'); [lia |]. exists r'. split; [done |]. by apply Hsucc, successor_other.
    + unfold lv_set in Hz. rewrite decide_False in Hz by done.
      destruct (lk_next l lv H j z Hz) as (r' & E' & Hs'). exists r'. split; [done |]. apply Hsucc.
      destruct (decide (j = i)) as [-> | Hj]; [| by apply successor_other]. apply publish_other; [| done..].
      intros ->. by apply Hd.
Qed.
End Publish.

(** * Searches *)

#[local] Instance on_level_dec lv i y : Decision (on_level lv i y).
Proof. unfold on_level. apply _. Defined.

(** The nodes after [x]: a search that moves on to one of them has fewer ahead. *)
Definition after_set l lv x : gset nat :=
  filter (fun z => on_level lv 0 z /\ node_lt l x (key_of l z)) (dom (nodes l)).
Definition rank l lv x : nat := size (after_set l lv x).

Lemma rank_lt l lv i x y : linked l lv -> on_level lv i y -> node_lt l x (key_of l y) ->
  (rank l lv y < rank l lv x)%nat.
Proof.
  intros H Hy Hxy. apply subset_size. assert (Hy0 : on_level lv 0 y) by (apply (on_level_le lv i); [lia | done]). split.
  - intros z. unfold after_set. rewrite !elem_of_filter. intros ((Hz & Hyz) & Hd). split_and!; [done | | done].
    apply (node_lt_trans l x y); [apply Hy0 | done..].
  - intros Hsub. specialize (Hsub y). unfold after_set in Hsub. rewrite !elem_of_filter in Hsub.
    destruct (lk_node l lv H y) as (nd & Hnd & _); [apply Hy0 |].
    destruct Hsub as [[_ Hlt] _]; [split_and!; [done.. |]; apply elem_of_dom; eauto |].
    apply node_lt_irrefl in Hlt; [done | apply Hy0].
Qed.
Lemma rank_size l lv x : linked l lv -> (rank l lv x < size (nodes l))%nat.
Proof.
  intros H. unfold rank. rewrite <- size_dom. apply subset_size. split.
  - intros z. unfold after_set. rewrite elem_of_filter. tauto.
  - intros Hsub. destruct (lk_node l lv H head_) as (nd & Hnd & _).
    { rewrite (lk_head l lv H). pose proof (lk_max l lv H). lia. }
    specialize (Hsub head_). unfold after_set in Hsub. rewrite elem_of_filter in Hsub.
    destruct Hsub as [[[Hh _] _] _]; [apply elem_of_dom; eauto | done].
Qed.

Lemma successor_node l lv i x n : successor l lv i x (Some n) -> on_level lv i n /\ node_lt l x (key_of l n).
Proof. intros (? & ? & _). done. Qed.
Lemma in_order l lv i x r validate : successor l lv i x r -> out_of_order cmp l validate x r = false.
Proof.
  destruct r as [n |]; [| done]. intros (_ & Hlt & _). unfold out_of_order. destruct Hlt as [-> | Hlt].
  - rewrite Nat.eqb_refl. by destruct validate.
  - rewrite Z.geb_leb, (proj2 (Z.leb_gt _ _)) by lia. by rewrite andb_false_r.
Qed.

Definition first_ge l lv (key : bytes) r : Prop :=
  match r with
  | None => forall z, on_level lv 0 z -> cmp (key_of l z) key < 0
  | Some y => on_level lv 0 y /\ 0 <= cmp (key_of l y) key /\
      forall z, on_level lv 0 z -> 0 <= cmp (key_of l z) key -> cmp (key_of l y) (key_of l z) <= 0
  end.
Definition last_lt l lv (key : bytes) x : Prop :=
  (0 < lv x)%nat /\ node_lt l x key /\
  forall z, on_level lv 0 z -> cmp (key_of l z) key < 0 -> x <> head_ /\ cmp (key_of l z) (key_of l x) <= 0.

Lemma node_lt_ge l x key z : node_lt l x key -> 0 <= cmp (key_of l z) key -> node_lt l x (key_of l z).
Proof. intros Hx Hz. apply (node_lt_le _ _ _ _ Hx). order_sgn cmp. lia. Qed.

Lemma FindGreaterOrEqual_loop_spec fuel l lv key validate x level last_bigger : linked l lv ->
  (level < lv x)%nat -> node_lt l x key ->
  (forall n, last_bigger = Some n -> 0 <= cmp (key_of l n) key) ->
  (rank l lv x + level < fuel)%nat ->
  exists r, FindGreaterOrEqual_loop cmp fuel l key validate x level last_bigger = Some (r, None) /\ first_ge l lv key r.
Proof.
  intros H. revert x level last_bigger. induction fuel as [| fuel IH]; intros x level lb Hl Hx Hlb Hf; [lia |].
  cbn [FindGreaterOrEqual_loop]. destruct (lk_next l lv H level x Hl) as (r & -> & Hs). cbn [mbind option_bind].
  rewrite (in_order l lv level x r validate Hs). destruct r as [n |].
  - destruct (successor_node l lv level x n Hs) as [Hn Hxn].
    assert (Hc : exists c, (if bool_decide (Some n = lb) then 1 else cmp (key_of l n) key) = c /\
      (c < 0 -> cmp (key_of l n) key < 0) /\ (0 <= c -> 0 <= cmp (key_of l n) key) /\ (c = 0 -> cmp (key_of l n) key = 0)).
    { eexists. split; [done |]. case_bool_decide as E; [pose proof (Hlb n (eq_sym E)) |]; lia. }
    destruct Hc as (c & -> & Hc1 & Hc2 & Hc3).
    destruct ((c =? 0) || ((c >? 0) && (level =? 0)%nat)) eqn:Ec.
    + exists (Some n). split; [done |]. split_and!; [by apply (on_level_le lv level); [lia |] | |].
      { apply Hc2. apply orb_prop in Ec as [Ec | Ec]; bool_to_prop; lia. }
      intros z Hz Hzk. apply orb_prop in Ec as [Ec | Ec].
      * apply Z.eqb_eq, Hc3 in Ec. apply (cmp_trans _ key); order_sgn cmp; lia.
      * apply andb_prop in Ec as [_ Ec]. apply Nat.eqb_eq in Ec. subst level. destruct Hs as (_ & _ & Hs).
        apply Hs; [done |]. by apply (node_lt_ge l x key).
    + destruct (Z.ltb_spec c 0) as [Hlt | Hge].
      * apply IH; [apply Hn | right; by apply Hc1 | done |]. pose proof (rank_lt l lv level x n H Hn Hxn). lia.
      * assert (0 < level)%nat by (destruct level; [| lia]; bool_to_prop; cbn in *; lia).
        apply IH; [lia | done | | lia]. intros n' [= <-]. by apply Hc2.
  - cbn. destruct (Nat.eqb_spec level 0) as [-> | Hne]; cbn [orb andb Z.gtb Z.compare].
    + exists None. split; [done |]. intros z Hz. apply Z.lt_nge. intros Hzk. apply (Hs z Hz). by apply (node_lt_ge l x key).
    + apply IH; [lia | done | done | lia].
Qed.
Lemma FindGreaterOrEqual_spec l lv key validate : linked l lv ->
  exists r, FindGreaterOrEqual cmp l key validate = Some (r, None) /\ first_ge l lv key r.
Proof.
  intros H. pose proof (lk_max l lv H). pose proof (rank_size l lv head_ H).
  apply FindGreaterOrEqual_loop_spec; [done | apply (head_on l); [done | lia] | by left | done | unfold search_fuel; lia].
Qed.

Lemma FindLessThan_loop_spec fuel l lv key validate x level last : linked l lv ->
  (level < lv x)%nat -> node_lt l x key ->
  (forall n, last = Some n -> 0 <= cmp (key_of l n) key) ->
  (rank l lv x + level < fuel)%nat ->
  exists y, FindLessThan_loop cmp fuel l key validate x level last = Some (y, None) /\ last_lt l lv key y.
Proof.
  intros H. revert x level last. induction fuel as [| fuel IH]; intros x level last Hl Hx Hlast Hf; [lia |].
  cbn [FindLessThan_loop]. destruct (lk_next l lv H level x Hl) as (r & -> & Hs). cbn [mbind option_bind].
  rewrite (in_order l lv level x r validate Hs).
  assert (Hdown : (forall n, r = Some n -> 0 <= cmp (key_of l n) key) ->
    exists y, (if (level =? 0)%nat then Some (x, None)
               else FindLessThan_loop cmp fuel l key validate x (level - 1) r) = Some (y, None) /\ last_lt l lv key y).
  { intros Hr. destruct (Nat.eqb_spec level 0) as [-> | Hne]; [| apply IH; [lia | done | done | lia]].
    exists x. split; [done |]. split_and!; [done | done |]. intros z Hz Hzk.
    assert (Hnlt : ~ node_lt l x (key_of l z)).
    { intros Hxz. destruct r as [n |]; [| by apply (Hs z)]. destruct Hs as (_ & _ & Hs).
      pose proof (Hs z Hz Hxz). pose proof (Hr n eq_refl). pose proof (cmp_trans (cmp := cmp) key (key_of l n) (key_of l z)).
      order_sgn cmp. lia. }
    assert (x <> head_) as Hx0 by (intros ->; apply Hnlt; by left). split; [done |].
    apply Z.nlt_ge. intros ?. apply Hnlt. right. order_sgn cmp. lia. }
  destruct r as [n |]; [| by apply Hdown]. destruct (successor_node l lv level x n Hs) as [Hn Hxn].
  case_bool_decide as E; cbn [negb andb KeyIsAfterNode].
  - apply Hdown. intros n' [= <-]. by apply Hlast.
  - destruct (Z.ltb_spec (cmp (key_of l n) key) 0) as [Hlt | Hge].
    + apply IH; [apply Hn | by right | done |]. pose proof (rank_lt l lv level x n H Hn Hxn). lia.
    + apply Hdown. by intros n' [= <-].
Qed.
Lemma FindLessThan_spec l lv key validate : linked l lv ->
  exists x, FindLessThan cmp l key validate = Some (x, None) /\ last_lt l lv key x.
Proof.
  intros H. pose proof (lk_max l lv H). pose proof (rank_size l lv head_ H).
  apply FindLessThan_loop_spec; [done | apply (head_on l); [done | lia] | by left | done | unfold search_fuel; lia].
Qed.

Definition last_node l lv x : Prop :=
  (0 < lv x)%nat /\ forall z, on_level lv 0 z -> x <> head_ /\ cmp (key_of l z) (key_of l x) <= 0.
Lemma FindLast_spec l lv : linked l lv -> exists x, FindLast l = Some x /\ last_node l lv x.
Proof.
  intros H. pose proof (lk_max l lv H). pose proof (rank_size l lv head_ H) as Hrank.
  unfold FindLast, search_fuel.
  assert (Hl : (max_height_ l - 1 < lv head_)%nat) by (apply (head_on l); [done | lia]). revert Hl.
  assert (Hf : (rank l lv head_ + (max_height_ l - 1) < size (nodes l) + kMaxHeight_ l)%nat) by lia. revert Hf.
  generalize (size (nodes l) + kMaxHeight_ l)%nat as fuel, (max_height_ l - 1)%nat as level, head_ as x.
  induction fuel as [| fuel IH]; intros level x Hf Hl; [lia |]. cbn [FindLast_loop].
  destruct (lk_next l lv H level x Hl) as (r & -> & Hs). cbn [mbind option_bind]. destruct r as [n |].
  - destruct (successor_node l lv level x n Hs) as [Hn Hxn]. apply IH; [| apply Hn].
    pose proof (rank_lt l lv level x n H Hn Hxn). lia.
  - destruct (Nat.eqb_spec level 0) as [-> | Hne]; [| apply IH; lia].
    exists x. split; [done |]. split; [done |]. intros z Hz. pose proof (Hs z Hz) as Hnlt.
    assert (x <> head_) as Hx0 by (intros ->; apply Hnlt; by left). split; [done |].
    apply Z.nlt_ge. intros ?. apply Hnlt. right. order_sgn cmp. lia.
Qed.
End Linked.
