(* ===== verification/SkipListInsert.v ===== *)
(** Insertion into the skip list with a splice: a splice that satisfies its invariant
    is repaired to one that brackets the key, and the node is linked on its levels. *)

From stdpp Require Import gmap sorting.
From S2P Require Import Prelude Comparator Status Cursor SkipList SkipListProofs.

Section Insert.
Context (cmp : bytes -> bytes -> Z) {KO : KeyOrder cmp}.
Implicit Types (l : InlineSkipList) (s : Splice) (x y z p : nat) (n : option nat) (lv : nat -> nat) (key : bytes).

(** * The splice on one level *)

Definition next_ge l n key : Prop := forall m, n = Some m -> 0 <= cmp (key_of l m) key.

Lemma FindSpliceForLevel_spec fuel l lv key before after i : linked cmp l lv ->
  (i < lv before)%nat -> node_lt cmp l before key -> next_ge l after key -> (rank cmp l lv before < fuel)%nat ->
  exists p n, FindSpliceForLevel cmp fuel l key before after i = Some (p, n) /\
    (i < lv p)%nat /\ node_lt cmp l p key /\ Node_Next l p i = Some n /\ next_ge l n key /\
    (p = before \/ on_level lv i p /\ node_lt cmp l before (key_of l p)).
Proof.
  intros H. revert before. induction fuel as [| fuel IH]; intros before Hi Hlt Hafter Hf; [lia |].
  cbn [FindSpliceForLevel]. destruct (lk_next _ l lv H i before Hi) as (r & Er & Hs). rewrite Er. cbn [mbind option_bind].
  destruct (bool_decide (r = after) || negb (KeyIsAfterNode cmp l key r)) eqn:Ec.
  - exists before, r. split_and!; [done.. | | by left]. apply orb_prop in Ec as [Ec | Ec].
    + apply bool_decide_eq_true in Ec as ->. done.
    + intros m ->. cbn in Ec. apply negb_true_iff, Z.ltb_ge in Ec. done.
  - apply orb_false_elim in Ec as [_ Ec]. apply negb_false_iff in Ec. destruct r as [m |]; [| done].
    cbn in Ec. apply Z.ltb_lt in Ec. destruct (successor_node cmp l lv i before m Hs) as [Hm Hbm].
    destruct (IH m) as (p & n & E & Hp & Hpk & Hn & Hge & Hpm); [apply Hm | by right | done | |].
    { pose proof (rank_lt cmp l lv i before m H Hm Hbm). lia. }
    exists p, n. split_and!; try done. right. destruct Hpm as [-> | [Hp1 Hp2]]; [done |]. split; [done |].
    by apply (node_lt_trans cmp l before m); [apply Hm | |].
Qed.

(** * The invariant of a splice *)

Definition prev_at s (i : nat) : nat := default head_ (prev_ s !! i).
Definition next_at s (i : nat) : option nat := default None (splice_next_ s !! i).
Definition node_le l x y : Prop := x = head_ \/ (y <> head_ /\ cmp (key_of l x) (key_of l y) <= 0).
Definition next_le l n n' : Prop :=
  forall m', n' = Some m' -> exists m, n = Some m /\ cmp (key_of l m) (key_of l m') <= 0.

(** One level of a splice, and how it lies inside the level above. *)
Definition level_ok l lv s (i : nat) : Prop :=
  (i < lv (prev_at s i))%nat /\
  (forall m, next_at s i = Some m -> on_level lv i m /\ node_lt cmp l (prev_at s i) (key_of l m)) /\
  node_le l (prev_at s (S i)) (prev_at s i) /\ next_le l (next_at s i) (next_at s (S i)).

Record splice_ok l lv s : Prop := {
  so_prev : (kMaxHeight_ l < length (prev_ s))%nat;
  so_next : (kMaxHeight_ l < length (splice_next_ s))%nat;
  so_height : (height_ s <= max_height_ l)%nat;
  so_top : (0 < height_ s)%nat -> prev_at s (height_ s) = head_ /\ next_at s (height_ s) = None;
  so_level i : (i < height_ s)%nat -> level_ok l lv s i;
}.

Definition brackets l s key (i : nat) : Prop := node_lt cmp l (prev_at s i) key /\ next_ge l (next_at s i) key.

Lemma node_le_lt l x y key : node_le l x y -> node_lt cmp l y key -> node_lt cmp l x key.
Proof.
  intros [-> | [Hy Hle]] Hlt; [by left |]. destruct Hlt as [-> | Hlt]; [done | right]. by eapply cmp_le_lt_trans.
Qed.

Lemma brackets_up l lv s key i j : (forall k, (i <= k < height_ s)%nat -> level_ok l lv s k) -> (i <= j <= height_ s)%nat ->
  brackets l s key i -> brackets l s key j.
Proof.
  intros Hs Hj Hb. induction j as [| j IH]; [by replace i with O in Hb by lia |].
  destruct (decide (i = S j)) as [<- | Hne]; [done |]. destruct IH as [Hp Hn]; [lia |].
  destruct (Hs j) as (_ & _ & Hle & Hnl); [lia |]. split.
  - by apply (node_le_lt l _ (prev_at s j)).
  - intros m' Hm'. destruct (Hnl m' Hm') as (m & Hm & Hmm). pose proof (Hn m Hm).
    pose proof (cmp_trans (cmp := cmp) key (key_of l m) (key_of l m')). order_sgn cmp. lia.
Qed.

Lemma prev_lookup s i : (i < length (prev_ s))%nat -> prev_ s !! i = Some (prev_at s i).
Proof. intros H. unfold prev_at. by destruct (lookup_lt_is_Some_2 _ _ H) as [? ->]. Qed.
Lemma next_lookup s i : (i < length (splice_next_ s))%nat -> splice_next_ s !! i = Some (next_at s i).
Proof. intros H. unfold next_at. by destruct (lookup_lt_is_Some_2 _ _ H) as [? ->]. Qed.

Lemma prev_set s i p n j : (i < length (prev_ s))%nat ->
  prev_at (set_splice s i p n) j = if decide (j = i) then p else prev_at s j.
Proof.
  intros H. unfold prev_at. cbn. case_decide as E; [subst; by rewrite list_lookup_insert_eq |].
  by rewrite list_lookup_insert_ne by done.
Qed.
Lemma next_set s i p n j : (i < length (splice_next_ s))%nat ->
  next_at (set_splice s i p n) j = if decide (j = i) then n else next_at s j.
Proof.
  intros H. unfold next_at. cbn. case_decide as E; [subst; by rewrite list_lookup_insert_eq |].
  by rewrite list_lookup_insert_ne by done.
Qed.

(** A level whose neighbours are adjacent and bracket the key lies inside the level above. *)
Lemma level_ok_intro l lv s key i : linked cmp l lv ->
  (i < lv (prev_at s i))%nat -> node_lt cmp l (prev_at s i) key ->
  Node_Next l (prev_at s i) i = Some (next_at s i) -> next_ge l (next_at s i) key ->
  node_le l (prev_at s (S i)) (prev_at s i) ->
  (forall m, next_at s (S i) = Some m -> on_level lv i m /\ 0 <= cmp (key_of l m) key) ->
  level_ok l lv s i.
Proof.
  intros H Hi Hlt HN Hge Hle Hup. destruct (lk_next _ l lv H i _ Hi) as (r & Er & Hs).
  rewrite HN in Er. injection Er as <-. split_and!; [done | | done |].
  - intros m Em. rewrite Em in Hs. by apply successor_node.
  - intros m' Em'. destruct (Hup m' Em') as [Hm' Hk]. pose proof (node_lt_ge cmp l _ key m' Hlt Hk) as Hlt'.
    destruct (next_at s i) as [m |]; [| by destruct (Hs m')]. exists m. split; [done |]. by apply Hs.
Qed.

(** * Repairing a splice *)

(** The levels from [i] on are as they should be; [key] is bracketed on level [i]. *)
Definition partial_ok l lv s (i : nat) : Prop :=
  (kMaxHeight_ l < length (prev_ s))%nat /\ (kMaxHeight_ l < length (splice_next_ s))%nat /\
  height_ s = max_height_ l /\ prev_at s (height_ s) = head_ /\ next_at s (height_ s) = None /\
  (forall k, (i <= k < height_ s)%nat -> level_ok l lv s k).

Lemma partial_up l lv s key i : linked cmp l lv -> (i < height_ s)%nat -> partial_ok l lv s (S i) -> brackets l s key (S i) ->
  (i < lv (prev_at s (S i)))%nat /\
  (forall m, next_at s (S i) = Some m -> on_level lv i m /\ 0 <= cmp (key_of l m) key).
Proof.
  intros H Hi (_ & _ & Hh & Htp & Htn & Hl) [_ Hge]. destruct (decide (S i = height_ s)) as [E | Hne].
  - rewrite E, Htp, Htn. split; [apply (head_on cmp l lv i H); pose proof (lk_max _ l lv H); lia | done].
  - destruct (Hl (S i)) as (H1 & H2 & _); [lia |]. split; [lia |]. intros m Em. split; [| by apply Hge].
    apply (on_level_le lv (S i)); [lia |]. by apply H2.
Qed.

Lemma RecomputeSpliceLevels_spec l lv key i : linked cmp l lv -> forall s,
  (i <= height_ s)%nat -> partial_ok l lv s i -> brackets l s key i ->
  exists s', RecomputeSpliceLevels cmp l key s i = Some s' /\ height_ s' = height_ s /\
    partial_ok l lv s' 0 /\ brackets l s' key 0 /\
    (forall j, (i <= j)%nat -> prev_at s' j = prev_at s j /\ next_at s' j = next_at s j) /\
    (forall j, (j < i)%nat -> Node_Next l (prev_at s' j) j = Some (next_at s' j)).
Proof.
  intros H. induction i as [| i IH]; intros s Hi Hok Hb.
  { exists s. split_and!; try done. lia. }
  pose proof (lk_max _ l lv H) as Hmax. pose proof (partial_up l lv s key i H) as Hup.
  destruct Hup as [Hlv Hup]; [lia | done.. |]. destruct Hok as (Hp & Hn & Hh & Htp & Htn & Hl).
  cbn [RecomputeSpliceLevels]. rewrite prev_lookup, next_lookup by lia. cbn [mbind option_bind].
  destruct (FindSpliceForLevel_spec (search_fuel l) l lv key (prev_at s (S i)) (next_at s (S i)) i)
    as (p & n & -> & Hpl & Hpk & HN & Hge & Hpp); [done | done | apply Hb | apply Hb | |].
  { unfold search_fuel. pose proof (rank_size cmp l lv (prev_at s (S i)) H). lia. }
  cbn [fst snd]. set (s1 := set_splice s i p n).
  assert (Hs1 : forall j, j <> i -> prev_at s1 j = prev_at s j /\ next_at s1 j = next_at s j).
  { intros j Hj. unfold s1. rewrite prev_set, next_set by lia. by rewrite !decide_False by done. }
  assert (Hs1i : prev_at s1 i = p /\ next_at s1 i = n).
  { unfold s1. rewrite prev_set, next_set by lia. by rewrite !decide_True by done. }
  assert (Hlevel : level_ok l lv s1 i).
  { destruct Hs1i as [E1 E2]. destruct (Hs1 (S i)) as [E3 E4]; [lia |].
    apply (level_ok_intro l lv s1 key i); rewrite ?E1, ?E2, ?E3, ?E4; try done.
    destruct Hpp as [-> | [Hp0 Hlt]]; [| destruct Hlt as [-> | Hlt]; [by left | right; split; [apply Hp0 | lia]]].
    destruct (decide (prev_at s (S i) = head_)); [by left | right; split; [done |]]. by rewrite cmp_refl. }
  destruct (IH s1) as (s' & E & Hh' & Hok' & Hb' & Hsame & HN').
  - cbn. lia.
  - split_and!; cbn; rewrite ?length_insert; try done.
    + by destruct (Hs1 (height_ s)) as [-> _]; [lia |].
    + by destruct (Hs1 (height_ s)) as [_ ->]; [lia |].
    + intros k Hk. destruct (decide (k = i)) as [-> | Hki]; [done |]. unfold level_ok.
      destruct (Hs1 k) as [-> ->]; [done |]. destruct (Hs1 (S k)) as [-> ->]; [lia |]. apply Hl. cbn in Hk. lia.
  - destruct Hs1i as [E1 E2]. split; rewrite ?E1, ?E2; done.
  - exists s'. split_and!; try done.
    + intros j Hj. destruct (Hsame j) as [-> ->]; [lia |]. apply Hs1. lia.
    + intros j Hj. destruct (decide (j = i)) as [-> | Hji]; [| apply HN'; lia].
      destruct (Hsame i) as [-> ->]; [lia |]. destruct Hs1i as [-> ->]. done.
Qed.

(** The loop that skips equal entries stops at an entry that differs. *)
Lemma skip_equal_spec {A} `{EqDecision A} (array : list A) (bad : A) fuel i top : (i <= top)%nat ->
  (top < length array)%nat -> (forall a, array !! top = Some a -> a <> bad) -> (top - i < fuel)%nat ->
  exists j, skip_equal fuel array bad i = Some j /\ (i <= j <= top)%nat /\
    (forall a, array !! i = Some a -> a = bad -> (i < j)%nat).
Proof.
  revert i. induction fuel as [| fuel IH]; intros i Hi Ht Htop Hf; [lia |]. cbn [skip_equal].
  destruct (lookup_lt_is_Some_2 array i) as [a Ha]; [lia |]. rewrite Ha. cbn [mbind option_bind].
  case_decide as E.
  - assert (i <> top) by (intros ->; by apply (Htop a)).
    destruct (IH (S i)) as (j & -> & Hj & _); [lia | done | done | lia |]. exists j. split_and!; [done | lia | lia |]. lia.
  - exists i. split_and!; [done | lia | lia |]. intros a' Ha' ->. congruence.
Qed.

Lemma recompute_height_spec l lv key s allow fuel i : linked cmp l lv -> partial_ok l lv s 0 ->
  (i <= height_ s)%nat -> (height_ s - i < fuel)%nat ->
  exists j, recompute_height cmp fuel l key s allow (max_height_ l) i = Some j /\ (j <= height_ s)%nat /\
    brackets l s key j.
Proof.
  intros H (Hp & Hn & Hh & Htp & Htn & Hl). pose proof (lk_max _ l lv H) as Hmax.
  revert i. induction fuel as [| fuel IH]; intros i Hi Hf; [lia |]. cbn [recompute_height].
  destruct (Nat.leb_spec (max_height_ l) i) as [Hge | Hlt].
  { exists i. split_and!; [done | lia |]. replace i with (height_ s) by lia. unfold brackets. rewrite Htp, Htn.
    split; [by left | done]. }
  rewrite prev_lookup, next_lookup by lia. cbn [mbind option_bind].
  destruct (Hl i) as (Hlv & _); [lia |]. destruct (lk_next _ l lv H i _ Hlv) as (r & -> & _). cbn [mbind option_bind].
  assert (Htop : exists j, recompute_height cmp fuel l key s allow (max_height_ l) (max_height_ l) = Some j /\
    (j <= height_ s)%nat /\ brackets l s key j) by (apply IH; lia).
  case_bool_decide as E; cbn [negb]; [subst r | by apply IH; lia].
  destruct (Nat.eqb_spec (prev_at s i) head_) as [E0 | E0]; cbn [negb andb KeyIsAfterNode].
  2: destruct (Z.ltb_spec (cmp (key_of l (prev_at s i)) key) 0) as [Hk | Hk]; cbn [negb].
  2: assert (Hlt' : node_lt cmp l (prev_at s i) key) by (by right).
  1: assert (Hlt' : node_lt cmp l (prev_at s i) key) by (by left).
  3: { destruct allow; [| exact Htop].
       destruct (skip_equal_spec (prev_ s) (prev_at s i) (length (prev_ s)) i (height_ s)) as (j & -> & Hj & Hij);
         [lia | lia | rewrite prev_lookup by lia; congruence | lia |]. cbn [mbind option_bind].
       specialize (Hij _ (prev_lookup s i ltac:(lia)) eq_refl). apply IH; lia. }
  all: destruct (KeyIsAfterNode cmp l key (next_at s i)) eqn:Ek.
  2, 4: exists i; split_and!; [done | lia |]; split; [done |]; intros m Em; rewrite Em in Ek; by apply Z.ltb_ge in Ek.
  all: destruct allow; [| exact Htop];
    destruct (skip_equal_spec (splice_next_ s) (next_at s i) (length (splice_next_ s)) i (height_ s)) as (j & -> & Hj & Hij);
    [lia | lia | rewrite next_lookup by lia; intros a [= <-]; rewrite Htn; by destruct (next_at s i) | lia |];
    cbn [mbind option_bind]; specialize (Hij _ (next_lookup s i ltac:(lia)) eq_refl); apply IH; lia.
Qed.

(** A splice that was used is whole when the height of the list has not grown since. *)
Lemma splice_partial l lv s : linked cmp l lv -> splice_ok l lv s -> (max_height_ l <= height_ s)%nat -> partial_ok l lv s 0.
Proof.
  intros H [Hp Hn Hh Ht Hl] Hm. pose proof (lk_max _ l lv H). destruct Ht as [Ht1 Ht2]; [lia |].
  split_and!; [done | done | lia | done | done |]. intros k Hk. apply Hl. lia.
Qed.
Lemma partial_splice l lv s : partial_ok l lv s 0 -> splice_ok l lv s.
Proof.
  intros (Hp & Hn & Hh & Ht1 & Ht2 & Hl). split; [done | done | lia | done |]. intros i Hi. apply Hl. lia.
Qed.

(** The splice that an insertion uses: it brackets the key on every level, and is adjacent on the
    levels that were recomputed. *)
Lemma prepare_splice_spec l lv key s allow : linked cmp l lv -> splice_ok l lv s ->
  exists i s', prepare_splice cmp l key s allow = Some (i, s') /\ partial_ok l lv s' 0 /\
    (forall j, (j <= height_ s')%nat -> brackets l s' key j) /\
    (forall j, (j < i)%nat -> Node_Next l (prev_at s' j) j = Some (next_at s' j)).
Proof.
  intros H Hs. pose proof (lk_max _ l lv H) as Hmax.
  assert (Hall : forall s', partial_ok l lv s' 0 -> brackets l s' key 0 ->
    forall j, (j <= height_ s')%nat -> brackets l s' key j).
  { intros s' (_ & _ & _ & _ & _ & Hl) Hb j Hj. apply (brackets_up l lv s' key 0); [done | lia | done]. }
  unfold prepare_splice. destruct (Nat.ltb_spec (height_ s) (max_height_ l)) as [Hlt | Hge].
  - set (s1 := set_splice_height _ _). destruct Hs as [Hp Hn _ _ _].
    assert (E1 : prev_at s1 (max_height_ l) = head_).
    { change (prev_at s1 (max_height_ l)) with (prev_at (set_splice s (max_height_ l) head_ None) (max_height_ l)).
      rewrite prev_set by lia. by rewrite decide_True by done. }
    assert (E2 : next_at s1 (max_height_ l) = None).
    { change (next_at s1 (max_height_ l)) with (next_at (set_splice s (max_height_ l) head_ None) (max_height_ l)).
      rewrite next_set by lia. by rewrite decide_True by done. }
    destruct (RecomputeSpliceLevels_spec l lv key (max_height_ l) H s1) as (s' & E & Hh' & Hok & Hb & _ & HN).
    + cbn. lia.
    + split_and!; cbn; rewrite ?length_insert; try done; lia.
    + split; [rewrite E1; by left | rewrite E2; done].
    + rewrite E. cbn. exists (max_height_ l), s'. split_and!; [done | done | by apply Hall | done].
  - pose proof (splice_partial l lv s H Hs Hge) as Hok. pose proof Hok as (_ & _ & Hh & _ & _ & Hl).
    destruct (recompute_height_spec l lv key s allow (S (max_height_ l)) 0 H Hok) as (i & -> & Hi & Hb); [lia | lia |].
    cbn [mbind option_bind].
    destruct (RecomputeSpliceLevels_spec l lv key i H s Hi) as (s' & -> & Hh' & Hok' & Hb' & _ & HN); [| done |].
    { destruct Hok as (? & ? & ? & ? & ? & ?). split_and!; try done. intros k Hk. apply Hl. lia. }
    cbn. exists i, s'. split_and!; [done | done | by apply Hall | done].
Qed.

(** * Linking a node *)

Lemma linked_ext l lv lv' : (forall y, lv' y = lv y) -> linked cmp l lv -> linked cmp l lv'.
Proof.
  intros E H. assert (HE : forall i y, on_level lv' i y <-> on_level lv i y) by (intros; unfold on_level; by rewrite E).
  split; intros; rewrite ?E in *; rewrite ?HE in *; try by apply H.
  destruct (lk_next _ l lv H i x) as (r & Er & Hs); [done |]. exists r. split; [done |].
  unfold successor in *. destruct r; by setoid_rewrite HE.
Qed.

(** The neighbours of a key on a level, in a list that is partly linked. *)
Lemma neighbours_spec l lv key recompute s i : linked cmp l lv ->
  (i < lv (prev_at s i))%nat -> brackets l s key i ->
  ((i < recompute)%nat -> Node_Next l (prev_at s i) i = Some (next_at s i)) ->
  exists p n, (if (recompute <=? i)%nat then
       next ← Node_Next l (prev_at s i) i;
       if bool_decide (next = next_at s i) then Some (prev_at s i, next_at s i)
       else FindSpliceForLevel cmp (search_fuel l) l key (prev_at s i) None i
     else Some (prev_at s i, next_at s i)) = Some (p, n) /\
    (i < lv p)%nat /\ node_lt cmp l p key /\ Node_Next l p i = Some n /\ next_ge l n key /\
    (p = prev_at s i \/ on_level lv i p /\ node_lt cmp l (prev_at s i) (key_of l p)).
Proof.
  intros H Hi [Hlt Hge] HN. destruct (Nat.leb_spec recompute i).
  - destruct (lk_next _ l lv H i _ Hi) as (r & Er & _). rewrite Er. cbn [mbind option_bind]. case_bool_decide as E.
    + subst r. eexists _, _. split; [done |]. split_and!; try done. by left.
    + apply (FindSpliceForLevel_spec _ l lv); try done.
      unfold search_fuel. pose proof (lk_max _ l lv H). pose proof (rank_size cmp l lv (prev_at s i) H). lia.
  - eexists _, _. split; [done |]. split_and!; try done; [by apply HN | by left].
Qed.

(** One step of the loop, when the key is not there. *)
Lemma link_level_spec l lv x p n i : linked cmp l lv -> x <> head_ -> lv x = i ->
  (i < UnstashHeight l x)%nat -> (i < max_height_ l)%nat ->
  (i < lv p)%nat -> node_lt cmp l p (key_of l x) -> Node_Next l p i = Some n -> next_ge l n (key_of l x) ->
  is_duplicate cmp l (key_of l x) i p n = false ->
  exists l1 l2, Node_SetNext l x i n = Some l1 /\ Node_SetNext l1 p i (Some x) = Some l2 /\
    same_nodes l l2 /\ max_height_ l2 = max_height_ l /\ linked cmp l2 (lv_set lv x (S i)) /\
    (forall z j, z <> x -> j <> i -> Node_Next l2 z j = Node_Next l z j) /\
    (forall j, Node_Next l2 x j = if decide (j = i) then Some n else Node_Next l x j).
Proof.
  intros H Hx Hlv Hh Hm Hp Hlt HN Hge Hdup.
  assert (Hpx : p <> x) by (intros ->; lia).
  unfold UnstashHeight in Hh. destruct (nodes l !! x) as [nd |] eqn:End; [| lia].
  destruct (set_private cmp l lv x i n nd H End Hh) as (l1 & E1 & Hs1 & Hm1 & H1 & HN1); [lia |].
  assert (HNp : Node_Next l1 p i = Some n) by (by rewrite HN1, decide_False by (intros []; done)).
  assert (Hstrict : match n with Some m => cmp (key_of l1 x) (key_of l1 m) < 0 | None => True end).
  { destruct n as [m |]; [| done]. rewrite !(same_key l l1) by done.
    destruct (lk_next _ l lv H i p Hp) as (r & Er & Hs). rewrite HN in Er. injection Er as <-.
    destruct (successor_node cmp l lv i p m Hs) as [Hm' _]. pose proof (Hge m eq_refl).
    assert (cmp (key_of l m) (key_of l x) <> 0); [| order_sgn cmp; lia]. intros E0. destruct (decide (i = 0)%nat) as [-> | Hi0].
    - unfold is_duplicate in Hdup. cbn [Nat.eqb andb] in Hdup. apply orb_false_elim in Hdup as [Hdup _].
      apply Z.leb_gt in Hdup. lia.
    - assert (m = x) as ->; [| destruct Hm'; lia].
      apply (lk_distinct _ l lv H); [by apply (on_level_le lv i); [lia |] | split; [done | lia] | done]. }
  destruct (publish cmp l1 lv x p i n H1 Hx Hlv Hp HNp) as (l2 & E2 & Hs2 & Hm2 & H2 & HN2).
  - rewrite (same_key l l1) by done. by apply (node_lt_same cmp l l1).
  - done.
  - rewrite (same_height l l1) by done. unfold UnstashHeight. by rewrite End.
  - lia.
  - rewrite HN1, decide_True by done. done.
  - exists l1, l2. split_and!; try done; [by transitivity l1 | congruence | |].
    + intros z j Hz Hj. rewrite HN2, HN1. by rewrite !decide_False by (intros []; done).
    + intros j. rewrite HN2, decide_False by (intros []; done). rewrite HN1.
      destruct (decide (j = i)) as [-> | Hj]; [by rewrite decide_True | by rewrite decide_False by (intros []; done)].
Qed.

Section Loop.
Context l0 lv x recompute s0 (H0 : linked cmp l0 lv) (Hx : x <> head_) (Hlv : lv x = 0%nat)
  (Hheight : (UnstashHeight l0 x <= max_height_ l0)%nat) (Hs0 : partial_ok l0 lv s0 0)
  (Hb0 : forall j, (j <= height_ s0)%nat -> brackets l0 s0 (key_of l0 x) j)
  (HN0 : forall j, (j < recompute)%nat -> Node_Next l0 (prev_at s0 j) j = Some (next_at s0 j)).

(** The first [i] levels are linked; the splice is still that of the start above them. *)
Record linking l s (i : nat) : Prop := {
  ln_same : same_nodes l0 l;
  ln_max : max_height_ l = max_height_ l0;
  ln_linked : linked cmp l (lv_set lv x i);
  ln_links z j : z <> x -> (i <= j)%nat -> Node_Next l z j = Node_Next l0 z j;
  ln_new j : (j < i)%nat -> Node_Next l x j = Some (next_at s j);
  ln_splice j : (i <= j)%nat -> prev_at s j = prev_at s0 j /\ next_at s j = next_at s0 j;
  ln_sizes : (kMaxHeight_ l0 < length (prev_ s))%nat /\ (kMaxHeight_ l0 < length (splice_next_ s))%nat /\ height_ s = height_ s0;
}.

Lemma linking_start : linking l0 s0 0.
Proof.
  destruct Hs0 as (Hp & Hn & _). split; try done; [| lia].
  apply (linked_ext l0 lv); [| done]. intros y. unfold lv_set. by case_decide; subst.
Qed.

Lemma brackets_same l s key i : same_nodes l0 l -> brackets l0 s key i -> brackets l s key i.
Proof.
  intros Hs [Hl Hg]. split; [by apply (node_lt_same cmp l0 l) |]. intros m Em. rewrite (same_key l0 l) by done. by apply Hg.
Qed.

Lemma linking_neighbours l s i : linking l s i -> (i < UnstashHeight l0 x)%nat ->
  exists p n, (if (recompute <=? i)%nat then
       next ← Node_Next l (prev_at s i) i;
       if bool_decide (next = next_at s i) then Some (prev_at s i, next_at s i)
       else FindSpliceForLevel cmp (search_fuel l) l (key_of l0 x) (prev_at s i) None i
     else Some (prev_at s i, next_at s i)) = Some (p, n) /\
    (i < lv_set lv x i p)%nat /\ node_lt cmp l p (key_of l0 x) /\ Node_Next l p i = Some n /\
    next_ge l n (key_of l0 x) /\
    (p = prev_at s i \/ on_level (lv_set lv x i) i p /\ node_lt cmp l (prev_at s i) (key_of l p)).
Proof.
  intros [Hsame Hmax Hl Hlinks _ Hsp _] Hi. destruct Hs0 as (_ & _ & Hh & _ & _ & Hlev).
  destruct (Hsp i) as [Ep En]; [lia |]. destruct (Hlev i) as [Hplv _]; [lia |].
  assert (prev_at s0 i <> x) by (intros E; rewrite E in Hplv; lia).
  apply neighbours_spec; [done | | |].
  - rewrite Ep. unfold lv_set. by rewrite decide_False.
  - apply brackets_same; [done |]. unfold brackets. rewrite Ep, En. apply Hb0. lia.
  - intros Hr. rewrite Ep, En, Hlinks by done. by apply HN0.
Qed.

Lemma linking_step l s i p n : linking l s i -> (i < UnstashHeight l0 x)%nat ->
  (i < lv_set lv x i p)%nat -> node_lt cmp l p (key_of l0 x) -> Node_Next l p i = Some n -> next_ge l n (key_of l0 x) ->
  is_duplicate cmp l (key_of l0 x) i p n = false ->
  exists l1 l2, Node_SetNext l x i n = Some l1 /\ Node_SetNext l1 p i (Some x) = Some l2 /\
    linking l2 (set_splice s i p n) (S i).
Proof.
  intros [Hsame Hmax Hl Hlinks Hnew Hsp (Hsz1 & Hsz2 & Hsz3)] Hi Hp Hlt HN Hge Hdup.
  assert (Hk : key_of l x = key_of l0 x) by (by apply same_key). pose proof (lk_max _ l0 lv H0).
  destruct (link_level_spec l (lv_set lv x i) x p n i) as (l1 & l2 & E1 & E2 & Hs2 & Hm2 & H2 & Hl2 & Hx2);
    rewrite ?Hk, ?(same_height l0 l) by done; try done; try lia.
  { unfold lv_set. by rewrite decide_True. }
  exists l1, l2. split_and!; [done | done |]. split.
  - by transitivity l.
  - congruence.
  - eapply linked_ext; [| exact H2]. intros y. unfold lv_set. by case_decide.
  - intros z j Hz Hj. rewrite Hl2 by (done || lia). apply Hlinks; [done | lia].
  - intros j Hj. rewrite Hx2, next_set by lia. case_decide; [done |]. apply Hnew. lia.
  - intros j Hj. rewrite prev_set, next_set by lia. rewrite !decide_False by lia. apply Hsp. lia.
  - cbn. by rewrite !length_insert.
Qed.

Lemma link_levels_rest todo l s i : linking l s i -> (0 < i)%nat -> (i + todo)%nat = UnstashHeight l0 x ->
  exists l' s', link_levels cmp todo l (key_of l0 x) x recompute s i = Some (true, l', s') /\
    linking l' s' (UnstashHeight l0 x).
Proof.
  revert l s i. induction todo as [| todo IH]; intros l s i HL Hi Hsum.
  { exists l, s. split; [done |]. by replace (UnstashHeight l0 x) with i by lia. }
  pose proof (ln_sizes l s i HL) as (Hsz1 & Hsz2 & _). pose proof (lk_max _ l0 lv H0).
  destruct (linking_neighbours l s i HL) as (p & n & E & Hp & Hlt & HN & Hge & _); [lia |].
  assert (Hdup : is_duplicate cmp l (key_of l0 x) i p n = false) by (unfold is_duplicate; by destruct i; [lia |]).
  cbn [link_levels]. rewrite prev_lookup, next_lookup by lia. cbn [mbind option_bind]. rewrite E. cbn [mbind option_bind fst snd].
  rewrite Hdup. destruct (linking_step l s i p n HL) as (l1 & l2 & -> & E2 & HL'); [lia | done.. |].
  cbn [mbind option_bind]. rewrite E2. cbn [mbind option_bind]. apply IH; [done | lia | lia].
Qed.

(** Neighbours on level 0 may replace those of the splice. *)
Lemma replace_bottom p n : (0 < lv p)%nat -> node_lt cmp l0 p (key_of l0 x) -> Node_Next l0 p 0 = Some n ->
  next_ge l0 n (key_of l0 x) -> (0 < height_ s0)%nat ->
  (p = prev_at s0 0 \/ on_level lv 0 p /\ node_lt cmp l0 (prev_at s0 0) (key_of l0 p)) ->
  splice_ok l0 lv (set_splice s0 0 p n).
Proof.
  intros Hp Hlt HN Hge Hpos Hpp. apply partial_splice. destruct Hs0 as (Hsz1 & Hsz2 & Hh & Ht1 & Ht2 & Hlev).
  assert (Hat : forall j, j <> 0%nat -> prev_at (set_splice s0 0 p n) j = prev_at s0 j /\
    next_at (set_splice s0 0 p n) j = next_at s0 j).
  { intros j Hj. rewrite prev_set, next_set by lia. by rewrite !decide_False by done. }
  split_and!; cbn; rewrite ?length_insert; try done; [rewrite <- Ht1; apply Hat; lia | rewrite <- Ht2; apply Hat; lia |].
  intros k Hk. destruct k as [| k].
  - destruct (Hat 1%nat) as [E1 E2]; [lia |]. destruct (Hlev 0%nat) as (_ & _ & Hle & _); [lia |].
    apply (level_ok_intro l0 lv _ (key_of l0 x)); rewrite ?E1, ?E2, ?prev_set, ?next_set by lia;
      rewrite ?decide_True by done; try done.
    + destruct Hpp as [-> | [Hpp1 Hpp2]]; [done |]. destruct Hle as [-> | [Hne Hle]]; [by left |].
      right. split; [apply Hpp1 |]. destruct Hpp2 as [Hpp2 | Hpp2]; [by rewrite Hpp2 in Hne |].
      eapply cmp_trans; [exact Hle | lia].
    + intros m Em. destruct (Hb0 1%nat) as [_ Hg1]; [lia |]. split; [| by apply Hg1].
      destruct (decide (1 < height_ s0)%nat) as [Hlt1 |].
      * destruct (Hlev 1%nat) as (_ & Hn1 & _); [lia |]. apply (on_level_le lv 1); [lia |]. by apply Hn1.
      * replace 1%nat with (height_ s0) in Em by lia. by rewrite Ht2 in Em.
  - unfold level_ok. destruct (Hat (S k)) as [-> ->]; [lia |]. destruct (Hat (S (S k))) as [-> ->]; [lia |].
    apply Hlev. cbn in Hk. lia.
Qed.

Lemma duplicate_found p n : (0 < lv p)%nat -> node_lt cmp l0 p (key_of l0 x) -> Node_Next l0 p 0 = Some n ->
  next_ge l0 n (key_of l0 x) -> is_duplicate cmp l0 (key_of l0 x) 0 p n = true ->
  exists y, on_level lv 0 y /\ cmp (key_of l0 y) (key_of l0 x) = 0.
Proof.
  intros Hp Hlt HN Hge Edup. unfold is_duplicate in Edup. cbn [Nat.eqb andb] in Edup. apply orb_prop in Edup as [Ed | Ed].
  - destruct n as [m |]; [| done]. apply Z.leb_le in Ed. pose proof (Hge m eq_refl). exists m. split; [| lia].
    destruct (lk_next _ l0 lv H0 0 p Hp) as (r & Er & Hs). rewrite HN in Er. injection Er as <-.
    by apply successor_node in Hs as [Hs _].
  - apply andb_prop in Ed as [Ed1 Ed2]. apply negb_true_iff, Nat.eqb_neq in Ed1. rewrite Z.geb_leb in Ed2.
    apply Z.leb_le in Ed2. destruct Hlt as [| Hlt]; [done | lia].
Qed.

(** The first level decides whether the key is there. *)
Lemma link_levels_spec : (0 < UnstashHeight l0 x)%nat ->
  exists b l' s', link_levels cmp (UnstashHeight l0 x) l0 (key_of l0 x) x recompute s0 0 = Some (b, l', s') /\
    if b then linking l' s' (UnstashHeight l0 x)
    else l' = l0 /\ splice_ok l0 lv s' /\ exists y, on_level lv 0 y /\ cmp (key_of l0 y) (key_of l0 x) = 0.
Proof.
  intros Hpos. assert (exists todo, UnstashHeight l0 x = S todo) as [todo Eh] by (exists (pred (UnstashHeight l0 x)); lia).
  setoid_rewrite Eh. pose proof (lk_max _ l0 lv H0).
  pose proof (ln_sizes _ _ _ linking_start) as (Hsz1 & Hsz2 & _). pose proof Hs0 as (_ & _ & Hh & _).
  destruct (linking_neighbours l0 s0 0 linking_start) as (p & n & E & Hp & Hlt & HN & Hge & Hpp); [lia |].
  cbn [link_levels]. rewrite prev_lookup, next_lookup by lia. cbn [mbind option_bind]. rewrite E. cbn [mbind option_bind fst snd].
  assert (Hon : forall q, lv_set lv x 0 q = lv q) by (intros q; unfold lv_set; case_decide; congruence).
  unfold on_level in Hpp. rewrite Hon in Hp, Hpp.
  destruct (is_duplicate cmp l0 (key_of l0 x) 0 p n) eqn:Edup.
  - exists false, l0. eexists. split; [done |]. split_and!; [done | | by eapply duplicate_found].
    apply replace_bottom; try done. lia.
  - destruct (linking_step l0 s0 0 p n linking_start) as (l1 & l2 & -> & E2 & HL'); [lia | by rewrite Hon | done.. |].
    cbn [mbind option_bind]. rewrite E2. cbn [mbind option_bind].
    destruct (link_levels_rest todo l2 _ 1 HL') as (l' & s' & -> & HL''); [lia | lia |].
    exists true, l', s'. by rewrite <- Eh.
Qed.

(** The splice after an insertion: the new node is its left side on the levels of the node. *)
Lemma linking_done l s : linking l s (UnstashHeight l0 x) -> (0 < UnstashHeight l0 x)%nat ->
  splice_ok l (lv_set lv x (UnstashHeight l0 x))
    {| height_ := height_ s; prev_ := replicate (UnstashHeight l0 x) x ++ drop (UnstashHeight l0 x) (prev_ s);
       splice_next_ := splice_next_ s |}.
Proof.
  set (h := UnstashHeight l0 x). intros [Hsame Hmax Hl _ Hnew Hsp (Hsz1 & Hsz2 & Hsz3)] Hpos.
  destruct Hs0 as (_ & _ & Hh & Ht1 & Ht2 & Hlev). pose proof (lk_max _ l0 lv H0) as Hm. fold h in Hheight.
  pose proof (fun y => same_key l0 l y Hsame) as Hk. set (s' := Build_Splice _ _ _).
  assert (Hprev : forall j, prev_at s' j = if decide (j < h)%nat then x else prev_at s0 j).
  { intros j. unfold prev_at, s'. cbn. case_decide as Hj.
    - rewrite lookup_app_l, lookup_replicate_2 by (rewrite ?length_replicate; lia). done.
    - rewrite lookup_app_r by (rewrite length_replicate; lia). rewrite length_replicate, lookup_drop.
      replace (h + (j - h))%nat with j by lia. apply Hsp. lia. }
  assert (Hnext : forall j, (h <= j)%nat -> next_at s' j = next_at s0 j) by (intros j Hj; by apply Hsp).
  assert (Hold : forall j y, y <> x -> on_level lv j y -> on_level (lv_set lv x h) j y).
  { intros j y Hy [H1 H2]. split; [done |]. unfold lv_set. by rewrite decide_False. }
  assert (Hxlv : forall j, (j < h)%nat -> (j < lv_set lv x h x)%nat) by (intros j Hj; unfold lv_set; by rewrite decide_True).
  assert (Hup : forall j m, (h <= j)%nat -> (j < height_ s0)%nat -> next_at s0 j = Some m ->
    on_level (lv_set lv x h) j m /\ cmp (key_of l0 x) (key_of l0 m) < 0).
  { intros j m Hj Hj' Em. destruct (Hlev j) as (_ & Hn & _); [lia |]. destruct (Hn m Em) as [Hon _].
    assert (m <> x) by (intros ->; destruct Hon; lia). split; [by apply Hold |].
    destruct (Hb0 j) as [_ Hg]; [lia |]. pose proof (Hg m Em). assert (cmp (key_of l0 m) (key_of l0 x) <> 0); [| order_sgn cmp; lia].
    intros E0. rewrite <- (Hk m), <- (Hk x) in E0. apply (lk_distinct _ l _ Hl m x) in E0; [done | |].
    - apply Hold; [done |]. by apply (on_level_le lv j); [lia |].
    - split; [done | by apply Hxlv]. }
  split; [unfold s'; cbn; rewrite length_app, length_replicate, length_drop, (proj1 Hsame); lia
         | unfold s'; cbn; rewrite (proj1 Hsame); lia | unfold s'; cbn; lia | |].
  { unfold s' at 1 3 5; cbn. intros _. rewrite Hsz3, Hprev, Hnext, decide_False by lia. done. }
  unfold s' at 1; cbn. rewrite Hsz3. intros i Hi. unfold level_ok. rewrite !Hprev. case_decide as Hih.
  - destruct (lk_next _ l _ Hl i x (Hxlv i Hih)) as (r & Er & Hs). rewrite Hnew in Er by done. injection Er as <-.
    change (next_at s i) with (next_at s' i) in *. split_and!; [by apply Hxlv | | |].
    + intros m Em. rewrite Em in Hs. by apply successor_node.
    + case_decide as HSi; [right; split; [done |]; by rewrite cmp_refl |].
      destruct (Hb0 (S i)) as [[Hlt | Hlt] _]; [lia | by left | right; split; [done |]]. rewrite !Hk. lia.
    + intros m' Em'. assert (Hm' : on_level (lv_set lv x h) i m' /\ node_lt cmp l x (key_of l m')).
      { destruct (decide (S i < h)%nat) as [HSi | HSi].
        - destruct (lk_next _ l _ Hl (S i) x (Hxlv _ HSi)) as (r & Er & Hs'). rewrite Hnew in Er by done. injection Er as <-.
          change (next_at s (S i)) with (next_at s' (S i)) in Hs'. rewrite Em' in Hs'. apply successor_node in Hs' as [Ho Hlt].
          split; [| done]. by apply (on_level_le _ (S i)); [lia |].
        - rewrite Hnext in Em' by lia. destruct (decide (S i = height_ s0)) as [E |]; [by rewrite E, Ht2 in Em' |].
          destruct (Hup (S i) m') as [Ho Hlt]; [lia | lia | done |]. split; [by apply (on_level_le _ (S i)); [lia |] |].
          right. by rewrite !Hk. }
      destruct Hm' as [Ho Hlt]. destruct (next_at s' i) as [m |]; [| by destruct (Hs m')]. exists m. split; [done |].
      by apply Hs.
  - rewrite decide_False, !Hnext by lia. destruct (Hlev i) as (H1 & H2 & H3 & H4); [lia |].
    assert (prev_at s0 i <> x) by (intros E; rewrite E in H1; lia). split_and!.
    + unfold lv_set. by rewrite decide_False.
    + intros m Em. destruct (Hup i m) as [Ho Hlt]; [lia | lia | done |]. split; [done |]. rewrite Hk.
      apply (node_lt_same cmp l0 l); [done |]. by apply H2.
    + unfold node_le in *. by rewrite !Hk.
    + intros m' Em'. destruct (H4 m' Em') as (m & Em & Hle). exists m. by rewrite !Hk.
Qed.
End Loop.

(** * Insertion of a node *)

Lemma linked_raise l lv h : linked cmp l lv -> (h <= kMaxHeight_ l)%nat ->
  linked cmp (set_max_height l (Nat.max (max_height_ l) h)) lv.
Proof.
  intros H Hh. destruct H as [H1 H2 H3 H4 H5 H6]. split; try done; cbn; [lia |].
  intros y Hy. specialize (H4 y Hy). lia.
Qed.

(** Splices stay valid when the list grows. *)
Lemma splice_grows l l' lv lv' s : same_nodes l l' -> (forall y, lv y <= lv' y)%nat -> (max_height_ l <= max_height_ l')%nat ->
  splice_ok l lv s -> splice_ok l' lv' s.
Proof.
  intros Hs Hlv Hm [H1 H2 H3 H4 H5]. pose proof (fun y => same_key l l' y Hs) as Hk.
  split; [by rewrite (proj1 Hs) | by rewrite (proj1 Hs) | lia | done |].
  intros i Hi. destruct (H5 i Hi) as (Ha & Hb & Hc & Hd). split_and!.
  - specialize (Hlv (prev_at s i)). lia.
  - intros m Em. destruct (Hb m Em) as [[Hm1 Hm2] Hlt]. rewrite Hk. split; [split; [done |]; specialize (Hlv m); lia |].
    by apply (node_lt_same cmp l l').
  - unfold node_le in *. by rewrite !Hk.
  - intros m' Em'. destruct (Hd m' Em') as (m & Em & Hle). exists m. by rewrite !Hk.
Qed.

(** [lv'] says what the insertion of [x] has linked: nothing if the key was there. *)
Definition inserted l lv x (b : bool) lv' : Prop :=
  if b then (forall y, on_level lv 0 y -> cmp (key_of l y) (key_of l x) <> 0) /\ lv' = lv_set lv x (UnstashHeight l x)
  else (exists y, on_level lv 0 y /\ cmp (key_of l y) (key_of l x) = 0) /\ lv' = lv.

Lemma inserted_grows l lv x b lv' : lv x = 0%nat -> inserted l lv x b lv' -> forall y, (lv y <= lv' y)%nat.
Proof.
  intros Hx. destruct b; intros [_ ->] y; [| done]. unfold lv_set. case_decide; subst; lia.
Qed.

Lemma Insert_node_spec l lv x s allow : linked cmp l lv -> splice_ok l lv s -> x <> head_ -> lv x = 0%nat ->
  (0 < UnstashHeight l x <= kMaxHeight_ l)%nat ->
  exists b l' s' lv', Insert_node cmp l x s allow = Some (b, l', s') /\ inserted l lv x b lv' /\
    linked cmp l' lv' /\ splice_ok l' lv' s' /\ same_nodes l l' /\
    max_height_ l' = Nat.max (max_height_ l) (UnstashHeight l x).
Proof.
  intros H Hs Hx Hlv Hh. unfold Insert_node. set (l0 := set_max_height l _).
  pose proof (linked_raise l lv (UnstashHeight l x) H ltac:(lia)) as H0. fold l0 in H0.
  assert (Hsame : same_nodes l l0) by done.
  assert (Hmh : max_height_ l0 = Nat.max (max_height_ l) (UnstashHeight l0 x)) by reflexivity.
  change (key_of l x) with (key_of l0 x). change (UnstashHeight l x) with (UnstashHeight l0 x) in Hh |- *.
  assert (Hs0 : splice_ok l0 lv s) by (apply (splice_grows l l0 lv lv); [done | lia | unfold l0; cbn; lia | done]).
  destruct (prepare_splice_spec l0 lv (key_of l0 x) s allow H0 Hs0) as (r & s1 & -> & Hok & Hb & HN).
  cbn [mbind option_bind fst snd].
  destruct (link_levels_spec l0 lv x r s1) as (b & l' & s' & -> & Hres); try done; [lia | lia |].
  cbn [mbind option_bind]. destruct b.
  - exists true, l'. eexists. exists (lv_set lv x (UnstashHeight l x)). split; [done |].
    pose proof (linking_done l0 lv x s1 H0 Hx Hlv ltac:(lia) Hok Hb l' s' Hres ltac:(lia)) as Hsp.
    destruct Hres as [Hr1 Hr2 Hr3 _ _ _ _]. split_and!; [| done | done | by transitivity l0 | by rewrite Hr2].
    split; [| done]. intros y Hy E0.
    assert (y <> x) as Hyx by (intros ->; destruct Hy; lia). apply Hyx, (lk_distinct _ l' _ Hr3).
    + destruct Hy. split; [done |]. unfold lv_set. by rewrite decide_False.
    + split; [done |]. unfold lv_set. rewrite decide_True by done. lia.
    + by rewrite !(same_key l0 l').
  - destruct Hres as (-> & Hsp & Hdup). exists false, l0, s', lv. split_and!; try done.
Qed.

(** * Allocation *)

(** The addresses of the nodes are those below the number of nodes. *)
Definition compact l : Prop := forall y, is_Some (nodes l !! y) <-> (y < size (nodes l))%nat.

Lemma fresh_node l : compact l -> nodes l !! size (nodes l) = None.
Proof. intros Hc. apply eq_None_not_Some. rewrite (Hc _). lia. Qed.

Section Allocate.
Context l lv key (h : nat) (H : linked cmp l lv) (Hc : compact l).
Definition allocated : InlineSkipList := (AllocateNode l key h).2.
Definition new_node : nat := (AllocateNode l key h).1.

Lemma allocated_lookup y : nodes allocated !! y =
  if decide (y = new_node) then Some {| Key := key; next_ := replicate h None |} else nodes l !! y.
Proof.
  unfold allocated, new_node. cbn. case_decide as E; [subst; by rewrite lookup_insert_eq | by rewrite lookup_insert_ne].
Qed.
Lemma new_unlinked : lv new_node = 0%nat /\ new_node <> head_.
Proof.
  pose proof (fresh_node l Hc) as Hf. split.
  - destruct (lv new_node) as [| k] eqn:E; [done |]. destruct (lk_node _ l lv H new_node) as (nd & Hnd & _); [lia |].
    unfold new_node in Hnd. cbn in Hnd. congruence.
  - pose proof (lk_max _ l lv H). destruct (lk_node _ l lv H head_) as (nd & Hnd & _).
    { rewrite (lk_head _ l lv H). lia. }
    intros E. unfold new_node in E. cbn in E. rewrite E in Hf. congruence.
Qed.
Lemma allocated_key y : (0 < lv y)%nat -> key_of allocated y = key_of l y.
Proof.
  intros Hy. unfold key_of. rewrite allocated_lookup, decide_False; [done |].
  intros ->. destruct new_unlinked. lia.
Qed.
Lemma new_key : key_of allocated new_node = key /\ UnstashHeight allocated new_node = h.
Proof.
  unfold key_of, UnstashHeight. rewrite allocated_lookup, decide_True by done. cbn. by rewrite length_replicate.
Qed.
Lemma allocated_node_lt x k : (0 < lv x)%nat -> node_lt cmp allocated x k <-> node_lt cmp l x k.
Proof. intros Hx. unfold node_lt. by rewrite allocated_key. Qed.

Lemma allocated_linked : linked cmp allocated lv.
Proof.
  pose proof new_unlinked as [Hn0 Hnh]. destruct H as [H1 H2 H3 H4 H5 H6]. split; try done.
  - intros y Hy. rewrite allocated_lookup, decide_False by (intros ->; lia). by apply H3.
  - intros y z Hy Hz. rewrite !allocated_key by (apply Hy || apply Hz). by apply H5.
  - intros i x Hx. destruct (H6 i x Hx) as (r & Er & Hs). exists r. split.
    + unfold Node_Next. rewrite allocated_lookup, decide_False by (intros ->; lia). done.
    + unfold successor in *. destruct r as [y |].
      * destruct Hs as (Hy & Hlt & Hs). assert (0 < lv y)%nat by (destruct Hy; lia). rewrite allocated_key by done.
        split_and!; [done | by apply allocated_node_lt; [lia |] |]. intros z Hz Hxz. assert (0 < lv z)%nat by (destruct Hz; lia).
        rewrite allocated_key in * by done. apply Hs; [done |]. by apply allocated_node_lt; [lia |].
      * intros z Hz Hxz. assert (0 < lv z)%nat by (destruct Hz; lia). rewrite allocated_key in Hxz by done.
        apply (Hs z Hz). by apply allocated_node_lt; [lia |].
Qed.
Lemma allocated_splice s : splice_ok l lv s -> splice_ok allocated lv s.
Proof.
  intros [H1 H2 H3 H4 H5]. split; try done. intros i Hi. destruct (H5 i Hi) as (Ha & Hb & Hc' & Hd).
  assert (Hpi : (0 < lv (prev_at s i))%nat) by lia.
  assert (HSi : (0 < lv (prev_at s (S i)))%nat).
  { destruct (decide (S i = height_ s)) as [E |]; [| destruct (H5 (S i)) as [? _]; lia].
    rewrite E. destruct H4 as [-> _]; [lia |]. rewrite (lk_head _ l lv H). pose proof (lk_max _ l lv H). lia. }
  split_and!; [done | | |].
  - intros m Em. destruct (Hb m Em) as [Hm Hlt]. assert (0 < lv m)%nat by (destruct Hm; lia). rewrite allocated_key by done.
    split; [done |]. by apply allocated_node_lt.
  - unfold node_le in *. by rewrite !allocated_key.
  - intros m' Em'. destruct (Hd m' Em') as (m & Em & Hle). exists m. split; [done |].
    destruct (Hb m Em) as [[_ Hm] _]. rewrite !allocated_key; [done | | lia].
    destruct (decide (S i = height_ s)) as [E |]; [destruct H4 as [_ H4']; [lia |]; by rewrite E, H4' in Em' |].
    destruct (H5 (S i)) as (_ & Hb' & _); [lia |]. destruct (Hb' m' Em') as [[_ ?] _]. lia.
Qed.
Lemma allocated_compact : compact allocated.
Proof.
  intros y. unfold allocated. cbn. rewrite map_size_insert_None by (by apply fresh_node).
  destruct (decide (y = size (nodes l))) as [-> | Hne].
  - rewrite lookup_insert_eq. split; [lia | by eexists].
  - rewrite lookup_insert_ne by done. rewrite (Hc y). lia.
Qed.
End Allocate.

Lemma same_compact l l' : same_nodes l l' -> compact l -> compact l'.
Proof.
  intros Hs Hc y. rewrite (same_size l l' Hs), <- (Hc y). destruct Hs as [_ Hs]. specialize (Hs y).
  destruct (nodes l !! y), (nodes l' !! y); try done; split; intros []; eauto; done.
Qed.
End Insert.
