(* ===== verification/SkipListTheorems.v ===== *)
(** The skip list implements a sorted set of keys, and its iterator a cursor over it:
    for every sequence of insertions, with the splice of the list or with hints. *)

From stdpp Require Import gmap sorting.
From S2P Require Import Prelude Comparator Status Cursor SkipList SkipListProofs SkipListInsert.

Section Contents.
Context (cmp : bytes -> bytes -> Z) {KO : KeyOrder cmp}.
Implicit Types (l : InlineSkipList) (x y z : nat) (r : option nat) (lv : nat -> nat) (key : bytes).

(** * The contents *)

Definition list_nodes l : list nat :=
  match Node_Next l head_ 0 with Some it => nodes_from (size (nodes l)) l it | None => [] end.
Definition list_keys l : list bytes := map (key_of l) (list_nodes l).

Definition key_sorted l (ns : list nat) : Prop := StronglySorted (fun a b => cmp (key_of l a) (key_of l b) < 0) ns.

Lemma nodes_from_spec l lv fuel x : linked cmp l lv -> on_level lv 0 x -> (rank cmp l lv x < fuel)%nat ->
  key_sorted l (nodes_from fuel l (Some x)) /\
  (forall y, y ∈ nodes_from fuel l (Some x) <-> on_level lv 0 y /\ cmp (key_of l x) (key_of l y) <= 0) /\
  (forall i n, nodes_from fuel l (Some x) !! i = Some n ->
    Node_Next l n 0 = Some (nodes_from fuel l (Some x) !! S i)).
Proof.
  intros H. revert x. induction fuel as [| fuel IH]; intros x Hx Hf; [lia |].
  cbn [nodes_from]. unfold Iterator_Next. destruct (lk_next _ l lv H 0 x) as (r & Er & Hs); [apply Hx |]. rewrite Er.
  assert (Hself : forall y, on_level lv 0 y -> cmp (key_of l x) (key_of l y) <= 0 -> y = x \/ node_lt cmp l x (key_of l y)).
  { intros y Hy Hle. destruct (decide (cmp (key_of l x) (key_of l y) = 0)) as [E |]; [left | right; right; lia].
    symmetry. by apply (lk_distinct _ l lv H). }
  destruct r as [n |].
  - destruct (successor_node cmp l lv 0 x n Hs) as [Hn Hxn].
    assert (cmp (key_of l x) (key_of l n) < 0) as Hlt by (destruct Hxn as [-> | ?]; [by destruct Hx | done]).
    destruct (IH n Hn) as (Hsort & Hmem & Hnext); [pose proof (rank_lt cmp l lv 0 x n H Hn Hxn); lia |]. split_and!.
    + constructor; [done |]. apply list.Forall_forall. intros y Hy. apply Hmem in Hy as [_ Hy]. by eapply cmp_lt_le_trans.
    + intros y. rewrite elem_of_cons, Hmem. split.
      * intros [-> | [Hy Hle]]; [split; [done | by rewrite cmp_refl] | split; [done |]]. eapply cmp_trans; [| exact Hle]. lia.
      * intros [Hy Hle]. destruct (Hself y Hy Hle) as [-> | Hxy]; [by left | right; split; [done |]]. by apply Hs.
    + intros [| i] m Hm; cbn in Hm |- *; [| by apply Hnext]. injection Hm as <-. rewrite Er. f_equal.
      destruct fuel; [pose proof (rank_lt cmp l lv 0 x n H Hn Hxn); lia | done].
  - destruct fuel as [| fuel]; cbn.
    all: split_and!; [repeat constructor | | intros [| i] m Hm; [injection Hm as <-; by rewrite Er | done]].
    all: intros y; rewrite list_elem_of_singleton; split;
      [intros ->; split; [done | by rewrite cmp_refl] | intros [Hy Hle]; destruct (Hself y Hy Hle) as [| Hxy]; [done |]; by destruct (Hs y)].
Qed.

Lemma list_nodes_spec l lv : linked cmp l lv ->
  key_sorted l (list_nodes l) /\ (forall y, y ∈ list_nodes l <-> on_level lv 0 y) /\
  (forall i n, list_nodes l !! i = Some n -> Node_Next l n 0 = Some (list_nodes l !! S i)) /\
  Node_Next l head_ 0 = Some (list_nodes l !! 0%nat).
Proof.
  intros H. pose proof (lk_max _ l lv H) as Hmax. unfold list_nodes.
  destruct (lk_next _ l lv H 0 head_) as (r & -> & Hs); [apply (head_on cmp l); [done | lia] |]. destruct r as [n |].
  - destruct (successor_node cmp l lv 0 head_ n Hs) as [Hn Hlt].
    pose proof (rank_size cmp l lv n H) as Hrank. destruct (nodes_from_spec l lv (size (nodes l)) n H Hn Hrank) as (H1 & H2 & H3).
    split_and!; try done.
    + intros y. rewrite H2. split; [tauto |]. intros Hy. split; [done |]. apply Hs; [done | by left].
    + by destruct (size (nodes l)); [lia |].
  - assert (nodes_from (size (nodes l)) l None = []) as -> by (by destruct (size (nodes l))). split_and!; [constructor | | done | done].
    intros y. split; [by intros ?%not_elem_of_nil |]. intros Hy. destruct (Hs y Hy). by left.
Qed.

Lemma list_nodes_NoDup l lv : linked cmp l lv -> NoDup (list_nodes l).
Proof.
  intros H. destruct (list_nodes_spec l lv H) as (Hs & _). induction Hs as [| x ns Hs IH Hall]; constructor; [| done].
  intros Hx. rewrite list.Forall_forall in Hall. pose proof (Hall x Hx) as Hlt.
  pose proof (cmp_refl (cmp := cmp) (key_of l x)). lia.
Qed.
Lemma list_nodes_length l lv : linked cmp l lv -> (length (list_nodes l) < size (nodes l))%nat.
Proof.
  intros H. pose proof (list_nodes_NoDup l lv H) as Hnd. destruct (list_nodes_spec l lv H) as (_ & Hmem & _).
  rewrite <- (size_list_to_set (C := gset nat) (list_nodes l)) by done. rewrite <- size_dom. apply subset_size. split.
  - intros y Hy. apply elem_of_list_to_set, Hmem in Hy as [_ Hy]. destruct (lk_node _ l lv H y Hy) as (nd & E & _).
    apply elem_of_dom. eauto.
  - intros Hsub. pose proof (lk_max _ l lv H). destruct (lk_node _ l lv H head_) as (nd & E & _).
    { rewrite (lk_head _ l lv H). lia. }
    specialize (Hsub head_ (proj2 (elem_of_dom _ _) (ex_intro _ nd E))). apply elem_of_list_to_set, Hmem in Hsub as [? _]. done.
Qed.

(** * Positions *)

Section Positions.
Context l lv (H : linked cmp l lv).
Abbreviation ns := (list_nodes l).
Abbreviation keys := (list_keys l).

Lemma keys_lookup i n : ns !! i = Some n -> keys !! i = Some (key_of l n).
Proof. intros E. unfold list_keys. by rewrite list_lookup_fmap, E. Qed.
Lemma keys_lookup_inv i k : keys !! i = Some k -> exists n, ns !! i = Some n /\ k = key_of l n.
Proof. unfold list_keys. rewrite list_lookup_fmap. destruct (ns !! i) as [n |]; [| done]. cbn. intros [= <-]. eauto. Qed.
Lemma keys_lt i j n m : (i < j)%nat -> ns !! i = Some n -> ns !! j = Some m -> cmp (key_of l n) (key_of l m) < 0.
Proof. intros Hij Hn Hm. by apply (StronglySorted_lookup_lt _ ns i j n m (proj1 (list_nodes_spec l lv H))). Qed.
Lemma node_index y : on_level lv 0 y -> exists i, ns !! i = Some y.
Proof. intros Hy. apply list_elem_of_lookup. by apply (list_nodes_spec l lv H). Qed.
Lemma index_node i y : ns !! i = Some y -> on_level lv 0 y.
Proof. intros E. apply (list_nodes_spec l lv H). apply list_elem_of_lookup. eauto. Qed.

Lemma first_ge_index t r : first_ge cmp l lv t r -> r = ns !! first_index (fun k => 0 <=? cmp k t) keys.
Proof.
  destruct r as [y |]; cbn; intros Hr.
  - destruct Hr as (Hy & Hge & Hmin). destruct (node_index y Hy) as [i Ei].
    rewrite (first_index_unique _ keys i); [done | | |].
    + apply lookup_lt_Some in Ei. unfold list_keys. rewrite length_map. lia.
    + intros j k Hj Hk. apply keys_lookup_inv in Hk as (n & En & ->). apply Z.leb_gt.
      pose proof (keys_lt j i n y Hj En Ei). apply Z.lt_nge. intros Hn.
      pose proof (Hmin n (index_node j n En) Hn). order_sgn cmp. lia.
    + intros k Hk. rewrite (keys_lookup i y Ei) in Hk. injection Hk as <-. by apply Z.leb_le.
  - rewrite (first_index_unique _ keys (length keys)); [| done | |].
    + symmetry. apply lookup_ge_None. unfold list_keys. by rewrite length_map.
    + intros j k _ Hk. apply keys_lookup_inv in Hk as (n & En & ->). apply Z.leb_gt. apply Hr. by apply (index_node j).
    + intros k Hk. apply lookup_lt_Some in Hk. lia.
Qed.

(** The node before the first that is not before [t]. *)
Lemma last_lt_index t x : last_lt cmp l lv t x ->
  (if (x =? head_)%nat then None else Some x) =
  match first_index (fun k => 0 <=? cmp k t) keys with O => None | S i => ns !! i end.
Proof.
  intros (Hx & Hlt & Hmax). destruct (Nat.eqb_spec x head_) as [-> | Hne].
  - rewrite (first_index_unique _ keys 0); [done | lia | lia |]. intros k Hk.
    apply keys_lookup_inv in Hk as (n & En & ->). apply Z.leb_le, Z.nlt_ge. intros Hn.
    by destruct (Hmax n (index_node _ n En) Hn).
  - destruct (node_index x) as [i Ei]; [done |]. destruct Hlt as [| Hlt]; [done |].
    rewrite (first_index_unique _ keys (S i)); [done | | |].
    + apply lookup_lt_Some in Ei. unfold list_keys. rewrite length_map. lia.
    + intros j k Hj Hk. apply keys_lookup_inv in Hk as (n & En & ->). apply Z.leb_gt.
      destruct (decide (j = i)) as [-> |]; [congruence |].
      pose proof (keys_lt j i n x ltac:(lia) En Ei). eapply cmp_lt_le_trans; [done | lia].
    + intros k Hk. apply keys_lookup_inv in Hk as (n & En & ->). apply Z.leb_le, Z.nlt_ge. intros Hn.
      destruct (Hmax n (index_node _ n En) Hn) as [_ Hle]. pose proof (keys_lt i (S i) x n ltac:(lia) Ei En). order_sgn cmp. lia.
Qed.
Lemma last_node_index x : last_node cmp l lv x -> (if (x =? head_)%nat then None else Some x) = ns !! (length ns - 1)%nat.
Proof.
  intros (Hx & Hmax). destruct (Nat.eqb_spec x head_) as [-> | Hne].
  - destruct ns as [| n ns'] eqn:E; [done |]. destruct (Hmax n); [| done]. apply (index_node 0). by rewrite E.
  - destruct (node_index x) as [i Ei]; [done |]. pose proof (lookup_lt_Some _ _ _ Ei) as Hi.
    destruct (decide (i = length ns - 1)%nat) as [-> | Hni]; [congruence |].
    destruct (lookup_lt_is_Some_2 ns (S i)) as [n En]; [lia |]. destruct (Hmax n (index_node _ n En)) as [_ Hle].
    pose proof (keys_lt i (S i) x n ltac:(lia) Ei En). order_sgn cmp. lia.
Qed.

(** * The iterator *)

Definition shows (it : Iterator) (o : option nat) : Prop :=
  match o with Some i => exists n, ns !! i = Some n /\ it = Some n | None => it = None end.

Lemma keys_length : length keys = length ns.
Proof. apply length_map. Qed.
Lemma shows_lookup i : shows (ns !! i) (clip (length keys) i).
Proof.
  unfold clip, shows. rewrite keys_length. case_decide as Hi.
  - destruct (lookup_lt_is_Some_2 ns i Hi) as [n ->]. eauto.
  - apply lookup_ge_None. lia.
Qed.
Lemma shows_before i : shows (match i with O => None | S j => ns !! j end) (if decide (i = 0)%nat then None else Some (i - 1)%nat)
  \/ (length ns < i)%nat.
Proof.
  destruct i as [| j]; [by left |]. rewrite decide_False by done. destruct (ns !! j) as [n |] eqn:E.
  - left. exists n. by replace (S j - 1)%nat with j by lia.
  - right. apply lookup_ge_None in E. lia.
Qed.

Lemma Seek_shows t : exists it, Iterator_Seek cmp l t = Some it /\
  it = ns !! first_index (fun k => 0 <=? cmp k t) keys.
Proof.
  unfold Iterator_Seek. destruct (FindGreaterOrEqual_spec cmp l lv t false H) as (r & -> & Hr). cbn.
  eexists. split; [done |]. by apply first_ge_index.
Qed.
Lemma Iterator_Prev_shows i n : ns !! i = Some n ->
  exists it, Iterator_Prev cmp l n = Some it /\ shows it (if decide (i = 0)%nat then None else Some (i - 1)%nat).
Proof.
  intros En. unfold Iterator_Prev. destruct (FindLessThan_spec cmp l lv (key_of l n) false H) as (x & -> & Hx). cbn.
  eexists. split; [done |]. rewrite (last_lt_index _ x Hx), (first_index_unique _ keys i).
  - destruct (shows_before i) as [| Hi]; [done |]. apply lookup_lt_Some in En. lia.
  - rewrite keys_length. apply lookup_lt_Some in En. lia.
  - intros j k Hj Hk. apply keys_lookup_inv in Hk as (m & Em & ->). apply Z.leb_gt. by apply (keys_lt j i).
  - intros k Hk. rewrite (keys_lookup i n En) in Hk. injection Hk as <-. by rewrite cmp_refl.
Qed.
Lemma Iterator_SeekToLast_shows : exists it, Iterator_SeekToLast l = Some it /\ it = ns !! (length ns - 1)%nat.
Proof.
  unfold Iterator_SeekToLast. destruct (FindLast_spec cmp l lv H) as (x & -> & Hx). cbn. eexists. split; [done |].
  by apply last_node_index.
Qed.

(** The last key that is not after [t], from a position whose successors are all after [t]. *)
Lemma Iterator_SeekForPrev_loop_shows t fuel it o : shows it o -> (match o with Some i => S i | None => 0 end < fuel)%nat ->
  (forall j n, (match o with Some i => i < j | None => True end)%nat -> ns !! j = Some n -> 0 < cmp (key_of l n) t) ->
  exists it', SeekForPrev_loop cmp fuel l t it = Some it' /\
    shows it' (let i := first_index (fun k => 0 <? cmp k t) keys in if decide (i = 0)%nat then None else Some (i - 1)%nat).
Proof.
  revert it o. induction fuel as [| fuel IH]; intros it o Hsh Hf Hafter; [lia |]. cbn [SeekForPrev_loop].
  destruct o as [i |].
  - destruct Hsh as (n & En & ->). pose proof (lookup_lt_Some _ _ _ En) as Hi.
    destruct (Z.ltb_spec (cmp t (key_of l n)) 0) as [Hlt | Hge].
    + destruct (Iterator_Prev_shows i n En) as (it' & -> & Hsh). cbn [mbind option_bind]. apply (IH it' _ Hsh).
      * case_decide; lia.
      * intros j m Hj Em. destruct (decide (j = i)) as [-> | Hne].
        -- rewrite En in Em. injection Em as <-. order_sgn cmp. lia.
        -- apply (Hafter j); [| done]. destruct (decide (i = 0)%nat); lia.
    + eexists. split; [done |]. rewrite (first_index_unique _ keys (S i)).
      * cbv zeta. rewrite decide_False by lia. exists n. by replace (S i - 1)%nat with i by lia.
      * rewrite keys_length. lia.
      * intros j k Hj Hk. apply keys_lookup_inv in Hk as (m & Em & ->). apply Z.ltb_ge.
        destruct (decide (j = i)) as [-> |]; [rewrite En in Em; injection Em as <-; order_sgn cmp; lia |].
        pose proof (keys_lt j i m n ltac:(lia) Em En). apply (cmp_trans _ (key_of l n)); order_sgn cmp; lia.
      * intros k Hk. apply keys_lookup_inv in Hk as (m & Em & ->). apply Z.ltb_lt, (Hafter (S i)); [lia | done].
  - cbn in Hsh. subst it. eexists. split; [done |]. rewrite (first_index_unique _ keys 0); [done | lia | lia |].
    intros k Hk. apply keys_lookup_inv in Hk as (m & Em & ->). by apply Z.ltb_lt, (Hafter 0%nat).
Qed.
Lemma SeekForPrev_shows t : exists it, Iterator_SeekForPrev cmp l t = Some it /\
  shows it (let i := first_index (fun k => 0 <? cmp k t) keys in if decide (i = 0)%nat then None else Some (i - 1)%nat).
Proof.
  unfold Iterator_SeekForPrev. destruct (FindGreaterOrEqual_spec cmp l lv t false H) as (r & Er & Hr).
  unfold Iterator_Seek. rewrite Er. cbn [mbind option_bind fst].
  pose proof (list_nodes_length l lv H). pose proof (lk_max _ l lv H). destruct r as [y |].
  - cbn [mbind option_bind]. destruct Hr as (Hy & Hge & Hmin). destruct (node_index y Hy) as [i Ei].
    apply (Iterator_SeekForPrev_loop_shows t _ _ (Some i)); [by exists y | apply lookup_lt_Some in Ei; unfold search_fuel; lia |].
    intros j n Hj En. pose proof (keys_lt i j y n Hj Ei En) as Hlt.
    pose proof (cmp_le_lt_trans (cmp := cmp) t (key_of l y) (key_of l n)). order_sgn cmp. lia.
  - destruct Iterator_SeekToLast_shows as (it & -> & ->). cbn [mbind option_bind].
    pose proof (shows_lookup (length ns - 1)) as Hsh. unfold clip in Hsh. rewrite keys_length in Hsh.
    apply (Iterator_SeekForPrev_loop_shows t _ _ _ Hsh); [case_decide; unfold search_fuel; lia |].
    intros j n Hj En. pose proof (lookup_lt_Some _ _ _ En). case_decide; lia.
Qed.

Lemma Iterator_op_refines it o op o' : shows it o -> cursor_op cmp keys o op = Some o' ->
  exists it', Iterator_op cmp l it op = Some it' /\ shows it' o'.
Proof.
  destruct (list_nodes_spec l lv H) as (_ & _ & Hnext & Hfirst).
  intros Hsh Ho. destruct op as [| | | | t | t]; [| | destruct o as [i |]; [| done].. | |]; injection Ho as <-; cbn [Iterator_op].
  - unfold Iterator_SeekToFirst. rewrite Hfirst. eexists. split; [done | apply shows_lookup].
  - destruct Iterator_SeekToLast_shows as (it' & -> & ->). eexists. split; [done |]. rewrite <- keys_length. apply shows_lookup.
  - destruct Hsh as (n & En & ->). unfold Iterator_Next. rewrite (Hnext i n En). eexists. split; [done | apply shows_lookup].
  - destruct Hsh as (n & En & ->). by apply Iterator_Prev_shows.
  - destruct (Seek_shows t) as (it' & -> & ->). eexists. split; [done | apply shows_lookup].
  - apply SeekForPrev_shows.
Qed.

(** The variants that validate find no error and do the same. *)
Lemma validate_agrees it : (forall n, it = Some n -> on_level lv 0 n) ->
  (forall n, it = Some n -> Iterator_NextAndValidate cmp l n = option_map (pair Status_OK) (Iterator_Next l n) /\
                            Iterator_PrevAndValidate cmp l n = option_map (pair Status_OK) (Iterator_Prev cmp l n)) /\
  forall t, Iterator_SeekAndValidate cmp l t = option_map (pair Status_OK) (Iterator_Seek cmp l t).
Proof.
  intros Hit. split; [intros n En; split |].
  - unfold Iterator_NextAndValidate, Iterator_Next. destruct (lk_next _ l lv H 0 n) as (r & -> & Hs); [by apply Hit |].
    cbn. by rewrite (in_order cmp l lv 0 n r true Hs).
  - unfold Iterator_PrevAndValidate, Iterator_Prev.
    destruct (FindLessThan_spec cmp l lv (key_of l n) true H) as (x & -> & Hx).
    destruct (FindLessThan_spec cmp l lv (key_of l n) false H) as (x' & -> & Hx'). cbn.
    by rewrite (last_lt_index _ x Hx), (last_lt_index _ x' Hx').
  - intros t. unfold Iterator_SeekAndValidate, Iterator_Seek.
    destruct (FindGreaterOrEqual_spec cmp l lv t true H) as (r & -> & Hr).
    destruct (FindGreaterOrEqual_spec cmp l lv t false H) as (r' & -> & Hr'). cbn.
    by rewrite (first_ge_index _ r Hr), (first_ge_index _ r' Hr').
Qed.
End Positions.

(** * Insertion into a sorted set *)

Fixpoint insert_in_order key (ks : list bytes) : list bytes :=
  match ks with
  | [] => [key]
  | k :: ks' => if cmp key k <? 0 then key :: ks else k :: insert_in_order key ks'
  end.
(** The abstract insertion: a key that is there is refused. *)
Definition set_insert (ks : list bytes) key : bool * list bytes :=
  if existsb (fun k => cmp k key =? 0) ks then (false, ks) else (true, insert_in_order key ks).

Lemma insert_in_order_Permutation key ks : insert_in_order key ks ≡ₚ key :: ks.
Proof.
  induction ks as [| k ks IH]; cbn [insert_in_order]; [done |]. destruct (cmp key k <? 0); [done |].
  rewrite IH. apply Permutation_swap.
Qed.
Lemma insert_in_order_sorted key ks : Forall (fun k => cmp k key <> 0) ks -> StronglySorted (fun a b => cmp a b < 0) ks ->
  StronglySorted (fun a b => cmp a b < 0) (insert_in_order key ks).
Proof.
  intros He. induction 1 as [| k ks Hs IH Hf]; cbn [insert_in_order]; [repeat constructor |].
  apply list.Forall_cons in He as [He1 He]. cbn beta in He1. order_sgn cmp. destruct (Z.ltb_spec (cmp key k) 0).
  - constructor; [by constructor |]. constructor; [done |]. eapply list.Forall_impl; [apply Hf |].
    intros y Hy. cbn beta in Hy. apply (cmp_lt_le_trans key k y); lia.
  - constructor; [by apply IH |]. rewrite insert_in_order_Permutation. constructor; [lia | done].
Qed.

Lemma list_keys_sorted l lv : linked cmp l lv -> StronglySorted (fun a b => cmp a b < 0) (list_keys l).
Proof.
  intros H. destruct (list_nodes_spec l lv H) as (Hs & _). unfold list_keys.
  induction Hs as [| x ns Hs IH Hf]; cbn; constructor; [done |]. by apply Forall_map.
Qed.
Lemma list_keys_elem l lv k : linked cmp l lv -> k ∈ list_keys l <-> exists y, on_level lv 0 y /\ k = key_of l y.
Proof.
  intros H. destruct (list_nodes_spec l lv H) as (_ & Hm & _). unfold list_keys. rewrite list_elem_of_fmap.
  setoid_rewrite Hm. split; intros (y & H1 & H2); by exists y.
Qed.

Lemma list_keys_unique l lv ks : linked cmp l lv -> StronglySorted (fun a b => cmp a b < 0) ks -> ks ≡ₚ list_keys l ->
  list_keys l = ks.
Proof.
  intros H Hks Hp. apply (StronglySorted_unique_strong (fun a b => cmp a b < 0)); [| by apply (list_keys_sorted l lv) | done | done].
  intros k1 k2 _ _ ? ?. order_sgn cmp. lia.
Qed.
Lemma list_keys_same l l' lv lv' : linked cmp l lv -> linked cmp l' lv' -> (forall y, on_level lv' 0 y <-> on_level lv 0 y) ->
  (forall y, on_level lv 0 y -> key_of l' y = key_of l y) -> list_keys l' = list_keys l.
Proof.
  intros H H' Hlv Hk. destruct (list_nodes_spec l lv H) as (_ & Hm & _). destruct (list_nodes_spec l' lv' H') as (_ & Hm' & _).
  apply (list_keys_unique l' lv'); [done | by apply (list_keys_sorted l lv) |]. unfold list_keys.
  rewrite <- (map_ext_in (key_of l') (key_of l) (list_nodes l)).
  - apply Permutation_map, NoDup_Permutation; [by apply (list_nodes_NoDup l lv) | by apply (list_nodes_NoDup l' lv') |].
    intros y. by rewrite Hm, Hm', Hlv.
  - intros y Hy. apply Hk, Hm. by apply list_elem_of_In.
Qed.

(** A key that is there, and a node that is new on the lowest level. *)
Lemma set_insert_present l lv key : linked cmp l lv -> (exists y, on_level lv 0 y /\ cmp (key_of l y) key = 0) ->
  set_insert (list_keys l) key = (false, list_keys l).
Proof.
  intros H (y & Hy & Ey). unfold set_insert. assert (existsb (fun k => cmp k key =? 0) (list_keys l) = true) as ->; [| done].
  apply existsb_exists. exists (key_of l y). split; [| by apply Z.eqb_eq]. apply list_elem_of_In, (list_keys_elem l lv); eauto.
Qed.
Lemma set_insert_new l l' lv lv' x : linked cmp l lv -> linked cmp l' lv' ->
  (forall y, on_level lv 0 y -> key_of l' y = key_of l y) -> ~ on_level lv 0 x ->
  (forall y, on_level lv' 0 y <-> on_level lv 0 y \/ y = x) ->
  (forall y, on_level lv 0 y -> cmp (key_of l y) (key_of l' x) <> 0) ->
  set_insert (list_keys l) (key_of l' x) = (true, list_keys l').
Proof.
  intros H H' Hk Hx Hlv Hnew. destruct (list_nodes_spec l lv H) as (_ & Hm & _). destruct (list_nodes_spec l' lv' H') as (_ & Hm' & _).
  pose proof (list_nodes_NoDup l lv H) as Hnd. pose proof (list_nodes_NoDup l' lv' H') as Hnd'. unfold set_insert.
  assert (existsb (fun k => cmp k (key_of l' x) =? 0) (list_keys l) = false) as ->.
  { apply not_true_iff_false. rewrite existsb_exists. intros (k & Hkl & Ek). apply list_elem_of_In, (list_keys_elem l lv) in Hkl as (y & Hy & ->); [| done].
    apply Z.eqb_eq in Ek. by apply (Hnew y). }
  f_equal. symmetry. apply (list_keys_unique l' lv' _ H').
  - apply insert_in_order_sorted; [| by apply (list_keys_sorted l lv)]. apply list.Forall_forall. intros k Hkl.
    apply (list_keys_elem l lv) in Hkl as (y & Hy & ->); [| done]. by apply Hnew.
  - rewrite insert_in_order_Permutation. unfold list_keys. rewrite <- (map_ext_in (key_of l') (key_of l) (list_nodes l)).
    2: { intros y Hy. apply Hk, Hm. by apply list_elem_of_In. }
    change (key_of l' x :: map (key_of l') (list_nodes l)) with (map (key_of l') (x :: list_nodes l)). apply Permutation_map.
    apply NoDup_Permutation; [constructor; [by rewrite Hm | done] | done |].
    intros y. rewrite elem_of_cons, Hm, Hm', Hlv. tauto.
Qed.

Lemma list_keys_insert l lv x l' lv' b : linked cmp l lv -> linked cmp l' lv' -> same_nodes l l' -> lv x = 0%nat -> x <> head_ ->
  (0 < UnstashHeight l x)%nat -> inserted cmp l lv x b lv' -> (b, list_keys l') = set_insert (list_keys l) (key_of l x).
Proof.
  intros H H' Hs Hx0 Hx Hh Hins. pose proof (fun y => same_key l l' y Hs) as Hk. symmetry. destruct b; destruct Hins as [Hnew Hlv].
  - rewrite <- Hk. apply (set_insert_new l l' lv lv'); try done; [intros []; lia | | intros y Hy; rewrite Hk; by apply Hnew].
    intros y. rewrite Hlv. unfold on_level, lv_set. case_decide as E; [rewrite E |]; split; intros Hy; [by right | by split | by left |].
    by destruct Hy.
  - subst lv'. rewrite (set_insert_present l lv) by done. f_equal. symmetry. by apply (list_keys_same l l' lv lv).
Qed.

Lemma insert_new_spec l lv key h s allow : linked cmp l lv -> compact l -> splice_ok cmp l lv s -> (0 < h <= kMaxHeight_ l)%nat ->
  exists b l' s' lv', Insert_node cmp (allocated l key h) (new_node l key h) s allow = Some (b, l', s') /\
    linked cmp l' lv' /\ compact l' /\ splice_ok cmp l' lv' s' /\ kMaxHeight_ l' = kMaxHeight_ l /\
    (forall s2, splice_ok cmp l lv s2 -> splice_ok cmp l' lv' s2) /\ (b, list_keys l') = set_insert (list_keys l) key.
Proof.
  intros H Hc Hs Hh. destruct (new_key l key h) as [Ek Eh]. destruct (new_unlinked cmp l lv key h H Hc) as [Hn0 Hnh].
  pose proof (allocated_linked cmp l lv key h H Hc) as Ha. pose proof (allocated_splice cmp l lv key h H Hc) as Hsp.
  destruct (Insert_node_spec cmp (allocated l key h) lv (new_node l key h) s allow) as (b & l' & s' & lv' & E & Hins & H' & Hs' & Hsame & Hm);
    [done | by apply Hsp | done | done | by rewrite Eh |].
  exists b, l', s', lv'. split_and!; try done.
  - apply (same_compact _ _ Hsame). by apply allocated_compact.
  - apply Hsame.
  - intros s2 Hs2. apply (splice_grows cmp (allocated l key h) l' lv lv'); [done | exact (inserted_grows cmp _ lv _ b lv' Hn0 Hins) | lia | by apply Hsp].
  - rewrite (list_keys_insert (allocated l key h) lv (new_node l key h) l' lv' b); try done; [| by rewrite Eh; lia].
    rewrite Ek. f_equal. apply (list_keys_same l _ lv lv); [done | done | done |]. intros y [_ Hy]. by apply (allocated_key cmp l lv).
Qed.

(** * Sequences of insertions *)

(** An insertion of a key with the height that was drawn for it; [InsertWithHint] names the hint
    that it uses. *)
Record InsertOp := { op_key : bytes; op_height : nat; op_hint : option nat }.

Definition run_insert (st : InlineSkipList * gmap nat Splice) (op : InsertOp)
    : option (bool * (InlineSkipList * gmap nat Splice)) :=
  let '(l, hints) := st in
  match op_hint op with
  | None => r ← Insert cmp l (op_key op) (op_height op); Some (r.1, (r.2, hints))
  | Some h =>
      r ← InsertWithHint cmp l (op_key op) (op_height op) (hints !! h);
      Some (r.1.1, (r.1.2, match r.2 with Some s => <[h := s]> hints | None => hints end))
  end.
Fixpoint run_inserts (st : InlineSkipList * gmap nat Splice) (ops : list InsertOp)
    : option (list bool * InlineSkipList) :=
  match ops with
  | [] => Some ([], st.1)
  | op :: ops =>
      r ← run_insert st op;
      rs ← run_inserts r.2 ops;
      Some (r.1 :: rs.1, rs.2)
  end.

(** The same on the set of keys. *)
Fixpoint set_inserts (ks : list bytes) (ops : list InsertOp) : list bool * list bytes :=
  match ops with
  | [] => ([], ks)
  | op :: ops =>
      let '(b, ks) := set_insert ks (op_key op) in
      let '(bs, ks) := set_inserts ks ops in (b :: bs, ks)
  end.

(** The invariant of a list with its hints. *)
Definition list_ok (st : InlineSkipList * gmap nat Splice) : Prop :=
  exists lv, linked cmp st.1 lv /\ compact st.1 /\ splice_ok cmp st.1 lv (seq_splice_ st.1) /\
    map_Forall (fun _ s => splice_ok cmp st.1 lv s) st.2.

Lemma new_splice_ok l lv : splice_ok cmp l lv (AllocateSplice (kMaxHeight_ l)).
Proof. split; cbn; rewrite ?length_replicate; try done; lia. Qed.

Lemma new_list_ok max_height branching : (0 < max_height)%nat -> list_ok (MakeInlineSkipList max_height branching, ∅).
Proof.
  intros Hm. exists (fun y => if decide (y = head_) then max_height else 0%nat).
  assert (Hon : forall i y, ~ on_level (fun y => if decide (y = head_) then max_height else 0%nat) i y).
  { intros i y [H1 H2]. rewrite decide_False in H2 by done. lia. }
  split_and!.
  - split; unfold Node_Next; cbn [fst nodes kMaxHeight_ max_height_ MakeInlineSkipList].
    + by rewrite decide_True.
    + lia.
    + intros y Hy. case_decide; [subst | lia]. rewrite lookup_singleton_eq. eexists. split; [done |]. cbn [next_].
      by rewrite length_replicate.
    + intros y Hy. rewrite decide_False by done. lia.
    + intros y z Hy. by apply Hon in Hy.
    + intros i x Hx. case_decide; [subst | lia]. exists None. rewrite lookup_singleton_eq. cbn [mbind option_bind next_].
      split; [by apply lookup_replicate_2 |]. intros z Hz. by apply Hon in Hz.
  - intros y. cbn [fst nodes MakeInlineSkipList]. rewrite map_size_singleton. destruct (decide (y = head_)) as [-> | Hy].
    + rewrite lookup_singleton_eq. split; [unfold head_; lia | by eexists].
    + rewrite lookup_singleton_ne by done. unfold head_ in Hy. split; [by intros [] | lia].
  - apply (new_splice_ok (MakeInlineSkipList max_height branching)).
  - apply map_Forall_empty.
Qed.

Lemma set_seq_splice_linked l s lv : linked cmp l lv -> linked cmp (set_seq_splice l s) lv.
Proof. intros [H1 H2 H3 H4 H5 H6]. by split. Qed.
Lemma set_seq_splice_ok l s lv s' : splice_ok cmp l lv s' -> splice_ok cmp (set_seq_splice l s) lv s'.
Proof. intros [H1 H2 H3 H4 H5]. by split. Qed.

Lemma SetNext_seq l x i (y : option nat) l' : Node_SetNext l x i y = Some l' -> seq_splice_ l' = seq_splice_ l.
Proof.
  unfold Node_SetNext. destruct (nodes l !! x); [| done]. cbn. case_decide; [| done]. by intros [= <-].
Qed.
Lemma link_levels_seq key x rc todo : forall l s i res, link_levels cmp todo l key x rc s i = Some res ->
  seq_splice_ res.1.2 = seq_splice_ l.
Proof.
  induction todo as [| todo IH]; intros l s i res; cbn [link_levels]; [by intros [= <-] |].
  destruct (prev_ s !! i) as [p |]; [| done]. destruct (splice_next_ s !! i) as [n |]; [| done]. cbn [mbind option_bind].
  match goal with |- context [mbind _ ?e] => destruct e as [[p' n'] |] end; [| done]. cbn [mbind option_bind fst snd].
  destruct (is_duplicate cmp l key i p' n'); [by intros [= <-] |].
  destruct (Node_SetNext l x i n') as [l1 |] eqn:E1; [| done]. cbn [mbind option_bind].
  destruct (Node_SetNext l1 p' i (Some x)) as [l2 |] eqn:E2; [| done]. cbn [mbind option_bind].
  intros Hr. by rewrite (IH _ _ _ _ Hr), (SetNext_seq _ _ _ _ _ E2), (SetNext_seq _ _ _ _ _ E1).
Qed.
Lemma Insert_node_seq l x s allow b l' s' : Insert_node cmp l x s allow = Some (b, l', s') -> seq_splice_ l' = seq_splice_ l.
Proof.
  unfold Insert_node. match goal with |- context [mbind _ ?e] => destruct e as [[rc s1] |] end; [| done].
  cbn [mbind option_bind fst snd]. destruct (link_levels _ _ _ _ _ _ _ _) as [[[b1 l1] s2] |] eqn:E; [| done].
  apply link_levels_seq in E. cbn [mbind option_bind]. cbn in E. destruct b1; intros [= <- <- <-]; exact E.
Qed.

Lemma run_insert_ok st op : list_ok st -> (0 < op_height op <= kMaxHeight_ st.1)%nat ->
  exists b st', run_insert st op = Some (b, st') /\ list_ok st' /\ kMaxHeight_ st'.1 = kMaxHeight_ st.1 /\
    (b, list_keys st'.1) = set_insert (list_keys st.1) (op_key op).
Proof.
  destruct st as [l hints]. intros (lv & H & Hc & Hseq & Hhints) Hh. cbn [fst snd] in *. unfold run_insert.
  destruct op as [key h [hint |]]; cbn [op_hint op_key op_height] in *.
  - unfold InsertWithHint, AllocateNode.
    destruct (insert_new_spec l lv key h (default (AllocateSplice (kMaxHeight_ l)) (hints !! hint)) true)
      as (b & l' & s' & lv' & E & H' & Hc' & Hs' & Hk & Hkeep & Hkeys); [done | done | | done |].
    { destruct (hints !! hint) as [s |] eqn:Es; cbn; [by apply (Hhints hint) | apply new_splice_ok]. }
    unfold allocated, new_node, AllocateNode in E. cbn [fst snd] in E. cbn [kMaxHeight_ set_nodes]. rewrite E.
    cbn [mbind option_bind fst snd]. eexists _, _. split; [done |]. split_and!; [| done | done].
    exists lv'. split_and!; [done | done | | cbn [snd]].
    + cbn [fst]. rewrite (Insert_node_seq _ _ _ _ _ _ _ E). cbn [seq_splice_ set_nodes]. by apply Hkeep.
    + apply map_Forall_insert_2; [done |]. intros k s Hks. by apply Hkeep, (Hhints k).
  - unfold Insert, AllocateNode.
    destruct (insert_new_spec l lv key h (seq_splice_ l) false)
      as (b & l' & s' & lv' & E & H' & Hc' & Hs' & Hk & Hkeep & Hkeys); [done.. |].
    unfold allocated, new_node, AllocateNode in E. cbn [fst snd] in E. cbn [seq_splice_ set_nodes]. rewrite E.
    cbn [mbind option_bind fst snd]. eexists _, _. split; [done |]. split_and!; [| exact Hk |].
    2: { cbn [fst]. by rewrite (list_keys_same l' (set_seq_splice l' s') lv' lv') by (done || by apply set_seq_splice_linked). }
    exists lv'. split_and!; [by apply set_seq_splice_linked | exact Hc' | by apply set_seq_splice_ok |].
    intros k s Hks. apply set_seq_splice_ok, Hkeep, (Hhints k s Hks).
Qed.

Lemma run_inserts_ok ops : forall st, list_ok st ->
  Forall (fun op => 0 < op_height op <= kMaxHeight_ st.1)%nat ops ->
  exists bs l hints, run_inserts st ops = Some (bs, l) /\ list_ok (l, hints) /\
    (bs, list_keys l) = set_inserts (list_keys st.1) ops.
Proof.
  induction ops as [| op ops IH]; intros st Hok Hh; cbn [run_inserts set_inserts].
  - exists [], st.1, st.2. by destruct st.
  - apply list.Forall_cons in Hh as [Hh1 Hh]. destruct (run_insert_ok st op Hok Hh1) as (b & st' & -> & Hok' & Hk & Hs).
    cbn [mbind option_bind fst snd]. destruct (IH st' Hok') as (bs & l & hints & -> & Hl & Hks); [by rewrite Hk |].
    cbn [mbind option_bind fst snd]. exists (b :: bs), l, hints. split; [done |]. split; [done |].
    rewrite <- Hs, <- Hks. done.
Qed.
End Contents.

(** C8: the skip list is a sorted set. Whatever keys are inserted, with whatever heights, through
    [Insert] with its own splice or through [InsertWithHint] with any number of hints, every
    insertion returns, without an access beyond the links of a node; its result is [false] exactly
    when an equal key is there, and the keys are then unchanged, while otherwise the key is added in
    its place in the order. The iterator is a cursor over these keys for every sequence of its
    operations, and [Contains] says whether an equal key is there. *)
Theorem skip_list_sorted_set (cmp : bytes -> bytes -> Z) {KO : KeyOrder cmp} max_height branching
    (ops : list InsertOp) (Hm : (0 < max_height)%nat) (Hh : Forall (fun op => 0 < op_height op <= max_height)%nat ops) :
  exists bs l, run_inserts cmp (MakeInlineSkipList max_height branching, ∅) ops = Some (bs, l) /\
    (bs, list_keys l) = set_inserts cmp [] ops /\
    StronglySorted (fun a b => cmp a b < 0) (list_keys l) /\
    (forall iops o, cursor_ops cmp (list_keys l) None iops = Some o ->
      exists it, iterate_ops (Iterator_op cmp l) None iops = Some it /\
        key_of l <$> it = o ≫= fun i => list_keys l !! i) /\
    (forall key, Contains cmp l key = Some (existsb (fun k => cmp key k =? 0) (list_keys l))).
Proof.
  destruct (run_inserts_ok cmp ops (MakeInlineSkipList max_height branching, ∅)) as (bs & l & hints & E & Hok & Hks);
    [by apply new_list_ok | done |].
  destruct Hok as (lv & H & _). cbn [fst] in *. exists bs, l. split_and!; [done | | by apply (list_keys_sorted cmp l lv) | |].
  - rewrite Hks. by assert (list_keys (MakeInlineSkipList max_height branching) = []) as -> by (unfold list_keys, list_nodes, Node_Next; cbn; destruct max_height; done).
  - intros iops o Ho.
    destruct (iterate_ops_refines (Iterator_op cmp l) (shows l) cmp (list_keys l) (Iterator_op_refines cmp l lv H) iops None None o)
      as (it & Eit & Hsh); [done | done |].
    exists it. split; [done |]. destruct o as [i |]; cbn in Hsh; [| by rewrite Hsh].
    destruct Hsh as (n & En & ->). cbn. symmetry. by apply keys_lookup.
  - intros key. unfold Contains. destruct (FindGreaterOrEqual_spec cmp l lv key false H) as (r & -> & Hr).
    cbn [mbind option_bind fst]. f_equal. apply eq_true_iff_eq. rewrite existsb_exists. split.
    + destruct r as [y |]; [| done]. intros Hy. exists (key_of l y). split; [| done]. apply list_elem_of_In.
      apply (list_keys_elem cmp l lv); [done |]. exists y. split; [apply Hr | done].
    + intros (k & Hk & Ek). apply list_elem_of_In, (list_keys_elem cmp l lv) in Hk as (z & Hz & ->); [| done].
      apply Z.eqb_eq in Ek. destruct r as [y |]; cbn in Hr; [| pose proof (Hr z Hz); order_sgn cmp; lia].
      destruct Hr as (Hy & Hge & Hmin). apply Z.eqb_eq. assert (0 <= cmp (key_of l z) key) as Hzk by (order_sgn cmp; lia).
      pose proof (Hmin z Hz Hzk). pose proof (cmp_trans (cmp := cmp) (key_of l y) (key_of l z) key). order_sgn cmp. lia.
Qed.

(** Keys in any order, a duplicate, nodes of different heights, with and without a hint. *)
Definition ex_inserts : list InsertOp := [
  {| op_key := [Byte.x62]; op_height := 2; op_hint := None |};
  {| op_key := [Byte.x61]; op_height := 1; op_hint := Some 0%nat |};
  {| op_key := [Byte.x64]; op_height := 3; op_hint := Some 0%nat |};
  {| op_key := [Byte.x62]; op_height := 4; op_hint := Some 1%nat |};
  {| op_key := [Byte.x63]; op_height := 2; op_hint := None |} ].
Lemma skip_list_sorted_set_witness :
  exists bs l, run_inserts (Compare (Comparator := BytewiseComparatorImpl)) (MakeInlineSkipList 4 4, ∅) ex_inserts = Some (bs, l) /\
    bs = [true; true; true; false; true] /\ list_keys l = [[Byte.x61]; [Byte.x62]; [Byte.x63]; [Byte.x64]] /\
    exists it, iterate_ops (Iterator_op (Compare (Comparator := BytewiseComparatorImpl)) l) None
                 [OpSeek [Byte.x63]; OpPrev; OpPrev; OpNext; OpSeekForPrev [Byte.x63; Byte.x00]] = Some it /\
      key_of l <$> it = Some [Byte.x63].
Proof.
  destruct (skip_list_sorted_set (Compare (Comparator := BytewiseComparatorImpl)) 4 4 ex_inserts)
    as (bs & l & E & Hks & _ & Hit & _); [lia | repeat constructor |].
  exists bs, l. split; [exact E |]. 
  assert (set_inserts (Compare (Comparator := BytewiseComparatorImpl)) [] ex_inserts =
    ([true; true; true; false; true], [[Byte.x61]; [Byte.x62]; [Byte.x63]; [Byte.x64]])) as E1 by (vm_compute; reflexivity).
  rewrite E1 in Hks. injection Hks as -> Hks. split; [reflexivity |]. split; [exact Hks |].
  destruct (Hit [OpSeek [Byte.x63]; OpPrev; OpPrev; OpNext; OpSeekForPrev [Byte.x63; Byte.x00]] (Some 2%nat)) as (it & E2 & Hk).
  { rewrite Hks. reflexivity. }
  exists it. split; [exact E2 |]. rewrite Hk, Hks. reflexivity.
Defined.
