(* ===== verification/SkipListConcurrent.v ===== *)
(** memtable/inlineskiplist.h: insertions of several threads, [Insert<true>].

    An insertion is a machine whose steps read or write at most one shared word: the height
    of the list, or one link of one node. A run interleaves the steps of any number of
    threads in any order. The links are atomic words; the order of the accesses of a thread
    is that of the code (the loads are acquire, the swap is sequentially consistent). *)

From stdpp Require Import gmap sorting.
From S2P Require Import Prelude Comparator Status Cursor SkipList SkipListProofs SkipListInsert SkipListTheorems.

(** * An insertion *)

Inductive InsertPc :=
| LoadMaxHeight                                            (** [max_height_.load] *)
| RaiseMaxHeight (max_height : nat)                        (** the loop that raises the height *)
| CheckLevel (max_height recompute_height : nat)           (** the loop that validates the splice *)
| FindLevel (level before : nat) (after : option nat)      (** [RecomputeSpliceLevels] *)
| LinkLevel (i : nat)                                      (** the checks for duplicates and the private link *)
| SwapLevel (i : nat)                                      (** [CASNext] *)
| FindAgain (i before : nat)                               (** the search after the swap failed *)
| Returned (result : bool).
#[global] Instance InsertPc_eq_dec : EqDecision InsertPc.
Proof. solve_decision. Defined.

Record InsertThread := {
  th_node : nat;
  th_key : bytes;
  th_height : nat;
  allow_partial_splice_fix : bool;
  th_splice : Splice;
  splice_is_valid : bool;
  th_pc : InsertPc;
}.

Definition set_pc (t : InsertThread) (pc : InsertPc) : InsertThread :=
  {| th_node := th_node t; th_key := th_key t; th_height := th_height t;
     allow_partial_splice_fix := allow_partial_splice_fix t; th_splice := th_splice t;
     splice_is_valid := splice_is_valid t; th_pc := pc |}.
Definition set_th_splice (t : InsertThread) (s : Splice) : InsertThread :=
  {| th_node := th_node t; th_key := th_key t; th_height := th_height t;
     allow_partial_splice_fix := allow_partial_splice_fix t; th_splice := s;
     splice_is_valid := splice_is_valid t; th_pc := th_pc t |}.
Definition set_valid (t : InsertThread) (v : bool) : InsertThread :=
  {| th_node := th_node t; th_key := th_key t; th_height := th_height t;
     allow_partial_splice_fix := allow_partial_splice_fix t; th_splice := th_splice t;
     splice_is_valid := v; th_pc := th_pc t |}.

(** Writing to the arrays of a splice; [None] beyond their end. *)
Definition write_splice (s : Splice) (i p : nat) (n : option nat) : option Splice :=
  if decide (i < length (prev_ s) /\ i < length (splice_next_ s))%nat then Some (set_splice s i p n) else None.

(** [if (recompute_height > 0) RecomputeSpliceLevels(...)]. *)
Definition start_recompute (t : InsertThread) (recompute_height : nat) : option InsertThread :=
  match recompute_height with
  | O => Some (set_pc t (LinkLevel 0))
  | S i =>
      p ← prev_ (th_splice t) !! S i;
      n ← splice_next_ (th_splice t) !! S i;
      Some (set_pc t (FindLevel i p n))
  end.

(** After the height of the list is known. *)
Definition start_splice (t : InsertThread) (max_height : nat) : option InsertThread :=
  if (height_ (th_splice t) <? max_height)%nat then
    s ← write_splice (th_splice t) max_height head_ None;
    start_recompute (set_th_splice t (set_splice_height s max_height)) max_height
  else Some (set_pc t (CheckLevel max_height 0)).

(** After the last level is linked. *)
Definition finish (t : InsertThread) : InsertThread :=
  let s := th_splice t in
  set_pc (set_th_splice t
    (if splice_is_valid t
     then {| height_ := height_ s; prev_ := replicate (th_height t) (th_node t) ++ drop (th_height t) (prev_ s);
             splice_next_ := splice_next_ s |}
     else set_splice_height s 0)) (Returned true).

Section Concurrent.
Context (cmp : bytes -> bytes -> Z).
Implicit Types (l : InlineSkipList) (t : InsertThread).

(** One level of the splice against the key; a single link is read. *)
Definition check_level l t (max_height recompute_height : nat) : option InsertThread :=
  let s := th_splice t in
  let i := recompute_height in
  if (max_height <=? i)%nat then start_recompute t i
  else
    p ← prev_ s !! i;
    n ← splice_next_ s !! i;
    next ← Node_Next l p i;
    if negb (bool_decide (next = n)) then Some (set_pc t (CheckLevel max_height (S i)))
    else if negb (p =? head_)%nat && negb (KeyIsAfterNode cmp l (th_key t) (Some p)) then
      if allow_partial_splice_fix t then
        i ← skip_equal (length (prev_ s)) (prev_ s) p i;
        Some (set_pc t (CheckLevel max_height i))
      else Some (set_pc t (CheckLevel max_height max_height))
    else if KeyIsAfterNode cmp l (th_key t) n then
      if allow_partial_splice_fix t then
        i ← skip_equal (length (splice_next_ s)) (splice_next_ s) n i;
        Some (set_pc t (CheckLevel max_height i))
      else Some (set_pc t (CheckLevel max_height max_height))
    else start_recompute t i.

(** A step of an insertion. [spurious] is a failure of the weak compare-and-exchange that is
    not due to another thread. *)
Definition Insert_step (spurious : bool) l t : option (InlineSkipList * InsertThread) :=
  let s := th_splice t in
  match th_pc t with
  | LoadMaxHeight => Some (l, set_pc t (RaiseMaxHeight (max_height_ l)))
  | RaiseMaxHeight max_height =>
      if (max_height <? th_height t)%nat then
        if (max_height =? max_height_ l)%nat && negb spurious then
          t' ← start_splice t (th_height t); Some (set_max_height l (th_height t), t')
        else Some (l, set_pc t (RaiseMaxHeight (max_height_ l)))
      else t ← start_splice t max_height; Some (l, t)
  | CheckLevel max_height i => t ← check_level l t max_height i; Some (l, t)
  | FindLevel i before after =>
      next ← Node_Next l before i;
      if bool_decide (next = after) || negb (KeyIsAfterNode cmp l (th_key t) next) then
        s ← write_splice s i before next;
        t ← start_recompute (set_th_splice t s) i; Some (l, t)
      else match next with Some n => Some (l, set_pc t (FindLevel i n after)) | None => None end
  | LinkLevel i =>
      p ← prev_ s !! i;
      n ← splice_next_ s !! i;
      if is_duplicate cmp l (th_key t) i p n then Some (l, set_pc t (Returned false))
      else l ← Node_SetNext l (th_node t) i n; Some (l, set_pc t (SwapLevel i))
  | SwapLevel i =>
      p ← prev_ s !! i;
      n ← splice_next_ s !! i;
      next ← Node_Next l p i;
      if bool_decide (next = n) then
        l ← Node_SetNext l p i (Some (th_node t));
        Some (l, if (S i =? th_height t)%nat then finish t else set_pc t (LinkLevel (S i)))
      else Some (l, set_pc t (FindAgain i p))
  | FindAgain i before =>
      next ← Node_Next l before i;
      if negb (KeyIsAfterNode cmp l (th_key t) next) then
        s ← write_splice s i before next;
        Some (l, set_pc (set_valid (set_th_splice t s) (splice_is_valid t && (i =? 0)%nat)) (LinkLevel i))
      else match next with Some n => Some (l, set_pc t (FindAgain i n)) | None => None end
  | Returned _ => None
  end.

(** * Threads *)

Record SkipListSystem := {
  shared : InlineSkipList;
  threads : gmap nat InsertThread;
  hints : gmap nat Splice;
}.

(** A splice on the stack, with arrays of [kMaxPossibleHeight] entries. *)
Definition local_splice : Splice :=
  {| height_ := 0; prev_ := replicate kMaxPossibleHeight head_; splice_next_ := replicate kMaxPossibleHeight None |}.
(** [AllocateKey] and the call of [InsertConcurrently] or [InsertWithHintConcurrently]. *)
Definition start_insert l (key : bytes) (height : nat) (with_hint : bool) (hint : option Splice)
    : InlineSkipList * InsertThread :=
  let '(x, l') := AllocateNode l key height in
  (l', {| th_node := x; th_key := key; th_height := height; allow_partial_splice_fix := with_hint;
          th_splice := if with_hint then default (AllocateSplice (kMaxHeight_ l)) hint else local_splice;
          splice_is_valid := true; th_pc := LoadMaxHeight |}).

Inductive SystemEvent :=
| StartInsert (tid : nat) (key : bytes) (height : nat) (with_hint : bool)
| StepInsert (tid : nat) (spurious : bool).

Definition returned t : option bool := match th_pc t with Returned b => Some b | _ => None end.
Definition system_step (st : SkipListSystem) (ev : SystemEvent) : option SkipListSystem :=
  match ev with
  | StartInsert tid key height with_hint =>
      match threads st !! tid with
      | Some t => match returned t with Some _ => Some tt | None => None end
      | None => Some tt
      end ≫= fun _ =>
      let '(l, t) := start_insert (shared st) key height with_hint (hints st !! tid) in
      Some {| shared := l; threads := <[tid := t]> (threads st); hints := hints st |}
  | StepInsert tid spurious =>
      t ← threads st !! tid;
      r ← Insert_step spurious (shared st) t;
      Some {| shared := r.1; threads := <[tid := r.2]> (threads st);
              hints := match returned r.2 with
                       | Some _ => if allow_partial_splice_fix t then <[tid := th_splice r.2]> (hints st) else hints st
                       | None => hints st
                       end |}
  end.
Fixpoint system_run (st : SkipListSystem) (evs : list SystemEvent) : option SkipListSystem :=
  match evs with
  | [] => Some st
  | ev :: evs => st ← system_step st ev; system_run st evs
  end.
End Concurrent.
