(* ===== verification/SkipListThreads.v ===== *)
(** Insertions of several threads into the skip list are linearizable: the invariant of the
    machine of SkipListConcurrent.v, and that every step of a thread keeps it. *)

From stdpp Require Import gmap sorting.
From S2P Require Import Prelude Comparator Status Cursor SkipList SkipListProofs SkipListInsert SkipListTheorems SkipListConcurrent.

Section Threads.
Context (cmp : bytes -> bytes -> Z) {KO : KeyOrder cmp}.
Implicit Types (l : InlineSkipList) (s : Splice) (t : InsertThread) (x y z p : nat) (n : option nat) (lv : nat -> nat) (key : bytes).

(** * Growth of the list *)

(** What other threads may do: allocate nodes, raise the height, link nodes on more levels. *)
Record later l lv l' lv' : Prop := {
  lt_kmax : kMaxHeight_ l' = kMaxHeight_ l;
  lt_max : (max_height_ l <= max_height_ l')%nat;
  lt_nodes y nd : nodes l !! y = Some nd ->
    exists nd', nodes l' !! y = Some nd' /\ Key nd' = Key nd /\ length (next_ nd') = length (next_ nd);
  lt_levels y : (lv y <= lv' y)%nat;
}.

Lemma later_same l l' lv lv' : same_nodes l l' -> (max_height_ l <= max_height_ l')%nat ->
  (forall y, lv y <= lv' y)%nat -> later l lv l' lv'.
Proof.
  intros [H1 H2] Hm Hlv. split; [done | done | | done]. intros y nd E. specialize (H2 y). rewrite E in H2.
  destruct (nodes l' !! y) as [nd' |]; [| done]. cbn in H2. injection H2 as H2 H3. eauto.
Qed.

Section Later.
Context l lv l' lv' (H : linked cmp l lv) (HL : later l lv l' lv').

Lemma later_key_node y nd : nodes l !! y = Some nd -> key_of l' y = key_of l y /\ UnstashHeight l' y = UnstashHeight l y.
Proof.
  intros E. destruct (lt_nodes _ _ _ _ HL y nd E) as (nd' & E' & Hk & Hh). unfold key_of, UnstashHeight. by rewrite E, E'.
Qed.
Lemma later_key y : (0 < lv y)%nat -> key_of l' y = key_of l y.
Proof. intros Hy. destruct (lk_node _ l lv H y Hy) as (nd & E & _). by apply (later_key_node y nd). Qed.
Lemma later_on i y : on_level lv i y -> on_level lv' i y.
Proof. intros [H1 H2]. split; [done |]. pose proof (lt_levels _ _ _ _ HL y). lia. Qed.
Lemma later_level i y : (i < lv y)%nat -> (i < lv' y)%nat.
Proof. pose proof (lt_levels _ _ _ _ HL y). lia. Qed.
Lemma later_node_lt y key : (0 < lv y)%nat -> node_lt cmp l y key -> node_lt cmp l' y key.
Proof. intros Hy [-> | Hlt]; [by left | right]. by rewrite later_key. Qed.
Lemma later_node_le y z : (0 < lv y)%nat -> (0 < lv z)%nat -> node_le cmp l y z -> node_le cmp l' y z.
Proof. intros Hy Hz [-> | [Hzh Hle]]; [by left | right]. by rewrite !later_key. Qed.
End Later.

(** * The splice of a thread *)

Definition sized l s : Prop :=
  (kMaxHeight_ l < length (prev_ s))%nat /\ (kMaxHeight_ l < length (splice_next_ s))%nat /\ (height_ s <= max_height_ l)%nat.
Definition topped s : Prop := prev_at s (height_ s) = head_ /\ next_at s (height_ s) = None.

(** A level brackets the key, and lies inside the one above. *)
Definition bracket l lv s key (i : nat) : Prop :=
  (i < lv (prev_at s i))%nat /\ node_lt cmp l (prev_at s i) key /\
  forall m, next_at s i = Some m -> on_level lv i m /\ 0 <= cmp (key_of l m) key.
Definition nested l lv s (i : nat) : Prop :=
  ((0 < lv (prev_at s (S i)))%nat /\ (0 < lv (prev_at s i))%nat /\ node_le cmp l (prev_at s (S i)) (prev_at s i)) /\
  forall m', next_at s (S i) = Some m' -> (0 < lv m')%nat /\
    exists m, next_at s i = Some m /\ (0 < lv m)%nat /\ cmp (key_of l m) (key_of l m') <= 0.

Lemma level_ok_parts l lv s key i : bracket l lv s key i -> nested l lv s i -> level_ok cmp l lv s i.
Proof.
  intros (H1 & H2 & H3) ((_ & _ & H4) & H5). split_and!; [done | | done |].
  - intros m Em. destruct (H3 m Em). split; [done |]. by apply (node_lt_ge cmp l _ key).
  - intros m' Em'. destruct (H5 m' Em') as (_ & m & Em & _ & Hle). eauto.
Qed.
Lemma splice_levels l lv s i : linked cmp l lv -> splice_ok cmp l lv s -> (i < height_ s)%nat -> nested l lv s i.
Proof.
  intros H [Hp Hn Hh Ht Hl] Hi. destruct (Hl i Hi) as (H1 & H2 & H3 & H4). pose proof (lk_max _ l lv H) as Hmax.
  assert (Hup : (0 < lv (prev_at s (S i)))%nat /\ forall m', next_at s (S i) = Some m' -> (0 < lv m')%nat).
  { destruct (decide (S i = height_ s)) as [E |]; [| destruct (Hl (S i)) as (Ha & Hb & _); [lia |]].
    - rewrite E. destruct Ht as [-> ->]; [lia |]. rewrite (lk_head _ l lv H). split; [lia | done].
    - split; [lia |]. intros m' Em'. destruct (Hb m' Em') as [[_ ?] _]. lia. }
  destruct Hup as [Hup1 Hup2]. split; [split_and!; [done | lia | done] |]. intros m' Em'. split; [by apply Hup2 |].
  destruct (H4 m' Em') as (m & Em & Hle). exists m. split_and!; [done | | done]. destruct (H2 m Em) as [[_ ?] _]. lia.
Qed.

Section LaterSplice.
Context l lv l' lv' (H : linked cmp l lv) (HL : later l lv l' lv').

Lemma sized_later s : sized l s -> sized l' s.
Proof. unfold sized. rewrite (lt_kmax _ _ _ _ HL). pose proof (lt_max _ _ _ _ HL). intros (? & ? & ?). split_and!; [done | done | lia]. Qed.
Lemma bracket_later s key i : bracket l lv s key i -> bracket l' lv' s key i.
Proof.
  intros (H1 & H2 & H3). split_and!; [by apply (later_level l lv l' lv') | apply (later_node_lt l lv l' lv'); [done | done | lia | done] |].
  intros m Em. destruct (H3 m Em) as [Hm Hge]. split; [by apply (later_on l lv l' lv') |].
  rewrite (later_key l lv l' lv'); [done.. |]. destruct Hm. lia.
Qed.
Lemma nested_later s i : nested l lv s i -> nested l' lv' s i.
Proof.
  intros ((H1 & H2 & H3) & H4). split.
  - split_and!; [by apply (later_level l lv l' lv').. |]. by apply (later_node_le l lv l' lv').
  - intros m' Em'. destruct (H4 m' Em') as (Hm' & m & Em & Hm & Hle). split; [by apply (later_level l lv l' lv') |].
    exists m. rewrite !(later_key l lv l' lv') by done. split_and!; [done | by apply (later_level l lv l' lv') | done].
Qed.
Lemma splice_later s : splice_ok cmp l lv s -> splice_ok cmp l' lv' s.
Proof.
  intros Hs. pose proof (fun i => splice_levels l lv s i H Hs) as Hnest. destruct Hs as [Hp Hn Hh Ht Hl].
  destruct (sized_later s) as (Hp' & Hn' & Hh'); [by split |]. split; try done. intros i Hi.
  destruct (nested_later s i (Hnest i Hi)) as ((_ & _ & H3) & H4). destruct (Hl i Hi) as (H1 & H2 & _). split_and!; [| | done |].
  - by apply (later_level l lv l' lv').
  - intros m Em. destruct (H2 m Em) as [Hm Hlt]. assert (0 < lv m)%nat by (destruct Hm; lia). rewrite (later_key l lv l' lv') by done.
    split; [by apply (later_on l lv l' lv') |]. apply (later_node_lt l lv l' lv'); [done | done | lia | done].
  - intros m' Em'. destruct (H4 m' Em') as (_ & m & Em & _ & Hle). eauto.
Qed.
End LaterSplice.

Lemma node_le_refl l x : node_le cmp l x x.
Proof. destruct (decide (x = head_)); [by left | right]. by rewrite cmp_refl. Qed.
Lemma node_le_before l x y z : node_le cmp l x y -> z <> head_ -> node_lt cmp l y (key_of l z) -> node_le cmp l x z.
Proof.
  intros [-> | [Hy Hle]] Hz Hlt; [by left | right]. split; [done |]. destruct Hlt as [-> | Hlt]; [done |].
  eapply cmp_trans; [exact Hle | lia].
Qed.

(** * The invariant of a thread *)

Record thread_node l t : Prop := {
  tn_head : th_node t <> head_;
  tn_key : key_of l (th_node t) = th_key t;
  tn_height : UnstashHeight l (th_node t) = th_height t;
  tn_range : (0 < th_height t <= kMaxHeight_ l)%nat;
}.

(** The levels below [i] are linked; the levels of the splice bracket the key. *)
Record linking_at l lv t (i : nat) : Prop := {
  la_range : (i < th_height t <= height_ (th_splice t))%nat;
  la_lv : lv (th_node t) = i;
  la_sized : sized l (th_splice t);
  la_top : topped (th_splice t);
  la_bracket k : (k < height_ (th_splice t))%nat -> bracket l lv (th_splice t) (th_key t) k;
  la_strict k m : (k < i)%nat -> next_at (th_splice t) k = Some m -> (0 < lv m)%nat /\ cmp (th_key t) (key_of l m) < 0;
  la_valid : i = 0%nat -> splice_is_valid t = true;
  la_nested : splice_is_valid t = true -> forall k, (k < height_ (th_splice t))%nat -> nested l lv (th_splice t) k;
}.

(** The levels from [i] on are bracketed, and the thread is not linked. *)
Record finding_at l lv t (i : nat) : Prop := {
  fa_range : (i <= height_ (th_splice t))%nat /\ (th_height t <= height_ (th_splice t))%nat;
  fa_lv : lv (th_node t) = 0%nat;
  fa_sized : sized l (th_splice t);
  fa_top : topped (th_splice t);
  fa_level k : (i <= k < height_ (th_splice t))%nat ->
    bracket l lv (th_splice t) (th_key t) k /\ nested l lv (th_splice t) k;
  fa_valid : splice_is_valid t = true;
}.

(** A search that has come to [before]. *)
Definition searching l lv key (i p before : nat) : Prop :=
  ((0 < lv p)%nat /\ (i < lv before)%nat) /\ node_lt cmp l before key /\ node_le cmp l p before.

Definition thread_at l lv t : Prop :=
  let s := th_splice t in
  let x := th_node t in
  match th_pc t with
  | LoadMaxHeight => lv x = 0%nat /\ splice_ok cmp l lv s /\ splice_is_valid t = true
  | RaiseMaxHeight m => lv x = 0%nat /\ splice_ok cmp l lv s /\ splice_is_valid t = true /\
      (height_ s <= m <= max_height_ l)%nat /\ (1 <= m)%nat
  | CheckLevel m r => lv x = 0%nat /\ splice_ok cmp l lv s /\ splice_is_valid t = true /\
      (height_ s = m /\ 1 <= m /\ th_height t <= m /\ r <= m)%nat
  | FindLevel i before after => finding_at l lv t (S i) /\ after = next_at s (S i) /\
      searching l lv (th_key t) i (prev_at s (S i)) before
  | LinkLevel i => linking_at l lv t i
  | SwapLevel i => linking_at l lv t i /\ Node_Next l x i = Some (next_at s i) /\
      (i = 0%nat -> forall m, next_at s i = Some m -> (0 < lv m)%nat /\ cmp (th_key t) (key_of l m) < 0)
  | FindAgain i before => linking_at l lv t i /\ searching l lv (th_key t) i (prev_at s i) before
  | Returned true => lv x = th_height t /\ splice_ok cmp l lv s
  | Returned false => lv x = 0%nat /\ splice_ok cmp l lv s /\
      exists y, on_level lv 0 y /\ cmp (key_of l y) (th_key t) = 0
  end.
Definition thread_ok l lv t : Prop := thread_node l t /\ thread_at l lv t.

(** * Steps of other threads *)

Definition untouched l lv l' lv' y : Prop :=
  lv' y = lv y /\ forall j, (lv y <= j)%nat -> Node_Next l' y j = Node_Next l y j.

Section Stable.
Context l lv l' lv' t (H : linked cmp l lv) (HL : later l lv l' lv') (HU : untouched l lv l' lv' (th_node t)).

Lemma thread_node_later : thread_node l t -> thread_node l' t.
Proof.
  intros [H1 H2 H3 H4]. unfold UnstashHeight in H3. destruct (nodes l !! th_node t) as [nd |] eqn:E; [| lia].
  destruct (later_key_node l lv l' lv' HL (th_node t) nd E) as [E1 E2]. split; [done | congruence | | by rewrite (lt_kmax _ _ _ _ HL)].
  rewrite E2. unfold UnstashHeight. by rewrite E.
Qed.
Lemma strict_later m key : (0 < lv m)%nat /\ cmp key (key_of l m) < 0 -> (0 < lv' m)%nat /\ cmp key (key_of l' m) < 0.
Proof. intros [Hm Hlt]. split; [by apply (later_level l lv l' lv') |]. by rewrite (later_key l lv l' lv'). Qed.
Lemma linking_later i : linking_at l lv t i -> linking_at l' lv' t i.
Proof.
  intros [H1 H2 H3 H4 H5 H6 H7 H8]. split; try done.
  - by rewrite (proj1 HU).
  - by apply (sized_later l lv l' lv').
  - intros k Hk. apply (bracket_later l lv l' lv'); auto.
  - intros k m Hk Em. apply strict_later. by apply (H6 k).
  - intros Hv k Hk. apply (nested_later l lv l' lv'); auto.
Qed.
Lemma finding_later i : finding_at l lv t i -> finding_at l' lv' t i.
Proof.
  intros [H1 H2 H3 H4 H5 H6]. split; try done.
  - by rewrite (proj1 HU).
  - by apply (sized_later l lv l' lv').
  - intros k Hk. destruct (H5 k Hk). split; [by apply (bracket_later l lv l' lv') | by apply (nested_later l lv l' lv')].
Qed.
Lemma searching_later key i p before : searching l lv key i p before -> searching l' lv' key i p before.
Proof.
  intros ((H1 & H2) & H3 & H4). split_and!; [by apply (later_level l lv l' lv').. | |].
  - apply (later_node_lt l lv l' lv'); [done | done | lia | done].
  - apply (later_node_le l lv l' lv'); [done | done | done | lia | done].
Qed.

Lemma thread_later : thread_ok l lv t -> thread_ok l' lv' t.
Proof.
  intros [Hn Ht]. split; [by apply thread_node_later |]. unfold thread_at in *.
  pose proof (splice_later l lv l' lv' H HL (th_splice t)) as Hs. pose proof (lt_max _ _ _ _ HL) as Hm.
  destruct HU as [Hlv Hnext]. destruct (th_pc t) as [| m | m r | i before after | i | i | i before | [] ].
  - destruct Ht as (? & ? & ?). rewrite Hlv. auto.
  - destruct Ht as (? & ? & ? & ? & ?). rewrite Hlv. split_and!; auto; lia.
  - destruct Ht as (? & ? & ? & ?). rewrite Hlv. auto.
  - destruct Ht as (? & ? & ?). split_and!; [by apply finding_later | done | by apply searching_later].
  - by apply linking_later.
  - destruct Ht as (Hl & HN & H0). split_and!; [by apply linking_later | |].
    + rewrite Hnext; [done |]. by rewrite (la_lv _ _ _ _ Hl).
    + intros Hi m Em. apply strict_later. by apply H0.
  - destruct Ht. split; [by apply linking_later | by apply searching_later].
  - destruct Ht. rewrite Hlv. auto.
  - destruct Ht as (? & ? & y & Hy & E). rewrite Hlv. split_and!; auto. exists y.
    split; [by apply (later_on l lv l' lv') |]. rewrite (later_key l lv l' lv'); [done.. |]. by destruct Hy.
Qed.
End Stable.

(** * Searches of a thread *)

Lemma bracket_set l lv s key i p n k : sized l s -> (i <= kMaxHeight_ l)%nat -> k <> i ->
  bracket l lv (set_splice s i p n) key k <-> bracket l lv s key k.
Proof.
  intros (H1 & H2 & _) Hi Hk. unfold bracket. rewrite prev_set, next_set by lia. by rewrite !decide_False by done.
Qed.
Lemma nested_set l lv s i p n k : sized l s -> (i <= kMaxHeight_ l)%nat -> k <> i -> S k <> i ->
  nested l lv (set_splice s i p n) k <-> nested l lv s k.
Proof.
  intros (H1 & H2 & _) Hi Hk Hk'. unfold nested. rewrite !prev_set, !next_set by lia. by rewrite !decide_False by done.
Qed.
Lemma topped_set l s i p n : sized l s -> (i < height_ s)%nat -> (i <= kMaxHeight_ l)%nat ->
  topped (set_splice s i p n) <-> topped s.
Proof.
  intros (H1 & H2 & _) Hi Hk. unfold topped. rewrite prev_set, next_set by lia. cbn. by rewrite !decide_False by lia.
Qed.
Lemma sized_set l s i p n : sized l s -> sized l (set_splice s i p n).
Proof. unfold sized. cbn. by rewrite !length_insert. Qed.

(** Where a search on level [i] has ended: the level brackets the key, inside the one above. *)
Lemma found l lv s key i before next : linked cmp l lv -> sized l s -> (i < kMaxHeight_ l)%nat ->
  searching l lv key i (prev_at s (S i)) before -> Node_Next l before i = Some next ->
  (forall m, next_at s (S i) = Some m -> on_level lv i m /\ 0 <= cmp (key_of l m) key) -> next_ge cmp l next key ->
  bracket l lv (set_splice s i before next) key i /\ nested l lv (set_splice s i before next) i.
Proof.
  intros H (Hs1 & Hs2 & _) Hi ((Hp & Hb) & Hlt & Hle) HN Hup Hge. destruct (lk_next _ l lv H i before Hb) as (r & Er & Hs).
  rewrite HN in Er. injection Er as <-. unfold bracket, nested. rewrite !prev_set, !next_set by lia.
  rewrite !(decide_True (P := i = i)), !(decide_False (P := S i = i)) by lia. split.
  - split_and!; [done | done |]. intros m ->. split; [by apply Hs | by apply Hge].
  - split; [split_and!; [done | lia | done] |]. intros m' Em'. destruct (Hup m' Em') as [Hm' Hk].
    split; [destruct Hm'; lia |]. pose proof (node_lt_ge cmp l before key m' Hlt Hk) as Hlt'.
    destruct next as [m |]; [| by destruct (Hs m')]. destruct Hs as (Hm & _ & Hs). exists m.
    split_and!; [done | destruct Hm; lia | by apply Hs].
Qed.

Definition same_insert t t' : Prop :=
  th_node t' = th_node t /\ th_key t' = th_key t /\ th_height t' = th_height t /\
  allow_partial_splice_fix t' = allow_partial_splice_fix t.

Lemma start_recompute_ok l lv t r : linked cmp l lv -> finding_at l lv t r ->
  thread_node l t -> (0 < height_ (th_splice t))%nat ->
  exists t', start_recompute t r = Some t' /\ thread_at l lv t' /\ same_insert t t'.
Proof.
  intros H [[Hr Hh] Hlv Hs Ht Hl Hv] [_ _ _ Hrange] Hpos. pose proof (lk_max _ l lv H) as Hmax.
  destruct Hs as (Hs1 & Hs2 & Hs3). destruct r as [| i]; cbn [start_recompute].
  - eexists. split; [done |]. split; [| done]. cbn. split; cbn; try done; try lia.
    + intros k Hk. apply Hl. lia.
    + intros _ k Hk. apply Hl. lia.
  - rewrite prev_lookup, next_lookup by lia. cbn [mbind option_bind]. eexists. split; [done |]. split; [| done].
    cbn. split; [by split |]. split; [done |]. destruct (decide (S i = height_ (th_splice t))) as [E |].
    + rewrite E. destruct Ht as [-> _]. rewrite <- E in *. split_and!; [| | by left | by left]; rewrite (lk_head _ l lv H); lia.
    + destruct (Hl (S i)) as [(Ha & Hb & _) _]; [lia |]. split_and!; [lia | lia | done | apply node_le_refl].
Qed.

Lemma FindLevel_ok sp l lv t i before after : linked cmp l lv -> thread_node l t ->
  finding_at l lv t (S i) -> after = next_at (th_splice t) (S i) ->
  searching l lv (th_key t) i (prev_at (th_splice t) (S i)) before -> th_pc t = FindLevel i before after ->
  exists t', Insert_step cmp sp l t = Some (l, t') /\ thread_at l lv t' /\ same_insert t t'.
Proof.
  intros H Hn HF -> Hse Epc. pose proof HF as [[Hr Hh] Hlv Hs Ht Hl Hv]. pose proof (lk_max _ l lv H) as Hmax.
  pose proof Hs as (Hs1 & Hs2 & Hs3). pose proof Hse as ((Hp & Hb) & Hlt & Hle).
  assert (Hup : forall m, next_at (th_splice t) (S i) = Some m -> on_level lv i m /\ 0 <= cmp (key_of l m) (th_key t)).
  { intros m Em. destruct (decide (S i = height_ (th_splice t))) as [E |]; [rewrite E in Em; destruct Ht; congruence |].
    destruct (Hl (S i)) as [(_ & _ & Hm) _]; [lia |]. destruct (Hm m Em). split; [| done]. by apply (on_level_le lv (S i)); [lia |]. }
  unfold Insert_step. rewrite Epc. destruct (lk_next _ l lv H i before Hb) as (next & HN & Hsucc). rewrite HN. cbn [mbind option_bind].
  destruct (bool_decide (next = next_at (th_splice t) (S i)) || negb (KeyIsAfterNode cmp l (th_key t) next)) eqn:Ec.
  - assert (Hge : next_ge cmp l next (th_key t)).
    { intros m ->. apply orb_prop in Ec as [Ec | Ec]; [apply bool_decide_eq_true in Ec; by apply Hup |].
      cbn in Ec. by apply negb_true_iff, Z.ltb_ge in Ec. }
    unfold write_splice. rewrite decide_True by lia. cbn [mbind option_bind].
    destruct (found l lv (th_splice t) (th_key t) i before next H Hs ltac:(lia) Hse HN Hup Hge) as [Hf1 Hf2].
    destruct (start_recompute_ok l lv (set_th_splice t (set_splice (th_splice t) i before next)) i H) as (t' & -> & Ht' & Hsame).
    + split; cbn [th_splice set_th_splice th_node th_key th_height splice_is_valid height_ set_splice]; try done; [lia | by apply sized_set | |].
      * apply (topped_set l); [done | lia | lia | done].
      * intros k Hk. destruct (decide (k = i)) as [-> |]; [done |]. rewrite bracket_set, nested_set by (done || lia). apply Hl. lia.
    + destruct Hn. by split.
    + cbn. lia.
    + eexists. split; [done |]. split; [done |]. destruct Hsame as (? & ? & ? & ?). by split_and!.
  - apply orb_false_elim in Ec as [_ Ec]. apply negb_false_iff in Ec. destruct next as [m |]; [| done]. cbn in Ec. apply Z.ltb_lt in Ec.
    eexists. split; [done |]. split; [| done]. cbn. split; [by destruct HF; split |]. split; [done |].
    destruct Hsucc as (Hm & Hbm & _). split_and!; [done | apply Hm | by right |]. apply (node_le_before l _ before); [done | apply Hm | done].
Qed.

Lemma CheckLevel_ok l lv t m r : linked cmp l lv -> thread_node l t -> lv (th_node t) = 0%nat ->
  splice_ok cmp l lv (th_splice t) -> splice_is_valid t = true ->
  (height_ (th_splice t) = m /\ 1 <= m /\ th_height t <= m /\ r <= m)%nat ->
  exists t', check_level cmp l t m r = Some t' /\ thread_at l lv t' /\ same_insert t t'.
Proof.
  intros H Hn Hlv Hs Hv (Hm & Hm1 & Hm2 & Hr). pose proof (lk_max _ l lv H) as Hmax.
  pose proof (fun i => splice_levels l lv (th_splice t) i H Hs) as Hnest. pose proof Hs as [Hs1 Hs2 Hs3 Ht Hl].
  destruct Ht as [Ht1 Ht2]; [lia |].
  assert (Hstart : forall j, (j <= m)%nat -> (j < m -> brackets cmp l (th_splice t) (th_key t) j)%nat ->
    exists t', start_recompute t j = Some t' /\ thread_at l lv t' /\ same_insert t t').
  { intros j Hj Hb. apply start_recompute_ok; [done | | done | lia]. split; try done; [lia |]. intros k Hk.
    split; [| apply Hnest; lia]. destruct (Hl k) as (Ha & Hm' & _); [lia |].
    destruct (brackets_up cmp l lv (th_splice t) (th_key t) j k) as [Hb1 Hb2]; [intros; apply Hl; lia | lia | apply Hb; lia |].
    split_and!; [done | done |]. intros m' Em'. split; [by apply Hm' | by apply Hb2]. }
  assert (Hcheck : forall j, (j <= m)%nat ->
    exists t', Some (set_pc t (CheckLevel m j)) = Some t' /\ thread_at l lv t' /\ same_insert t t').
  { intros j Hj. eexists. split; [done |]. split; [| done]. cbn. by split_and!. }
  unfold check_level. destruct (Nat.leb_spec m r) as [Hge | Hlt]; [apply Hstart; [done | lia] |].
  rewrite prev_lookup, next_lookup by lia. cbn [mbind option_bind].
  destruct (Hl r) as (Hplv & _); [lia |]. destruct (lk_next _ l lv H r _ Hplv) as (next & -> & _). cbn [mbind option_bind].
  destruct (negb (bool_decide (next = next_at (th_splice t) r))); [apply Hcheck; lia |].
  destruct (negb (prev_at (th_splice t) r =? head_)%nat && _) eqn:Ep; [| destruct (KeyIsAfterNode cmp l (th_key t) (next_at (th_splice t) r)) eqn:En].
  - destruct (allow_partial_splice_fix t); [| apply Hcheck; lia]. apply andb_prop in Ep as [Ep _]. apply negb_true_iff, Nat.eqb_neq in Ep.
    destruct (skip_equal_spec (prev_ (th_splice t)) (prev_at (th_splice t) r) (length (prev_ (th_splice t))) r m) as (j & -> & Hj & _);
      [lia | lia | rewrite prev_lookup by lia; rewrite <- Hm; congruence | lia |]. apply Hcheck. lia.
  - destruct (allow_partial_splice_fix t); [| apply Hcheck; lia].
    destruct (skip_equal_spec (splice_next_ (th_splice t)) (next_at (th_splice t) r) (length (splice_next_ (th_splice t))) r m)
      as (j & -> & Hj & _); [lia | lia | rewrite next_lookup by lia; intros a [= <-]; rewrite <- Hm, Ht2; by destruct (next_at (th_splice t) r) | lia |].
    apply Hcheck. lia.
  - apply Hstart; [lia |]. intros _. split.
    + destruct (Nat.eqb_spec (prev_at (th_splice t) r) head_); [by left | right]. cbn in Ep. by apply negb_false_iff, Z.ltb_lt in Ep.
    + intros m' Em'. rewrite Em' in En. by apply Z.ltb_ge in En.
Qed.

Lemma start_splice_ok l lv t m : linked cmp l lv -> thread_node l t -> lv (th_node t) = 0%nat ->
  splice_ok cmp l lv (th_splice t) -> splice_is_valid t = true ->
  (height_ (th_splice t) <= m <= max_height_ l)%nat -> (1 <= m)%nat -> (th_height t <= m)%nat ->
  exists t', start_splice t m = Some t' /\ thread_at l lv t' /\ same_insert t t'.
Proof.
  intros H Hn Hlv Hs Hv Hm Hm1 Hh. pose proof (lk_max _ l lv H) as Hmax. pose proof Hs as [Hs1 Hs2 Hs3 _ _].
  unfold start_splice. destruct (Nat.ltb_spec (height_ (th_splice t)) m) as [Hlt | Hge].
  - unfold write_splice. rewrite decide_True by lia. cbn [mbind option_bind].
    destruct (start_recompute_ok l lv (set_th_splice t (set_splice_height (set_splice (th_splice t) m head_ None) m)) m H)
      as (t' & E & Ht' & Hsame); [| by destruct Hn | cbn; lia | by exists t'].
    split; cbn; try done; try lia.
    + unfold sized. cbn. rewrite !length_insert. lia.
    + unfold topped, prev_at, next_at. cbn. by rewrite !list_lookup_insert_eq by lia.
  - eexists. split; [done |]. split; [| done]. cbn. split_and!; try done; lia.
Qed.

(** * One step of a thread *)

(** The effect of a step: the list grows, and the links that other threads rely on stay. *)
Definition step_effect l lv t l' lv' t' : Prop :=
  linked cmp l' lv' /\ same_nodes l l' /\ later l lv l' lv' /\
  (forall y, y <> th_node t -> untouched l lv l' lv' y) /\
  thread_ok l' lv' t' /\ same_insert t t'.

Lemma effect_local l lv t t' : linked cmp l lv -> thread_node l t -> thread_at l lv t' -> same_insert t t' ->
  step_effect l lv t l lv t'.
Proof.
  intros H [H1 H2 H3 H4] Ht (E1 & E2 & E3 & E4). split_and!; try done; [by apply later_same |].
  split; [| done]. split; congruence.
Qed.

Lemma LinkLevel_ok sp l lv t i : linked cmp l lv -> thread_node l t -> linking_at l lv t i -> th_pc t = LinkLevel i ->
  exists l' t', Insert_step cmp sp l t = Some (l', t') /\ step_effect l lv t l' lv t' /\ th_pc t' <> Returned true.
Proof.
  intros H Hn HK Epc. pose proof HK as [Hr Hlv (Hs1 & Hs2 & Hs3) Ht Hb Hst Hv Hnest]. pose proof (lk_max _ l lv H) as Hmax.
  unfold Insert_step. rewrite Epc, prev_lookup, next_lookup by lia. cbn [mbind option_bind].
  destruct (Hb i) as (Hp & Hlt & Hnx); [lia |]. destruct (is_duplicate _ _ _ _ _ _) eqn:Ed.
  - eexists _, _. split; [done |]. split; [| done]. apply effect_local; [done | done | | done]. unfold is_duplicate in Ed.
    apply andb_prop in Ed as [Ei Ed]. apply Nat.eqb_eq in Ei. subst i. cbn. split; [congruence |]. split.
    + split; try done. intros k Hk. apply (level_ok_parts l lv _ (th_key t)); auto.
    + apply orb_prop in Ed as [Ed | Ed].
      * rewrite Ei in *. destruct (next_at (th_splice t) 0) as [m |]; [| done]. apply Z.leb_le in Ed.
        destruct (Hnx m eq_refl). exists m. split; [done | lia].
      * apply andb_prop in Ed as [Ed1 Ed2]. apply negb_true_iff, Nat.eqb_neq in Ed1. rewrite Z.geb_leb in Ed2. apply Z.leb_le in Ed2.
        destruct Hlt as [| Hlt]; [done | lia].
  - pose proof Hn as [Hx Hk Hh _]. unfold UnstashHeight in Hh. destruct (nodes l !! th_node t) as [nd |] eqn:End; [| lia].
    destruct (set_private cmp l lv (th_node t) i (next_at (th_splice t) i) nd H End) as (l' & -> & Hsame & Hm' & Hl' & HN); [lia | lia |].
    cbn [mbind option_bind]. eexists _, _. split; [done |]. split; [| done].
    pose proof (later_same l l' lv lv Hsame ltac:(lia) ltac:(done)) as HL.
    assert (HU : forall y, y <> th_node t -> untouched l lv l' lv y).
    { intros y Hy. split; [done |]. intros j _. by rewrite HN, decide_False by (intros []; done). }
    assert (thread_node l' t) as [? ? ? ?].
    { destruct Hn as [? ? ? ?]. split; [done | by rewrite (same_key l l') | by rewrite (same_height l l') | by rewrite (proj1 Hsame)]. }
    split_and!; try done. split; [by split |]. cbn.
    assert (Hstrict : i = 0%nat -> forall m, next_at (th_splice t) i = Some m -> (0 < lv m)%nat /\ cmp (th_key t) (key_of l' m) < 0).
    { intros -> m Em. destruct (Hnx m Em) as [[_ Hm] Hge]. split; [lia |]. rewrite (same_key l l') by done.
      unfold is_duplicate in Ed. rewrite Em in Ed. cbn [Nat.eqb andb] in Ed. apply orb_false_elim in Ed as [Ed _]. apply Z.leb_gt in Ed.
      order_sgn cmp. lia. }
    split; [| split; [by rewrite HN, decide_True | done]].
    split; cbn; try done.
    + by apply (sized_later l lv l' lv).
    + intros k Hk'. by apply (bracket_later l lv l' lv); [| | apply Hb].
    + intros k m Hk' Em. rewrite (same_key l l') by done. by apply (Hst k).
    + intros Hv' k Hk'. apply (nested_later l lv l' lv); auto.
Qed.

Lemma FindAgain_ok sp l lv t i before : linked cmp l lv -> thread_node l t -> linking_at l lv t i ->
  searching l lv (th_key t) i (prev_at (th_splice t) i) before -> th_pc t = FindAgain i before ->
  exists t', Insert_step cmp sp l t = Some (l, t') /\ thread_at l lv t' /\ same_insert t t'.
Proof.
  intros H Hn HK ((Hp & Hbf) & Hlt & Hle) Epc. pose proof HK as [Hr Hlv Hs Ht Hb Hst Hv Hnest]. pose proof (lk_max _ l lv H) as Hmax.
  pose proof Hs as (Hs1 & Hs2 & Hs3). unfold Insert_step. rewrite Epc.
  destruct (lk_next _ l lv H i before Hbf) as (next & HN & Hsucc). rewrite HN. cbn [mbind option_bind].
  destruct (KeyIsAfterNode cmp l (th_key t) next) eqn:Ec; cbn [negb].
  - destruct next as [m |]; [| done]. cbn in Ec. apply Z.ltb_lt in Ec. eexists. split; [done |]. split; [| done]. cbn.
    split; [by destruct HK; split |]. destruct Hsucc as (Hm & Hbm & _). split_and!; [done | apply Hm | by right |].
    apply (node_le_before l _ before); [done | apply Hm | done].
  - assert (Hge : next_ge cmp l next (th_key t)) by (intros m ->; by apply Z.ltb_ge in Ec).
    unfold write_splice. rewrite decide_True by lia. cbn [mbind option_bind]. eexists. split; [done |]. split; [| done]. cbn.
    assert (Hbi : bracket l lv (set_splice (th_splice t) i before next) (th_key t) i).
    { unfold bracket. rewrite prev_set, next_set, !decide_True by (done || lia). split_and!; [done | done |].
      intros m ->. split; [by apply Hsucc | by apply Hge]. }
    split; cbn; try done.
    + by apply sized_set.
    + apply (topped_set l); [done | lia | lia | done].
    + intros k Hk. destruct (decide (k = i)) as [-> |]; [done |]. rewrite bracket_set by (done || lia). by apply Hb.
    + intros k m Hk. rewrite next_set, decide_False by lia. by apply Hst.
    + intros ->. by rewrite Hv.
    + intros [Hv' Hi]%andb_prop k Hk. apply Nat.eqb_eq in Hi. rewrite Hi in *. destruct (decide (k = 0)%nat) as [-> |].
      * destruct (Hnest Hv' 0%nat) as ((Hn1 & Hn2 & Hn3) & _); [lia |].
        apply (found l lv (th_splice t) (th_key t) 0 before next); [done | done | lia | | done | | done].
        -- split_and!; [done | done | done |]. destruct Hle as [E | [Hle1 Hle2]]; [| destruct Hn3 as [E | [Hn3 Hn4]]; [by left |]].
           ++ left. rewrite E in Hn3. by destruct Hn3 as [| []].
           ++ right. split; [done |]. by eapply cmp_trans.
        -- intros m Em. destruct (decide (1 = height_ (th_splice t))%nat) as [E |]; [rewrite E in Em; destruct Ht; congruence |].
           destruct (Hb 1%nat) as (_ & _ & Hm); [lia |]. destruct (Hm m Em). split; [| done]. by apply (on_level_le lv 1); [lia |].
      * rewrite nested_set by (done || lia). by apply Hnest.
Qed.

(** A node of the splice on a level where the thread is not linked yet is after its key. *)
Lemma next_strict l lv t i m : linked cmp l lv -> thread_node l t -> lv (th_node t) = i -> (0 < i)%nat ->
  on_level lv i m -> 0 <= cmp (key_of l m) (th_key t) -> (0 < lv m)%nat /\ cmp (th_key t) (key_of l m) < 0.
Proof.
  intros H [Hx Hk _ _] Hlv Hi [Hm1 Hm2] Hge. split; [lia |].
  assert (cmp (key_of l m) (th_key t) <> 0); [| order_sgn cmp; lia]. rewrite <- Hk. intros E.
  apply (lk_distinct _ l lv H) in E; [subst m; lia | split; [done | lia] | split; [done | lia]].
Qed.

(** The splice after the last level. *)
Lemma finish_ok l lv t : linked cmp l lv -> thread_node l t -> lv (th_node t) = th_height t ->
  (th_height t <= height_ (th_splice t))%nat -> sized l (th_splice t) -> topped (th_splice t) ->
  (forall k, (k < height_ (th_splice t))%nat -> bracket l lv (th_splice t) (th_key t) k) ->
  (forall k m, (k < th_height t)%nat -> next_at (th_splice t) k = Some m -> (0 < lv m)%nat /\ cmp (th_key t) (key_of l m) < 0) ->
  (splice_is_valid t = true -> forall k, (k < height_ (th_splice t))%nat -> nested l lv (th_splice t) k) ->
  thread_ok l lv (finish t).
Proof.
  intros H Hn Hlv Hh (Hs1 & Hs2 & Hs3) Ht Hb Hst Hnest. split; [by destruct Hn |]. unfold finish. cbn. split; [done |].
  destruct Hn as [Hx Hk _ _]. pose proof (lk_max _ l lv H).
  destruct (splice_is_valid t); [| split; cbn; try done; lia]. specialize (Hnest eq_refl).
  set (h := th_height t) in *. set (x := th_node t) in *. set (s := th_splice t) in *. set (s' := Build_Splice _ _ _).
  assert (Hprev : forall j, prev_at s' j = if decide (j < h)%nat then x else prev_at s j).
  { intros j. unfold prev_at, s'. cbn. case_decide as Hj.
    - rewrite lookup_app_l, lookup_replicate_2 by (rewrite ?length_replicate; lia). done.
    - rewrite lookup_app_r by (rewrite length_replicate; lia). rewrite length_replicate, lookup_drop.
      by replace (h + (j - h))%nat with j by lia. }
  split; try done.
  - unfold s'. cbn. rewrite length_app, length_replicate, length_drop. lia.
  - intros _. rewrite Hprev. unfold s'; cbn. rewrite decide_False by lia. done.
  - unfold s' at 1; cbn. intros i Hi. change (next_at s') with (next_at s). destruct (Hb i Hi) as (Hb1 & Hb2 & Hb3).
    pose proof (level_ok_parts l lv s (th_key t) i (Hb i Hi) (Hnest i Hi)) as (_ & Hl2 & Hl3 & Hl4).
    unfold level_ok. rewrite !Hprev. change (next_at s') with (next_at s). case_decide as Hih; [| by rewrite decide_False by lia].
    split_and!; [lia | | | done].
    + intros m Em. split; [by apply Hb3 |]. right. rewrite Hk. by apply (Hst i).
    + case_decide as HSi; [apply node_le_refl |]. destruct (decide (S i = height_ s)) as [E |]; [rewrite E; left; apply Ht |].
      destruct (Hb (S i)) as (_ & [Hlt | Hlt] & _); [lia | by left | right]. split; [done |]. rewrite Hk. lia.
Qed.

(** A swap that succeeds links the node on the level. *)
Lemma swap_links l lv t i : linked cmp l lv -> thread_node l t -> linking_at l lv t i ->
  Node_Next l (th_node t) i = Some (next_at (th_splice t) i) ->
  (i = 0%nat -> forall m, next_at (th_splice t) i = Some m -> (0 < lv m)%nat /\ cmp (th_key t) (key_of l m) < 0) ->
  Node_Next l (prev_at (th_splice t) i) i = Some (next_at (th_splice t) i) ->
  exists l', Node_SetNext l (prev_at (th_splice t) i) i (Some (th_node t)) = Some l' /\ same_nodes l l' /\
    linked cmp l' (lv_set lv (th_node t) (S i)) /\ later l lv l' (lv_set lv (th_node t) (S i)) /\
    (forall y, y <> th_node t -> untouched l lv l' (lv_set lv (th_node t) (S i)) y) /\
    (forall k m, (k <= i)%nat -> next_at (th_splice t) k = Some m -> (0 < lv m)%nat /\ cmp (th_key t) (key_of l m) < 0).
Proof.
  intros H Hn HK HNx H0 HNp. pose proof HK as [Hr Hlv (Hs1 & Hs2 & Hs3) Ht Hb Hst Hv Hnest].
  destruct (Hb i) as (Hp & Hlt & Hnx); [lia |]. pose proof Hn as [Hx Hk Hh _]. pose proof (lk_max _ l lv H).
  assert (Hstrict : forall m, next_at (th_splice t) i = Some m -> (0 < lv m)%nat /\ cmp (th_key t) (key_of l m) < 0).
  { intros m Em. destruct (decide (i = 0)%nat) as [E |]; [by apply H0 |]. destruct (Hnx m Em).
    apply (next_strict l lv t i); [done.. | lia | done | done]. }
  destruct (publish cmp l lv (th_node t) (prev_at (th_splice t) i) i (next_at (th_splice t) i) H Hx Hlv Hp HNp)
    as (l' & E & Hsame & Hm' & Hl' & HN).
  - by rewrite Hk.
  - destruct (next_at (th_splice t) i) as [m |]; [| done]. rewrite Hk. by apply Hstrict.
  - lia.
  - lia.
  - done.
  - exists l'. split_and!; [done | done | done | | |].
    + apply later_same; [done | lia |]. intros y. unfold lv_set. case_decide; subst; lia.
    + intros y Hy. unfold untouched, lv_set. rewrite decide_False by done. split; [done |]. intros j Hj.
      rewrite HN, decide_False; [done |]. intros [-> ->]. lia.
    + intros k m Hki Em. destruct (decide (k = i)) as [-> |]; [by apply Hstrict |]. apply (Hst k); [lia | done].
Qed.

Lemma SwapLevel_ok sp l lv t i : linked cmp l lv -> thread_ok l lv t -> th_pc t = SwapLevel i ->
  exists l' lv' t', Insert_step cmp sp l t = Some (l', t') /\ step_effect l lv t l' lv' t' /\
    ((l' = l /\ lv' = lv /\ exists before, th_pc t' = FindAgain i before) \/
     lv' = lv_set lv (th_node t) (S i) /\ (th_pc t' = LinkLevel (S i) \/ th_pc t' = Returned true) /\
     forall y, i = 0%nat -> on_level lv 0 y -> cmp (key_of l y) (th_key t) <> 0).
Proof.
  intros H [Hn Hat] Epc. unfold thread_at in Hat. rewrite Epc in Hat. destruct Hat as (HK & HNx & H0).
  pose proof HK as [Hr Hlv (Hs1 & Hs2 & Hs3) Ht Hb Hst Hv Hnest]. pose proof (lk_max _ l lv H) as Hmax.
  unfold Insert_step. rewrite Epc, prev_lookup, next_lookup by lia. cbn [mbind option_bind].
  destruct (Hb i) as (Hp & Hlt & Hnx); [lia |]. destruct (lk_next _ l lv H i _ Hp) as (next & HNp & Hsucc). rewrite HNp. cbn [mbind option_bind].
  case_bool_decide as En.
  2: { eexists l, lv, _. split; [done |]. split; [| by left; eauto]. apply effect_local; [done | done | | done]. cbn.
       split; [by destruct HK; split |]. split_and!; [lia | lia | done | apply node_le_refl]. }
  subst next. destruct (swap_links l lv t i H Hn HK HNx H0 HNp) as (l' & -> & Hsame & Hl' & HL & HU & Hstrict).
  cbn [mbind option_bind]. set (lv' := lv_set lv (th_node t) (S i)) in *.
  assert (Hn' : thread_node l' t).
  { destruct Hn as [? ? ? ?]. split; [done | by rewrite (same_key l l') | by rewrite (same_height l l') | by rewrite (proj1 Hsame)]. }
  assert (Hlv' : lv' (th_node t) = S i) by (unfold lv', lv_set; by rewrite decide_True).
  assert (Hb' : forall k, (k < height_ (th_splice t))%nat -> bracket l' lv' (th_splice t) (th_key t) k)
    by (intros k Hk; by apply (bracket_later l lv l' lv'); [| | apply Hb]).
  assert (Hst' : forall k m, (k < S i)%nat -> next_at (th_splice t) k = Some m -> (0 < lv' m)%nat /\ cmp (th_key t) (key_of l' m) < 0).
  { intros k m Hk Em. apply (strict_later l lv l' lv' H HL). apply (Hstrict k); [lia | done]. }
  assert (Hs' : sized l' (th_splice t)) by (by apply (sized_later l lv l' lv')).
  assert (Hnest' : splice_is_valid t = true -> forall k, (k < height_ (th_splice t))%nat -> nested l' lv' (th_splice t) k)
    by (intros Hv' k Hk; apply (nested_later l lv l' lv'); auto).
  eexists l', lv', _. split; [done |]. assert (Hfresh : forall y, i = 0%nat -> on_level lv 0 y -> cmp (key_of l y) (th_key t) <> 0).
  { intros y -> Hy E. pose proof Hn as [Hx Hk _ _]. assert (Hyx : y <> th_node t) by (intros ->; destruct Hy; lia).
    apply Hyx, (lk_distinct _ l' lv' Hl'); [by apply (later_on l lv l' lv') | split; [done | lia] |].
    rewrite !(same_key l l') by done. by rewrite Hk. }
  destruct (Nat.eqb_spec (S i) (th_height t)) as [Eh | Hne].
  - split; [| right; split_and!; [done | by right | done]]. split_and!; try done.
    apply finish_ok; try done; [by rewrite Hlv' | lia | by rewrite <- Eh].
  - split; [| right; split_and!; [done | by left | done]]. split_and!; try done. split; [by destruct Hn' |]. cbn.
    split; cbn; try done; lia.
Qed.

Lemma Insert_step_ok sp l lv t : linked cmp l lv -> thread_ok l lv t -> returned t = None ->
  exists l' lv' t', Insert_step cmp sp l t = Some (l', t') /\ step_effect l lv t l' lv' t' /\
    ((lv' = lv /\ forall i, th_pc t = SwapLevel i -> exists before, th_pc t' = FindAgain i before) \/
     exists i, th_pc t = SwapLevel i /\ lv' = lv_set lv (th_node t) (S i) /\ (th_pc t' = LinkLevel (S i) \/ th_pc t' = Returned true) /\
       forall y, i = 0%nat -> on_level lv 0 y -> cmp (key_of l y) (th_key t) <> 0).
Proof.
  intros H Hok Hret. pose proof Hok as [Hn Ht]. unfold thread_at in Ht. pose proof (lk_max _ l lv H) as Hmax.
  assert (Hlocal : forall r (P : _ -> _ -> _ -> Prop), (exists t', r = Some (l, t') /\ thread_at l lv t' /\ same_insert t t') ->
    (forall t', P l lv t') -> exists l' lv' t', r = Some (l', t') /\ step_effect l lv t l' lv' t' /\ P l' lv' t').
  { intros r P (t' & -> & Ht' & Hs') HP. exists l, lv, t'. split; [done |]. split; [by apply effect_local | done]. }
  destruct (th_pc t) as [| m | m r | i before after | i | i | i before | b] eqn:Epc.
  - apply Hlocal; [| by left]. unfold Insert_step. rewrite Epc. eexists. split; [done |]. split; [| done]. cbn.
    destruct Ht as (? & Hs & ?). pose proof (so_height _ _ _ _ Hs). split_and!; try done; lia.
  - destruct Ht as (Hlv & Hs & Hv & Hm & Hm1). unfold Insert_step. rewrite Epc. destruct (Nat.ltb_spec m (th_height t)) as [Hlt | Hge].
    2: { apply Hlocal; [| by left]. destruct (start_splice_ok l lv t m H Hn Hlv Hs Hv Hm Hm1 Hge) as (t' & -> & ? & ?). by exists t'. }
    destruct ((m =? max_height_ l)%nat && negb sp) eqn:Eb.
    2: { apply Hlocal; [| by left]. eexists. split; [done |]. split; [| done]. cbn. split_and!; try done; [|lia]. pose proof (so_height _ _ _ _ Hs). lia. }
    apply andb_prop in Eb as [Em _]. apply Nat.eqb_eq in Em. pose proof (tn_range _ _ Hn) as Hrange.
    pose proof (linked_raise cmp l lv (th_height t) H ltac:(lia)) as H'. replace (Nat.max (max_height_ l) (th_height t)) with (th_height t) in H' by lia.
    set (l' := set_max_height l (th_height t)) in *. assert (Hsame : same_nodes l l') by done.
    assert (HL : later l lv l' lv) by (apply later_same; [done | unfold l'; cbn; lia | done]).
    assert (Hn' : thread_node l' t) by (destruct Hn; by split).
    destruct (start_splice_ok l' lv t (th_height t) H' Hn' Hlv) as (t' & -> & Ht' & Hs');
      [by apply (splice_later l lv l' lv) | done | unfold l'; cbn; lia | lia | done |].
    cbn [mbind option_bind]. exists l', lv, t'. split; [done |]. split; [| by left]. split_and!; try done.
    destruct Hs' as (E1 & E2 & E3 & E4). destruct Hn'. split; [split; congruence | done].
  - apply Hlocal; [| by left]. destruct Ht as (? & ? & ? & ?). destruct (CheckLevel_ok l lv t m r) as (t' & E & Ht'); [done.. |].
    unfold Insert_step. rewrite Epc, E. by exists t'.
  - apply Hlocal; [| by left]. destruct Ht as (? & ? & ?). by apply (FindLevel_ok sp l lv t i before after).
  - destruct (LinkLevel_ok sp l lv t i H Hn Ht Epc) as (l' & t' & E & He & _). exists l', lv, t'. split_and!; [done | done |]. by left.
  - destruct (SwapLevel_ok sp l lv t i H Hok Epc) as (l' & lv' & t' & E & He & Hc). exists l', lv', t'. split_and!; [done | done |].
    destruct Hc as [(-> & -> & Hf) | Hc]; [left; split; [done |]; by intros j [= <-] | right; by exists i].
  - apply Hlocal; [| by left]. destruct Ht as (? & ?). by apply (FindAgain_ok sp l lv t i before).
  - unfold returned in Hret. by rewrite Epc in Hret.
Qed.
End Threads.
