(* ===== verification/SkipListLinearizable.v ===== *)
(** Insertions of several threads into the skip list are linearizable: every interleaving
    of their steps is a sequence of insertions into a sorted set. *)

From stdpp Require Import gmap sorting.
From S2P Require Import Prelude Comparator Status Cursor SkipList SkipListProofs SkipListInsert SkipListTheorems SkipListConcurrent SkipListThreads.

(** * The order of the insertions *)

(** An insertion takes effect when its node is linked on the lowest level, or when it is found
    that the key is there. *)
Definition commits (t t' : InsertThread) : option bool :=
  match th_pc t, th_pc t' with
  | SwapLevel 0, FindAgain _ _ => None
  | SwapLevel 0, _ => Some true
  | LinkLevel 0, Returned false => Some false
  | _, _ => None
  end.

(** The node of an insertion identifies it. *)
Record Commit := { c_node : nat; c_key : bytes; c_result : bool }.
Definition thread_commit (t : InsertThread) (b : bool) : Commit :=
  {| c_node := th_node t; c_key := th_key t; c_result := b |}.
Definition step_commit (st st' : SkipListSystem) (ev : SystemEvent) : list Commit :=
  match ev with
  | StartInsert _ _ _ _ => []
  | StepInsert tid _ =>
      match threads st !! tid, threads st' !! tid with
      | Some t, Some t' => match commits t t' with Some b => [thread_commit t b] | None => [] end
      | _, _ => []
      end
  end.
Definition commit_op (c : Commit) : InsertOp := {| op_key := c_key c; op_height := 0; op_hint := None |}.

Section Linearizable.
Context (cmp : bytes -> bytes -> Z) {KO : KeyOrder cmp}.
Implicit Types (l : InlineSkipList) (s : Splice) (t : InsertThread) (x y z : nat) (lv : nat -> nat) (st : SkipListSystem).

Fixpoint commit_log st (evs : list SystemEvent) : list Commit :=
  match evs with
  | [] => []
  | ev :: evs =>
      match system_step cmp st ev with
      | Some st' => step_commit st st' ev ++ commit_log st' evs
      | None => []
      end
  end.

Lemma set_inserts_app ks ops1 ops2 :
  set_inserts cmp ks (ops1 ++ ops2) =
    let r1 := set_inserts cmp ks ops1 in let r2 := set_inserts cmp r1.2 ops2 in (r1.1 ++ r2.1, r2.2).
Proof.
  revert ks. induction ops1 as [| op ops1 IH]; intros ks; cbn [app set_inserts].
  - cbn zeta. cbn [fst snd app]. by rewrite <- surjective_pairing.
  - destruct (set_insert cmp ks (op_key op)) as [b ks']. rewrite IH. cbn zeta.
    destruct (set_inserts cmp ks' ops1) as [bs1 ks1]. cbn [fst snd]. by destruct (set_inserts cmp ks1 ops2).
Qed.

(** * The effect of a step on the set *)

Lemma start_recompute_pc t r t' : start_recompute t r = Some t' -> returned t' = None.
Proof.
  destruct r as [| r]; cbn; [by intros [= <-] |]. intros (p & _ & E)%bind_Some. apply bind_Some in E as (n & _ & E). by injection E as <-.
Qed.
Lemma start_splice_pc t m t' : start_splice t m = Some t' -> returned t' = None.
Proof.
  unfold start_splice. case_match; [| by intros [= <-]]. intros (s & _ & E)%bind_Some. by apply start_recompute_pc in E.
Qed.
Lemma check_level_pc l t m r t' : check_level cmp l t m r = Some t' -> returned t' = None.
Proof.
  unfold check_level. case_match; [apply start_recompute_pc |]. intros (p & _ & E)%bind_Some. apply bind_Some in E as (n & _ & E).
  apply bind_Some in E as (next & _ & E). case_match; [by simplify_eq |].
  repeat case_match; try (by simplify_eq); try (apply bind_Some in E as (i & _ & E); by simplify_eq). by apply start_recompute_pc in E.
Qed.
Lemma step_returns sp l t l' t' : Insert_step cmp sp l t = Some (l', t') -> th_pc t' = Returned false -> th_pc t = LinkLevel 0.
Proof.
  unfold Insert_step. intros E Hret. assert (Hr : returned t' = Some false) by (unfold returned; by rewrite Hret).
  destruct (th_pc t) as [| m | m r | i before after | i | i | i before | b].
  - by simplify_eq.
  - repeat case_match; try (by simplify_eq); apply bind_Some in E as (t1 & E1 & E); apply start_splice_pc in E1; injection E as <- <-; congruence.
  - apply bind_Some in E as (t1 & E1 & E). apply check_level_pc in E1. injection E as <- <-; congruence.
  - apply bind_Some in E as (next & _ & E). repeat case_match; try (by simplify_eq).
    apply bind_Some in E as (s & _ & E). apply bind_Some in E as (t1 & E1 & E). apply start_recompute_pc in E1. injection E as <- <-; congruence.
  - apply bind_Some in E as (p & _ & E). apply bind_Some in E as (n & _ & E). case_match eqn:Ed.
    + by destruct i.
    + apply bind_Some in E as (l1 & _ & E). by simplify_eq.
  - apply bind_Some in E as (p & _ & E). apply bind_Some in E as (n & _ & E). apply bind_Some in E as (next & _ & E).
    case_match; [| by simplify_eq]. apply bind_Some in E as (l1 & _ & E). injection E as _ <-. by case_match.
  - apply bind_Some in E as (next & _ & E). repeat case_match; try (by simplify_eq). apply bind_Some in E as (s & _ & E). by simplify_eq.
  - done.
Qed.

(** What a step does to the set of keys, and to the level that makes its node a member. *)
Definition commit_effect l lv t l' lv' t' : Prop :=
  match commits t t' with
  | Some b => set_insert cmp (list_keys l) (th_key t) = (b, list_keys l') /\ lv (th_node t) = 0%nat /\
      (if b then 0 < lv' (th_node t) else lv' (th_node t) = 0)%nat /\ (th_pc t' = Returned false <-> b = false)
  | None => list_keys l' = list_keys l /\ th_pc t' <> Returned false /\ (0 < lv' (th_node t) <-> 0 < lv (th_node t))%nat
  end.

Lemma commit_spec sp l lv t : linked cmp l lv -> thread_ok cmp l lv t -> returned t = None ->
  exists l' lv' t', Insert_step cmp sp l t = Some (l', t') /\ step_effect cmp l lv t l' lv' t' /\ commit_effect l lv t l' lv' t'.
Proof.
  intros H Hok Hr. destruct (Insert_step_ok cmp sp l lv t H Hok Hr) as (l' & lv' & t' & E & He & Hc).
  exists l', lv', t'. split; [done |]. split; [done |]. pose proof (step_returns sp l t l' t' E) as Hret.
  destruct He as (H' & Hsame & HL & HU & [Hn' Hat'] & (E1 & E2 & _)). pose proof (fun y => same_key l l' y Hsame) as Hk.
  destruct Hok as [Hn Hat]. unfold commit_effect.
  assert (Hquiet : (forall y, on_level lv' 0 y <-> on_level lv 0 y) -> list_keys l' = list_keys l).
  { intros Hlv. by apply (list_keys_same cmp l l' lv lv'). }
  destruct Hc as [[-> Hagain] | (i & Epc & -> & Hpc' & Hnew)].
  - assert (commits t t' = if decide (th_pc t' = Returned false) then Some false else None) as ->.
    { unfold commits. case_decide as E'; [by rewrite (Hret E'), E' |]. destruct (th_pc t) as [| | | | [] | [] | |] eqn:Epc; try done.
      - by destruct (th_pc t') as [| | | | | | | []].
      - by destruct (Hagain 0%nat eq_refl) as [before ->]. }
    case_decide as E'; [| by rewrite Hquiet]. unfold thread_at in Hat'. rewrite E' in Hat'. destruct Hat' as (Hlv' & _ & y & Hy & Ey).
    rewrite E1 in Hlv'. rewrite E2 in Ey. rewrite <- (Hquiet ltac:(done)). split_and!; [| done..].
    apply (set_insert_present cmp l' lv); eauto.
  - destruct Hn as [Hx Hkey _ _]. unfold thread_at in Hat. rewrite Epc in Hat. destruct Hat as (HK & _).
    pose proof (la_lv _ _ _ _ _ HK) as Hlv.
    assert (Hlv' : lv_set lv (th_node t) (S i) (th_node t) = S i) by (unfold lv_set; by rewrite decide_True).
    assert (Hon : forall y, on_level (lv_set lv (th_node t) (S i)) 0 y <-> on_level lv 0 y \/ y = th_node t).
    { intros y. unfold on_level, lv_set. case_decide as Ey; [subst y; split; [by right | by split; [| lia]] | intuition]. }
    unfold commits. rewrite Epc. destruct i as [| i].
    + assert (match th_pc t' with FindAgain _ _ => None | _ => Some true end = Some true) as -> by (by destruct Hpc' as [-> | ->]).
      split_and!; [| done | lia | destruct Hpc' as [-> | ->]; by split].
      rewrite <- Hkey, <- Hk. apply (set_insert_new cmp l l' lv (lv_set lv (th_node t) 1) (th_node t)); try done; [intros []; lia |].
      intros y Hy. rewrite Hk, Hkey. by apply Hnew.
    + split_and!; [| by destruct Hpc' as [-> | ->] | lia]. apply Hquiet. intros y. rewrite Hon. split; [| by left].
      intros [| ->]; [done | split; [done | lia]].
Qed.

(** * The invariant of the system *)

(** A thread has an entry in the log once it has taken effect. *)
Definition logged lv (log : list Commit) t : Prop :=
  if decide (th_pc t = Returned false) then thread_commit t false ∈ log
  else if decide (0 < lv (th_node t))%nat then thread_commit t true ∈ log
  else th_node t ∉ map c_node log.

Record system_ok st lv (log : list Commit) : Prop := {
  sy_linked : linked cmp (shared st) lv;
  sy_compact : compact (shared st);
  sy_hints h s : hints st !! h = Some s -> splice_ok cmp (shared st) lv s;
  sy_threads tid t : threads st !! tid = Some t -> thread_ok cmp (shared st) lv t;
  sy_distinct i j t t' : threads st !! i = Some t -> threads st !! j = Some t' -> th_node t = th_node t' -> i = j;
  sy_log : (map c_result log, list_keys (shared st)) = set_inserts cmp [] (map commit_op log);
  sy_nodup : NoDup (map c_node log);
  sy_nodes c : c ∈ log -> is_Some (nodes (shared st) !! c_node c);
  sy_logged tid t : threads st !! tid = Some t -> logged lv log t;
}.

Lemma thread_node_exists l t : thread_node l t -> is_Some (nodes l !! th_node t).
Proof. intros [_ _ Hh Hr]. unfold UnstashHeight in Hh. destruct (nodes l !! th_node t); [by eexists | lia]. Qed.

Lemma returned_ok l lv t b : thread_ok cmp l lv t -> returned t = Some b -> splice_ok cmp l lv (th_splice t).
Proof.
  intros [_ Ht] Hr. unfold returned in Hr. unfold thread_at in Ht. destruct (th_pc t) as [| | | | | | | []]; try done; tauto.
Qed.

(** Another thread's entry is not disturbed. *)
Lemma logged_other lv lv' log log' t : lv' (th_node t) = lv (th_node t) -> (forall c, c ∈ log' -> c_node c <> th_node t) ->
  logged lv log t -> logged lv' (log ++ log') t.
Proof.
  intros E Hlog'. unfold logged. rewrite E. repeat case_decide; rewrite ?map_app, ?elem_of_app; [by left | by left |].
  intros Hlog [| (c & Ec & Hc)%list_elem_of_fmap]; [done |]. by apply (Hlog' c).
Qed.

Lemma step_logged lv lv' log t t' l l' : th_node t' = th_node t -> th_key t' = th_key t -> returned t = None ->
  commit_effect l lv t l' lv' t' -> logged lv log t ->
  let new := match commits t t' with Some b => [thread_commit t b] | None => [] end in
  logged lv' (log ++ new) t' /\ (NoDup (map c_node log) -> NoDup (map c_node (log ++ new))) /\
  ((map c_result log, list_keys l) = set_inserts cmp [] (map commit_op log) ->
   (map c_result (log ++ new), list_keys l') = set_inserts cmp [] (map commit_op (log ++ new))).
Proof.
  intros E1 E2 Hr Hc Hlog. assert (Hpc : th_pc t <> Returned false) by (intros E; unfold returned in Hr; by rewrite E in Hr).
  assert (Ecommit : forall b, thread_commit t' b = thread_commit t b) by (intros b; unfold thread_commit; by rewrite E1, E2).
  unfold commit_effect in Hc. unfold logged in *. rewrite E1. rewrite decide_False in Hlog by done. destruct (commits t t') as [b |]; cbn zeta.
  - destruct Hc as (Hins & Hlv & Hlv' & Hret). rewrite decide_False in Hlog by lia. rewrite !map_app. split_and!.
    + rewrite !Ecommit. destruct b.
      * rewrite decide_False by (rewrite Hret; done). rewrite decide_True by done. apply elem_of_app. right. by apply list_elem_of_singleton.
      * rewrite decide_True by (by apply Hret). apply elem_of_app. right. by apply list_elem_of_singleton.
    + intros Hnd. apply list.NoDup_app. split_and!; [done | | apply NoDup_singleton]. intros y Hy ->%list_elem_of_singleton. done.
    + intros Hs. rewrite set_inserts_app. cbn zeta. rewrite <- Hs. cbn. by rewrite Hins.
  - destruct Hc as (Hkeys & Hret & Hlv). rewrite app_nil_r, Hkeys. split_and!; try done. rewrite decide_False by done. rewrite Ecommit.
    repeat case_decide; try done; lia.
Qed.

Lemma system_step_ok st lv log tid sp t : system_ok st lv log -> threads st !! tid = Some t -> returned t = None ->
  exists st' lv', system_step cmp st (StepInsert tid sp) = Some st' /\ kMaxHeight_ (shared st') = kMaxHeight_ (shared st) /\
    system_ok st' lv' (log ++ step_commit st st' (StepInsert tid sp)).
Proof.
  intros Hsys Et Hr. pose proof Hsys as [H Hc Hh Hth Hd Hlog Hnd Hnodes Hlg].
  destruct (commit_spec sp (shared st) lv t H (Hth tid t Et) Hr) as (l' & lv' & t' & E & He & Hce).
  destruct He as (H' & Hsame & HL & HU & Hok' & Hsi). pose proof Hsi as (E1 & E2 & E3 & E4).
  cbn [system_step]. rewrite Et. cbn [mbind option_bind]. rewrite E. cbn [mbind option_bind fst snd].
  eexists _, lv'. split; [done |]. split; [apply Hsame |]. cbn [step_commit threads]. rewrite Et, lookup_insert_eq.
  destruct (step_logged lv lv' log t t' (shared st) l' E1 E2 Hr Hce (Hlg tid t Et)) as (Hl1 & Hl2 & Hl3).
  set (new := match commits t t' with Some b => _ | None => _ end) in *.
  assert (Hnew : forall c, c ∈ new -> c_node c = th_node t).
  { intros c. unfold new. destruct (commits t t'); [by intros ->%list_elem_of_singleton | by intros ?%not_elem_of_nil]. }
  assert (Hothers : forall j tj, tid <> j -> threads st !! j = Some tj -> th_node tj <> th_node t).
  { intros j tj Hj Ej En. apply Hj. symmetry. by apply (Hd j tid tj t). }
  split; cbn [shared threads hints].
  - done.
  - by apply (same_compact (shared st)).
  - intros h s Hs. assert (hints st !! h = Some s \/ s = th_splice t' /\ is_Some (returned t')) as [Hs' | [-> [b Hb]]].
    { destruct (returned t'); [| by left]. destruct (allow_partial_splice_fix t); [| by left].
      apply lookup_insert_Some in Hs as [[_ <-] | [_ Hs]]; [right; eauto | by left]. }
    + apply (splice_later cmp (shared st) lv l' lv'); [done | done |]. by apply (Hh h).
    + by apply (returned_ok l' lv' t' b).
  - intros j tj Hj. apply lookup_insert_Some in Hj as [[_ <-] | [Hne Hj]]; [done |].
    apply (thread_later cmp (shared st) lv l' lv'); [done | done | apply HU; by apply (Hothers j) | by apply (Hth j)].
  - intros i j ti tj Hi Hj Hn. apply lookup_insert_Some in Hi as [[<- <-] | [Hi Ei]], Hj as [[<- <-] | [Hj Ej]]; [done | | |].
    + symmetry in Hn. rewrite E1 in Hn. by apply (Hothers j) in Hn.
    + rewrite E1 in Hn. by apply (Hothers i) in Hn.
    + by apply (Hd i j ti tj).
  - by apply Hl3.
  - by apply Hl2.
  - intros c [Hc' | Hc']%elem_of_app.
    + destruct (Hnodes c Hc') as [nd E']. destruct (lt_nodes _ _ _ _ HL _ _ E') as (nd' & -> & _). by eexists.
    + rewrite (Hnew c Hc'), <- E1. apply thread_node_exists, Hok'.
  - intros j tj Hj. apply lookup_insert_Some in Hj as [[_ <-] | [Hne Hj]]; [done |]. apply (logged_other lv); [| | by apply (Hlg j)].
    + apply HU. by apply (Hothers j).
    + intros c Hc'. rewrite (Hnew c Hc'). intros En. by apply (Hothers j tj).
Qed.

(** * The start of an insertion *)

Lemma allocated_later l lv key h : linked cmp l lv -> compact l -> later l lv (allocated l key h) lv.
Proof.
  intros H Hc. split; try done. intros y nd E. exists nd. rewrite allocated_lookup, decide_False; [done |].
  intros ->. unfold new_node in E. cbn in E. rewrite fresh_node in E; done.
Qed.
Lemma allocated_untouched l lv key h y : is_Some (nodes l !! y) -> compact l -> untouched l lv (allocated l key h) lv y.
Proof.
  intros [nd E] Hc. split; [done |]. intros j _. unfold Node_Next. rewrite allocated_lookup, decide_False; [done |].
  intros ->. unfold new_node in E. cbn in E. rewrite fresh_node in E; done.
Qed.
Lemma local_splice_ok l lv : (kMaxHeight_ l < kMaxPossibleHeight)%nat -> splice_ok cmp l lv local_splice.
Proof. intros Hk. split; cbn; rewrite ?length_replicate; try done; lia. Qed.

Lemma start_ok st lv log tid key h with_hint : system_ok st lv log -> (0 < h <= kMaxHeight_ (shared st))%nat ->
  (kMaxHeight_ (shared st) < kMaxPossibleHeight)%nat ->
  forall st', system_step cmp st (StartInsert tid key h with_hint) = Some st' ->
  kMaxHeight_ (shared st') = kMaxHeight_ (shared st) /\ system_ok st' lv log.
Proof.
  intros Hsys Hh Hk st' E. pose proof Hsys as [H Hc Hhints Hth Hd Hlog Hnd Hnodes Hlg]. cbn [system_step] in E.
  apply bind_Some in E as (_ & _ & E). injection E as <-. set (l := shared st) in *.
  change (set_nodes l _) with (allocated l key h). pose proof (new_unlinked cmp l lv key h H Hc) as [Hn0 Hnh].
  pose proof (new_key l key h) as [Ek Eh]. pose proof (allocated_linked cmp l lv key h H Hc) as Ha.
  pose proof (allocated_later l lv key h H Hc) as HL. change (size (nodes l)) with (new_node l key h).
  assert (Hold : forall y, is_Some (nodes l !! y) -> y <> new_node l key h).
  { intros y [nd Ey] ->. unfold new_node in Ey. cbn in Ey. rewrite fresh_node in Ey; done. }
  split; [done |]. split; cbn [shared threads hints].
  - done.
  - by apply allocated_compact.
  - intros i s Hs. apply (splice_later cmp l lv (allocated l key h) lv); [done | done |]. by apply (Hhints i).
  - intros j t Hj. apply lookup_insert_Some in Hj as [[_ <-] | [Hne Hj]].
    + split; [by split |]. cbn. split_and!; try done. destruct with_hint; [| by apply local_splice_ok].
      apply (splice_later cmp l lv (allocated l key h) lv); [done | done |].
      destruct (hints st !! tid) as [s |] eqn:Es; cbn; [by apply (Hhints tid) | apply new_splice_ok].
    + apply (thread_later cmp l lv (allocated l key h) lv); [done | done | | by apply (Hth j)].
      apply allocated_untouched; [| done]. by apply thread_node_exists, (Hth j).
  - intros i j ti tj Hi Hj Hn. apply lookup_insert_Some in Hi as [[<- <-] | [Hi Ei]], Hj as [[<- <-] | [Hj Ej]]; [done | | |].
    + exfalso. apply (Hold (th_node tj)); [by apply thread_node_exists, (Hth j) | done].
    + exfalso. apply (Hold (th_node ti)); [by apply thread_node_exists, (Hth i) | done].
    + by apply (Hd i j ti tj).
  - rewrite <- Hlog. f_equal. apply (list_keys_same cmp l _ lv lv); [done | done | done |]. intros y [_ Hy]. by apply (allocated_key cmp l lv).
  - done.
  - intros c Hc'. destruct (Hnodes c Hc') as [nd E']. destruct (lt_nodes _ _ _ _ HL _ _ E') as (nd' & -> & _). by eexists.
  - intros j t Hj. apply lookup_insert_Some in Hj as [[_ <-] | [Hne Hj]]; [| by apply (Hlg j)].
    unfold logged. cbn [th_pc th_node]. rewrite decide_False by done. rewrite decide_False by lia.
    intros (c & Ec & Hc')%list_elem_of_fmap. by apply (Hold (c_node c)); [apply Hnodes |].
Qed.

(** * Runs *)

Definition event_ok (max_height : nat) (ev : SystemEvent) : Prop :=
  match ev with StartInsert _ _ h _ => (0 < h <= max_height)%nat | StepInsert _ _ => True end.

Lemma system_run_ok evs : forall st lv log st', system_ok st lv log -> (kMaxHeight_ (shared st) < kMaxPossibleHeight)%nat ->
  Forall (event_ok (kMaxHeight_ (shared st))) evs -> system_run cmp st evs = Some st' ->
  exists lv', system_ok st' lv' (log ++ commit_log st evs).
Proof.
  induction evs as [| ev evs IH]; intros st lv log st' Hsys Hk Hev E; cbn [system_run commit_log] in *.
  - injection E as <-. exists lv. by rewrite app_nil_r.
  - apply list.Forall_cons in Hev as [Hev1 Hev]. apply bind_Some in E as (st1 & E1 & E). rewrite E1, app_assoc.
    assert (exists lv1, kMaxHeight_ (shared st1) = kMaxHeight_ (shared st) /\ system_ok st1 lv1 (log ++ step_commit st st1 ev)) as (lv1 & Ek & Hsys1).
    { destruct ev as [tid key h hint | tid sp].
      - exists lv. cbn [step_commit]. rewrite app_nil_r. by apply (start_ok st lv log tid key h hint).
      - pose proof E1 as E2. cbn [system_step] in E2. apply bind_Some in E2 as (t & Et & E2). apply bind_Some in E2 as (r & Er & _).
        assert (Hr : returned t = None) by (unfold returned; unfold Insert_step in Er; by destruct (th_pc t)).
        destruct (system_step_ok st lv log tid sp t Hsys Et Hr) as (st2 & lv2 & E3 & Hk2 & Hsys2). rewrite E1 in E3. injection E3 as <-.
        by exists lv2. }
    apply (IH st1 lv1 _ st'); rewrite ?Ek; done.
Qed.
End Linearizable.

Definition new_system (max_height : nat) (branching : Z) : SkipListSystem :=
  {| shared := MakeInlineSkipList max_height branching; threads := ∅; hints := ∅ |}.

Lemma new_system_ok cmp `{!KeyOrder cmp} max_height branching : (0 < max_height)%nat ->
  exists lv, system_ok cmp (new_system max_height branching) lv [].
Proof.
  intros Hm. destruct (new_list_ok cmp max_height branching Hm) as (lv & H & Hc & _). exists lv. cbn [fst] in *.
  split; cbn; try done; [| constructor | by intros c ?%not_elem_of_nil].
  f_equal. unfold list_keys, list_nodes, Node_Next. cbn. by destruct max_height.
Qed.

(** C9: insertions of several threads are linearizable. Whatever threads start and however their
    steps (each a single access to shared memory, with compare-and-swaps that fail when another
    thread was first) are interleaved, with or without hints: no thread faults, every thread that
    has not returned can take a step, and the list is the sorted set that results from the
    insertions in the order in which they took effect. Each insertion takes effect once, by one of
    its own steps, and what it returns is what an insertion into the set returns at that
    moment: [false] exactly if an equal key is there. *)
Theorem concurrent_inserts_linearizable (cmp : bytes -> bytes -> Z) {KO : KeyOrder cmp} max_height branching evs st
    (Hm : (0 < max_height < kMaxPossibleHeight)%nat) (Hev : Forall (event_ok max_height) evs)
    (Hrun : system_run cmp (new_system max_height branching) evs = Some st) :
  let log := commit_log cmp (new_system max_height branching) evs in
  (map c_result log, list_keys (shared st)) = set_inserts cmp [] (map commit_op log) /\
  StronglySorted (fun a b => cmp a b < 0) (list_keys (shared st)) /\ NoDup (map c_node log) /\
  (forall tid t b, threads st !! tid = Some t -> returned t = Some b -> thread_commit t b ∈ log) /\
  (forall tid t spurious, threads st !! tid = Some t -> returned t = None ->
    is_Some (Insert_step cmp spurious (shared st) t)).
Proof.
  destruct (new_system_ok cmp max_height branching) as [lv0 H0]; [lia |].
  destruct (system_run_ok cmp evs _ lv0 [] st H0) as [lv H]; [cbn; lia | done | done |]. cbn [app] in H.
  cbn zeta. destruct H as [H Hc Hh Hth Hd Hlog Hnd Hnodes Hlg]. split_and!; [done | by apply (list_keys_sorted cmp _ lv) | done | |].
  - intros tid t b Et Hr. specialize (Hlg tid t Et). destruct (Hth tid t Et) as [[_ _ _ Hrange] Ht]. unfold returned in Hr. unfold logged in Hlg.
    unfold thread_at in Ht. destruct (th_pc t) as [| | | | | | | b'] eqn:Epc; try done. injection Hr as ->. destruct b.
    + rewrite decide_False in Hlg by done. rewrite decide_True in Hlg by lia. done.
    + by rewrite decide_True in Hlg.
  - intros tid t sp Et Hr. destruct (Insert_step_ok cmp sp _ lv t H (Hth tid t Et) Hr) as (l' & lv' & t' & -> & _). by eexists.
Qed.

(** Three threads take turns: two of them insert the same key, and one of them loses the race for
    the first link. *)
Definition ex_system_events : list SystemEvent :=
  [StartInsert 0 [Byte.x62] 2 false; StartInsert 1 [Byte.x61] 1 true; StartInsert 2 [Byte.x62] 1 false] ++
  map (fun tid => StepInsert tid false)
    [0; 1; 2; 0; 1; 2; 0; 1; 2; 0; 1; 2; 0; 1; 2; 0; 2; 0; 2; 0; 2; 0; 2; 0; 0; 0]%nat.
Lemma concurrent_inserts_linearizable_witness :
  exists st, system_run (Compare (Comparator := BytewiseComparatorImpl)) (new_system 4 4) ex_system_events = Some st /\
    list_keys (shared st) = [[Byte.x61]; [Byte.x62]] /\
    forall tid, (tid < 3)%nat -> exists t b, threads st !! tid = Some t /\ returned t = Some b /\
      thread_commit t b ∈ commit_log (Compare (Comparator := BytewiseComparatorImpl)) (new_system 4 4) ex_system_events.
Proof.
  destruct (system_run (Compare (Comparator := BytewiseComparatorImpl)) (new_system 4 4) ex_system_events) as [st |] eqn:E;
    [| vm_compute in E; discriminate].
  exists st. split; [reflexivity |].
  destruct (concurrent_inserts_linearizable (Compare (Comparator := BytewiseComparatorImpl)) 4 4 ex_system_events st)
    as (Hlog & _ & _ & Hret & _); [vm_compute; lia | repeat constructor | exact E |].
  split.
  - assert (set_inserts (Compare (Comparator := BytewiseComparatorImpl)) []
      (map commit_op (commit_log (Compare (Comparator := BytewiseComparatorImpl)) (new_system 4 4) ex_system_events)) =
      ([true; true; false], [[Byte.x61]; [Byte.x62]])) as E2 by (vm_compute; reflexivity).
    exact (f_equal snd (eq_trans Hlog E2)).
  - assert (forallb (fun tid => match threads st !! tid with Some t => bool_decide (is_Some (returned t)) | None => false end)
      [0; 1; 2]%nat = true) as Hall.
    { assert (option_map (fun st => forallb (fun tid => match threads st !! tid with
        Some t => bool_decide (is_Some (returned t)) | None => false end) [0; 1; 2]%nat)
        (system_run (Compare (Comparator := BytewiseComparatorImpl)) (new_system 4 4) ex_system_events) = Some true) as E3
        by (vm_compute; reflexivity). rewrite E in E3. by injection E3. }
    intros tid Htid. rewrite forallb_forall in Hall. specialize (Hall tid).
    destruct (threads st !! tid) as [t |] eqn:Et; [| discriminate Hall; repeat (destruct tid as [| tid]; [cbn; tauto |]); lia].
    destruct (returned t) as [b |] eqn:Er.
    + exists t, b. split_and!; [reflexivity | exact Er | exact (Hret tid t b Et Er)].
    + discriminate Hall. repeat (destruct tid as [| tid]; [cbn; tauto |]). lia.
Defined.
