(* ===== verification/SkipListProgress.v ===== *)
(** An insertion into the skip list that runs alone returns, from any state in which other
    threads may have left the list: its loops, among them those around compare-and-swaps, end. *)

From stdpp Require Import gmap sorting.
From S2P Require Import Prelude Comparator Status Cursor SkipList SkipListProofs SkipListInsert SkipListTheorems SkipListConcurrent SkipListThreads SkipListLinearizable.

Section Progress.
Context (cmp : bytes -> bytes -> Z) {KO : KeyOrder cmp}.
Implicit Types (l : InlineSkipList) (s : Splice) (t : InsertThread) (x y z : nat) (lv : nat -> nat).

(** The steps of one thread, until it returns. *)
Fixpoint run_alone (n : nat) l t : option (InlineSkipList * InsertThread) :=
  match returned t, n with
  | Some _, _ => Some (l, t)
  | None, O => None
  | None, S n => r ← Insert_step cmp false l t; run_alone n r.1 r.2
  end.
Definition returns l t : Prop := exists n, is_Some (run_alone n l t).

Lemma returns_now l t b : th_pc t = Returned b -> returns l t.
Proof. intros E. exists 0%nat. cbn. unfold returned. rewrite E. by eexists. Qed.
Lemma returns_step l t l' t' : Insert_step cmp false l t = Some (l', t') -> returns l' t' -> returns l t.
Proof.
  intros E [n Hn]. exists (S n). cbn. destruct (returned t); [by eexists |]. rewrite E. exact Hn.
Qed.

(** * Linking *)

(** A swap with neighbours that are up to date succeeds. *)
Lemma fresh_link_returns l lv t i : linked cmp l lv -> thread_ok cmp l lv t -> th_pc t = LinkLevel i ->
  Node_Next l (prev_at (th_splice t) i) i = Some (next_at (th_splice t) i) ->
  (forall l' lv' t', linked cmp l' lv' -> thread_ok cmp l' lv' t' -> th_pc t' = LinkLevel (S i) -> th_height t' = th_height t -> returns l' t') ->
  returns l t.
Proof.
  intros H [Hn Hat] Epc HN IH. unfold thread_at in Hat. rewrite Epc in Hat. pose proof Hat as [Hr Hlv (Hs1 & Hs2 & Hs3) Ht Hb _ _ _].
  pose proof (lk_max _ l lv H) as Hmax. destruct (Hb i) as (Hp & _); [lia |].
  destruct (LinkLevel_ok cmp false l lv t i H Hn Hat Epc) as (l1 & t1 & E & (H1 & Hsame & _ & HU & Hok1 & _) & _). apply (returns_step _ _ _ _ E).
  unfold Insert_step in E. rewrite Epc, prev_lookup, next_lookup in E by lia. cbn [mbind option_bind] in E.
  destruct (is_duplicate _ _ _ _ _ _); [injection E as <- <-; by apply (returns_now _ _ false) |].
  apply bind_Some in E as (l2 & El & E). injection E as -> <-.
  destruct (SwapLevel_ok cmp false l1 lv (set_pc t (SwapLevel i)) i H1 Hok1) as (l3 & lv3 & t3 & E3 & (H3 & _ & _ & _ & Hok3 & (_ & _ & Eh & _)) & Hcase); [done |].
  apply (returns_step _ _ _ _ E3). destruct Hcase as [(-> & -> & before & Eb) | (-> & [Epc3 | Epc3] & _)].
  - exfalso. unfold Insert_step in E3. cbn in E3. rewrite prev_lookup, next_lookup in E3 by lia. cbn [mbind option_bind] in E3.
    assert (Node_Next l1 (prev_at (th_splice t) i) i = Some (next_at (th_splice t) i)) as HN1.
    { assert (Hpx : prev_at (th_splice t) i <> th_node t) by (intros E; rewrite E in Hp; lia).
      unfold Node_SetNext in El. destruct (nodes l !! th_node t) as [nd |]; [| done]. cbn in El. case_decide; [| done]. injection El as <-.
      unfold Node_Next in HN |- *. cbn. by rewrite lookup_insert_ne. }
    rewrite HN1 in E3. cbn [mbind option_bind] in E3. rewrite bool_decide_true in E3 by done.
    apply bind_Some in E3 as (l4 & _ & E3). injection E3 as _ <-. case_match; discriminate Eb.
  - exact (IH l3 _ t3 H3 Hok3 Epc3 Eh).
  - by apply (returns_now _ _ true).
Qed.

Definition links_return (i height : nat) : Prop := forall l lv t,
  linked cmp l lv -> thread_ok cmp l lv t -> th_pc t = LinkLevel i -> th_height t = height -> returns l t.

Lemma again_returns l lv i height : linked cmp l lv -> links_return (S i) height ->
  forall t before, thread_ok cmp l lv t -> th_height t = height -> th_pc t = FindAgain i before -> returns l t.
Proof.
  intros H IH t before. remember (rank cmp l lv before) as n eqn:En. revert t before En.
  induction n as [n IHn] using lt_wf_ind. intros t before -> [Hn Hat] Eh Epc. unfold thread_at in Hat. rewrite Epc in Hat.
  destruct Hat as (HK & Hse). destruct (FindAgain_ok cmp false l lv t i before H Hn HK Hse Epc) as (t' & E & Ht' & Hsame).
  pose proof Hsame as (E1 & E2 & E3 & E4). apply (returns_step _ _ _ _ E).
  assert (Hok' : thread_ok cmp l lv t') by (by apply (effect_local cmp l lv t t' H Hn Ht' Hsame)).
  unfold Insert_step in E. rewrite Epc in E. destruct Hse as ((_ & Hb) & _). destruct (lk_next _ l lv H i before Hb) as (next & HN & Hs).
  rewrite HN in E. cbn [mbind option_bind] in E. destruct (negb _).
  - apply bind_Some in E as (s & Es & E). injection E as <-. unfold write_splice in Es. case_decide as Hi; [| done]. injection Es as <-.
    apply (fresh_link_returns l lv _ i H Hok'); [done | | intros l' lv' t'' ? ? ? Eh''; by apply (IH l' lv'); [| | | rewrite Eh'']].
    cbn. rewrite prev_set, next_set, !decide_True by (done || lia). done.
  - destruct next as [m |]; [| done]. injection E as <-. apply successor_node in Hs as [Hm Hbm].
    apply (IHn (rank cmp l lv m)) with (before := m); [by apply (rank_lt cmp l lv i) | done | done | done | done].
Qed.

Lemma link_returns height i : (i <= height)%nat -> links_return i height.
Proof.
  intros Hi. remember (height - i)%nat as k eqn:Ek. revert i Hi Ek. induction k as [| k IH]; intros i Hi Ek l lv t H Hok Epc Eh.
  - exfalso. destruct Hok as [_ Hat]. unfold thread_at in Hat. rewrite Epc in Hat. destruct (la_range _ _ _ _ _ Hat). lia.
  - assert (IH' : links_return (S i) height) by (apply IH; lia). destruct Hok as [Hn Hat]. unfold thread_at in Hat. rewrite Epc in Hat.
    destruct (LinkLevel_ok cmp false l lv t i H Hn Hat Epc) as (l1 & t1 & E & (H1 & _ & _ & _ & Hok1 & (_ & _ & Eh1 & _)) & _).
    apply (returns_step _ _ _ _ E). unfold Insert_step in E. rewrite Epc in E. apply bind_Some in E as (p & _ & E). apply bind_Some in E as (n & _ & E).
    destruct (is_duplicate _ _ _ _ _ _); [injection E as <- <-; by apply (returns_now _ _ false) |].
    apply bind_Some in E as (l2 & El & E). injection E as -> <-.
    destruct (SwapLevel_ok cmp false l1 lv (set_pc t (SwapLevel i)) i H1 Hok1) as (l3 & lv3 & t3 & E3 & (H3 & _ & _ & _ & Hok3 & (_ & _ & Eh3 & _)) & Hcase); [done |].
    apply (returns_step _ _ _ _ E3). cbn in Eh3. destruct Hcase as [(-> & -> & before & Eb) | (-> & [Epc3 | Epc3] & _)].
    + by apply (again_returns l1 lv i height H1 IH' t3 before Hok3); [congruence |].
    + apply (IH' l3 _ t3 H3 Hok3 Epc3). congruence.
    + by apply (returns_now _ _ true).
Qed.

(** * The splice *)

Lemma find_returns l lv i : linked cmp l lv -> forall t before after, thread_ok cmp l lv t -> th_pc t = FindLevel i before after -> returns l t.
Proof.
  intros H. induction i as [i IHi] using lt_wf_ind. intros t before after. remember (rank cmp l lv before) as n eqn:En. revert t before En.
  induction n as [n IHn] using lt_wf_ind. intros t before -> [Hn Hat] Epc. unfold thread_at in Hat. rewrite Epc in Hat.
  destruct Hat as (HF & Ha & Hse). destruct (FindLevel_ok cmp false l lv t i before after H Hn HF Ha Hse Epc) as (t' & E & Ht' & Hsame).
  apply (returns_step _ _ _ _ E). assert (Hok' : thread_ok cmp l lv t') by (by apply (effect_local cmp l lv t t' H Hn Ht' Hsame)).
  unfold Insert_step in E. rewrite Epc in E. destruct Hse as ((_ & Hb) & _). destruct (lk_next _ l lv H i before Hb) as (next & HN & Hs).
  rewrite HN in E. cbn [mbind option_bind] in E. destruct (_ || _).
  - apply bind_Some in E as (s & Es & E). apply bind_Some in E as (t1 & Et & E). injection E as ->. destruct i as [| i]; cbn [start_recompute] in Et.
    + injection Et as <-. by apply (link_returns (th_height t) 0 ltac:(lia) l lv _ H Hok').
    + apply bind_Some in Et as (p & _ & Et). apply bind_Some in Et as (q & _ & Et). injection Et as <-. by apply (IHi i ltac:(lia) _ p q Hok').
  - destruct next as [m |]; [| done]. injection E as <-. apply successor_node in Hs as [Hm Hbm].
    apply (IHn (rank cmp l lv m)) with (before := m); [by apply (rank_lt cmp l lv i) | done | done | done].
Qed.
Lemma recompute_returns l lv t r t' : linked cmp l lv -> thread_ok cmp l lv t' -> start_recompute t r = Some t' -> returns l t'.
Proof.
  intros H Hok E. destruct r as [| i]; cbn [start_recompute] in E.
  - injection E as <-. by apply (link_returns (th_height t) 0 ltac:(lia) l lv _ H Hok).
  - apply bind_Some in E as (p & _ & E). apply bind_Some in E as (n & _ & E). injection E as <-. by apply (find_returns l lv i H _ p n Hok).
Qed.

(** Skipping entries that are equal to the current one makes progress. *)
Lemma skip_equal_lt {A} `{EqDecision A} fuel (array : list A) bad i j : array !! i = Some bad ->
  skip_equal fuel array bad i = Some j -> (i < j)%nat.
Proof.
  destruct fuel as [| fuel]; cbn [skip_equal]; [done |]. intros -> E. cbn in E. rewrite decide_True in E by done.
  assert (forall fuel k, skip_equal fuel array bad k = Some j -> (k <= j)%nat) as Hle; [| apply Hle in E; lia].
  clear. induction fuel as [| fuel IH]; intros k; cbn [skip_equal]; [done |]. intros (a & _ & E)%bind_Some.
  case_decide; [apply IH in E; lia | by injection E as <-].
Qed.

Lemma check_returns l lv m r : linked cmp l lv -> forall t, thread_ok cmp l lv t -> th_pc t = CheckLevel m r -> returns l t.
Proof.
  intros H. remember (S m - r)%nat as k eqn:Ek. revert r Ek. induction k as [k IH] using lt_wf_ind. intros r -> t [Hn Hat] Epc.
  unfold thread_at in Hat. rewrite Epc in Hat. destruct Hat as (Hlv & Hs & Hv & Hr).
  destruct (CheckLevel_ok cmp l lv t m r H Hn Hlv Hs Hv Hr) as (t' & E & Ht' & Hsame).
  assert (Hok' : thread_ok cmp l lv t') by (by apply (effect_local cmp l lv t t' H Hn Ht' Hsame)).
  apply (returns_step l t l t'); [unfold Insert_step; by rewrite Epc, E |].
  assert (Hnext : forall r', (r < r')%nat -> t' = set_pc t (CheckLevel m r') -> returns l t').
  { intros r' Hr' ->. by apply (IH (S m - r')%nat ltac:(lia) r' eq_refl). }
  unfold check_level in E. destruct (Nat.leb_spec m r) as [| Hlt]; [by apply (recompute_returns l lv t r) |].
  apply bind_Some in E as (p & Ep & E). apply bind_Some in E as (n & En & E). apply bind_Some in E as (next & _ & E).
  destruct (negb (bool_decide _)); [injection E as <-; by apply (Hnext (S r)); [lia |] |].
  destruct (_ && _); [| destruct (KeyIsAfterNode _ _ _ _)].
  1, 2: destruct (allow_partial_splice_fix t); [apply bind_Some in E as (j & Ej & E); apply skip_equal_lt in Ej; [| done];
    injection E as <-; by apply (Hnext j) | injection E as <-; by apply (Hnext m)].
  by apply (recompute_returns l lv t r).
Qed.
Lemma splice_returns l lv t m t' : linked cmp l lv -> thread_ok cmp l lv t' -> start_splice t m = Some t' -> returns l t'.
Proof.
  intros H Hok E. unfold start_splice in E. case_match.
  - apply bind_Some in E as (s & _ & E). by eapply recompute_returns.
  - injection E as <-. by apply (check_returns l lv m 0 H _ Hok).
Qed.

(** * The whole insertion *)

Lemma raise_returns l lv t : linked cmp l lv -> thread_ok cmp l lv t -> forall m, th_pc t = RaiseMaxHeight m ->
  (m = max_height_ l \/ th_height t <= m)%nat -> returns l t.
Proof.
  intros H Hok m Epc Hm. destruct (Insert_step_ok cmp false l lv t H Hok) as (l' & lv' & t' & E & (H' & _ & _ & _ & Hok' & _) & _).
  { unfold returned. by rewrite Epc. }
  apply (returns_step _ _ _ _ E). unfold Insert_step in E. rewrite Epc in E. destruct (Nat.ltb_spec m (th_height t)) as [Hlt |].
  - assert ((m =? max_height_ l)%nat = true) as Em by (apply Nat.eqb_eq; lia). rewrite Em in E. cbn [andb negb] in E.
    apply bind_Some in E as (t1 & Et & E). injection E as <- <-. by apply (splice_returns _ lv' t (th_height t)).
  - apply bind_Some in E as (t1 & Et & E). injection E as <- <-. by apply (splice_returns _ lv' t m).
Qed.

Lemma thread_returns l lv t : linked cmp l lv -> thread_ok cmp l lv t -> returns l t.
Proof.
  intros H Hok. destruct (th_pc t) as [| m | m r | i before after | i | i | i before | b] eqn:Epc.
  - destruct (Insert_step_ok cmp false l lv t H Hok) as (l' & lv' & t' & E & (H' & _ & _ & _ & Hok' & _) & _); [unfold returned; by rewrite Epc |].
    apply (returns_step _ _ _ _ E). unfold Insert_step in E. rewrite Epc in E. injection E as <- <-.
    apply (raise_returns l lv' _ H' Hok' (max_height_ l)); [done | by left].
  - destruct (decide (m = max_height_ l \/ th_height t <= m)%nat) as [| Hm]; [by apply (raise_returns l lv t H Hok m) |].
    destruct (Insert_step_ok cmp false l lv t H Hok) as (l' & lv' & t' & E & (H' & _ & _ & _ & Hok' & _) & _); [unfold returned; by rewrite Epc |].
    apply (returns_step _ _ _ _ E). unfold Insert_step in E. rewrite Epc in E. rewrite (proj2 (Nat.ltb_lt _ _)) in E by lia.
    rewrite (proj2 (Nat.eqb_neq _ _)) in E by lia. cbn [andb] in E. injection E as <- <-.
    apply (raise_returns l lv' _ H' Hok' (max_height_ l)); [done | by left].
  - by apply (check_returns l lv m r H).
  - by apply (find_returns l lv i H t before after).
  - apply (link_returns (th_height t) i) with (lv := lv); try done. destruct Hok as [_ Hat]. unfold thread_at in Hat. rewrite Epc in Hat.
    pose proof (la_range _ _ _ _ _ Hat). lia.
  - destruct (SwapLevel_ok cmp false l lv t i H Hok Epc) as (l3 & lv3 & t3 & E3 & (H3 & _ & _ & _ & Hok3 & (_ & _ & Eh3 & _)) & Hcase).
    assert (Hi : (i < th_height t)%nat).
    { destruct Hok as [_ Hat]. unfold thread_at in Hat. rewrite Epc in Hat. destruct Hat as (HK & _). pose proof (la_range _ _ _ _ _ HK). lia. }
    apply (returns_step _ _ _ _ E3). destruct Hcase as [(-> & -> & before & Eb) | (-> & [Epc3 | Epc3] & _)].
    + by apply (again_returns l lv i (th_height t) H (link_returns (th_height t) (S i) ltac:(lia)) t3 before).
    + by apply (link_returns (th_height t) (S i) ltac:(lia) l3 _ t3 H3).
    + by apply (returns_now _ _ true).
  - apply (again_returns l lv i (th_height t) H) with (before := before); try done. apply link_returns.
    destruct Hok as [_ Hat]. unfold thread_at in Hat. rewrite Epc in Hat. destruct Hat as (HK & _). pose proof (la_range _ _ _ _ _ HK). lia.
  - by apply (returns_now _ _ b).
Qed.

Lemma run_alone_ok n : forall l lv t l' t', linked cmp l lv -> thread_ok cmp l lv t -> run_alone n l t = Some (l', t') ->
  exists lv' b, linked cmp l' lv' /\ thread_ok cmp l' lv' t' /\ th_key t' = th_key t /\ returned t' = Some b.
Proof.
  induction n as [| n IH]; intros l lv t l' t' H Hok E; cbn [run_alone] in E; destruct (returned t) as [b |] eqn:Er.
  1, 3: injection E as <- <-; by exists lv, b.
  - done.
  - destruct (Insert_step_ok cmp false l lv t H Hok Er) as (l1 & lv1 & t1 & E1 & (H1 & _ & _ & _ & Hok1 & (_ & Ek & _)) & _).
    rewrite E1 in E. cbn [mbind option_bind fst snd] in E. destruct (IH l1 lv1 t1 l' t' H1 Hok1 E) as (lv' & b & ? & ? & Ek' & ?).
    exists lv', b. split_and!; try done. congruence.
Qed.
Lemma returned_member l lv t b : linked cmp l lv -> thread_ok cmp l lv t -> returned t = Some b ->
  existsb (fun k => cmp k (th_key t) =? 0) (list_keys l) = true.
Proof.
  intros H [[Hx Hk _ Hr] Hat] Er. apply existsb_exists. unfold thread_at in Hat. unfold returned in Er.
  assert (exists y, on_level lv 0 y /\ cmp (key_of l y) (th_key t) = 0) as (y & Hy & E).
  { destruct (th_pc t) as [| | | | | | | []]; try done; [| by destruct Hat as (_ & _ & ?)].
    destruct Hat as [Hlv _]. exists (th_node t). split; [split; [done | lia] |]. by rewrite Hk, cmp_refl. }
  exists (key_of l y). split; [| by apply Z.eqb_eq]. apply list_elem_of_In, (list_keys_elem cmp l lv); eauto.
Qed.
End Progress.


(** The first thread is stopped before its swap; the second one links its node. *)
Definition ex_stopped_events : list SystemEvent :=
  [StartInsert 0 [Byte.x62] 1 false; StartInsert 1 [Byte.x61] 1 false] ++
  map (fun tid => StepInsert tid false) [0; 0; 0; 0; 1; 1; 1; 1; 1]%nat.
