(* ===== verification/WideColumns.v ===== *)
(** db/wide/wide_column_serialization.cc and db/wide/wide_columns_helper.h: the
    serialised form of an entity, a list of columns sorted by name. *)

From stdpp Require Import sorting sets.
From S2P Require Import Prelude Coding Comparator Status.

Record WideColumn := { column_name : bytes; column_value : bytes }.
Definition WideColumns := list WideColumn.

Definition kCurrentVersion : Z := 1.
Definition kDefaultWideColumnName : bytes := [].
Definition uint32_max : Z := 2 ^ 32 - 1.

(** The loop over the names and the sizes of the values. *)
Fixpoint Serialize_index (output : bytes) (prev_name : option bytes) (columns : WideColumns)
    : bytes + Status :=
  match columns with
  | [] => inl output
  | column :: columns =>
      let name := column_name column in
      if slen name >? uint32_max then inr Status_InvalidArgument
      else if match prev_name with
              | Some prev => Slice_compare prev name >=? 0
              | None => false
              end then inr Status_Corruption
      else if slen (column_value column) >? uint32_max then inr Status_InvalidArgument
      else Serialize_index
             (PutVarint32 (PutLengthPrefixedSlice output name) (u32 (slen (column_value column))))
             (Some name) columns
  end.
Definition WideColumn_Serialize (columns : WideColumns) (output : bytes) : bytes + Status :=
  let num_columns := slen columns in
  if num_columns >? uint32_max then inr Status_InvalidArgument
  else
    let output := PutVarint32 output kCurrentVersion in
    let output := PutVarint32 output (u32 num_columns) in
    match Serialize_index output None columns with
    | inr s => inr s
    | inl output => inl (fold_left (fun o column => o ++ column_value column) columns output)
    end.

(** The loop that reads names and sizes of the values. *)
Fixpoint Deserialize_index (num_columns : nat) (input : bytes) (names : list (bytes * Z))
    : list (bytes * Z) * bytes + Status :=
  match num_columns with
  | O => inl (names, input)
  | S num_columns =>
      match GetLengthPrefixedSlice input with
      | None => inr Status_Corruption
      | Some (name, input) =>
          if match list.last names with
             | Some (back, _) => Slice_compare back name >=? 0
             | None => false
             end then inr Status_Corruption
          else match GetVarint32 input with
               | None => inr Status_Corruption
               | Some (value_size, input) =>
                   Deserialize_index num_columns input (names ++ [(name, value_size)])
               end
      end
  end.
Fixpoint Deserialize_values (names : list (bytes * Z)) (data : bytes) (pos : Z)
    : WideColumns + Status :=
  match names with
  | [] => inl []
  | (name, value_size) :: names =>
      if pos + value_size >? slen data then inr Status_Corruption
      else match Deserialize_values names data (pos + value_size) with
           | inr s => inr s
           | inl columns =>
               inl ({| column_name := name; column_value := stake value_size (sdrop pos data) |}
                    :: columns)
           end
  end.
Definition WideColumn_Deserialize (input : bytes) : WideColumns + Status :=
  match GetVarint32 input with
  | None => inr Status_Corruption
  | Some (version, input) =>
      if version >? kCurrentVersion then inr Status_NotSupported
      else match GetVarint32 input with
           | None => inr Status_Corruption
           | Some (num_columns, input) =>
               if num_columns =? 0 then inl []
               else match Deserialize_index (Z.to_nat num_columns) input [] with
                    | inr s => inr s
                    | inl (names, data) => Deserialize_values names data 0
                    end
           end
  end.

(** [std::lower_bound] on the names, then the test for equality. *)
Fixpoint WideColumn_Find (columns : WideColumns) (name : bytes) : option WideColumn :=
  match columns with
  | [] => None
  | column :: columns =>
      if Slice_compare (column_name column) name <? 0 then WideColumn_Find columns name
      else if Slice_eq (column_name column) name then Some column else None
  end.

Definition HasDefaultColumn (columns : WideColumns) : bool :=
  match columns with
  | column :: _ => Slice_eq (column_name column) kDefaultWideColumnName
  | [] => false
  end.
Definition HasDefaultColumnOnly (columns : WideColumns) : bool :=
  (slen columns =? 1) && HasDefaultColumn columns.
Definition GetValueOfDefaultColumn (input : bytes) : bytes + Status :=
  match WideColumn_Deserialize input with
  | inr s => inr s
  | inl columns =>
      match columns with
      | column :: _ => if HasDefaultColumn columns then inl (column_value column) else inl []
      | [] => inl []
      end
  end.

(** [std::sort] by name. The order of columns of the same name is not specified;
    such a list is refused by [WideColumn_Serialize] in any order. *)
Definition column_le (a b : WideColumn) : Prop := Slice_compare (column_name a) (column_name b) <= 0.
#[global] Instance column_le_dec : RelDecision column_le.
Proof. intros a b. unfold column_le. apply _. Defined.
Definition SortColumns (columns : WideColumns) : WideColumns := merge_sort column_le columns.

(** * Properties *)

(** What [WideColumn_Serialize] accepts: names in strictly ascending order, sizes of 32 bits. *)
Definition columns_ok (columns : WideColumns) : Prop :=
  slen columns <= uint32_max /\
  Forall (fun c => slen (column_name c) <= uint32_max /\ slen (column_value c) <= uint32_max) columns /\
  StronglySorted (fun a b => Slice_compare (column_name a) (column_name b) < 0) columns.

Definition index_bytes (columns : WideColumns) : bytes :=
  concat (map (fun c => PutLengthPrefixedSlice [] (column_name c) ++
                        EncodeVarint32 (u32 (slen (column_value c)))) columns).
Definition value_bytes (columns : WideColumns) : bytes := concat (map column_value columns).

Lemma Serialize_index_ok columns : forall output prev,
  Forall (fun c => slen (column_name c) <= uint32_max /\ slen (column_value c) <= uint32_max) columns ->
  StronglySorted (fun a b => Slice_compare (column_name a) (column_name b) < 0) columns ->
  (forall p c, prev = Some p -> c ∈ columns -> Slice_compare p (column_name c) < 0) ->
  Serialize_index output prev columns = inl (output ++ index_bytes columns).
Proof.
  induction columns as [| c columns IH]; intros output prev Hsz Hs Hp; simpl.
  { unfold index_bytes. simpl. by rewrite app_nil_r. }
  apply Forall_cons_1 in Hsz as [[Hn Hv] Hsz]. apply StronglySorted_inv in Hs as [Hs Hc].
  destruct (Z.gtb_spec (slen (column_name c)) uint32_max); [lia |].
  assert (match prev with Some p => Slice_compare p (column_name c) >=? 0 | None => false end = false)
    as ->.
  { destruct prev as [p |]; [| done]. specialize (Hp p c eq_refl ltac:(set_solver)).
    rewrite Z.geb_leb. by apply Z.leb_gt. }
  destruct (Z.gtb_spec (slen (column_value c)) uint32_max); [lia |].
  rewrite IH; [| done.. | intros ? d [= <-] Hd; by apply (proj1 (list.Forall_forall _ _) Hc)].
  unfold index_bytes, PutVarint32. simpl. rewrite PutLengthPrefixedSlice_app. by rewrite <- !app_assoc.
Qed.

Lemma fold_values columns : forall output,
  fold_left (fun o column => o ++ column_value column) columns output = output ++ value_bytes columns.
Proof.
  induction columns as [| c columns IH]; intros output; unfold value_bytes; simpl;
    [by rewrite app_nil_r |]. by rewrite IH, <- app_assoc.
Qed.

Lemma WideColumn_Serialize_ok columns output : columns_ok columns ->
  WideColumn_Serialize columns output =
  inl (output ++ EncodeVarint32 kCurrentVersion ++ EncodeVarint32 (slen columns) ++
       index_bytes columns ++ value_bytes columns).
Proof.
  intros (Hn & Hsz & Hs). unfold WideColumn_Serialize.
  destruct (Z.gtb_spec (slen columns) uint32_max); [lia |].
  rewrite Serialize_index_ok by done. rewrite fold_values. unfold PutVarint32.
  rewrite wrap_small by (unfold fits, uint32_max in *; slia). by rewrite <- !app_assoc.
Qed.

Lemma Deserialize_index_ok columns : forall names rest,
  Forall (fun c => slen (column_name c) <= uint32_max /\ slen (column_value c) <= uint32_max) columns ->
  StronglySorted (fun a b => Slice_compare (column_name a) (column_name b) < 0) columns ->
  (forall p c, list.last names = Some p -> c ∈ columns -> Slice_compare p.1 (column_name c) < 0) ->
  Deserialize_index (length columns) (index_bytes columns ++ rest) names =
  inl (names ++ map (fun c => (column_name c, slen (column_value c))) columns, rest).
Proof.
  induction columns as [| c columns IH]; intros names rest Hsz Hs Hp; simpl.
  { by rewrite app_nil_r. }
  apply Forall_cons_1 in Hsz as [[Hn Hv] Hsz]. apply StronglySorted_inv in Hs as [Hs Hc].
  assert (fits 32 (slen (column_name c)) /\ fits 32 (slen (column_value c))) as [Fn Fv]
    by (unfold fits, uint32_max in *; slia).
  unfold index_bytes. simpl. fold (index_bytes columns). rewrite <- !app_assoc.
  rewrite (wrap_small _ _ Fv), GetLengthPrefixedSlice_Put by done.
  assert (match list.last names with Some (back, _) => Slice_compare back (column_name c) >=? 0
          | None => false end = false) as ->.
  { destruct (list.last names) as [[back sz] |]; [| done].
    specialize (Hp _ c eq_refl ltac:(set_solver)). simpl in Hp. rewrite Z.geb_leb. by apply Z.leb_gt. }
  rewrite GetVarint32_Encode by done. rewrite IH; [by rewrite <- app_assoc | done.. |].
  intros p d. rewrite last_snoc. intros [= <-] Hd. by apply (proj1 (list.Forall_forall _ _) Hc).
Qed.

Lemma Deserialize_values_ok columns : forall data pos pre, pos = slen pre ->
  data = pre ++ value_bytes columns ->
  Deserialize_values (map (fun c => (column_name c, slen (column_value c))) columns) data pos =
  inl columns.
Proof.
  induction columns as [| c columns IH]; intros data pos pre -> ->; simpl; [done |].
  unfold value_bytes. simpl. fold (value_bytes columns).
  destruct (Z.gtb_spec (slen pre + slen (column_value c))
    (slen (pre ++ column_value c ++ value_bytes columns))); [slia |].
  erewrite (IH _ _ (pre ++ column_value c)); [| slia | by rewrite <- app_assoc].
  rewrite sdrop_app_exact, stake_app_exact by done. by destruct c.
Qed.

Definition name_lt (a b : WideColumn) : Prop := Slice_compare (column_name a) (column_name b) < 0.

#[global] Instance name_lt_trans : Transitive name_lt.
Proof.
  intros a b c Hab Hbc. apply (compare_lt_le_trans (C := BytewiseComparatorImpl) _ (column_name b));
    [done | by apply Z.lt_le_incl].
Qed.

Lemma Serialize_index_sorted columns : forall output prev o,
  Serialize_index output prev columns = inl o ->
  Sorted name_lt columns /\
  (forall p c, prev = Some p -> head columns = Some c -> Slice_compare p (column_name c) < 0).
Proof.
  induction columns as [| c columns IH]; intros output prev o; simpl; [by intros _; split |].
  destruct (_ >? _); [done |].
  destruct (match prev with Some _ => _ | None => _ end) eqn:Ep; [done |].
  destruct (_ >? _); [done |]. intros [Hs Hh]%IH. split.
  - constructor; [done |]. destruct columns as [| d columns]; constructor. by apply Hh.
  - intros p ? -> [= <-]. rewrite Z.geb_leb in Ep. by apply Z.leb_gt.
Qed.

Lemma WideColumn_Serialize_sorted columns output o :
  WideColumn_Serialize columns output = inl o -> StronglySorted name_lt columns.
Proof.
  unfold WideColumn_Serialize. destruct (_ >? _); [done |].
  destruct (Serialize_index _ _ _) as [o' |] eqn:E; [| done]. intros _.
  apply Sorted_StronglySorted; [apply _ |]. by apply Serialize_index_sorted in E as [? _].
Qed.

Lemma WideColumn_Serialize_error columns output s :
  WideColumn_Serialize columns output = inr s -> status_ok s = false.
Proof.
  assert (forall o p, Serialize_index o p columns = inr s -> status_ok s = false) as H.
  { induction columns as [| c columns IH]; intros o p; simpl; [done |].
    destruct_ifs; try (by intros [= <-]); eauto. }
  unfold WideColumn_Serialize. destruct (_ >? _); [by intros [= <-] |].
  destruct (Serialize_index _ _ _) eqn:E; intros [= ->]. by eapply H.
Qed.

Lemma WideColumn_Find_sorted columns c : StronglySorted name_lt columns -> c ∈ columns ->
  WideColumn_Find columns (column_name c) = Some c.
Proof.
  induction 1 as [| d columns Hs IH Hd]; intros Hin; [by apply elem_of_nil in Hin |]. simpl.
  rewrite Slice_eq_spec. apply elem_of_cons in Hin as [-> | Hin].
  - rewrite Slice_compare_lex, lex_refl. simpl. by rewrite bool_decide_true.
  - apply (proj1 (list.Forall_forall _ _) Hd) in Hin as Hlt.
    rewrite (proj2 (Z.ltb_lt _ _) Hlt). by apply IH.
Qed.

(** Columns that are sorted already stay as they are. *)
Lemma SortColumns_sorted columns : StronglySorted name_lt columns -> SortColumns columns = columns.
Proof.
  intros Hs. apply (StronglySorted_unique_strong column_le); [| | | apply merge_sort_Permutation].
  - intros c d Hc Hd Hcd Hdc. unfold SortColumns in Hc. rewrite merge_sort_Permutation in Hc.
    unfold column_le in *. rewrite !Slice_compare_lex in *. rewrite lex_opp in Hdc.
    assert (column_name c = column_name d) as E by (apply lex_eq; lia).
    pose proof (WideColumn_Find_sorted columns c Hs Hc) as Ec.
    pose proof (WideColumn_Find_sorted columns d Hs Hd) as Ed. congruence.
  - apply StronglySorted_merge_sort.
    + intros c d e. unfold column_le. rewrite !Slice_compare_lex. apply lex_trans.
    + intros c d. unfold column_le. rewrite !Slice_compare_lex, (lex_opp (column_name c)). lia.
  - apply (StronglySorted_weaken (fun _ => True) name_lt); [unfold name_lt, column_le; lia | | done].
    by apply list.Forall_forall.
Qed.

Lemma sorted_names_NoDup columns : StronglySorted name_lt columns -> NoDup (map column_name columns).
Proof.
  induction 1 as [| d columns Hs IH Hd]; simpl; constructor; [| done].
  intros (c & E & Hc)%list_elem_of_fmap. apply (proj1 (list.Forall_forall _ _) Hd) in Hc.
  unfold name_lt in Hc. rewrite E, Slice_compare_lex, lex_refl in Hc. lia.
Qed.

Lemma WideColumn_Deserialize_ok columns : columns_ok columns ->
  WideColumn_Deserialize (EncodeVarint32 kCurrentVersion ++ EncodeVarint32 (slen columns) ++
    index_bytes columns ++ value_bytes columns) = inl columns.
Proof.
  intros (Hn & Hsz & Hs). unfold WideColumn_Deserialize.
  rewrite GetVarint32_Encode by done.
  rewrite GetVarint32_Encode by (unfold fits, uint32_max in *; slia). simpl.
  destruct (Z.eqb_spec (slen columns) 0) as [E | _]; [by apply slen_zero in E as -> |].
  unfold slen at 1. rewrite Nat2Z.id, Deserialize_index_ok by done.
  by eapply (Deserialize_values_ok _ _ 0 []).
Qed.

Lemma Deserialize_Serialize columns entity : columns_ok columns ->
  WideColumn_Serialize columns [] = inl entity -> WideColumn_Deserialize entity = inl columns.
Proof.
  intros Hok E. rewrite WideColumn_Serialize_ok in E by done. apply (inj inl) in E as <-.
  by apply WideColumn_Deserialize_ok.
Qed.

(** C39: An entity survives serialisation: every list of columns that [Serialize] accepts
    (names strictly ascending, sizes of 32 bits) is read back by [Deserialize], its default
    column and its columns are found by name; lists that are not strictly sorted by name,
    that is also every list with a repeated name whatever its order, are refused. *)
Theorem wide_columns_roundtrip (columns : WideColumns) :
  (columns_ok columns ->
   exists entity, WideColumn_Serialize columns [] = inl entity /\
     WideColumn_Deserialize entity = inl columns /\
     GetValueOfDefaultColumn entity =
       inl (match WideColumn_Find columns kDefaultWideColumnName with Some c => column_value c | None => [] end) /\
     (forall c, c ∈ columns -> WideColumn_Find columns (column_name c) = Some c)) /\
  (~ StronglySorted (fun a b => Slice_compare (column_name a) (column_name b) < 0) columns ->
   exists s, WideColumn_Serialize columns [] = inr s /\ status_ok s = false) /\
  (forall c d i j, i <> j -> columns !! i = Some c -> columns !! j = Some d ->
     column_name c = column_name d ->
     exists s, WideColumn_Serialize (SortColumns columns) [] = inr s /\ status_ok s = false).
Proof.
  split_and!.
  - intros Hok. eexists. split_and!; [by apply WideColumn_Serialize_ok | | |].
    + by apply WideColumn_Deserialize_ok.
    + unfold GetValueOfDefaultColumn.
      replace (WideColumn_Deserialize _) with (@inl WideColumns Status columns)
        by (symmetry; by apply WideColumn_Deserialize_ok).
      destruct columns as [| c columns]; [done |]. cbn [WideColumn_Find HasDefaultColumn].
      assert ((Slice_compare (column_name c) kDefaultWideColumnName <? 0) = false) as ->
        by (rewrite Slice_compare_lex; by destruct (column_name c)).
      by destruct (Slice_eq _ _).
    + intros c Hc. apply WideColumn_Find_sorted; [apply Hok | done].
  - intros Hs. destruct (WideColumn_Serialize columns []) as [o | s] eqn:E.
    + by apply WideColumn_Serialize_sorted in E.
    + exists s. split; [done | by eapply WideColumn_Serialize_error].
  - intros c d i j Hij Hc Hd E. destruct (WideColumn_Serialize (SortColumns columns) []) as [o | s] eqn:Es.
    + exfalso. apply WideColumn_Serialize_sorted, sorted_names_NoDup in Es.
      assert (map column_name (SortColumns columns) ≡ₚ map column_name columns) as P
        by (apply fmap_Permutation, merge_sort_Permutation).
      rewrite P in Es. apply Hij. apply (NoDup_lookup _ i j (column_name c) Es); rewrite (list_lookup_fmap column_name).
      * exact (f_equal (fmap column_name) Hc).
      * rewrite E. exact (f_equal (fmap column_name) Hd).
    + exists s. split; [done | by eapply WideColumn_Serialize_error].
Qed.
