(* ===== verification/MergeOperator.v ===== *)
(** db/merge_operator.cc, db/merge_helper.{h,cc}, db/merge_context.h and
    [PinnableWideColumns]: what a read does with merge operands.

    The merge operator itself is code of the user; it is a record of its
    functions. The scope of a failure ([op_failure_scope]) is an output that the
    callers modelled here do not ask for. *)

From S2P Require Import Prelude Coding Comparator Status WideColumns.

(** * PinnableWideColumns *)

Record PinnableWideColumns := { value_ : bytes; columns_ : WideColumns }.
Definition PinnableWideColumns_Reset : PinnableWideColumns := {| value_ := []; columns_ := [] |}.
Definition SetPlainValue (value : bytes) : PinnableWideColumns :=
  {| value_ := value;
     columns_ := [{| column_name := kDefaultWideColumnName; column_value := value |}] |}.
Definition SetWideColumnValue (value : bytes) : Status * PinnableWideColumns :=
  match WideColumn_Deserialize value with
  | inl columns => (Status_OK, {| value_ := value; columns_ := columns |})
  | inr s => (s, PinnableWideColumns_Reset)
  end.

(** * The merge operator *)

Inductive ExistingValue :=
  | NoBaseValue
  | PlainBaseValue (value : bytes)
  | WideBaseValue (columns : WideColumns).

(** [NewValue]: a new plain value, new columns, or one of the operands. *)
Inductive NewValue :=
  | NewPlain (value : bytes)
  | NewColumns (columns : WideColumns)
  | ExistingOperand (operand : bytes).

Record MergeOperator := {
  (** [None] for a failure. *)
  FullMergeV3 : bytes -> ExistingValue -> list bytes -> option NewValue;
  (** The operands are given from the newest to the oldest. *)
  ShouldMerge : list bytes -> bool;
}.

(** The result of [FullMergeV2]: a new value, or one of the operands. *)
Inductive MergeOperationOutput := OutNewValue (value : bytes) | OutExistingOperand (operand : bytes).

(** The default implementation of [FullMergeV3] on top of [FullMergeV2]. *)
Definition MergeOperator_FullMergeV3
    (FullMergeV2 : bytes -> option bytes -> list bytes -> option MergeOperationOutput)
    (key : bytes) (existing : ExistingValue) (operands : list bytes) : option NewValue :=
  let plain existing_value :=
    match FullMergeV2 key existing_value operands with
    | None => None
    | Some (OutExistingOperand operand) => Some (ExistingOperand operand)
    | Some (OutNewValue value) => Some (NewPlain value)
    end in
  match existing with
  | NoBaseValue => plain None
  | PlainBaseValue value => plain (Some value)
  | WideBaseValue existing_columns =>
      let has_default_column := HasDefaultColumn existing_columns in
      let value_of_default :=
        match existing_columns with
        | column :: _ => if has_default_column then column_value column else []
        | [] => []
        end in
      match FullMergeV2 key (Some value_of_default) operands with
      | None => None
      | Some out =>
          let value := match out with OutNewValue v | OutExistingOperand v => v end in
          Some (NewColumns ({| column_name := kDefaultWideColumnName; column_value := value |} ::
                  if has_default_column then tail existing_columns else existing_columns))
      end
  end.

(** * TimedFullMerge *)

(** Where a result goes: nowhere, to a string, or to a set of columns. *)
Inductive Result :=
  | NoResult
  | ToValue (value : bytes)
  | ToColumns (columns : PinnableWideColumns).

(** [TimedFullMergeImpl] into [result_value] or [result_entity]. *)
Definition store_new_value (new_value : NewValue) (result : Result) : Status * Result :=
  match result with
  | NoResult => (Status_OK, NoResult)
  | ToValue _ =>
      match new_value with
      | NewPlain value | ExistingOperand value => (Status_OK, ToValue value)
      | NewColumns columns =>
          match columns with
          | column :: _ =>
              (Status_OK, ToValue (if Slice_eq (column_name column) kDefaultWideColumnName
                                   then column_value column else []))
          | [] => (Status_OK, ToValue [])
          end
      end
  | ToColumns _ =>
      match new_value with
      | NewPlain value | ExistingOperand value => (Status_OK, ToColumns (SetPlainValue value))
      | NewColumns columns =>
          match WideColumn_Serialize (SortColumns columns) [] with
          | inr s => (s, ToColumns PinnableWideColumns_Reset)
          | inl entity =>
              let '(s, columns) := SetWideColumnValue entity in (s, ToColumns columns)
          end
      end
  end.
Definition Status_MergeOperatorFailed : Status := MakeStatus kCorruption kMergeOperatorFailed.

Definition TimedFullMerge (merge_operator : MergeOperator) (key : bytes) (existing : ExistingValue)
    (operands : list bytes) (result : Result) : Status * Result :=
  match FullMergeV3 merge_operator key existing operands with
  | None => (Status_MergeOperatorFailed, result)
  | Some new_value => store_new_value new_value result
  end.
(** The overload for a serialised entity. *)
Definition TimedFullMerge_entity (merge_operator : MergeOperator) (key entity : bytes)
    (operands : list bytes) (result : Result) : Status * Result :=
  match WideColumn_Deserialize entity with
  | inr s => (s, result)
  | inl columns => TimedFullMerge merge_operator key (WideBaseValue columns) operands result
  end.

(** [TimedFullMergeImpl] into a string with its type, without [result_operand]. *)
Definition TimedFullMerge_typed (merge_operator : MergeOperator) (key : bytes)
    (existing : ExistingValue) (operands : list bytes) : Status * (bytes * bool) :=
  match FullMergeV3 merge_operator key existing operands with
  | None => (Status_MergeOperatorFailed, ([], false))
  | Some (NewPlain value) | Some (ExistingOperand value) => (Status_OK, (value, false))
  | Some (NewColumns columns) =>
      match WideColumn_Serialize (SortColumns columns) [] with
      | inl entity => (Status_OK, (entity, true))
      | inr s => (s, ([], true))
      end
  end.

(** * MergeContext *)

(** The list of operands and whether it is reversed, that is, in the order in which a read
    meets them. *)
Record MergeContext := { operand_list_ : list bytes; operands_reversed_ : bool }.
Definition MakeMergeContext : MergeContext := {| operand_list_ := []; operands_reversed_ := true |}.
Definition SetDirectionForward (c : MergeContext) : MergeContext :=
  if operands_reversed_ c then
    {| operand_list_ := rev (operand_list_ c); operands_reversed_ := false |}
  else c.
Definition SetDirectionBackward (c : MergeContext) : MergeContext :=
  if operands_reversed_ c then c
  else {| operand_list_ := rev (operand_list_ c); operands_reversed_ := true |}.
Definition PushOperand (c : MergeContext) (operand : bytes) : MergeContext :=
  let c := SetDirectionBackward c in
  {| operand_list_ := operand_list_ c ++ [operand]; operands_reversed_ := true |}.
Definition PushOperandBack (c : MergeContext) (operand : bytes) : MergeContext :=
  let c := SetDirectionForward c in
  {| operand_list_ := operand_list_ c ++ [operand]; operands_reversed_ := false |}.
Definition GetOperands (c : MergeContext) : list bytes * MergeContext :=
  let c := SetDirectionForward c in (operand_list_ c, c).
Definition GetOperandsDirectionBackward (c : MergeContext) : list bytes * MergeContext :=
  let c := SetDirectionBackward c in (operand_list_ c, c).

(** ** The operands from the oldest to the newest *)

Definition operands (c : MergeContext) : list bytes :=
  if operands_reversed_ c then rev (operand_list_ c) else operand_list_ c.

Lemma GetOperands_operands c : (GetOperands c).1 = operands c /\ operands (GetOperands c).2 = operands c.
Proof.
  unfold GetOperands, operands, SetDirectionForward.
  destruct (operands_reversed_ c) eqn:E; cbn [fst snd operand_list_ operands_reversed_]; by rewrite ?E.
Qed.
Lemma GetOperandsDirectionBackward_operands c :
  (GetOperandsDirectionBackward c).1 = rev (operands c) /\
  operands (GetOperandsDirectionBackward c).2 = operands c.
Proof.
  unfold GetOperandsDirectionBackward, operands, SetDirectionBackward.
  destruct (operands_reversed_ c) eqn:E; cbn [fst snd operand_list_ operands_reversed_]; rewrite ?E;
    by rewrite ?rev_involutive.
Qed.
(** A read meets the newest operand first. *)
Lemma PushOperand_operands c operand : operands (PushOperand c operand) = operand :: operands c.
Proof.
  unfold PushOperand, operands, SetDirectionBackward. destruct (operands_reversed_ c); cbn [operand_list_ operands_reversed_];
    rewrite rev_app_distr; simpl; by rewrite ?rev_involutive.
Qed.
Lemma PushOperandBack_operands c operand : operands (PushOperandBack c operand) = operands c ++ [operand].
Proof.
  unfold PushOperandBack, operands, SetDirectionForward. by destruct (operands_reversed_ c) eqn:E;
    cbn [operand_list_ operands_reversed_].
Qed.
