(* ===== verification/WriteBatch.v ===== *)
(** db/write_batch.cc, include/rocksdb/write_batch.h and
    db/write_batch_internal.h: write batches. A batch is its serialised form
    [rep_] (a sequence number, a count and records) with flags, save points and
    the optional checksums of its entries (db/kv_checksum.h), over any hash
    function of 64 bits in place of [NPHash64] (util/hash.h).

    [Iterate] decodes the records and calls a [Handler]. The batch is shared
    between the loop and the handler: [TimestampUpdater] writes timestamps into
    the buffer that is being iterated. Slices of the buffer therefore carry
    their offset. *)

From stdpp Require Import gmap.
From S2P Require Import Prelude Coding Comparator DbFormat Status WideColumns.

(** * Content flags *)

Definition DEFERRED : Z := Z.shiftl 1 0.
Definition HAS_PUT : Z := Z.shiftl 1 1.
Definition HAS_DELETE : Z := Z.shiftl 1 2.
Definition HAS_SINGLE_DELETE : Z := Z.shiftl 1 3.
Definition HAS_MERGE : Z := Z.shiftl 1 4.
Definition HAS_BEGIN_PREPARE : Z := Z.shiftl 1 5.
Definition HAS_END_PREPARE : Z := Z.shiftl 1 6.
Definition HAS_COMMIT : Z := Z.shiftl 1 7.
Definition HAS_ROLLBACK : Z := Z.shiftl 1 8.
Definition HAS_DELETE_RANGE : Z := Z.shiftl 1 9.
Definition HAS_BLOB_INDEX : Z := Z.shiftl 1 10.
Definition HAS_BEGIN_UNPREPARE : Z := Z.shiftl 1 11.
Definition HAS_PUT_ENTITY : Z := Z.shiftl 1 12.
Definition HAS_TIMED_PUT : Z := Z.shiftl 1 13.

(** * The batch *)

Record SavePoint := { sp_size : Z; sp_count : Z; sp_content_flags : Z }.
Definition cleared_savepoint : SavePoint := {| sp_size := 0; sp_count := 0; sp_content_flags := 0 |}.
Definition is_cleared (p : SavePoint) : bool :=
  Z.lor (Z.lor (sp_size p) (sp_count p)) (sp_content_flags p) =? 0.

Definition kHeader : Z := 12.

Record WriteBatch := {
  rep_ : bytes;
  (** The stack, most recent save point first; empty also when the pointer is null. *)
  save_points_ : list SavePoint;
  wal_term_point_ : SavePoint;
  is_latest_persistent_state_ : bool;
  needs_in_place_update_ts_ : bool;
  has_key_with_ts_ : bool;
  content_flags_ : Z;
  max_bytes_ : Z;
  prot_info_ : option (list Z);
  default_cf_ts_sz_ : Z;
  track_timestamp_size_ : bool;
  cf_id_to_ts_sz_ : gmap Z Z;
}.

Definition set_rep (b : WriteBatch) (rep : bytes) : WriteBatch :=
  {| rep_ := rep; save_points_ := save_points_ b; wal_term_point_ := wal_term_point_ b;
     is_latest_persistent_state_ := is_latest_persistent_state_ b;
     needs_in_place_update_ts_ := needs_in_place_update_ts_ b;
     has_key_with_ts_ := has_key_with_ts_ b; content_flags_ := content_flags_ b;
     max_bytes_ := max_bytes_ b; prot_info_ := prot_info_ b;
     default_cf_ts_sz_ := default_cf_ts_sz_ b; track_timestamp_size_ := track_timestamp_size_ b;
     cf_id_to_ts_sz_ := cf_id_to_ts_sz_ b |}.
Definition set_content_flags (b : WriteBatch) (flags : Z) : WriteBatch :=
  {| rep_ := rep_ b; save_points_ := save_points_ b; wal_term_point_ := wal_term_point_ b;
     is_latest_persistent_state_ := is_latest_persistent_state_ b;
     needs_in_place_update_ts_ := needs_in_place_update_ts_ b;
     has_key_with_ts_ := has_key_with_ts_ b; content_flags_ := flags;
     max_bytes_ := max_bytes_ b; prot_info_ := prot_info_ b;
     default_cf_ts_sz_ := default_cf_ts_sz_ b; track_timestamp_size_ := track_timestamp_size_ b;
     cf_id_to_ts_sz_ := cf_id_to_ts_sz_ b |}.
Definition set_prot_info (b : WriteBatch) (p : option (list Z)) : WriteBatch :=
  {| rep_ := rep_ b; save_points_ := save_points_ b; wal_term_point_ := wal_term_point_ b;
     is_latest_persistent_state_ := is_latest_persistent_state_ b;
     needs_in_place_update_ts_ := needs_in_place_update_ts_ b;
     has_key_with_ts_ := has_key_with_ts_ b; content_flags_ := content_flags_ b;
     max_bytes_ := max_bytes_ b; prot_info_ := p;
     default_cf_ts_sz_ := default_cf_ts_sz_ b; track_timestamp_size_ := track_timestamp_size_ b;
     cf_id_to_ts_sz_ := cf_id_to_ts_sz_ b |}.
Definition set_save_points (b : WriteBatch) (l : list SavePoint) : WriteBatch :=
  {| rep_ := rep_ b; save_points_ := l; wal_term_point_ := wal_term_point_ b;
     is_latest_persistent_state_ := is_latest_persistent_state_ b;
     needs_in_place_update_ts_ := needs_in_place_update_ts_ b;
     has_key_with_ts_ := has_key_with_ts_ b; content_flags_ := content_flags_ b;
     max_bytes_ := max_bytes_ b; prot_info_ := prot_info_ b;
     default_cf_ts_sz_ := default_cf_ts_sz_ b; track_timestamp_size_ := track_timestamp_size_ b;
     cf_id_to_ts_sz_ := cf_id_to_ts_sz_ b |}.
Definition set_wal_term_point (b : WriteBatch) (p : SavePoint) : WriteBatch :=
  {| rep_ := rep_ b; save_points_ := save_points_ b; wal_term_point_ := p;
     is_latest_persistent_state_ := is_latest_persistent_state_ b;
     needs_in_place_update_ts_ := needs_in_place_update_ts_ b;
     has_key_with_ts_ := has_key_with_ts_ b; content_flags_ := content_flags_ b;
     max_bytes_ := max_bytes_ b; prot_info_ := prot_info_ b;
     default_cf_ts_sz_ := default_cf_ts_sz_ b; track_timestamp_size_ := track_timestamp_size_ b;
     cf_id_to_ts_sz_ := cf_id_to_ts_sz_ b |}.
(** The two flags about timestamps. *)
Definition set_ts_flags (b : WriteBatch) (needs_update has_key : bool) : WriteBatch :=
  {| rep_ := rep_ b; save_points_ := save_points_ b; wal_term_point_ := wal_term_point_ b;
     is_latest_persistent_state_ := is_latest_persistent_state_ b;
     needs_in_place_update_ts_ := needs_update;
     has_key_with_ts_ := has_key; content_flags_ := content_flags_ b;
     max_bytes_ := max_bytes_ b; prot_info_ := prot_info_ b;
     default_cf_ts_sz_ := default_cf_ts_sz_ b; track_timestamp_size_ := track_timestamp_size_ b;
     cf_id_to_ts_sz_ := cf_id_to_ts_sz_ b |}.
Definition set_cf_id_to_ts_sz (b : WriteBatch) (m : gmap Z Z) : WriteBatch :=
  {| rep_ := rep_ b; save_points_ := save_points_ b; wal_term_point_ := wal_term_point_ b;
     is_latest_persistent_state_ := is_latest_persistent_state_ b;
     needs_in_place_update_ts_ := needs_in_place_update_ts_ b;
     has_key_with_ts_ := has_key_with_ts_ b; content_flags_ := content_flags_ b;
     max_bytes_ := max_bytes_ b; prot_info_ := prot_info_ b;
     default_cf_ts_sz_ := default_cf_ts_sz_ b; track_timestamp_size_ := track_timestamp_size_ b;
     cf_id_to_ts_sz_ := m |}.
Definition set_default_cf_ts_sz (b : WriteBatch) (ts_sz : Z) : WriteBatch :=
  {| rep_ := rep_ b; save_points_ := save_points_ b; wal_term_point_ := wal_term_point_ b;
     is_latest_persistent_state_ := is_latest_persistent_state_ b;
     needs_in_place_update_ts_ := needs_in_place_update_ts_ b;
     has_key_with_ts_ := has_key_with_ts_ b; content_flags_ := content_flags_ b;
     max_bytes_ := max_bytes_ b; prot_info_ := prot_info_ b;
     default_cf_ts_sz_ := ts_sz; track_timestamp_size_ := track_timestamp_size_ b;
     cf_id_to_ts_sz_ := cf_id_to_ts_sz_ b |}.

(** * Checksums of entries (db/kv_checksum.h) *)

Class NPHash := { NPHash64 : bytes -> Z -> Z }.

Definition kSeedK : Z := 0.
Definition kSeedV : Z := 0xD28AAD72F49BD50B.
Definition kSeedO : Z := 0xA5155AE5E937AA16.
Definition kSeedS : Z := 0x77A00858DDD37F21.
Definition kSeedC : Z := 0x4A2AB5CBD26F542C.

Section Protection.
Context {H : NPHash}.
Definition ProtectKVO (val : Z) (key value : bytes) (op_type : Z) : Z :=
  Z.lxor (Z.lxor (Z.lxor val (NPHash64 key kSeedK)) (NPHash64 value kSeedV))
    (NPHash64 [byte.of_Z op_type] kSeedO).
Definition StripKVO (val : Z) (key value : bytes) (op_type : Z) : Z :=
  Z.lxor (Z.lxor (Z.lxor val (NPHash64 key kSeedK)) (NPHash64 value kSeedV))
    (NPHash64 [byte.of_Z op_type] kSeedO).
Definition ProtectC (val column_family_id : Z) : Z :=
  Z.lxor val (NPHash64 (EncodeFixed32 column_family_id) kSeedC).
Definition StripC (val column_family_id : Z) : Z :=
  Z.lxor val (NPHash64 (EncodeFixed32 column_family_id) kSeedC).
Definition ProtectS (val sequence_number : Z) : Z :=
  Z.lxor val (NPHash64 (EncodeFixed64 sequence_number) kSeedS).
Definition StripS (val sequence_number : Z) : Z :=
  Z.lxor val (NPHash64 (EncodeFixed64 sequence_number) kSeedS).
Definition UpdateK (val : Z) (old_key new_key : bytes) : Z :=
  Z.lxor (Z.lxor val (NPHash64 old_key kSeedK)) (NPHash64 new_key kSeedK).
Definition UpdateV (val : Z) (old_value new_value : bytes) : Z :=
  Z.lxor (Z.lxor val (NPHash64 old_value kSeedV)) (NPHash64 new_value kSeedV).
Definition UpdateO (val old_op_type new_op_type : Z) : Z :=
  Z.lxor (Z.lxor val (NPHash64 [byte.of_Z old_op_type] kSeedO))
    (NPHash64 [byte.of_Z new_op_type] kSeedO).
Definition ProtectionInfo_GetStatus (val : Z) : Status :=
  if negb (val =? 0) then Status_Corruption else Status_OK.
(** The entry that an operation adds. *)
Definition ProtectKVOC (key value : bytes) (op_type column_family_id : Z) : Z :=
  ProtectC (ProtectKVO 0 key value op_type) column_family_id.
End Protection.

(** * Header and constructors *)

Definition WriteBatchInternal_Count (b : WriteBatch) : Z := DecodeFixed32 (sdrop 8 (rep_ b)).
Definition WriteBatchInternal_SetCount (b : WriteBatch) (n : Z) : WriteBatch :=
  set_rep b (stake 8 (rep_ b) ++ EncodeFixed32 n ++ sdrop 12 (rep_ b)).
Definition WriteBatchInternal_Sequence (b : WriteBatch) : Z := DecodeFixed64 (rep_ b).
Definition WriteBatchInternal_SetSequence (b : WriteBatch) (seq : Z) : WriteBatch :=
  set_rep b (EncodeFixed64 seq ++ sdrop 8 (rep_ b)).

Definition MakeWriteBatch (max_bytes protection_bytes_per_key default_cf_ts_sz : Z) : WriteBatch :=
  {| rep_ := sfill kHeader Byte.x00; save_points_ := []; wal_term_point_ := cleared_savepoint;
     is_latest_persistent_state_ := false; needs_in_place_update_ts_ := false;
     has_key_with_ts_ := false; content_flags_ := 0; max_bytes_ := max_bytes;
     prot_info_ := if negb (protection_bytes_per_key =? 0) then Some [] else None;
     default_cf_ts_sz_ := default_cf_ts_sz; track_timestamp_size_ := false;
     cf_id_to_ts_sz_ := ∅ |}.
(** [WriteBatch(const std::string& rep)]. *)
Definition WriteBatch_of_rep (rep : bytes) : WriteBatch :=
  {| rep_ := rep; save_points_ := []; wal_term_point_ := cleared_savepoint;
     is_latest_persistent_state_ := false; needs_in_place_update_ts_ := false;
     has_key_with_ts_ := false; content_flags_ := DEFERRED; max_bytes_ := 0; prot_info_ := None;
     default_cf_ts_sz_ := 0; track_timestamp_size_ := false; cf_id_to_ts_sz_ := ∅ |}.
(** The copy constructor. *)
Definition WriteBatch_copy (src : WriteBatch) : WriteBatch :=
  {| rep_ := rep_ src; save_points_ := save_points_ src; wal_term_point_ := wal_term_point_ src;
     is_latest_persistent_state_ := false; needs_in_place_update_ts_ := false;
     has_key_with_ts_ := false; content_flags_ := content_flags_ src; max_bytes_ := max_bytes_ src;
     prot_info_ := prot_info_ src; default_cf_ts_sz_ := default_cf_ts_sz_ src;
     track_timestamp_size_ := false; cf_id_to_ts_sz_ := ∅ |}.

Definition WriteBatch_Clear (b : WriteBatch) : WriteBatch :=
  let b := set_rep b (sfill kHeader Byte.x00) in
  let b := set_content_flags b 0 in
  let b := set_save_points b [] in
  let b := set_prot_info b (option_map (fun _ => []) (prot_info_ b)) in
  let b := set_wal_term_point b cleared_savepoint in
  set_default_cf_ts_sz b 0.
Definition WriteBatch_Release (b : WriteBatch) : bytes * WriteBatch :=
  (rep_ b, WriteBatch_Clear (set_rep b [])).
Definition MarkWalTerminationPoint (b : WriteBatch) : WriteBatch :=
  set_wal_term_point b {| sp_size := slen (rep_ b); sp_count := WriteBatchInternal_Count b;
                          sp_content_flags := content_flags_ b |}.

(** * Save points *)

Definition current_savepoint (b : WriteBatch) : SavePoint :=
  {| sp_size := slen (rep_ b); sp_count := WriteBatchInternal_Count b;
     sp_content_flags := content_flags_ b |}.
Definition SetSavePoint (b : WriteBatch) : WriteBatch :=
  set_save_points b (current_savepoint b :: save_points_ b).

(** Back to a save point: [rep_.resize], the checksums, the count and the flags. *)
Definition restore (b : WriteBatch) (p : SavePoint) : WriteBatch :=
  let b := set_rep b (stake (sp_size p) (rep_ b)) in
  let b := set_prot_info b (option_map (stake (sp_count p)) (prot_info_ b)) in
  let b := WriteBatchInternal_SetCount b (sp_count p) in
  set_content_flags b (sp_content_flags p).
Definition RollbackToSavePoint (b : WriteBatch) : Status * WriteBatch :=
  match save_points_ b with
  | [] => (Status_NotFound, b)
  | savepoint :: stack =>
      let b := set_save_points b stack in
      if sp_size savepoint =? slen (rep_ b) then (Status_OK, b)
      else if sp_size savepoint =? 0 then (Status_OK, WriteBatch_Clear b)
      else (Status_OK, restore b savepoint)
  end.
Definition PopSavePoint (b : WriteBatch) : Status * WriteBatch :=
  match save_points_ b with
  | [] => (Status_NotFound, b)
  | _ :: stack => (Status_OK, set_save_points b stack)
  end.

(** [LocalSavePoint::commit]: [before] is the batch when the guard was constructed. *)
Definition commit (before b : WriteBatch) : Status * WriteBatch :=
  if negb (max_bytes_ b =? 0) && (slen (rep_ b) >? max_bytes_ b) then
    (Status_MemoryLimit, restore b (current_savepoint before))
  else (Status_OK, b).

(** * Adding records *)

Definition push_back (b : WriteBatch) (t : Z) : WriteBatch := set_rep b (rep_ b ++ [byte.of_Z t]).
Definition or_flags (b : WriteBatch) (flags : Z) : WriteBatch :=
  set_content_flags b (Z.lor (content_flags_ b) flags).
Definition add_prot (b : WriteBatch) (entry : Z) : WriteBatch :=
  set_prot_info b (option_map (fun entries => entries ++ [entry]) (prot_info_ b)).

(** Every record of a key starts like this: the count, the tag and the column family. *)
Definition start_record (b : WriteBatch) (column_family_id t t_cf : Z) : WriteBatch :=
  let b := WriteBatchInternal_SetCount b (u32 (WriteBatchInternal_Count b + 1)) in
  if column_family_id =? 0 then push_back b t
  else
    let b := push_back b t_cf in
    set_rep b (PutVarint32 (rep_ b) column_family_id).
Definition put_slice (b : WriteBatch) (s : bytes) : WriteBatch :=
  set_rep b (PutLengthPrefixedSlice (rep_ b) s).
Definition put_parts (b : WriteBatch) (parts : list bytes) : WriteBatch :=
  set_rep b (PutLengthPrefixedSliceParts (rep_ b) parts).

(** db/seqno_to_time_mapping.cc: a value and its write time. *)
Definition PackValueAndWriteTime (value : bytes) (unix_write_time : Z) : bytes :=
  PutFixed64 value unix_write_time.
Definition ParsePackedValueWithWriteTime (value : bytes) : bytes * Z :=
  (stake (slen value - 8) value, DecodeFixed64 (sdrop (slen value - 8) value)).

Section Operations.
Context {H : NPHash}.

Definition WriteBatchInternal_Put (b : WriteBatch) (column_family_id : Z) (key value : bytes)
    : Status * WriteBatch :=
  if slen key >? uint32_max then (Status_InvalidArgument, b)
  else if slen value >? uint32_max then (Status_InvalidArgument, b)
  else
    let b' := start_record b column_family_id kTypeValue kTypeColumnFamilyValue in
    let b' := put_slice (put_slice b' key) value in
    let b' := or_flags b' HAS_PUT in
    let b' := add_prot b' (ProtectKVOC key value kTypeValue column_family_id) in
    commit b b'.

Definition WriteBatchInternal_TimedPut (b : WriteBatch) (column_family_id : Z)
    (key value : bytes) (write_unix_time : Z) : Status * WriteBatch :=
  if slen key >? uint32_max then (Status_InvalidArgument, b)
  else if slen value >? uint32_max then (Status_InvalidArgument, b)
  else if write_unix_time =? 2 ^ 64 - 1 then WriteBatchInternal_Put b column_family_id key value
  else
    let b' := start_record b column_family_id kTypeValuePreferredSeqno
                kTypeColumnFamilyValuePreferredSeqno in
    let packed_value := PackValueAndWriteTime value write_unix_time in
    let b' := put_slice (put_slice b' key) packed_value in
    let b' := or_flags b' HAS_TIMED_PUT in
    let b' := add_prot b' (ProtectKVOC key packed_value kTypeValuePreferredSeqno column_family_id) in
    commit b b'.

Definition CheckSlicePartsLength (key value : list bytes) : Status :=
  let total_key_bytes := fold_left (fun t part => u64 (t + slen part)) key 0 in
  let total_value_bytes := fold_left (fun t part => u64 (t + slen part)) value 0 in
  if total_key_bytes >=? uint32_max then Status_InvalidArgument
  else if total_value_bytes >=? uint32_max then Status_InvalidArgument
  else Status_OK.

Definition WriteBatchInternal_Put_parts (b : WriteBatch) (column_family_id : Z)
    (key value : list bytes) : Status * WriteBatch :=
  let s := CheckSlicePartsLength key value in
  if negb (status_ok s) then (s, b)
  else
    let b' := start_record b column_family_id kTypeValue kTypeColumnFamilyValue in
    let b' := put_parts (put_parts b' key) value in
    let b' := or_flags b' HAS_PUT in
    let b' := add_prot b' (ProtectKVOC (concat key) (concat value) kTypeValue column_family_id) in
    commit b b'.

Definition WriteBatchInternal_PutEntity (b : WriteBatch) (column_family_id : Z) (key : bytes)
    (columns : WideColumns) : Status * WriteBatch :=
  if slen key >? uint32_max then (Status_InvalidArgument, b)
  else
    match WideColumn_Serialize (SortColumns columns) [] with
    | inr s => (s, b)
    | inl entity =>
        if slen entity >? uint32_max then (Status_InvalidArgument, b)
        else
          let b' := start_record b column_family_id kTypeWideColumnEntity
                      kTypeColumnFamilyWideColumnEntity in
          let b' := put_slice (put_slice b' key) entity in
          let b' := or_flags b' HAS_PUT_ENTITY in
          let b' := add_prot b' (ProtectKVOC key entity kTypeWideColumnEntity column_family_id) in
          commit b b'
    end.

Definition WriteBatchInternal_Delete (b : WriteBatch) (column_family_id : Z) (key : bytes)
    : Status * WriteBatch :=
  let b' := start_record b column_family_id kTypeDeletion kTypeColumnFamilyDeletion in
  let b' := put_slice b' key in
  let b' := or_flags b' HAS_DELETE in
  let b' := add_prot b' (ProtectKVOC key [] kTypeDeletion column_family_id) in
  commit b b'.
Definition WriteBatchInternal_Delete_parts (b : WriteBatch) (column_family_id : Z)
    (key : list bytes) : Status * WriteBatch :=
  let b' := start_record b column_family_id kTypeDeletion kTypeColumnFamilyDeletion in
  let b' := put_parts b' key in
  let b' := or_flags b' HAS_DELETE in
  let b' := add_prot b' (ProtectKVOC (concat key) [] kTypeDeletion column_family_id) in
  commit b b'.

Definition WriteBatchInternal_SingleDelete (b : WriteBatch) (column_family_id : Z) (key : bytes)
    : Status * WriteBatch :=
  let b' := start_record b column_family_id kTypeSingleDeletion kTypeColumnFamilySingleDeletion in
  let b' := put_slice b' key in
  let b' := or_flags b' HAS_SINGLE_DELETE in
  let b' := add_prot b' (ProtectKVOC key [] kTypeSingleDeletion column_family_id) in
  commit b b'.
Definition WriteBatchInternal_SingleDelete_parts (b : WriteBatch) (column_family_id : Z)
    (key : list bytes) : Status * WriteBatch :=
  let b' := start_record b column_family_id kTypeSingleDeletion kTypeColumnFamilySingleDeletion in
  let b' := put_parts b' key in
  let b' := or_flags b' HAS_SINGLE_DELETE in
  let b' := add_prot b' (ProtectKVOC (concat key) [] kTypeSingleDeletion column_family_id) in
  commit b b'.

Definition WriteBatchInternal_DeleteRange (b : WriteBatch) (column_family_id : Z)
    (begin_key end_key : bytes) : Status * WriteBatch :=
  let b' := start_record b column_family_id kTypeRangeDeletion kTypeColumnFamilyRangeDeletion in
  let b' := put_slice (put_slice b' begin_key) end_key in
  let b' := or_flags b' HAS_DELETE_RANGE in
  let b' := add_prot b' (ProtectKVOC begin_key end_key kTypeRangeDeletion column_family_id) in
  commit b b'.
Definition WriteBatchInternal_DeleteRange_parts (b : WriteBatch) (column_family_id : Z)
    (begin_key end_key : list bytes) : Status * WriteBatch :=
  let b' := start_record b column_family_id kTypeRangeDeletion kTypeColumnFamilyRangeDeletion in
  let b' := put_parts (put_parts b' begin_key) end_key in
  let b' := or_flags b' HAS_DELETE_RANGE in
  let b' := add_prot b' (ProtectKVOC (concat begin_key) (concat end_key) kTypeRangeDeletion
                           column_family_id) in
  commit b b'.

Definition WriteBatchInternal_Merge (b : WriteBatch) (column_family_id : Z) (key value : bytes)
    : Status * WriteBatch :=
  if slen key >? uint32_max then (Status_InvalidArgument, b)
  else if slen value >? uint32_max then (Status_InvalidArgument, b)
  else
    let b' := start_record b column_family_id kTypeMerge kTypeColumnFamilyMerge in
    let b' := put_slice (put_slice b' key) value in
    let b' := or_flags b' HAS_MERGE in
    let b' := add_prot b' (ProtectKVOC key value kTypeMerge column_family_id) in
    commit b b'.
Definition WriteBatchInternal_Merge_parts (b : WriteBatch) (column_family_id : Z)
    (key value : list bytes) : Status * WriteBatch :=
  let s := CheckSlicePartsLength key value in
  if negb (status_ok s) then (s, b)
  else
    let b' := start_record b column_family_id kTypeMerge kTypeColumnFamilyMerge in
    let b' := put_parts (put_parts b' key) value in
    let b' := or_flags b' HAS_MERGE in
    let b' := add_prot b' (ProtectKVOC (concat key) (concat value) kTypeMerge column_family_id) in
    commit b b'.

Definition WriteBatchInternal_PutBlobIndex (b : WriteBatch) (column_family_id : Z)
    (key value : bytes) : Status * WriteBatch :=
  let b' := start_record b column_family_id kTypeBlobIndex kTypeColumnFamilyBlobIndex in
  let b' := put_slice (put_slice b' key) value in
  let b' := or_flags b' HAS_BLOB_INDEX in
  let b' := add_prot b' (ProtectKVOC key value kTypeBlobIndex column_family_id) in
  commit b b'.
End Operations.

Definition WriteBatch_PutLogData (b : WriteBatch) (blob : bytes) : Status * WriteBatch :=
  commit b (put_slice (push_back b kTypeLogData) blob).

(** * Markers of transactions *)

Definition InsertNoop (b : WriteBatch) : Status * WriteBatch := (Status_OK, push_back b kTypeNoop).
Definition GetBeginPrepareType (write_after_commit unprepared_batch : bool) : Z :=
  if write_after_commit then kTypeBeginPrepareXID
  else if unprepared_batch then kTypeBeginUnprepareXID else kTypeBeginPersistedPrepareXID.
Definition InsertBeginPrepare (b : WriteBatch) (write_after_commit unprepared_batch : bool)
    : Status * WriteBatch :=
  let b := push_back b (GetBeginPrepareType write_after_commit unprepared_batch) in
  (Status_OK, or_flags b HAS_BEGIN_PREPARE).
Definition InsertEndPrepare (b : WriteBatch) (xid : bytes) : Status * WriteBatch :=
  (Status_OK, or_flags (put_slice (push_back b kTypeEndPrepareXID) xid) HAS_END_PREPARE).
Definition WriteBatchInternal_MarkEndPrepare (b : WriteBatch) (xid : bytes)
    (write_after_commit unprepared_batch : bool) : Status * WriteBatch :=
  let b := set_save_points b [] in
  let b := set_rep b (<[12%nat := byte.of_Z (GetBeginPrepareType write_after_commit unprepared_batch)]>
                        (rep_ b)) in
  let b := or_flags b HAS_BEGIN_PREPARE in
  let b := if unprepared_batch then or_flags b HAS_BEGIN_UNPREPARE else b in
  InsertEndPrepare b xid.
Definition WriteBatchInternal_MarkCommit (b : WriteBatch) (xid : bytes) : Status * WriteBatch :=
  (Status_OK, or_flags (put_slice (push_back b kTypeCommitXID) xid) HAS_COMMIT).
Definition WriteBatchInternal_MarkCommitWithTimestamp (b : WriteBatch) (xid commit_ts : bytes)
    : Status * WriteBatch :=
  (Status_OK,
   or_flags (put_slice (put_slice (push_back b kTypeCommitXIDAndTimestamp) commit_ts) xid) HAS_COMMIT).
Definition WriteBatchInternal_MarkRollback (b : WriteBatch) (xid : bytes) : Status * WriteBatch :=
  (Status_OK, or_flags (put_slice (push_back b kTypeRollbackXID) xid) HAS_ROLLBACK).

(** * The interface with column family handles *)

(** A handle: its id and the timestamp size of its comparator, if it has one. *)
Record ColumnFamilyHandle := { GetID : Z; GetComparator : option Z }.
Definition GetColumnFamilyID (column_family : option ColumnFamilyHandle) : Z :=
  match column_family with Some h => GetID h | None => 0 end.

Definition GetColumnFamilyIdAndTimestampSize (b : WriteBatch)
    (column_family : option ColumnFamilyHandle) : Status * Z * Z :=
  let cf_id := GetColumnFamilyID column_family in
  match column_family with
  | Some h =>
      match GetComparator h with
      | Some ts_sz =>
          (if (cf_id =? 0) && negb (default_cf_ts_sz_ b =? ts_sz) then Status_InvalidArgument
           else Status_OK, cf_id, ts_sz)
      | None => (Status_OK, cf_id, 0)
      end
  | None => (Status_OK, cf_id, if default_cf_ts_sz_ b >? 0 then default_cf_ts_sz_ b else 0)
  end.

(** The comparator of a handle is not null here ([assert(ucmp)]). *)
Definition CheckColumnFamilyTimestampSize (column_family : option ColumnFamilyHandle) (ts : bytes)
    : Status :=
  match column_family with
  | None => Status_InvalidArgument
  | Some h =>
      let cf_ts_sz := default 0 (GetComparator h) in
      if cf_ts_sz =? 0 then Status_InvalidArgument
      else if negb (cf_ts_sz =? slen ts) then Status_InvalidArgument
      else Status_OK
  end.

Definition MaybeTrackTimestampSize (b : WriteBatch) (column_family_id ts_sz : Z) : WriteBatch :=
  if negb (track_timestamp_size_ b) then b
  else match cf_id_to_ts_sz_ b !! column_family_id with
       | None => set_cf_id_to_ts_sz b (<[column_family_id := ts_sz]> (cf_id_to_ts_sz_ b))
       | Some _ => b
       end.
Definition SetTrackTimestampSize (b : WriteBatch) (track : bool) : WriteBatch :=
  {| rep_ := rep_ b; save_points_ := save_points_ b; wal_term_point_ := wal_term_point_ b;
     is_latest_persistent_state_ := is_latest_persistent_state_ b;
     needs_in_place_update_ts_ := needs_in_place_update_ts_ b;
     has_key_with_ts_ := has_key_with_ts_ b; content_flags_ := content_flags_ b;
     max_bytes_ := max_bytes_ b; prot_info_ := prot_info_ b;
     default_cf_ts_sz_ := default_cf_ts_sz_ b; track_timestamp_size_ := track;
     cf_id_to_ts_sz_ := cf_id_to_ts_sz_ b |}.

(** The end of most operations. *)
Definition track_if_ok (r : Status * WriteBatch) (cf_id ts_sz : Z) : Status * WriteBatch :=
  let '(s, b) := r in
  (s, if status_ok s then MaybeTrackTimestampSize b cf_id ts_sz else b).

Section Interface.
Context {H : NPHash}.

Definition WriteBatch_Put (b : WriteBatch) (column_family : option ColumnFamilyHandle)
    (key value : bytes) : Status * WriteBatch :=
  let '(s, cf_id, ts_sz) := GetColumnFamilyIdAndTimestampSize b column_family in
  if negb (status_ok s) then (s, b)
  else
    track_if_ok
      (if ts_sz =? 0 then WriteBatchInternal_Put b cf_id key value
       else WriteBatchInternal_Put_parts (set_ts_flags b true true) cf_id
              [key; sfill ts_sz Byte.x00] [value]) cf_id ts_sz.
Definition WriteBatch_TimedPut (b : WriteBatch) (column_family : option ColumnFamilyHandle)
    (key value : bytes) (write_unix_time : Z) : Status * WriteBatch :=
  let '(s, cf_id, ts_sz) := GetColumnFamilyIdAndTimestampSize b column_family in
  if negb (status_ok s) then (s, b)
  else if negb (ts_sz =? 0) then (Status_NotSupported, b)
  else WriteBatchInternal_TimedPut b cf_id key value write_unix_time.
Definition WriteBatch_Put_ts (b : WriteBatch) (column_family : option ColumnFamilyHandle)
    (key ts value : bytes) : Status * WriteBatch :=
  let s := CheckColumnFamilyTimestampSize column_family ts in
  if negb (status_ok s) then (s, b)
  else
    let cf_id := GetColumnFamilyID column_family in
    track_if_ok
      (WriteBatchInternal_Put_parts (set_ts_flags b (needs_in_place_update_ts_ b) true) cf_id
         [key; ts] [value]) cf_id (slen ts).
Definition WriteBatch_Put_parts (b : WriteBatch) (column_family : option ColumnFamilyHandle)
    (key value : list bytes) : Status * WriteBatch :=
  let '(s, cf_id, ts_sz) := GetColumnFamilyIdAndTimestampSize b column_family in
  if negb (status_ok s) then (s, b)
  else if ts_sz =? 0 then track_if_ok (WriteBatchInternal_Put_parts b cf_id key value) cf_id ts_sz
  else (Status_InvalidArgument, b).

Definition WriteBatch_PutEntity (b : WriteBatch) (column_family : option ColumnFamilyHandle)
    (key : bytes) (columns : WideColumns) : Status * WriteBatch :=
  match column_family with
  | None => (Status_InvalidArgument, b)
  | Some _ =>
      let '(s, cf_id, ts_sz) := GetColumnFamilyIdAndTimestampSize b column_family in
      if negb (status_ok s) then (s, b)
      else if negb (ts_sz =? 0) then (Status_InvalidArgument, b)
      else WriteBatchInternal_PutEntity b cf_id key columns
  end.
(** One entity per attribute group; stops at the first error. *)
Fixpoint PutEntity_loop (b : WriteBatch) (key : bytes)
    (attribute_groups : list (option ColumnFamilyHandle * WideColumns)) : Status * WriteBatch :=
  match attribute_groups with
  | [] => (Status_OK, b)
  | (column_family, columns) :: rest =>
      let '(s, b) := WriteBatch_PutEntity b column_family key columns in
      if negb (status_ok s) then (s, b) else PutEntity_loop b key rest
  end.
Definition WriteBatch_PutEntity_groups (b : WriteBatch) (key : bytes)
    (attribute_groups : list (option ColumnFamilyHandle * WideColumns)) : Status * WriteBatch :=
  match attribute_groups with
  | [] => (Status_InvalidArgument, b)
  | _ => PutEntity_loop b key attribute_groups
  end.

Definition WriteBatch_Delete (b : WriteBatch) (column_family : option ColumnFamilyHandle)
    (key : bytes) : Status * WriteBatch :=
  let '(s, cf_id, ts_sz) := GetColumnFamilyIdAndTimestampSize b column_family in
  if negb (status_ok s) then (s, b)
  else
    track_if_ok
      (if ts_sz =? 0 then WriteBatchInternal_Delete b cf_id key
       else WriteBatchInternal_Delete_parts (set_ts_flags b true true) cf_id
              [key; sfill ts_sz Byte.x00]) cf_id ts_sz.
Definition WriteBatch_Delete_ts (b : WriteBatch) (column_family : option ColumnFamilyHandle)
    (key ts : bytes) : Status * WriteBatch :=
  let s := CheckColumnFamilyTimestampSize column_family ts in
  if negb (status_ok s) then (s, b)
  else
    let cf_id := GetColumnFamilyID column_family in
    track_if_ok
      (WriteBatchInternal_Delete_parts (set_ts_flags b (needs_in_place_update_ts_ b) true) cf_id
         [key; ts]) cf_id (slen ts).
Definition WriteBatch_Delete_parts (b : WriteBatch) (column_family : option ColumnFamilyHandle)
    (key : list bytes) : Status * WriteBatch :=
  let '(s, cf_id, ts_sz) := GetColumnFamilyIdAndTimestampSize b column_family in
  if negb (status_ok s) then (s, b)
  else if ts_sz =? 0 then track_if_ok (WriteBatchInternal_Delete_parts b cf_id key) cf_id ts_sz
  else (Status_InvalidArgument, b).

Definition WriteBatch_SingleDelete (b : WriteBatch) (column_family : option ColumnFamilyHandle)
    (key : bytes) : Status * WriteBatch :=
  let '(s, cf_id, ts_sz) := GetColumnFamilyIdAndTimestampSize b column_family in
  if negb (status_ok s) then (s, b)
  else
    track_if_ok
      (if ts_sz =? 0 then WriteBatchInternal_SingleDelete b cf_id key
       else WriteBatchInternal_SingleDelete_parts (set_ts_flags b true true) cf_id
              [key; sfill ts_sz Byte.x00]) cf_id ts_sz.
Definition WriteBatch_SingleDelete_ts (b : WriteBatch) (column_family : option ColumnFamilyHandle)
    (key ts : bytes) : Status * WriteBatch :=
  let s := CheckColumnFamilyTimestampSize column_family ts in
  if negb (status_ok s) then (s, b)
  else
    let cf_id := GetColumnFamilyID column_family in
    track_if_ok
      (WriteBatchInternal_SingleDelete_parts (set_ts_flags b (needs_in_place_update_ts_ b) true)
         cf_id [key; ts]) cf_id (slen ts).
Definition WriteBatch_SingleDelete_parts (b : WriteBatch)
    (column_family : option ColumnFamilyHandle) (key : list bytes) : Status * WriteBatch :=
  let '(s, cf_id, ts_sz) := GetColumnFamilyIdAndTimestampSize b column_family in
  if negb (status_ok s) then (s, b)
  else if ts_sz =? 0 then track_if_ok (WriteBatchInternal_SingleDelete_parts b cf_id key) cf_id ts_sz
  else (Status_InvalidArgument, b).

Definition WriteBatch_DeleteRange (b : WriteBatch) (column_family : option ColumnFamilyHandle)
    (begin_key end_key : bytes) : Status * WriteBatch :=
  let '(s, cf_id, ts_sz) := GetColumnFamilyIdAndTimestampSize b column_family in
  if negb (status_ok s) then (s, b)
  else
    let dummy_ts := sfill ts_sz Byte.x00 in
    track_if_ok
      (if ts_sz =? 0 then WriteBatchInternal_DeleteRange b cf_id begin_key end_key
       else WriteBatchInternal_DeleteRange_parts (set_ts_flags b true true) cf_id
              [begin_key; dummy_ts] [end_key; dummy_ts]) cf_id ts_sz.
Definition WriteBatch_DeleteRange_ts (b : WriteBatch) (column_family : option ColumnFamilyHandle)
    (begin_key end_key ts : bytes) : Status * WriteBatch :=
  let s := CheckColumnFamilyTimestampSize column_family ts in
  if negb (status_ok s) then (s, b)
  else
    let cf_id := GetColumnFamilyID column_family in
    track_if_ok
      (WriteBatchInternal_DeleteRange_parts (set_ts_flags b (needs_in_place_update_ts_ b) true)
         cf_id [begin_key; ts] [end_key; ts]) cf_id (slen ts).
Definition WriteBatch_DeleteRange_parts (b : WriteBatch)
    (column_family : option ColumnFamilyHandle) (begin_key end_key : list bytes)
    : Status * WriteBatch :=
  let '(s, cf_id, ts_sz) := GetColumnFamilyIdAndTimestampSize b column_family in
  if negb (status_ok s) then (s, b)
  else if ts_sz =? 0 then
    track_if_ok (WriteBatchInternal_DeleteRange_parts b cf_id begin_key end_key) cf_id ts_sz
  else (Status_InvalidArgument, b).

Definition WriteBatch_Merge (b : WriteBatch) (column_family : option ColumnFamilyHandle)
    (key value : bytes) : Status * WriteBatch :=
  let '(s, cf_id, ts_sz) := GetColumnFamilyIdAndTimestampSize b column_family in
  if negb (status_ok s) then (s, b)
  else
    track_if_ok
      (if ts_sz =? 0 then WriteBatchInternal_Merge b cf_id key value
       else WriteBatchInternal_Merge_parts (set_ts_flags b true true) cf_id
              [key; sfill ts_sz Byte.x00] [value]) cf_id ts_sz.
Definition WriteBatch_Merge_ts (b : WriteBatch) (column_family : option ColumnFamilyHandle)
    (key ts value : bytes) : Status * WriteBatch :=
  let s := CheckColumnFamilyTimestampSize column_family ts in
  if negb (status_ok s) then (s, b)
  else
    let cf_id := GetColumnFamilyID column_family in
    track_if_ok
      (WriteBatchInternal_Merge_parts (set_ts_flags b (needs_in_place_update_ts_ b) true) cf_id
         [key; ts] [value]) cf_id (slen ts).
Definition WriteBatch_Merge_parts (b : WriteBatch) (column_family : option ColumnFamilyHandle)
    (key value : list bytes) : Status * WriteBatch :=
  let '(s, cf_id, ts_sz) := GetColumnFamilyIdAndTimestampSize b column_family in
  if negb (status_ok s) then (s, b)
  else if ts_sz =? 0 then track_if_ok (WriteBatchInternal_Merge_parts b cf_id key value) cf_id ts_sz
  else (Status_InvalidArgument, b).
End Interface.
