(* ===== verification/WriteBatchIter.v ===== *)
(** db/write_batch.cc: reading a batch. [ReadRecordFromWriteBatch],
    [WriteBatchInternal::Iterate] over a [Handler], the handlers that the batch
    itself uses ([BatchContentClassifier], [TimestampUpdater],
    [ProtectionInfoUpdater]), [VerifyChecksum] and [Append]. *)

From stdpp Require Import gmap.
From S2P Require Import Prelude Coding Comparator DbFormat Status WideColumns WriteBatch.

(** * Slices of the batch and handlers *)

(** A slice of [rep_]: where it starts and its bytes when it was read. *)
Record Slice := { s_off : Z; s_data : bytes }.
Definition empty_slice : Slice := {| s_off := 0; s_data := [] |}.

Inductive OptionState := kUnknown | kDisabled | kEnabled.
#[global] Instance OptionState_eq_dec : EqDecision OptionState.
Proof. solve_decision. Defined.

Record Handler (S : Type) := {
  PutCF : S -> Z -> Slice -> Slice -> Status * S;
  TimedPutCF : S -> Z -> Slice -> Slice -> Z -> Status * S;
  PutEntityCF : S -> Z -> Slice -> Slice -> Status * S;
  DeleteCF : S -> Z -> Slice -> Status * S;
  SingleDeleteCF : S -> Z -> Slice -> Status * S;
  DeleteRangeCF : S -> Z -> Slice -> Slice -> Status * S;
  MergeCF : S -> Z -> Slice -> Slice -> Status * S;
  PutBlobIndexCF : S -> Z -> Slice -> Slice -> Status * S;
  LogData : S -> Slice -> S;
  MarkBeginPrepare : S -> bool -> Status * S;
  MarkEndPrepare : S -> Slice -> Status * S;
  MarkNoop : S -> bool -> Status * S;
  MarkRollback : S -> Slice -> Status * S;
  MarkCommit : S -> Slice -> Status * S;
  MarkCommitWithTimestamp : S -> Slice -> Slice -> Status * S;
  Continue : S -> bool * S;
  WriteAfterCommit : S -> OptionState;
  WriteBeforePrepare : S -> OptionState;
  (** The contents of [rep_] after what the handler has written to it. *)
  buffer : S -> bytes -> bytes;
}.
Arguments PutCF {S}. Arguments TimedPutCF {S}. Arguments PutEntityCF {S}. Arguments DeleteCF {S}.
Arguments SingleDeleteCF {S}. Arguments DeleteRangeCF {S}. Arguments MergeCF {S}.
Arguments PutBlobIndexCF {S}. Arguments LogData {S}. Arguments MarkBeginPrepare {S}.
Arguments MarkEndPrepare {S}. Arguments MarkNoop {S}. Arguments MarkRollback {S}.
Arguments MarkCommit {S}. Arguments MarkCommitWithTimestamp {S}. Arguments Continue {S}.
Arguments WriteAfterCommit {S}. Arguments WriteBeforePrepare {S}. Arguments buffer {S}.

(** * One record *)

(** The out parameters of [ReadRecordFromWriteBatch]; those it does not set keep their value. *)
Record Fields := {
  f_tag : Z; f_column_family : Z; f_key : Slice; f_value : Slice; f_blob : Slice; f_xid : Slice;
  f_write_unix_time : Z;
}.
Definition initial_fields : Fields :=
  {| f_tag := 0; f_column_family := 0; f_key := empty_slice; f_value := empty_slice;
     f_blob := empty_slice; f_xid := empty_slice; f_write_unix_time := 0 |}.

(** A packed value of less than eight bytes is read before its start: [BadAccess]. *)
Inductive RecordResult :=
  | RecordOk (f : Fields) (input : bytes)
  | RecordError (s : Status)
  | BadAccess.

(** [GetLengthPrefixedSlice] on an input that ends at offset [e] of the batch. *)
Definition get_slice (e : Z) (input : bytes) : option (Slice * bytes) :=
  match GetLengthPrefixedSlice input with
  | Some (s, rest) => Some ({| s_off := e - slen rest - slen s; s_data := s |}, rest)
  | None => None
  end.

(** [tag == t_cf || tag == t]: the column family id is read for the first of the two. *)
Definition tag_of (tag t_cf t : Z) : bool := (tag =? t_cf) || (tag =? t).
Definition get_column_family (tag t_cf : Z) (input : bytes) : option (Z * bytes) :=
  if tag =? t_cf then GetVarint32 input else Some (0, input).

Definition read_key (e tag t_cf : Z) (f : Fields) (input : bytes) : RecordResult :=
  match get_column_family tag t_cf input with
  | None => RecordError Status_Corruption
  | Some (cf, input) =>
      match get_slice e input with
      | None => RecordError Status_Corruption
      | Some (key, input) =>
          RecordOk {| f_tag := tag; f_column_family := cf; f_key := key; f_value := f_value f;
                      f_blob := f_blob f; f_xid := f_xid f;
                      f_write_unix_time := f_write_unix_time f |} input
      end
  end.
Definition read_key_value (e tag t_cf : Z) (f : Fields) (input : bytes) : RecordResult :=
  match read_key e tag t_cf f input with
  | RecordOk f input =>
      match get_slice e input with
      | None => RecordError Status_Corruption
      | Some (value, input) =>
          RecordOk {| f_tag := tag; f_column_family := f_column_family f; f_key := f_key f;
                      f_value := value; f_blob := f_blob f; f_xid := f_xid f;
                      f_write_unix_time := f_write_unix_time f |} input
      end
  | r => r
  end.
Definition set_xid (f : Fields) (xid : Slice) : Fields :=
  {| f_tag := f_tag f; f_column_family := f_column_family f; f_key := f_key f;
     f_value := f_value f; f_blob := f_blob f; f_xid := xid;
     f_write_unix_time := f_write_unix_time f |}.
Definition read_xid (e : Z) (f : Fields) (input : bytes) : RecordResult :=
  match get_slice e input with
  | None => RecordError Status_Corruption
  | Some (xid, input) => RecordOk (set_xid f xid) input
  end.

(** [unpack]: the caller passes [write_unix_time], so that the packed value is split. *)
Definition unpack_value (unpack : bool) (r : RecordResult) : RecordResult :=
  match r with
  | RecordOk f input =>
      if unpack then
        let packed := f_value f in
        if slen (s_data packed) <? 8 then BadAccess
        else
          let '(value, write_unix_time) := ParsePackedValueWithWriteTime (s_data packed) in
          RecordOk {| f_tag := f_tag f; f_column_family := f_column_family f; f_key := f_key f;
                      f_value := {| s_off := s_off packed; s_data := value |};
                      f_blob := f_blob f; f_xid := f_xid f;
                      f_write_unix_time := write_unix_time |} input
      else r
  | r => r
  end.

Definition ReadRecordFromWriteBatch (e : Z) (f : Fields) (unpack : bool) (input : bytes)
    : RecordResult :=
  let tag := byte_at input 0 in
  let input := sdrop 1 input in
  let f := {| f_tag := tag; f_column_family := 0; f_key := f_key f; f_value := f_value f;
              f_blob := f_blob f; f_xid := f_xid f; f_write_unix_time := f_write_unix_time f |} in
  if tag_of tag kTypeColumnFamilyValue kTypeValue then
    read_key_value e tag kTypeColumnFamilyValue f input
  else if tag_of tag kTypeColumnFamilyDeletion kTypeDeletion then
    read_key e tag kTypeColumnFamilyDeletion f input
  else if tag_of tag kTypeColumnFamilySingleDeletion kTypeSingleDeletion then
    read_key e tag kTypeColumnFamilySingleDeletion f input
  else if tag_of tag kTypeColumnFamilyRangeDeletion kTypeRangeDeletion then
    read_key_value e tag kTypeColumnFamilyRangeDeletion f input
  else if tag_of tag kTypeColumnFamilyMerge kTypeMerge then
    read_key_value e tag kTypeColumnFamilyMerge f input
  else if tag_of tag kTypeColumnFamilyBlobIndex kTypeBlobIndex then
    read_key_value e tag kTypeColumnFamilyBlobIndex f input
  else if tag =? kTypeLogData then
    match get_slice e input with
    | None => RecordError Status_Corruption
    | Some (blob, input) =>
        RecordOk {| f_tag := tag; f_column_family := 0; f_key := f_key f; f_value := f_value f;
                    f_blob := blob; f_xid := f_xid f; f_write_unix_time := f_write_unix_time f |}
          input
    end
  else if (tag =? kTypeNoop) || (tag =? kTypeBeginPrepareXID) ||
          (tag =? kTypeBeginPersistedPrepareXID) || (tag =? kTypeBeginUnprepareXID) then
    RecordOk f input
  else if tag =? kTypeEndPrepareXID then read_xid e f input
  else if tag =? kTypeCommitXIDAndTimestamp then
    match get_slice e input with
    | None => RecordError Status_Corruption
    | Some (key, input) =>
        read_xid e {| f_tag := tag; f_column_family := 0; f_key := key; f_value := f_value f;
                      f_blob := f_blob f; f_xid := f_xid f;
                      f_write_unix_time := f_write_unix_time f |} input
    end
  else if tag =? kTypeCommitXID then read_xid e f input
  else if tag =? kTypeRollbackXID then read_xid e f input
  else if tag_of tag kTypeColumnFamilyWideColumnEntity kTypeWideColumnEntity then
    read_key_value e tag kTypeColumnFamilyWideColumnEntity f input
  else if tag_of tag kTypeColumnFamilyValuePreferredSeqno kTypeValuePreferredSeqno then
    unpack_value unpack (read_key_value e tag kTypeColumnFamilyValuePreferredSeqno f input)
  else RecordError Status_Corruption.

(** [ReadKeyFromWriteBatchEntry]. *)
Definition ReadKeyFromWriteBatchEntry (input : bytes) (cf_record : bool) : option (bytes * bytes) :=
  let input := sdrop 1 input in
  if cf_record then
    match GetVarint32 input with
    | Some (_, input) => GetLengthPrefixedSlice input
    | None => None
    end
  else GetLengthPrefixedSlice input.

(** * Iterate *)

Inductive LoopResult (S : Type) :=
  (** The end of the loop: status, handler, [handler_continue] and [found]. *)
  | LoopExit (s : Status) (st : S) (handler_continue : bool) (found : Z)
  | LoopReturn (s : Status) (st : S)
  | LoopBadAccess.
Arguments LoopExit {S}. Arguments LoopReturn {S}. Arguments LoopBadAccess {S}.

Inductive IterateResult (S : Type) :=
  | Returned (s : Status) (st : S)
  | IterateBadAccess.
Arguments Returned {S}. Arguments IterateBadAccess {S}.

Section Iterate.
Context {S : Type} (h : Handler S).

(** A call that counts as an entry when it succeeds. *)
Definition counted (r : Status * S) (empty_batch : bool) (found : Z) : Status * S * bool * Z :=
  let '(s, st) := r in
  if status_ok s then (s, st, false, u32 (found + 1)) else (s, st, empty_batch, found).

(** The [switch] of the loop: the status of the call, the handler, [empty_batch] and [found]. *)
Definition dispatch (st : S) (f : Fields) (empty_batch : bool) (found : Z)
    : Status * S * bool * Z :=
  let tag := f_tag f in
  let cf := f_column_family f in
  let key := f_key f in
  let value := f_value f in
  if tag_of tag kTypeColumnFamilyValue kTypeValue then
    counted (PutCF h st cf key value) empty_batch found
  else if tag_of tag kTypeColumnFamilyDeletion kTypeDeletion then
    counted (DeleteCF h st cf key) empty_batch found
  else if tag_of tag kTypeColumnFamilySingleDeletion kTypeSingleDeletion then
    counted (SingleDeleteCF h st cf key) empty_batch found
  else if tag_of tag kTypeColumnFamilyRangeDeletion kTypeRangeDeletion then
    counted (DeleteRangeCF h st cf key value) empty_batch found
  else if tag_of tag kTypeColumnFamilyMerge kTypeMerge then
    counted (MergeCF h st cf key value) empty_batch found
  else if tag_of tag kTypeColumnFamilyBlobIndex kTypeBlobIndex then
    let '(s, st) := PutBlobIndexCF h st cf key value in
    (s, st, empty_batch, if status_ok s then u32 (found + 1) else found)
  else if tag =? kTypeLogData then (Status_OK, LogData h st (f_blob f), false, found)
  else if tag =? kTypeBeginPrepareXID then
    let '(s, st) := MarkBeginPrepare h st false in
    let s := if bool_decide (WriteAfterCommit h st = kDisabled) then Status_NotSupported else s in
    let s := if bool_decide (WriteBeforePrepare h st = kEnabled) then Status_NotSupported else s in
    (s, st, false, found)
  else if tag =? kTypeBeginPersistedPrepareXID then
    let '(s, st) := MarkBeginPrepare h st false in
    let s := if bool_decide (WriteAfterCommit h st = kEnabled) then Status_NotSupported else s in
    (s, st, false, found)
  else if tag =? kTypeBeginUnprepareXID then
    let '(s, st) := MarkBeginPrepare h st true in
    let s := if bool_decide (WriteAfterCommit h st = kEnabled) then Status_NotSupported else s in
    let s := if bool_decide (WriteBeforePrepare h st = kDisabled) then Status_NotSupported else s in
    (s, st, false, found)
  else if tag =? kTypeEndPrepareXID then
    let '(s, st) := MarkEndPrepare h st (f_xid f) in (s, st, true, found)
  else if tag =? kTypeCommitXID then
    let '(s, st) := MarkCommit h st (f_xid f) in (s, st, true, found)
  else if tag =? kTypeCommitXIDAndTimestamp then
    let '(s, st) := MarkCommitWithTimestamp h st (f_xid f) key in
    (s, st, if status_ok s then true else empty_batch, found)
  else if tag =? kTypeRollbackXID then
    let '(s, st) := MarkRollback h st (f_xid f) in (s, st, true, found)
  else if tag =? kTypeNoop then
    let '(s, st) := MarkNoop h st empty_batch in (s, st, true, found)
  else if tag_of tag kTypeColumnFamilyWideColumnEntity kTypeWideColumnEntity then
    counted (PutEntityCF h st cf key value) empty_batch found
  else if tag_of tag kTypeColumnFamilyValuePreferredSeqno kTypeValuePreferredSeqno then
    counted (TimedPutCF h st cf key value (f_write_unix_time f)) empty_batch found
  else (Status_Corruption, st, empty_batch, found).

(** The loop, over the bytes of [rep] from [pos] to [e]. A status of the code
    [kTryAgain] makes the loop call the handler again with the same record. *)
Fixpoint Iterate_loop (fuel : nat) (rep : bytes) (e pos : Z) (st : S) (s : Status) (f : Fields)
    (last_was_try_again empty_batch : bool) (found : Z) : option (LoopResult S) :=
  match fuel with
  | O => None
  | Datatypes.S fuel =>
      if (status_ok s && (pos <? e)) || IsTryAgain s then
        let '(handler_continue, st) := Continue h st in
        if negb handler_continue then Some (LoopExit s st false found)
        else if negb (IsTryAgain s) then
          match ReadRecordFromWriteBatch e f true (stake (e - pos) (sdrop pos (buffer h st rep))) with
          | RecordError s => Some (LoopReturn s st)
          | BadAccess => Some LoopBadAccess
          | RecordOk f input =>
              let '(s, st, empty_batch, found) := dispatch st f empty_batch found in
              Iterate_loop fuel rep e (e - slen input) st s f false empty_batch found
          end
        else if last_was_try_again then Some (LoopReturn Status_Corruption st)
        else
          let '(s, st, empty_batch, found) := dispatch st f empty_batch found in
          Iterate_loop fuel rep e pos st s f true empty_batch found
      else Some (LoopExit s st true found)
  end.

Definition Iterate_fuel (b : WriteBatch) : nat := 2 * length (rep_ b) + 3.

(** [WriteBatchInternal::Iterate]. *)
Definition WriteBatchInternal_Iterate (b : WriteBatch) (st : S) (begin e : Z)
    : option (IterateResult S) :=
  if (begin >? slen (rep_ b)) || (e >? slen (rep_ b)) || (e <? begin) then
    Some (Returned Status_Corruption st)
  else
    let whole_batch := (begin =? kHeader) && (e =? slen (rep_ b)) in
    match Iterate_loop (Iterate_fuel b) (rep_ b) e begin st Status_OK initial_fields false true 0 with
    | None => None
    | Some LoopBadAccess => Some IterateBadAccess
    | Some (LoopReturn s st) => Some (Returned s st)
    | Some (LoopExit s st handler_continue found) =>
        if negb (status_ok s) then Some (Returned s st)
        else if handler_continue && whole_batch && negb (found =? WriteBatchInternal_Count b) then
          Some (Returned Status_Corruption st)
        else Some (Returned Status_OK st)
    end.

(** [WriteBatch::Iterate]. *)
Definition WriteBatch_Iterate (b : WriteBatch) (st : S) : option (IterateResult S) :=
  if slen (rep_ b) <? kHeader then Some (Returned Status_Corruption st)
  else WriteBatchInternal_Iterate b st kHeader (slen (rep_ b)).
End Iterate.

(** * The classifier *)

Definition set_flag (flags flag : Z) : Status * Z := (Status_OK, Z.lor flags flag).
Definition BatchContentClassifier : Handler Z := {|
  PutCF flags _ _ _ := set_flag flags HAS_PUT;
  TimedPutCF flags _ _ _ _ := set_flag flags HAS_TIMED_PUT;
  PutEntityCF flags _ _ _ := set_flag flags HAS_PUT_ENTITY;
  DeleteCF flags _ _ := set_flag flags HAS_DELETE;
  SingleDeleteCF flags _ _ := set_flag flags HAS_SINGLE_DELETE;
  DeleteRangeCF flags _ _ _ := set_flag flags HAS_DELETE_RANGE;
  MergeCF flags _ _ _ := set_flag flags HAS_MERGE;
  PutBlobIndexCF flags _ _ _ := set_flag flags HAS_BLOB_INDEX;
  LogData flags _ := flags;
  MarkBeginPrepare flags unprepare :=
    set_flag (Z.lor flags HAS_BEGIN_PREPARE) (if unprepare then HAS_BEGIN_UNPREPARE else 0);
  MarkEndPrepare flags _ := set_flag flags HAS_END_PREPARE;
  MarkNoop flags _ := (Status_InvalidArgument, flags);
  MarkRollback flags _ := set_flag flags HAS_ROLLBACK;
  MarkCommit flags _ := set_flag flags HAS_COMMIT;
  MarkCommitWithTimestamp flags _ _ := set_flag flags HAS_COMMIT;
  Continue flags := (true, flags);
  WriteAfterCommit _ := kUnknown;
  WriteBeforePrepare _ := kUnknown;
  buffer _ rep := rep;
|}.

(** [ComputeContentFlags]: the flags and the batch that caches them. *)
Definition ComputeContentFlags (b : WriteBatch) : option (Z * WriteBatch) :=
  let rv := content_flags_ b in
  if negb (Z.land rv DEFERRED =? 0) then
    match WriteBatch_Iterate BatchContentClassifier b 0 with
    | Some (Returned _ rv) => Some (rv, set_content_flags b rv)
    | _ => None
    end
  else Some (rv, b).

(** * Updating timestamps in place *)

(** [memcpy] to offset [off] of the buffer. *)
Definition write_at (rep : bytes) (off : Z) (data : bytes) : bytes :=
  stake off rep ++ data ++ sdrop (off + slen data) rep.

Record TimestampUpdater := {
  (** The writes to the buffer, in order. *)
  tu_writes : list (Z * bytes);
  tu_prot_info : option (list Z);
  idx_ : nat;
}.

Section Timestamps.
Context {H : NPHash} (ts_sz_func : Z -> Z) (timestamp_ : bytes).

(** An index past the last entry, which is out of bounds in the source, changes nothing here. *)
Definition UpdateProtectionInformationIfNeeded (st : TimestampUpdater) (buf : Slice) (is_key : bool)
    : option (list Z) :=
  let old := s_data buf in
  let new_parts := stake (slen old - slen timestamp_) old ++ timestamp_ in
  option_map (fun entries =>
    alter (fun e => if is_key then UpdateK e old new_parts else UpdateV e old new_parts)
      (idx_ st) entries) (tu_prot_info st).

Definition UpdateTimestampImpl (st : TimestampUpdater) (cf : Z) (buf : Slice) (is_key : bool)
    : Status * TimestampUpdater :=
  if slen timestamp_ =? 0 then (Status_InvalidArgument, st)
  else
    let cf_ts_sz := ts_sz_func cf in
    if cf_ts_sz =? 0 then (Status_OK, st)
    else if cf_ts_sz =? 2 ^ 64 - 1 then (Status_NotFound, st)
    else if negb (cf_ts_sz =? slen timestamp_) then (Status_InvalidArgument, st)
    else
      (Status_OK,
       {| tu_writes := tu_writes st ++
            [(s_off buf + slen (s_data buf) - cf_ts_sz, timestamp_)];
          tu_prot_info := UpdateProtectionInformationIfNeeded st buf is_key;
          idx_ := idx_ st |}).
Definition UpdateTimestamp (st : TimestampUpdater) (cf : Z) (buf : Slice) (is_key : bool)
    : Status * TimestampUpdater :=
  let '(s, st) := UpdateTimestampImpl st cf buf is_key in
  (s, {| tu_writes := tu_writes st; tu_prot_info := tu_prot_info st; idx_ := Datatypes.S (idx_ st) |}).

Definition TimestampUpdater_handler : Handler TimestampUpdater := {|
  PutCF st cf key _ := UpdateTimestamp st cf key true;
  TimedPutCF st _ _ _ _ := (Status_InvalidArgument, st);
  PutEntityCF st _ _ _ := (Status_NotSupported, st);
  DeleteCF st cf key := UpdateTimestamp st cf key true;
  SingleDeleteCF st cf key := UpdateTimestamp st cf key true;
  DeleteRangeCF st cf begin_key end_key :=
    let '(s, st) := UpdateTimestamp st cf begin_key true in
    if status_ok s then UpdateTimestamp st cf end_key false else (s, st);
  MergeCF st cf key _ := UpdateTimestamp st cf key true;
  PutBlobIndexCF st cf key _ := UpdateTimestamp st cf key true;
  LogData st _ := st;
  MarkBeginPrepare st _ := (Status_OK, st);
  MarkEndPrepare st _ := (Status_OK, st);
  MarkNoop st _ := (Status_OK, st);
  MarkRollback st _ := (Status_OK, st);
  MarkCommit st _ := (Status_OK, st);
  MarkCommitWithTimestamp st _ _ := (Status_OK, st);
  Continue st := (true, st);
  WriteAfterCommit _ := kUnknown;
  WriteBeforePrepare _ := kUnknown;
  buffer st rep := fold_left (fun rep w => write_at rep w.1 w.2) (tu_writes st) rep;
|}.

Definition UpdateTimestamps (b : WriteBatch) : option (Status * WriteBatch) :=
  match WriteBatch_Iterate TimestampUpdater_handler b
          {| tu_writes := []; tu_prot_info := prot_info_ b; idx_ := 0 |} with
  | Some (Returned s st) =>
      let b := set_prot_info (set_rep b (buffer TimestampUpdater_handler st (rep_ b)))
                 (tu_prot_info st) in
      Some (s, if status_ok s then set_ts_flags b false (has_key_with_ts_ b) else b)
  | _ => None
  end.
End Timestamps.

(** * Checksums of a whole batch *)

(** The type under which an entry is protected, or [None] for a record without checksum. *)
Definition protected_tag (tag : Z) : option (option Z) :=
  if tag_of tag kTypeColumnFamilyValue kTypeValue then Some (Some kTypeValue)
  else if tag_of tag kTypeColumnFamilyDeletion kTypeDeletion then Some (Some kTypeDeletion)
  else if tag_of tag kTypeColumnFamilySingleDeletion kTypeSingleDeletion then
    Some (Some kTypeSingleDeletion)
  else if tag_of tag kTypeColumnFamilyRangeDeletion kTypeRangeDeletion then
    Some (Some kTypeRangeDeletion)
  else if tag_of tag kTypeColumnFamilyMerge kTypeMerge then Some (Some kTypeMerge)
  else if tag_of tag kTypeColumnFamilyBlobIndex kTypeBlobIndex then Some (Some kTypeBlobIndex)
  else if (tag =? kTypeLogData) || (tag =? kTypeBeginPrepareXID) || (tag =? kTypeEndPrepareXID) ||
          (tag =? kTypeCommitXID) || (tag =? kTypeRollbackXID) || (tag =? kTypeNoop) ||
          (tag =? kTypeBeginPersistedPrepareXID) || (tag =? kTypeBeginUnprepareXID) ||
          (tag =? kTypeDeletionWithTimestamp) || (tag =? kTypeCommitXIDAndTimestamp) then Some None
  else if tag_of tag kTypeColumnFamilyWideColumnEntity kTypeWideColumnEntity then
    Some (Some kTypeWideColumnEntity)
  else if tag_of tag kTypeColumnFamilyValuePreferredSeqno kTypeValuePreferredSeqno then
    Some (Some kTypeValuePreferredSeqno)
  else None.

Section Checksums.
Context {H : NPHash}.

(** The loop of [VerifyChecksum]: an error, or the number of entries verified. *)
Fixpoint VerifyChecksum_loop (fuel : nat) (e : Z) (entries : list Z) (prot_info_idx : Z)
    (input : bytes) : option (Z + Status) :=
  match fuel with
  | O => None
  | Datatypes.S fuel =>
      match input, entries with
      | [], _ | _, [] => Some (inl prot_info_idx)
      | _, entry :: rest =>
          match ReadRecordFromWriteBatch e initial_fields false input with
          | RecordError s => Some (inr s)
          | BadAccess => None
          | RecordOk f input =>
              match protected_tag (f_tag f) with
              | None => Some (inr Status_Corruption)
              | Some None => VerifyChecksum_loop fuel e entries prot_info_idx input
              | Some (Some tag) =>
                  let s := ProtectionInfo_GetStatus
                             (StripKVO (StripC entry (f_column_family f)) (s_data (f_key f))
                                (s_data (f_value f)) tag) in
                  if negb (status_ok s) then Some (inr s)
                  else VerifyChecksum_loop fuel e rest (prot_info_idx + 1) input
              end
          end
      end
  end.
Definition VerifyChecksum (b : WriteBatch) : option Status :=
  match prot_info_ b with
  | None => Some Status_OK
  | Some entries =>
      match VerifyChecksum_loop (Datatypes.S (length (rep_ b))) (slen (rep_ b)) entries 0
              (sdrop kHeader (rep_ b)) with
      | None => None
      | Some (inr s) => Some s
      | Some (inl prot_info_idx) =>
          if negb (prot_info_idx =? WriteBatchInternal_Count b) then Some Status_Corruption
          else Some Status_OK
      end
  end.

(** [ProtectionInfoUpdater]: the checksums of a batch that has none. *)
Definition UpdateProtInfo (entries : list Z) (cf : Z) (key val : bytes) (op_type : Z)
    : Status * list Z := (Status_OK, entries ++ [ProtectKVOC key val op_type cf]).
Definition ProtectionInfoUpdater : Handler (list Z) := {|
  PutCF es cf key val := UpdateProtInfo es cf (s_data key) (s_data val) kTypeValue;
  TimedPutCF es cf key val unix_write_time :=
    UpdateProtInfo es cf (s_data key) (s_data val ++ EncodeFixed64 unix_write_time)
      kTypeValuePreferredSeqno;
  PutEntityCF es cf key entity := UpdateProtInfo es cf (s_data key) (s_data entity) kTypeWideColumnEntity;
  DeleteCF es cf key := UpdateProtInfo es cf (s_data key) [] kTypeDeletion;
  SingleDeleteCF es cf key := UpdateProtInfo es cf (s_data key) [] kTypeSingleDeletion;
  DeleteRangeCF es cf begin_key end_key :=
    UpdateProtInfo es cf (s_data begin_key) (s_data end_key) kTypeRangeDeletion;
  MergeCF es cf key val := UpdateProtInfo es cf (s_data key) (s_data val) kTypeMerge;
  PutBlobIndexCF es cf key val := UpdateProtInfo es cf (s_data key) (s_data val) kTypeBlobIndex;
  LogData es _ := es;
  MarkBeginPrepare es _ := (Status_OK, es);
  MarkEndPrepare es _ := (Status_OK, es);
  MarkNoop es _ := (Status_OK, es);
  MarkRollback es _ := (Status_OK, es);
  MarkCommit es _ := (Status_OK, es);
  MarkCommitWithTimestamp es _ _ := (Status_OK, es);
  Continue es := (true, es);
  WriteAfterCommit _ := kUnknown;
  WriteBeforePrepare _ := kUnknown;
  buffer _ rep := rep;
|}.
(** [checksum]: the expected hash of the whole batch (XXH3), given as the value that the hash has. *)
Definition UpdateProtectionInfo (b : WriteBatch) (bytes_per_key : Z) (rep_hash : bytes -> Z)
    (checksum : option Z) : option (Status * WriteBatch) :=
  if bytes_per_key =? 0 then Some (Status_OK, set_prot_info b None)
  else if bytes_per_key =? 8 then
    match prot_info_ b with
    | Some _ => Some (Status_OK, b)
    | None =>
        match WriteBatch_Iterate ProtectionInfoUpdater b [] with
        | Some (Returned s entries) =>
            let b := set_prot_info b (Some entries) in
            match checksum with
            | Some checksum =>
                if status_ok s && negb (rep_hash (rep_ b) =? checksum) then Some (Status_Corruption, b)
                else Some (s, b)
            | None => Some (s, b)
            end
        | _ => None
        end
    end
  else Some (Status_NotSupported, b).
End Checksums.

(** * Whole batches *)

Definition WriteBatchInternal_SetContents (b : WriteBatch) (contents : bytes) : Status * WriteBatch :=
  (Status_OK, set_content_flags (set_rep b contents) DEFERRED).

Definition WriteBatchInternal_Append (dst src : WriteBatch) (wal_only : bool) : Status * WriteBatch :=
  let bad b := match prot_info_ b with
               | Some entries => negb (slen entries =? WriteBatchInternal_Count b)
               | None => false
               end in
  if bad src || bad dst then (Status_Corruption, dst)
  else
    let batch_end := wal_term_point_ src in
    let '(src_len, src_count, src_flags) :=
      if wal_only && negb (is_cleared batch_end) then
        (sp_size batch_end - kHeader, sp_count batch_end, sp_content_flags batch_end)
      else (slen (rep_ src) - kHeader, WriteBatchInternal_Count src, content_flags_ src) in
    let dst :=
      match prot_info_ src with
      | Some entries => set_prot_info dst (Some (default [] (prot_info_ dst) ++ stake src_count entries))
      | None => set_prot_info dst None
      end in
    let dst := WriteBatchInternal_SetCount dst (u32 (WriteBatchInternal_Count dst + src_count)) in
    let dst := set_rep dst (rep_ dst ++ stake src_len (sdrop kHeader (rep_ src))) in
    (Status_OK, set_content_flags dst (Z.lor (content_flags_ dst) src_flags)).

Definition AppendedByteSize (leftByteSize rightByteSize : Z) : Z :=
  if (leftByteSize =? 0) || (rightByteSize =? 0) then leftByteSize + rightByteSize
  else leftByteSize + rightByteSize - kHeader.
