(* ===== verification/WriteBatchSpec.v ===== *)
(** The abstract view of a write batch: a list of operations. What each
    operation adds to the serialised form, and that [Iterate] reads back exactly
    the operations of a batch, in order. *)

From stdpp Require Import gmap.
From S2P Require Import Prelude Coding Comparator DbFormat Status WideColumns WriteBatch WriteBatchIter.

(** * Operations *)

Inductive BeginKind := BeginPrepare | BeginPersistedPrepare | BeginUnprepare.

Inductive BatchOp :=
  | BPut (cf : Z) (key value : bytes)
  | BTimedPut (cf : Z) (key value : bytes) (write_unix_time : Z)
  | BPutEntity (cf : Z) (key entity : bytes)
  | BDelete (cf : Z) (key : bytes)
  | BSingleDelete (cf : Z) (key : bytes)
  | BDeleteRange (cf : Z) (begin_key end_key : bytes)
  | BMerge (cf : Z) (key value : bytes)
  | BPutBlobIndex (cf : Z) (key value : bytes)
  | BLogData (blob : bytes)
  | BNoop
  | BBeginPrepare (k : BeginKind)
  | BEndPrepare (xid : bytes)
  | BCommit (xid : bytes)
  | BCommitWithTimestamp (xid ts : bytes)
  | BRollback (xid : bytes).

(** Tag (with and without column family), column family and strings of a record. *)
Definition op_tag (op : BatchOp) : Z * Z * Z :=
  match op with
  | BPut cf _ _ => (kTypeValue, kTypeColumnFamilyValue, cf)
  | BTimedPut cf _ _ _ => (kTypeValuePreferredSeqno, kTypeColumnFamilyValuePreferredSeqno, cf)
  | BPutEntity cf _ _ => (kTypeWideColumnEntity, kTypeColumnFamilyWideColumnEntity, cf)
  | BDelete cf _ => (kTypeDeletion, kTypeColumnFamilyDeletion, cf)
  | BSingleDelete cf _ => (kTypeSingleDeletion, kTypeColumnFamilySingleDeletion, cf)
  | BDeleteRange cf _ _ => (kTypeRangeDeletion, kTypeColumnFamilyRangeDeletion, cf)
  | BMerge cf _ _ => (kTypeMerge, kTypeColumnFamilyMerge, cf)
  | BPutBlobIndex cf _ _ => (kTypeBlobIndex, kTypeColumnFamilyBlobIndex, cf)
  | BLogData _ => (kTypeLogData, kTypeLogData, 0)
  | BNoop => (kTypeNoop, kTypeNoop, 0)
  | BBeginPrepare BeginPrepare => (kTypeBeginPrepareXID, kTypeBeginPrepareXID, 0)
  | BBeginPrepare BeginPersistedPrepare =>
      (kTypeBeginPersistedPrepareXID, kTypeBeginPersistedPrepareXID, 0)
  | BBeginPrepare BeginUnprepare => (kTypeBeginUnprepareXID, kTypeBeginUnprepareXID, 0)
  | BEndPrepare _ => (kTypeEndPrepareXID, kTypeEndPrepareXID, 0)
  | BCommit _ => (kTypeCommitXID, kTypeCommitXID, 0)
  | BCommitWithTimestamp _ _ => (kTypeCommitXIDAndTimestamp, kTypeCommitXIDAndTimestamp, 0)
  | BRollback _ => (kTypeRollbackXID, kTypeRollbackXID, 0)
  end.
Definition op_strings (op : BatchOp) : list bytes :=
  match op with
  | BPut _ k v | BPutEntity _ k v | BMerge _ k v | BPutBlobIndex _ k v | BDeleteRange _ k v => [k; v]
  | BTimedPut _ k v t => [k; PackValueAndWriteTime v t]
  | BDelete _ k | BSingleDelete _ k => [k]
  | BLogData s | BEndPrepare s | BCommit s | BRollback s => [s]
  | BCommitWithTimestamp xid ts => [ts; xid]
  | BNoop | BBeginPrepare _ => []
  end.

Definition varstring (s : bytes) : bytes := PutLengthPrefixedSlice [] s.
Definition varstrings (l : list bytes) : bytes := concat (map varstring l).

Definition head_bytes (t t_cf cf : Z) : bytes :=
  if cf =? 0 then [byte.of_Z t] else byte.of_Z t_cf :: EncodeVarint32 cf.
Definition op_bytes (op : BatchOp) : bytes :=
  let '(t, t_cf, cf) := op_tag op in head_bytes t t_cf cf ++ varstrings (op_strings op).
Definition ops_bytes (ops : list BatchOp) : bytes := concat (map op_bytes ops).

(** Sizes that the record format can express. *)
Definition op_ok (op : BatchOp) : Prop :=
  fits 32 (op_tag op).2 /\ Forall (fun s => fits 32 (slen s)) (op_strings op) /\
  match op with BTimedPut _ _ _ t => fits 64 t | _ => True end.

Definition op_counts (op : BatchOp) : bool :=
  match op with
  | BPut _ _ _ | BTimedPut _ _ _ _ | BPutEntity _ _ _ | BDelete _ _ | BSingleDelete _ _
  | BDeleteRange _ _ _ | BMerge _ _ _ | BPutBlobIndex _ _ _ => true
  | _ => false
  end.
Definition num_counted (ops : list BatchOp) : Z := slen (filter op_counts ops).

Definition op_flags (op : BatchOp) : Z :=
  match op with
  | BPut _ _ _ => HAS_PUT
  | BTimedPut _ _ _ _ => HAS_TIMED_PUT
  | BPutEntity _ _ _ => HAS_PUT_ENTITY
  | BDelete _ _ => HAS_DELETE
  | BSingleDelete _ _ => HAS_SINGLE_DELETE
  | BDeleteRange _ _ _ => HAS_DELETE_RANGE
  | BMerge _ _ _ => HAS_MERGE
  | BPutBlobIndex _ _ _ => HAS_BLOB_INDEX
  | BLogData _ | BNoop => 0
  | BBeginPrepare BeginUnprepare => Z.lor HAS_BEGIN_PREPARE HAS_BEGIN_UNPREPARE
  | BBeginPrepare _ => HAS_BEGIN_PREPARE
  | BEndPrepare _ => HAS_END_PREPARE
  | BCommit _ | BCommitWithTimestamp _ _ => HAS_COMMIT
  | BRollback _ => HAS_ROLLBACK
  end.
Definition ops_flags (ops : list BatchOp) : Z := fold_left (fun f op => Z.lor f (op_flags op)) ops 0.

(** * One record *)

(** The slices of a record of which [rest] bytes follow and that ends at [e]. *)
Definition slice_before (e after : Z) (s : bytes) : Slice := {| s_off := e - after - slen s; s_data := s |}.
Definition fields_of (e rest : Z) (f : Fields) (unpack : bool) (op : BatchOp) : Fields :=
  let '(t, t_cf, cf) := op_tag op in
  let tag := if cf =? 0 then t else t_cf in
  let f0 := {| f_tag := tag; f_column_family := cf; f_key := f_key f; f_value := f_value f;
               f_blob := f_blob f; f_xid := f_xid f; f_write_unix_time := f_write_unix_time f |} in
  let with_key k := {| f_tag := tag; f_column_family := cf; f_key := k; f_value := f_value f;
               f_blob := f_blob f; f_xid := f_xid f; f_write_unix_time := f_write_unix_time f |} in
  let with_kv k v := {| f_tag := tag; f_column_family := cf; f_key := k; f_value := v;
               f_blob := f_blob f; f_xid := f_xid f; f_write_unix_time := f_write_unix_time f |} in
  match op with
  | BPut _ k v | BPutEntity _ k v | BMerge _ k v | BPutBlobIndex _ k v | BDeleteRange _ k v =>
      with_kv (slice_before e (rest + slen (varstring v)) k) (slice_before e rest v)
  | BTimedPut _ k v wt =>
      let packed := PackValueAndWriteTime v wt in
      let k := slice_before e (rest + slen (varstring packed)) k in
      if unpack then
        {| f_tag := tag; f_column_family := cf; f_key := k;
           f_value := {| s_off := e - rest - slen packed; s_data := v |};
           f_blob := f_blob f; f_xid := f_xid f; f_write_unix_time := wt |}
      else with_kv k (slice_before e rest packed)
  | BDelete _ k | BSingleDelete _ k => with_key (slice_before e rest k)
  | BLogData s =>
      {| f_tag := tag; f_column_family := cf; f_key := f_key f; f_value := f_value f;
         f_blob := slice_before e rest s; f_xid := f_xid f;
         f_write_unix_time := f_write_unix_time f |}
  | BEndPrepare s | BCommit s | BRollback s => set_xid f0 (slice_before e rest s)
  | BCommitWithTimestamp xid ts =>
      set_xid (with_key (slice_before e (rest + slen (varstring xid)) ts)) (slice_before e rest xid)
  | BNoop | BBeginPrepare _ => f0
  end.

Lemma get_slice_varstring e s rest : fits 32 (slen s) ->
  get_slice e (varstring s ++ rest) = Some (slice_before e (slen rest) s, rest).
Proof.
  intros Hs. unfold get_slice, varstring. by rewrite GetLengthPrefixedSlice_Put.
Qed.

(** Evaluates the comparisons of a concrete tag. *)
Ltac eval_tags :=
  cbv [tag_of kTypeDeletion kTypeValue kTypeMerge kTypeLogData kTypeColumnFamilyDeletion
    kTypeColumnFamilyValue kTypeColumnFamilyMerge kTypeSingleDeletion kTypeColumnFamilySingleDeletion
    kTypeBeginPrepareXID kTypeEndPrepareXID kTypeCommitXID kTypeRollbackXID kTypeNoop
    kTypeColumnFamilyRangeDeletion kTypeRangeDeletion kTypeColumnFamilyBlobIndex kTypeBlobIndex
    kTypeBeginPersistedPrepareXID kTypeBeginUnprepareXID kTypeCommitXIDAndTimestamp
    kTypeWideColumnEntity kTypeColumnFamilyWideColumnEntity kTypeValuePreferredSeqno
    kTypeColumnFamilyValuePreferredSeqno kTypeDeletionWithTimestamp] in *;
  cbn [Z.eqb Pos.eqb orb andb] in *.

Lemma head_tag t t_cf cf rest : fits 8 t -> fits 8 t_cf ->
  byte_at (head_bytes t t_cf cf ++ rest) 0 = if cf =? 0 then t else t_cf.
Proof.
  intros Ht Ht'. unfold head_bytes, byte_at. destruct (cf =? 0); simpl; by rewrite byte_of_Z_small.
Qed.

Lemma sdrop_1 {A} (x : A) l : sdrop 1 (x :: l) = l.
Proof. done. Qed.

Lemma head_column_family t t_cf cf rest : fits 32 cf -> t <> t_cf ->
  get_column_family (if cf =? 0 then t else t_cf) t_cf (sdrop 1 (head_bytes t t_cf cf ++ rest)) =
  Some (cf, rest).
Proof.
  intros Hcf Hne. unfold head_bytes, get_column_family.
  destruct (Z.eqb_spec cf 0) as [-> | Hn]; rewrite <- ?app_comm_cons, sdrop_1.
  - by rewrite (proj2 (Z.eqb_neq t t_cf) Hne).
  - by rewrite Z.eqb_refl, GetVarint32_Encode.
Qed.

Lemma read_key_head e t t_cf cf f k rest : fits 32 cf -> t <> t_cf -> fits 32 (slen k) ->
  read_key e (if cf =? 0 then t else t_cf) t_cf f
    (sdrop 1 (head_bytes t t_cf cf ++ varstring k ++ rest)) =
  RecordOk {| f_tag := if cf =? 0 then t else t_cf; f_column_family := cf;
              f_key := slice_before e (slen rest) k; f_value := f_value f; f_blob := f_blob f;
              f_xid := f_xid f; f_write_unix_time := f_write_unix_time f |} rest.
Proof.
  intros. unfold read_key. rewrite head_column_family by done. by rewrite get_slice_varstring.
Qed.

Lemma read_key_value_head e t t_cf cf f k v rest : fits 32 cf -> t <> t_cf ->
  fits 32 (slen k) -> fits 32 (slen v) ->
  read_key_value e (if cf =? 0 then t else t_cf) t_cf f
    (sdrop 1 (head_bytes t t_cf cf ++ varstring k ++ varstring v ++ rest)) =
  RecordOk {| f_tag := if cf =? 0 then t else t_cf; f_column_family := cf;
              f_key := slice_before e (slen rest + slen (varstring v)) k;
              f_value := slice_before e (slen rest) v; f_blob := f_blob f;
              f_xid := f_xid f; f_write_unix_time := f_write_unix_time f |} rest.
Proof.
  intros. unfold read_key_value. rewrite read_key_head by done.
  rewrite get_slice_varstring by done. cbn [f_column_family f_key f_blob f_xid f_write_unix_time].
  do 2 f_equal. unfold slice_before. f_equal. slia.
Qed.

Lemma unpack_packed v t : fits 64 t ->
  ParsePackedValueWithWriteTime (PackValueAndWriteTime v t) = (v, t) /\
  8 <= slen (PackValueAndWriteTime v t).
Proof.
  intros Ht. unfold ParsePackedValueWithWriteTime, PackValueAndWriteTime, PutFixed64.
  split; [| slia]. replace (slen (v ++ EncodeFixed64 t) - 8) with (slen v) by slia.
  rewrite stake_app_exact, sdrop_app_exact by done.
  by rewrite <- (app_nil_r (EncodeFixed64 t)), DecodeFixed64_Encode.
Qed.

Lemma unpack_value_packed unpack f off v t rest : fits 64 t ->
  f_value f = {| s_off := off; s_data := PackValueAndWriteTime v t |} ->
  unpack_value unpack (RecordOk f rest) =
  RecordOk (if unpack then
              {| f_tag := f_tag f; f_column_family := f_column_family f; f_key := f_key f;
                 f_value := {| s_off := off; s_data := v |}; f_blob := f_blob f; f_xid := f_xid f;
                 f_write_unix_time := t |}
            else f) rest.
Proof.
  intros Ht E. unfold unpack_value. destruct unpack; [| done]. rewrite E. cbn [s_data s_off].
  destruct (unpack_packed v t Ht) as [-> Hlen]. by rewrite (proj2 (Z.ltb_ge _ _) Hlen).
Qed.

Lemma sdrop_head_0 t t_cf l : sdrop 1 (head_bytes t t_cf 0 ++ l) = l.
Proof. done. Qed.

(** Reading the record of an operation gives its fields, and leaves what follows. *)
Lemma ReadRecord_op e f unpack op rest : op_ok op ->
  ReadRecordFromWriteBatch e f unpack (op_bytes op ++ rest) =
  RecordOk (fields_of e (slen rest) f unpack op) rest.
Proof.
  intros (Hcf & Hs & Ht). unfold op_bytes.
  destruct op as [| | | | | | | | | | [] | | | |]; cbn [op_tag op_strings fst snd] in *;
    rewrite <- app_assoc; unfold ReadRecordFromWriteBatch, varstrings; rewrite head_tag by done;
    cbn [map concat]; rewrite <- ?app_assoc, ?app_nil_l, ?app_nil_r;
    repeat (apply Forall_cons_1 in Hs as [? Hs]).
  all: try (rewrite read_key_value_head by done); try (rewrite read_key_head by done).
  all: unfold fields_of; cbn [op_tag].
  all: try (destruct (Z.eqb_spec cf 0) as [-> | Hn]).
  all: eval_tags; try done.
  1-2: erewrite unpack_value_packed by done; by destruct unpack.
  all: rewrite ?sdrop_head_0; unfold read_xid; rewrite ?get_slice_varstring by done; try done.
  do 2 f_equal. unfold slice_before. do 2 f_equal. slia.
Qed.

(** * What a handler sees of a batch *)

Section Run.
Context {S : Type} (h : Handler S).

(** The call for an operation of which [rest] bytes follow in a batch that ends at [e]. The
    third component says whether the current sub-batch is empty. *)
Definition handler_call (e rest : Z) (st : S) (empty_batch : bool) (op : BatchOp)
    : Status * S * bool :=
  let at_end s := slice_before e rest s in
  let before v s := slice_before e (rest + slen (varstring v)) s in
  let entry (r : Status * S) := (r, if status_ok r.1 then false else empty_batch) in
  let refuse (b : bool) (s : Status) := if b then Status_NotSupported else s in
  match op with
  | BPut cf k v => entry (PutCF h st cf (before v k) (at_end v))
  | BTimedPut cf k v t =>
      let packed := PackValueAndWriteTime v t in
      entry (TimedPutCF h st cf (before packed k) {| s_off := e - rest - slen packed; s_data := v |} t)
  | BPutEntity cf k v => entry (PutEntityCF h st cf (before v k) (at_end v))
  | BDelete cf k => entry (DeleteCF h st cf (at_end k))
  | BSingleDelete cf k => entry (SingleDeleteCF h st cf (at_end k))
  | BDeleteRange cf k v => entry (DeleteRangeCF h st cf (before v k) (at_end v))
  | BMerge cf k v => entry (MergeCF h st cf (before v k) (at_end v))
  | BPutBlobIndex cf k v => (PutBlobIndexCF h st cf (before v k) (at_end v), empty_batch)
  | BLogData s => (Status_OK, LogData h st (at_end s), false)
  | BBeginPrepare BeginPrepare =>
      let '(s, st) := MarkBeginPrepare h st false in
      let s := refuse (bool_decide (WriteAfterCommit h st = kDisabled)) s in
      (refuse (bool_decide (WriteBeforePrepare h st = kEnabled)) s, st, false)
  | BBeginPrepare BeginPersistedPrepare =>
      let '(s, st) := MarkBeginPrepare h st false in
      (refuse (bool_decide (WriteAfterCommit h st = kEnabled)) s, st, false)
  | BBeginPrepare BeginUnprepare =>
      let '(s, st) := MarkBeginPrepare h st true in
      let s := refuse (bool_decide (WriteAfterCommit h st = kEnabled)) s in
      (refuse (bool_decide (WriteBeforePrepare h st = kDisabled)) s, st, false)
  | BEndPrepare s => (MarkEndPrepare h st (at_end s), true)
  | BCommit s => (MarkCommit h st (at_end s), true)
  | BCommitWithTimestamp xid ts =>
      let r := MarkCommitWithTimestamp h st (at_end xid) (before xid ts) in
      (r, if status_ok r.1 then true else empty_batch)
  | BRollback s => (MarkRollback h st (at_end s), true)
  | BNoop => (MarkNoop h st empty_batch, true)
  end.

(** The calls for a list of operations: until [Continue] says no or a call fails; a call that
    asks for it is made again once. *)
Fixpoint run_ops (e : Z) (st : S) (empty_batch : bool) (ops : list BatchOp) : Status * S :=
  match ops with
  | [] => (Status_OK, st)
  | op :: ops =>
      let '(continue, st) := Continue h st in
      if negb continue then (Status_OK, st)
      else
        let rest := slen (ops_bytes ops) in
        let '(s, st, empty_batch) := handler_call e rest st empty_batch op in
        if status_ok s then run_ops e st empty_batch ops
        else if IsTryAgain s then
          let '(continue, st) := Continue h st in
          if negb continue then (s, st)
          else
            let '(s, st, empty_batch) := handler_call e rest st empty_batch op in
            if status_ok s then run_ops e st empty_batch ops
            else if IsTryAgain s then
              let '(continue, st) := Continue h st in
              if negb continue then (s, st) else (Status_Corruption, st)
            else (s, st)
        else (s, st)
  end.

Definition found_after (s : Status) (op : BatchOp) (found : Z) : Z :=
  if status_ok s && op_counts op then u32 (found + 1) else found.

Lemma dispatch_op e rest f st op empty_batch found : op_ok op ->
  dispatch h st (fields_of e rest f true op) empty_batch found =
  let '(s, st, empty_batch) := handler_call e rest st empty_batch op in
  (s, st, empty_batch, found_after s op found).
Proof.
  intros (Hcf & _). unfold dispatch, fields_of, counted, found_after.
  destruct op as [cf | cf | cf | cf | cf | cf | cf | cf | | | [] | | | |]; cbn [op_tag fst snd] in *.
  all: cbn [f_tag f_column_family f_key f_value f_blob f_xid f_write_unix_time set_xid handler_call
    op_counts]; try destruct (Z.eqb_spec cf 0) as [-> | Hn]; eval_tags.
  all: repeat match goal with
    | |- context [let '(_, _) := ?x in _] => destruct x as [s' st'] eqn:?; cbn [fst snd] in *
    | |- context [(?x).1] => destruct x as [s' st'] eqn:?; cbn [fst snd] in *
    end; rewrite ?andb_true_r, ?andb_false_r;
    first [done | by destruct (status_ok s')].
Qed.

(** The part of the buffer from [pos] on is as it was. *)
Definition intact (rep : bytes) (pos : Z) (st : S) : Prop :=
  slen (buffer h st rep) = slen rep /\ sdrop pos (buffer h st rep) = sdrop pos rep.

(** A handler that writes at most to the record it is called for, on operations that are [good]. *)
Record respectful (good : BatchOp -> Prop) (rep : bytes) : Prop := {
  continue_intact st : buffer h (Continue h st).2 rep = buffer h st rep;
  call_intact pre op suf st empty_batch : rep = pre ++ op_bytes op ++ suf -> good op ->
    intact rep (slen (pre ++ op_bytes op)) st ->
    intact rep (slen (pre ++ op_bytes op))
      (handler_call (slen rep) (slen suf) st empty_batch op).1.2;
}.

Lemma read_only_respectful rep : (forall st rep, buffer h st rep = rep) -> respectful op_ok rep.
Proof.
  intros Hb. constructor; [intros; by rewrite !Hb |]. intros. unfold intact. by rewrite !Hb.
Qed.

Definition outcome (r : LoopResult S) : option (Status * S) :=
  match r with
  | LoopExit s st _ _ => Some (if status_ok s then Status_OK else s, st)
  | LoopReturn s st => Some (s, st)
  | LoopBadAccess => None
  end.
(** When the loop reaches the end of the batch, it has counted all entries. *)
Definition found_all (r : LoopResult S) (found : Z) (ops : list BatchOp) : Prop :=
  forall s st n, r = LoopExit s st true n -> status_ok s = true -> n = u32 (found + num_counted ops).

Lemma intact_mono rep pos pos' st : 0 <= pos <= pos' -> intact rep pos st -> intact rep pos' st.
Proof.
  intros Hp [Hl Hs]. split; [done |].
  replace pos' with (pos + (pos' - pos)) by lia. rewrite <- !(sdrop_sdrop (pos' - pos)) by lia.
  by rewrite Hs.
Qed.

Lemma op_bytes_nonempty op : 0 < slen (op_bytes op).
Proof.
  unfold op_bytes. destruct (op_tag op) as [[t t_cf] cf]. unfold head_bytes.
  destruct (cf =? 0); slia.
Qed.

Lemma ops_bytes_cons op ops : ops_bytes (op :: ops) = op_bytes op ++ ops_bytes ops.
Proof. done. Qed.

Lemma num_counted_cons op ops :
  num_counted (op :: ops) = (if op_counts op then 1 else 0) + num_counted ops.
Proof. unfold num_counted. rewrite filter_cons. destruct (op_counts op); simpl; slia. Qed.

Lemma u32_add a b : u32 (u32 a + b) = u32 (a + b).
Proof. unfold wrap. by rewrite Zplus_mod_idemp_l. Qed.

(** One turn of the loop that reads the next record. *)
Lemma loop_read fuel rep pre op suf st s f last_try empty_batch found :
  rep = pre ++ op_bytes op ++ suf -> op_ok op -> status_ok s = true ->
  intact rep (slen pre) st -> (forall st, buffer h (Continue h st).2 rep = buffer h st rep) ->
  Iterate_loop h (Datatypes.S fuel) rep (slen rep) (slen pre) st s f last_try empty_batch found =
  let '(continue, st) := Continue h st in
  if negb continue then Some (LoopExit s st false found)
  else
    let '(s, st, empty_batch) := handler_call (slen rep) (slen suf) st empty_batch op in
    Iterate_loop h fuel rep (slen rep) (slen (pre ++ op_bytes op)) st s
      (fields_of (slen rep) (slen suf) f true op) false empty_batch (found_after s op found).
Proof.
  intros -> Hok Hs Hi Hr. pose proof (op_bytes_nonempty op). cbn [Iterate_loop].
  destruct (status_cases s) as [[E1 E2] | [[E1 E2] | [E1 E2]]]; [| congruence..].
  rewrite E1, E2, (proj2 (Z.ltb_lt _ _)) by slia. cbn [andb orb negb].
  pose proof (Hr st) as Hc. destruct (Continue h st) as [c st'].
  cbn [fst snd] in *. destruct c; [| done]. cbn [negb]. rewrite Hc.
  destruct Hi as [Hl ->]. rewrite sdrop_app_exact by done. rewrite stake_ge by slia.
  rewrite ReadRecord_op by done. rewrite dispatch_op by done.
  destruct (handler_call _ _ _ _ _) as [[s1 st1] e1]. f_equal. slia.
Qed.

(** One turn of the loop after a call that asked to be made again. *)
Lemma loop_again fuel rep e rest pos st s f op empty_batch found :
  op_ok op -> IsTryAgain s = true ->
  Iterate_loop h (Datatypes.S fuel) rep e pos st s (fields_of e rest f true op) false
    empty_batch found =
  let '(continue, st) := Continue h st in
  if negb continue then Some (LoopExit s st false found)
  else
    let '(s, st, empty_batch) := handler_call e rest st empty_batch op in
    Iterate_loop h fuel rep e pos st s (fields_of e rest f true op) true empty_batch
      (found_after s op found).
Proof.
  intros Hok Hs. cbn [Iterate_loop]. rewrite Hs, orb_true_r.
  destruct (Continue h st) as [c st']. destruct c; [| done]. cbn [negb].
  rewrite dispatch_op by done. by destruct (handler_call _ _ _ _ _) as [[s1 st1] e1].
Qed.

(** The loop ends when the status is an error. *)
Lemma loop_error fuel rep e pos st s f last_try empty_batch found :
  status_ok s = false -> IsTryAgain s = false ->
  Iterate_loop h (Datatypes.S fuel) rep e pos st s f last_try empty_batch found =
  Some (LoopExit s st true found).
Proof. intros H1 H2. cbn [Iterate_loop]. by rewrite H1, H2. Qed.

Lemma found_all_cons r s op found ops : status_ok s = true ->
  found_all r (found_after s op found) ops -> found_all r found (op :: ops).
Proof.
  intros Hs Hf s' st' n Er Hs'. rewrite (Hf _ _ _ Er Hs'). unfold found_after. rewrite Hs, num_counted_cons.
  destruct (op_counts op); cbn [andb]; [rewrite u32_add | ]; f_equal; lia.
Qed.

Lemma found_after_error s op found : status_ok s = false -> found_after s op found = found.
Proof. intros Hs. unfold found_after. by rewrite Hs. Qed.

Lemma found_after_wrapped s op found : found = u32 found -> found_after s op found = u32 (found_after s op found).
Proof.
  intros Hf. unfold found_after. destruct (_ && _); [| done].
  symmetry. apply wrap_small, wrap_fits. lia.
Qed.

Lemma exit_error_found s st c n found ops : status_ok s = false \/ c = false ->
  found_all (LoopExit s st c n) found ops.
Proof. intros Hs s' st' n' [= -> -> -> ->] Hok. destruct Hs; congruence. Qed.

Definition loop_spec (good : BatchOp -> Prop) (rep : bytes) (ops : list BatchOp) : Prop :=
  forall fuel pre st s f last_try empty_batch found,
  rep = pre ++ ops_bytes ops -> Forall op_ok ops -> Forall good ops -> intact rep (slen pre) st ->
  status_ok s = true -> (2 * length ops + 1 <= fuel)%nat -> found = u32 found ->
  exists r, Iterate_loop h fuel rep (slen rep) (slen pre) st s f last_try empty_batch found = Some r /\
    outcome r = Some (run_ops (slen rep) st empty_batch ops) /\ found_all r found ops.

(** After a call that asked for it, the call is made once more. *)
Lemma loop_retry good rep pre op ops fuel st s f empty_batch found :
  respectful good rep -> loop_spec good rep ops ->
  rep = pre ++ op_bytes op ++ ops_bytes ops -> Forall op_ok (op :: ops) -> Forall good (op :: ops) ->
  intact rep (slen (pre ++ op_bytes op)) st -> status_ok s = false -> IsTryAgain s = true ->
  (2 * length ops + 2 <= fuel)%nat -> found = u32 found ->
  exists r, Iterate_loop h fuel rep (slen rep) (slen (pre ++ op_bytes op)) st s
      (fields_of (slen rep) (slen (ops_bytes ops)) f true op) false empty_batch found = Some r /\
    outcome r = Some (
      let '(continue, st) := Continue h st in
      if negb continue then (s, st)
      else
        let '(s, st, empty_batch) := handler_call (slen rep) (slen (ops_bytes ops)) st empty_batch op in
        if status_ok s then run_ops (slen rep) st empty_batch ops
        else if IsTryAgain s then
          let '(continue, st) := Continue h st in
          if negb continue then (s, st) else (Status_Corruption, st)
        else (s, st)) /\
    found_all r found (op :: ops).
Proof.
  intros Hr IH Hrep [Hop Hok]%Forall_cons_1 [Hg Hgs]%Forall_cons_1 Hi Hs Ht Hfuel Hfound.
  destruct fuel as [| fuel]; [lia |]. rewrite loop_again by done.
  pose proof (continue_intact _ _ Hr st) as Hc. destruct (Continue h st) as [c st1]. cbn [snd] in Hc.
  destruct c; cbn [negb].
  2: { eexists. split_and!; [done | cbn [outcome]; by rewrite Hs | apply exit_error_found; auto]. }
  assert (intact rep (slen (pre ++ op_bytes op)) st1) as Hi1 by (unfold intact; by rewrite Hc).
  pose proof (call_intact _ _ Hr _ _ _ _ empty_batch Hrep Hg Hi1) as Hi2.
  destruct (handler_call _ _ st1 empty_batch op) as [[s1 st2] e1]. cbn [fst snd] in Hi2.
  destruct (status_cases s1) as [[E1 E2] | [[E1 E2] | [E1 E2]]]; rewrite E1, ?E2.
  - edestruct (IH fuel (pre ++ op_bytes op) st2 s1) as (r & -> & Ho & Hf);
      [by rewrite <- app_assoc | done.. | lia | by apply found_after_wrapped |].
    exists r. split_and!; [done.. |]. by eapply found_all_cons.
  - destruct fuel as [| fuel]; [lia |]. cbn [Iterate_loop]. rewrite E1, E2. cbn [andb orb].
    rewrite found_after_error by done.
    destruct (Continue h st2) as [c st3]. destruct c; cbn [negb].
    + by eexists.
    + eexists. split_and!; [done | cbn [outcome]; by rewrite E1 | apply exit_error_found; auto].
  - destruct fuel as [| fuel]; [lia |]. rewrite loop_error by done. eexists.
    split_and!; [done | cbn [outcome]; by rewrite E1 | apply exit_error_found; auto].
Qed.

Lemma Iterate_loop_ops good rep ops : respectful good rep -> loop_spec good rep ops.
Proof.
  intros Hr. induction ops as [| op ops IH]; intros fuel pre st s f last_try empty_batch found
    Hrep Hok Hgood Hi Hs Hfuel Hfound; (destruct fuel as [| fuel]; [simpl in Hfuel; lia |]).
  { exists (LoopExit s st true found). cbn [Iterate_loop].
    destruct (status_cases s) as [[E1 E2] | [[E1 E2] | [E1 E2]]]; [| congruence..].
    rewrite E1, E2, (proj2 (Z.ltb_ge _ _)) by (rewrite Hrep; unfold ops_bytes; simpl; slia).
    cbn [andb orb outcome run_ops]. rewrite E1. split_and!; [done.. |]. intros ? ? ? [= -> -> ->] _.
    by rewrite Z.add_0_r. }
  rewrite ops_bytes_cons in Hrep. pose proof Hok as [Hop Hok']%Forall_cons_1.
  pose proof Hgood as [Hg Hgs]%Forall_cons_1.
  rewrite loop_read with (suf := ops_bytes ops) (op := op) by (done || apply (continue_intact _ _ Hr)). cbn [run_ops].
  pose proof (continue_intact _ _ Hr st) as Hc. destruct (Continue h st) as [c st1]. cbn [snd] in Hc.
  destruct c; cbn [negb].
  2: { exists (LoopExit s st1 false found). cbn [outcome]. rewrite Hs. split_and!; [done.. |].
       apply exit_error_found; auto. }
  assert (intact rep (slen (pre ++ op_bytes op)) st1) as Hi1.
  { apply (intact_mono _ (slen pre)); [slia |]. unfold intact. by rewrite Hc. }
  pose proof (call_intact _ _ Hr _ _ _ _ empty_batch Hrep Hg Hi1) as Hi2.
  destruct (handler_call _ _ st1 empty_batch op) as [[s1 st2] e1]. cbn [fst snd] in Hi2.
  simpl length in Hfuel.
  destruct (status_cases s1) as [[E1 E2] | [[E1 E2] | [E1 E2]]]; rewrite E1, ?E2.
  - edestruct (IH fuel (pre ++ op_bytes op) st2 s1) as (r & -> & Ho & Hf);
      [by rewrite <- app_assoc | done.. | lia | by apply found_after_wrapped |].
    exists r. split_and!; [done.. |]. by eapply found_all_cons.
  - rewrite found_after_error by done. apply (loop_retry good); try done. lia.
  - destruct fuel as [| fuel]; [lia |]. rewrite loop_error by done. eexists.
    split_and!; [done | cbn [outcome]; by rewrite E1 | apply exit_error_found; auto].
Qed.
End Run.
