(* ===== verification/WriteBatchProofs.v ===== *)
(** Write batches implement lists of operations: every operation of the batch
    adds one record or leaves the batch as it was, [Iterate] shows the records to
    the handler in order, save points and [Append] act on the list. *)

From stdpp Require Import gmap.
From S2P Require Import Prelude Coding Comparator DbFormat Status WideColumns WriteBatch WriteBatchIter WriteBatchSpec.

(** * The invariant *)

(** The serialised form of a list of operations. *)
Definition rep_of (seq : bytes) (ops : list BatchOp) : bytes :=
  seq ++ EncodeFixed32 (u32 (num_counted ops)) ++ ops_bytes ops.

Record holds (b : WriteBatch) (ops : list BatchOp) : Prop := {
  holds_rep : exists seq, slen seq = 8 /\ rep_ b = rep_of seq ops;
  holds_ok : Forall op_ok ops;
}.

Section Prot.
Context {H : NPHash}.
(** The checksum of the entry that an operation adds. *)
Definition op_prot (op : BatchOp) : option Z :=
  match op with
  | BPut cf k v => Some (ProtectKVOC k v kTypeValue cf)
  | BTimedPut cf k v t => Some (ProtectKVOC k (PackValueAndWriteTime v t) kTypeValuePreferredSeqno cf)
  | BPutEntity cf k v => Some (ProtectKVOC k v kTypeWideColumnEntity cf)
  | BDelete cf k => Some (ProtectKVOC k [] kTypeDeletion cf)
  | BSingleDelete cf k => Some (ProtectKVOC k [] kTypeSingleDeletion cf)
  | BDeleteRange cf k v => Some (ProtectKVOC k v kTypeRangeDeletion cf)
  | BMerge cf k v => Some (ProtectKVOC k v kTypeMerge cf)
  | BPutBlobIndex cf k v => Some (ProtectKVOC k v kTypeBlobIndex cf)
  | _ => None
  end.

(** A batch with these operations, whose flags and checksums are those of the operations. *)
Record batch_of (b : WriteBatch) (ops : list BatchOp) : Prop := {
  batch_holds : holds b ops;
  batch_flags : content_flags_ b = ops_flags ops;
  batch_prot : forall entries, prot_info_ b = Some entries -> entries = omap op_prot ops;
}.

Lemma op_prot_counts op : is_Some (op_prot op) <-> op_counts op = true.
Proof. destruct op; simpl; split; intros Hx; try done; destruct Hx; done. Qed.

Lemma slen_op_prot ops : slen (omap op_prot ops) = num_counted ops.
Proof.
  induction ops as [| op ops IH]; [done |]. rewrite num_counted_cons.
  change (omap op_prot (op :: ops)) with
    (match op_prot op with Some z => z :: omap op_prot ops | None => omap op_prot ops end).
  pose proof (op_prot_counts op) as Hp. destruct (op_prot op), (op_counts op); try slia.
  - discriminate (proj1 Hp ltac:(by eexists)).
  - by destruct (proj2 Hp eq_refl).
Qed.
End Prot.

Lemma ops_bytes_app ops ops' : ops_bytes (ops ++ ops') = ops_bytes ops ++ ops_bytes ops'.
Proof. unfold ops_bytes. by rewrite map_app, concat_app. Qed.

Lemma num_counted_app ops ops' : num_counted (ops ++ ops') = num_counted ops + num_counted ops'.
Proof. unfold num_counted. rewrite list.filter_app. slia. Qed.

Lemma fold_flags_lor ops z y :
  fold_left (fun f op => Z.lor f (op_flags op)) ops (Z.lor z y) =
  Z.lor z (fold_left (fun f op => Z.lor f (op_flags op)) ops y).
Proof. revert y. induction ops as [| op ops IH]; intros y; simpl; [done |]. by rewrite <- Z.lor_assoc, IH. Qed.

Lemma ops_flags_app ops ops' : ops_flags (ops ++ ops') = Z.lor (ops_flags ops) (ops_flags ops').
Proof.
  unfold ops_flags. rewrite fold_left_app, <- fold_flags_lor. by rewrite Z.lor_0_r.
Qed.

Lemma length_ops_bytes ops : (length ops <= length (ops_bytes ops))%nat.
Proof.
  induction ops as [| op ops IH]; [done |]. rewrite ops_bytes_cons, length_app. simpl.
  pose proof (op_bytes_nonempty op). unfold slen in *. lia.
Qed.

(** The header of a batch with operations. *)
Lemma rep_of_header seq ops : slen seq = 8 ->
  slen (rep_of seq ops) = 12 + slen (ops_bytes ops) /\
  sdrop 12 (rep_of seq ops) = ops_bytes ops /\
  stake 8 (rep_of seq ops) = seq /\
  DecodeFixed32 (sdrop 8 (rep_of seq ops)) = u32 (num_counted ops).
Proof.
  intros Hseq. unfold rep_of. split_and!; [slia | | by apply stake_app_exact |].
  - rewrite app_assoc. apply sdrop_app_exact. slia.
  - rewrite sdrop_app_exact by done. apply DecodeFixed32_Encode, wrap_fits. lia.
Qed.

Lemma holds_count b ops : holds b ops -> WriteBatchInternal_Count b = u32 (num_counted ops).
Proof.
  intros [(seq & Hseq & E) _]. unfold WriteBatchInternal_Count. rewrite E. by apply rep_of_header.
Qed.

Lemma num_counted_nonneg ops : 0 <= num_counted ops.
Proof. apply slen_nonneg. Qed.

(** Batches with the same first bytes have the same sequence number. *)
Lemma Decode_sequence seq ops ops' : slen seq = 8 ->
  DecodeFixed64 (rep_of seq ops) = DecodeFixed64 (rep_of seq ops').
Proof.
  intros Hseq. unfold rep_of. pose proof (DecodeFixed64_fits seq).
  rewrite <- (EncodeFixed64_Decode seq Hseq). generalize dependent (DecodeFixed64 seq). intros n Hn.
  by rewrite !DecodeFixed64_Encode by done.
Qed.

(** * Iterate *)

Lemma Iterate_holds {S} (h : Handler S) good b ops st : holds b ops -> respectful h good (rep_ b) ->
  Forall good ops -> buffer h st (rep_ b) = rep_ b ->
  WriteBatch_Iterate h b st =
  Some (let '(s, st) := run_ops h (slen (rep_ b)) st true ops in Returned s st).
Proof.
  intros Hh Hr Hg Hb. pose proof (holds_count b ops Hh) as Hc.
  destruct Hh as [(seq & Hseq & E) Hok]. destruct (rep_of_header seq ops Hseq) as (Hl & Hd & Ht & _).
  pose proof (slen_nonneg (ops_bytes ops)). unfold WriteBatch_Iterate, WriteBatchInternal_Iterate, kHeader.
  rewrite E, Hl, (proj2 (Z.ltb_ge _ _)) by lia.
  destruct (Z.gtb_spec 12 (12 + slen (ops_bytes ops))); [lia |].
  rewrite (Z.gtb_ltb (12 + _)), Z.ltb_irrefl. cbn [orb].
  destruct (Iterate_loop_ops h good (rep_ b) ops Hr (Iterate_fuel b) (seq ++ EncodeFixed32 (u32 (num_counted ops)))
    st Status_OK initial_fields false true 0) as (r & Hloop & Hout & Hfound); try done.
  { rewrite E. unfold rep_of. by rewrite <- app_assoc. }
  { unfold intact. by rewrite Hb. }
  { unfold Iterate_fuel. pose proof (length_ops_bytes ops).
    assert (length (ops_bytes ops) <= length (rep_ b))%nat by (rewrite E; unfold rep_of, slen in *; rewrite !length_app; lia).
    lia. }
  replace (slen (seq ++ EncodeFixed32 (u32 (num_counted ops)))) with 12 in Hloop by slia.
  rewrite E, Hl in Hloop. rewrite Hloop.
  rewrite E, Hl in Hout. destruct (run_ops h _ st true ops) as [s' st'].
  destruct r as [s1 st1 c n | s1 st1 |]; cbn [outcome] in Hout; [| by injection Hout as -> -> | done].
  injection Hout as <- <-. destruct (status_ok s1) eqn:Es; cbn [negb]; [| done].
  rewrite Hc, !Z.eqb_refl. destruct c; [| done]. rewrite (Hfound _ _ _ eq_refl Es), Z.add_0_l, Z.eqb_refl.
  done.
Qed.

(** * Operations *)

Section Operations.
Context {H : NPHash}.

(** [b'] is [b] with the record of [op]. *)
Record appended (b b' : WriteBatch) (op : BatchOp) : Prop := {
  app_rep seq ops : slen seq = 8 -> rep_ b = rep_of seq ops -> rep_ b' = rep_of seq (ops ++ [op]);
  app_flags : content_flags_ b' = Z.lor (content_flags_ b) (op_flags op);
  app_prot : prot_info_ b' = option_map (fun es => es ++ option_list (op_prot op)) (prot_info_ b);
  app_same : b' = set_prot_info (set_content_flags (set_rep b (rep_ b')) (content_flags_ b'))
                    (prot_info_ b');
}.

Lemma rep_of_snoc seq ops op :
  rep_of seq (ops ++ [op]) =
  seq ++ EncodeFixed32 (u32 (num_counted ops + if op_counts op then 1 else 0)) ++
  ops_bytes ops ++ op_bytes op.
Proof.
  unfold rep_of. rewrite num_counted_app, ops_bytes_app, num_counted_cons.
  unfold num_counted at 2, ops_bytes at 2. simpl. by rewrite app_nil_r, Z.add_0_r.
Qed.

Lemma batch_appended b b' ops op : batch_of b ops -> op_ok op -> appended b b' op ->
  batch_of b' (ops ++ [op]).
Proof.
  intros [[(seq & Hseq & E) Hok] Hf Hp] Hop [Ar Af Ap _]. split; [split | |].
  - exists seq. split; [done | by apply Ar].
  - apply Forall_app. by split; [| constructor].
  - rewrite Af, Hf, ops_flags_app. unfold ops_flags at 2. simpl. done.
  - intros es. rewrite Ap. destruct (prot_info_ b) as [es0 |]; simpl; intros [= <-].
    rewrite (Hp es0 eq_refl), omap_app. by destruct (op_prot op) eqn:Ep; simpl; rewrite Ep.
Qed.

(** Going back to the save point before the record gives the batch itself. *)
Lemma restore_appended b b' ops op : batch_of b ops -> appended b b' op -> num_counted ops < 2 ^ 32 ->
  restore b' (current_savepoint b) = b.
Proof.
  intros Hb [Ar Af Ap ->] Hn. pose proof (holds_count _ _ (batch_holds _ _ Hb)) as Hc.
  destruct Hb as [[(seq & Hseq & E) Hok] Hf Hp]. specialize (Ar seq ops Hseq E).
  rewrite wrap_small in Hc by (unfold fits, num_counted in *; slia).
  unfold restore, current_savepoint, WriteBatchInternal_SetCount. cbn [sp_size sp_count sp_content_flags].
  rewrite Hc. destruct (rep_of_header seq ops Hseq) as (Hl & Hd & Ht & _).
  assert (stake (slen (rep_ b)) (rep_ b') =
    seq ++ EncodeFixed32 (u32 (num_counted ops + if op_counts op then 1 else 0)) ++ ops_bytes ops) as E1.
  { rewrite Ar, rep_of_snoc, E, Hl. rewrite !app_assoc. rewrite <- (app_assoc seq).
    apply stake_app_exact. slia. }
  assert (option_map (stake (num_counted ops)) (prot_info_ b') = prot_info_ b) as E2.
  { rewrite Ap. destruct (prot_info_ b) as [es |]; [| done]. simpl. f_equal.
    rewrite (Hp es eq_refl). apply stake_app_exact. by rewrite slen_op_prot. }
  destruct b; cbn in *; rewrite E1, E2; f_equal.
  rewrite stake_app_exact by done. rewrite app_assoc.
  rewrite sdrop_app_exact by slia. rewrite E. unfold rep_of.
  by rewrite wrap_small by (unfold fits, num_counted in *; slia).
Qed.

(** An operation that ends in [commit]: the record is added, or the limit on the size of the
    batch is exceeded and the batch is as it was. *)
Lemma commit_appended b b' ops op : batch_of b ops -> op_ok op -> appended b b' op ->
  num_counted ops < 2 ^ 32 ->
  (commit b b' = (Status_OK, b') /\ batch_of b' (ops ++ [op]) /\
   (max_bytes_ b = 0 \/ slen (rep_ b) + slen (op_bytes op) <= max_bytes_ b)) \/
  (commit b b' = (Status_MemoryLimit, b) /\
   max_bytes_ b <> 0 /\ max_bytes_ b < slen (rep_ b) + slen (op_bytes op)).
Proof.
  intros Hb Hop Ha Hn. unfold commit.
  assert (max_bytes_ b' = max_bytes_ b) as -> by (by rewrite (app_same _ _ _ Ha)).
  assert (slen (rep_ b') = slen (rep_ b) + slen (op_bytes op)) as ->.
  { destruct Hb as [[(seq & Hseq & E) _] _ _]. rewrite (app_rep _ _ _ Ha seq ops Hseq E), E.
    rewrite rep_of_snoc. unfold rep_of. slia. }
  destruct (Z.eqb_spec (max_bytes_ b) 0); cbn [negb andb].
  { left. split_and!; [done | by eapply batch_appended | by left]. }
  destruct (Z.gtb_spec (slen (rep_ b) + slen (op_bytes op)) (max_bytes_ b)); [right | left].
  - split_and!; [| done | lia]. f_equal. by eapply restore_appended.
  - split_and!; [done | by eapply batch_appended | by right].
Qed.

(** ** The records that the operations write *)

Lemma put_slice_varstring b s : put_slice b s = set_rep b (rep_ b ++ varstring s).
Proof. unfold put_slice, varstring. by rewrite PutLengthPrefixedSlice_app. Qed.

Lemma u32_u64 z : u32 (u64 z) = u32 z.
Proof. unfold wrap. apply Z.mod_mod_divide. by exists (2 ^ 32). Qed.

Lemma u32_fold_parts (parts : list bytes) : forall t,
  u32 (fold_left (fun t part => u64 (t + slen part)) parts t) = u32 (t + slen (concat parts)).
Proof.
  induction parts as [| p parts IH]; intros t; simpl; [f_equal; slia |].
  rewrite IH. rewrite <- (u32_add (u64 _)), u32_u64, u32_add. f_equal. slia.
Qed.

Lemma put_parts_varstring b parts : put_parts b parts = set_rep b (rep_ b ++ varstring (concat parts)).
Proof.
  unfold put_parts, PutLengthPrefixedSliceParts, PutLengthPrefixedSliceParts_total.
  rewrite fold_parts_app, u32_fold_parts, Z.add_0_l. f_equal.
  unfold varstring, PutLengthPrefixedSlice, PutVarint32. by rewrite <- !app_assoc.
Qed.

(** The record of an entry, as [start_record] and the strings write it. *)
Lemma appended_entry b op t t_cf cf p : op_tag op = (t, t_cf, cf) -> op_prot op = Some p ->
  appended b (add_prot (or_flags (set_rep (start_record b cf t t_cf)
                (rep_ (start_record b cf t t_cf) ++ varstrings (op_strings op))) (op_flags op)) p) op.
Proof.
  intros Ht Hp. assert (op_counts op = true) as Hc by (apply op_prot_counts; by eexists).
  split.
  - intros seq ops Hseq E. rewrite rep_of_snoc, Hc. unfold op_bytes. rewrite Ht. cbn.
    destruct (rep_of_header seq ops Hseq) as (_ & Hd & Hs & Hn).
    unfold start_record, WriteBatchInternal_SetCount, WriteBatchInternal_Count, head_bytes, push_back, PutVarint32.
    rewrite E, Hn, u32_add. destruct (cf =? 0); cbn [rep_ set_rep]; rewrite Hs, Hd; simpl;
      by rewrite <- !app_assoc.
  - cbn. unfold start_record. by destruct (cf =? 0).
  - cbn. rewrite Hp. unfold start_record. by destruct (cf =? 0).
  - cbn. unfold start_record. by destruct (cf =? 0).
Qed.

(** The record of a marker, which does not count as an entry. *)
Lemma appended_marker b op t : op_tag op = (t, t, 0) -> op_prot op = None ->
  appended b (or_flags (set_rep b (rep_ b ++ byte.of_Z t :: varstrings (op_strings op))) (op_flags op)) op.
Proof.
  intros Ht Hp. assert (op_counts op = false) as Hc.
  { destruct (op_counts op) eqn:E; [| done]. apply op_prot_counts in E as [? ?]. congruence. }
  split.
  - intros seq ops Hseq E. rewrite rep_of_snoc, Hc, Z.add_0_r. unfold op_bytes. rewrite Ht, E. cbn.
    unfold rep_of. by rewrite <- !app_assoc.
  - done.
  - cbn. rewrite Hp. destruct (prot_info_ b); simpl; [by rewrite app_nil_r | done].
  - done.
Qed.
End Operations.

(** * Sequences of calls *)

Inductive BatchCall :=
  | CallPut (cf : Z) (key value : bytes)
  | CallPutParts (cf : Z) (key value : list bytes)
  | CallTimedPut (cf : Z) (key value : bytes) (write_unix_time : Z)
  | CallPutEntity (cf : Z) (key : bytes) (columns : WideColumns)
  | CallDelete (cf : Z) (key : bytes)
  | CallDeleteParts (cf : Z) (key : list bytes)
  | CallSingleDelete (cf : Z) (key : bytes)
  | CallSingleDeleteParts (cf : Z) (key : list bytes)
  | CallDeleteRange (cf : Z) (begin_key end_key : bytes)
  | CallDeleteRangeParts (cf : Z) (begin_key end_key : list bytes)
  | CallMerge (cf : Z) (key value : bytes)
  | CallMergeParts (cf : Z) (key value : list bytes)
  | CallPutBlobIndex (cf : Z) (key value : bytes)
  | CallPutLogData (blob : bytes)
  | CallInsertNoop
  | CallInsertBeginPrepare (write_after_commit : bool)
  | CallInsertEndPrepare (xid : bytes)
  | CallMarkCommit (xid : bytes)
  | CallMarkCommitWithTimestamp (xid ts : bytes)
  | CallMarkRollback (xid : bytes).

Section Calls.
Context {H : NPHash}.

Definition call (b : WriteBatch) (c : BatchCall) : Status * WriteBatch :=
  match c with
  | CallPut cf k v => WriteBatchInternal_Put b cf k v
  | CallPutParts cf k v => WriteBatchInternal_Put_parts b cf k v
  | CallTimedPut cf k v t => WriteBatchInternal_TimedPut b cf k v t
  | CallPutEntity cf k cols => WriteBatchInternal_PutEntity b cf k cols
  | CallDelete cf k => WriteBatchInternal_Delete b cf k
  | CallDeleteParts cf k => WriteBatchInternal_Delete_parts b cf k
  | CallSingleDelete cf k => WriteBatchInternal_SingleDelete b cf k
  | CallSingleDeleteParts cf k => WriteBatchInternal_SingleDelete_parts b cf k
  | CallDeleteRange cf k v => WriteBatchInternal_DeleteRange b cf k v
  | CallDeleteRangeParts cf k v => WriteBatchInternal_DeleteRange_parts b cf k v
  | CallMerge cf k v => WriteBatchInternal_Merge b cf k v
  | CallMergeParts cf k v => WriteBatchInternal_Merge_parts b cf k v
  | CallPutBlobIndex cf k v => WriteBatchInternal_PutBlobIndex b cf k v
  | CallPutLogData s => WriteBatch_PutLogData b s
  | CallInsertNoop => InsertNoop b
  | CallInsertBeginPrepare wac => InsertBeginPrepare b wac false
  | CallInsertEndPrepare xid => InsertEndPrepare b xid
  | CallMarkCommit xid => WriteBatchInternal_MarkCommit b xid
  | CallMarkCommitWithTimestamp xid ts => WriteBatchInternal_MarkCommitWithTimestamp b xid ts
  | CallMarkRollback xid => WriteBatchInternal_MarkRollback b xid
  end.

(** The operation that a call stands for; [None] for columns that cannot be serialised. *)
Definition call_op (c : BatchCall) : option BatchOp :=
  match c with
  | CallPut cf k v => Some (BPut cf k v)
  | CallPutParts cf k v => Some (BPut cf (concat k) (concat v))
  | CallTimedPut cf k v t => Some (if t =? 2 ^ 64 - 1 then BPut cf k v else BTimedPut cf k v t)
  | CallPutEntity cf k cols =>
      match WideColumn_Serialize (SortColumns cols) [] with
      | inl entity => Some (BPutEntity cf k entity)
      | inr _ => None
      end
  | CallDelete cf k => Some (BDelete cf k)
  | CallDeleteParts cf k => Some (BDelete cf (concat k))
  | CallSingleDelete cf k => Some (BSingleDelete cf k)
  | CallSingleDeleteParts cf k => Some (BSingleDelete cf (concat k))
  | CallDeleteRange cf k v => Some (BDeleteRange cf k v)
  | CallDeleteRangeParts cf k v => Some (BDeleteRange cf (concat k) (concat v))
  | CallMerge cf k v => Some (BMerge cf k v)
  | CallMergeParts cf k v => Some (BMerge cf (concat k) (concat v))
  | CallPutBlobIndex cf k v => Some (BPutBlobIndex cf k v)
  | CallPutLogData s => Some (BLogData s)
  | CallInsertNoop => Some BNoop
  | CallInsertBeginPrepare wac => Some (BBeginPrepare (if wac then BeginPrepare else BeginPersistedPrepare))
  | CallInsertEndPrepare xid => Some (BEndPrepare xid)
  | CallMarkCommit xid => Some (BCommit xid)
  | CallMarkCommitWithTimestamp xid ts => Some (BCommitWithTimestamp xid ts)
  | CallMarkRollback xid => Some (BRollback xid)
  end.

(** Column families and times have their width; strings fit into a record. *)
Definition call_ok (c : BatchCall) : Prop := forall op, call_op c = Some op -> op_ok op.

(** A batch that differs from [b] at most in its records, their flags and checksums. *)
Definition same_but_records (b b' : WriteBatch) : Prop :=
  b' = set_prot_info (set_content_flags (set_rep b (rep_ b')) (content_flags_ b')) (prot_info_ b').

(** What a call may do to a batch with the operations [ops]. *)
Definition call_result (b : WriteBatch) (ops : list BatchOp) (c : BatchCall) (r : Status * WriteBatch)
    : Prop :=
  (r.1 = Status_OK /\
   exists op, call_op c = Some op /\ batch_of r.2 (ops ++ [op]) /\ same_but_records b r.2) \/
  (status_ok r.1 = false /\ r.2 = b).

Lemma commit_result b b' ops c op : batch_of b ops -> num_counted ops < 2 ^ 32 -> call_op c = Some op ->
  call_ok c -> appended b b' op -> call_result b ops c (commit b b').
Proof.
  intros Hb Hn Hc Hok Ha.
  destruct (commit_appended b b' ops op Hb (Hok _ Hc) Ha Hn) as [(-> & Hb' & _) | (-> & _)];
    [left | by right]. split; [done |]. exists op. split_and!; [done.. | apply Ha].
Qed.

Lemma marker_result b b' ops c op : batch_of b ops -> call_op c = Some op -> call_ok c ->
  appended b b' op -> call_result b ops c (Status_OK, b').
Proof.
  intros Hb Hc Hok Ha. left. split; [done |]. exists op.
  split_and!; [done | by eapply batch_appended, Ha; [| apply Hok] | apply Ha].
Qed.

Lemma put_one b k : put_slice b k = set_rep b (rep_ b ++ varstrings [k]).
Proof. rewrite put_slice_varstring. unfold varstrings. simpl. by rewrite app_nil_r. Qed.
Lemma put_two b k v : put_slice (put_slice b k) v = set_rep b (rep_ b ++ varstrings [k; v]).
Proof.
  rewrite !put_slice_varstring. unfold varstrings. simpl. by rewrite app_nil_r, <- app_assoc.
Qed.
Lemma put_one_parts b k : put_parts b k = set_rep b (rep_ b ++ varstrings [concat k]).
Proof. by rewrite put_parts_varstring, <- put_slice_varstring, put_one. Qed.
Lemma put_two_parts b k v :
  put_parts (put_parts b k) v = set_rep b (rep_ b ++ varstrings [concat k; concat v]).
Proof. rewrite !put_parts_varstring, <- put_two. by rewrite !put_slice_varstring. Qed.

Ltac solve_entry op :=
  apply (commit_result _ _ _ _ op); try done;
  rewrite ?put_two, ?put_one, ?put_two_parts, ?put_one_parts;
  by eapply (appended_entry _ op).

Lemma push_strings b t l :
  set_rep (push_back b t) (rep_ (push_back b t) ++ l) = set_rep b (rep_ b ++ byte.of_Z t :: l).
Proof. unfold push_back. cbn. by rewrite <- app_assoc. Qed.
Lemma or_flags_0 b : or_flags b 0 = b.
Proof. unfold or_flags. rewrite Z.lor_0_r. by destruct b. Qed.

Ltac solve_marker op :=
  first [apply (commit_result _ _ _ _ op) | apply (marker_result _ _ _ _ op)]; try done;
  rewrite ?put_two, ?put_one, ?push_strings; by eapply (appended_marker _ op).

(** Every call adds the record of its operation, or fails and leaves the batch as it was. *)
Lemma call_spec b ops c : batch_of b ops -> num_counted ops < 2 ^ 32 -> call_ok c ->
  call_result b ops c (call b c).
Proof.
  intros Hb Hn Hok. destruct c; cbn [call].
  - unfold WriteBatchInternal_Put. destruct (_ >? _); [by right |]. destruct (_ >? _); [by right |].
    solve_entry (BPut cf key value).
  - unfold WriteBatchInternal_Put_parts. destruct (status_ok _) eqn:Es; [| by right].
    solve_entry (BPut cf (concat key) (concat value)).
  - unfold WriteBatchInternal_TimedPut, WriteBatchInternal_Put. destruct (_ >? _); [by right |].
    destruct (_ >? _); [by right |].
    destruct (Z.eqb_spec write_unix_time (2 ^ 64 - 1)) as [-> | Hne].
    + solve_entry (BPut cf key value).
    + apply (commit_result _ _ _ _ (BTimedPut cf key value write_unix_time)); try done.
      { simpl. by rewrite (proj2 (Z.eqb_neq _ _) Hne). }
      rewrite put_two. by eapply (appended_entry _ (BTimedPut cf key value write_unix_time)).
  - unfold WriteBatchInternal_PutEntity. destruct (_ >? _); [by right |].
    destruct (WideColumn_Serialize _ _) as [entity | s] eqn:E.
    + destruct (_ >? _); [by right |]. apply (commit_result _ _ _ _ (BPutEntity cf key entity)); try done.
      { simpl. by rewrite E. }
      rewrite put_two. by eapply (appended_entry _ (BPutEntity cf key entity)).
    + right. split; [by eapply WideColumn_Serialize_error | done].
  - solve_entry (BDelete cf key).
  - solve_entry (BDelete cf (concat key)).
  - solve_entry (BSingleDelete cf key).
  - solve_entry (BSingleDelete cf (concat key)).
  - solve_entry (BDeleteRange cf begin_key end_key).
  - solve_entry (BDeleteRange cf (concat begin_key) (concat end_key)).
  - unfold WriteBatchInternal_Merge. destruct (_ >? _); [by right |]. destruct (_ >? _); [by right |].
    solve_entry (BMerge cf key value).
  - unfold WriteBatchInternal_Merge_parts. destruct (status_ok _) eqn:Es; [| by right].
    solve_entry (BMerge cf (concat key) (concat value)).
  - solve_entry (BPutBlobIndex cf key value).
  - unfold WriteBatch_PutLogData. rewrite <- (or_flags_0 (put_slice _ _)). solve_marker (BLogData blob).
  - unfold InsertNoop. rewrite <- (or_flags_0 (push_back _ _)). solve_marker BNoop.
  - destruct write_after_commit; [solve_marker (BBeginPrepare BeginPrepare) |
      solve_marker (BBeginPrepare BeginPersistedPrepare)].
  - solve_marker (BEndPrepare xid).
  - solve_marker (BCommit xid).
  - solve_marker (BCommitWithTimestamp xid ts).
  - solve_marker (BRollback xid).
Qed.

Lemma new_batch_of max_bytes prot ts_sz : batch_of (MakeWriteBatch max_bytes prot ts_sz) [].
Proof.
  split; [split | done |]; cbn; [by exists (sfill 8 Byte.x00) | done |].
  intros es. destruct (negb _); by intros [= <-].
Qed.

Lemma SetSequence_batch b ops seq : batch_of b ops -> fits 64 seq ->
  batch_of (WriteBatchInternal_SetSequence b seq) ops /\
  WriteBatchInternal_Sequence (WriteBatchInternal_SetSequence b seq) = seq.
Proof.
  intros [[(old & Hold & E) Hok] Hf Hp] Hseq. unfold WriteBatchInternal_SetSequence, WriteBatchInternal_Sequence.
  assert (EncodeFixed64 seq ++ sdrop 8 (rep_ b) = rep_of (EncodeFixed64 seq) ops) as Er
    by (rewrite E; unfold rep_of; by rewrite sdrop_app_exact).
  split; [split; [split | ..] |]; try done.
  - exists (EncodeFixed64 seq). split; [slia |]. exact Er.
  - cbn [set_rep rep_]. rewrite Er. unfold rep_of. by rewrite DecodeFixed64_Encode.
Qed.

Lemma commit_unlimited b b' : max_bytes_ b' = 0 -> commit b b' = (Status_OK, b').
Proof. intros E. unfold commit. by rewrite E. Qed.

(** The calls with whole slices. *)
Definition slices_call (c : BatchCall) : Prop :=
  match c with CallPutParts _ _ _ | CallMergeParts _ _ _ => False | _ => True end.

(** A batch without a limit accepts every operation that a record can hold. *)
Lemma call_unlimited b ops c op : batch_of b ops -> max_bytes_ b = 0 -> num_counted ops < 2 ^ 32 ->
  slices_call c -> call_op c = Some op -> op_ok op ->
  exists b', call b c = (Status_OK, b') /\ batch_of b' (ops ++ [op]) /\ max_bytes_ b' = 0.
Proof.
  intros Hb Hmax Hn Hc Hop Hok. pose proof Hok as (_ & Hs & _).
  assert (call_ok c) as Hcall by (intros op' E; by rewrite Hop in E; injection E as <-).
  assert ((call b c).1 = Status_OK) as Est.
  { destruct c; try done; cbn [call call_op] in *.
    all: unfold WriteBatchInternal_PutEntity, WriteBatchInternal_TimedPut, WriteBatchInternal_Put,
      WriteBatchInternal_Merge, WriteBatchInternal_Delete, WriteBatchInternal_Delete_parts,
      WriteBatchInternal_SingleDelete, WriteBatchInternal_SingleDelete_parts, WriteBatchInternal_DeleteRange,
      WriteBatchInternal_DeleteRange_parts, WriteBatchInternal_PutBlobIndex, WriteBatch_PutLogData in *.
    all: try (destruct (WideColumn_Serialize _ _) as [entity |] eqn:E; [| done]);
      try (destruct (write_unix_time =? _) eqn:Et); injection Hop as <-; cbn [op_strings] in Hs;
      repeat (apply list.Forall_cons in Hs as [? Hs]);
      unfold uint32_max, PackValueAndWriteTime, PutFixed64, fits in *; autorewrite with slen in *;
      rewrite ?Z.gtb_ltb; repeat (rewrite (proj2 (Z.ltb_ge _ _)) by slia).
    all: first [done | rewrite commit_unlimited; [done | by destruct (prot_info_ b); try destruct cf]]. }
  destruct (call_spec b ops c Hb Hn Hcall) as [(_ & op' & E' & Hb' & Hsame) | [Hf _]];
    [| by rewrite Est in Hf]. rewrite Hop in E'. injection E' as <-.
  destruct (call b c) as [st b']. cbn in *. subst st. exists b'. split_and!; [done.. | by rewrite Hsame].
Qed.
End Calls.

(** * Checksums *)

Section Checksums.
Context {H : NPHash}.

Lemma strip_protected entry k v op_type cf :
  StripKVO (StripC entry cf) k v op_type = Z.lxor entry (ProtectKVOC k v op_type cf).
Proof.
  unfold StripKVO, StripC, ProtectKVOC, ProtectC, ProtectKVO. rewrite Z.lxor_0_l.
  apply Z.bits_inj'. intros n _. rewrite !Z.lxor_spec.
  repeat destruct (Z.testbit _ n); done.
Qed.

(** The record of an entry is verified against the checksum of its operation, other records
    are skipped. *)
Lemma protected_op e rest op : op_ok op ->
  let f := fields_of e rest initial_fields false op in
  match op_prot op with
  | Some p =>
      exists tag, protected_tag (f_tag f) = Some (Some tag) /\
        p = ProtectKVOC (s_data (f_key f)) (s_data (f_value f)) tag (f_column_family f)
  | None => protected_tag (f_tag f) = Some None
  end.
Proof.
  intros Hok. unfold fields_of.
  destruct op as [cf | cf | cf | cf | cf | cf | cf | cf | | | [] | | | |]; cbn [op_tag fst snd op_prot] in *.
  all: cbn [f_tag f_column_family f_key f_value set_xid slice_before s_data initial_fields empty_slice];
    try (destruct (Z.eqb_spec cf 0) as [-> | Hn]).
  all: unfold protected_tag; eval_tags; try done; by eexists.
Qed.

Lemma VerifyChecksum_loop_ops ops : forall fuel e entries idx,
  Forall op_ok ops -> slen entries = num_counted ops -> (length ops < fuel)%nat ->
  VerifyChecksum_loop fuel e entries idx (ops_bytes ops) =
  Some (if decide (entries = omap op_prot ops) then inl (idx + num_counted ops)
        else inr Status_Corruption).
Proof.
  induction ops as [| op ops IH]; intros fuel e entries idx Hok Hl Hfuel;
    (destruct fuel as [| fuel]; [simpl in Hfuel; lia |]).
  { apply slen_zero in Hl as ->. by rewrite decide_True, Z.add_0_r. }
  apply Forall_cons_1 in Hok as [Hop Hok]. simpl length in Hfuel.
  pose proof (protected_op e (slen (ops_bytes ops)) op Hop) as Hp. cbv zeta in Hp.
  pose proof (op_prot_counts op) as Hcnt. rewrite num_counted_cons in *. rewrite ops_bytes_cons.
  change (omap op_prot (op :: ops)) with
    (match op_prot op with Some z => z :: omap op_prot ops | None => omap op_prot ops end).
  destruct (op_bytes op ++ ops_bytes ops) eqn:Eb.
  { apply (f_equal slen) in Eb. pose proof (op_bytes_nonempty op). slia. }
  rewrite <- Eb. destruct (op_prot op) as [p |] eqn:Ep.
  - rewrite (proj1 Hcnt) in * by (by eexists). destruct Hp as (tag & Ht & ->).
    destruct entries as [| entry entries]; [pose proof (slen_nonneg (filter op_counts ops)); unfold num_counted in *; slia |].
    cbn [VerifyChecksum_loop]. rewrite Eb at 1. rewrite ReadRecord_op, Ht, strip_protected by done.
    unfold ProtectionInfo_GetStatus. set (q := ProtectKVOC _ _ _ _).
    destruct (Z.eqb_spec (Z.lxor entry q) 0) as [E0 | E0]; cbn [negb].
    + apply Z.lxor_eq in E0 as ->. cbn. rewrite IH by (done || slia).
      case_decide as E1; case_decide as E2; [do 2 f_equal; lia | congruence | congruence | done].
    + cbn. rewrite decide_False; [done |]. intros [= -> _]. by rewrite Z.lxor_nilpotent in E0.
  - destruct (op_counts op); [by destruct (proj2 Hcnt eq_refl) |].
    destruct entries as [| entry entries].
    + cbn [VerifyChecksum_loop]. rewrite Eb at 1.
      assert (num_counted ops = 0) as -> by slia. rewrite decide_True; [by rewrite !Z.add_0_r |].
      symmetry. apply slen_zero. rewrite slen_op_prot. slia.
    + cbn [VerifyChecksum_loop]. rewrite Eb at 1. rewrite ReadRecord_op, Hp by done.
      by rewrite IH by (done || slia).
Qed.

Lemma VerifyChecksum_holds b ops entries : holds b ops -> prot_info_ b = Some entries ->
  slen entries = num_counted ops -> num_counted ops < 2 ^ 32 ->
  VerifyChecksum b =
  Some (if decide (entries = omap op_prot ops) then Status_OK else Status_Corruption).
Proof.
  intros Hh Hp Hl Hn. pose proof (holds_count _ _ Hh) as Hc.
  destruct Hh as [(seq & Hseq & E) Hok]. destruct (rep_of_header seq ops Hseq) as (Hlen & Hd & _).
  unfold VerifyChecksum, kHeader. rewrite Hp, E, Hd. rewrite VerifyChecksum_loop_ops; [| done.. |].
  - case_decide; [| done]. rewrite Hc, Z.add_0_l, wrap_small, Z.eqb_refl; [done |].
    unfold fits, num_counted in *. slia.
  - pose proof (length_ops_bytes ops). unfold slen in Hlen. lia.
Qed.
End Checksums.

(** A hash for examples. *)
Definition ex_hash : NPHash := {|
  NPHash64 data seed := u64 (fold_left (fun a x => u64 (a * 31 + byte.unsigned x)) data (seed + 7))
|}.

(** * Protection of a batch that was read *)

Section Protect.
Context {H : NPHash}.

Lemma run_protection e es empty ops :
  run_ops ProtectionInfoUpdater e es empty ops = (Status_OK, es ++ omap op_prot ops).
Proof.
  revert es empty. induction ops as [| op ops IH]; intros es empty; cbn [run_ops]; [by rewrite app_nil_r |].
  change (Continue ProtectionInfoUpdater es) with (true, es). cbn [negb].
  change (omap op_prot (op :: ops)) with
    (match op_prot op with Some z => z :: omap op_prot ops | None => omap op_prot ops end).
  destruct op as [| | | | | | | | | | [] | | | |];
    cbn [handler_call ProtectionInfoUpdater PutCF TimedPutCF PutEntityCF DeleteCF SingleDeleteCF DeleteRangeCF MergeCF
      PutBlobIndexCF LogData MarkBeginPrepare MarkEndPrepare MarkNoop MarkRollback MarkCommit MarkCommitWithTimestamp
      WriteAfterCommit WriteBeforePrepare UpdateProtInfo slice_before s_data op_prot fst];
    change (status_ok Status_OK) with true; cbv iota; rewrite IH, <- ?app_assoc; reflexivity.
Qed.

(** The checksums of the operations are added, or they are there already. *)
Lemma UpdateProtectionInfo_holds b ops rep_hash checksum : holds b ops ->
  (forall entries, prot_info_ b = Some entries -> entries = omap op_prot ops) ->
  checksum = None \/ checksum = Some (rep_hash (rep_ b)) ->
  exists b', UpdateProtectionInfo b 8 rep_hash checksum = Some (Status_OK, b') /\ rep_ b' = rep_ b /\
    prot_info_ b' = Some (omap op_prot ops).
Proof.
  intros Hb Hp Hc. unfold UpdateProtectionInfo. cbn [Z.eqb Pos.eqb]. destruct (prot_info_ b) as [es |] eqn:E.
  { exists b. by rewrite E, (Hp es). }
  rewrite (Iterate_holds _ op_ok b ops [] Hb); [| by apply read_only_respectful | apply Hb | done].
  rewrite run_protection. exists (set_prot_info b (Some (omap op_prot ops))). split; [| done].
  destruct Hc as [-> | ->]; [done |]. cbn [set_prot_info rep_]. by rewrite Z.eqb_refl.
Qed.
End Protect.
