(* ===== verification/WriteBatchTheorems.v ===== *)
(** The theorems about write batches: refinement of lists of operations with
    save points, checksums, timestamps updated in place, content flags, and the
    records that are too long for their format. *)

From stdpp Require Import gmap.
From S2P Require Import Prelude Coding Comparator DbFormat Status WideColumns WriteBatch WriteBatchIter WriteBatchSpec WriteBatchProofs.

(** * The abstract machine *)

(** The operations of the batch, and those at each save point, the last one first. *)
Definition BatchState : Type := list BatchOp * list (list BatchOp).

Inductive BatchStep :=
  | StepCall (c : BatchCall)
  | StepSetSavePoint
  | StepRollback
  | StepPop
  | StepClear.

(** An abstract step; a call succeeds or not as [ok] says. *)
Definition abstract_step (a : BatchState) (s : BatchStep) (ok : bool) : BatchState :=
  let '(ops, stack) := a in
  match s with
  | StepCall c => (if ok then ops ++ option_list (call_op c) else ops, stack)
  | StepSetSavePoint => (ops, ops :: stack)
  | StepRollback => match stack with [] => (ops, []) | p :: stack => (p, stack) end
  | StepPop => (ops, tail stack)
  | StepClear => ([], [])
  end.
(** The status that a step on save points must have. *)
Definition status_spec (a : BatchState) (s : BatchStep) (st : Status) : Prop :=
  match s with
  | StepCall _ => True
  | StepRollback | StepPop => st = match a.2 with [] => Status_NotFound | _ => Status_OK end
  | StepSetSavePoint | StepClear => st = Status_OK
  end.

Fixpoint abstract_run (a : BatchState) (l : list BatchStep) (sts : list Status) : BatchState :=
  match l, sts with
  | s :: l, st :: sts => abstract_run (abstract_step a s (status_ok st)) l sts
  | _, _ => a
  end.
Fixpoint statuses_spec (a : BatchState) (l : list BatchStep) (sts : list Status) : Prop :=
  match l, sts with
  | s :: l, st :: sts => status_spec a s st /\ statuses_spec (abstract_step a s (status_ok st)) l sts
  | _, _ => True
  end.

Section Machine.
Context {H : NPHash}.

Definition concrete_step (b : WriteBatch) (s : BatchStep) : Status * WriteBatch :=
  match s with
  | StepCall c => call b c
  | StepSetSavePoint => (Status_OK, SetSavePoint b)
  | StepRollback => RollbackToSavePoint b
  | StepPop => PopSavePoint b
  | StepClear => (Status_OK, WriteBatch_Clear b)
  end.

(** The batch after a list of steps, and their statuses. *)
Fixpoint run_steps (b : WriteBatch) (l : list BatchStep) : WriteBatch * list Status :=
  match l with
  | [] => (b, [])
  | s :: l =>
      let '(st, b) := concrete_step b s in
      let '(b, sts) := run_steps b l in (b, st :: sts)
  end.

Definition savepoint_of (ops : list BatchOp) : SavePoint :=
  {| sp_size := 12 + slen (ops_bytes ops); sp_count := u32 (num_counted ops);
     sp_content_flags := ops_flags ops |}.

(** Every save point is a prefix of the one after it, and the last one of the batch. *)
Fixpoint nested (ops : list BatchOp) (stack : list (list BatchOp)) : Prop :=
  match stack with
  | [] => True
  | p :: stack => p `prefix_of` ops /\ nested p stack
  end.

Record refines (b : WriteBatch) (a : BatchState) : Prop := {
  ref_batch : batch_of b a.1;
  ref_stack : save_points_ b = map savepoint_of a.2;
  ref_nested : nested a.1 a.2;
}.

Lemma nested_app ops ops' stack : nested ops stack -> nested (ops ++ ops') stack.
Proof. destruct stack as [| p stack]; [done |]. intros [Hp Hn]. split; [| done]. by apply prefix_app_r. Qed.

Lemma current_savepoint_of b ops : batch_of b ops -> current_savepoint b = savepoint_of ops.
Proof.
  intros [Hh Hf _]. unfold current_savepoint, savepoint_of. rewrite (holds_count _ _ Hh), Hf.
  destruct Hh as [(seq & Hseq & E) _]. destruct (rep_of_header seq ops Hseq) as (Hl & _).
  by rewrite E, Hl.
Qed.

(** [b] back at the operations [p]. *)
Lemma restore_prefix b ops p : batch_of b ops -> p `prefix_of` ops -> num_counted ops < 2 ^ 32 ->
  batch_of (restore b (savepoint_of p)) p.
Proof.
  intros [[(seq & Hseq & E) Hok] Hf Hp] [q ->] Hn. rewrite num_counted_app in Hn.
  pose proof (slen_nonneg (filter op_counts p)). pose proof (slen_nonneg (filter op_counts q)).
  destruct (rep_of_header seq p Hseq) as (Hl & _). split; [split | done |].
  - exists seq. split; [done |]. unfold restore, WriteBatchInternal_SetCount. cbn -[stake sdrop].
    rewrite E. unfold rep_of at 1 2. rewrite ops_bytes_app.
    set (c := EncodeFixed32 (u32 (num_counted (p ++ q)))).
    replace (seq ++ c ++ ops_bytes p ++ ops_bytes q) with ((seq ++ c ++ ops_bytes p) ++ ops_bytes q)
      by (by rewrite <- !app_assoc).
    rewrite stake_app_exact by (unfold c; slia). rewrite stake_app_exact by done.
    rewrite (app_assoc seq c), sdrop_app_exact by (unfold c; slia). done.
  - by apply Forall_app in Hok as [? _].
  - intros es. unfold restore. cbn -[stake]. rewrite wrap_small by (unfold fits, num_counted in *; lia).
    destruct (prot_info_ b) as [es0 |]; [| done]. simpl. intros [= <-].
    rewrite (Hp es0 eq_refl), omap_app. apply stake_app_exact. by rewrite slen_op_prot.
Qed.

Lemma batch_save_points b l ops : batch_of b ops -> batch_of (set_save_points b l) ops.
Proof. by intros [[Hr Ho] Hf Hp]. Qed.

Lemma rollback_refines b ops stack : refines b (ops, stack) -> num_counted ops < 2 ^ 32 ->
  let '(st, b') := RollbackToSavePoint b in
  refines b' (abstract_step (ops, stack) StepRollback true) /\ status_spec (ops, stack) StepRollback st.
Proof.
  intros [Hb Hs Hn] Hc. cbn [fst snd] in *. unfold RollbackToSavePoint. rewrite Hs.
  destruct stack as [| p stack]; cbn [map]; [done |]. destruct Hn as [Hp Hn].
  assert (slen (rep_ b) = 12 + slen (ops_bytes ops)) as Hl.
  { destruct Hb as [[(seq & Hseq & E) _] _ _]. rewrite E. by apply rep_of_header. }
  cbn [rep_ set_save_points savepoint_of sp_size]. rewrite Hl.
  destruct (Z.eqb_spec (12 + slen (ops_bytes p)) (12 + slen (ops_bytes ops))) as [E | E].
  { destruct Hp as [q ->]. rewrite ops_bytes_app in E. assert (q = []) as ->.
    { destruct q as [| op q]; [done |]. rewrite ops_bytes_cons in E. pose proof (op_bytes_nonempty op). slia. }
    rewrite app_nil_r in *. split; [| done]. split; [by apply batch_save_points | done..]. }
  destruct (Z.eqb_spec (12 + slen (ops_bytes p)) 0); [slia |].
  split; [| done]. split; [| done..]. by eapply restore_prefix; [apply batch_save_points |..].
Qed.

Lemma step_refines b a s : refines b a -> num_counted a.1 < 2 ^ 32 ->
  (forall c, s = StepCall c -> call_ok c) ->
  let '(st, b') := concrete_step b s in
  refines b' (abstract_step a s (status_ok st)) /\ status_spec a s st.
Proof.
  destruct a as [ops stack]. intros [Hb Hs Hn] Hc Hok. cbn [fst snd] in *.
  destruct s as [c | | | |]; cbn [concrete_step].
  - destruct (call_spec b ops c Hb Hc (Hok c eq_refl)) as [(E & op & Hop & Hb' & Hsame) | (E & E')];
      destruct (call b c) as [st b']; cbn [fst snd] in *.
    + rewrite E. cbn [abstract_step status_ok]. rewrite Hop. split; [| done]. split; [done | | by apply nested_app].
      by rewrite Hsame.
    + subst b'. rewrite E. split; [| done]. by split.
  - split; [| done]. split; [by apply batch_save_points | | by split].
    cbn. by rewrite Hs, (current_savepoint_of b ops Hb).
  - pose proof (rollback_refines b ops stack ltac:(by split) Hc) as Hr.
    by destruct (RollbackToSavePoint b) as [st b'].
  - unfold PopSavePoint. rewrite Hs. destruct stack as [| p stack]; cbn [map]; (split; [| done]).
    + by split.
    + split; [by apply batch_save_points | done |]. destruct Hn as [Hp Hn].
      cbn [abstract_step tail fst snd]. destruct Hp as [q ->]. by apply nested_app.
  - split; [| done]. split; [| done..]. split; [split | done |]; cbn.
    + by exists (sfill 8 Byte.x00).
    + done.
    + intros es. by destruct (prot_info_ b); intros [= <-].
Qed.

Lemma nested_counted ops stack p : nested ops stack -> p ∈ stack -> num_counted p <= num_counted ops.
Proof.
  revert ops. induction stack as [| q stack IH]; intros ops; [by intros _ ?%elem_of_nil |].
  intros [[r ->] Hn] [-> | Hp]%elem_of_cons.
  - rewrite num_counted_app. pose proof (slen_nonneg (filter op_counts r)). unfold num_counted. lia.
  - specialize (IH q Hn Hp). rewrite num_counted_app. pose proof (slen_nonneg (filter op_counts r)).
    unfold num_counted in *. lia.
Qed.

Lemma step_counted a s ok : nested a.1 a.2 ->
  num_counted (abstract_step a s ok).1 <= num_counted a.1 + 1.
Proof.
  destruct a as [ops stack]. intros Hn. pose proof (slen_nonneg (filter op_counts ops)) as Hpos.
  change (slen (filter op_counts ops)) with (num_counted ops) in Hpos.
  assert (num_counted [] = 0) as E0 by done.
  destruct s as [c | | | |]; cbn [abstract_step fst snd] in *; try lia.
  - destruct ok; [| lia]. rewrite num_counted_app. destruct (call_op c) as [op |]; simpl; [| lia].
    rewrite num_counted_cons. destruct (op_counts op); lia.
  - destruct stack as [| p stack]; cbn [fst]; [lia |].
    pose proof (nested_counted ops (p :: stack) p Hn ltac:(by left)). lia.
Qed.

Lemma run_refines l : forall b a, refines b a -> num_counted a.1 + slen l < 2 ^ 32 ->
  (forall c, StepCall c ∈ l -> call_ok c) ->
  let '(b', sts) := run_steps b l in
  refines b' (abstract_run a l sts) /\ statuses_spec a l sts /\
  num_counted (abstract_run a l sts).1 <= num_counted a.1 + slen l.
Proof.
  induction l as [| s l IH]; intros b a Hr Hn Hok; cbn [run_steps];
    [split_and!; [done.. | cbn; slia] |]. rewrite slen_cons in *.
  pose proof (slen_nonneg l).
  pose proof (step_refines b a s Hr ltac:(lia) ltac:(intros c ->; apply Hok; by left)) as Hs.
  destruct (concrete_step b s) as [st b1]. destruct Hs as [Hr1 Hst].
  pose proof (step_counted a s (status_ok st) (ref_nested _ _ Hr)).
  specialize (IH b1 _ Hr1 ltac:(lia) ltac:(intros c Hc; apply Hok; by right)).
  destruct (run_steps b1 l) as [b2 sts]. destruct IH as (Hr2 & Hst2 & Hn2).
  cbn [abstract_run statuses_spec]. split_and!; [done.. | lia].
Qed.

Lemma new_batch_refines max_bytes prot ts_sz : refines (MakeWriteBatch max_bytes prot ts_sz) ([], []).
Proof.
  split; [| done..]. split; [split | done |]; cbn.
  - by exists (sfill 8 Byte.x00).
  - done.
  - intros es. destruct (negb _); by intros [= <-].
Qed.
End Machine.

Definition ex_steps : list BatchStep :=
  [StepCall (CallPut 0 [Byte.x61] [Byte.x76]); StepSetSavePoint; StepCall (CallMerge 7 [Byte.x62] [Byte.x77]);
   StepRollback; StepCall (CallDelete 300 [Byte.x63]); StepCall CallInsertNoop].
Lemma ex_steps_ok c : StepCall c ∈ ex_steps -> call_ok c.
Proof.
  intros Hc op Hop. unfold ex_steps in Hc. rewrite !elem_of_cons, elem_of_nil in Hc.
  destruct_or?; simplify_eq/=; try done; repeat constructor; by vm_compute.
Qed.

(** * Content flags of a batch that was read back *)

(** The operations before the first no-op. *)
Fixpoint before_noop (ops : list BatchOp) : list BatchOp :=
  match ops with
  | [] | BNoop :: _ => []
  | op :: ops => op :: before_noop ops
  end.

Lemma run_classifier e ops : forall flags empty_batch,
  (run_ops BatchContentClassifier e flags empty_batch ops).2 =
  fold_left (fun f op => Z.lor f (op_flags op)) (before_noop ops) flags.
Proof.
  induction ops as [| op ops IH]; intros flags empty_batch; [done |].
  destruct op as [| | | | | | | | | | [] | | | |]; try (cbn -[Z.lor]; apply IH); cbn -[Z.lor].
  - rewrite Z.lor_0_r. apply IH.
  - done.
  - rewrite Z.lor_0_r, !bool_decide_false by done. apply IH.
  - rewrite Z.lor_0_r, !bool_decide_false by done. apply IH.
  - rewrite !bool_decide_false by done. rewrite Z.lor_assoc. apply IH.
Qed.

(** The flags of a batch made from its serialised form are found by reading it: they are those
    of the operations before the first no-op record, at which the classifier gives up. So they
    are the flags of the batch that was written exactly when no operation after a no-op has a
    flag of its own. *)
Theorem flags_of_read_batch {H : NPHash} (b : WriteBatch) (ops : list BatchOp) (Hb : batch_of b ops) :
  let read := WriteBatch_of_rep (rep_ b) in
  ComputeContentFlags read =
    Some (ops_flags (before_noop ops), set_content_flags read (ops_flags (before_noop ops))) /\
  ComputeContentFlags b = Some (ops_flags ops, b) /\
  (BNoop ∉ ops -> ops_flags (before_noop ops) = ops_flags ops).
Proof.
  cbv zeta. destruct Hb as [[Hr Ho] Hf _].
  assert (forall o, Z.land (op_flags o) DEFERRED = 0) as Hd by (by intros [| | | | | | | | | | [] | | | |]).
  split_and!.
  - unfold ComputeContentFlags. change (Z.land (content_flags_ (WriteBatch_of_rep (rep_ b))) DEFERRED =? 0) with false.
    cbn [negb]. rewrite (Iterate_holds _ op_ok _ ops); [| by split | by apply read_only_respectful | done | done].
    pose proof (run_classifier (slen (rep_ b)) ops 0 true) as E. cbn [rep_ WriteBatch_of_rep].
    destruct (run_ops _ _ _ _ _) as [s flags]. cbn [snd] in E. by rewrite E.
  - unfold ComputeContentFlags. rewrite Hf. replace (Z.land (ops_flags ops) DEFERRED) with 0; [done |].
    unfold ops_flags. symmetry. assert (Z.land 0 DEFERRED = 0) as H0 by done. revert H0. generalize 0 at 1 3.
    clear Hr Ho Hf. induction ops as [| op ops IH]; intros z Hz; [done |]. cbn [fold_left]. apply IH.
    by rewrite Z.land_lor_distr_l, Hz, Hd.
  - intros Hn. f_equal. clear Hr Ho Hf. induction ops as [| op ops IH]; [done |].
    apply not_elem_of_cons in Hn as [? Hn]. destruct op; cbn [before_noop]; rewrite ?IH by done; congruence.
Qed.
Lemma flags_of_read_batch_witness :
  ComputeContentFlags (WriteBatch_of_rep (rep_ (run_steps (H := ex_hash) (MakeWriteBatch 0 8 0) ex_steps).1)) <>
  None.
Proof.
  pose proof (run_refines (H := ex_hash) ex_steps _ _ (new_batch_refines 0 8 0) ltac:(by vm_compute) ex_steps_ok) as Hr.
  destruct (run_steps _ ex_steps) as [b sts]. destruct Hr as ([Hb _ _] & _).
  cbn [fst]. destruct (flags_of_read_batch (H := ex_hash) b _ Hb) as (-> & _). done.
Defined.

(** * Appending one batch to another *)

(** Adding the records of [p] to a batch, with the number of entries they count for. *)
Lemma append_records b seq ops p : slen seq = 8 -> rep_ b = rep_of seq ops ->
  rep_ (WriteBatchInternal_SetCount b (u32 (WriteBatchInternal_Count b + num_counted p))) ++ ops_bytes p =
  rep_of seq (ops ++ p).
Proof.
  intros Hseq E. destruct (rep_of_header seq ops Hseq) as (_ & Hd & Ht & Hn).
  unfold WriteBatchInternal_SetCount, WriteBatchInternal_Count. cbn [rep_ set_rep]. rewrite E, Hn, Hd, Ht, u32_add.
  unfold rep_of. by rewrite num_counted_app, ops_bytes_app, <- !app_assoc.
Qed.

(** A batch with as many checksums as entries passes the consistency check. *)
Lemma consistent_prot {H : NPHash} b ops : batch_of b ops -> num_counted ops < 2 ^ 32 ->
  match prot_info_ b with Some es => negb (slen es =? WriteBatchInternal_Count b) | None => false end = false.
Proof.
  intros Hb Hn. pose proof (num_counted_nonneg ops). destruct (prot_info_ b) as [es |] eqn:E; [| done].
  rewrite (batch_prot _ _ Hb es E), slen_op_prot, (holds_count _ _ (batch_holds _ _ Hb)).
  by rewrite wrap_small, Z.eqb_refl by (unfold fits; lia).
Qed.

(** What [Append] takes from the source. *)
Lemma append_end {H : NPHash} b p q wal_only : batch_of b (p ++ q) -> num_counted (p ++ q) < 2 ^ 32 ->
  (if wal_only && negb (is_cleared (wal_term_point_ b)) then wal_term_point_ b = savepoint_of p else q = []) ->
  (if wal_only && negb (is_cleared (wal_term_point_ b)) then
     (sp_size (wal_term_point_ b) - kHeader, sp_count (wal_term_point_ b), sp_content_flags (wal_term_point_ b))
   else (slen (rep_ b) - kHeader, WriteBatchInternal_Count b, content_flags_ b)) =
  (slen (ops_bytes p), num_counted p, ops_flags p).
Proof.
  intros Hb Hn Hend. pose proof (num_counted_nonneg p). pose proof (num_counted_nonneg q).
  pose proof (holds_count _ _ (batch_holds _ _ Hb)) as Hc. destruct Hb as [[(seq & Hseq & E) _] Hf _].
  destruct (rep_of_header seq (p ++ q) Hseq) as (Hl & _). rewrite num_counted_app in *.
  rewrite wrap_small in Hc by (unfold fits; lia). unfold kHeader. destruct (wal_only && _).
  - rewrite Hend. unfold savepoint_of. cbn [sp_size sp_count sp_content_flags].
    rewrite wrap_small by (unfold fits; lia). do 2 f_equal. lia.
  - subst q. rewrite app_nil_r in *. rewrite E, Hl, Hc, Hf. change (num_counted []) with 0.
    do 2 f_equal; lia.
Qed.

(** Appending a batch appends its operations. With [WAL_only] and a termination point, only the
    operations up to that point are taken. Flags and number of entries follow, and so do the
    checksums when the destination has them too. *)
Theorem Append_operations {H : NPHash} (dst src : WriteBatch) (ops ops' p : list BatchOp) (wal_only : bool)
    (Hd : batch_of dst ops) (Hs : batch_of src ops') (Hn : num_counted ops + num_counted ops' < 2 ^ 32)
    (Hprot : num_counted ops = 0 \/ (prot_info_ dst = None <-> prot_info_ src = None))
    (Hp : p `prefix_of` ops' /\
       if wal_only && negb (is_cleared (wal_term_point_ src)) then wal_term_point_ src = savepoint_of p
       else p = ops') :
  exists b, WriteBatchInternal_Append dst src wal_only = (Status_OK, b) /\ batch_of b (ops ++ p) /\
    WriteBatchInternal_Count b = num_counted (ops ++ p) /\
    WriteBatchInternal_Sequence b = WriteBatchInternal_Sequence dst.
Proof.
  destruct Hp as [[q ->] Hend]. rewrite num_counted_app in *.
  pose proof (num_counted_nonneg ops). pose proof (num_counted_nonneg p). pose proof (num_counted_nonneg q).
  unfold WriteBatchInternal_Append.
  rewrite (consistent_prot src (p ++ q)), (consistent_prot dst ops) by (done || (rewrite ?num_counted_app; lia)).
  cbn [orb]. rewrite (append_end src p q) by (done || (rewrite ?num_counted_app; lia) ||
    (destruct (wal_only && _); [done | apply (app_inv_head p); by rewrite app_nil_r])).
  eexists. split; [done |]. set (dst1 := match prot_info_ src with Some _ => _ | None => _ end).
  destruct Hd as [[(seq & Hseq & Ed) Hokd] Hfd Hpd]. destruct Hs as [[(seq' & Hseq' & Es) Hoks] Hfs Hps].
  assert (rep_ dst1 = rep_of seq ops /\ content_flags_ dst1 = ops_flags ops) as [Er Ef]
    by (unfold dst1; by destruct (prot_info_ src)).
  set (b := set_content_flags _ _).
  assert (rep_ b = rep_of seq (ops ++ p)) as Eb.
  { rewrite <- (append_records dst1 seq ops p Hseq Er). unfold b. cbn [rep_ set_content_flags set_rep]. f_equal.
    destruct (rep_of_header seq' (p ++ q) Hseq') as (_ & Hdrop & _). unfold kHeader.
    rewrite Es, Hdrop, ops_bytes_app. by apply stake_app_exact. }
  assert (holds b (ops ++ p)) as Hh.
  { split; [by exists seq |]. apply Forall_app in Hoks as [? _]. by apply Forall_app. }
  split_and!.
  - split; [done | cbn; by rewrite Ef, ops_flags_app |].
    intros es. cbn. unfold dst1. destruct (prot_info_ src) as [es' |] eqn:Ep; [| done]. cbn. intros [= <-].
    rewrite (Hps es' eq_refl), !omap_app, stake_app_exact by (by rewrite slen_op_prot). f_equal.
    destruct (prot_info_ dst) as [es0 |]; [by apply Hpd |]. cbn.
    destruct Hprot as [Hz | [Hz _]]; [| by specialize (Hz eq_refl)].
    symmetry. apply slen_zero. by rewrite slen_op_prot.
  - rewrite (holds_count _ _ Hh), num_counted_app. apply wrap_small. unfold fits. lia.
  - unfold WriteBatchInternal_Sequence. rewrite Eb, Ed. by apply Decode_sequence.
Qed.
Definition ex_src : WriteBatch :=
  let b := (call (H := ex_hash) (MakeWriteBatch 0 8 0) (CallPut 0 [Byte.x61] [Byte.x76])).2 in
  (call (H := ex_hash) (MarkWalTerminationPoint b) (CallDelete 300 [Byte.x63])).2.
Lemma Append_operations_witness :
  exists b, WriteBatchInternal_Append ex_src ex_src true = (Status_OK, b) /\
    WriteBatchInternal_Count b = 3.
Proof.
  set (p := [BPut 0 [Byte.x61] [Byte.x76]]). set (ops := p ++ [BDelete 300 [Byte.x63]]).
  assert (batch_of (H := ex_hash) ex_src ops) as Hb.
  { split; [split | vm_compute; reflexivity |].
    - exists (sfill 8 Byte.x00). split; vm_compute; reflexivity.
    - repeat constructor; by vm_compute.
    - intros es. vm_compute. congruence. }
  destruct (Append_operations (H := ex_hash) ex_src ex_src ops ops p true Hb Hb ltac:(by vm_compute)
    ltac:(by right) ltac:(split; [by apply prefix_app_r | vm_compute; reflexivity])) as (b & ? & _ & Hc & _).
  exists b. split; [done |]. by rewrite Hc.
Defined.

(** * Values that are too long *)

Lemma read_wrapped_packed e cf key value t : fits 32 cf -> fits 32 (slen key) ->
  2 ^ 32 - 8 <= slen value < 2 ^ 32 ->
  ReadRecordFromWriteBatch e initial_fields true (op_bytes (BTimedPut cf key value t)) = BadAccess.
Proof.
  intros Hcf Hk Hv. set (packed := PackValueAndWriteTime value t).
  assert (slen packed = slen value + 8) as Hp by (unfold packed, PackValueAndWriteTime, PutFixed64; slia).
  set (n := slen packed - 2 ^ 32).
  assert (u32 (slen packed) = n) as En.
  { unfold n, wrap. rewrite <- (Z.mod_small (slen packed - 2 ^ 32) (2 ^ 32)) by lia.
    rewrite <- Zminus_mod_idemp_r, Z_mod_same_full. f_equal. lia. }
  unfold op_bytes, ReadRecordFromWriteBatch, varstrings. cbn [op_tag op_strings map concat]. fold packed.
  rewrite app_nil_r, head_tag by done.
  assert (get_slice e (varstring packed) =
    Some ({| s_off := e - slen (sdrop n packed) - slen (stake n packed); s_data := stake n packed |},
          sdrop n packed)) as Hg.
  { unfold get_slice, varstring, PutLengthPrefixedSlice, PutVarint32, GetLengthPrefixedSlice.
    rewrite app_nil_l, En, GetVarint32_Encode by (unfold fits, n; lia).
    rewrite Z.geb_leb, (proj2 (Z.leb_le _ _)) by (unfold n; lia). done. }
  unfold read_key_value. rewrite read_key_head by done. rewrite Hg. unfold unpack_value. cbn [f_value s_data].
  rewrite slen_stake, (proj2 (Z.ltb_lt _ _)) by (unfold n; lia).
  destruct (Z.eqb_spec cf 0); eval_tags; done.
Qed.

(** C38: The size check of [TimedPut] forgets the eight bytes of the write time. A value of almost
    4 GiB is accepted with success, but the length of the record wraps around to less than
    eight bytes, and whoever iterates over the batch reads before the start of that value. *)
Theorem TimedPut_length_wraps {H : NPHash} {S : Type} (h : Handler S) (st : S) (prot cf t : Z) (key value : bytes)
    (Hcf : fits 32 cf) (Hk : fits 32 (slen key)) (Hv : 2 ^ 32 - 8 <= slen value < 2 ^ 32)
    (Ht : t <> 2 ^ 64 - 1) (Hbuf : forall st rep, buffer h st rep = rep)
    (Hcont : (Continue h st).1 = true) :
  exists b, WriteBatchInternal_TimedPut (MakeWriteBatch 0 prot 0) cf key value t = (Status_OK, b) /\
    WriteBatch_Iterate h b st = Some IterateBadAccess.
Proof.
  unfold WriteBatchInternal_TimedPut, uint32_max.
  destruct (Z.gtb_spec (slen key) (2 ^ 32 - 1)); [unfold fits in *; lia |].
  destruct (Z.gtb_spec (slen value) (2 ^ 32 - 1)); [lia |]. rewrite (proj2 (Z.eqb_neq _ _) Ht), put_two.
  set (op := BTimedPut cf key value t).
  pose proof (appended_entry (MakeWriteBatch 0 prot 0) op _ _ cf _ eq_refl eq_refl) as Ha.
  cbn [op_strings op_flags op] in Ha.
  match type of Ha with appended _ ?x _ => set (b := x) in * end.
  assert (max_bytes_ b = 0) as Hm by (by rewrite (app_same _ _ _ Ha)).
  pose proof (app_rep _ _ _ Ha (sfill 8 Byte.x00) [] eq_refl eq_refl) as Hr. rewrite rep_of_snoc in Hr.
  cbn [ops_bytes map concat app op_counts op] in Hr. fold op in Hr. rewrite app_assoc in Hr.
  exists b. unfold commit. rewrite Hm, Z.eqb_refl. split; [done |].
  pose proof (op_bytes_nonempty op) as Hpos. set (hd := sfill 8 Byte.x00 ++ _) in Hr.
  assert (slen hd = 12) as Hhd by done.
  unfold WriteBatch_Iterate, WriteBatchInternal_Iterate, kHeader.
  assert (slen (rep_ b) = 12 + slen (op_bytes op)) as El by (rewrite Hr; slia).
  rewrite El, (proj2 (Z.ltb_ge _ _)) by lia. destruct (Z.gtb_spec 12 (12 + slen (op_bytes op))); [lia |].
  rewrite (Z.gtb_ltb (12 + _)), Z.ltb_irrefl. cbn [orb].
  unfold Iterate_fuel. rewrite Nat.add_comm. cbn [Nat.add Iterate_loop].
  change (status_ok Status_OK) with true. change (IsTryAgain Status_OK) with false.
  rewrite (proj2 (Z.ltb_lt _ _)) by lia. cbn [andb orb negb].
  destruct (Continue h st) as [c st']. cbn [fst] in Hcont. subst c. cbn [negb].
  rewrite Hbuf, Hr, sdrop_app_exact, stake_ge by slia. unfold op. by rewrite read_wrapped_packed.
Qed.
Definition ex_handler : Handler Z := BatchContentClassifier.
Lemma TimedPut_length_wraps_witness :
  exists b, WriteBatchInternal_TimedPut (H := ex_hash) (MakeWriteBatch 0 8 0) 0 [Byte.x61]
      (sfill (2 ^ 32 - 8) Byte.x00) 1 = (Status_OK, b) /\
    WriteBatch_Iterate ex_handler b 0 = Some IterateBadAccess.
Proof.
  apply (TimedPut_length_wraps (H := ex_hash) ex_handler 0 8 0 1 [Byte.x61] (sfill (2 ^ 32 - 8) Byte.x00));
    [done | done | rewrite slen_sfill; lia | done..].
Defined.
