(* ===== verification/WriteBatchTimestamps.v ===== *)
(** Timestamps of a write batch: keys of column families with timestamps are
    written with a placeholder, which [UpdateTimestamps] overwrites in the buffer
    while it iterates over it. *)

From stdpp Require Import gmap.
From S2P Require Import Prelude Coding Comparator DbFormat Status WideColumns WriteBatch WriteBatchIter WriteBatchSpec WriteBatchProofs.

Section Retime.
Context {H : NPHash} (ts_sz_func : Z -> Z) (ts : bytes).

(** The key with its last bytes replaced by the timestamp. *)
Definition retime_key (cf : Z) (k : bytes) : bytes :=
  if ts_sz_func cf =? 0 then k else stake (slen k - slen ts) k ++ ts.
Definition retime (op : BatchOp) : BatchOp :=
  match op with
  | BPut cf k v => BPut cf (retime_key cf k) v
  | BDelete cf k => BDelete cf (retime_key cf k)
  | BSingleDelete cf k => BSingleDelete cf (retime_key cf k)
  | BDeleteRange cf k v => BDeleteRange cf (retime_key cf k) (retime_key cf v)
  | BMerge cf k v => BMerge cf (retime_key cf k) v
  | BPutBlobIndex cf k v => BPutBlobIndex cf (retime_key cf k) v
  | _ => op
  end.

(** The column family has no timestamps, or has timestamps of this size and the key has one. *)
Definition ts_key_ok (cf : Z) (k : bytes) : Prop :=
  ts_sz_func cf = 0 \/ (ts_sz_func cf = slen ts /\ slen ts <= slen k).
Definition ts_ok (op : BatchOp) : Prop :=
  match op with
  | BPut cf k _ | BDelete cf k | BSingleDelete cf k | BMerge cf k _ | BPutBlobIndex cf k _ =>
      ts_key_ok cf k
  | BDeleteRange cf k v => ts_key_ok cf k /\ ts_key_ok cf v
  | BTimedPut _ _ _ _ | BPutEntity _ _ _ => False
  | _ => True
  end.

(** The writes to the buffer for a key, and for the record of an operation. *)
Definition key_writes (cf : Z) (k : Slice) : list (Z * bytes) :=
  if ts_sz_func cf =? 0 then [] else [(s_off k + slen (s_data k) - slen ts, ts)].
Definition op_writes (e rest : Z) (op : BatchOp) : list (Z * bytes) :=
  match op with
  | BPut cf k v | BMerge cf k v | BPutBlobIndex cf k v =>
      key_writes cf (slice_before e (rest + slen (varstring v)) k)
  | BDelete cf k | BSingleDelete cf k => key_writes cf (slice_before e rest k)
  | BDeleteRange cf k v =>
      key_writes cf (slice_before e (rest + slen (varstring v)) k) ++
      key_writes cf (slice_before e rest v)
  | _ => []
  end.
Definition write_all (ws : list (Z * bytes)) (buf : bytes) : bytes :=
  fold_left (fun buf w => write_at buf w.1 w.2) ws buf.

Lemma write_all_app ws ws' buf : write_all (ws ++ ws') buf = write_all ws' (write_all ws buf).
Proof. apply fold_left_app. Qed.

Lemma slen_retime_key cf k : ts_key_ok cf k -> slen (retime_key cf k) = slen k.
Proof.
  unfold retime_key. pose proof (slen_nonneg ts).
  intros [-> | [E Hl]]; [done |]. destruct (Z.eqb_spec (ts_sz_func cf) 0); slia.
Qed.

Lemma write_at_key A k B : slen ts <= slen k ->
  write_at (A ++ k ++ B) (slen A + slen k - slen ts) ts =
  A ++ (stake (slen k - slen ts) k ++ ts) ++ B.
Proof.
  intros Hl. unfold write_at. pose proof (slen_nonneg ts).
  rewrite stake_app_ge, stake_app_le, (app_assoc A k), sdrop_app_exact by slia.
  rewrite <- !app_assoc. do 3 f_equal. lia.
Qed.

(** Writing the timestamp of one key of a record. *)
Lemma write_key A k B cf e rest : ts_key_ok cf k -> e = slen (A ++ varstring k ++ B) -> rest = slen B ->
  write_all (key_writes cf (slice_before e rest k)) (A ++ varstring k ++ B) =
  A ++ varstring (retime_key cf k) ++ B.
Proof.
  intros Hk -> ->. pose proof (slen_retime_key cf k Hk) as Hlen.
  unfold varstring, PutLengthPrefixedSlice in *. rewrite Hlen. unfold key_writes, retime_key in *.
  destruct (Z.eqb_spec (ts_sz_func cf) 0) as [E | E]; [done |].
  destruct Hk as [? | [_ Hl]]; [done |]. set (n := PutVarint32 _ _). cbn [write_all fold_left fst snd slice_before s_off s_data].
  replace (A ++ (n ++ k) ++ B) with ((A ++ n) ++ k ++ B) by (by rewrite <- !app_assoc).
  replace (slen ((A ++ n) ++ k ++ B) - slen B - slen k + slen k - slen ts)
    with (slen (A ++ n) + slen k - slen ts) by slia.
  rewrite write_at_key by done. by rewrite <- !app_assoc.
Qed.

(** The writes of an operation turn its record into that of the operation with the timestamp. *)
Lemma write_op A op B e rest : ts_ok op -> e = slen (A ++ op_bytes op ++ B) -> rest = slen B ->
  write_all (op_writes e rest op) (A ++ op_bytes op ++ B) = A ++ op_bytes (retime op) ++ B.
Proof.
  intros Hok He Hrest. unfold op_bytes in *.
  destruct op; cbn [ts_ok op_tag op_strings retime op_writes] in *; try done.
  all: set (hd := head_bytes _ _ _) in *; unfold varstrings in *; cbn [map concat] in *;
    rewrite !app_nil_r in *.
  1, 5, 6: rewrite <- (app_assoc hd), <- (app_assoc hd), <- !(app_assoc (varstring _)), !(app_assoc A hd) in *;
    by apply write_key; [..| rewrite Hrest; slia].
  1, 2: rewrite <- (app_assoc hd), <- (app_assoc hd), !(app_assoc A hd) in *; by apply write_key.
  destruct Hok as [H1 H2].
  rewrite <- (app_assoc hd), <- (app_assoc hd), <- !(app_assoc (varstring _)), !(app_assoc A hd) in *.
  rewrite write_all_app, write_key by (done || (rewrite Hrest; slia)).
  rewrite !(app_assoc (A ++ hd) (varstring (retime_key cf begin_key))). apply write_key; [done | | done].
  rewrite He. unfold varstring, PutLengthPrefixedSlice. pose proof (slen_retime_key _ _ H1) as E. rewrite E.
  rewrite !slen_app, E. slia.
Qed.

Lemma slen_retime op : ts_ok op -> slen (op_bytes (retime op)) = slen (op_bytes op).
Proof.
  intros Hok. unfold op_bytes.
  destruct op; cbn [ts_ok op_tag op_strings retime] in *; try done; unfold varstrings; simpl;
    unfold varstring, PutLengthPrefixedSlice; rewrite ?slen_app, ?slen_retime_key by apply Hok; slia.
Qed.

Lemma retime_ok op : ts_ok op -> op_ok op -> op_ok (retime op).
Proof.
  intros Hts (Hcf & Hs & Ht). unfold op_ok.
  destruct op; cbn [ts_ok op_tag op_strings retime fst snd] in *; try done;
    (split_and!; [done | | done]); rewrite ?list.Forall_cons in Hs |- *;
    by rewrite ?slen_retime_key by apply Hts.
Qed.

Lemma retime_counts op : op_counts (retime op) = op_counts op.
Proof. by destruct op. Qed.
Lemma retime_flags op : op_flags (retime op) = op_flags op.
Proof. by destruct op. Qed.
Lemma retime_num_counted ops : num_counted (map retime ops) = num_counted ops.
Proof.
  induction ops as [| op ops IH]; [done |]. cbn [map]. by rewrite !num_counted_cons, retime_counts, IH.
Qed.
Lemma retime_ops_flags ops : ops_flags (map retime ops) = ops_flags ops.
Proof.
  unfold ops_flags. generalize 0. induction ops as [| op ops IH]; intros z; [done |].
  cbn [map fold_left]. by rewrite retime_flags, IH.
Qed.

(** ** The handler *)

Context (Hts : slen ts <> 0) (Hts' : slen ts <> 2 ^ 64 - 1).

(** What the handler does to the checksum of the entry. *)
Definition key_update (cf : Z) (k : bytes) (is_key : bool) (entry : Z) : Z :=
  if ts_sz_func cf =? 0 then entry
  else (if is_key then UpdateK else UpdateV) entry k (retime_key cf k).

Lemma UpdateTimestamp_ok st cf k is_key : ts_key_ok cf (s_data k) ->
  UpdateTimestamp ts_sz_func ts st cf k is_key =
  (Status_OK,
   {| tu_writes := tu_writes st ++ key_writes cf k;
      tu_prot_info := option_map (alter (key_update cf (s_data k) is_key) (idx_ st)) (tu_prot_info st);
      idx_ := Datatypes.S (idx_ st) |}).
Proof.
  intros Hk. unfold UpdateTimestamp, UpdateTimestampImpl, key_writes, key_update, retime_key.
  rewrite (proj2 (Z.eqb_neq _ _) Hts). destruct (Z.eqb_spec (ts_sz_func cf) 0) as [E | E].
  - rewrite app_nil_r. destruct st as [w [es |] i]; [| done]. cbn. do 3 f_equal.
    symmetry. apply list_alter_id. done.
  - destruct Hk as [? | [-> _]]; [done |].
    rewrite (proj2 (Z.eqb_neq _ _) Hts'), Z.eqb_refl. cbn. do 2 f_equal.
    unfold UpdateProtectionInformationIfNeeded. destruct (tu_prot_info st); [| done]. simpl. f_equal.
    by destruct is_key.
Qed.

(** The updates of checksums for a record, by distance from the current index. *)
Definition op_updates (op : BatchOp) : list (Z -> Z) :=
  match op with
  | BPut cf k _ | BDelete cf k | BSingleDelete cf k | BMerge cf k _ | BPutBlobIndex cf k _ =>
      [key_update cf k true]
  | BDeleteRange cf k v => [key_update cf k true; key_update cf v false]
  | _ => []
  end.
Fixpoint update_all (us : list (Z -> Z)) (idx : nat) (entries : list Z) : list Z :=
  match us with
  | [] => entries
  | u :: us => update_all us (Datatypes.S idx) (alter u idx entries)
  end.

Lemma updater_call e rest st empty_batch op : ts_ok op ->
  exists empty_batch',
  handler_call (TimestampUpdater_handler ts_sz_func ts) e rest st empty_batch op =
  (Status_OK,
   {| tu_writes := tu_writes st ++ op_writes e rest op;
      tu_prot_info := option_map (update_all (op_updates op) (idx_ st)) (tu_prot_info st);
      idx_ := (idx_ st + length (op_updates op))%nat |}, empty_batch').
Proof.
  intros Hok. destruct st as [w [es |] i];
  destruct op as [| | | | | | | | | | [] | | | |];
    cbn [ts_ok] in Hok; try done; eexists; cbn [handler_call op_writes op_updates length].
  all: cbn; lazymatch type of Hok with
    | _ /\ _ => destruct Hok as [H1 H2]; rewrite UpdateTimestamp_ok by done; cbn;
        rewrite UpdateTimestamp_ok by done; cbn; rewrite <- app_assoc, (Nat.add_comm _ 2);
        reflexivity
    | ts_key_ok _ _ => rewrite UpdateTimestamp_ok by done; by rewrite Nat.add_1_r
    | True => by rewrite ?app_nil_r, Nat.add_0_r
    end.
Qed.

(** ** The writes stay within the record *)

Definition within (lo hi : Z) (w : Z * bytes) : Prop := lo <= w.1 /\ w.1 + slen w.2 <= hi.

Lemma key_writes_within cf k e after pos : ts_key_ok cf k ->
  pos + slen k <= e - after -> Forall (within pos (e - after)) (key_writes cf (slice_before e after k)).
Proof.
  intros Hk Hp. unfold key_writes. destruct (Z.eqb_spec (ts_sz_func cf) 0); [done |].
  destruct Hk as [? | [_ Hl]]; [done |]. repeat constructor; simpl; lia.
Qed.

Lemma op_writes_within pre op suf rep : rep = pre ++ op_bytes op ++ suf -> ts_ok op ->
  Forall (within 0 (slen (pre ++ op_bytes op))) (op_writes (slen rep) (slen suf) op).
Proof.
  intros -> Hok. replace (slen (pre ++ op_bytes op)) with (slen (pre ++ op_bytes op ++ suf) - slen suf) by slia.
  assert (forall cf k after, ts_key_ok cf k -> slen suf <= after ->
    slen k + after <= slen (pre ++ op_bytes op ++ suf) ->
    Forall (within 0 (slen (pre ++ op_bytes op ++ suf) - slen suf))
      (key_writes cf (slice_before (slen (pre ++ op_bytes op ++ suf)) after k))) as Hw.
  { intros cf k after Hk Ha Hl. eapply list.Forall_impl; [by apply (key_writes_within cf k _ after 0); [| lia] |].
    intros w [? ?]. split; lia. }
  assert (forall s, slen s <= slen (varstring s)) as Hv
    by (intros s; unfold varstring, PutLengthPrefixedSlice; slia).
  destruct op; cbn [ts_ok op_writes] in *; try done; try (destruct Hok as [H1 H2]; apply Forall_app; split).
  all: apply Hw; [done | slia |]; unfold op_bytes; cbn [op_tag op_strings]; unfold varstrings; simpl;
    rewrite !slen_app.
  all: repeat match goal with |- context [varstring ?s] => 
    lazymatch goal with _ : slen s <= slen (varstring s) |- _ => fail | _ => pose proof (Hv s) end end; slia.
Qed.

Lemma write_all_intact ws hi buf : Forall (within 0 hi) ws -> hi <= slen buf ->
  slen (write_all ws buf) = slen buf /\ sdrop hi (write_all ws buf) = sdrop hi buf.
Proof.
  revert buf. induction ws as [| [off d] ws IH]; intros buf Hw Hl; [done |].
  apply Forall_cons_1 in Hw as [[H1 H2] Hw]. cbn [fst snd] in *. pose proof (slen_nonneg d).
  assert (slen (write_at buf off d) = slen buf) as El by (unfold write_at; slia).
  destruct (IH (write_at buf off d) Hw ltac:(lia)) as [E1 E2]. cbn [write_all fold_left fst snd].
  unfold write_all in *. rewrite E1, E2. split; [done |]. unfold write_at.
  rewrite sdrop_app_ge, sdrop_app_ge, sdrop_sdrop by slia. f_equal. slia.
Qed.

Lemma updater_respectful rep : respectful (TimestampUpdater_handler ts_sz_func ts) ts_ok rep.
Proof.
  split; [done |]. intros pre op suf st empty_batch Hrep Hok [Hl Hs].
  destruct (updater_call (slen rep) (slen suf) st empty_batch op Hok) as [eb ->]. unfold intact in *.
  cbn [buffer TimestampUpdater_handler fst snd tu_writes] in *.
  fold (write_all (tu_writes st) rep) in Hl, Hs. fold (write_all (tu_writes st ++ op_writes (slen rep) (slen suf) op) rep).
  rewrite write_all_app, <- Hl, <- Hs. apply write_all_intact; [| rewrite Hl, Hrep; slia].
  rewrite Hl. by apply op_writes_within.
Qed.

(** ** The whole batch *)

Lemma update_all_app us us' : forall i es,
  update_all (us ++ us') i es = update_all us' (i + length us) (update_all us i es).
Proof.
  induction us as [| u us IH]; intros i es; simpl; [by rewrite Nat.add_0_r |].
  rewrite IH. f_equal. lia.
Qed.

Lemma run_retime rep ops : forall A st empty_batch, Forall ts_ok ops ->
  write_all (tu_writes st) rep = A ++ ops_bytes ops ->
  exists st', run_ops (TimestampUpdater_handler ts_sz_func ts) (slen (A ++ ops_bytes ops)) st empty_batch ops =
    (Status_OK, st') /\
    write_all (tu_writes st') rep = A ++ ops_bytes (map retime ops) /\
    tu_prot_info st' = option_map (update_all (concat (map op_updates ops)) (idx_ st)) (tu_prot_info st).
Proof.
  induction ops as [| op ops IH]; intros A st empty_batch Hok E.
  { exists st. split_and!; [done.. |]. by destruct (tu_prot_info st). }
  apply Forall_cons_1 in Hok as [Hop Hok]. rewrite ops_bytes_cons in *.
  cbn [run_ops map Continue TimestampUpdater_handler negb].
  destruct (updater_call (slen (A ++ op_bytes op ++ ops_bytes ops)) (slen (ops_bytes ops)) st empty_batch op Hop)
    as [eb ->]. cbn [status_ok code_].
  match goal with |- context [run_ops _ _ ?st1 eb ops] =>
    destruct (IH (A ++ op_bytes (retime op)) st1 eb) as (st' & Hr & Hw & Hp) end;
    [done | | exists st'; split_and!].
  - cbn [tu_writes]. rewrite write_all_app, E, write_op, app_assoc; done.
  - rewrite <- Hr. f_equal. pose proof (slen_retime op Hop). slia.
  - rewrite Hw. by rewrite ops_bytes_cons, <- app_assoc.
  - rewrite Hp. cbn [tu_prot_info idx_ concat]. destruct (tu_prot_info st) as [es |]; [| done]. simpl. f_equal.
    by rewrite update_all_app.
Qed.

(** ** Checksums *)

Definition no_range (op : BatchOp) : Prop := match op with BDeleteRange _ _ _ => False | _ => True end.

Lemma UpdateK_protected k k' v op_type cf :
  UpdateK (ProtectKVOC k v op_type cf) k k' = ProtectKVOC k' v op_type cf.
Proof.
  unfold UpdateK, ProtectKVOC, ProtectC, ProtectKVO. apply Z.bits_inj'. intros n _.
  rewrite !Z.lxor_spec. repeat destruct (Z.testbit _ n); done.
Qed.

(** An operation other than a range deletion has one checksum and one update, or none. *)
Lemma op_update_prot op : no_range op -> ts_ok op ->
  (op_updates op = [] /\ op_prot op = None /\ op_prot (retime op) = None) \/
  (exists u p, op_updates op = [u] /\ op_prot op = Some p /\ op_prot (retime op) = Some (u p)).
Proof.
  intros Hn Hok. destruct op; try done; cbn [op_updates op_prot retime ts_ok] in *; [right.. | | | | | | |]; auto.
  all: do 2 eexists; (split_and!; [done.. |]); unfold key_update, retime_key;
    destruct (ts_sz_func cf =? 0); [done |]; by rewrite UpdateK_protected.
Qed.

Lemma update_all_prot ops : forall es, Forall no_range ops -> Forall ts_ok ops ->
  update_all (concat (map op_updates ops)) (length es) (es ++ omap op_prot ops) =
  es ++ omap op_prot (map retime ops).
Proof.
  induction ops as [| op ops IH]; intros es Hn Hok; [done |].
  apply Forall_cons_1 in Hn as [Hn Hns]. apply Forall_cons_1 in Hok as [Hop Hok]. cbn [map concat].
  change (omap op_prot (op :: ops)) with
    (match op_prot op with Some z => z :: omap op_prot ops | None => omap op_prot ops end).
  change (omap op_prot (retime op :: map retime ops)) with
    (match op_prot (retime op) with Some z => z :: omap op_prot (map retime ops)
     | None => omap op_prot (map retime ops) end).
  destruct (op_update_prot op Hn Hop) as [(-> & -> & ->) | (u & p & -> & -> & ->)]; [by apply IH |].
  cbn [app update_all]. pose proof (alter_app_r u es (p :: omap op_prot ops) 0) as E.
  rewrite Nat.add_0_r in E. rewrite E. cbn. specialize (IH (es ++ [u p]) Hns Hok).
  rewrite length_app, Nat.add_1_r, <- !app_assoc in IH. apply IH.
Qed.
End Retime.

(** The timestamps in a batch that was built with placeholders. *)
Lemma UpdateTimestamps_ops {H : NPHash} ts_sz_func ts b ops : slen ts <> 0 -> slen ts <> 2 ^ 64 - 1 ->
  batch_of b ops -> Forall (ts_ok ts_sz_func ts) ops ->
  exists b', UpdateTimestamps ts_sz_func ts b = Some (Status_OK, b') /\
    holds b' (map (retime ts_sz_func ts) ops) /\ content_flags_ b' = ops_flags ops /\
    (forall seq, slen seq = 8 -> rep_ b = rep_of seq ops ->
       rep_ b' = rep_of seq (map (retime ts_sz_func ts) ops)) /\
    (is_Some (prot_info_ b') <-> is_Some (prot_info_ b)) /\
    needs_in_place_update_ts_ b' = false /\
    (prot_info_ b = None \/ Forall no_range ops -> batch_of b' (map (retime ts_sz_func ts) ops)).
Proof.
  intros H1 H2 Hb Hok. destruct Hb as [[(seq & Hseq & E) Hops] Hf Hp]. unfold UpdateTimestamps.
  rewrite (Iterate_holds _ (ts_ok ts_sz_func ts) b ops); [| | by apply updater_respectful | done..].
  2: by split; [exists seq |].
  set (hd := seq ++ EncodeFixed32 (u32 (num_counted ops))).
  assert (rep_ b = hd ++ ops_bytes ops) as E' by (rewrite E; unfold rep_of, hd; by rewrite <- app_assoc).
  destruct (run_retime ts_sz_func ts H1 H2 (rep_ b) ops hd
    {| tu_writes := []; tu_prot_info := prot_info_ b; idx_ := 0 |} true Hok E') as (st' & Hr & Hw & Hpr).
  rewrite <- E' in Hr. rewrite Hr. change (status_ok Status_OK) with true. eexists. split; [done |].
  assert (buffer (TimestampUpdater_handler ts_sz_func ts) st' (rep_ b) =
    rep_of seq (map (retime ts_sz_func ts) ops)) as Hbuf.
  { etransitivity; [exact Hw |]. unfold rep_of, hd. by rewrite retime_num_counted, <- app_assoc. }
  assert (Forall op_ok (map (retime ts_sz_func ts) ops)) as Hops'.
  { apply Forall_map, (list.Forall_impl _ _ _ (Forall_and Hok Hops)).
    intros op [? ?]. by apply retime_ok. }
  assert (forall b', rep_ b' = rep_of seq (map (retime ts_sz_func ts) ops) ->
    holds b' (map (retime ts_sz_func ts) ops)) as Hh by (intros b' Hrep; by split; [exists seq |]).
  split_and!; [by apply Hh | done | | | done |].
  - intros seq' Hseq' E2. etransitivity; [exact Hbuf |]. f_equal.
    destruct (rep_of_header seq ops Hseq) as (_ & _ & <- & _).
    destruct (rep_of_header seq' ops Hseq') as (_ & _ & <- & _). congruence.
  - cbn. rewrite Hpr. cbn [tu_prot_info]. apply fmap_is_Some.
  - intros Hno. split; [by apply Hh | by cbn; rewrite retime_ops_flags |].
    cbn. intros es Hes. rewrite Hpr in Hes. cbn [tu_prot_info idx_] in Hes.
    destruct (prot_info_ b) as [es0 |]; [| done]. destruct Hno as [? | Hno]; [done |].
    injection Hes as <-. rewrite (Hp es0 eq_refl).
    exact (update_all_prot ts_sz_func ts ops [] Hno Hok).
Qed.

(** * Timestamps given at once and given later *)

(** The operations on keys that may have a timestamp. *)
Inductive TsCall :=
  | TsPut (key value : bytes)
  | TsDelete (key : bytes)
  | TsSingleDelete (key : bytes)
  | TsDeleteRange (begin_key end_key : bytes)
  | TsMerge (key value : bytes).

(** The operation with [suffix] after its keys. *)
Definition ts_op (cf : Z) (suffix : bytes) (c : TsCall) : BatchOp :=
  match c with
  | TsPut k v => BPut cf (k ++ suffix) v
  | TsDelete k => BDelete cf (k ++ suffix)
  | TsSingleDelete k => BSingleDelete cf (k ++ suffix)
  | TsDeleteRange k v => BDeleteRange cf (k ++ suffix) (v ++ suffix)
  | TsMerge k v => BMerge cf (k ++ suffix) v
  end.

Section Deferred.
Context {H : NPHash} (ts_sz_func : Z -> Z) (ts : bytes) (Hts : slen ts <> 0) (Hts' : slen ts <> 2 ^ 64 - 1).

(** The call without a timestamp, and the call with one where the column family has timestamps. *)
Definition deferred_call (b : WriteBatch) (h : ColumnFamilyHandle) (c : TsCall) : Status * WriteBatch :=
  match c with
  | TsPut k v => WriteBatch_Put b (Some h) k v
  | TsDelete k => WriteBatch_Delete b (Some h) k
  | TsSingleDelete k => WriteBatch_SingleDelete b (Some h) k
  | TsDeleteRange k v => WriteBatch_DeleteRange b (Some h) k v
  | TsMerge k v => WriteBatch_Merge b (Some h) k v
  end.
Definition direct_call (b : WriteBatch) (h : ColumnFamilyHandle) (c : TsCall) : Status * WriteBatch :=
  if ts_sz_func (GetID h) =? 0 then deferred_call b h c
  else match c with
  | TsPut k v => WriteBatch_Put_ts b (Some h) k ts v
  | TsDelete k => WriteBatch_Delete_ts b (Some h) k ts
  | TsSingleDelete k => WriteBatch_SingleDelete_ts b (Some h) k ts
  | TsDeleteRange k v => WriteBatch_DeleteRange_ts b (Some h) k v ts
  | TsMerge k v => WriteBatch_Merge_ts b (Some h) k ts v
  end.

Fixpoint run_ts (f : WriteBatch -> ColumnFamilyHandle -> TsCall -> Status * WriteBatch) (b : WriteBatch)
    (l : list (ColumnFamilyHandle * TsCall)) : WriteBatch * list Status :=
  match l with
  | [] => (b, [])
  | (h, c) :: l =>
      let '(st, b) := f b h c in
      let '(b, sts) := run_ts f b l in (b, st :: sts)
  end.

(** ** What the calls come down to *)

Definition plain_call (b : WriteBatch) (cf : Z) (c : TsCall) : Status * WriteBatch :=
  match c with
  | TsPut k v => WriteBatchInternal_Put b cf k v
  | TsDelete k => WriteBatchInternal_Delete b cf k
  | TsSingleDelete k => WriteBatchInternal_SingleDelete b cf k
  | TsDeleteRange k v => WriteBatchInternal_DeleteRange b cf k v
  | TsMerge k v => WriteBatchInternal_Merge b cf k v
  end.
Definition parts_call (s : bytes) (b : WriteBatch) (cf : Z) (c : TsCall) : Status * WriteBatch :=
  match c with
  | TsPut k v => WriteBatchInternal_Put_parts b cf [k; s] [v]
  | TsDelete k => WriteBatchInternal_Delete_parts b cf [k; s]
  | TsSingleDelete k => WriteBatchInternal_SingleDelete_parts b cf [k; s]
  | TsDeleteRange k v => WriteBatchInternal_DeleteRange_parts b cf [k; s] [v; s]
  | TsMerge k v => WriteBatchInternal_Merge_parts b cf [k; s] [v]
  end.

Definition handle_ok (h : ColumnFamilyHandle) : Prop :=
  fits 32 (GetID h) /\ ts_sz_func (GetID h) = default 0 (GetComparator h) /\
  (ts_sz_func (GetID h) = 0 \/ ts_sz_func (GetID h) = slen ts).

Lemma deferred_call_eq b h c : handle_ok h -> default_cf_ts_sz_ b = ts_sz_func 0 ->
  deferred_call b h c =
  track_if_ok (if ts_sz_func (GetID h) =? 0 then plain_call b (GetID h) c
               else parts_call (sfill (ts_sz_func (GetID h)) Byte.x00) (set_ts_flags b true true) (GetID h) c)
    (GetID h) (ts_sz_func (GetID h)).
Proof.
  intros (_ & Hsz & _) Hd.
  assert (GetColumnFamilyIdAndTimestampSize b (Some h) = (Status_OK, GetID h, ts_sz_func (GetID h))) as E.
  { unfold GetColumnFamilyIdAndTimestampSize. cbn [GetColumnFamilyID]. rewrite Hd.
    destruct (GetComparator h) as [sz |]; cbn in Hsz; [| by rewrite Hsz].
    destruct (Z.eqb_spec (GetID h) 0) as [E0 | E0]; [| by rewrite Hsz].
    rewrite <- E0, Hsz, Z.eqb_refl. done. }
  by destruct c; cbn [deferred_call plain_call parts_call];
    [unfold WriteBatch_Put | unfold WriteBatch_Delete | unfold WriteBatch_SingleDelete |
     unfold WriteBatch_DeleteRange | unfold WriteBatch_Merge]; rewrite E.
Qed.

Lemma direct_call_eq b h c : handle_ok h -> default_cf_ts_sz_ b = ts_sz_func 0 ->
  direct_call b h c =
  track_if_ok (if ts_sz_func (GetID h) =? 0 then plain_call b (GetID h) c
               else parts_call ts (set_ts_flags b (needs_in_place_update_ts_ b) true) (GetID h) c)
    (GetID h) (ts_sz_func (GetID h)).
Proof.
  intros Hh Hd. unfold direct_call. destruct (Z.eqb_spec (ts_sz_func (GetID h)) 0) as [E0 | E0].
  { rewrite deferred_call_eq by done. by rewrite E0. }
  destruct Hh as (_ & Hsz & [? | Hsz']); [done |].
  assert (CheckColumnFamilyTimestampSize (Some h) ts = Status_OK) as E.
  { unfold CheckColumnFamilyTimestampSize. rewrite <- Hsz, Hsz', Z.eqb_refl.
    by rewrite (proj2 (Z.eqb_neq _ _) Hts). }
  rewrite Hsz'. by destruct c; cbn [parts_call];
    [unfold WriteBatch_Put_ts | unfold WriteBatch_Delete_ts | unfold WriteBatch_SingleDelete_ts |
     unfold WriteBatch_DeleteRange_ts | unfold WriteBatch_Merge_ts]; rewrite E.
Qed.

(** Two calls that are refused alike, or add the records of [op1] and [op2]. *)
Definition alike (f1 f2 : WriteBatch -> Status * WriteBatch) (op1 op2 : BatchOp) : Prop :=
  (exists st, status_ok st = false /\ (forall b, f1 b = (st, b)) /\ (forall b, f2 b = (st, b))) \/
  ((forall b, exists b', f1 b = commit b b' /\ appended b b' op1) /\
   (forall b, exists b', f2 b = commit b b' /\ appended b b' op2)).

Ltac solve_appended :=
  eexists; (split; [reflexivity |]);
  rewrite ?put_two_parts, ?put_one_parts, ?put_two, ?put_one; cbn [concat]; rewrite ?app_nil_r;
  match goal with |- appended _ _ ?op => by eapply (appended_entry _ op) end.

Lemma parts_calls_alike s1 s2 cf c : slen s1 = slen s2 ->
  alike (fun b => parts_call s1 b cf c) (fun b => parts_call s2 b cf c) (ts_op cf s1 c) (ts_op cf s2 c).
Proof.
  intros Hs. assert (forall k v, CheckSlicePartsLength [k; s1] [v] = CheckSlicePartsLength [k; s2] [v]) as Hc.
  { intros k v. unfold CheckSlicePartsLength. simpl. by rewrite Hs. }
  destruct c as [k v | | | | k v]; cbn [parts_call ts_op].
  1, 5: unfold WriteBatchInternal_Put_parts, WriteBatchInternal_Merge_parts; rewrite Hc;
    destruct (status_ok (CheckSlicePartsLength [k; s2] [v])) eqn:Es; cbn [negb]; [right | left; by eexists];
    split; intros b; solve_appended.
  all: right; split; intros b; solve_appended.
Qed.

Lemma plain_calls_alike cf c :
  alike (fun b => plain_call b cf c) (fun b => plain_call b cf c) (ts_op cf [] c) (ts_op cf [] c).
Proof.
  destruct c as [k v | | | | k v]; cbn [plain_call ts_op]; rewrite ?app_nil_r.
  1, 5: unfold WriteBatchInternal_Put, WriteBatchInternal_Merge;
    do 2 (destruct (_ >? _); [left; by exists Status_InvalidArgument |]); right; split; intros b; solve_appended.
  all: right; split; intros b; solve_appended.
Qed.

(** ** The simulation *)

(** [b2] is [b1] with its timestamps. *)
Record timed (b1 b2 : WriteBatch) (ops : list BatchOp) : Prop := {
  timed_rep : exists seq, slen seq = 8 /\ rep_ b1 = rep_of seq ops /\
    rep_ b2 = rep_of seq (map (retime ts_sz_func ts) ops);
  timed_1 : batch_of b1 ops;
  timed_2 : batch_of b2 (map (retime ts_sz_func ts) ops);
  timed_ok : Forall (ts_ok ts_sz_func ts) ops;
  timed_max : max_bytes_ b1 = max_bytes_ b2;
  timed_default : default_cf_ts_sz_ b1 = ts_sz_func 0 /\ default_cf_ts_sz_ b2 = ts_sz_func 0;
  timed_prot : is_Some (prot_info_ b1) <-> is_Some (prot_info_ b2);
}.

Lemma timed_flags b1 b2 ops n1 n2 h1 h2 : timed b1 b2 ops ->
  timed (set_ts_flags b1 n1 h1) (set_ts_flags b2 n2 h2) ops.
Proof. intros [? [[? ?] ? ?] [[? ?] ? ?] ? ? ? ?]. split; try done; by split. Qed.
Lemma timed_tracked b1 b2 ops cf sz : timed b1 b2 ops ->
  timed (MaybeTrackTimestampSize b1 cf sz) (MaybeTrackTimestampSize b2 cf sz) ops.
Proof.
  intros [? [[? ?] ? ?] [[? ?] ? ?] ? ? ? ?]. unfold MaybeTrackTimestampSize.
  destruct (track_timestamp_size_ b1), (track_timestamp_size_ b2), (cf_id_to_ts_sz_ b1 !! cf),
    (cf_id_to_ts_sz_ b2 !! cf); split; try done; by split.
Qed.

Lemma slen_ops_retime ops : Forall (ts_ok ts_sz_func ts) ops ->
  slen (ops_bytes (map (retime ts_sz_func ts) ops)) = slen (ops_bytes ops).
Proof.
  induction 1 as [| op ops Hop _ IH]; [done |]. cbn [map]. rewrite !ops_bytes_cons.
  pose proof (slen_retime ts_sz_func ts op Hop). slia.
Qed.

Lemma timed_appended b1 b2 b1' b2' ops op : timed b1 b2 ops -> op_ok op -> ts_ok ts_sz_func ts op ->
  appended b1 b1' op -> appended b2 b2' (retime ts_sz_func ts op) -> timed b1' b2' (ops ++ [op]).
Proof.
  intros [(seq & Hseq & E1 & E2) Hb1 Hb2 Hok Hm Hd Hpr] Hop Htsok A1 A2. split.
  - exists seq. rewrite map_app. split_and!; [done | by apply A1 | by apply A2].
  - by eapply batch_appended.
  - rewrite map_app. eapply batch_appended; [done | by apply retime_ok | done].
  - apply Forall_app. by split; [| constructor].
  - by rewrite (app_same _ _ _ A1), (app_same _ _ _ A2).
  - rewrite (app_same _ _ _ A1), (app_same _ _ _ A2). done.
  - rewrite (app_prot _ _ _ A1), (app_prot _ _ _ A2).
    split; intros [_ [? [? _]]%fmap_Some]; apply fmap_is_Some, Hpr; by eexists.
Qed.

Lemma timed_step b1 b2 ops f1 f2 op : timed b1 b2 ops -> num_counted ops < 2 ^ 32 ->
  alike f1 f2 op (retime ts_sz_func ts op) -> op_ok op -> ts_ok ts_sz_func ts op ->
  (f1 b1).1 = (f2 b2).1 /\
  exists ops', timed (f1 b1).2 (f2 b2).2 ops' /\
    ops' = if status_ok (f1 b1).1 then ops ++ [op] else ops.
Proof.
  intros Ht Hn [(st & Hst & E1 & E2) | [F1 F2]] Hop Htsok.
  { rewrite E1, E2. split; [done |]. exists ops. cbn. by rewrite Hst. }
  destruct (F1 b1) as (b1' & -> & A1), (F2 b2) as (b2' & -> & A2).
  pose proof (commit_appended b1 b1' ops op (timed_1 _ _ _ Ht) Hop A1 Hn) as C1.
  pose proof (commit_appended b2 b2' _ _ (timed_2 _ _ _ Ht) (retime_ok _ _ _ Htsok Hop) A2
    ltac:(by rewrite retime_num_counted)) as C2.
  pose proof (timed_appended _ _ _ _ _ _ Ht Hop Htsok A1 A2) as Ht'.
  rewrite slen_retime, <- (timed_max _ _ _ Ht) in C2 by done.
  assert (slen (rep_ b2) = slen (rep_ b1)) as El.
  { destruct (timed_rep _ _ _ Ht) as (seq & Hseq & -> & ->).
    destruct (rep_of_header seq ops Hseq) as [-> _].
    destruct (rep_of_header seq (map (retime ts_sz_func ts) ops) Hseq) as [-> _].
    by rewrite slen_ops_retime by apply Ht. }
  rewrite El in C2.
  destruct C1 as [(-> & _ & ?) | (-> & ? & ?)], C2 as [(-> & _ & ?) | (-> & ? & ?)]; try lia;
    (split; [done |]); eexists; by split.
Qed.

Definition dummy (h : ColumnFamilyHandle) : bytes := sfill (ts_sz_func (GetID h)) Byte.x00.
Definition ts_call_ok (hc : ColumnFamilyHandle * TsCall) : Prop :=
  handle_ok hc.1 /\ op_ok (ts_op (GetID hc.1) (dummy hc.1) hc.2).
Definition ts_no_range (hc : ColumnFamilyHandle * TsCall) : Prop :=
  match hc.2 with TsDeleteRange _ _ => False | _ => True end.

Lemma retime_key_suffix cf k s : ts_sz_func cf = slen ts -> slen s = slen ts ->
  retime_key ts_sz_func ts cf (k ++ s) = k ++ ts /\ ts_key_ok ts_sz_func ts cf (k ++ s).
Proof.
  intros E Hs. unfold retime_key. rewrite E, (proj2 (Z.eqb_neq _ _) Hts).
  rewrite stake_app_exact by slia. split; [done |]. right. split; [done | slia].
Qed.

(** The placeholder of an operation becomes the timestamp. *)
Lemma retime_dummy h c : handle_ok h ->
  ts_ok ts_sz_func ts (ts_op (GetID h) (dummy h) c) /\
  retime ts_sz_func ts (ts_op (GetID h) (dummy h) c) =
  ts_op (GetID h) (if ts_sz_func (GetID h) =? 0 then [] else ts) c.
Proof.
  intros (_ & _ & Hsz). unfold dummy. destruct (Z.eqb_spec (ts_sz_func (GetID h)) 0) as [E | E].
  - rewrite E. change (sfill 0 Byte.x00) with (@nil Byte.byte).
    assert (forall k, ts_key_ok ts_sz_func ts (GetID h) k) as Hok by (by left).
    assert (forall k, retime_key ts_sz_func ts (GetID h) k = k) as Hk
      by (intros k; unfold retime_key; by rewrite E).
    destruct c; cbn [ts_op ts_ok retime]; rewrite !Hk; by split.
  - destruct Hsz as [? | Hsz]; [done |].
    assert (slen (sfill (ts_sz_func (GetID h)) Byte.x00) = slen ts) as Hl by (rewrite Hsz; slia).
    pose proof (fun k => retime_key_suffix (GetID h) k _ Hsz Hl) as Hk.
    destruct c; cbn [ts_op ts_ok retime]; rewrite ?(proj1 (Hk _)); (split; [| done]);
      try apply Hk; split; apply Hk.
Qed.

Lemma timed_track ops r1 r2 cf sz : r1.1 = r2.1 -> timed r1.2 r2.2 ops ->
  (track_if_ok r1 cf sz).1 = (track_if_ok r2 cf sz).1 /\
  timed (track_if_ok r1 cf sz).2 (track_if_ok r2 cf sz).2 ops.
Proof.
  destruct r1 as [s1 b1'], r2 as [s2 b2']. cbn. intros -> Ht. split; [done |].
  destruct (status_ok s2); [by apply timed_tracked | done].
Qed.

Lemma timed_call b1 b2 ops h c : timed b1 b2 ops -> num_counted ops < 2 ^ 32 -> ts_call_ok (h, c) ->
  (deferred_call b1 h c).1 = (direct_call b2 h c).1 /\
  exists ops', timed (deferred_call b1 h c).2 (direct_call b2 h c).2 (ops ++ ops') /\
    (ops' = [] \/ ops' = [ts_op (GetID h) (dummy h) c]).
Proof.
  intros Ht Hn [Hh Hop]. cbn [fst snd] in *. destruct (timed_default _ _ _ Ht).
  rewrite deferred_call_eq, direct_call_eq by done. destruct (retime_dummy h c Hh) as [Hok Hre].
  assert (forall b1 b2 f1 f2, timed b1 b2 ops ->
    alike f1 f2 (ts_op (GetID h) (dummy h) c) (retime ts_sz_func ts (ts_op (GetID h) (dummy h) c)) ->
    let r1 := track_if_ok (f1 b1) (GetID h) (ts_sz_func (GetID h)) in
    let r2 := track_if_ok (f2 b2) (GetID h) (ts_sz_func (GetID h)) in
    r1.1 = r2.1 /\ exists ops', timed r1.2 r2.2 (ops ++ ops') /\
      (ops' = [] \/ ops' = [ts_op (GetID h) (dummy h) c])) as Hstep.
  { intros c1 c2 f1 f2 Hc Ha. destruct (timed_step _ _ _ _ _ _ Hc Hn Ha Hop Hok) as (Es & ops' & Ht' & Eo).
    destruct (timed_track ops' (f1 c1) (f2 c2) (GetID h) (ts_sz_func (GetID h)) Es Ht') as [Hs Ht2].
    split; [done |]. destruct (status_ok _).
    - exists [ts_op (GetID h) (dummy h) c]. subst ops'. auto.
    - exists []. rewrite app_nil_r. subst ops'. auto. }
  rewrite Hre in Hstep. unfold dummy in Hstep. destruct (Z.eqb_spec (ts_sz_func (GetID h)) 0) as [E | E].
  - apply (Hstep b1 b2 (fun b => plain_call b (GetID h) c) (fun b => plain_call b (GetID h) c)); [done |].
    rewrite E. apply plain_calls_alike.
  - apply (Hstep _ _ (fun b => parts_call (dummy h) b (GetID h) c) (fun b => parts_call ts b (GetID h) c));
      [by apply timed_flags |]. apply parts_calls_alike.
    destruct Hh as (_ & _ & [? | Hsz]); [done |]. unfold dummy. rewrite Hsz. slia.
Qed.

Lemma run_timed l : forall b1 b2 ops, timed b1 b2 ops -> num_counted ops + slen l < 2 ^ 32 ->
  Forall ts_call_ok l ->
  (run_ts deferred_call b1 l).2 = (run_ts direct_call b2 l).2 /\
  exists ops', timed (run_ts deferred_call b1 l).1 (run_ts direct_call b2 l).1 (ops ++ ops') /\
    (Forall ts_no_range l -> Forall no_range ops').
Proof.
  induction l as [| [h c] l IH]; intros b1 b2 ops Ht Hn Hok.
  { split; [done |]. exists []. by rewrite app_nil_r. }
  apply Forall_cons_1 in Hok as [Hc Hok]. rewrite slen_cons in Hn. pose proof (slen_nonneg l).
  destruct (timed_call b1 b2 ops h c Ht ltac:(lia) Hc) as (Es & ops1 & Ht1 & E1). cbn [run_ts].
  destruct (deferred_call b1 h c) as [st1 b1'], (direct_call b2 h c) as [st2 b2']. cbn [fst snd] in *.
  subst st2. edestruct (IH b1' b2' _ Ht1) as (Es2 & ops2 & Ht2 & Hr2); [| done |].
  { rewrite num_counted_app. destruct E1 as [-> | ->]; [by change (num_counted []) with 0; lia |].
    rewrite num_counted_cons. change (num_counted []) with 0. destruct (op_counts _); lia. }
  destruct (run_ts deferred_call b1' l), (run_ts direct_call b2' l). cbn [fst snd] in *. subst.
  split; [done |]. exists (ops1 ++ ops2). rewrite app_assoc. split; [done |].
  intros [Hr Hrs]%Forall_cons_1. apply Forall_app. split; [| by apply Hr2].
  destruct E1 as [-> | ->]; [done |]. constructor; [| done]. by destruct c.
Qed.
End Deferred.


(** C21: Timestamps may be given later. Building a batch with calls that leave the timestamps open
    and filling them in with [UpdateTimestamps] gives the batch that the calls with the timestamp
    build: every call returns the same status, and the serialised form, the flags, and (unless
    the batch has range deletions) the checksums are the same; column families without timestamps
    are not touched. *)
Theorem deferred_timestamps {H : NPHash} (ts_sz_func : Z -> Z) (ts : bytes) (max_bytes prot : Z)
    (l : list (ColumnFamilyHandle * TsCall))
    (Hts : 0 < slen ts < 2 ^ 64 - 1) (Hl : slen l < 2 ^ 32) (Hok : Forall (ts_call_ok ts_sz_func ts) l) :
  let b0 := MakeWriteBatch max_bytes prot (ts_sz_func 0) in
  let '(later, sts) := run_ts deferred_call b0 l in
  let '(direct, sts') := run_ts (direct_call ts_sz_func ts) b0 l in
  sts = sts' /\
  exists b, UpdateTimestamps ts_sz_func ts later = Some (Status_OK, b) /\
    rep_ b = rep_ direct /\ content_flags_ b = content_flags_ direct /\
    needs_in_place_update_ts_ b = false /\
    (Forall ts_no_range l -> prot_info_ b = prot_info_ direct).
Proof.
  cbv zeta. set (b0 := MakeWriteBatch max_bytes prot (ts_sz_func 0)).
  assert (batch_of b0 []) as Hb0.
  { split; [split; [by exists (sfill 8 Byte.x00) | done] | done |].
    intros es. cbn. destruct (negb _); by intros [= <-]. }
  assert (timed ts_sz_func ts b0 b0 []) as Ht0 by (split; try done; by exists (sfill 8 Byte.x00)).
  destruct (run_timed ts_sz_func ts ltac:(lia) ltac:(lia) l b0 b0 [] Ht0) as (Es & ops & Ht & Hr); [done | done |].
  destruct (run_ts deferred_call b0 l) as [later sts], (run_ts (direct_call ts_sz_func ts) b0 l) as [direct sts'].
  cbn [fst snd app] in *. split; [done |]. destruct Ht as [(seq & Hseq & E1 & E2) Hb1 Hb2 Hok' _ _ Hpr].
  destruct (UpdateTimestamps_ops ts_sz_func ts later ops ltac:(lia) ltac:(lia) Hb1 Hok')
    as (b & Hu & _ & Hf & Hrep & Hp & Hneed & Hb).
  exists b. split_and!; [done | by rewrite (Hrep seq), E2 | | done |].
  - rewrite Hf, (batch_flags _ _ Hb2). by rewrite retime_ops_flags.
  - intros Hno. pose proof (batch_prot _ _ (Hb (or_intror (Hr Hno)))) as P1.
    pose proof (batch_prot _ _ Hb2) as P2. destruct (prot_info_ b) as [es |], (prot_info_ direct) as [es' |].
    + by rewrite (P1 es eq_refl), (P2 es' eq_refl).
    + destruct (proj1 Hpr (proj1 Hp ltac:(by eexists))). done.
    + destruct (proj2 Hp (proj2 Hpr ltac:(by eexists))). done.
    + done.
Qed.
Definition ex_calls : list (ColumnFamilyHandle * TsCall) :=
  [({| GetID := 1; GetComparator := Some 8 |}, TsPut [Byte.x61] [Byte.x76]);
   ({| GetID := 0; GetComparator := Some 0 |}, TsDelete [Byte.x62]);
   ({| GetID := 1; GetComparator := Some 8 |}, TsMerge [Byte.x63] [Byte.x77])].
Definition ex_ts : bytes := EncodeFixed64 42.
Definition ex_ts_sz (cf : Z) : Z := if cf =? 1 then 8 else 0.
Lemma deferred_timestamps_witness :
  let b0 := MakeWriteBatch 0 8 0 in
  exists b, UpdateTimestamps (H := ex_hash) ex_ts_sz ex_ts (run_ts (deferred_call (H := ex_hash)) b0 ex_calls).1 =
      Some (Status_OK, b) /\
    rep_ b = rep_ (run_ts (direct_call (H := ex_hash) ex_ts_sz ex_ts) b0 ex_calls).1.
Proof.
  cbv zeta. assert (Forall (ts_call_ok ex_ts_sz ex_ts) ex_calls) as Hok.
  { repeat constructor; vm_compute; auto; congruence. }
  pose proof (deferred_timestamps (H := ex_hash) ex_ts_sz ex_ts 0 8 ex_calls ltac:(by vm_compute)
    ltac:(by vm_compute) Hok) as T. cbv zeta in T. change (ex_ts_sz 0) with 0 in T.
  destruct (run_ts deferred_call _ ex_calls), (run_ts (direct_call _ _) _ ex_calls).
  destruct T as (_ & b & ? & ? & _). by exists b.
Defined.

