(* ===== verification/UdtUtil.v ===== *)
(** util/udt_util.{h,cc} and util/write_batch_util.{h,cc}: the sizes of user-defined timestamps
    recorded in a log against those of the running column families, and the batches that are
    rebuilt when they differ. *)

From stdpp Require Import gmap.
From S2P Require Import Prelude Coding Comparator DbFormat Status WideColumns WriteBatch WriteBatchIter.

(** * The column families of a batch *)

Definition AddColumnFamilyId (ids : gset Z) (cf : Z) : Status * gset Z := (Status_OK, {[cf]} ∪ ids).
Definition ColumnFamilyCollector : Handler (gset Z) := {|
  PutCF ids cf _ _ := AddColumnFamilyId ids cf;
  TimedPutCF ids cf _ _ _ := AddColumnFamilyId ids cf;
  PutEntityCF ids cf _ _ := AddColumnFamilyId ids cf;
  DeleteCF ids cf _ := AddColumnFamilyId ids cf;
  SingleDeleteCF ids cf _ := AddColumnFamilyId ids cf;
  DeleteRangeCF ids cf _ _ := AddColumnFamilyId ids cf;
  MergeCF ids cf _ _ := AddColumnFamilyId ids cf;
  PutBlobIndexCF ids cf _ _ := AddColumnFamilyId ids cf;
  LogData ids _ := ids;
  MarkBeginPrepare ids _ := (Status_OK, ids);
  MarkEndPrepare ids _ := (Status_OK, ids);
  MarkNoop ids _ := (Status_OK, ids);
  MarkRollback ids _ := (Status_OK, ids);
  MarkCommit ids _ := (Status_OK, ids);
  MarkCommitWithTimestamp ids _ _ := (Status_OK, ids);
  Continue ids := (true, ids);
  WriteAfterCommit _ := kUnknown;
  WriteBeforePrepare _ := kUnknown;
  buffer _ rep := rep;
|}.
(** [None] when the batch cannot be read. *)
Definition CollectColumnFamilyIdsFromWriteBatch (b : WriteBatch) : option (Status * list Z) :=
  match WriteBatch_Iterate ColumnFamilyCollector b ∅ with
  | Some (Returned s ids) => Some (s, if status_ok s then elements ids else [])
  | _ => None
  end.

(** * What a difference of the sizes asks for *)

Inductive RecoveryType := kRecoverNoop | kUnrecoverable | kStripTimestamp | kPadTimestamp.
#[global] Instance RecoveryType_eq_dec : EqDecision RecoveryType.
Proof. solve_decision. Defined.

Definition GetRecoveryType (running_ts_sz : Z) (recorded_ts_sz : option Z) : RecoveryType :=
  if running_ts_sz =? 0 then
    match recorded_ts_sz with None => kRecoverNoop | Some _ => kStripTimestamp end
  else
    match recorded_ts_sz with
    | None => kPadTimestamp
    | Some recorded => if negb (running_ts_sz =? recorded) then kUnrecoverable else kRecoverNoop
    end.

Definition AllRunningColumnFamiliesConsistent (running_ts_sz record_ts_sz : gmap Z Z) : bool :=
  forallb (fun p : Z * Z => bool_decide (GetRecoveryType p.2 (record_ts_sz !! p.1) = kRecoverNoop))
    (map_to_list running_ts_sz).

Inductive TimestampSizeConsistencyMode := kVerifyConsistency | kReconcileInconsistency.

(** The loop over the column families: the status and [ts_need_recovery]. *)
Fixpoint check_column_families (ids : list Z) (running_ts_sz record_ts_sz : gmap Z Z)
    (check_mode : TimestampSizeConsistencyMode) (ts_need_recovery : bool) : Status * bool :=
  match ids with
  | [] => (Status_OK, ts_need_recovery)
  | cf_id :: ids =>
      match running_ts_sz !! cf_id with
      | None => check_column_families ids running_ts_sz record_ts_sz check_mode ts_need_recovery
      | Some ts_sz =>
          let recovery_type := GetRecoveryType ts_sz (record_ts_sz !! cf_id) in
          if negb (bool_decide (recovery_type = kRecoverNoop)) then
            match check_mode with
            | kVerifyConsistency => (Status_InvalidArgument, ts_need_recovery)
            | kReconcileInconsistency =>
                if bool_decide (recovery_type = kUnrecoverable) then
                  (Status_InvalidArgument, ts_need_recovery)
                else check_column_families ids running_ts_sz record_ts_sz check_mode true
            end
          else check_column_families ids running_ts_sz record_ts_sz check_mode ts_need_recovery
      end
  end.
Definition CheckWriteBatchTimestampSizeConsistency (b : WriteBatch)
    (running_ts_sz record_ts_sz : gmap Z Z) (check_mode : TimestampSizeConsistencyMode)
    : option (Status * bool) :=
  match CollectColumnFamilyIdsFromWriteBatch b with
  | None => None
  | Some (s, ids) =>
      Some (if negb (status_ok s) then (s, false)
            else check_column_families ids running_ts_sz record_ts_sz check_mode false)
  end.

(** * Rebuilding a batch *)

Record TimestampRecoveryHandler := {
  new_batch_ : WriteBatch;
  new_batch_diff_from_orig_batch_ : bool;
}.

Section Handler.
Context {H : NPHash}.
Context (running_ts_sz_ record_ts_sz_ : gmap Z Z) (write_after_commit_ write_before_prepare_ : bool).
Implicit Types st : TimestampRecoveryHandler.

Definition MakeTimestampRecoveryHandler : TimestampRecoveryHandler :=
  {| new_batch_ := MakeWriteBatch 0 0 0; new_batch_diff_from_orig_batch_ := false |}.
Definition set_diff st : TimestampRecoveryHandler :=
  {| new_batch_ := new_batch_ st; new_batch_diff_from_orig_batch_ := true |}.
(** A call on the new batch. *)
Definition on_new_batch st (f : WriteBatch -> Status * WriteBatch) : Status * TimestampRecoveryHandler :=
  let '(s, b) := f (new_batch_ st) in
  (s, {| new_batch_ := b; new_batch_diff_from_orig_batch_ := new_batch_diff_from_orig_batch_ st |}).

(** The new key, or the status of an error. *)
Definition ReconcileTimestampDiscrepancy st (cf : Z) (key : bytes)
    : (bytes + Status) * TimestampRecoveryHandler :=
  match running_ts_sz_ !! cf with
  | None => (inl key, st)
  | Some running_ts_sz =>
      let record_ts_sz := record_ts_sz_ !! cf in
      match GetRecoveryType running_ts_sz record_ts_sz with
      | kRecoverNoop => (inl key, st)
      | kStripTimestamp => (inl (StripTimestampFromUserKey key (default 0 record_ts_sz)), set_diff st)
      | kPadTimestamp => (inl (AppendKeyWithMinTimestamp [] key running_ts_sz), set_diff st)
      | kUnrecoverable => (inr Status_InvalidArgument, st)
      end
  end.

(** An entry with one key: [write] puts it in the new batch. *)
Definition recover_entry st (cf : Z) (key : bytes)
    (write : WriteBatch -> bytes -> Status * WriteBatch) : Status * TimestampRecoveryHandler :=
  match ReconcileTimestampDiscrepancy st cf key with
  | (inr s, st) => (s, st)
  | (inl new_key, st) => on_new_batch st (fun b => write b new_key)
  end.
Definition Recovery_PutEntityCF st (cf : Z) (key entity : bytes) : Status * TimestampRecoveryHandler :=
  match ReconcileTimestampDiscrepancy st cf key with
  | (inr s, st) => (s, st)
  | (inl new_key, st) =>
      match WideColumn_Deserialize entity with
      | inr _ => (Status_Corruption, st)
      | inl columns => on_new_batch st (fun b => WriteBatchInternal_PutEntity b cf new_key columns)
      end
  end.
Definition Recovery_DeleteRangeCF st (cf : Z) (begin_key end_key : bytes)
    : Status * TimestampRecoveryHandler :=
  match ReconcileTimestampDiscrepancy st cf begin_key with
  | (inr s, st) => (s, st)
  | (inl new_begin_key, st) =>
      match ReconcileTimestampDiscrepancy st cf end_key with
      | (inr s, st) => (s, st)
      | (inl new_end_key, st) =>
          on_new_batch st (fun b => WriteBatchInternal_DeleteRange b cf new_begin_key new_end_key)
      end
  end.
Definition Recovery_MarkBeginPrepare st (unprepare : bool) : Status * TimestampRecoveryHandler :=
  if unprepare then (Status_InvalidArgument, st)
  else on_new_batch st (fun b => InsertBeginPrepare b write_after_commit_ false).

Definition TimestampRecoveryHandler_handler : Handler TimestampRecoveryHandler := {|
  PutCF st cf key value :=
    recover_entry st cf (s_data key) (fun b k => WriteBatchInternal_Put b cf k (s_data value));
  TimedPutCF st cf key value write_time :=
    recover_entry st cf (s_data key) (fun b k => WriteBatchInternal_TimedPut b cf k (s_data value) write_time);
  PutEntityCF st cf key entity := Recovery_PutEntityCF st cf (s_data key) (s_data entity);
  DeleteCF st cf key := recover_entry st cf (s_data key) (fun b k => WriteBatchInternal_Delete b cf k);
  SingleDeleteCF st cf key :=
    recover_entry st cf (s_data key) (fun b k => WriteBatchInternal_SingleDelete b cf k);
  DeleteRangeCF st cf begin_key end_key := Recovery_DeleteRangeCF st cf (s_data begin_key) (s_data end_key);
  MergeCF st cf key value :=
    recover_entry st cf (s_data key) (fun b k => WriteBatchInternal_Merge b cf k (s_data value));
  PutBlobIndexCF st cf key value :=
    recover_entry st cf (s_data key) (fun b k => WriteBatchInternal_PutBlobIndex b cf k (s_data value));
  LogData st _ := st;
  MarkBeginPrepare st unprepare := Recovery_MarkBeginPrepare st unprepare;
  MarkEndPrepare st xid := on_new_batch st (fun b => InsertEndPrepare b (s_data xid));
  MarkNoop st _ := on_new_batch st InsertNoop;
  MarkRollback st xid := on_new_batch st (fun b => WriteBatchInternal_MarkRollback b (s_data xid));
  MarkCommit st xid := on_new_batch st (fun b => WriteBatchInternal_MarkCommit b (s_data xid));
  MarkCommitWithTimestamp st xid ts :=
    on_new_batch st (fun b => WriteBatchInternal_MarkCommitWithTimestamp b (s_data xid) (s_data ts));
  Continue st := (true, st);
  WriteAfterCommit _ := if write_after_commit_ then kEnabled else kDisabled;
  WriteBeforePrepare _ := if write_before_prepare_ then kEnabled else kDisabled;
  buffer _ rep := rep;
|}.
End Handler.

(** The status and [new_batch]; [None] when the batch cannot be read. *)
Definition HandleWriteBatchTimestampSizeDifference {H : NPHash} (b : WriteBatch)
    (running_ts_sz record_ts_sz : gmap Z Z) (check_mode : TimestampSizeConsistencyMode)
    (seq_per_batch batch_per_txn : bool) : option (Status * option WriteBatch) :=
  if AllRunningColumnFamiliesConsistent running_ts_sz record_ts_sz then Some (Status_OK, None)
  else
    match CheckWriteBatchTimestampSizeConsistency b running_ts_sz record_ts_sz check_mode with
    | None => None
    | Some (s, need_recovery) =>
        if negb (status_ok s) then Some (s, None)
        else if need_recovery then
          let h := TimestampRecoveryHandler_handler running_ts_sz record_ts_sz (negb seq_per_batch)
                     (negb batch_per_txn) in
          match WriteBatch_Iterate h b MakeTimestampRecoveryHandler with
          | Some (Returned s st) =>
              Some (if negb (status_ok s) then (s, None)
                    else (Status_OK,
                          Some (WriteBatchInternal_SetSequence (new_batch_ st) (WriteBatchInternal_Sequence b))))
          | _ => None
          end
        else Some (Status_OK, None)
    end.

(** * Changing the options of a column family *)

Inductive ToggleUDT := kUnchanged | kEnableUDT | kDisableUDT | kInvalidChange.
(** ".u64ts" *)
Definition kUDTSuffix : bytes := [Byte.x2e; Byte.x75; Byte.x36; Byte.x34; Byte.x74; Byte.x73].
Definition ends_with (s x : bytes) : bool :=
  (slen s >=? slen x) && bool_decide (sdrop (slen s - slen x) s = x).
Definition CompareComparator (new_ucmp_name old_ucmp_name : bytes) : ToggleUDT :=
  if Slice_compare new_ucmp_name old_ucmp_name =? 0 then kUnchanged
  else if (slen new_ucmp_name =? slen old_ucmp_name + slen kUDTSuffix) &&
          starts_with new_ucmp_name old_ucmp_name && ends_with new_ucmp_name kUDTSuffix then kEnableUDT
  else if (slen old_ucmp_name =? slen new_ucmp_name + slen kUDTSuffix) &&
          starts_with old_ucmp_name new_ucmp_name && ends_with old_ucmp_name kUDTSuffix then kDisableUDT
  else kInvalidChange.
(** The comparator is given by its name and the size of its timestamps; the result is the status
    and whether [mark_sst_files_has_no_udt] is set. *)
Definition ValidateUserDefinedTimestampsOptions (new_name : bytes) (ts_sz : Z) (old_name : bytes)
    (new_persist_udt old_persist_udt : bool) : Status * bool :=
  match CompareComparator new_name old_name with
  | kUnchanged =>
      if Bool.eqb old_persist_udt new_persist_udt then (Status_OK, false)
      else if ts_sz =? 0 then (Status_OK, false)
      else (Status_InvalidArgument, false)
  | kEnableUDT => if negb new_persist_udt then (Status_OK, true) else (Status_InvalidArgument, false)
  | kDisableUDT => if negb old_persist_udt then (Status_OK, false) else (Status_InvalidArgument, false)
  | kInvalidChange => (Status_InvalidArgument, false)
  end.

Definition GetFullHistoryTsLowFromU64CutoffTs (cutoff_ts full_history_ts_low : bytes) : bytes :=
  let cutoff_udt_ts := match GetFixed64 cutoff_ts with Some (ts, _) => ts | None => 0 end in
  PutFixed64 full_history_ts_low (u64 (cutoff_udt_ts + 1)).

Definition MaybeAddTimestampsToRange (start e : option bytes) (ts_sz : Z) (exclusive_end : bool)
    : option bytes * option bytes :=
  (option_map (fun s => if ts_sz =? 0 then s else AppendKeyWithMaxTimestamp [] s ts_sz) start,
   option_map (fun k => if ts_sz =? 0 then k
                        else if exclusive_end then AppendKeyWithMaxTimestamp [] k ts_sz
                        else AppendKeyWithMinTimestamp [] k ts_sz) e).
