(* ===== verification/UdtTheorems.v ===== *)
(** Batches whose log recorded other timestamp sizes than the running ones: what
    [HandleWriteBatchTimestampSizeDifference] accepts, refuses and rebuilds. *)

From stdpp Require Import gmap.
From S2P Require Import Prelude Coding Comparator DbFormat Status WideColumns WriteBatch WriteBatchIter WriteBatchSpec WriteBatchProofs UdtUtil.

(** The column family of an entry. *)
Definition op_cf (op : BatchOp) : option Z := if op_counts op then Some (op_tag op).2 else None.
Definition is_log_data (op : BatchOp) : bool := match op with BLogData _ => true | _ => false end.

(** An entry with another key. *)
Definition map_keys (f : Z -> bytes -> bytes) (op : BatchOp) : BatchOp :=
  match op with
  | BPut cf k v => BPut cf (f cf k) v
  | BTimedPut cf k v t => BTimedPut cf (f cf k) v t
  | BPutEntity cf k v => BPutEntity cf (f cf k) v
  | BDelete cf k => BDelete cf (f cf k)
  | BSingleDelete cf k => BSingleDelete cf (f cf k)
  | BDeleteRange cf k v => BDeleteRange cf (f cf k) (f cf v)
  | BMerge cf k v => BMerge cf (f cf k) v
  | BPutBlobIndex cf k v => BPutBlobIndex cf (f cf k) v
  | op => op
  end.
Definition op_keys (op : BatchOp) : list bytes :=
  match op with
  | BDeleteRange _ k v => [k; v]
  | op => if op_counts op then take 1 (op_strings op) else []
  end.

Lemma collect_ops e ids empty ops :
  run_ops ColumnFamilyCollector e ids empty ops = (Status_OK, list_to_set (omap op_cf ops) ∪ ids).
Proof.
  revert ids empty. induction ops as [| op ops IH]; intros ids empty; cbn [run_ops].
  { f_equal. symmetry. apply (left_id_L ∅ (∪)). }
  change (Continue ColumnFamilyCollector ids) with (true, ids). cbn [negb].
  destruct op as [| | | | | | | | | | [] | | | |]; cbn -[union singleton run_ops status_ok];
    change (status_ok Status_OK) with true; cbv iota; rewrite IH; f_equal; try done.
  all: by rewrite (assoc_L (∪)), (comm_L (∪) (list_to_set _)).
Qed.

Section Reconcile.
Context {H : NPHash} (running recorded : gmap Z Z) (seq_per_batch batch_per_txn : bool).

Definition cf_type (cf : Z) : RecoveryType :=
  match running !! cf with
  | Some ts_sz => GetRecoveryType ts_sz (recorded !! cf)
  | None => kRecoverNoop
  end.
Definition reconcile_key (cf : Z) (k : bytes) : bytes :=
  match cf_type cf with
  | kStripTimestamp => StripTimestampFromUserKey k (default 0 (recorded !! cf))
  | kPadTimestamp => k ++ sfill (default 0 (running !! cf)) Byte.x00
  | _ => k
  end.
(** What the new batch holds: the entries with their new keys; log data are left out. *)
Definition reconcile (ops : list BatchOp) : list BatchOp :=
  map (map_keys reconcile_key) (filter (fun op => negb (is_log_data op)) ops).

(** The keys of a family that lost its timestamps have one. *)
Definition keys_have_timestamps (op : BatchOp) : bool :=
  match op_cf op with
  | Some cf =>
      negb (bool_decide (cf_type cf = kStripTimestamp)) ||
      forallb (fun k => default 0 (recorded !! cf) <=? slen k) (op_keys op)
  | None => true
  end.
(** The operations that a log in the format of the running transaction policy has. *)
Definition reconcilable (op : BatchOp) : Prop :=
  op_ok (map_keys reconcile_key op) /\ keys_have_timestamps op = true /\
  match op with
  | BTimedPut _ _ _ t => t <> 2 ^ 64 - 1
  | BPutEntity _ _ entity =>
      exists columns, columns_ok columns /\ WideColumn_Serialize columns [] = inl entity
  | BBeginPrepare k =>
      k = (if seq_per_batch then BeginPersistedPrepare else BeginPrepare) /\
      (seq_per_batch || batch_per_txn) = true
  | _ => True
  end.

Definition has_type (t : RecoveryType) (op : BatchOp) : bool :=
  match op_cf op with Some cf => bool_decide (cf_type cf = t) | None => false end.
Definition is_different (op : BatchOp) : bool :=
  match op_cf op with Some cf => negb (bool_decide (cf_type cf = kRecoverNoop)) | None => false end.

Lemma check_column_families_cons cf ids need :
  check_column_families (cf :: ids) running recorded kReconcileInconsistency need =
  match cf_type cf with
  | kRecoverNoop => check_column_families ids running recorded kReconcileInconsistency need
  | kUnrecoverable => (Status_InvalidArgument, need)
  | _ => check_column_families ids running recorded kReconcileInconsistency true
  end.
Proof. unfold cf_type. cbn. destruct (running !! cf); [| done]. by destruct (GetRecoveryType _ _). Qed.

Lemma check_column_families_spec ids need :
  check_column_families ids running recorded kReconcileInconsistency need =
  if existsb (fun cf => bool_decide (cf_type cf = kUnrecoverable)) ids then
    (Status_InvalidArgument, (check_column_families ids running recorded kReconcileInconsistency need).2)
  else (Status_OK, need || existsb (fun cf => negb (bool_decide (cf_type cf = kRecoverNoop))) ids).
Proof.
  revert need. induction ids as [| cf ids IH]; intros need; cbn [existsb]; [by rewrite orb_false_r |].
  rewrite check_column_families_cons. destruct (cf_type cf); cbn; rewrite ?orb_true_r; try done.
  all: rewrite IH at 1; by destruct (existsb _ ids).
Qed.

(** The families of the entries, in any order. *)
Lemma existsb_families (P : Z -> bool) ops :
  existsb P (elements (list_to_set (omap op_cf ops) ∪ ∅ : gset Z)) =
  existsb (fun op => match op_cf op with Some cf => P cf | None => false end) ops.
Proof.
  apply eq_iff_eq_true. rewrite !existsb_exists. split.
  - intros (cf & Hin & Hcf). apply list_elem_of_In in Hin. rewrite elem_of_elements in Hin.
    rewrite elem_of_union, elem_of_list_to_set, list_elem_of_omap in Hin.
    destruct Hin as [(op & Hop & E) | Hin]; [| set_solver]. exists op. rewrite E. by rewrite <- list_elem_of_In.
  - intros (op & Hop & Hcf). destruct (op_cf op) as [cf |] eqn:E; [| done]. exists cf.
    rewrite <- list_elem_of_In, elem_of_elements, elem_of_union, elem_of_list_to_set, list_elem_of_omap.
    split; [| done]. left. exists op. by rewrite list_elem_of_In.
Qed.

Lemma CheckWriteBatch_spec b ops : holds b ops ->
  exists need, CheckWriteBatchTimestampSizeConsistency b running recorded kReconcileInconsistency =
    Some (if existsb (has_type kUnrecoverable) ops then (Status_InvalidArgument, need)
          else (Status_OK, existsb is_different ops)).
Proof.
  intros Hb. unfold CheckWriteBatchTimestampSizeConsistency, CollectColumnFamilyIdsFromWriteBatch.
  rewrite (Iterate_holds _ op_ok b ops ∅ Hb); [| by apply read_only_respectful | apply Hb | done].
  rewrite collect_ops. change (status_ok Status_OK) with true. cbn [negb].
  rewrite check_column_families_spec, !existsb_families. by eexists.
Qed.

Lemma all_consistent ops : AllRunningColumnFamiliesConsistent running recorded = true ->
  existsb (has_type kUnrecoverable) ops = false /\ existsb is_different ops = false.
Proof.
  unfold AllRunningColumnFamiliesConsistent. rewrite forallb_forall. intros Ha.
  assert (forall cf, cf_type cf = kRecoverNoop) as Ht.
  { intros cf. unfold cf_type. destruct (running !! cf) as [ts_sz |] eqn:E; [| done].
    apply elem_of_map_to_list, list_elem_of_In, Ha in E. by apply bool_decide_eq_true in E. }
  split; apply not_true_is_false; rewrite existsb_exists; intros (op & _ & Hop);
    unfold has_type, is_different in Hop; destruct (op_cf op); try done; by rewrite Ht in Hop.
Qed.

Lemma Reconcile_ok st cf k : cf_type cf <> kUnrecoverable ->
  exists st', ReconcileTimestampDiscrepancy running recorded st cf k = (inl (reconcile_key cf k), st') /\
    new_batch_ st' = new_batch_ st.
Proof.
  unfold ReconcileTimestampDiscrepancy, reconcile_key, cf_type. destruct (running !! cf) as [ts_sz |]; [| by exists st].
  intros Ht. destruct (GetRecoveryType ts_sz (recorded !! cf)); [by exists st | done | by exists (set_diff st)..].
Qed.

(** A call with which the handler puts an operation in the new batch. *)
Definition recovery_call (op : BatchOp) : BatchCall :=
  match op with
  | BPut cf k v => CallPut cf k v
  | BTimedPut cf k v t => CallTimedPut cf k v t
  | BPutEntity cf k v =>
      CallPutEntity cf k (match WideColumn_Deserialize v with inl columns => columns | inr _ => [] end)
  | BDelete cf k => CallDelete cf k
  | BSingleDelete cf k => CallSingleDelete cf k
  | BDeleteRange cf k v => CallDeleteRange cf k v
  | BMerge cf k v => CallMerge cf k v
  | BPutBlobIndex cf k v => CallPutBlobIndex cf k v
  | BLogData s => CallPutLogData s
  | BNoop => CallInsertNoop
  | BBeginPrepare _ => CallInsertBeginPrepare (negb seq_per_batch)
  | BEndPrepare xid => CallInsertEndPrepare xid
  | BCommit xid => CallMarkCommit xid
  | BCommitWithTimestamp xid ts => CallMarkCommitWithTimestamp xid ts
  | BRollback xid => CallMarkRollback xid
  end.

Lemma recovery_call_op op : reconcilable op ->
  call_op (recovery_call (map_keys reconcile_key op)) = Some (map_keys reconcile_key op).
Proof.
  intros (_ & _ & Hop). destruct op; cbn -[WideColumn_Deserialize]; try done.
  - by rewrite (proj2 (Z.eqb_neq _ _) Hop).
  - destruct Hop as (columns & Hc & E). rewrite (Deserialize_Serialize columns) by done.
    rewrite SortColumns_sorted, E by apply Hc. done.
  - destruct Hop as [-> _]. by destruct seq_per_batch.
Qed.
Definition recovery_handler : Handler TimestampRecoveryHandler :=
  TimestampRecoveryHandler_handler running recorded (negb seq_per_batch) (negb batch_per_txn).

(** The new batch holds these operations. *)
Definition rebuilding (st : TimestampRecoveryHandler) (ops : list BatchOp) : Prop :=
  batch_of (new_batch_ st) ops /\ max_bytes_ (new_batch_ st) = 0.

Lemma recovery_handler_call e rest st empty op : is_log_data op = false -> reconcilable op ->
  has_type kUnrecoverable op = false ->
  exists st', new_batch_ st' = new_batch_ st /\
    (handler_call recovery_handler e rest st empty op).1 =
    on_new_batch st' (fun b => call b (recovery_call (map_keys reconcile_key op))).
Proof.
  intros Hlog (_ & _ & Hop) Ht.
  assert (forall cf k st1, op_cf op = Some cf ->
    exists st', ReconcileTimestampDiscrepancy running recorded st1 cf k = (inl (reconcile_key cf k), st') /\
      new_batch_ st' = new_batch_ st1) as Hrec.
  { intros cf k st1 E. apply Reconcile_ok. unfold has_type in Ht. rewrite E in Ht. by apply bool_decide_eq_false in Ht. }
  destruct op; try done; cbn [handler_call recovery_handler TimestampRecoveryHandler_handler fst PutCF TimedPutCF
    PutEntityCF DeleteCF SingleDeleteCF DeleteRangeCF MergeCF PutBlobIndexCF MarkBeginPrepare MarkEndPrepare MarkNoop
    MarkRollback MarkCommit MarkCommitWithTimestamp slice_before s_data map_keys recovery_call call];
    try (exists st; by split).
  all: try (destruct (Hrec cf key st eq_refl) as (st' & E & Hst'); exists st'; split; [done |];
    unfold recover_entry; by rewrite E).
  - destruct (Hrec cf key st eq_refl) as (st' & E & Hst'). exists st'. split; [done |].
    destruct Hop as (columns & Hc & Es). unfold Recovery_PutEntityCF.
    by rewrite E, (Deserialize_Serialize columns).
  - destruct (Hrec cf begin_key st eq_refl) as (st' & E & Hst'). destruct (Hrec cf end_key st' eq_refl) as (st2 & E2 & Hst2).
    exists st2. split; [congruence |]. unfold Recovery_DeleteRangeCF. by rewrite E, E2.
  - destruct Hop as [-> Hpol]. exists st. split; [done |]. unfold handler_call, recovery_handler,
      TimestampRecoveryHandler_handler, Recovery_MarkBeginPrepare.
    destruct seq_per_batch; cbn in Hpol |- *; [| subst batch_per_txn]; reflexivity.
Qed.

Lemma num_counted_reconcile ops : num_counted (reconcile ops) = num_counted ops.
Proof.
  induction ops as [| op ops IH]; [done |]. rewrite num_counted_cons, <- IH. unfold reconcile.
  rewrite filter_cons. destruct op; cbn [is_log_data negb map]; rewrite ?decide_True, ?decide_False by done;
    cbn [map]; rewrite ?num_counted_cons; done.
Qed.

Lemma run_recovery e ops : forall st empty done, rebuilding st done -> Forall reconcilable ops ->
  existsb (has_type kUnrecoverable) ops = false -> num_counted (done ++ reconcile ops) < 2 ^ 32 ->
  exists st', run_ops recovery_handler e st empty ops = (Status_OK, st') /\ rebuilding st' (done ++ reconcile ops).
Proof.
  induction ops as [| op ops IH]; intros st empty done Hst Hops Ht Hn.
  { exists st. cbn. by rewrite app_nil_r. }
  apply list.Forall_cons in Hops as [Hop Hops]. cbn [existsb] in Ht. apply orb_false_iff in Ht as [Ht Hts].
  cbn [run_ops]. change (Continue recovery_handler st) with (true, st). cbn [negb].
  destruct (is_log_data op) eqn:Hlog.
  { destruct op; try done. cbn [handler_call]. change (status_ok Status_OK) with true. by apply IH. }
  assert (reconcile (op :: ops) = map_keys reconcile_key op :: reconcile ops) as Er
    by (unfold reconcile; rewrite filter_cons, Hlog; done).
  rewrite Er in Hn |- *. destruct (recovery_handler_call e (slen (ops_bytes ops)) st empty op Hlog Hop Ht) as (st1 & Enew & Ecall).
  destruct Hst as [Hb Hmax]. rewrite <- Enew in Hb, Hmax. pose proof Hn as Hn'. rewrite num_counted_app in Hn.
  pose proof (num_counted_nonneg (map_keys reconcile_key op :: reconcile ops)).
  destruct (call_unlimited (new_batch_ st1) done (recovery_call (map_keys reconcile_key op)) _ Hb Hmax ltac:(lia)
    ltac:(by destruct op) (recovery_call_op op Hop) (proj1 Hop)) as (b' & Ec & Hb' & Hmax').
  unfold on_new_batch in Ecall. rewrite Ec in Ecall. destruct (handler_call _ _ _ _ _ _) as [r empty'].
  cbn [fst] in Ecall. subst r. change (status_ok Status_OK) with true.
  destruct (IH {| new_batch_ := b'; new_batch_diff_from_orig_batch_ := new_batch_diff_from_orig_batch_ st1 |}
    empty' (done ++ [map_keys reconcile_key op])) as (st2 & E2 & Hst2); try done.
  { by rewrite <- app_assoc. }
  exists st2. split; [done |]. by rewrite <- app_assoc in Hst2.
Qed.

(** The outcome for a batch with operations. *)
Definition reconciled (b : WriteBatch) (ops : list BatchOp) (r : Status * option WriteBatch) : Prop :=
  if existsb (has_type kUnrecoverable) ops then r = (Status_InvalidArgument, None)
  else if existsb is_different ops then
    exists new, r = (Status_OK, Some new) /\ batch_of new (reconcile ops) /\
      WriteBatchInternal_Sequence new = WriteBatchInternal_Sequence b
  else r = (Status_OK, None).

Lemma Handle_spec b ops : holds b ops -> Forall reconcilable ops -> num_counted ops < 2 ^ 32 ->
  exists r, HandleWriteBatchTimestampSizeDifference b running recorded kReconcileInconsistency
    seq_per_batch batch_per_txn = Some r /\ reconciled b ops r.
Proof.
  intros Hb Hops Hn. unfold HandleWriteBatchTimestampSizeDifference, reconciled.
  destruct (AllRunningColumnFamiliesConsistent running recorded) eqn:Hall.
  { destruct (all_consistent ops Hall) as [-> ->]. by eexists. }
  destruct (CheckWriteBatch_spec b ops Hb) as [need ->].
  destruct (existsb (has_type kUnrecoverable) ops) eqn:Hu; [by eexists |].
  change (status_ok Status_OK) with true. cbn [negb].
  destruct (existsb is_different ops); [| by eexists]. fold recovery_handler.
  rewrite (Iterate_holds _ op_ok b ops _ Hb); [| by apply read_only_respectful | apply Hb | done].
  destruct (run_recovery (slen (rep_ b)) ops MakeTimestampRecoveryHandler true []) as (st & -> & Hst & _); try done.
  { split; [apply new_batch_of | done]. }
  { cbn [app]. by rewrite num_counted_reconcile. }
  change (status_ok Status_OK) with true. cbn [negb]. eexists. split; [done |]. eexists. split; [done |].
  apply SetSequence_batch; [done |]. apply DecodeFixed64_fits.
Qed.
End Reconcile.

(** Timestamps that were added are removed again. *)
Lemma reconcile_key_back running cf k : (forall cf t, running !! cf = Some t -> 0 < t) ->
  reconcile_key ((fun _ => 0) <$> running) running cf (reconcile_key running ∅ cf k) = k.
Proof.
  intros Hpos. unfold reconcile_key, cf_type. rewrite lookup_fmap, lookup_empty.
  destruct (running !! cf) as [t |] eqn:E; [| done]. specialize (Hpos cf t E). cbn.
  unfold GetRecoveryType. rewrite (proj2 (Z.eqb_neq t 0)) by lia. cbn.
  unfold StripTimestampFromUserKey. rewrite slen_app, slen_sfill by lia. rewrite stake_app_exact by lia. done.
Qed.
Lemma reconcile_back running ops : (forall cf t, running !! cf = Some t -> 0 < t) ->
  reconcile ((fun _ => 0) <$> running) running (reconcile running ∅ ops) =
  filter (fun op => negb (is_log_data op)) ops.
Proof.
  intros Hpos. induction ops as [| op ops IH]; [done |]. unfold reconcile in *.
  rewrite filter_cons. destruct (is_log_data op) eqn:Hl; simpl; [done |].
  rewrite filter_cons. replace (is_log_data (map_keys _ op)) with false by (by destruct op). simpl.
  rewrite IH. f_equal. destruct op; cbn [map_keys]; try done; by rewrite ?reconcile_key_back.
Qed.

(** Which families differ when the timestamps are disabled. *)
Lemma disabled_type running cf :
  cf_type ((fun _ => 0) <$> running) running cf =
  match running !! cf with Some _ => kStripTimestamp | None => kRecoverNoop end.
Proof. unfold cf_type. rewrite lookup_fmap. by destruct (running !! cf). Qed.
Lemma disabled_different running ops : existsb (is_different running ∅) ops = true ->
  let running' := (fun _ => 0) <$> running in
  existsb (has_type running' running kUnrecoverable) (reconcile running ∅ ops) = false /\
  existsb (is_different running' running) (reconcile running ∅ ops) = true.
Proof.
  intros (op & Hin & Hd)%existsb_exists running'. assert (forall f, op_cf (map_keys f op) = op_cf op) as Ecf
    by (intros f; by destruct op). split.
  - apply not_true_is_false. intros (op' & _ & Ht)%existsb_exists. unfold has_type in Ht.
    destruct (op_cf op') as [cf |]; [| done]. apply bool_decide_eq_true in Ht. unfold running' in Ht.
    rewrite disabled_type in Ht. by destruct (running !! cf).
  - apply existsb_exists. exists (map_keys (reconcile_key running ∅) op). split.
    + apply in_map, list_elem_of_In, list_elem_of_filter. split; [| by apply list_elem_of_In].
      unfold is_different in Hd. by destruct op.
    + unfold is_different in Hd |- *. rewrite Ecf. destruct (op_cf op) as [cf |]; [| done]. unfold running'.
      rewrite disabled_type. unfold cf_type in Hd. by destruct (running !! cf).
Qed.

(** * Theorems *)


(** enabling timestamps and disabling them again. A batch that was logged without timestamps
    and is recovered by a database with timestamps, and then by one without, has the keys it had:
    the second recovery undoes the padding of the first. *)
Theorem enable_then_disable_timestamps {H : NPHash} (running : gmap Z Z) (b b1 : WriteBatch) (ops : list BatchOp)
    (Hpos : forall cf t, running !! cf = Some t -> 0 < t) (Hb : holds b ops) (Hn : num_counted ops < 2 ^ 32)
    (Hops : Forall (reconcilable running ∅ false true) ops)
    (Hback : Forall (reconcilable ((fun _ => 0) <$> running) running false true) (reconcile running ∅ ops))
    (E1 : HandleWriteBatchTimestampSizeDifference b running ∅ kReconcileInconsistency false true =
          Some (Status_OK, Some b1)) :
  exists b2, HandleWriteBatchTimestampSizeDifference b1 ((fun _ => 0) <$> running) running
      kReconcileInconsistency false true = Some (Status_OK, Some b2) /\
    batch_of b2 (filter (fun op => negb (is_log_data op)) ops) /\
    WriteBatchInternal_Sequence b2 = WriteBatchInternal_Sequence b.
Proof.
  destruct (Handle_spec running ∅ false true b ops Hb Hops Hn) as (r & E & Hr).
  rewrite E in E1. injection E1 as ->. unfold reconciled in Hr.
  destruct (existsb _ ops) eqn:Hu in Hr; [done |]. destruct (existsb _ ops) eqn:Hd in Hr; [| done].
  destruct Hr as (b1' & [= <-] & Hb1 & Hseq).
  destruct (Handle_spec ((fun _ => 0) <$> running) running false true b1 _ (batch_holds _ _ Hb1) Hback)
    as (r2 & E2 & Hr2); [by rewrite num_counted_reconcile |].
  rewrite E2. unfold reconciled in Hr2. rewrite reconcile_back in Hr2 by done.
  destruct (disabled_different running ops Hd) as [Hu' Hd']. rewrite Hu', Hd' in Hr2.
  destruct Hr2 as (b2 & -> & Hb2 & Hseq2). exists b2. split_and!; [done.. | congruence].
Qed.

(** A put and a range deletion in a family with timestamps and a put in one without; the
    timestamps have eight bytes. *)
Definition ex_udt_ops : list BatchOp :=
  [BPut 1 [Byte.x61] [Byte.x62]; BLogData [Byte.x7a]; BDeleteRange 1 [Byte.x61] [Byte.x63]; BPut 2 [Byte.x64] []].
Definition ex_udt_batch : WriteBatch :=
  WriteBatch_of_rep (rep_of (EncodeFixed64 7) ex_udt_ops).
Definition ex_udt_running : gmap Z Z := {[1 := 8]}.
Lemma ex_udt_holds : holds ex_udt_batch ex_udt_ops.
Proof. split; [by exists (EncodeFixed64 7) |]. repeat constructor; by vm_compute. Qed.


Definition ex_udt_enabled : WriteBatch := Eval vm_compute in
  match HandleWriteBatchTimestampSizeDifference (H := ex_hash) ex_udt_batch ex_udt_running ∅
      kReconcileInconsistency false true with
  | Some (_, Some b) => b
  | _ => ex_udt_batch
  end.
Lemma enable_then_disable_timestamps_witness :
  exists b2, HandleWriteBatchTimestampSizeDifference (H := ex_hash) ex_udt_enabled
      ((fun _ => 0) <$> ex_udt_running) ex_udt_running kReconcileInconsistency false true = Some (Status_OK, Some b2) /\
    batch_of (H := ex_hash) b2 (filter (fun op => negb (is_log_data op)) ex_udt_ops) /\
    WriteBatchInternal_Sequence b2 = WriteBatchInternal_Sequence ex_udt_batch.
Proof.
  apply (enable_then_disable_timestamps (H := ex_hash) ex_udt_running ex_udt_batch ex_udt_enabled ex_udt_ops);
    [| exact ex_udt_holds | done | | |].
  - intros cf t Et. unfold ex_udt_running in Et. apply lookup_singleton_Some in Et as [_ <-]. done.
  - repeat constructor; by vm_compute.
  - repeat constructor; by vm_compute.
  - vm_compute. reflexivity.
Defined.
