(* ===== verification/LogsWithPrepTracker.v ===== *)
(** db/logs_with_prep_tracker.{h,cc}: the logs that hold the prepare sections of
    transactions whose outcome is not yet in the tables, and the smallest of them.

    The two mutexes only make each operation atomic. *)

From stdpp Require Import gmap sorting.
From S2P Require Import Prelude.

Record LogsWithPrepTracker := {
  (** The logs with their number of prepare sections, in ascending order. *)
  logs_with_prep_ : list (Z * Z);
  prepared_section_completed_ : gmap Z Z;
}.
Definition MakeLogsWithPrepTracker : LogsWithPrepTracker :=
  {| logs_with_prep_ := []; prepared_section_completed_ := ∅ |}.

Definition MarkLogAsHavingPrepSectionFlushed (t : LogsWithPrepTracker) (log : Z) : LogsWithPrepTracker :=
  {| logs_with_prep_ := logs_with_prep_ t;
     prepared_section_completed_ :=
       match prepared_section_completed_ t !! log with
       | None => <[log := 1]> (prepared_section_completed_ t)
       | Some n => <[log := n + 1]> (prepared_section_completed_ t)
       end |}.

(** The search from the end, on the reversed vector. *)
Fixpoint mark_from_end (rlogs : list (Z * Z)) (log : Z) : list (Z * Z) :=
  match rlogs with
  | [] => [(log, 1)]
  | (l, cnt) :: rest =>
      if l >=? log then
        if l =? log then (l, cnt + 1) :: rest else (l, cnt) :: mark_from_end rest log
      else (log, 1) :: rlogs
  end.
Definition MarkLogAsContainingPrepSection (t : LogsWithPrepTracker) (log : Z) : LogsWithPrepTracker :=
  {| logs_with_prep_ := rev (mark_from_end (rev (logs_with_prep_ t)) log);
     prepared_section_completed_ := prepared_section_completed_ t |}.

Fixpoint find_min_outstanding (logs : list (Z * Z)) (completed : gmap Z Z) : Z * LogsWithPrepTracker :=
  match logs with
  | [] => (0, {| logs_with_prep_ := []; prepared_section_completed_ := completed |})
  | (min_log, cnt) :: rest =>
      match completed !! min_log with
      | Some n =>
          if n <? cnt then
            (min_log, {| logs_with_prep_ := logs; prepared_section_completed_ := completed |})
          else find_min_outstanding rest (delete min_log completed)
      | None => (min_log, {| logs_with_prep_ := logs; prepared_section_completed_ := completed |})
      end
  end.
Definition FindMinLogContainingOutstandingPrep (t : LogsWithPrepTracker) : Z * LogsWithPrepTracker :=
  find_min_outstanding (logs_with_prep_ t) (prepared_section_completed_ t).

(** * What the tracker tracks *)

Inductive TrackerStep :=
  | Prepared (log : Z)
  | Flushed (log : Z)
  | FindMin.

Definition tracker_step (t : LogsWithPrepTracker) (s : TrackerStep) : LogsWithPrepTracker :=
  match s with
  | Prepared log => MarkLogAsContainingPrepSection t log
  | Flushed log => MarkLogAsHavingPrepSectionFlushed t log
  | FindMin => (FindMinLogContainingOutstandingPrep t).2
  end.

(** The number of prepare sections of a log that are not flushed. *)
Definition outstanding (steps : list TrackerStep) (log : Z) : Z :=
  foldr (fun s n => match s with
                    | Prepared l => if l =? log then n + 1 else n
                    | Flushed l => if l =? log then n - 1 else n
                    | FindMin => n
                    end) 0 steps.

(** Only sections that were prepared are flushed; log numbers are not 0. *)
Inductive tracked : list TrackerStep -> Prop :=
  | tracked_nil : tracked []
  | tracked_prepared steps log : tracked steps -> 0 < log -> tracked (Prepared log :: steps)
  | tracked_flushed steps log : tracked steps -> 0 < outstanding steps log -> tracked (Flushed log :: steps)
  | tracked_find steps : tracked steps -> tracked (FindMin :: steps).

(** The counters agree with the steps (the newest first). *)
Definition count_of (logs : list (Z * Z)) (log : Z) : Z := foldr (fun p n => (if p.1 =? log then p.2 else 0) + n) 0 logs.
Record tracker_ok (t : LogsWithPrepTracker) (f : Z -> Z) : Prop := {
  ok_sorted : StronglySorted (fun a b => a.1 < b.1) (logs_with_prep_ t);
  ok_positive : Forall (fun p => 0 < p.1 /\ 0 < p.2) (logs_with_prep_ t);
  ok_counts log : count_of (logs_with_prep_ t) log - default 0 (prepared_section_completed_ t !! log) = f log;
  ok_completed log n : prepared_section_completed_ t !! log = Some n -> 0 < n;
  ok_nonneg log : 0 <= f log;
}.

Lemma count_of_cons p l log : count_of (p :: l) log = (if p.1 =? log then p.2 else 0) + count_of l log.
Proof. done. Qed.
Lemma count_of_absent logs log : Forall (fun p => p.1 <> log) logs -> count_of logs log = 0.
Proof. induction 1 as [| p l Hp _ IH]; [done |]. by rewrite count_of_cons, (proj2 (Z.eqb_neq _ _)). Qed.
Lemma count_of_app l l' log : count_of (l ++ l') log = count_of l log + count_of l' log.
Proof.
  induction l as [| p l IH]; [done |]. rewrite <- app_comm_cons, !count_of_cons, IH. lia.
Qed.
Lemma count_of_rev l log : count_of (rev l) log = count_of l log.
Proof.
  induction l as [| p l IH]; [done |]. cbn [rev]. rewrite count_of_app, IH, !count_of_cons.
  change (count_of [] log) with 0. lia.
Qed.

Lemma mark_from_end_spec rlogs log : 0 < log ->
  StronglySorted (fun a b => b.1 < a.1) rlogs -> Forall (fun p => 0 < p.1 /\ 0 < p.2) rlogs ->
  StronglySorted (fun a b => b.1 < a.1) (mark_from_end rlogs log) /\
  Forall (fun p => 0 < p.1 /\ 0 < p.2) (mark_from_end rlogs log) /\
  (forall m, Forall (fun p => p.1 < m) rlogs -> log < m -> Forall (fun p => p.1 < m) (mark_from_end rlogs log)) /\
  forall l, count_of (mark_from_end rlogs log) l = count_of rlogs l + (if log =? l then 1 else 0).
Proof.
  intros Hlog. induction 1 as [| [l cnt] rest Hs IH Hf]; intros Hpos; cbn [mark_from_end].
  { split_and!; [repeat constructor | by repeat constructor | intros m _ ?; by repeat constructor |].
    intros l. rewrite count_of_cons. simpl. destruct (log =? l); lia. }
  apply list.Forall_cons in Hpos as [Hp Hpos]. destruct (IH Hpos) as (IH1 & IH2 & IH3 & IH4).
  rewrite Z.geb_leb. destruct (Z.leb_spec log l); [destruct (Z.eqb_spec l log) as [-> | Hne] |].
  - split_and!; [by constructor | constructor; [simpl in *; lia | done] | | ].
    + intros m Hm _. by apply list.Forall_cons in Hm as [? ?]; constructor.
    + intros l. rewrite !count_of_cons. cbn [fst snd]. destruct (log =? l); lia.
  - split_and!; [constructor; [done | apply IH3; [done | simpl; lia]] | by constructor | |].
    + intros m Hm Hlm. apply list.Forall_cons in Hm as [? ?]. constructor; [done | by apply IH3].
    + intros k. rewrite !count_of_cons, IH4. lia.
  - split_and!; [constructor; [by constructor |] | constructor; [simpl; lia | by constructor] | |].
    + constructor; [done |]. eapply list.Forall_impl; [apply Hf |]. simpl. lia.
    + intros m Hm Hlm. by constructor.
    + intros k. rewrite !count_of_cons. cbn [fst snd]. destruct (log =? k); lia.
Qed.

(** A log that the vector does not list has no outstanding section. *)
Lemma unlisted_zero t f log : tracker_ok t f -> count_of (logs_with_prep_ t) log = 0 -> f log = 0.
Proof.
  intros Hok Hc. pose proof (ok_counts _ _ Hok log) as E. pose proof (ok_nonneg _ _ Hok log).
  pose proof (ok_completed _ _ Hok log) as Hp. rewrite Hc in E.
  destruct (prepared_section_completed_ t !! log) as [n |]; cbn in E; [specialize (Hp n eq_refl) |]; lia.
Qed.

Lemma find_min_spec f : forall logs completed,
  tracker_ok {| logs_with_prep_ := logs; prepared_section_completed_ := completed |} f ->
  let r := find_min_outstanding logs completed in
  tracker_ok r.2 f /\
  (forall log, 0 < log < r.1 -> f log = 0) /\
  (if r.1 =? 0 then forall log, f log = 0 else 0 < r.1 /\ 0 < f r.1).
Proof.
  induction logs as [| [l cnt] rest IH]; intros completed Hok; cbn [find_min_outstanding].
  { assert (forall log, f log = 0) as Hz by (intros log; by apply (unlisted_zero _ f log Hok)). done. }
  pose proof (ok_sorted _ _ Hok) as Hs. pose proof (ok_positive _ _ Hok) as Hpos. cbn in Hs, Hpos.
  apply StronglySorted_inv in Hs as [Hs Hf]. apply list.Forall_cons in Hpos as [[Hp1 Hp2] Hpos]. cbn in Hp1, Hp2.
  assert (forall k, k <= l -> count_of rest k = 0) as Habs.
  { intros k Hk. apply count_of_absent. eapply list.Forall_impl; [apply Hf |]. simpl. lia. }
  assert (forall log, 0 < log < l -> f log = 0) as Hbelow.
  { intros log Hl. apply (unlisted_zero _ f log Hok). cbn [logs_with_prep_].
    rewrite count_of_cons, (proj2 (Z.eqb_neq _ _)), Habs by (simpl; lia). lia. }
  pose proof (ok_counts _ _ Hok l) as Hc. cbn [logs_with_prep_ prepared_section_completed_] in Hc.
  rewrite count_of_cons in Hc. cbn [fst snd] in Hc. rewrite Z.eqb_refl, Habs in Hc by lia.
  destruct (completed !! l) as [n |] eqn:En; cbn in Hc;
    [destruct (Z.ltb_spec n cnt) |]; cbn [fst snd];
    [rewrite (proj2 (Z.eqb_neq l 0)) by lia; split_and!; (done || lia) | |
     rewrite (proj2 (Z.eqb_neq l 0)) by lia; split_and!; (done || lia)].
  pose proof (ok_nonneg _ _ Hok l). apply IH. split; cbn [logs_with_prep_ prepared_section_completed_]; try done.
  - intros log. pose proof (ok_counts _ _ Hok log) as Hcl. cbn [logs_with_prep_ prepared_section_completed_] in Hcl.
    rewrite count_of_cons in Hcl. cbn [fst snd] in Hcl. destruct (Z.eqb_spec l log) as [E | Hne]; [subst log |].
    + rewrite lookup_delete_eq, Habs by lia. cbn. lia.
    + rewrite lookup_delete_ne by done. lia.
  - intros log k Hk. apply lookup_delete_Some in Hk as [_ Hk]. by apply (ok_completed _ _ Hok log).
  - apply (ok_nonneg _ _ Hok).
Qed.

Lemma tracked_outstanding steps : tracked steps -> forall log, 0 <= outstanding steps log.
Proof.
  induction 1 as [| s l Hs IH Hl | s l Hs IH Hl | s Hs IH]; intros log; cbn; [done | | | apply IH].
  - specialize (IH log). unfold outstanding in IH. destruct (l =? log); lia.
  - specialize (IH log). unfold outstanding in *. destruct (Z.eqb_spec l log) as [E |]; [subst log |]; lia.
Qed.

Definition tracker_after (steps : list TrackerStep) : LogsWithPrepTracker :=
  foldr (fun s t => tracker_step t s) MakeLogsWithPrepTracker steps.

Lemma tracker_after_ok steps : tracked steps -> tracker_ok (tracker_after steps) (outstanding steps).
Proof.
  intros Ht. pose proof (tracked_outstanding _ Ht) as Hnn. revert Hnn.
  induction Ht as [| s l Hs IH Hl | s l Hs IH Hl | s Hs IH]; intros Hnn;
    try specialize (IH (tracked_outstanding _ Hs));
    try change (tracker_after (?x :: s)) with (tracker_step (tracker_after s) x).
  - split; cbn; [constructor | constructor | done | intros log n; by rewrite lookup_empty | done].
  - destruct (mark_from_end_spec (rev (logs_with_prep_ (tracker_after s))) l Hl) as (H1 & H2 & _ & H4).
    { apply StronglySorted_rev, IH. }
    { apply List.Forall_rev, IH. }
    split; cbn [tracker_step MarkLogAsContainingPrepSection logs_with_prep_ prepared_section_completed_];
      [apply (StronglySorted_rev _ _ H1) | by apply List.Forall_rev | | apply IH | done].
    intros log. rewrite count_of_rev, H4, count_of_rev. change (outstanding (Prepared l :: s) log) with (if l =? log then outstanding s log + 1 else outstanding s log).
    rewrite <- (ok_counts _ _ IH log). destruct (l =? log); lia.
  - split; cbn [tracker_step MarkLogAsHavingPrepSectionFlushed logs_with_prep_ prepared_section_completed_];
      [apply IH | apply IH | | | done].
    + intros log. change (outstanding (Flushed l :: s) log) with (if l =? log then outstanding s log - 1 else outstanding s log).
      rewrite <- (ok_counts _ _ IH log).
      destruct (Z.eqb_spec l log) as [E | Hne]; [subst log |];
        (destruct (prepared_section_completed_ (tracker_after s) !! l) eqn:El;
         rewrite ?lookup_insert_eq, ?lookup_insert_ne by done; cbn; rewrite ?El; cbn; lia).
    + intros log n. destruct (prepared_section_completed_ (tracker_after s) !! l) as [k |] eqn:El;
        rewrite lookup_insert_Some; intros [[<- <-] | [_ Hn]]; try lia;
        pose proof (ok_completed _ _ IH l) as Hk; rewrite ?El in Hk; try (by apply (ok_completed _ _ IH log));
        specialize (Hk k eq_refl); lia.
  - cbn [tracker_step]. unfold FindMinLogContainingOutstandingPrep.
    destruct (find_min_spec (outstanding s) (logs_with_prep_ (tracker_after s))
      (prepared_section_completed_ (tracker_after s))) as [Hok _]; [by destruct (tracker_after s) | done].
Qed.

(** C28: whatever the order in which prepare sections are recorded and flushed, and however often
    the tracker was asked before, it answers with the smallest log that holds a prepare section
    that is not flushed, and with 0 when there is none. *)
Theorem min_outstanding_log (steps : list TrackerStep) (Ht : tracked steps) :
  let min := (FindMinLogContainingOutstandingPrep (tracker_after steps)).1 in
  (forall log, 0 < log -> outstanding steps log > 0 -> 0 < min <= log) /\
  (min <> 0 -> outstanding steps min > 0).
Proof.
  intros min. pose proof (tracker_after_ok steps Ht) as Hok.
  destruct (find_min_spec (outstanding steps) (logs_with_prep_ (tracker_after steps))
    (prepared_section_completed_ (tracker_after steps))) as (_ & H1 & H2); [by destruct (tracker_after steps) |].
  fold (FindMinLogContainingOutstandingPrep (tracker_after steps)) in H1, H2. fold min in H1, H2.
  destruct (Z.eqb_spec min 0) as [E | E].
  - split; [| done]. intros log _ Hlog. rewrite H2 in Hlog. lia.
  - split; [| lia]. intros log Hpos Hlog. destruct (Z.lt_ge_cases log min) as [Hlt |]; [| lia].
    rewrite H1 in Hlog; lia.
Qed.

Lemma min_outstanding_log_witness :
  let steps := [Flushed 4; FindMin; Prepared 7; Prepared 4; Prepared 5] in
  (FindMinLogContainingOutstandingPrep (tracker_after steps)).1 = 5 /\ outstanding steps 5 > 0.
Proof.
  intros steps. assert ((FindMinLogContainingOutstandingPrep (tracker_after steps)).1 = 5) as E by by vm_compute.
  split; [exact E |]. rewrite <- E at 1. apply (min_outstanding_log steps); [| by rewrite E].
  unfold steps. apply tracked_flushed; [| by vm_compute]. apply tracked_find.
  do 3 (apply tracked_prepared; [| lia]). apply tracked_nil.
Defined.

Lemma find_min_zero logs completed : Forall (fun p => 0 < p.1 /\ 0 < p.2) logs ->
  (find_min_outstanding logs completed).1 = 0 -> logs_with_prep_ (find_min_outstanding logs completed).2 = [].
Proof.
  intros Hp. revert completed. induction Hp as [| [l cnt] rest [Hl _] _ IH]; intros completed; cbn; [done |].
  cbn in Hl. destruct (completed !! l) as [n |]; [destruct (n <? cnt); [cbn; lia | apply IH] | cbn; lia].
Qed.

(** logs are released. When every prepare section has been flushed, the tracker holds no log
    back any more: the answer is 0, and nothing is left in its list or in its map, whatever the
    order of the sections and of their flushes was. *)
Theorem prepared_logs_released (steps : list TrackerStep) (Ht : tracked steps)
    (Hdone : forall log, outstanding steps log = 0) :
  FindMinLogContainingOutstandingPrep (tracker_after steps) = (0, MakeLogsWithPrepTracker).
Proof.
  pose proof (tracker_after_ok steps Ht) as Hok.
  destruct (find_min_spec (outstanding steps) (logs_with_prep_ (tracker_after steps))
    (prepared_section_completed_ (tracker_after steps))) as (Hok' & _ & H2); [by destruct (tracker_after steps) |].
  pose proof (find_min_zero _ (prepared_section_completed_ (tracker_after steps)) (ok_positive _ _ Hok)) as Hz.
  unfold FindMinLogContainingOutstandingPrep. destruct (find_min_outstanding _ _) as [min [logs completed]]. cbn in *.
  destruct (Z.eqb_spec min 0) as [-> | Hne]; [| rewrite Hdone in H2; lia]. rewrite (Hz eq_refl) in *.
  f_equal. unfold MakeLogsWithPrepTracker. f_equal. apply map_empty. intros log.
  pose proof (ok_counts _ _ Hok' log) as Hc. pose proof (ok_completed _ _ Hok' log) as Hp. cbn in Hc, Hp.
  rewrite Hdone in Hc. destruct (completed !! log) as [n |]; [specialize (Hp n eq_refl); cbn in Hc; lia | done].
Qed.

Lemma prepared_logs_released_witness :
  FindMinLogContainingOutstandingPrep (tracker_after [Flushed 5; Flushed 4; FindMin; Prepared 4; Prepared 5]) =
  (0, MakeLogsWithPrepTracker).
Proof.
  apply prepared_logs_released.
  - apply tracked_flushed; [| by vm_compute]. apply tracked_flushed; [| by vm_compute]. apply tracked_find.
    do 2 (apply tracked_prepared; [| lia]). apply tracked_nil.
  - intros log. unfold outstanding. cbn [foldr]. by destruct (5 =? log), (4 =? log).
Defined.
