(* ===== verification/MemTable.v ===== *)
(** db/memtable.{h,cc}: the memtable.

    Entries are the bytes that [Add] lays out in the arena. The table that keeps
    them in order ([MemTableRep]), the filter and the range tombstones are
    interfaces. Updates of an entry in place ([inplace_update_support]),
    [paranoid_memory_checks], the flush state and the times are not modelled. *)

From stdpp Require Import gmap.
From S2P Require Import Prelude Coding Comparator DbFormat Status WideColumns MergeOperator WriteBatch.

(** * Interfaces *)

(** The overload of [GetLengthPrefixedSlice] on a pointer: no check of the length. *)
Definition GetLengthPrefixedSlice_ptr (data : bytes) : bytes :=
  match GetVarint32Ptr data with Some (len, p) => stake len p | None => [] end.
Definition KeyComparator `{Comparator} (prefix_len_key1 prefix_len_key2 : bytes) : Z :=
  InternalKeyComparator_CompareKeySeq (GetLengthPrefixedSlice_ptr prefix_len_key1)
    (GetLengthPrefixedSlice_ptr prefix_len_key2).

(** A table of entries: [InsertKey] refuses an entry whose key is there already,
    [rep_Seek] is the sequence of entries that an iterator meets from a key on. *)
Class MemTableRep (R : Type) : Type := {
  rep_empty : R;
  InsertKey : R -> bytes -> bool * R;
  rep_contents : R -> list bytes;
  rep_Seek : R -> bytes -> list bytes;
}.

(** The filter of the memtable. *)
Class MemTableFilter (B : Type) : Type := {
  filter_Add : B -> bytes -> B;
  filter_MayContain : B -> bytes -> bool;
}.
Record SliceTransform := { InDomain : bytes -> bool; Transform : bytes -> bytes }.

(** [FragmentedRangeTombstoneIterator::MaxCoveringTombstoneSeqnum] of the entries of the range
    deletion table, for a read at a sequence number: the sequence number and the timestamp. *)
Class RangeTombstones : Type := {
  MaxCoveringTombstoneSeqnum : list bytes -> Z -> option bytes -> bytes -> Z * bytes;
}.

(** * Checksums of entries *)

Definition Protection_Encode (len val : Z) : bytes :=
  if len =? 1 then [byte.of_Z val]
  else if len =? 2 then EncodeFixed16 (u16 val)
  else if len =? 4 then EncodeFixed32 (u32 val)
  else if len =? 8 then EncodeFixed64 (u64 val)
  else [].
Definition Protection_Verify (len val : Z) (checksum_ptr : bytes) : bool :=
  if len =? 1 then byte_at checksum_ptr 0 =? u8 val
  else if len =? 2 then DecodeFixed16 checksum_ptr =? u16 val
  else if len =? 4 then DecodeFixed32 checksum_ptr =? u32 val
  else if len =? 8 then DecodeFixed64 checksum_ptr =? u64 val
  else false.

Section Checksums.
Context {H : NPHash}.

(** [kv_prot_info] or the checksum of the parts; the bytes after the entry. *)
Definition UpdateEntryChecksum (protection_bytes_per_key : Z) (kv_prot_info : option Z)
    (key value : bytes) (type s : Z) : bytes :=
  if protection_bytes_per_key =? 0 then []
  else Protection_Encode protection_bytes_per_key
         (match kv_prot_info with
          | None => ProtectS (ProtectKVO 0 key value type) s
          | Some info => info
          end).

Definition VerifyEncodedEntry (ts_sz_ : Z) (encoded : bytes) (kv_prot_info : Z) : Status :=
  match GetVarint32 encoded with
  | None => Status_Corruption
  | Some (ikey_len, encoded) =>
      if ikey_len <? 8 + ts_sz_ then Status_Corruption
      else if ikey_len >? slen encoded then Status_Corruption
      else
        let user_key_len := ikey_len - 8 in
        let key := stake user_key_len encoded in
        let encoded := sdrop user_key_len encoded in
        let '(sequence_number, value_type) := UnPackSequenceAndType (DecodeFixed64 encoded) in
        match GetVarint32 (sdrop 8 encoded) with
        | None => Status_Corruption
        | Some (value_len, encoded) =>
            if value_len <? slen encoded then Status_Corruption
            else if value_len >? slen encoded then Status_Corruption
            else ProtectionInfo_GetStatus
                   (StripKVO (StripS kv_prot_info sequence_number) key (stake value_len encoded)
                      value_type)
        end
  end.

Definition VerifyEntryChecksum (entry : bytes) (protection_bytes_per_key : Z) : Status :=
  if protection_bytes_per_key =? 0 then Status_OK
  else
    match GetVarint32Ptr entry with
    | None => Status_Corruption
    | Some (key_length, key_ptr) =>
        if key_length <? 8 then Status_Corruption
        else
          let user_key := stake (key_length - 8) key_ptr in
          let '(seq, type) := UnPackSequenceAndType (DecodeFixed64 (sdrop (key_length - 8) key_ptr)) in
          match GetVarint32Ptr (sdrop key_length key_ptr) with
          | None => Status_Corruption
          | Some (value_length, value_ptr) =>
              let value := stake value_length value_ptr in
              if Protection_Verify protection_bytes_per_key
                   (ProtectS (ProtectKVO 0 user_key value type) seq) (sdrop value_length value_ptr)
              then Status_OK else Status_Corruption
          end
    end.
End Checksums.

(** * The memtable *)

Record MemTableOptions (B : Type) := {
  protection_bytes_per_key : Z;
  memtable_whole_key_filtering : bool;
  prefix_extractor_ : option SliceTransform;
  merge_operator : option MergeOperator;
  persist_user_defined_timestamps_ : bool;
}.
Arguments protection_bytes_per_key {B}.
Arguments memtable_whole_key_filtering {B}.
Arguments prefix_extractor_ {B}.
Arguments merge_operator {B}.
Arguments persist_user_defined_timestamps_ {B}.

Record MemTable (R B : Type) := {
  table_ : R;
  range_del_table_ : R;
  is_range_del_table_empty_ : bool;
  data_size_ : Z;
  num_entries_ : Z;
  num_deletes_ : Z;
  num_range_deletes_ : Z;
  first_seqno_ : Z;
  earliest_seqno_ : Z;
  min_prep_log_referenced_ : Z;
  bloom_filter_ : option B;
  newest_udt_ : bytes;
}.
Arguments table_ {R B}.
Arguments range_del_table_ {R B}.
Arguments is_range_del_table_empty_ {R B}.
Arguments data_size_ {R B}.
Arguments num_entries_ {R B}.
Arguments num_deletes_ {R B}.
Arguments num_range_deletes_ {R B}.
Arguments first_seqno_ {R B}.
Arguments earliest_seqno_ {R B}.
Arguments min_prep_log_referenced_ {R B}.
Arguments bloom_filter_ {R B}.
Arguments newest_udt_ {R B}.

(** [MemTablePostProcessInfo]. *)
Record MemTablePostProcessInfo := {
  post_data_size : Z;
  post_num_entries : Z;
  post_num_deletes : Z;
  post_num_range_deletes : Z;
}.

Section MemTable.
Context {C : Comparator} {TC : TimestampComparator C} {R B : Type} {MR : MemTableRep R}
  {MF : MemTableFilter B} {H : NPHash} {RT : RangeTombstones}.
Context (moptions_ : MemTableOptions B).

Definition MakeMemTable (latest_seq : Z) (bloom : option B) : MemTable R B :=
  {| table_ := rep_empty; range_del_table_ := rep_empty; is_range_del_table_empty_ := true;
     data_size_ := 0; num_entries_ := 0; num_deletes_ := 0; num_range_deletes_ := 0;
     first_seqno_ := 0; earliest_seqno_ := latest_seq; min_prep_log_referenced_ := 0;
     bloom_filter_ := bloom; newest_udt_ := [] |}.

Definition IsEmpty (m : MemTable R B) : bool := first_seqno_ m =? 0.

(** ** Add *)

(** The entry without its checksum; sizes are of 32 bits. So is the size of the buffer that is
    allocated for the entry ([encoded_len] below): an entry of 2^32 bytes or more, for which the
    source writes past the end of the buffer, is stored whole here. *)
Definition encode_memtable_entry (s type : Z) (key value : bytes) : bytes :=
  let key_size := u32 (slen key) in
  let val_size := u32 (slen value) in
  EncodeVarint32 (u32 (key_size + 8)) ++ stake key_size key ++
  EncodeFixed64 (PackSequenceAndType s type) ++ EncodeVarint32 val_size ++ stake val_size value.

Definition add_to_filter (b : option B) (key_without_ts : bytes) : option B :=
  match b with
  | None => None
  | Some f =>
      let f := match prefix_extractor_ moptions_ with
               | Some t => if InDomain t key_without_ts
                           then filter_Add f (Transform t key_without_ts) else f
               | None => f
               end in
      Some (if memtable_whole_key_filtering moptions_ then filter_Add f key_without_ts else f)
  end.

Definition MaybeUpdateNewestUDT (newest_udt user_key : bytes) : bytes :=
  if (timestamp_size =? 0) || persist_user_defined_timestamps_ moptions_ then newest_udt
  else
    let udt := ExtractTimestampFromUserKey user_key timestamp_size in
    if match newest_udt with [] => true | _ => CompareTimestamp udt newest_udt >? 0 end
    then udt else newest_udt.

Definition is_deletion (type : Z) : bool :=
  (type =? kTypeDeletion) || (type =? kTypeSingleDeletion) || (type =? kTypeDeletionWithTimestamp).

(** The key is in the table that its type selects; then the counters. *)
Definition insert_entry (m : MemTable R B) (type : Z) (entry : bytes) : bool * MemTable R B :=
  let '(res, table) := InsertKey (if type =? kTypeRangeDeletion then range_del_table_ m else table_ m)
                         entry in
  (res,
   {| table_ := if type =? kTypeRangeDeletion then table_ m else table;
      range_del_table_ := if type =? kTypeRangeDeletion then table else range_del_table_ m;
      is_range_del_table_empty_ := is_range_del_table_empty_ m;
      data_size_ := data_size_ m; num_entries_ := num_entries_ m; num_deletes_ := num_deletes_ m;
      num_range_deletes_ := num_range_deletes_ m; first_seqno_ := first_seqno_ m;
      earliest_seqno_ := earliest_seqno_ m; min_prep_log_referenced_ := min_prep_log_referenced_ m;
      bloom_filter_ := bloom_filter_ m; newest_udt_ := newest_udt_ m |}).

(** [Add] with [allow_concurrent] false. The entry is in the arena, but not in the table, when
    the status is not OK. *)
Definition MemTable_Add (m : MemTable R B) (s type : Z) (key value : bytes)
    (kv_prot_info : option Z) : Status * MemTable R B :=
  let encoded := encode_memtable_entry s type key value in
  let encoded_len := u32 (slen encoded + protection_bytes_per_key moptions_) in
  let checksum := UpdateEntryChecksum (protection_bytes_per_key moptions_) kv_prot_info key value type s in
  let status := match kv_prot_info with
                | Some info => VerifyEncodedEntry timestamp_size encoded info
                | None => Status_OK
                end in
  if negb (status_ok status) then (status, m)
  else
    let key_without_ts := StripTimestampFromUserKey key timestamp_size in
    let '(res, m') := insert_entry m type (encoded ++ checksum) in
    if negb res then (Status_TryAgain, m)
    else
      (Status_OK,
       {| table_ := table_ m'; range_del_table_ := range_del_table_ m';
          is_range_del_table_empty_ :=
            if type =? kTypeRangeDeletion then false else is_range_del_table_empty_ m;
          data_size_ := data_size_ m + encoded_len;
          num_entries_ := num_entries_ m + 1;
          num_deletes_ := if is_deletion type then num_deletes_ m + 1 else num_deletes_ m;
          num_range_deletes_ :=
            if negb (is_deletion type) && (type =? kTypeRangeDeletion)
            then num_range_deletes_ m + 1 else num_range_deletes_ m;
          first_seqno_ := if first_seqno_ m =? 0 then s else first_seqno_ m;
          earliest_seqno_ :=
            if (first_seqno_ m =? 0) && (earliest_seqno_ m =? kMaxSequenceNumber)
            then s else earliest_seqno_ m;
          min_prep_log_referenced_ := min_prep_log_referenced_ m;
          bloom_filter_ := add_to_filter (bloom_filter_ m) key_without_ts;
          newest_udt_ := MaybeUpdateNewestUDT (newest_udt_ m) key |}).

(** [Add] with [allow_concurrent] true, as one step: the counters go to [post_process_info]. *)
Definition MemTable_Add_concurrent (m : MemTable R B) (s type : Z) (key value : bytes)
    (kv_prot_info : option Z) (p : MemTablePostProcessInfo)
    : Status * MemTable R B * MemTablePostProcessInfo :=
  let encoded := encode_memtable_entry s type key value in
  let encoded_len := u32 (slen encoded + protection_bytes_per_key moptions_) in
  let checksum := UpdateEntryChecksum (protection_bytes_per_key moptions_) kv_prot_info key value type s in
  let status := match kv_prot_info with
                | Some info => VerifyEncodedEntry timestamp_size encoded info
                | None => Status_OK
                end in
  if negb (status_ok status) then (status, m, p)
  else
    let key_without_ts := StripTimestampFromUserKey key timestamp_size in
    let '(res, m') := insert_entry m type (encoded ++ checksum) in
    if negb res then (Status_TryAgain, m, p)
    else
      (Status_OK,
       {| table_ := table_ m'; range_del_table_ := range_del_table_ m';
          is_range_del_table_empty_ :=
            if type =? kTypeRangeDeletion then false else is_range_del_table_empty_ m;
          data_size_ := data_size_ m; num_entries_ := num_entries_ m;
          num_deletes_ := num_deletes_ m; num_range_deletes_ := num_range_deletes_ m;
          first_seqno_ :=
            if (first_seqno_ m =? 0) || (s <? first_seqno_ m) then s else first_seqno_ m;
          earliest_seqno_ :=
            if (earliest_seqno_ m =? kMaxSequenceNumber) || (s <? earliest_seqno_ m)
            then s else earliest_seqno_ m;
          min_prep_log_referenced_ := min_prep_log_referenced_ m;
          bloom_filter_ := add_to_filter (bloom_filter_ m) key_without_ts;
          newest_udt_ := newest_udt_ m |},
       {| post_data_size := post_data_size p + encoded_len;
          post_num_entries := post_num_entries p + 1;
          post_num_deletes := if type =? kTypeDeletion then post_num_deletes p + 1 else post_num_deletes p;
          post_num_range_deletes :=
            if type =? kTypeRangeDeletion then post_num_range_deletes p + 1
            else post_num_range_deletes p |}).

Definition BatchPostProcess (m : MemTable R B) (p : MemTablePostProcessInfo) : MemTable R B :=
  {| table_ := table_ m; range_del_table_ := range_del_table_ m;
     is_range_del_table_empty_ := is_range_del_table_empty_ m;
     data_size_ := data_size_ m + post_data_size p;
     num_entries_ := num_entries_ m + post_num_entries p;
     num_deletes_ :=
       if negb (post_num_deletes p =? 0) then num_deletes_ m + post_num_deletes p else num_deletes_ m;
     num_range_deletes_ :=
       if post_num_range_deletes p >? 0 then num_range_deletes_ m + post_num_range_deletes p
       else num_range_deletes_ m;
     first_seqno_ := first_seqno_ m; earliest_seqno_ := earliest_seqno_ m;
     min_prep_log_referenced_ := min_prep_log_referenced_ m; bloom_filter_ := bloom_filter_ m;
     newest_udt_ := newest_udt_ m |}.

Definition RefLogContainingPrepSection (m : MemTable R B) (log : Z) : MemTable R B :=
  let cur := min_prep_log_referenced_ m in
  {| table_ := table_ m; range_del_table_ := range_del_table_ m;
     is_range_del_table_empty_ := is_range_del_table_empty_ m;
     data_size_ := data_size_ m; num_entries_ := num_entries_ m; num_deletes_ := num_deletes_ m;
     num_range_deletes_ := num_range_deletes_ m; first_seqno_ := first_seqno_ m;
     earliest_seqno_ := earliest_seqno_ m;
     min_prep_log_referenced_ := if (log <? cur) || (cur =? 0) then log else cur;
     bloom_filter_ := bloom_filter_ m; newest_udt_ := newest_udt_ m |}.
End MemTable.

(** * Reading *)

(** What [GetFromTable] passes to the callback and the callback does not change. *)
Record SaverArgs := {
  saver_key : LookupKey;
  saver_merge_operator : option MergeOperator;
  max_covering_tombstone_seq : Z;
  do_merge : bool;
  callback_ : option (Z -> bool);
  saver_protection_bytes_per_key : Z;
  continue_cb : option (bytes -> bool);
}.
Record Saver := {
  saver_status : Status;
  found_final_value : bool;
  merge_in_progress : bool;
  saver_result : Result;
  saver_seq : Z;
  saver_timestamp : option bytes;
  merge_context : MergeContext;
  is_blob_index : option bool;
}.
Definition CheckCallback (a : SaverArgs) (seq : Z) : bool :=
  match callback_ a with Some f => f seq | None => true end.

Definition set_seq_timestamp (s : Saver) (seq : Z) (ts : option bytes) : Saver :=
  {| saver_status := saver_status s; found_final_value := found_final_value s;
     merge_in_progress := merge_in_progress s; saver_result := saver_result s; saver_seq := seq;
     saver_timestamp := ts; merge_context := merge_context s; is_blob_index := is_blob_index s |}.
Definition set_merge_context (s : Saver) (c : MergeContext) : Saver :=
  {| saver_status := saver_status s; found_final_value := found_final_value s;
     merge_in_progress := merge_in_progress s; saver_result := saver_result s;
     saver_seq := saver_seq s; saver_timestamp := saver_timestamp s; merge_context := c;
     is_blob_index := is_blob_index s |}.
Definition set_merge_in_progress (s : Saver) : Saver :=
  {| saver_status := saver_status s; found_final_value := found_final_value s;
     merge_in_progress := true; saver_result := saver_result s;
     saver_seq := saver_seq s; saver_timestamp := saver_timestamp s;
     merge_context := merge_context s; is_blob_index := is_blob_index s |}.
Definition set_is_blob_index (s : Saver) (b : bool) : Saver :=
  {| saver_status := saver_status s; found_final_value := found_final_value s;
     merge_in_progress := merge_in_progress s; saver_result := saver_result s;
     saver_seq := saver_seq s; saver_timestamp := saver_timestamp s;
     merge_context := merge_context s; is_blob_index := option_map (fun _ => b) (is_blob_index s) |}.
(** The status and the result, with [found_final_value]. *)
Definition final (s : Saver) (r : Status * Result) : Saver :=
  {| saver_status := r.1; found_final_value := true;
     merge_in_progress := merge_in_progress s; saver_result := r.2;
     saver_seq := saver_seq s; saver_timestamp := saver_timestamp s;
     merge_context := merge_context s; is_blob_index := is_blob_index s |}.

Definition has_result (r : Result) : bool := match r with NoResult => false | _ => true end.
Definition save_plain (r : Result) (v : bytes) : Result :=
  match r with
  | NoResult => NoResult
  | ToValue _ => ToValue v
  | ToColumns _ => ToColumns (SetPlainValue v)
  end.
Definition save_entity (r : Result) (v : bytes) : Status * Result :=
  match r with
  | NoResult => (Status_OK, NoResult)
  | ToValue old =>
      match GetValueOfDefaultColumn v with
      | inl value => (Status_OK, ToValue value)
      | inr s => (s, ToValue old)
      end
  | ToColumns _ => let '(s, columns) := SetWideColumnValue v in (s, ToColumns columns)
  end.

(** The merge of the operands met so far with a base; the merge operator is not null then. *)
Definition merge_with (a : SaverArgs) (s : Saver)
    (merge : MergeOperator -> bytes -> list bytes -> Result -> Status * Result) : Saver :=
  let '(operands, c) := GetOperands (merge_context s) in
  let s := set_merge_context s c in
  match saver_merge_operator a with
  | Some op => final s (merge op (lookup_user_key (saver_key a)) operands (saver_result s))
  | None => s
  end.

Section Get.
Context {C : Comparator} {TC : TimestampComparator C} {H : NPHash}.

(** The sequence number and the timestamp of the first visible version. *)
Definition note_version (a : SaverArgs) (s : Saver) (user_key : bytes) (seq : Z) : Saver :=
  let ts_sz := timestamp_size in
  let ts := ExtractTimestampFromUserKey user_key ts_sz in
  let s :=
    if saver_seq s =? kMaxSequenceNumber then
      if seq >? max_covering_tombstone_seq a then
        set_seq_timestamp s seq
          (match saver_timestamp s with
           | Some old => Some (if negb (ts_sz =? 0) then ts else old)
           | None => None
           end)
      else set_seq_timestamp s (max_covering_tombstone_seq a) (saver_timestamp s)
    else s in
  match saver_timestamp s with
  | Some old =>
      if ts_sz >? 0 then
        let kMaxTs := sfill ts_sz Byte.xff in
        if match old with [] => true | _ => CompareTimestamp old kMaxTs =? 0 end
        then set_seq_timestamp s (saver_seq s) (Some ts) else s
      else s
  | None => s
  end.

Definition on_blob_index (a : SaverArgs) (s : Saver) (v : bytes) : Saver :=
  if negb (do_merge a) then final s (Status_NotSupported, saver_result s)
  else if merge_in_progress s then final s (Status_NotSupported, saver_result s)
  else match is_blob_index s with
       | None => final s (Status_NotSupported, saver_result s)
       | Some _ => set_is_blob_index (final s (Status_OK, save_plain (saver_result s) v)) true
       end.
Definition on_value (a : SaverArgs) (s : Saver) (v : bytes) : Saver :=
  let s :=
    if negb (do_merge a) then
      final (set_merge_context s (PushOperand (merge_context s) v)) (Status_OK, saver_result s)
    else if merge_in_progress s then
      if has_result (saver_result s) then
        merge_with a s (fun op key operands r => TimedFullMerge op key (PlainBaseValue v) operands r)
      else final s (Status_OK, saver_result s)
    else final s (Status_OK, save_plain (saver_result s) v) in
  set_is_blob_index s false.
Definition on_entity (a : SaverArgs) (s : Saver) (v : bytes) : Saver :=
  let s :=
    if negb (do_merge a) then
      match GetValueOfDefaultColumn v with
      | inl value_of_default =>
          final (set_merge_context s (PushOperand (merge_context s) value_of_default))
            (Status_OK, saver_result s)
      | inr st => final s (st, saver_result s)
      end
    else if merge_in_progress s then
      if has_result (saver_result s) then
        merge_with a s (fun op key operands r => TimedFullMerge_entity op key v operands r)
      else final s (Status_OK, saver_result s)
    else final s (save_entity (saver_result s) v) in
  set_is_blob_index s false.
Definition on_deletion (a : SaverArgs) (s : Saver) : Saver :=
  if merge_in_progress s then
    if has_result (saver_result s) then
      merge_with a s (fun op key operands r => TimedFullMerge op key NoBaseValue operands r)
    else final s (Status_OK, saver_result s)
  else final s (Status_NotFound, saver_result s).
(** The first component says whether to go on to the next entry. *)
Definition on_merge (a : SaverArgs) (s : Saver) (v : bytes) : bool * Saver :=
  match saver_merge_operator a with
  | None => (false, final s (Status_InvalidArgument, saver_result s))
  | Some op =>
      let s := set_merge_context (set_merge_in_progress s) (PushOperand (merge_context s) v) in
      let '(backward, c) := GetOperandsDirectionBackward (merge_context s) in
      if do_merge a && ShouldMerge op backward then
        let s := set_merge_context s c in
        (false,
         if has_result (saver_result s) then
           merge_with a s (fun op key operands r => TimedFullMerge op key NoBaseValue operands r)
         else final s (saver_status s, saver_result s))
      else if match continue_cb a with Some f => negb (f v) | None => false end then
        (false, final s (saver_status s, saver_result s))
      else (true, s)
  end.

Definition SaveValue (a : SaverArgs) (s : Saver) (entry : bytes) : bool * Saver :=
  let '(key_length, key_ptr) := default (0, []) (GetVarint32Ptr entry) in
  let user_key_slice := stake (key_length - 8) key_ptr in
  if EqualWithoutTimestamp user_key_slice (lookup_user_key (saver_key a)) then
    let checked := VerifyEntryChecksum entry (saver_protection_bytes_per_key a) in
    if (saver_protection_bytes_per_key a >? 0) && negb (status_ok checked) then
      (false, final s (checked, saver_result s))
    else
      let s := if saver_protection_bytes_per_key a >? 0 then
                 {| saver_status := checked; found_final_value := found_final_value s;
                    merge_in_progress := merge_in_progress s; saver_result := saver_result s;
                    saver_seq := saver_seq s; saver_timestamp := saver_timestamp s;
                    merge_context := merge_context s; is_blob_index := is_blob_index s |}
               else s in
      let '(seq, type) := UnPackSequenceAndType (DecodeFixed64 (sdrop (key_length - 8) key_ptr)) in
      if negb (CheckCallback a seq) then (true, s)
      else
        let s := note_version a s user_key_slice seq in
        let type :=
          if ((type =? kTypeValue) || (type =? kTypeMerge) || (type =? kTypeBlobIndex) ||
              (type =? kTypeWideColumnEntity) || (type =? kTypeDeletion) ||
              (type =? kTypeSingleDeletion) || (type =? kTypeDeletionWithTimestamp) ||
              (type =? kTypeValuePreferredSeqno)) && (max_covering_tombstone_seq a >? seq)
          then kTypeRangeDeletion else type in
        let v := GetLengthPrefixedSlice_ptr (sdrop key_length key_ptr) in
        if type =? kTypeBlobIndex then (false, on_blob_index a s v)
        else if type =? kTypeValue then (false, on_value a s v)
        else if type =? kTypeValuePreferredSeqno then
          (false, on_value a s (stake (slen v - 8) v))
        else if type =? kTypeWideColumnEntity then (false, on_entity a s v)
        else if (type =? kTypeDeletion) || (type =? kTypeDeletionWithTimestamp) ||
                (type =? kTypeSingleDeletion) || (type =? kTypeRangeDeletion) then
          (false, on_deletion a s)
        else if type =? kTypeMerge then on_merge a s v
        else (false, final s (Status_Corruption, saver_result s))
  else (false, s).

(** [MemTableRep::Get]: the callback on the entries from the key on, until it says no. *)
Fixpoint rep_Get (a : SaverArgs) (s : Saver) (entries : list bytes) : Saver :=
  match entries with
  | [] => s
  | entry :: entries =>
      let '(continue, s) := SaveValue a s entry in
      if continue then rep_Get a s entries else s
  end.
End Get.

(** The in and out parameters of [Get]. *)
Record GetState := {
  get_status : Status;
  get_result : Result;
  get_timestamp : option bytes;
  get_merge_context : MergeContext;
  get_max_covering_tombstone_seq : Z;
  get_seq : Z;
  get_is_blob_index : option bool;
}.
Record ReadOptions := {
  ignore_range_deletions : bool;
  read_timestamp : option bytes;
  merge_operands_continue_cb : option (bytes -> bool);
}.

Section GetFromMemTable.
Context {C : Comparator} {TC : TimestampComparator C} {R B : Type} {MR : MemTableRep R}
  {MF : MemTableFilter B} {H : NPHash} {RT : RangeTombstones}.
Context (moptions_ : MemTableOptions B).

(** [GetFromTable]: the saver after the lookup. *)
Definition GetFromTable (m : MemTable R B) (key : LookupKey) (merge_in_progress do_merge : bool)
    (callback : option (Z -> bool)) (continue_cb : option (bytes -> bool)) (g : GetState) : Saver :=
  rep_Get
    {| saver_key := key; saver_merge_operator := merge_operator moptions_;
       max_covering_tombstone_seq := get_max_covering_tombstone_seq g; do_merge := do_merge;
       callback_ := callback;
       saver_protection_bytes_per_key := protection_bytes_per_key moptions_;
       continue_cb := continue_cb |}
    {| saver_status := get_status g; found_final_value := false;
       merge_in_progress := merge_in_progress; saver_result := get_result g;
       saver_seq := kMaxSequenceNumber; saver_timestamp := get_timestamp g;
       merge_context := get_merge_context g; is_blob_index := get_is_blob_index g |}
    (rep_Seek (table_ m) (memtable_key key)).

(** The effect of a covering range tombstone on the parameters. *)
Definition note_tombstone (m : MemTable R B) (key : LookupKey) (read_opts : ReadOptions)
    (g : GetState) : GetState :=
  if ignore_range_deletions read_opts || is_range_del_table_empty_ m then g
  else
    let '(covering_seq, ts) :=
      MaxCoveringTombstoneSeqnum (rep_contents (range_del_table_ m))
        (GetInternalKeySeqno (internal_key key)) (read_timestamp read_opts) (lookup_user_key key) in
    if covering_seq >? get_max_covering_tombstone_seq g then
      {| get_status := get_status g; get_result := get_result g;
         get_timestamp := option_map (fun _ => ts) (get_timestamp g);
         get_merge_context := get_merge_context g; get_max_covering_tombstone_seq := covering_seq;
         get_seq := get_seq g; get_is_blob_index := get_is_blob_index g |}
    else g.

Definition may_contain (m : MemTable R B) (user_key_without_ts : bytes) : bool :=
  match bloom_filter_ m with
  | None => true
  | Some f =>
      if memtable_whole_key_filtering moptions_ then filter_MayContain f user_key_without_ts
      else match prefix_extractor_ moptions_ with
           | Some t => if InDomain t user_key_without_ts
                       then filter_MayContain f (Transform t user_key_without_ts) else true
           | None => true
           end
  end.

Definition MemTable_Get (m : MemTable R B) (key : LookupKey) (read_opts : ReadOptions)
    (callback : option (Z -> bool)) (do_merge : bool) (g : GetState) : bool * GetState :=
  if IsEmpty m then (false, g)
  else
    let g := note_tombstone m key read_opts g in
    let merging := IsMergeInProgress (get_status g) in
    let '(found, merging, g) :=
      if negb (may_contain m (StripTimestampFromUserKey (lookup_user_key key) timestamp_size)) then
        (false, merging,
         {| get_status := get_status g; get_result := get_result g; get_timestamp := get_timestamp g;
            get_merge_context := get_merge_context g;
            get_max_covering_tombstone_seq := get_max_covering_tombstone_seq g;
            get_seq := kMaxSequenceNumber; get_is_blob_index := get_is_blob_index g |})
      else
        let s := GetFromTable m key merging do_merge callback (merge_operands_continue_cb read_opts) g in
        (found_final_value s, merge_in_progress s,
         {| get_status := saver_status s; get_result := saver_result s;
            get_timestamp := saver_timestamp s; get_merge_context := merge_context s;
            get_max_covering_tombstone_seq := get_max_covering_tombstone_seq g;
            get_seq := saver_seq s; get_is_blob_index := is_blob_index s |}) in
    (found,
     if negb found && merging && status_ok (get_status g) then
       {| get_status := Status_MergeInProgress; get_result := get_result g;
          get_timestamp := get_timestamp g; get_merge_context := get_merge_context g;
          get_max_covering_tombstone_seq := get_max_covering_tombstone_seq g;
          get_seq := get_seq g; get_is_blob_index := get_is_blob_index g |}
     else g).

(** [CountSuccessiveMergeEntries]: on the entries from the key on. *)
Fixpoint count_merges (user_key : bytes) (limit : nat) (entries : list bytes) : Z :=
  match limit, entries with
  | S limit, entry :: entries =>
      let '(key_length, key_ptr) := default (0, []) (GetVarint32Ptr entry) in
      if negb (Compare (stake (key_length - 8) key_ptr) user_key =? 0) then 0
      else
        let '(_, type) := UnPackSequenceAndType (DecodeFixed64 (sdrop (key_length - 8) key_ptr)) in
        if negb (type =? kTypeMerge) then 0 else 1 + count_merges user_key limit entries
  | _, _ => 0
  end.
Definition CountSuccessiveMergeEntries (m : MemTable R B) (key : LookupKey) (limit : Z) : Z :=
  count_merges (lookup_user_key key) (Z.to_nat limit) (rep_Seek (table_ m) (memtable_key key)).
End GetFromMemTable.
