(* ===== verification/MemTableInserter.v ===== *)
(** db/write_batch.cc, class [MemTableInserter] and [WriteBatchInternal::InsertInto]: the
    handler that applies a batch to the memtables of the column families, in the write path and
    in recovery, with the recovered transactions of [DBImpl] (db/db_impl/db_impl.h) and
    util/duplicate_detector.h.

    Column families are identified by their id; each has its comparator, its options and its
    memtable. Updates in place ([inplace_update_support]), insertion hints and the scheduling of
    flushes ([CheckMemtableFull]) are not modelled. The read of the database that
    [max_successive_merges] asks for is a parameter. *)

From stdpp Require Import gmap.
From S2P Require Import Prelude Coding Comparator DbFormat Status WideColumns MergeOperator WriteBatch WriteBatchIter LogsWithPrepTracker MemTable.

(** * Recovered transactions *)

(** Strings as keys of maps. *)
#[global] Instance byte_countable : Countable byte.
Proof. refine (inj_countable Byte.to_N Byte.of_N Byte.of_to_N). Defined.

Record BatchInfo := { bi_log_number : Z; bi_batch : WriteBatch; batch_cnt_ : Z }.
(** [batches_] by ascending sequence number. *)
Record RecoveredTransaction := { unprepared_ : bool; batches_ : list (Z * BatchInfo) }.

Fixpoint set_batch (l : list (Z * BatchInfo)) (seq : Z) (info : BatchInfo) : list (Z * BatchInfo) :=
  match l with
  | [] => [(seq, info)]
  | (s, i) :: l' =>
      if seq <? s then (seq, info) :: l
      else if seq =? s then (seq, info) :: l' else (s, i) :: set_batch l' seq info
  end.

Record RecoveredTransactions := {
  recovered_transactions_ : gmap bytes RecoveredTransaction;
  logs_with_prep_tracker_ : LogsWithPrepTracker;
}.
Definition GetRecoveredTransaction (db : RecoveredTransactions) (name : bytes)
    : option RecoveredTransaction := recovered_transactions_ db !! name.
Definition InsertRecoveredTransaction (db : RecoveredTransactions) (log : Z) (name : bytes)
    (batch : WriteBatch) (seq batch_cnt : Z) (unprepared_batch : bool) : RecoveredTransactions :=
  let info := {| bi_log_number := log; bi_batch := batch; batch_cnt_ := batch_cnt |} in
  {| recovered_transactions_ :=
       <[name := match recovered_transactions_ db !! name with
                 | None => {| unprepared_ := unprepared_batch; batches_ := [(seq, info)] |}
                 | Some trx =>
                     {| unprepared_ := unprepared_batch; batches_ := set_batch (batches_ trx) seq info |}
                 end]> (recovered_transactions_ db);
     logs_with_prep_tracker_ := MarkLogAsContainingPrepSection (logs_with_prep_tracker_ db) log |}.
(** The batch of a transaction is shared: [UpdateTimestamps] changes it in place. *)
Definition set_recovered_batch (db : RecoveredTransactions) (name : bytes) (trx : RecoveredTransaction)
    (seq : Z) (info : BatchInfo) (b : WriteBatch) : RecoveredTransactions :=
  {| recovered_transactions_ :=
       <[name := {| unprepared_ := unprepared_ trx;
                    batches_ := set_batch (batches_ trx) seq
                      {| bi_log_number := bi_log_number info; bi_batch := b;
                         batch_cnt_ := batch_cnt_ info |} |}]> (recovered_transactions_ db);
     logs_with_prep_tracker_ := logs_with_prep_tracker_ db |}.
Definition DeleteRecoveredTransaction (db : RecoveredTransactions) (name : bytes)
    : RecoveredTransactions :=
  match recovered_transactions_ db !! name with
  | None => db
  | Some trx =>
      {| recovered_transactions_ := delete name (recovered_transactions_ db);
         logs_with_prep_tracker_ :=
           fold_left (fun t b => MarkLogAsHavingPrepSectionFlushed t (bi_log_number b.2)) (batches_ trx)
             (logs_with_prep_tracker_ db) |}
  end.

(** * Duplicate keys *)

Record DuplicateDetector := { batch_seq_ : Z; keys_ : gmap Z (list bytes) }.
Definition MakeDuplicateDetector : DuplicateDetector := {| batch_seq_ := 0; keys_ := ∅ |}.
Definition detect_duplicate `{Comparator} (d : DuplicateDetector) (cf : Z) (key : bytes) (seq : Z)
    : bool * DuplicateDetector :=
  let keys := if negb (batch_seq_ d =? seq) then ∅ else keys_ d in
  let cf_keys := default [] (keys !! cf) in
  if existsb (fun k => Compare k key =? 0) cf_keys then
    (true, {| batch_seq_ := seq; keys_ := <[cf := [key]]> ∅ |})
  else (false, {| batch_seq_ := seq; keys_ := <[cf := key :: cf_keys]> keys |}).

(** * The inserter *)

Record ColumnFamilyData (R B : Type) := {
  cfd_comparator : Comparator;
  cfd_timestamps : TimestampComparator cfd_comparator;
  cfd_moptions : MemTableOptions B;
  max_successive_merges : Z;
  is_delete_range_supported : bool;
  cfd_log_number : Z;
  cfd_mem : MemTable R B;
}.
Arguments cfd_comparator {R B}. Arguments cfd_timestamps {R B}. Arguments cfd_moptions {R B}.
Arguments max_successive_merges {R B}. Arguments is_delete_range_supported {R B}.
Arguments cfd_log_number {R B}. Arguments cfd_mem {R B}.

Definition set_mem {R B} (c : ColumnFamilyData R B) (m : MemTable R B) : ColumnFamilyData R B :=
  {| cfd_comparator := cfd_comparator c; cfd_timestamps := cfd_timestamps c;
     cfd_moptions := cfd_moptions c; max_successive_merges := max_successive_merges c;
     is_delete_range_supported := is_delete_range_supported c; cfd_log_number := cfd_log_number c;
     cfd_mem := m |}.

(** The arguments of the constructor that do not change; [db] is the read for
    [max_successive_merges], when there is a database, at a sequence number. *)
Record InserterArgs (R B : Type) := {
  ignore_missing_column_families_ : bool;
  recovering_log_number_ : Z;
  concurrent_memtable_writes_ : bool;
  seq_per_batch_ : bool;
  batch_per_txn : bool;
  allow_2pc : bool;
  db : option (gmap Z (ColumnFamilyData R B) -> Z -> bytes -> Z -> Status * PinnableWideColumns);
}.
Arguments ignore_missing_column_families_ {R B}. Arguments recovering_log_number_ {R B}.
Arguments concurrent_memtable_writes_ {R B}. Arguments seq_per_batch_ {R B}.
Arguments batch_per_txn {R B}. Arguments allow_2pc {R B}. Arguments db {R B}.

Record Inserter (R B : Type) := {
  ins_sequence : Z;
  mems : gmap Z (ColumnFamilyData R B);
  log_number_ref_ : Z;
  ins_prot_info : option (list Z);
  prot_info_idx_ : nat;
  has_valid_writes_ : bool;
  rebuilding_trx_ : option WriteBatch;
  rebuilding_trx_seq_ : Z;
  unprepared_batch_ : bool;
  duplicate_detector_ : DuplicateDetector;
  post_info : gmap Z MemTablePostProcessInfo;
  recovered : RecoveredTransactions;
  (** An exception or an access out of bounds has ended the program. *)
  aborted : bool;
}.
Arguments ins_sequence {R B}. Arguments mems {R B}. Arguments log_number_ref_ {R B}.
Arguments ins_prot_info {R B}. Arguments prot_info_idx_ {R B}. Arguments has_valid_writes_ {R B}.
Arguments rebuilding_trx_ {R B}. Arguments rebuilding_trx_seq_ {R B}. Arguments unprepared_batch_ {R B}.
Arguments duplicate_detector_ {R B}. Arguments post_info {R B}. Arguments recovered {R B}.
Arguments aborted {R B}.

Section Inserter.
Context {R B : Type} {MRF : forall C : Comparator, MemTableRep R} {MF : MemTableFilter B} {H : NPHash}.
Context (a : InserterArgs R B).

Definition with_sequence (st : Inserter R B) (seq : Z) : Inserter R B :=
  {| ins_sequence := seq; mems := mems st; log_number_ref_ := log_number_ref_ st; ins_prot_info :=
     ins_prot_info st; prot_info_idx_ := prot_info_idx_ st; has_valid_writes_ := has_valid_writes_
     st; rebuilding_trx_ := rebuilding_trx_ st; rebuilding_trx_seq_ := rebuilding_trx_seq_ st;
     unprepared_batch_ := unprepared_batch_ st; duplicate_detector_ := duplicate_detector_ st;
     post_info := post_info st; recovered := recovered st; aborted := aborted st |}.
Definition with_mems (st : Inserter R B) (m : gmap Z (ColumnFamilyData R B)) : Inserter R B :=
  {| ins_sequence := ins_sequence st; mems := m; log_number_ref_ := log_number_ref_ st;
     ins_prot_info := ins_prot_info st; prot_info_idx_ := prot_info_idx_ st; has_valid_writes_ :=
     has_valid_writes_ st; rebuilding_trx_ := rebuilding_trx_ st; rebuilding_trx_seq_ :=
     rebuilding_trx_seq_ st; unprepared_batch_ := unprepared_batch_ st; duplicate_detector_ :=
     duplicate_detector_ st; post_info := post_info st; recovered := recovered st; aborted :=
     aborted st |}.
Definition with_log_number_ref (st : Inserter R B) (log : Z) : Inserter R B :=
  {| ins_sequence := ins_sequence st; mems := mems st; log_number_ref_ := log; ins_prot_info :=
     ins_prot_info st; prot_info_idx_ := prot_info_idx_ st; has_valid_writes_ := has_valid_writes_
     st; rebuilding_trx_ := rebuilding_trx_ st; rebuilding_trx_seq_ := rebuilding_trx_seq_ st;
     unprepared_batch_ := unprepared_batch_ st; duplicate_detector_ := duplicate_detector_ st;
     post_info := post_info st; recovered := recovered st; aborted := aborted st |}.
Definition with_prot_info (st : Inserter R B) (info : option (list Z)) (idx : nat) : Inserter R B :=
  {| ins_sequence := ins_sequence st; mems := mems st; log_number_ref_ := log_number_ref_ st;
     ins_prot_info := info; prot_info_idx_ := idx; has_valid_writes_ := has_valid_writes_ st;
     rebuilding_trx_ := rebuilding_trx_ st; rebuilding_trx_seq_ := rebuilding_trx_seq_ st;
     unprepared_batch_ := unprepared_batch_ st; duplicate_detector_ := duplicate_detector_ st;
     post_info := post_info st; recovered := recovered st; aborted := aborted st |}.
Definition with_valid_writes (st : Inserter R B)  : Inserter R B :=
  {| ins_sequence := ins_sequence st; mems := mems st; log_number_ref_ := log_number_ref_ st;
     ins_prot_info := ins_prot_info st; prot_info_idx_ := prot_info_idx_ st; has_valid_writes_ :=
     true; rebuilding_trx_ := rebuilding_trx_ st; rebuilding_trx_seq_ := rebuilding_trx_seq_ st;
     unprepared_batch_ := unprepared_batch_ st; duplicate_detector_ := duplicate_detector_ st;
     post_info := post_info st; recovered := recovered st; aborted := aborted st |}.
Definition with_rebuilding (st : Inserter R B) (trx : option WriteBatch) (seq : Z) (unprepared : bool) : Inserter R B :=
  {| ins_sequence := ins_sequence st; mems := mems st; log_number_ref_ := log_number_ref_ st;
     ins_prot_info := ins_prot_info st; prot_info_idx_ := prot_info_idx_ st; has_valid_writes_ :=
     has_valid_writes_ st; rebuilding_trx_ := trx; rebuilding_trx_seq_ := seq; unprepared_batch_ :=
     unprepared; duplicate_detector_ := duplicate_detector_ st; post_info := post_info st; recovered
     := recovered st; aborted := aborted st |}.
Definition with_detector (st : Inserter R B) (d : DuplicateDetector) : Inserter R B :=
  {| ins_sequence := ins_sequence st; mems := mems st; log_number_ref_ := log_number_ref_ st;
     ins_prot_info := ins_prot_info st; prot_info_idx_ := prot_info_idx_ st; has_valid_writes_ :=
     has_valid_writes_ st; rebuilding_trx_ := rebuilding_trx_ st; rebuilding_trx_seq_ :=
     rebuilding_trx_seq_ st; unprepared_batch_ := unprepared_batch_ st; duplicate_detector_ := d;
     post_info := post_info st; recovered := recovered st; aborted := aborted st |}.
Definition with_post_info (st : Inserter R B) (p : gmap Z MemTablePostProcessInfo) : Inserter R B :=
  {| ins_sequence := ins_sequence st; mems := mems st; log_number_ref_ := log_number_ref_ st;
     ins_prot_info := ins_prot_info st; prot_info_idx_ := prot_info_idx_ st; has_valid_writes_ :=
     has_valid_writes_ st; rebuilding_trx_ := rebuilding_trx_ st; rebuilding_trx_seq_ :=
     rebuilding_trx_seq_ st; unprepared_batch_ := unprepared_batch_ st; duplicate_detector_ :=
     duplicate_detector_ st; post_info := p; recovered := recovered st; aborted := aborted st |}.
Definition with_recovered (st : Inserter R B) (r : RecoveredTransactions) : Inserter R B :=
  {| ins_sequence := ins_sequence st; mems := mems st; log_number_ref_ := log_number_ref_ st;
     ins_prot_info := ins_prot_info st; prot_info_idx_ := prot_info_idx_ st; has_valid_writes_ :=
     has_valid_writes_ st; rebuilding_trx_ := rebuilding_trx_ st; rebuilding_trx_seq_ :=
     rebuilding_trx_seq_ st; unprepared_batch_ := unprepared_batch_ st; duplicate_detector_ :=
     duplicate_detector_ st; post_info := post_info st; recovered := r; aborted := aborted st |}.
Definition with_aborted (st : Inserter R B)  : Inserter R B :=
  {| ins_sequence := ins_sequence st; mems := mems st; log_number_ref_ := log_number_ref_ st;
     ins_prot_info := ins_prot_info st; prot_info_idx_ := prot_info_idx_ st; has_valid_writes_ :=
     has_valid_writes_ st; rebuilding_trx_ := rebuilding_trx_ st; rebuilding_trx_seq_ :=
     rebuilding_trx_seq_ st; unprepared_batch_ := unprepared_batch_ st; duplicate_detector_ :=
     duplicate_detector_ st; post_info := post_info st; recovered := recovered st; aborted := true
     |}.

Definition MakeInserter (sequence : Z) (cf_mems : gmap Z (ColumnFamilyData R B))
    (prot_info : option (list Z)) (r : RecoveredTransactions) : Inserter R B :=
  {| ins_sequence := sequence; mems := cf_mems; log_number_ref_ := 0; ins_prot_info := prot_info;
     prot_info_idx_ := 0; has_valid_writes_ := false; rebuilding_trx_ := None;
     rebuilding_trx_seq_ := 0; unprepared_batch_ := false;
     duplicate_detector_ := MakeDuplicateDetector; post_info := ∅; recovered := r; aborted := false |}.

Definition write_after_commit_ : bool := negb (seq_per_batch_ a).
Definition write_before_prepare_ : bool := negb (batch_per_txn a).
Definition recovering : bool := negb (recovering_log_number_ a =? 0).

Definition IsDuplicateKeySeq (st : Inserter R B) (cf : Z) (key : bytes) : bool * Inserter R B :=
  match mems st !! cf with
  | None => (false, with_aborted st)
  | Some c =>
      let '(dup, d) := detect_duplicate (H := cfd_comparator c) (duplicate_detector_ st) cf key
                         (ins_sequence st) in
      (dup, with_detector st d)
  end.

(** [NextProtectionInfo]; there is an entry for every record of a batch with checksums. *)
Definition NextProtectionInfo (st : Inserter R B) : option Z * Inserter R B :=
  match ins_prot_info st with
  | None => (None, st)
  | Some entries =>
      (Some (default 0 (entries !! prot_info_idx_ st)),
       with_prot_info st (ins_prot_info st) (S (prot_info_idx_ st)))
  end.
Definition DecrementProtectionInfoIdxForTryAgain (st : Inserter R B) : Inserter R B :=
  match ins_prot_info st with
  | None => st
  | Some _ => with_prot_info st (ins_prot_info st) (pred (prot_info_idx_ st))
  end.
Definition ResetProtectionInfo (st : Inserter R B) : Inserter R B := with_prot_info st None 0.

Definition MaybeAdvanceSeq (st : Inserter R B) (batch_boundry : bool) : Inserter R B :=
  if Bool.eqb batch_boundry (seq_per_batch_ a) then with_sequence st (u64 (ins_sequence st + 1)) else st.

(** The column family when the write goes to its memtable, else the status. *)
Definition SeekToColumnFamily (st : Inserter R B) (column_family_id : Z)
    : (ColumnFamilyData R B + Status) * Inserter R B :=
  match mems st !! column_family_id with
  | None =>
      (inr (if ignore_missing_column_families_ a then Status_OK else Status_InvalidArgument), st)
  | Some c =>
      if recovering && (recovering_log_number_ a <? cfd_log_number c) then (inr Status_OK, st)
      else
        let st := with_valid_writes st in
        if log_number_ref_ st >? 0 then
          let c := set_mem c (RefLogContainingPrepSection (cfd_mem c) (log_number_ref_ st)) in
          (inl c, with_mems st (<[column_family_id := c]> (mems st)))
        else (inl c, st)
  end.

(** [mem->Add] with the mode of the inserter; the counters of a concurrent addition are kept by
    memtable. *)
Definition add_to_mem (st : Inserter R B) (cf : Z) (c : ColumnFamilyData R B) (concurrent : bool)
    (type : Z) (key value : bytes) (info : option Z) : Status * Inserter R B :=
  if concurrent then
    let p := default {| post_data_size := 0; post_num_entries := 0; post_num_deletes := 0;
                        post_num_range_deletes := 0 |} (post_info st !! cf) in
    let '(s, m, p) := MemTable_Add_concurrent (C := cfd_comparator c) (MR := MRF (cfd_comparator c))
      (cfd_moptions c) (cfd_mem c) (ins_sequence st) type key value info p in
    (s, with_post_info (with_mems st (<[cf := set_mem c m]> (mems st))) (<[cf := p]> (post_info st)))
  else
    let '(s, m) := MemTable_Add (C := cfd_comparator c) (TC := cfd_timestamps c)
      (MR := MRF (cfd_comparator c)) (cfd_moptions c) (cfd_mem c) (ins_sequence st) type key value info in
    (s, with_mems st (<[cf := set_mem c m]> (mems st))).

(** The sequence number after an addition. *)
Definition advance_after (r : Status * Inserter R B) : Status * Inserter R B :=
  let '(s, st) := r in
  (s, if IsTryAgain s then MaybeAdvanceSeq st true
      else if status_ok s then MaybeAdvanceSeq st false else st).

(** The record goes to the transaction that is rebuilt, if there is one. *)
Definition rebuild (st : Inserter R B) (op : WriteBatch -> Status * WriteBatch) : Status * Inserter R B :=
  match rebuilding_trx_ st with
  | None => (Status_OK, st)
  | Some b =>
      let '(s, b) := op b in
      (s, with_rebuilding st (Some b) (rebuilding_trx_seq_ st) (unprepared_batch_ st))
  end.
Definition is_rebuilding (st : Inserter R B) : bool :=
  match rebuilding_trx_ st with Some _ => true | None => false end.

(** What a record does when its column family takes no write. *)
Definition skip_write (st : Inserter R B) (s : Status) (cf : Z) (key : bytes)
    (op : WriteBatch -> Status * WriteBatch) : Status * Inserter R B :=
  if status_ok s && is_rebuilding st then
    let '(s, st) := rebuild st op in
    if status_ok s then
      let '(dup, st) := IsDuplicateKeySeq st cf key in (s, MaybeAdvanceSeq st dup)
    else (s, st)
  else if status_ok s then (s, MaybeAdvanceSeq st false)
  else (s, st).

(** The protection of the record without its column family and with its sequence number. *)
Definition mem_prot (st : Inserter R B) (cf : Z) (info : option Z) : option Z :=
  option_map (fun i => ProtectS (StripC i cf) (ins_sequence st)) info.
Definition retry_prot (r : Status * Inserter R B) : Status * Inserter R B :=
  let '(s, st) := r in (s, if IsTryAgain s then DecrementProtectionInfoIdxForTryAgain st else st).

(** A write that succeeded is also recorded in the transaction that is rebuilt. *)
Definition then_rebuild (r : Status * Inserter R B) (op : WriteBatch -> Status * WriteBatch)
    : Status * Inserter R B :=
  let '(s, st) := r in if status_ok s && is_rebuilding st then rebuild st op else (s, st).

Definition PutCFImpl (st : Inserter R B) (cf : Z) (key value : bytes) (value_type : Z)
    (rebuild_txn_op : WriteBatch -> Status * WriteBatch) (kv_prot_info : option Z)
    : Status * Inserter R B :=
  if write_after_commit_ && is_rebuilding st then rebuild st rebuild_txn_op
  else
    match SeekToColumnFamily st cf with
    | (inr s, st) => skip_write st s cf key rebuild_txn_op
    | (inl c, st) =>
        then_rebuild
          (advance_after (add_to_mem st cf c (concurrent_memtable_writes_ a) value_type key value kv_prot_info))
          rebuild_txn_op
    end.

Definition put_record (st : Inserter R B) (cf : Z) (key value : bytes) (value_type : Z)
    (rebuild_txn_op : WriteBatch -> Status * WriteBatch) : Status * Inserter R B :=
  let '(info, st) := NextProtectionInfo st in
  retry_prot (PutCFImpl st cf key value value_type rebuild_txn_op (mem_prot st cf info)).
Definition Inserter_PutCF st cf (key value : bytes) :=
  put_record st cf key value kTypeValue (fun b => WriteBatchInternal_Put b cf key value).
Definition Inserter_TimedPutCF st cf (key value : bytes) (unix_write_time : Z) :=
  put_record st cf key (PackValueAndWriteTime value unix_write_time) kTypeValuePreferredSeqno
    (fun b => (Status_NotSupported, b)).
Definition Inserter_PutEntityCF st cf (key value : bytes) :=
  put_record st cf key value kTypeWideColumnEntity
    (fun b => match WideColumn_Deserialize value with
              | inr s => (s, b)
              | inl columns => WriteBatchInternal_PutEntity b cf key columns
              end).
Definition Inserter_PutBlobIndexCF st cf (key value : bytes) :=
  put_record st cf key value kTypeBlobIndex (fun b => (Status_NotSupported, b)).

Definition DeleteImpl (st : Inserter R B) (cf : Z) (c : ColumnFamilyData R B) (key value : bytes)
    (delete_type : Z) (kv_prot_info : option Z) : Status * Inserter R B :=
  advance_after (add_to_mem st cf c (concurrent_memtable_writes_ a) delete_type key value kv_prot_info).

(** The part that [DeleteCF], [SingleDeleteCF], [DeleteRangeCF] and [MergeCF] share: what happens
    when the column family takes the write is [write]. *)
Definition write_record (st : Inserter R B) (cf : Z) (key : bytes)
    (op : WriteBatch -> Status * WriteBatch)
    (write : Inserter R B -> ColumnFamilyData R B -> option Z -> Status * Inserter R B)
    : Status * Inserter R B :=
  let '(info, st) := NextProtectionInfo st in
  if write_after_commit_ && is_rebuilding st then rebuild st op
  else
    match SeekToColumnFamily st cf with
    | (inr s, st) => retry_prot (skip_write st s cf key op)
    | (inl c, st) => write st c (mem_prot st cf info)
    end.

Definition Inserter_DeleteCF (st : Inserter R B) (cf : Z) (key : bytes) : Status * Inserter R B :=
  let op b := WriteBatchInternal_Delete b cf key in
  write_record st cf key op (fun st c info =>
    let ts_sz := timestamp_size (Comparator := cfd_comparator c) in
    let delete_type := if 0 =? ts_sz then kTypeDeletion else kTypeDeletionWithTimestamp in
    let info := option_map (fun i => UpdateO i kTypeDeletion delete_type) info in
    retry_prot (then_rebuild (DeleteImpl st cf c key [] delete_type info) op)).
Definition Inserter_SingleDeleteCF (st : Inserter R B) (cf : Z) (key : bytes) : Status * Inserter R B :=
  let op b := WriteBatchInternal_SingleDelete b cf key in
  write_record st cf key op (fun st c info =>
    retry_prot (then_rebuild (DeleteImpl st cf c key [] kTypeSingleDeletion info) op)).
Definition Inserter_DeleteRangeCF (st : Inserter R B) (cf : Z) (begin_key end_key : bytes)
    : Status * Inserter R B :=
  let op b := WriteBatchInternal_DeleteRange b cf begin_key end_key in
  write_record st cf begin_key op (fun st c info =>
    let cmp := CompareWithoutTimestamp (TimestampComparator := cfd_timestamps c) begin_key end_key in
    let has_db := match db a with Some _ => true | None => false end in
    if has_db && negb (is_delete_range_supported c) then (Status_NotSupported, st)
    else if has_db && (cmp >? 0) then (Status_InvalidArgument, st)
    else if has_db && (cmp =? 0) then (Status_OK, st)
    else
      let '(s, st) := DeleteImpl st cf c begin_key end_key kTypeRangeDeletion info in
      retry_prot (if negb (IsTryAgain s) && is_rebuilding st then rebuild st op else (s, st))).

(** The merge of a new operand with the value that the database has, if the limit of
    successive operands is reached: the new value and its type. *)
Definition merge_now (st : Inserter R B) (cf : Z) (c : ColumnFamilyData R B) (op : MergeOperator)
    (key value : bytes) : option (bytes * Z) :=
  match db a with
  | Some GetEntity =>
      if (max_successive_merges c >? 0) && negb recovering &&
         (CountSuccessiveMergeEntries (C := cfd_comparator c) (MR := MRF (cfd_comparator c)) (cfd_mem c)
            (MakeLookupKey key (ins_sequence st) None) (max_successive_merges c) >=? max_successive_merges c)
      then
        let '(get_status, existing) := GetEntity (mems st) cf key (ins_sequence st) in
        if negb (status_ok get_status) then None
        else
          let '(merge_status, (new_value, is_entity)) :=
            TimedFullMerge_typed op key
              (if HasDefaultColumnOnly (columns_ existing)
               then PlainBaseValue (match columns_ existing with col :: _ => column_value col | [] => [] end)
               else WideBaseValue (columns_ existing)) [value] in
          if negb (status_ok merge_status) then None
          else Some (new_value, if is_entity then kTypeWideColumnEntity else kTypeValue)
      else None
  | None => None
  end.
Definition Inserter_MergeCF (st : Inserter R B) (cf : Z) (key value : bytes) : Status * Inserter R B :=
  let op b := WriteBatchInternal_Merge b cf key value in
  write_record st cf key op (fun st c info =>
    match merge_operator (cfd_moptions c) with
    | None => (Status_InvalidArgument, st)
    | Some mop =>
        retry_prot (then_rebuild (advance_after
          (match merge_now st cf c mop key value with
           | Some (new_value, new_value_type) =>
               add_to_mem st cf c false new_value_type key new_value
                 (option_map (fun i => UpdateO (UpdateV i value new_value) kTypeMerge new_value_type) info)
           | None => add_to_mem st cf c (concurrent_memtable_writes_ a) kTypeMerge key value info
           end)) op)
    end).

(** ** Markers *)

Definition Inserter_MarkBeginPrepare (st : Inserter R B) (unprepare : bool) : Status * Inserter R B :=
  if recovering then
    if negb (allow_2pc a) then (Status_NotSupported, st)
    else (Status_OK, with_valid_writes (with_rebuilding st (Some (MakeWriteBatch 0 0 0)) (ins_sequence st) unprepare))
  else (Status_OK, st).
Definition Inserter_MarkEndPrepare (st : Inserter R B) (name : bytes) : Status * Inserter R B :=
  let st :=
    if recovering then
      match rebuilding_trx_ st with
      | Some trx =>
          let batch_cnt :=
            if write_after_commit_ then 0 else u64 (ins_sequence st - rebuilding_trx_seq_ st + 1) in
          with_rebuilding
            (with_recovered st
               (InsertRecoveredTransaction (recovered st) (recovering_log_number_ a) name trx
                  (rebuilding_trx_seq_ st) batch_cnt (unprepared_batch_ st)))
            None (rebuilding_trx_seq_ st) false
      | None => with_aborted st
      end
    else st in
  (Status_OK, MaybeAdvanceSeq st true).
Definition Inserter_MarkNoop (st : Inserter R B) (empty_batch : bool) : Status * Inserter R B :=
  (Status_OK, if negb empty_batch then MaybeAdvanceSeq st true else st).
Definition Inserter_MarkRollback (st : Inserter R B) (name : bytes) : Status * Inserter R B :=
  (Status_OK,
   MaybeAdvanceSeq
     (if recovering then with_recovered st (DeleteRecoveredTransaction (recovered st) name) else st) true).

(** [MarkCommit] and [MarkCommitWithTimestamp] iterate over the recovered batch with this handler:
    [iterate]. The timestamps are those of [update]. *)
Definition commit_recovered (iterate : WriteBatch -> Inserter R B -> option (Status * Inserter R B))
    (update : WriteBatch -> option (Status * WriteBatch)) (st : Inserter R B) (name : bytes)
    : Status * Inserter R B :=
  let '(s, st) :=
    if recovering then
      match GetRecoveredTransaction (recovered st) name with
      | None => (Status_OK, st)
      | Some trx =>
          let '(s, st) :=
            if write_after_commit_ then
              match batches_ trx with
              | (seq, info) :: _ =>
                  let st := with_log_number_ref st (bi_log_number info) in
                  match update (bi_batch info) with
                  | None => (Status_OK, with_aborted st)
                  | Some (s, b) =>
                      let st := with_recovered st (set_recovered_batch (recovered st) name trx seq info b) in
                      if negb (status_ok s) then (s, st)
                      else
                        match iterate b (ResetProtectionInfo st) with
                        | None => (Status_OK, with_aborted st)
                        | Some (s, st) => (s, with_log_number_ref st 0)
                        end
                  end
              | [] => (Status_OK, with_aborted st)
              end
            else (Status_OK, st) in
          let st := if status_ok s
                    then with_recovered st (DeleteRecoveredTransaction (recovered st) name) else st in
          (s, with_valid_writes st)
      end
    else (Status_OK, st) in
  retry_prot (s, MaybeAdvanceSeq st true).

Definition Inserter_MarkCommit iterate (st : Inserter R B) (name : bytes) : Status * Inserter R B :=
  commit_recovered iterate (fun b => Some (Status_OK, b)) st name.
(** The sizes of the timestamps of the column families; the family of a key is there. *)
Definition ts_sz_of (st : Inserter R B) (cf : Z) : Z :=
  match mems st !! cf with
  | Some c => timestamp_size (Comparator := cfd_comparator c)
  | None => 0
  end.
Definition Inserter_MarkCommitWithTimestamp iterate (st : Inserter R B) (name commit_ts : bytes)
    : Status * Inserter R B :=
  commit_recovered iterate (UpdateTimestamps (ts_sz_of st) commit_ts) st name.

Definition inserter_with (iterate : WriteBatch -> Inserter R B -> option (Status * Inserter R B))
    : Handler (Inserter R B) := {|
  PutCF st cf key value := Inserter_PutCF st cf (s_data key) (s_data value);
  TimedPutCF st cf key value t := Inserter_TimedPutCF st cf (s_data key) (s_data value) t;
  PutEntityCF st cf key value := Inserter_PutEntityCF st cf (s_data key) (s_data value);
  DeleteCF st cf key := Inserter_DeleteCF st cf (s_data key);
  SingleDeleteCF st cf key := Inserter_SingleDeleteCF st cf (s_data key);
  DeleteRangeCF st cf key value := Inserter_DeleteRangeCF st cf (s_data key) (s_data value);
  MergeCF st cf key value := Inserter_MergeCF st cf (s_data key) (s_data value);
  PutBlobIndexCF st cf key value := Inserter_PutBlobIndexCF st cf (s_data key) (s_data value);
  LogData st _ := st;
  MarkBeginPrepare := Inserter_MarkBeginPrepare;
  MarkEndPrepare st name := Inserter_MarkEndPrepare st (s_data name);
  MarkNoop := Inserter_MarkNoop;
  MarkRollback st name := Inserter_MarkRollback st (s_data name);
  MarkCommit st name := Inserter_MarkCommit iterate st (s_data name);
  MarkCommitWithTimestamp st name ts := Inserter_MarkCommitWithTimestamp iterate st (s_data name) (s_data ts);
  Continue st := (true, st);
  WriteAfterCommit _ := if write_after_commit_ then kEnabled else kDisabled;
  WriteBeforePrepare _ := if write_before_prepare_ then kEnabled else kDisabled;
  buffer _ rep := rep;
|}.

(** A recovered batch holds the entries of one prepared section and no markers, so that the
    iteration over it commits nothing in turn: a depth of one is enough. *)
Definition run_Iterate (h : Handler (Inserter R B)) (b : WriteBatch) (st : Inserter R B)
    : option (Status * Inserter R B) :=
  match WriteBatch_Iterate h b st with
  | Some (Returned s st) => Some (s, st)
  | _ => None
  end.
Definition MemTableInserter : Handler (Inserter R B) :=
  inserter_with (run_Iterate (inserter_with (fun _ _ => None))).

Definition PostProcess (st : Inserter R B) : Inserter R B :=
  with_mems st
    (map_imap (fun cf c => Some (match post_info st !! cf with
                                 | Some p => set_mem c (BatchPostProcess (cfd_mem c) p)
                                 | None => c
                                 end)) (mems st)).

(** * InsertInto *)

Record GroupWriter := {
  CallbackFailed : bool;
  ShouldWriteToMemtable : bool;
  w_batch : WriteBatch;
  log_ref : Z;
  w_sequence : Z;
  w_status : Status;
}.
Definition set_writer (w : GroupWriter) (b : WriteBatch) (seq : Z) (s : Status) : GroupWriter :=
  {| CallbackFailed := CallbackFailed w; ShouldWriteToMemtable := ShouldWriteToMemtable w;
     w_batch := b; log_ref := log_ref w; w_sequence := seq; w_status := s |}.

(** The overload for a write group; [None] for an access out of bounds. *)
Fixpoint InsertInto_writers (st : Inserter R B) (write_group : list GroupWriter)
    : option (Status * list GroupWriter * Inserter R B) :=
  match write_group with
  | [] => Some (Status_OK, [], st)
  | w :: rest =>
      let continue w st :=
        match InsertInto_writers st rest with
        | Some (s, ws, st) => Some (s, w :: ws, st)
        | None => None
        end in
      if CallbackFailed w then continue w st
      else if negb (ShouldWriteToMemtable w) then
        continue (set_writer w (w_batch w) (ins_sequence st) (w_status w)) (MaybeAdvanceSeq st true)
      else
        let seq := ins_sequence st in
        let b := WriteBatchInternal_SetSequence (w_batch w) seq in
        let st := with_prot_info (with_log_number_ref st (log_ref w)) (prot_info_ b) 0 in
        match run_Iterate MemTableInserter b st with
        | None => None
        | Some (s, st) =>
            let w := set_writer w b seq s in
            if negb (status_ok s) then Some (s, w :: rest, st) else continue w st
        end
  end.
Definition InsertInto_group (write_group : list GroupWriter) (sequence : Z)
    (memtables : gmap Z (ColumnFamilyData R B)) (r : RecoveredTransactions) :=
  InsertInto_writers (MakeInserter sequence memtables None r) write_group.

(** The overload for one writer. *)
Definition InsertInto_writer (writer : GroupWriter) (sequence : Z)
    (memtables : gmap Z (ColumnFamilyData R B)) (r : RecoveredTransactions)
    : option (Status * GroupWriter * Inserter R B) :=
  let b := WriteBatchInternal_SetSequence (w_batch writer) sequence in
  let st := with_prot_info (with_log_number_ref (MakeInserter sequence memtables None r) (log_ref writer))
              (prot_info_ b) 0 in
  match run_Iterate MemTableInserter b st with
  | None => None
  | Some (s, st) =>
      Some (s, set_writer writer b (w_sequence writer) (w_status writer),
            if concurrent_memtable_writes_ a then PostProcess st else st)
  end.

(** The overload for a batch, which has its sequence number: recovery. [next_seq] and
    [has_valid_writes] are those of the inserter. *)
Definition InsertInto_batch (batch : WriteBatch) (memtables : gmap Z (ColumnFamilyData R B))
    (r : RecoveredTransactions) : option (Status * Inserter R B) :=
  match run_Iterate MemTableInserter batch
          (MakeInserter (WriteBatchInternal_Sequence batch) memtables (prot_info_ batch) r) with
  | None => None
  | Some (s, st) => Some (s, if concurrent_memtable_writes_ a then PostProcess st else st)
  end.
End Inserter.
