(* ===== verification/MemTableSpec.v ===== *)
(** The memtable as a history of versions: what its interfaces promise, what an
    entry says, and the meaning of a lookup as a fold over the history. *)

From stdpp Require Import gmap sorting.
From S2P Require Import Prelude Coding Comparator DbFormat Status WideColumns MergeOperator WriteBatch MemTable.

(** * Versions *)

Record Version := { v_key : bytes; v_seq : Z; v_type : Z; v_value : bytes }.

(** Sizes of an entry whose length is computed without overflow. *)
Definition version_ok (v : Version) : Prop :=
  fits 56 (v_seq v) /\ fits 8 (v_type v) /\ slen (v_key v) + 8 < 2 ^ 32 /\ slen (v_value v) < 2 ^ 32.

(** * Promises of the interfaces *)

Section Laws.
Context {C : Comparator}.

Definition sorted_entries (l : list bytes) : Prop := StronglySorted (fun a b => KeyComparator a b < 0) l.

(** The entries are kept in order; an entry with a new key is inserted, one whose key is there
    is refused; iteration from a key on meets the entries that are not before it. *)
Class MemTableRepLaws (R : Type) {MR : MemTableRep R} : Type := {
  rep_wf : R -> Prop;
  rep_empty_spec : rep_wf rep_empty /\ rep_contents rep_empty = [];
  rep_sorted r : rep_wf r -> sorted_entries (rep_contents r);
  InsertKey_spec r e : rep_wf r ->
    rep_wf (InsertKey r e).2 /\
    (if bool_decide (Exists (fun x => KeyComparator x e = 0) (rep_contents r))
     then (InsertKey r e).1 = false /\ rep_contents (InsertKey r e).2 = rep_contents r
     else (InsertKey r e).1 = true /\ rep_contents (InsertKey r e).2 ≡ₚ e :: rep_contents r);
  rep_Seek_spec r k : rep_wf r ->
    rep_Seek r k = filter (fun x => 0 <= KeyComparator x k) (rep_contents r);
}.

(** A filter never forgets a key. *)
Class MemTableFilterLaws (B : Type) {MF : MemTableFilter B} : Prop := {
  filter_Add_contains f k : filter_MayContain (filter_Add f k) k = true;
  filter_Add_keeps f k k' : filter_MayContain f k' = true -> filter_MayContain (filter_Add f k) k' = true;
}.

(** The largest sequence number, up to that of the read, of a tombstone that covers the key. *)
Definition covering (read_seq : Z) (u : bytes) (t : Version) : bool :=
  (Compare (v_key t) u <=? 0) && (Compare u (v_value t) <? 0) && (v_seq t <=? read_seq).
Definition max_covering (tombstones : list Version) (read_seq : Z) (u : bytes) : Z :=
  foldr (fun t n => Z.max (v_seq t) n) 0 (filter (fun t => covering read_seq u t) tombstones).

(** A range does not end before its start. *)
Definition range_in_order (t : Version) : Prop := Compare (v_key t) (v_value t) <= 0.

Section Entries.
Context {H : NPHash}.

(** The entry of a version, with the checksum of its parts. *)
Definition version_entry (bytes_per_key : Z) (v : Version) : bytes :=
  encode_memtable_entry (v_seq v) (v_type v) (v_key v) (v_value v) ++
  UpdateEntryChecksum bytes_per_key None (v_key v) (v_value v) (v_type v) (v_seq v).
End Entries.

Class RangeTombstonesLaws {H : NPHash} {RT : RangeTombstones} : Prop := {
  MaxCoveringTombstoneSeqnum_spec bytes_per_key l read_seq ts u :
    timestamp_size = 0 -> Forall version_ok l -> Forall range_in_order l ->
    sorted_entries (map (version_entry bytes_per_key) l) ->
    (MaxCoveringTombstoneSeqnum (map (version_entry bytes_per_key) l) read_seq ts u).1 =
    max_covering l read_seq u;
}.

(** Without timestamps the comparison without timestamps is the comparison. *)
Class TimestampComparatorLaws {TC : TimestampComparator C} : Prop := {
  CompareWithoutTimestamp_spec a b : timestamp_size = 0 -> CompareWithoutTimestamp a b = Compare a b;
}.
End Laws.
#[global] Arguments MemTableRepLaws {C} R {MR}.
#[global] Arguments RangeTombstonesLaws C {H RT}.
#[global] Arguments TimestampComparatorLaws C {TC}.

(** * The meaning of a lookup *)

(** What a key has below its merge operands. *)
Inductive BaseValue :=
  | BaseDeleted
  | BasePlain (value : bytes)
  | BaseEntity (entity : bytes)
  | BaseBlobIndex (value : bytes).

(** The base, if the history has one, and the operands since then, the oldest first. *)
Definition KeyState : Type := option BaseValue * list bytes.

(** The versions before the tombstone at sequence number [tombstone] are deleted. *)
Definition apply_version (tombstone : Z) (st : KeyState) (v : Version) : KeyState :=
  if v_seq v <? tombstone then (Some BaseDeleted, [])
  else if v_type v =? kTypeMerge then (st.1, st.2 ++ [v_value v])
  else if v_type v =? kTypeValue then (Some (BasePlain (v_value v)), [])
  else if v_type v =? kTypeValuePreferredSeqno then
    (Some (BasePlain (stake (slen (v_value v) - 8) (v_value v))), [])
  else if v_type v =? kTypeWideColumnEntity then (Some (BaseEntity (v_value v)), [])
  else if v_type v =? kTypeBlobIndex then (Some (BaseBlobIndex (v_value v)), [])
  else (Some BaseDeleted, []).

(** The types of point entries. *)
Definition point_type (t : Z) : bool :=
  (t =? kTypeMerge) || (t =? kTypeValue) || (t =? kTypeValuePreferredSeqno) ||
  (t =? kTypeWideColumnEntity) || (t =? kTypeBlobIndex) || (t =? kTypeDeletion) ||
  (t =? kTypeSingleDeletion) || (t =? kTypeDeletionWithTimestamp).

Definition is_range (v : Version) : bool := v_type v =? kTypeRangeDeletion.
Definition is_point (v : Version) : bool := negb (is_range v).

Section Meaning.
Context {C : Comparator}.

(** The versions of a key that a read at [snapshot] may see, and the state they leave. *)
Definition visible (u : bytes) (snapshot : Z) (v : Version) : bool :=
  is_point v && (Compare (v_key v) u =? 0) && (v_seq v <=? snapshot).
Definition tombstone_of (h : list Version) (u : bytes) (snapshot : Z) : Z :=
  max_covering (filter is_range h) snapshot u.
Definition key_state (h : list Version) (u : bytes) (snapshot : Z) : KeyState :=
  fold_left (apply_version (tombstone_of h u snapshot)) (filter (fun v => visible u snapshot v) h) (None, []).
End Meaning.

(** Whether the lookup is over, its status and the result. *)
Definition lookup_result (op : MergeOperator) (u : bytes) (st : KeyState) (r : Result)
    : bool * (Status * Result) :=
  match st with
  | (None, []) => (false, (Status_OK, r))
  | (None, _) => (false, (Status_MergeInProgress, r))
  | (Some BaseDeleted, []) => (true, (Status_NotFound, r))
  | (Some (BasePlain v), []) => (true, (Status_OK, save_plain r v))
  | (Some (BaseEntity e), []) => (true, save_entity r e)
  | (Some (BaseBlobIndex v), []) => (true, (Status_OK, save_plain r v))
  | (Some BaseDeleted, ops) => (true, TimedFullMerge op u NoBaseValue ops r)
  | (Some (BasePlain v), ops) => (true, TimedFullMerge op u (PlainBaseValue v) ops r)
  | (Some (BaseEntity e), ops) => (true, TimedFullMerge_entity op u e ops r)
  | (Some (BaseBlobIndex _), _) => (true, (Status_NotSupported, r))
  end.

(** The sequence number of the newest visible version, or of the tombstone that covers it. *)
Definition newest_seq (tombstone : Z) (versions : list Version) : Z :=
  match head (rev versions) with
  | Some v => Z.max (v_seq v) tombstone
  | None => kMaxSequenceNumber
  end.
