(* ===== verification/DynamicBloom.v ===== *)
(** util/dynamic_bloom.{h,cc}: the Bloom filter of a memtable.

    [data_] is memory that holds words of 64 bits; that only the words below [kLen] are
    accessed is a theorem. The update of a word is atomic ([fetch_or]), so that calls of
    several threads interleave their updates of words. *)

From stdpp Require Import gmap.
From S2P Require Import Prelude Coding Hash MemTable MemTableSpec.

Record DynamicBloom := { kLen : Z; kNumDoubleProbes : Z; data_ : gmap Z Z }.

(** * Construction *)

Fixpoint roundUpToPow2_loop (fuel : nat) (x rv : Z) : Z :=
  match fuel with
  | O => rv
  | S fuel => if rv <? x then roundUpToPow2_loop fuel x (u32 (Z.shiftl rv 1)) else rv
  end.
(** As many rounds as there are powers of two below 2^32. *)
Definition roundUpToPow2 (x : Z) : Z := roundUpToPow2_loop 32 x 1.

Definition MakeDynamicBloom (total_bits num_probes : Z) : DynamicBloom :=
  let kNumDoubleProbes := u32 (num_probes + (if num_probes =? 1 then 1 else 0)) / 2 in
  let block_bytes := u32 (8 * Z.max 1 (roundUpToPow2 kNumDoubleProbes)) in
  let block_bits := u32 (block_bytes * 8) in
  let blocks := u32 (total_bits + block_bits - 1) / block_bits in
  let sz := u32 (blocks * block_bytes) in
  {| kLen := sz / 8; kNumDoubleProbes := kNumDoubleProbes; data_ := ∅ |}.

(** * Probes *)

Definition word_at (data : gmap Z Z) (i : Z) : Z := default 0 (data !! i).
Definition expand (h32 : Z) : Z := u64 (0x9e3779b97f4a7c13 * h32).
Definition probe_mask (h : Z) : Z := Z.lor (Z.shiftl 1 (Z.land h 63)) (Z.shiftl 1 (Z.land (Z.shiftr h 6) 63)).
Definition next_probe (h : Z) : Z := Z.lor (Z.shiftr h 12) (u64 (Z.shiftl h 52)).
(** The loop does its body at least once. *)
Definition num_double_probes (b : DynamicBloom) : nat := Z.to_nat (Z.max 1 (kNumDoubleProbes b)).

Fixpoint AddHash_loop (or_func : Z -> Z -> Z) (probes : nat) (data : gmap Z Z) (a i h : Z) : gmap Z Z :=
  match probes with
  | O => data
  | S probes =>
      let data := <[Z.lxor a i := or_func (word_at data (Z.lxor a i)) (probe_mask h)]> data in
      AddHash_loop or_func probes data a (i + 1) (next_probe h)
  end.
Definition AddHash_with (or_func : Z -> Z -> Z) (b : DynamicBloom) (h32 : Z) : DynamicBloom :=
  {| kLen := kLen b; kNumDoubleProbes := kNumDoubleProbes b;
     data_ := AddHash_loop or_func (num_double_probes b) (data_ b) (FastRange32 h32 (kLen b)) 0 (expand h32) |}.
Definition AddHash : DynamicBloom -> Z -> DynamicBloom := AddHash_with (fun word mask => Z.lor word mask).
Definition AddHashConcurrently : DynamicBloom -> Z -> DynamicBloom :=
  AddHash_with (fun word mask => if negb (Z.land mask word =? mask) then Z.lor word mask else word).
Definition Bloom_Add (b : DynamicBloom) (key : bytes) : DynamicBloom := AddHash b (BloomHash key).
Definition AddConcurrently (b : DynamicBloom) (key : bytes) : DynamicBloom := AddHashConcurrently b (BloomHash key).

Fixpoint DoubleProbe_loop (probes : nat) (data : gmap Z Z) (byte_offset i h : Z) : bool :=
  match probes with
  | O => true
  | S probes =>
      let mask := probe_mask h in
      let val := word_at data (Z.lxor byte_offset i) in
      if (probes =? 0)%nat then Z.land val mask =? mask
      else if negb (Z.land val mask =? mask) then false
      else DoubleProbe_loop probes data byte_offset (i + 1) (next_probe h)
  end.
Definition DoubleProbe (b : DynamicBloom) (h32 byte_offset : Z) : bool :=
  DoubleProbe_loop (num_double_probes b) (data_ b) byte_offset 0 (expand h32).
Definition MayContainHash (b : DynamicBloom) (h32 : Z) : bool := DoubleProbe b h32 (FastRange32 h32 (kLen b)).
Definition MayContain (b : DynamicBloom) (key : bytes) : bool := MayContainHash b (BloomHash key).
(** The overload for several keys: the hashes first, then the probes. *)
Definition MayContain_keys (b : DynamicBloom) (keys : list bytes) : list bool :=
  let hashes := map BloomHash keys in
  let byte_offsets := map (fun h => FastRange32 h (kLen b)) hashes in
  zip_with (DoubleProbe b) hashes byte_offsets.

(** * Words and masks *)

(** The words that a hash probes, with their masks. *)
Fixpoint probe_words (probes : nat) (a i h : Z) : list (Z * Z) :=
  match probes with
  | O => []
  | S probes => (Z.lxor a i, probe_mask h) :: probe_words probes a (i + 1) (next_probe h)
  end.
Definition hash_words (b : DynamicBloom) (h32 : Z) : list (Z * Z) :=
  probe_words (num_double_probes b) (FastRange32 h32 (kLen b)) 0 (expand h32).

Definition or_word (data : gmap Z Z) (w : Z * Z) : gmap Z Z := <[w.1 := Z.lor (word_at data w.1) w.2]> data.
Definition covers (data : gmap Z Z) (w : Z * Z) : bool := Z.land (word_at data w.1) w.2 =? w.2.

Lemma covers_or_keeps data w w' : covers data w = true -> covers (or_word data w') w = true.
Proof.
  unfold covers, or_word, word_at. intros Hw. apply Z.eqb_eq in Hw. apply Z.eqb_eq. destruct (decide (w'.1 = w.1)) as [-> | Hne].
  - rewrite lookup_insert_eq. cbn. rewrite Z.land_lor_distr_l, Hw. apply Z.bits_inj'. intros n _.
    rewrite Z.lor_spec, Z.land_spec. by destruct (Z.testbit w.2 n), (Z.testbit w'.2 n).
  - by rewrite lookup_insert_ne.
Qed.
Lemma covers_or data w : covers (or_word data w) w = true.
Proof.
  unfold covers, or_word, word_at. apply Z.eqb_eq. rewrite lookup_insert_eq. cbn. apply Z.bits_inj'. intros n _.
  rewrite Z.land_spec, Z.lor_spec. by destruct (Z.testbit _ n), (Z.testbit w.2 n).
Qed.
Lemma covers_run data ws w : covers data w = true \/ w ∈ ws -> covers (fold_left or_word ws data) w = true.
Proof.
  revert data. induction ws as [| w' ws IH]; intros data Hw; cbn [fold_left].
  - destruct Hw as [| ?%not_elem_of_nil]; done.
  - apply IH. destruct Hw as [Hw | [-> | Hw]%elem_of_cons]; [left; by apply covers_or_keeps | left; apply covers_or | by right].
Qed.

Lemma DoubleProbe_words probes data a i h :
  DoubleProbe_loop probes data a i h = forallb (covers data) (probe_words probes a i h).
Proof.
  revert i h. induction probes as [| probes IH]; intros i h; cbn [DoubleProbe_loop probe_words forallb]; [done |].
  unfold covers at 1. cbn [fst snd]. destruct probes as [| probes]; cbn [Nat.eqb]; [by rewrite andb_true_r |].
  rewrite IH. by destruct (Z.land _ _ =? _).
Qed.
Lemma AddHash_words or_func probes data a i h : (forall word mask, or_func word mask = Z.lor word mask) ->
  AddHash_loop or_func probes data a i h = fold_left or_word (probe_words probes a i h) data.
Proof.
  intros Hor. revert data i h. induction probes as [| probes IH]; intros data i h; cbn [AddHash_loop probe_words fold_left]; [done |].
  by rewrite IH, Hor.
Qed.
Lemma or_concurrent word mask : (if negb (Z.land mask word =? mask) then Z.lor word mask else word) = Z.lor word mask.
Proof.
  destruct (Z.eqb_spec (Z.land mask word) mask) as [E |]; [| done]. cbn. symmetry. apply Z.bits_inj'. intros n _.
  rewrite Z.lor_spec. apply (f_equal (fun z => Z.testbit z n)) in E. rewrite Z.land_spec in E.
  by destruct (Z.testbit word n), (Z.testbit mask n).
Qed.
Lemma AddHash_data b h32 : data_ (AddHash b h32) = fold_left or_word (hash_words b h32) (data_ b).
Proof. apply AddHash_words. done. Qed.
Lemma MayContainHash_words b h32 : MayContainHash b h32 = forallb (covers (data_ b)) (hash_words b h32).
Proof. apply DoubleProbe_words. Qed.

(** * The words are in range *)

(** Changing the low bits of an index stays within its block. *)
Lemma lxor_in_block j a i len : 0 <= j -> 0 <= a < len -> 0 <= i < 2 ^ j -> len mod 2 ^ j = 0 -> 0 <= Z.lxor a i < len.
Proof.
  intros Hj Ha Hi Hlen. assert (0 <= Z.lxor a i) by (apply Z.lxor_nonneg; lia). split; [done |].
  assert (E : Z.lxor a i / 2 ^ j = a / 2 ^ j).
  { rewrite <- !Z.shiftr_div_pow2, Z.shiftr_lxor by lia. rewrite (Z.shiftr_div_pow2 i) by lia.
    rewrite (Z.div_small i) by lia. apply Z.lxor_0_r. }
  pose proof (Z.div_mod (Z.lxor a i) (2 ^ j) ltac:(lia)). pose proof (Z.mod_pos_bound (Z.lxor a i) (2 ^ j) ltac:(lia)).
  pose proof (Z.div_mod a (2 ^ j) ltac:(lia)). pose proof (Z.mod_pos_bound a (2 ^ j) ltac:(lia)).
  pose proof (Z.div_mod len (2 ^ j) ltac:(lia)). assert (a / 2 ^ j < len / 2 ^ j) by (apply Z.div_lt_upper_bound; lia). nia.
Qed.
Lemma probe_words_range j len probes a i h w : 0 <= j -> 0 <= a < len -> 0 <= i -> i + Z.of_nat probes <= 2 ^ j ->
  len mod 2 ^ j = 0 -> w ∈ probe_words probes a i h -> 0 <= w.1 < len.
Proof.
  revert i h. induction probes as [| probes IH]; intros i h Hj Ha Hi Hp Hlen; cbn [probe_words]; [by intros ?%not_elem_of_nil |].
  intros [-> | Hw]%elem_of_cons; [apply (lxor_in_block j); [done | done | lia | done] |].
  by apply (IH (i + 1) (next_probe h)); [done | done | lia | lia | done |].
Qed.

(** The length of a filter: whole blocks of words, enough for the probes of a pair. *)
Lemma bloom_len total_bits num_probes : 0 < total_bits -> num_probes ∈ [2; 4; 6; 8; 10] ->
  total_bits + 64 * roundUpToPow2 (num_probes / 2) <= 2 ^ 32 ->
  exists j, 0 <= j /\ num_probes / 2 <= 2 ^ j /\ kNumDoubleProbes (MakeDynamicBloom total_bits num_probes) = num_probes / 2 /\
    0 < kLen (MakeDynamicBloom total_bits num_probes) < 2 ^ 32 /\ kLen (MakeDynamicBloom total_bits num_probes) mod 2 ^ j = 0.
Proof.
  intros Ht Hn Hfit. unfold MakeDynamicBloom. cbn zeta. cbn [kLen kNumDoubleProbes].
  assert (exists j, 0 <= j <= 3 /\ num_probes / 2 <= 2 ^ j /\ roundUpToPow2 (num_probes / 2) = 2 ^ j /\
    u32 (num_probes + (if num_probes =? 1 then 1 else 0)) / 2 = num_probes / 2) as (j & Hj & Hle & Er & ->).
  { repeat (apply elem_of_cons in Hn as [-> | Hn]); [exists 0 | exists 1 | exists 2 | exists 2 | exists 3 | by apply not_elem_of_nil in Hn]; (split_and!; [lia | lia | by vm_compute | reflexivity | reflexivity]). }
  rewrite Er in *. exists j. assert (1 <= 2 ^ j <= 8) as HB.
  { split; [pose proof (Z.pow_pos_nonneg 2 j); lia |]. change 8 with (2 ^ 3). apply Z.pow_le_mono_r; lia. }
  set (B := 2 ^ j) in *. rewrite Z.max_r by lia. rewrite !(wrap_small 32 (8 * B)) by (unfold fits; lia).
  rewrite !(wrap_small 32 (8 * B * 8)) by (unfold fits; lia). rewrite (wrap_small 32 (total_bits + _ - 1)) by (unfold fits; lia).
  set (q := (total_bits + 8 * B * 8 - 1) / (8 * B * 8)).
  assert (Hq : 1 <= q /\ q * (8 * B * 8) <= total_bits + 8 * B * 8 - 1).
  { split; [apply Z.div_le_lower_bound; lia |]. rewrite Z.mul_comm. apply Z.mul_div_le. lia. }
  rewrite (wrap_small 32) by (unfold fits; nia). replace (q * (8 * B)) with (q * B * 8) by lia. rewrite Z.div_mul by lia.
  split_and!; [lia | done | done | nia | nia |]. apply Z.mod_mul. lia.
Qed.

(** * The filter of a memtable *)

Definition bloom_filter : MemTableFilter DynamicBloom := {|
  filter_Add := Bloom_Add;
  filter_MayContain := MayContain;
|}.
#[global] Instance bloom_filter_laws : MemTableFilterLaws (MF := bloom_filter) DynamicBloom.
Proof.
  split; cbn; unfold MayContain, Bloom_Add; intros b k *; rewrite !MayContainHash_words, ?AddHash_data, !forallb_forall.
  - intros w Hw. apply covers_run. right. by apply list_elem_of_In.
  - intros Hb w Hw. apply covers_run. left. by apply Hb.
Qed.

(** * Theorems *)

(** C24: the Bloom filter of a memtable has no false negatives and stays in its memory. Of a filter
    that was constructed for a number of bits that leaves room to round it up within 32 bits, and
    2 to 10 probes: every word that any hash probes lies below [kLen]; a key answers true once its
    words have been updated, whatever other updates of words (of calls of other threads, in any
    interleaving) come before, between and after them; the concurrent variant of [Add] leaves the
    same filter, and the overload for several keys gives the answer of each. A number of bits close
    to 2^32 overflows the rounding: the length is 0. *)
Theorem bloom_no_false_negatives total_bits num_probes (Ht : 0 < total_bits) (Hn : num_probes ∈ [2; 4; 6; 8; 10])
    (Hfit : total_bits + 64 * roundUpToPow2 (num_probes / 2) <= 2 ^ 32) (b := MakeDynamicBloom total_bits num_probes) :
  (forall key w, w ∈ hash_words b (BloomHash key) -> 0 <= w.1 < kLen b) /\
  (forall updates key, hash_words b (BloomHash key) ⊆ updates ->
    MayContain {| kLen := kLen b; kNumDoubleProbes := kNumDoubleProbes b; data_ := fold_left or_word updates (data_ b) |} key = true) /\
  (forall b key, AddConcurrently b key = Bloom_Add b key /\
    data_ (Bloom_Add b key) = fold_left or_word (hash_words b (BloomHash key)) (data_ b)) /\
  (forall b keys, MayContain_keys b keys = map (MayContain b) keys) /\
  kLen (MakeDynamicBloom (2 ^ 32 - 8) 6) = 0.
Proof.
  destruct (bloom_len total_bits num_probes Ht Hn Hfit) as (j & Hj & Hle & Ek & Hlen & Hmod). fold b in Ek, Hlen, Hmod. split_and!.
  - intros key w. unfold hash_words. apply (probe_words_range j); [done | | lia | | done].
    + apply FastRange32_range; [apply Hash_fits | unfold fits; lia | lia].
    + unfold num_double_probes. rewrite Ek. assert (1 <= 2 ^ j) by (pose proof (Z.pow_pos_nonneg 2 j); lia). lia.
  - intros updates key Hsub. unfold MayContain. rewrite MayContainHash_words. apply forallb_forall. intros w Hw. cbn [data_].
    apply covers_run. right. apply Hsub. by apply list_elem_of_In.
  - intros b' key. split; [| apply AddHash_data]. unfold AddConcurrently, Bloom_Add, AddHashConcurrently, AddHash, AddHash_with.
    by rewrite !AddHash_words by (done || (intros; apply or_concurrent)).
  - intros b' keys. unfold MayContain_keys. induction keys as [| k keys IH]; [done |]. cbn. by rewrite IH.
  - reflexivity.
Qed.

Lemma bloom_no_false_negatives_witness :
  (forall key w, w ∈ hash_words (MakeDynamicBloom 1000 6) (BloomHash key) -> 0 <= w.1 < 16) /\
  MayContain {| kLen := 16; kNumDoubleProbes := 3;
    data_ := fold_left or_word (hash_words (MakeDynamicBloom 1000 6) (BloomHash [Byte.x61])) ∅ |} [Byte.x61] = true.
Proof.
  destruct (bloom_no_false_negatives 1000 6) as (H1 & H2 & _); [lia | repeat constructor | vm_compute; discriminate |].
  split; [exact H1 |]. apply (H2 _ [Byte.x61]). intros w Hw. exact Hw.
Defined.
