(* ===== verification/RangeTombstones.v ===== *)
(** db/range_tombstone_fragmenter.{h,cc}: range tombstones that overlap are cut into
    fragments that do not, each with the sequence numbers of all the tombstones over it.

    The tombstones that are fragmented are a list of pairs of an internal key and an end
    key, as the iterator over them yields them. Positions in the vectors are indices, and
    the end of a vector is its length. *)

From stdpp Require Import gmap sorting.
From S2P Require Import Prelude Cursor Algorithms Coding Comparator DbFormat MemTable.

Record RangeTombstoneStack := {
  stack_start_key : bytes;
  stack_end_key : bytes;
  seq_start_idx : nat;
  seq_end_idx : nat;
}.
Record FragmentedRangeTombstoneList := {
  tombstones_ : list RangeTombstoneStack;
  tombstone_seqs_ : list Z;
  tombstone_timestamps_ : list bytes;
  num_unfragmented_tombstones_ : Z;
  total_tombstone_payload_bytes_ : Z;
}.
Definition no_fragments : FragmentedRangeTombstoneList :=
  {| tombstones_ := []; tombstone_seqs_ := []; tombstone_timestamps_ := [];
     num_unfragmented_tombstones_ := 0; total_tombstone_payload_bytes_ := 0 |}.

(** The elements from one position to another. *)
Definition sublist {A} (a b : nat) (l : list A) : list A := take (b - a) (drop a l).

Section Fragments.
Context {C : Comparator} {TC : TimestampComparator C}.

(** [std::set] of end keys, in the order of [ParsedInternalKeyComparator]. *)
Fixpoint end_keys_emplace (k : ParsedInternalKey) (s : list ParsedInternalKey) : list ParsedInternalKey :=
  match s with
  | [] => [k]
  | x :: s' =>
      let c := InternalKeyComparator_Compare_parsed k x in
      if c <? 0 then k :: s else if c =? 0 then s else x :: end_keys_emplace k s'
  end.

(** The sequence numbers, in descending order, of which each is the largest one that some
    snapshot sees. *)
Fixpoint preserved_by_snapshots (snapshots : list Z) (next_snapshot : Z) (seqnums : list Z) : list Z :=
  match seqnums with
  | [] => []
  | seq :: seqnums =>
      if seq <=? next_snapshot then
        seq :: match first_index (fun s => negb (s <? seq)) snapshots with
               | O => []
               | S i => preserved_by_snapshots snapshots (nth i snapshots 0) seqnums
               end
      else preserved_by_snapshots snapshots next_snapshot seqnums
  end.

Section Compaction.
Context (for_compaction : bool) (snapshots : list Z).

Definition flush_seqnums (seqnums_to_flush : list Z) : list Z :=
  let sorted := sort Z.gtb seqnums_to_flush in
  if for_compaction && (timestamp_size =? 0) then preserved_by_snapshots snapshots kMaxSequenceNumber sorted else sorted.
Definition flush_timestamps (keys : list ParsedInternalKey) : list bytes :=
  if timestamp_size =? 0 then []
  else sort (fun ts1 ts2 => CompareTimestamp ts1 ts2 >? 0)
         (map (fun k => ExtractTimestampFromUserKey (user_key k) timestamp_size) keys).

(** One fragment, from [cur_start_key] to [cur_end_key], with the tombstones that have [keys]. *)
Definition flush_fragment (cur_start_key cur_end_key : bytes) (keys : list ParsedInternalKey)
    (l : FragmentedRangeTombstoneList) : FragmentedRangeTombstoneList :=
  let seqs := tombstone_seqs_ l ++ flush_seqnums (map sequence keys) in
  let with_max_ts key := if timestamp_size =? 0 then key else AppendUserKeyWithMaxTimestamp [] key timestamp_size in
  {| tombstones_ := tombstones_ l ++
       [{| stack_start_key := with_max_ts cur_start_key; stack_end_key := with_max_ts cur_end_key;
           seq_start_idx := length (tombstone_seqs_ l); seq_end_idx := length seqs |}];
     tombstone_seqs_ := seqs;
     tombstone_timestamps_ := tombstone_timestamps_ l ++ flush_timestamps keys;
     num_unfragmented_tombstones_ := num_unfragmented_tombstones_ l;
     total_tombstone_payload_bytes_ := total_tombstone_payload_bytes_ l |}.

(** The loop over the end keys from [it] on: the end keys that are left, if the next start key
    was reached, and the list. *)
Fixpoint flush_loop (next_start_key cur_start_key : bytes) (it : list ParsedInternalKey)
    (l : FragmentedRangeTombstoneList) : list ParsedInternalKey * FragmentedRangeTombstoneList :=
  match it with
  | [] => ([], l)
  | e :: it' =>
      let cur_end_key := user_key e in
      if CompareWithoutTimestamp cur_start_key cur_end_key =? 0 then flush_loop next_start_key cur_start_key it' l
      else if CompareWithoutTimestamp next_start_key cur_end_key <=? 0 then
        (it, flush_fragment cur_start_key next_start_key it l)
      else flush_loop next_start_key cur_end_key it' (flush_fragment cur_start_key cur_end_key it l)
  end.

(** A tombstone of the iterator, in its order. *)
Definition fragment_step (st : bytes * list ParsedInternalKey * FragmentedRangeTombstoneList) (t : bytes * bytes)
    : bytes * list ParsedInternalKey * FragmentedRangeTombstoneList :=
  let '(cur_start_key, cur_end_keys, l) := st in
  let tombstone_start_key := ExtractUserKey t.1 in
  let '(cur_end_keys, l) :=
    match cur_end_keys with
    | [] => (cur_end_keys, l)
    | _ => if negb (CompareWithoutTimestamp cur_start_key tombstone_start_key =? 0)
           then flush_loop tombstone_start_key cur_start_key cur_end_keys l
           else (cur_end_keys, l)
    end in
  (tombstone_start_key,
   end_keys_emplace {| user_key := t.2; sequence := GetInternalKeySeqno t.1; type := kTypeRangeDeletion |} cur_end_keys, l).
Definition FragmentTombstones (unfragmented_tombstones : list (bytes * bytes)) (l : FragmentedRangeTombstoneList)
    : FragmentedRangeTombstoneList :=
  let '(cur_start_key, cur_end_keys, l) := fold_left fragment_step unfragmented_tombstones ([], [], l) in
  match cur_end_keys with
  | [] => l
  | e :: rest => (flush_loop (user_key (List.last rest e)) cur_start_key cur_end_keys l).2
  end.

(** The scan for the order: whether it is kept, how many were seen before the first that is out
    of order, and the bytes of those that were looked at. *)
Fixpoint scan_sorted (last_start_key : option bytes) (num payload : Z) (ts : list (bytes * bytes)) : bool * Z * Z :=
  match ts with
  | [] => (true, num, payload)
  | (k, v) :: ts =>
      let payload := payload + (slen k + slen v) in
      if match last_start_key with Some last => InternalKeyComparator_Compare last k >? 0 | None => false end
      then (false, num, payload)
      else scan_sorted (Some k) (num + 1) payload ts
  end.
Definition MakeFragmentedRangeTombstoneList (unfragmented_tombstones : list (bytes * bytes)) (tombstone_end_include_ts : bool)
    : FragmentedRangeTombstoneList :=
  let '(is_sorted, num, payload) := scan_sorted None 0 0 unfragmented_tombstones in
  let pad_min_ts_for_end := (timestamp_size >? 0) && negb tombstone_end_include_ts in
  let counted num payload :=
    {| tombstones_ := []; tombstone_seqs_ := []; tombstone_timestamps_ := [];
       num_unfragmented_tombstones_ := num; total_tombstone_payload_bytes_ := payload |} in
  if is_sorted && negb pad_min_ts_for_end then FragmentTombstones unfragmented_tombstones (counted num payload)
  else
    let payload := foldr (fun t n => slen t.1 + slen t.2 + n) 0 unfragmented_tombstones in
    let ts := map (fun t => (t.1, if pad_min_ts_for_end then AppendKeyWithMinTimestamp [] t.2 timestamp_size else t.2))
                unfragmented_tombstones in
    FragmentTombstones (sort (fun a b => InternalKeyComparator_Compare a.1 b.1 <? 0) ts)
      (counted num (payload + (if pad_min_ts_for_end then num * timestamp_size else 0))).
End Compaction.

Definition ContainsRange (l : FragmentedRangeTombstoneList) (lower upper : Z) : bool :=
  existsb (fun s => (lower <=? s) && (s <=? upper)) (tombstone_seqs_ l).

(** * The iterator over the fragments *)

Record FragmentedRangeTombstoneIterator := {
  pos_ : nat;
  seq_pos_ : nat;
  upper_bound_ : Z;
  lower_bound_ : Z;
  ts_upper_bound_ : option bytes;
}.

Section Iterator.
Context (l : FragmentedRangeTombstoneList).
Implicit Types (it : FragmentedRangeTombstoneIterator).

Definition set_position it (pos seq_pos : nat) : FragmentedRangeTombstoneIterator :=
  {| pos_ := pos; seq_pos_ := seq_pos; upper_bound_ := upper_bound_ it; lower_bound_ := lower_bound_ it;
     ts_upper_bound_ := ts_upper_bound_ it |}.
Definition Invalidate it : FragmentedRangeTombstoneIterator :=
  set_position it (length (tombstones_ l)) (length (tombstone_seqs_ l)).
Definition NewTombstoneIterator (upper_bound : Z) (ts_upper_bound : option bytes) (lower_bound : Z)
    : FragmentedRangeTombstoneIterator :=
  {| pos_ := length (tombstones_ l); seq_pos_ := length (tombstone_seqs_ l); upper_bound_ := upper_bound;
     lower_bound_ := lower_bound; ts_upper_bound_ := ts_upper_bound |}.

Definition SetTimestampUpperBound it (ts_upper_bound : option bytes) : FragmentedRangeTombstoneIterator :=
  {| pos_ := pos_ it; seq_pos_ := seq_pos_ it; upper_bound_ := upper_bound_ it; lower_bound_ := lower_bound_ it;
     ts_upper_bound_ := ts_upper_bound |}.

(** [seq_pos_] for the stack at [pos_]. *)
Definition SetMaxVisibleSeqAndTimestamp it (st : RangeTombstoneStack) (pos : nat) : FragmentedRangeTombstoneIterator :=
  let range {A} (v : list A) := sublist (seq_start_idx st) (seq_end_idx st) v in
  let seq_idx := first_index (fun s => negb (s >? upper_bound_ it)) (range (tombstone_seqs_ l)) in
  let idx :=
    match ts_upper_bound_ it with
    | Some (b :: ts) =>
        let ts_idx := first_index (fun t => negb (CompareTimestamp t (b :: ts) >? 0)) (range (tombstone_timestamps_ l)) in
        if (seq_idx <? ts_idx)%nat then ts_idx else seq_idx
    | _ => seq_idx
    end in
  set_position it pos (seq_start_idx st + idx).

(** A position: at a stack the visible sequence number is found, at the end there is none. *)
Definition settle it (pos : nat) : FragmentedRangeTombstoneIterator :=
  match tombstones_ l !! pos with
  | Some st => SetMaxVisibleSeqAndTimestamp it st pos
  | None => set_position it pos (length (tombstone_seqs_ l))
  end.
Definition SeekToCoveringTombstone it (target : bytes) : FragmentedRangeTombstoneIterator :=
  settle it (first_index (fun st => CompareWithoutTimestamp target (stack_end_key st) <? 0) (tombstones_ l)).
Definition SeekForPrevToCoveringTombstone it (target : bytes) : FragmentedRangeTombstoneIterator :=
  match first_index (fun st => CompareWithoutTimestamp target (stack_start_key st) <? 0) (tombstones_ l) with
  | O => Invalidate it
  | S pos => settle it pos
  end.

(** Whether the stack at the position has nothing that is visible. *)
Definition stack_hidden it : bool :=
  match tombstones_ l !! pos_ it with
  | Some st => (seq_pos_ it =? seq_end_idx st)%nat || (nth (seq_pos_ it) (tombstone_seqs_ l) 0 <? lower_bound_ it)
  | None => false
  end.
Fixpoint ScanForwardToVisibleTombstone (fuel : nat) it : FragmentedRangeTombstoneIterator :=
  match fuel with
  | O => it
  | S fuel =>
      if stack_hidden it then
        if (S (pos_ it) =? length (tombstones_ l))%nat then Invalidate it
        else ScanForwardToVisibleTombstone fuel (settle it (S (pos_ it)))
      else it
  end.
Fixpoint ScanBackwardToVisibleTombstone (fuel : nat) it : FragmentedRangeTombstoneIterator :=
  match fuel with
  | O => it
  | S fuel =>
      if stack_hidden it then
        match pos_ it with
        | O => Invalidate it
        | S pos => ScanBackwardToVisibleTombstone fuel (settle it pos)
        end
      else it
  end.
(** Each round leaves a stack behind. *)
Definition scan_forward := ScanForwardToVisibleTombstone (S (length (tombstones_ l))).
Definition scan_backward := ScanBackwardToVisibleTombstone (S (length (tombstones_ l))).

Definition SeekToFirst it : FragmentedRangeTombstoneIterator := set_position it 0 0.
Definition SeekToTopFirst it : FragmentedRangeTombstoneIterator :=
  match tombstones_ l with [] => Invalidate it | _ => scan_forward (settle it 0) end.
Definition SeekToTopLast it : FragmentedRangeTombstoneIterator :=
  match tombstones_ l with [] => Invalidate it | _ => scan_backward (settle it (length (tombstones_ l) - 1)) end.
Definition Tombstone_Seek it (target : bytes) : FragmentedRangeTombstoneIterator :=
  match tombstones_ l with [] => Invalidate it | _ => scan_forward (SeekToCoveringTombstone it target) end.
Definition Tombstone_SeekForPrev it (target : bytes) : FragmentedRangeTombstoneIterator :=
  match tombstones_ l with [] => Invalidate it | _ => scan_backward (SeekForPrevToCoveringTombstone it target) end.
Definition TopNext it : FragmentedRangeTombstoneIterator :=
  let pos := S (pos_ it) in
  match tombstones_ l !! pos with
  | Some st => scan_forward (SetMaxVisibleSeqAndTimestamp it st pos)
  | None => set_position it pos (seq_pos_ it)
  end.
Definition SeekToLast it : FragmentedRangeTombstoneIterator :=
  set_position it (length (tombstones_ l) - 1) (length (tombstone_seqs_ l) - 1).
Definition Tombstone_Next it : FragmentedRangeTombstoneIterator :=
  let seq_pos := S (seq_pos_ it) in
  match tombstones_ l !! pos_ it with
  | Some st => set_position it (if (seq_pos =? seq_end_idx st)%nat then S (pos_ it) else pos_ it) seq_pos
  | None => set_position it (pos_ it) seq_pos
  end.
Definition Tombstone_Prev it : FragmentedRangeTombstoneIterator :=
  match seq_pos_ it with
  | O => Invalidate it
  | S seq_pos =>
      let back := match tombstones_ l !! pos_ it with
                  | Some st => (S seq_pos =? seq_start_idx st)%nat
                  | None => true
                  end in
      set_position it (if back then pos_ it - 1 else pos_ it)%nat seq_pos
  end.
Definition TopPrev it : FragmentedRangeTombstoneIterator :=
  match pos_ it with O => Invalidate it | S pos => scan_backward (settle it pos) end.

Definition ValidPos it : bool :=
  match tombstones_ l !! pos_ it with Some st => negb (seq_pos_ it =? seq_end_idx st)%nat | None => false end.
Definition MaxCoveringTombstoneSeqnum_at it (target_user_key : bytes) : Z * FragmentedRangeTombstoneIterator :=
  let it := SeekToCoveringTombstone it target_user_key in
  (match tombstones_ l !! pos_ it with
   | Some st => if ValidPos it && (CompareWithoutTimestamp (stack_start_key st) target_user_key <=? 0)
                then nth (seq_pos_ it) (tombstone_seqs_ l) 0 else 0
   | None => 0
   end, it).

(** The iterators over stripes of sequence numbers, with their upper bounds. *)
Fixpoint split_stripes it (lower : Z) (uppers : list Z) : list (Z * FragmentedRangeTombstoneIterator) :=
  match uppers with
  | [] => []
  | upper :: uppers =>
      (if ContainsRange l lower upper then [(upper, NewTombstoneIterator upper (ts_upper_bound_ it) lower)] else []) ++
      split_stripes it (upper + 1) uppers
  end.
Definition SplitBySnapshot it (snapshots : list Z) : list (Z * FragmentedRangeTombstoneIterator) :=
  split_stripes it 0 (snapshots ++ [kMaxSequenceNumber]).

Definition tombstone_timestamp it : bytes := nth (seq_pos_ it) (tombstone_timestamps_ l) [].
End Iterator.

(** * The tombstones of a memtable *)

(** [MemTableIterator::key] and [MemTableIterator::value]. *)
Definition MemTableIterator_entry (entry : bytes) : bytes * bytes :=
  (GetLengthPrefixedSlice_ptr entry,
   match GetVarint32Ptr entry with
   | Some (key_length, rest) => GetLengthPrefixedSlice_ptr (sdrop key_length rest)
   | None => []
   end).
Definition NewRangeTombstoneIteratorInternal (entries : list bytes) (read_seq : Z) (ts : option bytes)
    : FragmentedRangeTombstoneList * FragmentedRangeTombstoneIterator :=
  let l := MakeFragmentedRangeTombstoneList false [] (map MemTableIterator_entry entries) true in
  (l, NewTombstoneIterator l read_seq ts 0).
Definition fragmented_tombstones : RangeTombstones := {|
  MaxCoveringTombstoneSeqnum entries read_seq ts user_key :=
    let '(l, it) := NewRangeTombstoneIteratorInternal entries read_seq ts in
    let '(seq, it) := MaxCoveringTombstoneSeqnum_at l it user_key in
    (seq, tombstone_timestamp l it)
|}.
End Fragments.
