(* ===== verification/RangeTombstonesProofs.v ===== *)
(** Fragmentation keeps what the tombstones cover: at every key the stack of the fragment
    over it holds the sequence numbers of the tombstones over it. *)

From stdpp Require Import gmap sorting.
From S2P Require Import Prelude Cursor Algorithms Coding Comparator DbFormat MemTable MemTableSpec RangeTombstones.

(** * Visible sequence numbers *)

(** The first sequence number of a stack that a read sees. *)
Definition visible_seq (upper : Z) (seqs : list Z) : Z := default 0 (List.find (fun s => s <=? upper) seqs).

Definition max_upto (upper : Z) (seqs : list Z) : Z := foldr Z.max 0 (List.filter (fun s => s <=? upper) seqs).

Lemma max_upto_cases upper seqs : Forall (fun s => 0 <= s) seqs ->
  (max_upto upper seqs = 0 \/ max_upto upper seqs ∈ seqs /\ max_upto upper seqs <= upper) /\
  forall s, s ∈ seqs -> s <= upper -> s <= max_upto upper seqs.
Proof.
  unfold max_upto. induction 1 as [| s seqs Hs Hall IH]; cbn; [split; [by left | by intros ? ?%not_elem_of_nil] |].
  destruct IH as [IH1 IH2]. set (m := foldr Z.max 0 _) in *.
  destruct (Z.leb_spec s upper) as [Hle | Hgt]; cbn [foldr].
  - split.
    + fold m. destruct (Z.max_spec s m) as [[_ ->] | [_ ->]]; [| right; split; [by left | done]].
      destruct IH1 as [| []]; [by left | right; split; [by right | done]].
    + intros s' [-> | Hs']%elem_of_cons Hle'; fold m; [lia |]. specialize (IH2 s' Hs' Hle'). lia.
  - fold m. split; [destruct IH1 as [| []]; [by left | right; split; [by right | done]] |].
    intros s' [-> | Hs']%elem_of_cons Hle'; [lia | by apply IH2].
Qed.
Lemma max_upto_set upper l l' : Forall (fun s => 0 <= s) l -> (forall s, s ∈ l <-> s ∈ l') -> max_upto upper l = max_upto upper l'.
Proof.
  intros Hl E. assert (Hl' : Forall (fun s => 0 <= s) l').
  { rewrite list.Forall_forall in *. intros s Hs. by apply Hl, E. }
  destruct (max_upto_cases upper l Hl) as [H1 H2], (max_upto_cases upper l' Hl') as [H1' H2'].
  assert (0 <= max_upto upper l /\ 0 <= max_upto upper l') as [? ?].
  { split; [destruct H1 as [-> | [Hin _]] | destruct H1' as [-> | [Hin _]]]; try done;
      [by apply (proj1 (list.Forall_forall _ _) Hl) | by apply (proj1 (list.Forall_forall _ _) Hl')]. }
  destruct H1 as [E1 | [Hin Hle]], H1' as [E1' | [Hin' Hle']].
  - congruence.
  - apply E in Hin'. specialize (H2 _ Hin' Hle'). lia.
  - apply E in Hin. specialize (H2' _ Hin Hle). lia.
  - apply E in Hin'. specialize (H2 _ Hin' Hle'). apply E in Hin. specialize (H2' _ Hin Hle). lia.
Qed.

(** In descending order the first visible one is the largest. *)
Lemma visible_sorted upper l : StronglySorted (fun a b => b <= a) l -> Forall (fun s => 0 <= s) l ->
  visible_seq upper l = max_upto upper l.
Proof.
  unfold visible_seq, max_upto. induction 1 as [| s l Hs IH Hf]; intros Hl; cbn; [done |]. apply list.Forall_cons in Hl as [Hs0 Hl].
  destruct (s <=? upper) eqn:E; [| by apply IH]. cbn [foldr]. cbn. symmetry. apply Z.max_l. fold (max_upto upper l).
  destruct (max_upto_cases upper l Hl) as [[-> | [Hin _]] _]; [done |]. by apply (proj1 (list.Forall_forall _ _) Hf).
Qed.

(** * Snapshots *)

Section Snapshots.
Context (snapshots : list Z) (Hsnap : StronglySorted Z.lt snapshots).

(** The largest snapshot below [seq] is before the first that is not. *)
Lemma snapshot_below seq i : first_index (fun s => negb (s <? seq)) snapshots = S i ->
  nth i snapshots 0 < seq /\ forall s, s ∈ snapshots -> s < seq -> s <= nth i snapshots 0.
Proof using Hsnap.
  intros E. pose proof (first_index_le (fun s => negb (s <? seq)) snapshots) as Hlen.
  destruct (lookup_lt_is_Some_2 snapshots i) as [x Hx]; [lia |]. rewrite (nth_lookup_Some _ _ _ _ Hx).
  assert (x < seq) as Hlt.
  { destruct (Z.ltb_spec x seq) as [| Hge]; [done |]. exfalso.
    pose proof (first_index_at (fun s => negb (s <? seq)) snapshots i x Hx) as Hat. rewrite E in Hat.
    rewrite (proj2 (Z.ltb_ge _ _)) in Hat by done. specialize (Hat eq_refl). lia. }
  split; [done |]. intros s [j Hj]%list_elem_of_lookup Hs. destruct (decide (j <= i)%nat) as [Hji |].
  - destruct (decide (j = i)) as [-> |]; [rewrite Hx in Hj; injection Hj as ->; lia |].
    pose proof (StronglySorted_lookup_lt _ _ j i s x Hsnap ltac:(lia) Hj Hx). lia.
  - exfalso. destruct (lookup_lt_is_Some_2 snapshots (S i)) as [y Hy]; [apply lookup_lt_Some in Hj; lia |].
    pose proof (first_index_holds (fun s => negb (s <? seq)) snapshots y) as Hh. rewrite E in Hh. specialize (Hh Hy).
    apply negb_true_iff, Z.ltb_ge in Hh. destruct (decide (j = S i)) as [-> |]; [rewrite Hy in Hj; injection Hj as ->; lia |].
    pose proof (StronglySorted_lookup_lt _ _ (S i) j y s Hsnap ltac:(lia) Hy Hj). lia.
Qed.

(** What a snapshot sees first is not dropped. *)
Lemma preserved_visible upper next seqs : upper ∈ snapshots \/ Forall (fun s => s <= upper) seqs -> upper <= next \/ Forall (fun s => s <= next) seqs ->
  visible_seq upper (preserved_by_snapshots snapshots next seqs) = visible_seq upper seqs.
Proof using Hsnap.
  unfold visible_seq. revert next. induction seqs as [| seq seqs IH]; intros next Hup Hnext; cbn; [done |].
  assert (Hup' : upper ∈ snapshots \/ Forall (fun s => s <= upper) seqs).
  { destruct Hup as [| Hup]; [by left | right]. by apply list.Forall_cons in Hup as [_ ?]. }
  destruct (Z.leb_spec seq next) as [Hle | Hgt].
  - cbn. destruct (Z.leb_spec seq upper) as [| Hgt]; [done |].
    destruct Hup as [Hup | Hup]; [| apply list.Forall_cons in Hup as [? _]; lia].
    destruct (first_index _ _) as [| i] eqn:Ei.
    + exfalso. apply list_elem_of_lookup in Hup as [j Hj]. destruct (lookup_lt_is_Some_2 snapshots 0) as [y Hy]; [apply lookup_lt_Some in Hj; lia |].
      pose proof (first_index_holds (fun s => negb (s <? seq)) snapshots y) as Hh. rewrite Ei in Hh. specialize (Hh Hy).
      apply negb_true_iff, Z.ltb_ge in Hh. destruct (decide (j = 0)%nat) as [-> |]; [rewrite Hy in Hj; injection Hj as ->; lia |].
      pose proof (StronglySorted_lookup_lt _ _ 0 j y upper Hsnap ltac:(lia) Hy Hj). lia.
    + apply IH; [done |]. left. by apply (snapshot_below seq i Ei).
  - destruct (Z.leb_spec seq upper) as [| Hgt']; [| apply IH; [done |]].
    + destruct Hnext as [| Hnext]; [lia |]. apply list.Forall_cons in Hnext as [? _]. lia.
    + destruct Hnext as [| Hnext]; [by left | right]. by apply list.Forall_cons in Hnext as [_ ?].
Qed.
End Snapshots.

(** * Fragments *)

Section Cover.
Context {C : Comparator} {CL : ComparatorLaws C} {TC : TimestampComparator C} {TCL : TimestampComparatorLaws C}
  (Hts : timestamp_size = 0) (for_compaction : bool) (snapshots : list Z).

Lemma cwt a b : CompareWithoutTimestamp a b = Compare a b.
Proof using TCL Hts. by apply CompareWithoutTimestamp_spec. Qed.

Definition covers (T : list (bytes * bytes)) (u : bytes) (q : Z) : Prop :=
  exists t, t ∈ T /\ Compare (ExtractUserKey t.1) u <= 0 /\ Compare u t.2 < 0 /\ GetInternalKeySeqno t.1 = q.

(** The fragments of a list, with their sequence numbers. *)
Definition fragment : Type := bytes * bytes * list Z.
Implicit Types (F : list fragment) (l : FragmentedRangeTombstoneList) (E : list ParsedInternalKey) (T : list (bytes * bytes)).
Definition fragments l : list fragment :=
  map (fun st => (stack_start_key st, stack_end_key st, sublist (seq_start_idx st) (seq_end_idx st) (tombstone_seqs_ l))) (tombstones_ l).
Definition indices_ok l : Prop :=
  Forall (fun st => (seq_start_idx st <= seq_end_idx st <= length (tombstone_seqs_ l))%nat) (tombstones_ l) /\
  tombstone_timestamps_ l = [].

Lemma sublist_app {A} a b (v w : list A) : (a <= b <= length v)%nat -> sublist a b (v ++ w) = sublist a b v.
Proof. intros Hb. unfold sublist. rewrite drop_app_le by lia. apply take_app_le. rewrite length_drop. lia. Qed.

Lemma flush_fragment_spec a b keys l : indices_ok l ->
  indices_ok (flush_fragment for_compaction snapshots a b keys l) /\
  fragments (flush_fragment for_compaction snapshots a b keys l) =
    fragments l ++ [(a, b, flush_seqnums for_compaction snapshots (map sequence keys))].
Proof using Hts.
  intros [Hl Ht]. unfold flush_fragment, indices_ok, fragments, flush_timestamps. rewrite Hts, Ht.
  cbn [Z.eqb tombstones_ tombstone_seqs_ tombstone_timestamps_]. split.
  - split; [| done]. rewrite list.Forall_app. split; [| repeat constructor; cbn; rewrite ?length_app; lia].
    eapply list.Forall_impl; [apply Hl |]. cbn. intros st Hst. rewrite length_app. lia.
  - rewrite map_app. f_equal.
    + apply map_ext_in. intros st Hst. apply list_elem_of_In in Hst. rewrite sublist_app; [done |].
      by apply (proj1 (list.Forall_forall _ _) Hl).
    + cbn. unfold sublist. by rewrite length_app, drop_app_length, Nat.add_comm, Nat.add_sub, firstn_all.
Qed.

(** The stack over a key. *)
Definition over (u : bytes) (f : fragment) : bool := (Compare f.1.1 u <=? 0) && (Compare u f.1.2 <? 0).
Definition stack_over F (u : bytes) : list Z := match List.find (over u) F with Some f => f.2 | None => [] end.

(** Fragments in order, up to [c]. *)
Definition ordered F : Prop :=
  StronglySorted (fun f g : fragment => Compare f.1.2 g.1.1 <= 0) F /\ Forall (fun f : fragment => Compare f.1.1 f.1.2 < 0) F.
Definition ordered_upto F (c : bytes) : Prop := ordered F /\ Forall (fun f : fragment => Compare f.1.2 c <= 0) F.

Lemma find_beyond F c u : Forall (fun f : fragment => Compare f.1.2 c <= 0) F -> Compare c u <= 0 -> List.find (over u) F = None.
Proof using CL.
  intros HF Hu. apply find_Forall. eapply list.Forall_impl; [apply HF |]. intros f Hle. cbn in Hle. unfold over.
  apply andb_false_iff. right. apply Z.ltb_ge. pose proof (cmp_trans (cmp := Compare) f.1.2 c u Hle Hu). order_sgn Compare. lia.
Qed.
Lemma ordered_snoc F c a b s : ordered_upto F c -> Compare c a <= 0 -> Compare a b < 0 -> ordered_upto (F ++ [(a, b, s)]) b.
Proof using CL.
  intros ((H1 & H2) & H3) Hc Hab. split; [split |].
  - apply StronglySorted_app. split_and!; [| done | repeat constructor]. intros f g Hf ->%list_elem_of_singleton. cbn.
    apply (cmp_trans _ c); [| done]. by apply (proj1 (list.Forall_forall _ _) H3).
  - rewrite list.Forall_app. split; [done | by repeat constructor].
  - rewrite list.Forall_app. split; [| repeat constructor; cbn; by rewrite cmp_refl].
    eapply list.Forall_impl; [apply H3 |]. cbn. intros f Hf. apply (cmp_trans _ c); [done |]. apply (cmp_trans _ a); [done | lia].
Qed.

(** The stack over [u] is that of the tombstones over it. *)
Definition stack_ok T F (u : bytes) : Prop :=
  exists L, stack_over F u = flush_seqnums for_compaction snapshots L /\ forall q, q ∈ L <-> covers T u q.

Lemma flush_seqnums_nil : flush_seqnums for_compaction snapshots [] = [].
Proof. unfold flush_seqnums. cbn. by destruct (_ && _). Qed.
Lemma stack_ok_none T F u : List.find (over u) F = None -> (forall q, ~ covers T u q) -> stack_ok T F u.
Proof.
  intros HF Hc. exists []. split; [unfold stack_over; by rewrite HF, flush_seqnums_nil |].
  intros q. split; [by intros ?%not_elem_of_nil | by intros ?%Hc].
Qed.

(** The end keys from [c] on: those of the tombstones over the keys that are not before [c]. *)
Record sweep T (c : bytes) E l : Prop := {
  sw_indices : indices_ok l;
  sw_ordered : ordered_upto (fragments l) c;
  sw_before u : Compare u c < 0 -> stack_ok T (fragments l) u;
  sw_after u q : Compare c u <= 0 -> covers T u q <-> exists e, e ∈ E /\ Compare u (user_key e) < 0 /\ sequence e = q;
  sw_sorted : StronglySorted (fun a b => Compare (user_key a) (user_key b) <= 0) E;
  sw_ends : Forall (fun e => Compare c (user_key e) <= 0) E;
}.

(** A next position with no tombstone left. *)
Lemma ordered_upto_le F c c' : ordered_upto F c -> Compare c c' <= 0 -> ordered_upto F c'.
Proof using CL.
  intros [Ho Hf] Hc. split; [done |]. eapply list.Forall_impl; [apply Hf |]. intros f ?. by apply (cmp_trans _ c).
Qed.
Lemma sweep_end T c c' l : sweep T c [] l -> Compare c c' <= 0 -> sweep T c' [] l.
Proof using CL.
  intros [Hi Ho Hb Ha _ _] Hc. assert (Hno : forall u q, Compare c u <= 0 -> ~ covers T u q).
  { intros u q Hu Hq. apply (Ha u q Hu) in Hq as (e & He & _). by apply not_elem_of_nil in He. }
  split; [done | by apply (ordered_upto_le _ c) | | | constructor | constructor].
  - intros u Hu. destruct (Z.ltb_spec (Compare u c) 0) as [Hlt | Hge]; [by apply Hb |].
    assert (Compare c u <= 0) by (order_sgn Compare; lia).
    apply stack_ok_none; [by apply (find_beyond _ c); [apply Ho |] | intros q; by apply Hno].
  - intros u q Hu. split; [| by intros (e & ?%not_elem_of_nil & _)].
    intros Hq. exfalso. apply (Hno u q); [| done]. by apply (cmp_trans _ c').
Qed.
Lemma sweep_congr T c c' E l : sweep T c E l -> Compare c c' = 0 -> sweep T c' E l.
Proof using CL.
  intros [Hi Ho Hb Ha Hs He] Hc. assert (Hc' : Compare c' c <= 0) by (order_sgn Compare; lia).
  split; [done | apply (ordered_upto_le _ c); [done | lia] | | | done |].
  - intros u Hu. apply Hb. by apply (cmp_lt_le_trans _ c').
  - intros u q Hu. apply Ha. apply (cmp_trans _ c'); [lia | done].
  - eapply list.Forall_impl; [apply He |]. cbn. intros e ?. by apply (cmp_trans _ c).
Qed.

(** An end key that is passed. *)
Lemma sweep_tail T c e E l : sweep T c (e :: E) l -> Compare (user_key e) c <= 0 -> sweep T c E l.
Proof using CL.
  intros [Hi Ho Hb Ha Hs He] Hc. apply list.Forall_cons in He as [_ He]. inversion Hs; subst.
  split; try done. intros u q Hu. rewrite Ha by done. split; intros (e' & He' & Hlt & Hq).
  - apply elem_of_cons in He' as [-> |]; [| by exists e']. exfalso.
    pose proof (cmp_trans (cmp := Compare) _ _ _ Hc Hu). order_sgn Compare. lia.
  - exists e'. split; [by right | done].
Qed.

(** A fragment, up to a key that no end key is before. *)
Lemma stack_over_snoc F c a b s u : Forall (fun f : fragment => Compare f.1.2 c <= 0) F -> Compare c a <= 0 ->
  stack_over (F ++ [(a, b, s)]) u =
  if (Compare a u <=? 0) && (Compare u b <? 0) then s else stack_over F u.
Proof using CL.
  intros HF Hc. unfold stack_over. rewrite find_snoc. change (over u (a, b, s)) with ((Compare a u <=? 0) && (Compare u b <? 0)).
  destruct (Z.leb_spec (Compare a u) 0) as [Hu |]; cbn.
  - rewrite (find_beyond F c) by (done || by apply (cmp_trans _ a)). by destruct (_ <? _).
  - by destruct (List.find _ F).
Qed.
Lemma sweep_flush T c b E l : sweep T c E l -> Compare c b < 0 -> Forall (fun e => Compare b (user_key e) <= 0) E ->
  sweep T b E (flush_fragment for_compaction snapshots c b E l).
Proof using CL Hts.
  intros [Hi Ho Hb Ha Hs He] Hcb HE. destruct (flush_fragment_spec c b E l Hi) as [Hi' Hf].
  assert (Hcc : Compare c c <= 0) by (by rewrite cmp_refl). split; [done | | | | done | done].
  - rewrite Hf. by apply (ordered_snoc _ c).
  - intros u Hu. unfold stack_ok. rewrite Hf, (stack_over_snoc _ c) by (apply Ho || done). rewrite (proj2 (Z.ltb_lt _ _) Hu), andb_true_r.
    destruct (Z.leb_spec (Compare c u) 0) as [Hcu |]; [| apply Hb; order_sgn Compare; lia].
    exists (map sequence E). split; [done |]. intros q. rewrite (Ha u q Hcu), list_elem_of_In, in_map_iff. split.
    + intros (e & <- & Hin%list_elem_of_In). exists e. split_and!; [done | | done].
      apply (cmp_lt_le_trans _ b); [done |]. by apply (proj1 (list.Forall_forall _ _) HE).
    + intros (e & Hin%list_elem_of_In & _ & <-). by exists e.
  - intros u q Hu. apply Ha. apply (cmp_trans _ b); [lia | done].
Qed.

(** Flushing up to the next start key. *)
Lemma flush_loop_sweep T next E c l : sweep T c E l -> Compare c next <= 0 ->
  Compare c next < 0 \/ Forall (fun e => Compare (user_key e) next <= 0) E ->
  let r := flush_loop for_compaction snapshots next c E l in
  sweep T next r.1 r.2 /\ r.1 ⊆ E.
Proof using CL TCL Hts.
  revert c l. induction E as [| e E IH]; intros c l Hsw Hle Hor; cbn [flush_loop]; rewrite ?cwt.
  { split; [by apply (sweep_end _ c) | done]. }
  assert (Hce : Compare c (user_key e) <= 0) by by (destruct Hsw as [_ _ _ _ _ He]; apply list.Forall_cons in He as [? _]).
  assert (HE : Forall (fun e' => Compare (user_key e) (user_key e') <= 0) (e :: E)).
  { destruct Hsw as [_ _ _ _ Hs _]. constructor; [by rewrite cmp_refl | by inversion Hs]. }
  assert (Hor' : forall c', Compare c' next < 0 \/ Forall (fun e => Compare (user_key e) next <= 0) (e :: E) ->
    Compare c' next < 0 \/ Forall (fun e => Compare (user_key e) next <= 0) E).
  { intros c' [| HF]; [by left | right]. by apply list.Forall_cons in HF as [_ ?]. }
  destruct (Z.eqb_spec (Compare c (user_key e)) 0) as [E0 |].
  - assert (Hec : Compare (user_key e) c <= 0) by (order_sgn Compare; lia).
    destruct (IH c l (sweep_tail _ _ _ _ _ Hsw Hec) Hle (Hor' c Hor)) as [IH1 IH2]. split; [done | set_solver].
  - destruct (Z.leb_spec (Compare next (user_key e)) 0) as [Hne |]; cbn [fst snd].
    + split; [| done]. apply sweep_flush; [done | |].
      * destruct Hor as [| HF]; [done |]. apply list.Forall_cons in HF as [He _].
        apply (cmp_lt_le_trans _ (user_key e)); [lia | done].
      * eapply list.Forall_impl; [apply HE |]. cbn. intros e' ?. by apply (cmp_trans _ (user_key e)).
    + assert (Hen : Compare (user_key e) next < 0) by (order_sgn Compare; lia).
      destruct (IH (user_key e) (flush_fragment for_compaction snapshots c (user_key e) (e :: E) l)) as [IH1 IH2]; [| lia | by left |].
      * apply (sweep_tail _ _ e); [| by rewrite cmp_refl]. apply sweep_flush; [done | lia | done].
      * split; [done | set_solver].
Qed.

(** * End keys *)

Definition same_key (a b : ParsedInternalKey) : Prop :=
  Compare (user_key a) (user_key b) = 0 /\ sequence a = sequence b.
Lemma Compare_parsed_user k x :
  (InternalKeyComparator_Compare_parsed k x < 0 -> Compare (user_key k) (user_key x) <= 0) /\
  (InternalKeyComparator_Compare_parsed k x = 0 -> same_key k x) /\
  (0 < InternalKeyComparator_Compare_parsed k x -> Compare (user_key x) (user_key k) <= 0).
Proof using CL.
  unfold InternalKeyComparator_Compare_parsed, same_key. rewrite !Z.gtb_ltb. order_sgn Compare.
  destruct_ifs; bool_to_prop; lia.
Qed.
Lemma end_keys_emplace_elem k E e : e ∈ end_keys_emplace k E -> e = k \/ e ∈ E.
Proof. induction E as [| x E IH]; cbn; [set_solver |]. destruct_ifs; set_solver. Qed.
Lemma end_keys_emplace_keeps k E e : e ∈ E -> e ∈ end_keys_emplace k E.
Proof. induction E as [| x E IH]; cbn; [set_solver |]. destruct_ifs; set_solver. Qed.
Lemma end_keys_emplace_has k E : exists e, e ∈ end_keys_emplace k E /\ same_key k e.
Proof using CL.
  induction E as [| x E (e & He & Hk)]; cbn.
  - exists k. split; [by left | split; [by rewrite cmp_refl | done]].
  - destruct (_ <? 0); [exists k; split; [by left | split; [by rewrite cmp_refl | done]] |].
    destruct (Z.eqb_spec (InternalKeyComparator_Compare_parsed k x) 0); [| exists e; split; [by right | done]].
    exists x. split; [by left | by apply Compare_parsed_user].
Qed.
Lemma end_keys_emplace_sorted k E : StronglySorted (fun a b => Compare (user_key a) (user_key b) <= 0) E ->
  StronglySorted (fun a b => Compare (user_key a) (user_key b) <= 0) (end_keys_emplace k E).
Proof using C CL Hts TC TCL.
  induction 1 as [| x E Hs IH Hf]; cbn; [repeat constructor |]. destruct (Compare_parsed_user k x) as (Hlt & _ & Hgt).
  destruct (Z.ltb_spec (InternalKeyComparator_Compare_parsed k x) 0) as [H0 |].
  - constructor; [by constructor |]. constructor; [by apply Hlt |]. eapply list.Forall_impl; [apply Hf |].
    cbn. intros y ?. apply (cmp_trans _ (user_key x)); [by apply Hlt | done].
  - destruct (Z.eqb_spec (InternalKeyComparator_Compare_parsed k x) 0); [by constructor |]. constructor; [done |].
    apply list.Forall_forall. intros e [-> | He]%end_keys_emplace_elem; [apply Hgt; lia |].
    by apply (proj1 (list.Forall_forall _ _) Hf).
Qed.

(** A tombstone that starts where the sweep is. *)
Definition end_key_of (t : bytes * bytes) : ParsedInternalKey :=
  {| user_key := t.2; sequence := GetInternalKeySeqno t.1; type := kTypeRangeDeletion |}.
Lemma covers_snoc T t u q : covers (T ++ [t]) u q <->
  covers T u q \/ Compare (ExtractUserKey t.1) u <= 0 /\ Compare u t.2 < 0 /\ GetInternalKeySeqno t.1 = q.
Proof.
  unfold covers. setoid_rewrite elem_of_app. setoid_rewrite list_elem_of_singleton. split.
  - intros (t' & [Ht' | ->] & H'); [left; by exists t' | by right].
  - intros [(t' & Ht' & H') | H']; [exists t'; split; [by left | done] | exists t; split; [by right | done]].
Qed.
Lemma sweep_emplace T t E l : sweep T (ExtractUserKey t.1) E l -> Compare (ExtractUserKey t.1) t.2 <= 0 ->
  sweep (T ++ [t]) (ExtractUserKey t.1) (end_keys_emplace (end_key_of t) E) l.
Proof using C CL Hts TC TCL for_compaction snapshots.
  intros [Hi Ho Hb Ha Hs He] Hvalid. split; [done | done | | | by apply end_keys_emplace_sorted |].
  - intros u Hu. destruct (Hb u Hu) as (L & HL & Hiff). exists L. split; [done |]. intros q.
    rewrite covers_snoc, Hiff. split; [by left |]. intros [| (? & _)]; [done |]. order_sgn Compare. lia.
  - intros u q Hu. rewrite covers_snoc, (Ha u q Hu). split.
    + intros [(e & Hin & H') | (_ & Hlt & Hq)]; [exists e; split; [by apply end_keys_emplace_keeps | done] |].
      destruct (end_keys_emplace_has (end_key_of t) E) as (e & Hin & Hk & Hseq). exists e. split_and!; [done | | by rewrite <-Hseq].
      apply (cmp_lt_le_trans _ t.2); [done |]. change t.2 with (user_key (end_key_of t)). lia.
    + intros (e & [-> | Hin]%end_keys_emplace_elem & Hlt & Hq); [by right | left; by exists e].
  - apply list.Forall_forall. intros e [-> | Hin]%end_keys_emplace_elem; [done |]. by apply (proj1 (list.Forall_forall _ _) He).
Qed.

(** * All tombstones *)

Definition starts_ordered : list (bytes * bytes) -> Prop :=
  StronglySorted (fun a b => Compare (ExtractUserKey a.1) (ExtractUserKey b.1) <= 0).
Definition valid_range (t : bytes * bytes) : Prop := Compare (ExtractUserKey t.1) t.2 <= 0.

Lemma fragment_step_sweep T c E l t : sweep T c E l -> Compare c (ExtractUserKey t.1) <= 0 -> valid_range t ->
  let '(c', E', l') := fragment_step for_compaction snapshots (c, E, l) t in
  c' = ExtractUserKey t.1 /\ sweep (T ++ [t]) c' E' l'.
Proof using CL TCL Hts.
  intros Hsw Hle Hv. unfold fragment_step. rewrite cwt. cbv zeta.
  change {| user_key := t.2; sequence := _; type := _ |} with (end_key_of t).
  destruct E as [| e E]; [by split; [| apply sweep_emplace; [apply (sweep_end _ c) |]] |].
  destruct (Z.eqb_spec (Compare c (ExtractUserKey t.1)) 0) as [Eq |]; cbn [negb].
  - split; [done |]. apply sweep_emplace; [by apply (sweep_congr _ c) | done].
  - destruct (flush_loop_sweep T (ExtractUserKey t.1) (e :: E) c l) as [Hf _]; [done | done | left; lia |].
    destruct (flush_loop _ _ _ _ _ _) as [E' l']. split; [done |]. by apply sweep_emplace.
Qed.
Lemma fold_sweep ts T c E l : sweep T c E l -> Forall (fun t => Compare c (ExtractUserKey t.1) <= 0) ts -> starts_ordered ts ->
  Forall valid_range ts ->
  let '(c', E', l') := fold_left (fragment_step for_compaction snapshots) ts (c, E, l) in sweep (T ++ ts) c' E' l'.
Proof using CL TCL Hts.
  revert T c E l. induction ts as [| t ts IH]; intros T c E l Hsw Hc Hs Hv; cbn [fold_left]; [by rewrite app_nil_r |].
  apply list.Forall_cons in Hc as [Hc _], Hv as [Hvt Hv]. inversion Hs as [| ? ? Hs' Hf]; subst.
  pose proof (fragment_step_sweep T c E l t Hsw Hc Hvt) as Hst.
  destruct (fragment_step _ _ _ _) as [[c' E'] l']. destruct Hst as [-> Hst]. rewrite cons_middle, app_assoc. by apply IH.
Qed.
Lemma sweep_none c l : tombstones_ l = [] -> tombstone_timestamps_ l = [] -> sweep [] c [] l.
Proof.
  intros Hl Ht. assert (Hno : forall u q, ~ covers [] u q) by (intros u q (t & ?%not_elem_of_nil & _); done).
  split; try (by constructor); unfold indices_ok, fragments; rewrite ?Hl; cbn [map].
  - by split.
  - split; [split |]; constructor.
  - intros u _. by apply stack_ok_none.
  - intros u q _. split; [by intros ?%Hno | by intros (e & ?%not_elem_of_nil & _)].
Qed.

(** The fragments of a list of tombstones. *)
Record fragments_ok T l : Prop := {
  fr_indices : indices_ok l;
  fr_ordered : ordered (fragments l);
  fr_stack u : stack_ok T (fragments l) u;
}.
Lemma sweep_done T c l E : sweep T c E l -> Forall (fun e => Compare (user_key e) c <= 0) E -> fragments_ok T l.
Proof using CL.
  intros [Hi Ho Hb Ha Hs He] HE. split; [done | apply Ho |]. intros u. destruct (Z.ltb_spec (Compare u c) 0) as [| Hge]; [by apply Hb |].
  assert (Hcu : Compare c u <= 0) by (order_sgn Compare; lia). apply stack_ok_none; [by apply (find_beyond _ c); [apply Ho |] |].
  intros q (e & Hin & Hlt & _)%(Ha u q Hcu). assert (Hec : Compare (user_key e) c <= 0) by by apply (proj1 (list.Forall_forall _ _) HE).
  pose proof (cmp_lt_le_trans (cmp := Compare) _ _ _ Hlt Hec). lia.
Qed.
Lemma sorted_last e E : StronglySorted (fun a b => Compare (user_key a) (user_key b) <= 0) (e :: E) ->
  Forall (fun x => Compare (user_key x) (user_key (List.last E e)) <= 0) (e :: E).
Proof using CL.
  revert e. induction E as [| x E IH]; intros e Hs; [repeat constructor; by rewrite cmp_refl |].
  inversion Hs as [| ? ? Hs' Hf]; subst. apply list.Forall_cons in Hf as [Hex _]. specialize (IH x Hs').
  assert (El : List.last (x :: E) e = List.last E x) by (clear; revert x e; induction E as [| y E IH]; intros x e; [done | cbn in *; by rewrite !(IH _)]).
  rewrite El. constructor; [| done]. apply list.Forall_cons in IH as [IH _]. by apply (cmp_trans _ (user_key x)).
Qed.
Lemma FragmentTombstones_ok T l : tombstones_ l = [] -> tombstone_timestamps_ l = [] -> starts_ordered T -> Forall valid_range T ->
  fragments_ok T (FragmentTombstones for_compaction snapshots T l).
Proof using CL TCL Hts.
  intros Hl Ht Hs Hv. unfold FragmentTombstones. destruct T as [| t ts].
  { cbn. apply (sweep_done _ [] _ []); [by apply sweep_none | constructor]. }
  assert (Hsw : let '(c', E', l') := fold_left (fragment_step for_compaction snapshots) (t :: ts) ([], [], l) in sweep (t :: ts) c' E' l').
  { cbn [fold_left]. change (fragment_step for_compaction snapshots ([], [], l) t)
      with (fragment_step for_compaction snapshots (ExtractUserKey t.1, [], l) t).
    apply (fold_sweep (t :: ts) []); [by apply sweep_none | | done | done]. inversion Hs; subst.
    constructor; [by rewrite cmp_refl | done]. }
  destruct (fold_left _ _ _) as [[c E] l']. destruct E as [| e E]; [apply (sweep_done _ c _ []); [done | constructor] |].
  pose proof (sorted_last e E (sw_sorted _ _ _ _ Hsw)) as Hlast. pose proof (sw_ends _ _ _ _ Hsw) as Hends.
  apply list.Forall_cons in Hends as [Hce _]. pose proof (proj1 (list.Forall_cons_1 _ _ _ Hlast)) as Hel.
  destruct (flush_loop_sweep (t :: ts) (user_key (List.last E e)) (e :: E) c l' Hsw) as [Hf Hsub];
    [by apply (cmp_trans _ (user_key e)) | by right |].
  apply (sweep_done _ _ _ _ Hf). apply list.Forall_forall. intros x Hx. apply (proj1 (list.Forall_forall _ _) Hlast). by apply Hsub.
Qed.

(** ** The order of the input *)

Lemma InternalKeyComparator_user a b : InternalKeyComparator_Compare a b <= 0 -> Compare (ExtractUserKey a) (ExtractUserKey b) <= 0.
Proof using.
  rewrite InternalKeyComparator_Compare_parts, Compare_parsed_le. change (user_key (parts ?x)) with (ExtractUserKey x). lia.
Qed.
Lemma scan_sorted_starts last num payload ts :
  (scan_sorted last num payload ts).1.1 = true -> starts_ordered ts /\
  match last with Some k => Forall (fun t => Compare (ExtractUserKey k) (ExtractUserKey t.1) <= 0) ts | None => True end.
Proof using CL.
  revert last num payload. induction ts as [| [k v] ts IH]; intros last num payload; cbn [scan_sorted].
  { intros _. split; [constructor | by destruct last]. }
  destruct (match last with Some l => InternalKeyComparator_Compare l k >? 0 | None => false end) eqn:El; [done |].
  intros [IH1 IH2]%IH. split; [by constructor |]. destruct last as [l |]; [| done].
  rewrite Z.gtb_ltb in El. apply Z.ltb_ge, InternalKeyComparator_user in El. constructor; [done |].
  eapply list.Forall_impl; [apply IH2 |]. cbn. intros t ?. by apply (cmp_trans _ (ExtractUserKey k)).
Qed.
Lemma sort_starts ts : starts_ordered (sort (fun a b => InternalKeyComparator_Compare a.1 b.1 <? 0) ts).
Proof using CL.
  apply sort_sorted.
  - intros x y z. apply cmp_trans.
  - intros x y Hlt%Z.ltb_lt. apply InternalKeyComparator_user. lia.
  - intros x y Hge%Z.ltb_ge. rewrite InternalKeyComparator_Compare_parts in Hge.
    destruct (Compare_parsed_user (parts y.1) (parts x.1)) as (_ & H0 & Hgt).
    change (ExtractUserKey ?x) with (user_key (parts x)). destruct (Z.eq_dec (InternalKeyComparator_Compare_parsed (parts y.1) (parts x.1)) 0) as [E |].
    + apply H0 in E as [E _]. order_sgn Compare. lia.
    + apply Hgt. lia.
Qed.
Lemma fragments_ok_Permutation T T' l : T ≡ₚ T' -> fragments_ok T l -> fragments_ok T' l.
Proof using.
  intros HT [Hi Ho Hst]. split; [done | done |]. intros u. destruct (Hst u) as (L & HL & Hiff). exists L. split; [done |].
  intros q. rewrite Hiff. unfold covers. by setoid_rewrite HT.
Qed.
Lemma MakeFragmentedRangeTombstoneList_ok T : Forall valid_range T ->
  fragments_ok T (MakeFragmentedRangeTombstoneList for_compaction snapshots T true).
Proof using CL TCL Hts.
  intros Hv. unfold MakeFragmentedRangeTombstoneList. pose proof (scan_sorted_starts None 0 0 T) as Hscan.
  destruct (scan_sorted None 0 0 T) as [[is_sorted num] payload]. cbn [fst] in Hscan.
  rewrite Hts. change (0 >? 0) with false. cbn [andb negb]. rewrite andb_true_r. destruct is_sorted.
  - apply FragmentTombstones_ok; [done | done | by apply Hscan | done].
  - assert (map (fun t : bytes * bytes => (t.1, t.2)) T = T) as ->
      by (clear; induction T as [| [] ? IH]; cbn; [done | by rewrite IH]).
    set (T' := sort _ T). assert (HT' : T' ≡ₚ T) by apply sort_Permutation.
    apply (fragments_ok_Permutation T'); [done |]. apply FragmentTombstones_ok; [done | done | apply sort_starts | by rewrite HT'].
Qed.

(** * Reads *)

(** What a read at [upper] sees of a stack. *)
Context (Hsnap : StronglySorted Z.lt snapshots).
Lemma flush_seqnums_visible upper L : Forall (fun s => 0 <= s <= kMaxSequenceNumber) L ->
  for_compaction = false \/ upper ∈ snapshots \/ Forall (fun s => s <= upper) L ->
  visible_seq upper (flush_seqnums for_compaction snapshots L) = max_upto upper L.
Proof using Hsnap.
  intros HL Hup. unfold flush_seqnums. pose proof (sort_Permutation Z.gtb L) as HP.
  assert (Hsort : StronglySorted (fun a b => b <= a) (sort Z.gtb L)).
  { apply sort_sorted; [intros; lia | |]; intros x y; rewrite Z.gtb_ltb; [intros ?%Z.ltb_lt | intros ?%Z.ltb_ge]; lia. }
  assert (Hpos : Forall (fun s => 0 <= s) (sort Z.gtb L)).
  { rewrite HP. eapply list.Forall_impl; [apply HL |]. cbn. lia. }
  transitivity (visible_seq upper (sort Z.gtb L)).
  - destruct for_compaction; [| done]. cbn [andb]. destruct (_ =? _); [| done]. apply preserved_visible; [done | |].
    + destruct Hup as [| [|]]; [done | by left | right; by rewrite HP].
    + right. rewrite HP. eapply list.Forall_impl; [apply HL |]. cbn. lia.
  - rewrite visible_sorted by done. apply max_upto_set; [done |]. intros s. by rewrite HP.
Qed.

(** The stack over a key is the first that ends after it, if it starts in time. *)
Lemma stack_over_first F u : ordered F ->
  stack_over F u = match F !! first_index (fun f : fragment => Compare u f.1.2 <? 0) F with
                   | Some f => if Compare f.1.1 u <=? 0 then f.2 else []
                   | None => []
                   end.
Proof using CL.
  unfold stack_over. intros [Hs Hf]. induction Hs as [| f F Hs IH Hle]; [done |]. apply list.Forall_cons in Hf as [_ Hf].
  cbn [List.find first_index]. unfold over at 1. destruct (Z.ltb_spec (Compare u f.1.2) 0) as [Hlt |].
  - cbn. destruct (Z.leb_spec (Compare f.1.1 u) 0); [done |]. cbn. rewrite find_Forall; [done |].
    eapply list.Forall_impl; [apply Hle |]. intros g Hg. cbn in Hg. unfold over. apply andb_false_iff. left. apply Z.leb_gt.
    pose proof (cmp_lt_le_trans (cmp := Compare) _ _ _ Hlt Hg). order_sgn Compare. lia.
  - rewrite andb_false_r. cbn. by apply IH.
Qed.
(** The position at which an iterator finds it. *)
Lemma find_seq_at upper a b (v : list Z) : (a <= b <= length v)%nat ->
  let i := first_index (fun s => negb (s >? upper)) (sublist a b v) in
  match List.find (fun s => s <=? upper) (sublist a b v) with
  | Some s => (a + i <> b)%nat /\ nth (a + i) v 0 = s
  | None => (a + i = b)%nat
  end.
Proof using.
  intros Hab i. assert (Hlen : length (sublist a b v) = (b - a)%nat) by (unfold sublist; rewrite length_take, length_drop; lia).
  pose proof (first_index_le (fun s => negb (s >? upper)) (sublist a b v)) as Hi. fold i in Hi. rewrite Hlen in Hi.
  rewrite <- (find_first_index (fun s => negb (s >? upper))).
  2: { intros s. rewrite Z.gtb_ltb, <- Z.leb_antisym. done. }
  fold i. destruct (sublist a b v !! i) as [s |] eqn:Es.
  - pose proof (lookup_lt_Some _ _ _ Es). split; [lia |]. unfold sublist in Es.
    rewrite lookup_take_lt, lookup_drop in Es by lia. by apply nth_lookup_Some.
  - apply lookup_ge_None_1 in Es. lia.
Qed.
Lemma SetMaxVisible_position l it st p : tombstone_timestamps_ l = [] ->
  SetMaxVisibleSeqAndTimestamp l it st p = set_position it p
    (seq_start_idx st + first_index (fun s => negb (s >? upper_bound_ it)) (sublist (seq_start_idx st) (seq_end_idx st) (tombstone_seqs_ l))).
Proof using.
  intros Ht. unfold SetMaxVisibleSeqAndTimestamp. rewrite Ht. destruct (ts_upper_bound_ it) as [[] |]; [done | | done]. f_equal.
  assert (Hnil : sublist (seq_start_idx st) (seq_end_idx st) ([] : list bytes) = []) by (unfold sublist; by rewrite drop_nil, take_nil).
  by rewrite Hnil.
Qed.
Lemma MaxCovering_stack l it u : indices_ok l -> ordered (fragments l) ->
  (MaxCoveringTombstoneSeqnum_at l it u).1 = visible_seq (upper_bound_ it) (stack_over (fragments l) u).
Proof using CL TCL Hts.
  intros [Hi Ht] Ho. rewrite stack_over_first by done. unfold MaxCoveringTombstoneSeqnum_at, SeekToCoveringTombstone, settle. cbn [fst].
  assert (E : first_index (fun f : fragment => Compare u f.1.2 <? 0) (fragments l) =
    first_index (fun st => CompareWithoutTimestamp u (stack_end_key st) <? 0) (tombstones_ l)).
  { clear Hi Ho. unfold fragments. generalize (tombstone_seqs_ l). intros v. induction (tombstones_ l) as [| st ts IH]; cbn; [done |].
    rewrite cwt. by destruct (_ <? 0); [| rewrite IH]. }
  rewrite E. unfold fragments. rewrite list_lookup_fmap. set (pos := first_index _ _).
  destruct (tombstones_ l !! pos) as [st |] eqn:Est; cbn [set_position pos_]; [| by rewrite Est].
  assert (Hst := proj1 (list.Forall_forall _ _) Hi st (list_elem_of_lookup_2 _ _ _ Est)). cbn beta in Hst.
  pose proof (find_seq_at (upper_bound_ it) _ _ _ Hst) as Hf. rewrite SetMaxVisible_position by done.
  cbn [set_position pos_]. rewrite Est. unfold ValidPos, visible_seq. cbn [set_position pos_ seq_pos_].
  rewrite Est, cwt. cbn [fst snd fmap option_fmap option_map].
  destruct (Compare (stack_start_key st) u <=? 0); [| by rewrite andb_false_r]. rewrite andb_true_r. destruct (List.find _ _) as [s |]; cbn.
  - destruct Hf as [Hne Hs]. by rewrite (proj2 (Nat.eqb_neq _ _) Hne).
  - by rewrite (proj2 (Nat.eqb_eq _ _) Hf).
Qed.

(** The sequence numbers of the tombstones over a key. *)
Definition covering_seqs T (u : bytes) : list Z :=
  map (fun t => GetInternalKeySeqno t.1)
    (List.filter (fun t => (Compare (ExtractUserKey t.1) u <=? 0) && (Compare u t.2 <? 0)) T).
Lemma covering_seqs_elem T u q : q ∈ covering_seqs T u <-> covers T u q.
Proof using.
  unfold covering_seqs, covers. rewrite list_elem_of_In, in_map_iff. setoid_rewrite filter_In. setoid_rewrite list_elem_of_In.
  setoid_rewrite andb_true_iff. setoid_rewrite Z.leb_le. setoid_rewrite Z.ltb_lt. naive_solver.
Qed.
Lemma GetInternalKeySeqno_range k : 0 <= GetInternalKeySeqno k <= kMaxSequenceNumber.
Proof using. destruct (parts_wf k) as [Hs _]. change kMaxSequenceNumber with (2 ^ 56 - 1). cbn in Hs. unfold fits in Hs. lia. Qed.

Lemma fragmented_covers T it u : Forall valid_range T ->
  for_compaction = false \/ upper_bound_ it ∈ snapshots \/ Forall (fun t => GetInternalKeySeqno t.1 <= upper_bound_ it) T ->
  (MaxCoveringTombstoneSeqnum_at (MakeFragmentedRangeTombstoneList for_compaction snapshots T true) it u).1 =
  max_upto (upper_bound_ it) (covering_seqs T u).
Proof using CL TCL Hts Hsnap.
  intros Hv Hup. destruct (MakeFragmentedRangeTombstoneList_ok T Hv) as [Hi Ho Hst]. rewrite MaxCovering_stack by done.
  destruct (Hst u) as (L & -> & Hiff). assert (HL : Forall (fun s => 0 <= s <= kMaxSequenceNumber) L).
  { apply list.Forall_forall. intros s (t & _ & _ & _ & <-)%Hiff. apply GetInternalKeySeqno_range. }
  rewrite flush_seqnums_visible; [| done |].
  - apply max_upto_set; [eapply list.Forall_impl; [apply HL |]; cbn; lia |]. intros s. by rewrite covering_seqs_elem.
  - destruct Hup as [| [| Hall]]; [by left | right; by left | right; right]. apply list.Forall_forall. intros s (t & Ht & _ & _ & <-)%Hiff.
    by apply (proj1 (list.Forall_forall _ _) Hall t Ht).
Qed.
End Cover.
