(* ===== verification/RangeTombstonesCursor.v ===== *)
(** The iterator over fragments, with a lower and an upper bound on sequence numbers, is a
    cursor over the fragments that have a sequence number between the bounds. *)

From stdpp Require Import gmap sorting.
From S2P Require Import Prelude Coding Comparator DbFormat Cursor MemTable MemTableSpec RangeTombstones RangeTombstonesProofs.

(** * The specification *)

Inductive top_op := TopFirst | TopLast | TopForward | TopBack | TopSeek (target : bytes) | TopSeekForPrev (target : bytes).

Section Cursor.
Context {C : Comparator} {CL : ComparatorLaws C} {TC : TimestampComparator C} {TCL : TimestampComparatorLaws C}
  (Hts : timestamp_size = 0) (l : FragmentedRangeTombstoneList) (upper lower : Z).
Implicit Types (it : FragmentedRangeTombstoneIterator) (st : RangeTombstoneStack).

(** A fragment with the largest sequence number up to the upper bound, if the lower bound is not
    beyond it. *)
Definition stack_visible st : option (bytes * bytes * Z) :=
  match List.find (fun s => s <=? upper) (sublist (seq_start_idx st) (seq_end_idx st) (tombstone_seqs_ l)) with
  | Some s => if lower <=? s then Some (stack_start_key st, stack_end_key st, s) else None
  | None => None
  end.
Definition visible_fragments : list (bytes * bytes * Z) := omap stack_visible (tombstones_ l).

Definition before_index (i : nat) : option nat := match i with O => None | S i => Some i end.
Definition top_cursor (V : list (bytes * bytes * Z)) (o : option nat) (op : top_op) : option (option nat) :=
  match op, o with
  | TopFirst, _ => Some (clip (length V) 0)
  | TopLast, _ => Some (before_index (length V))
  | TopForward, Some i => Some (clip (length V) (S i))
  | TopBack, Some i => Some (before_index i)
  | TopSeek t, _ => Some (clip (length V) (first_index (fun f => Compare t f.1.2 <? 0) V))
  | TopSeekForPrev t, _ => Some (before_index (first_index (fun f => Compare t f.1.1 <? 0) V))
  | _, None => None
  end.
Definition top_cursors V (o : option nat) (ops : list top_op) : option (option nat) :=
  fold_left (fun r op => o ← r; top_cursor V o op) ops (Some o).

Definition top_step it (op : top_op) : FragmentedRangeTombstoneIterator :=
  match op with
  | TopFirst => SeekToTopFirst l it
  | TopLast => SeekToTopLast l it
  | TopForward => TopNext l it
  | TopBack => TopPrev l it
  | TopSeek t => Tombstone_Seek l it t
  | TopSeekForPrev t => Tombstone_SeekForPrev l it t
  end.

(** What the iterator shows: [start_key], [end_key] and [seq]. *)
Definition top_shows it : option (bytes * bytes * Z) :=
  match tombstones_ l !! pos_ it with
  | Some st => Some (stack_start_key st, stack_end_key st, nth (seq_pos_ it) (tombstone_seqs_ l) 0)
  | None => None
  end.

(** * Positions *)

Context (Hi : indices_ok l) (Ho : ordered (fragments l)).

Definition rank (p : nat) : nat := length (omap stack_visible (take p (tombstones_ l))).
Lemma rank_S p st : tombstones_ l !! p = Some st ->
  rank (S p) = (rank p + match stack_visible st with Some _ => 1 | None => 0 end)%nat.
Proof using.
  intros Hst. unfold rank. rewrite (take_S_r _ _ _ Hst), omap_app, length_app. cbn. by destruct (stack_visible st).
Qed.
Lemma rank_all p : (length (tombstones_ l) <= p)%nat -> rank p = length visible_fragments.
Proof using. intros Hp. unfold rank. by rewrite take_ge. Qed.
Lemma rank_lookup p st f : tombstones_ l !! p = Some st -> stack_visible st = Some f -> visible_fragments !! rank p = Some f.
Proof using.
  intros Hst Hf. pose proof (f_equal (omap stack_visible) (take_drop_middle _ _ _ Hst)) as E. rewrite omap_app in E. cbn in E.
  rewrite Hf in E. unfold visible_fragments, rank. rewrite <- E. by apply list_lookup_middle.
Qed.
Lemma visible_rank_lt p st f : tombstones_ l !! p = Some st -> stack_visible st = Some f -> (rank p < length visible_fragments)%nat.
Proof using. intros Hst Hf. by eapply lookup_lt_Some, rank_lookup. Qed.

Definition bounds it : Prop := upper_bound_ it = upper /\ lower_bound_ it = lower.
(** At a stack, with the visible sequence number. *)
Definition settled it (p : nat) st : Prop :=
  bounds it /\ pos_ it = p /\ tombstones_ l !! p = Some st /\
  seq_pos_ it = (seq_start_idx st + first_index (fun s => negb (s >? upper)) (sublist (seq_start_idx st) (seq_end_idx st) (tombstone_seqs_ l)))%nat.
Lemma settle_settled it p st : bounds it -> tombstones_ l !! p = Some st -> settled (settle l it p) p st.
Proof using Hi.
  intros [Hu Hl] Hst. unfold settle. rewrite Hst. rewrite SetMaxVisible_position by apply Hi. by rewrite Hu.
Qed.
Lemma settled_hidden it p st : settled it p st ->
  stack_hidden l it = match stack_visible st with Some _ => false | None => true end /\
  forall f, stack_visible st = Some f -> top_shows it = Some f.
Proof using Hi.
  intros ([Hu Hl] & Ep & Hst & Es). unfold stack_hidden, top_shows, stack_visible. rewrite Ep, Hst, Es, Hl.
  assert (Hx := proj1 (list.Forall_forall _ _) (proj1 Hi) st (list_elem_of_lookup_2 _ _ _ Hst)). cbn beta in Hx.
  pose proof (find_seq_at upper _ _ _ Hx) as Hf. destruct (List.find _ _) as [s |].
  - destruct Hf as [Hne ->]. rewrite (proj2 (Nat.eqb_neq _ _) Hne), Z.ltb_antisym. cbn [orb].
    destruct (lower <=? s); split; [done | by intros f [= <-] | done | done].
  - rewrite (proj2 (Nat.eqb_eq _ _) Hf). done.
Qed.

(** At the position [i] of the cursor. *)
Definition cursor_at it (o : option nat) : Prop :=
  bounds it /\
  match o with
  | Some i => exists p st f, settled it p st /\ stack_visible st = Some f /\ i = rank p
  | None => pos_ it = length (tombstones_ l)
  end.
Lemma cursor_at_shows it o : cursor_at it o -> top_shows it = i ← o; visible_fragments !! i.
Proof using Hi.
  destruct o as [i |]; intros [_ H]; cbn.
  - destruct H as (p & st & f & Hs & Hf & ->). rewrite (rank_lookup p st f) by (done || apply Hs). by apply (settled_hidden it p st).
  - unfold top_shows. by rewrite H, lookup_ge_None_2.
Qed.
Lemma Invalidate_at it : bounds it -> cursor_at (Invalidate l it) None.
Proof using. done. Qed.

(** * Scans *)

Lemma scan_forward_at fuel it p st : settled it p st -> (length (tombstones_ l) - p <= fuel)%nat ->
  cursor_at (ScanForwardToVisibleTombstone l fuel it) (clip (length visible_fragments) (rank p)).
Proof using Hi.
  revert it p st. induction fuel as [| fuel IH]; intros it p st Hs Hfuel; pose proof Hs as (Hb & Ep & Hst & _);
    pose proof (lookup_lt_Some _ _ _ Hst); [lia |]. cbn [ScanForwardToVisibleTombstone].
  rewrite (proj1 (settled_hidden it p st Hs)). destruct (stack_visible st) as [f |] eqn:Ef.
  - split; [done |]. unfold clip. rewrite decide_True by by apply (visible_rank_lt p st f). by exists p, st, f.
  - rewrite Ep. assert (Er : rank p = rank (S p)) by (rewrite (rank_S p st Hst), Ef; lia). rewrite Er.
    destruct (Nat.eqb_spec (S p) (length (tombstones_ l))) as [E |].
    + rewrite rank_all by lia. unfold clip. rewrite decide_False by lia. by apply Invalidate_at.
    + destruct (lookup_lt_is_Some_2 (tombstones_ l) (S p)) as [st' Hst']; [lia |].
      apply (IH _ (S p) st'); [by apply settle_settled | lia].
Qed.
Lemma scan_backward_at fuel it p st : settled it p st -> (p < fuel)%nat ->
  cursor_at (ScanBackwardToVisibleTombstone l fuel it) (before_index (rank (S p))).
Proof using Hi.
  revert it p st. induction fuel as [| fuel IH]; intros it p st Hs Hfuel; [lia |]; pose proof Hs as (Hb & Ep & Hst & _).
  cbn [ScanBackwardToVisibleTombstone].
  rewrite (proj1 (settled_hidden it p st Hs)), (rank_S p st Hst). destruct (stack_visible st) as [f |] eqn:Ef.
  - rewrite Nat.add_1_r. split; [done |]. by exists p, st, f.
  - rewrite Ep, Nat.add_0_r. destruct p as [| p]; [by apply Invalidate_at |].
    destruct (lookup_lt_is_Some_2 (tombstones_ l) p) as [st' Hst']; [apply lookup_lt_Some in Hst; lia |].
    apply (IH _ p st'); [by apply settle_settled | lia].
Qed.
Lemma scan_from it p : bounds it -> (p < length (tombstones_ l))%nat ->
  cursor_at (scan_forward l (settle l it p)) (clip (length visible_fragments) (rank p)) /\
  cursor_at (scan_backward l (settle l it p)) (before_index (rank (S p))).
Proof using Hi.
  intros Hb Hp. destruct (lookup_lt_is_Some_2 (tombstones_ l) p) as [st Hst]; [done |].
  pose proof (settle_settled it p st Hb Hst) as Hs.
  split; [apply (scan_forward_at _ _ p st) | apply (scan_backward_at _ _ p st)]; (done || lia).
Qed.

(** Seeking in the stacks and in the visible ones. *)
Lemma rank_first_index (g : RangeTombstoneStack -> bool) (g' : bytes * bytes * Z -> bool) :
  (forall st f, stack_visible st = Some f -> g' f = g st) ->
  StronglySorted (fun a b => g a = true -> g b = true) (tombstones_ l) ->
  first_index g' visible_fragments = rank (first_index g (tombstones_ l)).
Proof using.
  intros Hg Hs. unfold visible_fragments, rank. induction Hs as [| st ts Hs IH Hf]; [done |]. cbn [first_index].
  destruct (g st) eqn:Eg; cbn.
  - assert (Hall : Forall (fun f => g' f = true) (omap stack_visible (st :: ts))).
    { apply list.Forall_forall. intros f (st' & Hin & Hv)%list_elem_of_omap. rewrite (Hg _ _ Hv).
      apply elem_of_cons in Hin as [-> | Hin]; [done |]. by apply (proj1 (list.Forall_forall _ _) Hf st' Hin). }
    cbn in Hall. destruct (match stack_visible st with Some _ => _ | None => _ end) as [| f V]; [done |].
    apply list.Forall_cons in Hall as [Hfirst _]. cbn. by rewrite Hfirst.
  - destruct (stack_visible st) as [f |] eqn:Ev; [| exact IH]. cbn. rewrite (Hg _ _ Ev), Eg. by f_equal.
Qed.
Lemma stack_visible_keys st f : stack_visible st = Some f -> f.1 = (stack_start_key st, stack_end_key st).
Proof using. unfold stack_visible. destruct (List.find _ _); [| done]. destruct (_ <=? _); [| done]. by intros [= <-]. Qed.
Lemma stacks_ordered :
  StronglySorted (fun a b => Compare (stack_end_key a) (stack_start_key b) <= 0) (tombstones_ l) /\
  Forall (fun a => Compare (stack_start_key a) (stack_end_key a) < 0) (tombstones_ l).
Proof using Ho.
  destruct Ho as [H1 H2]. unfold fragments in *. split.
  - eapply (StronglySorted_map _ (fun _ => True)); [| by apply list.Forall_true | exact H1]. by intros x y _ _.
  - by rewrite Forall_map in H2.
Qed.
Lemma ends_monotone t : StronglySorted (fun a b => (CompareWithoutTimestamp t (stack_end_key a) <? 0) = true ->
  (CompareWithoutTimestamp t (stack_end_key b) <? 0) = true) (tombstones_ l).
Proof using CL TCL Hts Ho.
  destruct stacks_ordered as [Hs Hf]. eapply (StronglySorted_weaken (fun a => Compare (stack_start_key a) (stack_end_key a) < 0)); [| done | done].
  intros a b _ Hb Hab. rewrite !cwt, !Z.ltb_lt by done. intros Ht.
  apply (cmp_lt_le_trans _ (stack_end_key a)); [done |]. apply (cmp_trans _ (stack_start_key b)); [done | lia].
Qed.
Lemma starts_monotone t : StronglySorted (fun a b => (CompareWithoutTimestamp t (stack_start_key a) <? 0) = true ->
  (CompareWithoutTimestamp t (stack_start_key b) <? 0) = true) (tombstones_ l).
Proof using CL TCL Hts Ho.
  destruct stacks_ordered as [Hs Hf]. eapply (StronglySorted_weaken (fun a => Compare (stack_start_key a) (stack_end_key a) < 0)); [| done | done].
  intros a b Ha _ Hab. rewrite !cwt, !Z.ltb_lt by done. intros Ht.
  apply (cmp_lt_le_trans _ (stack_start_key a)); [done |]. apply (cmp_trans _ (stack_end_key a)); [lia | done].
Qed.

(** * The operations *)

Lemma Seek_at it t : bounds it ->
  cursor_at (Tombstone_Seek l it t) (clip (length visible_fragments) (first_index (fun f => Compare t f.1.2 <? 0) visible_fragments)).
Proof using CL TCL Hts Hi Ho.
  intros Hb. rewrite (rank_first_index (fun st => CompareWithoutTimestamp t (stack_end_key st) <? 0)) by
    (apply ends_monotone || intros st f Hf%stack_visible_keys; by rewrite Hf, cwt).
  unfold Tombstone_Seek, SeekToCoveringTombstone. set (p := first_index _ _).
  assert (Hle : (p <= length (tombstones_ l))%nat) by apply first_index_le. clearbody p.
  destruct (decide (p < length (tombstones_ l))%nat) as [Hp | Hp].
  - destruct (tombstones_ l) eqn:El; [cbn in Hp; lia |]. rewrite <- El in *. by apply scan_from.
  - rewrite rank_all by lia. unfold clip. rewrite decide_False by lia.
    assert (settle l it p = set_position it p (length (tombstone_seqs_ l))) as -> by (unfold settle; by rewrite lookup_ge_None_2 by lia).
    destruct (tombstones_ l) eqn:El; [by apply Invalidate_at |]. rewrite <- El in *.
    unfold scan_forward. cbn [ScanForwardToVisibleTombstone]. unfold stack_hidden. cbn [set_position pos_]. rewrite lookup_ge_None_2 by lia.
    split; [done |]. change (p = length (tombstones_ l)). lia.
Qed.
Lemma SeekForPrev_at it t : bounds it ->
  cursor_at (Tombstone_SeekForPrev l it t) (before_index (first_index (fun f => Compare t f.1.1 <? 0) visible_fragments)).
Proof using CL TCL Hts Hi Ho.
  intros Hb. rewrite (rank_first_index (fun st => CompareWithoutTimestamp t (stack_start_key st) <? 0)) by
    (apply starts_monotone || intros st f Hf%stack_visible_keys; by rewrite Hf, cwt).
  unfold Tombstone_SeekForPrev, SeekForPrevToCoveringTombstone. set (p := first_index _ _).
  assert (Hp : (p <= length (tombstones_ l))%nat) by apply first_index_le. clearbody p.
  destruct (tombstones_ l) eqn:El; [assert (p = 0)%nat as -> by (cbn in Hp; lia); by apply Invalidate_at |]. rewrite <- El in *.
  destruct p as [| p]; [| by apply scan_from].
  unfold scan_backward. cbn [ScanBackwardToVisibleTombstone]. unfold stack_hidden. cbn [Invalidate set_position pos_].
  rewrite lookup_ge_None_2 by lia. by apply Invalidate_at.
Qed.
Lemma top_step_at it o op o' : cursor_at it o -> top_cursor visible_fragments o op = Some o' -> cursor_at (top_step it op) o'.
Proof using CL TCL Hts Hi Ho.
  intros Hat Hop. assert (Hb : bounds it) by apply Hat. destruct op; cbn in Hop |- *; try injection Hop as <-.
  - unfold SeekToTopFirst. destruct (tombstones_ l) as [| st ts] eqn:El.
    { unfold visible_fragments. rewrite El. by apply Invalidate_at. }
    apply (scan_from it 0 Hb). rewrite El. cbn. lia.
  - unfold SeekToTopLast. destruct (tombstones_ l) as [| st ts] eqn:El.
    { unfold visible_fragments. rewrite El. by apply Invalidate_at. }
    rewrite <- ?El. assert (Hlen : (0 < length (tombstones_ l))%nat) by (rewrite El; cbn; lia).
    rewrite <- (rank_all (S (length (tombstones_ l) - 1))) by lia. apply (scan_from it _ Hb). lia.
  - destruct o as [i |]; [| done]. injection Hop as <-. destruct Hat as [_ (p & st & f & (_ & Ep & Hst & _) & Hf & ->)].
    unfold TopNext. rewrite Ep. assert (rank (S p) = S (rank p)) as <- by (rewrite (rank_S p st Hst), Hf; lia).
    destruct (tombstones_ l !! S p) as [st' |] eqn:Hst'.
    + pose proof (lookup_lt_Some _ _ _ Hst'). pose proof (proj1 (scan_from it (S p) Hb ltac:(lia))) as Hs.
      unfold settle in Hs. by rewrite Hst' in Hs.
    + apply lookup_ge_None_1 in Hst'. pose proof (lookup_lt_Some _ _ _ Hst). rewrite rank_all by lia. unfold clip. rewrite decide_False by lia.
      split; [done |]. cbn. lia.
  - destruct o as [i |]; [| done]. injection Hop as <-. destruct Hat as [_ (p & st & f & (_ & Ep & Hst & _) & Hf & ->)].
    unfold TopPrev. rewrite Ep. destruct p as [| p]; [by apply Invalidate_at |]. apply (scan_from it p Hb). apply lookup_lt_Some in Hst. lia.
  - by apply Seek_at.
  - by apply SeekForPrev_at.
Qed.
Lemma top_steps_at ops it o o' : cursor_at it o -> top_cursors visible_fragments o ops = Some o' ->
  cursor_at (fold_left top_step ops it) o'.
Proof using CL TCL Hts Hi Ho.
  revert it o. unfold top_cursors. induction ops as [| op ops IH]; intros it o Hat Hops; cbn [fold_left] in *; [by injection Hops as <- |].
  cbn in Hops. destruct (top_cursor visible_fragments o op) as [o1 |] eqn:E.
  - by apply (IH _ o1); [by apply (top_step_at it o op) |].
  - exfalso. clear -Hops. induction ops; [done | auto].
Qed.
End Cursor.

(** * Theorems *)

(** C23: the iterator over the fragments of any tombstones is a cursor over its visible fragments:
    after any sequence of seeks to the first or the last fragment, forward and backward steps and
    seeks by key, it shows the start key, the end key and the sequence number of the fragment at
    which the cursor is, or is at its end with the cursor. Visible are the fragments with a
    sequence number between the bounds, and the largest of them is shown; a seek finds the first
    of these that ends after the key, a backward seek the last that does not start after it. *)
Theorem tombstone_iterator_refines_cursor {C : Comparator} {CL : ComparatorLaws C} {TC : TimestampComparator C}
    {TCL : TimestampComparatorLaws C} (for_compaction : bool) (snapshots : list Z) (T : list (bytes * bytes))
    (upper lower : Z) (ts : option bytes) (ops : list top_op) (o : option nat)
    (Hts : timestamp_size = 0) (Hv : Forall valid_range T) :
  let l := MakeFragmentedRangeTombstoneList for_compaction snapshots T true in
  let V := visible_fragments l upper lower in
  top_cursors V None ops = Some o ->
  top_shows l (fold_left (top_step l) ops (NewTombstoneIterator l upper ts lower)) = i ← o; V !! i.
Proof.
  intros l V Hops. destruct (MakeFragmentedRangeTombstoneList_ok Hts for_compaction snapshots T Hv) as [Hi Ho _].
  apply (cursor_at_shows l upper lower Hi). by apply (top_steps_at Hts l upper lower Hi Ho ops _ None).
Qed.

Lemma tombstone_iterator_refines_cursor_witness :
  let C := BytewiseComparatorImpl in let TC := DefaultTimestampComparator C in
  let l := MakeFragmentedRangeTombstoneList (C := C) false []
    [(MakeInternalKey [Byte.x63] 5 kTypeRangeDeletion, [Byte.x67]); (MakeInternalKey [Byte.x61] 9 kTypeRangeDeletion, [Byte.x65])] true in
  top_shows l (fold_left (top_step l) [TopSeek [Byte.x62]; TopForward; TopBack; TopSeekForPrev [Byte.x7a]] (NewTombstoneIterator l 8 None 0)) =
  Some ([Byte.x65], [Byte.x67], 5).
Proof.
  intros C TC l. refine (eq_trans (tombstone_iterator_refines_cursor (C := C) (TC := TC) (TCL := ltac:(by split)) false []
    [(MakeInternalKey [Byte.x63] 5 kTypeRangeDeletion, [Byte.x67]); (MakeInternalKey [Byte.x61] 9 kTypeRangeDeletion, [Byte.x65])]
    8 0 None _ (Some 1%nat) eq_refl _ _) _).
  - repeat (apply list.Forall_cons_2 || apply list.Forall_nil_2); vm_compute; discriminate.
  - vm_compute. reflexivity.
  - vm_compute. reflexivity.
Defined.
