(* ===== verification/MemTableProofs.v ===== *)
(** What the entries of a memtable say: the bytes that [Add] lays out are read back by
    the comparator, by the checks of the checksums and by [SaveValue]. *)

From stdpp Require Import gmap sorting.
From S2P Require Import Prelude Coding Comparator DbFormat Status WideColumns MergeOperator WriteBatch MemTable MemTableSpec.

(** * The bytes of an entry *)

Section Entries.
Context {H : NPHash}.

(** What a pointer into the table sees: the entry and what follows its value. *)
Lemma encode_memtable_entry_shape v rest : version_ok v ->
  let body := v_key v ++ EncodeFixed64 (PackSequenceAndType (v_seq v) (v_type v)) ++
              EncodeVarint32 (slen (v_value v)) ++ v_value v ++ rest in
  encode_memtable_entry (v_seq v) (v_type v) (v_key v) (v_value v) ++ rest =
    EncodeVarint32 (slen (v_key v) + 8) ++ body /\
  GetVarint32Ptr (encode_memtable_entry (v_seq v) (v_type v) (v_key v) (v_value v) ++ rest) =
    Some (slen (v_key v) + 8, body).
Proof.
  intros (Hs & Ht & Hk & Hv) body. pose proof (slen_nonneg (v_key v)). pose proof (slen_nonneg (v_value v)).
  assert (encode_memtable_entry (v_seq v) (v_type v) (v_key v) (v_value v) ++ rest =
          EncodeVarint32 (slen (v_key v) + 8) ++ body) as E.
  { unfold encode_memtable_entry. rewrite !(wrap_small 32) by (unfold fits; rewrite ?wrap_small; unfold fits; lia).
    rewrite !stake_ge by lia. unfold body. by rewrite <- !app_assoc. }
  split; [done |]. rewrite E. apply GetVarint32_Encode. unfold fits. lia.
Qed.

Lemma encode_memtable_entry_internal_key v rest : version_ok v ->
  GetLengthPrefixedSlice_ptr (encode_memtable_entry (v_seq v) (v_type v) (v_key v) (v_value v) ++ rest) =
  v_key v ++ EncodeFixed64 (PackSequenceAndType (v_seq v) (v_type v)).
Proof.
  intros Hok. unfold GetLengthPrefixedSlice_ptr. destruct (encode_memtable_entry_shape v rest Hok) as [_ ->].
  rewrite app_assoc. apply stake_app_exact. slia.
Qed.

(** The fields of an entry, as [SaveValue] and the checks of the checksums take them. *)
Lemma entry_fields v rest : version_ok v ->
  let body := v_key v ++ EncodeFixed64 (PackSequenceAndType (v_seq v) (v_type v)) ++
              EncodeVarint32 (slen (v_value v)) ++ v_value v ++ rest in
  stake (slen (v_key v) + 8 - 8) body = v_key v /\
  UnPackSequenceAndType (DecodeFixed64 (sdrop (slen (v_key v) + 8 - 8) body)) = (v_seq v, v_type v) /\
  GetVarint32Ptr (sdrop (slen (v_key v) + 8) body) = Some (slen (v_value v), v_value v ++ rest).
Proof.
  intros (Hs & Ht & Hk & Hv) body. pose proof (slen_nonneg (v_value v)). split_and!.
  - apply stake_app_exact. lia.
  - unfold body. rewrite sdrop_app_exact by lia.
    rewrite DecodeFixed64_Encode by (by apply PackSequenceAndType_fits). by apply UnPackSequenceAndType_Pack.
  - unfold body. rewrite app_assoc, sdrop_app_exact by slia. apply GetVarint32_Encode. unfold fits. lia.
Qed.

(** ** Checksums *)

Definition prot_of (v : Version) : Z :=
  ProtectS (ProtectKVO 0 (v_key v) (v_value v) (v_type v)) (v_seq v).

(** The check of an encoded entry accepts exactly the protection of its parts. *)
Lemma VerifyEncodedEntry_spec ts_sz v info : version_ok v -> ts_sz <= slen (v_key v) ->
  VerifyEncodedEntry ts_sz (encode_memtable_entry (v_seq v) (v_type v) (v_key v) (v_value v)) info =
  if bool_decide (info = prot_of v) then Status_OK else Status_Corruption.
Proof.
  intros Hok Hts. unfold VerifyEncodedEntry.
  rewrite <- (app_nil_r (encode_memtable_entry _ _ _ _)).
  unfold GetVarint32. destruct (encode_memtable_entry_shape v [] Hok) as [_ ->].
  destruct (entry_fields v [] Hok) as (E1 & E2 & E3).
  rewrite (proj2 (Z.ltb_ge _ _)) by lia.
  rewrite Z.gtb_ltb, (proj2 (Z.ltb_ge _ _)) by (rewrite !slen_app, slen_EncodeFixed64;
    pose proof (slen_nonneg (EncodeVarint32 (slen (v_value v)))); pose proof (slen_nonneg (v_value v)); slia).
  rewrite E1, E2, sdrop_sdrop by slia.
  replace (slen (v_key v) + 8 - 8 + 8) with (slen (v_key v) + 8) by lia. rewrite E3.
  rewrite app_nil_r, Z.gtb_ltb, Z.ltb_irrefl, stake_ge by lia.
  unfold ProtectionInfo_GetStatus, prot_of, StripKVO, StripS, ProtectS, ProtectKVO.
  generalize (NPHash64 (v_key v) kSeedK), (NPHash64 (v_value v) kSeedV), (NPHash64 [byte.of_Z (v_type v)] kSeedO),
    (NPHash64 (EncodeFixed64 (v_seq v)) kSeedS). intros a b c d. rewrite Z.lxor_0_l.
  assert (Z.lxor (Z.lxor (Z.lxor (Z.lxor info d) a) b) c = Z.lxor info (Z.lxor (Z.lxor (Z.lxor a b) c) d)) as ->.
  { apply Z.bits_inj'. intros n _. rewrite !Z.lxor_spec. destruct (Z.testbit info n), (Z.testbit a n), (Z.testbit b n), (Z.testbit c n), (Z.testbit d n); done. }
  case_bool_decide as E; [by rewrite E, Z.lxor_nilpotent |].
  destruct (Z.eqb_spec (Z.lxor info (Z.lxor (Z.lxor (Z.lxor a b) c) d)) 0) as [E' |]; [| done].
  by apply Z.lxor_eq in E'.
Qed.

Definition protection_ok (len : Z) : Prop := len = 0 \/ len = 1 \/ len = 2 \/ len = 4 \/ len = 8.

Lemma Protection_Verify_Encode len val rest : protection_ok len -> len <> 0 ->
  Protection_Verify len val (Protection_Encode len val ++ rest) = true.
Proof.
  intros Hlen Hnz. unfold Protection_Verify, Protection_Encode.
  destruct Hlen as [-> | [-> | [-> | [-> | ->]]]]; cbn [Z.eqb Pos.eqb]; [done | | | |].
  - unfold byte_at. simpl. rewrite byte.unsigned_of_Z. by apply Z.eqb_eq.
  - rewrite DecodeFixed16_Encode by (by apply wrap_fits). apply Z.eqb_refl.
  - rewrite DecodeFixed32_Encode by (by apply wrap_fits). apply Z.eqb_refl.
  - rewrite DecodeFixed64_Encode by (by apply wrap_fits). apply Z.eqb_refl.
Qed.

(** The checksum that [Add] writes is the one that a read recomputes. *)
Lemma VerifyEntryChecksum_entry len v : version_ok v -> protection_ok len ->
  VerifyEntryChecksum (version_entry len v) len = Status_OK.
Proof.
  intros Hok Hlen. unfold VerifyEntryChecksum, version_entry, UpdateEntryChecksum.
  destruct (Z.eqb_spec len 0) as [| Hnz]; [done |].
  set (sum := Protection_Encode _ _). destruct (encode_memtable_entry_shape v sum Hok) as [_ ->].
  destruct (entry_fields v sum Hok) as (E1 & E2 & E3). pose proof (slen_nonneg (v_key v)).
  rewrite (proj2 (Z.ltb_ge _ _)) by lia. rewrite E1, E2, E3.
  rewrite stake_app_exact, sdrop_app_exact by done.
  unfold sum. rewrite <- (app_nil_r (Protection_Encode _ _)). by rewrite Protection_Verify_Encode.
Qed.
End Entries.

(** * The order of the entries *)

Section Order.
Context {C : Comparator} {CL : ComparatorLaws C} {H : NPHash}.

(** User keys ascending, then sequence numbers descending. *)
Definition version_lt (a b : Version) : Prop :=
  Compare (v_key a) (v_key b) < 0 \/ Compare (v_key a) (v_key b) = 0 /\ v_seq b < v_seq a.

Lemma version_entry_parts len v : version_ok v ->
  parts (GetLengthPrefixedSlice_ptr (version_entry len v)) =
  {| user_key := v_key v; sequence := v_seq v; type := v_type v |}.
Proof.
  intros Hok. unfold version_entry. rewrite encode_memtable_entry_internal_key by done.
  destruct Hok as (Hs & Ht & _). by apply (parts_PutFixed64 (v_key v)).
Qed.

Lemma KeyComparator_parts a b :
  KeyComparator a b =
  let p := parts (GetLengthPrefixedSlice_ptr a) in let q := parts (GetLengthPrefixedSlice_ptr b) in
  if Compare (user_key p) (user_key q) =? 0 then
    if sequence p >? sequence q then -1 else if sequence p <? sequence q then 1 else 0
  else Compare (user_key p) (user_key q).
Proof. done. Qed.

Lemma KeyComparator_sgn a b : Z.sgn (KeyComparator b a) = - Z.sgn (KeyComparator a b).
Proof.
  rewrite !KeyComparator_parts. cbv zeta.
  set (p := parts (GetLengthPrefixedSlice_ptr a)). set (q := parts (GetLengthPrefixedSlice_ptr b)).
  pose proof (compare_sgn (user_key p) (user_key q)). rewrite !Z.gtb_ltb.
  destruct_ifs; bool_to_prop; lia.
Qed.

Lemma KeyComparator_trans a b c : KeyComparator a b <= 0 -> KeyComparator b c <= 0 -> KeyComparator a c <= 0.
Proof.
  rewrite !KeyComparator_parts. cbv zeta.
  set (p := parts (GetLengthPrefixedSlice_ptr a)). set (q := parts (GetLengthPrefixedSlice_ptr b)).
  set (s := parts (GetLengthPrefixedSlice_ptr c)).
  pose proof (compare_sgn (user_key p) (user_key q)). pose proof (compare_sgn (user_key q) (user_key s)).
  pose proof (compare_sgn (user_key p) (user_key s)).
  pose proof (compare_trans (user_key p) (user_key q) (user_key s)).
  pose proof (compare_trans (user_key q) (user_key s) (user_key p)).
  pose proof (compare_trans (user_key s) (user_key p) (user_key q)). rewrite !Z.gtb_ltb.
  destruct_ifs; bool_to_prop; lia.
Qed.

Lemma KeyComparator_lt_trans a b c : KeyComparator a b < 0 -> KeyComparator b c < 0 -> KeyComparator a c < 0.
Proof.
  intros Hab Hbc. pose proof (KeyComparator_trans a b c). pose proof (KeyComparator_trans c a b).
  pose proof (KeyComparator_sgn a c). pose proof (KeyComparator_sgn b c). lia.
Qed.

Lemma KeyComparator_entries len a b : version_ok a -> version_ok b ->
  (KeyComparator (version_entry len a) (version_entry len b) < 0 <-> version_lt a b) /\
  (KeyComparator (version_entry len a) (version_entry len b) = 0 <->
   Compare (v_key a) (v_key b) = 0 /\ v_seq a = v_seq b).
Proof.
  intros Ha Hb. rewrite KeyComparator_parts, !version_entry_parts by done. simpl. unfold version_lt.
  rewrite Z.gtb_ltb. destruct_ifs; bool_to_prop; lia.
Qed.

(** The key of a lookup comes after the newer versions of its user key, and not after those
    that it may see. *)
Lemma KeyComparator_lookup len v u s : version_ok v -> fits 56 s -> slen u + 8 < 2 ^ 32 ->
  (0 <= KeyComparator (version_entry len v) (memtable_key (MakeLookupKey u s None)) <->
   0 < Compare (v_key v) u \/ Compare (v_key v) u = 0 /\ v_seq v <= s).
Proof.
  intros Hv Hs Hu. rewrite KeyComparator_parts, version_entry_parts by done.
  destruct (MakeLookupKey_spec u s None Hs) as (-> & _ & Hl & Ep); [simpl; slia |].
  assert (GetLengthPrefixedSlice_ptr (PutLengthPrefixedSlice [] (internal_key (MakeLookupKey u s None))) =
          internal_key (MakeLookupKey u s None)) as ->.
  { unfold GetLengthPrefixedSlice_ptr, PutLengthPrefixedSlice, PutVarint32. simpl app.
    pose proof (slen_nonneg u). simpl in Hl. rewrite slen_nil in Hl.
    change GetVarint32Ptr with GetVarint32. rewrite wrap_small, GetVarint32_Encode by (unfold fits; lia).
    by apply stake_ge. }
  rewrite Ep. simpl. rewrite app_nil_r, Z.gtb_ltb. destruct_ifs; bool_to_prop; lia.
Qed.
End Order.

(** * A lookup *)

Section Lookup.
Context {C : Comparator} {TC : TimestampComparator C} {TCL : TimestampComparatorLaws C} {H : NPHash}.
Context (op : MergeOperator) (key : LookupKey) (u : bytes) (tombstone len : Z).
Context (Hts : timestamp_size = 0) (Hu : lookup_user_key key = u) (Hlen : protection_ok len)
  (Hop : forall l, ShouldMerge op l = false).
Local Definition args : SaverArgs :=
  {| saver_key := key; saver_merge_operator := Some op; max_covering_tombstone_seq := tombstone;
     do_merge := true; callback_ := None; saver_protection_bytes_per_key := len; continue_cb := None |}.

(** A lookup in progress that has met the operands [acc]. *)
Definition searching (s : Saver) (r : Result) (acc : list bytes) (seq : Z) : Prop :=
  (saver_status s = Status_OK \/ saver_status s = Status_MergeInProgress /\ acc <> []) /\
  found_final_value s = false /\
  merge_in_progress s = negb (bool_decide (acc = [])) /\ saver_result s = r /\
  operands (merge_context s) = acc /\ saver_seq s = seq /\ is_Some (is_blob_index s).

(** The end of a lookup that found the base [b] below the operands [acc]. *)
Definition concluded (s : Saver) (r : Result) (b : BaseValue) (acc : list bytes) (seq : Z) : Prop :=
  found_final_value s = true /\
  (saver_status s, saver_result s) = (lookup_result op u (Some b, acc) r).2 /\
  operands (merge_context s) = acc /\ saver_seq s = seq.

Definition seen_seq (seq : Z) (v : Version) : Z :=
  if seq =? kMaxSequenceNumber then Z.max (v_seq v) tombstone else seq.

Lemma note_version_searching s r acc seq k v : searching s r acc seq ->
  searching (note_version args s k (v_seq v)) r acc (seen_seq seq v).
Proof.
  intros (Hst & Hf & Hm & Hr & Hc & Hq & Hb). unfold note_version, seen_seq. rewrite Hts, Hq. simpl.
  destruct s as [st f m r' q ts c b]. cbn in *. subst.
  rewrite Z.gtb_ltb.
  destruct (Z.eqb_spec seq kMaxSequenceNumber); [destruct (Z.ltb_spec tombstone (v_seq v)) |];
    destruct ts; unfold searching; cbn; split_and!; try done; lia.
Qed.

(** The entry of a version of the key: the branch that the type and the tombstone select. *)
Lemma SaveValue_version s r acc seq v : searching s r acc seq -> version_ok v ->
  Compare (v_key v) u = 0 -> point_type (v_type v) = true ->
  exists s', searching s' r acc (seen_seq seq v) /\
  SaveValue args s (version_entry len v) =
    if v_seq v <? tombstone then (false, on_deletion args s')
    else if v_type v =? kTypeMerge then on_merge args s' (v_value v)
    else if v_type v =? kTypeValue then (false, on_value args s' (v_value v))
    else if v_type v =? kTypeValuePreferredSeqno then
      (false, on_value args s' (stake (slen (v_value v) - 8) (v_value v)))
    else if v_type v =? kTypeWideColumnEntity then (false, on_entity args s' (v_value v))
    else if v_type v =? kTypeBlobIndex then (false, on_blob_index args s' (v_value v))
    else (false, on_deletion args s').
Proof.
  intros Hs Hok Hk Hp. unfold SaveValue. pose proof (VerifyEntryChecksum_entry len v Hok Hlen) as Hsum.
  cbn [saver_protection_bytes_per_key args saver_key]. rewrite Hsum. unfold version_entry in *.
  set (sum := UpdateEntryChecksum _ _ _ _ _ _) in *. destruct (encode_memtable_entry_shape v sum Hok) as [_ ->].
  destruct (entry_fields v sum Hok) as (E1 & E2 & E3). cbn [default].
  unfold EqualWithoutTimestamp, id. rewrite E1, Hu, CompareWithoutTimestamp_spec, Hk, Z.eqb_refl by done.
  change (status_ok Status_OK) with true. rewrite andb_false_r, E2.
  unfold GetLengthPrefixedSlice_ptr. rewrite E3, stake_app_exact by done.
  cbn [CheckCallback callback_ args negb max_covering_tombstone_seq].
  set (s1 := if len >? 0 then _ else s).
  assert (searching s1 r acc seq) as Hs1 by (unfold s1; destruct (len >? 0); [destruct Hs as (? & ? & ? & ? & ? & ? & ?); by split; [left |] | done]).
  exists (note_version args s1 (v_key v) (v_seq v)). split; [by apply note_version_searching |].
  clearbody s1. revert Hp. unfold point_type. rewrite Z.gtb_ltb. clear -v.
  unfold kTypeMerge, kTypeValue, kTypeValuePreferredSeqno, kTypeWideColumnEntity, kTypeBlobIndex,
    kTypeDeletion, kTypeSingleDeletion, kTypeDeletionWithTimestamp, kTypeRangeDeletion.
  intros Hp. repeat (apply orb_true_iff in Hp as [Hp | Hp]); apply Z.eqb_eq in Hp; rewrite Hp;
    cbn [Z.eqb Pos.eqb orb andb]; by destruct (v_seq v <? tombstone).
Qed.

Context (r : Result) (Hr : has_result r = true).

Lemma merge_with_concluded s acc seq merge b : searching s r acc seq ->
  (lookup_result op u (Some b, acc) r).2 = merge op u acc r ->
  concluded (merge_with args s merge) r b acc seq.
Proof.
  intros (Hst & Hf & Hm & Hr' & Hc & Hq & Hb) E. unfold merge_with.
  destruct (GetOperands_operands (merge_context s)) as [E1 E2].
  destruct (GetOperands (merge_context s)) as [ops c]. cbn in E1, E2. subst ops.
  unfold concluded. cbn -[lookup_result]. rewrite E, Hr', Hu, Hc. destruct (merge op u acc r). cbn. by rewrite E2.
Qed.

Lemma on_deletion_concluded s acc seq : searching s r acc seq ->
  concluded (on_deletion args s) r BaseDeleted acc seq.
Proof.
  intros Hs. pose proof Hs as (Hst & Hf & Hm & Hr' & Hc & Hq & Hb). unfold on_deletion.
  rewrite Hm, Hr', Hr. destruct acc as [| x acc]; cbn [negb bool_decide].
  - unfold concluded. cbn. by rewrite ?Hr'.
  - by apply merge_with_concluded.
Qed.

Lemma on_value_concluded s acc seq v : searching s r acc seq ->
  concluded (on_value args s v) r (BasePlain v) acc seq.
Proof.
  intros Hs. pose proof Hs as (Hst & Hf & Hm & Hr' & Hc & Hq & Hb). unfold on_value.
  cbn [do_merge args negb]. rewrite Hm, Hr', Hr. destruct acc as [| x acc]; cbn [negb bool_decide].
  - unfold concluded. cbn. by rewrite ?Hr'.
  - assert (concluded (merge_with args s (fun op key operands r0 =>
      TimedFullMerge op key (PlainBaseValue v) operands r0)) r (BasePlain v) (x :: acc) seq) as Hc'
      by (by apply merge_with_concluded). done.
Qed.

Lemma on_entity_concluded s acc seq v : searching s r acc seq ->
  concluded (on_entity args s v) r (BaseEntity v) acc seq.
Proof.
  intros Hs. pose proof Hs as (Hst & Hf & Hm & Hr' & Hc & Hq & Hb). unfold on_entity.
  cbn [do_merge args negb]. rewrite Hm, Hr', Hr. destruct acc as [| x acc]; cbn [negb bool_decide].
  - unfold concluded. cbn. rewrite ?Hr'. by destruct (save_entity r v).
  - assert (concluded (merge_with args s (fun op key operands r0 =>
      TimedFullMerge_entity op key v operands r0)) r (BaseEntity v) (x :: acc) seq) as Hc'
      by (by apply merge_with_concluded). done.
Qed.

Lemma on_blob_index_concluded s acc seq v : searching s r acc seq ->
  concluded (on_blob_index args s v) r (BaseBlobIndex v) acc seq.
Proof.
  intros Hs. pose proof Hs as (Hst & Hf & Hm & Hr' & Hc & Hq & [b Hb]). unfold on_blob_index.
  cbn [do_merge args negb]. rewrite Hm, Hr', Hb. destruct acc as [| x acc]; cbn [negb bool_decide];
    unfold concluded; by cbn.
Qed.

Lemma on_merge_searching s acc seq v : searching s r acc seq ->
  exists s', on_merge args s v = (true, s') /\ searching s' r (v :: acc) seq.
Proof.
  intros (Hst & Hf & Hm & Hr' & Hc & Hq & Hb). unfold on_merge. cbn [saver_merge_operator args].
  destruct (GetOperandsDirectionBackward _) as [back c]. rewrite Hop, andb_false_r. cbn [continue_cb args].
  eexists. split; [done |]. unfold searching. cbn -[operands PushOperand]. rewrite PushOperand_operands, Hc.
  split_and!; try done. destruct Hst as [? | [? _]]; [by left | by right].
Qed.

(** ** All the versions of a key *)

Definition of_key (v : Version) : Prop :=
  version_ok v /\ Compare (v_key v) u = 0 /\ point_type (v_type v) = true.

(** One version: the state of the key that [apply_version] gives, or one more operand. *)
Lemma SaveValue_apply s acc seq v : searching s r acc seq -> of_key v ->
  let '(continue, s') := SaveValue args s (version_entry len v) in
  match apply_version tombstone (None, []) v with
  | (Some b, _) => continue = false /\ concluded s' r b acc (seen_seq seq v)
  | (None, _) => continue = true /\ searching s' r (v_value v :: acc) (seen_seq seq v) /\
                 v_type v = kTypeMerge /\ tombstone <= v_seq v
  end.
Proof.
  intros Hs (Hok & Hk & Hp). destruct (SaveValue_version s r acc seq v Hs Hok Hk Hp) as (s' & Hs' & ->).
  unfold apply_version. destruct (Z.ltb_spec (v_seq v) tombstone).
  { by split; [| apply on_deletion_concluded]. }
  destruct (Z.eqb_spec (v_type v) kTypeMerge).
  { destruct (on_merge_searching s' acc _ (v_value v) Hs') as (s2 & -> & Hs2). done. }
  destruct_ifs; cbn; split; [done | by apply on_value_concluded | done | by apply on_value_concluded
    | done | by apply on_entity_concluded | done | by apply on_blob_index_concluded
    | done | by apply on_deletion_concluded].
Qed.

Lemma apply_version_split st v :
  apply_version tombstone st v =
  match apply_version tombstone (None, []) v with
  | (Some b, _) => (Some b, [])
  | (None, _) => (st.1, st.2 ++ [v_value v])
  end.
Proof. unfold apply_version. by destruct_ifs. Qed.

Lemma SaveValue_other_key s v : version_ok v -> Compare (v_key v) u <> 0 ->
  SaveValue args s (version_entry len v) = (false, s).
Proof.
  intros Hok Hk. unfold SaveValue, version_entry. set (sum := UpdateEntryChecksum _ _ _ _ _ _).
  destruct (encode_memtable_entry_shape v sum Hok) as [_ ->]. destruct (entry_fields v sum Hok) as (E1 & _).
  cbn [default saver_key args]. unfold EqualWithoutTimestamp, id. rewrite E1, Hu, CompareWithoutTimestamp_spec by done.
  by apply Z.eqb_neq in Hk as ->.
Qed.

Context (HT : tombstone < kMaxSequenceNumber).

(** The lookup over the versions of the key, the newest first, and what follows them. *)
Lemma rep_Get_versions others : Forall (fun w => version_ok w /\ Compare (v_key w) u <> 0) others ->
  forall versions s acc seq, searching s r acc seq -> Forall of_key versions ->
  Forall (fun v => v_seq v < kMaxSequenceNumber) versions ->
  let st := fold_left (apply_version tombstone) versions (None, []) in
  let s' := rep_Get args s (map (version_entry len) (rev versions ++ others)) in
  let seq' := match head (rev versions) with Some v => seen_seq seq v | None => seq end in
  match st.1 with
  | Some b => concluded s' r b (st.2 ++ acc) seq'
  | None => searching s' r (st.2 ++ acc) seq'
  end.
Proof.
  intros Ho. induction versions as [| v versions IH] using rev_ind; intros s acc seq Hs Hv Hq.
  { destruct others as [| w others]; [done |]. apply list.Forall_cons in Ho as [[Hok Hk] _].
    cbn [rev app map rep_Get]. by rewrite SaveValue_other_key. }
  apply Forall_app in Hv as [Hv Hv1], Hq as [Hq Hq1].
  apply list.Forall_cons in Hv1 as [Hv1 _], Hq1 as [Hq1 _].
  rewrite fold_left_app, rev_app_distr. cbn [fold_left rev app map head rep_Get].
  rewrite apply_version_split. set (st := fold_left _ versions _) in *.
  pose proof (SaveValue_apply s acc seq v Hs Hv1) as Hstep.
  destruct (SaveValue args s (version_entry len v)) as [continue s1].
  destruct (apply_version tombstone (None, []) v) as [[b |] ?]; [by destruct Hstep as [-> ?] |].
  destruct Hstep as (-> & Hs1 & _). specialize (IH s1 (v_value v :: acc) _ Hs1 Hv Hq).
  cbn zeta in IH. fold st in IH. cbn [fst snd]. rewrite <- (app_assoc st.2). cbn [app].
  destruct (head (rev versions)) as [w |]; [| done].
  assert (seen_seq (seen_seq seq v) w = seen_seq seq v) as E.
  { unfold seen_seq. destruct (Z.eqb_spec seq kMaxSequenceNumber); [| by apply Z.eqb_neq in n as ->].
    rewrite (proj2 (Z.eqb_neq _ _)); lia. }
  by rewrite E in IH.
Qed.
End Lookup.
