(* ===== verification/RangeTombstonesTheorems.v ===== *)
(** What a read sees of fragmented tombstones, and the memtable's use of them. *)

From stdpp Require Import gmap sorting.
From S2P Require Import Prelude Coding Comparator DbFormat WriteBatch Cursor MemTable MemTableSpec RangeTombstones RangeTombstonesProofs MemTableProofs.

(** * The tombstones of a memtable *)

Section Memtable.
Context {C : Comparator} {CL : ComparatorLaws C} {TC : TimestampComparator C} {TCL : TimestampComparatorLaws C} {H : NPHash}.

Lemma MemTableIterator_entry_version len v : version_ok v ->
  parts (MemTableIterator_entry (version_entry len v)).1 = {| user_key := v_key v; sequence := v_seq v; type := v_type v |} /\
  (MemTableIterator_entry (version_entry len v)).2 = v_value v.
Proof.
  intros Hv. split; [by apply version_entry_parts |]. unfold MemTableIterator_entry, version_entry. cbn [snd].
  set (rest := UpdateEntryChecksum _ _ _ _ _ _). destruct (encode_memtable_entry_shape v rest Hv) as [_ ->].
  destruct (entry_fields v rest Hv) as (_ & _ & E3). unfold GetLengthPrefixedSlice_ptr. by rewrite E3, stake_app_exact.
Qed.

Lemma max_covering_upto (l : list Version) read_seq u :
  max_covering l read_seq u = max_upto read_seq (map v_seq (List.filter (fun t => (Compare (v_key t) u <=? 0) && (Compare u (v_value t) <? 0)) l)).
Proof.
  unfold max_covering, max_upto, covering. induction l as [| t l IH]; [done |]. rewrite list.filter_cons. cbn [List.filter].
  destruct ((Compare (v_key t) u <=? 0) && (Compare u (v_value t) <? 0)); cbn [andb map List.filter]; [| done].
  destruct (v_seq t <=? read_seq); cbn; [by rewrite <- IH | done].
Qed.

#[global] Instance fragmented_tombstones_laws : RangeTombstonesLaws C (RT := fragmented_tombstones).
Proof.
  split. intros len l read_seq ts u Hts Hl Hr _. cbn [MaxCoveringTombstoneSeqnum fragmented_tombstones].
  set (T := map MemTableIterator_entry (map (version_entry len) l)).
  assert (HT : Forall valid_range T /\ covering_seqs T u =
    map v_seq (List.filter (fun t => (Compare (v_key t) u <=? 0) && (Compare u (v_value t) <? 0)) l)).
  { subst T. unfold covering_seqs. induction Hl as [| v l Hv _ IH]; [by split; [constructor |] |].
    apply list.Forall_cons in Hr as [Hrv Hr]. destruct (IH Hr) as [IH1 IH2].
    destruct (MemTableIterator_entry_version len v Hv) as [E E3].
    pose proof (f_equal user_key E) as E1. pose proof (f_equal sequence E) as E2. cbn [parts user_key sequence] in E1, E2.
    cbn [map List.filter]. rewrite E1, E3. split; [by constructor; [unfold valid_range; rewrite E1, E3 |] |].
    destruct (_ && _); cbn [map]; [by rewrite E2, IH2 | done]. }
  unfold NewRangeTombstoneIteratorInternal. fold T. destruct (MaxCoveringTombstoneSeqnum_at _ _ _) as [seq it] eqn:E.
  apply (f_equal fst) in E. rewrite (fragmented_covers Hts false [] ltac:(constructor) T) in E;
    [| apply HT | by left]. cbn in E. cbn [fst]. by rewrite <- E, max_covering_upto, (proj2 HT).
Qed.
End Memtable.

(** * Theorems *)

(** C16: fragmentation keeps what range tombstones cover. The tombstones may come in any order
    and overlap in any way. Every fragment is a non-empty range, fragments are in order and do
    not overlap, and for every user key the iterator that seeks it reports the largest sequence
    number, up to its bound, of the tombstones that cover the key, or zero when there is none.
    The list that a compaction makes keeps only what its snapshots need: it answers the same at
    each snapshot, and at a bound that no tombstone is beyond. *)
Theorem fragmented_tombstones_cover {C : Comparator} {CL : ComparatorLaws C} {TC : TimestampComparator C}
    {TCL : TimestampComparatorLaws C} (for_compaction : bool) (snapshots : list Z) (T : list (bytes * bytes))
    (Hts : timestamp_size = 0) (Hsnap : StronglySorted Z.lt snapshots) (Hv : Forall valid_range T) :
  let l := MakeFragmentedRangeTombstoneList for_compaction snapshots T true in
  ordered (fragments l) /\
  forall upper ts lower u,
    for_compaction = false \/ upper ∈ snapshots \/ Forall (fun t => GetInternalKeySeqno t.1 <= upper) T ->
    (MaxCoveringTombstoneSeqnum_at l (NewTombstoneIterator l upper ts lower) u).1 = max_upto upper (covering_seqs T u).
Proof.
  intros l. split.
  - by apply (fr_ordered for_compaction snapshots T), MakeFragmentedRangeTombstoneList_ok.
  - intros upper ts lower u Hup. by apply fragmented_covers.
Qed.

(** Three tombstones that overlap, the second out of order. *)
Definition ex_tombstones : list (bytes * bytes) :=
  [(MakeInternalKey [Byte.x63] 5 kTypeRangeDeletion, [Byte.x67]);
   (MakeInternalKey [Byte.x61] 9 kTypeRangeDeletion, [Byte.x65]);
   (MakeInternalKey [Byte.x64] 7 kTypeRangeDeletion, [Byte.x66])].
Lemma fragmented_tombstones_cover_witness :
  let C := BytewiseComparatorImpl in let TC := DefaultTimestampComparator C in
  let l := MakeFragmentedRangeTombstoneList (C := C) true [7] ex_tombstones true in
  fragments l =
    [([Byte.x61], [Byte.x63], [9]); ([Byte.x63], [Byte.x64], [9; 5]); ([Byte.x64], [Byte.x65], [9; 7]);
     ([Byte.x65], [Byte.x66], [7]); ([Byte.x66], [Byte.x67], [5])] /\
  (MaxCoveringTombstoneSeqnum_at l (NewTombstoneIterator l 7 None 0) [Byte.x64]).1 = 7.
Proof.
  intros C TC l. split; [vm_compute; reflexivity |].
  rewrite (proj2 (fragmented_tombstones_cover (C := C) (TC := TC) (TCL := ltac:(by split)) true [7] ex_tombstones
    eq_refl ltac:(repeat constructor) ltac:(repeat (apply list.Forall_cons_2 || apply list.Forall_nil_2); vm_compute; discriminate))).
  - vm_compute. reflexivity.
  - right. left. apply list_elem_of_singleton. reflexivity.
Defined.
