(* ===== verification/SkipListRep.v ===== *)
(** memtable/skiplistrep.cc: the skip list as the table of a memtable. It implements the
    interface of MemTable.v; the iterator with lookahead is the plain iterator. *)

From stdpp Require Import gmap sorting.
From S2P Require Import Prelude Coding Comparator DbFormat Status MergeOperator WriteBatch MemTable MemTableSpec MemTableProofs.
From S2P Require Import Cursor SkipList SkipListProofs SkipListInsert SkipListTheorems.

(** * The table *)

(** The heights come from the generator of the thread; it is a part of the state here. *)
Record SkipListRep := { skip_list_ : InlineSkipList; rnd_ : Z }.

Section Rep.
Context {C : Comparator}.

Definition MakeSkipListRep (seed : Z) : SkipListRep :=
  {| skip_list_ := MakeInlineSkipList 12 4; rnd_ := Random.GoodSeed seed |}.
(** [Allocate] and [InsertKey]: the list is unchanged if the insertion does not return. *)
Definition SkipListRep_InsertKey (r : SkipListRep) (entry : bytes) : bool * SkipListRep :=
  let '(height, rnd) := RandomHeight (skip_list_ r) (rnd_ r) in
  match Insert KeyComparator (skip_list_ r) entry height with
  | Some (res, l) => (res, {| skip_list_ := l; rnd_ := rnd |})
  | None => (false, r)
  end.
(** The entries that an iterator meets after [Seek]. *)
Definition SkipListRep_Seek (r : SkipListRep) (memtable_key : bytes) : list bytes :=
  match Iterator_Seek KeyComparator (skip_list_ r) memtable_key with
  | Some it => map (key_of (skip_list_ r)) (nodes_from (size (nodes (skip_list_ r))) (skip_list_ r) it)
  | None => []
  end.

Definition skip_list_rep (seed : Z) : MemTableRep SkipListRep := {|
  rep_empty := MakeSkipListRep seed;
  InsertKey := SkipListRep_InsertKey;
  rep_contents r := list_keys (skip_list_ r);
  rep_Seek := SkipListRep_Seek;
|}.

(** * Keys *)

Definition UserKey (entry : bytes) : bytes :=
  let slice := GetLengthPrefixedSlice_ptr entry in stake (slen slice - 8) slice.
Definition EncodeKey (target : bytes) : bytes := PutVarint32 [] (u32 (slen target)) ++ target.

(** * The iterator with lookahead *)

Record LookaheadIterator := { la_iter_ : Iterator; la_prev_ : Iterator }.
Definition MakeLookaheadIterator : LookaheadIterator := {| la_iter_ := None; la_prev_ := None |}.

Section Lookahead.
Context (lookahead_ : nat) (transform_ : option SliceTransform) (l : InlineSkipList).

(** Whether [prev_] follows [iter_], from the user keys of both. *)
Definition advance_prev (prev iter : nat) : bool :=
  let k1 := UserKey (key_of l prev) in
  let k2 := UserKey (key_of l iter) in
  if Slice_compare k1 k2 =? 0 then false
  else match transform_ with
       | Some t => Slice_compare (Transform t k1) (Transform t k2) =? 0
       | None => true
       end.
Definition Lookahead_Next (prev_ : Iterator) (node_ : nat) : option LookaheadIterator :=
  let advance := match prev_ with Some p => advance_prev p node_ | None => true end in
  it ← Iterator_Next l node_;
  Some {| la_iter_ := it; la_prev_ := if advance then Some node_ else prev_ |}.

(** The linear search from [prev_]; [inr] when it did not find the place. *)
Fixpoint lookahead_search (n : nat) (encoded_key : bytes) (it : LookaheadIterator)
    : option (LookaheadIterator + LookaheadIterator) :=
  match n with
  | O => Some (inr it)
  | S n =>
      match la_iter_ it with
      | None => Some (inr it)
      | Some node =>
          if KeyComparator encoded_key (key_of l node) <=? 0 then Some (inl it)
          else it ← Lookahead_Next (la_prev_ it) node; lookahead_search n encoded_key it
      end
  end.
Definition moved (it : Iterator) : LookaheadIterator := {| la_iter_ := it; la_prev_ := it |}.
Definition Lookahead_Seek (it : LookaheadIterator) (encoded_key : bytes) : option LookaheadIterator :=
  let seek := it ← Iterator_Seek KeyComparator l encoded_key; Some (moved it) in
  match la_prev_ it with
  | Some p =>
      if KeyComparator encoded_key (key_of l p) >=? 0 then
        r ← lookahead_search (S lookahead_) encoded_key {| la_iter_ := Some p; la_prev_ := Some p |};
        match r with inl it => Some it | inr _ => seek end
      else seek
  | None => seek
  end.

Definition Lookahead_op (it : LookaheadIterator) (op : iter_op) : option LookaheadIterator :=
  match op, la_iter_ it with
  | OpSeekToFirst, _ => it ← Iterator_SeekToFirst l; Some (moved it)
  | OpSeekToLast, _ => it ← Iterator_SeekToLast l; Some (moved it)
  | OpNext, Some n => Lookahead_Next (la_prev_ it) n
  | OpPrev, Some n => it ← Iterator_Prev KeyComparator l n; Some (moved it)
  | OpSeek t, _ => Lookahead_Seek it t
  | OpSeekForPrev t, _ => it ← Iterator_SeekForPrev KeyComparator l t; Some (moved it)
  | _, None => None
  end.
End Lookahead.
End Rep.

(** * The generator of heights *)

Module Lehmer.
(** A seed of the generator, as the comment in util/random.h asks for it. *)
Definition seed_ok (s : Z) : Prop := 0 < s < Random.M.

Lemma Next_split s : seed_ok s -> let p := s * Random.A in
  Random.Next s = (if p / 2 ^ 31 + p mod 2 ^ 31 >? Random.M then p / 2 ^ 31 + p mod 2 ^ 31 - Random.M
                   else p / 2 ^ 31 + p mod 2 ^ 31).
Proof.
  intros Hs p. unfold seed_ok, Random.M in *. assert (0 <= p < 2 ^ 62) as Hp by (subst p; unfold Random.A; lia).
  assert (fits 32 (p / 2 ^ 31 + p mod 2 ^ 31)) as Hq.
  { unfold fits. pose proof (Z.mod_pos_bound p (2 ^ 31)). pose proof (Z.div_pos p (2 ^ 31)).
    assert (p / 2 ^ 31 < 2 ^ 31) by (apply Z.div_lt_upper_bound; lia). lia. }
  unfold Random.Next. fold p. rewrite (wrap_small 64 p) by (unfold fits; lia).
  change (Z.land p Random.M) with (Z.land p (Z.ones 31)). rewrite Z.land_ones, Z.shiftr_div_pow2 by lia.
  cbv zeta. rewrite (wrap_small 32) by done. unfold Random.M.
  destruct (Z.gtb_spec (p / 2 ^ 31 + p mod 2 ^ 31) 2147483647); [| done]. apply wrap_small. unfold fits in *. lia.
Qed.

Lemma Next_mod s : seed_ok s -> Random.Next s = (s * Random.A) mod Random.M /\ seed_ok (Random.Next s).
Proof.
  intros Hs. assert (Hne : (s * Random.A) mod Random.M <> 0).
  { intros Hm. apply Z.mod_divide in Hm; [| done]. rewrite Z.mul_comm in Hm.
    apply Z.gauss in Hm; [| reflexivity]. apply Z.divide_pos_le in Hm; unfold seed_ok in Hs; lia. }
  assert (Random.Next s = (s * Random.A) mod Random.M) as E; [| split; [done |]].
  2: { rewrite E. unfold seed_ok. pose proof (Z.mod_pos_bound (s * Random.A) Random.M ltac:(done)). lia. }
  rewrite Next_split by done. unfold seed_ok in Hs. set (p := s * Random.A) in *. cbv zeta.
  pose proof (Z.div_mod p (2 ^ 31) ltac:(done)) as Ed. pose proof (Z.mod_pos_bound p (2 ^ 31) ltac:(done)) as Hr.
  assert (0 <= p / 2 ^ 31 < 2 ^ 31) as Hd.
  { unfold Random.M in *. split; [apply Z.div_pos | apply Z.div_lt_upper_bound]; subst p; unfold Random.A; lia. }
  assert (Hp0 : p mod Random.M = (p / 2 ^ 31 + p mod 2 ^ 31) mod Random.M).
  { rewrite Ed at 1. replace (2 ^ 31 * (p / 2 ^ 31) + p mod 2 ^ 31) with (p / 2 ^ 31 + p mod 2 ^ 31 + p / 2 ^ 31 * Random.M)
      by (unfold Random.M; lia). by rewrite Z_mod_plus_full. }
  rewrite Hp0 in Hne |- *. set (q := p / 2 ^ 31 + p mod 2 ^ 31) in *. unfold Random.M in *.
  assert (q <> 2147483647 /\ q <> 2 * 2147483647) by (split; intros E; by rewrite E in Hne).
  destruct (Z.gtb_spec q 2147483647); [| symmetry; apply Z.mod_small; lia].
  apply (Z.mod_unique q 2147483647 1); [left |]; lia.
Qed.

Lemma GoodSeed_ok s : 0 <= s -> s mod 2 ^ 31 <> Random.M -> seed_ok (Random.GoodSeed s).
Proof.
  intros Hs Hne. unfold Random.GoodSeed, seed_ok. change Random.M with (Z.ones 31) in *. rewrite Z.land_ones by lia.
  pose proof (Z.mod_pos_bound s (2 ^ 31) ltac:(done)). destruct (Z.eqb_spec (s mod 2 ^ 31) 0); cbn; [done |].
  change (Z.ones 31) with 2147483647 in *. lia.
Qed.
End Lehmer.

(** The height is between 1 and the maximal height, whatever the generator returns. *)
Lemma RandomHeight_range l seed : (0 < kMaxHeight_ l)%nat -> (0 < (RandomHeight l seed).1 <= kMaxHeight_ l)%nat.
Proof.
  intros Hm. unfold RandomHeight. assert (forall fuel h, (0 < h <= kMaxHeight_ l)%nat -> forall seed,
    (0 < (RandomHeight_loop fuel l h seed).1 <= kMaxHeight_ l)%nat) as Hloop; [| apply Hloop; lia].
  induction fuel as [| fuel IH]; intros h Hh s; cbn [RandomHeight_loop]; [done |].
  destruct (Nat.ltb_spec h (kMaxHeight_ l)); [| done]. destruct_ifs; [apply IH; lia | done..].
Qed.

(** * The skip list implements the interface of the table *)

Section Laws.
Context {C : Comparator} {CL : ComparatorLaws C}.

#[global] Instance KeyComparator_order : KeyOrder KeyComparator.
Proof. split; [intros; apply KeyComparator_sgn | apply KeyComparator_trans]. Qed.

Section Drop.
Context l lv (H : linked KeyComparator l lv).

Lemma nodes_from_drop fuel i : (length (list_nodes l) - i < fuel)%nat ->
  nodes_from fuel l (list_nodes l !! i) = drop i (list_nodes l).
Proof.
  destruct (list_nodes_spec KeyComparator l lv H) as (_ & _ & Hnext & _).
  revert i. induction fuel as [| fuel IH]; intros i Hf; [lia |]. destruct (list_nodes l !! i) as [n |] eqn:En; cbn [nodes_from].
  - unfold Iterator_Next. rewrite (Hnext i n En). pose proof (lookup_lt_Some _ _ _ En). rewrite IH by lia. symmetry. by apply drop_S.
  - apply lookup_ge_None in En. by rewrite drop_ge.
Qed.
End Drop.

Lemma filter_first_index (t : bytes) ks : StronglySorted (fun a b => KeyComparator a b < 0) ks ->
  filter (fun k => 0 <= KeyComparator k t) ks = drop (first_index (fun k => 0 <=? KeyComparator k t) ks) ks.
Proof.
  induction 1 as [| k ks Hs IH Hf]; cbn [first_index]; [done |]. rewrite list.filter_cons.
  destruct (Z.leb_spec 0 (KeyComparator k t)) as [Hle | Hlt]; [| by rewrite decide_False by lia].
  rewrite decide_True by done. cbn [drop]. f_equal. apply filter_all, list.Forall_forall. intros y Hy.
  rewrite list.Forall_forall in Hf. pose proof (Hf y Hy). pose proof (cmp_le_lt_trans (cmp := KeyComparator) t k y). order_sgn KeyComparator. lia.
Qed.

Definition skip_list_wf (r : SkipListRep) : Prop :=
  list_ok KeyComparator (skip_list_ r, ∅) /\ (0 < kMaxHeight_ (skip_list_ r))%nat.

Lemma SkipListRep_InsertKey_spec r e : skip_list_wf r ->
  skip_list_wf (SkipListRep_InsertKey r e).2 /\
  ((SkipListRep_InsertKey r e).1, list_keys (skip_list_ (SkipListRep_InsertKey r e).2)) =
    set_insert KeyComparator (list_keys (skip_list_ r)) e.
Proof.
  intros [Hok Hm]. unfold SkipListRep_InsertKey. pose proof (RandomHeight_range _ (rnd_ r) Hm) as Hh.
  destruct (RandomHeight (skip_list_ r) (rnd_ r)) as [h rnd]. cbn [fst] in Hh.
  destruct (run_insert_ok KeyComparator (skip_list_ r, ∅) {| op_key := e; op_height := h; op_hint := None |} Hok Hh)
    as (b & [l hints] & E & Hok' & Hk & Hins). cbn [run_insert op_hint op_key op_height] in E.
  destruct (Insert KeyComparator (skip_list_ r) e h) as [[b' l'] |]; [| done]. injection E as -> -> <-.
  cbn [fst snd skip_list_] in *. split; [| done]. split; [done | cbn [skip_list_]; by rewrite Hk].
Qed.

Lemma SkipListRep_Seek_spec r k : skip_list_wf r ->
  SkipListRep_Seek r k = filter (fun x => 0 <= KeyComparator x k) (list_keys (skip_list_ r)).
Proof.
  intros [(lv & H & _) _]. cbn [fst] in H. unfold SkipListRep_Seek.
  destruct (Seek_shows KeyComparator _ lv H k) as (it & -> & ->).
  rewrite filter_first_index by by apply (list_keys_sorted KeyComparator _ lv).
  rewrite (nodes_from_drop _ lv) by (done || (pose proof (list_nodes_length KeyComparator _ lv H); lia)).
  unfold list_keys. by rewrite skipn_map.
Qed.

Instance skip_list_rep_laws seed : MemTableRepLaws (MR := skip_list_rep seed) SkipListRep.
Proof.
  refine {| rep_wf := skip_list_wf : SkipListRep -> Prop |}; cbn [skip_list_rep rep_empty InsertKey rep_contents rep_Seek].
  - split; [split; [by apply new_list_ok; lia | cbn; lia] | done].
  - intros r [(lv & H & _) _]. by apply (list_keys_sorted KeyComparator _ lv).
  - intros r e Hr. destruct (SkipListRep_InsertKey_spec r e Hr) as [Hr' Hins]. split; [done |].
    unfold set_insert in Hins.
    assert (existsb (fun x => KeyComparator x e =? 0) (list_keys (skip_list_ r)) =
      bool_decide (Exists (fun x => KeyComparator x e = 0) (list_keys (skip_list_ r)))) as E.
    { apply Bool.eq_iff_eq_true. rewrite existsb_exists, bool_decide_eq_true, List.Exists_exists. by setoid_rewrite Z.eqb_eq. }
    rewrite E in Hins. destruct (bool_decide _); injection Hins as -> ->; [done |].
    split; [done | apply insert_in_order_Permutation].
  - intros r k Hr. by apply SkipListRep_Seek_spec.
Defined.

(** * The iterator with lookahead is the iterator *)

Section LookaheadProofs.
Context (lookahead_ : nat) (transform_ : option SliceTransform) l lv (H : linked KeyComparator l lv).
Abbreviation ns := (list_nodes l).
Abbreviation keys := (list_keys l).
Abbreviation place t := (first_index (fun k => Z.leb 0 (KeyComparator k t)) (list_keys l)).

(** [iter_] is at the position; [prev_] is anywhere in the list, or not valid. *)
Definition la_shows (it : LookaheadIterator) (o : option nat) : Prop :=
  shows l (la_iter_ it) o /\ forall p, la_prev_ it = Some p -> p ∈ ns.

Lemma moved_shows it o : shows l it o -> la_shows (moved it) o.
Proof.
  intros Hsh. split; [done |]. cbn. intros p ->. destruct o as [i |]; cbn in Hsh; [| done].
  destruct Hsh as (n & En & [= ->]). by apply list_elem_of_lookup_2 with i.
Qed.
Lemma Lookahead_Next_shows i n (prev : Iterator) : ns !! i = Some n -> (forall p, prev = Some p -> p ∈ ns) ->
  exists it, Lookahead_Next transform_ l prev n = Some it /\ la_shows it (clip (length keys) (S i)).
Proof.
  intros En Hp. destruct (list_nodes_spec KeyComparator l lv H) as (_ & _ & Hnext & _).
  unfold Lookahead_Next, Iterator_Next. rewrite (Hnext i n En). cbn [mbind option_bind]. eexists. split; [done |].
  split; [apply shows_lookup |]. cbn [la_prev_]. intros p. destruct_ifs; [| apply Hp].
  intros [= <-]. by apply list_elem_of_lookup_2 with i.
Qed.

(** The search from a node before which everything is smaller than the target stops at the
    first node that is not, or gives up. *)
Lemma lookahead_search_shows t fuel : forall i it, la_shows it (clip (length keys) i) ->
  (i <= place t)%nat ->
  exists r, lookahead_search transform_ l fuel t it = Some r /\
    match r with
    | inl it => la_shows it (clip (length keys) (place t))
    | inr _ => True
    end.
Proof.
  induction fuel as [| fuel IH]; intros i it [Hit Hp] Hi; cbn [lookahead_search]; [by eexists |].
  unfold clip in Hit. case_decide as Hlt; cbn in Hit; [| rewrite Hit; by eexists].
  destruct Hit as (n & En & Eit). rewrite Eit. destruct (Z.leb_spec (KeyComparator t (key_of l n)) 0) as [Hle | Hgt].
  - eexists. split; [done |]. cbn. rewrite (first_index_unique _ keys i); [| lia | |].
    + split; [| done]. unfold clip. rewrite decide_True by done. exists n. done.
    + intros j k Hj Hk. destruct (0 <=? KeyComparator k t) eqn:E; [| done]. exfalso.
      assert (place t <= j)%nat; [| lia]. by apply (first_index_at _ _ _ k).
    + intros k Hk. rewrite (keys_lookup l i n En) in Hk. injection Hk as <-. apply Z.leb_le. order_sgn KeyComparator. lia.
  - destruct (Lookahead_Next_shows i n (la_prev_ it) En Hp) as (it' & -> & Hit'). cbn [mbind option_bind].
    apply (IH (S i) it' Hit'). apply (first_index_lt _ _ _ (key_of l n)); [done | by apply keys_lookup |].
    apply Z.leb_gt. order_sgn KeyComparator. lia.
Qed.
Lemma Lookahead_Seek_shows it t : (forall p, la_prev_ it = Some p -> p ∈ ns) ->
  exists it', Lookahead_Seek lookahead_ transform_ l it t = Some it' /\
    la_shows it' (clip (length keys) (place t)).
Proof.
  intros Hp. unfold Lookahead_Seek. destruct (Seek_shows KeyComparator l lv H t) as (it0 & -> & ->). cbn [mbind option_bind].
  pose proof (moved_shows _ _ (shows_lookup l (place t))) as Hseek.
  destruct (la_prev_ it) as [p |]; [| by eexists]. destruct (Z.geb_spec (KeyComparator t (key_of l p)) 0) as [Hge | _]; [| by eexists].
  destruct (proj1 (list_elem_of_lookup _ _) (Hp p eq_refl)) as [i Ei].
  destruct (lookahead_search_shows t (S lookahead_) i {| la_iter_ := Some p; la_prev_ := Some p |}) as (r & -> & Hr).
  - apply (moved_shows (Some p)). pose proof (shows_lookup l i) as Hs. by rewrite Ei in Hs.
  - apply Nat.nlt_ge. intros Hlt. destruct (lookup_lt_is_Some_2 ns (place t)) as [m Em].
    { apply lookup_lt_Some in Ei. lia. }
    pose proof (keys_lt KeyComparator l lv H _ _ m p Hlt Em Ei) as Hmp.
    pose proof (first_index_holds (fun k => 0 <=? KeyComparator k t) keys _ (keys_lookup l _ m Em)) as Hm. apply Z.leb_le in Hm.
    pose proof (cmp_lt_le_trans (cmp := KeyComparator) (key_of l m) (key_of l p) t). order_sgn KeyComparator. lia.
  - cbn [mbind option_bind]. destruct r; by eexists.
Qed.

Lemma Lookahead_op_refines it o op o' : la_shows it o -> cursor_op KeyComparator keys o op = Some o' ->
  exists it', Lookahead_op lookahead_ transform_ l it op = Some it' /\ la_shows it' o'.
Proof.
  intros [Hit Hp] Ho. pose proof (Iterator_op_refines KeyComparator l lv H (la_iter_ it) o op o' Hit Ho) as (it' & E & Hsh).
  apply moved_shows in Hsh. unfold Lookahead_op.
  destruct op as [| | | | t | t]; cbn [Iterator_op] in E; try (rewrite E; by eexists).
  - destruct o as [i |]; [| done]. injection Ho as <-. destruct Hit as (n & En & Eit). rewrite Eit.
    by apply Lookahead_Next_shows.
  - destruct (la_iter_ it); [| done]. rewrite E. by eexists.
  - injection Ho as <-. by apply Lookahead_Seek_shows.
Qed.
End LookaheadProofs.
End Laws.

(** * Theorems *)

(** the random generator is the linear congruential generator of its comment: from a seed
    strictly between 0 and 2^31 - 1 the computation in 64 and 32 bits gives the product with 16807
    modulo 2^31 - 1, which is such a seed again, and the constructor gives such a seed unless the
    low 31 bits of its argument are all set; from that argument the generator returns 2^31 - 1 for
    ever. *)
Theorem Random_Next_congruential s :
  (Lehmer.seed_ok s -> Random.Next s = (s * Random.A) mod Random.M /\ Lehmer.seed_ok (Random.Next s)) /\
  (0 <= s -> s mod 2 ^ 31 <> Random.M -> Lehmer.seed_ok (Random.GoodSeed s)) /\
  (s = Random.M -> Random.Next (Random.GoodSeed s) = Random.M).
Proof.
  split_and!; [apply Lehmer.Next_mod | apply Lehmer.GoodSeed_ok |]. by intros ->.
Qed.

(** the iterator with lookahead is observably the plain iterator of the skip list: for every
    list that insertions made, every number of steps to look ahead and every prefix extractor,
    each sequence of operations that is a legal use of an iterator ends at the same key. *)
Theorem lookahead_iterator_agrees `{ComparatorLaws} seed entries lookahead_ transform_ iops o
    (r := fold_left (fun r e => (SkipListRep_InsertKey r e).2) entries (MakeSkipListRep seed))
    (Ho : cursor_ops KeyComparator (list_keys (skip_list_ r)) None iops = Some o) :
  exists it la, iterate_ops (Iterator_op KeyComparator (skip_list_ r)) None iops = Some it /\
    iterate_ops (Lookahead_op lookahead_ transform_ (skip_list_ r)) MakeLookaheadIterator iops = Some la /\
    key_of (skip_list_ r) <$> la_iter_ la = key_of (skip_list_ r) <$> it /\
    key_of (skip_list_ r) <$> it = o ≫= fun i => list_keys (skip_list_ r) !! i.
Proof.
  assert (skip_list_wf r) as [(lv & Hl & _) _].
  { subst r. clear Ho. induction entries as [| e es IH] using rev_ind; [split; [by apply new_list_ok; lia | cbn; lia] |].
    rewrite fold_left_app. cbn [fold_left]. by apply SkipListRep_InsertKey_spec. }
  cbn [fst] in Hl. set (l := skip_list_ r) in *.
  destruct (iterate_ops_refines (Iterator_op KeyComparator l) (shows l) KeyComparator (list_keys l)
    (Iterator_op_refines KeyComparator l lv Hl) iops None None o eq_refl Ho) as (it & Eit & Hsh).
  destruct (iterate_ops_refines (Lookahead_op lookahead_ transform_ l) (la_shows l) KeyComparator (list_keys l)
    (Lookahead_op_refines lookahead_ transform_ l lv Hl) iops MakeLookaheadIterator None o) as (la & Ela & Hla & _); [by split | done |].
  exists it, la. split; [done |]. split; [done |]. destruct o as [i |]; cbn in Hsh, Hla; [| by rewrite Hsh, Hla].
  destruct Hsh as (n & En & ->). destruct Hla as (m & Em & ->). rewrite En in Em. injection Em as <-. split; [done |].
  cbn. symmetry. by apply keys_lookup.
Qed.

Lemma Random_Next_congruential_witness :
  Random.Next 2147483646 = 2147466840 /\ Lehmer.seed_ok (Random.GoodSeed 301).
Proof.
  destruct (Random_Next_congruential 2147483646) as (H1 & _). destruct (Random_Next_congruential 301) as (_ & H2 & _).
  split; [| apply H2; [lia | vm_compute; discriminate]].
  destruct H1 as [-> _]; [split; reflexivity | reflexivity].
Defined.

(** Three entries, of user keys a, b and c; a lookahead of 2 steps. *)
Definition ex_entry (k : byte) : bytes := EncodeKey [k; Byte.x01; Byte.x01; Byte.x00; Byte.x00; Byte.x00; Byte.x00; Byte.x00; Byte.x00].
Lemma lookahead_iterator_agrees_witness :
  let r := fold_left (fun r e => (SkipListRep_InsertKey (C := BytewiseComparatorImpl) r e).2)
             [ex_entry Byte.x62; ex_entry Byte.x61; ex_entry Byte.x63] (MakeSkipListRep 301) in
  exists la, iterate_ops (Lookahead_op (C := BytewiseComparatorImpl) 2 None (skip_list_ r)) MakeLookaheadIterator
               [OpSeekToFirst; OpNext; OpSeek (ex_entry Byte.x63)] = Some la /\
    key_of (skip_list_ r) <$> la_iter_ la = Some (ex_entry Byte.x63).
Proof.
  intros r. destruct (lookahead_iterator_agrees (C := BytewiseComparatorImpl) 301
    [ex_entry Byte.x62; ex_entry Byte.x61; ex_entry Byte.x63] 2 None
    [OpSeekToFirst; OpNext; OpSeek (ex_entry Byte.x63)] (Some 2%nat)) as (it & la & _ & Hla & E1 & E2).
  - vm_compute. reflexivity.
  - exists la. split; [exact Hla |]. fold r in E1, E2. rewrite E1, E2. vm_compute. reflexivity.
Defined.
