(* ===== verification/MemTableTheorems.v ===== *)
(** The memtable implements the history of the versions added to it. *)

From stdpp Require Import gmap sorting.
From S2P Require Import Prelude Coding Comparator DbFormat Status WideColumns MergeOperator WriteBatch WriteBatchProofs MemTable MemTableSpec DynamicBloom RangeTombstones RangeTombstonesProofs MemTableProofs RangeTombstonesTheorems SkipListRep.

(** A version that may be added. *)
Definition history_entry (v : Version) : Prop :=
  version_ok v /\ 0 < v_seq v < kMaxSequenceNumber /\ (is_point v = true -> point_type (v_type v) = true).

Section History.
Context {C : Comparator} {CL : ComparatorLaws C} {TC : TimestampComparator C} {TCL : TimestampComparatorLaws C}
  {R B : Type} {MR : MemTableRep R} {MRL : MemTableRepLaws R} {MF : MemTableFilter B}
  {MFL : MemTableFilterLaws B} {H : NPHash} {RT : RangeTombstones} {RTL : RangeTombstonesLaws C}.
Context (moptions_ : MemTableOptions B).
Let len := protection_bytes_per_key moptions_.
Context (Hts : timestamp_size = 0) (Hlen : protection_ok len).

(** The versions of a key are added in the order of their sequence numbers. *)
Definition in_order (a b : Version) : Prop :=
  is_point a = is_point b -> Compare (v_key a) (v_key b) = 0 -> v_seq a < v_seq b.

Record memtable_holds (m : MemTable R B) (h : list Version) : Prop := {
  holds_wf : rep_wf (table_ m) /\ rep_wf (range_del_table_ m);
  holds_points : rep_contents (table_ m) ≡ₚ map (version_entry len) (filter is_point h);
  holds_ranges : rep_contents (range_del_table_ m) ≡ₚ map (version_entry len) (filter is_range h);
  holds_no_ranges : is_range_del_table_empty_ m = bool_decide (filter is_range h = []);
  holds_first : first_seqno_ m = match h with [] => 0 | v :: _ => v_seq v end;
  holds_entries : num_entries_ m = slen h;
  holds_deletes : num_deletes_ m = slen (filter (fun v => is_deletion (v_type v)) h);
  holds_range_deletes : num_range_deletes_ m = slen (filter is_range h);
  holds_filter : Forall (fun v => may_contain moptions_ m (v_key v) = true) h;
}.

Lemma MakeMemTable_holds latest_seq bloom : memtable_holds (MakeMemTable latest_seq bloom) [].
Proof. destruct rep_empty_spec as [? E]. by split; cbn; rewrite ?E. Qed.


(** ** Add *)

Definition same_place (v w : Version) : Prop :=
  is_point w = is_point v /\ Compare (v_key w) (v_key v) = 0 /\ v_seq w = v_seq v.
#[export] Instance same_place_dec v w : Decision (same_place v w).
Proof. unfold same_place. apply _. Defined.
Definition prot_ok (v : Version) (info : option Z) : bool :=
  match info with Some i => i =? prot_of v | None => true end.

Lemma UpdateEntryChecksum_ok v info : prot_ok v info = true ->
  encode_memtable_entry (v_seq v) (v_type v) (v_key v) (v_value v) ++
  UpdateEntryChecksum len info (v_key v) (v_value v) (v_type v) (v_seq v) = version_entry len v.
Proof.
  intros Hi. unfold version_entry, UpdateEntryChecksum. destruct (len =? 0); [done |].
  destruct info as [i |]; [| done]. cbn in Hi. apply Z.eqb_eq in Hi as ->. done.
Qed.

Lemma Exists_entries l l' v : version_ok v -> Forall version_ok l' ->
  l ≡ₚ map (version_entry len) l' ->
  (Exists (fun x => KeyComparator x (version_entry len v) = 0) l <->
   Exists (fun w => Compare (v_key w) (v_key v) = 0 /\ v_seq w = v_seq v) l').
Proof.
  intros Hv Hl' E. rewrite E, Exists_map, !list.Exists_exists. rewrite list.Forall_forall in Hl'.
  split; intros (w & Hw & Hx); exists w; (split; [done |]);
    by apply (KeyComparator_entries len w v (Hl' w Hw) Hv).
Qed.

Lemma InsertKey_entry r l v : rep_wf r -> version_ok v -> Forall version_ok l ->
  rep_contents r ≡ₚ map (version_entry len) l ->
  rep_wf (InsertKey r (version_entry len v)).2 /\
  (if bool_decide (Exists (fun w => Compare (v_key w) (v_key v) = 0 /\ v_seq w = v_seq v) l)
   then (InsertKey r (version_entry len v)).1 = false
   else (InsertKey r (version_entry len v)).1 = true /\
        rep_contents (InsertKey r (version_entry len v)).2 ≡ₚ map (version_entry len) (l ++ [v])).
Proof.
  intros Hr Hv Hl E. destruct (InsertKey_spec r (version_entry len v) Hr) as [Hwf Hi]. split; [done |].
  pose proof (Exists_entries _ _ v Hv Hl E) as Hiff. do 2 case_bool_decide; try tauto.
  destruct Hi as [? ->]. split; [done |]. rewrite map_app, E. simpl. by rewrite Permutation_app_comm.
Qed.

Lemma may_contain_add f v (b : option B) : b = add_to_filter moptions_ f (v_key v) ->
  forall m m' : MemTable R B, bloom_filter_ m = f -> bloom_filter_ m' = b ->
  may_contain moptions_ m' (v_key v) = true /\
  (forall k, may_contain moptions_ m k = true -> may_contain moptions_ m' k = true).
Proof.
  intros -> m m' Hm Hm'. unfold may_contain. rewrite Hm, Hm'. unfold add_to_filter. destruct f as [f |]; [| done].
  destruct (prefix_extractor_ moptions_) as [t |]; destruct (memtable_whole_key_filtering moptions_);
    destruct_ifs; split; intros; destruct_ifs; try done; try congruence;
    auto using filter_Add_contains, filter_Add_keeps.
Qed.

Lemma filter_one {A} (f : A -> bool) x : filter f [x] = if f x then [x] else [].
Proof. rewrite list.filter_cons. by destruct (f x). Qed.

(** The table that the type of a version selects. *)
Lemma insert_entry_spec m h v : memtable_holds m h -> Forall version_ok h -> version_ok v ->
  let r := insert_entry m (v_type v) (version_entry len v) in
  (rep_wf (table_ r.2) /\ rep_wf (range_del_table_ r.2)) /\
  (if bool_decide (Exists (same_place v) h) then r.1 = false
   else r.1 = true /\
     rep_contents (table_ r.2) ≡ₚ map (version_entry len) (filter is_point (h ++ [v])) /\
     rep_contents (range_del_table_ r.2) ≡ₚ map (version_entry len) (filter is_range (h ++ [v]))).
Proof.
  intros Hm Hh Hv. destruct (holds_wf _ _ Hm) as [Hw1 Hw2]. unfold insert_entry.
  destruct (InsertKey_entry (table_ m) _ v Hw1 Hv (Forall_filter_sub _ is_point _ Hh) (holds_points _ _ Hm))
    as [Hi1 Hi2].
  destruct (InsertKey_entry (range_del_table_ m) _ v Hw2 Hv (Forall_filter_sub _ is_range _ Hh)
    (holds_ranges _ _ Hm)) as [Hj1 Hj2].
  rewrite !list.filter_app, !filter_one.
  assert (forall f : Version -> bool, (forall w, is_point w = is_point v <-> f w = true) ->
    bool_decide (Exists (same_place v) h) = bool_decide (Exists (fun w =>
      Compare (v_key w) (v_key v) = 0 /\ v_seq w = v_seq v) (filter f h))) as Hplace.
  { intros f Hf. apply bool_decide_ext. rewrite !list.Exists_exists. unfold same_place.
    setoid_rewrite list_elem_of_filter. setoid_rewrite Hf. setoid_rewrite Is_true_true. split; intros (w & Hw); exists w; tauto. }
  change (v_type v =? kTypeRangeDeletion) with (is_range v).
  destruct (is_range v) eqn:E; assert (is_point v = negb (is_range v)) as E' by done; rewrite E in E'; cbn in E'; rewrite E'.
  - rewrite (Hplace is_range) by (intros w; rewrite ?E'; unfold is_point; by destruct (is_range w)).
    destruct (InsertKey (range_del_table_ m) _) as [res t]. cbn in *. rewrite app_nil_r.
    split; [done |]. clear Hi1 Hi2 Hplace. case_bool_decide; [done |]. destruct Hj2 as [-> ->]. by split_and!; [| apply Hm |].
  - rewrite (Hplace is_point) by (intros w; rewrite ?E'; unfold is_point; by destruct (is_range w)).
    destruct (InsertKey (table_ m) _) as [res t]. cbn in *. rewrite app_nil_r.
    split; [done |]. clear Hj1 Hj2 Hplace. case_bool_decide; [done |]. destruct Hi2 as [-> ->]. by split_and!; [| | apply Hm].
Qed.

(** [Add]: an entry whose protection does not match is refused, one whose key and sequence
    number are there is refused, any other is one more version of the history. *)
Lemma Add_holds m h v info : memtable_holds m h -> Forall version_ok h -> version_ok v -> 0 < v_seq v ->
  Forall (fun v => 0 < v_seq v) h ->
  let r := MemTable_Add moptions_ m (v_seq v) (v_type v) (v_key v) (v_value v) info in
  if negb (prot_ok v info) then r = (Status_Corruption, m)
  else if bool_decide (Exists (same_place v) h) then r = (Status_TryAgain, m)
  else r.1 = Status_OK /\ memtable_holds r.2 (h ++ [v]).
Proof.
  intros Hm Hh Hv Hq Hqs. unfold MemTable_Add. pose proof (slen_nonneg (v_key v)).
  assert (match info with Some i => VerifyEncodedEntry timestamp_size
            (encode_memtable_entry (v_seq v) (v_type v) (v_key v) (v_value v)) i | None => Status_OK end =
          if prot_ok v info then Status_OK else Status_Corruption) as ->.
  { destruct info as [i |]; [| done]. rewrite VerifyEncodedEntry_spec by (done || lia).
    unfold prot_ok. by destruct (Z.eqb_spec i (prot_of v)); case_bool_decide. }
  destruct (prot_ok v info) eqn:Hp; cbn [negb]; [| done].
  change (status_ok Status_OK) with true. cbn [negb]. fold len. rewrite UpdateEntryChecksum_ok by done.
  destruct (insert_entry_spec m h v Hm Hh Hv) as [Hwf Hi].
  destruct (insert_entry m (v_type v) (version_entry len v)) as [res m'] eqn:Ei. cbn [fst snd] in *.
  case_bool_decide; [by rewrite Hi |]. destruct Hi as (-> & Hi1 & Hi2). cbn [negb fst snd].
  split; [done |].
  assert (StripTimestampFromUserKey (v_key v) timestamp_size = v_key v) as ->.
  { rewrite Hts. apply stake_ge. lia. }
  set (m2 := Build_MemTable _ _ _ _ _ _ _ _ _ _ _ _ _ _).
  destruct (may_contain_add (bloom_filter_ m) v _ eq_refl m m2 eq_refl eq_refl) as [Hc1 Hc2].
  split; cbn [m2 table_ range_del_table_ is_range_del_table_empty_ first_seqno_ num_entries_ num_deletes_
    num_range_deletes_]; try done.
  - rewrite list.filter_app, filter_one, (holds_no_ranges _ _ Hm).
    change (v_type v =? kTypeRangeDeletion) with (is_range v).
    destruct (is_range v); [| by rewrite app_nil_r]. symmetry. apply bool_decide_eq_false. by destruct (filter _ h).
  - rewrite (holds_first _ _ Hm). destruct h as [| w h]; [done |]. apply list.Forall_cons in Hqs as [Hq1 _].
    cbn. by rewrite (proj2 (Z.eqb_neq _ _)) by lia.
  - rewrite (holds_entries _ _ Hm). slia.
  - rewrite list.filter_app, filter_one, (holds_deletes _ _ Hm). destruct (is_deletion (v_type v)); slia.
  - rewrite list.filter_app, filter_one, (holds_range_deletes _ _ Hm).
    change (v_type v =? kTypeRangeDeletion) with (is_range v).
    assert (is_range v = true -> is_deletion (v_type v) = false) as Hd
      by (unfold is_range; intros ->%Z.eqb_eq; done).
    destruct (is_range v); [rewrite Hd by done | rewrite andb_false_r]; cbn [negb andb]; slia.
  - apply Forall_app. split; [| by constructor]. eapply list.Forall_impl; [apply (holds_filter _ _ Hm) |].
    intros w. apply Hc2.
Qed.

(** ** Get *)

Lemma compare_eq_trans a b c : Compare a b = 0 -> Compare b c = 0 -> Compare a c = 0.
Proof.
  intros E1 E2. pose proof (compare_trans a b c). pose proof (compare_trans c b a).
  pose proof (compare_sgn a b). pose proof (compare_sgn b c). pose proof (compare_sgn a c). lia.
Qed.

Lemma compare_same_key a b u : Compare (v_key a) u = 0 -> Compare (v_key b) u = 0 ->
  Compare (v_key a) (v_key b) = 0.
Proof.
  intros Ha Hb. pose proof (compare_sgn (v_key b) u). apply (compare_eq_trans _ u); lia.
Qed.

Lemma visible_spec u snapshot v :
  visible u snapshot v <-> is_point v = true /\ Compare (v_key v) u = 0 /\ v_seq v <= snapshot.
Proof.
  unfold visible. rewrite !andb_True, <- Z.eqb_eq, <- Z.leb_le, !Is_true_true. tauto.
Qed.

Lemma version_lt_after a b u : version_lt a b -> 0 < Compare (v_key a) u -> 0 < Compare (v_key b) u.
Proof.
  intros Hlt Ha. pose proof (compare_trans (v_key a) (v_key b) u). unfold version_lt in Hlt. lia.
Qed.

(** The entries from a lookup key on: the visible versions of the key, then other keys. *)
Lemma filter_from u snapshot l : StronglySorted version_lt l ->
  filter (fun v => 0 < Compare (v_key v) u \/ Compare (v_key v) u = 0 /\ v_seq v <= snapshot) l =
  filter (fun v => Compare (v_key v) u = 0 /\ v_seq v <= snapshot) l ++
  filter (fun v => 0 < Compare (v_key v) u) l.
Proof.
  induction 1 as [| v l Hs IH Hf]; [done |]. rewrite !list.filter_cons, IH.
  destruct (decide (0 < Compare (v_key v) u)) as [Hpos |].
  - rewrite !decide_True by auto. rewrite decide_False by lia.
    rewrite (filter_none _ l); [done |].
    eapply list.Forall_impl; [apply Hf |]. intros w Hw. pose proof (version_lt_after _ _ u Hw Hpos). lia.
  - destruct (decide (Compare (v_key v) u = 0 /\ v_seq v <= snapshot)) as [Hd | Hd].
    + by rewrite decide_True by auto.
    + by rewrite decide_False by tauto.
Qed.

Lemma sorted_versions l l' : Forall version_ok l' -> sorted_entries l -> l ≡ₚ map (version_entry len) l' ->
  exists k, l = map (version_entry len) k /\ k ≡ₚ l' /\ StronglySorted version_lt k.
Proof.
  intros Hok Hs Hp. destruct (Permutation_map_inv _ _ Hp) as (k & -> & Hk). exists k. split; [done |].
  split; [done |]. apply (StronglySorted_map (version_entry len) version_ok _ version_lt) in Hs;
    [done | | by rewrite <- Hk].
  intros x y Hx Hy Hxy. by apply (KeyComparator_entries len x y Hx Hy).
Qed.

Lemma seek_versions m h u snapshot : memtable_holds m h -> Forall version_ok h -> StronglySorted in_order h ->
  fits 56 snapshot -> slen u + 8 < 2 ^ 32 ->
  exists others,
    rep_Seek (table_ m) (memtable_key (MakeLookupKey u snapshot None)) =
      map (version_entry len) (rev (filter (fun v => visible u snapshot v) h) ++ others) /\
    Forall (fun w => version_ok w /\ Compare (v_key w) u <> 0) others.
Proof.
  intros Hm Hh Ho Hs Hu. destruct (holds_wf _ _ Hm) as [Hw _].
  destruct (sorted_versions _ _ (Forall_filter_sub _ is_point _ Hh) (rep_sorted _ Hw) (holds_points _ _ Hm))
    as (k & Ek & Hk & Hks).
  assert (Forall version_ok k) as Hkok by (rewrite Hk; by apply Forall_filter_sub).
  exists (filter (fun v => 0 < Compare (v_key v) u) k). split.
  - rewrite rep_Seek_spec, Ek by done.
    rewrite filter_map_comm. f_equal.
    rewrite (filter_ext_Forall _ (fun v => 0 < Compare (v_key v) u \/ Compare (v_key v) u = 0 /\ v_seq v <= snapshot))
      by (eapply list.Forall_impl; [apply Hkok |]; intros; by apply KeyComparator_lookup).
    rewrite filter_from by done. f_equal.
    apply (StronglySorted_unique_strong (fun a b => v_seq b < v_seq a)); [lia | | |].
    + apply (StronglySorted_weaken (fun v => Compare (v_key v) u = 0) version_lt);
        [intros x y Hx Hy | apply Forall_filter_holds; tauto | by apply StronglySorted_filter].
      pose proof (compare_same_key x y u Hx Hy). unfold version_lt. lia.
    + apply StronglySorted_rev, (StronglySorted_weaken (fun v => visible u snapshot v) in_order);
        [| by apply Forall_filter_holds | by apply StronglySorted_filter].
      intros x y (Hx1 & Hx2 & _)%visible_spec (Hy1 & Hy2 & _)%visible_spec Hxy. apply Hxy; [congruence |].
      by apply (compare_same_key x y u).
    + rewrite <- Permutation_rev, Hk, list_filter_filter.
      erewrite list_filter_iff; [done |]. intros v. rewrite visible_spec, Is_true_true. tauto.
  - apply list.Forall_forall. intros w [Hw' Hwk]%list_elem_of_filter. rewrite list.Forall_forall in Hkok.
    split; [by apply Hkok | lia].
Qed.

Lemma max_covering_bounds l snapshot u : Forall (fun v => 0 <= v_seq v < kMaxSequenceNumber) l ->
  0 <= max_covering l snapshot u < kMaxSequenceNumber.
Proof.
  intros Hl. unfold max_covering. apply (Forall_filter_sub _ (fun t => covering snapshot u t)) in Hl.
  revert Hl. generalize (filter (fun t => covering snapshot u t) l). clear.
  induction 1 as [| v l Hv _ IH]; cbn [foldr]; [done | lia].
Qed.

Lemma max_covering_Permutation l l' snapshot u : l ≡ₚ l' -> max_covering l snapshot u = max_covering l' snapshot u.
Proof.
  intros E. unfold max_covering. apply (filter_Permutation (fun t => covering snapshot u t)) in E.
  induction E; cbn [foldr]; lia.
Qed.

(** The tombstone that covers the key, with the one that newer tables gave. *)
Definition tombstone_seen (h : list Version) (u : bytes) (snapshot : Z) (ro : ReadOptions) (t0 : Z) : Z :=
  if ignore_range_deletions ro then t0 else Z.max t0 (tombstone_of h u snapshot).

Lemma tombstone_seen_bounds h u snapshot ro t0 : Forall (fun v => 0 < v_seq v < kMaxSequenceNumber) h ->
  0 <= t0 < kMaxSequenceNumber -> 0 <= tombstone_seen h u snapshot ro t0 < kMaxSequenceNumber.
Proof.
  intros Hh Ht. unfold tombstone_seen, tombstone_of. destruct (ignore_range_deletions ro); [done |].
  pose proof (max_covering_bounds (filter is_range h) snapshot u) as Hb.
  destruct Hb; [| lia]. apply Forall_filter_sub. eapply list.Forall_impl; [apply Hh |]. simpl. lia.
Qed.

Lemma note_tombstone_spec m h u snapshot ro g : memtable_holds m h -> Forall version_ok h ->
  Forall range_in_order (filter is_range h) ->
  fits 56 snapshot -> slen u + 8 < 2 ^ 32 -> 0 <= get_max_covering_tombstone_seq g ->
  let g' := note_tombstone m (MakeLookupKey u snapshot None) ro g in
  get_max_covering_tombstone_seq g' = tombstone_seen h u snapshot ro (get_max_covering_tombstone_seq g) /\
  get_status g' = get_status g /\ get_result g' = get_result g /\
  get_merge_context g' = get_merge_context g /\ get_is_blob_index g' = get_is_blob_index g.
Proof.
  intros Hm Hh Hr Hs Hu Hg. unfold note_tombstone, tombstone_seen, tombstone_of.
  destruct (ignore_range_deletions ro); [done |]. rewrite (holds_no_ranges _ _ Hm). cbn [orb].
  case_bool_decide as E.
  { rewrite E. unfold max_covering. cbn. split_and!; (done || lia). }
  destruct (MakeLookupKey_spec u snapshot None Hs) as (_ & Eu & _ & Ep); [simpl; slia |].
  destruct (holds_wf _ _ Hm) as [_ Hw].
  destruct (sorted_versions _ _ (Forall_filter_sub _ is_range _ Hh) (rep_sorted _ Hw) (holds_ranges _ _ Hm))
    as (k & Ek & Hk & Hks).
  assert (GetInternalKeySeqno (internal_key (MakeLookupKey u snapshot None)) = snapshot) as -> by (by injection Ep).
  rewrite Eu. cbn [default]. unfold id. rewrite app_nil_r, Ek.
  pose proof (MaxCoveringTombstoneSeqnum_spec len k snapshot (read_timestamp ro) u Hts) as Hmax.
  destruct (MaxCoveringTombstoneSeqnum _ _ _ _) as [seq ts]. cbn [fst] in Hmax. rewrite Hmax.
  - rewrite (max_covering_Permutation _ _ snapshot u Hk), Z.gtb_ltb.
    destruct (Z.ltb_spec (get_max_covering_tombstone_seq g) (max_covering (filter is_range h) snapshot u));
      cbn; split_and!; try done; lia.
  - rewrite Hk. by apply Forall_filter_sub.
  - by rewrite Hk.
  - rewrite <- Ek. by apply rep_sorted.
Qed.

(** A lookup that comes to this table with the operands [acc] of newer tables. *)
Definition lookup_state (g : GetState) (acc : list bytes) : Prop :=
  get_status g = (if bool_decide (acc = []) then Status_OK else Status_MergeInProgress) /\
  operands (get_merge_context g) = acc /\ has_result (get_result g) = true /\
  is_Some (get_is_blob_index g) /\ 0 <= get_max_covering_tombstone_seq g < kMaxSequenceNumber.

(** The state of the key after the versions that the read may see. *)
Definition table_state (h : list Version) (u : bytes) (snapshot t : Z) : KeyState :=
  fold_left (apply_version t) (filter (fun v => visible u snapshot v) h) (None, []).

Definition distinguishes (m : MemTable R B) : Prop :=
  bloom_filter_ m = None \/ forall a b, Compare a b = 0 -> a = b.

Lemma may_contain_false m h u snapshot : memtable_holds m h -> distinguishes m ->
  may_contain moptions_ m u = false -> filter (fun v => visible u snapshot v) h = [].
Proof.
  intros Hm [Hd | Hd] Hc; [unfold may_contain in Hc; by rewrite Hd in Hc |].
  apply filter_none. eapply list.Forall_impl; [apply (holds_filter _ _ Hm) |].
  intros v Hv (_ & Hk & _)%visible_spec. apply Hd in Hk. congruence.
Qed.

Section Get.
Context (op : MergeOperator) (u : bytes) (snapshot : Z) (ro : ReadOptions).
Context (Hop : merge_operator moptions_ = Some op) (Hsm : forall l, ShouldMerge op l = false)
  (Hs : fits 56 snapshot) (Hu : slen u + 8 < 2 ^ 32) (Hcb : merge_operands_continue_cb ro = None).
Let lk := MakeLookupKey u snapshot None.

Lemma GetFromTable_spec m h acc g : memtable_holds m h -> Forall history_entry h ->
  StronglySorted in_order h -> lookup_state g acc ->
  let t := get_max_covering_tombstone_seq g in
  let st := table_state h u snapshot t in
  let seq := newest_seq t (filter (fun v => visible u snapshot v) h) in
  let s := GetFromTable moptions_ m lk (negb (bool_decide (acc = []))) true None None g in
  match st.1 with
  | Some b => concluded op u s (get_result g) b (st.2 ++ acc) seq
  | None => searching s (get_result g) (st.2 ++ acc) seq
  end.
Proof.
  intros Hm Hh Ho (Hst & Hops & Hr & Hb & Ht) t st seq s.
  assert (Forall version_ok h) as Hok by (eapply list.Forall_impl; [apply Hh |]; intros v Hv; apply Hv).
  destruct (seek_versions m h u snapshot Hm Hok Ho Hs Hu) as (others & Eseek & Hothers).
  subst s. unfold GetFromTable, lk in *. rewrite Hop, Eseek. fold len.
  destruct (MakeLookupKey_spec u snapshot None Hs) as (_ & Eu & _); [simpl; slia |].
  cbn [default] in Eu. unfold id in Eu. rewrite app_nil_r in Eu.
  pose proof (rep_Get_versions op (MakeLookupKey u snapshot None) u t len Hts Eu Hlen Hsm (get_result g) Hr (proj2 Ht) others Hothers
    (filter (fun v => visible u snapshot v) h)) as Hget.
  set (s0 := Build_Saver _ _ _ _ _ _ _ _). specialize (Hget s0 acc kMaxSequenceNumber).
  unfold newest_seq in seq. unfold seen_seq in Hget. cbn zeta in Hget. rewrite Z.eqb_refl in Hget. apply Hget.
  - unfold searching. cbn. rewrite Hst, Hops. split_and!; try done. case_bool_decide; [by left | by right].
  - apply list.Forall_forall. intros v [Hv Hvh]%list_elem_of_filter. apply visible_spec in Hv as (Hp & Hk & _).
    rewrite list.Forall_forall in Hh. destruct (Hh v Hvh) as (? & _ & Hpt). by split_and!; [| | apply Hpt].
  - apply Forall_filter_sub. eapply list.Forall_impl; [apply Hh |]. intros v (_ & ? & _). lia.
Qed.

(** What a lookup leaves: the outcome of the state [st], the operands, the tombstone. *)
Definition lookup_done (st : KeyState) (acc : list bytes) (t : Z) (r : bool * GetState) (g : GetState) : Prop :=
  (r.1, (get_status r.2, get_result r.2)) = lookup_result op u (st.1, st.2 ++ acc) (get_result g) /\
  operands (get_merge_context r.2) = st.2 ++ acc /\ get_max_covering_tombstone_seq r.2 = t.

Lemma lookup_result_nothing acc r :
  lookup_result op u (None, acc) r =
  (false, (if bool_decide (acc = []) then Status_OK else Status_MergeInProgress, r)).
Proof. by destruct acc. Qed.

Lemma lookup_result_found b ops r : (lookup_result op u (Some b, ops) r).1 = true.
Proof. by destruct b, ops. Qed.

(** The end of [Get] makes the status of a lookup that has only met operands. *)
Lemma finish_lookup s st acc r seq :
  match st.1 with
  | Some b => concluded op u s r b (st.2 ++ acc) seq
  | None => searching s r (st.2 ++ acc) seq
  end ->
  lookup_result op u (st.1, st.2 ++ acc) r =
    (found_final_value s,
     (if negb (found_final_value s) && merge_in_progress s && status_ok (saver_status s)
      then Status_MergeInProgress else saver_status s, saver_result s)) /\
  operands (merge_context s) = st.2 ++ acc /\ saver_seq s = seq.
Proof.
  destruct st as [[b |] ops]; cbn [fst snd].
  - intros (-> & Hres & Hops & Hq). cbn [negb andb]. rewrite Hres. split; [| done].
    pose proof (lookup_result_found b (ops ++ acc) r). by destruct (lookup_result _ _ _ _); cbn in *; subst.
  - intros (Hss & -> & -> & <- & Hops & Hq & _). rewrite lookup_result_nothing. split; [| done]. cbn [negb andb].
    destruct Hss as [-> | [-> Hne]]; [| rewrite bool_decide_false by done]; [by case_bool_decide | done].
Qed.

Lemma Get_holds m h acc g : memtable_holds m h -> Forall history_entry h -> Forall range_in_order (filter is_range h) ->
  StronglySorted in_order h ->
  lookup_state g acc -> distinguishes m ->
  let t := tombstone_seen h u snapshot ro (get_max_covering_tombstone_seq g) in
  let r := MemTable_Get moptions_ m lk ro None true g in
  lookup_done (table_state h u snapshot t) acc t r g /\
  (h <> [] -> get_seq r.2 = newest_seq t (filter (fun v => visible u snapshot v) h)).
Proof.
  intros Hm Hh Hrg Ho Hg Hd t r. pose proof Hg as (Hst & Hops & Hr & Hb & Ht).
  assert (Forall version_ok h) as Hok by (eapply list.Forall_impl; [apply Hh |]; intros v Hv; apply Hv).
  subst r. unfold MemTable_Get, IsEmpty. rewrite (holds_first _ _ Hm). destruct h as [| v0 h0].
  { unfold lookup_done, t, tombstone_seen, tombstone_of, max_covering. cbn -[lookup_result].
    rewrite lookup_result_nothing, Hst. split; [| done]. split_and!; [done.. |].
    destruct (ignore_range_deletions ro); lia. }
  destruct (List.Forall_inv Hh) as (_ & Hq0 & _). rewrite (proj2 (Z.eqb_neq _ _)) by lia.
  set (h := v0 :: h0) in *. unfold lk.
  destruct (note_tombstone_spec m h u snapshot ro g Hm Hok Hrg Hs Hu (proj1 Ht)) as (Et & Es & Er & Ec & Eb).
  set (g1 := note_tombstone m _ ro g) in *. fold t in Et.
  assert (lookup_state g1 acc) as Hg1.
  { unfold lookup_state. rewrite Es, Er, Ec, Eb, Et. do 4 (split; [done |]). apply tombstone_seen_bounds; [| done].
    eapply list.Forall_impl; [apply Hh |]. intros v (_ & ? & _). lia. }
  destruct (MakeLookupKey_spec u snapshot None Hs) as (_ & Eu & _); [simpl; slia |].
  cbn [default] in Eu. unfold id in Eu. rewrite app_nil_r in Eu. rewrite Eu, Hts.
  assert (StripTimestampFromUserKey u 0 = u) as -> by (apply stake_ge; lia).
  assert (IsMergeInProgress (get_status g1) = negb (bool_decide (acc = []))) as ->
    by (rewrite Es, Hst; by case_bool_decide).
  rewrite Hcb. destruct (may_contain moptions_ m u) eqn:Hmay; cbn [negb].
  - pose proof (GetFromTable_spec m h acc g1 Hm Hh Ho Hg1) as Hs1. cbn zeta in Hs1. rewrite Et, Er in Hs1.
    apply finish_lookup in Hs1 as [Hs1 Hq]. unfold lookup_done, lk in *. rewrite Hs1. clear Hs1.
    destruct (GetFromTable _ _ _ _ _ _ _ _) as [ss f mg rr sq ts c b].
    cbn [saver_status found_final_value merge_in_progress saver_result saver_seq merge_context get_status fst snd] in *.
    destruct Hq as [Hq1 Hq2]. destruct (negb f && mg && status_ok ss); cbn; split_and!; try done.
  - unfold table_state, newest_seq. rewrite (may_contain_false m h u snapshot Hm Hd Hmay).
    unfold lookup_done. rewrite lookup_result_nothing. cbn. rewrite Es, Er, Hst, <- Hops, <- Ec.
    by destruct (bool_decide (operands (get_merge_context g1) = [])).
Qed.
End Get.

(** ** A sequence of additions *)

Fixpoint add_all (m : MemTable R B) (l : list (Version * option Z)) : option (MemTable R B) :=
  match l with
  | [] => Some m
  | (v, info) :: l =>
      let '(s, m) := MemTable_Add moptions_ m (v_seq v) (v_type v) (v_key v) (v_value v) info in
      if status_ok s then add_all m l else None
  end.

Lemma Add_bloom m s t k v info : bloom_filter_ m = None ->
  bloom_filter_ (MemTable_Add moptions_ m s t k v info).2 = None.
Proof.
  intros Hb. unfold MemTable_Add. destruct (negb (status_ok _)); [done |].
  destruct (insert_entry _ _ _) as [[] m']; [| done]. cbn. by rewrite Hb.
Qed.

Lemma in_order_new h v l : StronglySorted in_order (h ++ v :: l) -> ~ Exists (same_place v) h.
Proof.
  intros Hs Hex. apply list.Exists_exists in Hex as (w & Hw & Hp & Hk & Hq).
  pose proof (StronglySorted_app_1_elem_of _ _ _ w v Hs Hw (list_elem_of_here _ _)) as Hlt.
  specialize (Hlt Hp Hk). lia.
Qed.

Lemma add_all_holds l : forall m h, memtable_holds m h -> Forall history_entry (h ++ l.*1) ->
  StronglySorted in_order (h ++ l.*1) -> Forall (fun p => prot_ok p.1 p.2 = true) l ->
  exists m', add_all m l = Some m' /\ memtable_holds m' (h ++ l.*1) /\
    (bloom_filter_ m = None -> bloom_filter_ m' = None).
Proof.
  induction l as [| [v info] l IH]; intros m h Hm Hh Ho Hp; cbn [add_all fmap list_fmap fst] in *.
  { exists m. by rewrite app_nil_r. }
  apply list.Forall_cons in Hp as [Hp1 Hp]. pose proof Hh as Hh'.
  apply Forall_app in Hh' as [Hh0 Hh1]. apply list.Forall_cons in Hh1 as [(Hv & Hq & _) _].
  pose proof (Add_holds m h v info Hm) as Hadd. cbn zeta in Hadd. cbn in Hp1. rewrite Hp1 in Hadd.
  rewrite bool_decide_false in Hadd by (by eapply in_order_new). cbn [negb] in Hadd.
  destruct Hadd as [Hs Hm']; [eapply list.Forall_impl; [apply Hh0 |]; intros w Hw; apply Hw | done | lia
    | eapply list.Forall_impl; [apply Hh0 |]; intros w (_ & ? & _); lia |].
  pose proof (Add_bloom m (v_seq v) (v_type v) (v_key v) (v_value v) info) as Hb.
  destruct (MemTable_Add _ _ _ _ _ _ _) as [st m1]. cbn [fst snd] in *. subst st.
  change (status_ok Status_OK) with true. rewrite cons_middle, app_assoc in Hh, Ho |- *.
  destruct (IH m1 (h ++ [v]) Hm' Hh Ho Hp) as (m' & ? & ? & ?). exists m'. auto.
Qed.
End History.

(** * Simple implementations of the interfaces *)

Module Simple.

Instance default_timestamps_laws (C : Comparator) :
  TimestampComparatorLaws C (TC := DefaultTimestampComparator C).
Proof. by split. Qed.
End Simple.

(** * Theorems *)


(** An operator that appends the operands to the existing value. *)
Definition append_operator : MergeOperator := {|
  FullMergeV3 _ existing operands :=
    Some (NewPlain (match existing with PlainBaseValue v => v | _ => [] end ++ concat operands));
  ShouldMerge _ := false;
|}.
Definition ex_bloom : DynamicBloom := MakeDynamicBloom 1000 6.
Definition ex_moptions : MemTableOptions DynamicBloom := {|
  protection_bytes_per_key := 8; memtable_whole_key_filtering := true; prefix_extractor_ := None;
  merge_operator := Some append_operator; persist_user_defined_timestamps_ := true;
|}.
Definition ex_read : ReadOptions :=
  {| ignore_range_deletions := false; read_timestamp := None; merge_operands_continue_cb := None |}.
Definition ex_get : GetState := {|
  get_status := Status_OK; get_result := ToValue []; get_timestamp := None;
  get_merge_context := MakeMergeContext; get_max_covering_tombstone_seq := 0; get_seq := 0;
  get_is_blob_index := Some false;
|}.
Definition version (k : byte) (seq type : Z) (v : byte) : Version :=
  {| v_key := [k]; v_seq := seq; v_type := type; v_value := [v] |}.
(** A value and an operand for the key "a", a range deletion of ["a", "b"), two more operands. *)
Definition ex_history : list Version :=
  [version Byte.x61 1 kTypeValue Byte.x31; version Byte.x61 2 kTypeMerge Byte.x32;
   version Byte.x61 3 kTypeRangeDeletion Byte.x62; version Byte.x61 4 kTypeMerge Byte.x34;
   version Byte.x61 5 kTypeMerge Byte.x35].

Lemma lookup_outcome {op u st acc t r g} : lookup_done op u st acc t r g ->
  (r.1, get_result r.2) =
  let o := lookup_result op u (st.1, st.2 ++ acc) (get_result g) in (o.1, o.2.2).
Proof. intros (<- & _). done. Qed.




Definition zero_info : MemTablePostProcessInfo :=
  {| post_data_size := 0; post_num_entries := 0; post_num_deletes := 0; post_num_range_deletes := 0 |}.
Definition with_num_deletes {R B} (m : MemTable R B) (n : Z) : MemTable R B :=
  {| table_ := table_ m; range_del_table_ := range_del_table_ m;
     is_range_del_table_empty_ := is_range_del_table_empty_ m; data_size_ := data_size_ m;
     num_entries_ := num_entries_ m; num_deletes_ := n; num_range_deletes_ := num_range_deletes_ m;
     first_seqno_ := first_seqno_ m; earliest_seqno_ := earliest_seqno_ m;
     min_prep_log_referenced_ := min_prep_log_referenced_ m; bloom_filter_ := bloom_filter_ m;
     newest_udt_ := newest_udt_ m |}.
Lemma BatchPostProcess_zero {R B} (m : MemTable R B) : BatchPostProcess m zero_info = m.
Proof. destruct m. unfold BatchPostProcess. cbn. by rewrite !Z.add_0_r. Qed.
Lemma with_same_deletes {R B} (m : MemTable R B) : with_num_deletes m (num_deletes_ m) = m.
Proof. by destruct m. Qed.

(** an addition under [allow_concurrent] followed by [BatchPostProcess] has the status and the
    effect of an addition without it, when no older entry than those of the table is added, but
    for the count of deletions: single deletions and deletions with a timestamp are not counted
    there. *)
Theorem concurrent_Add_agrees {C : Comparator} {TC : TimestampComparator C} {R B : Type} {MR : MemTableRep R}
    {MF : MemTableFilter B} {H : NPHash} (moptions_ : MemTableOptions B) (m : MemTable R B) (s type : Z)
    (key value : bytes) (info : option Z) (Hts : timestamp_size = 0) (Hs : s <= kMaxSequenceNumber)
    (Hfirst : first_seqno_ m = 0 \/ first_seqno_ m <= s)
    (Hearliest : earliest_seqno_ m <= s \/ earliest_seqno_ m = kMaxSequenceNumber /\ first_seqno_ m = 0) :
  let '(st1, m1) := MemTable_Add moptions_ m s type key value info in
  let '(st2, m2, p) := MemTable_Add_concurrent moptions_ m s type key value info zero_info in
  let m2 := BatchPostProcess m2 p in
  st1 = st2 /\ m1 = with_num_deletes m2 (num_deletes_ m1) /\
  num_deletes_ m1 = num_deletes_ m2 +
    (if status_ok st1 && ((type =? kTypeSingleDeletion) || (type =? kTypeDeletionWithTimestamp)) then 1 else 0).
Proof.
  unfold MemTable_Add, MemTable_Add_concurrent.
  destruct (negb (status_ok (match info with Some i => _ | None => _ end))) eqn:E.
  { apply negb_true_iff in E. rewrite E, BatchPostProcess_zero. cbn. by rewrite Z.add_0_r, with_same_deletes. }
  destruct (insert_entry m type _) as [[] m']; cbn [negb]; 
    [| rewrite BatchPostProcess_zero; cbn; by rewrite Z.add_0_r, with_same_deletes].
  split; [done |]. unfold BatchPostProcess, with_num_deletes, MaybeUpdateNewestUDT. rewrite Hts.
  cbn -[Z.add kTypeRangeDeletion kTypeSingleDeletion kTypeDeletionWithTimestamp kTypeDeletion]. split.
  - f_equal; rewrite ?Z.add_0_l; try done.
    + unfold is_deletion. destruct (Z.eqb_spec type kTypeRangeDeletion) as [-> | _]; [done |].
      by rewrite andb_false_r.
    + destruct (Z.eqb_spec (first_seqno_ m) 0); [done |]. by rewrite (proj2 (Z.ltb_ge _ _)) by lia.
    + destruct (Z.eqb_spec (first_seqno_ m) 0), (Z.eqb_spec (earliest_seqno_ m) kMaxSequenceNumber),
        (Z.ltb_spec s (earliest_seqno_ m)); cbn; try done; lia.
  - change (status_ok Status_OK) with true. unfold is_deletion. cbn [andb].
    destruct (Z.eqb_spec type kTypeDeletion) as [-> | Hd];
      [change (negb (0 + 1 =? 0)) with true; cbn; lia |]. cbn -[Z.add].
    destruct (type =? kTypeSingleDeletion), (type =? kTypeDeletionWithTimestamp); cbn -[Z.add]; lia.
Qed.

Definition ex_unprotected : MemTableOptions DynamicBloom := {|
  protection_bytes_per_key := 0; memtable_whole_key_filtering := false; prefix_extractor_ := None;
  merge_operator := None; persist_user_defined_timestamps_ := true;
|}.
Lemma concurrent_Add_agrees_witness :
  let m := MakeMemTable (MR := skip_list_rep (C := BytewiseComparatorImpl) 301) (B := DynamicBloom) 0 None in
  let '(st1, m1) := MemTable_Add (C := BytewiseComparatorImpl)
    (MR := skip_list_rep (C := BytewiseComparatorImpl) 301)
    (TC := DefaultTimestampComparator BytewiseComparatorImpl) (MF := bloom_filter) (H := ex_hash)
    ex_unprotected m 1 kTypeSingleDeletion [Byte.x61] [] None in
  let '(st2, m2, p) := MemTable_Add_concurrent (C := BytewiseComparatorImpl)
    (MR := skip_list_rep (C := BytewiseComparatorImpl) 301) (MF := bloom_filter) (H := ex_hash)
    ex_unprotected m 1 kTypeSingleDeletion [Byte.x61] [] None zero_info in
  st1 = Status_OK -> num_deletes_ m1 = num_deletes_ (BatchPostProcess m2 p) + 1.
Proof.
  intros m. assert (1 <= kMaxSequenceNumber) as H1 by by vm_compute. assert (0 <= 1) as H2 by done.
  pose proof (concurrent_Add_agrees (C := BytewiseComparatorImpl) (MF := bloom_filter) (H := ex_hash)
    (TC := DefaultTimestampComparator BytewiseComparatorImpl)
    (MR := skip_list_rep (C := BytewiseComparatorImpl) 301) ex_unprotected m 1 kTypeSingleDeletion [Byte.x61] [] None
    eq_refl H1 (or_introl eq_refl) (or_introl H2)) as Hagree.
  revert Hagree. destruct (MemTable_Add _ _ _ _ _ _) as [st1 m1].
  destruct (MemTable_Add_concurrent _ _ _ _ _ _ _ _) as [[st2 m2] p].
  intros (_ & _ & Hn) ->. exact Hn.
Defined.
