(* ===== verification/InserterProofs.v ===== *)
(** [MemTableInserter] on the operations of a batch: every entry becomes one version of the
    history of its column family, with the next sequence number. *)

From stdpp Require Import gmap sorting.
From S2P Require Import Prelude Coding Comparator DbFormat Status WideColumns MergeOperator WriteBatch WriteBatchIter WriteBatchSpec WriteBatchProofs LogsWithPrepTracker MemTable MemTableInserter MemTableSpec MemTableProofs MemTableTheorems.

(** * What a batch adds *)

(** The column family, the key, the value and the type of an entry. *)
Definition op_entry (op : BatchOp) : option (Z * bytes * bytes * Z) :=
  match op with
  | BPut cf k v => Some (cf, k, v, kTypeValue)
  | BTimedPut cf k v t => Some (cf, k, PackValueAndWriteTime v t, kTypeValuePreferredSeqno)
  | BPutEntity cf k v => Some (cf, k, v, kTypeWideColumnEntity)
  | BDelete cf k => Some (cf, k, [], kTypeDeletion)
  | BSingleDelete cf k => Some (cf, k, [], kTypeSingleDeletion)
  | BDeleteRange cf b e => Some (cf, b, e, kTypeRangeDeletion)
  | BMerge cf k v => Some (cf, k, v, kTypeMerge)
  | BPutBlobIndex cf k v => Some (cf, k, v, kTypeBlobIndex)
  | _ => None
  end.

Section Inserter.
Context {R B : Type} {MRF : forall C : Comparator, MemTableRep R}
  {MRFL : forall C : Comparator, ComparatorLaws C -> MemTableRepLaws (MR := MRF C) R}
  {MF : MemTableFilter B} {MFL : MemTableFilterLaws B} {H : NPHash}.
Context (a : InserterArgs R B).
Context (Hper_key : seq_per_batch_ a = false) (Hserial : concurrent_memtable_writes_ a = false).

(** Whether a column family takes the writes of the log that is recovered. *)
Definition takes_writes (c : ColumnFamilyData R B) : bool :=
  negb (recovering a && (recovering_log_number_ a <? cfd_log_number c)).
(** An empty range is dropped when there is a database. *)
Definition drops (c : ColumnFamilyData R B) (op : BatchOp) : bool :=
  match op with
  | BDeleteRange _ b e =>
      match db a with
      | Some _ => CompareWithoutTimestamp (TimestampComparator := cfd_timestamps c) b e =? 0
      | None => false
      end
  | _ => false
  end.

(** The version that an operation adds at a sequence number, with its column family, and the
    next sequence number. *)
Definition op_step (cfs : gmap Z (ColumnFamilyData R B)) (seq : Z) (op : BatchOp)
    : option (Z * Version) * Z :=
  match op_entry op with
  | None => (None, seq)
  | Some (cf, k, v, t) =>
      match cfs !! cf with
      | None => (None, seq + 1)
      | Some c =>
          if negb (takes_writes c) then (None, seq + 1)
          else if drops c op then (None, seq)
          else (Some (cf, {| v_key := k; v_seq := seq; v_type := t; v_value := v |}), seq + 1)
      end
  end.
Fixpoint ops_versions (cfs : gmap Z (ColumnFamilyData R B)) (seq : Z) (ops : list BatchOp)
    : list (Z * Version) * Z :=
  match ops with
  | [] => ([], seq)
  | op :: ops =>
      let '(added, seq) := op_step cfs seq op in
      let '(l, seq) := ops_versions cfs seq ops in
      (option_list added ++ l, seq)
  end.
Definition versions_of (cf : Z) (l : list (Z * Version)) : list Version :=
  map snd (filter (fun p => p.1 = cf) l).

(** * The invariant *)

Record cf_inv (c : ColumnFamilyData R B) (h : list Version) (seq : Z) : Prop := {
  cf_ts : timestamp_size (Comparator := cfd_comparator c) = 0;
  cf_tsl : TimestampComparatorLaws (cfd_comparator c) (TC := cfd_timestamps c);
  cf_holds : exists L : ComparatorLaws (cfd_comparator c),
    memtable_holds (MRL := MRFL _ L) (cfd_moptions c) (cfd_mem c) h;
  cf_entries : Forall history_entry h;
  cf_ranges : Forall (range_in_order (C := cfd_comparator c)) (filter is_range h);
  cf_order : StronglySorted (in_order (C := cfd_comparator c)) h;
  cf_below : Forall (fun v => v_seq v < seq) h;
}.
Definition mems_inv (m : gmap Z (ColumnFamilyData R B)) (hist : Z -> list Version) (seq : Z) : Prop :=
  forall cf c, m !! cf = Some c -> cf_inv c (hist cf) seq.

(** What does not change of the column families. *)
Definition same_family (c c' : ColumnFamilyData R B) : Prop := c' = set_mem c (cfd_mem c').
Definition same_families (m m' : gmap Z (ColumnFamilyData R B)) : Prop :=
  forall cf, match m !! cf, m' !! cf with
             | Some c, Some c' => same_family c c'
             | None, None => True
             | _, _ => False
             end.

Record frame (st st' : Inserter R B) : Prop := {
  frame_families : same_families (mems st) (mems st');
  frame_log_ref : log_number_ref_ st' = log_number_ref_ st;
  frame_prot : ins_prot_info st' = ins_prot_info st;
  frame_rebuilding : rebuilding_trx_ st' = rebuilding_trx_ st;
  frame_recovered : recovered st' = recovered st;
  frame_aborted : aborted st' = aborted st;
}.

Lemma same_families_refl m : same_families m m.
Proof. intros cf. destruct (m !! cf) as [[]|]; done. Qed.
Lemma same_families_trans m1 m2 m3 : same_families m1 m2 -> same_families m2 m3 -> same_families m1 m3.
Proof.
  intros H1 H2 cf. specialize (H1 cf). specialize (H2 cf).
  destruct (m1 !! cf), (m2 !! cf), (m3 !! cf); try done. unfold same_family in *. rewrite H2, H1. done.
Qed.
Lemma same_families_insert m cf c mem : m !! cf = Some c -> same_families m (<[cf := set_mem c mem]> m).
Proof.
  intros Hc cf'. destruct (decide (cf = cf')) as [<- | Hne].
  - by rewrite Hc, lookup_insert_eq.
  - rewrite lookup_insert_ne by done. apply (same_families_refl m).
Qed.
Lemma frame_refl st : frame st st.
Proof. split; try done. apply same_families_refl. Qed.
Lemma frame_trans st1 st2 st3 : frame st1 st2 -> frame st2 st3 -> frame st1 st3.
Proof.
  intros [] []. split; try congruence. by eapply same_families_trans.
Qed.

(** ** One record *)

(** What all records do when no transaction is rebuilt. *)
Definition plain_write (st : Inserter R B) (cf : Z) (k v : bytes) (t : Z) : Status * Inserter R B :=
  let '(info, st) := NextProtectionInfo st in
  match SeekToColumnFamily a st cf with
  | (inr s, st) => (s, if status_ok s then MaybeAdvanceSeq a st false else st)
  | (inl c, st) =>
      retry_prot (advance_after a (add_to_mem (MRF := MRF) st cf c false t k v (mem_prot st cf info)))
  end.

Lemma seek_rebuilding st cf : rebuilding_trx_ (SeekToColumnFamily a st cf).2 = rebuilding_trx_ st.
Proof.
  unfold SeekToColumnFamily. destruct (mems st !! cf); [| done]. destruct (_ && _); [done |].
  by destruct (log_number_ref_ (with_valid_writes st) >? 0).
Qed.
Lemma seek_sequence st cf : ins_sequence (SeekToColumnFamily a st cf).2 = ins_sequence st.
Proof.
  unfold SeekToColumnFamily. destruct (mems st !! cf); [| done]. destruct (_ && _); [done |].
  by destruct (log_number_ref_ (with_valid_writes st) >? 0).
Qed.
Lemma next_rebuilding (st : Inserter R B) : rebuilding_trx_ (NextProtectionInfo st).2 = rebuilding_trx_ st.
Proof. unfold NextProtectionInfo. by destruct (ins_prot_info st). Qed.
Lemma add_rebuilding st cf c con t k v info :
  rebuilding_trx_ (add_to_mem (MRF := MRF) st cf c con t k v info).2 = rebuilding_trx_ st.
Proof.
  unfold add_to_mem. destruct con; [destruct (MemTable_Add_concurrent _ _ _ _ _ _ _ _) as [[]] |
    destruct (MemTable_Add _ _ _ _ _ _ _)]; done.
Qed.
Lemma advance_rebuilding r : rebuilding_trx_ (advance_after a r).2 = rebuilding_trx_ r.2.
Proof.
  destruct r as [s st]. cbn. unfold MaybeAdvanceSeq. destruct (IsTryAgain s), (status_ok s), (seq_per_batch_ a); done.
Qed.
Lemma then_rebuild_none r op : rebuilding_trx_ r.2 = None -> then_rebuild (R := R) (B := B) r op = r.
Proof. destruct r as [s st]. cbn. intros E. unfold is_rebuilding. rewrite E. by rewrite andb_false_r. Qed.
Lemma skip_write_none st s cf k op : rebuilding_trx_ st = None -> IsTryAgain s = false ->
  retry_prot (skip_write a st s cf k op) = (s, if status_ok s then MaybeAdvanceSeq a st false else st).
Proof.
  intros E Ht. unfold skip_write, is_rebuilding. rewrite E, andb_false_r. destruct (status_ok s); cbn; by rewrite Ht.
Qed.
Lemma seek_status st cf s st' : SeekToColumnFamily a st cf = (inr s, st') -> IsTryAgain s = false.
Proof.
  unfold SeekToColumnFamily. destruct (mems st !! cf); [| by destruct (ignore_missing_column_families_ a); intros [= <- <-]].
  destruct (_ && _); [by intros [= <- <-] |]. by destruct (log_number_ref_ (with_valid_writes st) >? 0).
Qed.

Lemma put_record_plain st cf k v t op : rebuilding_trx_ st = None ->
  put_record (MRF := MRF) a st cf k v t op = plain_write st cf k v t.
Proof.
  intros E. unfold put_record, plain_write. pose proof (next_rebuilding st) as E1.
  destruct (NextProtectionInfo st) as [info st1]. cbn [snd] in E1. rewrite E in E1.
  unfold PutCFImpl, is_rebuilding. rewrite E1, andb_false_r. pose proof (seek_rebuilding st1 cf) as E2.
  destruct (SeekToColumnFamily a st1 cf) as [[c | s] st2] eqn:Es; cbn [snd] in E2; rewrite E1 in E2.
  - rewrite then_rebuild_none by (by rewrite advance_rebuilding, add_rebuilding). rewrite Hserial.
    pose proof (seek_sequence st1 cf) as E3. rewrite Es in E3. cbn in E3. unfold mem_prot. by rewrite E3.
  - apply skip_write_none; [done | by eapply seek_status].
Qed.

Lemma write_record_plain st cf k v t op write : rebuilding_trx_ st = None ->
  (forall st' c0 c info, rebuilding_trx_ st' = None -> mems st !! cf = Some c0 -> takes_writes c0 = true ->
     same_family c0 c ->
     write st' c info = retry_prot (advance_after a (add_to_mem (MRF := MRF) st' cf c false t k v info))) ->
  write_record a st cf k op write = plain_write st cf k v t.
Proof.
  intros E Hw. unfold write_record, plain_write. pose proof (next_rebuilding st) as E1.
  assert (mems (NextProtectionInfo st).2 = mems st) as Em by (unfold NextProtectionInfo; by destruct (ins_prot_info st)).
  destruct (NextProtectionInfo st) as [info st1]. cbn [snd] in E1, Em. rewrite E in E1.
  unfold is_rebuilding. rewrite E1, andb_false_r. pose proof (seek_rebuilding st1 cf) as E2.
  destruct (SeekToColumnFamily a st1 cf) as [[c | s] st2] eqn:Es; cbn [snd] in E2; rewrite E1 in E2.
  - revert Es. unfold SeekToColumnFamily. destruct (mems st1 !! cf) as [c1 |] eqn:Ec; [| done].
    destruct (recovering a && _) eqn:Er; [done |]. rewrite Em in Ec. intros Es.
    apply (Hw st2 c1 c); try done; [unfold takes_writes; by rewrite Er |].
    by destruct (log_number_ref_ (with_valid_writes st1) >? 0); injection Es as <- <-; destruct c1.
  - apply skip_write_none; [done | by eapply seek_status].
Qed.

(** The protection of an entry, without the column family and with the sequence number. *)
Lemma mem_prot_entry op cf k v t st : op_entry op = Some (cf, k, v, t) ->
  mem_prot (R := R) (B := B) st cf (op_prot op) =
  Some (prot_of {| v_key := k; v_seq := ins_sequence st; v_type := t; v_value := v |}).
Proof.
  intros E. assert (op_prot op = Some (ProtectKVOC k v t cf)) as -> by (destruct op; cbn in *; congruence).
  unfold mem_prot, prot_of, ProtectKVOC, StripC, ProtectC. cbn. by rewrite Z.lxor_assoc, Z.lxor_nilpotent, Z.lxor_0_r.
Qed.

(** The checksums that remain are those of the operations that remain. *)
Definition prot_left (st : Inserter R B) (ops : list BatchOp) : Prop :=
  forall es, ins_prot_info st = Some es -> drop (prot_info_idx_ st) es = omap op_prot ops.

Lemma next_prot st op ops : prot_left st (op :: ops) -> op_counts op = true ->
  exists st', NextProtectionInfo st = (match ins_prot_info st with Some _ => op_prot op | None => None end, st') /\
    prot_left st' ops /\ frame st st' /\ ins_sequence st' = ins_sequence st /\ mems st' = mems st.
Proof.
  intros Hp Hc. unfold NextProtectionInfo. destruct (ins_prot_info st) as [es |] eqn:Ees.
  - specialize (Hp es Ees). apply op_prot_counts in Hc as [z Hz].
    change (omap op_prot (op :: ops)) with
      (match op_prot op with Some z => z :: omap op_prot ops | None => omap op_prot ops end) in Hp.
    rewrite Hz in Hp. exists (with_prot_info st (Some es) (S (prot_info_idx_ st))). rewrite Hz.
    split_and!; [| | by split; [apply same_families_refl | ..] | done | done].
    + pose proof (lookup_drop es (prot_info_idx_ st) 0) as El. rewrite Hp, Nat.add_0_r in El. by rewrite <- El.
    + intros es' [= <-]. cbn. rewrite <- (Nat.add_1_r (prot_info_idx_ st)), <- drop_drop, Hp. done.
  - exists st. split_and!; [done | intros es Hes; congruence | apply frame_refl | done..].
Qed.

Definition add_version (hist : Z -> list Version) (cf : Z) (v : Version) (cf' : Z) : list Version :=
  if cf' =? cf then hist cf ++ [v] else hist cf'.

Lemma cf_inv_seq c h seq seq' : seq <= seq' -> cf_inv c h seq -> cf_inv c h seq'.
Proof.
  intros Hs []. split; try done. eapply list.Forall_impl; [done |]. simpl. lia.
Qed.

(** The reference to the log of a prepared section changes nothing else. *)
Lemma RefLog_holds {C L} (o : MemTableOptions B) (m : MemTable R B) log h :
  memtable_holds (C := C) (MRL := MRFL C L) o m h ->
  memtable_holds (C := C) (MRL := MRFL C L) o (RefLogContainingPrepSection m log) h.
Proof. intros []. split; done. Qed.

Lemma seek_takes st cf hist : mems_inv (mems st) hist (ins_sequence st) ->
  match SeekToColumnFamily a st cf with
  | (inl c', st') => exists c, mems st !! cf = Some c /\ takes_writes c = true /\ same_family c c' /\
      mems st' !! cf = Some c' /\ frame st st' /\ mems_inv (mems st') hist (ins_sequence st) /\
      ins_sequence st' = ins_sequence st /\ prot_info_idx_ st' = prot_info_idx_ st
  | (inr s, st') => st' = st /\
      match mems st !! cf with
      | None => s = if ignore_missing_column_families_ a then Status_OK else Status_InvalidArgument
      | Some c => takes_writes c = false /\ s = Status_OK
      end
  end.
Proof.
  intros Hi. unfold SeekToColumnFamily, takes_writes. destruct (mems st !! cf) as [c |] eqn:Ec; [| done].
  destruct (recovering a && _) eqn:Er; [done |]. cbn [negb].
  destruct (log_number_ref_ (with_valid_writes st) >? 0).
  - exists c. rewrite Er. split_and!; try done; [by cbn; rewrite lookup_insert_eq | |].
    + split; try done. by apply same_families_insert.
    + intros cf' c'. cbn. rewrite lookup_insert_Some. intros [[<- <-] | [_ Hc']]; [| by apply Hi].
      destruct (Hi cf c Ec) as [Hts Htl [L Hm] He Ho Hb]. split; try done. exists L. by apply RefLog_holds.
  - exists c. rewrite Er. split_and!; try done; [by destruct c | by split; [apply same_families_refl | ..]].
Qed.

Lemma in_order_snoc {C} h v : StronglySorted (in_order (C := C)) h -> Forall (fun w => v_seq w < v_seq v) h ->
  StronglySorted (in_order (C := C)) (h ++ [v]).
Proof.
  intros Hs Hb. apply StronglySorted_app. split_and!; [| done | repeat constructor].
  intros x y Hx ->%list_elem_of_singleton _ _. rewrite list.Forall_forall in Hb. by apply Hb.
Qed.

Lemma add_entry_ok st cf c h v info : mems st !! cf = Some c -> cf_inv c h (ins_sequence st) ->
  v_seq v = ins_sequence st -> history_entry v -> (is_range v = true -> range_in_order (C := cfd_comparator c) v) ->
  prot_ok v info = true ->
  exists m, add_to_mem (MRF := MRF) st cf c false (v_type v) (v_key v) (v_value v) info =
    (Status_OK, with_mems st (<[cf := set_mem c m]> (mems st))) /\
    cf_inv (set_mem c m) (h ++ [v]) (ins_sequence st + 1).
Proof.
  intros Hc [Hts Htl [L Hm] He Hr Ho Hb] Hq Hv Hrv Hp. pose proof Hv as (Hok & Hseq & _).
  pose proof (Add_holds (MRL := MRFL _ L) (TC := cfd_timestamps c) (cfd_moptions c) Hts (cfd_mem c) h v info Hm) as Hadd.
  cbn zeta in Hadd. rewrite Hp in Hadd. cbn [negb] in Hadd. rewrite bool_decide_false in Hadd.
  2: { intros Hex. apply list.Exists_exists in Hex as (w & Hw & _ & _ & Heq).
       rewrite list.Forall_forall in Hb. specialize (Hb w Hw). lia. }
  destruct Hadd as [Hs Hm']; [eapply list.Forall_impl; [apply He |]; intros w Hw; apply Hw | done | lia
    | eapply list.Forall_impl; [apply He |]; intros w (_ & ? & _); lia |].
  unfold add_to_mem. rewrite <- Hq. destruct (MemTable_Add _ _ _ _ _ _ _) as [s m]. cbn [fst snd] in *. subst s.
  exists m. split; [done |]. split; try done.
  - by exists L.
  - apply Forall_app. split; [done | by constructor].
  - rewrite list.filter_app, Forall_app. split; [done |]. rewrite list.filter_cons. case_decide as Hd; [| done]. constructor; [by apply Hrv, Is_true_true | done].
  - apply in_order_snoc; [done |]. eapply list.Forall_impl; [apply Hb |]. simpl. lia.
  - apply Forall_app. split; [eapply list.Forall_impl; [apply Hb |]; simpl; lia | constructor; [lia | done]].
Qed.

(** What a write to a column family leaves. *)
Definition wrote (st st' : Inserter R B) (hist' : Z -> list Version) (ops : list BatchOp) (n : Z) : Prop :=
  frame st st' /\ ins_sequence st' = n /\ mems_inv (mems st') hist' n /\ prot_left st' ops.

Lemma advance_seq st : 0 < ins_sequence st < kMaxSequenceNumber ->
  MaybeAdvanceSeq a st false = with_sequence st (ins_sequence st + 1).
Proof.
  intros Hs. unfold MaybeAdvanceSeq. rewrite Hper_key. cbn. f_equal. apply wrap_small.
  unfold fits. change kMaxSequenceNumber with (2 ^ 56 - 1) in Hs. lia.
Qed.

Lemma plain_write_ok st op ops cf k v t hist : op_entry op = Some (cf, k, v, t) -> op_counts op = true ->
  prot_left st (op :: ops) -> mems_inv (mems st) hist (ins_sequence st) ->
  let ver := {| v_key := k; v_seq := ins_sequence st; v_type := t; v_value := v |} in
  history_entry ver ->
  (forall c, mems st !! cf = Some c -> takes_writes c = true -> is_range ver = true -> range_in_order (C := cfd_comparator c) ver) ->
  (mems st !! cf = None -> ignore_missing_column_families_ a = true) ->
  exists st', plain_write st cf k v t = (Status_OK, st') /\
    wrote st st' (match mems st !! cf with
                  | Some c => if takes_writes c then add_version hist cf ver else hist
                  | None => hist
                  end) ops (ins_sequence st + 1).
Proof.
  intros Eop Hcount Hprot Hinv ver Hver Hrange Hmiss. unfold plain_write.
  destruct (next_prot st op ops Hprot Hcount) as (st1 & -> & Hprot1 & Hf1 & Eseq & Emem).
  rewrite <- Emem, <- Eseq in Hinv. pose proof Hver as (_ & Hseq & _). cbn in Hseq.
  pose proof (seek_takes st1 cf hist Hinv) as Hseek. rewrite Emem in Hseek.
  destruct (SeekToColumnFamily a st1 cf) as [[c' | s] st2].
  - destruct Hseek as (c & Ec & Ht & Hsame & Ec' & Hf2 & Hinv2 & Eseq2 & Eidx). rewrite Ec, Ht.
    rewrite <- Eseq2 in Hinv2.
    set (info := match ins_prot_info st with Some _ => op_prot op | None => None end).
    set (ver2 := {| v_key := k; v_seq := ins_sequence st2; v_type := t; v_value := v |}).
    assert (ver2 = ver) as Ever by (unfold ver2, ver; by rewrite Eseq2, Eseq). rewrite <- Ever in Hver.
    assert (prot_ok ver2 (mem_prot st2 cf info) = true) as Hpok.
    { unfold info. destruct (ins_prot_info st); [| done]. rewrite (mem_prot_entry op cf k v t st2 Eop). apply Z.eqb_refl. }
    assert (is_range ver2 = true -> range_in_order (C := cfd_comparator c') ver2) as Hrange2.
    { rewrite Ever. unfold same_family in Hsame. rewrite Hsame. by apply (Hrange c). }
    destruct (add_entry_ok st2 cf c' (hist cf) ver2 (mem_prot st2 cf info) Ec' (Hinv2 cf c' Ec') eq_refl Hver Hrange2 Hpok)
      as (m & Eadd & Hcf). cbn [ver2 v_type v_key v_value] in Eadd. rewrite Eadd. cbn [advance_after]. change (IsTryAgain Status_OK) with false.
    change (status_ok Status_OK) with true. rewrite advance_seq by (cbn; lia). cbn [retry_prot].
    change (IsTryAgain Status_OK) with false. eexists. split; [done |].
    rewrite Ever in Hcf.
    split_and!; [| by cbn; rewrite Eseq2, Eseq | |].
    + eapply frame_trans; [apply Hf1 |]. eapply frame_trans; [apply Hf2 |]. split; try done.
      cbn. by apply same_families_insert.
    + rewrite <- Eseq, <- Eseq2. cbn. intros cf2 c2. rewrite lookup_insert_Some. unfold add_version.
      intros [[<- <-] | [Hne Hc2]]; [by rewrite Z.eqb_refl |]. rewrite (proj2 (Z.eqb_neq _ _)) by done.
      eapply cf_inv_seq; [| by apply Hinv2]. lia.
    + intros es Hes. cbn in Hes |- *. rewrite Eidx. apply Hprot1. rewrite <- (frame_prot _ _ Hf2). done.
  - destruct Hseek as [-> Hs].
    assert (s = Status_OK /\ match mems st !! cf with
                  | Some c => if takes_writes c then add_version hist cf ver else hist
                  | None => hist
                  end = hist) as [-> ->].
    { destruct (mems st !! cf) as [c |]; [by destruct Hs as [-> ->] |]. by rewrite Hmiss in Hs. }
    change (status_ok Status_OK) with true. rewrite advance_seq by lia. eexists. split; [done |].
    split_and!; [| by cbn; rewrite Eseq | |].
    + eapply frame_trans; [apply Hf1 |]. split; try done. apply same_families_refl.
    + cbn. intros cf2 c2 Hc2. eapply cf_inv_seq; [| by apply Hinv]. lia.
    + exact Hprot1.
Qed.

(** ** Operations *)

(** An operation that the column families accept: a batch without the markers of transactions. *)
Definition op_fits (cfs : gmap Z (ColumnFamilyData R B)) (op : BatchOp) : Prop :=
  match op_entry op with
  | Some (cf, k, v, _) =>
      slen k + 8 < 2 ^ 32 /\ slen v < 2 ^ 32 /\
      match cfs !! cf with
      | None => ignore_missing_column_families_ a = true
      | Some c =>
          takes_writes c = true ->
          match op with
          | BDeleteRange _ b e =>
              (is_Some (db a) -> is_delete_range_supported c = true) /\
              CompareWithoutTimestamp (TimestampComparator := cfd_timestamps c) b e <= 0
          | BMerge _ _ _ =>
              is_Some (merge_operator (cfd_moptions c)) /\
              (max_successive_merges c = 0 \/ recovering a = true \/ db a = None)
          | _ => True
          end
      end
  | None => match op with BLogData _ | BNoop => True | _ => False end
  end.

Definition add_step (hist : Z -> list Version) (x : option (Z * Version)) : Z -> list Version :=
  match x with Some (cf, v) => add_version hist cf v | None => hist end.

Lemma same_family_takes c c' : same_family c c' -> takes_writes c' = takes_writes c.
Proof. intros ->. done. Qed.
Lemma same_family_drops c c' op : same_family c c' -> drops c' op = drops c op.
Proof. intros ->. done. Qed.
Lemma op_step_families m m' seq op : same_families m m' -> op_step m' seq op = op_step m seq op.
Proof.
  intros Hs. unfold op_step. destruct (op_entry op) as [[[[cf k] v] t] |]; [| done].
  specialize (Hs cf). destruct (m !! cf) as [c |], (m' !! cf) as [c' |]; try done.
  by rewrite (same_family_takes c c'), (same_family_drops c c').
Qed.
Lemma op_fits_families m m' op : same_families m m' -> op_fits m op -> op_fits m' op.
Proof.
  intros Hs. unfold op_fits. destruct (op_entry op) as [[[[cf k] v] t] |]; [| done].
  specialize (Hs cf). destruct (m !! cf) as [c |], (m' !! cf) as [c' |]; try done.
  intros (? & ? & Hf). split_and!; [done.. |]. rewrite (same_family_takes c c') by done. rewrite Hs.
  destruct op; done.
Qed.

Lemma merge_now_none st cf c mop k v :
  max_successive_merges c = 0 \/ recovering a = true \/ db a = None ->
  merge_now (MRF := MRF) a st cf c mop k v = None.
Proof.
  unfold merge_now. intros Hm. destruct (db a); [| done].
  destruct Hm as [-> | [-> | Hdb]]; [done | by rewrite andb_false_r | done].
Qed.

Lemma op_type_ok op cf k v t : op_entry op = Some (cf, k, v, t) ->
  fits 8 t /\ (t <> kTypeRangeDeletion -> point_type t = true).
Proof. by destruct op; cbn; intros [= <- <- <- <-]. Qed.

(** The handler, whatever it does to commit recovered transactions. *)
Context (iterate : WriteBatch -> Inserter R B -> option (Status * Inserter R B)).
Definition inserter : Handler (Inserter R B) := inserter_with (MRF := MRF) a iterate.

(** The record of an entry that is not dropped is a plain write. *)
Lemma call_entry_plain e rest st empty op cf k v t hist : rebuilding_trx_ st = None ->
  op_entry op = Some (cf, k, v, t) -> op_fits (mems st) op -> mems_inv (mems st) hist (ins_sequence st) ->
  match mems st !! cf with Some c => takes_writes c && drops c op = false | None => True end ->
  (handler_call inserter e rest st empty op).1 = plain_write st cf k v t.
Proof.
  intros Er Eop Hfit Hinv Hdrop. unfold op_fits in Hfit. rewrite Eop in Hfit. destruct Hfit as (_ & _ & Hfit).
  destruct op; cbn in Eop; try discriminate Eop; injection Eop as <- <- <- <-; cbn [handler_call inserter inserter_with fst
    PutCF TimedPutCF PutEntityCF DeleteCF SingleDeleteCF DeleteRangeCF MergeCF PutBlobIndexCF slice_before s_data];
    try (by apply put_record_plain); apply write_record_plain; try done;
    intros st' c0 c info Er' Ec0 Ht Hsame; rewrite Ec0 in *; rewrite Ht in *; specialize (Hfit eq_refl).
  - assert (timestamp_size (Comparator := cfd_comparator c) = 0) as Hts by (rewrite Hsame; apply (Hinv _ _ Ec0)).
    rewrite Hts. cbn [Z.eqb]. unfold DeleteImpl. rewrite Hserial, then_rebuild_none by (by rewrite advance_rebuilding, add_rebuilding).
    do 3 f_equal. destruct info as [i |]; [| done]. cbn. f_equal. unfold UpdateO. by rewrite Z.lxor_assoc, Z.lxor_nilpotent, Z.lxor_0_r.
  - unfold DeleteImpl. by rewrite Hserial, then_rebuild_none by (by rewrite advance_rebuilding, add_rebuilding).
  - cbn [andb] in Hdrop. unfold drops in Hdrop. unfold DeleteImpl. rewrite Hserial.
    set (r := advance_after a _). assert (rebuilding_trx_ r.2 = None) as Hr by (unfold r; by rewrite advance_rebuilding, add_rebuilding).
    assert ((let '(s, st0) := r in retry_prot (if negb (IsTryAgain s) && is_rebuilding st0
      then rebuild st0 (fun b => WriteBatchInternal_DeleteRange b cf0 begin_key end_key) else (s, st0))) = retry_prot r) as Hr'.
    { destruct r as [s st0]. cbn in Hr. unfold is_rebuilding. by rewrite Hr, andb_false_r. }
    destruct (db a) as [g |]; cbn [andb]; [| exact Hr'].
    destruct Hfit as [Hsup Hcmp]. specialize (Hsup (mk_is_Some _ _ eq_refl)). apply Z.eqb_neq in Hdrop as Hd.
    assert (is_delete_range_supported c = true) as -> by (by rewrite Hsame).
    assert (CompareWithoutTimestamp (TimestampComparator := cfd_timestamps c) begin_key end_key =
            CompareWithoutTimestamp (TimestampComparator := cfd_timestamps c0) begin_key end_key) as -> by (by rewrite Hsame).
    cbn [negb]. rewrite Z.gtb_ltb, (proj2 (Z.ltb_ge _ _)), (proj2 (Z.eqb_neq _ _) Hd) by lia. exact Hr'.
  - destruct Hfit as [[mop Hmop] Hmerge]. rewrite Hsame. cbn [cfd_moptions set_mem]. rewrite Hmop.
    rewrite merge_now_none by done. rewrite <- Hsame.
    by rewrite Hserial, then_rebuild_none by (by rewrite advance_rebuilding, add_rebuilding).
Qed.

(** A range that is dropped only takes its checksum. *)
Lemma call_dropped e rest st empty op ops cf c k v t hist : rebuilding_trx_ st = None ->
  op_entry op = Some (cf, k, v, t) -> op_fits (mems st) op -> mems_inv (mems st) hist (ins_sequence st) ->
  prot_left st (op :: ops) -> mems st !! cf = Some c -> takes_writes c = true -> drops c op = true ->
  exists st', (handler_call inserter e rest st empty op).1 = (Status_OK, st') /\
    wrote st st' hist ops (ins_sequence st).
Proof.
  intros Er Eop Hfit Hinv Hprot Ec Ht Hd. unfold op_fits in Hfit. rewrite Eop, Ec in Hfit.
  destruct Hfit as (_ & _ & Hfit). specialize (Hfit Ht). destruct op; try done.
  injection Eop as <- <- <- <-. unfold drops in Hd. destruct (db a) as [g |] eqn:Edb; [| done].
  destruct Hfit as [Hsup _]. specialize (Hsup (mk_is_Some _ _ eq_refl)).
  cbn [handler_call inserter inserter_with fst DeleteRangeCF slice_before s_data].
  unfold Inserter_DeleteRangeCF, write_record.
  destruct (next_prot st _ ops Hprot eq_refl) as (st1 & -> & Hprot1 & Hf1 & Eseq & Emem).
  unfold is_rebuilding. rewrite (frame_rebuilding _ _ Hf1), Er, andb_false_r.
  rewrite <- Emem, <- Eseq in Hinv. pose proof (seek_takes st1 cf0 hist Hinv) as Hseek. rewrite Emem, Ec in Hseek.
  destruct (SeekToColumnFamily a st1 cf0) as [[c' | s] st2]; [| destruct Hseek as (_ & Hf & _); congruence].
  destruct Hseek as (c0 & [= <-] & _ & Hsame & Ec' & Hf2 & Hinv2 & Eseq2 & Eidx).
  assert (is_delete_range_supported c' = true) as -> by (by rewrite Hsame).
  assert (CompareWithoutTimestamp (TimestampComparator := cfd_timestamps c') begin_key end_key =
          CompareWithoutTimestamp (TimestampComparator := cfd_timestamps c) begin_key end_key) as -> by (by rewrite Hsame).
  apply Z.eqb_eq in Hd. rewrite Hd, Edb. exists st2. split; [done |]. split_and!; [| lia | by rewrite <- Eseq |].
  - by eapply frame_trans.
  - intros es Hes. rewrite Eidx. apply Hprot1. by rewrite <- (frame_prot _ _ Hf2).
Qed.

Lemma op_range_in_order cfs op cf k v t hist seq s : op_entry op = Some (cf, k, v, t) -> op_fits cfs op ->
  mems_inv cfs hist seq ->
  let ver := {| v_key := k; v_seq := s; v_type := t; v_value := v |} in
  forall c, cfs !! cf = Some c -> takes_writes c = true -> is_range ver = true -> range_in_order (C := cfd_comparator c) ver.
Proof.
  intros Eop Hfit Hinv ver c Ec Ht Hr. unfold op_fits in Hfit. rewrite Eop, Ec in Hfit. destruct Hfit as (_ & _ & Hfit).
  destruct (Hinv cf c Ec) as [Hts Htl _ _ _ _ _]. specialize (Hfit Ht).
  destruct op; try discriminate Eop; injection Eop as _ <- <- <-; try discriminate Hr.
  unfold range_in_order. cbn. rewrite <- (CompareWithoutTimestamp_spec (TC := cfd_timestamps c) (TimestampComparatorLaws := Htl) _ _ Hts). apply Hfit.
Qed.
Lemma call_step e rest st empty op ops hist : rebuilding_trx_ st = None -> op_fits (mems st) op ->
  mems_inv (mems st) hist (ins_sequence st) -> prot_left st (op :: ops) ->
  0 < ins_sequence st < kMaxSequenceNumber ->
  exists st', (handler_call inserter e rest st empty op).1 = (Status_OK, st') /\
    let x := op_step (mems st) (ins_sequence st) op in wrote st st' (add_step hist x.1) ops x.2.
Proof.
  intros Er Hfit Hinv Hprot Hseq. unfold op_step. destruct (op_entry op) as [[[[cf k] v] t] |] eqn:Eop.
  - assert (op_counts op = true) as Hcount by (by destruct op).
    pose proof (call_dropped e rest st empty op ops cf) as Hdropped.
    pose proof (call_entry_plain e rest st empty op cf k v t hist Er Eop Hfit Hinv) as Hplain.
    destruct (op_type_ok op cf k v t Eop) as [Ht8 Htp].
    pose proof Hfit as Hfit'. unfold op_fits in Hfit'. rewrite Eop in Hfit'. destruct Hfit' as (Hk & Hv & Hmiss).
    assert (history_entry {| v_key := k; v_seq := ins_sequence st; v_type := t; v_value := v |}) as Hver.
    { split; [| split; [done |]].
      - split; [| done]. unfold fits. cbn. change kMaxSequenceNumber with (2 ^ 56 - 1) in Hseq. lia.
      - cbn. unfold is_point, is_range. cbn. intros Hp%negb_true_iff%Z.eqb_neq. by apply Htp. }
    pose proof (op_range_in_order (mems st) op cf k v t hist (ins_sequence st) (ins_sequence st) Eop Hfit Hinv) as Hrange.
    pose proof (plain_write_ok st op ops cf k v t hist Eop Hcount Hprot Hinv Hver Hrange) as Hwrite. cbn zeta in Hwrite.
    destruct (mems st !! cf) as [c |] eqn:Ec; [destruct (takes_writes c) eqn:Et; [destruct (drops c op) eqn:Ed |] |];
      cbn [negb fst snd add_step].
    + by apply (Hdropped c k v t).
    + rewrite Hplain by done. by apply Hwrite.
    + rewrite Hplain by done. by apply Hwrite.
    + rewrite Hplain by done. by apply Hwrite.
  - unfold op_fits in Hfit. rewrite Eop in Hfit. exists st. cbn [fst snd add_step].
    assert (prot_left st ops) by (destruct op; done).
    assert (wrote st st hist ops (ins_sequence st)) by (by split; [apply frame_refl |]).
    destruct op; try done.
    cbn [handler_call inserter inserter_with MarkNoop Inserter_MarkNoop fst].
    unfold Inserter_MarkNoop, MaybeAdvanceSeq. rewrite Hper_key. by destruct empty.
Qed.

Definition hist_after (hist : Z -> list Version) (l : list (Z * Version)) (cf : Z) : list Version :=
  hist cf ++ versions_of cf l.

Lemma hist_after_step hist x l cf : hist_after (add_step hist x) l cf = hist_after hist (option_list x ++ l) cf.
Proof.
  unfold hist_after, versions_of. destruct x as [[cf' v] |]; [| done]. cbn [add_step]. change (option_list (Some (cf', v)) ++ l) with ((cf', v) :: l).
  unfold add_version. rewrite list.filter_cons. cbn [fst]. destruct (Z.eqb_spec cf cf') as [-> | Hne].
  - rewrite decide_True by done. cbn. by rewrite <- app_assoc.
  - by rewrite decide_False.
Qed.
Lemma mems_inv_ext m hist hist' seq : (forall cf, hist cf = hist' cf) -> mems_inv m hist seq -> mems_inv m hist' seq.
Proof. intros E Hi cf c Hc. rewrite <- E. by apply Hi. Qed.

Lemma ops_versions_families m m' ops : forall seq, same_families m m' -> ops_versions m' seq ops = ops_versions m seq ops.
Proof.
  induction ops as [| op ops IH]; intros seq Hs; [done |]. cbn [ops_versions].
  rewrite (op_step_families m m') by done. destruct (op_step m seq op) as [x n]. by rewrite IH.
Qed.
Lemma op_step_seq m seq op : seq <= (op_step m seq op).2 <= seq + 1.
Proof.
  unfold op_step. destruct (op_entry op) as [[[[cf k] v] t] |]; [| cbn; lia]. destruct (m !! cf) as [c |]; [| cbn; lia].
  destruct (negb (takes_writes c)), (drops c op); cbn; lia.
Qed.

(** ** A batch *)

Lemma run_inserter e ops : forall st empty hist, rebuilding_trx_ st = None -> Forall (op_fits (mems st)) ops ->
  mems_inv (mems st) hist (ins_sequence st) -> prot_left st ops -> 0 < ins_sequence st ->
  ins_sequence st + slen ops <= kMaxSequenceNumber ->
  exists st', run_ops inserter e st empty ops = (Status_OK, st') /\
    let x := ops_versions (mems st) (ins_sequence st) ops in wrote st st' (hist_after hist x.1) [] x.2.
Proof.
  induction ops as [| op ops IH]; intros st empty hist Er Hfit Hinv Hprot Hpos Hseq.
  { exists st. split; [done |]. split_and!; [apply frame_refl | done | | done].
    eapply mems_inv_ext; [| done]. intros cf. unfold hist_after, versions_of. cbn. by rewrite app_nil_r. }
  apply list.Forall_cons in Hfit as [Hfit1 Hfit]. rewrite slen_cons in Hseq. pose proof (slen_nonneg ops).
  cbn [run_ops]. change (Continue inserter st) with (true, st). cbn [negb].
  destruct (call_step e (slen (ops_bytes ops)) st empty op ops hist Er Hfit1 Hinv Hprot ltac:(lia))
    as (st1 & Ecall & Hf1 & Eseq1 & Hinv1 & Hprot1).
  destruct (handler_call inserter e (slen (ops_bytes ops)) st empty op) as [[s st1'] empty']. cbn [fst] in Ecall.
  injection Ecall as -> ->. change (status_ok Status_OK) with true. cbn [ops_versions].
  pose proof (op_step_seq (mems st) (ins_sequence st) op) as Hn.
  destruct (op_step (mems st) (ins_sequence st) op) as [x n]. cbn [fst snd] in *.
  destruct (IH st1 empty' (add_step hist x)) as (st2 & -> & Hf2 & Eseq2 & Hinv2 & Hprot2).
  - by rewrite (frame_rebuilding _ _ Hf1).
  - eapply list.Forall_impl; [apply Hfit |]. intros op' Ho. eapply op_fits_families; [apply Hf1 | done].
  - by rewrite Eseq1.
  - done.
  - lia.
  - lia.
  - exists st2. split; [done |]. rewrite Eseq1, (ops_versions_families (mems st)) in * by apply Hf1.
    destruct (ops_versions (mems st) n ops) as [l n']. cbn [fst snd] in *.
    split_and!; [by eapply frame_trans | done | | done].
    eapply mems_inv_ext; [intros cf; apply hist_after_step | done].
Qed.

Definition prot_matches (b : WriteBatch) (ops : list BatchOp) : Prop :=
  forall entries, prot_info_ b = Some entries -> entries = omap op_prot ops.

(** [Iterate] with the handler. *)
Lemma iterate_inserter b ops st hist : holds b ops -> rebuilding_trx_ st = None -> Forall (op_fits (mems st)) ops ->
  mems_inv (mems st) hist (ins_sequence st) -> prot_left st ops -> 0 < ins_sequence st ->
  ins_sequence st + slen ops <= kMaxSequenceNumber ->
  exists st', run_Iterate inserter b st = Some (Status_OK, st') /\
    let x := ops_versions (mems st) (ins_sequence st) ops in wrote st st' (hist_after hist x.1) [] x.2.
Proof.
  intros Hb Er Hfit Hinv Hprot Hpos Hseq. unfold run_Iterate.
  rewrite (Iterate_holds _ op_ok b ops st); [| done | by apply read_only_respectful | apply Hb | done].
  destruct (run_inserter (slen (rep_ b)) ops st true hist) as (st' & -> & Hw); try done. by exists st'.
Qed.
End Inserter.
