(* ===== verification/InserterTheorems.v ===== *)
(** Batches in memtables: what [InsertInto] adds, two-phase commit in recovery, and the reads
    that follow. *)

From stdpp Require Import gmap sorting.
From S2P Require Import Prelude Coding Comparator DbFormat Status WideColumns MergeOperator WriteBatch WriteBatchIter WriteBatchSpec WriteBatchProofs LogsWithPrepTracker MemTable MemTableInserter MemTableSpec DynamicBloom MemTableProofs SkipListRep MemTableTheorems InserterProofs.

Section Recovery.
Context {R B : Type} {MRF : forall C : Comparator, MemTableRep R}
  {MRFL : forall C : Comparator, ComparatorLaws C -> MemTableRepLaws (MR := MRF C) R}
  {MF : MemTableFilter B} {MFL : MemTableFilterLaws B} {H : NPHash}.
Context (a : InserterArgs R B).
Context (Hper_key : seq_per_batch_ a = false) (Hserial : concurrent_memtable_writes_ a = false).

Lemma InsertInto_batch_ops b ops r cfs hist : holds b ops -> prot_matches b ops -> Forall (op_fits a cfs) ops ->
  let seq := WriteBatchInternal_Sequence b in
  mems_inv (MRFL := MRFL) cfs hist seq -> 0 < seq -> seq + slen ops <= kMaxSequenceNumber ->
  exists st, InsertInto_batch (MRF := MRF) a b cfs r = Some (Status_OK, st) /\
    let x := ops_versions a cfs seq ops in
    same_families cfs (mems st) /\ mems_inv (MRFL := MRFL) (mems st) (hist_after hist x.1) x.2 /\
    ins_sequence st = x.2 /\ recovered st = r /\ aborted st = false.
Proof.
  intros Hb Hp Hfit. cbv zeta. intros Hinv Hpos Hseq. unfold InsertInto_batch, MemTableInserter.
  set (st0 := MakeInserter (WriteBatchInternal_Sequence b) cfs (prot_info_ b) r). set (it := run_Iterate (inserter_with a (fun _ _ => None))).
  destruct (iterate_inserter (MRFL := MRFL) a Hper_key Hserial it b ops st0 hist Hb eq_refl Hfit Hinv)
    as (st & E & Hf & Eseq & Hinv' & _); [| done | done |].
  { intros es Hes. cbn. apply Hp. exact Hes. }
  unfold inserter in E. rewrite E, Hserial. exists st. split; [done |].
  split_and!; [apply Hf | done | done | by rewrite (frame_recovered _ _ Hf) | by rewrite (frame_aborted _ _ Hf)].
Qed.

(** ** Reads of column families *)

(** Every lookup in the memtable of a column family has the outcome of the fold of the visible
    versions of the key. *)
Definition family_reads (c : ColumnFamilyData R B) (h : list Version) : Prop :=
  let C := cfd_comparator c in
  forall (RT : RangeTombstones) (RTL : RangeTombstonesLaws C) op u snapshot ro acc g,
    merge_operator (cfd_moptions c) = Some op -> (forall l, ShouldMerge op l = false) ->
    protection_ok (protection_bytes_per_key (cfd_moptions c)) ->
    distinguishes (C := C) (cfd_mem c) -> fits 56 snapshot -> slen u + 8 < 2 ^ 32 ->
    merge_operands_continue_cb ro = None -> lookup_state g acc ->
    let t := tombstone_seen (C := C) h u snapshot ro (get_max_covering_tombstone_seq g) in
    let r := MemTable_Get (C := C) (TC := cfd_timestamps c) (MR := MRF C) (cfd_moptions c) (cfd_mem c)
               (MakeLookupKey u snapshot None) ro None true g in
    lookup_done op u (table_state (C := C) h u snapshot t) acc t r g.

Lemma cf_inv_reads c h seq : cf_inv (MRFL := MRFL) c h seq -> family_reads c h.
Proof.
  intros [Hts Htl [L Hm] He Hr Ho Hb]. unfold family_reads.
  intros RT RTL op u snapshot ro acc g Hop Hsm Hlen Hd Hs Hu Hcb Hg.
  refine (proj1 (Get_holds (MRL := MRFL _ L) (TC := cfd_timestamps c) (cfd_moptions c) Hts Hlen op u snapshot ro
    Hop Hsm Hs Hu Hcb (cfd_mem c) h acc g Hm He Hr Ho Hg Hd)).
Qed.

(** A column family whose memtable was just created. *)
Record fresh_family (c : ColumnFamilyData R B) : Prop := {
  ff_comparator : ComparatorLaws (cfd_comparator c);
  ff_timestamps : TimestampComparatorLaws (cfd_comparator c) (TC := cfd_timestamps c);
  ff_no_timestamps : timestamp_size (Comparator := cfd_comparator c) = 0;
  ff_mem : exists latest_seq bloom, cfd_mem c = MakeMemTable (MR := MRF (cfd_comparator c)) latest_seq bloom;
}.
Lemma fresh_inv cfs : map_Forall (fun _ c => fresh_family c) cfs -> mems_inv (MRFL := MRFL) cfs (fun _ => []) 0.
Proof.
  intros Hf cf c Hc. destruct (Hf cf c Hc) as [L Htl Hts (latest & bloom & Em)]. split; try done; try constructor.
  exists L. rewrite Em. apply (MakeMemTable_holds (MRL := MRFL _ L)).
Qed.

(** ** Two-phase commit in recovery *)

(** The entries that a prepared section may have. *)
Definition rebuildable (op : BatchOp) : Prop :=
  op_ok op /\ match op with
              | BPut _ _ _ | BDelete _ _ | BSingleDelete _ _ | BDeleteRange _ _ _ | BMerge _ _ _ => True
              | _ => False
              end.

(** The call with which the inserter records an entry. *)
Definition rebuild_call (op : BatchOp) : BatchCall :=
  match op with
  | BPut cf k v => CallPut cf k v
  | BDelete cf k => CallDelete cf k
  | BSingleDelete cf k => CallSingleDelete cf k
  | BDeleteRange cf k v => CallDeleteRange cf k v
  | BMerge cf k v => CallMerge cf k v
  | _ => CallInsertNoop
  end.

Lemma rebuild_call_ok b ops op : batch_of b ops -> max_bytes_ b = 0 -> num_counted ops < 2 ^ 32 -> rebuildable op ->
  exists b', call b (rebuild_call op) = (Status_OK, b') /\ batch_of b' (ops ++ [op]) /\ max_bytes_ b' = 0.
Proof.
  intros Hb Hmax Hn [Hok Hre]. by apply call_unlimited; try done; destruct op.
Qed.

(** An inserter that has met the entries [ops] of a prepared section. *)
Record rebuilt (st0 st : Inserter R B) (ops : list BatchOp) : Prop := {
  rebuilt_mems : mems st = mems st0;
  rebuilt_sequence : ins_sequence st = ins_sequence st0;
  rebuilt_recovered : recovered st = recovered st0;
  rebuilt_aborted : aborted st = aborted st0;
  rebuilt_seq : rebuilding_trx_seq_ st = rebuilding_trx_seq_ st0;
  rebuilt_kind : unprepared_batch_ st = unprepared_batch_ st0;
  rebuilt_batch : exists b, rebuilding_trx_ st = Some b /\ batch_of b ops /\ max_bytes_ b = 0;
}.

Lemma call_rebuild iterate e rest st0 st empty ops op : rebuilt st0 st ops -> rebuildable op ->
  num_counted ops < 2 ^ 32 ->
  exists st', (handler_call (inserter_with (MRF := MRF) a iterate) e rest st empty op).1 = (Status_OK, st') /\
    rebuilt st0 st' (ops ++ [op]).
Proof.
  intros [Em Es Er Ea Eq Ek (b & Eb & Hb & Hmax)] Hop Hn.
  destruct (rebuild_call_ok b ops op Hb Hmax Hn Hop) as (b' & Ecall & Hb' & Hmax').
  exists (with_rebuilding (NextProtectionInfo st).2 (Some b') (rebuilding_trx_seq_ st) (unprepared_batch_ st)).
  assert (NextProtectionInfo st = ((NextProtectionInfo st).1, (NextProtectionInfo st).2)) as En by apply surjective_pairing.
  assert (rebuilding_trx_ (NextProtectionInfo st).2 = Some b) as Eb' by (by rewrite next_rebuilding).
  assert (forall st : Inserter R B, rebuilding_trx_seq_ (NextProtectionInfo st).2 = rebuilding_trx_seq_ st /\
    unprepared_batch_ (NextProtectionInfo st).2 = unprepared_batch_ st /\ mems (NextProtectionInfo st).2 = mems st /\
    ins_sequence (NextProtectionInfo st).2 = ins_sequence st /\ recovered (NextProtectionInfo st).2 = recovered st /\
    aborted (NextProtectionInfo st).2 = aborted st) as Hnext
    by (intros st1; unfold NextProtectionInfo; by destruct (ins_prot_info st1)).
  destruct (Hnext st) as (N1 & N2 & N3 & N4 & N5 & N6). split.
  - destruct Hop as [_ Hop]. destruct op; try done; cbn in Ecall;
      cbn [handler_call inserter_with fst PutCF DeleteCF SingleDeleteCF DeleteRangeCF MergeCF slice_before s_data];
      unfold Inserter_PutCF, Inserter_DeleteCF, Inserter_SingleDeleteCF, Inserter_DeleteRangeCF, Inserter_MergeCF,
        put_record, write_record; rewrite En; unfold PutCFImpl, is_rebuilding, write_after_commit_;
      rewrite Hper_key, Eb'; cbn [negb andb]; unfold rebuild; rewrite Eb', Ecall, N1, N2; done.
  - split; cbn; try congruence. by exists b'.
Qed.

Lemma run_rebuild iterate e st0 rest_ops ops : forall st empty done, rebuilt st0 st done -> Forall rebuildable ops ->
  num_counted (done ++ ops) < 2 ^ 32 ->
  exists st' empty', run_ops (inserter_with (MRF := MRF) a iterate) e st empty (ops ++ rest_ops) =
    run_ops (inserter_with (MRF := MRF) a iterate) e st' empty' rest_ops /\ rebuilt st0 st' (done ++ ops).
Proof.
  induction ops as [| op ops IH]; intros st empty done Hst Hops Hn.
  { exists st, empty. by rewrite app_nil_r. }
  apply list.Forall_cons in Hops as [Hop Hops]. rewrite num_counted_app in Hn. pose proof (num_counted_nonneg (op :: ops)).
  cbn [app run_ops]. change (Continue (inserter_with a iterate) st) with (true, st). cbn [negb].
  destruct (call_rebuild iterate e (slen (ops_bytes (ops ++ rest_ops))) st0 st empty done op Hst Hop ltac:(lia)) as (st1 & Ecall & Hst1).
  destruct (handler_call _ _ _ _ _ _) as [[s st1'] empty']. cbn [fst] in Ecall. injection Ecall as -> ->.
  change (status_ok Status_OK) with true.
  destruct (IH st1 empty' (done ++ [op]) Hst1 Hops) as (st2 & empty2 & E & Hst2).
  { rewrite !num_counted_app in *. rewrite <- Z.add_assoc. rewrite <- num_counted_app. done. }
  exists st2, empty2. split; [done |]. by rewrite <- app_assoc in Hst2.
Qed.

Context (Hrec : recovering a = true) (H2pc : allow_2pc a = true) (Hpolicy : batch_per_txn a = true).

(** A prepared section is kept aside. *)
Lemma InsertInto_prepared b ops xid r cfs :
  holds b (BBeginPrepare BeginPrepare :: ops ++ [BEndPrepare xid]) -> Forall rebuildable ops ->
  num_counted ops < 2 ^ 32 ->
  let seq := WriteBatchInternal_Sequence b in
  exists st trx, InsertInto_batch (MRF := MRF) a b cfs r = Some (Status_OK, st) /\ mems st = cfs /\
    ins_sequence st = seq /\ aborted st = false /\ batch_of trx ops /\
    recovered st = InsertRecoveredTransaction r (recovering_log_number_ a) xid trx seq 0 false.
Proof.
  intros Hb Hops Hn. cbv zeta. unfold InsertInto_batch, MemTableInserter, run_Iterate at 1.
  set (seq := WriteBatchInternal_Sequence b). set (st0 := MakeInserter seq cfs (prot_info_ b) r).
  set (it := run_Iterate (inserter_with a (fun _ _ => None))).
  rewrite (Iterate_holds _ op_ok b _ st0 Hb); [| by apply read_only_respectful | apply Hb | done].
  cbn [run_ops]. change (Continue (inserter_with a it) st0) with (true, st0). cbn [negb].
  set (st1 := with_valid_writes (with_rebuilding st0 (Some (MakeWriteBatch 0 0 0)) seq false)).
  assert (handler_call (inserter_with a it) (slen (rep_ b)) (slen (ops_bytes (ops ++ [BEndPrepare xid]))) st0 true
    (BBeginPrepare BeginPrepare) = (Status_OK, st1, false)) as ->.
  { cbn [handler_call inserter_with MarkBeginPrepare WriteAfterCommit WriteBeforePrepare].
    unfold Inserter_MarkBeginPrepare, write_after_commit_, write_before_prepare_. by rewrite Hrec, H2pc, Hper_key, Hpolicy. }
  change (status_ok Status_OK) with true.
  destruct (run_rebuild it (slen (rep_ b)) st1 [BEndPrepare xid] ops st1 false []) as (st2 & empty & -> & Hst2).
  { split; try done. eexists. split_and!; [done | apply new_batch_of | done]. }
  { done. }
  { done. }
  destruct Hst2 as [Em Es Er Ea Eq Ek (trx & Etrx & Htrx & _)].
  cbn [run_ops handler_call inserter_with MarkEndPrepare slice_before s_data Continue negb].
  unfold Inserter_MarkEndPrepare. rewrite Hrec, Etrx. unfold write_after_commit_, MaybeAdvanceSeq. rewrite Hper_key.
  cbn [negb Bool.eqb]. change (status_ok Status_OK) with true. rewrite Hserial. eexists _, trx. split; [done |].
  split_and!; try done. cbn. by rewrite Er, Eq, Ek.
Qed.

(** A commit marker inserts the section. *)
Lemma InsertInto_commit b ops xid r cfs hist trx log seq0 cnt unprep : holds b [BCommit xid] ->
  recovered_transactions_ r !! xid = Some {| unprepared_ := unprep;
    batches_ := [(seq0, {| bi_log_number := log; bi_batch := trx; batch_cnt_ := cnt |})] |} ->
  batch_of trx ops -> Forall (op_fits a cfs) ops ->
  let seq := WriteBatchInternal_Sequence b in
  mems_inv (MRFL := MRFL) cfs hist seq -> 0 < seq -> seq + slen ops <= kMaxSequenceNumber ->
  exists st, InsertInto_batch (MRF := MRF) a b cfs r = Some (Status_OK, st) /\
    let x := ops_versions a cfs seq ops in
    same_families cfs (mems st) /\ mems_inv (MRFL := MRFL) (mems st) (hist_after hist x.1) x.2 /\
    ins_sequence st = x.2 /\ aborted st = false /\
    recovered_transactions_ (recovered st) = delete xid (recovered_transactions_ r).
Proof.
  intros Hb Hr Htrx Hfit. cbv zeta. intros Hinv Hpos Hseq. unfold InsertInto_batch, MemTableInserter, run_Iterate at 1.
  set (seq := WriteBatchInternal_Sequence b) in *. set (st0 := MakeInserter seq cfs (prot_info_ b) r).
  set (it := run_Iterate (inserter_with a (fun _ _ => None))).
  rewrite (Iterate_holds _ op_ok b _ st0 Hb); [| by apply read_only_respectful | apply Hb | done].
  cbn [run_ops]. change (Continue (inserter_with a it) st0) with (true, st0). cbn [negb].
  cbn [handler_call inserter_with MarkCommit slice_before s_data]. unfold Inserter_MarkCommit, commit_recovered.
  rewrite Hrec. change (GetRecoveredTransaction (recovered st0) xid) with (recovered_transactions_ r !! xid). rewrite Hr.
  unfold write_after_commit_. rewrite Hper_key. cbn [negb batches_ bi_log_number bi_batch].
  change (status_ok Status_OK) with true. cbn [negb].
  set (st1 := ResetProtectionInfo _).
  destruct (iterate_inserter (MRFL := MRFL) a Hper_key Hserial (fun _ _ => None) trx ops st1 hist (batch_holds _ _ Htrx) eq_refl Hfit Hinv)
    as (st & E & Hf & Eseq & Hinv' & _); [done | done | done |].
  unfold inserter in E. unfold it at 1. rewrite E. change (status_ok Status_OK) with true.
  unfold retry_prot, MaybeAdvanceSeq. rewrite Hper_key. cbn [Bool.eqb]. change (IsTryAgain Status_OK) with false.
  change (status_ok Status_OK) with true. cbv iota. rewrite Hserial. eexists. split; [done |].
  split_and!; [exact (frame_families _ _ Hf) | exact Hinv' | exact Eseq | |].
  - cbn. by rewrite (frame_aborted _ _ Hf).
  - cbn. rewrite (frame_recovered _ _ Hf). unfold DeleteRecoveredTransaction. cbn. rewrite lookup_insert_eq. cbn.
    by rewrite delete_insert_eq.
Qed.

(** A rollback marker forgets the section. *)
Lemma InsertInto_rollback b xid r cfs : holds b [BRollback xid] ->
  exists st, InsertInto_batch (MRF := MRF) a b cfs r = Some (Status_OK, st) /\ mems st = cfs /\
    ins_sequence st = WriteBatchInternal_Sequence b /\
    recovered_transactions_ (recovered st) = delete xid (recovered_transactions_ r).
Proof.
  intros Hb. unfold InsertInto_batch, MemTableInserter, run_Iterate at 1.
  rewrite (Iterate_holds _ op_ok b _ _ Hb); [| by apply read_only_respectful | apply Hb | done].
  cbn [run_ops handler_call inserter_with MarkRollback Continue negb slice_before s_data].
  unfold Inserter_MarkRollback, MaybeAdvanceSeq. rewrite Hrec, Hper_key, Hserial. cbn [Bool.eqb].
  change (status_ok Status_OK) with true. eexists. split_and!; [done.. |]. cbn.
  unfold DeleteRecoveredTransaction. destruct (recovered_transactions_ r !! xid) eqn:E; [done |].
  by rewrite delete_id.
Qed.
End Recovery.

(** What a batch leaves: every column family reads as its history with the versions of the batch. *)
Definition families_read {R B : Type} {MRF : forall C : Comparator, MemTableRep R} {MF : MemTableFilter B} {H : NPHash}
    (cfs cfs' : gmap Z (ColumnFamilyData R B)) (hist : Z -> list Version) (l : list (Z * Version)) : Prop :=
  forall cf c, cfs !! cf = Some c -> exists c', cfs' !! cf = Some c' /\ same_family c c' /\
    family_reads (MRF := MRF) c' (hist cf ++ versions_of cf l).

Lemma inv_families_read {R B} {MRF : forall C : Comparator, MemTableRep R}
    {MRFL : forall C : Comparator, ComparatorLaws C -> MemTableRepLaws (MR := MRF C) R}
    {MF : MemTableFilter B} {MFL : MemTableFilterLaws B} {H : NPHash} cfs cfs' hist l seq :
  same_families cfs cfs' -> mems_inv (MRFL := MRFL) cfs' (hist_after hist l) seq ->
  families_read (R := R) (B := B) (MRF := MRF) cfs cfs' hist l.
Proof.
  intros Hf Hinv cf c Hc. specialize (Hf cf). rewrite Hc in Hf. destruct (cfs' !! cf) as [c' |] eqn:Hc'; [| done].
  exists c'. split_and!; [done.. |]. by eapply cf_inv_reads, Hinv.
Qed.

(** * Theorems *)



(** The entries of a memtable: internal keys of the types that a key may have, with range deletions
    in a table of their own. *)
Definition typed_entries {R B : Type} {MRF : forall C : Comparator, MemTableRep R} (c : ColumnFamilyData R B) : Prop :=
  let contents t := rep_contents (MemTableRep := MRF (cfd_comparator c)) t in
  Forall (fun e => exists k, ParseInternalKey (GetLengthPrefixedSlice_ptr e) = inl k /\ point_type (type k) = true)
    (contents (table_ (cfd_mem c))) /\
  Forall (fun e => exists k, ParseInternalKey (GetLengthPrefixedSlice_ptr e) = inl k /\ type k = kTypeRangeDeletion)
    (contents (range_del_table_ (cfd_mem c))).

Lemma entry_parses {H : NPHash} len v : version_ok v -> IsExtendedValueType (v_type v) = true ->
  ParseInternalKey (GetLengthPrefixedSlice_ptr (version_entry len v)) =
  inl {| user_key := v_key v; sequence := v_seq v; type := v_type v |}.
Proof.
  intros Hok Ht. pose proof (version_entry_parts len v Hok) as E. rewrite ParseInternalKey_parts.
  change (ExtractValueType ?x) with (type (parts x)). rewrite E. cbn [type]. rewrite Ht.
  unfold version_entry. rewrite encode_memtable_entry_internal_key by done.
  rewrite (proj2 (Z.ltb_ge _ _)); [done |]. unfold PutFixed64. pose proof (slen_nonneg (v_key v)). slia.
Qed.

Lemma cf_inv_typed {R B} {MRF : forall C : Comparator, MemTableRep R}
    {MRFL : forall C : Comparator, ComparatorLaws C -> MemTableRepLaws (MR := MRF C) R}
    {MF : MemTableFilter B} {MFL : MemTableFilterLaws B} {H : NPHash} (c : ColumnFamilyData R B) h seq :
  cf_inv (MRFL := MRFL) c h seq -> typed_entries (MRF := MRF) c.
Proof.
  intros [_ _ [L Hm] He _ _]. rewrite list.Forall_forall in He. split.
  - rewrite (holds_points _ _ _ Hm). apply list.Forall_forall. intros e (v & -> & Hv)%list_elem_of_fmap.
    apply list_elem_of_filter in Hv as [Hp%Is_true_eq_true Hv]. destruct (He v Hv) as (Hok & _ & Ht). specialize (Ht Hp).
    eexists. split; [apply entry_parses; [done |] | done]. unfold point_type in Ht. unfold IsExtendedValueType, IsValueType.
    repeat (apply orb_prop in Ht as [Ht | Ht]); apply Z.eqb_eq in Ht as ->; done.
  - rewrite (holds_ranges _ _ _ Hm). apply list.Forall_forall. intros e (v & -> & Hv)%list_elem_of_fmap.
    apply list_elem_of_filter in Hv as [Hp%Is_true_eq_true Hv]. destruct (He v Hv) as (Hok & _ & _).
    unfold is_range in Hp. apply Z.eqb_eq in Hp. eexists. split; [apply entry_parses; [done |]; by rewrite Hp | done].
Qed.

(** C27: the types of the entries. After a batch, every entry of the memtable of every column family
    has an internal key that parses; the type of its key is one that a lookup knows, and range
    deletions, and only they, are in the table for range deletions. *)
Theorem InsertInto_typed_entries {R B : Type} {MRF : forall C : Comparator, MemTableRep R}
    {MRFL : forall C : Comparator, ComparatorLaws C -> MemTableRepLaws (MR := MRF C) R}
    {MF : MemTableFilter B} {MFL : MemTableFilterLaws B} {H : NPHash} (a : InserterArgs R B)
    (b : WriteBatch) (ops : list BatchOp) (r : RecoveredTransactions) (cfs : gmap Z (ColumnFamilyData R B))
    (hist : Z -> list Version) (Hper_key : seq_per_batch_ a = false) (Hserial : concurrent_memtable_writes_ a = false)
    (Hb : holds b ops) (Hp : prot_matches b ops) (Hfit : Forall (op_fits a cfs) ops)
    (Hinv : mems_inv (MRFL := MRFL) cfs hist (WriteBatchInternal_Sequence b))
    (Hpos : 0 < WriteBatchInternal_Sequence b)
    (Hmax : WriteBatchInternal_Sequence b + slen ops <= kMaxSequenceNumber) :
  exists st, InsertInto_batch (MRF := MRF) a b cfs r = Some (Status_OK, st) /\
    map_Forall (fun _ c => typed_entries (MRF := MRF) c) (mems st).
Proof.
  destruct (InsertInto_batch_ops (MRFL := MRFL) a Hper_key Hserial b ops r cfs hist) as (st & E & _ & Hi & _);
    try done. exists st. split; [done |]. intros cf c Hc. by eapply cf_inv_typed, Hi.
Qed.

(** A database with one column family, over the simple memtables. *)
Definition ex_rep (C : Comparator) : MemTableRep SkipListRep := skip_list_rep (C := C) 301.
Definition ex_rep_laws (C : Comparator) (L : ComparatorLaws C) : MemTableRepLaws (MR := ex_rep C) SkipListRep :=
  skip_list_rep_laws (C := C) 301.
Definition ex_family : ColumnFamilyData SkipListRep DynamicBloom := {|
  cfd_comparator := BytewiseComparatorImpl; cfd_timestamps := DefaultTimestampComparator BytewiseComparatorImpl;
  cfd_moptions := ex_moptions; max_successive_merges := 0; is_delete_range_supported := true; cfd_log_number := 0;
  cfd_mem := MakeMemTable (MR := ex_rep BytewiseComparatorImpl) 0 (Some ex_bloom);
|}.
Definition ex_families : gmap Z (ColumnFamilyData SkipListRep DynamicBloom) := {[0 := ex_family]}.
Definition ex_args (log : Z) : InserterArgs SkipListRep DynamicBloom := {|
  ignore_missing_column_families_ := true; recovering_log_number_ := log; concurrent_memtable_writes_ := false;
  seq_per_batch_ := false; batch_per_txn := true; allow_2pc := true;
  db := Some (fun _ _ _ _ => (Status_NotFound, PinnableWideColumns_Reset));
|}.
Definition ex_transactions : RecoveredTransactions :=
  {| recovered_transactions_ := ∅; logs_with_prep_tracker_ := MakeLogsWithPrepTracker |}.
(** A put, a merge, a range deletion and a put to a family that was dropped. *)
Definition ex_ops : list BatchOp :=
  [BPut 0 [Byte.x61] [Byte.x31]; BMerge 0 [Byte.x61] [Byte.x32]; BDeleteRange 0 [Byte.x62] [Byte.x63];
   BPut 7 [Byte.x61] []].
Definition ex_batch (seq : Z) (ops : list BatchOp) : WriteBatch := WriteBatch_of_rep (rep_of (EncodeFixed64 seq) ops).

Lemma ex_fresh : map_Forall (fun _ c => fresh_family (MRF := ex_rep) c) ex_families.
Proof.
  apply map_Forall_singleton. split; cbn; [apply _ | apply Simple.default_timestamps_laws | done |].
  by exists 0, (Some ex_bloom).
Qed.
Lemma ex_fits log : Forall (op_fits (ex_args log) ex_families) ex_ops.
Proof.
  unfold ex_ops, op_fits. repeat (apply list.Forall_cons; split); [.. | done]; cbn [op_entry]; split_and!; try done;
    change (ex_families !! 0) with (Some ex_family); cbv iota; intros _; [done | | done].
  split; [by eexists | by left].
Qed.
Lemma ex_inv seq : 0 <= seq -> mems_inv (MRF := ex_rep) (MRFL := ex_rep_laws) (MF := bloom_filter) (H := ex_hash)
  ex_families (fun _ => []) seq.
Proof.
  intros Hs cf c Hc. eapply cf_inv_seq; [exact Hs |]. by eapply (fresh_inv (MRFL := ex_rep_laws)); [exact ex_fresh |].
Qed.
Lemma ex_holds seq ops : Forall op_ok ops -> holds (ex_batch seq ops) ops.
Proof. intros Hops. split; [| done]. exists (EncodeFixed64 seq). split; [slia | done]. Qed.


Lemma InsertInto_typed_entries_witness :
  exists st, InsertInto_batch (MRF := ex_rep) (MF := bloom_filter) (H := ex_hash) (ex_args 5) (ex_batch 9 ex_ops)
      ex_families ex_transactions = Some (Status_OK, st) /\
    map_Forall (fun _ c => typed_entries (MRF := ex_rep) c) (mems st).
Proof.
  apply (InsertInto_typed_entries (MRF := ex_rep) (MRFL := ex_rep_laws) (MF := bloom_filter)
    (MFL := bloom_filter_laws) (H := ex_hash) (ex_args 5) (ex_batch 9 ex_ops) ex_ops ex_transactions
    ex_families (fun _ => [])); [done | done | | done | apply ex_fits | by apply ex_inv | done | done].
  apply ex_holds. repeat constructor; by vm_compute.
Defined.

(** The section of the transaction "t" is in log 5, its end in log 6. *)
Definition ex_section : list BatchOp := [BPut 0 [Byte.x61] [Byte.x31]; BDelete 0 [Byte.x62]].
Definition ex_prepare : WriteBatch :=
  ex_batch 9 (BBeginPrepare BeginPrepare :: ex_section ++ [BEndPrepare [Byte.x74]]).
