(* ===== verification/BlockBuilder.v ===== *)
(** table/block_based/block_builder.cc, data_block_footer.cc and the building side of
    data_block_hash_index.cc: the blocks of a table file. *)

From S2P Require Import Prelude Coding Hash Comparator DbFormat.

(** * The footer of a block *)

Inductive DataBlockIndexType := kDataBlockBinarySearch | kDataBlockBinaryAndHash.

Definition kDataBlockIndexTypeBitShift : Z := 31.
Definition kNumRestartsMask : Z := Z.shiftl 1 kDataBlockIndexTypeBitShift - 1.

Definition PackIndexTypeAndNumRestarts (index_type : DataBlockIndexType) (num_restarts : Z) : Z :=
  match index_type with
  | kDataBlockBinaryAndHash => Z.lor num_restarts (Z.shiftl 1 kDataBlockIndexTypeBitShift)
  | kDataBlockBinarySearch => num_restarts
  end.
Definition UnPackIndexTypeAndNumRestarts (block_footer : Z) : DataBlockIndexType * Z :=
  (if negb (Z.land block_footer (Z.shiftl 1 kDataBlockIndexTypeBitShift) =? 0)
   then kDataBlockBinaryAndHash else kDataBlockBinarySearch,
   Z.land block_footer kNumRestartsMask).

(** * Building the hash index *)

Definition kNoEntry : Z := 255.
Definition kCollision : Z := 254.
Definition kMaxRestartSupportedByHashIndex : Z := 253.
Definition kMaxBlockSizeSupportedByHashIndex : Z := Z.shiftl 1 16.

(** [bucket_per_key_] and [estimated_num_buckets_] are floating-point numbers: the
    builder holds the integer part of the sum after each number of additions, which
    depends on the ratio it was initialised with. *)
Record DataBlockHashIndexBuilder := {
  bucket_estimate : option (nat -> Z);
  valid_ : bool;
  hash_and_restart_pairs_ : list (Z * Z);
}.

Definition MakeDataBlockHashIndexBuilder : DataBlockHashIndexBuilder :=
  {| bucket_estimate := None; valid_ := false; hash_and_restart_pairs_ := [] |}.
Definition HashIndexBuilder_Initialize (h : DataBlockHashIndexBuilder) (estimate : nat -> Z) :
    DataBlockHashIndexBuilder :=
  {| bucket_estimate := Some estimate; valid_ := true;
     hash_and_restart_pairs_ := hash_and_restart_pairs_ h |}.
Definition HashIndexBuilder_Valid (h : DataBlockHashIndexBuilder) : bool :=
  valid_ h && bool_decide (is_Some (bucket_estimate h)).
Definition estimated_num_buckets (h : DataBlockHashIndexBuilder) : Z :=
  match bucket_estimate h with
  | Some estimate => u16 (estimate (length (hash_and_restart_pairs_ h)))
  | None => 0
  end.
Definition HashIndexBuilder_Add (h : DataBlockHashIndexBuilder) (key : bytes) (restart_index : Z) :
    DataBlockHashIndexBuilder :=
  if restart_index >? kMaxRestartSupportedByHashIndex then
    {| bucket_estimate := bucket_estimate h; valid_ := false;
       hash_and_restart_pairs_ := hash_and_restart_pairs_ h |}
  else
    {| bucket_estimate := bucket_estimate h; valid_ := valid_ h;
       hash_and_restart_pairs_ := hash_and_restart_pairs_ h ++ [(GetSliceHash key, restart_index)] |}.
Definition HashIndexBuilder_num_buckets (h : DataBlockHashIndexBuilder) : Z :=
  let num_buckets := estimated_num_buckets h in
  Z.lor (if num_buckets =? 0 then 1 else num_buckets) 1.

(** One pass of the loop that fills the buckets. *)
Definition fill_bucket (num_buckets : Z) (buckets : list Z) (entry : Z * Z) : list Z :=
  let '(hash_value, restart_index) := entry in
  let buck_idx := Z.to_nat (u16 (hash_value mod num_buckets)) in
  let bucket := nth buck_idx buckets kNoEntry in
  if bucket =? kNoEntry then <[buck_idx := restart_index]> buckets
  else if negb (bucket =? restart_index) then <[buck_idx := kCollision]> buckets
  else buckets.
Definition HashIndexBuilder_buckets (h : DataBlockHashIndexBuilder) : list Z :=
  let num_buckets := HashIndexBuilder_num_buckets h in
  fold_left (fill_bucket num_buckets) (hash_and_restart_pairs_ h)
    (replicate (Z.to_nat num_buckets) kNoEntry).
Definition HashIndexBuilder_Finish (h : DataBlockHashIndexBuilder) (buffer : bytes) : bytes :=
  PutFixed16 (buffer ++ map byte.of_Z (HashIndexBuilder_buckets h)) (HashIndexBuilder_num_buckets h).
Definition HashIndexBuilder_Reset (h : DataBlockHashIndexBuilder) : DataBlockHashIndexBuilder :=
  {| bucket_estimate := bucket_estimate h; valid_ := true; hash_and_restart_pairs_ := [] |}.
Definition HashIndexBuilder_EstimateSize (h : DataBlockHashIndexBuilder) : Z :=
  2 + Z.lor (estimated_num_buckets h) 1.

(** * [BlockBuilder] *)

Record BlockBuilder := {
  block_restart_interval_ : Z;
  use_delta_encoding_ : bool;
  use_value_delta_encoding_ : bool;
  strip_ts_sz_ : Z;
  keys_are_user_keys_ : bool;
  buffer_ : bytes;
  restarts_of : list Z;
  estimate_ : Z;
  counter_ : Z;
  finished_ : bool;
  last_key_ : bytes;
  data_block_hash_index_builder_ : DataBlockHashIndexBuilder;
}.

Definition MakeBlockBuilder (block_restart_interval : Z)
    (use_delta_encoding use_value_delta_encoding : bool) (hash_index : option (nat -> Z))
    (ts_sz : Z) (persist_user_defined_timestamps is_user_key : bool) : BlockBuilder := {|
  block_restart_interval_ := block_restart_interval;
  use_delta_encoding_ := use_delta_encoding;
  use_value_delta_encoding_ := use_value_delta_encoding;
  strip_ts_sz_ := if persist_user_defined_timestamps then 0 else ts_sz;
  keys_are_user_keys_ := is_user_key;
  buffer_ := []; restarts_of := [0]; estimate_ := 4 + 4; counter_ := 0; finished_ := false;
  last_key_ := [];
  data_block_hash_index_builder_ :=
    match hash_index with
    | None => MakeDataBlockHashIndexBuilder
    | Some estimate => HashIndexBuilder_Initialize MakeDataBlockHashIndexBuilder estimate
    end |}.

Definition BlockBuilder_Reset (b : BlockBuilder) : BlockBuilder := {|
  block_restart_interval_ := block_restart_interval_ b;
  use_delta_encoding_ := use_delta_encoding_ b;
  use_value_delta_encoding_ := use_value_delta_encoding_ b;
  strip_ts_sz_ := strip_ts_sz_ b; keys_are_user_keys_ := keys_are_user_keys_ b;
  buffer_ := []; restarts_of := take 1 (restarts_of b); estimate_ := 4 + 4; counter_ := 0;
  finished_ := false; last_key_ := [];
  data_block_hash_index_builder_ :=
    if HashIndexBuilder_Valid (data_block_hash_index_builder_ b)
    then HashIndexBuilder_Reset (data_block_hash_index_builder_ b)
    else data_block_hash_index_builder_ b |}.

Definition CurrentSizeEstimate (b : BlockBuilder) : Z :=
  estimate_ b + (if HashIndexBuilder_Valid (data_block_hash_index_builder_ b)
                 then HashIndexBuilder_EstimateSize (data_block_hash_index_builder_ b) else 0).

Definition EstimateSizeAfterKV (b : BlockBuilder) (key value : bytes) : Z :=
  let restarting := counter_ b >=? block_restart_interval_ b in
  let full_value := negb (use_value_delta_encoding_ b) || restarting in
  CurrentSizeEstimate b + slen key - (if strip_ts_sz_ b >? 0 then strip_ts_sz_ b else 0) +
  (if full_value then slen value else slen value / 2) +
  (if restarting then 4 else 0) + 4 + VarintLength (slen key) +
  (if full_value then VarintLength (slen value) else 0).

Definition MaybeStripTimestampFromKey (b : BlockBuilder) (key : bytes) : bytes :=
  if strip_ts_sz_ b >? 0 then
    if keys_are_user_keys_ b then stake (slen key - strip_ts_sz_ b) key
    else StripTimestampFromInternalKey [] key (strip_ts_sz_ b)
  else key.

(** The bytes appended for one entry. *)
Definition encode_entry (b : BlockBuilder) (shared : Z) (key_to_persist value delta_value : bytes) : bytes :=
  let non_shared := slen key_to_persist - shared in
  (if use_value_delta_encoding_ b then PutVarint32Varint32 [] (u32 shared) (u32 non_shared)
   else PutVarint32Varint32Varint32 [] (u32 shared) (u32 non_shared) (u32 (slen value))) ++
  sdrop shared key_to_persist ++
  (if negb (shared =? 0) && use_value_delta_encoding_ b then delta_value else value).

Definition AddWithLastKeyImpl (b : BlockBuilder) (key value last_key delta_value : bytes)
    (buffer_size : Z) : BlockBuilder :=
  let key_to_persist := MaybeStripTimestampFromKey b key in
  let last_key_persisted :=
    if slen last_key =? 0 then last_key else MaybeStripTimestampFromKey b last_key in
  let restarting := counter_ b >=? block_restart_interval_ b in
  let shared :=
    if restarting then 0
    else if use_delta_encoding_ b then Z.of_nat (difference_offset key_to_persist last_key_persisted)
    else 0 in
  let restarts := if restarting then restarts_of b ++ [u32 buffer_size] else restarts_of b in
  let buffer := buffer_ b ++ encode_entry b shared key_to_persist value delta_value in
  {| block_restart_interval_ := block_restart_interval_ b;
     use_delta_encoding_ := use_delta_encoding_ b;
     use_value_delta_encoding_ := use_value_delta_encoding_ b;
     strip_ts_sz_ := strip_ts_sz_ b; keys_are_user_keys_ := keys_are_user_keys_ b;
     buffer_ := buffer; restarts_of := restarts;
     estimate_ := estimate_ b + (if restarting then 4 else 0) + (slen buffer - buffer_size);
     counter_ := (if restarting then 0 else counter_ b) + 1;
     finished_ := finished_ b; last_key_ := last_key_ b;
     data_block_hash_index_builder_ :=
       if HashIndexBuilder_Valid (data_block_hash_index_builder_ b)
       then HashIndexBuilder_Add (data_block_hash_index_builder_ b) (ExtractUserKey key)
              (slen restarts - 1)
       else data_block_hash_index_builder_ b |}.

Definition set_last_key (b : BlockBuilder) (key : bytes) : BlockBuilder := {|
  block_restart_interval_ := block_restart_interval_ b;
  use_delta_encoding_ := use_delta_encoding_ b;
  use_value_delta_encoding_ := use_value_delta_encoding_ b;
  strip_ts_sz_ := strip_ts_sz_ b; keys_are_user_keys_ := keys_are_user_keys_ b;
  buffer_ := buffer_ b; restarts_of := restarts_of b; estimate_ := estimate_ b;
  counter_ := counter_ b; finished_ := finished_ b; last_key_ := key;
  data_block_hash_index_builder_ := data_block_hash_index_builder_ b |}.

Definition Add (b : BlockBuilder) (key value delta_value : bytes) : BlockBuilder :=
  let b := AddWithLastKeyImpl b key value (last_key_ b) delta_value (slen (buffer_ b)) in
  if use_delta_encoding_ b then set_last_key b key else b.
Definition AddWithLastKey (b : BlockBuilder) (key value last_key_param delta_value : bytes) :
    BlockBuilder :=
  let buffer_size := slen (buffer_ b) in
  let last_key_size := slen last_key_param in
  let last_key := stake (last_key_size * (if buffer_size >? 0 then 1 else 0)) last_key_param in
  AddWithLastKeyImpl b key value last_key delta_value buffer_size.

Definition BlockBuilder_Finish (b : BlockBuilder) : BlockBuilder * bytes :=
  let buffer := fold_left PutFixed32 (restarts_of b) (buffer_ b) in
  let num_restarts := u32 (slen (restarts_of b)) in
  let '(buffer, index_type) :=
    if HashIndexBuilder_Valid (data_block_hash_index_builder_ b) &&
       (CurrentSizeEstimate b <=? kMaxBlockSizeSupportedByHashIndex)
    then (HashIndexBuilder_Finish (data_block_hash_index_builder_ b) buffer, kDataBlockBinaryAndHash)
    else (buffer, kDataBlockBinarySearch) in
  let buffer := PutFixed32 buffer (PackIndexTypeAndNumRestarts index_type num_restarts) in
  ({| block_restart_interval_ := block_restart_interval_ b;
      use_delta_encoding_ := use_delta_encoding_ b;
      use_value_delta_encoding_ := use_value_delta_encoding_ b;
      strip_ts_sz_ := strip_ts_sz_ b; keys_are_user_keys_ := keys_are_user_keys_ b;
      buffer_ := buffer; restarts_of := restarts_of b; estimate_ := estimate_ b;
      counter_ := counter_ b; finished_ := true; last_key_ := last_key_ b;
      data_block_hash_index_builder_ := data_block_hash_index_builder_ b |}, buffer).

(** [SwapAndReset]: the contents are handed out and the builder starts again. *)
Definition SwapAndReset (b : BlockBuilder) (buffer : bytes) : BlockBuilder * bytes :=
  (BlockBuilder_Reset b, buffer_ b).
