(* ===== verification/BlockIter.v ===== *)
(** table/block_based/block.h, block.cc and the reading side of data_block_hash_index.cc:
    parsing a block, and the iterators over data blocks and meta blocks.

    Not modelled: per-entry checksums (the index of the current entry, which they need,
    is), the read-amplification bitmap, pinning and cache handles, index blocks. *)

From S2P Require Import Prelude Coding Hash Comparator DbFormat IterKey BlockBuilder.

(** * Decoding entries

    A pointer into the block is an offset; [limit] is the offset of the restart array. *)

(** The three lengths of an entry and the offset of its key. *)
Definition decoded : Type := Z * Z * Z * Z.

(** The slow path of the decoders. *)
Definition decode_varints (data : bytes) (p limit : Z) : option decoded :=
  match GetVarint32Ptr (stake (limit - p) (sdrop p data)) with
  | None => None
  | Some (shared, rest) =>
      match GetVarint32Ptr rest with
      | None => None
      | Some (non_shared, rest) =>
          match GetVarint32Ptr rest with
          | None => None
          | Some (value_length, rest) => Some (limit - slen rest, shared, non_shared, value_length)
          end
      end
  end.
Definition decode_lengths (data : bytes) (p limit : Z) : option decoded :=
  let shared := byte_at (sdrop p data) 0 in
  let non_shared := byte_at (sdrop p data) 1 in
  let value_length := byte_at (sdrop p data) 2 in
  if Z.lor (Z.lor shared non_shared) value_length <? 128
  then Some (p + 3, shared, non_shared, value_length)
  else decode_varints data p limit.

(** The bounds are only asserted. *)
Definition DecodeEntry (data : bytes) (p limit : Z) : option decoded := decode_lengths data p limit.
Definition CheckAndDecodeEntry (data : bytes) (p limit : Z) : option decoded :=
  if limit - p <? 3 then None
  else
    match decode_lengths data p limit with
    | None => None
    | Some (p', shared, non_shared, value_length) =>
        if u32 (limit - p') <? u32 (non_shared + value_length) then None
        else Some (p', shared, non_shared, value_length)
    end.
Definition DecodeKey (data : bytes) (p limit : Z) : option (Z * Z * Z) :=
  match DecodeEntry data p limit with
  | Some (p', shared, non_shared, _) => Some (p', shared, non_shared)
  | None => None
  end.

(** * [Block] *)

Record Block := {
  contents_ : bytes;
  size_ : Z;
  restart_offset_ : Z;
  block_num_restarts_ : Z;
  num_buckets_ : Z;
}.

Definition NumRestarts (data : bytes) (size : Z) : Z :=
  let block_footer := DecodeFixed32 (sdrop (size - 4) data) in
  if size >? kMaxBlockSizeSupportedByHashIndex then block_footer
  else (UnPackIndexTypeAndNumRestarts block_footer).2.
Definition IndexType (data : bytes) (size : Z) : DataBlockIndexType :=
  if size >? kMaxBlockSizeSupportedByHashIndex then kDataBlockBinarySearch
  else (UnPackIndexTypeAndNumRestarts (DecodeFixed32 (sdrop (size - 4) data))).1.

(** [DataBlockHashIndex::Initialize]: the number of buckets and the offset of the table. *)
Definition HashIndex_Initialize (data : bytes) (size : Z) : Z * Z :=
  let num_buckets := DecodeFixed16 (sdrop (size - 2) data) in
  (num_buckets, u16 (size - 2 - num_buckets)).
Definition HashIndex_Lookup (num_buckets : Z) (data : bytes) (map_offset : Z) (key : bytes) : Z :=
  let idx := u16 (GetSliceHash key mod num_buckets) in
  byte_at (sdrop (map_offset + idx) data) 0.

Definition MakeBlock (contents : bytes) : Block :=
  let size := slen contents in
  if size <? 4 then
    {| contents_ := contents; size_ := 0; restart_offset_ := 0; block_num_restarts_ := 0;
       num_buckets_ := 0 |}
  else
    let num_restarts := NumRestarts contents size in
    match IndexType contents size with
    | kDataBlockBinarySearch =>
        let restart_offset := u32 (u32 size - u32 (1 + num_restarts) * 4) in
        {| contents_ := contents; size_ := if restart_offset >? size - 4 then 0 else size;
           restart_offset_ := restart_offset; block_num_restarts_ := num_restarts; num_buckets_ := 0 |}
    | kDataBlockBinaryAndHash =>
        if size <? 4 + 2 then
          {| contents_ := contents; size_ := 0; restart_offset_ := 0;
             block_num_restarts_ := num_restarts; num_buckets_ := 0 |}
        else
          let '(num_buckets, map_offset) := HashIndex_Initialize contents (u16 (size - 4)) in
          let restart_offset := u32 (map_offset - num_restarts * 4) in
          {| contents_ := contents; size_ := if restart_offset >? map_offset then 0 else size;
             restart_offset_ := restart_offset; block_num_restarts_ := num_restarts;
             num_buckets_ := num_buckets |}
    end.

(** * Iterators *)

Inductive IterStatus := IterOk | IterCorruption.

(** What the initialisation of an iterator fixes. [empty_slice] is where the data of an
    empty [Slice] lies, as an offset from [data_]. *)
Record BlockConfig := {
  data_ : option bytes;
  restarts_ : Z;
  num_restarts_ : Z;
  global_seqno_ : Z;
  ts_sz_ : Z;
  pad_min_timestamp_ : bool;
  entries_per_restart_ : Z;
  hash_buckets_ : option Z;
  empty_slice : Z;
}.

(** An entry that [Prev] decoded; [key_ptr] when the key lies in the block. *)
Record CachedPrevEntry := {
  offset : Z;
  key_ptr : option bytes;
  key_offset : Z;
  key_size : Z;
  cached_value : Z * Z;
}.

(** [value_] is the offset and the size of a [Slice] of the block. *)
Record BlockIter := {
  restart_index_ : Z;
  current_ : Z;
  raw_key_ : IterKey;
  value_ : Z * Z;
  status_ : IterStatus;
  cur_entry_idx_ : Z;
  prev_entries_keys_buff_ : bytes;
  prev_entries_ : list CachedPrevEntry;
  prev_entries_idx_ : Z;
}.

Definition set_position (it : BlockIter) (restart_index current : Z) : BlockIter := {|
  restart_index_ := restart_index; current_ := current; raw_key_ := raw_key_ it;
  value_ := value_ it; status_ := status_ it; cur_entry_idx_ := cur_entry_idx_ it;
  prev_entries_keys_buff_ := prev_entries_keys_buff_ it; prev_entries_ := prev_entries_ it;
  prev_entries_idx_ := prev_entries_idx_ it |}.
Definition set_entry (it : BlockIter) (raw_key : IterKey) (value : Z * Z) : BlockIter := {|
  restart_index_ := restart_index_ it; current_ := current_ it; raw_key_ := raw_key;
  value_ := value; status_ := status_ it; cur_entry_idx_ := cur_entry_idx_ it;
  prev_entries_keys_buff_ := prev_entries_keys_buff_ it; prev_entries_ := prev_entries_ it;
  prev_entries_idx_ := prev_entries_idx_ it |}.
Definition set_status (it : BlockIter) (status : IterStatus) : BlockIter := {|
  restart_index_ := restart_index_ it; current_ := current_ it; raw_key_ := raw_key_ it;
  value_ := value_ it; status_ := status; cur_entry_idx_ := cur_entry_idx_ it;
  prev_entries_keys_buff_ := prev_entries_keys_buff_ it; prev_entries_ := prev_entries_ it;
  prev_entries_idx_ := prev_entries_idx_ it |}.
Definition set_cur_entry_idx (it : BlockIter) (idx : Z) : BlockIter := {|
  restart_index_ := restart_index_ it; current_ := current_ it; raw_key_ := raw_key_ it;
  value_ := value_ it; status_ := status_ it; cur_entry_idx_ := idx;
  prev_entries_keys_buff_ := prev_entries_keys_buff_ it; prev_entries_ := prev_entries_ it;
  prev_entries_idx_ := prev_entries_idx_ it |}.
Definition set_prev_entries (it : BlockIter) (buff : bytes) (entries : list CachedPrevEntry)
    (idx : Z) : BlockIter := {|
  restart_index_ := restart_index_ it; current_ := current_ it; raw_key_ := raw_key_ it;
  value_ := value_ it; status_ := status_ it; cur_entry_idx_ := cur_entry_idx_ it;
  prev_entries_keys_buff_ := buff; prev_entries_ := entries; prev_entries_idx_ := idx |}.

(** How a subclass decodes entries: [DecodeEntry] or [CheckAndDecodeEntry]. *)
Definition DecodeEntryFunc : Type := bytes -> Z -> Z -> option decoded.

Section Iter.
Context {C : Comparator} (c : BlockConfig) (decode : DecodeEntryFunc).

Definition block_bytes : bytes := default [] (data_ c).
Definition slice_at (off size : Z) : bytes := stake size (sdrop off block_bytes).

Definition Valid (it : BlockIter) : bool := current_ it <? restarts_ c.
Definition iter_value (it : BlockIter) : bytes := slice_at (value_ it).1 (value_ it).2.
Definition NextEntryOffset (it : BlockIter) : Z := u32 ((value_ it).1 + (value_ it).2).
Definition GetRestartPoint (index : Z) : Z :=
  DecodeFixed32 (sdrop (restarts_ c + index * 4) block_bytes).

(** The key that [UpdateKey] exposes: with the global sequence number, if there is one. *)
Definition iter_key (it : BlockIter) : bytes :=
  if is_user_key_ (raw_key_ it) then GetUserKey (raw_key_ it)
  else if global_seqno_ c =? kDisableGlobalSequenceNumber then GetKey (raw_key_ it)
  else GetKey (SetInternalKey_user_key MakeIterKey (GetUserKey (raw_key_ it)) (global_seqno_ c)
                 (ExtractValueType (GetKey (raw_key_ it))) None).

Definition CorruptionError (it : BlockIter) : BlockIter :=
  set_status (set_entry (set_position it (num_restarts_ c) (restarts_ c))
                (Clear (raw_key_ it)) (empty_slice c, 0)) IterCorruption.

Definition UpdateRawKeyAndMaybePadMinTimestamp (raw_key : IterKey) (key : bytes) : IterKey :=
  if pad_min_timestamp_ c then SetKeyWithPaddedMinTimestamp raw_key key (ts_sz_ c)
  else SetKey raw_key key false.

Definition CompareCurrentKey (raw_key : IterKey) (other : bytes) : Z :=
  if is_user_key_ raw_key then Compare (GetUserKey raw_key) other
  else if global_seqno_ c =? kDisableGlobalSequenceNumber
  then InternalKeyComparator_Compare (GetKey raw_key) other
  else InternalKeyComparator_Compare_seqno (GetKey raw_key) (global_seqno_ c) other
         kDisableGlobalSequenceNumber.

Definition SeekToRestartPoint (it : BlockIter) (index : Z) : BlockIter :=
  set_entry (set_position it index (current_ it)) (Clear (raw_key_ it)) (GetRestartPoint index, 0).

(** The loop of [ParseNextKey] that moves to the restart point before the entry. *)
Fixpoint advance_restart (fuel : nat) (restart_index current : Z) : Z :=
  match fuel with
  | O => restart_index
  | S fuel =>
      if (restart_index + 1 <? num_restarts_ c) && (GetRestartPoint (restart_index + 1) <? current)
      then advance_restart fuel (restart_index + 1) current
      else restart_index
  end.

(** Whether there was an entry, and whether it shares bytes with the previous key. *)
Definition ParseNextKey (it : BlockIter) : BlockIter * bool * bool :=
  let current := NextEntryOffset it in
  if current >=? restarts_ c then
    (set_position it (num_restarts_ c) (restarts_ c), false, false)
  else
    let it := set_position it (restart_index_ it) current in
    match decode block_bytes current (restarts_ c) with
    | None => (CorruptionError it, false, false)
    | Some (p, shared, non_shared, value_length) =>
        if Size (raw_key_ it) <? shared then (CorruptionError it, false, false)
        else
          let raw_key :=
            if shared =? 0 then
              UpdateRawKeyAndMaybePadMinTimestamp (raw_key_ it) (slice_at p non_shared)
            else if pad_min_timestamp_ c then
              TrimAppendWithTimestamp (raw_key_ it) shared (slice_at p non_shared) (ts_sz_ c)
            else TrimAppend (raw_key_ it) shared (slice_at p non_shared) in
          let it := set_entry it raw_key (p + non_shared, value_length) in
          if shared =? 0 then
            (set_position it (advance_restart (Z.to_nat (num_restarts_ c)) (restart_index_ it) current)
               current, true, false)
          else (it, true, true)
    end.

Definition parse (it : BlockIter) : BlockIter * bool :=
  let '(it, ok, _) := ParseNextKey it in (it, ok).

Definition NextImpl (it : BlockIter) : BlockIter :=
  let it := (parse it).1 in set_cur_entry_idx it (cur_entry_idx_ it + 1).

Definition SeekToFirstImpl (it : BlockIter) : BlockIter :=
  match data_ c with
  | None => it
  | Some _ => set_cur_entry_idx (parse (SeekToRestartPoint it 0)).1 0
  end.

(** Loops return [None] when [fuel] passes were not enough. *)
Fixpoint SeekToLast_loop (fuel : nat) (it : BlockIter) : option BlockIter :=
  match fuel with
  | O => None
  | S fuel =>
      let '(it, ok) := parse it in
      if ok && (NextEntryOffset it <? restarts_ c)
      then SeekToLast_loop fuel (set_cur_entry_idx it (cur_entry_idx_ it + 1))
      else Some it
  end.
(** Every entry takes at least three bytes of the block. *)
Definition loop_fuel : nat := S (Z.to_nat (restarts_ c)).
Definition SeekToLastImpl (it : BlockIter) : option BlockIter :=
  match data_ c with
  | None => Some it
  | Some _ =>
      let it := SeekToRestartPoint it (num_restarts_ c - 1) in
      let it := set_cur_entry_idx it ((num_restarts_ c - 1) * entries_per_restart_ c) in
      SeekToLast_loop loop_fuel it
  end.

(** * Seeking *)

Inductive BinarySeekResult :=
| SeekFailed (it : BlockIter)
| SeekFound (it : BlockIter) (index : Z) (skip_linear_scan : bool).

Fixpoint BinarySeek_loop (fuel : nat) (it : BlockIter) (target : bytes) (left right : Z)
    (skip : bool) : option BinarySeekResult :=
  match fuel with
  | O => None
  | S fuel =>
      if left =? right then
        Some (if left =? -1 then SeekFound it 0 true else SeekFound it left skip)
      else
        let mid := left + (right - left + 1) / 2 in
        match DecodeKey block_bytes (GetRestartPoint mid) (restarts_ c) with
        | None => Some (SeekFailed (CorruptionError it))
        | Some (key_ptr, shared, non_shared) =>
            if negb (shared =? 0) then Some (SeekFailed (CorruptionError it))
            else
              let raw_key :=
                UpdateRawKeyAndMaybePadMinTimestamp (raw_key_ it) (slice_at key_ptr non_shared) in
              let it := set_entry it raw_key (value_ it) in
              let cmp := CompareCurrentKey raw_key target in
              if cmp <? 0 then BinarySeek_loop fuel it target mid right skip
              else if cmp >? 0 then BinarySeek_loop fuel it target left (mid - 1) skip
              else BinarySeek_loop fuel it target mid mid true
        end
  end.
Definition BinarySeek (it : BlockIter) (target : bytes) : option BinarySeekResult :=
  if restarts_ c =? 0 then Some (SeekFailed it)
  else BinarySeek_loop (S (Z.to_nat (num_restarts_ c))) it target (-1) (num_restarts_ c - 1) false.

Fixpoint FindKey_loop (fuel : nat) (it : BlockIter) (target : bytes) (max_offset : Z) :
    option BlockIter :=
  match fuel with
  | O => None
  | S fuel =>
      let it := NextImpl it in
      if negb (Valid it) then Some it
      else if current_ it =? max_offset then Some it
      else if CompareCurrentKey (raw_key_ it) target >=? 0 then Some it
      else FindKey_loop fuel it target max_offset
  end.
Definition FindKeyAfterBinarySeek (it : BlockIter) (target : bytes) (index : Z)
    (skip_linear_scan : bool) : option BlockIter :=
  let it := SeekToRestartPoint it index in
  let it := set_cur_entry_idx it (index * entries_per_restart_ c - 1) in
  let it := NextImpl it in
  if skip_linear_scan then Some it
  else
    let max_offset :=
      if index + 1 <? num_restarts_ c then GetRestartPoint (index + 1) else 2 ^ 32 - 1 in
    FindKey_loop loop_fuel it target max_offset.

Definition SeekImpl (it : BlockIter) (target : bytes) : option BlockIter :=
  match data_ c with
  | None => Some it
  | Some _ =>
      match BinarySeek it target with
      | None => None
      | Some (SeekFailed it) => Some it
      | Some (SeekFound it index skip) => FindKeyAfterBinarySeek it target index skip
      end
  end.

(** * Moving backwards *)

(** The last restart point at or before [restart_index] that is before [original]. *)
Fixpoint restart_before (restart_index : nat) (original : Z) : option Z :=
  if GetRestartPoint (Z.of_nat restart_index) >=? original then
    match restart_index with
    | O => None
    | S restart_index => restart_before restart_index original
    end
  else Some (Z.of_nat restart_index).

(** [MetaBlockIter::PrevImpl]. *)
Fixpoint Prev_loop (fuel : nat) (it : BlockIter) (original : Z) : option BlockIter :=
  match fuel with
  | O => None
  | S fuel =>
      let '(it, ok) := parse it in
      if ok && (NextEntryOffset it <? original) then Prev_loop fuel it original else Some it
  end.
Definition Meta_PrevImpl (it : BlockIter) : option BlockIter :=
  let original := current_ it in
  match restart_before (Z.to_nat (restart_index_ it)) original with
  | None => Some (set_position it (num_restarts_ c) (restarts_ c))
  | Some restart_index =>
      match Prev_loop loop_fuel (SeekToRestartPoint it restart_index) original with
      | None => None
      | Some it => Some (set_cur_entry_idx it (cur_entry_idx_ it - 1))
      end
  end.

(** The entry that [DataBlockIter::PrevImpl] caches after parsing it. *)
Definition cache_current (it : BlockIter) : BlockIter :=
  let key := GetKey (raw_key_ it) in
  if IsKeyPinned (raw_key_ it) then
    set_prev_entries it (prev_entries_keys_buff_ it)
      (prev_entries_ it ++
       [{| offset := current_ it; key_ptr := Some key; key_offset := 0; key_size := slen key;
           cached_value := value_ it |}]) (prev_entries_idx_ it)
  else
    set_prev_entries it (prev_entries_keys_buff_ it ++ key)
      (prev_entries_ it ++
       [{| offset := current_ it; key_ptr := None; key_offset := slen (prev_entries_keys_buff_ it);
           key_size := slen key; cached_value := value_ it |}]) (prev_entries_idx_ it).
Fixpoint Prev_cache_loop (fuel : nat) (it : BlockIter) (original : Z) : option BlockIter :=
  match fuel with
  | O => None
  | S fuel =>
      let '(it, ok) := parse it in
      if negb ok then Some it
      else
        let it := cache_current it in
        if NextEntryOffset it <? original then Prev_cache_loop fuel it original else Some it
  end.

(** The cached entry before the current one, if the cache is at the current one. *)
Definition cached_prev (it : BlockIter) : option CachedPrevEntry :=
  if prev_entries_idx_ it >? 0 then
    match prev_entries_ it !! Z.to_nat (prev_entries_idx_ it) with
    | Some e =>
        if offset e =? current_ it then prev_entries_ it !! Z.to_nat (prev_entries_idx_ it - 1)
        else None
    | None => None
    end
  else None.
Definition PrevImpl (it : BlockIter) : option BlockIter :=
  let it := set_cur_entry_idx it (cur_entry_idx_ it - 1) in
  match cached_prev it with
  | Some e =>
      let '(current_key, raw_key_cached) :=
        match key_ptr e with
        | Some key => (stake (key_size e) key, false)
        | None => (stake (key_size e) (sdrop (key_offset e) (prev_entries_keys_buff_ it)), true)
        end in
      let it := set_position it (restart_index_ it) (offset e) in
      let it := set_entry it (SetKey (raw_key_ it) current_key raw_key_cached) (cached_value e) in
      Some (set_prev_entries it (prev_entries_keys_buff_ it) (prev_entries_ it)
              (prev_entries_idx_ it - 1))
  | None =>
      let it := set_prev_entries it [] [] (-1) in
      let original := current_ it in
      match restart_before (Z.to_nat (restart_index_ it)) original with
      | None => Some (set_position it (num_restarts_ c) (restarts_ c))
      | Some restart_index =>
          match Prev_cache_loop loop_fuel (SeekToRestartPoint it restart_index) original with
          | None => None
          | Some it =>
              Some (set_prev_entries it (prev_entries_keys_buff_ it) (prev_entries_ it)
                      (slen (prev_entries_ it) - 1))
          end
      end
  end.

(** [SeekForPrevImpl], over the subclass's [PrevImpl]. *)
Section SeekForPrev.
Context (Prev : BlockIter -> option BlockIter).

Fixpoint SeekForPrev_loop (fuel : nat) (it : BlockIter) (target : bytes) : option BlockIter :=
  match fuel with
  | O => None
  | S fuel =>
      if Valid it && (CompareCurrentKey (raw_key_ it) target >? 0) then
        match Prev it with
        | None => None
        | Some it => SeekForPrev_loop fuel it target
        end
      else Some it
  end.
Definition SeekForPrevImpl (it : BlockIter) (target : bytes) : option BlockIter :=
  match data_ c with
  | None => Some it
  | Some _ =>
      match BinarySeek it target with
      | None => None
      | Some (SeekFailed it) => Some it
      | Some (SeekFound it index skip) =>
          match FindKeyAfterBinarySeek it target index skip with
          | None => None
          | Some it =>
              if negb (Valid it) then
                match status_ it with IterOk => SeekToLastImpl it | IterCorruption => Some it end
              else SeekForPrev_loop loop_fuel it target
          end
      end
  end.
End SeekForPrev.

(** * Point lookups through the hash index *)

Definition conservative_type (value_type : Z) : bool :=
  negb (value_type =? kTypeValue) && negb (value_type =? kTypeDeletion) &&
  negb (value_type =? kTypeMerge) && negb (value_type =? kTypeSingleDeletion) &&
  negb (value_type =? kTypeBlobIndex) && negb (value_type =? kTypeWideColumnEntity) &&
  negb (value_type =? kTypeValuePreferredSeqno).

Fixpoint SeekForGet_loop (fuel : nat) (it : BlockIter) (target : bytes) (limit : Z) :
    option BlockIter :=
  match fuel with
  | O => None
  | S fuel =>
      if current_ it <? limit then
        let it := set_cur_entry_idx it (cur_entry_idx_ it + 1) in
        let '(it, ok) := parse it in
        if negb ok || (CompareCurrentKey (raw_key_ it) target >=? 0) then Some it
        else SeekForGet_loop fuel it target limit
      else Some it
  end.
Definition SeekForGetImpl (it : BlockIter) (num_buckets : Z) (target : bytes) :
    option (BlockIter * bool) :=
  let target_user_key := ExtractUserKey target in
  let map_offset := restarts_ c + num_restarts_ c * 4 in
  let entry := HashIndex_Lookup num_buckets block_bytes map_offset target_user_key in
  if entry =? kCollision then
    match SeekImpl it target with Some it => Some (it, true) | None => None end
  else
    let restart_index := if entry =? kNoEntry then u8 (num_restarts_ c - 1) else entry in
    let it := SeekToRestartPoint it restart_index in
    let it := set_position it restart_index (GetRestartPoint restart_index) in
    let it := set_cur_entry_idx it (restart_index * entries_per_restart_ c - 1) in
    let limit :=
      if restart_index + 1 <? num_restarts_ c then GetRestartPoint (restart_index + 1)
      else restarts_ c in
    match SeekForGet_loop loop_fuel it target limit with
    | None => None
    | Some it =>
        if current_ it =? restarts_ c then Some (it, true)
        else if negb (Compare (GetUserKey (raw_key_ it)) target_user_key =? 0) then Some (it, false)
        else if conservative_type (ExtractValueType (GetKey (raw_key_ it))) then
          match SeekImpl it target with Some it => Some (it, true) | None => None end
        else Some (it, true)
    end.
Definition SeekForGet (it : BlockIter) (target : bytes) : option (BlockIter * bool) :=
  match hash_buckets_ c with
  | None => match SeekImpl it target with Some it => Some (it, true) | None => None end
  | Some num_buckets => SeekForGetImpl it num_buckets target
  end.

(** * The size of the restart intervals *)

Fixpoint GetRestartInterval_loop (fuel : nat) (it : BlockIter) (end_index count : Z) : option Z :=
  match fuel with
  | O => None
  | S fuel =>
      match status_ it with
      | IterOk =>
          if NextEntryOffset it <? end_index
          then GetRestartInterval_loop fuel (NextImpl it) end_index (count + 1)
          else Some count
      | IterCorruption => Some count
      end
  end.
Definition GetRestartInterval (it : BlockIter) : option Z :=
  if (num_restarts_ c <=? 1) || bool_decide (data_ c = None) then Some 0
  else GetRestartInterval_loop loop_fuel (SeekToFirstImpl it) (GetRestartPoint 1) 1.
Definition NumberOfKeys (it : BlockIter) (block_restart_interval : Z) : option Z :=
  if (num_restarts_ c =? 0) || bool_decide (data_ c = None) then Some 0
  else GetRestartInterval_loop loop_fuel (SeekToRestartPoint it (num_restarts_ c - 1)) (restarts_ c)
         ((num_restarts_ c - 1) * block_restart_interval).
End Iter.

(** * Making iterators *)

Definition MakeIter (current num_restarts empty_slice : Z) (raw_key : IterKey) (status : IterStatus) :
    BlockIter := {|
  restart_index_ := num_restarts; current_ := current; raw_key_ := raw_key;
  value_ := (empty_slice, 0);
  status_ := status; cur_entry_idx_ := -1; prev_entries_keys_buff_ := []; prev_entries_ := [];
  prev_entries_idx_ := -1 |}.

(** The configuration and the first state of a new iterator; [None] for the data
    stands for an iterator that was invalidated. *)
Definition new_iterator {C : Comparator} (b : Block) (global_seqno : Z) (persisted is_user_key : bool)
    (block_restart_interval empty_slice : Z) : BlockConfig * BlockIter :=
  let ok := negb (size_ b <? 2 * 4) && negb (block_num_restarts_ b =? 0) in
  ({| data_ := if ok then Some (contents_ b) else None;
      restarts_ := if ok then restart_offset_ b else 0;
      num_restarts_ := if ok then block_num_restarts_ b else 0;
      global_seqno_ := global_seqno; ts_sz_ := timestamp_size;
      pad_min_timestamp_ := (timestamp_size >? 0) && negb persisted;
      entries_per_restart_ := block_restart_interval;
      hash_buckets_ := if num_buckets_ b =? 0 then None else Some (num_buckets_ b);
      empty_slice := empty_slice |},
   MakeIter (if ok then restart_offset_ b else 0) (if ok then block_num_restarts_ b else 0) empty_slice
     (SetIsUserKey MakeIterKey is_user_key)
     (if size_ b <? 2 * 4 then IterCorruption else IterOk)).
Definition NewDataIterator {C : Comparator} (b : Block) (global_seqno : Z) (persisted : bool)
    (block_restart_interval empty_slice : Z) : BlockConfig * BlockIter :=
  new_iterator b global_seqno persisted false block_restart_interval empty_slice.
Definition NewMetaIterator (b : Block) (block_restart_interval empty_slice : Z) :
    BlockConfig * BlockIter :=
  new_iterator (C := BytewiseComparatorImpl) b kDisableGlobalSequenceNumber true true
    block_restart_interval empty_slice.
