(* ===== verification/BlockCursor.v ===== *)
(** The iterators of a well-formed block are cursors over its entries: the operations of
    DataBlockIter and MetaBlockIter (BlockIter.v) implement the cursor of Cursor.v. *)

From S2P Require Import Prelude Cursor Coding Hash Comparator DbFormat IterKey BlockBuilder BlockIter.

(** An entry of a block: where it starts, where the bytes of its key start, how many
    bytes it shares with the previous key, its key as stored, and its value. *)
Record entry := { e_off : Z; e_ptr : Z; e_shared : Z; e_key : bytes; e_val : bytes }.
Definition e_unshared (e : entry) : Z := slen (e_key e) - e_shared e.
Definition e_slice (e : entry) : Z * Z := (e_ptr e + e_unshared e, slen (e_val e)).

(** Where entry [i] starts; the entries end where the restart array starts. *)
Definition off_at (c : BlockConfig) (es : list entry) (i : nat) : Z :=
  match es !! i with Some e => e_off e | None => restarts_ c end.

(** The key an iterator shows for a stored key. *)
Definition shown_key (pad is_user : bool) (key : bytes) : bytes :=
  if pad then
    if is_user then key ++ sfill 8 Byte.x00 else PadInternalKeyWithMinTimestamp [] key 8
  else key.

(** The entries [es] are what the block of [c] contains, with a restart point every [I]
    entries. *)
Record wf_block (c : BlockConfig) (decode : DecodeEntryFunc) (is_user : bool) (I : nat)
    (es : list entry) : Prop := {
  wf_data : is_Some (data_ c);
  wf_num : 1 <= num_restarts_ c < 2 ^ 31;
  wf_size : 0 <= restarts_ c < 2 ^ 31;
  wf_interval : (1 <= I)%nat;
  wf_decode i e : es !! i = Some e ->
    decode (block_bytes c) (e_off e) (restarts_ c) =
      Some (e_ptr e, e_shared e, e_unshared e, slen (e_val e)) /\
    DecodeEntry (block_bytes c) (e_off e) (restarts_ c) =
      Some (e_ptr e, e_shared e, e_unshared e, slen (e_val e));
  wf_slices i e : es !! i = Some e ->
    slice_at c (e_ptr e) (e_unshared e) = sdrop (e_shared e) (e_key e) /\
    slice_at c (e_slice e).1 (e_slice e).2 = e_val e;
  wf_next i e : es !! i = Some e ->
    (0 <= e_off e /\ e_off e + 3 <= off_at c es (S i)) /\ off_at c es (S i) = e_ptr e + e_unshared e + slen (e_val e);
  wf_shared i e : es !! i = Some e -> 0 <= e_shared e <= slen (e_key e);
  wf_prefix i e e' : es !! i = Some e -> es !! S i = Some e' ->
    e_shared e' <= slen (e_key e) /\
    stake (e_shared e') (e_key e') = stake (e_shared e') (e_key e);
  wf_first : off_at c es 0 = 0;
  wf_restart (r : nat) : Z.of_nat r < num_restarts_ c ->
    GetRestartPoint c (Z.of_nat r) = off_at c es (r * I) /\
    (forall e, es !! (r * I)%nat = Some e -> e_shared e = 0);
  wf_cover (r : nat) : es <> [] -> Z.of_nat r < num_restarts_ c -> (r * I < length es)%nat;
  wf_pad : pad_min_timestamp_ c = true -> ts_sz_ c = 8 /\
    forall i e, es !! i = Some e -> slen (e_key e) < 2 ^ 32 /\ (is_user = false -> 8 <= slen (e_key e));
}.

Arguments wf_data {c decode is_user I es} _.
Arguments wf_num {c decode is_user I es} _.
Arguments wf_size {c decode is_user I es} _.
Arguments wf_interval {c decode is_user I es} _.
Arguments wf_decode {c decode is_user I es} _.
Arguments wf_slices {c decode is_user I es} _.
Arguments wf_next {c decode is_user I es} _.
Arguments wf_shared {c decode is_user I es} _.
Arguments wf_prefix {c decode is_user I es} _.
Arguments wf_first {c decode is_user I es} _.
Arguments wf_restart {c decode is_user I es} _.
Arguments wf_cover {c decode is_user I es} _.
Arguments wf_pad {c decode is_user I es} _.

(** * The operations of an iterator *)

(** The operations of the cursor; [meta] is for [MetaBlockIter]. *)
Definition run_op {C : Comparator} (c : BlockConfig) (decode : DecodeEntryFunc) (meta : bool)
    (it : BlockIter) (op : iter_op) : option BlockIter :=
  let Prev := if meta then Meta_PrevImpl c decode else PrevImpl c decode in
  match op with
  | OpSeekToFirst => Some (SeekToFirstImpl c decode it)
  | OpSeekToLast => SeekToLastImpl c decode it
  | OpNext => Some (NextImpl c decode it)
  | OpPrev => Prev it
  | OpSeek t => SeekImpl c decode it t
  | OpSeekForPrev t => SeekForPrevImpl c decode Prev it t
  end.
Definition run_ops {C : Comparator} (c : BlockConfig) (decode : DecodeEntryFunc) (meta : bool)
    (it : BlockIter) (ops : list iter_op) : option BlockIter :=
  iterate_ops (run_op c decode meta) it ops.

Section Cursor.
Context {C : Comparator} (c : BlockConfig) (decode : DecodeEntryFunc) (is_user : bool) (I : nat)
  (es : list entry) (W : wf_block c decode is_user I es).

Abbreviation off := (off_at c es).
Abbreviation shown := (shown_key (pad_min_timestamp_ c) is_user).

Lemma off_lookup i e : es !! i = Some e -> off i = e_off e.
Proof. unfold off_at. by intros ->. Qed.

Lemma off_end : off (length es) = restarts_ c.
Proof. unfold off_at. by rewrite lookup_ge_None_2. Qed.

Lemma off_step i : (i < length es)%nat -> 0 <= off i /\ off i + 3 <= off (S i).
Proof.
  intros [e He]%lookup_lt_is_Some_2. rewrite (off_lookup i e) by done. by apply (wf_next W).
Qed.

Lemma off_mono i j : (i < j <= length es)%nat -> off i < off j.
Proof.
  induction j as [| j IH]; [lia |]. intros Hij. pose proof (off_step j ltac:(lia)).
  destruct (decide (i = j)) as [-> |]; [lia |]. specialize (IH ltac:(lia)). lia.
Qed.

Lemma off_inj i j : (i <= length es)%nat -> (j <= length es)%nat -> off i = off j -> i = j.
Proof.
  intros Hi Hj E. destruct (Nat.lt_total i j) as [H | [H | H]]; [| done |].
  - pose proof (off_mono i j). lia.
  - pose proof (off_mono j i). lia.
Qed.

Lemma off_le_restarts i : 0 <= off i <= restarts_ c.
Proof.
  pose proof (wf_size W). destruct (decide (i < length es)%nat) as [Hi | Hi].
  - pose proof (off_mono i (length es) ltac:(lia)). rewrite off_end in *.
    pose proof (off_step i Hi). lia.
  - unfold off_at. rewrite lookup_ge_None_2 by lia. lia.
Qed.

(** The number of entries is bounded by the number of bytes. *)
Lemma length_le_off i : (i <= length es)%nat -> 3 * Z.of_nat i <= off i.
Proof.
  induction i as [| i IH]; intros Hi; [pose proof (off_le_restarts 0); lia |].
  pose proof (off_step i ltac:(lia)). specialize (IH ltac:(lia)). lia.
Qed.

Lemma fuel_enough : (3 * length es < loop_fuel c)%nat.
Proof.
  pose proof (length_le_off (length es) ltac:(lia)). rewrite off_end in *. unfold loop_fuel. lia.
Qed.

(** * States *)

(** The key buffer can be used for delta decoding: without padding the secondary buffer
    is never used. *)
Definition raw_ok (k : IterKey) : Prop :=
  iter_key_wf k /\ is_user_key_ k = is_user /\
  (pad_min_timestamp_ c = false -> key_ k <> InSecondaryBuf).

(** The key of a cached entry. *)
Definition cached_key (buff : bytes) (ce : CachedPrevEntry) : bytes :=
  match key_ptr ce with
  | Some key => stake (key_size ce) key
  | None => stake (key_size ce) (sdrop (key_offset ce) buff)
  end.
Definition cache_entry_ok (buff : bytes) (ce : CachedPrevEntry) (e : entry) : Prop :=
  offset ce = e_off e /\ cached_value ce = e_slice e /\ cached_key buff ce = shown (e_key e) /\
  (key_ptr ce = None -> 0 <= key_offset ce /\ key_offset ce + key_size ce <= slen buff).

(** The cache of [Prev] holds consecutive entries of the block. *)
Definition cache_from (it : BlockIter) (j0 : nat) : Prop :=
  forall m ce, prev_entries_ it !! m = Some ce ->
    exists e, es !! (j0 + m)%nat = Some e /\ cache_entry_ok (prev_entries_keys_buff_ it) ce e.
Definition cache_ok (it : BlockIter) : Prop := exists j0, cache_from it j0.

Definition sane (it : BlockIter) : Prop :=
  raw_ok (raw_key_ it) /\ status_ it = IterOk /\ cache_ok it.

(** The iterator is at entry [i]. *)
Definition at_entry (it : BlockIter) (i : nat) : Prop :=
  sane it /\ 0 <= restart_index_ it < num_restarts_ c /\
  exists e, es !! i = Some e /\ current_ it = e_off e /\ value_ it = e_slice e /\
    GetKey (raw_key_ it) = shown (e_key e).

(** The next entry to parse is [i]. *)
Definition ready (it : BlockIter) (i : nat) : Prop :=
  sane it /\ 0 <= restart_index_ it < num_restarts_ c /\ NextEntryOffset it = off i /\
  forall e, es !! i = Some e -> e_shared e <> 0 ->
    exists j e', i = S j /\ es !! j = Some e' /\ GetKey (raw_key_ it) = shown (e_key e').

(** No entry: the iterator is not valid, and reports no error. *)
Definition at_end (it : BlockIter) : Prop := sane it /\ current_ it = restarts_ c.

Lemma at_entry_valid it i : at_entry it i -> Valid c it = true.
Proof.
  unfold Valid. intros (_ & _ & e & He & -> & _). apply Z.ltb_lt.
  pose proof (lookup_lt_Some _ _ _ He). pose proof (off_mono i (length es) ltac:(lia)) as H1.
  by rewrite off_end, (off_lookup i e) in H1.
Qed.

Lemma at_end_invalid it : at_end it -> Valid c it = false.
Proof. intros [_ E]. unfold Valid. rewrite E. apply Z.ltb_irrefl. Qed.

Lemma u32_off i : u32 (off i) = off i.
Proof.
  apply wrap_small. pose proof (off_le_restarts i). pose proof (wf_size W).
  unfold fits. lia.
Qed.

Lemma at_entry_next it i : at_entry it i -> NextEntryOffset it = off (S i).
Proof.
  intros (_ & _ & e & He & _ & Hv & _). unfold NextEntryOffset. rewrite Hv.
  destruct (wf_next W i e He) as [_ E]. unfold e_slice. cbn [fst snd].
  rewrite <- E. apply u32_off.
Qed.

Lemma at_entry_ready it i : at_entry it i -> ready it (S i).
Proof.
  intros H. pose proof (at_entry_next it i H) as HN.
  destruct H as (Hs & Hr & e & He & _ & _ & Hk). split_and!; [done | lia | lia | done |].
  intros e' He' _. by exists i, e.
Qed.

(** * Parsing an entry *)

Lemma raw_ok_holds k key : holds k is_user key ->
  (pad_min_timestamp_ c = false -> key_ k <> InSecondaryBuf) -> raw_ok k /\ GetKey k = key.
Proof. intros (? & ? & ?) ?. done. Qed.

Lemma is_user_cases : is_user = true \/ is_user = false.
Proof. destruct is_user; auto. Qed.

Lemma update_raw_key k e i : raw_ok k -> es !! i = Some e ->
  let k' := UpdateRawKeyAndMaybePadMinTimestamp c k (e_key e) in
  raw_ok k' /\ GetKey k' = shown (e_key e).
Proof.
  intros (_ & Hu & _) He. cbv zeta. unfold UpdateRawKeyAndMaybePadMinTimestamp, shown_key.
  destruct (pad_min_timestamp_ c) eqn:Hp.
  - destruct (wf_pad W Hp) as [-> H8]. destruct (H8 i e He) as [_ Hk8].
    apply raw_ok_holds; [| congruence]. destruct is_user_cases as [Eu | Eu]; rewrite Eu in *.
    + by apply SetKeyWithPadded_user.
    + apply SetKeyWithPadded_internal; auto.
  - apply raw_ok_holds; [| done]. rewrite <- Hu. apply SetKeyImpl_slice_holds.
Qed.

Lemma strip_shown key : 8 <= slen key ->
  StripTimestampFromInternalKey [] (PadInternalKeyWithMinTimestamp [] key 8) 8 = key.
Proof.
  intros H8. unfold PadInternalKeyWithMinTimestamp. cbv zeta.
  rewrite app_nil_l, PadInternalKey_shape by done.
  assert (Hf : fits 64 (ExtractInternalKeyFooter key)) by apply DecodeFixed64_fits.
  destruct (strip_pad (ExtractUserKey key) (sfill 8 Byte.x00) _ Hf) as [E _].
  rewrite slen_sfill in E. change (Z.max 0 8) with 8 in E. rewrite E. symmetry. by apply key_shape.
Qed.

Lemma slen_shown key : pad_min_timestamp_ c = true -> (is_user = false -> 8 <= slen key) ->
  slen (shown key) = slen key + 8.
Proof.
  intros Hp H8. unfold shown_key. rewrite Hp.
  destruct is_user_cases as [Eu | Eu]; rewrite Eu in *; [slia |]. unfold PadInternalKeyWithMinTimestamp, kNumInternalBytes. specialize (H8 eq_refl). slia.
Qed.

Lemma slen_shown_ge i e : es !! i = Some e -> slen (e_key e) <= slen (shown (e_key e)).
Proof.
  intros He. destruct (pad_min_timestamp_ c) eqn:Hp; [| done].
  destruct (wf_pad W Hp) as [_ Hpad]. pose proof (slen_shown (e_key e) Hp (proj2 (Hpad i e He))) as E.
  rewrite Hp in E. lia.
Qed.

Lemma trim_raw_key k i e e' : raw_ok k -> es !! i = Some e -> es !! S i = Some e' ->
  GetKey k = shown (e_key e) ->
  let data := sdrop (e_shared e') (e_key e') in
  let k' := if pad_min_timestamp_ c then TrimAppendWithTimestamp k (e_shared e') data (ts_sz_ c)
            else TrimAppend k (e_shared e') data in
  raw_ok k' /\ GetKey k' = shown (e_key e').
Proof.
  intros (Hw & Hu & Hloc) He He' Hk. cbv zeta.
  destruct (wf_prefix W i e e' He He') as [Hle Hpre]. pose proof (wf_shared W _ e' He') as Hsh.
  assert (Hsz := slen_GetKey k Hw). rewrite Hk in Hsz.
  destruct (pad_min_timestamp_ c) eqn:Hp.
  - destruct (wf_pad W Hp) as [Hts Hpad]. rewrite Hts.
    destruct (Hpad _ _ He) as [Hlt H8]. destruct (Hpad _ _ He') as [Hlt' H8'].
    pose proof (slen_shown (e_key e) Hp H8) as Hss. rewrite Hp in Hss.
    apply raw_ok_holds; [| congruence]. unfold shown_key in *.
    destruct is_user_cases as [Eu | Eu]; rewrite Eu in *.
    + pose proof (TrimAppendWithTimestamp_user k (e_shared e') (sdrop (e_shared e') (e_key e')) Hw Hu) as H.
      rewrite Hk, stake_app_exact, <- Hpre in H by lia. rewrite app_assoc, stake_sdrop in H.
      apply H; lia.
    + specialize (H8 eq_refl). specialize (H8' eq_refl).
      pose proof (TrimAppendWithTimestamp_internal k (e_shared e') (sdrop (e_shared e') (e_key e')) Hw Hu) as H.
      rewrite Hk, strip_shown, <- Hpre, stake_sdrop in H by done. rewrite slen_sdrop in H. apply H; lia.
  - apply raw_ok_holds; [| intros _; done]. rewrite <- Hu.
    pose proof (TrimAppend_holds k (e_shared e') (sdrop (e_shared e') (e_key e')) Hw) as H.
    unfold shown_key in *. rewrite Hk, <- Hpre, stake_sdrop in H. apply H; [lia | auto].
Qed.

Lemma advance_restart_bounds fuel r cur : 0 <= r < num_restarts_ c ->
  0 <= advance_restart c fuel r cur < num_restarts_ c.
Proof.
  revert r. induction fuel as [| fuel IH]; intros r Hr; cbn [advance_restart]; [done |].
  destruct (r + 1 <? num_restarts_ c) eqn:E; [| done]. bool_to_prop.
  destruct (_ <? cur); [apply IH; lia | done].
Qed.

(** The parts of the state that parsing does not change. *)
Definition same_cache (it it' : BlockIter) : Prop :=
  cur_entry_idx_ it' = cur_entry_idx_ it /\ prev_entries_ it' = prev_entries_ it /\
  prev_entries_keys_buff_ it' = prev_entries_keys_buff_ it /\
  prev_entries_idx_ it' = prev_entries_idx_ it.

Lemma same_cache_sane it it' : same_cache it it' -> sane it -> raw_ok (raw_key_ it') ->
  status_ it' = status_ it -> sane it'.
Proof.
  intros (_ & E1 & E2 & _) (_ & Hs & Hc) Hr Hst. split_and!; [done.. | congruence |].
  destruct Hc as [j0 Hc]. exists j0. unfold cache_from. by rewrite E1, E2.
Qed.

Lemma parse_end it : ready it (length es) ->
  exists it', parse c decode it = (it', false) /\ at_end it' /\ same_cache it it'.
Proof.
  intros (Hs & _ & HN & _). unfold parse, ParseNextKey. rewrite HN, off_end.
  rewrite Z.geb_leb, Z.leb_refl. eexists. split; [done |].
  assert (Hc : same_cache it (set_position it (num_restarts_ c) (restarts_ c))) by done.
  split; [| done]. split; [| done]. apply (same_cache_sane it); [done.. | apply Hs | done].
Qed.

Lemma parse_entry it i : (i < length es)%nat -> ready it i ->
  exists it', parse c decode it = (it', true) /\ at_entry it' i /\ same_cache it it'.
Proof.
  intros Hi (Hs & Hr & HN & Hprev). destruct (lookup_lt_is_Some_2 _ _ Hi) as [e He].
  destruct (wf_decode W i e He) as [Hd _]. destruct (wf_slices W i e He) as [Hsl _].
  pose proof (wf_shared W i e He) as Hsh.
  pose proof (off_mono i (length es) ltac:(lia)) as Hlt. rewrite off_end in Hlt.
  unfold parse, ParseNextKey. rewrite HN. cbv zeta. rewrite Z.geb_leb.
  case Z.leb_spec; [lia | intros _]. rewrite (off_lookup i e He), Hd.
  cbn [raw_key_ set_position restart_index_]. unfold Size.
  destruct (Z.eqb_spec (e_shared e) 0) as [H0 | H0].
  - rewrite H0. case Z.ltb_spec; intros Hz; [destruct Hs as ((Hw & _) & _); unfold iter_key_wf in Hw; lia |].
    rewrite Hsl, H0, sdrop_le0 by lia.
    destruct (update_raw_key (raw_key_ it) e i) as [Hraw Hkey]; [apply Hs | done |].
    eexists. split; [done |]. split; [| done].
    pose proof (advance_restart_bounds (Z.to_nat (num_restarts_ c)) (restart_index_ it) (e_off e) Hr) as Hadv.
    split_and!; [by apply (same_cache_sane it) | apply Hadv.. |]. by exists e.
  - destruct (Hprev e He H0) as (j & e' & -> & He' & Hk).
    destruct (wf_prefix W j e' e He' He) as [Hle _].
    destruct Hs as (Hraw & Hst & Hca). pose proof (slen_GetKey _ (proj1 Hraw)) as Hsz.
    rewrite Hk in Hsz. pose proof (slen_shown_ge j e' He').
    case Z.ltb_spec; intros Hz; [lia |]. rewrite Hsl.
    destruct (trim_raw_key (raw_key_ it) j e' e Hraw He' He Hk) as [Hraw' Hkey'].
    eexists. split; [done |]. split; [| done].
    split_and!; [by apply (same_cache_sane it) | apply Hr.. |]. by exists e.
Qed.

Lemma nonempty i : (i < length es)%nat -> es <> [].
Proof. intros Hi E. rewrite E in Hi. simpl in Hi. lia. Qed.

(** * Moving forwards *)

(** The iterator knows how many entries a restart interval has, or there is only one. *)
Definition interval_known : Prop := entries_per_restart_ c = Z.of_nat I \/ num_restarts_ c = 1.

(** The abstract cursor: at an entry, or at none. *)
Definition cursor_at (i : nat) : option nat := clip (length es) i.
Definition shows (it : BlockIter) (o : option nat) : Prop :=
  match o with
  | Some i => at_entry it i /\ (interval_known -> cur_entry_idx_ it = Z.of_nat i)
  | None => at_end it
  end.

Lemma shows_sane it o : shows it o -> sane it.
Proof. destruct o; [intros [[? _] _] | intros [? _]]; done. Qed.

Lemma parse_any it i : (i <= length es)%nat -> ready it i ->
  exists it', parse c decode it = (it', bool_decide (i < length es)%nat) /\ same_cache it it' /\
    if decide (i < length es)%nat then at_entry it' i else at_end it'.
Proof.
  intros Hi Hr. destruct (decide (i < length es)%nat) as [Hlt | Hge].
  - rewrite bool_decide_eq_true_2 by done.
    destruct (parse_entry it i Hlt Hr) as (it' & ? & ? & ?). by exists it'.
  - rewrite bool_decide_eq_false_2 by done. replace i with (length es) in Hr by lia.
    destruct (parse_end it Hr) as (it' & ? & ? & ?). by exists it'.
Qed.

Lemma NextImpl_ready it i : (i <= length es)%nat -> ready it i ->
  (interval_known -> cur_entry_idx_ it = Z.of_nat i - 1) ->
  shows (NextImpl c decode it) (cursor_at i).
Proof.
  intros Hi Hr Hx. destruct (parse_any it i Hi Hr) as (it' & E & (Hc & _) & Hit).
  unfold NextImpl, cursor_at, clip. rewrite E. cbn [fst].
  destruct (decide (i < length es)%nat); [| done].
  split; [done |]. intros Hk. cbn [cur_entry_idx_ set_cur_entry_idx]. rewrite Hc, Hx by done. lia.
Qed.

Lemma Next_shows it i : shows it (Some i) -> shows (NextImpl c decode it) (cursor_at (S i)).
Proof.
  intros [Ha Hx]. assert (Hi : (i < length es)%nat).
  { destruct Ha as (_ & _ & e & He & _). by apply lookup_lt_Some in He. }
  apply NextImpl_ready; [lia | by apply at_entry_ready |]. intros Hk. rewrite Hx by done. lia.
Qed.

Lemma restart_ready it (r : nat) : sane it -> Z.of_nat r < num_restarts_ c ->
  ready (SeekToRestartPoint c it (Z.of_nat r)) (r * I).
Proof.
  intros ((Hw & Hu & Hloc) & Hst & Hca) Hr. destruct (wf_restart W r Hr) as [Eo H0].
  split_and!; cbn [restart_index_ SeekToRestartPoint set_entry set_position]; [| lia | lia | |].
  - split_and!; [| done..]. split_and!; [| done..].
    unfold iter_key_wf in *. cbn [key_size_ raw_key_ SeekToRestartPoint set_entry Clear]. unfold key_memory.
    slen_facts. simpl. unfold key_memory in *. lia.
  - unfold NextEntryOffset. cbn [value_ SeekToRestartPoint set_entry fst snd].
    rewrite Z.add_0_r, Eo. apply u32_off.
  - intros e He Hne. destruct Hne. eauto.
Qed.

Lemma num_positive : 0 < num_restarts_ c.
Proof. pose proof (wf_num W). lia. Qed.

Lemma SeekToFirst_shows it : sane it ->
  shows (SeekToFirstImpl c decode it) (cursor_at 0).
Proof.
  intros Hs. unfold SeekToFirstImpl. destruct (wf_data W) as [d Hd]. rewrite Hd.
  pose proof (restart_ready it 0 Hs num_positive) as Hr.
  change (Z.of_nat 0) with 0 in Hr. change (0 * I)%nat with 0%nat in Hr.
  destruct (parse_any _ _ (Nat.le_0_l _) Hr) as (it' & E & _ & Hit). rewrite E. unfold cursor_at, clip.
  by destruct (decide (0 < length es)%nat).
Qed.

Lemma SeekToLast_loop_end fuel : forall it i, (i < length es)%nat -> (length es - i < fuel)%nat ->
  ready it i -> exists it', SeekToLast_loop c decode fuel it = Some it' /\
    at_entry it' (length es - 1) /\
    cur_entry_idx_ it' = cur_entry_idx_ it + (Z.of_nat (length es) - 1 - Z.of_nat i).
Proof.
  induction fuel as [| fuel IH]; intros it i Hi Hf Hr; [lia |]. cbn [SeekToLast_loop].
  destruct (parse_entry it i Hi Hr) as (it' & -> & Ha & Hc & _). cbn [andb].
  rewrite (at_entry_next it' i Ha). destruct (decide (S i = length es)) as [E | Hne].
  - rewrite E, off_end, Z.ltb_irrefl. exists it'.
    replace (length es - 1)%nat with i by lia. split_and!; [done.. | rewrite Hc; lia].
  - pose proof (off_mono (S i) (length es) ltac:(lia)) as Hm. rewrite off_end in Hm.
    apply Z.ltb_lt in Hm. rewrite Hm.
    destruct (IH (set_cur_entry_idx it' (cur_entry_idx_ it' + 1)) (S i)) as (it2 & E & Ha2 & Hc2);
      [lia.. | exact (at_entry_ready it' i Ha) |].
    exists it2. split_and!; [done.. |]. rewrite Hc2. cbn [cur_entry_idx_ set_cur_entry_idx].
    rewrite Hc. lia.
Qed.

(** Entry numbers of restart points, as the iterator computes them. *)
Lemma restart_index_known (r : nat) : interval_known -> Z.of_nat r < num_restarts_ c ->
  Z.of_nat r * entries_per_restart_ c = Z.of_nat (r * I).
Proof. intros [-> | E] Hr; [lia |]. replace r with 0%nat by lia. lia. Qed.

Lemma SeekToLast_shows it : sane it ->
  exists it', SeekToLastImpl c decode it = Some it' /\ shows it' (cursor_at (length es - 1)).
Proof.
  intros Hs. unfold SeekToLastImpl. destruct (wf_data W) as [d Hd]. rewrite Hd.
  pose proof num_positive as Hn. set (r := Z.to_nat (num_restarts_ c - 1)).
  replace (num_restarts_ c - 1) with (Z.of_nat r) by lia.
  pose proof (restart_ready it r Hs ltac:(lia)) as Hr.
  set (it1 := set_cur_entry_idx _ _). change (ready it1 (r * I)) in Hr.
  unfold cursor_at, clip. destruct (decide (length es - 1 < length es)%nat) as [Hlt | Hge].
  - assert (Hrl : (r * I < length es)%nat) by (apply (wf_cover W); [by apply (nonempty (length es - 1)) | lia]).
    pose proof fuel_enough.
    destruct (SeekToLast_loop_end (loop_fuel c) it1 (r * I)) as (it' & -> & Ha & Hx); [lia.. | done |].
    exists it'. split; [done |]. split; [done |]. intros Hk. rewrite Hx. cbn [cur_entry_idx_ it1 set_cur_entry_idx].
    rewrite restart_index_known by (done || lia). lia.
  - assert (Hz : length es = 0%nat) by lia. unfold loop_fuel. cbn [SeekToLast_loop].
    assert (Hr0 : ready it1 (length es)).
    { destruct Hr as (Hs1 & Hri & HN & _). split_and!; [apply Hs1 | apply Hri.. | |].
      - rewrite HN. unfold off_at. by rewrite !lookup_ge_None_2 by lia.
      - intros e He. apply lookup_lt_Some in He. lia. }
    destruct (parse_end it1 Hr0) as (it' & -> & Ha & _). by exists it'.
Qed.

(** * Moving backwards *)

Lemma restart_before_spec i : (i <= length es)%nat -> forall r0 : nat, Z.of_nat r0 < num_restarts_ c ->
  (i = 0%nat -> restart_before c r0 (off i) = None) /\
  ((0 < i)%nat -> exists r : nat, restart_before c r0 (off i) = Some (Z.of_nat r) /\
    Z.of_nat r < num_restarts_ c /\ (r * I < i)%nat).
Proof.
  intros Hi. induction r0 as [| r0 IH]; intros Hr; cbn [restart_before];
    destruct (wf_restart W _ Hr) as [-> _]; rewrite Z.geb_leb.
  - change (0 * I)%nat with 0%nat. split; [intros ->; by rewrite Z.leb_refl |].
    intros Hpos. pose proof (off_mono 0 i ltac:(lia)) as Hm. apply Z.leb_gt in Hm. rewrite Hm.
    exists 0%nat. split_and!; [done | lia..].
  - destruct (IH ltac:(lia)) as [IH0 IH1]. pose proof (wf_cover W (S r0)) as Hcov. split.
    + intros ->. pose proof (off_le_restarts (S r0 * I)). rewrite (wf_first W) in *.
      case Z.leb_spec; intros; [auto | lia].
    + intros Hpos. case Z.leb_spec; intros Hle; [auto |]. exists (S r0). split_and!; [done | lia |].
      specialize (Hcov (nonempty (i - 1) ltac:(lia)) Hr).
      destruct (Nat.lt_trichotomy (S r0 * I) i) as [| [<- | Hgt]]; [done | lia |].
      pose proof (off_mono i (S r0 * I) ltac:(lia)). lia.
Qed.

Lemma Prev_loop_end fuel : forall it k i, (k < i <= length es)%nat -> (i - k < fuel)%nat -> ready it k ->
  exists it', Prev_loop c decode fuel it (off i) = Some it' /\ at_entry it' (i - 1) /\
    cur_entry_idx_ it' = cur_entry_idx_ it.
Proof.
  induction fuel as [| fuel IH]; intros it k i Hk Hf Hr; [lia |]. cbn [Prev_loop].
  destruct (parse_entry it k ltac:(lia) Hr) as (it' & -> & Ha & Hc & _). cbn [andb].
  rewrite (at_entry_next it' k Ha). destruct (decide (S k = i)) as [<- | Hne].
  - rewrite Z.ltb_irrefl. exists it'. replace (S k - 1)%nat with k by lia. done.
  - pose proof (off_mono (S k) i ltac:(lia)) as Hm. apply Z.ltb_lt in Hm. rewrite Hm.
    destruct (IH it' (S k) i) as (it2 & -> & Ha2 & Hc2); [lia.. | by apply at_entry_ready |].
    exists it2. split_and!; [done.. | congruence].
Qed.

Lemma Meta_Prev_shows it i : shows it (Some i) ->
  exists it', Meta_PrevImpl c decode it = Some it' /\
    shows it' (if decide (i = 0)%nat then None else Some (i - 1)%nat).
Proof.
  intros [Ha Hx]. assert (Ha' := Ha). destruct Ha' as (Hs & Hri & e & He & Hcur & _).
  pose proof (lookup_lt_Some _ _ _ He) as Hi. unfold Meta_PrevImpl.
  rewrite Hcur, <- (off_lookup i e He).
  destruct (restart_before_spec i ltac:(lia) (Z.to_nat (restart_index_ it)) ltac:(lia)) as [H0 H1].
  destruct (decide (i = 0)%nat) as [E | Hne].
  - rewrite H0 by done. eexists. split; [done |]. by split; [apply Hs |].
  - destruct H1 as (r & -> & Hr & Hlt); [lia |]. pose proof fuel_enough.
    destruct (Prev_loop_end (loop_fuel c) (SeekToRestartPoint c it (Z.of_nat r)) (r * I) i)
      as (it' & -> & Ha' & Hc'); [lia.. | by apply restart_ready |].
    eexists. split; [done |]. split; [done |]. intros Hk. cbn [cur_entry_idx_ set_cur_entry_idx].
    rewrite Hc'. cbn [cur_entry_idx_ SeekToRestartPoint set_entry set_position]. rewrite Hx by done. lia.
Qed.

(** A longer key buffer does not change what is cached. *)
Lemma cache_entry_extend buff x ce e : cache_entry_ok buff ce e -> cache_entry_ok (buff ++ x) ce e.
Proof.
  intros (H1 & H2 & H3 & H4). split_and!; [done | done | | intros E; specialize (H4 E); slia].
  rewrite <- H3. unfold cached_key. destruct (key_ptr ce); [done |]. specialize (H4 eq_refl).
  destruct (Z.le_gt_cases (key_size ce) 0) as [Hz | Hz]; [by rewrite !stake_le0 by lia |].
  rewrite sdrop_app_le by lia. apply stake_app_le. slia.
Qed.

Lemma cache_current_ok it k0 k : at_entry it k -> cache_from it k0 ->
  (k0 + length (prev_entries_ it) = k)%nat ->
  at_entry (cache_current it) k /\ cache_from (cache_current it) k0 /\
  (k0 + length (prev_entries_ (cache_current it)) = S k)%nat /\
  cur_entry_idx_ (cache_current it) = cur_entry_idx_ it.
Proof.
  intros ((Hraw & Hst & _) & Hri & e & He & Hcur & Hv & Hk) Hc Hl.
  assert (Hnew : cache_from (cache_current it) k0 /\
    (k0 + length (prev_entries_ (cache_current it)) = S k)%nat).
  { unfold cache_current. destruct (IsKeyPinned (raw_key_ it)); cbn [prev_entries_ set_prev_entries];
      rewrite length_app; cbn [length]; (split; [| lia]); intros m ce Hm;
      cbn [prev_entries_ prev_entries_keys_buff_ set_prev_entries] in *;
      apply lookup_app_Some in Hm as [Hm | [Hge Hm]].
    - apply Hc, Hm.
    - apply list_lookup_singleton_Some in Hm as [Hm <-]. exists e. replace (k0 + m)%nat with k by lia.
      split; [done |]. split_and!; [done.. | | done].
      unfold cached_key. cbn [key_ptr key_size]. by rewrite stake_ge by lia.
    - destruct (Hc m ce Hm) as (e' & He' & Hok). exists e'. split; [done |]. by apply cache_entry_extend.
    - apply list_lookup_singleton_Some in Hm as [Hm <-]. exists e. replace (k0 + m)%nat with k by lia.
      split; [done |]. split_and!; [done.. | | cbn [key_offset key_size]; intros; slia].
      unfold cached_key. cbn [key_ptr key_size key_offset]. rewrite sdrop_app_exact, stake_ge by lia.
      done. }
  destruct Hnew as [Hn1 Hn2]. unfold cache_current in *.
  destruct (IsKeyPinned (raw_key_ it));
    (split_and!; [| done..]; split; [split_and!; [done.. | by exists k0] | by split; [| exists e]]).
Qed.

Lemma Prev_cache_loop_end fuel : forall it k0 k i, (k < i <= length es)%nat -> (i - k < fuel)%nat ->
  ready it k -> cache_from it k0 -> (k0 + length (prev_entries_ it) = k)%nat ->
  exists it', Prev_cache_loop c decode fuel it (off i) = Some it' /\ at_entry it' (i - 1) /\
    cur_entry_idx_ it' = cur_entry_idx_ it.
Proof.
  induction fuel as [| fuel IH]; intros it k0 k i Hk Hf Hr Hc Hl; [lia |]. cbn [Prev_cache_loop].
  destruct (parse_entry it k ltac:(lia) Hr) as (it1 & -> & Ha & Hsc). cbn [negb].
  destruct Hsc as (Hx & E1 & E2 & _).
  destruct (cache_current_ok it1 k0 k Ha) as (Ha2 & Hc2 & Hl2 & Hx2);
    [intros m ce; rewrite E1, E2; apply Hc | by rewrite E1 |].
  rewrite (at_entry_next _ k Ha2). destruct (decide (S k = i)) as [<- | Hne].
  - rewrite Z.ltb_irrefl. eexists. split; [done |]. replace (S k - 1)%nat with k by lia.
    split; [done | congruence].
  - pose proof (off_mono (S k) i ltac:(lia)) as Hm. apply Z.ltb_lt in Hm. rewrite Hm.
    destruct (IH (cache_current it1) k0 (S k) i) as (it3 & -> & Ha3 & Hx3);
      [lia.. | by apply at_entry_ready | done | done |].
    exists it3. split_and!; [done.. | congruence].
Qed.

(** A cached entry is the entry before the current one. *)
Lemma cached_prev_entry it i ce : at_entry it i -> cached_prev it = Some ce ->
  exists j e, i = S j /\ es !! j = Some e /\ cache_entry_ok (prev_entries_keys_buff_ it) ce e.
Proof.
  intros ((_ & _ & j0 & Hc) & _ & e & He & Hcur & _) Hp. unfold cached_prev in Hp.
  rewrite Z.gtb_ltb in Hp. destruct (Z.ltb_spec 0 (prev_entries_idx_ it)) as [Hpos |]; [| done].
  destruct (prev_entries_ it !! Z.to_nat (prev_entries_idx_ it)) as [ce1 |] eqn:E1; [| done].
  destruct (Z.eqb_spec (offset ce1) (current_ it)) as [Eo |]; [| done].
  destruct (Hc _ _ E1) as (e1 & He1 & Ho1 & _). destruct (Hc _ _ Hp) as (e2 & He2 & Hok).
  pose proof (lookup_lt_Some _ _ _ He). pose proof (lookup_lt_Some _ _ _ He1).
  assert (Ei : i = (j0 + Z.to_nat (prev_entries_idx_ it))%nat).
  { apply off_inj; [lia.. |]. rewrite (off_lookup _ _ He), (off_lookup _ _ He1). congruence. }
  exists (j0 + Z.to_nat (prev_entries_idx_ it - 1))%nat, e2. split_and!; [lia | done | done].
Qed.

Lemma SetKey_raw_ok k key copy : raw_ok k -> raw_ok (SetKey k key copy) /\ GetKey (SetKey k key copy) = key.
Proof.
  intros (_ & Hu & _). apply raw_ok_holds; [rewrite <- Hu; apply SetKeyImpl_slice_holds |].
  intros _. by destruct copy.
Qed.

Lemma PrevImpl_cached it i ce : at_entry it i -> cached_prev it = Some ce ->
  exists it', PrevImpl c decode it = Some it' /\ at_entry it' (i - 1) /\ (0 < i)%nat /\
    cur_entry_idx_ it' = cur_entry_idx_ it - 1.
Proof.
  intros Ha Hp. destruct (cached_prev_entry it i ce Ha Hp) as (j & e & -> & He & Ho & Hv & Hk & _).
  destruct Ha as ((Hraw & Hst & Hc) & Hri & _). unfold PrevImpl.
  change (cached_prev (set_cur_entry_idx it _)) with (cached_prev it). rewrite Hp.
  cbn [prev_entries_keys_buff_ raw_key_ set_cur_entry_idx set_position].
  set (pair := match key_ptr ce with Some key => _ | None => _ end).
  assert (Epair : pair.1 = shown (e_key e)).
  { rewrite <- Hk. unfold pair, cached_key. by destruct (key_ptr ce). }
  destruct pair as [key copy]. cbn [fst] in Epair. subst key.
  destruct (SetKey_raw_ok (raw_key_ it) (shown (e_key e)) copy Hraw) as [Hraw' Hk'].
  eexists. split; [done |]. replace (S j - 1)%nat with j by lia.
  split_and!; [split; [done |]; split; [done |]; by exists e | lia | done].
Qed.

Lemma Prev_shows it i : shows it (Some i) ->
  exists it', PrevImpl c decode it = Some it' /\
    shows it' (if decide (i = 0)%nat then None else Some (i - 1)%nat).
Proof.
  intros [Ha Hx]. destruct (cached_prev it) as [ce |] eqn:Hp.
  { destruct (PrevImpl_cached it i ce Ha Hp) as (it' & -> & Ha' & Hi & Hc). exists it'.
    split; [done |]. destruct (decide (i = 0)%nat); [lia |]. split; [done |].
    intros Hk. rewrite Hc, Hx by done. lia. }
  unfold PrevImpl. change (cached_prev (set_cur_entry_idx it _)) with (cached_prev it). rewrite Hp.
  destruct Ha as ((Hraw & Hst & _) & Hri & e & He & Hcur & _).
  pose proof (lookup_lt_Some _ _ _ He) as Hi.
  set (it1 := set_prev_entries _ [] [] (-1)).
  assert (Hc1 : forall j, cache_from it1 j) by (intros j m ce Hm; discriminate).
  assert (Hs1 : sane it1) by (split_and!; [done | done | by exists 0%nat]).
  change (current_ it1) with (current_ it). change (restart_index_ it1) with (restart_index_ it).
  rewrite Hcur, <- (off_lookup i e He).
  destruct (restart_before_spec i ltac:(lia) (Z.to_nat (restart_index_ it)) ltac:(lia)) as [H0 H1].
  destruct (decide (i = 0)%nat) as [E | Hne].
  - rewrite H0 by done. eexists. split; [done |]. by split.
  - destruct H1 as (r & -> & Hr & Hlt); [lia |]. pose proof fuel_enough.
    destruct (Prev_cache_loop_end (loop_fuel c) (SeekToRestartPoint c it1 (Z.of_nat r)) (r * I) (r * I) i)
      as (it' & -> & Ha' & Hc'); [lia.. | by apply restart_ready | apply Hc1 | simpl; lia |].
    eexists. split; [done |]. split; [done |]. intros Hk.
    change (cur_entry_idx_ it' = Z.of_nat (i - 1)). rewrite Hc'.
    change (cur_entry_idx_ it - 1 = Z.of_nat (i - 1)). rewrite Hx by done. lia.
Qed.

(** * Seeking *)

(** [CompareCurrentKey] as a function of the current key. *)
Definition key_compare (key target : bytes) : Z :=
  if is_user then Compare key target
  else if global_seqno_ c =? kDisableGlobalSequenceNumber then InternalKeyComparator_Compare key target
  else InternalKeyComparator_Compare_seqno key (global_seqno_ c) target kDisableGlobalSequenceNumber.

Lemma CompareCurrentKey_key k t : raw_ok k -> CompareCurrentKey c k t = key_compare (GetKey k) t.
Proof.
  intros (_ & Hu & _). unfold CompareCurrentKey, key_compare, GetUserKey. rewrite Hu.
  by destruct is_user_cases as [-> | ->].
Qed.

(** How entry [i] compares with a target. *)
Definition cmp_at (i : nat) (t : bytes) : Z :=
  match es !! i with Some e => key_compare (shown (e_key e)) t | None => 1 end.

Lemma at_entry_compare it i t : at_entry it i -> CompareCurrentKey c (raw_key_ it) t = cmp_at i t.
Proof.
  intros ((Hr & _) & _ & e & He & _ & _ & Hk). unfold cmp_at. rewrite He, <- Hk.
  by apply CompareCurrentKey_key.
Qed.

(** The entries are strictly increasing. *)
Definition keys_sorted : Prop := forall i j t, (i < j < length es)%nat ->
  cmp_at j t <= 0 -> cmp_at i t < 0.

(** [i] is the first entry that is not before the target. *)
Definition lower_bound (t : bytes) (i : nat) : Prop :=
  (i <= length es)%nat /\ (forall j, (j < i)%nat -> cmp_at j t < 0) /\
  ((i < length es)%nat -> 0 <= cmp_at i t).

Section Seek.
Context (Hsorted : keys_sorted).

Lemma lower_bound_after t i : (i < length es)%nat -> cmp_at i t < 0 ->
  ((S i < length es)%nat -> 0 <= cmp_at (S i) t) -> lower_bound t (S i).
Proof.
  intros Hi Hlt Hge. split_and!; [lia | | done]. intros j Hj.
  destruct (decide (j = i)) as [-> |]; [done |]. apply (Hsorted j i t); lia.
Qed.

Lemma lower_bound_exact t i : (i < length es)%nat -> cmp_at i t = 0 -> lower_bound t i.
Proof.
  intros Hi E. split_and!; [lia | | lia]. intros j Hj. apply (Hsorted j i t); lia.
Qed.

(** What a finished binary search says of its restart point. *)
Definition seek_found (t : bytes) (r : nat) (skip : bool) : Prop :=
  Z.of_nat r < num_restarts_ c /\
  if skip then lower_bound t (r * I)
  else cmp_at (r * I) t < 0 /\ (Z.of_nat r + 1 < num_restarts_ c -> 0 < cmp_at (S r * I) t).

(** The state [BinarySeek] leaves behind differs in the key buffer only. *)
Lemma sane_set_key it k : sane it -> raw_ok k -> sane (set_entry it k (value_ it)).
Proof. intros (_ & ? & ?) ?. done. Qed.

Lemma restart_entry (r : nat) : es <> [] -> Z.of_nat r < num_restarts_ c ->
  exists e, es !! (r * I)%nat = Some e /\ e_shared e = 0 /\ GetRestartPoint c (Z.of_nat r) = e_off e.
Proof.
  intros Hne Hr. destruct (wf_restart W r Hr) as [Eo H0].
  destruct (lookup_lt_is_Some_2 es (r * I) (wf_cover W r Hne Hr)) as [e He].
  exists e. rewrite Eo, (off_lookup _ e He). auto.
Qed.

Lemma restart_after (r r' : nat) t : es <> [] -> (r < r')%nat -> Z.of_nat r' < num_restarts_ c ->
  0 <= cmp_at (r * I) t -> 0 < cmp_at (r' * I) t.
Proof.
  intros Hne Hlt Hr' Hge. assert (Hlt2 : (r * I < r' * I < length es)%nat).
  { split; [apply Nat.mul_lt_mono_pos_r; pose proof (wf_interval W); lia |]. by apply (wf_cover W). }
  destruct (Z.lt_ge_cases 0 (cmp_at (r' * I) t)) as [| Hle]; [done |].
  pose proof (Hsorted _ _ t Hlt2 Hle). lia.
Qed.

Lemma BinarySeek_loop_found t (Hne : es <> []) fuel : forall it left right skip,
  sane it -> -1 <= left <= right -> right < num_restarts_ c -> right - left < Z.of_nat fuel ->
  (0 <= left -> cmp_at (Z.to_nat left * I) t <= 0 /\ (skip = false -> cmp_at (Z.to_nat left * I) t < 0)) ->
  (skip = true -> 0 <= left /\ left = right /\ cmp_at (Z.to_nat left * I) t = 0) ->
  (forall r : nat, right < Z.of_nat r < num_restarts_ c -> 0 < cmp_at (r * I) t) ->
  exists it' (r : nat) skip', BinarySeek_loop c fuel it t left right skip =
    Some (SeekFound it' (Z.of_nat r) skip') /\ sane it' /\ seek_found t r skip'.
Proof.
  induction fuel as [| fuel IH]; intros it left right skip Hs Hlr Hrn Hf Hleft Hskip Hright; [lia |].
  cbn [BinarySeek_loop]. case Z.eqb_spec; intros Heq.
  - case Z.eqb_spec; intros Hm1.
    + exists it, 0%nat, true. split_and!; [done.. |]. split; [pose proof num_positive; lia |].
      pose proof num_positive. pose proof (Hright 0%nat ltac:(lia)). split_and!; [lia | lia | lia].
    + exists it, (Z.to_nat left), skip. rewrite Z2Nat.id by lia. split_and!; [done.. |].
      split; [lia |]. destruct Hleft as [Hle Hlt]; [lia |]. destruct skip.
      * apply lower_bound_exact; [| apply Hskip; done]. apply (wf_cover W); [done | lia].
      * split; [by apply Hlt |]. intros Hn. apply Hright. lia.
  - set (mid := left + (right - left + 1) / 2).
    assert (Hmid : left < mid <= right).
    { unfold mid. pose proof (Z.div_mod (right - left + 1) 2). pose proof (Z.mod_pos_bound (right - left + 1) 2).
      lia. }
    destruct (restart_entry (Z.to_nat mid)) as (e & He & H0 & Eo); [done | lia |].
    rewrite Z2Nat.id in Eo by lia. destruct (wf_decode W _ e He) as [_ Hd].
    destruct (wf_slices W _ e He) as [Hsl _].
    unfold DecodeKey. rewrite Eo, Hd, H0. cbn [Z.eqb negb].
    rewrite Hsl, H0, sdrop_le0 by lia.
    destruct (update_raw_key (raw_key_ it) e _ (proj1 Hs) He) as [Hraw Hk].
    set (k := UpdateRawKeyAndMaybePadMinTimestamp c (raw_key_ it) (e_key e)) in *.
    assert (Hcmp : CompareCurrentKey c k t = cmp_at (Z.to_nat mid * I) t).
    { rewrite CompareCurrentKey_key by done. unfold cmp_at. by rewrite He, Hk. }
    rewrite Hcmp. pose proof (sane_set_key it k Hs Hraw) as Hs'.
    assert (skip = false) as -> by (destruct skip; [destruct Hskip; [done | lia] | done]).
    case Z.ltb_spec; intros Hc1; [| rewrite Z.gtb_ltb; case Z.ltb_spec; intros Hc2].
    + apply IH; [done | lia.. | | done | done]. intros _. split; [lia | done].
    + apply IH; [done | lia.. | done | done |]. intros r Hr.
      destruct (decide (Z.of_nat r = mid)) as [<- | Hne']; [by rewrite Nat2Z.id in Hc2 |].
      apply (restart_after (Z.to_nat mid)); [done | lia.. ].
    + apply IH; [done | lia.. | | | ].
      * intros _. split; [lia | done].
      * intros _. split_and!; lia.
      * intros r Hr. apply (restart_after (Z.to_nat mid)); [done | lia..].
Qed.

Lemma FindKey_loop_found t (r : nat) fuel : forall it i,
  Z.of_nat r < num_restarts_ c -> at_entry it i -> cmp_at i t < 0 ->
  (interval_known -> cur_entry_idx_ it = Z.of_nat i) -> (length es - i < fuel)%nat ->
  (Z.of_nat r + 1 < num_restarts_ c -> (i < S r * I)%nat /\ 0 < cmp_at (S r * I) t) ->
  exists it' j, FindKey_loop c decode fuel it t
      (if Z.of_nat r + 1 <? num_restarts_ c then GetRestartPoint c (Z.of_nat r + 1) else 2 ^ 32 - 1) =
    Some it' /\ shows it' (cursor_at j) /\ lower_bound t j.
Proof.
  induction fuel as [| fuel IH]; intros it i Hr Ha Hlt Hx Hf Hmax; [lia |]. cbn [FindKey_loop].
  assert (Hi : (i < length es)%nat).
  { destruct Ha as (_ & _ & e & He & _). by apply lookup_lt_Some in He. }
  pose proof (Next_shows it i (conj Ha Hx)) as HN. set (it1 := NextImpl c decode it) in *.
  unfold cursor_at, clip in HN. destruct (decide (S i < length es)%nat) as [HS | HS].
  - destruct HN as [Ha1 Hx1]. rewrite (at_entry_valid it1 (S i) Ha1), (at_entry_compare it1 (S i) t Ha1).
    cbn [negb]. assert (Hcur : current_ it1 = off (S i)).
    { destruct Ha1 as (_ & _ & e & He & -> & _). by rewrite (off_lookup _ e He). }
    assert (Hdone : 0 <= cmp_at (S i) t -> exists it' j, Some it1 = Some it' /\
      shows it' (cursor_at j) /\ lower_bound t j).
    { intros Hge. exists it1, (S i). split_and!; [done | | by apply lower_bound_after].
      unfold cursor_at, clip. by rewrite decide_True. }
    rewrite Hcur. case Z.eqb_spec; intros Hm.
    + apply Hdone. revert Hm. case Z.ltb_spec; intros Hn.
      * destruct (Hmax Hn) as [Hlt2 Hpos]. replace (Z.of_nat r + 1) with (Z.of_nat (S r)) by lia.
        destruct (wf_restart W (S r)) as [-> _]; [lia |]. intros ->%off_inj; [lia.. |].
        pose proof (wf_cover W (S r) (nonempty i Hi)). lia.
      * pose proof (off_le_restarts (S i)). pose proof (wf_size W). lia.
    + rewrite Z.geb_leb. case Z.leb_spec; intros Hc; [by apply Hdone |].
      apply (IH it1 (S i)); [done.. | lia |]. intros Hn. destruct (Hmax Hn) as [Hlt2 Hpos]. split; [| done].
      destruct (decide (S i = S r * I)%nat) as [E |]; [| lia]. rewrite E in Hc. lia.
  - rewrite (at_end_invalid it1 HN). cbn [negb]. exists it1, (S i).
    split_and!; [done | | by apply lower_bound_after]. unfold cursor_at, clip. by rewrite decide_False.
Qed.

Lemma FindKeyAfterBinarySeek_shows t it (r : nat) skip : es <> [] -> sane it -> seek_found t r skip ->
  exists it' j, FindKeyAfterBinarySeek c decode it t (Z.of_nat r) skip = Some it' /\
    shows it' (cursor_at j) /\ lower_bound t j.
Proof.
  intros Hne Hs [Hr Hf]. pose proof (wf_cover W r Hne Hr) as Hlt. unfold FindKeyAfterBinarySeek.
  pose proof (restart_ready it r Hs Hr) as Hready.
  set (it1 := set_cur_entry_idx _ _). change (ready it1 (r * I)) in Hready.
  assert (Hsh : shows (NextImpl c decode it1) (cursor_at (r * I))).
  { apply NextImpl_ready; [lia | done |]. intros Hk. cbn [it1 cur_entry_idx_ set_cur_entry_idx].
    rewrite restart_index_known by done. lia. }
  destruct skip; [by exists (NextImpl c decode it1), (r * I)%nat |].
  destruct Hf as [Hneg Hpos]. unfold cursor_at, clip in Hsh. rewrite decide_True in Hsh by done.
  destruct Hsh as [Ha Hx]. pose proof fuel_enough.
  apply (FindKey_loop_found t r _ _ (r * I)); [done.. | lia |]. intros Hn. split; [| auto].
  pose proof (wf_interval W). lia.
Qed.

Lemma BinarySeek_shows t it : sane it ->
  (es = [] /\ BinarySeek c it t = Some (SeekFailed it)) \/
  (es <> [] /\ exists it' (r : nat) skip, BinarySeek c it t = Some (SeekFound it' (Z.of_nat r) skip) /\
     sane it' /\ seek_found t r skip).
Proof.
  intros Hs. unfold BinarySeek. case Z.eqb_spec; intros Hz.
  - left. split; [| done]. apply length_zero_iff_nil.
    pose proof (length_le_off (length es) ltac:(lia)) as Hle. rewrite off_end in Hle. lia.
  - right. assert (Hne : es <> []).
    { intros E. apply Hz. pose proof (wf_first W) as H0. rewrite E in H0. done. }
    split; [done |]. pose proof (wf_num W).
    apply BinarySeek_loop_found; [done | done | lia.. | done | lia].
Qed.

Lemma shows_empty it o : es = [] -> shows it o -> o = None.
Proof. intros E. destruct o; [| done]. intros [(_ & _ & e & He & _) _]. by rewrite E in He. Qed.

Lemma SeekImpl_shows t it o : shows it o ->
  exists it' j, SeekImpl c decode it t = Some it' /\ shows it' (cursor_at j) /\ lower_bound t j.
Proof.
  intros Hsh. unfold SeekImpl. destruct (wf_data W) as [d Hd]. rewrite Hd.
  destruct (BinarySeek_shows t it (shows_sane it o Hsh)) as [[E ->] | (Hne & it' & r & skip & -> & Hs' & Hf)].
  - rewrite (shows_empty it o E Hsh) in Hsh. exists it, 0%nat.
    assert (Hl : length es = 0%nat) by (by rewrite E).
    split_and!; [done | | split_and!; [lia | intros; lia | lia]].
    unfold cursor_at, clip. by rewrite decide_False by lia.
  - by apply FindKeyAfterBinarySeek_shows.
Qed.

(** The last entry that is not after the target, if there is one. *)
Definition last_at_or_before (t : bytes) (o : option nat) : Prop :=
  match o with
  | Some i => (i < length es)%nat /\ cmp_at i t <= 0 /\
      forall j, (i < j < length es)%nat -> 0 < cmp_at j t
  | None => forall j, (j < length es)%nat -> 0 < cmp_at j t
  end.

Lemma after_positive i j t : (i < j < length es)%nat -> 0 <= cmp_at i t -> 0 < cmp_at j t.
Proof.
  intros Hij Hi. destruct (Z.lt_ge_cases 0 (cmp_at j t)) as [| Hle]; [done |].
  pose proof (Hsorted i j t Hij Hle). lia.
Qed.

Section Backwards.
Context (Prev : BlockIter -> option BlockIter)
  (HPrev : forall it i, shows it (Some i) -> exists it', Prev it = Some it' /\
     shows it' (if decide (i = 0)%nat then None else Some (i - 1)%nat)).

Lemma SeekForPrev_loop_stop fuel it i t : shows it (Some i) -> cmp_at i t <= 0 ->
  SeekForPrev_loop c Prev (S fuel) it t = Some it.
Proof.
  intros [Ha _] Hle. cbn [SeekForPrev_loop].
  rewrite (at_entry_valid it i Ha), (at_entry_compare it i t Ha), Z.gtb_ltb. cbn [andb].
  case Z.ltb_spec; [lia | done].
Qed.

Lemma SeekForPrev_loop_shows fuel it j t : (j < length es)%nat -> shows it (Some j) -> lower_bound t j ->
  exists it' o, SeekForPrev_loop c Prev (S (S fuel)) it t = Some it' /\ shows it' o /\
    last_at_or_before t o.
Proof.
  intros Hj Hsh (_ & Hlow & Hhigh). specialize (Hhigh Hj).
  assert (Hafter : forall k, (j < k < length es)%nat -> 0 < cmp_at k t)
    by (intros k Hk; by apply (after_positive j)).
  destruct (Z.lt_ge_cases 0 (cmp_at j t)) as [Hpos | Hle].
  - rewrite <- (Nat.add_1_l fuel). cbn [SeekForPrev_loop Nat.add]. assert (Hsh' := Hsh).
    destruct Hsh' as [Ha _]. rewrite (at_entry_valid it j Ha), (at_entry_compare it j t Ha), Z.gtb_ltb.
    apply Z.ltb_lt in Hpos as Hb. rewrite Hb. cbn [andb].
    destruct (HPrev it j Hsh) as (it1 & -> & Hsh1). destruct (decide (j = 0)%nat) as [-> | Hne].
    + exists it1, None. rewrite (at_end_invalid it1 Hsh1). split_and!; [done.. |].
      intros k Hk. destruct (decide (k = 0)%nat) as [-> |]; [done | apply Hafter; lia].
    + exists it1, (Some (j - 1)%nat). specialize (Hlow (j - 1)%nat ltac:(lia)).
      split_and!; [apply (SeekForPrev_loop_stop fuel it1 (j - 1)); [done | lia] | done |].
      split_and!; [lia | lia |]. intros k Hk. destruct (decide (k = j)) as [-> |]; [done | apply Hafter; lia].
  - exists it, (Some j). by split_and!; [apply SeekForPrev_loop_stop with j | |].
Qed.

Lemma SeekForPrevImpl_shows t it o : shows it o ->
  exists it' o', SeekForPrevImpl c decode Prev it t = Some it' /\ shows it' o' /\ last_at_or_before t o'.
Proof.
  intros Hsh. unfold SeekForPrevImpl. destruct (wf_data W) as [d Hd]. rewrite Hd.
  destruct (BinarySeek_shows t it (shows_sane it o Hsh)) as [[E ->] | (Hne & it1 & r & skip & -> & Hs & Hf)].
  - rewrite (shows_empty it o E Hsh) in Hsh. exists it, None.
    split_and!; [done.. |]. intros j Hj. rewrite E in Hj. simpl in Hj. lia.
  - destruct (FindKeyAfterBinarySeek_shows t it1 r skip Hne Hs Hf) as (it2 & j & -> & Hsh2 & Hlow).
    unfold cursor_at, clip in Hsh2. destruct (decide (j < length es)%nat) as [Hj | Hj].
    + rewrite (at_entry_valid it2 j (proj1 Hsh2)). cbn [negb]. pose proof fuel_enough.
      assert (exists f, loop_fuel c = S (S f)) as [f ->] by (exists (loop_fuel c - 2)%nat; lia).
      by apply (SeekForPrev_loop_shows f it2 j).
    + rewrite (at_end_invalid it2 Hsh2). cbn [negb]. destruct (shows_sane it2 None Hsh2) as (_ & -> & _).
      destruct (SeekToLast_shows it2 (shows_sane it2 None Hsh2)) as (it3 & -> & Hsh3).
      exists it3, (cursor_at (length es - 1)). split_and!; [done.. |].
      assert (length es <> 0%nat) by (intros Hz; by apply Hne, length_zero_iff_nil).
      unfold cursor_at, clip. rewrite decide_True by lia. destruct Hlow as (Hle & Hlow & _).
      split_and!; [lia | specialize (Hlow (length es - 1)%nat); lia | intros; lia].
Qed.
End Backwards.

(** * Refinement *)

Definition shown_keys : list bytes := map (fun e => shown (e_key e)) es.

Lemma cmp_shown i k t : shown_keys !! i = Some k -> cmp_at i t = key_compare k t.
Proof.
  unfold shown_keys, cmp_at. rewrite list_lookup_fmap. intros (e & -> & ->)%fmap_Some. done.
Qed.

Lemma length_shown_keys : length shown_keys = length es.
Proof. apply length_map. Qed.

Lemma lower_bound_index t j : lower_bound t j ->
  first_index (fun k => 0 <=? key_compare k t) shown_keys = j.
Proof.
  intros (Hle & Hlow & Hat). apply first_index_unique; [by rewrite length_shown_keys | |].
  - intros i k Hi Hk. rewrite <- (cmp_shown i k t Hk). apply Z.leb_gt. auto.
  - intros k Hk. rewrite <- (cmp_shown j k t Hk). apply Z.leb_le, Hat.
    apply lookup_lt_Some in Hk. by rewrite length_shown_keys in Hk.
Qed.

Lemma last_at_or_before_index t o : last_at_or_before t o ->
  let i := first_index (fun k => 0 <? key_compare k t) shown_keys in
  o = if decide (i = 0)%nat then None else Some (i - 1)%nat.
Proof.
  intros H. cbv zeta. destruct o as [i |].
  - destruct H as (Hi & Hle & Hafter).
    rewrite (first_index_unique _ _ (S i)); [by rewrite Nat.sub_succ, Nat.sub_0_r | | |].
    + rewrite length_shown_keys. lia.
    + intros j k Hj Hk. rewrite <- (cmp_shown j k t Hk). apply Z.ltb_ge.
      destruct (decide (j = i)) as [-> |]; [done |]. pose proof (Hsorted j i t). lia.
    + intros k Hk. rewrite <- (cmp_shown _ k t Hk). apply Z.ltb_lt, Hafter.
      apply lookup_lt_Some in Hk. rewrite length_shown_keys in Hk. lia.
  - rewrite (first_index_unique _ _ 0); [done | lia | intros; lia |].
    intros k Hk. rewrite <- (cmp_shown _ k t Hk). apply Z.ltb_lt, H.
    apply lookup_lt_Some in Hk. by rewrite length_shown_keys in Hk.
Qed.

Lemma run_op_refines meta it o op o' : shows it o -> cursor_op key_compare shown_keys o op = Some o' ->
  exists it', run_op c decode meta it op = Some it' /\ shows it' o'.
Proof.
  intros Hsh Ho. pose proof (shows_sane it o Hsh) as Hs.
  assert (HPrev : forall it i, shows it (Some i) -> exists it',
    (if meta then Meta_PrevImpl c decode else PrevImpl c decode) it = Some it' /\
    shows it' (if decide (i = 0)%nat then None else Some (i - 1)%nat))
    by (destruct meta; [apply Meta_Prev_shows | apply Prev_shows]).
  unfold cursor_op in Ho. rewrite length_shown_keys in Ho.
  destruct op as [| | | | t | t]; [| | destruct o as [i |]; [| done].. | |];
    injection Ho as <-; unfold run_op.
  - eexists. split; [done |]. by apply SeekToFirst_shows.
  - by apply SeekToLast_shows.
  - eexists. split; [done |]. by apply Next_shows.
  - by apply HPrev.
  - destruct (SeekImpl_shows t it o Hsh) as (it' & j & E & Hsh' & Hb). exists it'.
    by rewrite (lower_bound_index t j Hb).
  - destruct (SeekForPrevImpl_shows _ HPrev t it o Hsh) as (it' & o' & E & Hsh' & Hb). exists it'.
    by rewrite <- (last_at_or_before_index t o' Hb).
Qed.

Lemma run_ops_refines meta ops : forall it o o', shows it o ->
  cursor_ops key_compare shown_keys o ops = Some o' ->
  exists it', run_ops c decode meta it ops = Some it' /\ shows it' o'.
Proof. apply iterate_ops_refines. intros. by eapply run_op_refines. Qed.
End Seek.
End Cursor.
