(* ===== verification/BlockProofs.v ===== *)
(** What [BlockBuilder] writes is a well-formed block, so that the iterators over it are
    cursors over the entries that were added (BlockCursor.v); and how the readers behave
    on blocks that were not written by it. *)

From Stdlib Require Import Sorting.Sorted.
From S2P Require Import Prelude Cursor Coding Hash Comparator DbFormat IterKey BlockBuilder BlockIter BlockCursor.

(** * Decoding the lengths of an entry *)

Lemma EncodeVarint32_small v : 0 <= v < 128 -> EncodeVarint32 v = [byte.of_Z v].
Proof.
  intros Hv. rewrite EncodeVarint32_64, EncodeVarint64_unfold by (unfold fits; lia).
  rewrite Z.geb_leb. case Z.leb_spec; [lia | done].
Qed.

Lemma EncodeVarint32_large v : fits 32 v -> 128 <= v ->
  exists b l, EncodeVarint32 v = b :: l /\ 128 <= byte.unsigned b.
Proof.
  intros Hv Hge. rewrite EncodeVarint32_64, EncodeVarint64_unfold by (unfold fits in *; lia).
  rewrite Z.geb_leb. case Z.leb_spec; [intros _ | lia]. do 2 eexists. split; [done |].
  destruct (more_byte v) as [E _]. set (b := byte.of_Z _) in *. pose proof (byte_range b).
  destruct (Z.le_gt_cases 128 (byte.unsigned b)) as [| Hlt]; [done |].
  destruct (last_byte (byte.unsigned b)) as [_ E']; [lia | congruence].
Qed.

Lemma le_lor a b : 0 <= a -> 0 <= b -> a <= Z.lor a b /\ b <= Z.lor a b.
Proof.
  intros Ha Hb. pose proof (Z.lor_nonneg a b) as [_ Hn].
  assert (forall x y, 0 <= x -> 0 <= y -> x <= Z.lor x y) as H.
  { intros x y Hx Hy. pose proof (Z.lor_nonneg x y) as [_ Hl].
    pose proof (land_le (Z.lor x y) x (Hl (conj Hx Hy)) Hx) as [_ Hle].
    replace (Z.land (Z.lor x y) x) with x in Hle; [done |].
    apply Z.bits_inj'. intros i _. rewrite Z.land_spec, Z.lor_spec.
    by destruct (Z.testbit x i), (Z.testbit y i). }
  split; [by apply H | rewrite Z.lor_comm; by apply H].
Qed.

(** The lengths at the start of an entry. *)
Definition entry_header (shared non_shared value_length : Z) : bytes :=
  EncodeVarint32 shared ++ EncodeVarint32 non_shared ++ EncodeVarint32 value_length.

Lemma slen_entry_header s n v : 3 <= slen (entry_header s n v).
Proof.
  unfold entry_header. pose proof (slen_EncodeVarint32_bounds s).
  pose proof (slen_EncodeVarint32_bounds n). pose proof (slen_EncodeVarint32_bounds v). slia.
Qed.

(** Bytes that are all below 128 are the three lengths; otherwise one of the first three
    bytes continues a varint. *)
Lemma header_bytes s n v rest : fits 32 s -> fits 32 n -> fits 32 v ->
  let h := entry_header s n v ++ rest in
  (byte_at h 0 = s /\ byte_at h 1 = n /\ byte_at h 2 = v /\ slen (entry_header s n v) = 3 /\
   Z.lor (Z.lor s n) v < 128) \/
  128 <= Z.lor (Z.lor (byte_at h 0) (byte_at h 1)) (byte_at h 2).
Proof.
  intros Hs Hn Hv. cbv zeta. set (h := entry_header s n v ++ rest).
  assert (Hnn : forall i, 0 <= byte_at h i) by (intros i; apply byte_range).
  pose proof (le_lor (byte_at h 0) (byte_at h 1) (Hnn _) (Hnn _)) as [L1 L2].
  pose proof (le_lor (Z.lor (byte_at h 0) (byte_at h 1)) (byte_at h 2)) as L3.
  assert (L0 : 0 <= Z.lor (byte_at h 0) (byte_at h 1)) by (specialize (Hnn 0%nat); lia).
  specialize (L3 L0 (Hnn _)). unfold fits in *. unfold h, entry_header in *.
  destruct (Z.le_gt_cases 128 s) as [H1 | H1].
  { destruct (EncodeVarint32_large s Hs H1) as (b & l & E & Hb). right.
    rewrite E in L1, L2, L3 |- *. unfold byte_at in *. simpl in *. lia. }
  rewrite (EncodeVarint32_small s) in * by lia.
  destruct (Z.le_gt_cases 128 n) as [H2 | H2].
  { destruct (EncodeVarint32_large n Hn H2) as (b & l & E & Hb). right.
    rewrite E in L1, L2, L3 |- *. unfold byte_at in *. simpl in *. lia. }
  rewrite (EncodeVarint32_small n) in * by lia.
  destruct (Z.le_gt_cases 128 v) as [H3 | H3].
  { destruct (EncodeVarint32_large v Hv H3) as (b & l & E & Hb). right.
    rewrite E in L1, L2, L3 |- *. unfold byte_at in *. simpl in *. lia. }
  rewrite (EncodeVarint32_small v) by lia. left.
  unfold byte_at. cbn [app nth]. rewrite !byte_of_Z_small by lia. split_and!; try done.
  apply (fits_lor 7); [lia | apply (fits_lor 7); [lia | |] |]; unfold fits; lia.
Qed.

Lemma decode_lengths_entry data p limit s n v rest : fits 32 s -> fits 32 n -> fits 32 v ->
  sdrop p data = entry_header s n v ++ rest -> p + slen (entry_header s n v) <= limit ->
  limit <= slen data -> 0 <= p ->
  decode_lengths data p limit = Some (p + slen (entry_header s n v), s, n, v).
Proof.
  intros Hs Hn Hv Hd Hp Hl Hp0. unfold decode_lengths. rewrite Hd.
  destruct (header_bytes s n v rest Hs Hn Hv) as [(-> & -> & -> & -> & Hlt) | Hge].
  - apply Z.ltb_lt in Hlt. by rewrite Hlt.
  - apply Z.ltb_ge in Hge. rewrite Hge. unfold decode_varints. rewrite Hd, stake_app_ge by lia.
    set (rest' := stake _ rest). unfold entry_header. rewrite <- !app_assoc.
    rewrite (GetVarint32_Encode s), (GetVarint32_Encode n), (GetVarint32_Encode v) by done.
    assert (Hr : slen data - p = slen (entry_header s n v) + slen rest).
    { rewrite <- slen_app, <- Hd, slen_sdrop. slen_facts. pose proof (slen_entry_header s n v). lia. }
    do 4 f_equal. unfold rest', entry_header. rewrite slen_stake. fold (entry_header s n v). slen_facts. lia.
Qed.

Lemma decode_entry data p limit s n v rest : fits 32 s -> fits 32 n -> fits 32 v ->
  sdrop p data = entry_header s n v ++ rest -> p + slen (entry_header s n v) + n + v <= limit ->
  limit <= slen data -> limit < 2 ^ 32 -> 0 <= p ->
  DecodeEntry data p limit = Some (p + slen (entry_header s n v), s, n, v) /\
  CheckAndDecodeEntry data p limit = Some (p + slen (entry_header s n v), s, n, v).
Proof.
  intros Hs Hn Hv Hd Hp Hl H32 Hp0. pose proof (slen_entry_header s n v). unfold fits in *.
  pose proof (decode_lengths_entry data p limit s n v rest Hs Hn Hv Hd ltac:(lia) Hl Hp0) as E.
  split; [done |]. unfold CheckAndDecodeEntry. case Z.ltb_spec; intros; [lia |].
  rewrite E, !wrap_small by (unfold fits; lia). case Z.ltb_spec; [lia | done].
Qed.

(** * The invariant of the builder *)

(** Where entry [i] starts in a buffer that holds the entries [es]. *)
Definition boff (buffer : bytes) (es : list entry) (i : nat) : Z :=
  match es !! i with Some e => e_off e | None => slen buffer end.

(** The bytes of one entry. *)
Definition entry_bytes (e : entry) : bytes :=
  entry_header (e_shared e) (e_unshared e) (slen (e_val e)) ++ sdrop (e_shared e) (e_key e) ++ e_val e.

(** The entries [es] of the buffer are the pairs [kvs] that were added. *)
Record built (b : BlockBuilder) (kvs : list (bytes * bytes)) (es : list entry) : Prop := {
  bt_delta : use_value_delta_encoding_ b = false;
  bt_interval : 1 <= block_restart_interval_ b;
  bt_length : length es = length kvs;
  bt_kv i e kv : es !! i = Some e -> kvs !! i = Some kv ->
    e_key e = MaybeStripTimestampFromKey b kv.1 /\ e_val e = kv.2;
  bt_bytes i e : es !! i = Some e -> 0 <= e_off e /\
    (exists rest, sdrop (e_off e) (buffer_ b) = entry_bytes e ++ rest) /\
    e_ptr e = e_off e + slen (entry_header (e_shared e) (e_unshared e) (slen (e_val e))) /\
    boff (buffer_ b) es (S i) = e_off e + slen (entry_bytes e);
  bt_shared i e : es !! i = Some e -> 0 <= e_shared e <= slen (e_key e);
  bt_prefix i e e' : es !! i = Some e -> es !! S i = Some e' ->
    e_shared e' <= slen (e_key e) /\ stake (e_shared e') (e_key e') = stake (e_shared e') (e_key e);
  bt_first : boff (buffer_ b) es 0 = 0;
  bt_restarts (r : nat) o : restarts_of b !! r = Some o ->
    let i := (r * Z.to_nat (block_restart_interval_ b))%nat in
    o = boff (buffer_ b) es i /\ (forall e, es !! i = Some e -> e_shared e = 0) /\
    (es <> [] -> (i < length es)%nat);
  bt_counter : 0 <= counter_ b <= block_restart_interval_ b /\ (1 <= length (restarts_of b))%nat /\
    Z.of_nat (length es) = (Z.of_nat (length (restarts_of b)) - 1) * block_restart_interval_ b + counter_ b;
  bt_last : use_delta_encoding_ b = true -> last_key_ b = List.last (map fst kvs) [];
  bt_estimate : estimate_ b = slen (buffer_ b) + 4 * slen (restarts_of b) + 4;
}.
Arguments bt_bytes {b kvs es} _.
Arguments bt_kv {b kvs es} _.
Arguments bt_restarts {b kvs es} _.

Lemma MaybeStrip_nil b : MaybeStripTimestampFromKey b [] = [].
Proof.
  unfold MaybeStripTimestampFromKey, StripTimestampFromInternalKey, stake, sdrop.
  destruct_ifs; by rewrite ?drop_nil, ?take_nil.
Qed.

Lemma built_empty I delta hash ts persist is_user : 1 <= I ->
  built (MakeBlockBuilder I delta false hash ts persist is_user) [] [].
Proof.
  intros HI. constructor; cbn; try done; try lia.
  intros [| r] o; [| done]. cbn. intros [= <-]. done.
Qed.

Lemma difference_offset_prefix a b : let d := Z.of_nat (difference_offset a b) in
  0 <= d <= slen a /\ d <= slen b /\ stake d a = stake d b.
Proof.
  cbv zeta. pose proof (difference_offset_le a b). unfold slen, stake. rewrite Nat2Z.id.
  split_and!; [lia.. |]. clear. revert b.
  induction a as [| x a IH]; intros [| y b]; cbn [difference_offset]; try done.
  destruct (decide (x = y)) as [<- |]; [| done]. cbn [take]. by rewrite IH.
Qed.

(** The entry that [Add] appends. *)
Definition added_shared (b : BlockBuilder) (key : bytes) : Z :=
  if counter_ b >=? block_restart_interval_ b then 0
  else if use_delta_encoding_ b
  then Z.of_nat (difference_offset (MaybeStripTimestampFromKey b key)
                   (MaybeStripTimestampFromKey b (last_key_ b)))
  else 0.
Definition added_entry (b : BlockBuilder) (key value : bytes) : entry :=
  let shared := added_shared b key in
  let key := MaybeStripTimestampFromKey b key in
  {| e_off := slen (buffer_ b);
     e_ptr := slen (buffer_ b) + slen (entry_header shared (slen key - shared) (slen value));
     e_shared := shared; e_key := key; e_val := value |}.

Lemma slen_MaybeStrip b key : slen (MaybeStripTimestampFromKey b key) <= slen key.
Proof.
  unfold MaybeStripTimestampFromKey, StripTimestampFromInternalKey, kNumInternalBytes.
  destruct_ifs; bool_to_prop; slia.
Qed.

Lemma Add_buffer b key value delta : use_value_delta_encoding_ b = false ->
  slen key < 2 ^ 32 -> slen value < 2 ^ 32 ->
  buffer_ (Add b key value delta) = buffer_ b ++ entry_bytes (added_entry b key value) /\
  restarts_of (Add b key value delta) = restarts_of b ++
    (if counter_ b >=? block_restart_interval_ b then [u32 (slen (buffer_ b))] else []) /\
  counter_ (Add b key value delta) =
    (if counter_ b >=? block_restart_interval_ b then 0 else counter_ b) + 1.
Proof.
  intros Hv Hk Hval. pose proof (slen_MaybeStrip b key). slen_facts.
  assert (E : buffer_ (Add b key value delta) =
    buffer_ b ++ encode_entry b (added_shared b key) (MaybeStripTimestampFromKey b key) value delta).
  { unfold Add, AddWithLastKeyImpl, added_shared.
    assert (El : (if slen (last_key_ b) =? 0 then last_key_ b else MaybeStripTimestampFromKey b (last_key_ b)) =
      MaybeStripTimestampFromKey b (last_key_ b)).
    { case Z.eqb_spec; intros Hz; [| done]. rewrite (slen_zero _ Hz). by rewrite MaybeStrip_nil. }
    rewrite El. cbn [use_delta_encoding_]. by destruct (use_delta_encoding_ b). }
  split_and!.
  - rewrite E. f_equal. unfold encode_entry, entry_bytes, added_entry, e_unshared, PutVarint32Varint32Varint32.
    cbn [e_shared e_key e_val]. rewrite Hv, andb_false_r, app_nil_l.
    pose proof (difference_offset_prefix (MaybeStripTimestampFromKey b key)
      (MaybeStripTimestampFromKey b (last_key_ b))) as (Hd1 & Hd2 & _).
    assert (0 <= added_shared b key <= slen (MaybeStripTimestampFromKey b key))
      by (unfold added_shared; destruct_ifs; lia).
    rewrite !wrap_small by (unfold fits; lia). unfold entry_header. by rewrite <- !app_assoc.
  - unfold Add, AddWithLastKeyImpl. cbn [use_delta_encoding_]. destruct (use_delta_encoding_ b);
      cbn [set_last_key restarts_of]; destruct (_ >=? _); by rewrite ?app_nil_r.
  - unfold Add, AddWithLastKeyImpl. cbn [use_delta_encoding_]. by destruct (use_delta_encoding_ b).
Qed.

Lemma boff_app buffer es e i : e_off e = slen buffer -> (i <= length es)%nat ->
  boff (buffer ++ entry_bytes e) (es ++ [e]) i = boff buffer es i.
Proof.
  intros He Hi. unfold boff. destruct (decide (i = length es)) as [-> | Hne].
  - by rewrite list_lookup_middle, lookup_ge_None_2.
  - rewrite lookup_app_l by lia. destruct (lookup_lt_is_Some_2 es i ltac:(lia)) as [x ->]. done.
Qed.

Lemma lookup_snoc {A} (l : list A) x i y : (l ++ [x]) !! i = Some y ->
  l !! i = Some y \/ i = length l /\ y = x.
Proof.
  intros [H | [H1 H2]]%lookup_app_Some; [by left |]. right.
  apply list_lookup_singleton_Some in H2 as [H2 <-]. split; [lia | done].
Qed.

Lemma Add_config b key value delta :
  block_restart_interval_ (Add b key value delta) = block_restart_interval_ b /\
  use_delta_encoding_ (Add b key value delta) = use_delta_encoding_ b /\
  use_value_delta_encoding_ (Add b key value delta) = use_value_delta_encoding_ b /\
  (forall k, MaybeStripTimestampFromKey (Add b key value delta) k = MaybeStripTimestampFromKey b k) /\
  estimate_ (Add b key value delta) = estimate_ b +
    (if counter_ b >=? block_restart_interval_ b then 4 else 0) +
    (slen (buffer_ (Add b key value delta)) - slen (buffer_ b)) /\
  (use_delta_encoding_ b = true -> last_key_ (Add b key value delta) = key).
Proof.
  unfold Add, AddWithLastKeyImpl. cbn [use_delta_encoding_].
  by destruct (use_delta_encoding_ b); cbn.
Qed.

Lemma added_shared_prefix b kvs es key value i e : built b kvs es -> es !! i = Some e ->
  S i = length es -> let e' := added_entry b key value in
  e_shared e' <= slen (e_key e) /\ stake (e_shared e') (e_key e') = stake (e_shared e') (e_key e).
Proof.
  intros B He Hi. cbv zeta. unfold added_entry. cbn [e_shared e_key]. unfold added_shared.
  assert (Hz : 0 <= slen (e_key e)) by apply slen_nonneg.
  destruct (_ >=? _); [by rewrite !(stake_le0 0) by lia |].
  destruct (use_delta_encoding_ b) eqn:Hd; [| by rewrite !(stake_le0 0) by lia].
  assert (Hl : e_key e = MaybeStripTimestampFromKey b (last_key_ b)).
  { rewrite (bt_last _ _ _ B Hd). pose proof (bt_length _ _ _ B) as Hlen.
    destruct (lookup_lt_is_Some_2 kvs i ltac:(lia)) as [kv Hkv].
    destruct (bt_kv B i e kv He Hkv) as [-> _]. f_equal.
    rewrite <- (take_drop i kvs), map_app. rewrite (drop_S kvs kv i Hkv), drop_ge by lia.
    cbn [map]. by rewrite List.last_last. }
  rewrite Hl. pose proof (difference_offset_prefix (MaybeStripTimestampFromKey b key)
    (MaybeStripTimestampFromKey b (last_key_ b))) as (_ & ? & ?). done.
Qed.

Lemma added_shared_bounds b key value : let e := added_entry b key value in
  0 <= e_shared e <= slen (e_key e).
Proof.
  cbv zeta. unfold added_entry, added_shared. cbn [e_shared e_key].
  pose proof (difference_offset_prefix (MaybeStripTimestampFromKey b key)
    (MaybeStripTimestampFromKey b (last_key_ b))) as (? & _).
  pose proof (slen_nonneg (MaybeStripTimestampFromKey b key)). destruct_ifs; lia.
Qed.

(** The part of the invariant about restart points. *)
Lemma restarts_add b kvs es key value delta : built b kvs es -> slen key < 2 ^ 32 ->
  slen value < 2 ^ 32 -> slen (buffer_ b) < 2 ^ 32 ->
  let b' := Add b key value delta in let es' := es ++ [added_entry b key value] in
  forall (r : nat) o, restarts_of b' !! r = Some o ->
    let i := (r * Z.to_nat (block_restart_interval_ b))%nat in
    o = boff (buffer_ b') es' i /\ (forall e, es' !! i = Some e -> e_shared e = 0) /\ (i < length es')%nat.
Proof.
  intros B Hk Hv Hb. cbv zeta. intros r o Hr.
  destruct (Add_buffer b key value delta (bt_delta _ _ _ B) Hk Hv) as (Eb & Er & _).
  rewrite Eb. rewrite Er in Hr. destruct (bt_counter _ _ _ B) as (Hc & Hn & Hlen).
  pose proof (bt_interval _ _ _ B) as HI.
  apply lookup_app_Some in Hr as [Hr | [Hge Hr]].
  - destruct (bt_restarts B r o Hr) as (-> & H0 & Hlt). destruct (decide (es = [])) as [-> | Hne].
    + assert (r = 0%nat) as -> by (apply lookup_lt_Some in Hr; cbn [length] in Hlen; nia).
      cbn [Nat.mul app length]. split_and!; [by rewrite (boff_app (buffer_ b) []) by (done || simpl; lia) | | lia].
      intros e [= <-]. unfold added_entry, added_shared. cbn [e_shared].
      destruct (_ >=? _); [done |]. destruct (use_delta_encoding_ b) eqn:Hd; [| done].
      rewrite (bt_last _ _ _ B Hd). pose proof (bt_length _ _ _ B) as Hl.
      symmetry in Hl. apply length_zero_iff_nil in Hl as ->. cbn [map List.last]. rewrite MaybeStrip_nil.
      by destruct (MaybeStripTimestampFromKey b key).
    + specialize (Hlt Hne). rewrite boff_app, length_app by (done || lia).
      split_and!; [done | | lia]. intros e He. rewrite lookup_app_l in He by done. auto.
  - destruct (counter_ b >=? block_restart_interval_ b) eqn:Hcb; [| done].
    apply list_lookup_singleton_Some in Hr as [Hr <-]. rewrite Z.geb_leb in Hcb. bool_to_prop.
    replace (r * Z.to_nat (block_restart_interval_ b))%nat with (length es) by nia.
    rewrite boff_app, length_app by (done || lia). unfold boff at 1. rewrite lookup_ge_None_2 by lia.
    rewrite wrap_small by (split; [apply slen_nonneg | done]).
    split_and!; [done | | simpl; lia]. intros e He. rewrite list_lookup_middle in He by done.
    injection He as <-. unfold added_entry, added_shared. cbn [e_shared]. rewrite Z.geb_leb.
    case Z.leb_spec; [done | lia].
Qed.

Lemma built_add b kvs es key value delta : built b kvs es -> slen key < 2 ^ 32 ->
  slen value < 2 ^ 32 -> slen (buffer_ b) < 2 ^ 32 ->
  built (Add b key value delta) (kvs ++ [(key, value)]) (es ++ [added_entry b key value]).
Proof.
  intros B Hk Hv Hb.
  destruct (Add_buffer b key value delta (bt_delta _ _ _ B) Hk Hv) as (Eb & Er & Ec).
  destruct (Add_config b key value delta) as (C1 & C2 & C3 & C4 & C5 & C6).
  pose proof (bt_counter _ _ _ B) as (Hc & Hn & Hlen). pose proof (bt_interval _ _ _ B) as HI.
  pose proof (bt_length _ _ _ B) as Hll.
  constructor; rewrite ?C1, ?C2, ?C3.
  - apply (bt_delta _ _ _ B).
  - done.
  - rewrite !length_app. simpl. lia.
  - intros i e kv He Hkv. rewrite C4. apply lookup_snoc in He as [He | [-> ->]].
    + rewrite lookup_app_l in Hkv by (apply lookup_lt_Some in He; lia). by apply (bt_kv B i).
    + rewrite Hll, list_lookup_middle in Hkv by done. by injection Hkv as <-.
  - intros i e He. rewrite Eb. apply lookup_snoc in He as [He | [-> ->]].
    + destruct (bt_bytes B i e He) as (H1 & (rest & H2) & H3 & H4). pose proof (lookup_lt_Some _ _ _ He).
      rewrite boff_app by (done || lia). split_and!; [done | | done | done].
      exists (rest ++ entry_bytes (added_entry b key value)). rewrite app_assoc, <- H2, sdrop_app_le; [done |].
      apply (f_equal slen) in H2. rewrite slen_sdrop, slen_app in H2.
      pose proof (slen_nonneg rest). assert (0 < slen (entry_bytes e)); [| lia].
      unfold entry_bytes. pose proof (slen_entry_header (e_shared e) (e_unshared e) (slen (e_val e))). slia.
    + split_and!; [apply slen_nonneg | | done |].
      * exists []. rewrite app_nil_r. by apply sdrop_app_exact.
      * unfold boff. rewrite lookup_ge_None_2 by (rewrite length_app; simpl; lia).
        by rewrite slen_app.
  - intros i e He. apply lookup_snoc in He as [He | [-> ->]]; [by apply (bt_shared _ _ _ B i) |].
    apply added_shared_bounds.
  - intros i e e' He He'. apply lookup_snoc in He' as [He' | [Hi ->]].
    + pose proof (lookup_lt_Some _ _ _ He'). rewrite lookup_app_l in He by lia. by apply (bt_prefix _ _ _ B i).
    + rewrite lookup_app_l in He by lia. by apply (added_shared_prefix b kvs es key value i).
  - rewrite Eb, boff_app by (done || lia). apply (bt_first _ _ _ B).
  - intros r o Hr. destruct (restarts_add b kvs es key value delta B Hk Hv Hb r o Hr) as (? & ? & ?).
    by split_and!.
  - rewrite Ec, Er, !length_app. cbn [length]. rewrite Z.geb_leb. case Z.leb_spec; intros; cbn [length];
      split_and!; nia.
  - intros Hd. rewrite C6 by done. rewrite map_app. cbn [map]. by rewrite List.last_last.
  - rewrite C5, (bt_estimate _ _ _ B), Er. destruct (_ >=? _); slia.
Qed.

Definition add_all (b : BlockBuilder) (kvs : list (bytes * bytes)) : BlockBuilder :=
  fold_left (fun b kv => Add b kv.1 kv.2 []) kvs b.

(** Keys and values whose lengths fit the format. *)
Definition kvs_fit (kvs : list (bytes * bytes)) : Prop :=
  Forall (fun kv => slen kv.1 < 2 ^ 32 /\ slen kv.2 < 2 ^ 32) kvs.

Lemma add_all_buffer b kvs : use_value_delta_encoding_ b = false -> kvs_fit kvs ->
  slen (buffer_ b) <= slen (buffer_ (add_all b kvs)).
Proof.
  intros Hd Hf. revert b Hd. induction Hf as [| [k v] kvs [Hk Hv] _ IH]; intros b Hd; cbn [add_all fold_left].
  - lia.
  - destruct (Add_buffer b k v [] Hd Hk Hv) as [E _].
    destruct (Add_config b k v []) as (_ & _ & C3 & _). specialize (IH (Add b k v [])).
    rewrite C3, E in IH. specialize (IH Hd). unfold add_all in IH. cbn [fst snd]. slia.
Qed.

Lemma add_all_built kvs : forall b kvs0 es0, built b kvs0 es0 -> kvs_fit kvs ->
  slen (buffer_ (add_all b kvs)) < 2 ^ 32 -> exists es, built (add_all b kvs) (kvs0 ++ kvs) es.
Proof.
  induction kvs as [| [k v] kvs IH]; intros b kvs0 es0 B Hf Hb.
  - exists es0. by rewrite app_nil_r.
  - pose proof (add_all_buffer b _ (bt_delta _ _ _ B) Hf) as Hm.
    inversion_clear Hf as [| ? ? [Hk Hv] Hf'].
    change (add_all b ((k, v) :: kvs)) with (add_all (Add b k v []) kvs) in *.
    replace (kvs0 ++ (k, v) :: kvs) with ((kvs0 ++ [(k, v)]) ++ kvs) by (by rewrite <- app_assoc).
    apply (IH _ _ (es0 ++ [added_entry b k v])); [| done | done]. apply built_add; [done.. | lia].
Qed.

(** * Finishing a block *)

Definition restart_bytes (restarts : list Z) : bytes := concat (map EncodeFixed32 restarts).

Lemma fold_PutFixed32 restarts buffer :
  fold_left PutFixed32 restarts buffer = buffer ++ restart_bytes restarts.
Proof.
  revert buffer. induction restarts as [| o restarts IH]; intros buffer; cbn [fold_left].
  - by rewrite app_nil_r.
  - rewrite IH. unfold PutFixed32, restart_bytes. cbn [map concat]. by rewrite app_assoc.
Qed.

Lemma slen_restart_bytes restarts : slen (restart_bytes restarts) = 4 * slen restarts.
Proof.
  induction restarts as [| o restarts IH]; [done |]. unfold restart_bytes in *. cbn [map concat].
  rewrite slen_app, IH, slen_EncodeFixed32, slen_cons. lia.
Qed.

Lemma restart_bytes_lookup restarts r o rest : fits 32 o -> restarts !! r = Some o ->
  DecodeFixed32 (sdrop (Z.of_nat r * 4) (restart_bytes restarts ++ rest)) = o.
Proof.
  intros Ho. revert r. induction restarts as [| o' restarts IH]; intros r Hr; [done |].
  unfold restart_bytes in *. cbn [map concat]. rewrite <- app_assoc. destruct r as [| r].
  - injection Hr as ->. rewrite sdrop_le0 by lia. by apply DecodeFixed32_Encode.
  - rewrite sdrop_app_ge by (rewrite slen_EncodeFixed32; lia). rewrite slen_EncodeFixed32.
    replace (Z.of_nat (S r) * 4 - 4) with (Z.of_nat r * 4) by lia. by apply IH.
Qed.

Lemma footer_roundtrip t n : fits 31 n ->
  UnPackIndexTypeAndNumRestarts (PackIndexTypeAndNumRestarts t n) = (t, n) /\
  fits 32 (PackIndexTypeAndNumRestarts t n).
Proof.
  intros Hn. unfold UnPackIndexTypeAndNumRestarts, PackIndexTypeAndNumRestarts, kNumRestartsMask,
    kDataBlockIndexTypeBitShift. change (Z.shiftl 1 31) with (2 ^ 31).
  assert (Hlow : forall i, 31 <= i -> Z.testbit n i = false)
    by (apply fits_bits; [lia | unfold fits in Hn; lia | done]).
  assert (E1 : Z.land n (2 ^ 31) = 0).
  { apply Z.bits_inj'. intros i Hi. rewrite Z.land_spec, Z.pow2_bits_eqb, Z.bits_0 by lia.
    destruct (Z.eqb_spec 31 i) as [<- |]; [by rewrite Hlow by lia | apply andb_false_r]. }
  assert (E2 : Z.land n (2 ^ 31 - 1) = n).
  { change (2 ^ 31 - 1) with (Z.ones 31). rewrite Z.land_ones by lia. by apply Z.mod_small. }
  destruct t.
  - rewrite E1, E2. split; [done |]. eapply fits_mono; [| done]. lia.
  - rewrite !Z.land_lor_distr_l, E1, E2. split; [by rewrite Z.lor_0_r |].
    apply fits_lor; [lia | | done]. eapply fits_mono; [| done]. lia.
Qed.

(** The number of buckets the reader finds, and where the hash index is. *)
Lemma num_buckets_size h : HashIndexBuilder_Valid h = true ->
  fits 16 (HashIndexBuilder_num_buckets h) /\ 1 <= HashIndexBuilder_num_buckets h /\
  HashIndexBuilder_EstimateSize h = 2 + HashIndexBuilder_num_buckets h.
Proof.
  intros _. unfold HashIndexBuilder_num_buckets, HashIndexBuilder_EstimateSize.
  assert (He : fits 16 (estimated_num_buckets h)).
  { unfold estimated_num_buckets. destruct (bucket_estimate h); [by apply wrap_fits | done]. }
  destruct (Z.eqb_spec (estimated_num_buckets h) 0) as [-> |]; [done |].
  unfold fits in He. pose proof (le_lor (estimated_num_buckets h) 1) as Hle.
  split_and!; [apply fits_lor; [lia | done | done] | lia | done].
Qed.

Lemma length_fill_bucket nb pairs : forall buckets,
  length (fold_left (fill_bucket nb) pairs buckets) = length buckets.
Proof.
  induction pairs as [| [h r] pairs IH]; intros buckets; cbn [fold_left]; [done |].
  rewrite IH. unfold fill_bucket. destruct_ifs; by rewrite ?length_insert.
Qed.

Lemma length_buckets h :
  Z.of_nat (length (HashIndexBuilder_buckets h)) = Z.max 0 (HashIndexBuilder_num_buckets h).
Proof.
  unfold HashIndexBuilder_buckets. rewrite length_fill_bucket, length_replicate. lia.
Qed.

Definition uses_hash (b : BlockBuilder) : bool :=
  HashIndexBuilder_Valid (data_block_hash_index_builder_ b) &&
  (CurrentSizeEstimate b <=? kMaxBlockSizeSupportedByHashIndex).
Definition hash_bytes (h : DataBlockHashIndexBuilder) : bytes :=
  map byte.of_Z (HashIndexBuilder_buckets h) ++ EncodeFixed16 (HashIndexBuilder_num_buckets h).
Definition block_tail (b : BlockBuilder) : bytes :=
  (if uses_hash b then hash_bytes (data_block_hash_index_builder_ b) else []) ++
  EncodeFixed32 (PackIndexTypeAndNumRestarts
    (if uses_hash b then kDataBlockBinaryAndHash else kDataBlockBinarySearch) (u32 (slen (restarts_of b)))).

Lemma Finish_contents b :
  (BlockBuilder_Finish b).2 = buffer_ b ++ restart_bytes (restarts_of b) ++ block_tail b.
Proof.
  unfold BlockBuilder_Finish, block_tail, hash_bytes, HashIndexBuilder_Finish, PutFixed16, PutFixed32, uses_hash.
  rewrite fold_PutFixed32. destruct (_ && _); cbn [snd]; by rewrite <- !app_assoc.
Qed.

Lemma slen_hash_bytes h : HashIndexBuilder_Valid h = true ->
  slen (hash_bytes h) = HashIndexBuilder_EstimateSize h.
Proof.
  intros Hv. destruct (num_buckets_size h Hv) as (Hf & H1 & ->). unfold hash_bytes.
  rewrite slen_app, slen_EncodeFixed16. unfold slen. rewrite length_map, length_buckets. lia.
Qed.

Lemma MakeBlock_binary pre n : let contents := pre ++ EncodeFixed32 (PackIndexTypeAndNumRestarts kDataBlockBinarySearch n) in
  fits 31 n -> 4 * n <= slen pre -> slen contents < 2 ^ 31 ->
  MakeBlock contents = {| contents_ := contents; size_ := slen contents; restart_offset_ := slen pre - 4 * n;
    block_num_restarts_ := n; num_buckets_ := 0 |}.
Proof.
  intros contents Hn Hpre Hsz. destruct (footer_roundtrip kDataBlockBinarySearch n Hn) as [Hrt Hf].
  assert (Hs : slen contents = slen pre + 4) by (unfold contents; by rewrite slen_app, slen_EncodeFixed32).
  pose proof (slen_nonneg pre).
  assert (Hd : DecodeFixed32 (sdrop (slen contents - 4) contents) = n).
  { unfold contents at 2. rewrite sdrop_app_exact by lia. rewrite <- (app_nil_r (EncodeFixed32 _)).
    by apply DecodeFixed32_Encode. }
  assert (Hnr : NumRestarts contents (slen contents) = n).
  { unfold NumRestarts. rewrite Hd. destruct (_ >? _); [done |]. by rewrite (Hrt : UnPackIndexTypeAndNumRestarts n = _). }
  assert (Hit : IndexType contents (slen contents) = kDataBlockBinarySearch).
  { unfold IndexType. destruct (_ >? _); [done |]. rewrite Hd.
    by rewrite (Hrt : UnPackIndexTypeAndNumRestarts n = _). }
  unfold MakeBlock. rewrite Hnr, Hit. case Z.ltb_spec; [lia | intros _]. unfold fits in Hn.
  rewrite (wrap_small 32 (slen contents)), (wrap_small 32 (1 + n)) by (unfold fits; lia).
  rewrite wrap_small by (unfold fits; lia).
  replace (slen contents - (1 + n) * 4) with (slen pre - 4 * n) by lia.
  rewrite Z.gtb_ltb. case Z.ltb_spec; [lia | done].
Qed.

Lemma MakeBlock_hash pre buckets nb n : let contents := pre ++ (buckets ++ EncodeFixed16 nb) ++
    EncodeFixed32 (PackIndexTypeAndNumRestarts kDataBlockBinaryAndHash n) in
  fits 31 n -> fits 16 nb -> slen buckets = nb -> 4 * n <= slen pre ->
  slen contents <= kMaxBlockSizeSupportedByHashIndex ->
  MakeBlock contents = {| contents_ := contents; size_ := slen contents; restart_offset_ := slen pre - 4 * n;
    block_num_restarts_ := n; num_buckets_ := nb |}.
Proof.
  intros contents Hn Hnb Hb Hpre Hsz. destruct (footer_roundtrip kDataBlockBinaryAndHash n Hn) as [Hrt Hf].
  change kMaxBlockSizeSupportedByHashIndex with 65536 in *.
  assert (Hs : slen contents = slen pre + nb + 6).
  { unfold contents. rewrite !slen_app, slen_EncodeFixed32, slen_EncodeFixed16. lia. }
  pose proof (slen_nonneg pre). unfold fits in Hn, Hnb.
  assert (Hd : DecodeFixed32 (sdrop (slen contents - 4) contents) = PackIndexTypeAndNumRestarts kDataBlockBinaryAndHash n).
  { unfold contents at 2. rewrite app_assoc, sdrop_app_exact by (rewrite !slen_app, slen_EncodeFixed16; lia).
    rewrite <- (app_nil_r (EncodeFixed32 _)). by apply DecodeFixed32_Encode. }
  assert (Hle : (slen contents >? kMaxBlockSizeSupportedByHashIndex) = false).
  { change kMaxBlockSizeSupportedByHashIndex with 65536. rewrite Z.gtb_ltb. apply Z.ltb_ge. lia. }
  assert (Hmap : DecodeFixed16 (sdrop (slen contents - 4 - 2) contents) = nb).
  { unfold contents at 2. rewrite sdrop_app_ge, <- !app_assoc, sdrop_app_exact by lia.
    by apply DecodeFixed16_Encode. }
  unfold MakeBlock, NumRestarts, IndexType. rewrite Hle, Hd, Hrt. cbn [fst snd].
  case Z.ltb_spec; [lia | intros _]. case Z.ltb_spec; [lia | intros _].
  unfold HashIndex_Initialize. rewrite (wrap_small 16 (slen contents - 4)) by (unfold fits; lia).
  rewrite Hmap, (wrap_small 16) by (unfold fits; lia). rewrite wrap_small by (unfold fits; lia).
  replace (slen contents - 4 - 2 - nb - n * 4) with (slen pre - 4 * n) by lia.
  rewrite Z.gtb_ltb. case Z.ltb_spec; [lia | done].
Qed.

Lemma MakeBlock_Finish b kvs es : built b kvs es -> let contents := (BlockBuilder_Finish b).2 in
  slen contents < 2 ^ 31 ->
  MakeBlock contents = {| contents_ := contents; size_ := slen contents;
    restart_offset_ := slen (buffer_ b); block_num_restarts_ := slen (restarts_of b);
    num_buckets_ := if uses_hash b then HashIndexBuilder_num_buckets (data_block_hash_index_builder_ b) else 0 |}.
Proof.
  intros B contents Hsz. unfold contents in *. rewrite Finish_contents in *.
  pose proof (slen_restart_bytes (restarts_of b)) as Hrb. pose proof (slen_nonneg (buffer_ b)).
  pose proof (slen_nonneg (restarts_of b)).
  assert (Hn : fits 31 (slen (restarts_of b))).
  { rewrite !slen_app in Hsz. pose proof (slen_nonneg (block_tail b)). unfold fits. lia. }
  unfold block_tail in *. rewrite wrap_small in * by (eapply fits_mono; [| done]; lia).
  rewrite app_assoc in *. set (pre := buffer_ b ++ restart_bytes (restarts_of b)) in *.
  assert (Hpre : slen pre = slen (buffer_ b) + 4 * slen (restarts_of b)) by (unfold pre; rewrite slen_app; lia).
  replace (slen (buffer_ b)) with (slen pre - 4 * slen (restarts_of b)) by lia.
  destruct (uses_hash b) eqn:Hu.
  - unfold uses_hash in Hu. apply andb_prop in Hu as [Hv Hest]. bool_to_prop.
    destruct (num_buckets_size _ Hv) as (Hf & H1 & He).
    apply MakeBlock_hash; [done | done | | lia |].
    + unfold slen. rewrite length_map, length_buckets. lia.
    + rewrite slen_app. unfold CurrentSizeEstimate in Hest. rewrite Hv, (bt_estimate _ _ _ B) in Hest.
      rewrite slen_app, slen_EncodeFixed32. pose proof (slen_hash_bytes _ Hv) as Hh. unfold hash_bytes in Hh.
      rewrite Hh. lia.
  - apply MakeBlock_binary; [done | lia | done].
Qed.

(** * A finished block is well-formed *)

Section Finished.
Context (b : BlockBuilder) (kvs : list (bytes * bytes)) (es : list entry) (B : built b kvs es)
  (Hfit : kvs_fit kvs) (c : BlockConfig).

Definition reads_block : Prop :=
  data_ c = Some (BlockBuilder_Finish b).2 /\ restarts_ c = slen (buffer_ b) /\
  num_restarts_ c = slen (restarts_of b) /\ slen (BlockBuilder_Finish b).2 < 2 ^ 31.
Context (R : reads_block).

Lemma entry_kv i e : es !! i = Some e -> exists kv, kvs !! i = Some kv /\
  e_key e = MaybeStripTimestampFromKey b kv.1 /\ e_val e = kv.2 /\
  slen (e_key e) < 2 ^ 32 /\ slen (e_val e) < 2 ^ 32.
Proof.
  intros He. pose proof (lookup_lt_Some _ _ _ He) as Hi. rewrite (bt_length _ _ _ B) in Hi.
  destruct (lookup_lt_is_Some_2 kvs i Hi) as [kv Hkv]. exists kv.
  destruct (bt_kv B i e kv He Hkv) as [E1 E2]. split_and!; [done.. | |].
  - rewrite E1. pose proof (slen_MaybeStrip b kv.1).
    pose proof (Forall_lookup_1 _ _ _ _ Hfit Hkv) as [? _]. lia.
  - rewrite E2. by pose proof (Forall_lookup_1 _ _ _ _ Hfit Hkv) as [_ ?].
Qed.

Lemma off_at_boff i : off_at c es i = boff (buffer_ b) es i.
Proof. destruct R as (_ & Hr & _). unfold off_at, boff. by rewrite Hr. Qed.

Lemma block_bytes_contents :
  block_bytes c = buffer_ b ++ restart_bytes (restarts_of b) ++ block_tail b.
Proof. destruct R as (Hd & _). unfold block_bytes. rewrite Hd, <- Finish_contents. done. Qed.

Lemma contents_at i e : es !! i = Some e -> exists rest,
  sdrop (e_off e) (block_bytes c) = entry_bytes e ++ rest /\
  e_off e + slen (entry_bytes e) <= slen (buffer_ b).
Proof.
  intros He. destruct (bt_bytes B i e He) as (H0 & (rest & Hr) & _).
  rewrite block_bytes_contents. assert (Hl := f_equal slen Hr). rewrite slen_sdrop, slen_app in Hl. pose proof (slen_nonneg rest).
  pose proof (slen_entry_header (e_shared e) (e_unshared e) (slen (e_val e))).
  assert (3 <= slen (entry_bytes e)) by (unfold entry_bytes; slia).
  eexists. rewrite sdrop_app_le, Hr, <- app_assoc by lia. split; [done | lia].
Qed.

Lemma contents_slices i e : es !! i = Some e ->
  slice_at c (e_ptr e) (e_unshared e) = sdrop (e_shared e) (e_key e) /\
  slice_at c (e_slice e).1 (e_slice e).2 = e_val e.
Proof.
  intros He. destruct (contents_at i e He) as (rest & Hr & _).
  destruct (bt_bytes B i e He) as (H0 & _ & Hp & _). pose proof (bt_shared _ _ _ B i e He).
  set (h := entry_header (e_shared e) (e_unshared e) (slen (e_val e))) in *.
  pose proof (slen_nonneg h). assert (Hu : slen (sdrop (e_shared e) (e_key e)) = e_unshared e)
    by (unfold e_unshared; slia).
  assert (Hsd : sdrop (e_ptr e) (block_bytes c) = sdrop (e_shared e) (e_key e) ++ e_val e ++ rest).
  { rewrite Hp, <- sdrop_sdrop, Hr by lia. unfold entry_bytes. rewrite <- !app_assoc.
    by rewrite sdrop_app_exact. }
  unfold slice_at, e_slice. cbn [fst snd]. split.
  - rewrite Hsd. by apply stake_app_exact.
  - rewrite <- sdrop_sdrop, Hsd by (unfold e_unshared in *; lia).
    rewrite sdrop_app_exact by done. by apply stake_app_exact.
Qed.

Lemma decodes_entries i e : es !! i = Some e ->
  DecodeEntry (block_bytes c) (e_off e) (restarts_ c) =
    Some (e_ptr e, e_shared e, e_unshared e, slen (e_val e)) /\
  CheckAndDecodeEntry (block_bytes c) (e_off e) (restarts_ c) =
    Some (e_ptr e, e_shared e, e_unshared e, slen (e_val e)).
Proof.
  intros He. destruct (contents_at i e He) as (rest & Hr & Hle).
  destruct (bt_bytes B i e He) as (H0 & _ & -> & _). destruct R as (Hd & Hrs & _ & Hsz).
  pose proof (bt_shared _ _ _ B i e He). destruct (entry_kv i e He) as (kv & _ & _ & _ & Hk & Hv).
  assert (Hc : slen (buffer_ b) <= slen (block_bytes c)).
  { rewrite block_bytes_contents. slia. }
  assert (Hcb : slen (block_bytes c) < 2 ^ 31) by (unfold block_bytes; by rewrite Hd).
  pose proof (slen_nonneg (e_val e)). pose proof (slen_nonneg (e_key e)).
  unfold entry_bytes in Hr, Hle. rewrite <- app_assoc in Hr. rewrite !slen_app, slen_sdrop in Hle.
  eapply decode_entry; [.. | exact Hr | | | |]; unfold e_unshared, fits in *; lia.
Qed.

Lemma finished_wf decode is_user : decode = DecodeEntry \/ decode = CheckAndDecodeEntry ->
  (pad_min_timestamp_ c = true -> ts_sz_ c = 8 /\
     (is_user = false -> forall i e, es !! i = Some e -> 8 <= slen (e_key e))) ->
  wf_block c decode is_user (Z.to_nat (block_restart_interval_ b)) es.
Proof.
  intros Hdec Hpad. pose proof R as (Hd & Hrs & Hn & Hsz). pose proof (bt_counter _ _ _ B) as (_ & Hn1 & _).
  pose proof (bt_interval _ _ _ B). rewrite Finish_contents in Hsz.
  pose proof (slen_restart_bytes (restarts_of b)) as Hrb. pose proof (slen_nonneg (block_tail b)).
  pose proof (slen_nonneg (buffer_ b)). pose proof (slen_nonneg (restarts_of b)).
  rewrite !slen_app in Hsz.
  assert (Hres : forall r : nat, Z.of_nat r < num_restarts_ c -> exists o, restarts_of b !! r = Some o).
  { intros r Hr. apply lookup_lt_is_Some_2. rewrite Hn in Hr. unfold slen in Hr. lia. }
  constructor.
  - rewrite Hd. eauto.
  - rewrite Hn. unfold slen in *. lia.
  - rewrite Hrs. lia.
  - lia.
  - intros i e He. destruct (decodes_entries i e He). by destruct Hdec as [-> | ->].
  - apply contents_slices.
  - intros i e He. rewrite off_at_boff. destruct (bt_bytes B i e He) as (Ho0 & _ & Hp & Hnx).
    rewrite Hnx, Hp. pose proof (bt_shared _ _ _ B i e He).
    pose proof (slen_entry_header (e_shared e) (e_unshared e) (slen (e_val e))).
    unfold entry_bytes, e_unshared in *. slia.
  - apply (bt_shared _ _ _ B).
  - apply (bt_prefix _ _ _ B).
  - rewrite off_at_boff. apply (bt_first _ _ _ B).
  - intros r Hr. destruct (Hres r Hr) as [o Ho]. destruct (bt_restarts B r o Ho) as (E & Hs0 & _).
    split; [| done]. rewrite off_at_boff, <- E. unfold GetRestartPoint.
    rewrite block_bytes_contents, Hrs, <- sdrop_sdrop, sdrop_app_exact by (done || lia).
    apply restart_bytes_lookup; [| done]. rewrite E. unfold boff.
    destruct (es !! _) as [e |] eqn:He; [| unfold fits; lia].
    destruct (contents_at _ e He) as (_ & _ & Hle). destruct (bt_bytes B _ e He) as (H0e & _).
    pose proof (slen_nonneg (entry_bytes e)). unfold fits. lia.
  - intros r Hne Hr. destruct (Hres r Hr) as [o Ho]. by apply (bt_restarts B r o Ho).
  - intros Hp. destruct (Hpad Hp) as [-> H8]. split; [done |]. intros i e He.
    destruct (entry_kv i e He) as (kv & _ & _ & _ & Hk & _). split; [done |]. eauto.
Qed.
End Finished.

(** * Reading back what was written *)

(** The state of a new iterator. *)
Lemma new_iterator_shows {C : Comparator} b kvs es g persisted is_user interval empty :
  built b kvs es -> slen (BlockBuilder_Finish b).2 < 2 ^ 31 ->
  let ci := new_iterator (MakeBlock (BlockBuilder_Finish b).2) g persisted is_user interval empty in
  reads_block b ci.1 /\ at_end ci.1 is_user es ci.2 /\ global_seqno_ ci.1 = g /\
  ts_sz_ ci.1 = timestamp_size /\ pad_min_timestamp_ ci.1 = (timestamp_size >? 0) && negb persisted /\
  entries_per_restart_ ci.1 = interval /\
  hash_buckets_ ci.1 = if uses_hash b
    then Some (HashIndexBuilder_num_buckets (data_block_hash_index_builder_ b)) else None.
Proof.
  intros B Hsz. cbv zeta. rewrite (MakeBlock_Finish b kvs es B Hsz). unfold new_iterator.
  cbn [size_ block_num_restarts_ contents_ restart_offset_ num_buckets_].
  pose proof (bt_counter _ _ _ B) as (_ & Hn & _).
  assert (H8 : 8 <= slen (BlockBuilder_Finish b).2).
  { rewrite Finish_contents. unfold block_tail. rewrite !slen_app, slen_restart_bytes, slen_EncodeFixed32.
    assert (1 <= slen (restarts_of b)) by (unfold slen; lia). slen_facts. lia. }
  case Z.ltb_spec; [lia | intros _]. case Z.eqb_spec; [unfold slen; lia | intros _].
  cbn [negb andb fst snd]. split_and!; try done.
  - split; [| done]. split_and!; [| done |].
    + split_and!; [| by destruct is_user | done]. by vm_compute.
    + exists 0%nat. intros m ce Hm. discriminate.
  - cbn. destruct (uses_hash b) eqn:Hu; [| done]. unfold uses_hash in Hu. apply andb_prop in Hu as [Hv _].
    destruct (num_buckets_size _ Hv) as (_ & H1 & _). case Z.eqb_spec; [lia | done].
Qed.

(** What an iterator shows to its user. *)
Definition presents {C : Comparator} (c : BlockConfig) (I : Z) (kvs : list (bytes * bytes))
    (expose : bytes -> bytes) (it : BlockIter) (o : option nat) : Prop :=
  status_ it = IterOk /\
  match o with
  | None => Valid c it = false
  | Some i => Valid c it = true /\ exists kv, kvs !! i = Some kv /\
      iter_key c it = expose kv.1 /\ iter_value c it = kv.2 /\
      (entries_per_restart_ c = I -> cur_entry_idx_ it = Z.of_nat i)
  end.

(** The order of the keys, as an iterator compares them. *)
Lemma cursor_ops_map cmp1 cmp2 (f : bytes -> bytes) keys o ops :
  (forall k t, In k keys -> cmp1 k t = cmp2 (f k) t) ->
  cursor_ops cmp1 keys o ops = cursor_ops cmp2 (map f keys) o ops.
Proof.
  intros H. assert (Hi : forall (g : Z -> bool) t, first_index (fun k => g (cmp1 k t)) keys =
    first_index (fun k => g (cmp2 k t)) (map f keys)).
  { intros g t. clear -H. induction keys as [| k keys IH]; [done |]. cbn [first_index map].
    rewrite H by (by left). rewrite IH; [done |]. intros; apply H; by right. }
  unfold cursor_ops. apply fold_left_pointwise. intros [o1 |] op; [| done].
  unfold cursor_op. rewrite length_map. 
  destruct op as [| | | | t | t]; try done.
  - by rewrite (Hi (fun z => 0 <=? z)).
  - by rewrite (Hi (fun z => 0 <? z)).
Qed.

Lemma add_all_config kvs : forall b, 
  block_restart_interval_ (add_all b kvs) = block_restart_interval_ b /\
  forall k, MaybeStripTimestampFromKey (add_all b kvs) k = MaybeStripTimestampFromKey b k.
Proof.
  induction kvs as [| kv kvs IH]; intros b; [done |]. cbn [add_all fold_left].
  destruct (IH (Add b kv.1 kv.2 [])) as [E1 E2].
  destruct (Add_config b kv.1 kv.2 []) as (C1 & _ & _ & C4 & _). unfold add_all in *.
  split; [congruence |]. intros k. by rewrite E2, C4.
Qed.

(** The key that comes back for an internal key: with the minimum timestamp if timestamps
    are not stored, and with the sequence number of the file if it has one. *)
Definition read_key {C : Comparator} (persisted : bool) (key : bytes) : bytes :=
  if (timestamp_size >? 0) && negb persisted
  then ReplaceInternalKeyWithMinTimestamp [] key timestamp_size else key.
Definition exposed_key {C : Comparator} (persisted : bool) (g : Z) (key : bytes) : bytes :=
  let key := read_key persisted key in
  if g =? kDisableGlobalSequenceNumber then key else UpdateInternalKey key g (ExtractValueType key).

Lemma pad_strip key : 16 <= slen key ->
  PadInternalKeyWithMinTimestamp [] (StripTimestampFromInternalKey [] key 8) 8 =
  ReplaceInternalKeyWithMinTimestamp [] key 8.
Proof.
  intros Hk. unfold PadInternalKeyWithMinTimestamp, StripTimestampFromInternalKey,
    ReplaceInternalKeyWithMinTimestamp, kNumInternalBytes. rewrite !app_nil_l.
  set (A := stake (slen key - 8 - 8) key). set (F := stake 8 (sdrop (slen key - 8) key)).
  assert (HA : slen A = slen key - 16) by (unfold A; slia).
  assert (HF : slen F = 8) by (unfold F; slia).
  rewrite slen_app, HF, stake_app_exact, sdrop_app_exact, (stake_ge 8) by lia. done.
Qed.

Lemma StronglySorted_at {A} (R : A -> A -> Prop) l : StronglySorted R l ->
  forall i j x y, (i < j)%nat -> l !! i = Some x -> l !! j = Some y -> R x y.
Proof.
  induction 1 as [| a l _ IH Ha]; intros i j x y Hij Hi Hj; [done |].
  destruct j as [| j]; [lia |]. destruct i as [| i].
  - injection Hi as ->. by apply (Forall_lookup_1 _ _ j y Ha).
  - apply (IH i j); [lia | done | done].
Qed.

(** Internal keys of blocks, and their order. *)
Section DataBlocks.
Context {C : Comparator} {CL : ComparatorLaws C} (persisted : bool) (g : Z) (kvs : list (bytes * bytes)).

Definition keys_long : Prop :=
  Forall (fun kv => 8 + (if persisted then 0 else timestamp_size) <= slen kv.1) kvs.
Definition timestamps_ok : Prop := persisted = true \/ timestamp_size = 0 \/ timestamp_size = 8.
Definition keys_increasing : Prop :=
  StronglySorted (fun a b => InternalKeyComparator_Compare (exposed_key persisted g a) (exposed_key persisted g b) < 0)
    (map fst kvs).
Context (Hlong : keys_long) (Hts : timestamps_ok) (Hg : g = kDisableGlobalSequenceNumber \/ fits 56 g).

Lemma pad_cases : (timestamp_size >? 0) && negb persisted = true ->
  timestamp_size = 8 /\ persisted = false.
Proof.
  intros [Hp Hn]%andb_prop. rewrite Z.gtb_ltb in Hp. bool_to_prop.
  destruct Hts as [E | [E | E]]; [congruence | lia | done].
Qed.

Lemma shown_read_key hash I delta kv : kv ∈ kvs ->
  shown_key ((timestamp_size >? 0) && negb persisted) false
    (MaybeStripTimestampFromKey (MakeBlockBuilder I delta false hash timestamp_size persisted false) kv.1) =
  read_key persisted kv.1 /\ 8 <= slen (read_key persisted kv.1) /\
  ((timestamp_size >? 0) && negb persisted = true ->
   8 <= slen (MaybeStripTimestampFromKey (MakeBlockBuilder I delta false hash timestamp_size persisted false) kv.1)).
Proof.
  intros Hin. unfold shown_key, read_key, MaybeStripTimestampFromKey. cbn [strip_ts_sz_ keys_are_user_keys_ MakeBlockBuilder].
  pose proof (proj1 (List.Forall_forall _ _) Hlong kv ltac:(by apply list_elem_of_In)) as Hk. cbn beta in Hk.
  destruct ((timestamp_size >? 0) && negb persisted) eqn:Hpad.
  - destruct (pad_cases Hpad) as [Hts8 ->]. rewrite Hts8 in *. cbn [Z.gtb Z.compare].
    rewrite pad_strip by lia. split_and!; [done | |];
      unfold ReplaceInternalKeyWithMinTimestamp, StripTimestampFromInternalKey, kNumInternalBytes; intros; slia.
  - pose proof timestamp_size_nonneg. destruct persisted; cbn [negb] in *; [split_and!; [done | lia | done] |].
    rewrite andb_true_r in Hpad. rewrite Hpad. split_and!; [done | lia | done].
Qed.

Lemma ExtractUserKey_Update k s t : 8 <= slen k -> ExtractUserKey (UpdateInternalKey k s t) = ExtractUserKey k.
Proof. intros H8. unfold UpdateInternalKey. by rewrite ExtractUserKey_footer. Qed.

(** The comparison with the sequence number of the file is the comparison of the
    exposed keys. *)
Lemma key_compare_exposed c k t : global_seqno_ c = g ->  8 <= slen k ->
  key_compare c false k t = InternalKeyComparator_Compare
    (if g =? kDisableGlobalSequenceNumber then k else UpdateInternalKey k g (ExtractValueType k)) t.
Proof.
  intros Hc H8. unfold key_compare. rewrite Hc. case Z.eqb_spec; intros Hd; [done |].
  destruct Hg as [| Hf]; [done |].
  unfold InternalKeyComparator_Compare_seqno, InternalKeyComparator_Compare.
  rewrite ExtractUserKey_Update, (proj2 (Z.eqb_neq _ _) Hd), Z.eqb_refl by done.
  change (DecodeFixed64 (sdrop (slen ?x - kNumInternalBytes) ?x)) with (ExtractInternalKeyFooter x).
  unfold UpdateInternalKey. change (Z.lor (u64 (Z.shiftl ?s 8)) ?t) with (PackSequenceAndType s t).
  rewrite ExtractInternalKeyFooter_footer; [done |].
  apply PackSequenceAndType_fits; [done |]. apply (proj2 (parts_wf k)).
Qed.

(** A key before a key that is not after the target is before the target. *)
Lemma Compare_lt_trans a b t : InternalKeyComparator_Compare a b < 0 ->
  InternalKeyComparator_Compare b t <= 0 -> InternalKeyComparator_Compare a t < 0.
Proof.
  rewrite !InternalKeyComparator_Compare_parts. intros H1 H2.
  destruct (Z.lt_ge_cases (InternalKeyComparator_Compare_parsed (parts a) (parts t)) 0) as [| Hge]; [done |].
  pose proof (Compare_parsed_sgn (parts a) (parts t)). pose proof (Compare_parsed_sgn (parts a) (parts b)).
  pose proof (Compare_parsed_trans (parts b) (parts t) (parts a) H2 ltac:(lia)). lia.
Qed.

(** A data block that was built from [kvs], and a new iterator over it. *)
Context (I : Z) (delta : bool) (hash : option (nat -> Z)) (interval empty : Z).
Definition data_builder : BlockBuilder :=
  add_all (MakeBlockBuilder I delta false hash timestamp_size persisted false) kvs.
Definition data_iterator : BlockConfig * BlockIter :=
  NewDataIterator (MakeBlock (BlockBuilder_Finish data_builder).2) g persisted interval empty.
Context (HI : 1 <= I) (Hfit : kvs_fit kvs) (Hsz : slen (BlockBuilder_Finish data_builder).2 < 2 ^ 31).

Lemma data_builder_built : exists es, built data_builder kvs es.
Proof.
  apply (add_all_built kvs _ [] []); [by apply built_empty | done |].
  change (slen (buffer_ data_builder) < 2 ^ 32).
  rewrite Finish_contents in Hsz. rewrite slen_app in Hsz.
  pose proof (slen_nonneg (restart_bytes (restarts_of data_builder) ++ block_tail data_builder)). lia.
Qed.

Section Entries.
Context (es : list entry) (B : built data_builder kvs es).
Definition dconf : BlockConfig := data_iterator.1.

Lemma data_shows : reads_block data_builder dconf /\ at_end dconf false es data_iterator.2 /\
  global_seqno_ dconf = g /\ ts_sz_ dconf = timestamp_size /\
  pad_min_timestamp_ dconf = (timestamp_size >? 0) && negb persisted /\
  entries_per_restart_ dconf = interval /\ hash_buckets_ dconf = if uses_hash data_builder
    then Some (HashIndexBuilder_num_buckets (data_block_hash_index_builder_ data_builder)) else None.
Proof. by apply (new_iterator_shows data_builder kvs es). Qed.

Lemma data_entry i e : es !! i = Some e -> exists kv, kvs !! i = Some kv /\
  shown_key (pad_min_timestamp_ dconf) false (e_key e) = read_key persisted kv.1 /\ e_val e = kv.2 /\
  8 <= slen (read_key persisted kv.1) /\ (pad_min_timestamp_ dconf = true -> 8 <= slen (e_key e)).
Proof.
  intros He. destruct data_shows as (_ & _ & _ & _ & Hp & _). rewrite Hp.
  destruct (entry_kv data_builder kvs es B Hfit i e He) as (kv & Hkv & E1 & E2 & _). exists kv.
  unfold data_builder in E1. rewrite (proj2 (add_all_config kvs _)) in E1. rewrite E1.
  destruct (shown_read_key hash I delta kv (list_elem_of_lookup_2 _ _ _ Hkv)) as (S1 & S2 & S3). done.
Qed.

Lemma data_wf : wf_block dconf DecodeEntry false (Z.to_nat I) es.
Proof.
  destruct data_shows as (R & _ & _ & Hts' & Hp & _).
  replace I with (block_restart_interval_ data_builder)
    by (unfold data_builder; by rewrite (proj1 (add_all_config kvs _))).
  apply (finished_wf data_builder kvs es B Hfit dconf R); [by left |].
  intros Hpad. split.
  - rewrite Hts'. rewrite Hp in Hpad. by destruct (pad_cases Hpad).
  - intros _ i e He. destruct (data_entry i e He) as (_ & _ & _ & _ & _ & H8). auto.
Qed.

Lemma data_cmp i kv t : kvs !! i = Some kv ->
  cmp_at dconf false es i t = InternalKeyComparator_Compare (exposed_key persisted g kv.1) t.
Proof.
  intros Hkv. unfold cmp_at. pose proof (bt_length _ _ _ B) as Hl.
  destruct (lookup_lt_is_Some_2 es i) as [e He]; [apply lookup_lt_Some in Hkv; lia |]. rewrite He.
  destruct (data_entry i e He) as (kv' & Hkv' & -> & _ & H8 & _). assert (kv' = kv) as -> by congruence.
  destruct data_shows as (_ & _ & Hgc & _). by rewrite key_compare_exposed.
Qed.

Lemma data_sorted : keys_increasing -> keys_sorted dconf false es.
Proof.
  intros Hinc i j t Hij. pose proof (bt_length _ _ _ B) as Hl.
  destruct (lookup_lt_is_Some_2 kvs i ltac:(lia)) as [kvi Hi].
  destruct (lookup_lt_is_Some_2 kvs j ltac:(lia)) as [kvj Hj].
  rewrite (data_cmp i kvi t Hi), (data_cmp j kvj t Hj). apply Compare_lt_trans.
  apply (StronglySorted_at _ _ Hinc i j); [lia | |]; rewrite list_lookup_fmap; [by rewrite Hi | by rewrite Hj].
Qed.

Lemma data_shown_keys : shown_keys dconf false es = map (fun kv => read_key persisted kv.1) kvs.
Proof.
  apply list_eq. intros i. unfold shown_keys. rewrite !list_lookup_fmap.
  destruct (es !! i) as [e |] eqn:He.
  - destruct (data_entry i e He) as (kv & -> & E & _). cbn [fmap option_fmap option_map]. by rewrite E.
  - apply lookup_ge_None_1 in He. rewrite (bt_length _ _ _ B) in He. by rewrite lookup_ge_None_2.
Qed.

(** The positions of a cursor, on the keys that the iterator exposes. *)
Lemma data_cursor_ops ops :
  cursor_ops (key_compare dconf false) (shown_keys dconf false es) None ops =
  cursor_ops InternalKeyComparator_Compare (map (fun kv => exposed_key persisted g kv.1) kvs) None ops.
Proof.
  rewrite data_shown_keys, (cursor_ops_map _ InternalKeyComparator_Compare
    (fun k => if g =? kDisableGlobalSequenceNumber then k else UpdateInternalKey k g (ExtractValueType k))).
  - by rewrite map_map.
  - intros k t Hin. destruct data_shows as (_ & _ & Hgc & _). apply key_compare_exposed; [done |].
    apply in_map_iff in Hin as (kv & <- & Hin). apply list_elem_of_In in Hin.
    apply (shown_read_key hash I delta kv Hin).
Qed.

Lemma data_cursor : keys_increasing -> forall ops o,
  cursor_ops InternalKeyComparator_Compare (map (fun kv => exposed_key persisted g kv.1) kvs) None ops = Some o ->
  exists it, run_ops dconf DecodeEntry false data_iterator.2 ops = Some it /\
    shows dconf false (Z.to_nat I) es it o.
Proof.
  intros Hinc ops o Ho. destruct data_shows as (_ & Hend & _).
  apply (run_ops_refines dconf DecodeEntry false (Z.to_nat I) es data_wf (data_sorted Hinc) false ops
    data_iterator.2 None o Hend). by rewrite data_cursor_ops.
Qed.

Lemma data_lower_bound t j : lower_bound dconf false es t j ->
  first_index (fun k => 0 <=? InternalKeyComparator_Compare k t) (map (fun kv => exposed_key persisted g kv.1) kvs) = j.
Proof.
  intros (Hle & Hlow & Hat). pose proof (bt_length _ _ _ B) as Hl.
  apply first_index_unique; [rewrite length_map; lia | |].
  - intros i k Hi Hk. rewrite list_lookup_fmap in Hk. apply fmap_Some in Hk as (kv & Hkv & ->).
    rewrite <- (data_cmp i kv t Hkv). apply Z.leb_gt. auto.
  - intros k Hk. rewrite list_lookup_fmap in Hk. apply fmap_Some in Hk as (kv & Hkv & ->).
    rewrite <- (data_cmp j kv t Hkv). apply Z.leb_le, Hat. apply lookup_lt_Some in Hkv. lia.
Qed.

Lemma data_iter_key it i kv : at_entry dconf false es it i -> kvs !! i = Some kv ->
  iter_key dconf it = exposed_key persisted g kv.1.
Proof.
  intros ((Hraw & _) & _ & e & He & _ & _ & Hk) Hkv. destruct Hraw as (Hw & Hu & _).
  destruct (data_entry i e He) as (kv' & Hkv' & E & _ & H8 & _). assert (kv' = kv) as -> by congruence.
  rewrite E in Hk. destruct data_shows as (_ & _ & Hgc & _).
  unfold iter_key, exposed_key. rewrite Hu, Hgc. destruct (_ =? _); [done |].
  rewrite Hk. unfold SetInternalKey_user_key.
  match goal with |- GetKey (SetInternalKey_parts ?k ?p ?u ?s ?t ?ts) = _ =>
    destruct (SetInternalKey_parts_holds k p u s t ts) as (_ & -> & _) end.
  cbn [app from_option]. unfold UpdateInternalKey, GetUserKey, PackSequenceAndType. rewrite Hu. cbn [app].
  pose proof (slen_GetKey _ Hw) as Hl. rewrite Hk in Hl. unfold kNumInternalBytes.
  rewrite <- (stake_GetKey (raw_key_ it)) by (done || lia). by rewrite Hk, Hl.
Qed.

Lemma data_presents it o : shows dconf false (Z.to_nat I) es it o ->
  presents dconf I kvs (exposed_key persisted g) it o.
Proof.
  intros Hsh. split; [apply (shows_sane _ _ _ _ _ _ Hsh) |]. destruct o as [i |].
  - destruct Hsh as [Ha Hx]. split; [by apply (at_entry_valid dconf DecodeEntry false (Z.to_nat I) es data_wf it i) |].
    assert (Ha' := Ha). destruct Ha' as (_ & _ & e & He & _ & Hv & _).
    destruct (data_entry i e He) as (kv & Hkv & _ & Hval & _). exists kv. split_and!; [done | | |].
    + by apply (data_iter_key it i).
    + unfold iter_value. rewrite Hv, <- Hval. by apply (wf_slices data_wf i).
    + intros Hi. apply Hx. left. rewrite Hi. lia.
  - by apply (at_end_invalid dconf false es).
Qed.
End Entries.
End DataBlocks.
