(* ===== verification/BlockHash.v ===== *)
(** The hash index of data blocks (data_block_hash_index.cc): what the builder stores and
    what point lookups through it return. *)

From S2P Require Import Prelude Cursor Coding Hash Comparator DbFormat IterKey BlockBuilder BlockIter BlockCursor BlockProofs.

(** * The buckets *)

Definition bucket_of (nb : Z) (h : Z) : nat := Z.to_nat (u16 (h mod nb)).

(** A stored pair is found again, or its bucket is marked as a collision. *)
Lemma fill_bucket_kept nb pairs : forall buckets h r, 0 <= r <= kMaxRestartSupportedByHashIndex ->
  (nth (bucket_of nb h) buckets kNoEntry = r \/ nth (bucket_of nb h) buckets kNoEntry = kCollision) ->
  Forall (fun p => 0 <= p.2 <= kMaxRestartSupportedByHashIndex) pairs ->
  let v := nth (bucket_of nb h) (fold_left (fill_bucket nb) pairs buckets) kNoEntry in
  v = r \/ v = kCollision.
Proof.
  induction pairs as [| [h' r'] pairs IH]; intros buckets h r Hr Hv Hp; [done |].
  inversion_clear Hp as [| ? ? Hr' Hp']. cbn [snd] in Hr'. cbn [fold_left]. apply IH; [done | | done].
  unfold fill_bucket. fold (bucket_of nb h'). set (a := bucket_of nb h) in *. set (x := bucket_of nb h').
  unfold kNoEntry, kCollision, kMaxRestartSupportedByHashIndex in *.
  destruct (decide (a = x)) as [<- | Hne].
  - destruct (Z.eqb_spec (nth a buckets 255) 255); [lia |].
    destruct (Z.eqb_spec (nth a buckets 255) r') as [| Hd]; [done |]. cbn [negb].
    right. destruct (decide (a < length buckets)%nat).
    + by rewrite (nth_lookup_Some _ _ _ 254) by (by apply list_lookup_insert_eq).
    + rewrite nth_overflow in Hv by lia. lia.
  - destruct (Z.eqb_spec (nth x buckets 255) 255); [| destruct (negb _); [| done]];
      by rewrite !nth_lookup, list_lookup_insert_ne, <- nth_lookup by done.
Qed.

Lemma fill_bucket_new nb h r buckets : 0 <= r <= kMaxRestartSupportedByHashIndex ->
  (bucket_of nb h < length buckets)%nat ->
  let v := nth (bucket_of nb h) (fill_bucket nb buckets (h, r)) kNoEntry in v = r \/ v = kCollision.
Proof.
  intros Hr Hl. cbv zeta. unfold fill_bucket. fold (bucket_of nb h). set (a := bucket_of nb h) in *.
  destruct (_ =? kNoEntry); [left | destruct (Z.eqb_spec (nth a buckets kNoEntry) r); [by left | right]];
    cbn [negb]; by rewrite (nth_lookup_Some _ _ kNoEntry _ (list_lookup_insert_eq _ _ _ Hl)).
Qed.

Lemma fill_bucket_found nb pairs : forall buckets h r,
  Forall (fun p => 0 <= p.2 <= kMaxRestartSupportedByHashIndex) pairs -> In (h, r) pairs ->
  (bucket_of nb h < length buckets)%nat ->
  let v := nth (bucket_of nb h) (fold_left (fill_bucket nb) pairs buckets) kNoEntry in
  v = r \/ v = kCollision.
Proof.
  induction pairs as [| [h' r'] pairs IH]; intros buckets h r Hp Hin Hl; [done |].
  inversion_clear Hp as [| ? ? Hr' Hp']. cbn [fold_left]. destruct Hin as [[= -> ->] | Hin].
  - apply fill_bucket_kept; [done | by apply fill_bucket_new | done].
  - apply IH; [done.. |]. pose proof (length_fill_bucket nb [(h', r')] buckets) as E. cbn [fold_left] in E. lia.
Qed.

(** What a bucket holds was stored there. *)
Lemma fill_bucket_values nb pairs : forall buckets (P : Z -> Prop),
  (forall i, P (nth i buckets kNoEntry)) -> P kNoEntry -> P kCollision -> (forall p, In p pairs -> P p.2) ->
  forall i, P (nth i (fold_left (fill_bucket nb) pairs buckets) kNoEntry).
Proof.
  induction pairs as [| [h r] pairs IH]; intros buckets P Hb H1 H2 Hp; [done |]. cbn [fold_left].
  apply IH; [| done | done | intros; apply Hp; by right].
  intros i. unfold fill_bucket. set (x := Z.to_nat _).
  assert (Hins : forall v, P v -> P (nth i (<[x := v]> buckets) kNoEntry)).
  { intros v Hv. rewrite nth_lookup. destruct (decide (x = i)) as [<- | Hne].
    - destruct (decide (x < length buckets)%nat).
      + by rewrite list_lookup_insert_eq.
      + by rewrite lookup_ge_None_2 by (rewrite length_insert; lia).
    - rewrite list_lookup_insert_ne, <- nth_lookup by done. apply Hb. }
  destruct (_ =? kNoEntry); [apply Hins, (Hp (h, r)); by left |]. destruct (negb _); [by apply Hins | apply Hb].
Qed.

(** * What the builder collects *)

(** While the hash index is valid, it holds the hash of every user key with the number of
    its restart interval. *)
Definition hash_pairs_of (I : Z) (kvs : list (bytes * bytes)) : list (Z * Z) :=
  imap (fun i kv => (GetSliceHash (ExtractUserKey kv.1), Z.of_nat i / I)) kvs.

Definition hash_ok (b : BlockBuilder) (kvs : list (bytes * bytes)) : Prop :=
  HashIndexBuilder_Valid (data_block_hash_index_builder_ b) = true ->
  hash_and_restart_pairs_ (data_block_hash_index_builder_ b) = hash_pairs_of (block_restart_interval_ b) kvs /\
  Forall (fun p => 0 <= p.2 <= kMaxRestartSupportedByHashIndex)
    (hash_and_restart_pairs_ (data_block_hash_index_builder_ b)).

Lemma Add_hash b key value delta : data_block_hash_index_builder_ (Add b key value delta) =
  if HashIndexBuilder_Valid (data_block_hash_index_builder_ b)
  then HashIndexBuilder_Add (data_block_hash_index_builder_ b) (ExtractUserKey key)
         (slen (restarts_of (Add b key value delta)) - 1)
  else data_block_hash_index_builder_ b.
Proof.
  unfold Add, AddWithLastKeyImpl. cbn [use_delta_encoding_]. by destruct (use_delta_encoding_ b).
Qed.

Lemma hash_ok_add b kvs es key value delta : built b kvs es -> slen key < 2 ^ 32 ->
  slen value < 2 ^ 32 -> slen (buffer_ b) < 2 ^ 32 -> hash_ok b kvs ->
  hash_ok (Add b key value delta) (kvs ++ [(key, value)]).
Proof.
  intros B Hk Hv Hb Hok. pose proof (built_add b kvs es key value delta B Hk Hv Hb) as B'.
  destruct (Add_config b key value delta) as (C1 & _).
  pose proof (bt_counter _ _ _ B') as (_ & _ & Hlen). rewrite length_app, (bt_length _ _ _ B), C1 in Hlen.
  unfold hash_ok. rewrite Add_hash, C1. cbn [length] in Hlen.
  destruct (HashIndexBuilder_Valid (data_block_hash_index_builder_ b)) eqn:HV; [| congruence].
  destruct (Hok HV) as [Hp Hf]. unfold HashIndexBuilder_Add. rewrite Z.gtb_ltb.
  case Z.ltb_spec; intros Hmax; [done |]. intros _. cbn [hash_and_restart_pairs_].
  pose proof (bt_counter _ _ _ B') as (Hc & Hn & _). rewrite C1 in Hc. pose proof (bt_interval _ _ _ B) as HI.
  assert (Hcpos : 1 <= counter_ (Add b key value delta)).
  { destruct (Add_buffer b key value delta (bt_delta _ _ _ B) Hk Hv) as (_ & _ & ->).
    pose proof (bt_counter _ _ _ B) as (? & _). destruct (_ >=? _); lia. }
  assert (Er : slen (restarts_of (Add b key value delta)) - 1 = Z.of_nat (length kvs) / block_restart_interval_ b).
  { apply (Z.div_unique _ _ _ (counter_ (Add b key value delta) - 1)); [left; lia |]. unfold slen. lia. }
  split.
  - unfold hash_pairs_of. rewrite imap_app, Hp. f_equal. cbn [imap fst]. rewrite Nat.add_0_r. by rewrite Er.
  - apply Forall_app_2; [done |]. constructor; [| constructor]. cbn [snd]. unfold slen in *. lia.
Qed.

Lemma add_all_hash kvs : forall b kvs0 es0, built b kvs0 es0 -> hash_ok b kvs0 -> kvs_fit kvs ->
  slen (buffer_ (add_all b kvs)) < 2 ^ 32 -> hash_ok (add_all b kvs) (kvs0 ++ kvs).
Proof.
  induction kvs as [| [k v] kvs IH]; intros b kvs0 es0 B Hok Hf Hb.
  - by rewrite app_nil_r.
  - pose proof (add_all_buffer b _ (bt_delta _ _ _ B) Hf) as Hm.
    inversion_clear Hf as [| ? ? [Hk Hv] Hf'].
    change (add_all b ((k, v) :: kvs)) with (add_all (Add b k v []) kvs) in *.
    replace (kvs0 ++ (k, v) :: kvs) with ((kvs0 ++ [(k, v)]) ++ kvs) by (by rewrite <- app_assoc).
    apply (IH _ _ (es0 ++ [added_entry b k v])); [| | done | done].
    + apply built_add; [done.. | lia].
    + apply (hash_ok_add b kvs0 es0); [done.. | lia | done].
Qed.

(** * Looking up *)

Section Lookup.
Context (b : BlockBuilder) (kvs : list (bytes * bytes)) (es : list entry) (B : built b kvs es)
  (Hok : hash_ok b kvs) (Hu : uses_hash b = true) (c : BlockConfig) (R : reads_block b c).

Definition nb : Z := HashIndexBuilder_num_buckets (data_block_hash_index_builder_ b).
Definition lookup (u : bytes) : Z :=
  HashIndex_Lookup nb (block_bytes c) (restarts_ c + num_restarts_ c * 4) u.

Lemma hash_valid : HashIndexBuilder_Valid (data_block_hash_index_builder_ b) = true.
Proof. by apply andb_prop in Hu as [? _]. Qed.

Lemma bucket_in_range h : (bucket_of nb h < Z.to_nat nb)%nat.
Proof.
  destruct (num_buckets_size _ hash_valid) as (Hf & H1 & _). unfold fits in Hf. unfold bucket_of, nb.
  pose proof (Z.mod_pos_bound h (HashIndexBuilder_num_buckets (data_block_hash_index_builder_ b)) ltac:(lia)).
  rewrite wrap_small by (unfold fits; lia). lia.
Qed.

Lemma bucket_values (P : Z -> Prop) i : P kNoEntry -> P kCollision ->
  (forall p, In p (hash_pairs_of (block_restart_interval_ b) kvs) -> P p.2) ->
  P (nth i (HashIndexBuilder_buckets (data_block_hash_index_builder_ b)) kNoEntry).
Proof.
  intros H1 H2 Hp. unfold HashIndexBuilder_buckets. apply fill_bucket_values; [| done | done |].
  - intros j. rewrite nth_lookup. destruct (replicate _ _ !! j) as [v |] eqn:E; [| done].
    by apply lookup_replicate in E as [-> _].
  - by rewrite (proj1 (Hok hash_valid)).
Qed.

Lemma lookup_bucket u : lookup u =
  nth (bucket_of nb (GetSliceHash u)) (HashIndexBuilder_buckets (data_block_hash_index_builder_ b)) kNoEntry.
Proof.
  pose proof R as (_ & Hr & Hn & _). unfold lookup, HashIndex_Lookup. rewrite (block_bytes_contents b c R).
  rewrite Hr, Hn. set (x := u16 _). assert (0 <= x) by (apply wrap_fits; lia).
  pose proof (slen_restart_bytes (restarts_of b)). pose proof (slen_nonneg (restarts_of b)).
  pose proof (slen_nonneg (buffer_ b)).
  rewrite sdrop_app_ge, sdrop_app_ge by lia.
  replace (slen (buffer_ b) + slen (restarts_of b) * 4 + x - slen (buffer_ b) - slen (restart_bytes (restarts_of b)))
    with x by lia.
  unfold block_tail, hash_bytes. rewrite Hu. set (bk := HashIndexBuilder_buckets _).
  pose proof (bucket_in_range (GetSliceHash u)) as Hx. unfold bucket_of in Hx. fold x in Hx.
  assert (Hlen : (Z.to_nat x < length bk)%nat).
  { pose proof (length_buckets (data_block_hash_index_builder_ b)) as Hl. fold bk in Hl. unfold nb in Hx. lia. }
  unfold byte_at, sdrop. rewrite nth_lookup, lookup_drop, Nat.add_0_r, <- !app_assoc.
  rewrite lookup_app_l by (by rewrite length_map). rewrite list_lookup_fmap.
  unfold bucket_of. fold x. rewrite nth_lookup. destruct (lookup_lt_is_Some_2 _ _ Hlen) as [v Hv].
  rewrite Hv. cbn. apply byte_of_Z_small.
  pose proof (bucket_values (fun v => 0 <= v < 256) (Z.to_nat x)) as Hb. fold bk in Hb.
  rewrite nth_lookup, Hv in Hb. cbn in Hb. apply Hb; [done | done |].
  intros p Hp. rewrite <- (proj1 (Hok hash_valid)) in Hp.
  pose proof (proj1 (List.Forall_forall _ _) (proj2 (Hok hash_valid)) p Hp) as Hpr. cbn beta in Hpr.
  unfold kMaxRestartSupportedByHashIndex in Hpr. lia.
Qed.

Lemma pair_of_entry i kv : kvs !! i = Some kv ->
  In (GetSliceHash (ExtractUserKey kv.1), Z.of_nat i / block_restart_interval_ b)
    (hash_pairs_of (block_restart_interval_ b) kvs).
Proof.
  intros Hkv. apply list_elem_of_In, list_elem_of_lookup. exists i. unfold hash_pairs_of.
  by rewrite list_lookup_imap, Hkv.
Qed.

(** The lookup of a user key of the block gives the interval it is in, or a collision. *)
Lemma lookup_entry i kv u : kvs !! i = Some kv -> ExtractUserKey kv.1 = u ->
  lookup u = Z.of_nat i / block_restart_interval_ b \/ lookup u = kCollision.
Proof.
  intros Hkv <-. rewrite lookup_bucket. destruct (Hok hash_valid) as [Hp Hf].
  unfold HashIndexBuilder_buckets. fold nb. rewrite Hp in *. apply fill_bucket_found; [done | by apply pair_of_entry |].
  rewrite length_replicate. apply bucket_in_range.
Qed.

(** Every answer is a marker or the number of a restart interval. *)
Lemma lookup_range u : lookup u = kNoEntry \/ lookup u = kCollision \/
  exists i kv, kvs !! i = Some kv /\ lookup u = Z.of_nat i / block_restart_interval_ b.
Proof.
  rewrite lookup_bucket. apply (bucket_values (fun v => v = kNoEntry \/ v = kCollision \/
    exists i kv, kvs !! i = Some kv /\ v = Z.of_nat i / block_restart_interval_ b)); [by left | by right; left |].
  intros p Hp. right. right. apply list_elem_of_In, list_elem_of_lookup in Hp as [i Hi].
  unfold hash_pairs_of in Hi. rewrite list_lookup_imap in Hi.
  destruct (kvs !! i) as [kv |] eqn:E; [| done]. injection Hi as <-. by exists i, kv.
Qed.

Lemma interval_index i kv : kvs !! i = Some kv ->
  0 <= Z.of_nat i / block_restart_interval_ b < slen (restarts_of b) /\
  Z.of_nat i / block_restart_interval_ b <= kMaxRestartSupportedByHashIndex.
Proof.
  intros Hkv. destruct (Hok hash_valid) as [Hp Hf]. rewrite Hp in Hf.
  pose proof (proj1 (List.Forall_forall _ _) Hf _ (pair_of_entry i kv Hkv)) as Hr. cbn in Hr.
  apply lookup_lt_Some in Hkv. pose proof (bt_counter _ _ _ B) as (Hc & Hn & Hl).
  pose proof (bt_length _ _ _ B). pose proof (bt_interval _ _ _ B).
  split; [split; [lia |] | lia]. unfold slen. apply Z.div_lt_upper_bound; nia.
Qed.

(** The last restart point fits the byte that holds it. *)
Lemma last_restart : u8 (num_restarts_ c - 1) = num_restarts_ c - 1.
Proof.
  pose proof R as (_ & _ & -> & _). apply wrap_small.
  pose proof (bt_counter _ _ _ B) as (Hc & Hn & Hl). pose proof (bt_length _ _ _ B). pose proof (bt_interval _ _ _ B).
  unfold fits, slen. destruct (decide (length kvs = 0)%nat) as [Hz | Hz]; [nia |].
  destruct (lookup_lt_is_Some_2 kvs ((length (restarts_of b) - 1) * Z.to_nat (block_restart_interval_ b)))
    as [kv Hkv].
  { destruct (lookup_lt_is_Some_2 (restarts_of b) (length (restarts_of b) - 1) ltac:(lia)) as [o Ho].
    destruct (bt_restarts B _ o Ho) as (_ & _ & Hlt). rewrite <- (bt_length _ _ _ B). apply Hlt.
    intros E. rewrite E in *. simpl in *. lia. }
  destruct (interval_index _ _ Hkv) as [_ Hmax]. rewrite Nat2Z.inj_mul, Z2Nat.id, Z.div_mul in Hmax by lia.
  unfold kMaxRestartSupportedByHashIndex in Hmax. lia.
Qed.
End Lookup.

(** * The scan of one restart interval *)

Section Scan.
Context {C : Comparator} (c : BlockConfig) (I : nat) (es : list entry)
  (W : wf_block c DecodeEntry false I es) (t : bytes).

Abbreviation cmp := (fun i => cmp_at c false es i t).

Lemma ready_moved it i r cur idx : ready c false es it i -> restart_index_ it = r ->
  ready c false es (set_cur_entry_idx (set_position it r cur) idx) i.
Proof. by intros Hr <-. Qed.

(** The scan stops at the first entry from [i] on that is not before the target, but not
    after entry [m], where the next interval starts. *)
Lemma SeekForGet_loop_stops (m : nat) : (m <= length es)%nat -> forall fuel it i, (i <= m)%nat ->
  (m - i + 2 <= fuel)%nat -> ready c false es it i -> current_ it < off_at c es m ->
  (interval_known c I -> cur_entry_idx_ it = Z.of_nat i - 1) ->
  exists it' j, SeekForGet_loop c DecodeEntry fuel it t (off_at c es m) = Some it' /\
    shows c false I es it' (cursor_at es j) /\ (i <= j <= m)%nat /\
    (forall k, (i <= k < j)%nat -> cmp k < 0) /\ ((j < m)%nat -> 0 <= cmp j).
Proof.
  intros Hm. induction fuel as [| fuel IH]; intros it i Hi Hf Hr Hcur Hx; [lia |].
  cbn [SeekForGet_loop]. apply Z.ltb_lt in Hcur as Hb. rewrite Hb.
  set (it0 := set_cur_entry_idx it (cur_entry_idx_ it + 1)). change (ready c false es it0 i) in Hr.
  destruct (parse_any c DecodeEntry false I es W it0 i ltac:(lia) Hr) as (it1 & -> & (Hx1 & _) & Hit).
  assert (Hx' : interval_known c I -> cur_entry_idx_ it1 = Z.of_nat i).
  { intros Hk. rewrite Hx1. cbn [it0 cur_entry_idx_ set_cur_entry_idx]. rewrite Hx by done. lia. }
  destruct (decide (i < length es)%nat) as [Hlt | Hge].
  - rewrite bool_decide_eq_true_2 by done. cbn [negb orb].
    rewrite (at_entry_compare c DecodeEntry false I es W it1 i t Hit), Z.geb_leb.
    assert (Hsh : shows c false I es it1 (cursor_at es i))
      by (unfold cursor_at, clip; by rewrite decide_True by done).
    case Z.leb_spec; intros Hc.
    + exists it1, i. split_and!; [done | done | lia | lia | intros; lia | done].
    + assert (Hcur1 : current_ it1 = off_at c es i).
      { destruct Hit as (_ & _ & e & He & -> & _). by rewrite (off_lookup c es i e He). }
      destruct (decide (i = m)) as [-> | Hne].
      * exists it1, m. split_and!; [| done | lia | lia | intros; lia | lia].
        destruct fuel; [lia |]. cbn [SeekForGet_loop]. by rewrite Hcur1, Z.ltb_irrefl.
      * destruct (IH it1 (S i)) as (it' & j & E & Hsh' & Hj & Hlow & Hhigh);
          [lia | lia | by apply (at_entry_ready c DecodeEntry false I es W) | | |].
        { rewrite Hcur1. apply (off_mono c DecodeEntry false I es W). lia. }
        { intros Hk. rewrite Hx' by done. lia. }
        exists it', j. split_and!; [done | done | lia | lia | | done].
        intros k Hk. destruct (decide (k = i)) as [-> |]; [done | apply Hlow; lia].
  - rewrite bool_decide_eq_false_2 by done. cbn [negb orb]. exists it1, i.
    split_and!; [done | | lia | lia | intros; lia | lia].
    unfold cursor_at, clip. by rewrite decide_False.
Qed.
End Scan.

(** * Point lookups *)

Section UserKeys.
Context {C : Comparator} {CL : ComparatorLaws C}.

(** Internal keys are ordered by their user keys first. *)
Lemma Compare_user_key a b :
  (InternalKeyComparator_Compare a b <= 0 -> Compare (ExtractUserKey a) (ExtractUserKey b) <= 0) /\
  (0 <= InternalKeyComparator_Compare a b -> 0 <= Compare (ExtractUserKey a) (ExtractUserKey b)) /\
  (Compare (ExtractUserKey a) (ExtractUserKey b) < 0 -> InternalKeyComparator_Compare a b < 0).
Proof.
  unfold InternalKeyComparator_Compare. destruct (Z.eqb_spec (Compare (ExtractUserKey a) (ExtractUserKey b)) 0);
    split_and!; lia.
Qed.
End UserKeys.

(** [SeekForGetImpl] in terms of the lookup. *)
Lemma SeekForGetImpl_lookup {C : Comparator} b c it t :
  SeekForGetImpl c DecodeEntry it (nb b) t =
  if lookup b c (ExtractUserKey t) =? kCollision then
    match SeekImpl c DecodeEntry it t with Some it => Some (it, true) | None => None end
  else
    let r := if lookup b c (ExtractUserKey t) =? kNoEntry then u8 (num_restarts_ c - 1)
             else lookup b c (ExtractUserKey t) in
    let it := SeekToRestartPoint c it r in
    let it := set_position it r (GetRestartPoint c r) in
    let it := set_cur_entry_idx it (r * entries_per_restart_ c - 1) in
    let limit := if r + 1 <? num_restarts_ c then GetRestartPoint c (r + 1) else restarts_ c in
    match SeekForGet_loop c DecodeEntry (loop_fuel c) it t limit with
    | None => None
    | Some it =>
        if current_ it =? restarts_ c then Some (it, true)
        else if negb (Compare (GetUserKey (raw_key_ it)) (ExtractUserKey t) =? 0) then Some (it, false)
        else if conservative_type (ExtractValueType (GetKey (raw_key_ it))) then
          match SeekImpl c DecodeEntry it t with Some it => Some (it, true) | None => None end
        else Some (it, true)
    end.
Proof. reflexivity. Qed.

Section Get.
Context {C : Comparator} {CL : ComparatorLaws C} (g : Z) (kvs : list (bytes * bytes)) (I : Z) (delta : bool)
  (hash : option (nat -> Z)) (interval empty : Z).
Abbreviation builder := (data_builder true kvs I delta hash).
Abbreviation conf := (dconf true g kvs I delta hash interval empty).
Context (Hlong : keys_long true kvs) (Hg : g = kDisableGlobalSequenceNumber \/ fits 56 g)
  (HI : 1 <= I) (Hfit : kvs_fit kvs) (Hsz : slen (BlockBuilder_Finish builder).2 < 2 ^ 31)
  (Hinc : keys_increasing true g kvs) (Hbytes : forall a b, Compare a b = 0 -> a = b)
  (Hu : uses_hash builder = true) (es : list entry) (B : built builder kvs es) (t : bytes).

Let Hts : timestamps_ok true := or_introl eq_refl.
Let W := data_wf true g kvs Hlong Hts I delta hash interval empty Hfit Hsz es B.
Let HS := data_sorted true g kvs Hlong Hts Hg I delta hash interval empty Hfit Hsz es B Hinc.
Abbreviation N := (Z.to_nat I).
Abbreviation u := (ExtractUserKey t).

Lemma exposed_user_key kv : kv ∈ kvs -> ExtractUserKey (exposed_key true g kv.1) = ExtractUserKey kv.1.
Proof.
  intros Hin. unfold exposed_key, read_key. rewrite andb_false_r. destruct (_ =? _); [done |].
  apply ExtractUserKey_Update. pose proof (proj1 (List.Forall_forall _ _) Hlong kv ltac:(by apply list_elem_of_In)) as H.
  cbv beta iota in H. lia.
Qed.

Lemma cmp_user_key i kv : kvs !! i = Some kv -> let z := cmp_at conf false es i t in
  (z <= 0 -> Compare (ExtractUserKey kv.1) u <= 0) /\ (0 <= z -> 0 <= Compare (ExtractUserKey kv.1) u) /\
  (Compare (ExtractUserKey kv.1) u < 0 -> z < 0).
Proof.
  intros Hkv. cbv zeta. rewrite (data_cmp true g kvs Hlong Hts Hg I delta hash interval empty Hfit Hsz es B i kv t Hkv).
  rewrite <- (exposed_user_key kv) by (by apply list_elem_of_lookup_2 with i). apply Compare_user_key.
Qed.

Lemma user_keys_ordered i j kvi kvj : (i <= j)%nat -> kvs !! i = Some kvi -> kvs !! j = Some kvj ->
  Compare (ExtractUserKey kvi.1) (ExtractUserKey kvj.1) <= 0.
Proof.
  intros Hij Hi Hj. destruct (decide (i = j)) as [-> | Hne].
  { assert (kvi = kvj) as -> by congruence. rewrite compare_refl. lia. }
  assert (Hlt : InternalKeyComparator_Compare (exposed_key true g kvi.1) (exposed_key true g kvj.1) < 0).
  { apply (StronglySorted_at _ _ Hinc i j); [lia | |]; rewrite list_lookup_fmap; [by rewrite Hi | by rewrite Hj]. }
  rewrite <- (exposed_user_key kvi), <- (exposed_user_key kvj) by (by eapply list_elem_of_lookup_2).
  apply Compare_user_key. lia.
Qed.

Section Interval.
(** The scan of interval [r], when every entry of the user key is in it. *)
Context (r : nat) (Hr : Z.of_nat r < num_restarts_ conf)
  (Hin : forall i kv, kvs !! i = Some kv -> ExtractUserKey kv.1 = u -> Z.of_nat i / I = Z.of_nat r).
Definition scan_end : nat := if Z.of_nat r + 1 <? num_restarts_ conf then (S r * N)%nat else length es.

Lemma in_interval i kv : kvs !! i = Some kv -> ExtractUserKey kv.1 = u -> (r * N <= i < scan_end)%nat.
Proof.
  intros Hkv E. pose proof (Hin i kv Hkv E) as Hd. pose proof (Z.div_mod (Z.of_nat i) I ltac:(lia)).
  pose proof (Z.mod_pos_bound (Z.of_nat i) I ltac:(lia)). apply lookup_lt_Some in Hkv.
  pose proof (bt_length _ _ _ B). unfold scan_end. destruct (_ <? _); nia.
Qed.

(** An entry with the user key at which the scan stops is the one a seek finds. *)
Lemma scan_found j kv : (r * N <= j)%nat -> kvs !! j = Some kv -> ExtractUserKey kv.1 = u ->
  (forall k, (r * N <= k < j)%nat -> cmp_at conf false es k t < 0) ->
  ((j < scan_end)%nat -> 0 <= cmp_at conf false es j t) -> lower_bound conf false es t j.
Proof.
  intros Hj Hkv E Hlow Hhigh. pose proof (in_interval j kv Hkv E) as [_ Hend]. specialize (Hhigh Hend).
  pose proof (lookup_lt_Some _ _ _ Hkv) as Hjn. pose proof (bt_length _ _ _ B) as Hl.
  destruct j as [| j]; [split_and!; [lia | intros; lia | done] |].
  apply (lower_bound_after conf false es HS); [lia | | done].
  destruct (decide (r * N <= j)%nat); [apply Hlow; lia |].
  destruct (lookup_lt_is_Some_2 kvs j ltac:(lia)) as [kv' Hkv'].
  apply (cmp_user_key j kv' Hkv'). pose proof (user_keys_ordered j (S j) kv' kv ltac:(lia) Hkv' Hkv) as Hle.
  rewrite E in Hle. destruct (decide (Compare (ExtractUserKey kv'.1) u = 0)) as [Ez |]; [| lia].
  pose proof (in_interval j kv' Hkv' (Hbytes _ _ Ez)). lia.
Qed.

(** When the scan stops at another user key, no entry with the user key is at or after the
    target. *)
Lemma scan_missing j kv : kvs !! j = Some kv -> Compare (ExtractUserKey kv.1) u <> 0 ->
  (forall k, (r * N <= k < j)%nat -> cmp_at conf false es k t < 0) ->
  ((j < scan_end)%nat -> 0 <= cmp_at conf false es j t) ->
  forall i kv', kvs !! i = Some kv' -> 0 <= cmp_at conf false es i t -> Compare (ExtractUserKey kv'.1) u <> 0.
Proof.
  intros Hkv Hne Hlow Hhigh i kv' Hkv' Hge Ez. pose proof (in_interval i kv' Hkv' (Hbytes _ _ Ez)) as [Hi1 Hi2].
  destruct (decide (j <= i)%nat) as [Hji |]; [| pose proof (Hlow i ltac:(lia)); lia].
  specialize (Hhigh ltac:(lia)). apply (cmp_user_key j kv Hkv) in Hhigh.
  pose proof (user_keys_ordered j i kv kv' Hji Hkv Hkv') as Hle. rewrite (Hbytes _ _ Ez) in Hle. lia.
Qed.

Lemma scan_shows it o : es <> [] -> shows conf false N es it o ->
  let it := SeekToRestartPoint conf it (Z.of_nat r) in
  let it := set_position it (Z.of_nat r) (GetRestartPoint conf (Z.of_nat r)) in
  let it := set_cur_entry_idx it (Z.of_nat r * entries_per_restart_ conf - 1) in
  let limit := if Z.of_nat r + 1 <? num_restarts_ conf then GetRestartPoint conf (Z.of_nat r + 1)
               else restarts_ conf in
  exists it' j, SeekForGet_loop conf DecodeEntry (loop_fuel conf) it t limit = Some it' /\
    shows conf false N es it' (cursor_at es j) /\ (r * N <= j <= scan_end)%nat /\ (r * N < scan_end)%nat /\
    (forall k, (r * N <= k < j)%nat -> cmp_at conf false es k t < 0) /\
    ((j < scan_end)%nat -> 0 <= cmp_at conf false es j t) /\ (scan_end <= length es)%nat.
Proof.
  intros Hne Hsh. cbv zeta. pose proof (wf_cover W r Hne Hr) as Hcov. pose proof (wf_interval W).
  assert (Elim : (if Z.of_nat r + 1 <? num_restarts_ conf then GetRestartPoint conf (Z.of_nat r + 1)
                  else restarts_ conf) = off_at conf es scan_end /\ (r * N < scan_end <= length es)%nat).
  { unfold scan_end. destruct (Z.ltb_spec (Z.of_nat r + 1) (num_restarts_ conf)) as [Hn | Hn].
    - replace (Z.of_nat r + 1) with (Z.of_nat (S r)) in * by lia.
      destruct (wf_restart W (S r) Hn) as [-> _]. pose proof (wf_cover W (S r) Hne Hn). split; [done | lia].
    - rewrite off_end. split; [done | lia]. }
  destruct Elim as [-> [Hlt Hle]].
  pose proof (restart_ready conf DecodeEntry false N es W it r (shows_sane _ _ _ _ _ _ Hsh) Hr) as Hready.
  apply (ready_moved _ _ _ _ (Z.of_nat r) (GetRestartPoint conf (Z.of_nat r))
    (Z.of_nat r * entries_per_restart_ conf - 1)) in Hready; [| done].
  set (it1 := set_cur_entry_idx _ _) in *. pose proof (fuel_enough conf DecodeEntry false N es W).
  destruct (SeekForGet_loop_stops conf N es W t scan_end Hle (loop_fuel conf) it1 (r * N))
    as (it' & j & E & Hsh' & Hj & Hlow & Hhigh); [lia | nia | done | | |].
  - cbn [it1 current_ set_cur_entry_idx set_position]. destruct (wf_restart W r Hr) as [-> _].
    apply (off_mono conf DecodeEntry false N es W). lia.
  - intros Hk. cbn [it1 cur_entry_idx_ set_cur_entry_idx].
    by rewrite (restart_index_known conf N r Hk Hr).
  - by exists it', j.
Qed.
End Interval.

Lemma builder_hash_ok : hash_ok builder kvs.
Proof.
  apply (add_all_hash kvs _ [] []); [by apply built_empty | intros _; by destruct hash | done |].
  change (slen (buffer_ builder) < 2 ^ 32). pose proof Hsz as Hs. rewrite Finish_contents, slen_app in Hs.
  pose proof (slen_nonneg (restart_bytes (restarts_of builder) ++ block_tail builder)). lia.
Qed.

(** What a point lookup promises. *)
Definition get_result (it : BlockIter) (res : bool) : Prop :=
  if res then exists j, shows conf false N es it (cursor_at es j) /\ lower_bound conf false es t j
  else forall i kv, kvs !! i = Some kv -> 0 <= cmp_at conf false es i t -> Compare (ExtractUserKey kv.1) u <> 0.

Lemma seek_result it o : shows conf false N es it o -> exists it' res,
  match SeekImpl conf DecodeEntry it t with Some it => Some (it, true) | None => None end = Some (it', res) /\
  get_result it' res.
Proof.
  intros Hsh. destruct (SeekImpl_shows conf DecodeEntry false N es W HS t it o Hsh) as (it' & j & -> & Hsh' & Hb).
  exists it', true. split; [done |]. by exists j.
Qed.

Lemma user_key_at it i kv : at_entry conf false es it i -> kvs !! i = Some kv ->
  GetUserKey (raw_key_ it) = ExtractUserKey kv.1.
Proof.
  intros ((Hraw & _) & _ & e & He & _ & _ & Hk) Hkv. destruct Hraw as (Hw & Hus & _).
  destruct (data_entry true g kvs Hlong Hts I delta hash interval empty Hfit Hsz es B i e He)
    as (kv' & Hkv' & E & _ & H8 & _). assert (kv' = kv) as -> by congruence. rewrite E in Hk.
  unfold read_key in Hk, H8. rewrite andb_false_r in Hk, H8.
  unfold GetUserKey, ExtractUserKey. rewrite Hus, <- Hk. pose proof (slen_GetKey _ Hw) as Hl.
  rewrite Hk in Hl. rewrite <- Hk in Hl. rewrite Hl. symmetry. apply stake_GetKey; [done |].
  rewrite <- Hl, Hk. unfold kNumInternalBytes. lia.
Qed.

(** After the scan of the interval that the index names. *)
Lemma scan_result (r : nat) it o : es <> [] -> shows conf false N es it o ->
  Z.of_nat r < num_restarts_ conf ->
  (forall i kv, kvs !! i = Some kv -> ExtractUserKey kv.1 = u -> Z.of_nat i / I = Z.of_nat r) ->
  let it := SeekToRestartPoint conf it (Z.of_nat r) in
  let it := set_position it (Z.of_nat r) (GetRestartPoint conf (Z.of_nat r)) in
  let it := set_cur_entry_idx it (Z.of_nat r * entries_per_restart_ conf - 1) in
  let limit := if Z.of_nat r + 1 <? num_restarts_ conf then GetRestartPoint conf (Z.of_nat r + 1)
               else restarts_ conf in
  exists it' res, match SeekForGet_loop conf DecodeEntry (loop_fuel conf) it t limit with
    | None => None
    | Some it =>
        if current_ it =? restarts_ conf then Some (it, true)
        else if negb (Compare (GetUserKey (raw_key_ it)) u =? 0) then Some (it, false)
        else if conservative_type (ExtractValueType (GetKey (raw_key_ it))) then
          match SeekImpl conf DecodeEntry it t with Some it => Some (it, true) | None => None end
        else Some (it, true)
    end = Some (it', res) /\ get_result it' res.
Proof.
  intros Hne Hsh Hr Hin. cbv zeta.
  destruct (scan_shows r Hr it o Hne Hsh) as (it' & j & -> & Hsh' & [Hj1 Hj2] & Hlt & Hlow & Hhigh & Hend).
  assert (Hsh2 := Hsh'). unfold cursor_at, clip in Hsh2. destruct (decide (j < length es)%nat) as [Hjn | Hjn].
  - destruct Hsh2 as [Ha _]. pose proof (at_entry_valid conf DecodeEntry false N es W it' j Ha) as Hv.
    unfold Valid in Hv. apply Z.ltb_lt in Hv. case Z.eqb_spec; [lia | intros _].
    destruct (lookup_lt_is_Some_2 kvs j) as [kv Hkv]; [pose proof (bt_length _ _ _ B); lia |].
    rewrite (user_key_at it' j kv Ha Hkv). case Z.eqb_spec; intros Ez; cbn [negb].
    + assert (Hres : get_result it' true)
        by (exists j; split; [done |]; by apply (scan_found r Hin j kv Hj1 Hkv (Hbytes _ _ Ez))).
      destruct (conservative_type _); [by apply seek_result with (cursor_at es j) | by exists it', true].
    + exists it', false. split; [done |]. exact (scan_missing r Hin j kv Hkv Ez Hlow Hhigh).
  - destruct Hsh2 as [_ Hcur]. rewrite Hcur, Z.eqb_refl. exists it', true. split; [done |].
    exists j. split; [done |]. replace j with (S (j - 1)) by lia.
    apply (lower_bound_after conf false es HS); [lia | apply Hlow; lia | lia].
Qed.

Lemma SeekForGetImpl_spec it o : shows conf false N es it o ->
  exists it' res, SeekForGetImpl conf DecodeEntry it (nb builder) t = Some (it', res) /\ get_result it' res.
Proof.
  intros Hsh. pose proof builder_hash_ok as Hok.
  destruct (data_shows true g kvs I delta hash interval empty Hsz es B) as (R & _).
  rewrite SeekForGetImpl_lookup.
  pose proof R as (_ & _ & Hnum & _). pose proof (bt_counter _ _ _ B) as (_ & Hn1 & _).
  assert (EI : block_restart_interval_ builder = I) by (unfold data_builder; by rewrite (proj1 (add_all_config kvs _))).
  destruct (Z.eqb_spec (lookup builder conf u) kCollision) as [| Hnc]; [by apply seek_result with o |].
  assert (Hrr : exists r : nat, (if lookup builder conf u =? kNoEntry then u8 (num_restarts_ conf - 1)
      else lookup builder conf u) = Z.of_nat r /\ Z.of_nat r < num_restarts_ conf /\
    forall i kv, kvs !! i = Some kv -> ExtractUserKey kv.1 = u -> Z.of_nat i / I = Z.of_nat r).
  { rewrite (last_restart builder kvs es B Hok Hu conf R).
    destruct (Z.eqb_spec (lookup builder conf u) kNoEntry) as [E | E].
    - exists (Z.to_nat (num_restarts_ conf - 1)). unfold slen in Hnum. split_and!; [lia | lia |].
      intros i kv Hkv Eu. destruct (lookup_entry builder kvs Hok Hu conf R i kv u Hkv Eu) as [E' |]; [| done].
      destruct (interval_index builder kvs es B Hok Hu i kv Hkv) as [_ Hm].
      unfold kNoEntry, kMaxRestartSupportedByHashIndex in *. lia.
    - destruct (lookup_range builder kvs Hok Hu conf R u) as [| [| (i & kv & Hkv & El)]]; [done.. |].
      destruct (interval_index builder kvs es B Hok Hu i kv Hkv) as [Hm _]. rewrite <- El in Hm.
      exists (Z.to_nat (lookup builder conf u)). split_and!; [lia | lia |].
      intros i' kv' Hkv' Eu. destruct (lookup_entry builder kvs Hok Hu conf R i' kv' u Hkv' Eu) as [E' |]; [| done].
      rewrite EI in E'. lia. }
  destruct Hrr as (r & -> & Hr & Hin).
  destruct (decide (es = [])) as [Ee | Hne]; [| by apply scan_result with o].
  assert (Hoff : forall i, off_at conf es i = restarts_ conf) by (intros i; unfold off_at; by rewrite Ee).
  assert (Elim : (if Z.of_nat r + 1 <? num_restarts_ conf then GetRestartPoint conf (Z.of_nat r + 1)
                  else restarts_ conf) = restarts_ conf).
  { destruct (Z.ltb_spec (Z.of_nat r + 1) (num_restarts_ conf)) as [Hn |]; [| done].
    replace (Z.of_nat r + 1) with (Z.of_nat (S r)) in * by lia.
    destruct (wf_restart W (S r) Hn) as [-> _]. apply Hoff. }
  cbv zeta. rewrite Elim. destruct (wf_restart W r Hr) as [-> _]. rewrite Hoff.
  unfold loop_fuel. cbn [SeekForGet_loop current_ set_cur_entry_idx set_position].
  rewrite Z.ltb_irrefl. cbn [current_ set_cur_entry_idx set_position]. rewrite Z.eqb_refl.
  eexists _, true. split; [done |]. exists 0%nat.
  assert (Hlen : length es = 0%nat) by (by rewrite Ee). unfold cursor_at, clip, lower_bound.
  rewrite decide_False by lia. split; [| split_and!; [lia | intros; lia | lia]].
  destruct (restart_ready conf DecodeEntry false N es W it r (shows_sane _ _ _ _ _ _ Hsh) Hr) as (Hs & _).
  by split; [exact Hs |].
Qed.
End Get.

(** With or without a hash index. *)
Lemma SeekForGet_spec {C : Comparator} {CL : ComparatorLaws C} g kvs I delta hash interval empty :
  keys_long true kvs -> g = kDisableGlobalSequenceNumber \/ fits 56 g -> 1 <= I -> kvs_fit kvs ->
  slen (BlockBuilder_Finish (data_builder true kvs I delta hash)).2 < 2 ^ 31 -> keys_increasing true g kvs ->
  (forall a b, Compare a b = 0 -> a = b) ->
  forall es, built (data_builder true kvs I delta hash) kvs es -> forall t it o,
  shows (dconf true g kvs I delta hash interval empty) false (Z.to_nat I) es it o ->
  exists it' res, SeekForGet (dconf true g kvs I delta hash interval empty) DecodeEntry it t = Some (it', res) /\
    get_result g kvs I delta hash interval empty es t it' res.
Proof.
  intros Hlong Hg HI Hfit Hsz Hinc Hbytes es B t it o Hsh. unfold SeekForGet.
  destruct (data_shows true g kvs I delta hash interval empty Hsz es B) as (_ & _ & _ & _ & _ & _ & ->).
  destruct (uses_hash (data_builder true kvs I delta hash)) eqn:Hu.
  - by apply (SeekForGetImpl_spec g kvs I delta hash interval empty Hlong Hg HI Hfit Hsz Hinc Hbytes Hu es B t it o).
  - by apply (seek_result g kvs I delta hash interval empty Hlong Hg Hfit Hsz Hinc es B t it o).
Qed.
