(* ===== verification/BlockTheorems.v ===== *)
(** The theorems about blocks: iterators over what the builder wrote, point lookups
    through the hash index, and the behaviour on damaged blocks. *)

From Stdlib Require Import Sorting.Sorted.
From S2P Require Import Prelude Cursor Coding Hash Comparator DbFormat IterKey BlockBuilder BlockIter BlockCursor BlockProofs BlockHash.

(** * Data blocks *)

(** C15: a data block is read back as it was written, by any sequence of operations: after
    any calls of SeekToFirst, SeekToLast, Next, Prev, Seek and SeekForPrev that are allowed
    (Next and Prev on a valid iterator only), the iterator is where a cursor over the list of
    the added entries is, shows the key and the value of that entry, and knows its index;
    no call runs for ever or reports an error. This holds for every restart interval, with and
    without delta encoding, hash index, stored timestamps and file sequence number. *)
Theorem data_block_cursor {C : Comparator} {CL : ComparatorLaws C} (kvs : list (bytes * bytes))
    (persisted delta : bool) (g I interval empty : Z) (hash : option (nat -> Z)) (ops : list iter_op)
    (o : option nat)
    (HI : 1 <= I) (Hfit : kvs_fit kvs) (Hlong : keys_long persisted kvs) (Hts : timestamps_ok persisted)
    (Hg : g = kDisableGlobalSequenceNumber \/ fits 56 g)
    (Hsorted : keys_increasing persisted g kvs)
    (Hsz : slen (BlockBuilder_Finish (data_builder persisted kvs I delta hash)).2 < 2 ^ 31)
    (Ho : cursor_ops InternalKeyComparator_Compare (map (fun kv => exposed_key persisted g kv.1) kvs)
            None ops = Some o) :
  let ci := data_iterator persisted g kvs I delta hash interval empty in
  exists it, run_ops ci.1 DecodeEntry false ci.2 ops = Some it /\
    presents ci.1 I kvs (exposed_key persisted g) it o.
Proof.
  cbv zeta. destruct (data_builder_built persisted kvs I delta hash HI Hfit Hsz) as [es B].
  destruct (data_cursor persisted g kvs Hlong Hts Hg I delta hash interval empty Hfit Hsz es B Hsorted ops o Ho)
    as (it & E & Hsh).
  exists it. split; [done |].
  by apply (data_presents persisted g kvs Hlong Hts I delta hash interval empty HI Hfit Hsz es B).
Qed.

(** Three versions of two user keys, newest first, and a key that shares a prefix. *)
Definition ex_block_kvs : list (bytes * bytes) :=
  [(AppendInternalKey [] {| user_key := [Byte.x61; Byte.x61]; sequence := 7; type := kTypeValue |}, [Byte.x31]);
   (AppendInternalKey [] {| user_key := [Byte.x61; Byte.x61]; sequence := 5; type := kTypeDeletion |}, []);
   (AppendInternalKey [] {| user_key := [Byte.x61; Byte.x62]; sequence := 9; type := kTypeMerge |}, [Byte.x32])].
Definition ex_target : bytes :=
  AppendInternalKey [] {| user_key := [Byte.x61; Byte.x61]; sequence := 6; type := kValueTypeForSeek |}.
Definition ex_ops : list iter_op := [OpSeek ex_target; OpNext; OpPrev; OpPrev; OpSeekForPrev ex_target].

Lemma data_block_cursor_witness :
  let ci := data_iterator (C := BytewiseComparatorImpl) true kDisableGlobalSequenceNumber ex_block_kvs 2 true
              (Some (fun n => Z.of_nat n)) 2 0 in
  exists it, run_ops (C := BytewiseComparatorImpl) ci.1 DecodeEntry false ci.2 ex_ops = Some it /\
    presents (C := BytewiseComparatorImpl) ci.1 2 ex_block_kvs
      (exposed_key (C := BytewiseComparatorImpl) true kDisableGlobalSequenceNumber) it (Some 0%nat).
Proof.
  apply (@data_block_cursor BytewiseComparatorImpl BytewiseComparator_laws ex_block_kvs true true
    kDisableGlobalSequenceNumber 2 2 0 (Some (fun n => Z.of_nat n)) ex_ops (Some 0%nat)).
  - lia.
  - repeat constructor; by vm_compute.
  - repeat constructor; by vm_compute.
  - by left.
  - by left.
  - repeat constructor; by vm_compute.
  - by vm_compute.
  - by vm_compute.
Defined.

(** * Point lookups *)


Lemma bytewise_equal (a b : bytes) : Compare (Comparator := BytewiseComparatorImpl) a b = 0 -> a = b.
Proof. cbn [Compare BytewiseComparatorImpl]. rewrite Slice_compare_lex. apply lex_eq. Qed.


(** Two keys in two restart intervals, with the default ratio of the hash index. The user
    key [g] is in the bucket of [a], whose interval is not the last one. *)
Definition ex_two_kvs : list (bytes * bytes) :=
  [(AppendInternalKey [] {| user_key := [Byte.x61]; sequence := 1; type := kTypeValue |}, [Byte.x31]);
   (AppendInternalKey [] {| user_key := [Byte.x62]; sequence := 1; type := kTypeValue |}, [Byte.x32])].
Definition ex_missing : bytes :=
  AppendInternalKey [] {| user_key := [Byte.x67]; sequence := 9; type := kValueTypeForSeek |}.

(** A lookup that returns false although every entry of the block is before the target, so
    that the user key could be in the next block. *)
Example SeekForGet_false_positive :
  let ci := data_iterator (C := BytewiseComparatorImpl) true kDisableGlobalSequenceNumber ex_two_kvs 1 true
              (Some (fun n => Z.of_nat n * 4 / 3)) 1 0 in
  (exists it, SeekForGet (C := BytewiseComparatorImpl) ci.1 DecodeEntry ci.2 ex_missing = Some (it, false)) /\
  Forall (fun kv => InternalKeyComparator_Compare (C := BytewiseComparatorImpl) kv.1 ex_missing < 0) ex_two_kvs.
Proof. split; [eexists; by vm_compute | repeat constructor; by vm_compute]. Qed.

(** Reading forwards leaves the restart index one interval behind: here the iterator is at the
    fourth entry, in the second interval of two entries, and the index is still zero. *)
Example restart_index_lags :
  let kvs := ex_block_kvs ++
    [(AppendInternalKey [] {| user_key := [Byte.x61; Byte.x63]; sequence := 1; type := kTypeValue |}, [])] in
  let ci := data_iterator (C := BytewiseComparatorImpl) true kDisableGlobalSequenceNumber kvs 2 true None 2 0 in
  exists it, run_ops (C := BytewiseComparatorImpl) ci.1 DecodeEntry false ci.2
      [OpSeekToFirst; OpNext; OpNext; OpNext] = Some it /\
    current_ it > GetRestartPoint ci.1 1 /\ restart_index_ it = 0.
Proof. eexists. split; [by vm_compute | by vm_compute]. Qed.

(** * Meta blocks *)

Definition meta_builder (I : Z) (delta : bool) (kvs : list (bytes * bytes)) : BlockBuilder :=
  add_all (MakeBlockBuilder I delta false None 0 true false) kvs.
Definition meta_iterator (I : Z) (delta : bool) (kvs : list (bytes * bytes)) (interval empty : Z) :
    BlockConfig * BlockIter :=
  NewMetaIterator (MakeBlock (BlockBuilder_Finish (meta_builder I delta kvs)).2) interval empty.

#[local] Existing Instance BytewiseComparatorImpl.

Section Meta.
Context (I : Z) (delta : bool) (kvs : list (bytes * bytes)) (interval empty : Z) (HI : 1 <= I)
  (Hfit : kvs_fit kvs) (Hsz : slen (BlockBuilder_Finish (meta_builder I delta kvs)).2 < 2 ^ 31)
  (es : list entry) (B : built (meta_builder I delta kvs) kvs es).
Abbreviation conf := (meta_iterator I delta kvs interval empty).1.

Lemma meta_facts : reads_block (meta_builder I delta kvs) conf /\
  at_end conf true es (meta_iterator I delta kvs interval empty).2 /\
  pad_min_timestamp_ conf = false /\ entries_per_restart_ conf = interval.
Proof.
  destruct (new_iterator_shows (meta_builder I delta kvs) kvs es kDisableGlobalSequenceNumber true true interval empty B Hsz)
    as (H1 & H2 & _ & _ & H5 & H6 & _). by rewrite andb_false_r in H5.
Qed.

Lemma meta_wf : wf_block conf CheckAndDecodeEntry true (Z.to_nat I) es.
Proof.
  destruct meta_facts as (R & _ & Hp & _).
  replace I with (block_restart_interval_ (meta_builder I delta kvs)) at 2
    by (unfold meta_builder; by rewrite (proj1 (add_all_config kvs _))).
  apply (finished_wf _ kvs es B Hfit _ R); [by right |]. rewrite Hp. discriminate.
Qed.

Lemma meta_entry i e : es !! i = Some e -> exists kv, kvs !! i = Some kv /\ e_key e = kv.1 /\ e_val e = kv.2.
Proof.
  intros He. destruct (entry_kv _ kvs es B Hfit i e He) as (kv & Hkv & E1 & E2 & _). exists kv.
  unfold meta_builder in E1. by rewrite (proj2 (add_all_config kvs _)) in E1.
Qed.

Lemma meta_shown_keys : shown_keys conf true es = map fst kvs.
Proof.
  apply list_eq. intros i. unfold shown_keys. rewrite !list_lookup_fmap.
  destruct meta_facts as (_ & _ & Hp & _). destruct (es !! i) as [e |] eqn:He.
  - destruct (meta_entry i e He) as (kv & -> & E & _). cbn [fmap option_fmap option_map].
    unfold shown_key. by rewrite Hp, E.
  - apply lookup_ge_None_1 in He. rewrite (bt_length _ _ _ B) in He. by rewrite lookup_ge_None_2.
Qed.

Lemma meta_sorted : StronglySorted (fun a b => Slice_compare a b < 0) (map fst kvs) ->
  keys_sorted conf true es.
Proof.
  intros Hs i j t Hij Hle. unfold cmp_at in *.
  destruct (lookup_lt_is_Some_2 es i ltac:(lia)) as [ei Hi]. destruct (lookup_lt_is_Some_2 es j ltac:(lia)) as [ej Hj].
  destruct (meta_entry i ei Hi) as (kvi & Hki & Ei & _). destruct (meta_entry j ej Hj) as (kvj & Hkj & Ej & _).
  destruct meta_facts as (_ & _ & Hp & _). unfold shown_key in *. rewrite Hp, Hi, Ei in *. rewrite Hj, Ej in Hle.
  apply (compare_lt_le_trans kvi.1 kvj.1 t); [| done].
  apply (StronglySorted_at _ _ Hs i j); [lia | |]; rewrite list_lookup_fmap; [by rewrite Hki | by rewrite Hkj].
Qed.
End Meta.

(** a meta block is read back as it was written by any sequence of operations, with the
    decoder that checks its bounds and without the cache of previous entries. *)
Theorem meta_block_cursor (kvs : list (bytes * bytes)) (delta : bool) (I interval empty : Z)
    (ops : list iter_op) (o : option nat) (HI : 1 <= I) (Hfit : kvs_fit kvs)
    (Hsorted : StronglySorted (fun a b => Slice_compare a b < 0) (map fst kvs))
    (Hsz : slen (BlockBuilder_Finish (meta_builder I delta kvs)).2 < 2 ^ 31)
    (Ho : cursor_ops Slice_compare (map fst kvs) None ops = Some o) :
  let ci := meta_iterator I delta kvs interval empty in
  exists it, run_ops ci.1 CheckAndDecodeEntry true ci.2 ops = Some it /\ presents ci.1 I kvs id it o.
Proof.
  cbv zeta. destruct (add_all_built kvs _ [] [] (built_empty I delta None 0 true false HI) Hfit) as [es B].
  { change (slen (buffer_ (meta_builder I delta kvs)) < 2 ^ 32). rewrite Finish_contents, slen_app in Hsz.
    pose proof (slen_nonneg (restart_bytes (restarts_of (meta_builder I delta kvs)) ++ block_tail (meta_builder I delta kvs))).
    lia. }
  pose proof (meta_wf I delta kvs interval empty Hfit Hsz es B) as W.
  destruct (meta_facts I delta kvs interval empty Hsz es B) as (_ & Hend & Hp & He).
  pose proof (meta_sorted I delta kvs interval empty Hfit Hsz es B Hsorted) as HS.
  pose proof (meta_shown_keys I delta kvs interval empty Hfit Hsz es B) as Hk.
  set (ci := meta_iterator I delta kvs interval empty) in *.
  destruct (run_ops_refines ci.1 CheckAndDecodeEntry true (Z.to_nat I) es W HS true ops ci.2 None o Hend)
    as (it & E & Hsh); [by rewrite Hk |].
  exists it. split; [done |]. split; [apply (shows_sane _ _ _ _ _ _ Hsh) |]. destruct o as [i |].
  - destruct Hsh as [Ha Hx]. split; [by apply (at_entry_valid ci.1 CheckAndDecodeEntry true (Z.to_nat I) es W it i) |].
    destruct Ha as (((_ & Hu & _) & _) & _ & e & Hent & _ & Hv & Hkey).
    destruct (meta_entry I delta kvs Hfit es B i e Hent) as (kv & Hkv & Ek & Ev). exists kv. split_and!; [done | | |].
    + unfold shown_key in Hkey. rewrite Hp, Ek in Hkey. unfold iter_key, GetUserKey. rewrite Hu. exact Hkey.
    + unfold iter_value. rewrite Hv, <- Ev. by apply (wf_slices W i).
    + intros Hi. apply Hx. left. rewrite Hi. lia.
  - by apply (at_end_invalid ci.1 true es).
Qed.

Definition ex_meta_kvs : list (bytes * bytes) :=
  [([Byte.x61], [Byte.x31]); ([Byte.x61; Byte.x62], []); ([Byte.x63], [Byte.x32; Byte.x33])].

Lemma meta_block_cursor_witness :
  let ci := meta_iterator 1 true ex_meta_kvs 1 0 in
  exists it, run_ops ci.1 CheckAndDecodeEntry true ci.2 [OpSeekForPrev [Byte.x62]; OpNext; OpPrev; OpPrev] = Some it /\
    presents ci.1 1 ex_meta_kvs id it (Some 0%nat).
Proof.
  apply meta_block_cursor.
  - lia.
  - repeat constructor; by vm_compute.
  - repeat constructor; by vm_compute.
  - by vm_compute.
  - by vm_compute.
Defined.

(** * Starting the builder again *)

Lemma add_all_no_hash kvs : forall b, HashIndexBuilder_Valid (data_block_hash_index_builder_ b) = false ->
  data_block_hash_index_builder_ (add_all b kvs) = data_block_hash_index_builder_ b.
Proof.
  induction kvs as [| kv kvs IH]; intros b Hb; [done |].
  change (add_all b (kv :: kvs)) with (add_all (Add b kv.1 kv.2 []) kvs).
  rewrite IH; rewrite Add_hash; by rewrite Hb.
Qed.

(** What [Reset] keeps of a builder that entries were added to. *)
Definition same_setup (b b' : BlockBuilder) : Prop :=
  block_restart_interval_ b' = block_restart_interval_ b /\ use_delta_encoding_ b' = use_delta_encoding_ b /\
  use_value_delta_encoding_ b' = use_value_delta_encoding_ b /\ strip_ts_sz_ b' = strip_ts_sz_ b /\
  keys_are_user_keys_ b' = keys_are_user_keys_ b /\ take 1 (restarts_of b') = take 1 (restarts_of b) /\
  bucket_estimate (data_block_hash_index_builder_ b') = bucket_estimate (data_block_hash_index_builder_ b).

Lemma add_all_setup kvs : forall b, restarts_of b <> [] -> same_setup b (add_all b kvs).
Proof.
  induction kvs as [| [k v] kvs IH]; intros b Hb; [done |].
  change (add_all b ((k, v) :: kvs)) with (add_all (Add b k v []) kvs).
  assert (H1 : same_setup b (Add b k v []) /\ restarts_of (Add b k v []) <> []).
  { assert (Hh : bucket_estimate (data_block_hash_index_builder_ (Add b k v [])) =
                 bucket_estimate (data_block_hash_index_builder_ b)).
    { rewrite Add_hash. unfold HashIndexBuilder_Add. by destruct_ifs. }
    destruct (restarts_of b) as [| r rs] eqn:Er; [done |].
    unfold same_setup. rewrite Hh. unfold Add, AddWithLastKeyImpl. cbn [use_delta_encoding_].
    destruct (use_delta_encoding_ b); cbn; rewrite Er; destruct (_ >=? _); by cbn. }
  destruct H1 as [(? & ? & ? & ? & ? & ? & ?) Hne].
  destruct (IH (Add b k v []) Hne) as (? & ? & ? & ? & ? & ? & ?). unfold same_setup. split_and!; congruence.
Qed.

Definition many_restarts : list (bytes * bytes) := replicate 255 (sfill 9 Byte.x61, []).

(** [Reset] makes a builder as it was constructed, unless its hash index was given up
    because a block had more restart points than a byte can number: then no later block of
    this builder has a hash index either. Blocks of 255 restart points get there. *)
Theorem BlockBuilder_Reset_spec (I ts_sz : Z) (delta value_delta persisted is_user_key : bool)
    (hash : option (nat -> Z)) (kvs : list (bytes * bytes)) :
  let b0 := MakeBlockBuilder I delta value_delta hash ts_sz persisted is_user_key in
  let b := add_all b0 kvs in
  (hash = None \/ HashIndexBuilder_Valid (data_block_hash_index_builder_ b) = true -> BlockBuilder_Reset b = b0) /\
  (HashIndexBuilder_Valid (data_block_hash_index_builder_ b) = false ->
   forall kvs', uses_hash (add_all (BlockBuilder_Reset b) kvs') = false) /\
  HashIndexBuilder_Valid (data_block_hash_index_builder_
    (add_all (MakeBlockBuilder 1 true false hash 0 true false) many_restarts)) = false.
Proof.
  cbv zeta. set (b0 := MakeBlockBuilder I delta value_delta hash ts_sz persisted is_user_key).
  destruct (add_all_setup kvs b0) as (E1 & E2 & E3 & E4 & E5 & E6 & E7); [done |].
  split_and!.
  - intros Hcase.
    assert (Eh : (if HashIndexBuilder_Valid (data_block_hash_index_builder_ (add_all b0 kvs))
                  then HashIndexBuilder_Reset (data_block_hash_index_builder_ (add_all b0 kvs))
                  else data_block_hash_index_builder_ (add_all b0 kvs)) = data_block_hash_index_builder_ b0).
    { destruct (HashIndexBuilder_Valid (data_block_hash_index_builder_ (add_all b0 kvs))) eqn:HV.
      - unfold HashIndexBuilder_Reset. rewrite E7. unfold b0. cbn. destruct hash; [done |].
        unfold HashIndexBuilder_Valid in HV. rewrite E7 in HV. cbn in HV. by rewrite andb_false_r in HV.
      - destruct Hcase as [-> | ?]; [| done]. by apply add_all_no_hash. }
    unfold BlockBuilder_Reset. rewrite Eh, E1, E2, E3, E4, E5, E6. done.
  - intros HV kvs'.
    assert (Eh : data_block_hash_index_builder_ (BlockBuilder_Reset (add_all b0 kvs)) =
                 data_block_hash_index_builder_ (add_all b0 kvs))
      by (unfold BlockBuilder_Reset; cbn [data_block_hash_index_builder_]; by rewrite HV).
    unfold uses_hash. by rewrite add_all_no_hash, Eh, HV by (by rewrite Eh).
  - destruct hash; by vm_compute.
Qed.

(** * Damaged blocks *)

Lemma GetVarint32Ptr_shorter p v rest : GetVarint32Ptr p = Some (v, rest) -> slen rest <= slen p.
Proof.
  assert (Hloop : forall p shift result, GetVarint32PtrFallback_loop shift result p = Some (v, rest) -> slen rest <= slen p).
  { clear. induction p as [| b p IH]; intros shift result; cbn [GetVarint32PtrFallback_loop]; [done |].
    rewrite slen_cons. destruct (shift <=? 28); [| done]. destruct (negb _); [intros ?%IH; lia |].
    intros [= _ ->]. lia. }
  unfold GetVarint32Ptr, GetVarint32PtrFallback. destruct p as [| b p]; [apply Hloop |].
  destruct (_ =? 0); [| apply Hloop]. intros [= _ ->]. rewrite slen_cons. lia.
Qed.

Lemma decode_lengths_ptr data p limit p' s n v : 0 <= p -> p + 3 <= limit ->
  decode_lengths data p limit = Some (p', s, n, v) -> p <= p' <= limit.
Proof.
  intros Hp Hl. unfold decode_lengths, decode_varints. destruct (_ <? 128); [intros [= <- _ _ _]; lia |].
  destruct (GetVarint32Ptr (stake _ _)) as [[s' r1] |] eqn:E1; [| done].
  destruct (GetVarint32Ptr r1) as [[n' r2] |] eqn:E2; [| done].
  destruct (GetVarint32Ptr r2) as [[v' r3] |] eqn:E3; [| done].
  apply GetVarint32Ptr_shorter in E1, E2, E3. rewrite slen_stake in E1. intros [= <- _ _ _].
  slen_facts. lia.
Qed.

(** An entry whose two lengths add up to 2^32, and the restart point and the footer of a
    block that claims 2^30 restart points. *)
Definition ex_wrapped_entry : bytes :=
  EncodeVarint32 0 ++ EncodeVarint32 (2 ^ 32 - 1) ++ EncodeVarint32 1.
Definition ex_wrapped_block : bytes := EncodeFixed32 0 ++ EncodeFixed32 (2 ^ 30).

(** the checks of damaged blocks, and how far they reach. An entry that the checking
    decoder accepts lies before the limit when the sum of its lengths fits 32 bits, and a
    block that is accepted has room for its restart array when it claims fewer than 2^30 - 1
    restart points. Both sums are computed in 32 bits: an entry of 4 GiB and a block of eight
    bytes with 2^30 restart points are accepted. *)
Theorem block_bounds_checks :
  (forall data p limit p' s n v, 0 <= p -> limit < 2 ^ 32 ->
     CheckAndDecodeEntry data p limit = Some (p', s, n, v) -> fits 32 (n + v) ->
     p <= p' /\ p' + n + v <= limit) /\
  (forall contents, slen contents < 2 ^ 31 -> let b := MakeBlock contents in
     size_ b <> 0 -> IndexType contents (slen contents) = kDataBlockBinarySearch ->
     0 <= block_num_restarts_ b < 2 ^ 30 - 1 ->
     size_ b = slen contents /\ restart_offset_ b + 4 * block_num_restarts_ b + 4 = slen contents /\
     0 <= restart_offset_ b) /\
  CheckAndDecodeEntry ex_wrapped_entry 0 (slen ex_wrapped_entry) = Some (7, 0, 2 ^ 32 - 1, 1) /\
  slen ex_wrapped_entry = 7 /\
  (let b := MakeBlock ex_wrapped_block in
   size_ b = 8 /\ block_num_restarts_ b = 2 ^ 30 /\ restart_offset_ b = 4).
Proof.
  split_and!; [| | by vm_compute | by vm_compute | by vm_compute].
  - intros data p limit p' s n v Hp Hl. unfold CheckAndDecodeEntry. case Z.ltb_spec; [done | intros H3].
    destruct (decode_lengths data p limit) as [[[[q s'] n'] v'] |] eqn:E; [| done].
    apply decode_lengths_ptr in E; [| lia..]. destruct (Z.ltb_spec (u32 (limit - q)) (u32 (n' + v'))) as [| Hle]; [done |].
    intros [= -> -> -> ->] Hf. rewrite !wrap_small in Hle by (done || unfold fits; lia). lia.
  - intros contents Hsz. cbv zeta. unfold MakeBlock. case Z.ltb_spec; [done | intros H4].
    destruct (IndexType contents (slen contents)); [| done]. cbn [size_ block_num_restarts_ restart_offset_].
    set (n := NumRestarts contents (slen contents)). intros Hs _ Hn.
    rewrite (wrap_small 32 (slen contents)), (wrap_small 32 (1 + n)) in * by (unfold fits; lia).
    set (ro := u32 _) in *. rewrite Z.gtb_ltb in *. destruct (Z.ltb_spec (slen contents - 4) ro) as [| Hle]; [done |].
    assert (Hro : ro = slen contents - (1 + n) * 4 \/ ro = slen contents - (1 + n) * 4 + 2 ^ 32).
    { unfold ro, wrap. destruct (Z.le_gt_cases 0 (slen contents - (1 + n) * 4)).
      - left. apply Z.mod_small. lia.
      - right. rewrite <- (Z.mod_small (slen contents - (1 + n) * 4 + 2 ^ 32) (2 ^ 32)) by lia.
        rewrite Z.add_mod, Z.mod_same, Z.add_0_r, Z.mod_mod by lia. done. }
    destruct Hro as [Hro | Hro]; [| lia]. pose proof (wrap_fits 32 (slen contents - (1 + n) * 4)) as Hf.
    fold ro in Hf. unfold fits in Hf. split_and!; lia.
Qed.
