(* ===== verification/LogFormat.v ===== *)
(** db/log_format.h and the special records of the write-ahead log: record types,
    block and header sizes, [UserDefinedTimestampSizeRecord] of util/udt_util.h and
    [CompressionTypeRecord] of util/compression.h, in a build without ZSTD (the only
    codec that supports streaming compression). *)

From stdpp Require Import gmap.
From S2P Require Import Prelude Coding.

(** * Record types and sizes *)

Definition kZeroType : Z := 0.
Definition kFullType : Z := 1.
Definition kFirstType : Z := 2.
Definition kMiddleType : Z := 3.
Definition kLastType : Z := 4.
Definition kRecyclableFullType : Z := 5.
Definition kRecyclableFirstType : Z := 6.
Definition kRecyclableMiddleType : Z := 7.
Definition kRecyclableLastType : Z := 8.
Definition kSetCompressionType : Z := 9.
Definition kUserDefinedTimestampSizeType : Z := 10.
Definition kRecyclableUserDefinedTimestampSizeType : Z := 11.
Definition kMaxRecordType : Z := kRecyclableUserDefinedTimestampSizeType.

Definition kBlockSize : Z := 32768.
Definition kHeaderSize : Z := 4 + 2 + 1.
Definition kRecyclableHeaderSize : Z := 4 + 2 + 1 + 4.

(** * Sizes of user-defined timestamps *)

Definition kSizePerColumnFamily : Z := 4 + 2.

Fixpoint UserDefinedTimestampSizeRecord_EncodeTo (dst : bytes) (cf_to_ts_sz : list (Z * Z))
    : bytes :=
  match cf_to_ts_sz with
  | [] => dst
  | (cf_id, ts_sz) :: l =>
      UserDefinedTimestampSizeRecord_EncodeTo (PutFixed16 (PutFixed32 dst cf_id) (u16 ts_sz)) l
  end.

(** The loop over the entries; [None] when an entry cannot be decoded, and what is
    left of the source. *)
Fixpoint UserDefinedTimestampSizeRecord_Decode_loop (num_of_entries : nat) (src : bytes)
    : option (list (Z * Z)) * bytes :=
  match num_of_entries with
  | O => (Some [], src)
  | S n =>
      match GetFixed32 src with
      | None => (None, src)
      | Some (cf_id, src) =>
          match GetFixed16 src with
          | None => (None, src)
          | Some (ts_sz, src) =>
              match UserDefinedTimestampSizeRecord_Decode_loop n src with
              | (None, src) => (None, src)
              | (Some l, src) => (Some ((cf_id, ts_sz) :: l), src)
              end
          end
      end
  end.
Definition UserDefinedTimestampSizeRecord_DecodeFrom (src : bytes)
    : option (list (Z * Z)) * bytes :=
  let total_size := slen src in
  if negb (total_size mod kSizePerColumnFamily =? 0) then (None, src)
  else UserDefinedTimestampSizeRecord_Decode_loop
         (Z.to_nat (total_size / kSizePerColumnFamily)) src.

(** * Compression type *)

Definition kNoCompression : Z := 0.
Definition StreamingCompressionTypeSupported (t : Z) : bool := t =? kNoCompression.
Definition CompressionTypeRecord_EncodeTo (dst : bytes) (compression_type : Z) : bytes :=
  PutFixed32 dst compression_type.
Definition CompressionTypeRecord_DecodeFrom (src : bytes) : option Z * bytes :=
  match GetFixed32 src with
  | None => (None, src)
  | Some (val, src) =>
      let compression_type := u8 val in
      if negb (StreamingCompressionTypeSupported compression_type) then (None, src)
      else (Some compression_type, src)
  end.

(** * The records round-trip *)

Definition ts_entry_ok (e : Z * Z) : Prop := fits 32 e.1 /\ fits 16 e.2.

Lemma UDTS_EncodeTo_app dst l :
  UserDefinedTimestampSizeRecord_EncodeTo dst l =
  dst ++ UserDefinedTimestampSizeRecord_EncodeTo [] l.
Proof.
  revert dst. induction l as [| [cf ts] l IH]; intros dst; simpl; [by rewrite app_nil_r |].
  rewrite IH, (IH (PutFixed16 _ _)). unfold PutFixed16, PutFixed32. simpl. by rewrite <- !app_assoc.
Qed.

Lemma slen_UDTS_EncodeTo l :
  slen (UserDefinedTimestampSizeRecord_EncodeTo [] l) = kSizePerColumnFamily * slen l.
Proof.
  unfold kSizePerColumnFamily. induction l as [| [cf ts] l IH]; simpl; [slia |].
  rewrite UDTS_EncodeTo_app, slen_app, IH. unfold PutFixed16, PutFixed32. slia.
Qed.

Lemma UDTS_Decode_Encode l : Forall ts_entry_ok l ->
  UserDefinedTimestampSizeRecord_DecodeFrom (UserDefinedTimestampSizeRecord_EncodeTo [] l) = (Some l, []).
Proof.
  intros Hl. unfold UserDefinedTimestampSizeRecord_DecodeFrom.
  rewrite slen_UDTS_EncodeTo. rewrite Z.mul_comm, Z.mod_mul, Z.div_mul by done.
  simpl. unfold slen. rewrite Nat2Z.id.
  induction Hl as [| [cf ts] l [Hcf Hts] Hl IH]; [done |]. simpl in *.
  rewrite UDTS_EncodeTo_app. unfold PutFixed16, PutFixed32. rewrite app_nil_l, <- app_assoc.
  rewrite GetFixed32_Put by done. rewrite (wrap_small 16) by done.
  by rewrite GetFixed16_Put, IH by done.
Qed.
