(* ===== verification/LogWriter.v ===== *)
(** db/log_writer.h and db/log_writer.cc: the write-ahead log writer, without
    compression ([compress_] is null: the build has no streaming codec).

    The file below the writer is an interface, [WritableFileWriter], with the laws
    the writer relies on; [MemFile] is an instance that fails when it is full.
    [WritableFileWriter::PrepareIOOptions] returns OK for every [WriteOptions]
    (file/file_util.h), so its status is not represented. *)

From stdpp Require Import gmap.
From S2P Require Import Prelude Coding Crc32c LogFormat.

(** * The file *)

Inductive IOStatus := IOStatus_OK | IOStatus_IOError.
#[global] Instance IOStatus_eq_dec : EqDecision IOStatus.
Proof. solve_decision. Defined.
Definition ok (s : IOStatus) : bool := bool_decide (s = IOStatus_OK).

Class WritableFileWriter (F : Type) := {
  Append : F -> bytes -> IOStatus * F;
  Flush : F -> IOStatus * F;
  CloseFile : F -> IOStatus * F;
  IsClosed : F -> bool;
  BufferIsEmpty : F -> bool;
  seen_error : F -> bool;
}.

(** What the writer relies on: a successful [Append] adds all of its data at the
    end, a failed one at most a prefix of it, and is remembered by [seen_error]. *)
Class WritableFileLaws (F : Type) {W : WritableFileWriter F} := {
  contents : F -> bytes;
  Append_ok f d f' : Append f d = (IOStatus_OK, f') ->
    contents f' = contents f ++ d /\ seen_error f' = seen_error f;
  Append_error f d f' : Append f d = (IOStatus_IOError, f') ->
    seen_error f' = true /\ exists p, p `prefix_of` d /\ contents f' = contents f ++ p;
  Flush_contents f s f' : Flush f = (s, f') ->
    contents f' = contents f /\ seen_error f' = (seen_error f || negb (ok s));
}.

(** A file in memory that takes at most [mem_capacity] bytes. *)
Record MemFile := { mem_contents : bytes; mem_capacity : Z; mem_error : bool }.
Definition MemFile_Append (f : MemFile) (d : bytes) : IOStatus * MemFile :=
  if slen (mem_contents f) + slen d <=? mem_capacity f then
    (IOStatus_OK, {| mem_contents := mem_contents f ++ d; mem_capacity := mem_capacity f;
                     mem_error := mem_error f |})
  else
    (IOStatus_IOError,
     {| mem_contents :=
          mem_contents f ++ stake (mem_capacity f - slen (mem_contents f)) d;
        mem_capacity := mem_capacity f; mem_error := true |}).
#[export] Instance MemFile_writer : WritableFileWriter MemFile := {|
  Append := MemFile_Append;
  Flush f := (IOStatus_OK, f);
  CloseFile f := (IOStatus_OK, f);
  IsClosed f := false;
  BufferIsEmpty f := true;
  seen_error := mem_error;
|}.
#[export] Instance MemFile_laws : WritableFileLaws MemFile.
Proof.
  refine {| contents := mem_contents |}.
  - intros f d f'. simpl. unfold MemFile_Append. case_match; [by intros [= <-] | done].
  - intros f d f'. simpl. unfold MemFile_Append. case_match; [done | intros [= <-]]. simpl.
    split; [done |]. eexists. split; [| done]. unfold stake. apply prefix_take.
  - intros f s f' [= <- <-]. simpl. by rewrite orb_false_r.
Defined.

(** * The writer *)

Record Writer (F : Type) := {
  dest_ : F;
  (** [dest_] was released by [Close] or [PublishIfClosed]. *)
  dest_reset_ : bool;
  block_offset_ : Z;
  log_number_ : Z;
  recycle_log_files_ : bool;
  manual_flush_ : bool;
  recorded_cf_to_ts_sz_ : gmap Z Z;
}.
Arguments dest_ {F}.
Arguments dest_reset_ {F}.
Arguments block_offset_ {F}.
Arguments log_number_ {F}.
Arguments recycle_log_files_ {F}.
Arguments manual_flush_ {F}.
Arguments recorded_cf_to_ts_sz_ {F}.

Definition set_dest {F} (w : Writer F) (f : F) : Writer F := {|
  dest_ := f; dest_reset_ := dest_reset_ w; block_offset_ := block_offset_ w;
  log_number_ := log_number_ w; recycle_log_files_ := recycle_log_files_ w;
  manual_flush_ := manual_flush_ w; recorded_cf_to_ts_sz_ := recorded_cf_to_ts_sz_ w |}.
Definition set_block_offset {F} (w : Writer F) (o : Z) : Writer F := {|
  dest_ := dest_ w; dest_reset_ := dest_reset_ w; block_offset_ := o;
  log_number_ := log_number_ w; recycle_log_files_ := recycle_log_files_ w;
  manual_flush_ := manual_flush_ w; recorded_cf_to_ts_sz_ := recorded_cf_to_ts_sz_ w |}.
Definition set_recorded {F} (w : Writer F) (m : gmap Z Z) : Writer F := {|
  dest_ := dest_ w; dest_reset_ := dest_reset_ w; block_offset_ := block_offset_ w;
  log_number_ := log_number_ w; recycle_log_files_ := recycle_log_files_ w;
  manual_flush_ := manual_flush_ w; recorded_cf_to_ts_sz_ := m |}.
Definition set_reset {F} (w : Writer F) : Writer F := {|
  dest_ := dest_ w; dest_reset_ := true; block_offset_ := block_offset_ w;
  log_number_ := log_number_ w; recycle_log_files_ := recycle_log_files_ w;
  manual_flush_ := manual_flush_ w; recorded_cf_to_ts_sz_ := recorded_cf_to_ts_sz_ w |}.

Definition header_size (recycle_log_files : bool) : Z :=
  if recycle_log_files then kRecyclableHeaderSize else kHeaderSize.
Definition header_size_ {F} (w : Writer F) : Z := header_size (recycle_log_files_ w).

(** The checksum of the type byte, precomputed by the constructor. *)
Definition type_crc_ (t : Z) : Z := Value [byte.of_Z t].

Section Writer.
Context {F : Type} {W : WritableFileWriter F}.

Definition MakeWriter (dest : F) (log_number : Z) (recycle_log_files manual_flush : bool)
    : Writer F := {|
  dest_ := dest; dest_reset_ := false; block_offset_ := 0; log_number_ := log_number;
  recycle_log_files_ := recycle_log_files; manual_flush_ := manual_flush;
  recorded_cf_to_ts_sz_ := ∅ |}.

(** The types written with the short header. *)
Definition is_legacy_type (t : Z) : bool :=
  (t <? kRecyclableFullType) || (t =? kSetCompressionType) ||
  (t =? kUserDefinedTimestampSizeType).

Definition EmitPhysicalRecord (w : Writer F) (t : Z) (ptr : bytes) : IOStatus * Writer F :=
  let n := slen ptr in
  let buf4 := [byte.of_Z (Z.land n 0xff); byte.of_Z (Z.shiftr n 8); byte.of_Z t] in
  let crc := type_crc_ t in
  let '(header_size, crc, buf7) :=
    if is_legacy_type t then (kHeaderSize, crc, [])
    else
      let buf7 := EncodeFixed32 (u32 (log_number_ w)) in
      (kRecyclableHeaderSize, Extend crc buf7, buf7) in
  let payload_crc := Value ptr in
  let crc := Mask (Crc32cCombine crc payload_crc n) in
  let buf := EncodeFixed32 crc ++ buf4 ++ buf7 in
  let '(s, f) := Append (dest_ w) buf in
  let '(s, f) := if ok s then Append f ptr else (s, f) in
  (s, set_block_offset (set_dest w f) (block_offset_ w + (header_size + n))).

(** One iteration of the loop of [AddRecord], after the block switch: the fragment,
    its type, and whether it was the last. *)
Definition fragment_type (recycle begin last : bool) : Z :=
  if begin && last then if recycle then kRecyclableFullType else kFullType
  else if begin then if recycle then kRecyclableFirstType else kFirstType
  else if last then if recycle then kRecyclableLastType else kLastType
  else if recycle then kRecyclableMiddleType else kMiddleType.

(** The block switch at the top of the loop. *)
Definition SwitchBlock (w : Writer F) : IOStatus * Writer F :=
  let leftover := kBlockSize - block_offset_ w in
  if leftover <? header_size_ w then
    if leftover >? 0 then
      let '(s, f) := Append (dest_ w) (stake leftover (sfill 10 Byte.x00)) in
      if ok s then (s, set_block_offset (set_dest w f) 0) else (s, set_dest w f)
    else (IOStatus_OK, set_block_offset w 0)
  else (IOStatus_OK, w).

(** The loop; [None] when the fuel runs out. *)
Fixpoint AddRecord_loop (fuel : nat) (w : Writer F) (begin : bool) (ptr : bytes)
    : option (IOStatus * Writer F) :=
  match fuel with
  | O => None
  | S fuel =>
      let '(s, w) := SwitchBlock w in
      if ok s then
        let avail := kBlockSize - block_offset_ w - header_size_ w in
        let left := slen ptr in
        let fragment_length := if left <? avail then left else avail in
        let last := left =? fragment_length in
        let type := fragment_type (recycle_log_files_ w) begin last in
        let '(s, w) := EmitPhysicalRecord w type (stake fragment_length ptr) in
        let ptr := sdrop fragment_length ptr in
        if ok s && (0 <? slen ptr) then AddRecord_loop fuel w false ptr else Some (s, w)
      else Some (s, w)
  end.

Definition AddRecord (w : Writer F) (slice : bytes) : option (IOStatus * Writer F) :=
  if seen_error (dest_ w) then Some (IOStatus_IOError, w)
  else
    match AddRecord_loop (length slice + 2) w true slice with
    | None => None
    | Some (s, w) =>
        if ok s then
          if negb (manual_flush_ w) then
            let '(s, f) := Flush (dest_ w) in Some (s, set_dest w f)
          else Some (s, w)
        else Some (s, w)
    end.

(** [compression_type_] is [kNoCompression]. *)
Definition AddCompressionTypeRecord (w : Writer F) : IOStatus * Writer F := (IOStatus_OK, w).

(** The loop that collects the sizes that are not recorded yet. *)
Fixpoint collect_ts_sz (recorded : gmap Z Z) (cf_to_ts_sz : list (Z * Z))
    : gmap Z Z * list (Z * Z) :=
  match cf_to_ts_sz with
  | [] => (recorded, [])
  | (cf_id, ts_sz) :: l =>
      match recorded !! cf_id with
      | Some _ => collect_ts_sz recorded l
      | None =>
          if negb (ts_sz =? 0) then
            let '(recorded, r) := collect_ts_sz (<[cf_id := ts_sz]> recorded) l in
            (recorded, (cf_id, ts_sz) :: r)
          else collect_ts_sz recorded l
      end
  end.

Definition MaybeAddUserDefinedTimestampSizeRecord (w : Writer F) (cf_to_ts_sz : list (Z * Z))
    : IOStatus * Writer F :=
  let '(recorded, ts_sz_to_record) := collect_ts_sz (recorded_cf_to_ts_sz_ w) cf_to_ts_sz in
  let w := set_recorded w recorded in
  match ts_sz_to_record with
  | [] => (IOStatus_OK, w)
  | _ =>
      let encoded := UserDefinedTimestampSizeRecord_EncodeTo [] ts_sz_to_record in
      let type := if recycle_log_files_ w then kRecyclableUserDefinedTimestampSizeType
                  else kUserDefinedTimestampSizeType in
      let leftover := kBlockSize - block_offset_ w in
      if leftover <? header_size_ w + slen encoded then
        let '(s, f) := Append (dest_ w) (sfill leftover Byte.x00) in
        if ok s then EmitPhysicalRecord (set_block_offset (set_dest w f) 0) type encoded
        else (s, set_dest w f)
      else EmitPhysicalRecord w type encoded
  end.

Definition WriteBuffer (w : Writer F) : IOStatus * Writer F :=
  if seen_error (dest_ w) then (IOStatus_IOError, w)
  else let '(s, f) := Flush (dest_ w) in (s, set_dest w f).
Definition Writer_Close (w : Writer F) : IOStatus * Writer F :=
  if negb (dest_reset_ w) then
    let '(s, f) := CloseFile (dest_ w) in (s, set_reset (set_dest w f))
  else (IOStatus_OK, w).
Definition PublishIfClosed (w : Writer F) : bool * Writer F :=
  if IsClosed (dest_ w) then (true, set_reset w) else (false, w).
Definition Writer_BufferIsEmpty (w : Writer F) : bool := BufferIsEmpty (dest_ w).
End Writer.

(** * The layout of the log

    The specification of what the writer produces: physical records that never
    cross a block boundary, blocks whose remainder is too small for a header being
    filled with zeros, and a logical record cut into fragments that fill the blocks. *)

(** The log number in the header of a recyclable record. *)
Definition log_number_bytes (ln t : Z) : bytes :=
  if is_legacy_type t then [] else EncodeFixed32 (u32 ln).

Definition physical_header (ln t : Z) (p : bytes) : bytes :=
  EncodeFixed32 (Mask (Value ([byte.of_Z t] ++ log_number_bytes ln t ++ p))) ++
  [byte.of_Z (Z.land (slen p) 0xff); byte.of_Z (Z.shiftr (slen p) 8); byte.of_Z t] ++
  log_number_bytes ln t.
Definition physical_record (ln t : Z) (p : bytes) : bytes := physical_header ln t p ++ p.

(** [fragments recycle ln off begin data out off']: [out] is a layout of what is
    left, [data], of a logical record from offset [off] of a block, and ends at
    offset [off'] of a block. *)
Inductive fragments (recycle : bool) (ln : Z) : Z -> bool -> bytes -> bytes -> Z -> Prop :=
  | fragments_last off begin data :
      off + header_size recycle + slen data <= kBlockSize ->
      fragments recycle ln off begin data
        (physical_record ln (fragment_type recycle begin true) data)
        (off + header_size recycle + slen data)
  | fragments_more off begin data1 data2 out off' :
      off + header_size recycle + slen data1 = kBlockSize -> data2 <> [] ->
      fragments recycle ln 0 false data2 out off' ->
      fragments recycle ln off begin (data1 ++ data2)
        (physical_record ln (fragment_type recycle begin false) data1 ++ out) off'.

(** A logical record: the zeros that end a block, then its fragments. *)
Inductive framed (recycle : bool) (ln : Z) : Z -> bytes -> bytes -> Z -> Prop :=
  | framed_here off data out off' :
      off + header_size recycle <= kBlockSize ->
      fragments recycle ln off true data out off' -> framed recycle ln off data out off'
  | framed_next off data out off' :
      0 <= off <= kBlockSize -> kBlockSize < off + header_size recycle ->
      fragments recycle ln 0 true data out off' ->
      framed recycle ln off data (sfill (kBlockSize - off) Byte.x00 ++ out) off'.

(** What a log holds: logical records and records of timestamp sizes. *)
Inductive LogEntry := LogRecord (data : bytes) | LogTsSizes (l : list (Z * Z)).

Definition ts_type (recycle : bool) : Z :=
  if recycle then kRecyclableUserDefinedTimestampSizeType else kUserDefinedTimestampSizeType.

(** A record of timestamp sizes is not cut: it goes to the next block if need be. *)
Inductive framed_ts (recycle : bool) (ln : Z) : Z -> list (Z * Z) -> bytes -> Z -> Prop :=
  | framed_ts_here off l :
      let e := UserDefinedTimestampSizeRecord_EncodeTo [] l in
      off + header_size recycle + slen e <= kBlockSize ->
      framed_ts recycle ln off l (physical_record ln (ts_type recycle) e)
        (off + header_size recycle + slen e)
  | framed_ts_next off l :
      let e := UserDefinedTimestampSizeRecord_EncodeTo [] l in
      0 <= off <= kBlockSize -> kBlockSize < off + header_size recycle + slen e ->
      header_size recycle + slen e <= kBlockSize ->
      framed_ts recycle ln off l
        (sfill (kBlockSize - off) Byte.x00 ++ physical_record ln (ts_type recycle) e)
        (header_size recycle + slen e).

(** A whole log from offset [off] of a block. *)
Inductive log_layout (recycle : bool) (ln : Z) : Z -> list LogEntry -> bytes -> Z -> Prop :=
  | log_layout_nil off : log_layout recycle ln off [] [] off
  | log_layout_record off data out off1 es out' off2 :
      framed recycle ln off data out off1 -> log_layout recycle ln off1 es out' off2 ->
      log_layout recycle ln off (LogRecord data :: es) (out ++ out') off2
  | log_layout_ts off l out off1 es out' off2 :
      framed_ts recycle ln off l out off1 -> log_layout recycle ln off1 es out' off2 ->
      log_layout recycle ln off (LogTsSizes l :: es) (out ++ out') off2.

(** * The writer implements the layout *)

Lemma header_size_7_11 recycle : header_size recycle = 7 \/ header_size recycle = 11.
Proof. destruct recycle; [by right | by left]. Qed.

Lemma fragment_type_legacy recycle begin last :
  is_legacy_type (fragment_type recycle begin last) = negb recycle.
Proof. by destruct recycle, begin, last. Qed.

Lemma fragment_type_range recycle begin last : 1 <= fragment_type recycle begin last <= 8.
Proof. by destruct recycle, begin, last. Qed.

Lemma slen_log_number_bytes ln t :
  slen (log_number_bytes ln t) = if is_legacy_type t then 0 else 4.
Proof. unfold log_number_bytes. by destruct (is_legacy_type t). Qed.

Lemma slen_physical_record ln t p :
  slen (physical_record ln t p) = header_size (negb (is_legacy_type t)) + slen p.
Proof.
  unfold physical_record, physical_header. autorewrite with slen. rewrite slen_log_number_bytes.
  destruct (is_legacy_type t); simpl; unfold kRecyclableHeaderSize, kHeaderSize; slia.
Qed.

Lemma sdrop_ne {A} n (l : list A) : 0 <= n < slen l -> sdrop n l <> [].
Proof. intros Hn E. apply (f_equal slen) in E. rewrite slen_sdrop in E. unfold slen at 2 in E. simpl in E. lia. Qed.

(** A layout exists from every offset at which a header fits. *)
Lemma fragments_total recycle ln data off begin :
  0 <= off -> off + header_size recycle <= kBlockSize ->
  exists out off', fragments recycle ln off begin data out off'.
Proof.
  pose proof (header_size_7_11 recycle).
  remember (length data + if Z.eqb off 0 then 0 else 1)%nat as n eqn:En.
  revert data off begin En. induction (lt_wf n) as [n _ IH]. intros data off begin -> Hoff HB.
  destruct (Z_le_gt_dec (off + header_size recycle + slen data) kBlockSize) as [Hle | Hgt];
    [do 2 eexists; by apply fragments_last |].
  set (a := kBlockSize - off - header_size recycle). rewrite <- (stake_sdrop a data).
  destruct (IH (length (sdrop a data)) ltac:(
    unfold sdrop, slen, kBlockSize in *; rewrite length_drop; destruct (Z.eqb_spec off 0); lia)
    (sdrop a data) 0 false) as (out & off' & Hf); [simpl; lia | lia | unfold kBlockSize; lia |].
  do 2 eexists. apply fragments_more; [| | exact Hf].
  - rewrite slen_stake. lia.
  - apply sdrop_ne. lia.
Qed.

Lemma fragments_end recycle ln off begin data out off' :
  fragments recycle ln off begin data out off' -> 0 <= off -> 0 < off' <= kBlockSize.
Proof.
  pose proof (header_size_7_11 recycle). induction 1; intros; [slia | auto with lia].
Qed.

Lemma framed_end recycle ln off data out off' :
  framed recycle ln off data out off' -> 0 <= off -> 0 < off' <= kBlockSize.
Proof. destruct 1; intros; by eapply fragments_end. Qed.

Lemma framed_ts_end recycle ln off l out off' :
  framed_ts recycle ln off l out off' -> 0 <= off -> 0 < off' <= kBlockSize.
Proof. pose proof (header_size_7_11 recycle). destruct 1; intros; slen_facts; lia. Qed.

Lemma log_layout_end recycle ln off es out off' :
  log_layout recycle ln off es out off' -> 0 <= off <= kBlockSize -> 0 <= off' <= kBlockSize.
Proof.
  induction 1 as [| ? ? ? ? ? ? ? Hf ? IH | ? ? ? ? ? ? ? Hf ? IH]; intros; [done | |]; apply IH.
  - pose proof (framed_end _ _ _ _ _ _ Hf ltac:(lia)). lia.
  - pose proof (framed_ts_end _ _ _ _ _ _ Hf ltac:(lia)). lia.
Qed.

Lemma log_layout_app recycle ln off es1 out1 off1 es2 out2 off2 :
  log_layout recycle ln off es1 out1 off1 -> log_layout recycle ln off1 es2 out2 off2 ->
  log_layout recycle ln off (es1 ++ es2) (out1 ++ out2) off2.
Proof.
  intros H1 H2. induction H1; simpl; [done | |]; rewrite <- app_assoc; econstructor; eauto.
Qed.

Section WriterProofs.
Context {F : Type} {W : WritableFileWriter F} {WL : WritableFileLaws F}.

(** The writer appended [d], or, when the status is an error, a prefix of it. *)
Definition wrote (s : IOStatus) (w w' : Writer F) (d : bytes) : Prop :=
  log_number_ w' = log_number_ w /\ recycle_log_files_ w' = recycle_log_files_ w /\
  manual_flush_ w' = manual_flush_ w /\
  match s with
  | IOStatus_OK => contents (dest_ w') = contents (dest_ w) ++ d /\
      seen_error (dest_ w') = seen_error (dest_ w) /\
      recorded_cf_to_ts_sz_ w' = recorded_cf_to_ts_sz_ w
  | IOStatus_IOError => seen_error (dest_ w') = true /\
      exists p, p `prefix_of` d /\ contents (dest_ w') = contents (dest_ w) ++ p
  end.

Lemma wrote_trans s w w1 w2 d1 d2 :
  wrote IOStatus_OK w w1 d1 -> wrote s w1 w2 d2 -> wrote s w w2 (d1 ++ d2).
Proof.
  intros (? & ? & ? & Hc & Hs & Hr) (? & ? & ? & Hd). unfold wrote. split_and!; try congruence.
  destruct s.
  - destruct Hd as (-> & -> & ->). by rewrite Hc, app_assoc.
  - destruct Hd as (? & p & Hp & ->). split; [done |]. exists (d1 ++ p).
    rewrite Hc, app_assoc. split; [by apply prefix_app | done].
Qed.

Lemma wrote_error w w' d1 d2 :
  wrote IOStatus_IOError w w' d1 -> wrote IOStatus_IOError w w' (d1 ++ d2).
Proof.
  intros (? & ? & ? & ? & p & Hp & E). unfold wrote. split_and!; try done.
  exists p. split; [by apply prefix_app_r | done].
Qed.

Lemma wrote_contents s w w' d : wrote s w w' d ->
  exists p, p `prefix_of` d /\ contents (dest_ w') = contents (dest_ w) ++ p.
Proof. intros (_ & _ & _ & Hd). destruct s; [exists d; by destruct Hd | by destruct Hd]. Qed.

Lemma Append_wrote w d s f : Append (dest_ w) d = (s, f) -> wrote s w (set_dest w f) d.
Proof.
  intros E. unfold wrote. split_and!; try done. destruct s.
  - apply Append_ok in E as [? ?]. by split_and!.
  - by apply Append_error.
Qed.

(** Changes that are not to the file do not matter to [wrote]. *)
Lemma wrote_set_block_offset s w w' d o : wrote s w w' d -> wrote s w (set_block_offset w' o) d.
Proof. done. Qed.

Lemma set_block_offset_id (w : Writer F) o : block_offset_ w = o -> set_block_offset w o = w.
Proof. intros <-. by destruct w. Qed.

Lemma wrote_set_recorded s w w' d m :
  wrote s w w' d -> wrote s (set_recorded w m) (set_recorded w' m) d.
Proof. intros (? & ? & ? & Hd). unfold wrote. split_and!; try done. destruct s; [| done]. by destruct Hd as (? & ? & _). Qed.

Lemma EmitPhysicalRecord_spec w t p s w' : slen p < 2 ^ 64 ->
  EmitPhysicalRecord w t p = (s, w') ->
  wrote s w w' (physical_record (log_number_ w) t p) /\
  block_offset_ w' = block_offset_ w + header_size (negb (is_legacy_type t)) + slen p.
Proof.
  intros Hp. unfold EmitPhysicalRecord.
  assert (exists hs ln, (if is_legacy_type t then (kHeaderSize, type_crc_ t, [])
    else (kRecyclableHeaderSize, Extend (type_crc_ t) (EncodeFixed32 (u32 (log_number_ w))),
          EncodeFixed32 (u32 (log_number_ w)))) = (hs, Value ([byte.of_Z t] ++ ln), ln) /\
    ln = log_number_bytes (log_number_ w) t /\ hs = header_size (negb (is_legacy_type t)))
    as (hs & ln & -> & Hln & Hhs).
  { unfold log_number_bytes. destruct (is_legacy_type t); do 2 eexists; split_and!; try done.
    unfold type_crc_. by rewrite Extend_Value. }
  rewrite Crc32cCombine_Value, <- app_assoc, Hln, <- Hhs by done.
  change (EncodeFixed32 _ ++ _) with (physical_header (log_number_ w) t p).
  destruct (Append (dest_ w) _) as [s1 f1] eqn:E1.
  apply Append_wrote in E1 as H1. unfold physical_record. destruct s1; simpl ok; cbn iota.
  - destruct (Append f1 p) as [s2 f2] eqn:E2. intros [= <- <-]. split; [| simpl; lia].
    apply wrote_set_block_offset, (wrote_trans _ _ (set_dest w f1)); [done |].
    exact (Append_wrote (set_dest w f1) p s2 f2 E2).
  - intros [= <- <-]. split; [| simpl; lia]. by apply wrote_set_block_offset, wrote_error.
Qed.

(** The block switch when a header fits in the block, and at the end of a block. *)
Lemma SwitchBlock_ready w off :
  block_offset_ w = off /\ off + header_size_ w <= kBlockSize \/
  off = 0 /\ block_offset_ w = kBlockSize ->
  SwitchBlock w = (IOStatus_OK, set_block_offset w off).
Proof.
  unfold SwitchBlock. pose proof (header_size_7_11 (recycle_log_files_ w)) as Hh.
  fold (header_size_ w) in Hh. intros [[<- H] | [-> ->]].
  - destruct (Z.ltb_spec (kBlockSize - block_offset_ w) (header_size_ w)); [lia |].
    by destruct w.
  - rewrite Z.sub_diag. destruct (Z.ltb_spec 0 (header_size_ w)); [done | lia].
Qed.

Lemma SwitchBlock_next w s w' : 0 <= block_offset_ w <= kBlockSize ->
  kBlockSize < block_offset_ w + header_size_ w -> SwitchBlock w = (s, w') ->
  wrote s w w' (sfill (kBlockSize - block_offset_ w) Byte.x00) /\
  (s = IOStatus_OK -> block_offset_ w' = 0).
Proof.
  intros H0 H. unfold SwitchBlock.
  destruct (Z.ltb_spec (kBlockSize - block_offset_ w) (header_size_ w)); [| lia].
  pose proof (header_size_7_11 (recycle_log_files_ w)) as Hh. fold (header_size_ w) in Hh.
  destruct (Z.gtb_spec (kBlockSize - block_offset_ w) 0).
  - replace (stake (kBlockSize - block_offset_ w) (sfill 10 Byte.x00))
      with (sfill (kBlockSize - block_offset_ w) Byte.x00).
    2: { unfold stake, sfill. rewrite take_replicate. f_equal. lia. }
    destruct (Append (dest_ w) _) as [s1 f1] eqn:E. apply Append_wrote in E.
    destruct s1; intros [= <- <-]; (split; [exact E | done]).
  - intros [= <- <-]. replace (kBlockSize - block_offset_ w) with 0 by lia.
    split; [| done]. unfold wrote. simpl. by rewrite app_nil_r.
Qed.

(** The loop, from a block in which the header fits or from the end of a block,
    writes the fragments. *)
Lemma AddRecord_loop_fragments recycle ln off begin data out off' :
  fragments recycle ln off begin data out off' -> 0 <= off ->
  forall fuel w, recycle_log_files_ w = recycle -> log_number_ w = ln ->
  block_offset_ w = off \/ off = 0 /\ block_offset_ w = kBlockSize ->
  (length data + (if Z.eqb off 0 then 1 else 2) <= fuel)%nat ->
  exists s w', AddRecord_loop fuel w begin data = Some (s, w') /\ wrote s w w' out /\
    (s = IOStatus_OK -> block_offset_ w' = off').
Proof.
  intros Hf. induction Hf as [off begin data Hfit | off begin data1 data2 out off' Hfit Hne Hf IH];
    intros Hoff fuel w <- <- Ho Hfuel; assert (Hblock := header_size_7_11 (recycle_log_files_ w));
    (destruct fuel as [| fuel]; [destruct (Z.eqb off 0); lia |]); cbn [AddRecord_loop];
    (rewrite (SwitchBlock_ready w off) by (unfold header_size_; slen_facts; lia));
    simpl ok; cbn iota; cbv zeta; fold (header_size_ w) in Hfit |- *.
  - set (w0 := set_block_offset w off).
    assert ((if slen data <? kBlockSize - block_offset_ w0 - header_size_ w0 then slen data
      else kBlockSize - block_offset_ w0 - header_size_ w0) = slen data) as ->.
    { simpl. case Z.ltb_spec; [done |]. change (header_size_ w0) with (header_size_ w). lia. }
    rewrite Z.eqb_refl, stake_ge, sdrop_ge by lia.
    destruct (EmitPhysicalRecord w0 _ data) as [s w'] eqn:E.
    apply EmitPhysicalRecord_spec in E as [Hw Hb]; [| unfold kBlockSize, header_size_ in *; lia]. rewrite andb_false_r.
    exists s, w'. split_and!; [done | done |]. intros _. rewrite Hb, fragment_type_legacy.
    by rewrite negb_involutive.
  - set (w0 := set_block_offset w off).
    assert (header_size_ w0 = header_size_ w) as Hh by done.
    assert (0 < slen data2) as Hd2 by (destruct data2; [done | slia]).
    assert ((if slen (data1 ++ data2) <? kBlockSize - block_offset_ w0 - header_size_ w0
      then slen (data1 ++ data2) else kBlockSize - block_offset_ w0 - header_size_ w0) = slen data1) as ->.
    { simpl. rewrite slen_app, Hh. case Z.ltb_spec; lia. }
    rewrite stake_app_exact, sdrop_app_exact, slen_app in * by done.
    replace (slen data1 + slen data2 =? slen data1) with false by (symmetry; apply Z.eqb_neq; lia).
    destruct (EmitPhysicalRecord w0 _ data1) as [s w1] eqn:E.
    apply EmitPhysicalRecord_spec in E as [Hw Hb]; [| unfold kBlockSize, header_size_ in *; lia].
    destruct (Z.ltb_spec 0 (slen data2)); [| lia]. rewrite andb_true_r.
    destruct s; simpl ok; cbn iota.
    2: { exists IOStatus_IOError, w1. split_and!; [done | by apply wrote_error | done]. }
    destruct (IH ltac:(lia) fuel w1) as (s & w2 & -> & Hw2 & Hs);
      [apply Hw | apply Hw | | |].
    + right. split; [done |]. rewrite Hb, fragment_type_legacy, negb_involutive. done.
    + rewrite length_app in Hfuel. simpl. unfold slen in *.
      pose proof (header_size_7_11 (recycle_log_files_ w)). unfold kBlockSize in *.
      change (header_size_ w) with (header_size (recycle_log_files_ w)) in *.
      destruct (Z.eqb_spec off 0); lia.
    + exists s, w2. split_and!; [done | | done]. by apply (wrote_trans _ _ w1).
Qed.

Lemma AddRecord_loop_next w data out off' : 0 <= block_offset_ w <= kBlockSize ->
  kBlockSize < block_offset_ w + header_size (recycle_log_files_ w) ->
  fragments (recycle_log_files_ w) (log_number_ w) 0 true data out off' ->
  exists s w' out off', AddRecord_loop (length data + 2) w true data = Some (s, w') /\
    framed (recycle_log_files_ w) (log_number_ w) (block_offset_ w) data out off' /\
    wrote s w w' out /\ (s = IOStatus_OK -> block_offset_ w' = off').
Proof.
  intros Hoff Hgt Hf. destruct (SwitchBlock w) as [s w1] eqn:E1.
  apply SwitchBlock_next in E1 as H1; [| done..]. destruct H1 as [Hw1 Hb1].
  assert (framed (recycle_log_files_ w) (log_number_ w) (block_offset_ w) data
    (sfill (kBlockSize - block_offset_ w) Byte.x00 ++ out) off') as Hfr by (by apply framed_next).
  destruct s.
  - destruct (AddRecord_loop_fragments _ _ _ _ _ _ _ Hf ltac:(lia) (length data + 2) w1)
      as (s & w' & E & Hw & Hb); [apply Hw1 | apply Hw1 | left; by apply Hb1 | simpl; lia |].
    exists s, w', (sfill (kBlockSize - block_offset_ w) Byte.x00 ++ out), off'.
    split_and!; [| done | by apply (wrote_trans _ _ w1) | done]. rewrite <- E.
    replace (length data + 2)%nat with (S (length data + 1)) by lia. cbn [AddRecord_loop].
    rewrite E1, (SwitchBlock_ready w1 0).
    { by rewrite (set_block_offset_id w1 0) by (by apply Hb1). }
    left. split; [by apply Hb1 |]. unfold header_size_.
    pose proof (header_size_7_11 (recycle_log_files_ w1)). unfold kBlockSize. lia.
  - exists IOStatus_IOError, w1, (sfill (kBlockSize - block_offset_ w) Byte.x00 ++ out), off'.
    split_and!; [| done | by apply wrote_error | done].
    replace (length data + 2)%nat with (S (length data + 1)) by lia. cbn [AddRecord_loop].
    by rewrite E1.
Qed.

Lemma Flush_wrote w s f : Flush (dest_ w) = (s, f) -> wrote s w (set_dest w f) [].
Proof.
  intros [Hc Hs]%Flush_contents. unfold wrote. split_and!; try done. destruct s; simpl.
  - rewrite Hc, Hs, app_nil_r, orb_false_r. done.
  - split; [by rewrite Hs, orb_true_r |]. exists []. by rewrite Hc, app_nil_r.
Qed.

Lemma AddRecord_framed w data : 0 <= block_offset_ w <= kBlockSize ->
  seen_error (dest_ w) = false ->
  exists s w' out off', AddRecord w data = Some (s, w') /\
    framed (recycle_log_files_ w) (log_number_ w) (block_offset_ w) data out off' /\
    wrote s w w' out /\ (s = IOStatus_OK -> block_offset_ w' = off').
Proof.
  intros Hoff Herr. unfold AddRecord. rewrite Herr.
  pose proof (header_size_7_11 (recycle_log_files_ w)) as Hh.
  assert (exists s w' out off', AddRecord_loop (length data + 2) w true data = Some (s, w') /\
    framed (recycle_log_files_ w) (log_number_ w) (block_offset_ w) data out off' /\
    wrote s w w' out /\ (s = IOStatus_OK -> block_offset_ w' = off'))
    as (s & w' & out & off' & -> & Hf & Hw & Hb).
  { destruct (Z_le_gt_dec (block_offset_ w + header_size (recycle_log_files_ w)) kBlockSize)
      as [Hle | Hgt].
    - destruct (fragments_total (recycle_log_files_ w) (log_number_ w) data (block_offset_ w) true)
        as (out & off' & Hf); [lia.. |].
      destruct (AddRecord_loop_fragments _ _ _ _ _ _ _ Hf ltac:(lia) (length data + 2) w)
        as (s & w' & E & Hw & Hb); [done | done | by left | by case_match; lia |].
      exists s, w', out, off'. split_and!; try done. by apply framed_here.
    - destruct (fragments_total (recycle_log_files_ w) (log_number_ w) data 0 true)
        as (out & off' & Hf); [lia | unfold kBlockSize; lia |].
      exact (AddRecord_loop_next w data out off' ltac:(lia) ltac:(lia) Hf). }
  destruct s; simpl ok; cbn iota; [| by exists IOStatus_IOError, w', out, off'].
  destruct (manual_flush_ w'); simpl; [by exists IOStatus_OK, w', out, off' |].
  destruct (Flush (dest_ w')) as [s f] eqn:E. apply Flush_wrote in E.
  exists s, (set_dest w' f), out, off'. split_and!; try done; [| intros; by apply Hb].
  rewrite <- (app_nil_r out). by apply (wrote_trans _ _ w').
Qed.

(** The sizes collected are new, not zero, and recorded. *)
Lemma collect_ts_sz_spec recorded l :
  let '(recorded', r) := collect_ts_sz recorded l in
  recorded' = list_to_map r ∪ recorded /\ NoDup r.*1 /\
  Forall (fun e => e ∈ l /\ recorded !! e.1 = None /\ e.2 <> 0) r.
Proof.
  revert recorded. induction l as [| [cf ts] l IH]; intros recorded; simpl.
  { split_and!; [by rewrite (left_id_L ∅ (∪)) | constructor | constructor]. }
  destruct (recorded !! cf) eqn:Ecf.
  { specialize (IH recorded). destruct (collect_ts_sz recorded l) as [m r].
    destruct IH as (-> & ? & Hr). split_and!; try done.
    eapply Forall_impl; [| exact Hr]. intros e (? & ? & ?). split_and!; [by right | done..]. }
  destruct (Z.eqb_spec ts 0) as [E0 | Hts]; simpl.
  { specialize (IH recorded). destruct (collect_ts_sz recorded l) as [m r].
    destruct IH as (-> & ? & Hr). split_and!; try done.
    eapply Forall_impl; [| exact Hr]. intros e (? & ? & ?). split_and!; [by right | done..]. }
  specialize (IH (<[cf:=ts]> recorded)). destruct (collect_ts_sz _ l) as [m r].
  destruct IH as (-> & Hnd & Hr). assert (cf ∉ r.*1) as Hcf.
  { intros ([cf' ts'] & -> & Hin%list_elem_of_In)%list_elem_of_fmap.
    rewrite Forall_forall in Hr. destruct (Hr _ Hin) as (_ & Hl & _). simpl in Hl.
    by rewrite lookup_insert_eq in Hl. }
  split_and!; simpl.
  - rewrite <- insert_union_r by (by apply not_elem_of_list_to_map_1). by rewrite insert_union_l.
  - by constructor.
  - constructor; [split_and!; [by left | done..] |].
    eapply Forall_impl; [| exact Hr]. intros e (? & Hl & ?). split_and!; [by right | | done].
    by apply lookup_insert_None in Hl as [? ?].
Qed.

Lemma MaybeAddUserDefinedTimestampSizeRecord_framed w l s w' recorded r :
  0 <= block_offset_ w <= kBlockSize ->
  collect_ts_sz (recorded_cf_to_ts_sz_ w) l = (recorded, r) -> r <> [] ->
  header_size (recycle_log_files_ w) + kSizePerColumnFamily * slen r <= kBlockSize ->
  MaybeAddUserDefinedTimestampSizeRecord w l = (s, w') ->
  exists out off',
    framed_ts (recycle_log_files_ w) (log_number_ w) (block_offset_ w) r out off' /\
    wrote s (set_recorded w recorded) w' out /\ (s = IOStatus_OK -> block_offset_ w' = off').
Proof.
  intros Hoff Ec Hne Hfit. unfold MaybeAddUserDefinedTimestampSizeRecord. rewrite Ec.
  destruct r as [| x r]; [done |]. simpl recycle_log_files_. simpl block_offset_. simpl dest_.
  remember (x :: r) as r' eqn:Er. clear Hne Er x r. rename r' into r.
  rewrite <- slen_UDTS_EncodeTo in Hfit. set (e := UserDefinedTimestampSizeRecord_EncodeTo [] r) in *.
  fold (ts_type (recycle_log_files_ w)).
  change (header_size_ (set_recorded w recorded)) with (header_size (recycle_log_files_ w)).
  assert (is_legacy_type (ts_type (recycle_log_files_ w)) = negb (recycle_log_files_ w)) as Ht
    by (by destruct (recycle_log_files_ w)).
  assert (slen e < 2 ^ 64) as Hlen.
  { pose proof (header_size_7_11 (recycle_log_files_ w)). unfold kBlockSize in *. lia. }
  destruct (Z.ltb_spec (kBlockSize - block_offset_ w) (header_size (recycle_log_files_ w) + slen e)).
  - destruct (Append (dest_ w) _) as [s1 f1] eqn:E1.
    apply (Append_wrote (set_recorded w recorded)) in E1. intros Hres. do 2 eexists. split; [apply framed_ts_next; fold e; lia |]. revert Hres.
    destruct s1; simpl ok; cbn iota.
    + intros [Hw Hb]%EmitPhysicalRecord_spec; [| done]. rewrite Ht, negb_involutive in Hb.
      split; [exact (wrote_trans _ _ _ _ _ _ E1 Hw) |]. intros _. rewrite Hb. fold e. simpl block_offset_. lia.
    + intros [= <- <-]. split; [exact (wrote_error _ _ _ _ E1) | done].
  - intros [Hw Hb]%EmitPhysicalRecord_spec; [| done]. rewrite Ht, negb_involutive in Hb.
    do 2 eexists. split; [apply framed_ts_here; fold e; lia |]. by split.
Qed.

(** * A sequence of writes *)

Fixpoint write_log (w : Writer F) (es : list LogEntry) : option (IOStatus * Writer F) :=
  match es with
  | [] => Some (IOStatus_OK, w)
  | LogRecord data :: es =>
      match AddRecord w data with
      | Some (IOStatus_OK, w) => write_log w es
      | r => r
      end
  | LogTsSizes l :: es =>
      match MaybeAddUserDefinedTimestampSizeRecord w l with
      | (IOStatus_OK, w) => write_log w es
      | r => Some r
      end
  end.

(** The entries that end up in the file: sizes already recorded are left out. *)
Fixpoint recorded_entries (recorded : gmap Z Z) (es : list LogEntry) : list LogEntry :=
  match es with
  | [] => []
  | LogRecord data :: es => LogRecord data :: recorded_entries recorded es
  | LogTsSizes l :: es =>
      let '(recorded, r) := collect_ts_sz recorded l in
      match r with
      | [] => recorded_entries recorded es
      | _ => LogTsSizes r :: recorded_entries recorded es
      end
  end.
End WriterProofs.

(** The size limit of the writer: a record of timestamp sizes fits in a block.  Other records are
    written in fragments of at most a block. *)
Definition entry_fits (recycle : bool) (e : LogEntry) : Prop :=
  match e with
  | LogRecord _ => True
  | LogTsSizes l => header_size recycle + kSizePerColumnFamily * slen l <= kBlockSize /\
      Forall ts_entry_ok l
  end.

Lemma log_layout_total recycle ln es : Forall (entry_fits recycle) es -> forall off,
  0 <= off <= kBlockSize -> exists out off', log_layout recycle ln off es out off'.
Proof.
  pose proof (header_size_7_11 recycle) as Hh.
  induction 1 as [| [data | l] es He Hes IH]; intros off Hoff; [do 2 eexists; constructor | |].
  - assert (exists out off1, framed recycle ln off data out off1) as (out & off1 & Hf).
    { destruct (Z_le_gt_dec (off + header_size recycle) kBlockSize).
      - destruct (fragments_total recycle ln data off true) as (out & off1 & ?); [lia.. |].
        exists out, off1. by apply framed_here.
      - destruct (fragments_total recycle ln data 0 true) as (out & off1 & ?);
          [lia | unfold kBlockSize; lia |].
        do 2 eexists. apply framed_next; [lia.. | done]. }
    pose proof (framed_end _ _ _ _ _ _ Hf ltac:(lia)).
    destruct (IH off1) as (out' & off2 & Hl); [lia |]. do 2 eexists. by econstructor.
  - destruct He as [Hfit _]. rewrite <- slen_UDTS_EncodeTo in Hfit.
    assert (exists out off1, framed_ts recycle ln off l out off1) as (out & off1 & Hf).
    { set (e := UserDefinedTimestampSizeRecord_EncodeTo [] l) in *.
      destruct (Z_le_gt_dec (off + header_size recycle + slen e) kBlockSize).
      - do 2 eexists. by apply framed_ts_here.
      - do 2 eexists. apply framed_ts_next; fold e; lia. }
    pose proof (framed_ts_end _ _ _ _ _ _ Hf ltac:(lia)).
    destruct (IH off1) as (out' & off2 & Hl); [lia |]. do 2 eexists. by econstructor.
Qed.

Lemma length_collect_ts_sz recorded l : (length (collect_ts_sz recorded l).2 <= length l)%nat.
Proof.
  revert recorded. induction l as [| [cf ts] l IH]; intros recorded; simpl; [done |].
  destruct (recorded !! cf); [specialize (IH recorded); lia |].
  destruct (negb _); [| specialize (IH recorded); lia].
  specialize (IH (<[cf:=ts]> recorded)). destruct (collect_ts_sz _ l). simpl in *. lia.
Qed.

Lemma collect_entry_fits recycle recorded l :
  entry_fits recycle (LogTsSizes l) ->
  entry_fits recycle (LogTsSizes (collect_ts_sz recorded l).2).
Proof.
  intros [Hl Hok]. pose proof (length_collect_ts_sz recorded l).
  split; [unfold slen, kSizePerColumnFamily in *; lia |].
  pose proof (collect_ts_sz_spec recorded l) as Hs. destruct (collect_ts_sz recorded l) as [m r].
  destruct Hs as (_ & _ & Hr). simpl. eapply Forall_impl; [| exact Hr].
  intros e (Hin%list_elem_of_In & _). by eapply Forall_forall in Hok.
Qed.

Lemma recorded_entries_fit recycle es recorded :
  Forall (entry_fits recycle) es -> Forall (entry_fits recycle) (recorded_entries recorded es).
Proof.
  intros H. revert recorded. induction H as [| [data | l] es He Hes IH]; intros recorded; simpl;
    [constructor | by constructor |].
  pose proof (collect_entry_fits recycle recorded l He) as Hc.
  destruct (collect_ts_sz recorded l) as [m [| x r]]; [apply IH |]. by constructor.
Qed.

(** The sizes recorded after writing a list of entries. *)
Fixpoint recorded_after (recorded : gmap Z Z) (es : list LogEntry) : gmap Z Z :=
  match es with
  | [] => recorded
  | LogRecord _ :: es => recorded_after recorded es
  | LogTsSizes l :: es => recorded_after (collect_ts_sz recorded l).1 es
  end.

Section WriteLog.
Context {F : Type} {W : WritableFileWriter F} {WL : WritableFileLaws F}.

(** One write followed by the others. *)
Lemma write_log_step (w w1 : Writer F) s out off1 m es :
  (forall w, Forall (entry_fits (recycle_log_files_ w)) es ->
    0 <= block_offset_ w <= kBlockSize -> seen_error (dest_ w) = false ->
    exists s w' out off', write_log w es = Some (s, w') /\
      log_layout (recycle_log_files_ w) (log_number_ w) (block_offset_ w)
        (recorded_entries (recorded_cf_to_ts_sz_ w) es) out off' /\
      wrote s (set_recorded w (recorded_after (recorded_cf_to_ts_sz_ w) es)) w' out /\
      (s = IOStatus_OK -> block_offset_ w' = off')) ->
  Forall (entry_fits (recycle_log_files_ w)) es -> 0 < off1 <= kBlockSize ->
  seen_error (dest_ w) = false -> wrote s (set_recorded w m) w1 out ->
  (s = IOStatus_OK -> block_offset_ w1 = off1) ->
  exists s' w' out' off',
    match s with IOStatus_OK => write_log w1 es | _ => Some (s, w1) end = Some (s', w') /\
    log_layout (recycle_log_files_ w) (log_number_ w) off1 (recorded_entries m es) out' off' /\
    wrote s' (set_recorded w (recorded_after m es)) w' (out ++ out') /\
    (s' = IOStatus_OK -> block_offset_ w' = off').
Proof.
  intros IH Hes Hoff Herr Hw Hb. destruct s.
  - pose proof Hw as (E1 & E2 & E3 & E4 & E5 & E6). simpl in *.
    destruct (IH w1) as (s' & w' & out' & off' & -> & Hl & Hw' & Hb');
      [by rewrite E2 | rewrite Hb by done; lia | congruence |].
    rewrite E1, E2, E6, Hb in * by done. exists s', w', out', off'. split_and!; try done.
    eapply wrote_trans; [| exact Hw'].
    exact (wrote_set_recorded _ _ _ _ (recorded_after m es) Hw).
  - destruct (log_layout_total (recycle_log_files_ w) (log_number_ w) (recorded_entries m es))
      with (off := off1) as (out' & off' & Hl); [by apply recorded_entries_fit | lia |].
    exists IOStatus_IOError, w1, out', off'. split_and!; try done. by apply wrote_error.
Qed.

Lemma write_log_layout es (w : Writer F) : Forall (entry_fits (recycle_log_files_ w)) es ->
  0 <= block_offset_ w <= kBlockSize -> seen_error (dest_ w) = false ->
  exists s w' out off', write_log w es = Some (s, w') /\
    log_layout (recycle_log_files_ w) (log_number_ w) (block_offset_ w)
      (recorded_entries (recorded_cf_to_ts_sz_ w) es) out off' /\
    wrote s (set_recorded w (recorded_after (recorded_cf_to_ts_sz_ w) es)) w' out /\
    (s = IOStatus_OK -> block_offset_ w' = off').
Proof.
  revert w. induction es as [| [data | l] es IH]; intros w Hes Hoff Herr.
  - exists IOStatus_OK, w, [], (block_offset_ w). split_and!; try done; [constructor |].
    unfold wrote. simpl. by rewrite app_nil_r.
  - inversion_clear Hes as [| ? ? He Hes'].
    destruct (AddRecord_framed w data Hoff Herr) as (s & w1 & out & off1 & E & Hf & Hw & Hb).
    pose proof (framed_end _ _ _ _ _ _ Hf ltac:(lia)).
    destruct (write_log_step w w1 s out off1 (recorded_cf_to_ts_sz_ w) es) as (s' & w' & out' & off' & E' & Hl & Hw' & Hb'); try done.
    exists s', w', (out ++ out'), off'. split_and!; [| by econstructor | done..].
    simpl. rewrite E. by destruct s.
  - inversion_clear Hes as [| ? ? He Hes']. simpl.
    pose proof (collect_entry_fits _ (recorded_cf_to_ts_sz_ w) l He) as Hc.
    destruct (collect_ts_sz (recorded_cf_to_ts_sz_ w) l) as [m r] eqn:Ec. simpl in Hc |- *.
    destruct (MaybeAddUserDefinedTimestampSizeRecord w l) as [s w1] eqn:E.
    destruct r as [| x r].
    + unfold MaybeAddUserDefinedTimestampSizeRecord in E. rewrite Ec in E. injection E as <- <-.
      by apply (IH (set_recorded w m)).
    + destruct (MaybeAddUserDefinedTimestampSizeRecord_framed w l s w1 m (x :: r))
        as (out & off1 & Hf & Hw & Hb); [done.. | apply Hc | done |].
      pose proof (framed_ts_end _ _ _ _ _ _ Hf ltac:(lia)).
      destruct (write_log_step w w1 s out off1 m es) as (s' & w' & out' & off' & E' & Hl & Hw' & Hb'); try done.
      exists s', w', (out ++ out'), off'. split_and!; [| by econstructor | done..]. by destruct s.
Qed.
End WriteLog.

(** C14: [AddRecord] always returns.  On a file that failed before it does nothing and
    reports an error.  Otherwise what it appends is the layout of the record from
    the current block offset (all of it when it succeeds, a prefix when the file
    fails, which the file then remembers), no fragment crosses a block, and the
    block offset follows. *)
Theorem AddRecord_layout {F : Type} {W : WritableFileWriter F} {WL : WritableFileLaws F}
    (w : Writer F) (data : bytes)
    (Hoff : 0 <= block_offset_ w <= kBlockSize) :
  (seen_error (dest_ w) = true -> AddRecord w data = Some (IOStatus_IOError, w)) /\
  (seen_error (dest_ w) = false ->
   exists s w' out off', AddRecord w data = Some (s, w') /\
     framed (recycle_log_files_ w) (log_number_ w) (block_offset_ w) data out off' /\
     wrote s w w' out /\ 0 < off' <= kBlockSize /\
     (s = IOStatus_OK -> block_offset_ w' = off')).
Proof.
  split.
  - intros E. unfold AddRecord. by rewrite E.
  - intros E. destruct (AddRecord_framed w data Hoff E)
      as (s & w' & out & off' & ? & Hf & ? & ?).
    exists s, w', out, off'. pose proof (framed_end _ _ _ _ _ _ Hf ltac:(lia)). split_and!; done || lia.
Qed.

Lemma AddRecord_layout_witness :
  exists s w' out off',
    AddRecord (MakeWriter {| mem_contents := []; mem_capacity := 9; mem_error := false |} 3 true false)
      [Byte.x61; Byte.x62] = Some (s, w') /\
    framed true 3 0 [Byte.x61; Byte.x62] out off' /\
    wrote s (MakeWriter {| mem_contents := []; mem_capacity := 9; mem_error := false |} 3 true false)
      w' out /\ 0 < off' <= kBlockSize /\ (s = IOStatus_OK -> block_offset_ w' = off').
Proof.
  apply (AddRecord_layout
    (MakeWriter {| mem_contents := []; mem_capacity := 9; mem_error := false |} 3 true false)
    [Byte.x61; Byte.x62]); by vm_compute.
Defined.
