(* ===== verification/LogReader.v ===== *)
(** db/log_reader.h and db/log_reader.cc, class [Reader]: the write-ahead log
    reader, without [record_checksum] (a null pointer) and without compression (the
    build has no streaming codec, so [uncompress_] stays null).

    [char] is signed: the type byte of a header is sign-extended.  The reporter is
    the list of the reports made so far.  The two loops take fuel and return [None]
    when it runs out. *)

From stdpp Require Import gmap.
From S2P Require Import Prelude Coding Crc32c LogFormat LogWriter.

(** * The file *)

Class SequentialFileReader (F : Type) := {
  Read : F -> Z -> IOStatus * bytes * F;
}.

(** What the reader relies on: a successful read returns the next [n] bytes, fewer
    only at the end of the file. *)
Class SequentialFileLaws (F : Type) {S : SequentialFileReader F} := {
  remaining : F -> bytes;
  (** The file will not fail. *)
  reliable : F -> Prop;
  Read_ok f n d f' : Read f n = (IOStatus_OK, d, f') ->
    d = stake n (remaining f) /\ remaining f' = sdrop n (remaining f);
  Read_reliable f n : reliable f -> exists d f', Read f n = (IOStatus_OK, d, f') /\ reliable f';
}.

(** A file in memory, with a read error once it is exhausted if [mem_fail]. *)
Record MemInput := { mem_rest : bytes; mem_fail : bool }.
#[export] Instance MemInput_reader : SequentialFileReader MemInput := {|
  Read f n :=
    if mem_fail f && bool_decide (mem_rest f = []) then (IOStatus_IOError, [], f)
    else (IOStatus_OK, stake n (mem_rest f),
          {| mem_rest := sdrop n (mem_rest f); mem_fail := mem_fail f |});
|}.
#[export] Instance MemInput_laws : SequentialFileLaws MemInput.
Proof.
  refine {| remaining := mem_rest; reliable f := mem_fail f = false |}.
  - intros f n d f'. simpl. by case_match; intros [= <- <-].
  - intros f n Hf. simpl. rewrite Hf. by do 2 eexists.
Defined.

(** * Reports *)

Inductive DropReason :=
  | PartialRecordWithoutEnd1 | PartialRecordWithoutEnd2
  | MissingStartOfFragmentedRecord1 | MissingStartOfFragmentedRecord2
  | MultipleSetCompressionType | SetCompressionTypeNotFirst | CouldNotDecodeSetCompressionType
  | TimestampSizeInterspersed | CouldNotDecodeTimestampSize
  | ZeroTimestampSize | UpdateToRecordedColumnFamily
  | TruncatedHeader | TrailingDataEOF | TrailingDataOldRecord | ErrorInMiddleOfRecord
  | TruncatedRecordBody | BadRecordLength | ChecksumMismatch | UnknownRecordType (t : Z)
  | ReadError.
Inductive Report := Corruption (bytes : Z) (reason : DropReason) | OldLogRecord (bytes : Z).

Inductive WALRecoveryMode :=
  | kTolerateCorruptedTailRecords | kAbsoluteConsistency | kPointInTimeRecovery
  | kSkipAnyCorruptedRecords.
#[global] Instance WALRecoveryMode_eq_dec : EqDecision WALRecoveryMode.
Proof. solve_decision. Defined.

(** The modes that report an incomplete record at the end of a log. *)
Definition reports_incomplete (m : WALRecoveryMode) : bool :=
  bool_decide (m = kAbsoluteConsistency) || bool_decide (m = kPointInTimeRecovery).

(** * State *)

(** The special values that extend the record types. *)
Definition kEof : Z := kMaxRecordType + 1.
Definition kBadRecord : Z := kMaxRecordType + 2.
Definition kBadHeader : Z := kMaxRecordType + 3.
Definition kOldRecord : Z := kMaxRecordType + 4.
Definition kBadRecordLen : Z := kMaxRecordType + 5.
Definition kBadRecordChecksum : Z := kMaxRecordType + 6.

(** The fields that a physical read changes, and the reports made. *)
Record Input (F : Type) := {
  file_ : F;
  buffer_ : bytes;
  eof_ : bool;
  read_error_ : bool;
  eof_offset_ : Z;
  end_of_buffer_offset_ : Z;
  recycled_ : bool;
  reports_ : list Report;
}.
Arguments file_ {F}.
Arguments buffer_ {F}.
Arguments eof_ {F}.
Arguments read_error_ {F}.
Arguments eof_offset_ {F}.
Arguments end_of_buffer_offset_ {F}.
Arguments recycled_ {F}.
Arguments reports_ {F}.

Record Reader (F : Type) := {
  input_ : Input F;
  checksum_ : bool;
  reader_log_number_ : Z;
  last_record_offset_ : Z;
  first_record_read_ : bool;
  compression_type_ : Z;
  compression_type_record_read_ : bool;
  read_cf_to_ts_sz_ : gmap Z Z;
}.
Arguments input_ {F}.
Arguments checksum_ {F}.
Arguments reader_log_number_ {F}.
Arguments last_record_offset_ {F}.
Arguments first_record_read_ {F}.
Arguments compression_type_ {F}.
Arguments compression_type_record_read_ {F}.
Arguments read_cf_to_ts_sz_ {F}.

Definition set_buffer {F} (i : Input F) (b : bytes) : Input F := {|
  file_ := file_ i; buffer_ := b; eof_ := eof_ i; read_error_ := read_error_ i;
  eof_offset_ := eof_offset_ i; end_of_buffer_offset_ := end_of_buffer_offset_ i;
  recycled_ := recycled_ i; reports_ := reports_ i |}.
Definition set_recycled {F} (i : Input F) : Input F := {|
  file_ := file_ i; buffer_ := buffer_ i; eof_ := eof_ i; read_error_ := read_error_ i;
  eof_offset_ := eof_offset_ i; end_of_buffer_offset_ := end_of_buffer_offset_ i;
  recycled_ := true; reports_ := reports_ i |}.
Definition add_report {F} (i : Input F) (r : Report) : Input F := {|
  file_ := file_ i; buffer_ := buffer_ i; eof_ := eof_ i; read_error_ := read_error_ i;
  eof_offset_ := eof_offset_ i; end_of_buffer_offset_ := end_of_buffer_offset_ i;
  recycled_ := recycled_ i; reports_ := reports_ i ++ [r] |}.

Definition set_input {F} (r : Reader F) (i : Input F) : Reader F := {|
  input_ := i; checksum_ := checksum_ r; reader_log_number_ := reader_log_number_ r;
  last_record_offset_ := last_record_offset_ r; first_record_read_ := first_record_read_ r;
  compression_type_ := compression_type_ r;
  compression_type_record_read_ := compression_type_record_read_ r;
  read_cf_to_ts_sz_ := read_cf_to_ts_sz_ r |}.
Definition set_last_record_offset {F} (r : Reader F) (o : Z) : Reader F := {|
  input_ := input_ r; checksum_ := checksum_ r; reader_log_number_ := reader_log_number_ r;
  last_record_offset_ := o; first_record_read_ := first_record_read_ r;
  compression_type_ := compression_type_ r;
  compression_type_record_read_ := compression_type_record_read_ r;
  read_cf_to_ts_sz_ := read_cf_to_ts_sz_ r |}.
Definition set_first_record_read {F} (r : Reader F) : Reader F := {|
  input_ := input_ r; checksum_ := checksum_ r; reader_log_number_ := reader_log_number_ r;
  last_record_offset_ := last_record_offset_ r; first_record_read_ := true;
  compression_type_ := compression_type_ r;
  compression_type_record_read_ := compression_type_record_read_ r;
  read_cf_to_ts_sz_ := read_cf_to_ts_sz_ r |}.
Definition InitCompression {F} (r : Reader F) (compression_type : Z) : Reader F := {|
  input_ := input_ r; checksum_ := checksum_ r; reader_log_number_ := reader_log_number_ r;
  last_record_offset_ := last_record_offset_ r; first_record_read_ := first_record_read_ r;
  compression_type_ := compression_type; compression_type_record_read_ := true;
  read_cf_to_ts_sz_ := read_cf_to_ts_sz_ r |}.
Definition set_read_cf_to_ts_sz {F} (r : Reader F) (m : gmap Z Z) : Reader F := {|
  input_ := input_ r; checksum_ := checksum_ r; reader_log_number_ := reader_log_number_ r;
  last_record_offset_ := last_record_offset_ r; first_record_read_ := first_record_read_ r;
  compression_type_ := compression_type_ r;
  compression_type_record_read_ := compression_type_record_read_ r;
  read_cf_to_ts_sz_ := m |}.

Definition ReportCorruption {F} (r : Reader F) (bytes : Z) (reason : DropReason) : Reader F :=
  set_input r (add_report (input_ r) (Corruption bytes reason)).
Definition ReportOldLogRecord {F} (r : Reader F) (bytes : Z) : Reader F :=
  set_input r (add_report (input_ r) (OldLogRecord bytes)).

(** * Physical records *)

(** [const unsigned int type = header[6]]: a signed [char] widened. *)
Definition header_type (c : byte) : Z :=
  let z := byte.unsigned c in if z <? 128 then z else u32 (z - 256).
Definition is_recyclable_type (type : Z) : bool :=
  (type >=? kRecyclableFullType) && (type <=? kRecyclableLastType) ||
  (type =? kRecyclableUserDefinedTimestampSizeType).

Section Reader.
Context {F : Type} {S : SequentialFileReader F}.

Definition MakeReader (file : F) (checksum : bool) (log_num : Z) : Reader F := {|
  input_ := {| file_ := file; buffer_ := []; eof_ := false; read_error_ := false;
               eof_offset_ := 0; end_of_buffer_offset_ := 0; recycled_ := false;
               reports_ := [] |};
  checksum_ := checksum; reader_log_number_ := log_num; last_record_offset_ := 0;
  first_record_read_ := false; compression_type_ := kNoCompression;
  compression_type_record_read_ := false; read_cf_to_ts_sz_ := ∅ |}.

(** [None] when more was read, otherwise [drop_size] and [error]. *)
Definition ReadMore (i : Input F) (drop_size : Z) : option (Z * Z) * Input F :=
  if negb (eof_ i) && negb (read_error_ i) then
    let '(status, buffer, file) := Read (file_ i) kBlockSize in
    let end_of_buffer_offset := end_of_buffer_offset_ i + slen buffer in
    if negb (ok status) then
      (Some (drop_size, kEof),
       {| file_ := file; buffer_ := []; eof_ := eof_ i; read_error_ := true;
          eof_offset_ := eof_offset_ i; end_of_buffer_offset_ := end_of_buffer_offset;
          recycled_ := recycled_ i;
          reports_ := reports_ i ++ [Corruption kBlockSize ReadError] |})
    else
      let short := slen buffer <? kBlockSize in
      (None,
       {| file_ := file; buffer_ := buffer; eof_ := if short then true else eof_ i;
          read_error_ := read_error_ i;
          eof_offset_ := if short then slen buffer else eof_offset_ i;
          end_of_buffer_offset_ := end_of_buffer_offset;
          recycled_ := recycled_ i; reports_ := reports_ i |})
  else if negb (slen (buffer_ i) =? 0) then
    (Some (slen (buffer_ i), kBadHeader), set_buffer i [])
  else (Some (drop_size, kEof), set_buffer i []).

(** The type or special value, the fragment and [drop_size]. *)
Fixpoint ReadPhysicalRecord_loop (fuel : nat) (checksum first_record_read : bool)
    (log_number : Z) (i : Input F) (drop_size : Z) : option (Z * bytes * Z * Input F) :=
  match fuel with
  | O => None
  | Datatypes.S fuel =>
      if slen (buffer_ i) <? kHeaderSize then
        match ReadMore i drop_size with
        | (Some (drop_size, r), i) => Some (r, [], drop_size, i)
        | (None, i) =>
            ReadPhysicalRecord_loop fuel checksum first_record_read log_number i drop_size
        end
      else
        let header := buffer_ i in
        let a := byte_at header 4 in
        let b := byte_at header 5 in
        let type := header_type (nth 6 header Byte.x00) in
        let length := Z.lor a (Z.shiftl b 8) in
        if is_recyclable_type type && (first_record_read && negb (recycled_ i)) then
          Some (kBadRecord, [], drop_size, i)
        else
          let header_size := if is_recyclable_type type then kRecyclableHeaderSize
                             else kHeaderSize in
          let i := if is_recyclable_type type then set_recycled i else i in
          if is_recyclable_type type && (slen header <? kRecyclableHeaderSize) then
            match ReadMore i drop_size with
            | (Some (drop_size, r), i) => Some (r, [], drop_size, i)
            | (None, i) =>
                ReadPhysicalRecord_loop fuel checksum first_record_read log_number i drop_size
            end
          else if header_size + length >? slen header then
            Some (kBadRecordLen, [], slen header, set_buffer i [])
          else if is_recyclable_type type &&
                  negb (DecodeFixed32 (sdrop 7 header) =? log_number) then
            Some (kOldRecord, [], drop_size, set_buffer i (sdrop (header_size + length) header))
          else if (type =? kZeroType) && (length =? 0) then
            Some (kBadRecord, [], drop_size, set_buffer i [])
          else if checksum &&
                  negb (Value (stake (length + header_size - 6) (sdrop 6 header)) =?
                        Unmask (DecodeFixed32 header)) then
            Some (kBadRecordChecksum, [], slen header, set_buffer i [])
          else
            Some (type, stake length (sdrop header_size header), drop_size,
                  set_buffer i (sdrop (header_size + length) header))
  end.

(** After one successful [ReadMore] the buffer holds a block or the file has ended,
    so three iterations are enough. *)
Definition ReadPhysicalRecord (r : Reader F) : option (Z * bytes * Z * Reader F) :=
  match ReadPhysicalRecord_loop 3 (checksum_ r) (first_record_read_ r)
          (reader_log_number_ r) (input_ r) 0 with
  | None => None
  | Some (type, fragment, drop_size, i) => Some (type, fragment, drop_size, set_input r i)
  end.
End Reader.

(** * Logical records *)

(** The loop of [UpdateRecordedTimestampSize]; sizes before an error stay recorded. *)
Fixpoint UpdateRecordedTimestampSize (recorded : gmap Z Z) (cf_to_ts_sz : list (Z * Z))
    : option DropReason * gmap Z Z :=
  match cf_to_ts_sz with
  | [] => (None, recorded)
  | (cf, ts_sz) :: l =>
      if ts_sz =? 0 then (Some ZeroTimestampSize, recorded)
      else match recorded !! cf with
           | Some _ => (Some UpdateToRecordedColumnFamily, recorded)
           | None => UpdateRecordedTimestampSize (<[cf := ts_sz]> recorded) l
           end
  end.

(** The local variables of [ReadRecord]. *)
Record ReadState := {
  in_fragmented_record : bool;
  scratch : bytes;
  prospective_record_offset : Z;
}.

(** What one iteration of the loop does: go on, or return. *)
Inductive ReadStep (F : Type) :=
  | GoOn (st : ReadState) (r : Reader F)
  | Done (record : option bytes) (r : Reader F).
Arguments GoOn {F}.
Arguments Done {F}.

Section ReadRecord.
Context {F : Type} {S : SequentialFileReader F}.
Implicit Types r : Reader F.

Definition on_full (st : ReadState) (off : Z) (fragment : bytes) r : ReadStep F :=
  let r := if in_fragmented_record st && negb (slen (scratch st) =? 0) then
             ReportCorruption r (slen (scratch st)) PartialRecordWithoutEnd1 else r in
  Done (Some fragment) (set_first_record_read (set_last_record_offset r off)).

Definition on_first (st : ReadState) (off : Z) (fragment : bytes) r : ReadStep F :=
  let r := if in_fragmented_record st && negb (slen (scratch st) =? 0) then
             ReportCorruption r (slen (scratch st)) PartialRecordWithoutEnd2 else r in
  GoOn {| in_fragmented_record := true; scratch := fragment;
          prospective_record_offset := off |} r.

Definition on_middle (st : ReadState) (fragment : bytes) r : ReadStep F :=
  if negb (in_fragmented_record st) then
    GoOn st (ReportCorruption r (slen fragment) MissingStartOfFragmentedRecord1)
  else GoOn {| in_fragmented_record := in_fragmented_record st;
               scratch := scratch st ++ fragment;
               prospective_record_offset := prospective_record_offset st |} r.

Definition on_last (st : ReadState) (fragment : bytes) r : ReadStep F :=
  if negb (in_fragmented_record st) then
    GoOn st (ReportCorruption r (slen fragment) MissingStartOfFragmentedRecord2)
  else Done (Some (scratch st ++ fragment))
         (set_first_record_read (set_last_record_offset r (prospective_record_offset st))).

Definition on_set_compression (st : ReadState) (off : Z) (fragment : bytes) r : ReadStep F :=
  let r := if compression_type_record_read_ r then
             ReportCorruption r (slen fragment) MultipleSetCompressionType else r in
  let r := if first_record_read_ r then
             ReportCorruption r (slen fragment) SetCompressionTypeNotFirst else r in
  let st := {| in_fragmented_record := in_fragmented_record st; scratch := [];
               prospective_record_offset := off |} in
  let r := set_last_record_offset r off in
  match CompressionTypeRecord_DecodeFrom fragment with
  | (None, fragment) => GoOn st (ReportCorruption r (slen fragment) CouldNotDecodeSetCompressionType)
  | (Some t, _) => GoOn st (InitCompression r t)
  end.

Definition on_ts_size (st : ReadState) (off : Z) (fragment : bytes) r : ReadStep F :=
  let r := if in_fragmented_record st && negb (slen (scratch st) =? 0) then
             ReportCorruption r (slen (scratch st)) TimestampSizeInterspersed else r in
  let st := {| in_fragmented_record := in_fragmented_record st; scratch := [];
               prospective_record_offset := off |} in
  let r := set_last_record_offset r off in
  match UserDefinedTimestampSizeRecord_DecodeFrom fragment with
  | (None, fragment) => GoOn st (ReportCorruption r (slen fragment) CouldNotDecodeTimestampSize)
  | (Some l, fragment) =>
      match UpdateRecordedTimestampSize (read_cf_to_ts_sz_ r) l with
      | (None, m) => GoOn st (set_read_cf_to_ts_sz r m)
      | (Some reason, m) =>
          GoOn st (ReportCorruption (set_read_cf_to_ts_sz r m) (slen fragment) reason)
      end
  end.

Definition on_eof (m : WALRecoveryMode) (st : ReadState) r : ReadStep F :=
  Done None (if in_fragmented_record st && reports_incomplete m then
               ReportCorruption r (slen (scratch st)) TrailingDataEOF else r).

(** The partial record read so far is dropped. *)
Definition drop_partial (st : ReadState) r : ReadStep F :=
  if in_fragmented_record st then
    GoOn {| in_fragmented_record := false; scratch := [];
            prospective_record_offset := prospective_record_offset st |}
      (ReportCorruption r (slen (scratch st)) ErrorInMiddleOfRecord)
  else GoOn st r.

Definition on_old_record (m : WALRecoveryMode) (st : ReadState) r : ReadStep F :=
  if negb (bool_decide (m = kSkipAnyCorruptedRecords)) then
    if in_fragmented_record st then
      Done None (if reports_incomplete m then
                   ReportCorruption r (slen (scratch st)) TrailingDataOldRecord else r)
    else Done None (if bool_decide (m = kPointInTimeRecovery) then
                      ReportOldLogRecord r (slen (scratch st)) else r)
  else drop_partial st r.

Definition on_bad_checksum (m : WALRecoveryMode) (st : ReadState) (record_type drop_size : Z) r
    : ReadStep F :=
  if recycled_ (input_ r) && bool_decide (m = kTolerateCorruptedTailRecords) then Done None r
  else drop_partial st
         (ReportCorruption r drop_size
            (if record_type =? kBadRecordLen then BadRecordLength else ChecksumMismatch)).

Definition on_bad_len (m : WALRecoveryMode) (st : ReadState) (drop_size : Z) r : ReadStep F :=
  if eof_ (input_ r) then
    Done None (if reports_incomplete m then ReportCorruption r drop_size TruncatedRecordBody else r)
  else on_bad_checksum m st kBadRecordLen drop_size r.

(** The [switch] of the loop body. *)
Definition ReadRecord_switch (m : WALRecoveryMode) (st : ReadState) (off record_type : Z)
    (fragment : bytes) (drop_size : Z) r : ReadStep F :=
  if (record_type =? kFullType) || (record_type =? kRecyclableFullType) then
    on_full st off fragment r
  else if (record_type =? kFirstType) || (record_type =? kRecyclableFirstType) then
    on_first st off fragment r
  else if (record_type =? kMiddleType) || (record_type =? kRecyclableMiddleType) then
    on_middle st fragment r
  else if (record_type =? kLastType) || (record_type =? kRecyclableLastType) then
    on_last st fragment r
  else if record_type =? kSetCompressionType then on_set_compression st off fragment r
  else if (record_type =? kUserDefinedTimestampSizeType) ||
          (record_type =? kRecyclableUserDefinedTimestampSizeType) then
    on_ts_size st off fragment r
  else if record_type =? kBadHeader then
    on_eof m st (if reports_incomplete m then ReportCorruption r drop_size TruncatedHeader else r)
  else if record_type =? kEof then on_eof m st r
  else if record_type =? kOldRecord then on_old_record m st r
  else if record_type =? kBadRecord then drop_partial st r
  else if record_type =? kBadRecordLen then on_bad_len m st drop_size r
  else if record_type =? kBadRecordChecksum then on_bad_checksum m st record_type drop_size r
  else
    GoOn {| in_fragmented_record := false; scratch := [];
            prospective_record_offset := prospective_record_offset st |}
      (ReportCorruption r
         (slen fragment + if in_fragmented_record st then slen (scratch st) else 0)
         (UnknownRecordType record_type)).

(** One iteration. *)
Definition ReadRecord_step (m : WALRecoveryMode) (st : ReadState) r : option (ReadStep F) :=
  let physical_record_offset := end_of_buffer_offset_ (input_ r) - slen (buffer_ (input_ r)) in
  match ReadPhysicalRecord r with
  | None => None
  | Some (record_type, fragment, drop_size, r) =>
      Some (ReadRecord_switch m st physical_record_offset record_type fragment drop_size r)
  end.

Fixpoint ReadRecord_loop (fuel : nat) (m : WALRecoveryMode) (st : ReadState) r
    : option (option bytes * Reader F) :=
  match fuel with
  | O => None
  | Datatypes.S fuel =>
      match ReadRecord_step m st r with
      | None => None
      | Some (Done record r) => Some (record, r)
      | Some (GoOn st r) => ReadRecord_loop fuel m st r
      end
  end.

(** [Some record] when the source returns true. *)
Definition ReadRecord (fuel : nat) (m : WALRecoveryMode) r : option (option bytes * Reader F) :=
  ReadRecord_loop fuel m
    {| in_fragmented_record := false; scratch := []; prospective_record_offset := 0 |} r.

Definition LastRecordOffset r : Z := last_record_offset_ r.
Definition LastRecordEnd r : Z := end_of_buffer_offset_ (input_ r) - slen (buffer_ (input_ r)).

(** The rest of the block in which the end of the file was found. *)
Definition UnmarkEOFInternal (i : Input F) : Input F :=
  let consumed_bytes := eof_offset_ i - slen (buffer_ i) in
  let remaining := kBlockSize - eof_offset_ i in
  let '(status, read_buffer, file) := Read (file_ i) remaining in
  let added := slen read_buffer in
  let end_of_buffer_offset := end_of_buffer_offset_ i + added in
  if negb (ok status) then
    {| file_ := file; buffer_ := buffer_ i; eof_ := eof_ i; read_error_ := true;
       eof_offset_ := eof_offset_ i; end_of_buffer_offset_ := end_of_buffer_offset;
       recycled_ := recycled_ i;
       reports_ := if 0 <? added then reports_ i ++ [Corruption added ReadError]
                   else reports_ i |}
  else
    {| file_ := file; buffer_ := buffer_ i ++ read_buffer;
       eof_ := if added <? remaining then true else eof_ i; read_error_ := read_error_ i;
       eof_offset_ := if added <? remaining then eof_offset_ i + added else 0;
       end_of_buffer_offset_ := end_of_buffer_offset;
       recycled_ := recycled_ i; reports_ := reports_ i |}.

Definition UnmarkEOF r : Reader F :=
  let i := input_ r in
  if read_error_ i then r
  else
    let i := {| file_ := file_ i; buffer_ := buffer_ i; eof_ := false;
                read_error_ := read_error_ i; eof_offset_ := eof_offset_ i;
                end_of_buffer_offset_ := end_of_buffer_offset_ i;
                recycled_ := recycled_ i; reports_ := reports_ i |} in
    if eof_offset_ i =? 0 then set_input r i else set_input r (UnmarkEOFInternal i).

(** Reading a log until [ReadRecord] returns false, as recovery does; each call has
    [fuel], and there are at most [n] calls. *)
Fixpoint read_all (n fuel : nat) (m : WALRecoveryMode) r : option (list bytes * Reader F) :=
  match n with
  | O => None
  | Datatypes.S n =>
      match ReadRecord fuel m r with
      | None => None
      | Some (None, r) => Some ([], r)
      | Some (Some record, r) =>
          match read_all n fuel m r with
          | None => None
          | Some (l, r) => Some (record :: l, r)
          end
      end
  end.
End ReadRecord.
