(* ===== verification/LogProofs.v ===== *)
(** The log reader reads back what the log writer wrote: the reader against the
    layout of LogWriter.v, and the composition of both. *)

From stdpp Require Import gmap.
From S2P Require Import Prelude Coding Crc32c LogFormat LogWriter LogReader.

(** * Positions in a log *)

Section Position.
Context {F : Type} {S : SequentialFileReader F} {SL : SequentialFileLaws F}.
Implicit Types i : Input F.

(** The reader is at offset [off] of a block, the buffer holds the rest of the
    block, and [rem] is what is left of the log. *)
Definition loaded i (off : Z) (rem : bytes) : Prop :=
  read_error_ i = false /\ reliable (file_ i) /\
  buffer_ i = stake (kBlockSize - off) rem /\
  remaining (file_ i) = sdrop (kBlockSize - off) rem /\
  eof_ i = (slen rem <? kBlockSize - off).

(** The same, where the block that starts at [off = 0] may not have been read, and
    the end of the block before it may be left to skip. *)
Definition at_pos i (off : Z) (rem : bytes) : Prop :=
  loaded i off rem \/
  off = 0 /\ exists o, 0 <= o <= kBlockSize /\ kBlockSize - o < 7 /\
    loaded i o (sfill (kBlockSize - o) Byte.x00 ++ rem).

(** Nothing but the position changed. *)
Definition same_input i i' : Prop :=
  recycled_ i' = recycled_ i /\ reports_ i' = reports_ i.

Lemma ReadMore_loaded i off rem d : loaded i off rem -> 0 <= off <= kBlockSize ->
  kBlockSize - off <= slen rem ->
  exists i', ReadMore i d = (None, i') /\ loaded i' 0 (sdrop (kBlockSize - off) rem) /\
    same_input i i'.
Proof.
  intros (He & Hr & Hb & Hf & Heof) Hoff Hlen. unfold ReadMore.
  destruct (Z.ltb_spec (slen rem) (kBlockSize - off)); [lia |].
  rewrite He, Heof. simpl.
  destruct (Read_reliable (file_ i) kBlockSize Hr) as (dd & f' & Hread & Hr').
  rewrite Hread. apply Read_ok in Hread as [-> Hf']. simpl. rewrite Hf in *.
  eexists. split; [done |]. unfold loaded, same_input. simpl. rewrite Z.sub_0_r.
  split_and!; try done. rewrite slen_stake.
  set (n := slen (sdrop (kBlockSize - off) rem)). pose proof (slen_nonneg (sdrop (kBlockSize - off) rem)).
  unfold kBlockSize in *. destruct (Z.ltb_spec (Z.min (Z.max 0 32768) n) 32768),
    (Z.ltb_spec n 32768); done || lia.
Qed.

Lemma loaded_advance i off rem n : loaded i off rem -> 0 <= n -> off + n <= kBlockSize ->
  n <= slen rem ->
  loaded (set_buffer i (sdrop n (buffer_ i))) (off + n) (sdrop n rem).
Proof.
  intros (He & Hr & Hb & Hf & Heof) Hn Hoff Hlen. unfold loaded. simpl. split_and!; try done.
  - by rewrite Hb, sdrop_stake, Z.sub_add_distr.
  - rewrite Hf, sdrop_sdrop by lia. f_equal. lia.
  - rewrite Heof, slen_sdrop. destruct (Z.ltb_spec (slen rem) (kBlockSize - off)),
      (Z.ltb_spec (Z.max 0 (slen rem - Z.max 0 n)) (kBlockSize - (off + n))); done || lia.
Qed.

(** Dropping the rest of the block, which is the rest of the log at its end. *)
Lemma loaded_clear i off rem : loaded i off rem -> 0 <= off <= kBlockSize ->
  kBlockSize - off <= slen rem ->
  loaded (set_buffer i []) kBlockSize (sdrop (kBlockSize - off) rem).
Proof.
  intros (He & Hr & Hb & Hf & Heof) Hoff Hlen. unfold loaded. simpl. rewrite Z.sub_diag.
  split_and!; try done.
  rewrite Heof. pose proof (slen_nonneg (sdrop (kBlockSize - off) rem)).
  destruct (Z.ltb_spec (slen rem) (kBlockSize - off)), (Z.ltb_spec (slen (sdrop (kBlockSize - off) rem)) 0);
    done || lia.
Qed.
End Position.

(** * Parsing a physical record *)

Lemma recyclable_legacy t : 0 <= t <= 11 -> is_recyclable_type t = negb (is_legacy_type t).
Proof.
  intros Ht. assert (t = 0 \/ t = 1 \/ t = 2 \/ t = 3 \/ t = 4 \/ t = 5 \/ t = 6 \/ t = 7 \/
    t = 8 \/ t = 9 \/ t = 10 \/ t = 11) as Hc by lia.
  by repeat destruct Hc as [-> | Hc]; [..| rewrite Hc].
Qed.

Lemma header_type_small t : 0 <= t < 128 -> header_type (byte.of_Z t) = t.
Proof.
  intros Ht. unfold header_type. rewrite byte_of_Z_small by lia. by destruct (Z.ltb_spec t 128); [| lia].
Qed.

Lemma length_bytes n : 0 <= n < 65536 ->
  Z.lor (byte.unsigned (byte.of_Z (Z.land n 0xff)))
    (Z.shiftl (byte.unsigned (byte.of_Z (Z.shiftr n 8))) 8) = n.
Proof.
  intros Hn. change 0xff with (Z.ones 8).
  assert (0 <= Z.land n (Z.ones 8) < 256) by (rewrite Z.land_ones by lia; apply Z.mod_pos_bound; lia).
  assert (0 <= Z.shiftr n 8 < 256).
  { rewrite Z.shiftr_div_pow2 by lia. split; [apply Z.div_pos; lia |].
    apply Z.div_lt_upper_bound; lia. }
  rewrite !byte_of_Z_small by done. by apply split_low.
Qed.

(** The fields that the reader takes from a buffer that starts with a record. *)
Record parsed_fields (buf : bytes) (ln t : Z) (p tail : bytes) : Prop := {
  pf_length : Z.lor (byte_at buf 4) (Z.shiftl (byte_at buf 5) 8) = slen p;
  pf_type : header_type (nth 6 buf Byte.x00) = t;
  pf_log_number : is_recyclable_type t = true -> DecodeFixed32 (sdrop 7 buf) = u32 ln;
  pf_crc : let hs := if is_recyclable_type t then kRecyclableHeaderSize else kHeaderSize in
    Value (stake (slen p + hs - 6) (sdrop 6 buf)) = Unmask (DecodeFixed32 buf);
  pf_payload : let hs := if is_recyclable_type t then kRecyclableHeaderSize else kHeaderSize in
    stake (slen p) (sdrop hs buf) = p;
  pf_tail : let hs := if is_recyclable_type t then kRecyclableHeaderSize else kHeaderSize in
    sdrop (hs + slen p) buf = tail;
}.

Lemma list_of_4 {A} (l : list A) : slen l = 4 -> exists a b c d, l = [a; b; c; d].
Proof.
  unfold slen. intros Hl. destruct l as [| a [| b [| c [| d [|]]]]]; simpl in Hl; try lia.
  by exists a, b, c, d.
Qed.

Lemma physical_record_fields ln t p tail : 0 <= t <= 11 -> slen p < 65536 ->
  parsed_fields (physical_record ln t p ++ tail) ln t p tail.
Proof.
  intros Ht Hp. pose proof (slen_nonneg p). unfold physical_record, physical_header.
  set (crc := EncodeFixed32 _). rewrite <- !app_assoc.
  assert (DecodeFixed32 (crc ++ [byte.of_Z (Z.land (slen p) 255); byte.of_Z (Z.shiftr (slen p) 8);
    byte.of_Z t] ++ log_number_bytes ln t ++ p ++ tail) =
    Mask (Value ([byte.of_Z t] ++ log_number_bytes ln t ++ p))) as Ecrc
    by apply DecodeFixed32_Encode, Mask_fits.
  destruct (list_of_4 crc eq_refl) as (c0 & c1 & c2 & c3 & Hc). rewrite Hc in *. clear crc Hc.
  assert (forall l : bytes, sdrop (slen p) (p ++ l) = l) as Hdrop by (intros; by apply sdrop_app_exact).
  assert (forall l : bytes, stake (slen p) (p ++ l) = p) as Htake by (intros; by apply stake_app_exact).
  assert (exists k, log_number_bytes ln t = k /\
    (is_recyclable_type t = true /\ k = EncodeFixed32 (u32 ln) \/ is_recyclable_type t = false /\ k = []))
    as (k & Hk & Hcase).
  { unfold log_number_bytes. rewrite recyclable_legacy by done.
    destruct (is_legacy_type t); eexists; split; eauto. }
  rewrite Hk in *. split; try done.
  - by apply length_bytes.
  - apply header_type_small. lia.
  - destruct Hcase as [[-> ->] | [-> _]]; [intros _ | done].
    apply DecodeFixed32_Encode, wrap_fits. lia.
  - rewrite Ecrc, Unmask_Mask by apply Value_fits. f_equal.
    transitivity (stake (slen ([byte.of_Z t] ++ k ++ p)) (([byte.of_Z t] ++ k ++ p) ++ tail)).
    2: { by apply stake_app_exact. }
    rewrite <- !app_assoc. f_equal.
    destruct Hcase as [[-> ->] | [-> ->]]; unfold kRecyclableHeaderSize, kHeaderSize; slia.
  - destruct Hcase as [[-> ->] | [-> ->]]; apply Htake.
  - cbv zeta. destruct Hcase as [[-> ->] | [-> ->]].
    + rewrite <- sdrop_sdrop by (unfold kRecyclableHeaderSize; lia). apply Hdrop.
    + rewrite <- sdrop_sdrop by (unfold kHeaderSize; lia). apply Hdrop.
Qed.

Section Physical.
Context {F : Type} {S : SequentialFileReader F} {SL : SequentialFileLaws F}.
Implicit Types i : Input F.

(** [recycled_] after a record of type [t]. *)
Definition mark_recycled (t : Z) i : Input F := if is_recyclable_type t then set_recycled i else i.

Lemma loaded_mark t i off rem : loaded i off rem -> loaded (mark_recycled t i) off rem.
Proof. unfold mark_recycled. by destruct (is_recyclable_type t). Qed.

Lemma slen_physical_record_type ln t p : 0 <= t <= 11 ->
  slen (physical_record ln t p) = header_size (is_recyclable_type t) + slen p.
Proof. intros. by rewrite slen_physical_record, recyclable_legacy. Qed.

(** A record that fits in its block is read. *)
Lemma read_loaded i off ln t p rest chk frr fuel d :
  loaded i off (physical_record ln t p ++ rest) -> 0 <= off -> 1 <= t <= 11 ->
  off + header_size (is_recyclable_type t) + slen p <= kBlockSize -> fits 32 ln ->
  (is_recyclable_type t = true -> frr = false \/ recycled_ i = true) ->
  exists i', ReadPhysicalRecord_loop (Datatypes.S fuel) chk frr ln i d = Some (t, p, d, i') /\
    loaded i' (off + header_size (is_recyclable_type t) + slen p) rest /\
    recycled_ i' = (recycled_ i || is_recyclable_type t) /\ reports_ i' = reports_ i.
Proof.
  intros HL Hoff Ht Hfit Hln Hrec. set (hs := header_size (is_recyclable_type t)) in *.
  assert (slen (physical_record ln t p) = hs + slen p) as Hlen
    by (apply slen_physical_record_type; lia).
  pose proof (header_size_7_11 (is_recyclable_type t)) as Hhs. fold hs in Hhs.
  pose proof HL as (_ & _ & Hb & _). rewrite stake_app_ge in Hb by lia.
  set (tail := stake _ rest) in Hb.
  pose proof (physical_record_fields ln t p tail ltac:(lia) ltac:(unfold kBlockSize in *; lia)) as Hpf.
  rewrite <- Hb in Hpf. destruct Hpf as [P1 P2 P3 P4 P5 P6].
  assert (slen (buffer_ i) = hs + slen p + slen tail) as Hbl by (rewrite Hb, slen_app; lia).
  pose proof (slen_nonneg p). pose proof (slen_nonneg tail).
  exists (set_buffer (mark_recycled t i) (sdrop (hs + slen p) (buffer_ i))). split_and!.
  - cbn [ReadPhysicalRecord_loop]. unfold kHeaderSize at 1.
    destruct (Z.ltb_spec (slen (buffer_ i)) (4 + 2 + 1)); [lia |]. rewrite P1, P2.
    fold (mark_recycled t i). change (if is_recyclable_type t then kRecyclableHeaderSize else kHeaderSize) with hs in *.
    replace (is_recyclable_type t && (frr && negb (recycled_ i))) with false.
    2: { destruct (is_recyclable_type t); [| done].
         destruct (Hrec eq_refl) as [-> | ->]; [done | by rewrite andb_false_r]. }
    replace (is_recyclable_type t && (slen (buffer_ i) <? kRecyclableHeaderSize)) with false.
    2: { unfold hs in *. destruct (is_recyclable_type t); [| done]. simpl in *.
         destruct (Z.ltb_spec (slen (buffer_ i)) kRecyclableHeaderSize); [lia | done]. }
    destruct (Z.gtb_spec (hs + slen p) (slen (buffer_ i))); [lia |].
    replace (is_recyclable_type t && negb (DecodeFixed32 (sdrop 7 (buffer_ i)) =? ln)) with false.
    2: { destruct (is_recyclable_type t); [| done]. rewrite P3, wrap_small by done. by rewrite Z.eqb_refl. }
    destruct (Z.eqb_spec t kZeroType); [unfold kZeroType in *; lia |]. simpl andb.
    rewrite P4, Z.eqb_refl, andb_false_r, P5. done.
  - apply loaded_mark with (t := t) in HL.
    apply loaded_advance with (n := hs + slen p) in HL; [| lia.. |].
    2: { rewrite slen_app. pose proof (slen_nonneg rest). lia. }
    rewrite sdrop_app_exact in HL by lia. rewrite Z.add_assoc in HL.
    unfold mark_recycled in *. by destruct (is_recyclable_type t).
  - unfold mark_recycled. destruct (is_recyclable_type t); simpl; [by rewrite orb_true_r | by rewrite orb_false_r].
  - unfold mark_recycled. by destruct (is_recyclable_type t).
Qed.

(** What is left of a block that is too small for a header is skipped. *)
Lemma skip_block i off rem chk frr ln fuel d :
  loaded i off rem -> 0 <= off <= kBlockSize -> kBlockSize - off < 7 ->
  kBlockSize - off <= slen rem ->
  exists i1, ReadPhysicalRecord_loop (Datatypes.S fuel) chk frr ln i d =
      ReadPhysicalRecord_loop fuel chk frr ln i1 d /\
    loaded i1 0 (sdrop (kBlockSize - off) rem) /\ same_input i i1.
Proof.
  intros HL Hoff Hlt Hlen. destruct (ReadMore_loaded i off rem d HL Hoff Hlen) as (i1 & E & HL1 & Hs).
  exists i1. split; [| done]. cbn [ReadPhysicalRecord_loop].
  destruct HL as (_ & _ & Hb & _). rewrite Hb, slen_stake. unfold kHeaderSize at 1.
  destruct (Z.ltb_spec (Z.min (Z.max 0 (kBlockSize - off)) (slen rem)) (4 + 2 + 1)); [| lia].
  by rewrite E.
Qed.

(** The values that [ReadPhysicalRecord] returns for a record cut by the end of the
    log, which end [ReadRecord]. *)
Definition ends_at_eof (code : Z) : Prop :=
  code = kEof \/ code = kBadHeader \/ code = kBadRecordLen.

Lemma ReadMore_eof i d : eof_ i = true ->
  exists d' code, ReadMore i d = (Some (d', code), set_buffer i []) /\ ends_at_eof code.
Proof.
  intros E. unfold ReadMore, ends_at_eof. rewrite E. simpl.
  destruct (slen (buffer_ i) =? 0); simpl; do 2 eexists; (split; [done | auto]).
Qed.

Lemma read_truncated i off ln t p rem ext chk frr fuel d :
  loaded i off rem -> rem ++ ext = physical_record ln t p -> ext <> [] -> 0 <= off ->
  1 <= t <= 11 -> off + header_size (is_recyclable_type t) + slen p <= kBlockSize ->
  (is_recyclable_type t = true -> frr = false \/ recycled_ i = true) ->
  exists i' code d', ReadPhysicalRecord_loop (Datatypes.S fuel) chk frr ln i d =
      Some (code, [], d', i') /\ ends_at_eof code /\ eof_ i' = true /\ reports_ i' = reports_ i.
Proof.
  intros HL Hrem Hext Hoff Ht Hfit Hrec. set (hs := header_size (is_recyclable_type t)) in *.
  assert (slen rem + slen ext = hs + slen p) as Hlen.
  { rewrite <- slen_app, Hrem. apply slen_physical_record_type. lia. }
  assert (0 < slen ext) by (destruct ext; [done | slia]).
  pose proof (header_size_7_11 (is_recyclable_type t)) as Hhs. fold hs in Hhs.
  pose proof HL as (_ & _ & Hb & _ & Heof). rewrite stake_ge in Hb by lia.
  assert (eof_ i = true) as He by (rewrite Heof; apply Z.ltb_lt; lia).
  cbn [ReadPhysicalRecord_loop]. rewrite Hb. unfold kHeaderSize at 1.
  destruct (Z.ltb_spec (slen rem) (4 + 2 + 1)) as [| Hge].
  { destruct (ReadMore_eof i d He) as (d' & code & -> & Hc). by eexists _, _, _. }
  pose proof (physical_record_fields ln t p [] ltac:(lia) ltac:(unfold kBlockSize in *; lia))
    as [P1 P2 _ _ _ _].
  rewrite app_nil_r, <- Hrem in P1, P2.
  assert (forall k, (k < 7)%nat -> nth k (rem ++ ext) Byte.x00 = nth k rem Byte.x00) as Hn.
  { intros k Hk. apply app_nth1. unfold slen in *. lia. }
  unfold byte_at in *. rewrite (Hn 4%nat), (Hn 5%nat) in P1 by lia.
  rewrite (Hn 6%nat) in P2 by lia. rewrite P1, P2.
  replace (is_recyclable_type t && (frr && negb (recycled_ i))) with false.
  2: { destruct (is_recyclable_type t); [| done].
       destruct (Hrec eq_refl) as [-> | ->]; [done | by rewrite andb_false_r]. }
  fold (mark_recycled t i).
  assert (eof_ (mark_recycled t i) = true /\ reports_ (mark_recycled t i) = reports_ i) as [He' Hr']
    by (unfold mark_recycled; by destruct (is_recyclable_type t)).
  destruct (is_recyclable_type t && (slen rem <? kRecyclableHeaderSize)).
  { destruct (ReadMore_eof _ d He') as (d' & code & -> & Hc). by eexists _, _, _. }
  change (if is_recyclable_type t then kRecyclableHeaderSize else kHeaderSize) with hs.
  destruct (Z.gtb_spec (hs + slen p) (slen rem)); [| lia].
  eexists _, _, _. split_and!; [done | by right; right | done | done].
Qed.

(** From a position, after at most one skip, the block is loaded. *)
Lemma at_pos_loaded i off rem chk frr ln d : at_pos i off rem ->
  exists i1 fuel, ReadPhysicalRecord_loop 3 chk frr ln i d =
      ReadPhysicalRecord_loop (Datatypes.S fuel) chk frr ln i1 d /\
    loaded i1 off rem /\ same_input i i1.
Proof.
  intros [HL | (-> & o & Ho & Hlt & HL)].
  - by exists i, 2%nat.
  - apply (skip_block _ _ _ chk frr ln 2 d) in HL as (i1 & E & HL1 & Hs); [| lia.. |].
    + rewrite sdrop_app_exact in HL1 by (rewrite slen_sfill; lia). by exists i1, 1%nat.
    + rewrite slen_app, slen_sfill. pose proof (slen_nonneg rem). lia.
Qed.

Context (r : Reader F).

(** The reader accepts recyclable records. *)
Definition recyclable_ok : Prop :=
  first_record_read_ r = false \/ recycled_ (input_ r) = true.

Lemma ReadPhysicalRecord_read off t p rest :
  at_pos (input_ r) off (physical_record (reader_log_number_ r) t p ++ rest) -> 0 <= off ->
  1 <= t <= 11 -> off + header_size (is_recyclable_type t) + slen p <= kBlockSize ->
  fits 32 (reader_log_number_ r) -> (is_recyclable_type t = true -> recyclable_ok) ->
  exists i', ReadPhysicalRecord r = Some (t, p, 0, set_input r i') /\
    loaded i' (off + header_size (is_recyclable_type t) + slen p) rest /\
    recycled_ i' = (recycled_ (input_ r) || is_recyclable_type t) /\
    reports_ i' = reports_ (input_ r).
Proof.
  intros Hpos Hoff Ht Hfit Hln Hrec. unfold ReadPhysicalRecord.
  destruct (at_pos_loaded _ _ _ (checksum_ r) (first_record_read_ r) (reader_log_number_ r) 0 Hpos)
    as (i1 & fuel & -> & HL & Hrc & Hrp).
  destruct (read_loaded i1 off (reader_log_number_ r) t p rest (checksum_ r) (first_record_read_ r)
    fuel 0) as (i' & -> & HL' & Hrc' & Hrp'); try done; [by rewrite Hrc |].
  exists i'. split_and!; try done; congruence.
Qed.

Lemma ReadPhysicalRecord_truncated off t p rem ext :
  at_pos (input_ r) off rem -> rem ++ ext = physical_record (reader_log_number_ r) t p ->
  ext <> [] -> 0 <= off -> 1 <= t <= 11 ->
  off + header_size (is_recyclable_type t) + slen p <= kBlockSize ->
  (is_recyclable_type t = true -> recyclable_ok) ->
  exists i' code d', ReadPhysicalRecord r = Some (code, [], d', set_input r i') /\
    ends_at_eof code /\ eof_ i' = true /\ reports_ i' = reports_ (input_ r).
Proof.
  intros Hpos Hrem Hext Hoff Ht Hfit Hrec. unfold ReadPhysicalRecord.
  destruct (at_pos_loaded _ _ _ (checksum_ r) (first_record_read_ r) (reader_log_number_ r) 0 Hpos)
    as (i1 & fuel & -> & HL & Hrc & Hrp).
  destruct (read_truncated i1 off (reader_log_number_ r) t p rem ext (checksum_ r)
    (first_record_read_ r) fuel 0) as (i' & code & d' & -> & Hc & He & Hrp'); try done;
    [by rewrite Hrc |].
  exists i', code, d'. split_and!; try done; congruence.
Qed.

(** At the end of the log. *)
Lemma ReadPhysicalRecord_end off : at_pos (input_ r) off [] -> 0 <= off <= kBlockSize ->
  exists i', ReadPhysicalRecord r = Some (kEof, [], 0, set_input r i') /\
    eof_ i' = true /\ reports_ i' = reports_ (input_ r).
Proof.
  intros Hpos Hoff. unfold ReadPhysicalRecord.
  assert (forall fuel i, loaded i off [] -> off < kBlockSize ->
    ReadPhysicalRecord_loop (Datatypes.S fuel) (checksum_ r) (first_record_read_ r)
      (reader_log_number_ r) i 0 = Some (kEof, [], 0, set_buffer i []) /\ eof_ i = true) as Heof.
  { intros fuel i (_ & _ & Hb & _ & He) Hlt. rewrite stake_ge in Hb by (unfold slen; simpl; lia).
    assert (eof_ i = true) as He' by (rewrite He; apply Z.ltb_lt; unfold slen; simpl; lia).
    cbn [ReadPhysicalRecord_loop]. rewrite Hb. unfold ReadMore. by rewrite He', Hb. }
  destruct (at_pos_loaded _ _ _ (checksum_ r) (first_record_read_ r) (reader_log_number_ r) 0 Hpos)
    as (i1 & fuel & E & HL & Hrc & Hrp).
  destruct (Z.eq_dec off kBlockSize) as [-> | Hne].
  - destruct Hpos as [HL0 | [? _]]; [| done].
    apply (skip_block _ _ _ (checksum_ r) (first_record_read_ r) (reader_log_number_ r) 2 0) in HL0
      as (i2 & -> & HL2 & _ & Hrp2); [| lia.. | unfold slen; simpl; lia].
    rewrite Z.sub_diag in HL2.
    destruct HL2 as (_ & _ & Hb & _ & He). cbn [ReadPhysicalRecord_loop]. rewrite Hb.
    unfold ReadMore. rewrite He, Hb. simpl. eexists. split_and!; [done | exact He | exact Hrp2].
  - rewrite E. destruct (Heof fuel i1 HL ltac:(lia)) as [-> He].
    eexists. split_and!; [done | exact He | exact Hrp].
Qed.

Lemma header_of_zeros k : 7 <= k ->
  Z.lor (byte_at (sfill k Byte.x00) 4) (Z.shiftl (byte_at (sfill k Byte.x00) 5) 8) = 0 /\
  header_type (nth 6 (sfill k Byte.x00) Byte.x00) = 0.
Proof.
  intros Hk. assert (forall j, nth j (sfill k Byte.x00) Byte.x00 = Byte.x00) as Hn.
  { intros j. unfold sfill. generalize (Z.to_nat k). induction j; intros [| n]; simpl; auto. }
  unfold byte_at. by rewrite !Hn.
Qed.

(** Zeros that fill a header are skipped as a bad record that is not reported; at
    the end of the log too. *)
Lemma ReadPhysicalRecord_zeros off k rest : loaded (input_ r) off (sfill k Byte.x00 ++ rest) ->
  7 <= k <= kBlockSize - off -> (k = kBlockSize - off \/ rest = []) ->
  ReadPhysicalRecord r = Some (kBadRecord, [], 0, set_input r (set_buffer (input_ r) [])).
Proof.
  intros HL Hk Hrest. unfold ReadPhysicalRecord. cbn [ReadPhysicalRecord_loop].
  assert (buffer_ (input_ r) = sfill k Byte.x00) as ->.
  { destruct HL as (_ & _ & -> & _). destruct Hrest as [Hk' | ->].
    - apply stake_app_exact. rewrite slen_sfill. lia.
    - rewrite app_nil_r. apply stake_ge. rewrite slen_sfill. lia. }
  rewrite slen_sfill, Z.max_r by lia. unfold kHeaderSize at 1.
  destruct (Z.ltb_spec k (4 + 2 + 1)); [lia |].
  destruct (header_of_zeros k ltac:(lia)) as [-> ->]. simpl. unfold kHeaderSize.
  destruct (Z.gtb_spec (4 + 2 + 1 + 0) k); [lia | done].
Qed.

(** A log that ends in the zeros of a block. *)
Lemma ReadPhysicalRecord_zeros_end off k : loaded (input_ r) off (sfill k Byte.x00) ->
  0 <= k < kBlockSize - off -> k < 7 ->
  exists i' code d', ReadPhysicalRecord r = Some (code, [], d', set_input r i') /\
    ends_at_eof code /\ eof_ i' = true /\ reports_ i' = reports_ (input_ r).
Proof.
  intros (_ & _ & Hb & _ & He) Hk Hlt. rewrite stake_ge in Hb by (rewrite slen_sfill; lia).
  assert (eof_ (input_ r) = true) as He' by (rewrite He; apply Z.ltb_lt; rewrite slen_sfill; lia).
  unfold ReadPhysicalRecord. cbn [ReadPhysicalRecord_loop]. rewrite Hb, slen_sfill.
  unfold kHeaderSize at 1. destruct (Z.ltb_spec (Z.max 0 k) (4 + 2 + 1)); [| lia].
  destruct (ReadMore_eof _ 0 He') as (d' & code & -> & Hc). by eexists _, _, _.
Qed.
End Physical.

Lemma length_physical_record ln t p : (7 <= length (physical_record ln t p))%nat.
Proof.
  pose proof (slen_physical_record ln t p) as Hl.
  pose proof (header_size_7_11 (negb (is_legacy_type t))). pose proof (slen_nonneg p).
  unfold slen in *. lia.
Qed.

(** * Reading logical records *)

Section Logical.
Context {F : Type} {S : SequentialFileReader F} {SL : SequentialFileLaws F}.
Context (m : WALRecoveryMode).
Implicit Types r : Reader F.

(** The loop returns [res] from [n] iterations on. *)
Definition reads (n : nat) (st : ReadState) r (res : option bytes * Reader F) : Prop :=
  forall fuel, (n <= fuel)%nat -> ReadRecord_loop fuel m st r = Some res.

Lemma reads_step n st r st' r' res :
  ReadRecord_step m st r = Some (GoOn st' r') -> reads n st' r' res ->
  reads (Datatypes.S n) st r res.
Proof.
  intros E H [| fuel] Hf; [lia |]. cbn [ReadRecord_loop]. rewrite E. apply H. lia.
Qed.

Lemma reads_done st r rec r' :
  ReadRecord_step m st r = Some (Done rec r') -> reads 1 st r (rec, r').
Proof. intros E [| fuel] Hf; [lia |]. cbn [ReadRecord_loop]. by rewrite E. Qed.

Lemma reads_mono n n' st r res : (n <= n')%nat -> reads n st r res -> reads n' st r res.
Proof. intros Hn H fuel Hf. apply H. lia. Qed.

(** The state of the reader between physical records of a log with number [ln]. *)
Record ready (recycle : bool) (ln off : Z) (rem : bytes) (rep : list Report) (cf : gmap Z Z) r
    : Prop := {
  ready_pos : at_pos (input_ r) off rem;
  ready_log_number : reader_log_number_ r = ln;
  ready_recyclable : recycle = true -> recyclable_ok r;
  ready_reports : reports_ (input_ r) = rep;
  ready_cf : read_cf_to_ts_sz_ r = cf;
}.

Lemma switch_fragment recycle begin last st off p d r :
  ReadRecord_switch m st off (fragment_type recycle begin last) p d r =
  if begin then if last then on_full st off p r else on_first st off p r
  else if last then on_last st p r else on_middle st p r.
Proof. by destruct recycle, begin, last. Qed.

Lemma fragment_recyclable recycle begin last :
  is_recyclable_type (fragment_type recycle begin last) = recycle.
Proof. by destruct recycle, begin, last. Qed.

(** One fragment is read. *)
Lemma read_fragment recycle ln off rep cf r st begin last p rest :
  ready recycle ln off (physical_record ln (fragment_type recycle begin last) p ++ rest) rep cf r ->
  fits 32 ln -> 0 <= off -> off + header_size recycle + slen p <= kBlockSize ->
  exists off0 r', ReadRecord_step m st r =
      Some (if begin then if last then on_full st off0 p r' else on_first st off0 p r'
            else if last then on_last st p r' else on_middle st p r') /\
    loaded (input_ r') (off + header_size recycle + slen p) rest /\
    reader_log_number_ r' = ln /\ (recycle = true -> recycled_ (input_ r') = true) /\
    reports_ (input_ r') = rep /\ read_cf_to_ts_sz_ r' = cf.
Proof.
  intros [Hpos Hln Hrec Hrep Hcf] Hfit Hoff HB. pose proof (fragment_type_range recycle begin last).
  unfold ReadRecord_step.
  destruct (ReadPhysicalRecord_read r off (fragment_type recycle begin last) p rest)
    as (i' & -> & HL & Hrc & Hrp); rewrite ?fragment_recyclable in *; try done.
  - by rewrite Hln.
  - lia.
  - by rewrite Hln.
  - rewrite switch_fragment. do 2 eexists. split_and!; [done | done | done | | | done].
    + intros ->. simpl. by rewrite Hrc, orb_true_r.
    + simpl. by rewrite Hrp.
Qed.

(** The step over a fragment that is not the last one. *)
Lemma fragment_step recycle ln off rep cf r st begin data1 rest :
  ready recycle ln off (physical_record ln (fragment_type recycle begin false) data1 ++ rest) rep cf r ->
  fits 32 ln -> 0 <= off -> off + header_size recycle + slen data1 = kBlockSize ->
  in_fragmented_record st = negb begin ->
  exists st' r', ReadRecord_step m st r = Some (GoOn st' r') /\
    in_fragmented_record st' = true /\
    scratch st' = (if begin then [] else scratch st) ++ data1 /\
    ready recycle ln 0 rest rep cf r'.
Proof.
  intros Hready Hln Hoff HB Hst.
  destruct (read_fragment recycle ln off rep cf r st begin false data1 rest Hready Hln Hoff
    ltac:(lia)) as (off0 & r' & E & HL & H1 & H2 & H3 & H4).
  assert (exists st', (if begin then on_first st off0 data1 r' else on_middle st data1 r') =
    GoOn st' r' /\ in_fragmented_record st' = true /\
    scratch st' = (if begin then [] else scratch st) ++ data1) as (st' & Est & Hst' & Hsc).
  { destruct begin; unfold on_first, on_middle; rewrite Hst; simpl; by eexists. }
  exists st', r'. split_and!; [| done | done |].
  { rewrite E. by destruct begin; rewrite Est. }
  split; try done; [| intros ?; right; by apply H2]. right. split; [done |].
  exists kBlockSize. rewrite Z.sub_diag. rewrite HB in HL. unfold kBlockSize in *.
  split_and!; [lia.. | exact HL].
Qed.

Lemma fragments_read recycle ln off begin data out off' :
  fragments recycle ln off begin data out off' -> fits 32 ln -> 0 <= off ->
  forall rep cf r st rest, ready recycle ln off (out ++ rest) rep cf r ->
  in_fragmented_record st = negb begin ->
  exists n r', reads n st r (Some ((if begin then [] else scratch st) ++ data), r') /\
    (n <= length out)%nat /\ ready recycle ln off' rest rep cf r'.
Proof.
  intros Hf Hln. induction Hf as [off begin data HB | off begin data1 data2 out off' HB Hne Hf IH];
    intros Hoff rep cf r st rest Hready Hst.
  - destruct (read_fragment recycle ln off rep cf r st begin true data rest Hready Hln Hoff HB)
      as (off0 & r' & E & HL & H1 & H2 & H3 & H4).
    exists 1%nat.
    pose proof (length_physical_record ln (fragment_type recycle begin true) data) as Hlen.
    destruct begin; eexists; (split_and!; [apply reads_done; rewrite E | lia |]).
    + unfold on_full. rewrite Hst. reflexivity.
    + split; simpl; try done; [by left | intros ?; right; by apply H2].
    + unfold on_last. rewrite Hst. reflexivity.
    + split; simpl; try done; [by left | intros ?; right; by apply H2].
  - rewrite <- app_assoc in Hready.
    destruct (fragment_step recycle ln off rep cf r st begin data1 (out ++ rest) Hready Hln Hoff HB Hst)
      as (st' & r' & E & Hst' & Hsc & Hrd).
    destruct (IH ltac:(lia) rep cf r' st' rest Hrd Hst') as (n & r'' & Hr & Hn & Hrd').
    exists (Datatypes.S n), r''. split_and!; [| | done].
    + eapply reads_step; [exact E |]. by rewrite Hsc, <- app_assoc in Hr.
    + rewrite length_app.
      pose proof (length_physical_record ln (fragment_type recycle begin false) data1). lia.
Qed.

(** A cut tail is reported in the modes that report one, and never as a read error. *)
Definition tail_reports (tail : list Report) : Prop :=
  (reports_incomplete m = false -> tail = []) /\
  Forall (fun x => exists n reason, x = Corruption n reason /\ reason <> ReadError) tail.

(** A record cut by the end of the log ends the loop. *)
Lemma step_eof st r i' code d :
  ReadPhysicalRecord r = Some (code, [], d, set_input r i') -> ends_at_eof code -> eof_ i' = true ->
  exists r' tail, ReadRecord_step m st r = Some (Done None r') /\ tail_reports tail /\
    reports_ (input_ r') = reports_ i' ++ tail.
Proof.
  intros E Hc He. unfold ReadRecord_step. rewrite E.
  destruct Hc as [-> | [-> | ->]]; unfold ReadRecord_switch; cbn -[on_eof on_bad_len];
    unfold on_eof, on_bad_len; cbn [input_ set_input eof_]; rewrite ?He;
    destruct (reports_incomplete m) eqn:Hm, (in_fragmented_record st); cbn [andb];
    (eexists _, _; split; [done |]; split; cycle 1;
      [cbn; rewrite <- ?app_assoc; cbn [app]; first [reflexivity | symmetry; apply app_nil_r] |];
      split; [by rewrite Hm | repeat constructor; by do 2 eexists]).
Qed.

(** What it means to stop at the end of the log. *)
Definition stops (st : ReadState) r (rem : bytes) (rep : list Report) : Prop :=
  exists n r' tail, reads n st r (None, r') /\ (n <= Datatypes.S (length rem))%nat /\
    tail_reports tail /\ reports_ (input_ r') = rep ++ tail.

Lemma stops_eof st r rem rep i' code d :
  ReadPhysicalRecord r = Some (code, [], d, set_input r i') -> ends_at_eof code ->
  eof_ i' = true -> reports_ i' = rep -> stops st r rem rep.
Proof.
  intros E Hc He <-. destruct (step_eof st r i' code d E Hc He) as (r' & tail & Es & Ht & Er).
  exists 1%nat, r', tail. split_and!; [by apply reads_done | lia | done..].
Qed.

Lemma stops_step st r st' r' rem rem' rep :
  ReadRecord_step m st r = Some (GoOn st' r') -> (length rem' < length rem)%nat ->
  stops st' r' rem' rep -> stops st r rem rep.
Proof.
  intros E Hl (n & r'' & tail & Hr & Hn & Hrep). exists (Datatypes.S n), r'', tail.
  split_and!; [by eapply reads_step | lia | apply Hrep..].
Qed.

Lemma physical_truncated recycle ln off t data rep cf r st rem ext :
  0 <= off -> off + header_size recycle + slen data <= kBlockSize ->
  1 <= t <= 11 -> is_recyclable_type t = recycle ->
  rem ++ ext = physical_record ln t data -> ext <> [] ->
  ready recycle ln off rem rep cf r -> stops st r rem rep.
Proof.
  intros Hoff HB Ht <- Hrem Hext [Hpos Hl Hrec Hrep Hcf].
  destruct (ReadPhysicalRecord_truncated r off t data rem ext)
    as (i' & code & d & E & Hc & He & Hrp); rewrite ?Hl in *; try done.
  eapply stops_eof; try done. congruence.
Qed.

Lemma fragment_truncated recycle ln off begin last data rep cf r st rem ext :
  0 <= off -> off + header_size recycle + slen data <= kBlockSize ->
  rem ++ ext = physical_record ln (fragment_type recycle begin last) data -> ext <> [] ->
  ready recycle ln off rem rep cf r -> stops st r rem rep.
Proof.
  intros. pose proof (fragment_type_range recycle begin last).
  eapply (physical_truncated recycle ln off (fragment_type recycle begin last) data);
    try eassumption; [lia | apply fragment_recyclable].
Qed.

Lemma fragments_truncated recycle ln off begin data out off' :
  fragments recycle ln off begin data out off' -> fits 32 ln ->
  0 <= off -> forall rep cf r st rem ext, rem ++ ext = out -> ext <> [] ->
  ready recycle ln off rem rep cf r -> in_fragmented_record st = negb begin -> stops st r rem rep.
Proof.
  intros Hf Hln. induction Hf as [off begin data HB | off begin data1 data2 out off' HB Hne Hf IH];
    intros Hoff rep cf r st rem ext Hrem Hext Hready Hst; [by eapply fragment_truncated |].
  apply cut_app in Hrem as [(e' & Hrem & He') | (rem' & -> & Hrem)].
  { eapply fragment_truncated; try done. lia. }
  destruct (fragment_step recycle ln off rep cf r st begin data1 rem') as (st' & r' & E & ? & _ & ?);
    try done.
  eapply stops_step; [exact E | | by eapply IH].
  rewrite length_app.
  pose proof (length_physical_record ln (fragment_type recycle begin false) data1). lia.
Qed.

(** * Reading a whole log *)

Definition st0 : ReadState :=
  {| in_fragmented_record := false; scratch := []; prospective_record_offset := 0 |}.

(** From the middle of a call of [ReadRecord], the rest of the log gives the records
    [l], each with the timestamp sizes known when it is returned and without more reports
    than [rep], and leaves the reader in a state with [Q]; no call needs more than [N]
    iterations. *)
Inductive reads_all (N : nat) (rep : list Report) (Q : Reader F -> Prop)
    : ReadState -> Reader F -> list (bytes * gmap Z Z) -> Prop :=
  | reads_all_end n st r r' :
      reads n st r (None, r') -> (n <= N)%nat -> Q r' -> reads_all N rep Q st r []
  | reads_all_record n st r d r' l :
      reads n st r (Some d, r') -> (n <= N)%nat -> reports_ (input_ r') = rep ->
      reads_all N rep Q st0 r' l -> reads_all N rep Q st r ((d, read_cf_to_ts_sz_ r') :: l).

Lemma read_all_reads_all N rep Q r l : reads_all N rep Q st0 r l ->
  exists r', read_all (Datatypes.S (length l)) N m r = Some (l.*1, r') /\ Q r'.
Proof.
  intros H. remember st0 as st eqn:Est. induction H as [n st r r' Hr Hn HQ | n st r d r' l Hr Hn _ H IH];
    subst st; cbn [read_all]; unfold ReadRecord; fold st0; rewrite (Hr N Hn); [by exists r' |].
  destruct IH as (rf & Hl & HQ); [done |]. simpl length. rewrite Hl. by exists rf.
Qed.

Lemma reads_all_weaken N N' rep (Q Q' : Reader F -> Prop) st r l : (N <= N')%nat ->
  (forall r, Q r -> Q' r) -> reads_all N rep Q st r l -> reads_all N' rep Q' st r l.
Proof.
  intros HN HQQ' H. induction H as [n st r r' Hr Hn HQ | n st r d r' l Hr Hn Hrep H IH].
  - eapply reads_all_end; [exact Hr | lia | by apply HQQ'].
  - eapply reads_all_record; [exact Hr | lia | done..].
Qed.

Lemma reads_all_mono N N' rep Q st r l :
  (N <= N')%nat -> reads_all N rep Q st r l -> reads_all N' rep Q st r l.
Proof. intros HN. by apply reads_all_weaken. Qed.

Lemma reads_all_nil_inv N rep Q st r : reads_all N rep Q st r [] ->
  exists n r', reads n st r (None, r') /\ (n <= N)%nat /\ Q r'.
Proof. inversion_clear 1. eauto. Qed.
Lemma reads_all_cons_inv N rep Q st r d sizes l : reads_all N rep Q st r ((d, sizes) :: l) ->
  exists n r', reads n st r (Some d, r') /\ (n <= N)%nat /\ reports_ (input_ r') = rep /\
    read_cf_to_ts_sz_ r' = sizes /\ reads_all N rep Q st0 r' l.
Proof. inversion_clear 1. eauto 10. Qed.

(** Iterations before the rest of a call: [k] is what they consume. *)
Lemma reads_all_before N rep Q st r st' r' l k :
  (forall n res, reads n st' r' res -> reads (n + k) st r res) ->
  reads_all N rep Q st' r' l -> reads_all (N + k) rep Q st r l.
Proof.
  intros Hb H. destruct H as [n st' r' r'' Hr Hn HQ | n st' r' d r'' l Hr Hn Hrep H].
  - eapply reads_all_end; [by apply Hb | lia | done].
  - eapply reads_all_record; [by apply Hb | lia | done |]. eapply reads_all_mono; [| exact H]. lia.
Qed.

(** The zeros that end a block. *)
Lemma zeros_before recycle ln off rest rep cf r st :
  ready recycle ln off (sfill (kBlockSize - off) Byte.x00 ++ rest) rep cf r ->
  0 < off <= kBlockSize -> in_fragmented_record st = false ->
  exists r', ready recycle ln 0 rest rep cf r' /\
    forall n res, reads n st r' res -> reads (n + Z.to_nat (kBlockSize - off)) st r res.
Proof.
  intros [Hpos Hl Hrec Hrep Hcf] Hoff Hst. destruct Hpos as [HL | [? _]]; [| lia].
  destruct (Z_lt_ge_dec (kBlockSize - off) 7) as [Hlt | Hge].
  - exists r. split; [| intros n res; apply reads_mono; lia]. split; try done.
    right. split; [done |]. exists off. split_and!; try done; lia.
  - pose proof (ReadPhysicalRecord_zeros r off (kBlockSize - off) rest HL ltac:(lia) ltac:(by left)) as E.
    exists (set_input r (set_buffer (input_ r) [])). split.
    + split; simpl; try done. right. split; [done |]. exists kBlockSize.
      apply loaded_clear in HL; [| lia |].
      * rewrite Z.sub_diag. simpl. rewrite sdrop_app_exact in HL by (rewrite slen_sfill; lia).
        unfold kBlockSize in *. split_and!; try done; lia.
      * rewrite slen_app, slen_sfill. pose proof (slen_nonneg rest). lia.
    + intros n res Hr. apply (reads_mono (Datatypes.S n)); [lia |].
      eapply reads_step; [| exact Hr]. unfold ReadRecord_step. rewrite E.
      unfold ReadRecord_switch, drop_partial. simpl. by rewrite Hst.
Qed.

Lemma framed_read recycle ln off data out off' rest rep cf r st :
  framed recycle ln off data out off' -> fits 32 ln -> 0 <= off ->
  ready recycle ln off (out ++ rest) rep cf r -> in_fragmented_record st = false ->
  exists n r', reads n st r (Some data, r') /\ (n <= length out)%nat /\
    ready recycle ln off' rest rep cf r'.
Proof.
  intros Hf Hln Hoff Hready Hst. pose proof (header_size_7_11 recycle).
  destruct Hf as [off data out off' HB Hf | off data out off' HB Hgt Hf].
  - by apply (fragments_read _ _ _ _ _ _ _ Hf Hln Hoff rep cf r st rest).
  - rewrite <- app_assoc in Hready. unfold kBlockSize in HB, Hgt.
    apply zeros_before with (st := st) in Hready as (r' & Hready & Hb); [| unfold kBlockSize; lia | done].
    destruct (fragments_read _ _ _ _ _ _ _ Hf Hln ltac:(lia) rep cf r' st rest Hready Hst)
      as (n & r'' & Hr & Hn & Hready'').
    eexists _, r''. split_and!; [by apply Hb | | done].
    rewrite length_app. unfold sfill. rewrite length_replicate. lia.
Qed.

(** ** Records of timestamp sizes *)

Definition fresh_sizes (cf : gmap Z Z) (l : list (Z * Z)) : Prop :=
  NoDup l.*1 /\ Forall (fun e => cf !! e.1 = None /\ e.2 <> 0 /\ ts_entry_ok e) l.

Lemma UpdateRecordedTimestampSize_fresh cf l : fresh_sizes cf l ->
  UpdateRecordedTimestampSize cf l = (None, list_to_map l ∪ cf).
Proof.
  unfold fresh_sizes. revert cf. induction l as [| [c t] l IH]; intros cf [Hnd Hl]; simpl.
  { by rewrite (left_id_L ∅ (∪)). }
  inversion_clear Hnd as [| ? ? Hc Hnd']. inversion_clear Hl as [| ? ? (Hcf & Ht & _) Hl'].
  simpl in Hcf, Ht. destruct (Z.eqb_spec t 0); [done |]. rewrite Hcf, IH.
  - f_equal. rewrite <- insert_union_r by (by apply not_elem_of_list_to_map_1).
    by rewrite insert_union_l.
  - split; [done |]. rewrite Forall_forall in Hl' |- *. intros [c' t'] Hin.
    destruct (Hl' _ Hin) as (? & ? & ?). split_and!; try done. simpl in *.
    rewrite lookup_insert_ne; [done |]. intros <-. apply Hc.
    apply list_elem_of_fmap. exists (c, t'). split; [done |]. by apply list_elem_of_In.
Qed.

Lemma ts_recyclable recycle : is_recyclable_type (ts_type recycle) = recycle.
Proof. by destruct recycle. Qed.

Lemma ts_record_step recycle ln off l rep cf r st rest :
  let e := UserDefinedTimestampSizeRecord_EncodeTo [] l in
  ready recycle ln off (physical_record ln (ts_type recycle) e ++ rest) rep cf r ->
  fits 32 ln -> 0 <= off -> off + header_size recycle + slen e <= kBlockSize ->
  in_fragmented_record st = false -> fresh_sizes cf l ->
  exists st' r', ReadRecord_step m st r = Some (GoOn st' r') /\ in_fragmented_record st' = false /\
    ready recycle ln (off + header_size recycle + slen e) rest rep (list_to_map l ∪ cf) r'.
Proof.
  intros e [Hpos Hl Hrec Hrep Hcf] Hln Hoff HB Hst Hfresh. unfold ReadRecord_step.
  assert (1 <= ts_type recycle <= 11) by (by destruct recycle).
  destruct (ReadPhysicalRecord_read r off (ts_type recycle) e rest)
    as (i' & -> & HL & Hrc & Hrp); rewrite ?ts_recyclable in *; try done; [by rewrite Hl.. |].
  set (o := end_of_buffer_offset_ _ - _).
  assert (ReadRecord_switch m st o (ts_type recycle) e 0 (set_input r i') =
    on_ts_size st o e (set_input r i')) as -> by (by destruct recycle).
  unfold on_ts_size. rewrite Hst. simpl andb. cbv zeta. unfold e at 1.
  rewrite UDTS_Decode_Encode.
  2: { destruct Hfresh as [_ Hf]. eapply Forall_impl; [| exact Hf]. by intros ? (? & ? & ?). }
  simpl read_cf_to_ts_sz_. rewrite Hcf, UpdateRecordedTimestampSize_fresh by done.
  do 2 eexists. split_and!; [done | done |]. split; simpl; try done.
  - by left.
  - intros ->. right. simpl. by rewrite Hrc, orb_true_r.
  - congruence.
Qed.

Lemma framed_ts_before recycle ln off l out off' rest rep cf r st :
  framed_ts recycle ln off l out off' -> fits 32 ln -> 0 <= off ->
  ready recycle ln off (out ++ rest) rep cf r -> in_fragmented_record st = false ->
  fresh_sizes cf l ->
  exists st' r', in_fragmented_record st' = false /\
    ready recycle ln off' rest rep (list_to_map l ∪ cf) r' /\
    forall n res, reads n st' r' res -> reads (n + length out) st r res.
Proof.
  intros Hf Hln Hoff Hready Hst Hl. pose proof (header_size_7_11 recycle).
  pose proof (length_physical_record ln (ts_type recycle)) as Hlen.
  destruct Hf as [off l e HB | off l e HB Hgt Hfit]; specialize (Hlen e).
  - destruct (ts_record_step recycle ln off l rep cf r st rest) as (st' & r' & E & Hst' & Hrd);
      try done.
    exists st', r'. split_and!; [done | done |]. intros n res Hr.
    apply (reads_mono (Datatypes.S n)); [fold e; lia |]. by eapply reads_step.
  - rewrite <- app_assoc in Hready.
    apply zeros_before with (st := st) in Hready as (r1 & Hready & Hb); [| lia | done].
    destruct (ts_record_step recycle ln 0 l rep cf r1 st rest) as (st' & r' & E & Hst' & Hrd);
      try done.
    exists st', r'. split_and!; [done | done |]. intros n res Hr.
    apply (reads_mono (Datatypes.S n + Z.to_nat (kBlockSize - off))).
    { rewrite length_app. unfold sfill. rewrite length_replicate. fold e. lia. }
    apply Hb. by eapply reads_step.
Qed.

(** The records of a list of entries, and the timestamp sizes known after it. *)
Definition records (es : list LogEntry) : list bytes :=
  flat_map (fun e => match e with LogRecord d => [d] | LogTsSizes _ => [] end) es.
Fixpoint cf_after (cf : gmap Z Z) (es : list LogEntry) : gmap Z Z :=
  match es with
  | [] => cf
  | LogRecord _ :: es => cf_after cf es
  | LogTsSizes l :: es => cf_after (list_to_map l ∪ cf) es
  end.
(** The records, each with the timestamp sizes known when it is read. *)
Fixpoint sized_records (cf : gmap Z Z) (es : list LogEntry) : list (bytes * gmap Z Z) :=
  match es with
  | [] => []
  | LogRecord d :: es => (d, cf) :: sized_records cf es
  | LogTsSizes l :: es => sized_records (list_to_map l ∪ cf) es
  end.
Lemma sized_records_fst cf es : (sized_records cf es).*1 = records es.
Proof. revert cf. induction es as [| [d | l] es IH]; intros cf; simpl; [done | by rewrite IH | apply IH]. Qed.
Fixpoint entries_ok (cf : gmap Z Z) (es : list LogEntry) : Prop :=
  match es with
  | [] => True
  | LogRecord _ :: es => entries_ok cf es
  | LogTsSizes l :: es => fresh_sizes cf l /\ entries_ok (list_to_map l ∪ cf) es
  end.

(** A complete layout is read, whatever comes after it. *)
Lemma layout_reads_all recycle ln off es out off' :
  log_layout recycle ln off es out off' -> fits 32 ln -> 0 <= off <= kBlockSize ->
  forall cf rep r st rest (P : list (bytes * gmap Z Z) -> Prop) Q, entries_ok cf es ->
  ready recycle ln off (out ++ rest) rep cf r -> in_fragmented_record st = false ->
  (forall st' r', in_fragmented_record st' = false ->
    ready recycle ln off' rest rep (cf_after cf es) r' ->
    exists l, P l /\ reads_all (Datatypes.S (length rest)) rep Q st' r' l) ->
  exists l, P l /\ reads_all (Datatypes.S (length (out ++ rest))) rep Q st r (sized_records cf es ++ l).
Proof.
  intros Hl Hln. induction Hl as [off | off data out off1 es out' off2 Hf Hl IH
    | off ts out off1 es out' off2 Hf Hl IH];
    intros Hoff cf rep r st rest P Q Hok Hready Hst Hk; simpl in *.
  - by apply Hk.
  - rewrite <- app_assoc in Hready |- *. rewrite length_app.
    destruct (framed_read _ _ _ _ _ _ _ _ _ _ _ Hf Hln ltac:(lia) Hready Hst)
      as (n & r' & Hr & Hn & Hrd).
    pose proof (framed_end _ _ _ _ _ _ Hf ltac:(lia)).
    destruct (IH ltac:(lia) cf rep r' st0 rest P Q Hok Hrd eq_refl Hk) as (l & HP & Hall).
    exists l. split; [done |]. rewrite <- (ready_cf _ _ _ _ _ _ _ Hrd) at 1.
    eapply reads_all_record; [exact Hr | lia | by eapply ready_reports |].
    eapply reads_all_mono; [| exact Hall]. lia.
  - rewrite <- app_assoc in Hready |- *. rewrite length_app.
    destruct Hok as [Hfresh Hok].
    destruct (framed_ts_before _ _ _ _ _ _ _ _ _ _ _ Hf Hln ltac:(lia) Hready Hst Hfresh)
      as (st' & r' & Hst' & Hrd & Hb).
    pose proof (framed_ts_end _ _ _ _ _ _ Hf ltac:(lia)).
    destruct (IH ltac:(lia) _ rep r' st' rest P Q Hok Hrd Hst' Hk) as (l & HP & Hall).
    exists l. split; [done |].
    replace (Datatypes.S (length out + length (out' ++ rest)))
      with (Datatypes.S (length (out' ++ rest)) + length out)%nat by lia.
    by eapply reads_all_before.
Qed.

(** The end of the log. *)
Lemma end_reads_all recycle ln off rep cf r st : ready recycle ln off [] rep cf r ->
  0 <= off <= kBlockSize -> in_fragmented_record st = false ->
  reads_all 1 rep (fun r' => reports_ (input_ r') = rep /\ read_cf_to_ts_sz_ r' = cf) st r [].
Proof.
  intros [Hpos Hl Hrec Hrep Hcf] Hoff Hst.
  destruct (ReadPhysicalRecord_end r off Hpos Hoff) as (i' & E & He & Hrp).
  eapply reads_all_end; [apply reads_done | done |].
  - unfold ReadRecord_step. rewrite E. unfold ReadRecord_switch, on_eof. simpl. by rewrite Hst.
  - simpl. split; congruence.
Qed.

(** ** A log that was cut *)

Lemma zeros_truncated recycle ln off k rep cf r st :
  ready recycle ln off (sfill k Byte.x00) rep cf r -> 0 < off -> 0 <= k < kBlockSize - off ->
  in_fragmented_record st = false -> stops st r (sfill k Byte.x00) rep.
Proof.
  intros [Hpos Hl Hrec Hrep Hcf] Hoff Hk Hst. destruct Hpos as [HL | [? _]]; [| lia].
  destruct (Z_lt_ge_dec k 7) as [Hlt | Hge].
  { destruct (ReadPhysicalRecord_zeros_end r off k HL Hk Hlt) as (i' & code & d & E & Hc & He & Hrp).
    eapply stops_eof; try done. congruence. }
  pose proof HL as (_ & _ & _ & _ & He). rewrite slen_sfill in He.
  rewrite <- (app_nil_r (sfill k Byte.x00)) in HL.
  pose proof (ReadPhysicalRecord_zeros r off k [] HL ltac:(lia) ltac:(by right)) as E.
  apply (stops_step st r st (set_input r (set_buffer (input_ r) [])) _ [] rep).
  - unfold ReadRecord_step. rewrite E. unfold ReadRecord_switch, drop_partial. simpl. by rewrite Hst.
  - unfold sfill. rewrite length_replicate. simpl. lia.
  - assert (eof_ (input_ r) = true) as He' by (rewrite He; apply Z.ltb_lt; lia).
    eapply (stops_eof _ _ _ _ _ kEof 0); [| by left | | ].
    + unfold ReadPhysicalRecord. cbn [ReadPhysicalRecord_loop]. simpl. unfold ReadMore. simpl.
      rewrite He'. simpl. reflexivity.
    + exact He'.
    + exact Hrep.
Qed.

Lemma prefix_of_zeros k rem ext : rem ++ ext = sfill k Byte.x00 -> ext <> [] ->
  rem = sfill (slen rem) Byte.x00 /\ slen rem < k.
Proof.
  intros E Hext. apply (f_equal slen) in E as El. rewrite slen_app, slen_sfill in El.
  assert (0 < slen ext) by (destruct ext; [done | slia]). pose proof (slen_nonneg rem).
  split; [| lia]. unfold sfill in *.
  rewrite <- (take_app_length rem ext) at 1. rewrite E, take_replicate. f_equal.
  unfold slen in *. lia.
Qed.

Lemma framed_truncated recycle ln off data out off' rem ext rep cf r st :
  framed recycle ln off data out off' -> fits 32 ln -> 0 <= off ->
  rem ++ ext = out -> ext <> [] -> ready recycle ln off rem rep cf r ->
  in_fragmented_record st = false -> stops st r rem rep.
Proof.
  intros Hf Hln Hoff Hrem Hext Hready Hst. pose proof (header_size_7_11 recycle).
  destruct Hf as [off data out off' HB Hf | off data out off' HB Hgt Hf].
  { by eapply (fragments_truncated _ _ _ _ _ _ _ Hf Hln Hoff). }
  assert (0 < off) by (unfold kBlockSize in *; lia).
  apply cut_app in Hrem as [(e' & Hrem & He') | (rem' & -> & Hrem)].
  - apply prefix_of_zeros in Hrem as [E Hlt]; [| done]. rewrite E in Hready |- *.
    pose proof (slen_nonneg rem). eapply zeros_truncated; try eassumption; lia.
  - apply zeros_before with (st := st) in Hready as (r' & Hready & Hb); [| lia | done].
    destruct (fragments_truncated _ _ _ _ _ _ _ Hf Hln ltac:(lia) rep cf r' st rem' ext)
      as (n & r'' & tail & Hr & Hn & Hrep); try done.
    eexists _, r'', tail. split_and!; [by apply Hb | | apply Hrep..].
    rewrite length_app. unfold sfill. rewrite length_replicate. lia.
Qed.

Lemma framed_ts_truncated recycle ln off l out off' rem ext rep cf r st :
  framed_ts recycle ln off l out off' -> 0 <= off ->
  rem ++ ext = out -> ext <> [] -> ready recycle ln off rem rep cf r ->
  in_fragmented_record st = false -> stops st r rem rep.
Proof.
  intros Hf Hoff Hrem Hext Hready Hst. assert (1 <= ts_type recycle <= 11) by (by destruct recycle).
  destruct Hf as [off l e HB | off l e HB Hgt Hfit].
  { eapply (physical_truncated recycle ln off (ts_type recycle) e); try eassumption.
    apply ts_recyclable. }
  assert (0 < off) by lia.
  apply cut_app in Hrem as [(e' & Hrem & He') | (rem' & -> & Hrem)].
  - apply prefix_of_zeros in Hrem as [E Hlt]; [| done]. rewrite E in Hready |- *.
    pose proof (slen_nonneg rem). eapply zeros_truncated; try eassumption; lia.
  - apply zeros_before with (st := st) in Hready as (r' & Hready & Hb); [| lia | done].
    destruct (physical_truncated recycle ln 0 (ts_type recycle) e rep cf r' st rem' ext)
      as (n & r'' & tail & Hr & Hn & Hrep); try done; [apply ts_recyclable |].
    eexists _, r'', tail. split_and!; [by apply Hb | | apply Hrep..].
    rewrite length_app. unfold sfill. rewrite length_replicate. lia.
Qed.

(** A prefix of a layout gives a prefix of its records. *)
Lemma layout_truncated recycle ln off es out off' :
  log_layout recycle ln off es out off' -> fits 32 ln ->
  0 <= off <= kBlockSize ->
  forall cf rep r st rem ext, entries_ok cf es -> rem ++ ext = out -> ext <> [] ->
  ready recycle ln off rem rep cf r -> in_fragmented_record st = false ->
  exists l, l `prefix_of` sized_records cf es /\ reads_all (Datatypes.S (length rem)) rep
    (fun r' => exists tail, tail_reports tail /\ reports_ (input_ r') = rep ++ tail) st r l.
Proof.
  intros Hl Hln. induction Hl as [off | off data out off1 es out' off2 Hf Hl IH
    | off ts out off1 es out' off2 Hf Hl IH];
    intros Hoff cf rep r st rem ext Hok Hrem Hext Hready Hst; simpl in *.
  { by apply app_eq_nil in Hrem as [_ ->]. }
  all: apply cut_app in Hrem as [(e' & Hrem & He') | (rem' & -> & Hrem)].
  - eapply framed_truncated in Hf as (n & r' & tail & Hr & Hn & Hrep); try done; [| lia].
    exists []. split; [apply prefix_nil |]. eapply reads_all_end; [done.. | by exists tail].
  - pose proof (framed_end _ _ _ _ _ _ Hf ltac:(lia)).
    destruct (framed_read _ _ _ _ _ _ _ _ _ _ _ Hf Hln ltac:(lia) Hready Hst)
      as (n & r' & Hr & Hn & Hrd).
    destruct (IH ltac:(lia) cf rep r' st0 rem' ext) as (l & Hpre & Hall); try done.
    exists ((data, cf) :: l). split; [by apply prefix_cons |]. rewrite length_app.
    rewrite <- (ready_cf _ _ _ _ _ _ _ Hrd).
    eapply reads_all_record; [exact Hr | lia | by eapply ready_reports |]. eapply reads_all_mono; [| exact Hall]. lia.
  - eapply framed_ts_truncated in Hf as (n & r' & tail & Hr & Hn & Hrep); try done; [| lia].
    exists []. split; [apply prefix_nil |]. eapply reads_all_end; [done.. | by exists tail].
  - pose proof (framed_ts_end _ _ _ _ _ _ Hf ltac:(lia)). destruct Hok as [Hfresh Hok].
    destruct (framed_ts_before _ _ _ _ _ _ _ _ _ _ _ Hf Hln ltac:(lia) Hready Hst Hfresh)
      as (st' & r' & Hst' & Hrd & Hb).
    destruct (IH ltac:(lia) _ rep r' st' rem' ext Hok Hrem Hext Hrd Hst') as (l & Hpre & Hall).
    exists l. split; [done |]. rewrite length_app.
    replace (Datatypes.S (length out + length rem')) with (Datatypes.S (length rem') + length out)%nat by lia.
    by eapply reads_all_before.
Qed.

(** Any prefix of a layout, the whole of it included. *)
Lemma layout_prefix recycle ln off es out off' cf rep r st rem ext :
  log_layout recycle ln off es out off' -> fits 32 ln ->
  0 <= off <= kBlockSize -> entries_ok cf es -> rem ++ ext = out ->
  ready recycle ln off rem rep cf r -> in_fragmented_record st = false ->
  exists l, l `prefix_of` sized_records cf es /\ (ext = [] -> l = sized_records cf es) /\
    reads_all (Datatypes.S (length rem)) rep (fun r' => exists tail, tail_reports tail /\
      (ext = [] -> tail = []) /\ reports_ (input_ r') = rep ++ tail) st r l.
Proof.
  intros Hl Hln Hoff Hok Hrem Hready Hst. destruct ext as [| x ext].
  2: { destruct (layout_truncated _ _ _ _ _ _ Hl Hln Hoff cf rep r st rem (x :: ext)) as (l & Hp & Hall); try done.
       exists l. split_and!; [done.. |]. eapply reads_all_weaken; [done | | exact Hall].
       intros r' (tail & Ht & Er). by exists tail. }
  rewrite app_nil_r in Hrem. subst rem. rewrite <- (app_nil_r out) in Hready |- *.
  destruct (layout_reads_all _ _ _ _ _ _ Hl Hln Hoff cf rep r st [] (eq []) (fun r' =>
    exists tail, tail_reports tail /\ ([] = [] :> bytes -> tail = []) /\ reports_ (input_ r') = rep ++ tail) Hok Hready Hst)
    as (l & <- & Hall).
  - intros st' r' Hst' Hr'. exists []. split; [done |]. pose proof (log_layout_end _ _ _ _ _ _ Hl Hoff).
    eapply (reads_all_weaken 1); [done | | by eapply end_reads_all; [exact Hr' | lia |]].
    intros ? [? _]. exists []. rewrite app_nil_r. by split; [split |].
  - exists (sized_records cf es). rewrite (app_nil_r (sized_records cf es)) in Hall. by split_and!.
Qed.
End Logical.

(** * Writer and reader together *)

Lemma recorded_entries_ok recycle es recorded : Forall (entry_fits recycle) es ->
  entries_ok recorded (recorded_entries recorded es) /\
  cf_after recorded (recorded_entries recorded es) = recorded_after recorded es /\
  records (recorded_entries recorded es) = records es.
Proof.
  intros Hes. revert recorded. induction Hes as [| [data | l] es He Hes IH]; intros recorded; simpl.
  - done.
  - destruct (IH recorded) as (? & ? & E). split_and!; try done. by rewrite E.
  - pose proof (collect_ts_sz_spec recorded l) as Hc.
    destruct (collect_ts_sz recorded l) as [m' r] eqn:Er. destruct Hc as (-> & Hnd & Hr). simpl.
    destruct (IH (list_to_map r ∪ recorded)) as (? & ? & ?). destruct r as [| x r].
    { simpl in *. by rewrite (left_id_L ∅ (∪)) in *. }
    remember (x :: r) as r' eqn:Er'. clear Er'. simpl. split_and!; try done. split; [done |].
    eapply Forall_impl; [| exact Hr]. intros e (Hin%list_elem_of_In & ? & ?). split_and!; try done.
    destruct He as [_ He]. by eapply Forall_forall in He.
Qed.

Section Together.
Context {FW : Type} {W : WritableFileWriter FW} {WL : WritableFileLaws FW}.
Context {FR : Type} {S : SequentialFileReader FR} {SL : SequentialFileLaws FR}.

Lemma MakeReader_ready recycle ln file chk : reliable file ->
  ready recycle ln 0 (remaining file) [] ∅ (MakeReader file chk ln).
Proof.
  intros Hf. split; try done; [| by left]. right. split; [done |]. exists kBlockSize.
  rewrite Z.sub_diag. split_and!; try done. unfold loaded. rewrite Z.sub_diag. simpl.
  split_and!; try done. by destruct (Z.ltb_spec (slen (remaining file)) 0); [slia |].
Qed.

(** The layout of what was written by a new writer. *)
Lemma MakeWriter_layout (f : FW) ln recycle manual es s w' :
  contents f = [] -> seen_error f = false -> Forall (entry_fits recycle) es ->
  write_log (MakeWriter f ln recycle manual) es = Some (s, w') ->
  exists out off', log_layout recycle ln 0 (recorded_entries ∅ es) out off' /\
    wrote s (set_recorded (MakeWriter f ln recycle manual) (recorded_after ∅ es)) w' out /\
    (s = IOStatus_OK -> contents (dest_ w') = out /\ block_offset_ w' = off').
Proof.
  intros Hc Hs Hes E.
  destruct (write_log_layout es (MakeWriter f ln recycle manual)) as (s' & w'' & out & off' & E' & Hl & Hw & Hb);
    [done | unfold kBlockSize; simpl; lia | done |].
  rewrite E in E'. injection E' as <- <-. exists out, off'. split_and!; [exact Hl | exact Hw |].
  intros ->. split; [| by apply Hb]. destruct Hw as (_ & _ & _ & -> & _). simpl. by rewrite Hc.
Qed.

(** What a reader of the surviving file meets: the records of [es1] and a prefix of those
    of [es2]. *)
Lemma crash_reads_all (f : FW) ln recycle manual es1 es2 w1 w2 s (file : FR) checksum m :
  contents f = [] -> seen_error f = false -> fits 32 ln ->
  Forall (entry_fits recycle) es1 -> Forall (entry_fits recycle) es2 ->
  write_log (MakeWriter f ln recycle manual) es1 = Some (IOStatus_OK, w1) ->
  write_log w1 es2 = Some (s, w2) ->
  contents (dest_ w1) `prefix_of` remaining file -> remaining file `prefix_of` contents (dest_ w2) ->
  reliable file ->
  let cf1 := recorded_after ∅ es1 in
  let complete := s = IOStatus_OK /\ remaining file = contents (dest_ w2) in
  exists l, l `prefix_of` sized_records cf1 (recorded_entries cf1 es2) /\
    (complete -> l = sized_records cf1 (recorded_entries cf1 es2)) /\
    reads_all m (Datatypes.S (length (remaining file))) []
      (fun r' => tail_reports m (reports_ (input_ r')) /\ (complete -> reports_ (input_ r') = []))
      st0 (MakeReader file checksum ln) (sized_records ∅ (recorded_entries ∅ es1) ++ l).
Proof.
  intros Hempty Herr Hln Hes1 Hes2 Hwrite1 Hwrite2 Hsynced Hfile Hrel cf1 complete.
  destruct (MakeWriter_layout f ln recycle manual es1 IOStatus_OK w1) as (out1 & off1 & Hl1 & Hw1 & Hb1);
    [done.. |]. destruct (Hb1 eq_refl) as [Hc1 Hoff1].
  destruct Hw1 as (E1 & E2 & _ & _ & E5 & E6). simpl in *.
  pose proof (log_layout_end _ _ _ _ _ _ Hl1 ltac:(unfold kBlockSize; lia)) as Hend1.
  destruct (write_log_layout es2 w1) as (s' & w2' & out2 & off2 & Hw2 & Hl2 & Hwr2 & _);
    [by rewrite E2 | lia | congruence |].
  rewrite Hwrite2 in Hw2. injection Hw2 as <- <-. rewrite E1, E2, E6, Hoff1 in Hl2.
  destruct (recorded_entries_ok recycle es1 ∅ Hes1) as (Hok1 & Hcf1 & _).
  destruct (recorded_entries_ok recycle es2 cf1 Hes2) as (Hok2 & _ & _).
  destruct Hsynced as [p Hp]. rewrite Hc1 in Hp.
  assert (complete -> p = out2) as Hcomplete.
  { intros [Hs Hall]. rewrite Hs in Hwr2. destruct Hwr2 as (_ & _ & _ & Hd & _). simpl in Hd.
    rewrite Hp, Hd, Hc1 in Hall. by simplify_list_eq. }
  assert (exists ext, p ++ ext = out2) as [ext Hext].
  { apply wrote_contents in Hwr2 as (out2' & [e1 ->] & Hc2). simpl in Hc2.
    destruct Hfile as [e2 He2]. rewrite Hc2, Hp, Hc1, <- app_assoc in He2. simplify_list_eq.
    exists (e2 ++ e1). by rewrite app_assoc. }
  pose proof (MakeReader_ready recycle ln file checksum Hrel) as Hready. rewrite Hp in Hready |- *.
  destruct (layout_reads_all m _ _ _ _ _ _ Hl1 Hln ltac:(unfold kBlockSize; lia) ∅ [] _ st0 p
    (fun l => l `prefix_of` sized_records cf1 (recorded_entries cf1 es2) /\
       (ext = [] -> l = sized_records cf1 (recorded_entries cf1 es2)))
    (fun r' => tail_reports m (reports_ (input_ r')) /\ (ext = [] -> reports_ (input_ r') = [])) Hok1 Hready eq_refl)
    as (l & [Hpre Hfull] & Hall).
  - intros st r Hst Hr. rewrite Hcf1 in Hr.
    destruct (layout_prefix m _ _ _ _ _ _ _ [] r st p ext Hl2 Hln ltac:(lia) Hok2 Hext Hr Hst) as (l & Hpre & Hfull & Hall).
    exists l. split; [done |]. eapply reads_all_weaken; [done | | exact Hall]. by intros r' (tail & Ht & Hn & ->).
  - assert (complete -> ext = []) as Hext0.
    { intros Hc. rewrite (Hcomplete Hc) in Hext. apply (f_equal length) in Hext. rewrite length_app in Hext.
      destruct ext; [done | simpl in Hext; lia]. }
    exists l. split_and!; [done | by intros; apply Hfull, Hext0 |].
    eapply reads_all_weaken; [done | | exact Hall]. intros r' [Ht Hn]. split; [done |]. intros Hc. by apply Hn, Hext0.
Qed.
End Together.

(** C13: the round trip of the write-ahead log.  The logical records that a new writer
    added, of any lengths, interleaved with records of timestamp sizes, are returned
    by a reader of the file in the order in which they were added, and then the end
    of the log; nothing is reported as dropped, in every recovery mode, with and
    without checksums and recycling; and the reader ends up with the timestamp sizes
    that the writer recorded. *)
Theorem WAL_roundtrip {FW : Type} {W : WritableFileWriter FW} {WL : WritableFileLaws FW}
    {FR : Type} {S : SequentialFileReader FR} {SL : SequentialFileLaws FR}
    (f : FW) (ln : Z) (recycle manual : bool) (es : list LogEntry) (w' : Writer FW)
    (file : FR) (checksum : bool) (m : WALRecoveryMode)
    (Hempty : contents f = []) (Herr : seen_error f = false) (Hln : fits 32 ln)
    (Hes : Forall (entry_fits recycle) es)
    (Hwrite : write_log (MakeWriter f ln recycle manual) es = Some (IOStatus_OK, w'))
    (Hfile : remaining file = contents (dest_ w')) (Hrel : reliable file) :
  exists r', read_all (Datatypes.S (length (records es))) (Datatypes.S (length (remaining file))) m
      (MakeReader file checksum ln) = Some (records es, r') /\
    reports_ (input_ r') = [] /\ read_cf_to_ts_sz_ r' = recorded_cf_to_ts_sz_ w'.
Proof.
  destruct (MakeWriter_layout f ln recycle manual es IOStatus_OK w') as (out & off' & Hl & Hw & Hb);
    [done.. |]. destruct (Hb eq_refl) as [Hc Hoff].
  destruct Hw as (_ & _ & _ & _ & _ & Hrec). rewrite Hrec. simpl.
  destruct (recorded_entries_ok recycle es ∅ Hes) as (Hok & Hcf & Hrecs). rewrite <- Hcf, <- Hrecs.
  pose proof (MakeReader_ready recycle ln file checksum Hrel) as Hready.
  rewrite Hfile, Hc, <- (app_nil_r out) in Hready |- *.
  destruct (layout_reads_all m _ _ _ _ _ _ Hl Hln ltac:(unfold kBlockSize; lia) ∅ [] _ st0 []
    (eq []) (fun r' => reports_ (input_ r') = [] /\ read_cf_to_ts_sz_ r' = cf_after ∅ (recorded_entries ∅ es))
    Hok Hready eq_refl) as (l & <- & Hall).
  2: { rewrite (app_nil_r (sized_records _ _)) in Hall. apply read_all_reads_all in Hall.
       by rewrite <- (length_fmap fst (sized_records _ _)), sized_records_fst in Hall. }
  intros st' r' Hst' Hr'. exists []. split; [done |]. eapply end_reads_all; [exact Hr' | | done].
  eapply log_layout_end; [exact Hl | unfold kBlockSize; lia].
Qed.

(** A log with two records and a record of timestamp sizes. *)
Definition ex_entries : list LogEntry := [LogRecord [Byte.x61]; LogTsSizes [(1, 8)]; LogRecord []].
Definition ex_file : MemFile := {| mem_contents := []; mem_capacity := 1000; mem_error := false |}.
Definition ex_writer (recycle : bool) (es : list LogEntry) : Writer MemFile :=
  match write_log (MakeWriter ex_file 3 recycle false) es with
  | Some (_, w) => w
  | None => MakeWriter ex_file 3 recycle false
  end.
Definition ex_log : bytes := Eval vm_compute in mem_contents (dest_ (ex_writer true ex_entries)).
Definition ex_input (n : Z) : MemInput := {| mem_rest := stake n ex_log; mem_fail := false |}.

Lemma WAL_roundtrip_witness :
  records ex_entries = [[Byte.x61]; []] /\
  exists r', read_all (Datatypes.S (length (records ex_entries)))
      (Datatypes.S (length (remaining (ex_input 100)))) kAbsoluteConsistency
      (MakeReader (ex_input 100) true 3) = Some (records ex_entries, r') /\
    reports_ (input_ r') = [] /\
    read_cf_to_ts_sz_ r' = recorded_cf_to_ts_sz_ (ex_writer true ex_entries).
Proof.
  split; [done |].
  apply (WAL_roundtrip ex_file 3 true false ex_entries (ex_writer true ex_entries)
    (ex_input 100) true kAbsoluteConsistency); [reflexivity | reflexivity | done | | | | reflexivity].
  - repeat constructor; by vm_compute.
  - vm_compute. reflexivity.
  - vm_compute. reflexivity.
Defined.


