(* ===== verification/LogTermination.v ===== *)
(** Termination of the log reader: [ReadRecord] returns for every contents of the
    file, with or without read errors, as long as the reader has not seen a record
    yet or has seen a recyclable one; otherwise it can loop for ever. *)

From stdpp Require Import gmap.
From S2P Require Import Prelude Coding Crc32c LogFormat LogWriter LogReader LogProofs.

Section Termination.
Context {F : Type} {S : SequentialFileReader F} {SL : SequentialFileLaws F}.
Implicit Types (i : Input F) (r : Reader F).

(** What is left to read. *)
Definition left_to_read i : nat := length (buffer_ i) + length (remaining (file_ i)).

Definition accepts_recyclable (first_record_read : bool) i : Prop :=
  first_record_read = false \/ recycled_ i = true.

(** A physical read either ends the log or consumes something. *)
Definition progress i (type : Z) i' : Prop :=
  type = kEof \/ type = kBadHeader \/ (left_to_read i' < left_to_read i)%nat.

Lemma ReadMore_cases i d res i' : ReadMore i d = (res, i') ->
  recycled_ i' = recycled_ i /\
  match res with
  | Some (_, code) => code = kEof \/ code = kBadHeader
  | None => eof_ i = false /\ (left_to_read i' <= left_to_read i)%nat /\
      (eof_ i' = true \/ slen (buffer_ i') = kBlockSize)
  end.
Proof.
  unfold ReadMore. destruct (eof_ i) eqn:He; simpl.
  { destruct (slen (buffer_ i) =? 0); simpl; intros [= <- <-]; auto. }
  destruct (read_error_ i) eqn:Hre; simpl.
  { destruct (slen (buffer_ i) =? 0); simpl; intros [= <- <-]; auto. }
  destruct (Read (file_ i) kBlockSize) as [[s b] f] eqn:E. destruct s; simpl.
  2: { intros [= <- <-]. auto. }
  apply Read_ok in E as [-> Ef]. intros [= <- <-]. unfold left_to_read. simpl. split_and!; try done.
  - rewrite Ef. rewrite <- (stake_sdrop kBlockSize (remaining (file_ i))) at 3.
    rewrite length_app. lia.
  - destruct (Z.ltb_spec (slen (stake kBlockSize (remaining (file_ i)))) kBlockSize); [by left | right].
    rewrite slen_stake in *. unfold kBlockSize in *. lia.
Qed.

(** The buffer after a record was consumed or dropped. *)
Lemma progress_drop i i' type n : buffer_ i' = [] \/ 7 <= n /\ buffer_ i' = sdrop n (buffer_ i) ->
  file_ i' = file_ i -> 7 <= slen (buffer_ i) -> progress i type i'.
Proof.
  intros Hb Hf Hl. right. right. unfold left_to_read. rewrite Hf. unfold slen in Hl.
  destruct Hb as [-> | [Hn ->]]; [simpl; lia |]. unfold sdrop. rewrite length_drop. lia.
Qed.

Lemma record_length_nonneg (header : bytes) :
  0 <= Z.lor (byte_at header 4) (Z.shiftl (byte_at header 5) 8).
Proof.
  apply Z.lor_nonneg. unfold byte_at. pose proof (byte_range (nth 4 header Byte.x00)).
  pose proof (byte_range (nth 5 header Byte.x00)). rewrite Z.shiftl_nonneg. lia.
Qed.

(** The branches of the loop that call [ReadMore]. *)
Lemma ReadMore_iteration chk frr ln d i i0 : accepts_recyclable frr i0 ->
  (left_to_read i0 <= left_to_read i)%nat -> slen (buffer_ i) < 11 ->
  let k fuel := match ReadMore i0 d with
    | (Some (d', code), i') => Some (code, [], d', i')
    | (None, i') => ReadPhysicalRecord_loop fuel chk frr ln i' d
    end in
  (exists type frag d' i', (forall fuel : nat, k fuel = Some (type, frag, d', i')) /\
    progress i type i' /\ accepts_recyclable frr i') \/
  (exists i1, (forall fuel, k fuel = ReadPhysicalRecord_loop fuel chk frr ln i1 d) /\
    (left_to_read i1 <= left_to_read i)%nat /\ accepts_recyclable frr i1 /\
    eof_ i0 = false /\ slen (buffer_ i) < 11 /\ (eof_ i1 = true \/ slen (buffer_ i1) = kBlockSize)).
Proof.
  intros Ha Hle Hlt k. unfold k.
  destruct (ReadMore i0 d) as [[[d' code] |] i1] eqn:E; apply ReadMore_cases in E as [Hr Hc].
  - left. eexists _, _, _, _. split_and!; [done | by destruct Hc; [left | right; left] |].
    unfold accepts_recyclable in *. by rewrite Hr.
  - destruct Hc as (He & Hl & Hb). right. exists i1. split_and!; try done; [lia |].
    unfold accepts_recyclable in *. by rewrite Hr.
Qed.

(** One iteration of the loop of [ReadPhysicalRecord]: it returns with progress, or
    reads a block and goes on; it returns when the file ended or a block is there. *)
Lemma ReadPhysicalRecord_iteration chk frr ln i d : accepts_recyclable frr i ->
  (exists type frag d' i', (forall fuel, ReadPhysicalRecord_loop (Datatypes.S fuel) chk frr ln i d =
      Some (type, frag, d', i')) /\ progress i type i' /\ accepts_recyclable frr i') \/
  (exists i1, (forall fuel, ReadPhysicalRecord_loop (Datatypes.S fuel) chk frr ln i d =
      ReadPhysicalRecord_loop fuel chk frr ln i1 d) /\
    (left_to_read i1 <= left_to_read i)%nat /\ accepts_recyclable frr i1 /\
    eof_ i = false /\ slen (buffer_ i) < 11 /\ (eof_ i1 = true \/ slen (buffer_ i1) = kBlockSize)).
Proof.
  intros Ha. cbn [ReadPhysicalRecord_loop].
  destruct (Z.ltb_spec (slen (buffer_ i)) kHeaderSize) as [Hlt | Hge].
  { apply (ReadMore_iteration _ _ _ _ i i); [done | done |]. unfold kHeaderSize in Hlt. lia. }
  set (type := header_type _). set (len := Z.lor _ _).
  assert (0 <= len) by apply record_length_nonneg. unfold kHeaderSize in Hge.
  replace (is_recyclable_type type && (frr && negb (recycled_ i))) with false.
  2: { destruct (is_recyclable_type type); [| done].
       destruct Ha as [-> | ->]; [done | by rewrite andb_false_r]. }
  fold (mark_recycled type i). set (i0 := mark_recycled type i).
  assert (buffer_ i0 = buffer_ i /\ file_ i0 = file_ i /\ eof_ i0 = eof_ i /\
    accepts_recyclable frr i0) as (Hb0 & Hf0 & He0 & Ha0).
  { unfold i0, mark_recycled. destruct (is_recyclable_type type); split_and!; try done. by right. }
  destruct (is_recyclable_type type && (slen (buffer_ i) <? kRecyclableHeaderSize)) eqn:Hsmall.
  { apply andb_prop in Hsmall as [_ Hsmall%Z.ltb_lt]. rewrite <- He0.
    apply (ReadMore_iteration _ _ _ _ i i0); [done | | exact Hsmall].
    unfold left_to_read. by rewrite Hb0, Hf0. }
  set (hs := if is_recyclable_type type then _ else _).
  assert (7 <= hs) by (unfold hs; by destruct (is_recyclable_type type)).
  assert (forall ty (frag : bytes) (dd : Z) b, b = [] \/ b = sdrop (hs + len) (buffer_ i) ->
    exists type frag' d' i', (forall fuel : nat, Some (ty, frag, dd, set_buffer i0 b) =
      Some (type, frag', d', i')) /\ progress i type i' /\ accepts_recyclable frr i') as Hfin.
  { intros ty frag dd b Hb. exists ty, frag, dd, (set_buffer i0 b). split_and!; [done | | done].
    apply (progress_drop i _ _ (hs + len)); simpl; [| done | lia].
    destruct Hb; [by left | right; split; [lia | done]]. }
  left. repeat case_match; apply Hfin; auto.
Qed.

Lemma ReadPhysicalRecord_progress r : accepts_recyclable (first_record_read_ r) (input_ r) ->
  exists type frag d i', ReadPhysicalRecord r = Some (type, frag, d, set_input r i') /\
    progress (input_ r) type i' /\ accepts_recyclable (first_record_read_ r) i'.
Proof.
  intros Ha. unfold ReadPhysicalRecord.
  destruct (ReadPhysicalRecord_iteration (checksum_ r) (first_record_read_ r) (reader_log_number_ r)
    (input_ r) 0 Ha) as [(type & frag & d & i' & E & Hp & Ha') | (i1 & E & Hl & Ha1 & _ & _ & He1)];
    rewrite E; [by exists type, frag, d, i' |].
  destruct (ReadPhysicalRecord_iteration (checksum_ r) (first_record_read_ r) (reader_log_number_ r)
    i1 0 Ha1) as [(type & frag & d & i' & E' & Hp & Ha') | (i2 & _ & _ & _ & He & Hlt & _)].
  - rewrite E'. exists type, frag, d, i'. split_and!; try done.
    unfold progress in *. destruct Hp as [| [| Hp]]; auto. right. right. lia.
  - destruct He1 as [? | He1]; [congruence |]. rewrite He1 in Hlt. by vm_compute in Hlt.
Qed.

(** An iteration that goes on changes nothing of the input but the reports. *)
Lemma ReadRecord_switch_GoOn m st off ty frag d r st' r' :
  ReadRecord_switch m st off ty frag d r = GoOn st' r' ->
  ty <> kEof /\ ty <> kBadHeader /\ left_to_read (input_ r') = left_to_read (input_ r) /\
  recycled_ (input_ r') = recycled_ (input_ r) /\ first_record_read_ r' = first_record_read_ r.
Proof.
  unfold ReadRecord_switch, on_full, on_first, on_middle, on_last, on_set_compression, on_ts_size,
    on_old_record, on_bad_len, on_bad_checksum, drop_partial, on_eof.
  intros E. destruct (Z.eqb_spec ty kBadHeader) as [-> | Hbh]; [done |].
  destruct (Z.eqb_spec ty kEof) as [-> | Heof]; [done |].
  repeat (case_match; try discriminate E); injection E as <- <-; by repeat case_match.
Qed.

Lemma ReadRecord_loop_total m n : forall st r, accepts_recyclable (first_record_read_ r) (input_ r) ->
  (left_to_read (input_ r) < n)%nat -> exists res, ReadRecord_loop n m st r = Some res.
Proof.
  induction n as [| n IH]; intros st r Ha Hn; [lia |]. cbn [ReadRecord_loop]. unfold ReadRecord_step.
  destruct (ReadPhysicalRecord_progress r Ha) as (ty & frag & d & i' & -> & Hp & Ha').
  destruct (ReadRecord_switch m st _ ty frag d (set_input r i')) as [st' r' | rec r'] eqn:E;
    [| by eexists].
  apply ReadRecord_switch_GoOn in E as (H1 & H2 & H3 & H4 & H5). simpl in *.
  destruct Hp as [? | [? | Hp]]; [done.. |]. apply IH; [| lia].
  unfold accepts_recyclable in *. by rewrite H4, H5.
Qed.
End Termination.

(** C32: [ReadRecord] returns, with or without read errors and whatever the file holds,
    when the reader has returned no record yet or the log is known to be a recycled
    one: one iteration more than there are bytes left is enough. *)
Theorem ReadRecord_terminates {F : Type} {S : SequentialFileReader F} {SL : SequentialFileLaws F}
    (r : Reader F) (m : WALRecoveryMode) (fuel : nat)
    (Hr : first_record_read_ r = false \/ recycled_ (input_ r) = true)
    (Hfuel : (length (buffer_ (input_ r)) + length (remaining (file_ (input_ r))) < fuel)%nat) :
  exists record r', ReadRecord fuel m r = Some (record, r').
Proof.
  destruct (ReadRecord_loop_total m fuel st0 r Hr Hfuel) as [[record r'] E]. by exists record, r'.
Qed.

Lemma ReadRecord_terminates_witness :
  exists record r', ReadRecord 5 kAbsoluteConsistency
    (MakeReader {| mem_rest := [Byte.x01; Byte.x02; Byte.x03]; mem_fail := true |} true 3)
    = Some (record, r').
Proof.
  apply (ReadRecord_terminates
    (MakeReader {| mem_rest := [Byte.x01; Byte.x02; Byte.x03]; mem_fail := true |} true 3)).
  - by left.
  - simpl. lia.
Defined.

(** C31: in a log that started with a record of the old format, a header whose type
    byte is one of the recyclable types stops the reader for ever: the physical
    record is refused without being consumed, and [ReadRecord] tries it again in
    every recovery mode, however often it iterates. *)
Theorem ReadRecord_loops_forever {F : Type} {S : SequentialFileReader F} (r : Reader F)
    (m : WALRecoveryMode) (fuel : nat)
    (Hfirst : first_record_read_ r = true) (Hrec : recycled_ (input_ r) = false)
    (Hlen : kHeaderSize <= slen (buffer_ (input_ r)))
    (Htype : is_recyclable_type (header_type (nth 6 (buffer_ (input_ r)) Byte.x00)) = true) :
  ReadRecord fuel m r = None.
Proof.
  assert (ReadPhysicalRecord r = Some (kBadRecord, [], 0, r)) as E.
  { unfold ReadPhysicalRecord. cbn [ReadPhysicalRecord_loop].
    destruct (Z.ltb_spec (slen (buffer_ (input_ r))) kHeaderSize); [lia |].
    rewrite Htype, Hfirst, Hrec. simpl. by destruct r. }
  unfold ReadRecord. fold st0.
  assert (forall st, in_fragmented_record st = false -> ReadRecord_loop fuel m st r = None) as H;
    [| by apply H].
  induction fuel as [| fuel IH]; intros st Hst; [done |]. cbn [ReadRecord_loop].
  unfold ReadRecord_step. rewrite E. unfold ReadRecord_switch, drop_partial. simpl. rewrite Hst.
  by apply IH.
Qed.

(** The log of the records "a" and "b", with one bit of the second type byte flipped
    (1 becomes 5): recovery never ends after the first record. *)
Definition flipped_log : bytes := Eval vm_compute in
  let log := mem_contents (dest_ (ex_writer false [LogRecord [Byte.x61]; LogRecord [Byte.x62]])) in
  <[14%nat := Byte.x05]> log.
Definition flipped_reader : Reader MemInput :=
  match ReadRecord 2 kPointInTimeRecovery
          (MakeReader {| mem_rest := flipped_log; mem_fail := false |} true 3) with
  | Some (Some [Byte.x61], r) => r
  | _ => MakeReader {| mem_rest := []; mem_fail := false |} true 3
  end.

Lemma ReadRecord_loops_forever_witness :
  first_record_read_ flipped_reader = true /\
  ReadRecord 1000 kPointInTimeRecovery flipped_reader = None.
Proof.
  split; [by vm_compute |].
  apply (ReadRecord_loops_forever flipped_reader kPointInTimeRecovery 1000); by vm_compute.
Defined.
