(* ===== verification/LogRecycling.v ===== *)
(** Recycled log files: the records of an earlier log that is overwritten end the
    log, and what goes wrong when the log number does not fit in 32 bits. *)

From stdpp Require Import gmap.
From S2P Require Import Prelude Coding Crc32c LogFormat LogWriter LogReader LogProofs.

Section Old.
Context {F : Type} {S : SequentialFileReader F} {SL : SequentialFileLaws F}.
Implicit Types (i : Input F) (r : Reader F).

(** A recyclable record with another log number. *)
Lemma read_old i off ln' ln t p rest chk frr fuel d :
  loaded i off (physical_record ln' t p ++ rest) -> 0 <= off -> 0 <= t <= 11 ->
  is_recyclable_type t = true -> off + 11 + slen p <= kBlockSize -> u32 ln' <> ln ->
  frr = false \/ recycled_ i = true ->
  exists i', ReadPhysicalRecord_loop (Datatypes.S fuel) chk frr ln i d = Some (kOldRecord, [], d, i') /\
    reports_ i' = reports_ i.
Proof.
  intros HL Hoff Ht Hrt Hfit Hln Hrec.
  pose proof (slen_physical_record_type ln' t p Ht) as Hlen. rewrite Hrt in Hlen. simpl in Hlen.
  unfold kRecyclableHeaderSize in Hlen. destruct HL as (_ & _ & Hb & _).
  rewrite stake_app_ge in Hb by lia. set (tail := stake _ rest) in Hb.
  pose proof (physical_record_fields ln' t p tail Ht ltac:(unfold kBlockSize in *; lia)) as Hpf.
  rewrite <- Hb in Hpf. destruct Hpf as [P1 P2 P3 _ _ _].
  assert (slen (buffer_ i) = 11 + slen p + slen tail) as Hbl by (rewrite Hb, slen_app; lia).
  pose proof (slen_nonneg p). pose proof (slen_nonneg tail).
  cbn [ReadPhysicalRecord_loop]. rewrite P1, P2, Hrt, P3 by done. unfold kHeaderSize at 1, kRecyclableHeaderSize.
  destruct (Z.ltb_spec (slen (buffer_ i)) (4 + 2 + 1)); [lia |].
  replace (frr && negb (recycled_ i)) with false
    by (destruct Hrec as [-> | ->]; [done | by rewrite andb_false_r]).
  destruct (Z.ltb_spec (slen (buffer_ i)) (4 + 2 + 1 + 4)); [lia |].
  destruct (Z.gtb_spec (4 + 2 + 1 + 4 + slen p) (slen (buffer_ i))); [lia |].
  destruct (Z.eqb_spec (u32 ln') ln); [done |]. simpl. by eexists.
Qed.

(** It ends the log, except in the mode that skips corruption; only point-in-time
    recovery mentions it. *)
Lemma old_record_ends m ln' off t p rest rep cf r st :
  ready true (reader_log_number_ r) off (physical_record ln' t p ++ rest) rep cf r -> 0 <= off ->
  0 <= t <= 11 -> is_recyclable_type t = true -> off + 11 + slen p <= kBlockSize ->
  u32 ln' <> reader_log_number_ r -> m <> kSkipAnyCorruptedRecords ->
  in_fragmented_record st = false ->
  reads_all m 1 rep (fun r' => reports_ (input_ r') = rep \/
    m = kPointInTimeRecovery /\ exists n, reports_ (input_ r') = rep ++ [OldLogRecord n]) st r [].
Proof.
  intros [Hpos _ Hrec Hrep Hcf] Hoff Ht Hrt Hfit Hln Hm Hst.
  destruct (at_pos_loaded _ _ _ (checksum_ r) (first_record_read_ r) (reader_log_number_ r) 0 Hpos)
    as (i1 & fuel & E & HL & Hrc & Hrp).
  destruct (read_old i1 off ln' (reader_log_number_ r) t p rest (checksum_ r) (first_record_read_ r) fuel 0)
    as (i' & E' & Hrp'); try done.
  { specialize (Hrec eq_refl). unfold recyclable_ok in Hrec. by rewrite Hrc. }
  eapply reads_all_end; [apply reads_done | done |].
  - unfold ReadRecord_step, ReadPhysicalRecord. rewrite E, E'. unfold ReadRecord_switch, on_old_record.
    simpl. rewrite Hst, bool_decide_false by done. simpl. reflexivity.
  - simpl. case_bool_decide; simpl; [right | left; congruence].
    split; [done |]. eexists. by rewrite Hrp', Hrp, Hrep.
Qed.
End Old.


(** The old log of [ex_entries] under a new log with one record that is as long. *)
Definition ex_recycled : MemInput := Eval vm_compute in
  {| mem_rest := mem_contents (dest_ (ex_writer true [LogRecord [Byte.x62]])) ++
       physical_record 2 kRecyclableFullType [Byte.x61]; mem_fail := false |}.


(** The first physical record of a recyclable log. *)
Lemma log_layout_first ln data es out off' :
  log_layout true ln 0 (LogRecord data :: es) out off' ->
  exists t p rest, out = physical_record ln t p ++ rest /\ 0 <= t <= 11 /\
    is_recyclable_type t = true /\ 0 + 11 + slen p <= kBlockSize.
Proof.
  intros Hl. inversion_clear Hl as [| ? ? out1 off1 ? out2 ? Hf |].
  inversion Hf as [? ? ? ? _ Hfr | ? ? ? ? ? Hgt]; subst; [| by vm_compute in Hgt].
  inversion Hfr as [? ? ? HB | ? ? d1 d2 o ? HB]; subst;
    (do 3 eexists; split_and!; [rewrite <- ?app_assoc; reflexivity | done | done | done |]).
  - exact HB.
  - rewrite <- HB. simpl. unfold kRecyclableHeaderSize. lia.
Qed.


Definition ex_large : Writer MemFile :=
  match write_log (MakeWriter ex_file (2 ^ 32 + 3) true false) [LogRecord [Byte.x61]] with
  | Some (_, w) => w
  | None => MakeWriter ex_file 3 true false
  end.
Definition ex_large_input : MemInput :=
  {| mem_rest := mem_contents (dest_ ex_large); mem_fail := false |}.

