(* ===== verification/Manifest.v ===== *)
(** db/version_edit_handler.{h,cc}, db/wal_edit.{h,cc}, db/version_set.{h,cc} (AtomicGroupReadBuffer): reading
    a MANIFEST. The log is read record by record, each record is an edit, the edits of an atomic group are
    applied together. What is done with an edit is an interface, which the handlers implement. *)

From stdpp Require Import gmap.
From S2P Require Import Prelude Algorithms Coding Status VersionEdit LogReader.

Open Scope record_scope.

(** * The WALs that are alive *)

(** The synced size of each WAL. *)
Record WalSet := { wals_ : gmap Z Z; min_wal_number_to_keep_ : Z }.
Definition NewWalSet : WalSet := {| wals_ := ∅; min_wal_number_to_keep_ := 0 |}.
Definition WalSet_AddWal (wal : WalAddition) (w : WalSet) : Status * WalSet :=
  let number := number_ wal in
  let put size := {| wals_ := <[number := size]> (wals_ w); min_wal_number_to_keep_ := min_wal_number_to_keep_ w |} in
  if number <? min_wal_number_to_keep_ w then (Status_OK, w)
  else
    match wals_ w !! number with
    | None => (Status_OK, put (synced_size_bytes_ wal))
    | Some size =>
        if negb (HasSyncedSize (synced_size_bytes_ wal)) then (Status_Corruption, w)
        else if HasSyncedSize size && (synced_size_bytes_ wal <=? size) then (Status_OK, w)
        else (Status_OK, put (synced_size_bytes_ wal))
    end.
Fixpoint WalSet_AddWals (wals : list WalAddition) (w : WalSet) : Status * WalSet :=
  match wals with
  | [] => (Status_OK, w)
  | wal :: wals => let '(s, w) := WalSet_AddWal wal w in if status_ok s then WalSet_AddWals wals w else (s, w)
  end.
Definition WalSet_DeleteWalsBefore (wal : Z) (w : WalSet) : Status * WalSet :=
  if wal >? min_wal_number_to_keep_ w
  then (Status_OK, {| wals_ := filter (fun p => wal <= p.1) (wals_ w); min_wal_number_to_keep_ := wal |})
  else (Status_OK, w).
Definition WalSet_Reset (w : WalSet) : WalSet := NewWalSet.
(** [logs_on_disk]: the logs that are there, with what asking for their size gives. [std::map] is in order of the numbers. *)
Fixpoint check_wals (logs_on_disk : gmap Z (Status * Z)) (wals : list (Z * Z)) : Status :=
  match wals with
  | [] => Status_OK
  | (log_number, synced_size) :: wals =>
      if negb (HasSyncedSize synced_size) then check_wals logs_on_disk wals
      else
        match logs_on_disk !! log_number with
        | None => Status_Corruption
        | Some (s, log_file_size) =>
            if negb (status_ok s) then s
            else if log_file_size <? synced_size then Status_Corruption
            else check_wals logs_on_disk wals
        end
  end.
Definition WalSet_CheckWals (logs_on_disk : gmap Z (Status * Z)) (w : WalSet) : Status :=
  check_wals logs_on_disk (sort (fun a b => a.1 <? b.1) (map_to_list (wals_ w))).

(** * Atomic groups *)

Record AtomicGroupReadBuffer := { read_edits_in_atomic_group_ : Z; replay_buffer_ : list VersionEdit }.
Definition NewAtomicGroupReadBuffer : AtomicGroupReadBuffer := {| read_edits_in_atomic_group_ := 0; replay_buffer_ := [] |}.
Definition AddEdit (edit : VersionEdit) (b : AtomicGroupReadBuffer) : Status * AtomicGroupReadBuffer :=
  if is_in_atomic_group_ edit then
    let buffer := match replay_buffer_ b with
                  | [] => replicate (Z.to_nat (u32 (remaining_entries_ edit + 1))) NewVersionEdit
                  | buffer => buffer
                  end in
    let read := u64 (read_edits_in_atomic_group_ b + 1) in
    if negb (u64 (read + remaining_entries_ edit) =? u32 (slen buffer))
    then (Status_Corruption, {| read_edits_in_atomic_group_ := read; replay_buffer_ := buffer |})
    else (Status_OK, {| read_edits_in_atomic_group_ := read; replay_buffer_ := <[Z.to_nat (read - 1) := edit]> buffer |})
  else
    match replay_buffer_ b with
    | [] => (Status_OK, b)
    | _ => (Status_Corruption, b)
    end.
Definition IsFull (b : AtomicGroupReadBuffer) : bool := read_edits_in_atomic_group_ b =? slen (replay_buffer_ b).
Definition IsEmpty (b : AtomicGroupReadBuffer) : bool := bool_decide (replay_buffer_ b = []).
Definition Buffer_Clear (b : AtomicGroupReadBuffer) : AtomicGroupReadBuffer := NewAtomicGroupReadBuffer.

(** * The loop over the records *)

(** What a handler does. An edit is applied with the column family that the edit before it in the group was about;
    [None] is undefined behaviour. *)
Class VersionEditHandlerOps (H : Type) := {
  Initialize : H -> option (Status * H);
  ApplyVersionEdit : VersionEdit -> option Z -> H -> option (Status * option Z * H);
  OnAtomicGroupReplayBegin : H -> option (Status * H);
  OnAtomicGroupReplayEnd : H -> Status * H;
  (** After the last record: the size that was read, the status so far. *)
  CheckIterationResult : Z -> Status -> H -> option (Status * H);
}.

Section Iterate.
Context {H : Type} {HO : VersionEditHandlerOps H} {F : Type} {SF : SequentialFileReader F}.

Record HandlerBase := { handler : H; read_buffer_ : AtomicGroupReadBuffer; handler_status_ : Status }.

Fixpoint apply_group (edits : list VersionEdit) (cfd : option Z) (h : H) : option (Status * H) :=
  match edits with
  | [] => Some (Status_OK, h)
  | e :: edits => '(s, cfd, h) ← ApplyVersionEdit e cfd h; if status_ok s then apply_group edits cfd h else Some (s, h)
  end.
(** One record. *)
Definition apply_record (record : bytes) (h : H) (b : AtomicGroupReadBuffer) : option (Status * H * AtomicGroupReadBuffer) :=
  let '(s, edit) := DecodeFrom NewVersionEdit record in
  if negb (status_ok s) then Some (s, h, b)
  else
    let '(s, b) := AddEdit edit b in
    if negb (status_ok s) then Some (s, h, b)
    else if is_in_atomic_group_ edit then
      if IsFull b then
        '(s, h) ← OnAtomicGroupReplayBegin h;
        if negb (status_ok s) then Some (s, h, b)
        else
          '(s, h) ← apply_group (replay_buffer_ b) None h;
          if negb (status_ok s) then Some (s, h, b)
          else let '(s, h) := OnAtomicGroupReplayEnd h in Some (s, h, Buffer_Clear b)
      else Some (s, h, b)
    else '(s, _, h) ← ApplyVersionEdit edit None h; Some (s, h, b).

(** What the reporter of the reader does to the status of the log. *)
Definition manifest_report_status (reason : DropReason) : Status := match reason with ReadError => Status_IOError | _ => Status_Corruption end.
Definition on_manifest_report (s : Status) (x : Report) : Status :=
  match x with
  | LogReader.Corruption _ reason => if status_ok s then manifest_report_status reason else s
  | LogReader.OldLogRecord _ => s
  end.
(** At most [n] records are read, each with [fuel]; [max_size] bounds what is read of the file, if it is not the largest number there is. *)
Fixpoint iterate_records (n fuel : nat) (max_size : option Z) (r : Reader F) (log_read_status s : Status) (h : H) (b : AtomicGroupReadBuffer) :
    option (Reader F * Status * Status * H * AtomicGroupReadBuffer) :=
  match n with
  | O => None
  | S n =>
      if negb (from_option (fun max_size => LastRecordEnd r <? max_size) true max_size) || negb (status_ok s) then Some (r, log_read_status, s, h, b)
      else
        '(record, r') ← ReadRecord fuel kTolerateCorruptedTailRecords r;
        let log_read_status := fold_left on_manifest_report (drop (length (reports_ (input_ r))) (reports_ (input_ r'))) log_read_status in
        match record with
        | None => Some (r', log_read_status, s, h, b)
        | Some record =>
            if negb (status_ok log_read_status) then Some (r', log_read_status, s, h, b)
            else '(s, h, b) ← apply_record record h b; iterate_records n fuel max_size r' log_read_status s h b
        end
  end.
Definition Iterate (n fuel : nat) (max_size : option Z) (r : Reader F) (x : HandlerBase) : option (Reader F * Status * HandlerBase) :=
  '(s, h) ← Initialize (handler x);
  '(r, log_read_status, s, h, b) ← iterate_records n fuel max_size r Status_OK s h (read_buffer_ x);
  let s := if status_ok s && negb (status_ok log_read_status) then log_read_status else s in
  '(s, h) ← CheckIterationResult (end_of_buffer_offset_ (input_ r)) s h;
  Some (r, log_read_status, {| handler := h; read_buffer_ := b; handler_status_ := if status_ok s then handler_status_ x else s |}).
End Iterate.
Arguments HandlerBase : clear implicits.

(** * Simple handlers *)

Definition kDefaultColumnFamilyName : bytes := [Byte.x64; Byte.x65; Byte.x66; Byte.x61; Byte.x75; Byte.x6c; Byte.x74].
(** The names of the column families, by their numbers. *)
Definition ListColumnFamilies_ApplyVersionEdit (edit : VersionEdit) (names : gmap Z bytes) : Status * gmap Z bytes :=
  let cf_id := column_family_ edit in
  if is_column_family_add_ edit then
    match names !! cf_id with
    | Some _ => (Status_Corruption, names)
    | None => (Status_OK, <[cf_id := column_family_name_ edit]> names)
    end
  else if is_column_family_drop_ edit then
    match names !! cf_id with
    | None => (Status_Corruption, names)
    | Some _ => (Status_OK, delete cf_id names)
    end
  else (Status_OK, names).
Definition ListColumnFamiliesHandler : gmap Z bytes := {[0 := kDefaultColumnFamilyName]}.
(** A handler that only looks at the edits. *)
Definition simple_handler {H} (apply : VersionEdit -> H -> Status * H) : VersionEditHandlerOps H := {|
  Initialize h := Some (Status_OK, h);
  ApplyVersionEdit e cfd h := let '(s, h) := apply e h in Some (s, cfd, h);
  OnAtomicGroupReplayBegin h := Some (Status_OK, h);
  OnAtomicGroupReplayEnd h := (Status_OK, h);
  CheckIterationResult _ s h := Some (s, h);
|}.

(** The checksum of each file and the name of its function. *)
Definition FileChecksumList : Type := gmap Z (bytes * bytes).
Definition InsertOneFileChecksum (file_number : Z) (checksum checksum_func_name : bytes) (l : FileChecksumList) : FileChecksumList :=
  <[file_number := (checksum, checksum_func_name)]> l.
Definition RemoveOneFileChecksum (file_number : Z) (l : FileChecksumList) : Status * FileChecksumList :=
  match l !! file_number with None => (Status_NotFound, l) | Some _ => (Status_OK, delete file_number l) end.
Fixpoint remove_checksums (files : list (Z * Z)) (l : FileChecksumList) : Status * FileChecksumList :=
  match files with
  | [] => (Status_OK, l)
  | f :: files => let '(s, l) := RemoveOneFileChecksum f.2 l in if status_ok s then remove_checksums files l else (s, l)
  end.
Definition insert_checksum (l : FileChecksumList) (x : Z * FileMetaData) : FileChecksumList :=
  InsertOneFileChecksum (GetNumber (fd x.2)) (file_checksum x.2) (file_checksum_func_name x.2) l.
Definition insert_blob_checksum (l : FileChecksumList) (b : BlobFileAddition) : FileChecksumList :=
  match checksum_method_ b with
  | [] => InsertOneFileChecksum (blob_file_number_ b) [] kUnknownFileChecksumFuncName l
  | m => InsertOneFileChecksum (blob_file_number_ b) (checksum_value_ b) m l
  end.
Definition FileChecksumRetriever_ApplyVersionEdit (edit : VersionEdit) (l : FileChecksumList) : Status * FileChecksumList :=
  let '(s, l) := remove_checksums (deleted_files_ edit) l in
  if negb (status_ok s) then (s, l)
  else (Status_OK, fold_left insert_blob_checksum (blob_file_additions_ edit) (fold_left insert_checksum (new_files_ edit) l)).
