(* ===== verification/VersionSet.v ===== *)
(** db/version_set.{h,cc}, db/column_family.{h,cc}: the column families of a database with their current versions, and the
    counters that the MANIFEST records. *)

From stdpp Require Import gmap.
From Stdlib Require Import String.
From S2P Require Import Prelude Coding Comparator DbFormat Status VersionEdit VersionStorage VersionBuilder Manifest.

Open Scope record_scope.

(** * Column families *)

(** The options that the code here reads, as [SanitizeOptions] leaves them. *)
Record ColumnFamilyOptions := {
  comparator : Comparator;
  timestamps : TimestampComparator comparator;
  comparator_name : bytes;
  num_levels : nat;
  force_consistency_checks : bool;
  persist_user_defined_timestamps : bool;
}.
Definition DefaultColumnFamilyOptions : ColumnFamilyOptions := {|
  comparator := BytewiseComparatorImpl; timestamps := DefaultTimestampComparator BytewiseComparatorImpl;
  comparator_name := list_byte_of_string "leveldb.BytewiseComparator";
  num_levels := 7; force_consistency_checks := true; persist_user_defined_timestamps := true;
|}.
Record ColumnFamilyData := {
  id_ : Z;
  name_ : bytes;
  options_ : ColumnFamilyOptions;
  cfd_log_number_ : Z;
  cfd_full_history_ts_low_ : bytes;
  next_epoch_number_ : Z;
  current_ : VersionStorageInfo;
}.
#[global] Instance ColumnFamilyData_rebuild : Rebuild ColumnFamilyData := fun c =>
  {| id_ := id_ c; name_ := name_ c; options_ := options_ c; cfd_log_number_ := cfd_log_number_ c;
     cfd_full_history_ts_low_ := cfd_full_history_ts_low_ c; next_epoch_number_ := next_epoch_number_ c; current_ := current_ c |}.
Definition cfd_ts_sz (c : ColumnFamilyData) : Z := timestamp_size (Comparator := comparator (options_ c)).
(** The column family is its own next epoch number. *)
Definition Cfd_RecoverEpochNumbers (allow_ingest_behind : bool) (c : ColumnFamilyData) : ColumnFamilyData :=
  let '(next_epoch, v) := RecoverEpochNumbers (current_ c) (next_epoch_number_ c) allow_ingest_behind true false in
  c <| next_epoch_number_ := next_epoch |> <| current_ := v |>.
Definition SetFullHistoryTsLow (ts_low : bytes) (c : ColumnFamilyData) : ColumnFamilyData :=
  if bool_decide (cfd_full_history_ts_low_ c = []) ||
     (CompareTimestamp (TimestampComparator := timestamps (options_ c)) ts_low (cfd_full_history_ts_low_ c) >? 0)
  then c <| cfd_full_history_ts_low_ := ts_low |> else c.

(** * The set of versions *)

(** The column families are in the order in which they were created; those that are dropped are no more in the list. *)
Record VersionSet := {
  column_family_set_ : list ColumnFamilyData;
  max_cf_ : Z;
  wal_set_ : WalSet;
  vset_db_id_ : bytes;
  vset_next_file_number_ : Z;
  vset_min_log_number_to_keep_ : Z;
  manifest_file_number_ : Z;
  manifest_file_size_ : Z;
  vset_prev_log_number_ : Z;
  vset_last_sequence_ : Z;
  last_allocated_sequence_ : Z;
  last_published_sequence_ : Z;
  descriptor_last_sequence_ : Z;
}.
#[global] Instance VersionSet_rebuild : Rebuild VersionSet := fun v =>
  {| column_family_set_ := column_family_set_ v; max_cf_ := max_cf_ v; wal_set_ := wal_set_ v; vset_db_id_ := vset_db_id_ v;
     vset_next_file_number_ := vset_next_file_number_ v; vset_min_log_number_to_keep_ := vset_min_log_number_to_keep_ v;
     manifest_file_number_ := manifest_file_number_ v; manifest_file_size_ := manifest_file_size_ v;
     vset_prev_log_number_ := vset_prev_log_number_ v; vset_last_sequence_ := vset_last_sequence_ v;
     last_allocated_sequence_ := last_allocated_sequence_ v; last_published_sequence_ := last_published_sequence_ v;
     descriptor_last_sequence_ := descriptor_last_sequence_ v |}.
Definition NewVersionSet (db_id : bytes) : VersionSet :=
  {| column_family_set_ := []; max_cf_ := 0; wal_set_ := NewWalSet; vset_db_id_ := db_id; vset_next_file_number_ := 2;
     vset_min_log_number_to_keep_ := 0; manifest_file_number_ := 0; manifest_file_size_ := 0; vset_prev_log_number_ := 0;
     vset_last_sequence_ := 0; last_allocated_sequence_ := 0; last_published_sequence_ := 0; descriptor_last_sequence_ := 0 |}.
(** [descriptor_last_sequence_] is kept. *)
Definition VersionSet_Reset (v : VersionSet) : VersionSet :=
  (NewVersionSet []) <| descriptor_last_sequence_ := descriptor_last_sequence_ v |> <| wal_set_ := WalSet_Reset (wal_set_ v) |>.

Definition GetColumnFamily (cf : Z) (v : VersionSet) : option ColumnFamilyData :=
  find (fun c => id_ c =? cf) (column_family_set_ v).
Definition alter_cfd (cf : Z) (f : ColumnFamilyData -> ColumnFamilyData) (v : VersionSet) : VersionSet :=
  v <| column_family_set_ := map (fun c => if id_ c =? cf then f c else c) (column_family_set_ v) |>.
Definition UpdateMaxColumnFamily (new_max_column_family : Z) (v : VersionSet) : VersionSet :=
  v <| max_cf_ := Z.max new_max_column_family (max_cf_ v) |>.
Definition GetNextColumnFamilyID (v : VersionSet) : Z * VersionSet := let cf := u32 (max_cf_ v + 1) in (cf, v <| max_cf_ := cf |>).
Definition ColumnFamilySet_CreateColumnFamily (c : ColumnFamilyData) (v : VersionSet) : VersionSet :=
  v <| column_family_set_ := column_family_set_ v ++ [c] |> <| max_cf_ := Z.max (max_cf_ v) (id_ c) |>.
(** [SetDropped], [RemoveColumnFamily]. *)
Definition DropColumnFamily (cf : Z) (v : VersionSet) : VersionSet :=
  v <| column_family_set_ := filter (fun c => id_ c <> cf) (column_family_set_ v) |>.

Definition AppendVersion (cf : Z) (w : VersionStorageInfo) : VersionSet -> VersionSet := alter_cfd cf (fun c => c <| current_ := w |>).
(** The new version of a column family, not yet filled. *)
Definition NewVersion (c : ColumnFamilyData) (requirement : EpochNumberRequirement) : VersionStorageInfo :=
  NewVersionStorageInfo (num_levels (options_ c)) (Some (current_ c)) (force_consistency_checks (options_ c)) requirement.
Definition PrepareAppend (o : ColumnFamilyOptions) : VersionStorageInfo -> VersionStorageInfo :=
  PrepareForVersionAppend (C := comparator o) (TC := timestamps o).
Definition CreateColumnFamily (cf_options : ColumnFamilyOptions) (edit : VersionEdit) (v : VersionSet) : VersionSet :=
  ColumnFamilySet_CreateColumnFamily
    {| id_ := column_family_ edit; name_ := column_family_name_ edit; options_ := cf_options;
       cfd_log_number_ := default 0 (log_number_ edit); cfd_full_history_ts_low_ := []; next_epoch_number_ := kFirstEpochNumber;
       current_ := PrepareAppend cf_options
         (NewVersionStorageInfo (num_levels cf_options) None (force_consistency_checks cf_options) kMustPresent) |} v.

Definition MarkFileNumberUsed (number : Z) (v : VersionSet) : VersionSet :=
  if vset_next_file_number_ v <=? number then v <| vset_next_file_number_ := u64 (number + 1) |> else v.
Definition MarkMinLogNumberToKeep (number : Z) (v : VersionSet) : VersionSet :=
  if vset_min_log_number_to_keep_ v <? number then v <| vset_min_log_number_to_keep_ := number |> else v.
Definition NewFileNumber (v : VersionSet) : Z * VersionSet :=
  (vset_next_file_number_ v, v <| vset_next_file_number_ := u64 (vset_next_file_number_ v + 1) |>).
Definition VersionSet_RecoverEpochNumbers (allow_ingest_behind : bool) (v : VersionSet) : VersionSet :=
  v <| column_family_set_ := map (Cfd_RecoverEpochNumbers allow_ingest_behind) (column_family_set_ v) |>.
