(* ===== verification/ManifestWriter.v ===== *)
(** db/version_set.cc (ProcessManifestWrites and what it calls): edits of column families are applied to their versions, written to the
    MANIFEST, and then installed. A new MANIFEST starts with the current state of the database. *)

From stdpp Require Import gmap.
From S2P Require Import Prelude Algorithms Coding Comparator DbFormat Status LogWriter VersionEdit VersionStorage VersionBuilder Manifest VersionSet.

Open Scope record_scope.

(** * Edits *)

Definition wal_deletions (e : VersionEdit) : Z := if wal_deletion_ e =? 0 then 0 else 1.
Definition NumEntries (e : VersionEdit) : Z :=
  slen (new_files_ e) + slen (deleted_files_ e) + slen (blob_file_additions_ e) + slen (blob_file_garbages_ e) + slen (wal_additions_ e) + wal_deletions e.
Definition IsWalManipulation (e : VersionEdit) : bool :=
  (NumEntries e >? 0) && ((NumEntries e =? slen (wal_additions_ e)) || (NumEntries e =? wal_deletions e)).
Definition IsColumnFamilyManipulation (e : VersionEdit) : bool := is_column_family_add_ e || is_column_family_drop_ e.
Definition SetCompactCursors (compact_cursors_by_level : list bytes) (e : VersionEdit) : VersionEdit :=
  e <| compact_cursors_ := omap (fun x => if InternalKey_Valid x.2 then Some (Z.of_nat x.1, x.2) else None) (imap pair compact_cursors_by_level) |>.

(** Edits of one column family, of none that is there yet when one is added. *)
Record ManifestWriter := { writer_cfd : option Z; edit_list : list VersionEdit }.
(** The id of a column family is not used again: one that is not found was dropped since. *)
Definition IsDropped (v : VersionSet) (w : ManifestWriter) : bool :=
  if writer_cfd w is Some cf then negb (bool_decide (is_Some (GetColumnFamily cf v))) else false.
Definition IsAllWalEdits (w : ManifestWriter) : bool := forallb IsWalManipulation (edit_list w).

(** * The edits that are written together *)

(** With each edit goes the size of the timestamps of its column family. [group_start] is the index of the first edit of the last atomic group,
    [std::numeric_limits<size_t>::max()] is [None]. *)
Record Batch := {
  batch_edits : list (VersionEdit * option Z);
  versions : list (Z * Rep);
  max_last_sequence : Z;
  group_start : option nat;
}.
Definition NewBatch (descriptor_last_sequence : Z) : Batch :=
  {| batch_edits := []; versions := []; max_last_sequence := descriptor_last_sequence; group_start := None |}.
(** How many edits of the group that was begun there are at the start of the list. *)
Fixpoint edits_of_group (edits : list VersionEdit) : Z :=
  match edits with
  | [] => 0
  | e :: edits => if negb (is_in_atomic_group_ e) then 0 else if remaining_entries_ e =? 0 then 1 else 1 + edits_of_group edits
  end.
Definition in_open_group (b : Batch) : bool :=
  match list.last (batch_edits b) with Some (e, _) => is_in_atomic_group_ e && (remaining_entries_ e >? 0) | None => false end.
(** The edits of a column family that was dropped are not written. *)
Definition skip_writer (edits : list VersionEdit) (b : Batch) : Batch :=
  if in_open_group b then
    let k := u32 (edits_of_group edits) in
    match group_start b with
    | None => b
    | Some start =>
        {| batch_edits := imap (fun i x => if (start <=? i)%nat then (x.1 <| remaining_entries_ := u32 (remaining_entries_ x.1 - k) |>, x.2) else x) (batch_edits b);
           versions := versions b; max_last_sequence := max_last_sequence b; group_start := group_start b |}
    end
  else b.
Definition LogAndApplyCFHelper (v : VersionSet) (edit : VersionEdit) (max_last_sequence : Z) : VersionEdit :=
  let edit := edit <| next_file_number_ := Some (vset_next_file_number_ v) |> <| last_sequence_ := Some max_last_sequence |> in
  if is_column_family_drop_ edit then edit <| max_column_family_ := Some (max_cf_ v) |> else edit.
(** The edit with what it records of the database, and the highest sequence number. *)
Definition complete_edit (v : VersionSet) (edit : VersionEdit) (max_last_sequence : Z) : VersionEdit * Z :=
  let edit := if prev_log_number_ edit is Some _ then edit else edit <| prev_log_number_ := Some (vset_prev_log_number_ v) |> in
  let edit := edit <| next_file_number_ := Some (vset_next_file_number_ v) |> in
  match last_sequence_ edit with
  | Some n => if n >? max_last_sequence then (edit, n) else (edit <| last_sequence_ := Some max_last_sequence |>, max_last_sequence)
  | None => (edit <| last_sequence_ := Some max_last_sequence |>, max_last_sequence)
  end.
Definition find_builder (cf : Z) (vs : list (Z * Rep)) : option Rep := snd <$> find (fun x => x.1 =? cf) vs.
Definition set_rep (cf : Z) (r : Rep) (vs : list (Z * Rep)) : list (Z * Rep) := map (fun x => if x.1 =? cf then (x.1, r) else x) vs.
Definition LogAndApplyHelper (v : VersionSet) (c : ColumnFamilyData) (edit : VersionEdit) (b : Batch) : option (Status * VersionEdit * Z * list (Z * Rep)) :=
  let '(edit, max_last_sequence) := complete_edit v edit (max_last_sequence b) in
  match find_builder (id_ c) (versions b) with
  | None => Some (Status_OK, edit, max_last_sequence, versions b)
  | Some r =>
      '(s, r) ← Apply (C := comparator (options_ c)) (fun _ _ => Status_OK) (fun _ => Status_OK) edit r;
      Some (s, edit, max_last_sequence, set_rep (id_ c) r (versions b))
  end.
Fixpoint add_edits (v : VersionSet) (c : ColumnFamilyData) (edits : list VersionEdit) (b : Batch) : option (Status * Batch) :=
  match edits with
  | [] => Some (Status_OK, b)
  | e :: edits =>
      let group_start := if is_in_atomic_group_ e then if in_open_group b then group_start b else Some (length (batch_edits b)) else None in
      '(s, e, max_last_sequence, vs) ← LogAndApplyHelper v c e b;
      if negb (status_ok s) then Some (s, b)
      else
        add_edits v c edits
          {| batch_edits := batch_edits b ++ [(e, Some (cfd_ts_sz c))]; versions := vs; max_last_sequence := max_last_sequence; group_start := group_start |}
  end.
Definition add_version (c : ColumnFamilyData) (w : ManifestWriter) (b : Batch) : Batch :=
  match find_builder (id_ c) (versions b) with
  | Some _ => b
  | None =>
      if IsAllWalEdits w then b
      else {| batch_edits := batch_edits b; versions := versions b ++ [(id_ c, NewRep (current_ c) false false)]; max_last_sequence := max_last_sequence b; group_start := group_start b |}
  end.
(** All writers up to the next one that adds or drops a column family; how many they are. *)
Fixpoint collect (v : VersionSet) (writers : list ManifestWriter) (b : Batch) : option (Status * nat * Batch) :=
  match writers with
  | [] => Some (Status_OK, O, b)
  | w :: writers =>
      e ← head (edit_list w);
      if IsColumnFamilyManipulation e then Some (Status_OK, O, b)
      else
        cf ← writer_cfd w;
        '(s, b) ← match GetColumnFamily cf v with
                  | None => Some (Status_OK, skip_writer (edit_list w) b)
                  | Some c => add_edits v c (edit_list w) (add_version c w b)
                  end;
        if negb (status_ok s) then Some (s, 1%nat, b)
        else '(s, n, b) ← collect v writers b; Some (s, S n, b)
  end.
(** The new versions are saved. *)
Fixpoint save_versions (v : VersionSet) (vs : list (Z * Rep)) : option (Status * list (Z * VersionStorageInfo)) :=
  match vs with
  | [] => Some (Status_OK, [])
  | (cf, r) :: vs =>
      c ← GetColumnFamily cf v;
      let '(s, w) := SaveTo (C := comparator (options_ c)) r (NewVersion c kMustPresent) in
      if negb (status_ok s) then Some (s, [])
      else '(s, ws) ← save_versions v vs; Some (s, (cf, w) :: ws)
  end.

(** * The state of the database as edits *)

Definition files_edit (c : ColumnFamilyData) : VersionEdit :=
  fold_left (fun e level => fold_left (fun e f => AddFile (Z.of_nat level) f e) (LevelFiles (current_ c) level) e) (seq 0 (num_levels (options_ c)))
    (NewVersionEdit <| column_family_ := id_ c |>).
Definition add_blob_meta (e : VersionEdit) (m : BlobFileMetaData) : VersionEdit :=
  let e := AddBlobFile (shared_meta_ m) e in
  if meta_garbage_count_ m >? 0
  then AddBlobFileGarbage {| garbage_file_number_ := GetBlobFileNumber m; garbage_blob_count_ := meta_garbage_count_ m; garbage_blob_bytes_ := meta_garbage_bytes_ m |} e
  else e.
Definition family_edit (c : ColumnFamilyData) : VersionEdit :=
  let e := if id_ c =? 0 then NewVersionEdit
           else NewVersionEdit <| is_column_family_add_ := true |> <| column_family_name_ := name_ c |> <| column_family_ := id_ c |> in
  e <| comparator_ := Some (comparator_name (options_ c)) |> <| persist_user_defined_timestamps_ := Some (persist_user_defined_timestamps (options_ c)) |>.
Definition state_edit (v : VersionSet) (c : ColumnFamilyData) : VersionEdit :=
  let e := fold_left add_blob_meta (blob_files_ (current_ c)) (SetCompactCursors (compact_cursor_ (current_ c)) (files_edit c)) in
  let e := e <| log_number_ := Some (cfd_log_number_ c) |> in
  let e := if (id_ c =? 0) && negb (vset_min_log_number_to_keep_ v =? 0) then e <| min_log_number_to_keep_ := Some (vset_min_log_number_to_keep_ v) |> else e in
  let e := if bool_decide (cfd_full_history_ts_low_ c = []) then e else e <| full_history_ts_low_ := cfd_full_history_ts_low_ c |> in
  e <| last_sequence_ := Some (descriptor_last_sequence_ v) |>.
(** The edits that [WriteCurrentStateToManifest] writes, each with the size of timestamps it is encoded with. *)
Definition current_state (write_dbid_to_manifest : bool) (v : VersionSet) : list (VersionEdit * option Z) :=
  (if write_dbid_to_manifest then [(NewVersionEdit <| db_id_ := Some (vset_db_id_ v) |>, None)] else []) ++
  (match map_to_list (wals_ (wal_set_ v)) with
   | [] => []
   | wals => [(NewVersionEdit <| wal_additions_ := map (fun x => {| number_ := x.1; synced_size_bytes_ := x.2 |}) (sort (fun a b => a.1 <? b.1) wals) |>, None)]
   end) ++
  [(NewVersionEdit <| wal_deletion_ := vset_min_log_number_to_keep_ v |>, None)] ++
  concat (map (fun c => [(family_edit c, None); (state_edit v c, Some (cfd_ts_sz c))]) (column_family_set_ v)).

(** * Writing *)

Section Write.
Context {F : Type} {W : WritableFileWriter F}.

Definition io_to_status (s : IOStatus) : Status := match s with IOStatus_OK => Status_OK | IOStatus_IOError => Status_IOError end.
(** The status, that of the file, and the log. *)
Fixpoint write_edits (edits : list (VersionEdit * option Z)) (log : Writer F) : option (Status * IOStatus * Writer F) :=
  match edits with
  | [] => Some (Status_OK, IOStatus_OK, log)
  | (e, ts_sz) :: edits =>
      '(ok, record) ← EncodeTo e ts_sz;
      if negb ok then Some (Status_Corruption, IOStatus_OK, log)
      else
        '(io_s, log) ← AddRecord log record;
        if LogWriter.ok io_s then write_edits edits log else Some (io_to_status io_s, io_s, log)
  end.

(** What the file system does: a new MANIFEST, syncing it, pointing CURRENT to it; opening the tables of a builder; and the options. *)
Record ManifestEnv := {
  NewWritableFile : IOStatus * F;
  SyncManifest : IOStatus;
  SetCurrentFile : IOStatus;
  env_LoadTableHandlers : Z -> Rep -> Status;
  GetFileSize : F -> Z;
  write_dbid_to_manifest : bool;
  max_manifest_file_size : Z;
  env_paranoid_checks : bool;
}.
(** [current_manifest_]: the MANIFEST that CURRENT points to. *)
Record ManifestState := {
  vset_ : VersionSet;
  descriptor_log_ : option (Writer F);
  vset_io_status_ : IOStatus;
  obsolete_manifests_ : list Z;
  manifest_writers_ : list ManifestWriter;
  current_manifest_ : Z;
}.
Fixpoint load_versions (E : ManifestEnv) (vs : list (Z * Rep)) : Status :=
  match vs with
  | [] => Status_OK
  | (cf, r) :: vs => let s := env_LoadTableHandlers E cf r in if negb (status_ok s) && env_paranoid_checks E then s else load_versions E vs
  end.
(** The log with the edits: a new one with the state of the database first, or the one there is. *)
Definition write_manifest (E : ManifestEnv) (new_descriptor_log : bool) (v : VersionSet) (batch : list (VersionEdit * option Z)) (log : option (Writer F)) :
    option (Status * IOStatus * IOStatus * option (Writer F)) :=
  '(s, io_s, manifest_io_status, log) ←
    if new_descriptor_log then
      let '(io_s, file) := NewWritableFile E in
      if LogWriter.ok io_s then
        '(s, io_s, log) ← write_edits (current_state (write_dbid_to_manifest E) v) (MakeWriter file 0 false false);
        Some (if LogWriter.ok io_s then s else io_to_status io_s, io_s, if LogWriter.ok io_s then IOStatus_OK else io_s, Some log)
      else Some (io_to_status io_s, io_s, io_s, None)
    else Some (Status_OK, IOStatus_OK, IOStatus_OK, log);
  if negb (status_ok s) then Some (s, io_s, manifest_io_status, log)
  else
    log ← log;
    '(s, io_s, log) ← write_edits batch log;
    let '(io_s, manifest_io_status) := if status_ok s then (SyncManifest E, SyncManifest E) else (io_s, io_s) in
    Some (if LogWriter.ok io_s then s else io_to_status io_s, io_s, manifest_io_status, Some log).

(** * Installing *)

Fixpoint apply_wal_edits (edits : list VersionEdit) (w : WalSet) : Status * WalSet :=
  match edits with
  | [] => (Status_OK, w)
  | e :: edits =>
      let '(s, w) := if negb (bool_decide (wal_additions_ e = [])) then WalSet_AddWals (wal_additions_ e) w
                     else if negb (wal_deletion_ e =? 0) then WalSet_DeleteWalsBefore (wal_deletion_ e) w else (Status_OK, w) in
      if status_ok s then apply_wal_edits edits w else (s, w)
  end.
(** The numbers of an edit that is written. *)
Definition install_numbers (v : VersionSet) (e : VersionEdit) : VersionSet :=
  alter_cfd (column_family_ e) (fun c =>
    let c := if log_number_ e is Some n then if n >? cfd_log_number_ c then c <| cfd_log_number_ := n |> else c else c in
    if bool_decide (full_history_ts_low_ e = []) then c else SetFullHistoryTsLow (full_history_ts_low_ e) c) v.
Definition last_min_log_number_to_keep (edits : list VersionEdit) : Z := fold_left (fun m e => Z.max m (default 0 (min_log_number_to_keep_ e))) edits 0.
Definition install_versions (edits : list VersionEdit) (ws : list (Z * VersionStorageInfo)) (v : VersionSet) : VersionSet :=
  let v := fold_left install_numbers edits v in
  let v := if last_min_log_number_to_keep edits =? 0 then v else MarkMinLogNumberToKeep (last_min_log_number_to_keep edits) v in
  fold_left (fun v x => AppendVersion x.1 x.2 v) ws v.
(** [first]: the first edit of the first writer; [pending]: the number of the MANIFEST. *)
Definition install (new_cf_options : option ColumnFamilyOptions) (first : VersionEdit) (writer : ManifestWriter) (edits : list VersionEdit) (ws : list (Z * VersionStorageInfo))
    (max_last_sequence pending new_manifest_file_size : Z) (v : VersionSet) : option VersionSet :=
  v ← if is_column_family_add_ first then o ← new_cf_options; Some (CreateColumnFamily o first v)
      else if is_column_family_drop_ first then cf ← writer_cfd writer; Some (DropColumnFamily cf v)
      else Some (install_versions edits ws v);
  Some (v <| descriptor_last_sequence_ := max_last_sequence |> <| manifest_file_number_ := pending |> <| manifest_file_size_ := new_manifest_file_size |>
          <| vset_prev_log_number_ := default 0 (prev_log_number_ first) |>).
Definition prepare_versions (v : VersionSet) (ws : list (Z * VersionStorageInfo)) : option (list (Z * VersionStorageInfo)) :=
  mapM (fun x => c ← GetColumnFamily x.1 v; Some (x.1, PrepareAppend (options_ c) x.2)) ws.
Definition update_last (f : VersionEdit -> VersionEdit) (l : list (VersionEdit * option Z)) : list (VersionEdit * option Z) :=
  alter (fun x => (f x.1, x.2)) (length l - 1)%nat l.

(** ** The writers at the front of the queue *)

(** The edits are made: the batch, how many writers it is of, the new versions. *)
Definition make_batch (st : ManifestState) (writer : ManifestWriter) : option (Status * nat * Batch * list (Z * VersionStorageInfo)) :=
  let v := vset_ st in
  first ← head (edit_list writer);
  if IsColumnFamilyManipulation first then
    Some (Status_OK, 1%nat,
      {| batch_edits := [(LogAndApplyCFHelper v first (descriptor_last_sequence_ v), None)]; versions := [];
         max_last_sequence := descriptor_last_sequence_ v; group_start := None |}, [])
  else
    '(s, n, b) ← collect v (manifest_writers_ st) (NewBatch (descriptor_last_sequence_ v));
    if negb (status_ok s) then Some (s, n, b, [])
    else '(s, ws) ← save_versions v (versions b); Some (s, n, b, ws).
(** With a new MANIFEST the last edit gets the next file number again and the first one of the first writer the highest column family. *)
Definition complete_batch (new_descriptor_log : bool) (first_dropped : bool) (v : VersionSet) (l : list (VersionEdit * option Z)) : list (VersionEdit * option Z) :=
  if new_descriptor_log then
    let l := update_last (fun e => e <| next_file_number_ := Some (vset_next_file_number_ v) |>) l in
    if (max_cf_ v >? 0) && negb first_dropped then alter (fun x => (x.1 <| max_column_family_ := Some (max_cf_ v) |>, x.2)) 0%nat l else l
  else l.
Definition pop_writers (n : nat) (st : ManifestState) : ManifestState :=
  {| vset_ := vset_ st; descriptor_log_ := descriptor_log_ st; vset_io_status_ := vset_io_status_ st; obsolete_manifests_ := obsolete_manifests_ st;
     manifest_writers_ := drop n (manifest_writers_ st); current_manifest_ := current_manifest_ st |}.
(** The edits are written and installed. [first]: the edit that the first writer began with. *)
Definition commit_batch (E : ManifestEnv) (new_descriptor_log : bool) (new_cf_options : option ColumnFamilyOptions) (writer : ManifestWriter) (first : VersionEdit)
    (b : Batch) (ws : list (Z * VersionStorageInfo)) (st : ManifestState) : option (Status * ManifestState) :=
  let '(pending, v) := if new_descriptor_log then NewFileNumber (vset_ st) else (manifest_file_number_ (vset_ st), vset_ st) in
  let skipped := IsDropped v writer && negb (IsColumnFamilyManipulation first) in
  let batch := complete_batch new_descriptor_log skipped v (batch_edits b) in
  let edits := map fst batch in
  let first := if skipped then first else default first (head edits) in
  let s := load_versions E (versions b) in
  '(s, io_s, manifest_io_status, log) ← if status_ok s then write_manifest E new_descriptor_log v batch (descriptor_log_ st)
                                         else Some (s, IOStatus_OK, IOStatus_OK, descriptor_log_ st);
  ws ← prepare_versions v ws;
  let '(s, io_s, current) := if status_ok s && new_descriptor_log
                             then if LogWriter.ok (SetCurrentFile E) then (s, SetCurrentFile E, pending) else (io_to_status (SetCurrentFile E), SetCurrentFile E, current_manifest_ st)
                             else (s, io_s, current_manifest_ st) in
  let '(s, wals) := if status_ok s then apply_wal_edits edits (wal_set_ v) else (s, wal_set_ v) in
  let v := v <| wal_set_ := wals |> in
  let io_status := if negb (LogWriter.ok io_s) then if LogWriter.ok (vset_io_status_ st) then io_s else vset_io_status_ st else io_s in
  if status_ok s then
    log ← log;
    let obsolete := if new_descriptor_log then obsolete_manifests_ st ++ [manifest_file_number_ v] else obsolete_manifests_ st in
    v ← install new_cf_options first writer edits ws (max_last_sequence b) pending (GetFileSize E (dest_ log)) v;
    Some (s, {| vset_ := v; descriptor_log_ := Some log; vset_io_status_ := io_status; obsolete_manifests_ := obsolete;
                manifest_writers_ := manifest_writers_ st; current_manifest_ := current |})
  else
    Some (s, {| vset_ := v; descriptor_log_ := None; vset_io_status_ := io_status; obsolete_manifests_ := obsolete_manifests_ st;
                manifest_writers_ := manifest_writers_ st; current_manifest_ := current |}).
(** [None]: the queue is empty, a column family is not there, or an assertion fails. *)
Definition ProcessManifestWrites (E : ManifestEnv) (new_descriptor_log : bool) (new_cf_options : option ColumnFamilyOptions) (st : ManifestState) :
    option (Status * ManifestState) :=
  writer ← head (manifest_writers_ st);
  first ← head (edit_list writer);
  '(s, n, b, ws) ← make_batch st writer;
  if negb (status_ok s) then Some (s, st)
  else
    let new_descriptor_log := new_descriptor_log || negb (bool_decide (is_Some (descriptor_log_ st))) || (manifest_file_size_ (vset_ st) >? max_manifest_file_size E) in
    if new_descriptor_log && bool_decide (batch_edits b = []) then None
    else
      '(s, st) ← commit_batch E new_descriptor_log new_cf_options writer first b ws st;
      Some (s, pop_writers n st).

(** ** Logging and applying edits *)

(** The writers join the queue. *)
Definition enqueue (writers : list ManifestWriter) (st : ManifestState) : ManifestState :=
  {| vset_ := vset_ st; descriptor_log_ := descriptor_log_ st; vset_io_status_ := vset_io_status_ st; obsolete_manifests_ := obsolete_manifests_ st;
     manifest_writers_ := manifest_writers_ st ++ writers; current_manifest_ := current_manifest_ st |}.
(** The first of the [n] writers of a call is at the front of the queue. *)
Definition LogAndApply (E : ManifestEnv) (new_descriptor_log : bool) (new_cf_options : option ColumnFamilyOptions) (n : nat) (st : ManifestState) :
    option (Status * ManifestState) :=
  if forallb (IsDropped (vset_ st)) (take n (manifest_writers_ st)) then Some (Status_ColumnFamilyDropped, pop_writers n st)
  else ProcessManifestWrites E new_descriptor_log new_cf_options st.
End Write.
Arguments ManifestEnv : clear implicits.
Arguments ManifestState : clear implicits.
