(* ===== verification/VersionEditHandler.v ===== *)
(** db/version_edit_handler.{h,cc}, db/version_set.cc (Recover, TryRecoverFromOneManifest): the column families and their
    versions that the edits of a MANIFEST lead to, and the recovery of a point in time at which no file is missing. *)

From stdpp Require Import gmap.
From Stdlib Require Import String.
From S2P Require Import Prelude Algorithms Coding Comparator DbFormat Status UdtUtil VersionEdit VersionStorage VersionBuilder LogReader Manifest VersionSet.

Open Scope record_scope.

Definition kPersistentStatsColumnFamilyName : bytes := list_byte_of_string "___rocksdb_stats_history___".
Definition IsPathNotFound (s : Status) : bool :=
  match code_ s with kIOError | kNotFound => bool_decide (subcode_ s = kPathNotFound) | _ => false end.
Definition IsCorruption (s : Status) : bool := bool_decide (code_ s = kCorruption).

(** The arguments of the handlers. [point_in_time_] tells a [VersionEditHandlerPointInTime], whose methods override those of
    [VersionEditHandler]. *)
Record HandlerOptions := {
  point_in_time_ : bool;
  read_only_ : bool;
  column_families_ : list (bytes * ColumnFamilyOptions);
  handler_tracks_files_ : bool;
  no_error_if_files_missing_ : bool;
  skip_load_table_files_ : bool;
  handler_allows_incomplete_ : bool;
  handler_requirement_ : EpochNumberRequirement;
  paranoid_checks_ : bool;
}.
(** The files: what opening the tables of a builder gives, whether a table file and a blob file of a column family can be read. *)
Record HandlerFiles := {
  LoadTableHandlers : Z -> Rep -> Status;
  VerifyFileMetadata : Z -> Z -> FileMetaData -> Status;
  GetBlobFileReader : Z -> Z -> Status;
}.
Record VersionEditHandler := {
  version_set_ : VersionSet;
  builders_ : gmap Z VersionBuilder;
  do_not_open_column_families_ : gmap Z bytes;
  version_edit_params_ : VersionEdit;
  initialized_ : bool;
  cfds_to_mark_no_udt_ : gset Z;
  versions_ : gmap Z VersionStorageInfo;
  atomic_update_versions_ : gmap Z (option VersionStorageInfo);
  atomic_update_versions_missing_ : Z;
  in_atomic_group_ : bool;
}.
#[global] Instance VersionEditHandler_rebuild : Rebuild VersionEditHandler := fun h =>
  {| version_set_ := version_set_ h; builders_ := builders_ h; do_not_open_column_families_ := do_not_open_column_families_ h;
     version_edit_params_ := version_edit_params_ h; initialized_ := initialized_ h; cfds_to_mark_no_udt_ := cfds_to_mark_no_udt_ h;
     versions_ := versions_ h; atomic_update_versions_ := atomic_update_versions_ h;
     atomic_update_versions_missing_ := atomic_update_versions_missing_ h; in_atomic_group_ := in_atomic_group_ h |}.
Definition NewVersionEditHandler (v : VersionSet) : VersionEditHandler :=
  {| version_set_ := v; builders_ := ∅; do_not_open_column_families_ := ∅; version_edit_params_ := NewVersionEdit; initialized_ := false;
     cfds_to_mark_no_udt_ := ∅; versions_ := ∅; atomic_update_versions_ := ∅; atomic_update_versions_missing_ := 0; in_atomic_group_ := false |}.

(** * Bounds of files without timestamps *)

Definition pad_file_boundaries (ts_sz : Z) (f : FileMetaData) : FileMetaData :=
  f <| smallest := PadInternalKeyWithMinTimestamp [] (smallest f) ts_sz |>
    <| largest := if ExtractInternalKeyFooter (largest f) =? kRangeTombstoneSentinel
                  then PadInternalKeyWithMaxTimestamp [] (largest f) ts_sz else PadInternalKeyWithMinTimestamp [] (largest f) ts_sz |>.
(** [need_handling]: a file before was handled. *)
Fixpoint handle_file_boundaries (mark : bool) (ts_sz : Z) (need_handling : bool) (new_files : list (Z * FileMetaData)) :
    Status * list (Z * FileMetaData) :=
  match new_files with
  | [] => (Status_OK, [])
  | (level, f) :: rest =>
      if user_defined_timestamps_persisted f && negb mark then
        (if need_handling then Status_Corruption else Status_OK, new_files)
      else
        let f := pad_file_boundaries ts_sz (if mark then f <| user_defined_timestamps_persisted := false |> else f) in
        let '(s, rest) := handle_file_boundaries mark ts_sz true rest in (s, (level, f) :: rest)
  end.
Definition MaybeHandleFileBoundariesForNewFiles (edit : VersionEdit) (c : ColumnFamilyData) (h : VersionEditHandler) : Status * VersionEdit :=
  if bool_decide (new_files_ edit = []) then (Status_OK, edit)
  else if cfd_ts_sz c =? 0 then (Status_OK, edit)
  else
    let '(s, files) := handle_file_boundaries (bool_decide (id_ c ∈ cfds_to_mark_no_udt_ h)) (cfd_ts_sz c) false (new_files_ edit) in
    (s, edit <| new_files_ := files |>).

(** * What an edit says about the database *)

Definition set_params (f : VersionEdit -> VersionEdit) (h : VersionEditHandler) : VersionEditHandler :=
  h <| version_edit_params_ := f (version_edit_params_ h) |>.
Definition set_version_set (f : VersionSet -> VersionSet) (h : VersionEditHandler) : VersionEditHandler :=
  h <| version_set_ := f (version_set_ h) |>.
Definition extract_log_number (c : ColumnFamilyData) (edit : VersionEdit) (h : VersionEditHandler) : VersionEditHandler :=
  match log_number_ edit with
  | Some n =>
      if cfd_log_number_ c >? n then h
      else set_params (fun p => p <| log_number_ := Some n |>) (set_version_set (alter_cfd (id_ c) (fun c => c <| cfd_log_number_ := n |>)) h)
  | None => h
  end.
Definition extract_comparator (c : ColumnFamilyData) (edit : VersionEdit) (h : VersionEditHandler) : Status * VersionEditHandler :=
  match comparator_ edit with
  | Some name =>
      let '(s, mark) := ValidateUserDefinedTimestampsOptions (comparator_name (options_ c)) (cfd_ts_sz c) name
                          (persist_user_defined_timestamps (options_ c)) (default true (persist_user_defined_timestamps_ edit)) in
      (s, if mark then h <| cfds_to_mark_no_udt_ := {[id_ c]} ∪ cfds_to_mark_no_udt_ h |> else h)
  | None => (Status_OK, h)
  end.
Definition extract_params (edit : VersionEdit) (p : VersionEdit) : VersionEdit :=
  let p := if prev_log_number_ edit is Some n then p <| prev_log_number_ := Some n |> else p in
  let p := if next_file_number_ edit is Some n then p <| next_file_number_ := Some n |> else p in
  let p := if max_column_family_ edit is Some n then p <| max_column_family_ := Some n |> else p in
  let p := if min_log_number_to_keep_ edit is Some n
           then p <| min_log_number_to_keep_ := Some (Z.max (default 0 (min_log_number_to_keep_ p)) n) |> else p in
  let p := if last_sequence_ edit is Some n then p <| last_sequence_ := Some n |> else p in
  if prev_log_number_ p is Some _ then p else p <| prev_log_number_ := Some 0 |>.
Definition ExtractInfoFromVersionEdit (cfd : option Z) (edit : VersionEdit) (h : VersionEditHandler) : option (Status * VersionEditHandler) :=
  let h := if db_id_ edit is Some db_id
           then set_params (fun p => p <| db_id_ := Some db_id |>) (set_version_set (fun v => v <| vset_db_id_ := db_id |>) h) else h in
  '(s, h) ← match cfd with
            | None => Some (Status_OK, h)
            | Some cf =>
                c ← GetColumnFamily cf (version_set_ h);
                let h := extract_log_number c edit h in
                let '(s, h) := extract_comparator c edit h in
                let h := if bool_decide (full_history_ts_low_ edit = []) then h
                         else set_version_set (alter_cfd cf (SetFullHistoryTsLow (full_history_ts_low_ edit))) h in
                Some (s, h)
            end;
  Some (s, if status_ok s then set_params (extract_params edit) h else h).

Section Handler.
Context (O : HandlerOptions) (files : HandlerFiles).

(** * Column families *)

Definition name_to_options (name : bytes) : option ColumnFamilyOptions :=
  snd <$> find (fun x => bool_decide (x.1 = name)) (column_families_ O).
Definition new_builder (v : VersionStorageInfo) : VersionBuilder :=
  {| rep_ := NewRep v (handler_tracks_files_ O) (handler_allows_incomplete_ O); savepoint_ := None |}.
Definition CreateCfAndInit (cf_options : ColumnFamilyOptions) (edit : VersionEdit) (h : VersionEditHandler) : option VersionEditHandler :=
  let cf := column_family_ edit in
  let h := set_version_set (CreateColumnFamily cf_options edit) h in
  c ← GetColumnFamily cf (version_set_ h);
  Some (h <| builders_ := <[cf := new_builder (current_ c)]> (builders_ h) |>).
Definition CheckColumnFamilyId (edit : VersionEdit) (h : VersionEditHandler) : bool * bool :=
  (bool_decide (is_Some (do_not_open_column_families_ h !! column_family_ edit)), bool_decide (is_Some (builders_ h !! column_family_ edit))).
Definition Handler_Initialize (h : VersionEditHandler) : option (Status * VersionEditHandler) :=
  if initialized_ h then Some (Status_OK, h)
  else
    match name_to_options kDefaultColumnFamilyName with
    | None => Some (Status_InvalidArgument, h)
    | Some o =>
        h ← CreateCfAndInit o (NewVersionEdit <| is_column_family_add_ := true |> <| column_family_name_ := kDefaultColumnFamilyName |>) h;
        Some (Status_OK, h <| initialized_ := true |>)
    end.
Definition OnColumnFamilyAdd (edit : VersionEdit) (h : VersionEditHandler) : option (Status * option Z * VersionEditHandler) :=
  let '(do_not_open_cf, cf_in_builders) := CheckColumnFamilyId edit h in
  let cf_name := column_family_name_ edit in
  if cf_in_builders || do_not_open_cf then Some (Status_Corruption, None, h)
  else
    let is_persistent_stats_column_family := bool_decide (cf_name = kPersistentStatsColumnFamilyName) in
    match name_to_options cf_name, is_persistent_stats_column_family with
    | None, false =>
        Some (Status_OK, None, h <| do_not_open_column_families_ := <[column_family_ edit := cf_name]> (do_not_open_column_families_ h) |>)
    | _, true => h ← CreateCfAndInit DefaultColumnFamilyOptions edit h; Some (Status_OK, Some (column_family_ edit), h)
    | Some o, false => h ← CreateCfAndInit o edit h; Some (Status_OK, Some (column_family_ edit), h)
    end.

(** * Versions of a point in time *)

(** The column families of an atomic group get their versions together. *)
Definition AtomicUpdateVersionsCompleted (h : VersionEditHandler) : bool := atomic_update_versions_missing_ h =? 0.
Definition AtomicUpdateVersionsContains (cfid : Z) (h : VersionEditHandler) : bool := bool_decide (is_Some (atomic_update_versions_ h !! cfid)).
Definition AtomicUpdateVersionsDropCf (cfid : Z) (h : VersionEditHandler) : VersionEditHandler :=
  let missing := if atomic_update_versions_ h !! cfid is Some None then u64 (atomic_update_versions_missing_ h - 1) else atomic_update_versions_missing_ h in
  h <| atomic_update_versions_missing_ := missing |> <| atomic_update_versions_ := delete cfid (atomic_update_versions_ h) |>.
Definition AtomicUpdateVersionsPut (cfid : Z) (version : VersionStorageInfo) (h : VersionEditHandler) : VersionEditHandler :=
  let missing := if atomic_update_versions_ h !! cfid is Some None then u64 (atomic_update_versions_missing_ h - 1) else atomic_update_versions_missing_ h in
  h <| atomic_update_versions_missing_ := missing |> <| atomic_update_versions_ := <[cfid := Some version]> (atomic_update_versions_ h) |>.
Definition apply_atomic_version (h : option VersionEditHandler) (x : Z * option VersionStorageInfo) : option VersionEditHandler :=
  h ← h; version ← x.2; c ← GetColumnFamily x.1 (version_set_ h);
  Some (h <| versions_ := <[x.1 := PrepareAppend (options_ c) version]> (versions_ h) |>).
Definition AtomicUpdateVersionsApply (h : VersionEditHandler) : option VersionEditHandler :=
  h ← fold_left apply_atomic_version (map_to_list (atomic_update_versions_ h)) (Some h);
  Some (h <| atomic_update_versions_ := ∅ |>).

Definition DestroyCfAndCleanup (edit : VersionEdit) (h : VersionEditHandler) : option VersionEditHandler :=
  let cf_id := column_family_ edit in
  let h := set_version_set (DropColumnFamily cf_id) (h <| builders_ := delete cf_id (builders_ h) |>) in
  if point_in_time_ O then
    h ← if AtomicUpdateVersionsContains cf_id h then
          let h := AtomicUpdateVersionsDropCf cf_id h in
          if AtomicUpdateVersionsCompleted h then AtomicUpdateVersionsApply h else Some h
        else Some h;
    Some (h <| versions_ := delete cf_id (versions_ h) |>)
  else Some h.
Definition OnColumnFamilyDrop (edit : VersionEdit) (h : VersionEditHandler) : option (Status * option Z * VersionEditHandler) :=
  let '(do_not_open_cf, cf_in_builders) := CheckColumnFamilyId edit h in
  if cf_in_builders then h ← DestroyCfAndCleanup edit h; Some (Status_OK, None, h)
  else if do_not_open_cf then
    Some (Status_OK, None, h <| do_not_open_column_families_ := delete (column_family_ edit) (do_not_open_column_families_ h) |>)
  else Some (Status_Corruption, None, h).

(** * Making a version *)

Definition set_builder (cf : Z) (b : VersionBuilder) (h : VersionEditHandler) : VersionEditHandler := h <| builders_ := <[cf := b]> (builders_ h) |>.
Definition Builder_Apply (c : ColumnFamilyData) (edit : VersionEdit) (b : VersionBuilder) : option (Status * VersionBuilder) :=
  let verify_file := if point_in_time_ O then VerifyFileMetadata files (id_ c) else fun _ _ => Status_OK in
  let verify_blob_file := if point_in_time_ O then GetBlobFileReader files (id_ c) else fun _ => Status_OK in
  '(s, r) ← Apply (C := comparator (options_ c)) verify_file verify_blob_file edit (rep_ b);
  Some (s, {| rep_ := r; savepoint_ := savepoint_ b |}).
(** [VersionEditHandler::MaybeCreateVersionBeforeApplyEdit] *)
Definition create_version (edit : VersionEdit) (c : ColumnFamilyData) (force_create_version : bool) (h : VersionEditHandler) :
    option (Status * VersionEditHandler) :=
  b ← builders_ h !! id_ c;
  let h := if force_create_version then
             let '(s, w) := SaveTo (C := comparator (options_ c)) (rep_ b) (NewVersion c (handler_requirement_ O)) in
             if status_ok s then set_version_set (AppendVersion (id_ c) (PrepareAppend (options_ c) w)) h else h
           else h in
  '(s, b) ← Builder_Apply c edit b;
  Some (s, set_builder (id_ c) b h).
Definition LoadSavePointTableHandlers (cf : Z) (b : VersionBuilder) : Status * VersionBuilder :=
  match savepoint_ b with
  | None => (Status_InvalidArgument, b)
  | Some r =>
      let '(valid, r) := ValidVersionAvailable r in
      (if valid then LoadTableHandlers files cf r else Status_InvalidArgument, {| rep_ := rep_ b; savepoint_ := Some r |})
  end.
Definition MissingInfo (p : VersionEdit) : bool :=
  negb (bool_decide (is_Some (log_number_ p))) || negb (bool_decide (is_Some (next_file_number_ p))) || negb (bool_decide (is_Some (last_sequence_ p))).
(** A version of a point in time is kept. *)
Definition keep_version (c : ColumnFamilyData) (version : VersionStorageInfo) (h : VersionEditHandler) : option VersionEditHandler :=
  if AtomicUpdateVersionsContains (id_ c) h then
    let h := AtomicUpdateVersionsPut (id_ c) version h in
    if AtomicUpdateVersionsCompleted h then AtomicUpdateVersionsApply h else Some h
  else Some (h <| versions_ := <[id_ c := PrepareAppend (options_ c) version]> (versions_ h) |>).
(** [VersionEditHandlerPointInTime::MaybeCreateVersionBeforeApplyEdit] *)
Definition create_version_pit (edit : VersionEdit) (c : ColumnFamilyData) (force_create_version : bool) (h : VersionEditHandler) :
    option (Status * VersionEditHandler) :=
  let missing_info := MissingInfo (version_edit_params_ h) in
  b ← builders_ h !! id_ c;
  let '(valid_pit_before_edit, r) := ValidVersionAvailable (rep_ b) in
  let b := CreateOrReplaceSavePoint {| rep_ := r; savepoint_ := savepoint_ b |} in
  '(s, b) ← Builder_Apply c edit b;
  let '(valid_pit_after_edit, r) := ValidVersionAvailable (rep_ b) in
  let b := {| rep_ := r; savepoint_ := savepoint_ b |} in
  if status_ok s && negb missing_info && negb (in_atomic_group_ h) &&
     ((negb valid_pit_after_edit && valid_pit_before_edit) || (valid_pit_after_edit && force_create_version)) then
    let '(s, b) := LoadSavePointTableHandlers (id_ c) b in
    if negb (status_ok s) then Some (if IsCorruption s then Status_OK else s, set_builder (id_ c) b h)
    else
      let '(s, version, b) := SaveSavePointTo (C := comparator (options_ c)) b (NewVersion c (handler_requirement_ O)) in
      h ← if status_ok s then keep_version c version h else Some h;
      Some (s, set_builder (id_ c) (ClearSavePoint b) h)
  else Some (s, set_builder (id_ c) (ClearSavePoint b) h).
Definition MaybeCreateVersionBeforeApplyEdit (edit : VersionEdit) (c : ColumnFamilyData) (force_create_version : bool) (h : VersionEditHandler) :
    option (Status * VersionEditHandler) :=
  if point_in_time_ O then create_version_pit edit c force_create_version h else create_version edit c force_create_version h.

(** * Applying an edit *)

Definition OnNonCfOperation (edit : VersionEdit) (h : VersionEditHandler) : option (Status * option Z * VersionEditHandler) :=
  let '(do_not_open_cf, cf_in_builders) := CheckColumnFamilyId edit h in
  if do_not_open_cf then Some (Status_OK, None, h)
  else if negb cf_in_builders then Some (Status_Corruption, None, h)
  else
    c ← GetColumnFamily (column_family_ edit) (version_set_ h);
    let '(s, edit) := MaybeHandleFileBoundariesForNewFiles edit c h in
    if negb (status_ok s) then Some (s, None, h)
    else '(s, h) ← MaybeCreateVersionBeforeApplyEdit edit c false h; Some (s, Some (column_family_ edit), h).
Definition OnWalAddition (edit : VersionEdit) (h : VersionEditHandler) : Status * VersionEditHandler :=
  let '(s, w) := WalSet_AddWals (wal_additions_ edit) (wal_set_ (version_set_ h)) in (s, set_version_set (fun v => v <| wal_set_ := w |>) h).
Definition OnWalDeletion (edit : VersionEdit) (h : VersionEditHandler) : Status * VersionEditHandler :=
  let '(s, w) := WalSet_DeleteWalsBefore (wal_deletion_ edit) (wal_set_ (version_set_ h)) in (s, set_version_set (fun v => v <| wal_set_ := w |>) h).
Definition Handler_ApplyVersionEdit (edit : VersionEdit) (cfd : option Z) (h : VersionEditHandler) : option (Status * option Z * VersionEditHandler) :=
  '(s, cfd, h) ← if is_column_family_add_ edit then OnColumnFamilyAdd edit h
                 else if is_column_family_drop_ edit then OnColumnFamilyDrop edit h
                 else if negb (bool_decide (wal_additions_ edit = [])) then let '(s, h) := OnWalAddition edit h in Some (s, cfd, h)
                 else if negb (wal_deletion_ edit =? 0) then let '(s, h) := OnWalDeletion edit h in Some (s, cfd, h)
                 else OnNonCfOperation edit h;
  if status_ok s then '(s, h) ← ExtractInfoFromVersionEdit cfd edit h; Some (s, cfd, h) else Some (s, cfd, h).

(** * The end of the MANIFEST *)

(** A loop over the column families that ends with the first failure. *)
Fixpoint each_cfd (f : ColumnFamilyData -> VersionEditHandler -> option (Status * VersionEditHandler)) (cfds : list ColumnFamilyData) (h : VersionEditHandler) :
    option (Status * VersionEditHandler) :=
  match cfds with
  | [] => Some (Status_OK, h)
  | c :: cfds => '(s, h) ← f c h; if status_ok s then each_cfd f cfds h else Some (s, h)
  end.
Definition LoadTables (c : ColumnFamilyData) (h : VersionEditHandler) : option Status :=
  if point_in_time_ O || skip_load_table_files_ O then Some Status_OK
  else
    b ← builders_ h !! id_ c;
    let s := LoadTableHandlers files (id_ c) (rep_ b) in
    let s := if (IsPathNotFound s || IsCorruption s) && no_error_if_files_missing_ O then Status_OK else s in
    Some (if negb (status_ok s) && negb (paranoid_checks_ O) then Status_OK else s).
Definition check_params (p : VersionEdit) : Status := if MissingInfo p then Status_Corruption else Status_OK.
Definition check_num_levels (c : ColumnFamilyData) (h : VersionEditHandler) : option (Status * VersionEditHandler) :=
  b ← builders_ h !! id_ c;
  Some (if CheckConsistencyForNumLevels (rep_ b) then Status_OK else Status_InvalidArgument, h).
Definition load_cfd_tables (c : ColumnFamilyData) (h : VersionEditHandler) : option (Status * VersionEditHandler) :=
  s ← LoadTables c h; Some (if status_ok s then s else if IsPathNotFound s then Status_Corruption else s, h).
Definition mark_numbers (p : VersionEdit) (v : VersionSet) : VersionSet :=
  MarkFileNumberUsed (default 0 (log_number_ p)) (MarkFileNumberUsed (default 0 (prev_log_number_ p))
    (MarkMinLogNumberToKeep (default 0 (min_log_number_to_keep_ p)) (UpdateMaxColumnFamily (default 0 (max_column_family_ p)) v))).
Definition set_counters (read_offset : Z) (p : VersionEdit) (v : VersionSet) : VersionSet :=
  let last_seq := default 0 (last_sequence_ p) in
  let raise x := if negb (last_seq =? kMaxSequenceNumber) && (last_seq >? x) then last_seq else x in
  v <| manifest_file_size_ := read_offset |> <| vset_next_file_number_ := u64 (default 0 (next_file_number_ p) + 1) |>
    <| last_allocated_sequence_ := raise (last_allocated_sequence_ v) |> <| last_published_sequence_ := raise (last_published_sequence_ v) |>
    <| vset_last_sequence_ := raise (vset_last_sequence_ v) |> <| descriptor_last_sequence_ := raise (descriptor_last_sequence_ v) |>
    <| vset_prev_log_number_ := default 0 (prev_log_number_ p) |>.
Definition and_then_h (m : option (Status * VersionEditHandler)) (k : VersionEditHandler -> option (Status * VersionEditHandler)) :
    option (Status * VersionEditHandler) :=
  '(s, h) ← m; if status_ok s then k h else Some (s, h).
Definition cfds (h : VersionEditHandler) : list ColumnFamilyData := column_family_set_ (version_set_ h).
(** [VersionEditHandler::CheckIterationResult] *)
Definition check_result (read_offset : Z) (s : Status) (h : VersionEditHandler) : option (Status * VersionEditHandler) :=
  if negb (status_ok s) then Some (s, h)
  else
    and_then_h (Some (check_params (version_edit_params_ h), h)) (fun h =>
    and_then_h (Some (if negb (read_only_ O) && negb (bool_decide (do_not_open_column_families_ h = ∅)) then Status_InvalidArgument else Status_OK, h)) (fun h =>
    let h := set_version_set (mark_numbers (version_edit_params_ h)) h in
    and_then_h (each_cfd check_num_levels (cfds h) h) (fun h =>
    and_then_h (each_cfd load_cfd_tables (cfds h) h) (fun h =>
    and_then_h (each_cfd (fun c => MaybeCreateVersionBeforeApplyEdit NewVersionEdit c true) (cfds h) h) (fun h =>
    Some (Status_OK, set_version_set (set_counters read_offset (version_edit_params_ h)) h)))))).
(** The versions of a point in time become the current ones. *)
Definition install_version (h : VersionEditHandler) (c : ColumnFamilyData) : VersionEditHandler :=
  match versions_ h !! id_ c with
  | None => h
  | Some w =>
      set_version_set (AppendVersion (id_ c) w)
        (h <| versions_ := delete (id_ c) (versions_ h) |>
           <| builders_ := alter (fun b => {| rep_ := ClearFoundFiles (rep_ b); savepoint_ := savepoint_ b |}) (id_ c) (builders_ h) |>)
  end.
Definition Handler_CheckIterationResult (read_offset : Z) (s : Status) (h : VersionEditHandler) : option (Status * VersionEditHandler) :=
  '(s, h) ← check_result read_offset s h;
  Some (s, if point_in_time_ O then if status_ok s then fold_left install_version (cfds h) h else h <| versions_ := ∅ |> else h).

(** * Atomic groups of a point in time *)

Definition Handler_OnAtomicGroupReplayBegin (h : VersionEditHandler) : option (Status * VersionEditHandler) :=
  if negb (point_in_time_ O) then Some (Status_OK, h)
  else if in_atomic_group_ h then Some (Status_Corruption, h)
  else
    cs ← mapM (fun x => GetColumnFamily x.1 (version_set_ h)) (map_to_list (builders_ h));
    and_then_h (each_cfd (fun c => MaybeCreateVersionBeforeApplyEdit NewVersionEdit c true) cs h) (fun h =>
    Some (Status_OK, h <| in_atomic_group_ := true |> <| atomic_update_versions_ := (fun _ => None) <$> builders_ h |>
                       <| atomic_update_versions_missing_ := Z.of_nat (size (builders_ h)) |>)).
Definition Handler_OnAtomicGroupReplayEnd (h : VersionEditHandler) : Status * VersionEditHandler :=
  if negb (point_in_time_ O) then (Status_OK, h)
  else if negb (in_atomic_group_ h) then (Status_Corruption, h)
  else
    let h := h <| in_atomic_group_ := false |> in
    if bool_decide (dom (builders_ h) = dom (atomic_update_versions_ h)) then (Status_OK, h) else (Status_Corruption, h).

#[export] Instance Handler_ops : VersionEditHandlerOps VersionEditHandler := {|
  Initialize := Handler_Initialize;
  ApplyVersionEdit := Handler_ApplyVersionEdit;
  OnAtomicGroupReplayBegin := Handler_OnAtomicGroupReplayBegin;
  OnAtomicGroupReplayEnd := Handler_OnAtomicGroupReplayEnd;
  CheckIterationResult := Handler_CheckIterationResult;
|}.
Definition Handler_HasMissingFiles (h : VersionEditHandler) : bool := existsb (fun x => HasMissingFiles (rep_ x.2)) (map_to_list (builders_ h)).
End Handler.

(** * Recovery *)

Section Recover.
Context {F : Type} {SF : SequentialFileReader F} (files : HandlerFiles).

Definition RecoverOptions (read_only : bool) (column_families : list (bytes * ColumnFamilyOptions)) (no_error_if_files_missing paranoid_checks : bool) :
    HandlerOptions :=
  {| point_in_time_ := false; read_only_ := read_only; column_families_ := column_families; handler_tracks_files_ := false;
     no_error_if_files_missing_ := no_error_if_files_missing; skip_load_table_files_ := false; handler_allows_incomplete_ := false;
     handler_requirement_ := kMightMissing; paranoid_checks_ := paranoid_checks |}.
(** From the MANIFEST that CURRENT points to, which is open. *)
Definition Recover (n fuel : nat) (O : HandlerOptions) (allow_ingest_behind : bool) (manifest : F) (v : VersionSet) :
    option (Status * option bytes * VersionSet) :=
  '(r, _, x) ← Iterate (HO := Handler_ops O files) n fuel None (MakeReader manifest true 0)
     {| handler := NewVersionEditHandler v; read_buffer_ := NewAtomicGroupReadBuffer; handler_status_ := Status_OK |};
  let v := version_set_ (handler x) in
  if status_ok (handler_status_ x) then
    Some (handler_status_ x, db_id_ (version_edit_params_ (handler x)),
      (VersionSet_RecoverEpochNumbers allow_ingest_behind v) <| manifest_file_size_ := end_of_buffer_offset_ (input_ r) |>)
  else Some (handler_status_ x, None, v).

Definition TryRecoverOptions (read_only : bool) (column_families : list (bytes * ColumnFamilyOptions)) (paranoid_checks : bool) : HandlerOptions :=
  {| point_in_time_ := true; read_only_ := read_only; column_families_ := column_families; handler_tracks_files_ := true;
     no_error_if_files_missing_ := true; skip_load_table_files_ := false; handler_allows_incomplete_ := true;
     handler_requirement_ := kMightMissing; paranoid_checks_ := paranoid_checks |}.
(** The status, the identity of the database, whether files are missing. *)
Definition TryRecoverFromOneManifest (n fuel : nat) (O : HandlerOptions) (allow_ingest_behind : bool) (manifest : F) (v : VersionSet) :
    option (Status * option bytes * bool * VersionSet) :=
  '(_, _, x) ← Iterate (HO := Handler_ops O files) n fuel None (MakeReader manifest true 0)
     {| handler := NewVersionEditHandler v; read_buffer_ := NewAtomicGroupReadBuffer; handler_status_ := Status_OK |};
  let h := handler x in
  Some (handler_status_ x, db_id_ (version_edit_params_ h), Handler_HasMissingFiles h,
    if status_ok (handler_status_ x) then VersionSet_RecoverEpochNumbers allow_ingest_behind (version_set_ h) else version_set_ h).

(** The MANIFESTs of the directory, each with what opening it gives. The identity that an attempt found stays when it fails. *)
Fixpoint try_manifests (n fuel : nat) (O : HandlerOptions) (allow_ingest_behind : bool) (manifests : list (Z * (Status + F)))
    (db_id : option bytes) (has_missing_table_file : bool) (v : VersionSet) : option (Status * option bytes * bool * VersionSet) :=
  match manifests with
  | [] => None
  | (number, manifest) :: rest =>
      let v := v <| manifest_file_number_ := number |> in
      '(s, db_id, has_missing_table_file, v) ←
        match manifest with
        | inl s => Some (s, db_id, has_missing_table_file, v)
        | inr manifest =>
            '(s, found, missing, v) ← TryRecoverFromOneManifest n fuel O allow_ingest_behind manifest v;
            Some (s, if found is Some _ then found else db_id, missing, v)
        end;
      match rest with
      | [] => Some (s, db_id, has_missing_table_file, v)
      | _ => if status_ok s then Some (s, db_id, has_missing_table_file, v)
             else try_manifests n fuel O allow_ingest_behind rest db_id has_missing_table_file (VersionSet_Reset v)
      end
  end.
(** The newest first. *)
Definition ManifestPicker (manifests : list (Z * (Status + F))) : list (Z * (Status + F)) := sort (fun lhs rhs => lhs.1 >? rhs.1) manifests.
Definition TryRecover (n fuel : nat) (O : HandlerOptions) (allow_ingest_behind : bool) (manifests : list (Z * (Status + F)))
    (db_id : option bytes) (has_missing_table_file : bool) (v : VersionSet) : option (Status * option bytes * bool * VersionSet) :=
  match manifests with
  | [] => Some (Status_Corruption, db_id, has_missing_table_file, v)
  | _ => try_manifests n fuel O allow_ingest_behind (ManifestPicker manifests) db_id has_missing_table_file v
  end.
End Recover.
