(* ===== verification/ManifestProofs.v ===== *)
(** Reading a MANIFEST applies the edits whose groups are complete. *)

From stdpp Require Import gmap sorting.
From S2P Require Import Prelude Algorithms Coding Status VersionEdit LogWriter LogReader LogProofs Manifest.

Open Scope record_scope.

(** * Batches of edits *)

(** An edit on its own, or an atomic group: each edit tells how many are left. *)
Definition batch_wf (es : list VersionEdit) : Prop :=
  (exists e, es = [e] /\ is_in_atomic_group_ e = false) \/
  (0 < slen es < 2 ^ 32 /\ forall i e, es !! i = Some e -> is_in_atomic_group_ e = true /\ remaining_entries_ e = slen es - 1 - Z.of_nat i).

Section Replay.
Context {H : Type} {HO : VersionEditHandlerOps H}.

(** What a handler makes of a batch. *)
Definition replay_group (es : list VersionEdit) (h : H) : option (Status * H) :=
  '(s, h) ← OnAtomicGroupReplayBegin h;
  if negb (status_ok s) then Some (s, h)
  else '(s, h) ← apply_group es None h; if negb (status_ok s) then Some (s, h) else Some (OnAtomicGroupReplayEnd h).
Definition replay_edit_batch (es : list VersionEdit) (h : H) : option (Status * H) :=
  match es with
  | [e] => if is_in_atomic_group_ e then replay_group es h else '(s, _, h) ← ApplyVersionEdit e None h; Some (s, h)
  | _ => replay_group es h
  end.
Fixpoint replay_edit_batches (bs : list (list VersionEdit)) (h : H) : option (Status * H) :=
  match bs with
  | [] => Some (Status_OK, h)
  | es :: bs => '(s, h) ← replay_edit_batch es h; if status_ok s then replay_edit_batches bs h else Some (s, h)
  end.

Definition decodes_to (record : bytes) (e : VersionEdit) : Prop := DecodeFrom NewVersionEdit record = (Status_OK, e).

(** ** The buffer *)

(** The buffer after the first [k] edits of a group. *)
Definition group_buffer (es : list VersionEdit) (k : nat) : AtomicGroupReadBuffer :=
  match k with
  | O => NewAtomicGroupReadBuffer
  | _ => {| read_edits_in_atomic_group_ := Z.of_nat k; replay_buffer_ := take k es ++ replicate (length es - k) NewVersionEdit |}
  end.
Lemma group_buffer_add es k e : 0 < slen es < 2 ^ 32 -> es !! k = Some e -> is_in_atomic_group_ e = true ->
  remaining_entries_ e = slen es - 1 - Z.of_nat k -> AddEdit e (group_buffer es k) = (Status_OK, group_buffer es (S k)).
Proof using.
  intros Hlen Ek Hg Hrem. assert (Hk := lookup_lt_Some _ _ _ Ek). unfold AddEdit. rewrite Hg, Hrem.
  set (buffer := match replay_buffer_ (group_buffer es k) with [] => _ | b => b end).
  assert (Hb : buffer = take k es ++ replicate (length es - k) NewVersionEdit).
  { unfold buffer. destruct k as [| k]; cbn [group_buffer replay_buffer_ NewAtomicGroupReadBuffer].
    - rewrite wrap_small by (unfold fits, slen in *; lia).
      rewrite take_0, app_nil_l. f_equal. unfold slen. lia.
    - destruct es; [cbn in Hk; lia | done]. }
  assert (Hl : slen buffer = slen es).
  { rewrite Hb. unfold slen. rewrite length_app, length_take, length_replicate. lia. }
  assert (Hread : u64 (read_edits_in_atomic_group_ (group_buffer es k) + 1) = Z.of_nat k + 1).
  { unfold slen in *. replace (read_edits_in_atomic_group_ (group_buffer es k)) with (Z.of_nat k) by by destruct k. apply wrap_small. unfold fits. lia. }
  rewrite Hread, Hl. rewrite !wrap_small by (unfold fits, slen in *; lia).
  destruct (Z.eqb_spec (Z.of_nat k + 1 + (slen es - 1 - Z.of_nat k)) (slen es)); [| lia]. cbn [negb]. f_equal. cbn [group_buffer]. f_equal; [lia |].
  rewrite Hb. replace (Z.to_nat (Z.of_nat k + 1 - 1)) with (length (take k es) + 0)%nat by (rewrite length_take; lia). rewrite insert_app_r.
  rewrite (take_S_r _ _ _ Ek), <- app_assoc. f_equal. replace (length es - k)%nat with (S (length es - S k)) by lia. done.
Qed.
Lemma group_buffer_full es k : (k <= length es)%nat -> (0 < k)%nat -> IsFull (group_buffer es k) = bool_decide (k = length es).
Proof using.
  intros Hk Hpos. destruct k as [| k]; [lia |]. unfold IsFull. cbn [group_buffer read_edits_in_atomic_group_ replay_buffer_]. unfold slen.
  rewrite length_app, length_take, length_replicate. case_bool_decide; [apply Z.eqb_eq | apply Z.eqb_neq]; lia.
Qed.

(** ** The records *)

(** What is left of the loop without the log. *)
Fixpoint feed (records : list bytes) (s : Status) (h : H) (b : AtomicGroupReadBuffer) : option (Status * H * AtomicGroupReadBuffer) :=
  match records with
  | [] => Some (s, h, b)
  | record :: records => if status_ok s then '(s, h, b) ← apply_record record h b; feed records s h b else Some (s, h, b)
  end.
Lemma feed_failed records s h b : status_ok s = false -> feed records s h b = Some (s, h, b).
Proof using. intros E. destruct records; [done |]. cbn [feed]. by rewrite E. Qed.
Lemma feed_app l1 l2 s h b : feed (l1 ++ l2) s h b = '(s, h, b) ← feed l1 s h b; feed l2 s h b.
Proof using.
  revert s h b. induction l1 as [| r l1 IH]; intros s h b; [done |]. cbn [feed app]. destruct (status_ok s) eqn:Es.
  - destruct (apply_record r h b) as [[[s' h'] b'] |]; [apply IH | done].
  - symmetry. by apply feed_failed.
Qed.

(** The first edits of a group are only remembered. *)
Lemma feed_partial_group es h k records : batch_wf es -> Forall2 decodes_to records (take k es) -> (k < length es)%nat ->
  feed records Status_OK h NewAtomicGroupReadBuffer = Some (Status_OK, h, group_buffer es k).
Proof using.
  intros [(e & -> & Hg) | [Hlen Hes]] Hdec Hk; cbn [length] in *.
  { destruct k; [| lia]. rewrite take_0 in Hdec. by apply list.Forall2_nil_inv_r in Hdec as ->. }
  revert records Hdec. induction k as [| k IH]; intros records Hdec.
  { rewrite take_0 in Hdec. by apply list.Forall2_nil_inv_r in Hdec as ->. }
  destruct (lookup_lt_is_Some_2 es k) as [e Ek]; [lia |]. destruct (Hes k e Ek) as [Hg Hrem].
  rewrite (take_S_r _ _ _ Ek) in Hdec. apply Forall2_app_inv_r in Hdec as (l1 & l2 & H1 & H2 & ->).
  apply Forall2_cons_inv_r in H2 as (r & l3 & Hr & H3 & ->). apply list.Forall2_nil_inv_r in H3 as ->.
  rewrite feed_app, (IH ltac:(lia) l1 H1). cbn [mbind option_bind feed status_ok Status_OK]. unfold apply_record. rewrite Hr. cbn [status_ok negb Status_OK].
  rewrite (group_buffer_add es k e) by done. cbn [status_ok negb Status_OK]. rewrite Hg, group_buffer_full by lia.
  by rewrite bool_decide_eq_false_2 by lia.
Qed.
Lemma feed_batch es h s h' records : batch_wf es -> Forall2 decodes_to records es -> replay_edit_batch es h = Some (s, h') ->
  exists b, feed records Status_OK h NewAtomicGroupReadBuffer = Some (s, h', b) /\ (status_ok s = true -> b = NewAtomicGroupReadBuffer).
Proof using.
  intros Hwf Hdec Hrep. assert (Hwf' := Hwf). destruct Hwf' as [(e & -> & Hg) | [Hlen Hes]].
  { apply Forall2_cons_inv_r in Hdec as (r & l & Hr & Hl & ->). apply list.Forall2_nil_inv_r in Hl as ->. cbn in Hrep. rewrite Hg in Hrep.
    cbn [feed status_ok Status_OK]. unfold apply_record. rewrite Hr. unfold AddEdit. rewrite Hg. cbn [replay_buffer_ NewAtomicGroupReadBuffer status_ok negb Status_OK]. rewrite ?Hg.
    destruct (ApplyVersionEdit e None h) as [[[s1 c] h1] |]; [| done]. cbn in Hrep |- *. simplify_eq. by eexists. }
  destruct (exists_last (l := es)) as (es0 & e & ->); [intros ->; unfold slen in *; cbn in *; lia |].
  assert (Hgrp : replay_group (es0 ++ [e]) h = Some (s, h')).
  { destruct (Hes (length es0) e) as [Hg _]; [by rewrite lookup_app_r, Nat.sub_diag by lia |].
    destruct es0 as [| e0 [|]]; cbn in Hrep |- *; by rewrite ?Hg in Hrep. }
  assert (Hk : (length es0 < length (es0 ++ [e]))%nat) by (rewrite length_app; cbn; lia).
  apply Forall2_app_inv_r in Hdec as (l1 & l2 & H1 & H2 & ->). apply Forall2_cons_inv_r in H2 as (r & l3 & Hr & H3 & ->). apply list.Forall2_nil_inv_r in H3 as ->.
  rewrite feed_app, (feed_partial_group (es0 ++ [e]) h (length es0) l1) by (rewrite ?take_app_length; done). cbn [mbind option_bind feed status_ok Status_OK].
  destruct (Hes (length es0) e) as [Hg Hrem]; [by rewrite lookup_app_r, Nat.sub_diag by lia |].
  unfold apply_record. rewrite Hr. cbn [status_ok negb Status_OK].
  rewrite (group_buffer_add _ _ e) by (try done; by rewrite lookup_app_r, Nat.sub_diag by lia). cbn [status_ok negb Status_OK].
  rewrite Hg, group_buffer_full by (rewrite length_app in *; cbn in *; lia). rewrite bool_decide_eq_true_2 by (rewrite length_app; cbn; lia).
  unfold replay_group in Hgrp. destruct (OnAtomicGroupReplayBegin h) as [[s1 h1] |]; [| done]. cbn [mbind option_bind] in *. destruct (status_ok s1) eqn:Es1; cbn [negb] in *.
  2: { simplify_eq. eexists. split; [done |]. by rewrite Es1. }
  assert (Hbuf : replay_buffer_ (group_buffer (es0 ++ [e]) (S (length es0))) = es0 ++ [e]).
  { cbn [group_buffer replay_buffer_]. rewrite firstn_all2 by (rewrite length_app; cbn; lia).
    replace (length (es0 ++ [e]) - S (length es0))%nat with O by (rewrite length_app; cbn; lia). by rewrite app_nil_r. }
  rewrite Hbuf. destruct (apply_group (es0 ++ [e]) None h1) as [[s2 h2] |]; [| done]. cbn in Hgrp |- *.
  destruct (status_ok s2) eqn:Es2; cbn [negb] in *; [| simplify_eq; eexists; split; [done | by rewrite Es2]].
  destruct (OnAtomicGroupReplayEnd h2) as [s3 h3]. simplify_eq. by eexists.
Qed.

(** The batches of which all edits are among the first [n]. *)
Fixpoint complete_batches (n : nat) (bs : list (list VersionEdit)) : list (list VersionEdit) :=
  match bs with
  | [] => []
  | es :: bs => if decide (length es <= n)%nat then es :: complete_batches (n - length es) bs else []
  end.
(** Both succeed, or it is the same failure. *)
Definition same_outcome (s s' : Status) : Prop := status_ok s' = status_ok s /\ (status_ok s = false -> s' = s).
Lemma feed_ok_status records s h b s' h' b' : status_ok s = true -> feed records Status_OK h b = Some (s', h', b') ->
  exists s'', feed records s h b = Some (s'', h', b') /\ same_outcome s' s''.
Proof using. intros Hs. destruct records as [| r l]; cbn [feed]; [| rewrite Hs; cbn; by exists s']. intros [= <- <- <-]. by exists s. Qed.
Lemma feed_batches bs : Forall batch_wf bs -> forall n records h s h', Forall2 decodes_to records (take n (concat bs)) ->
  replay_edit_batches (complete_batches n bs) h = Some (s, h') ->
  exists s' b, feed records Status_OK h NewAtomicGroupReadBuffer = Some (s', h', b) /\ same_outcome s s'.
Proof using.
  induction 1 as [| es bs Hes Hbs IH]; intros n records h s h' Hdec Hrep; cbn [concat complete_batches] in *.
  { rewrite take_nil in Hdec. apply list.Forall2_nil_inv_r in Hdec as ->. cbn in Hrep. simplify_eq. by eexists _, _. }
  destruct (decide (length es <= n)%nat) as [Hn | Hn].
  - rewrite take_app_ge in Hdec by done. apply Forall2_app_inv_r in Hdec as (l1 & l2 & H1 & H2 & ->). cbn [replay_edit_batches] in Hrep.
    destruct (replay_edit_batch es h) as [[s1 h1] |] eqn:E1; [| done]. cbn in Hrep.
    destruct (feed_batch es h s1 h1 l1 Hes H1 E1) as (b & Eb & Hb). rewrite feed_app, Eb. cbn [mbind option_bind].
    destruct (status_ok s1) eqn:Es1; [| simplify_eq; exists s, b; split; [by apply feed_failed | done]]. rewrite Hb by done.
    destruct (IH (n - length es)%nat l2 h1 s h' H2 Hrep) as (s' & b' & E & Ho). destruct (feed_ok_status l2 s1 _ _ _ _ _ Es1 E) as (s'' & E' & Ho').
    exists s'', b'. split; [done |]. unfold same_outcome in *. destruct Ho as [Ho1 Ho2], Ho' as [Ho3 Ho4]. split; [congruence |].
    intros Hf. rewrite <- Ho2 by done. apply Ho4. congruence.
  - rewrite take_app_le in Hdec by lia. cbn in Hrep. simplify_eq. eexists Status_OK, _. split; [| done]. apply (feed_partial_group es h' n); [done.. | lia].
Qed.
End Replay.

(** * The loop over a log *)

Section Iterating.
Context {H : Type} {HO : VersionEditHandlerOps H} {F : Type} {SF : SequentialFileReader F} {SL : SequentialFileLaws F}.

Lemma iterate_feed N Q (r : Reader F) l s0 h0 b0 s h b : reads_all kTolerateCorruptedTailRecords N [] Q st0 r l ->
  (forall r, Q r -> reports_ (input_ r) = []) -> reports_ (input_ r) = [] -> feed l.*1 s0 h0 b0 = Some (s, h, b) ->
  forall n fuel, (length l < n)%nat -> (N <= fuel)%nat -> exists r', iterate_records n fuel None r Status_OK s0 h0 b0 = Some (r', Status_OK, s, h, b).
Proof using.
  intros Hall HQ. remember st0 as st eqn:Est. revert Est s0 h0 b0. induction Hall as [k st r r' Hr Hk Hq | k st r d r' l Hr Hk Hrep Hall IH];
    intros -> s0 h0 b0 Hrep0 Hfeed n fuel Hn Hfuel; (destruct n as [| n]; [lia |]); cbn [iterate_records from_option negb orb fmap list_fmap feed fst] in *;
    (destruct (status_ok s0); cbn [negb]; [| simplify_eq; by eexists]); unfold ReadRecord; fold st0; rewrite (Hr fuel) by lia; cbn [mbind option_bind].
  - simplify_eq. rewrite (HQ r' Hq), Hrep0. by eexists.
  - rewrite Hrep, Hrep0. cbn [length drop fold_left status_ok negb Status_OK]. destruct (apply_record d h0 b0) as [[[s1 h1] b1] |]; [| done].
    cbn in Hfeed |- *. apply IH; [done | done | done | cbn in Hn; lia | done].
Qed.
Lemma Iterate_feed N Q (r : Reader F) l x s0 h0 s h b : reads_all kTolerateCorruptedTailRecords N [] Q st0 r l ->
  (forall r, Q r -> reports_ (input_ r) = []) -> reports_ (input_ r) = [] -> Initialize (handler x) = Some (s0, h0) -> feed l.*1 s0 h0 (read_buffer_ x) = Some (s, h, b) ->
  forall n fuel, (length l < n)%nat -> (N <= fuel)%nat -> exists r', Iterate n fuel None r x =
    ('(s, h) ← CheckIterationResult (end_of_buffer_offset_ (input_ r')) s h;
     Some (r', Status_OK, {| handler := h; read_buffer_ := b; handler_status_ := if status_ok s then handler_status_ x else s |})).
Proof using.
  intros Hall HQ Hr Hi Hf n fuel Hn Hfuel. destruct (iterate_feed N Q r l s0 h0 (read_buffer_ x) s h b Hall HQ Hr Hf n fuel Hn Hfuel) as [r' E].
  exists r'. unfold Iterate. rewrite Hi. cbn [mbind option_bind]. rewrite E. cbn [mbind option_bind]. by rewrite andb_false_r.
Qed.
End Iterating.

(** * A MANIFEST that a crash cut *)

Lemma complete_batches_app n bs1 bs2 : complete_batches (length (concat bs1) + n) (bs1 ++ bs2) = bs1 ++ complete_batches n bs2.
Proof.
  induction bs1 as [| es bs1 IH]; cbn [concat app complete_batches]; [done |]. rewrite length_app, decide_True by lia. f_equal.
  rewrite <- IH. f_equal. lia.
Qed.
Lemma complete_batches_all bs : complete_batches (length (concat bs)) bs = bs.
Proof. pose proof (complete_batches_app 0 bs []) as H. rewrite !app_nil_r, Nat.add_0_r in H. exact H. Qed.
Lemma records_LogRecord recs : records (map LogRecord recs) = recs.
Proof. induction recs as [| r recs IH]; cbn; [done |]. by f_equal. Qed.

Section Crash.
Context {FW : Type} {W : WritableFileWriter FW} {WL : WritableFileLaws FW} {FR : Type} {S : SequentialFileReader FR} {SL : SequentialFileLaws FR}.

(** The file that is left: at least what [w1] had written, at most what [w2] had. *)
Record crashed (f : FW) (recs1 recs2 : list bytes) (w1 w2 : Writer FW) (s : IOStatus) (file : FR) : Prop := {
  cr_empty : contents f = [];
  cr_error : seen_error f = false;
  cr_write1 : write_log (MakeWriter f 0 false false) (map LogRecord recs1) = Some (IOStatus_OK, w1);
  cr_write2 : write_log w1 (map LogRecord recs2) = Some (s, w2);
  cr_synced : contents (dest_ w1) `prefix_of` remaining file;
  cr_written : remaining file `prefix_of` contents (dest_ w2);
  cr_reliable : reliable file;
}.
Lemma crashed_records f recs1 recs2 w1 w2 s file : crashed f recs1 recs2 w1 w2 s file ->
  exists k l, l.*1 = recs1 ++ take k recs2 /\ (s = IOStatus_OK -> remaining file = contents (dest_ w2) -> take k recs2 = recs2) /\
    reads_all kTolerateCorruptedTailRecords (Datatypes.S (length (remaining file))) [] (fun r' => reports_ (input_ r') = []) st0 (MakeReader file true 0) l.
Proof using WL SL.
  intros [H1 H2 H4 H5 H6 H7 H8].
  assert (Hfit : forall recs, Forall (entry_fits false) (map LogRecord recs)) by (intros recs; apply list.Forall_fmap, list.Forall_forall; done).
  destruct (crash_reads_all f 0 false false (map LogRecord recs1) (map LogRecord recs2) w1 w2 s file true kTolerateCorruptedTailRecords) as (l & [rest Hpre] & Hfull & Hall);
    [done | done | small_fits | by apply Hfit | by apply Hfit | done.. |].
  destruct (recorded_entries_ok false (map LogRecord recs1) ∅ (Hfit recs1)) as (_ & _ & Hr1).
  destruct (recorded_entries_ok false (map LogRecord recs2) (recorded_after ∅ (map LogRecord recs1)) (Hfit recs2)) as (_ & _ & Hr2).
  rewrite records_LogRecord in Hr1, Hr2. apply (f_equal (fmap fst)) in Hpre. rewrite sized_records_fst, Hr2, fmap_app in Hpre.
  exists (length l), (sized_records ∅ (recorded_entries ∅ (map LogRecord recs1)) ++ l). split.
  - rewrite fmap_app, sized_records_fst, Hr1, Hpre. f_equal. by rewrite <- (length_fmap fst l), take_app_length.
  - split.
    + intros Es Ef. rewrite Hfull in Hpre |- * by done. apply (f_equal length) in Hpre. rewrite length_app, sized_records_fst, Hr2 in Hpre.
      rewrite <- (length_fmap fst (sized_records _ _)), sized_records_fst, Hr2. by apply firstn_all.
    + eapply reads_all_weaken; [done | | exact Hall]. intros r' [[Ht _] _]. by apply Ht.
Qed.
(** Reading it replays the batches before the crash and those after that are complete. *)
Lemma crashed_replay f recs1 recs2 w1 w2 s file bs1 bs2 : crashed f recs1 recs2 w1 w2 s file -> Forall batch_wf (bs1 ++ bs2) ->
  Forall2 decodes_to recs1 (concat bs1) -> Forall2 decodes_to recs2 (concat bs2) ->
  exists k, (s = IOStatus_OK -> remaining file = contents (dest_ w2) -> complete_batches k bs2 = bs2) /\
  forall (H : Type) (HO : VersionEditHandlerOps H) (x : HandlerBase H) s0 h0 s h, read_buffer_ x = NewAtomicGroupReadBuffer -> Initialize (handler x) = Some (s0, h0) -> status_ok s0 = true ->
  replay_edit_batches (bs1 ++ complete_batches k bs2) h0 = Some (s, h) ->
  forall n fuel, (length (recs1 ++ recs2) < n)%nat -> (length (remaining file) < fuel)%nat -> exists r' s' b, same_outcome s s' /\
    Iterate n fuel None (MakeReader file true 0) x =
    ('(s, h) ← CheckIterationResult (end_of_buffer_offset_ (input_ r')) s' h;
     Some (r', Status_OK, {| handler := h; read_buffer_ := b; handler_status_ := if status_ok s then handler_status_ x else s |})).
Proof using WL SL.
  intros Hcr Hwf Hd1 Hd2. destruct (crashed_records f recs1 recs2 w1 w2 s file Hcr) as (k & l & Hl & Hfull & Hall). exists k. split.
  { intros Es Ef. specialize (Hfull Es Ef). assert (Hk : (length (concat bs2) <= k)%nat).
    { apply (f_equal length) in Hfull. rewrite length_take in Hfull. apply Forall2_length in Hd2. lia. }
    clear -Hk. revert k Hk. induction bs2 as [| es bs2 IH]; intros k Hk; cbn [complete_batches]; [done |]. cbn [concat] in Hk. rewrite length_app in Hk.
    rewrite decide_True by lia. f_equal. apply IH. lia. }
  intros H HO x s0 h0 sr h Hb Hi Hs0 Hrep n fuel Hn Hfuel. rewrite <- (complete_batches_app k) in Hrep.
  assert (Hdec : Forall2 decodes_to (recs1 ++ take k recs2) (take (length (concat bs1) + k) (concat (bs1 ++ bs2)))).
  { rewrite concat_app, take_app_add. apply Forall2_app; [done | by apply Forall2_take]. }
  destruct (feed_batches (bs1 ++ bs2) Hwf _ _ h0 sr h Hdec Hrep) as (s1 & b & Ef & Ho). destruct (feed_ok_status _ s0 _ _ _ _ _ Hs0 Ef) as (s2 & Ef2 & Ho2).
  rewrite <- Hl, <- Hb in Ef2. destruct (Iterate_feed _ _ _ _ x s0 h0 s2 h b Hall ltac:(done) ltac:(done) Hi Ef2 n fuel) as [r' E].
  - rewrite <- (length_fmap fst l), Hl, length_app, length_take. rewrite length_app in Hn. lia.
  - lia.
  - exists r', s2, b. split; [| exact E]. unfold same_outcome in *. destruct Ho as [Ho1 Ho1'], Ho2 as [Ho3 Ho3']. split; [congruence |].
    intros Hf. rewrite <- Ho1' by done. apply Ho3'. congruence.
Qed.
End Crash.
