(* ===== verification/VersionEditHandlerProofs.v ===== *)
(** The handler of a recovery keeps, for each column family, a builder that stands for the files that the edits so far leave. *)

From stdpp Require Import gmap sorting.
From S2P Require Import Prelude Algorithms Coding Comparator DbFormat Status UdtUtil VersionEdit VersionStorage VersionBuilder VersionBuilderProofs VersionSaveProofs VersionBuilderTheorems LogReader Manifest ManifestProofs VersionSet VersionEditHandler.

Open Scope record_scope.

(** * The specification: the files of each column family that is open *)

Abbreviation db := (gmap Z (option lsm)).
Section Spec.
Context (opened : bytes -> bool).

Definition db_apply (e : VersionEdit) (d : db) : option db :=
  let cf := column_family_ e in
  if is_column_family_add_ e then
    match d !! cf with Some _ => None | None => Some (<[cf := if opened (column_family_name_ e) then Some ∅ else None]> d) end
  else if is_column_family_drop_ e then
    match d !! cf with Some _ => Some (delete cf d) | None => None end
  else if negb (bool_decide (wal_additions_ e = [])) || negb (wal_deletion_ e =? 0) then Some d
  else
    match d !! cf with
    | None => None
    | Some None => Some d
    | Some (Some t) => t ← lsm_apply e t; Some (<[cf := Some t]> d)
    end.
Fixpoint db_edits (es : list VersionEdit) (d : db) : option db :=
  match es with [] => Some d | e :: es => d ← db_apply e d; db_edits es d end.
Lemma db_edits_app es1 es2 d : db_edits (es1 ++ es2) d = d ← db_edits es1 d; db_edits es2 d.
Proof using. revert d. induction es1 as [| e es1 IH]; intros d; [done |]. cbn. destruct (db_apply e d); [apply IH | done]. Qed.
Definition db_start : db := {[0 := Some ∅]}.
End Spec.

(** * The column families *)

Lemma find_cfd cs cf c : find (fun c => id_ c =? cf) cs = Some c -> c ∈ cs /\ id_ c = cf.
Proof. intros [H1 H2]%find_some. apply list_elem_of_In in H1. split; [done | lia]. Qed.
Lemma find_cfd_member cs c : NoDup (map id_ cs) -> c ∈ cs -> find (fun x => id_ x =? id_ c) cs = Some c.
Proof.
  induction cs as [| x cs IH]; intros Hn Hc; [by apply not_elem_of_nil in Hc |]. cbn. cbn [map] in Hn. apply list.NoDup_cons in Hn as [Hx Hn].
  apply elem_of_cons in Hc as [-> | Hc]; [by rewrite Z.eqb_refl |]. destruct (Z.eqb_spec (id_ x) (id_ c)) as [E |]; [| by apply IH].
  destruct Hx. rewrite E. by apply list_elem_of_fmap_2.
Qed.
Lemma find_cfd_exists cs cf : cf ∈ map id_ cs -> exists c, find (fun c => id_ c =? cf) cs = Some c.
Proof.
  intros H. apply list_elem_of_fmap in H as (c & -> & Hc). destruct (find (fun x => id_ x =? id_ c) cs) as [x |] eqn:E; [by eexists |].
  apply list_elem_of_In in Hc. apply (find_none _ _ E) in Hc. lia.
Qed.

(** The first version of a column family, as [CreateColumnFamily] makes it. *)
Definition empty_version (o : ColumnFamilyOptions) : VersionStorageInfo :=
  PrepareAppend o (NewVersionStorageInfo (num_levels o) None (force_consistency_checks o) kMustPresent).
Lemma empty_version_levels o level : LevelFiles (empty_version o) level = [].
Proof.
  unfold empty_version, LevelFiles. cbn. destruct (decide (level < num_levels o)%nat); [by rewrite lookup_replicate_2 |].
  by rewrite lookup_ge_None_2 by (rewrite length_replicate; lia).
Qed.
Lemma empty_version_consistent o : status_ok (CheckConsistency (C := comparator o) (num_levels_ (empty_version o)) (empty_version o)) = true.
Proof. rewrite empty_consistent; [done | apply empty_version_levels | done]. Qed.
Lemma empty_version_holds o : holds (empty_version o) ∅.
Proof.
  split.
  - intros level f _. rewrite empty_version_levels, lookup_empty. split; [by intros ?%not_elem_of_nil | done].
  - intros level _. rewrite empty_version_levels. constructor.
  - by intros ? ? ? ?%lookup_empty_Some.
Qed.
Lemma empty_version_located o : located (empty_version o).
Proof.
  apply (holds_located (C := comparator o) (TC := timestamps o)) with (t := ∅); [| done]. destruct (empty_version_holds o) as [H1 H2 H3]. by split.
Qed.
Lemma empty_version_files o : version_files (empty_version o) = ∅.
Proof. apply holds_version_files; [apply empty_version_located | apply empty_version_holds]. Qed.

Section Handler.
Context (O : HandlerOptions) (files : HandlerFiles) (Hpit : point_in_time_ O = false) (Htrack : handler_tracks_files_ O = false).
Context (Hts : Forall (fun x => timestamp_size (Comparator := comparator x.2) = 0) (column_families_ O)).

Definition opened (name : bytes) : bool := bool_decide (is_Some (name_to_options O name)) || bool_decide (name = kPersistentStatsColumnFamilyName).

Lemma options_plain name o : name_to_options O name = Some o -> timestamp_size (Comparator := comparator o) = 0.
Proof using Hts.
  unfold name_to_options. intros Eo. destruct (find _ _) as [[name' o'] |] eqn:Ef; [| done]. injection Eo as <-. apply find_some in Ef as [Hin _].
  apply list_elem_of_In in Hin. exact (proj1 (list.Forall_forall _ _) Hts (name', o') Hin).
Qed.

(** What a builder stands for, when there are no blob files. *)
Definition builds (v : VersionStorageInfo) (b : VersionBuilder) (t : lsm) : Prop := reps v false (rep_ b) t /\ no_blobs (rep_ b).
Definition plain_edit (e : VersionEdit) : Prop := edit_wf false (fun _ _ => Status_OK) e /\ sst_edit e.
(** A column family whose edits are being read. *)
Record cfd_ok (h : VersionEditHandler) (d : db) (c : ColumnFamilyData) : Prop := {
  co_current : current_ c = empty_version (options_ c);
  co_plain : cfd_ts_sz c = 0;
  co_builder : exists b t, builders_ h !! id_ c = Some b /\ d !! id_ c = Some (Some t) /\ builds (current_ c) b t;
}.
Record handler_ok (h : VersionEditHandler) (d : db) : Prop := {
  ho_ids : NoDup (map id_ (cfds h));
  ho_cfds : Forall (cfd_ok h d) (cfds h);
  ho_builders cf : is_Some (builders_ h !! cf) -> cf ∈ map id_ (cfds h);
  ho_skipped cf : is_Some (do_not_open_column_families_ h !! cf) <-> d !! cf = Some None;
  ho_open cf t : d !! cf = Some (Some t) -> cf ∈ map id_ (cfds h);
}.
Lemma handler_cfd h d cf : handler_ok h d -> cf ∈ map id_ (cfds h) ->
  exists c, GetColumnFamily cf (version_set_ h) = Some c /\ id_ c = cf /\ c ∈ cfds h /\ cfd_ok h d c.
Proof using.
  intros Hh Hc. destruct (find_cfd_exists _ _ Hc) as [c E]. exists c. split; [done |]. apply find_cfd in E as [Hm E]. split; [done |]. split; [done |].
  apply list.Forall_forall with (cfds h); [apply Hh | done].
Qed.
(** Where an edit finds its column family. *)
Lemma handler_where e h d : handler_ok h d -> CheckColumnFamilyId e h =
  match d !! column_family_ e with None => (false, false) | Some None => (true, false) | Some (Some _) => (false, true) end.
Proof using.
  intros Hh. unfold CheckColumnFamilyId. assert (Hs := ho_skipped h d Hh (column_family_ e)).
  assert (Hb : is_Some (builders_ h !! column_family_ e) <-> exists t, d !! column_family_ e = Some (Some t)).
  { split.
    - intros Hb. apply (ho_builders h d Hh) in Hb. destruct (handler_cfd h d _ Hh Hb) as (c & _ & <- & _ & [_ _ (b & t & _ & Et & _)]). by exists t.
    - intros (t & Et). apply (ho_open h d Hh) in Et. destruct (handler_cfd h d _ Hh Et) as (c & _ & <- & _ & [_ _ (b & t' & Eb & _)]). by eexists. }
  destruct (d !! column_family_ e) as [[t |] |]; f_equal; (apply bool_decide_eq_true || apply bool_decide_eq_false); rewrite ?Hs, ?Hb; naive_solver.
Qed.

(** ** Changes that leave the files alone *)

Definition same_cfd (c c' : ColumnFamilyData) : Prop := id_ c' = id_ c /\ options_ c' = options_ c /\ current_ c' = current_ c.
#[local] Instance same_cfd_preorder : PreOrder same_cfd.
Proof using. split; [done |]. intros x y z (? & ? & ?) (? & ? & ?). split_and!; congruence. Qed.
Definition same_families (h h' : VersionEditHandler) : Prop :=
  Forall2 same_cfd (cfds h) (cfds h') /\ builders_ h' = builders_ h /\ do_not_open_column_families_ h' = do_not_open_column_families_ h.
Lemma same_families_keep h h' : cfds h' = cfds h -> builders_ h' = builders_ h -> do_not_open_column_families_ h' = do_not_open_column_families_ h ->
  same_families h h'.
Proof using. intros E ? ?. split; [by rewrite E | done]. Qed.
Lemma same_cfds_trans h1 h2 h3 : same_families h1 h2 -> same_families h2 h3 -> same_families h1 h3.
Proof using.
  intros (H1 & E1 & E1') (H2 & E2 & E2'). split; [by transitivity (cfds h2) | split; congruence].
Qed.
Lemma same_families_ids h h' : same_families h h' -> map id_ (cfds h') = map id_ (cfds h).
Proof using. intros (H & _). induction H as [| c c' l l' (E & _) H IH]; cbn; [done |]. by rewrite E, IH. Qed.
Lemma same_families_ok h h' d : same_families h h' -> handler_ok h d -> handler_ok h' d.
Proof using.
  intros Hs Hh. assert (Hi := same_families_ids h h' Hs). destruct Hs as (H & Eb & Ed). destruct Hh as [H1 H2 H3 H4 H5].
  split; rewrite ?Hi, ?Eb, ?Ed; try done. eapply Forall2_Forall_r; [exact H |]. eapply list.Forall_impl; [exact H2 |].
  intros c [Hc Hp (b & t & Hb & Ht & Hr)] c' (E1 & E2 & E3). split; unfold cfd_ts_sz in *; [congruence | congruence |].
  exists b, t. by rewrite Eb, E1, E3.
Qed.
Lemma alter_cfd_same cf f h : (forall c, same_cfd c (f c)) -> same_families h (set_version_set (alter_cfd cf f) h).
Proof using.
  intros Hf. split; [| done]. unfold cfds. cbn. induction (column_family_set_ (version_set_ h)) as [| c l IH]; cbn; constructor; [| done].
  by destruct (_ =? _).
Qed.

Definition live (cfd : option Z) (h : VersionEditHandler) : Prop := forall cf, cfd = Some cf -> cf ∈ map id_ (cfds h).
Lemma live_same cfd h h' : same_families h h' -> live cfd h -> live cfd h'.
Proof using. intros Hs Hl cf E. rewrite (same_families_ids h h' Hs). by apply Hl. Qed.
Lemma ExtractInfo_same cfd e h : live cfd h -> exists s h', ExtractInfoFromVersionEdit cfd e h = Some (s, h') /\ same_families h h'.
Proof using.
  intros Hl. unfold ExtractInfoFromVersionEdit. set (h1 := if db_id_ e is Some db_id then _ else h).
  assert (H1 : same_families h h1) by (unfold h1; destruct (db_id_ e); by apply same_families_keep).
  destruct cfd as [cf |].
  2: { cbn. eexists _, _. split; [done |]. destruct (status_ok _); [| done]. exact H1. }
  destruct (find_cfd_exists (cfds h1) cf) as [c E]; [by apply (live_same (Some cf) h h1 H1 Hl) |].
  change (find _ _) with (GetColumnFamily cf (version_set_ h1)) in E. rewrite E. cbn [mbind option_bind].
  assert (H2 : same_families h1 (extract_log_number c e h1)).
  { unfold extract_log_number. destruct (log_number_ e) as [z |]; [| by apply same_families_keep]. destruct (_ >? _); [by apply same_families_keep |].
    eapply same_cfds_trans; [apply (alter_cfd_same (id_ c) (fun c => c <| cfd_log_number_ := z |>)); done | by apply same_families_keep]. }
  set (h2 := extract_log_number c e h1) in *. assert (H3 : same_families h2 (extract_comparator c e h2).2).
  { unfold extract_comparator. destruct (comparator_ e); [| by apply same_families_keep]. destruct (ValidateUserDefinedTimestampsOptions _ _ _ _ _) as [s []]; by apply same_families_keep. }
  destruct (extract_comparator c e h2) as [s h3]. cbn [snd] in H3. set (h4 := if bool_decide (full_history_ts_low_ e = []) then h3 else _).
  assert (H4 : same_families h3 h4).
  { unfold h4. destruct (bool_decide _); [by apply same_families_keep |]. apply alter_cfd_same. intros c'. unfold SetFullHistoryTsLow. by destruct (_ || _). }
  eexists _, _. split; [reflexivity |]. destruct (status_ok s); repeat (eapply same_cfds_trans; [eassumption |]); by apply same_families_keep.
Qed.

(** ** Column families come and go *)

Lemma handler_ids h d cf : handler_ok h d -> cf ∈ map id_ (cfds h) -> exists t, d !! cf = Some (Some t).
Proof using. intros Hh Hc. destruct (handler_cfd h d cf Hh Hc) as (c & _ & <- & _ & [_ _ (b & t & _ & Et & _)]). by exists t. Qed.
(** The state of a column family that is still there is as it was. *)
Lemma cfd_ok_keep h h' d d' c : builders_ h' !! id_ c = builders_ h !! id_ c -> d' !! id_ c = d !! id_ c -> cfd_ok h d c -> cfd_ok h' d' c.
Proof using. intros Eb Ed [H1 H2 (b & t & Hb & Ht & Hr)]. split; [done | done |]. exists b, t. by rewrite Eb, Ed. Qed.
Lemma CreateCfAndInit_ok o e h d : handler_ok h d -> d !! column_family_ e = None -> timestamp_size (Comparator := comparator o) = 0 ->
  exists h', CreateCfAndInit O o e h = Some h' /\ handler_ok h' (<[column_family_ e := Some ∅]> d) /\ column_family_ e ∈ map id_ (cfds h').
Proof using Htrack.
  intros Hh Hd Ho. set (cf := column_family_ e) in *. unfold CreateCfAndInit. fold cf.
  assert (Hnew : cf ∉ map id_ (cfds h)) by (intros Hc; destruct (handler_ids h d cf Hh Hc) as [t Et]; congruence).
  set (h1 := set_version_set _ h). set (c := {| id_ := cf; name_ := column_family_name_ e; options_ := o; cfd_log_number_ := default 0 (log_number_ e);
    cfd_full_history_ts_low_ := []; next_epoch_number_ := kFirstEpochNumber; current_ := empty_version o |}).
  assert (Hcs : cfds h1 = cfds h ++ [c]) by done.
  assert (Hids : NoDup (map id_ (cfds h ++ [c]))).
  { rewrite map_app. apply list.NoDup_app. split; [apply Hh |]. split; [| by apply NoDup_singleton]. intros x Hx ->%list_elem_of_singleton. by apply Hnew. }
  assert (E : GetColumnFamily cf (version_set_ h1) = Some c).
  { change (find (fun x => id_ x =? id_ c) (cfds h1) = Some c). rewrite Hcs. apply find_cfd_member; [done |]. apply elem_of_app. right. by apply list_elem_of_singleton. }
  rewrite E. cbn [mbind option_bind]. eexists. split; [done |]. split.
  - destruct Hh as [H1 H2 H3 H4 H5]. assert (Hc : forall x, x ∈ cfds h -> id_ x <> cf).
    { intros x Hx Ex. apply Hnew. rewrite <- Ex. by apply list_elem_of_fmap_2. }
    split; change (cfds (h1 <| builders_ := _ |>)) with (cfds h1); rewrite ?Hcs; [done | | | |].
    + apply list.Forall_app. split; [| apply list.Forall_singleton].
      * apply list.Forall_forall. intros x Hx. eapply cfd_ok_keep; [| | by eapply list.Forall_forall in H2].
        -- cbn. by rewrite lookup_insert_ne by (specialize (Hc x Hx); congruence).
        -- by rewrite lookup_insert_ne by (specialize (Hc x Hx); congruence).
      * split; [done | exact Ho |]. eexists _, _. cbn. rewrite !lookup_insert_eq. split; [done |]. split; [done |]. cbn.
        split; [| done]. unfold new_builder. cbn [rep_]. rewrite Htrack, <- (empty_version_files o). apply NewRep_reps, empty_version_located.
    + intros cf' [b Eb]. cbn in Eb. rewrite map_app, elem_of_app. apply lookup_insert_Some in Eb as [[<- _] | [_ Eb]]; [right; by apply list_elem_of_singleton |].
      left. apply H3. by eexists.
    + intros cf'. cbn. rewrite H4. destruct (decide (cf' = cf)) as [-> | Hne]; [rewrite lookup_insert_eq, Hd; done | by rewrite lookup_insert_ne by done].
    + intros cf' t Et. rewrite map_app, elem_of_app. apply lookup_insert_Some in Et as [[<- _] | [_ Et]]; [right; by apply list_elem_of_singleton |].
      left. by apply H5 in Et.
  - change (cf ∈ map id_ (cfds h1)). rewrite Hcs, map_app. apply elem_of_app. right. by apply list_elem_of_singleton.
Qed.
Lemma OnColumnFamilyAdd_ok e h d : handler_ok h d -> exists s cfd h', OnColumnFamilyAdd O e h = Some (s, cfd, h') /\
  (status_ok s = true -> d !! column_family_ e = None /\ live cfd h' /\
     handler_ok h' (<[column_family_ e := if opened (column_family_name_ e) then Some ∅ else None]> d)).
Proof using Hpit Htrack Hts.
  intros Hh. unfold OnColumnFamilyAdd. rewrite (handler_where e h d Hh).
  destruct (d !! column_family_ e) as [[t |] |] eqn:Ed; cbn [orb]; [eexists _, _, _; split; [done |]; done.. |].
  assert (Hcreate : forall o, timestamp_size (Comparator := comparator o) = 0 -> exists s cfd h', ('(h) ← CreateCfAndInit O o e h; Some (Status_OK, Some (column_family_ e), h)) = Some (s, cfd, h') /\
    (status_ok s = true -> None = None :> option (option lsm) /\ live cfd h' /\ handler_ok h' (<[column_family_ e := Some ∅]> d))).
  { intros o Ho. destruct (CreateCfAndInit_ok o e h d Hh Ed Ho) as (h' & E & Hh' & Hl). rewrite E. eexists _, _, _. split; [done |]. intros _. split; [done |]. split; [| done].
    by intros cf [= <-]. }
  unfold opened. destruct (name_to_options O (column_family_name_ e)) as [o |] eqn:Eo, (bool_decide (column_family_name_ e = _)); cbn [orb bool_decide];
    rewrite ?bool_decide_eq_true_2, ?bool_decide_eq_false_2 by (by eexists || by intros [? ?]); cbn [orb].
  - by apply Hcreate.
  - apply Hcreate. by eapply options_plain.
  - by apply Hcreate.
  - eexists _, _, _. split; [done |]. intros _. split; [done |]. split; [done |]. destruct Hh as [H1 H2 H3 H4 H5].
    assert (Hne : forall c, c ∈ cfds h -> id_ c <> column_family_ e).
    { intros c Hc Ec. eapply list.Forall_forall in H2 as [_ _ (b & t & _ & Et & _)]; [| exact Hc]. congruence. }
    split; [done | | done | |].
    + apply list.Forall_forall. intros c Hc. apply (cfd_ok_keep h _ d); [done | | exact (proj1 (list.Forall_forall _ _) H2 c Hc)]. by rewrite lookup_insert_ne by (specialize (Hne c Hc); congruence).
    + intros cf'. cbn. rewrite lookup_insert_is_Some, H4. destruct (decide (column_family_ e = cf')) as [<- | Hn]; [rewrite lookup_insert_eq; naive_solver |].
      rewrite lookup_insert_ne by done. naive_solver.
    + intros cf' t Et. apply lookup_insert_Some in Et as [[_ ?] | [_ Et]]; [done |]. by apply H5 in Et.
Qed.
Lemma remaining_ids cs cf x : x ∈ map id_ (filter (fun c => id_ c <> cf) cs) <-> x ∈ map id_ cs /\ x <> cf.
Proof using.
  rewrite !list_elem_of_fmap. split.
  - intros (c & -> & Hc). apply list_elem_of_filter in Hc as [Hne Hc]. split; [by exists c | done].
  - intros [(c & -> & Hc) Hne]. exists c. split; [done |]. by apply list_elem_of_filter.
Qed.
Lemma remaining_NoDup cs cf : NoDup (map id_ cs) -> NoDup (map id_ (filter (fun c => id_ c <> cf) cs)).
Proof using.
  induction cs as [| c cs IH]; intros Hn; [done |]. cbn [map] in Hn. apply list.NoDup_cons in Hn as [Hc Hn]. rewrite filter_cons.
  destruct (decide _); [| by apply IH]. cbn [map]. apply list.NoDup_cons. split; [| by apply IH]. intros H. by apply remaining_ids in H as [H _].
Qed.
Lemma OnColumnFamilyDrop_ok e h d : handler_ok h d -> exists s h', OnColumnFamilyDrop O e h = Some (s, None, h') /\
  (status_ok s = true -> is_Some (d !! column_family_ e) /\ handler_ok h' (delete (column_family_ e) d)).
Proof using Hpit.
  intros Hh. unfold OnColumnFamilyDrop, DestroyCfAndCleanup. rewrite (handler_where e h d Hh), Hpit. destruct Hh as [H1 H2 H3 H4 H5].
  destruct (d !! column_family_ e) as [[t |] |] eqn:Ed; [| | by eexists _, _]; eexists _, _; (split; [done |]); intros _; (split; [by eexists |]).
  - set (cf := column_family_ e) in *. set (h' := set_version_set _ _). assert (Hcs : cfds h' = filter (fun c => id_ c <> cf) (cfds h)) by done.
    split; rewrite ?Hcs.
    + by apply remaining_NoDup.
    + apply list.Forall_forall. intros c Hc. apply list_elem_of_filter in Hc as [Hne Hc].
      apply (cfd_ok_keep h _ d); [| | exact (proj1 (list.Forall_forall _ _) H2 c Hc)]; cbn; by rewrite lookup_delete_ne.
    + intros cf' [b Eb]. change (delete cf (builders_ h) !! cf' = Some b) in Eb. apply lookup_delete_Some in Eb as [Hne Eb]. apply remaining_ids. split; [apply H3; by eexists | done].
    + intros cf'. change (do_not_open_column_families_ h') with (do_not_open_column_families_ h). rewrite H4, lookup_delete_Some. naive_solver.
    + intros cf' t' Et. apply lookup_delete_Some in Et as [Hne Et]. apply remaining_ids. split; [by apply H5 in Et | done].
  - assert (Hne : forall c, c ∈ cfds h -> id_ c <> column_family_ e).
    { intros c Hc Ec. destruct (proj1 (list.Forall_forall _ _) H2 c Hc) as [_ _ (b & t & _ & Et & _)]. congruence. }
    split; [done | | done | |].
    + apply list.Forall_forall. intros c Hc. apply (cfd_ok_keep h _ d); [done | | exact (proj1 (list.Forall_forall _ _) H2 c Hc)].
      rewrite lookup_delete_ne; [done |]. specialize (Hne c Hc). congruence.
    + intros cf'. cbn. rewrite lookup_delete_Some, lookup_delete_is_Some, H4. naive_solver.
    + intros cf' t Et. apply lookup_delete_Some in Et as [_ Et]. by apply H5 in Et.
Qed.

(** ** Edits of the files of a column family *)

Lemma set_builder_ok h d c b t : handler_ok h d -> c ∈ cfds h -> builds (current_ c) b t ->
  handler_ok (set_builder (id_ c) b h) (<[id_ c := Some t]> d).
Proof using.
  intros [H1 H2 H3 H4 H5] Hc Hr. split; [done | | | |].
  - apply list.Forall_forall. intros c' Hc'. destruct (decide (id_ c' = id_ c)) as [E | Hne].
    + assert (c' = c) as ->.
      { pose proof (find_cfd_member _ c' H1 Hc') as E1. pose proof (find_cfd_member _ c H1 Hc) as E2. rewrite E, E2 in E1. congruence. }
      destruct (proj1 (list.Forall_forall _ _) H2 c Hc) as [Ec Hp _]. split; [done | done |]. exists b, t. cbn. by rewrite !lookup_insert_eq.
    + apply (cfd_ok_keep h _ d); [| | exact (proj1 (list.Forall_forall _ _) H2 c' Hc')]; cbn; by rewrite lookup_insert_ne.
  - intros cf' [b' Eb]. cbn in Eb. apply lookup_insert_Some in Eb as [[<- _] | [_ Eb]]; [by apply list_elem_of_fmap_2 | apply H3; by eexists].
  - intros cf'. cbn. rewrite H4. destruct (decide (id_ c = cf')) as [<- | Hne]; [| by rewrite lookup_insert_ne]. rewrite lookup_insert_eq.
    destruct (proj1 (list.Forall_forall _ _) H2 c Hc) as [_ _ (b' & t' & _ & Et & _)]. rewrite Et. naive_solver.
  - intros cf' t' Et. apply lookup_insert_Some in Et as [[<- _] | [_ Et]]; [by apply list_elem_of_fmap_2 | by apply H5 in Et].
Qed.
Lemma create_version_ok e c h d b t : handler_ok h d -> c ∈ cfds h -> cfd_ok h d c -> builders_ h !! id_ c = Some b -> d !! id_ c = Some (Some t) ->
  plain_edit e -> exists s h', create_version O files e c false h = Some (s, h') /\
    (status_ok s = true -> exists t', lsm_apply e t = Some t' /\ handler_ok h' (<[id_ c := Some t']> d)).
Proof using Hpit.
  intros Hh Hc [Ec _ (b' & t' & Eb' & Et' & Hr & Hbl)] Eb Et [He Hsst]. rewrite Eb in Eb'. rewrite Et in Et'. injection Eb' as <-. injection Et' as <-.
  unfold create_version. rewrite Eb. cbn [mbind option_bind]. unfold Builder_Apply. rewrite Hpit.
  destruct (Apply_refines (C := comparator (options_ c)) (current_ c) false (fun _ _ => Status_OK) (fun _ => Status_OK) e (rep_ b) t Hr He) as (s & r & E & Hok & _).
  { rewrite Ec. apply empty_version_consistent. }
  rewrite E. cbn [mbind option_bind]. eexists _, _. split; [done |]. intros Hs. destruct (Hok Hs) as (t' & El & Hr'). exists t'. split; [done |].
  apply set_builder_ok; [done | done |]. split; [done |]. by apply (no_blobs_Apply _ _ e (rep_ b) s r Hsst Hbl E).
Qed.
Lemma OnNonCfOperation_ok e h d : handler_ok h d -> plain_edit e -> exists s cfd h', OnNonCfOperation O files e h = Some (s, cfd, h') /\
  (status_ok s = true -> live cfd h' /\ exists d', handler_ok h' d' /\
     match d !! column_family_ e with
     | None => None
     | Some None => Some d
     | Some (Some t) => t ← lsm_apply e t; Some (<[column_family_ e := Some t]> d)
     end = Some d').
Proof using Hpit.
  intros Hh He. unfold OnNonCfOperation. rewrite (handler_where e h d Hh). destruct (d !! column_family_ e) as [[t |] |] eqn:Ed; cbn [negb];
    [| eexists _, _, _; split; [done |]; intros _; split; [done | by exists d] | by eexists _, _, _].
  destruct (handler_cfd h d (column_family_ e) Hh) as (c & Eg & Eid & Hc & Hok); [by apply (ho_open h d Hh) in Ed |]. rewrite Eg. cbn [mbind option_bind].
  unfold MaybeHandleFileBoundariesForNewFiles. rewrite (co_plain h d c Hok). cbn [Z.eqb].
  replace (if bool_decide (new_files_ e = []) then (Status_OK, e) else (Status_OK, e)) with (Status_OK, e) by (by destruct (bool_decide _)). cbn [status_ok negb Status_OK].
  unfold MaybeCreateVersionBeforeApplyEdit. rewrite Hpit. pose proof Hok as [_ _ (b & t' & Eb & _)].
  destruct (create_version_ok e c h d b t Hh Hc Hok Eb) as (s & h' & E & Hs); [by rewrite Eid | done |]. rewrite E. cbn [mbind option_bind]. eexists _, _, _. split; [done |].
  intros Hok'. destruct (Hs Hok') as (t1 & El & Hh'). rewrite Eid in *. split.
  - intros cf [= <-]. apply (ho_open h' _ Hh' _ t1). by rewrite lookup_insert_eq.
  - rewrite El. by eexists.
Qed.

(** ** All edits *)

(** The edit is applied before what it says about the database is read from it. *)
Lemma edit_then_info s cfd h e d' : (status_ok s = true -> live cfd h /\ handler_ok h d') ->
  exists s' cfd' h', (if status_ok s then '(s, h) ← ExtractInfoFromVersionEdit cfd e h; Some (s, cfd, h) else Some (s, cfd, h)) = Some (s', cfd', h') /\
  (status_ok s' = true -> status_ok s = true /\ live cfd' h' /\ handler_ok h' d').
Proof using.
  intros H. destruct (status_ok s) eqn:Es; [| eexists _, _, _; split; [done |]; by rewrite Es]. destruct (H eq_refl) as [Hl Hh].
  destruct (ExtractInfo_same cfd e h Hl) as (s' & h' & E & Hs). rewrite E. eexists _, _, _. split; [done |]. intros _. split; [done |].
  split; [by apply (live_same cfd h) | by apply (same_families_ok h)].
Qed.
Lemma set_wals_ok w h d cfd : handler_ok h d -> live cfd h -> let h' := set_version_set (fun v => v <| wal_set_ := w |>) h in live cfd h' /\ handler_ok h' d.
Proof using.
  intros Hh Hl h'. assert (Hs : same_families h h') by (by apply same_families_keep). split; [by apply (live_same cfd h) | by apply (same_families_ok h)].
Qed.
Lemma ApplyVersionEdit_ok e cfd h d : handler_ok h d -> live cfd h -> plain_edit e ->
  exists s cfd' h', Handler_ApplyVersionEdit O files e cfd h = Some (s, cfd', h') /\
  (status_ok s = true -> live cfd' h' /\ exists d', db_apply opened e d = Some d' /\ handler_ok h' d').
Proof using Hpit Htrack Hts.
  intros Hh Hl He. unfold Handler_ApplyVersionEdit, db_apply. destruct (is_column_family_add_ e).
  { destruct (OnColumnFamilyAdd_ok e h d Hh) as (s & cfd1 & h1 & -> & H). cbn [mbind option_bind].
    destruct (edit_then_info s cfd1 h1 e (<[column_family_ e := if opened (column_family_name_ e) then Some ∅ else None]> d)) as (s' & cfd' & h' & E & H'); [by intros Hs; apply H in Hs as (_ & ? & ?) |].
    exists s', cfd', h'. split; [exact E |]. intros Hs'. destruct (H' Hs') as (Hs & Hl' & Hh'). split; [done |]. destruct (H Hs) as (-> & _). by eexists. }
  destruct (is_column_family_drop_ e).
  { destruct (OnColumnFamilyDrop_ok e h d Hh) as (s & h1 & -> & H). cbn [mbind option_bind].
    destruct (edit_then_info s None h1 e (delete (column_family_ e) d)) as (s' & cfd' & h' & E & H'); [intros Hs; by apply H in Hs as (_ & ?) |].
    exists s', cfd', h'. split; [exact E |]. intros Hs'. destruct (H' Hs') as (Hs & Hl' & Hh'). split; [done |]. destruct (H Hs) as ([x ->] & _). by eexists. }
  destruct (negb (bool_decide (wal_additions_ e = []))) eqn:Ew; cbn [orb].
  { unfold OnWalAddition. destruct (WalSet_AddWals _ _) as [s w]. destruct (set_wals_ok w h d cfd Hh Hl) as [Hl1 Hh1]. set (h1 := set_version_set _ h) in *. cbn [mbind option_bind].
    destruct (edit_then_info s cfd h1 e d) as (s' & cfd' & h' & E & H'); [done |]. exists s', cfd', h'. split; [exact E |]. intros Hs'. destruct (H' Hs') as (_ & Hl' & Hh'). split; [done |]. by exists d. }
  destruct (negb (wal_deletion_ e =? 0)).
  { unfold OnWalDeletion. destruct (WalSet_DeleteWalsBefore _ _) as [s w]. destruct (set_wals_ok w h d cfd Hh Hl) as [Hl1 Hh1]. set (h1 := set_version_set _ h) in *. cbn [mbind option_bind].
    destruct (edit_then_info s cfd h1 e d) as (s' & cfd' & h' & E & H'); [done |]. exists s', cfd', h'. split; [exact E |]. intros Hs'. destruct (H' Hs') as (_ & Hl' & Hh'). split; [done |]. by exists d. }
  destruct (OnNonCfOperation_ok e h d Hh He) as (s & cfd1 & h1 & -> & H). cbn [mbind option_bind]. destruct (status_ok s) eqn:Es.
  - destruct (H eq_refl) as (Hl1 & d' & Hh1 & Ed). destruct (edit_then_info s cfd1 h1 e d') as (s' & cfd' & h' & E & H'); [done |]. rewrite Es in E.
    exists s', cfd', h'. split; [exact E |]. intros Hs'. destruct (H' Hs') as (_ & Hl' & Hh'). split; [done |]. by exists d'.
  - eexists _, _, _. split; [done |]. by rewrite Es.
Qed.

#[local] Instance handler_ops : VersionEditHandlerOps VersionEditHandler := Handler_ops O files.
(** [m] does to the files what the specification does, or fails. *)
Definition replays (m : option (Status * VersionEditHandler)) (spec : option db) : Prop :=
  exists s h, m = Some (s, h) /\ (status_ok s = true -> exists d, spec = Some d /\ handler_ok h d).
Abbreviation edits_wf := (Forall plain_edit).
Lemma apply_group_ok es : edits_wf es -> forall cfd h d, handler_ok h d -> live cfd h -> replays (apply_group es cfd h) (db_edits opened es d).
Proof using Hpit Htrack Hts.
  induction 1 as [| e es He Hes IH]; intros cfd h d Hh Hl; [eexists _, _; split; [done |]; by exists d |].
  destruct (ApplyVersionEdit_ok e cfd h d Hh Hl He) as (s & cfd' & h' & E & H). cbn [apply_group]. cbn [ApplyVersionEdit handler_ops Handler_ops]. rewrite E. cbn [mbind option_bind].
  destruct (status_ok s) eqn:Es; [| eexists _, _; split; [done |]; by rewrite Es]. destruct (H eq_refl) as (Hl' & d' & Ed & Hh'). cbn [db_edits]. rewrite Ed. by apply IH.
Qed.
Lemma replay_group_ok es h d : edits_wf es -> handler_ok h d -> replays (replay_group es h) (db_edits opened es d).
Proof using Hpit Htrack Hts.
  intros Hes Hh. unfold replay_group. cbn [OnAtomicGroupReplayBegin OnAtomicGroupReplayEnd handler_ops Handler_ops].
  unfold Handler_OnAtomicGroupReplayBegin, Handler_OnAtomicGroupReplayEnd. rewrite Hpit. cbn [negb mbind option_bind status_ok Status_OK].
  destruct (apply_group_ok es Hes None h d Hh ltac:(done)) as (s & h' & E & H). rewrite E. cbn [mbind option_bind]. destruct (status_ok s) eqn:Es; cbn [negb].
  - eexists _, _. split; [done |]. intros _. by apply H.
  - eexists _, _. split; [done |]. by rewrite Es.
Qed.
Lemma replay_edit_batch_ok es h d : edits_wf es -> handler_ok h d -> replays (replay_edit_batch es h) (db_edits opened es d).
Proof using Hpit Htrack Hts.
  intros Hes Hh. unfold replay_edit_batch. destruct es as [| e [|]]; [by apply replay_group_ok | | by apply replay_group_ok].
  destruct (is_in_atomic_group_ e); [by apply replay_group_ok |]. apply list.Forall_cons in Hes as [Hes _].
  destruct (ApplyVersionEdit_ok e None h d Hh ltac:(done) Hes) as (s & cfd & h' & E & H). cbn [ApplyVersionEdit handler_ops Handler_ops]. rewrite E. cbn [mbind option_bind db_edits].
  eexists _, _. split; [done |]. intros Hs. destruct (H Hs) as (_ & d' & -> & Hh'). by exists d'.
Qed.
Lemma replay_batches_ok bs : Forall edits_wf bs -> forall h d, handler_ok h d -> replays (replay_edit_batches bs h) (db_edits opened (concat bs) d).
Proof using Hpit Htrack Hts.
  induction 1 as [| es bs Hes Hbs IH]; intros h d Hh; [eexists _, _; split; [done |]; by exists d |]. cbn [replay_edit_batches concat]. rewrite db_edits_app.
  destruct (replay_edit_batch_ok es h d Hes Hh) as (s & h' & E & H). rewrite E. cbn [mbind option_bind]. destruct (status_ok s) eqn:Es.
  - destruct (H eq_refl) as (d' & Ed & Hh'). rewrite Ed. by apply IH.
  - eexists _, _. split; [done |]. by rewrite Es.
Qed.
Lemma Initialize_ok v : column_family_set_ v = [] -> replays (Handler_Initialize O (NewVersionEditHandler v)) (Some db_start).
Proof using Htrack Hts.
  intros Hv. unfold Handler_Initialize. cbn [initialized_ NewVersionEditHandler]. destruct (name_to_options O _) as [o |] eqn:Eo; [| by eexists _, _].
  set (e := NewVersionEdit <| is_column_family_add_ := _ |> <| column_family_name_ := _ |>).
  assert (H0 : handler_ok (NewVersionEditHandler v) ∅).
  { split; unfold cfds; cbn; rewrite ?Hv; cbn; [constructor | constructor | by intros ? [? ?] | | done]. intros cf. split; [by intros [? ?] | done]. }
  destruct (CreateCfAndInit_ok o e (NewVersionEditHandler v) ∅ H0) as (h & -> & Hh & _); [done | by eapply options_plain |].
  cbn [mbind option_bind]. eexists _, _. split; [done |]. intros _. exists db_start. split; [done |]. by apply (same_families_ok h); [apply same_families_keep |].
Qed.

(** ** The versions at the end *)

(** The version that a column family gets: that of its builder, or the one it has when that one is not consistent. *)
Definition final_version (c : ColumnFamilyData) (b : VersionBuilder) : VersionStorageInfo :=
  let '(s, w) := SaveTo (C := comparator (options_ c)) (rep_ b) (NewVersion c (handler_requirement_ O)) in
  if status_ok s then PrepareAppend (options_ c) w else current_ c.
Definition final_cfd (builders : gmap Z VersionBuilder) (c : ColumnFamilyData) : ColumnFamilyData :=
  match builders !! id_ c with Some b => c <| current_ := final_version c b |> | None => c end.
Lemma Apply_nothing {C : Comparator} vf vb r : status_ok (CheckConsistency (rep_num_levels_ r) (base_vstorage_ r)) = true -> Apply vf vb NewVersionEdit r = Some (Status_OK, r).
Proof using. intros H. unfold Apply. rewrite H. cbn. by rewrite andb_false_r. Qed.
Definition buildable (h : VersionEditHandler) (c : ColumnFamilyData) : Prop := c ∈ cfds h /\ exists b, builders_ h !! id_ c = Some b /\
  status_ok (CheckConsistency (C := comparator (options_ c)) (rep_num_levels_ (rep_ b)) (base_vstorage_ (rep_ b))) = true.
Lemma handler_buildable h d : handler_ok h d -> Forall (buildable h) (cfds h).
Proof using.
  intros Hh. apply list.Forall_forall. intros c Hc. split; [done |]. destruct (proj1 (list.Forall_forall _ _) (ho_cfds h d Hh) c Hc) as [Ec _ (b & t & Eb & _ & Hr & _)].
  exists b. split; [done |]. rewrite (rp_num _ _ _ _ Hr), (rp_base _ _ _ _ Hr), Ec. apply empty_version_consistent.
Qed.
Lemma force_version_ok h c : NoDup (map id_ (cfds h)) -> buildable h c -> exists h', MaybeCreateVersionBeforeApplyEdit O files NewVersionEdit c true h = Some (Status_OK, h') /\
  cfds h' = map (fun x => if id_ x =? id_ c then final_cfd (builders_ h) x else x) (cfds h) /\ builders_ h' = builders_ h.
Proof using Hpit.
  intros Hids (Hc & b & Eb & Hb).
  unfold MaybeCreateVersionBeforeApplyEdit, create_version. rewrite Hpit, Eb. cbn [mbind option_bind]. unfold Builder_Apply. rewrite Hpit, Apply_nothing by done.
  cbn [mbind option_bind]. eexists. split; [done |]. cbn [builders_ set_builder].
  assert (Hsame : forall x, x ∈ cfds h -> id_ x = id_ c -> x = c).
  { intros x Hx E. pose proof (find_cfd_member _ x Hids Hx) as E1. pose proof (find_cfd_member _ c Hids Hc) as E2. rewrite E, E2 in E1. congruence. }
  assert (Hfin : cfds (let '(s, w) := SaveTo (C := comparator (options_ c)) (rep_ b) (NewVersion c (handler_requirement_ O)) in
      if status_ok s then set_version_set (AppendVersion (id_ c) (PrepareAppend (options_ c) w)) h else h) =
      map (fun x => if id_ x =? id_ c then final_cfd (builders_ h) x else x) (cfds h)).
  { assert (Hx : forall x, x ∈ cfds h -> id_ x = id_ c -> final_cfd (builders_ h) x = x <| current_ := final_version c b |>).
    { intros x Hx E. rewrite (Hsame x Hx E). unfold final_cfd. by rewrite Eb. }
    unfold final_version in Hx. destruct (SaveTo _ _) as [s w]. destruct (status_ok s).
    - apply map_ext_in. intros x Hin%list_elem_of_In. destruct (Z.eqb_spec (id_ x) (id_ c)) as [E |]; [by rewrite Hx | done].
    - symmetry. transitivity (map id (cfds h)); [| by rewrite map_id]. apply map_ext_in. intros x Hin%list_elem_of_In.
      destruct (Z.eqb_spec (id_ x) (id_ c)) as [E |]; [| done]. rewrite Hx, (Hsame x Hin E) by done. by destruct c. }
  split; [exact Hfin |]. destruct (SaveTo _ _) as [s w]. destruct b. destruct (status_ok s); cbn; by apply insert_id.
Qed.
Lemma final_cfd_id builders c : id_ (final_cfd builders c) = id_ c.
Proof using. unfold final_cfd. by destruct (builders !! id_ c). Qed.
Lemma force_versions_ok cs : forall h, NoDup (map id_ (cfds h)) -> NoDup (map id_ cs) -> Forall (buildable h) cs ->
  exists h', each_cfd (fun c => MaybeCreateVersionBeforeApplyEdit O files NewVersionEdit c true) cs h = Some (Status_OK, h') /\
  cfds h' = map (fun x => if bool_decide (id_ x ∈ map id_ cs) then final_cfd (builders_ h) x else x) (cfds h).
Proof using Hpit.
  induction cs as [| c cs IH]; intros h Hids Hcs Hb; cbn [each_cfd].
  { exists h. split; [done |]. symmetry. transitivity (map id (cfds h)); [| by rewrite map_id]. apply map_ext. intros x. by rewrite bool_decide_eq_false_2 by apply not_elem_of_nil. }
  apply list.Forall_cons in Hb as [Hbc Hb]. cbn [map] in Hcs. apply list.NoDup_cons in Hcs as [Hnew Hcs].
  destruct (force_version_ok h c Hids Hbc) as (h1 & E1 & Hc1 & Hb1). rewrite E1. cbn [mbind option_bind status_ok].
  assert (Hids1 : map id_ (cfds h1) = map id_ (cfds h)).
  { rewrite Hc1, map_map. apply map_ext. intros x. destruct (_ =? _); [apply final_cfd_id | done]. }
  destruct (IH h1) as (h' & E & Hc').
  - by rewrite Hids1.
  - done.
  - apply list.Forall_forall. intros x Hx. destruct (proj1 (list.Forall_forall _ _) Hb x Hx) as (Hxh & b & Eb & Hcons). split; [| exists b; by rewrite Hb1].
    rewrite Hc1. apply list_elem_of_fmap. exists x. split; [| done]. destruct (Z.eqb_spec (id_ x) (id_ c)) as [Ex |]; [| done].
    destruct Hnew. rewrite <- Ex. by apply list_elem_of_fmap_2.
  - exists h'. split; [by rewrite E |]. rewrite Hc', Hc1, map_map, Hb1. apply map_ext. intros x. destruct (Z.eqb_spec (id_ x) (id_ c)) as [Ex | Hne].
    + rewrite final_cfd_id, Ex, bool_decide_eq_false_2, bool_decide_eq_true_2 by (done || by left). done.
    + erewrite (bool_decide_ext (id_ x ∈ map id_ (c :: cs))); [done |]. cbn [map]. rewrite elem_of_cons. naive_solver.
Qed.

(** A loop that only looks at the state. *)
Lemma each_cfd_keep f cs h : (forall c, c ∈ cs -> exists s, f c h = Some (s, h)) -> exists s, each_cfd f cs h = Some (s, h).
Proof using.
  induction cs as [| c cs IH]; intros Hf; cbn [each_cfd]; [by eexists |]. destruct (Hf c) as [s E]; [by left |]. rewrite E. cbn [mbind option_bind].
  destruct (status_ok s); [| by eexists]. apply IH. intros c' Hc. apply Hf. by right.
Qed.
Lemma mark_numbers_cfds p v : column_family_set_ (mark_numbers p v) = column_family_set_ v.
Proof using. unfold mark_numbers, MarkFileNumberUsed, MarkMinLogNumberToKeep, UpdateMaxColumnFamily. by repeat case_match. Qed.
Lemma check_result_ok off s h d : handler_ok h d -> exists s' h', Handler_CheckIterationResult O files off s h = Some (s', h') /\
  (status_ok s = false -> s' = s) /\ (status_ok s' = true -> cfds h' = map (final_cfd (builders_ h)) (cfds h) /\ (read_only_ O = false -> do_not_open_column_families_ h = ∅)).
Proof using Hpit.
  intros Hh. unfold Handler_CheckIterationResult, check_result, and_then_h. rewrite Hpit. destruct (status_ok s) eqn:Es; cbn [negb]; [| eexists _, _; split; [done |]; split; [done |]; by rewrite Es].
  cbn [mbind option_bind]. destruct (status_ok (check_params _)) eqn:E1; [| eexists _, _; split; [done |]; by rewrite E1].
  destruct (status_ok (if negb (read_only_ O) && _ then _ else _)) eqn:E2; [| eexists _, _; split; [done |]; by rewrite E2].
  set (h1 := set_version_set _ h). assert (Hc1 : cfds h1 = cfds h) by apply mark_numbers_cfds.
  assert (Hh1 : handler_ok h1 d) by (by apply (same_families_ok h); [apply same_families_keep |]).
  destruct (each_cfd_keep (check_num_levels) (cfds h1) h1) as [s3 E3].
  { intros c Hc. destruct (proj1 (list.Forall_forall _ _) (handler_buildable h1 d Hh1) c Hc) as (_ & b & Eb & _). unfold check_num_levels. rewrite Eb. by eexists. }
  rewrite E3. cbn [mbind option_bind]. destruct (status_ok s3) eqn:Es3; [| eexists _, _; split; [done |]; by rewrite Es3].
  destruct (each_cfd_keep (load_cfd_tables O files) (cfds h1) h1) as [s4 E4].
  { intros c Hc. destruct (proj1 (list.Forall_forall _ _) (handler_buildable h1 d Hh1) c Hc) as (_ & b & Eb & _). unfold load_cfd_tables, LoadTables. rewrite Hpit, Eb. cbn. destruct (skip_load_table_files_ O); by eexists. }
  rewrite E4. cbn [mbind option_bind]. destruct (status_ok s4) eqn:Es4; [| eexists _, _; split; [done |]; by rewrite Es4].
  destruct (force_versions_ok (cfds h1) h1 (ho_ids h1 d Hh1) (ho_ids h1 d Hh1) (handler_buildable h1 d Hh1)) as (h' & E & Hc'). rewrite E. cbn [mbind option_bind status_ok].
  eexists _, _. split; [done |]. split; [done |]. intros _. split; [| intros Hro; rewrite Hro in E2; cbn [negb andb] in E2; by destruct (bool_decide_reflect (do_not_open_column_families_ h = ∅))].
  unfold cfds at 1. cbn [version_set_ set_version_set]. change (cfds h' = map (final_cfd (builders_ h)) (cfds h)).
  rewrite Hc', Hc1. apply map_ext_in. intros x Hx%list_elem_of_In. by rewrite bool_decide_eq_true_2 by (by apply list_elem_of_fmap_2).
Qed.
End Handler.
