(* ===== verification/ManifestTheorems.v ===== *)
(** A database is recovered from the MANIFEST that a crash left with the files that the complete batches of edits leave. *)

From stdpp Require Import gmap sorting.
From S2P Require Import Prelude Algorithms Coding Comparator DbFormat Status UdtUtil VersionEdit VersionEditProofs VersionEditTheorems VersionStorage VersionStorageProofs VersionBuilder VersionBuilderProofs VersionSaveProofs FilePickerProofs FilePickerTheorems VersionBuilderTheorems LogWriter LogReader LogProofs Manifest ManifestProofs VersionSet VersionEditHandler VersionEditHandlerProofs.

Open Scope record_scope.

(** * Edits in the MANIFEST *)

(** The record of an edit of a column family without timestamps, or of one without new files. *)
Definition encodes (e : VersionEdit) (record : bytes) : Prop := exists ts_sz, (ts_sz = Some 0 \/ ts_sz = None) /\ EncodeTo e ts_sz = Some (true, record).
Definition read_back (e : VersionEdit) : VersionEdit := decoded 0 NewVersionEdit e.
Lemma encodes_decodes e r : VersionEditProofs.edit_ok 0 e -> encodes e r -> decodes_to r (read_back e).
Proof.
  intros He (ts_sz & Hts & E). destruct (encoded_decoded 0 e He) as (b & Eb & Hb). assert (r = b) as ->; [| apply Hb].
  destruct Hts as [-> | ->]; [congruence |]. unfold EncodeTo in *. destruct (new_files_ e) as [| [level f] l]; [congruence |]. by destruct (may_encode f).
Qed.
Lemma encodes_all es recs : Forall (fun e => VersionEditProofs.edit_ok 0 e /\ sst_edit e) es -> Forall2 encodes es recs -> Forall2 decodes_to recs (map read_back es).
Proof.
  intros Hok He. induction He as [| e r es recs Hr He IH]; cbn [map]; [constructor |]. apply list.Forall_cons in Hok as [[Ho _] Hok].
  constructor; [by apply encodes_decodes | by apply IH].
Qed.
Lemma read_back_files e : new_files_ (read_back e) = new_files_ e.
Proof.
  cbn. induction (new_files_ e) as [| [level f] l IH]; cbn; [done |]. rewrite IH. by destruct f.
Qed.
Lemma db_apply_read_back opened e d : db_apply opened (read_back e) d = db_apply opened e d.
Proof. unfold db_apply, lsm_apply. rewrite read_back_files. done. Qed.
Lemma db_edits_read_back opened es : forall d, db_edits opened (map read_back es) d = db_edits opened es d.
Proof. induction es as [| e es IH]; intros d; cbn [map db_edits]; [done |]. rewrite db_apply_read_back. destruct (db_apply opened e d); [apply IH | done]. Qed.
Lemma batch_wf_read_back es : batch_wf es -> batch_wf (map read_back es).
Proof.
  intros [(e & -> & He) | [Hlen Hes]]; [left; by exists (read_back e) |]. right. unfold slen in *. rewrite length_map. split; [done |].
  intros i e E. rewrite list_lookup_fmap in E. destruct (es !! i) as [e' |] eqn:Ei; [| done]. injection E as <-. exact (Hes i e' Ei).
Qed.
Lemma plain_read_back e : VersionEditProofs.edit_ok 0 e -> sst_edit e -> plain_edit (read_back e).
Proof.
  intros He Hs. split; [| exact Hs]. split.
  - eapply list.Forall_impl; [apply (eo_deleted 0 e He) |]. intros x [[? _] _]. done.
  - rewrite read_back_files. eapply list.Forall_impl; [apply (eo_files 0 e He) |]. intros x [[? _] _]. done.
Qed.
Lemma complete_map n bs : complete_batches n (map (map read_back) bs) = map (map read_back) (complete_batches n bs).
Proof.
  revert n. induction bs as [| es bs IH]; intros n; cbn [map complete_batches]; [done |]. rewrite length_map. destruct (decide _); cbn [map]; [by rewrite IH | done].
Qed.
Lemma complete_prefix n bs : complete_batches n bs `prefix_of` bs.
Proof.
  revert n. induction bs as [| es bs IH]; intros n; cbn [complete_batches]; [done |]. destruct (decide _); [by apply prefix_cons, IH | apply prefix_nil].
Qed.

(** ** Files come from edits *)

Lemma db_edits_elem (P : Z -> Z * FileMetaData -> Prop) opened es : Forall (fun e => Forall (fun x => P (GetNumber (fd x.2)) x) (new_files_ e)) es ->
  forall d d', (forall cf t n x, d !! cf = Some (Some t) -> t !! n = Some x -> P n x) -> db_edits opened es d = Some d' ->
  forall cf t n x, d' !! cf = Some (Some t) -> t !! n = Some x -> P n x.
Proof.
  induction 1 as [| e es He Hes IH]; intros d d' Hd E; cbn [db_edits] in E; [by injection E as <- |]. apply bind_Some in E as (d1 & E1 & E2).
  apply (IH d1 d'); [| done]. intros cf t n x Et Ex. unfold db_apply in E1. destruct (is_column_family_add_ e).
  { destruct (d !! column_family_ e); [done |]. injection E1 as <-. apply lookup_insert_Some in Et as [[_ Et] | [_ Et]]; [| by apply (Hd cf t)].
    destruct (opened _); [| done]. injection Et as <-. done. }
  destruct (is_column_family_drop_ e).
  { destruct (d !! column_family_ e); [| done]. injection E1 as <-. apply lookup_delete_Some in Et as [_ Et]. by apply (Hd cf t). }
  destruct (_ || _); [injection E1 as <-; by apply (Hd cf t) |]. destruct (d !! column_family_ e) as [[t0 |] |] eqn:E0; [| injection E1 as <-; by apply (Hd cf t) | done].
  apply bind_Some in E1 as (t1 & El & [= <-]). apply lookup_insert_Some in Et as [[_ [= <-]] | [_ Et]]; [| by apply (Hd cf t)].
  destruct (lsm_edits_elem P [e] ltac:(by constructor) t0 t1 n x) as [H | H]; [cbn; by rewrite El | done | by apply (Hd (column_family_ e) t0) | done].
Qed.

(** * The versions of the column families *)

(** The options and the files of a column family are right: the files are on its levels, and valid. *)
Record recoverable (o : ColumnFamilyOptions) (t : lsm) : Prop := {
  rc_laws : ComparatorLaws (comparator o);
  rc_checks : force_consistency_checks o = true;
  rc_levels : (0 < num_levels o)%nat /\ forall n level f, t !! n = Some (level, f) -> level < Z.of_nat (num_levels o);
  rc_bounded : bounded_files (C := comparator o) t;
  rc_valid : lsm_valid (C := comparator o) t;
}.
Lemma final_made O h d c t : cfd_ok h d c -> d !! id_ c = Some (Some t) -> epochs_known t -> recoverable (options_ c) t ->
  made (C := comparator (options_ c)) (TC := timestamps (options_ c)) (num_levels (options_ c)) (current_ (final_cfd O (builders_ h) c)) t.
Proof.
  intros [Ec _ (b & t' & Eb & Et' & Hr & Hbl)] Et He [HL Hf [Hn Hlev] Hbd Hv]. rewrite Et in Et'. injection Et' as <-. unfold final_cfd, final_version. rewrite Eb. cbn [current_]. unfold NewVersion.
  set (o := options_ c) in *. set (C := comparator o) in *. set (TC := timestamps o).
  destruct (SaveTo_saved (C := C) (current_ c) (rep_ b) t (force_consistency_checks o) (handler_requirement_ O) Hr) as (w & E & Hw & Hbw).
  { right. split; [by rewrite Ec | done]. }
  { intros n level f Ex. rewrite Ec. by apply Hlev in Ex. }
  { intros level _. rewrite Ec, empty_version_levels. constructor. }
  assert (En : num_levels_ (current_ c) = num_levels o) by (by rewrite Ec). rewrite En in *. rewrite E.
  assert (Hc : status_ok (CheckConsistency (num_levels o) w) = true) by (apply (saved_consistent (num_levels o) _ w t Hw); auto).
  rewrite Hc. rewrite Hf in Hw. by exists w.
Qed.
Lemma made_files {C : Comparator} {CL : ComparatorLaws C} {TC : TimestampComparator C} n v t : made n v t -> version_files v = t /\ sorted_levels v.
Proof.
  intros (w & -> & Hw & Hb & Hc). destruct (saved_version_of n true w t Hw Hb Hc) as [Hloc Hh _ _ _ _].
  split; [by apply holds_version_files | exact (saved_sorted n w t Hw Hb Hc)].
Qed.
Lemma made_epochs {C : Comparator} {TC : TimestampComparator C} n v t : made n v t -> epochs_known t -> HasMissingEpochNumber v = false.
Proof.
  intros (w & -> & Hw & _) He. destruct (HasMissingEpochNumber _) eqn:E; [| done]. unfold HasMissingEpochNumber in E. apply existsb_exists in E as (level & Hl & E).
  apply existsb_exists in E as (f & Hf & E). apply Z.eqb_eq in E. apply in_seq in Hl. exfalso. apply list_elem_of_In in Hf.
  apply (hd_files w t (sd_holds _ _ _ _ Hw)) in Hf; [| cbn in Hl; lia]. by apply He in Hf.
Qed.

(** * Recovery *)

(** What is known of the set of versions after a recovery that found the files [d]. Column families are left out only when the database is opened for reading. *)
Definition recovered (read_only : bool) (d : db) (v : VersionSet) : Prop := NoDup (map id_ (column_family_set_ v)) /\ (read_only = false -> forall cf, d !! cf <> Some None) /\
  forall cf, match d !! cf with
             | Some (Some t) => exists c, GetColumnFamily cf v = Some c /\ (recoverable (options_ c) t -> version_files (current_ c) = t /\ sorted_levels (C := comparator (options_ c)) (current_ c))
             | _ => GetColumnFamily cf v = None
             end.
Lemma epochs_recovered ingest c t : epochs_known t ->
  made (C := comparator (options_ c)) (TC := timestamps (options_ c)) (num_levels (options_ c)) (current_ c) t -> current_ (Cfd_RecoverEpochNumbers ingest c) = current_ c.
Proof.
  intros He Hm. unfold Cfd_RecoverEpochNumbers, RecoverEpochNumbers. rewrite (made_epochs (TC := timestamps (options_ c)) _ _ _ Hm He). by cbn.
Qed.
Lemma find_map_cfd (f : ColumnFamilyData -> ColumnFamilyData) cs cf : (forall c, id_ (f c) = id_ c) ->
  find (fun c => id_ c =? cf) (map f cs) = f <$> find (fun c => id_ c =? cf) cs.
Proof. intros Hf. induction cs as [| c cs IH]; cbn; [done |]. rewrite Hf. by destruct (_ =? _). Qed.
Lemma Cfd_Recover_same ingest c : id_ (Cfd_RecoverEpochNumbers ingest c) = id_ c /\ options_ (Cfd_RecoverEpochNumbers ingest c) = options_ c.
Proof. unfold Cfd_RecoverEpochNumbers. by destruct (RecoverEpochNumbers _ _ _ _ _). Qed.
Lemma final_recovered O h d ingest v : handler_ok h d -> (forall cf t, d !! cf = Some (Some t) -> epochs_known t) ->
  column_family_set_ v = map (Cfd_RecoverEpochNumbers ingest) (map (final_cfd O (builders_ h)) (cfds h)) -> (read_only_ O = false -> do_not_open_column_families_ h = ∅) ->
  recovered (read_only_ O) d v.
Proof.
  intros Hh He Ev Hro. split; [| split].
  { rewrite Ev, !map_map. erewrite map_ext; [apply (ho_ids h d Hh) |]. intros c. by rewrite (proj1 (Cfd_Recover_same _ _)), final_cfd_id. }
  { intros Hr cf Hn. apply (ho_skipped h d Hh) in Hn as [x Hn]. by rewrite (Hro Hr) in Hn. }
  intros cf. unfold GetColumnFamily. rewrite Ev, !find_map_cfd by (intros c; apply Cfd_Recover_same || apply final_cfd_id).
  assert (Hn : (forall t, d !! cf <> Some (Some t)) -> find (fun c => id_ c =? cf) (cfds h) = None).
  { intros Hn. destruct (find _ _) as [c |] eqn:E; [| done]. apply find_cfd in E as [Hc <-]. destruct (handler_ids h d (id_ c) Hh) as [t Et]; [by apply list_elem_of_fmap_2 |]. by destruct (Hn t). }
  destruct (d !! cf) as [[t |] |] eqn:Ed; [| by rewrite Hn | by rewrite Hn].
  destruct (handler_cfd h d cf Hh (ho_open h d Hh cf t Ed)) as (c & Ec & Eid & Hc & Hok). change (find _ (cfds h)) with (GetColumnFamily cf (version_set_ h)). rewrite Ec. cbn [fmap option_fmap option_map].
  eexists. split; [reflexivity |]. set (c' := final_cfd O (builders_ h) c). destruct (Cfd_Recover_same ingest c') as [_ Eo]. rewrite Eo.
  assert (Eo' : options_ c' = options_ c) by (unfold c', final_cfd; by destruct (builders_ h !! id_ c)). rewrite Eo'. intros Hr.
  assert (Hm := final_made O h d c t Hok ltac:(by rewrite Eid) (He cf t Ed) Hr). fold c' in Hm.
  rewrite (epochs_recovered ingest c' t (He cf t Ed)) by (by rewrite Eo'). pose proof (rc_laws _ _ Hr) as HL. by apply (made_files (TC := timestamps (options_ c)) (num_levels (options_ c))).
Qed.
Lemma start_epochs cf t n (x : Z * FileMetaData) : db_start !! cf = Some (Some t) -> t !! n = Some x -> epoch_number x.2 <> kUnknownEpochNumber.
Proof. unfold db_start. intros [_ [= <-]]%lookup_singleton_Some. done. Qed.

Section Recovery.
Context (O : HandlerOptions) (files : HandlerFiles) (Hpit : point_in_time_ O = false) (Htrack : handler_tracks_files_ O = false).
Context (Hts : Forall (fun x => timestamp_size (Comparator := comparator x.2) = 0) (column_families_ O)).
Context {FW : Type} {W : WritableFileWriter FW} {WL : WritableFileLaws FW} {FR : Type} {SF : SequentialFileReader FR} {SL : SequentialFileLaws FR}.
Context (v0 : VersionSet) (Hv0 : column_family_set_ v0 = []).

(** Without a default column family nothing is read. *)
Lemma Recover_uninitialised n fuel ingest (file : FR) s0 h0 : (0 < n)%nat -> Handler_Initialize O (NewVersionEditHandler v0) = Some (s0, h0) -> status_ok s0 = false ->
  exists st id v, Recover files n fuel O ingest file v0 = Some (st, id, v) /\ status_ok st = false.
Proof using Hpit.
  intros Hn Ei Es. unfold Recover, Iterate. cbn [handler read_buffer_ handler_status_ Initialize Handler_ops]. rewrite Ei. cbn [mbind option_bind].
  destruct n as [| n]; [lia |]. cbn [iterate_records]. rewrite Es. cbn [from_option negb orb mbind option_bind andb CheckIterationResult Handler_ops].
  rewrite Es. cbn [andb]. unfold Handler_CheckIterationResult, check_result. rewrite Es. cbn [negb mbind option_bind]. rewrite Es. cbn [handler_status_ handler]. rewrite Hpit, ?Es. eexists _, _, _. split; [reflexivity | done].
Qed.
Lemma Recover_finish n fuel ingest (file : FR) r off s h b (spec : option db) :
  Iterate (HO := Handler_ops O files) n fuel None (MakeReader file true 0) {| handler := NewVersionEditHandler v0; read_buffer_ := NewAtomicGroupReadBuffer; handler_status_ := Status_OK |} =
    ('(s, h) ← Handler_CheckIterationResult O files off s h;
     Some (r, Status_OK, {| handler := h; read_buffer_ := b; handler_status_ := if status_ok s then Status_OK else s |})) ->
  (status_ok s = true -> exists d, spec = Some d /\ handler_ok h d) -> (forall d cf t, spec = Some d -> d !! cf = Some (Some t) -> epochs_known t) ->
  exists st id v, Recover files n fuel O ingest file v0 = Some (st, id, v) /\ (status_ok st = true -> exists d, spec = Some d /\ recovered (read_only_ O) d v).
Proof using Hpit.
  intros E Hs He. unfold Recover. rewrite E. clear E. destruct (status_ok s) eqn:Es.
  - destruct (Hs eq_refl) as (d & -> & Hh). destruct (check_result_ok O files Hpit off s h d Hh) as (s' & h' & -> & _ & Hc). cbn [mbind option_bind handler handler_status_].
    destruct (status_ok s') eqn:Es'; cbn [status_ok]; [| eexists _, _, _; rewrite Es'; split; [reflexivity | by rewrite Es']].
    eexists _, _, _. split; [reflexivity |]. intros _. exists d. split; [done |]. apply (final_recovered O h d ingest); [done | by intros; eapply He | |].
    { rewrite <- (proj1 (Hc eq_refl)). done. } { apply Hc. done. }
  - unfold Handler_CheckIterationResult, check_result. rewrite Es. cbn [negb mbind option_bind]. rewrite Hpit, Es. cbn [handler handler_status_]. rewrite Es.
    eexists _, _, _. split; [reflexivity |]. by rewrite Es.
Qed.
Lemma crashed_recovered f recs1 recs2 w1 w2 s (file : FR) bs1 bs2 ingest : crashed f recs1 recs2 w1 w2 s file -> Forall batch_wf (bs1 ++ bs2) ->
  Forall2 encodes (concat bs1) recs1 -> Forall2 encodes (concat bs2) recs2 -> Forall (fun e => VersionEditProofs.edit_ok 0 e /\ sst_edit e) (concat (bs1 ++ bs2)) ->
  exists k, (s = IOStatus_OK -> remaining file = contents (dest_ w2) -> complete_batches k bs2 = bs2) /\
  forall n fuel, (length (recs1 ++ recs2) < n)%nat -> (length (remaining file) < fuel)%nat ->
  exists st id v, Recover files n fuel O ingest file v0 = Some (st, id, v) /\
    (status_ok st = true -> exists d, db_edits (opened O) (concat (bs1 ++ complete_batches k bs2)) db_start = Some d /\ recovered (read_only_ O) d v).
Proof using Hpit Htrack Hts Hv0 WL SL.
  intros Hcr Hwf He1 He2 Hok. pose proof Hok as Hok'. rewrite concat_app in Hok'. apply list.Forall_app in Hok' as [Hok1 Hok2].
  destruct (crashed_replay f recs1 recs2 w1 w2 s file (map (map read_back) bs1) (map (map read_back) bs2) Hcr) as (k & Hfull & Hrep).
  { rewrite <- map_app. apply list.Forall_fmap. eapply list.Forall_impl; [exact Hwf |]. apply batch_wf_read_back. }
  { rewrite <- concat_map. by apply encodes_all. }
  { rewrite <- concat_map. by apply encodes_all. }
  exists k. split.
  { intros Es Ef. specialize (Hfull Es Ef). rewrite complete_map in Hfull. apply (f_equal length) in Hfull. rewrite !length_map in Hfull.
    destruct (complete_prefix k bs2) as [l E]. rewrite E in Hfull at 2. rewrite length_app in Hfull. destruct l; [by rewrite app_nil_r in E | cbn in Hfull; lia]. }
  intros n fuel Hn Hfuel. destruct (Initialize_ok O Htrack Hts v0 Hv0) as (s0 & h0 & Ei & Hi). destruct (status_ok s0) eqn:Es0.
  2: { destruct (Recover_uninitialised n fuel ingest file s0 h0 ltac:(lia) Ei Es0) as (st & id & v & E & Est). exists st, id, v. split; [exact E |]. by rewrite Est. }
  destruct (Hi eq_refl) as (d0 & [= <-] & Hh0). set (bs := bs1 ++ complete_batches k bs2).
  assert (Hbs : Forall (fun e => VersionEditProofs.edit_ok 0 e /\ sst_edit e) (concat bs)).
  { unfold bs. rewrite concat_app. apply list.Forall_app. split; [done |]. destruct (complete_prefix k bs2) as [l E]. rewrite E, concat_app in Hok2. by apply list.Forall_app in Hok2 as [? _]. }
  destruct (replay_batches_ok O files Hpit Htrack Hts (map (map read_back) bs)) with (h := h0) (d := db_start) as (sr & h & Er & Hr); [| done |].
  { apply Forall_concat. rewrite <- concat_map. apply list.Forall_fmap. eapply list.Forall_impl; [exact Hbs |]. intros e [? ?]. by apply plain_read_back. }
  unfold bs in Er. rewrite map_app, <- complete_map in Er.
  destruct (Hrep _ (Handler_ops O files) {| handler := NewVersionEditHandler v0; read_buffer_ := NewAtomicGroupReadBuffer; handler_status_ := Status_OK |} s0 h0 sr h eq_refl Ei Es0 Er n fuel Hn Hfuel)
    as (r' & s' & b & [Ho _] & E). apply (Recover_finish _ _ ingest _ _ _ _ _ _ _ E).
  - intros Hs. destruct Hr as (d & Ed & Hh); [congruence |]. exists d. split; [| done]. by rewrite <- concat_map, db_edits_read_back in Ed.
  - intros d cf t Ed Et m level g Eg. refine (db_edits_elem (fun _ x => epoch_number x.2 <> kUnknownEpochNumber) (opened O) (concat bs) _ db_start d start_epochs Ed cf t m (level, g) Et Eg).
    eapply list.Forall_impl; [exact Hbs |]. intros e [He _]. eapply list.Forall_impl; [apply (eo_files 0 e He) |]. intros x [_ Hx]. exact (fo_epoch 0 x.2 Hx).
Qed.
End Recovery.


(** ** A flush, then a crash in the middle of an atomic group *)

Definition example_new_db : VersionEdit :=
  NewVersionEdit <| VersionEdit.log_number_ := Some 0 |> <| next_file_number_ := Some 2 |> <| last_sequence_ := Some 0 |> <| comparator_ := Some (comparator_name DefaultColumnFamilyOptions) |>.
Definition example_group : list VersionEdit :=
  [NewVersionEdit <| new_files_ := [(1, example_file 14 3 Byte.x61 Byte.x62)] |> <| is_in_atomic_group_ := true |> <| remaining_entries_ := 1 |>;
   NewVersionEdit <| deleted_files_ := [(0, 10)] |> <| is_in_atomic_group_ := true |> <| remaining_entries_ := 0 |>].
Definition example_records (es : list VersionEdit) : list bytes :=
  map (fun e => match EncodeTo e (Some 0) with Some (_, r) => r | None => [] end) es.
Definition example_manifest (recs : list bytes) (w : Writer MemFile) : Writer MemFile :=
  match write_log w (map LogRecord recs) with Some (_, w) => w | None => w end.
Definition example_recs1 : list bytes := example_records [example_new_db; example_flush].
Definition example_recs2 : list bytes := example_records example_group.
Definition example_w1 : Writer MemFile := example_manifest example_recs1 (MakeWriter ex_file 0 false false).
Definition example_w2 : Writer MemFile := example_manifest example_recs2 example_w1.
(** All but the last byte. *)
Definition example_left : MemInput := {| mem_rest := removelast (mem_contents (dest_ example_w2)); mem_fail := false |}.
Definition example_files : HandlerFiles := {| LoadTableHandlers _ _ := Status_OK; VerifyFileMetadata _ _ _ := Status_OK; GetBlobFileReader _ _ := Status_OK |}.
Lemma example_crashed : crashed ex_file example_recs1 example_recs2 example_w1 example_w2 IOStatus_OK example_left.
Proof.
  split; [done | done | vm_compute; reflexivity | vm_compute; reflexivity | | | done].
  - exists (drop (length (mem_contents (dest_ example_w1))) (mem_rest example_left)). vm_compute. reflexivity.
  - exists (drop (length (mem_rest example_left)) (mem_contents (dest_ example_w2))). vm_compute. reflexivity.
Qed.

(** ** A version that is not consistent *)

Definition overlapping_edit : VersionEdit :=
  NewVersionEdit <| new_files_ := [(1, example_file 10 1 Byte.x61 Byte.x63); (1, example_file 11 2 Byte.x62 Byte.x64)] |>.
Definition overlapping_manifest : MemInput :=
  {| mem_rest := mem_contents (dest_ (example_manifest (example_records [example_new_db; overlapping_edit]) (MakeWriter ex_file 0 false false))); mem_fail := false |}.
