(* ===== verification/ManifestWriterProofs.v ===== *)
(** The edits that are written to the MANIFEST form complete atomic groups, also when column families were dropped meanwhile, and
    do to the files of the column families what the new versions show. *)

From stdpp Require Import gmap sorting.
From S2P Require Import Prelude Algorithms Coding Comparator DbFormat Status LogWriter LogReader LogProofs VersionEdit VersionEditProofs VersionStorage VersionBuilder VersionBuilderProofs VersionSaveProofs VersionBuilderTheorems Manifest ManifestProofs VersionSet VersionEditHandler VersionEditHandlerProofs ManifestWriter.

Open Scope record_scope.

(** * Atomic groups *)

(** Edits of an atomic group that come last in it. *)
Definition group_tail (es : list VersionEdit) : Prop := slen es < 2 ^ 32 /\
  forall i e, es !! i = Some e -> is_in_atomic_group_ e = true /\ remaining_entries_ e = slen es - 1 - Z.of_nat i.
Lemma batch_cases es : batch_wf es -> (exists e, es = [e] /\ is_in_atomic_group_ e = false) \/ (es <> [] /\ group_tail es).
Proof. intros [H | [Hl H]]; [by left |]. right. split; [intros ->; cbn in Hl; unfold slen in Hl; cbn in Hl; lia |]. split; [lia | done]. Qed.
Lemma group_tail_wf es : es <> [] -> group_tail es -> batch_wf es.
Proof. intros Hne [Hl H]. right. split; [| done]. split; [| done]. unfold slen. destruct es; [done | cbn; lia]. Qed.
Lemma group_tail_nil : group_tail [].
Proof. split; [done |]. intros i e E. by rewrite lookup_nil in E. Qed.
Lemma group_tail_app l r : group_tail (l ++ r) -> group_tail r.
Proof.
  intros [Hl H]. unfold group_tail, slen in *. rewrite length_app in *. split; [lia |]. intros i e E. destruct (H (length l + i)%nat e) as [Hg Hr].
  { by rewrite lookup_app_r, Nat.add_comm, Nat.add_sub by lia. } split; [done | lia].
Qed.
(** What tells the edits of a group. *)
Definition grouping (e e' : VersionEdit) : Prop := is_in_atomic_group_ e' = is_in_atomic_group_ e /\ remaining_entries_ e' = remaining_entries_ e.

(** The edits so far: complete batches, and some edits of a group of which [rest] is still to come, each with how many follow it. *)
Definition written (rest edits : list VersionEdit) (start : option nat) : Prop :=
  exists bs kept, edits = concat bs ++ kept /\ Forall batch_wf bs /\ slen kept + slen rest < 2 ^ 32 /\
    (forall j e, kept !! j = Some e -> is_in_atomic_group_ e = true /\ remaining_entries_ e = slen rest + (slen kept - 1 - Z.of_nat j)) /\
    (kept <> [] -> rest <> [] /\ start = Some (length (concat bs))).
Definition open_group (edits : list VersionEdit) : bool :=
  match list.last edits with Some e => is_in_atomic_group_ e && (remaining_entries_ e >? 0) | None => false end.
Lemma in_open_group_edits b : in_open_group b = open_group (map fst (batch_edits b)).
Proof. unfold in_open_group, open_group. change (map fst (batch_edits b)) with (fst <$> batch_edits b). rewrite fmap_last. by destruct (list.last (batch_edits b)) as [[e ts] |]. Qed.
Lemma closed_group bs : Forall batch_wf bs -> open_group (concat bs) = false.
Proof.
  intros Hbs. unfold open_group. destruct (list.last (concat bs)) as [e |] eqn:El; [| done]. induction Hbs as [| es bs Hes Hbs IH]; [done |]. cbn [concat] in El.
  destruct (concat bs) as [| y l] eqn:Ec.
  - rewrite app_nil_r in El. destruct (batch_cases es Hes) as [(e' & -> & Hg) | [Hne [Hl H]]]; [cbn in El; injection El as <-; by rewrite Hg |].
    rewrite last_lookup in El. destruct (H _ _ El) as [-> ->]. unfold slen. assert (length es <> 0%nat) by (by destruct es). destruct (Z.gtb_spec (Z.of_nat (length es) - 1 - Z.of_nat (pred (length es))) 0); [lia | done].
  - apply IH. rewrite <- El, last_app. by destruct (list.last (y :: l)) as [z |] eqn:E; [| apply last_None in E].
Qed.
Lemma opened_group bs (kept rest : list VersionEdit) : kept <> [] -> slen rest > 0 ->
  (forall j e, kept !! j = Some e -> is_in_atomic_group_ e = true /\ remaining_entries_ e = slen rest + (slen kept - 1 - Z.of_nat j)) -> open_group (concat bs ++ kept) = true.
Proof.
  intros Hk Hr H. unfold open_group. rewrite last_app. destruct (list.last kept) as [e |] eqn:E; [| by apply last_None in E].
  rewrite last_lookup in E. destruct (H _ _ E) as [-> ->]. unfold slen in *. assert (length kept <> 0%nat) by (by destruct kept).
  destruct (Z.gtb_spec (Z.of_nat (length rest) + (Z.of_nat (length kept) - 1 - Z.of_nat (pred (length kept)))) 0); [done | lia].
Qed.

(** The edits that are still to come: those of the group that was begun, and whole batches. *)
Definition to_come (rest S : list VersionEdit) : Prop := group_tail rest /\ exists bs, Forall batch_wf bs /\ S = rest ++ concat bs.
Lemma written_open rest edits start : written [] edits start -> group_tail rest -> written rest edits start.
Proof.
  intros (bs & kept & -> & Hbs & _ & _ & Hk) [Hl _]. assert (kept = []) as -> by (destruct kept; [done | by destruct Hk]).
  exists bs, []. split_and!; [done | done | unfold slen in *; cbn [length]; lia | done | done].
Qed.
Lemma written_add e e' rest edits start : written (e :: rest) edits start -> group_tail (e :: rest) -> grouping e e' ->
  written rest (edits ++ [e']) (if open_group edits then start else Some (length edits)).
Proof.
  intros (bs & kept & -> & Hbs & Hsz & Hkept & Hk) [_ Ht] [Hg Hr]. destruct (Ht 0%nat e eq_refl) as [Hg0 Hr0].
  assert (Hkept' : forall j x, (kept ++ [e']) !! j = Some x -> is_in_atomic_group_ x = true /\ remaining_entries_ x = slen rest + (slen (kept ++ [e']) - 1 - Z.of_nat j)).
  { intros j x E. unfold slen in *. rewrite length_app. cbn [length] in *. apply lookup_app_Some in E as [E | [Hj E]].
    - destruct (Hkept j x E) as [? ->]. split; [done | lia].
    - assert (j = length kept) as -> by (apply lookup_lt_Some in E; cbn in E; lia). rewrite Nat.sub_diag in E. injection E as <-. rewrite Hg, Hr, Hr0. split; [done | lia]. }
  assert (Hstart : (if open_group (concat bs ++ kept) then start else Some (length (concat bs ++ kept))) = Some (length (concat bs))).
  { destruct (decide (kept = [])) as [-> | Hne]; [by rewrite app_nil_r, closed_group |]. rewrite (opened_group bs kept (e :: rest)); [by apply Hk | done | unfold slen; cbn [length]; lia | done]. }
  rewrite Hstart, <- app_assoc. unfold slen in Hsz. cbn [length] in Hsz. destruct rest as [| e1 rest].
  - exists (bs ++ [kept ++ [e']]), []. rewrite concat_app. cbn [concat]. rewrite !app_nil_r. split_and!; [done | | unfold slen; cbn [length]; lia | done | done].
    apply list.Forall_app. split; [done |]. apply list.Forall_singleton. apply group_tail_wf; [by destruct kept |]. split; [unfold slen; rewrite length_app; cbn [length]; lia |].
    intros j x E. destruct (Hkept' j x E) as [? ->]. split; [done |]. unfold slen. cbn [length]. lia.
  - exists bs, (kept ++ [e']). split_and!; [done | done | unfold slen; rewrite length_app; cbn [length] in *; lia | done | done].
Qed.
Lemma written_single e' edits start : written [] edits start -> is_in_atomic_group_ e' = false -> written [] (edits ++ [e']) None.
Proof.
  intros (bs & kept & -> & Hbs & Hsz & _ & Hk) Hg. assert (kept = []) as -> by (destruct kept; [done | by destruct Hk]).
  exists (bs ++ [[e']]), []. rewrite concat_app. cbn [concat]. rewrite !app_nil_r. split_and!; [done | | done | done | done].
  apply list.Forall_app. split; [done |]. apply list.Forall_singleton. left. by exists e'.
Qed.

Lemma written_next e e' rest S edits start : to_come rest (e :: S) -> written rest edits start -> grouping e e' -> exists rest', to_come rest' S /\
  written rest' (edits ++ [e']) (if is_in_atomic_group_ e then if open_group edits then start else Some (length edits) else None).
Proof.
  intros [Ht (bs & Hbs & Es)] Hw Hg. destruct rest as [| e0 rest].
  - destruct bs as [| es bs]; [done |]. apply list.Forall_cons in Hbs as [Hes Hbs]. cbn [concat app] in Es. destruct (batch_cases es Hes) as [(e0 & -> & He) | [Hne Hes']].
    + injection Es as <- ->. rewrite He. exists []. split; [split; [apply group_tail_nil | by exists bs] |]. eapply written_single; [exact Hw |]. by rewrite (proj1 Hg).
    + destruct es as [| e0 es]; [done |]. injection Es as <- ->. destruct (proj2 Hes' 0%nat e eq_refl) as [-> _]. exists es. split; [split; [exact (group_tail_app [e] _ Hes') | by exists bs] |].
      apply (written_add e e'); [by apply written_open | done | done].
  - injection Es as <- ->. destruct (proj2 Ht 0%nat e eq_refl) as [-> _]. exists rest. split; [split; [exact (group_tail_app [e] _ Ht) | by exists bs] |]. by apply (written_add e e').
Qed.

(** ** Edits of a dropped column family *)

Lemma edits_of_group_prefix l rest : group_tail (l ++ rest) -> rest <> [] -> edits_of_group l = slen l.
Proof.
  induction l as [| e l IH]; intros Ht Hr; [done |]. pose proof Ht as [_ H]. destruct (H 0%nat e eq_refl) as [Hg Hrem]. cbn [edits_of_group]. rewrite Hg, Hrem. cbn [negb].
  rewrite IH; [| exact (group_tail_app [e] _ Ht) | done]. unfold slen. cbn [length app]. rewrite length_app. assert (length rest <> 0%nat) by (by destruct rest).
  destruct (Z.eqb_spec (Z.of_nat (S (length l + length rest)) - 1 - Z.of_nat 0) 0); lia.
Qed.
Lemma edits_of_group_all rest l : group_tail rest -> rest <> [] -> edits_of_group (rest ++ l) = slen rest.
Proof.
  induction rest as [| e rest IH]; intros Ht Hr; [done |]. pose proof Ht as [_ H]. destruct (H 0%nat e eq_refl) as [Hg Hrem]. cbn [edits_of_group app]. rewrite Hg, Hrem. cbn [negb].
  unfold slen. cbn [length]. destruct rest as [| e1 rest]; [done |]. rewrite IH; [| exact (group_tail_app [e] _ Ht) | done]. unfold slen. cbn [length].
  destruct (Z.eqb_spec (Z.of_nat (S (S (length rest))) - 1 - Z.of_nat 0) 0); lia.
Qed.
Lemma consume_batches bs : Forall batch_wf bs -> forall l S, concat bs = l ++ S -> exists rest, to_come rest S.
Proof.
  induction 1 as [| es bs Hes Hbs IH]; intros l S E; cbn [concat] in E.
  { symmetry in E. apply app_eq_nil in E as [-> ->]. exists []. split; [apply group_tail_nil |]. by exists []. }
  destruct (decide (length l <= length es)%nat) as [Hl | Hl].
  - apply app_eq_inv in E as [(r & -> & ->) | (r & -> & E)].
    + destruct (batch_cases (l ++ r) Hes) as [(e & E & Hg) | [_ Ht]]; [| exists r; split; [by apply group_tail_app in Ht | by exists bs]].
      destruct l as [| e1 l]; cbn in E.
      * exists []. split; [apply group_tail_nil |]. exists (r :: bs). split; [| done]. constructor; [| done]. left. exists e. done.
      * destruct l; [| done]. destruct r; [| done]. exists []. split; [apply group_tail_nil |]. by exists bs.
    + rewrite length_app in Hl. destruct r; [| cbn in Hl; lia]. cbn in E. subst S. exists []. split; [apply group_tail_nil |]. by exists bs.
  - apply app_eq_inv in E as [(r & -> & _) | (r & -> & E)]; [rewrite length_app in Hl; lia |]. by apply (IH r S).
Qed.
Definition fewer (k : Z) (e : VersionEdit) : VersionEdit := e <| remaining_entries_ := u32 (remaining_entries_ e - k) |>.
Definition skip_edits (l edits : list VersionEdit) (start : option nat) : list VersionEdit :=
  if open_group edits then match start with None => edits | Some start => imap (fun i e => if (start <=? i)%nat then fewer (u32 (edits_of_group l)) e else e) edits end else edits.
Lemma skip_writer_edits l b : map fst (batch_edits (skip_writer l b)) = skip_edits l (map fst (batch_edits b)) (group_start b).
Proof.
  unfold skip_writer, skip_edits. rewrite in_open_group_edits. destruct (open_group _); [| done]. destruct (group_start b) as [start |]; [| done]. cbn [batch_edits].
  change (map fst ?l) with (fst <$> l). rewrite fmap_imap, imap_fmap. apply imap_ext. intros i x _. cbn. by destruct (start <=? i)%nat.
Qed.
Lemma imap_after (f : VersionEdit -> VersionEdit) l1 l2 : imap (fun i e => if (length l1 <=? i)%nat then f e else e) (l1 ++ l2) = l1 ++ map f l2.
Proof.
  rewrite imap_app. f_equal.
  - transitivity (imap (fun _ e => e) l1); [| exact (eq_trans (imap_const id l1) (list_fmap_id l1))]. apply imap_ext. intros i x E. apply lookup_lt_Some in E. by destruct (Nat.leb_spec (length l1) i); [lia |].
  - transitivity (imap (fun _ e => f e) l2); [| exact (imap_const f l2)]. apply imap_ext. intros i x _. cbn. by destruct (Nat.leb_spec (length l1) (length l1 + i)); [| lia].
Qed.
(** The edits of the open group with fewer to come: [rest] instead of [l ++ rest]. *)
Lemma written_fewer bs kept (l rest : list VersionEdit) start : Forall batch_wf bs -> kept <> [] -> slen kept + (slen l + slen rest) < 2 ^ 32 ->
  (forall j e, kept !! j = Some e -> is_in_atomic_group_ e = true /\ remaining_entries_ e = slen l + slen rest + (slen kept - 1 - Z.of_nat j)) ->
  start = Some (length (concat bs)) -> written rest (concat bs ++ map (fewer (u32 (slen l))) kept) start.
Proof.
  intros Hbs Hk Hsz Hkept ->. unfold slen in *. rewrite wrap_small by (unfold fits; lia).
  assert (Hkept' : forall j e, map (fewer (Z.of_nat (length l))) kept !! j = Some e -> is_in_atomic_group_ e = true /\ remaining_entries_ e = Z.of_nat (length rest) + (Z.of_nat (length kept) - 1 - Z.of_nat j)).
  { intros j e E. rewrite list_lookup_fmap in E. destruct (kept !! j) as [x |] eqn:Ej; [| done]. injection E as <-. destruct (Hkept j x Ej) as [Hg Hr]. apply lookup_lt_Some in Ej.
    split; [done |]. cbn. rewrite Hr, wrap_small by (unfold fits; lia). lia. }
  set (kept' := map _ kept) in *. assert (Hl : length kept' = length kept) by apply length_map. assert (Hne : kept' <> []) by (unfold kept'; by destruct kept).
  destruct rest as [| e rest].
  - exists (bs ++ [kept']), []. rewrite concat_app. cbn [concat]. rewrite !app_nil_r. split_and!; [done | | done | done | done]. apply list.Forall_app. split; [done |].
    apply list.Forall_singleton, group_tail_wf; [done |]. split; unfold slen; rewrite Hl; [lia |]. intros j x E. destruct (Hkept' j x E) as [? ->]. split; [done | cbn [length]; lia].
  - exists bs, kept'. unfold slen. rewrite Hl. split_and!; [done | done | lia | done | done].
Qed.
Lemma written_skip l S rest edits start : to_come rest (l ++ S) -> written rest edits start -> exists rest', to_come rest' S /\ written rest' (skip_edits l edits start) start.
Proof.
  intros [Ht (bs' & Hbs' & Es)] Hw. pose proof Hw as (bs & kept & -> & Hbs & Hsz & Hkept & Hk). unfold skip_edits.
  symmetry in Es. destruct (decide (kept = [])) as [-> | Hne].
  { rewrite app_nil_r, closed_group by done. assert (Hw0 : written [] (concat bs) start).
    { exists bs, []. split_and!; [by rewrite app_nil_r | done | done | done | done]. }
    apply app_eq_inv in Es as [(r & -> & ->) | (r & -> & Er)].
    - exists r. split; [split; [by apply group_tail_app in Ht | by exists bs'] |]. apply written_open; [done | by apply group_tail_app in Ht].
    - destruct (consume_batches bs' Hbs' r S Er) as [rest' Hc]. exists rest'. split; [done |]. apply written_open; [done | apply Hc]. }
  destruct (Hk Hne) as [Hr ->]. assert (Hr0 : slen rest > 0) by (unfold slen; destruct rest; [done | cbn [length]; lia]).
  rewrite (opened_group bs kept rest), imap_after by done.
  apply app_eq_inv in Es as [(r & -> & ->) | (r & -> & Er)].
  - exists r. split; [split; [by apply group_tail_app in Ht | by exists bs'] |]. assert (Hl : slen (l ++ r) = slen l + slen r) by (unfold slen; rewrite length_app; lia). rewrite Hl in *.
    assert (edits_of_group l = slen l) as ->.
    { destruct r as [| e r]; [| by apply (edits_of_group_prefix l (e :: r))]. rewrite app_nil_r in *. rewrite <- (app_nil_r l) at 1. by apply edits_of_group_all. }
    by apply written_fewer.
  - destruct (consume_batches bs' Hbs' r S Er) as [rest' Hc]. exists rest'. split; [done |]. rewrite edits_of_group_all by done. apply written_open; [| apply Hc].
    apply written_fewer; try done; unfold slen in *; cbn [length]; [lia |]. intros j e E. destruct (Hkept j e E) as [? ->]. split; [done | lia].
Qed.
Lemma skip_edits_Forall (P : VersionEdit -> Prop) l rest edits start : written rest edits start -> (forall e k, P e -> is_in_atomic_group_ e = true -> P (fewer k e)) ->
  Forall P edits -> Forall P (skip_edits l edits start).
Proof.
  intros (bs & kept & -> & Hbs & Hsz & Hkept & Hk) HP HF. unfold skip_edits. destruct (decide (kept = [])) as [-> | Hne]; [by rewrite app_nil_r, closed_group in * |].
  destruct (open_group _); [| done]. destruct (Hk Hne) as [_ ->]. rewrite imap_after. apply list.Forall_app in HF as [H1 H2]. apply list.Forall_app. split; [done |].
  apply list.Forall_fmap, list.Forall_forall. intros e He. apply HP; [exact (proj1 (list.Forall_forall _ _) H2 e He) |].
  apply list_elem_of_lookup in He as [j E]. by apply Hkept in E as [? _].
Qed.

(** * What an edit does to the files *)

(** The fields that say what an edit does to the files. *)
Definition same_core (e e' : VersionEdit) : Prop :=
  (column_family_ e', is_column_family_add_ e', is_column_family_drop_ e', column_family_name_ e', wal_additions_ e', wal_deletion_ e', deleted_files_ e', new_files_ e') =
  (column_family_ e, is_column_family_add_ e, is_column_family_drop_ e, column_family_name_ e, wal_additions_ e, wal_deletion_ e, deleted_files_ e, new_files_ e).
Lemma same_core_apply op e e' d : same_core e e' -> db_apply op e' d = db_apply op e d.
Proof. unfold same_core. intros H. injection H as H1 H2 H3 H4 H5 H6 H7 H8. unfold db_apply, lsm_apply. by rewrite H1, H2, H3, H4, H5, H6, H7, H8. Qed.
Lemma same_core_edits op es es' : Forall2 same_core es es' -> forall d, db_edits op es' d = db_edits op es d.
Proof.
  induction 1 as [| e e' es es' He Hes IH]; intros d; [done |]. cbn [db_edits]. rewrite (same_core_apply op e e') by done. destruct (db_apply op e d); [apply IH | done].
Qed.
#[local] Instance same_core_refl : Reflexive same_core.
Proof. done. Qed.
Lemma skip_edits_core l edits start : Forall2 same_core edits (skip_edits l edits start).
Proof.
  unfold skip_edits. destruct (open_group edits), start as [start |]; try reflexivity. apply Forall2_same_length_lookup. split; [by rewrite length_imap |].
  intros i e e' E E'. rewrite list_lookup_imap, E in E'. injection E' as <-. by destruct (start <=? i)%nat.
Qed.
Lemma complete_edit_keeps v e m : let e' := (complete_edit v e m).1 in same_core e e' /\ grouping e e' /\
  blob_file_additions_ e' = blob_file_additions_ e /\ blob_file_garbages_ e' = blob_file_garbages_ e /\ compact_cursors_ e' = compact_cursors_ e.
Proof. unfold complete_edit. destruct (prev_log_number_ e); cbn; (destruct (last_sequence_ e) as [n |]; cbn; [destruct (n >? m); cbn |]); done. Qed.

(** * The batch *)

Section Batch.
Context (v : VersionSet) (op : bytes -> bool) (P : VersionEdit -> Prop).

(** A current version with its files. *)
Definition in_use (c : ColumnFamilyData) (t : lsm) : Prop := located (current_ c) /\ version_files (current_ c) = t /\
  status_ok (CheckConsistency (C := comparator (options_ c)) (num_levels_ (current_ c)) (current_ c)) = true /\ blob_files_ (current_ c) = [].
(** The files are on the levels of the column family and have their bounds in order. *)
Definition placed (c : ColumnFamilyData) (t : lsm) : Prop := bounded_files (C := comparator (options_ c)) t /\
  forall n level f, t !! n = Some (level, f) -> level < Z.of_nat (num_levels (options_ c)).
(** The builders stand for the files that the edits leave. *)
Record built (d : db) (vs : list (Z * Rep)) : Prop := {
  bt_families c : c ∈ column_family_set_ v -> exists t, d !! id_ c = Some (Some t) /\ placed c t /\
    match find_builder (id_ c) vs with Some r => reps (current_ c) false r t /\ no_blobs r | None => in_use c t end;
  bt_ids : NoDup (map fst vs);
  bt_known cf r : (cf, r) ∈ vs -> cf ∈ map id_ (column_family_set_ v);
}.
(** An edit of the files or of the WALs. *)
Record family_edit_ok (c : ColumnFamilyData) (e : VersionEdit) : Prop := {
  fe_family : column_family_ e = id_ c;
  fe_kind : IsColumnFamilyManipulation e = false;
  fe_plain : VersionBuilderTheorems.edit_ok (C := comparator (options_ c)) (num_levels (options_ c)) e /\ sst_edit e;
  fe_wal : wal_additions_ e <> [] \/ wal_deletion_ e <> 0 -> deleted_files_ e = [] /\ new_files_ e = [];
}.
Lemma find_set_rep cf r vs cf' : find_builder cf' (set_rep cf r vs) = if cf' =? cf then (fun _ => r) <$> find_builder cf' vs else find_builder cf' vs.
Proof using.
  unfold find_builder, set_rep. induction vs as [| [x r0] vs IH]; cbn [map find]; [by destruct (_ =? _) |]. cbn [fst]. destruct (Z.eqb_spec x cf) as [-> | Hne]; cbn [fst].
  - destruct (Z.eqb_spec cf cf') as [<- | Hcf]; [by rewrite Z.eqb_refl |]. rewrite IH. by destruct (Z.eqb_spec cf' cf); [lia |].
  - destruct (Z.eqb_spec x cf') as [-> | Hx]; [by destruct (Z.eqb_spec cf' cf); [lia |] | apply IH].
Qed.
Lemma find_add_rep cf r vs cf' : find_builder cf vs = None -> find_builder cf' (vs ++ [(cf, r)]) = if cf' =? cf then Some r else find_builder cf' vs.
Proof using.
  unfold find_builder. induction vs as [| [x r0] vs IH]; cbn [app find fst]; intros E.
  - rewrite Z.eqb_sym. by destruct (_ =? _).
  - destruct (Z.eqb_spec x cf); [done |]. destruct (Z.eqb_spec x cf'); [| by apply IH]. destruct (Z.eqb_spec cf' cf); [lia | done].
Qed.
Lemma family_apply c e d t : family_edit_ok c e -> d !! id_ c = Some (Some t) -> db_apply op e d = t' ← lsm_apply e t; Some (<[id_ c := Some t']> d).
Proof using.
  intros [Hf Hk _ Hw] Ed. unfold db_apply. unfold IsColumnFamilyManipulation in Hk. apply orb_false_iff in Hk as [-> ->]. rewrite Hf, Ed.
  destruct (negb (bool_decide (wal_additions_ e = [])) || negb (wal_deletion_ e =? 0)) eqn:E; [| done].
  destruct Hw as [H1 H2]; [apply orb_true_iff in E as [E | E]; [left; by apply negb_true_iff, bool_decide_eq_false in E | right; by apply negb_true_iff, Z.eqb_neq in E] |].
  unfold lsm_apply. rewrite H1, H2. cbn. by rewrite insert_id.
Qed.
Lemma placed_apply c e t t' : placed c t -> VersionBuilderTheorems.edit_ok (C := comparator (options_ c)) (num_levels (options_ c)) e -> lsm_apply e t = Some t' -> placed c t'.
Proof using.
  intros [Hb Hl] [_ Hn] E. assert (H : forall n x, t' !! n = Some x -> t !! n = Some x \/ x.1 < Z.of_nat (num_levels (options_ c)) /\
    InternalKeyComparator_Compare (C := comparator (options_ c)) (smallest x.2) (largest x.2) <= 0).
  { intros n x. apply (lsm_edits_elem (fun _ x => x.1 < Z.of_nat (num_levels (options_ c)) /\ InternalKeyComparator_Compare (C := comparator (options_ c)) (smallest x.2) (largest x.2) <= 0) [e]);
      [| cbn; by rewrite E]. constructor; [| done]. eapply list.Forall_impl; [exact Hn |]. intros y [[_ ?] ?]. done. }
  split.
  - intros n level f Ex. destruct (H n (level, f) Ex) as [Ex' | [_ ?]]; [by apply (Hb n level) | done].
  - intros n level f Ex. destruct (H n (level, f) Ex) as [Ex' | [? _]]; [by apply (Hl n level f) | done].
Qed.
Lemma set_rep_ids cf r vs : map fst (set_rep cf r vs) = map fst vs.
Proof using. unfold set_rep. rewrite map_map. apply map_ext. intros [x r0]. cbn. by destruct (x =? cf). Qed.
Lemma set_rep_known cf0 r0 cf r vs : (cf0, r0) ∈ set_rep cf r vs -> exists r1, (cf0, r1) ∈ vs.
Proof using. unfold set_rep. intros ([x r1] & E & Hin)%list_elem_of_fmap. exists r1. cbn in E. destruct (x =? cf); injection E as -> _; done. Qed.
Lemma wal_manipulation e : IsWalManipulation e = true -> wal_additions_ e <> [] \/ wal_deletion_ e <> 0.
Proof using.
  unfold IsWalManipulation, wal_deletions, slen. intros [H1 H2]%andb_true_iff. destruct (decide (wal_additions_ e = [])) as [E | ?]; [right | by left]. rewrite E in H2. cbn [length] in H2.
  destruct (Z.eqb_spec (wal_deletion_ e) 0); [| done]. exfalso. apply orb_true_iff in H2. rewrite !Z.eqb_eq in H2. apply Z.gtb_lt in H1. cbn in H2. lia.
Qed.

Context (Hids : NoDup (map id_ (column_family_set_ v))).
Lemma same_cfd_id c c' : c ∈ column_family_set_ v -> c' ∈ column_family_set_ v -> id_ c' = id_ c -> c' = c.
Proof using Hids.
  intros Hc Hc' E. pose proof (find_cfd_member _ c' Hids Hc') as E1. pose proof (find_cfd_member _ c Hids Hc) as E2. rewrite E, E2 in E1. congruence.
Qed.
Lemma helper_ok c e b d : c ∈ column_family_set_ v -> built d (versions b) -> family_edit_ok c e -> (find_builder (id_ c) (versions b) = None -> IsWalManipulation e = true) ->
  (forall c, c ∈ column_family_set_ v -> status_ok (CheckConsistency (C := comparator (options_ c)) (num_levels_ (current_ c)) (current_ c)) = true) ->
  exists s vs, LogAndApplyHelper v c e b = Some (s, (complete_edit v e (max_last_sequence b)).1, (complete_edit v e (max_last_sequence b)).2, vs) /\
    (find_builder (id_ c) vs = None -> find_builder (id_ c) (versions b) = None) /\ (status_ok s = true -> exists d', db_apply op e d = Some d' /\ built d' vs).
Proof using Hids.
  intros Hc Hb He Hwal Hcons. unfold LogAndApplyHelper. pose proof (complete_edit_keeps v e (max_last_sequence b)) as (Hcore & _ & Hbl1 & Hbl2 & Hcc).
  destruct (complete_edit v e (max_last_sequence b)) as [e' m]. cbn [fst snd] in *. pose proof Hb as [Hfam Hnd Hknown]. destruct (Hfam c Hc) as (t & Et & Hpl & Hr). rewrite (family_apply c e d t He Et).
  destruct (find_builder (id_ c) (versions b)) as [r |] eqn:Er.
  - destruct Hr as [Hr Hnb]. injection Hcore as _ _ _ _ _ _ H7 H8. destruct He as [_ _ [He1 He2] _].
    pose proof (edit_ok_wf (C := comparator (options_ c)) _ (fun _ _ => Status_OK) [e] ltac:(by constructor)) as [Hwf _]%list.Forall_cons.
    destruct (Apply_refines (C := comparator (options_ c)) (current_ c) false (fun _ _ => Status_OK) (fun _ => Status_OK) e' r t Hr) as (s & r' & E & Hok & _).
    { unfold edit_wf in Hwf |- *. by rewrite H7, H8. } { by apply Hcons. }
    rewrite E. cbn [mbind option_bind]. eexists _, _. split; [done |]. split; [by rewrite find_set_rep, Z.eqb_refl, Er |].
    intros Hs. destruct (Hok Hs) as (t' & El & Hr'). unfold lsm_apply in *. rewrite H7, H8 in El. rewrite El. cbn [mbind option_bind].
    eexists. split; [done |]. split.
    + intros c' Hc'. rewrite find_set_rep. destruct (Z.eqb_spec (id_ c') (id_ c)) as [Eid | Hne].
      * rewrite (same_cfd_id c c' Hc Hc' Eid), Er. exists t'. rewrite lookup_insert_eq. split; [done |]. split; [by apply (placed_apply c e t) |].
        split; [done |]. eapply no_blobs_Apply; [| exact Hnb | exact E]. unfold sst_edit in *. by rewrite Hbl1, Hbl2, Hcc.
      * rewrite lookup_insert_ne by congruence. by apply Hfam.
    + by rewrite set_rep_ids.
    + intros cf r0 Hin. apply (set_rep_known cf r0) in Hin as [r1 Hin]. by apply (Hknown cf r1).
  - eexists _, _. split; [done |]. split; [done |]. intros _. destruct (fe_wal c e He (wal_manipulation e (Hwal eq_refl))) as [H1 H2]. unfold lsm_apply. rewrite H1, H2. cbn [lsm_each mbind option_bind].
    eexists. split; [done |]. by rewrite insert_id.
Qed.

(** Where the collection of the edits is: [d0] are the files before. *)
Context (d0 : db) (Q : VersionEdit -> Prop).
Context (HPc : forall e m, fits 64 m -> Q e -> P (complete_edit v e m).1 /\ fits 64 (complete_edit v e m).2).
Context (HPf : forall e k, P e -> is_in_atomic_group_ e = true -> P (fewer k e)).
Context (Hcons : forall c, c ∈ column_family_set_ v -> cfd_ts_sz c = 0 /\ status_ok (CheckConsistency (C := comparator (options_ c)) (num_levels_ (current_ c)) (current_ c)) = true).
Record collected (rest : list VersionEdit) (b : Batch) : Prop := {
  cl_files : exists d, db_edits op (map fst (batch_edits b)) d0 = Some d /\ built d (versions b);
  cl_groups : written rest (map fst (batch_edits b)) (group_start b);
  cl_edits : Forall P (map fst (batch_edits b));
  cl_sizes : Forall (fun ts_sz => ts_sz = Some 0) (map snd (batch_edits b));
  cl_sequence : fits 64 (max_last_sequence b);
}.
Lemma add_edits_ok c es : c ∈ column_family_set_ v -> Forall (family_edit_ok c) es -> Forall Q es -> forall rest b S, collected rest b -> to_come rest (es ++ S) ->
  (find_builder (id_ c) (versions b) = None -> Forall (fun e => IsWalManipulation e = true) es) ->
  exists s b', add_edits v c es b = Some (s, b') /\ (status_ok s = true -> exists rest', to_come rest' S /\ collected rest' b').
Proof using Hids HPc Hcons.
  intros Hc Hes. induction Hes as [| e es He Hes IH]; intros HQ rest b S Hcl Hcome Hwal; cbn [add_edits app] in *.
  { eexists _, _. split; [done |]. intros _. by exists rest. }
  apply list.Forall_cons in HQ as [HQe HQ]. pose proof Hcl as [(d & Ed & Hb) Hg HP Hsz Hm].
  destruct (helper_ok c e b d Hc Hb He) as (s & vs & E & Hnone & Hs).
  { intros Hn. apply Hwal in Hn. by apply list.Forall_cons in Hn as [? _]. }
  { intros c' Hc'. by apply Hcons. }
  rewrite E. cbn [mbind option_bind]. destruct (status_ok s) eqn:Es; cbn [negb]; [| eexists _, _; split; [done |]; by rewrite Es].
  destruct (Hs eq_refl) as (d' & Ed' & Hb'). pose proof (complete_edit_keeps v e (max_last_sequence b)) as (Hcore & Hgr & _). destruct (HPc e (max_last_sequence b) Hm HQe) as [HPe Hm'].
  set (e' := (complete_edit v e (max_last_sequence b)).1) in *. destruct (written_next e e' rest (es ++ S) _ _ Hcome Hg Hgr) as (rest' & Hcome' & Hg').
  set (b' := {| batch_edits := batch_edits b ++ [(e', _)]; versions := vs; max_last_sequence := _; group_start := _ |}).
  apply (IH HQ rest' b' S); [| done | intros Hn; apply Hnone, Hwal in Hn; by apply list.Forall_cons in Hn as [_ ?]].
  split; unfold b'; cbn [batch_edits versions group_start max_last_sequence]; rewrite ?map_app.
  - exists d'. split; [| done]. rewrite db_edits_app, Ed. cbn [mbind option_bind map db_edits fst]. rewrite (same_core_apply op e e') by done. by rewrite Ed'.
  - rewrite in_open_group_edits, <- (length_map fst (batch_edits b)). exact Hg'.
  - apply list.Forall_app. split; [done |]. by apply list.Forall_singleton.
  - apply list.Forall_app. split; [done |]. apply list.Forall_singleton. cbn. f_equal. by apply Hcons.
  - done.
Qed.
Lemma add_version_ok c w rest b : c ∈ column_family_set_ v -> collected rest b -> collected rest (add_version c w b) /\
  (find_builder (id_ c) (versions (add_version c w b)) = None -> IsAllWalEdits w = true).
Proof using Hids.
  intros Hc Hcl. unfold add_version. destruct (find_builder (id_ c) (versions b)) as [r |] eqn:Er; [split; [done | congruence] |].
  destruct (IsAllWalEdits w); [done |]. destruct Hcl as [(d & Ed & Hb) Hg HP Hsz Hm]. cbn [versions]. split.
  - split; try done. exists d. split; [done |]. destruct Hb as [Hfam Hnd Hknown]. cbn [versions]. split.
    + intros c' Hc'. rewrite find_add_rep by done. destruct (Hfam c' Hc') as (t & Et & Hpl & Ht). exists t. split; [done |]. split; [done |].
      destruct (Z.eqb_spec (id_ c') (id_ c)) as [E | Hne]; [| done]. rewrite (same_cfd_id c c' Hc Hc' E) in *. rewrite Er in Ht. destruct Ht as (Hloc & <- & _ & Hbl).
      split; [by apply NewRep_reps | done].
    + rewrite map_app. apply list.NoDup_app. split; [done |]. split; [| apply NoDup_singleton]. intros cf Hcf ->%list_elem_of_singleton.
      apply list_elem_of_fmap in Hcf as ([x r] & Ex & Hin). cbn in Ex. apply list_elem_of_In in Hin. unfold find_builder in Er.
      destruct (find (fun y => y.1 =? id_ c) (versions b)) eqn:Ef; [done |]. apply (find_none _ _ Ef) in Hin. cbn in Hin. lia.
    + intros cf r [Hin | Hin]%elem_of_app; [by apply (Hknown cf r) |]. apply list_elem_of_singleton in Hin as [= -> _]. by apply list_elem_of_fmap_2.
  - rewrite find_add_rep, Z.eqb_refl by done. done.
Qed.
Lemma skip_writer_ok l S rest b : to_come rest (l ++ S) -> collected rest b -> exists rest', to_come rest' S /\ collected rest' (skip_writer l b).
Proof using HPf.
  intros Hcome [(d & Hd & Hb) Hg HP Hsz Hm]. destruct (written_skip l S rest _ _ Hcome Hg) as (rest' & Hcome' & Hg'). exists rest'. split; [done |].
  assert (Hrest : versions (skip_writer l b) = versions b /\ group_start (skip_writer l b) = group_start b /\ max_last_sequence (skip_writer l b) = max_last_sequence b /\
    map snd (batch_edits (skip_writer l b)) = map snd (batch_edits b)).
  { unfold skip_writer. destruct (in_open_group b); [| by split_and!]. destruct (group_start b) as [start |] eqn:Eg; [| by split_and!]. split_and!; try done. cbn [batch_edits].
    change (map snd ?x) with (snd <$> x). rewrite fmap_imap. transitivity (imap (fun _ => snd) (batch_edits b)); [| exact (imap_const snd (batch_edits b))].
    apply imap_ext. intros i x _. cbn. by destruct (start <=? i)%nat. }
  destruct Hrest as (E1 & E2 & E3 & E4). split; rewrite ?skip_writer_edits, ?E1, ?E2, ?E3, ?E4; [| done | | done | done].
  - exists d. split; [| done]. rewrite (same_core_edits op (map fst (batch_edits b)) _ (skip_edits_core _ _ _)). exact Hd.
  - eapply skip_edits_Forall; [exact Hg | exact HPf | done].
Qed.
(** The writers that are served together. *)
Fixpoint batch_writers (ws : list ManifestWriter) : list ManifestWriter :=
  match ws with
  | [] => []
  | w :: ws => match head (edit_list w) with Some e => if IsColumnFamilyManipulation e then [] else w :: batch_writers ws | None => [] end
  end.
Definition writer_ok (w : ManifestWriter) : Prop := exists cf, writer_cfd w = Some cf /\ Forall Q (edit_list w) /\
  forall c, GetColumnFamily cf v = Some c -> Forall (family_edit_ok c) (edit_list w).
Lemma collect_ok ws : Forall (fun w => edit_list w <> []) ws -> Forall writer_ok (batch_writers ws) -> forall rest b, collected rest b -> to_come rest (concat (map edit_list (batch_writers ws))) ->
  exists s n b', collect v ws b = Some (s, n, b') /\ (status_ok s = true -> n = length (batch_writers ws) /\ collected [] b').
Proof using Hids HPc HPf Hcons.
  induction 1 as [| w ws Hne Hws IH]; intros Hok rest b Hcl Hcome.
  { eexists _, _, _. split; [done |]. intros _. split; [done |]. destruct Hcome as [_ (bs & _ & E)]. symmetry in E. by apply app_eq_nil in E as [-> _]. }
  cbn [collect batch_writers] in *. destruct (edit_list w) as [| e l] eqn:El; [done |]. cbn [head mbind option_bind] in *. destruct (IsColumnFamilyManipulation e).
  { eexists _, _, _. split; [done |]. intros _. split; [done |]. destruct Hcome as [_ (bs & _ & E)]. symmetry in E. by apply app_eq_nil in E as [-> _]. }
  cbn [map concat] in Hcome. rewrite El in Hcome.
  apply list.Forall_cons in Hok as [(cf & Ecf & HQ & Hw) Hok]. rewrite Ecf. cbn [mbind option_bind].
  assert (Hstep : exists s b', match GetColumnFamily cf v with None => Some (Status_OK, skip_writer (e :: l) b) | Some c => add_edits v c (e :: l) (add_version c w b) end = Some (s, b') /\
    (status_ok s = true -> exists rest', to_come rest' (concat (map edit_list (batch_writers ws))) /\ collected rest' b')).
  { destruct (GetColumnFamily cf v) as [c |] eqn:Ec.
    2: { eexists _, _. split; [done |]. intros _. by eapply skip_writer_ok. }
    - pose proof (Hw c eq_refl) as Hf. rewrite El in Hf, HQ. apply find_cfd in Ec as [Hc _].
      destruct (add_version_ok c w rest b Hc Hcl) as [Hcl' Hwal]. apply (add_edits_ok c (e :: l) Hc Hf HQ rest); [done | done |].
      intros Hn. apply Hwal in Hn. unfold IsAllWalEdits in Hn. rewrite El in Hn. apply list.Forall_forall. intros x Hx. apply list_elem_of_In in Hx. by apply (proj1 (forallb_forall _ _) Hn). }
  destruct Hstep as (s & b' & E & Hs). rewrite E. cbn [mbind option_bind]. destruct (status_ok s) eqn:Es; cbn [negb]; [| eexists _, _, _; split; [done |]; by rewrite Es].
  destruct (Hs eq_refl) as (rest' & Hcome' & Hcl'). destruct (IH Hok rest' b' Hcl' Hcome') as (s' & n & b'' & E' & Hs'). rewrite E'. cbn [mbind option_bind].
  eexists _, _, _. split; [done |]. intros Hs''. destruct (Hs' Hs'') as [-> ?]. done.
Qed.
End Batch.
