(* ===== verification/ManifestCommit.v ===== *)
(** What [ProcessManifestWrites] has written when it succeeds, and the versions it has installed then: the edits of the MANIFEST leave
    the files that the current versions have. *)

From stdpp Require Import gmap sorting.
From S2P Require Import Prelude Algorithms Coding Comparator DbFormat Status LogFormat LogWriter LogReader LogProofs VersionEdit VersionEditProofs VersionEditTheorems VersionStorage VersionBuilder VersionBuilderProofs VersionSaveProofs VersionBuilderTheorems Manifest ManifestProofs VersionSet VersionEditHandler VersionEditHandlerProofs ManifestTheorems ManifestWriter ManifestWriterProofs.

Open Scope record_scope.

(** * Writing edits *)

(** An edit that can be encoded, with the size of timestamps it is encoded with. *)
Definition edit_fits (e : VersionEdit) : Prop := VersionEditProofs.edit_ok 0 e /\ sst_edit e.
Definition item_ok (x : VersionEdit * option Z) : Prop := edit_fits x.1 /\ (x.2 = Some 0 \/ x.2 = None /\ new_files_ x.1 = []).
Lemma item_encodes x : item_ok x -> exists r, EncodeTo x.1 x.2 = Some (true, r) /\ encodes x.1 r.
Proof.
  intros [[He _] Hts]. destruct (encoded_decoded 0 x.1 He) as (b & Eb & _). exists b. assert (E : EncodeTo x.1 x.2 = Some (true, b)).
  { destruct Hts as [-> | [-> Hf]]; [done |]. unfold EncodeTo in *. by rewrite Hf in *. }
  split; [done |]. exists x.2. split; [| done]. destruct Hts as [? | [? _]]; auto.
Qed.

Section Log.
Context {F : Type} {W : WritableFileWriter F} {WL : WritableFileLaws F}.

(** The log has the records of the edits, and nothing else. *)
Definition logged (es : list VersionEdit) (log : Writer F) : Prop := exists f recs, contents f = [] /\ seen_error f = false /\
  write_log (MakeWriter f 0 false false) (map LogRecord recs) = Some (IOStatus_OK, log) /\ Forall2 encodes es recs.
Lemma write_log_then (w w1 : Writer F) recs r : write_log w (map LogRecord recs) = Some (IOStatus_OK, w1) ->
  write_log w (map LogRecord (recs ++ [r])) = AddRecord w1 r.
Proof using.
  revert w. induction recs as [| r0 recs IH]; intros w E; cbn in *.
  - injection E as ->. destruct (AddRecord w1 r) as [[[] ?] |]; done.
  - destruct (AddRecord w r0) as [[[] w0] |]; [by apply IH | done | done].
Qed.
Lemma AddRecord_logged es log e r : logged es log -> encodes e r -> exists s log', AddRecord log r = Some (s, log') /\ (s = IOStatus_OK -> logged (es ++ [e]) log').
Proof using WL.
  intros (f & recs & H1 & H2 & Hw & He) Hr.
  destruct (write_log_layout (map LogRecord (recs ++ [r])) (MakeWriter f 0 false false)) as (s & w' & _ & _ & E & _); [| cbn; unfold kBlockSize; lia | done |].
  { apply list.Forall_fmap, list.Forall_forall. done. }
  exists s, w'. rewrite <- (write_log_then _ _ _ _ Hw). split; [done |]. intros ->. exists f, (recs ++ [r]). split_and!; [done.. |]. apply Forall2_app; [done | by constructor].
Qed.
Lemma write_edits_logged l : Forall item_ok l -> forall es log, logged es log ->
  exists io log', write_edits l log = Some (io_to_status io, io, log') /\ (io = IOStatus_OK -> logged (es ++ map fst l) log').
Proof using WL.
  induction 1 as [| [e ts_sz] l Hx Hl IH]; intros es log Hlog; cbn [write_edits].
  { exists IOStatus_OK, log. split; [done |]. intros _. by rewrite app_nil_r. }
  destruct (item_encodes _ Hx) as (r & E & Hr). cbn [fst snd] in *. rewrite E. cbn [mbind option_bind negb].
  destruct (AddRecord_logged es log e r Hlog Hr) as (s & log1 & -> & Hs). cbn [mbind option_bind]. destruct s; cbn [LogWriter.ok].
  - destruct (IH _ _ (Hs eq_refl)) as (io & log' & -> & Hio). exists io, log'. split; [done |]. cbn [map fst]. by rewrite <- app_assoc in Hio.
  - by exists IOStatus_IOError, log1.
Qed.

(** A new file is empty. *)
Definition new_files_empty (E : ManifestEnv F) : Prop := contents (NewWritableFile E).2 = [] /\ seen_error (NewWritableFile E).2 = false.
Lemma io_status_ok (io : IOStatus) : status_ok (io_to_status io) = LogWriter.ok io.
Proof using. by destruct io. Qed.
Lemma write_manifest_logged (E : ManifestEnv F) (new_log : bool) v batch log es : new_files_empty E -> Forall item_ok batch ->
  (if new_log then Forall item_ok (current_state (write_dbid_to_manifest E) v) else exists log0, log = Some log0 /\ logged es log0) ->
  exists s io mio log', write_manifest E new_log v batch log = Some (s, io, mio, log') /\
    (status_ok s = true -> exists log1, log' = Some log1 /\
       logged ((if new_log then map fst (current_state (write_dbid_to_manifest E) v) else es) ++ map fst batch) log1).
Proof using WL.
  intros [Hf1 Hf2] Hb Hlog. unfold write_manifest.
  assert (Hbatch : forall es log0, logged es log0 -> exists s io mio log',
    (log ← Some log0;
     '(s, io_s, log) ← write_edits batch log;
     let '(io_s, manifest_io_status) := if status_ok s then (SyncManifest E, SyncManifest E) else (io_s, io_s) in
     Some (if LogWriter.ok io_s then s else io_to_status io_s, io_s, manifest_io_status, Some log)) = Some (s, io, mio, log') /\
    (status_ok s = true -> exists log1, log' = Some log1 /\ logged (es ++ map fst batch) log1)).
  { intros es' log0 Hlog0. destruct (write_edits_logged batch Hb es' log0 Hlog0) as (io & log' & E1 & Hio). cbn [mbind option_bind]. rewrite E1. cbn [mbind option_bind]. rewrite io_status_ok.
    destruct io; cbn [LogWriter.ok]; [| by eexists _, _, _, _]. destruct (SyncManifest E); cbn [LogWriter.ok]; (eexists _, _, _, _; split; [done |]); [intros _; eexists; split; [done | by apply Hio] | done]. }
  destruct new_log.
  - destruct (NewWritableFile E) as [io f]. cbn [snd] in *. destruct io; cbn [LogWriter.ok mbind option_bind status_ok io_to_status negb]; [| by eexists _, _, _, _].
    destruct (write_edits_logged _ Hlog [] (MakeWriter f 0 false false)) as (io & log' & -> & Hio); [by exists f, [] |]. cbn [mbind option_bind].
    destruct io; cbn [LogWriter.ok io_to_status status_ok negb]; [| by eexists _, _, _, _].
    destruct (Hbatch _ log' (Hio eq_refl)) as (s & io & mio & log1 & E1 & Hs). exists s, io, mio, log1. split; [exact E1 | exact Hs].
  - destruct Hlog as (log0 & -> & Hlog0). cbn [mbind option_bind status_ok negb].
    destruct (Hbatch _ log0 Hlog0) as (s & io & mio & log1 & E1 & Hs). exists s, io, mio, log1. split; [exact E1 | exact Hs].
Qed.
End Log.

(** * The state of the database as edits *)

(** The files of the current versions. *)
Definition files_of (v : VersionSet) : db := list_to_map (map (fun c => (id_ c, Some (version_files (current_ c)))) (column_family_set_ v)).
Lemma files_of_lookup v cf : files_of v !! cf = (fun c => Some (version_files (current_ c))) <$> GetColumnFamily cf v.
Proof.
  unfold files_of, GetColumnFamily. induction (column_family_set_ v) as [| c cs IH]; cbn; [by rewrite lookup_empty |].
  destruct (Z.eqb_spec (id_ c) cf) as [<- | Hne]; [by rewrite lookup_insert_eq |]. by rewrite lookup_insert_ne.
Qed.

Lemma NoDup_concat_map {A B} (f : A -> list B) l : NoDup l -> (forall x, x ∈ l -> NoDup (f x)) -> (forall x x' y, x ∈ l -> x' ∈ l -> y ∈ f x -> y ∈ f x' -> x = x') ->
  NoDup (concat (map f l)).
Proof.
  induction 1 as [| x l Hx Hl IH]; intros H1 H2; cbn; [constructor |]. apply list.NoDup_app. split; [apply H1; by left |]. split.
  - intros y Hy Hy'. apply list_elem_of_In, in_concat in Hy' as (ys & Hys & Hy'). apply in_map_iff in Hys as (x' & <- & Hx'). apply list_elem_of_In in Hx', Hy'.
    destruct Hx. rewrite (H2 x x' y); [done | by left | by right | done | done].
  - apply IH; [intros y Hy; apply H1; by right |]. intros y y' z Hy Hy'. apply H2; by right.
Qed.
(** The files with their levels, in the order in which they are written. *)
Definition leveled_files (v : VersionStorageInfo) (n : nat) : list (Z * FileMetaData) :=
  concat (map (fun level => map (pair (Z.of_nat level)) (LevelFiles v level)) (seq 0 n)).
Lemma located_numbers v : located v -> NoDup (map (fun x => GetNumber (fd x.2)) (leveled_files v (num_levels_ v))).
Proof.
  intros Hv. unfold leveled_files. rewrite concat_map, map_map. apply NoDup_concat_map; [apply NoDup_seq | |].
  - intros level Hl%elem_of_seq. rewrite map_map. cbn. apply NoDup_alt. intros i j n Ei Ej. change (map ?g ?l) with (g <$> l) in *. rewrite list_lookup_fmap in Ei, Ej.
    destruct (LevelFiles v level !! i) as [f |] eqn:Fi; [| done]. destruct (LevelFiles v level !! j) as [g |] eqn:Fj; [| done]. injection Ei as Ei. injection Ej as Ej.
    assert (H : forall p h, LevelFiles v level !! p = Some h -> GetNumber (fd h) = n -> file_locations_ v !! n = Some (level, p)) by (intros p h Ep Eh; apply Hv; split; [lia | eauto]).
    assert (E := H i f Fi Ei). rewrite (H j g Fj Ej) in E. by injection E as <-.
  - intros l1 l2 n H1%elem_of_seq H2%elem_of_seq. rewrite !map_map. cbn. intros (f & -> & Hf)%list_elem_of_fmap (g & E & Hg)%list_elem_of_fmap.
    by destruct (located_unique v l1 l2 (GetNumber (fd f)) f g) as [? _]; [done | lia | lia | done | done |].
Qed.
Lemma lsm_add_all l : forall t, NoDup (map (fun x => GetNumber (fd x.2)) l) -> (forall x, x ∈ l -> t !! GetNumber (fd x.2) = None) ->
  lsm_each lsm_add l t = Some (list_to_map (map (fun x => (GetNumber (fd x.2), x)) l) ∪ t).
Proof.
  induction l as [| x l IH]; intros t Hnd Ht; cbn [lsm_each map list_to_map foldr uncurry] in *; [by rewrite map_empty_union |]. apply list.NoDup_cons in Hnd as [Hx Hnd].
  assert (lsm_add x t = Some (<[GetNumber (fd x.2) := x]> t)) as -> by (unfold lsm_add; by rewrite Ht by (by left)). cbn [mbind option_bind]. rewrite IH; [| done |].
  - f_equal. rewrite <- insert_union_l. symmetry. apply insert_union_r. apply not_elem_of_list_to_map_1. intros H. destruct Hx. apply list_elem_of_fmap in H as ([n y] & -> & H).
    apply list_elem_of_fmap in H as (z & [= -> ->] & Hz). by apply (list_elem_of_fmap_2 (fun x => GetNumber (fd x.2))).
  - intros y Hy. rewrite lookup_insert_ne; [apply Ht; by right |]. intros E. destruct Hx. rewrite E. by apply (list_elem_of_fmap_2 (fun x => GetNumber (fd x.2))).
Qed.
Lemma leveled_version v : located v -> lsm_each lsm_add (leveled_files v (num_levels_ v)) ∅ = Some (version_files v).
Proof.
  intros Hv. rewrite lsm_add_all; [| by apply located_numbers | done]. f_equal. rewrite map_union_empty. unfold version_files, leveled_files. f_equal.
  rewrite concat_map, map_map. f_equal. apply map_ext. intros level. by rewrite map_map.
Qed.

(** ** The edit of a column family *)

Definition besides_files (e : VersionEdit) : Z * bool * bool * list WalAddition * Z * list (Z * Z) * list BlobFileAddition * list BlobFileGarbage * bool :=
  (column_family_ e, is_column_family_add_ e, is_column_family_drop_ e, wal_additions_ e, wal_deletion_ e, deleted_files_ e, blob_file_additions_ e, blob_file_garbages_ e,
   is_in_atomic_group_ e).
Lemma AddFiles_level level fs : forall e, let e' := fold_left (fun e f => AddFile level f e) fs e in besides_files e' = besides_files e /\ new_files_ e' = new_files_ e ++ map (pair level) fs.
Proof.
  induction fs as [| f fs IH]; intros e; cbn [fold_left map]; [by rewrite app_nil_r |]. destruct (IH (AddFile level f e)) as [-> ->]. unfold AddFile.
  destruct (match last_sequence_ _ with Some _ => _ | None => _ end); cbn; by rewrite <- app_assoc.
Qed.
Lemma AddFiles_levels (fs : nat -> list FileMetaData) levels : forall e, let e' := fold_left (fun e level => fold_left (fun e f => AddFile (Z.of_nat level) f e) (fs level) e) levels e in
  besides_files e' = besides_files e /\ new_files_ e' = new_files_ e ++ concat (map (fun level => map (pair (Z.of_nat level)) (fs level)) levels).
Proof.
  induction levels as [| level levels IH]; intros e; cbn [fold_left map concat]; [by rewrite app_nil_r |].
  destruct (AddFiles_level (Z.of_nat level) (fs level) e) as [E1 E2]. destruct (IH (fold_left (fun e f => AddFile (Z.of_nat level) f e) (fs level) e)) as [-> ->].
  rewrite E1, E2, <- app_assoc. done.
Qed.
Lemma state_edit_core v c : blob_files_ (current_ c) = [] -> let e := state_edit v c in
  besides_files e = (id_ c, false, false, [], 0, [], [], [], false) /\ new_files_ e = leveled_files (current_ c) (num_levels (options_ c)) /\ Forall (fun x => 0 <= x.1) (compact_cursors_ e).
Proof.
  intros Hb. unfold state_edit. rewrite Hb. cbn [fold_left]. unfold files_edit.
  destruct (AddFiles_levels (LevelFiles (current_ c)) (seq 0 (num_levels (options_ c))) (NewVersionEdit <| column_family_ := id_ c |>)) as [E1 E2].
  set (e := fold_left _ (seq 0 _) _) in *. clearbody e. split_and!.
  - transitivity (besides_files e); [| exact E1]. destruct ((id_ c =? 0) && _), (bool_decide _); done.
  - etransitivity; [| exact E2]. destruct ((id_ c =? 0) && _), (bool_decide _); done.
  - assert (Hc : Forall (fun x => 0 <= x.1) (compact_cursors_ (SetCompactCursors (compact_cursor_ (current_ c)) e))); [| destruct ((id_ c =? 0) && _), (bool_decide _); exact Hc].
    apply list.Forall_forall. intros x (y & _ & E)%list_elem_of_omap. destruct (InternalKey_Valid y.2); [| done]. injection E as <-. cbn. lia.
Qed.

(** ** All column families *)

(** A column family with its version. *)
Record family_ok (c : ColumnFamilyData) : Prop := {
  fy_laws : ComparatorLaws (comparator (options_ c));
  fy_checks : force_consistency_checks (options_ c) = true;
  fy_plain : cfd_ts_sz c = 0;
  fy_made : made (C := comparator (options_ c)) (TC := timestamps (options_ c)) (num_levels (options_ c)) (current_ c) (version_files (current_ c));
  fy_blobs : blob_files_ (current_ c) = [];
}.
Record families_ok (v : VersionSet) : Prop := {
  fs_ids : NoDup (map id_ (column_family_set_ v));
  fs_families : Forall family_ok (column_family_set_ v);
  fs_default : 0 ∈ map id_ (column_family_set_ v);
}.
Lemma family_version c : family_ok c -> version_of (C := comparator (options_ c)) (current_ c) (version_files (current_ c)) /\ num_levels_ (current_ c) = num_levels (options_ c).
Proof.
  intros [HL _ _ (w & Ew & Hw & Hb & Hc) _]. rewrite Ew in *. split; [| exact (sd_num _ _ _ _ Hw)].
  by apply (saved_version_of (C := comparator (options_ c)) (TC := timestamps (options_ c)) (num_levels (options_ c)) true).
Qed.
Abbreviation all_opened := (fun _ : bytes => true).
Lemma empty_edit_apply d t : d !! 0 = Some (Some t) -> forall e, column_family_ e = 0 -> is_column_family_add_ e = false -> is_column_family_drop_ e = false ->
  deleted_files_ e = [] -> new_files_ e = [] -> db_apply all_opened e d = Some d.
Proof.
  intros Hd e E1 E2 E3 E4 E5. unfold db_apply, lsm_apply. rewrite E1, E2, E3, E4, E5, Hd. destruct (_ || _); [done |]. cbn. by rewrite insert_id.
Qed.
Definition not_yet (d : db) (c : ColumnFamilyData) : Prop := d !! id_ c = if id_ c =? 0 then Some (Some ∅) else None.
Definition put_family (d : db) (c : ColumnFamilyData) : db := <[id_ c := Some (version_files (current_ c))]> d.
Lemma snapshot_family v c d : family_ok c -> not_yet d c -> db_edits all_opened [family_edit c; state_edit v c] d = Some (put_family d c).
Proof.
  intros Hc Hd. destruct (family_version c Hc) as [Hv Hn]. destruct (state_edit_core v c (fy_blobs c Hc)) as (E1 & E2 & _).
  set (e := state_edit v c) in *. clearbody e. injection E1 as H1 H2 H3 H4 H5 H6 _ _ _.
  assert (Hs : forall d, d !! id_ c = Some (Some ∅) -> db_apply all_opened e d = Some (put_family d c)).
  { intros d' Ed. unfold db_apply, lsm_apply. rewrite H1, H2, H3, H4, H5, H6, E2, Ed, <- Hn. cbn [bool_decide negb orb lsm_each mbind option_bind].
    rewrite bool_decide_eq_true_2 by done. cbn. by rewrite leveled_version by apply Hv. }
  cbn [db_edits]. unfold not_yet in Hd. destruct (Z.eqb_spec (id_ c) 0) as [E0 | Hne].
  - rewrite (empty_edit_apply d ∅); [| by rewrite <- E0 |..]; [| unfold family_edit; by rewrite E0..]. cbn [mbind option_bind]. by rewrite Hs.
  - assert (db_apply all_opened (family_edit c) d = Some (<[id_ c := Some ∅]> d)) as ->.
    { unfold family_edit. destruct (Z.eqb_spec (id_ c) 0); [done |]. unfold db_apply. cbn. by rewrite Hd. }
    cbn [mbind option_bind]. rewrite Hs by apply lookup_insert_eq. cbn [mbind option_bind]. unfold put_family. by rewrite insert_insert_eq.
Qed.
Lemma snapshot_families v cs : NoDup (map id_ cs) -> Forall family_ok cs -> forall d, Forall (not_yet d) cs ->
  db_edits all_opened (concat (map (fun c => [family_edit c; state_edit v c]) cs)) d = Some (fold_left put_family cs d).
Proof.
  intros Hnd Hcs. induction Hcs as [| c cs Hc Hcs IH]; intros d Hd; [done |]. cbn [map] in Hnd. apply list.NoDup_cons in Hnd as [Hni Hnd]. apply list.Forall_cons in Hd as [Hdc Hd].
  cbn [map concat fold_left]. rewrite db_edits_app, snapshot_family by done. cbn [mbind option_bind]. apply IH; [done |]. apply list.Forall_forall. intros x Hx.
  unfold not_yet, put_family. rewrite lookup_insert_ne; [exact (proj1 (list.Forall_forall _ _) Hd x Hx) |]. intros E. destruct Hni. rewrite E. by apply list_elem_of_fmap_2.
Qed.
Lemma put_families_lookup cs : NoDup (map id_ cs) -> forall d cf, fold_left put_family cs d !! cf =
  match find (fun c => id_ c =? cf) cs with Some c => Some (Some (version_files (current_ c))) | None => d !! cf end.
Proof.
  induction cs as [| c cs IH]; intros Hnd d cf; [done |]. cbn [map] in Hnd. apply list.NoDup_cons in Hnd as [Hni Hnd]. cbn [fold_left find]. rewrite IH by done. unfold put_family.
  destruct (Z.eqb_spec (id_ c) cf) as [<- | Hne]; [| by rewrite lookup_insert_ne]. rewrite lookup_insert_eq.
  destruct (find _ cs) as [c' |] eqn:E; [| done]. apply find_cfd in E as [Hc' E]. destruct Hni. rewrite <- E. by apply list_elem_of_fmap_2.
Qed.
(** The edits that a new MANIFEST starts with leave the files of the current versions. *)
Lemma snapshot_files b v : families_ok v -> db_edits all_opened (map fst (current_state b v)) db_start = Some (files_of v).
Proof.
  intros [Hnd Hcs H0]. unfold current_state. rewrite !map_app, db_edits_app.
  assert (H1 : db_edits all_opened (map fst (if b then [(NewVersionEdit <| db_id_ := Some (vset_db_id_ v) |>, None : option Z)] else [])) db_start = Some db_start).
  { destruct b; [| done]. cbn [map fst db_edits]. by rewrite (empty_edit_apply db_start ∅). }
  rewrite H1. cbn [mbind option_bind]. clear H1.
  rewrite db_edits_app. match goal with |- (db_edits _ (map fst ?l) _ ≫= _) = _ => assert (H1 : db_edits all_opened (map fst l) db_start = Some db_start) end.
  { destruct (map_to_list _); [done |]. cbn [map fst db_edits]. by rewrite (empty_edit_apply db_start ∅). }
  rewrite H1. cbn [mbind option_bind map fst app db_edits]. rewrite (empty_edit_apply db_start ∅) by done. cbn [mbind option_bind].
  rewrite concat_map, map_map. cbn [map fst]. rewrite snapshot_families; [| done | done |].
  - f_equal. apply map_eq. intros cf. rewrite put_families_lookup, files_of_lookup by done. unfold GetColumnFamily. destruct (find _ _) eqn:E; [done |].
    destruct (decide (cf = 0)) as [-> | Hne]; [| by apply lookup_singleton_ne]. destruct (find_cfd_exists _ _ H0) as [c Ec]. congruence.
  - apply list.Forall_forall. intros c _. unfold not_yet, db_start. destruct (Z.eqb_spec (id_ c) 0) as [-> |]; [apply lookup_singleton_eq | by apply lookup_singleton_ne].
Qed.
Lemma snapshot_items b v : families_ok v -> Forall (VersionEditProofs.edit_ok 0) (map fst (current_state b v)) -> Forall item_ok (current_state b v).
Proof.
  intros [_ Hcs _] He. assert (Hx : Forall (fun x : VersionEdit * option Z => sst_edit x.1 /\ (x.2 = Some 0 \/ x.2 = None /\ new_files_ x.1 = [])) (current_state b v)).
  { unfold current_state. apply list.Forall_app. split; [destruct b; by repeat constructor; try right |]. apply list.Forall_app. split; [destruct (map_to_list _); by repeat constructor; try right |].
    constructor; [split; [done | by right] |]. apply Forall_concat, list.Forall_fmap. eapply list.Forall_impl; [exact Hcs |]. intros c Hc. cbn.
    destruct (state_edit_core v c (fy_blobs c Hc)) as (E1 & _ & E3). set (e := state_edit v c) in *. clearbody e. injection E1 as _ _ _ _ _ _ H7 H8 _. constructor; [| constructor; [| constructor]]; cbn.
    - split; [| right; split; [done |]]; unfold family_edit; by destruct (id_ c =? 0).
    - split; [| left; by rewrite (fy_plain c Hc)]. done. }
  apply list.Forall_and in Hx as [H1 H2]. apply list.Forall_forall. intros x Hin. split; [split |].
  - exact (proj1 (list.Forall_forall _ _) He x.1 (list_elem_of_fmap_2 fst _ _ Hin)).
  - exact (proj1 (list.Forall_forall _ _) H1 x Hin).
  - exact (proj1 (list.Forall_forall _ _) H2 x Hin).
Qed.

(** * The new versions *)

(** The version for a column family, with the files that [d] has for it. *)
Definition new_version (v : VersionSet) (d : db) (prepare : ColumnFamilyOptions -> VersionStorageInfo -> VersionStorageInfo) (x : Z * VersionStorageInfo) : Prop :=
  exists c t, GetColumnFamily x.1 v = Some c /\ d !! x.1 = Some (Some t) /\ blob_files_ x.2 = [] /\
    made (C := comparator (options_ c)) (TC := timestamps (options_ c)) (num_levels (options_ c)) (prepare (options_ c) x.2) t.
Lemma find_builder_member vs cf r : NoDup (map fst vs) -> (cf, r) ∈ vs -> find_builder cf vs = Some r.
Proof.
  unfold find_builder. induction vs as [| [x r0] vs IH]; intros Hnd Hin; [by apply not_elem_of_nil in Hin |]. cbn [map fst] in Hnd. apply list.NoDup_cons in Hnd as [Hx Hnd]. cbn [find fst].
  apply elem_of_cons in Hin as [[= -> ->] | Hin]; [by rewrite Z.eqb_refl |]. destruct (Z.eqb_spec x cf) as [-> |]; [| by apply IH].
  destruct Hx. by apply (list_elem_of_fmap_2 fst vs (cf, r)).
Qed.
Lemma save_versions_ok v d vs0 : families_ok v -> built v d vs0 -> forall vs, (forall x, x ∈ vs -> x ∈ vs0) ->
  exists s ws, save_versions v vs = Some (s, ws) /\ (status_ok s = true -> map fst ws = map fst vs /\ Forall (new_version v d PrepareAppend) ws).
Proof.
  intros [Hids Hfam _] [Hb Hnd Hknown] vs. induction vs as [| [cf r] vs IH]; intros Hin; cbn [save_versions]; [by eexists _, [] |].
  assert (Hx := Hin (cf, r) ltac:(by left)). destruct (find_cfd_exists _ _ (Hknown cf r Hx)) as [c Ec]. change (find _ _) with (GetColumnFamily cf v) in Ec. rewrite Ec. cbn [mbind option_bind].
  apply find_cfd in Ec as Hc. destruct Hc as [Hc Eid]. destruct (Hb c Hc) as (t & Et & [Hbd Hlev] & Hr). rewrite Eid, (find_builder_member vs0 cf r Hnd Hx) in Hr. destruct Hr as [Hr Hbl].
  assert (Hfc := proj1 (list.Forall_forall _ _) Hfam c Hc). destruct (family_version c Hfc) as [Hv Hn]. destruct Hfc as [HL Hf _ _ _].
  destruct (SaveTo_saved (C := comparator (options_ c)) (current_ c) r t (force_consistency_checks (options_ c)) kMustPresent Hr) as (w & E & Hw & Hbw); [by left | by rewrite Hn | |].
  { intros level Hl. apply strict_not_after; [apply _ | by apply (vo_sorted (C := comparator (options_ c)) _ _ Hv)]. }
  unfold NewVersion. rewrite Hn in E, Hw. rewrite E. destruct (status_ok (CheckConsistency _ w)) eqn:Es; cbn [negb]; [| eexists _, _; split; [done |]; by rewrite Es].
  destruct IH as (s & ws & -> & Hs); [intros x Hx'; apply Hin; by right |]. cbn [mbind option_bind]. eexists _, _. split; [done |]. intros Hok. destruct (Hs Hok) as [E1 E2].
  split; [cbn; by rewrite E1 |]. constructor; [| done]. exists c, t. rewrite Eid in Et. split; [done |]. split; [done |]. split; [by apply Hbw |]. exists w. rewrite Hf in Hw. done.
Qed.
Lemma prepare_versions_ok v d ws : Forall (new_version v d PrepareAppend) ws ->
  exists ws', prepare_versions v ws = Some ws' /\ map fst ws' = map fst ws /\ Forall (new_version v d (fun _ w => w)) ws'.
Proof.
  induction 1 as [| [cf w] ws (c & t & Ec & Et & Hb & Hm) Hws (ws' & E & E1 & E2)]; [by exists [] |]. unfold prepare_versions in *. cbn [mapM fst snd] in *. rewrite Ec. cbn [mbind option_bind]. rewrite E. cbn [mbind option_bind].
  eexists. split; [done |]. split; [cbn; by rewrite E1 |]. constructor; [| done]. exists c, t. done.
Qed.

(** ** Installed *)

Definition find_version (cf : Z) (ws : list (Z * VersionStorageInfo)) : option (Z * VersionStorageInfo) := find (fun x => x.1 =? cf) ws.
Definition installed (ws : list (Z * VersionStorageInfo)) (c c' : ColumnFamilyData) : Prop :=
  id_ c' = id_ c /\ options_ c' = options_ c /\ current_ c' = match find_version (id_ c) ws with Some x => x.2 | None => current_ c end.
Lemma install_numbers_same v e : Forall2 same_cfd (column_family_set_ v) (column_family_set_ (install_numbers v e)).
Proof.
  unfold install_numbers, alter_cfd. cbn. induction (column_family_set_ v) as [| c cs IH]; cbn; constructor; [| done]. destruct (id_ c =? _); [| done].
  assert (H : forall c1, same_cfd c c1 -> same_cfd c (SetFullHistoryTsLow (full_history_ts_low_ e) c1)) by (intros c1 H; unfold SetFullHistoryTsLow; by destruct (_ || _)).
  destruct (log_number_ e) as [n |]; [destruct (n >? _) |]; (destruct (bool_decide _); [done | by apply H]).
Qed.
Lemma install_all_numbers_same edits v : Forall2 same_cfd (column_family_set_ v) (column_family_set_ (fold_left install_numbers edits v)).
Proof.
  revert v. induction edits as [| e edits IH]; intros v; cbn [fold_left]; [apply Forall_Forall2_diag, list.Forall_forall; done |].
  eapply Forall2_trans; [| apply (install_numbers_same v e) | apply IH]. intros x y z (? & ? & ?) (? & ? & ?). split_and!; congruence.
Qed.
Lemma append_versions ws : NoDup (map fst ws) -> forall v, Forall2 (installed ws) (column_family_set_ v) (column_family_set_ (fold_left (fun v x => AppendVersion x.1 x.2 v) ws v)).
Proof.
  induction ws as [| [cf w] ws IH]; intros Hnd v; cbn [fold_left fst snd]; [apply Forall_Forall2_diag, list.Forall_forall; done |]. cbn [map fst] in Hnd. apply list.NoDup_cons in Hnd as [Hcf Hnd].
  specialize (IH Hnd (AppendVersion cf w v)). change (column_family_set_ (AppendVersion cf w v)) with ((fun c => if id_ c =? cf then c <| current_ := w |> else c) <$> column_family_set_ v) in IH. rewrite Forall2_fmap_l in IH. eapply list.Forall2_impl; [exact IH |]. intros c c' (E1 & E2 & E3).
  unfold installed, find_version in *. cbn [find fst]. rewrite (Z.eqb_sym cf). destruct (Z.eqb_spec (id_ c) cf) as [Ei | Hne]; [| done]. cbn in E1, E2, E3. split_and!; [done | done |]. rewrite E3.
  destruct (find _ ws) as [x |] eqn:E; [| done]. apply find_some in E as [Hx E]. apply list_elem_of_In in Hx. destruct Hcf. apply list_elem_of_fmap. exists x. split; [lia | done].
Qed.
Lemma install_versions_installed edits ws v : NoDup (map fst ws) -> Forall2 (installed ws) (column_family_set_ v) (column_family_set_ (install_versions edits ws v)).
Proof.
  intros Hnd. unfold install_versions. set (v1 := if _ =? 0 then _ else _). assert (H1 : column_family_set_ v1 = column_family_set_ (fold_left install_numbers edits v)).
  { unfold v1, MarkMinLogNumberToKeep. destruct (_ =? 0); [done |]. by destruct (_ <? _). }
  pose proof (append_versions ws Hnd v1) as H. pose proof (install_all_numbers_same edits v) as H2. rewrite <- H1 in H2. eapply Forall2_trans; [| exact H2 | exact H].
  intros x y z (E1 & E2 & E3) (F1 & F2 & F3). split_and!; [congruence | congruence |]. by rewrite <- E1, <- E3.
Qed.
Lemma installed_ids ws cs cs' : Forall2 (installed ws) cs cs' -> map id_ cs' = map id_ cs.
Proof. induction 1 as [| c c' cs cs' (E & _) H IH]; cbn; [done |]. by rewrite E, IH. Qed.
Lemma installed_find ws cs cs' cf : Forall2 (installed ws) cs cs' ->
  match find (fun c => id_ c =? cf) cs with Some c => exists c', find (fun c => id_ c =? cf) cs' = Some c' /\ installed ws c c' | None => find (fun c => id_ c =? cf) cs' = None end.
Proof.
  induction 1 as [| c c' cs cs' Hc H IH]; cbn [find]; [done |]. destruct Hc as (E1 & E2 & E3). rewrite E1. destruct (id_ c =? cf); [| done]. by exists c'.
Qed.
Lemma find_version_some ws cf : cf ∈ map fst ws -> exists w, find_version cf ws = Some (cf, w) /\ (cf, w) ∈ ws.
Proof.
  intros ([x w] & -> & Hin)%list_elem_of_fmap. cbn. unfold find_version. destruct (find _ ws) as [[y w'] |] eqn:E.
  - apply find_some in E as [Hy E]. cbn in E. apply list_elem_of_In in Hy. assert (y = x) as -> by lia. by exists w'.
  - apply list_elem_of_In in Hin. apply (find_none _ _ E) in Hin. cbn in Hin. lia.
Qed.
Lemma find_version_none ws cf : cf ∉ map fst ws -> find_version cf ws = None.
Proof.
  intros H. unfold find_version. destruct (find _ ws) as [[y w] |] eqn:E; [| done]. apply find_some in E as [Hy E]. cbn in E. apply list_elem_of_In in Hy.
  destruct H. assert (cf = y) as -> by lia. by apply (list_elem_of_fmap_2 fst ws (y, w)).
Qed.
Lemma find_builder_keys vs cf : is_Some (find_builder cf vs) <-> cf ∈ map fst vs.
Proof.
  unfold find_builder. rewrite fmap_is_Some. split.
  - intros [[x r] E]. apply find_some in E as [Hx E]. cbn in E. apply list_elem_of_In in Hx. assert (cf = x) as -> by lia. by apply (list_elem_of_fmap_2 fst vs (x, r)).
  - intros ([x r] & -> & Hin)%list_elem_of_fmap. destruct (find _ vs) eqn:E; [by eexists |]. apply list_elem_of_In in Hin. apply (find_none _ _ E) in Hin. cbn in Hin. lia.
Qed.
Lemma installed_family v d vs ws c c' : families_ok v -> built v d vs -> map fst ws = map fst vs -> Forall (new_version v d (fun _ w => w)) ws -> c ∈ column_family_set_ v -> installed ws c c' ->
  family_ok c' /\ d !! id_ c = Some (Some (version_files (current_ c'))).
Proof.
  intros [Hids Hfam _] [Hb _ _] Hk Hws Hc (E1 & E2 & E3). destruct (Hb c Hc) as (t & Et & _ & Ht). pose proof (proj1 (list.Forall_forall _ _) Hfam c Hc) as Hfc.
  pose proof (find_cfd_member _ c Hids Hc) as Ec. change (find _ _) with (GetColumnFamily (id_ c) v) in Ec.
  destruct (find_builder (id_ c) vs) as [r |] eqn:Er.
  - destruct (find_version_some ws (id_ c)) as (w & Ew & Hw); [rewrite Hk; by apply find_builder_keys |]. rewrite Ew in E3. cbn in E3.
    destruct (proj1 (list.Forall_forall _ _) Hws _ Hw) as (c0 & t0 & Ec0 & Et0 & Hbl & Hm). cbn [fst snd] in *. rewrite Ec in Ec0. injection Ec0 as <-. rewrite Et in Et0. injection Et0 as <-.
    destruct Hfc as [HL Hf Hp _ _]. destruct (made_files (C := comparator (options_ c)) (TC := timestamps (options_ c)) _ _ _ Hm) as [Ev _].
    rewrite E3, Ev. split; [| done]. split; unfold cfd_ts_sz in *; rewrite ?E2, ?E3, ?Ev; done.
  - rewrite find_version_none in E3 by (rewrite Hk, <- find_builder_keys, Er; by intros [? ?]). rewrite E3. destruct Ht as (_ & <- & _). split; [| done].
    destruct Hfc as [HL Hf Hp Hm Hbl]. split; unfold cfd_ts_sz in *; rewrite ?E2, ?E3; done.
Qed.
Lemma installed_families v v' d vs ws : families_ok v -> built v d vs -> map fst ws = map fst vs -> Forall (new_version v d (fun _ w => w)) ws ->
  (forall cf, is_Some (d !! cf) -> is_Some (files_of v !! cf)) -> Forall2 (installed ws) (column_family_set_ v) (column_family_set_ v') ->
  families_ok v' /\ files_of v' = d.
Proof.
  intros Hv Hb Hk Hws Hdom Hi. split.
  - split; [by rewrite (installed_ids _ _ _ Hi); apply Hv | | by rewrite (installed_ids _ _ _ Hi); apply Hv].
    apply list.Forall_forall. intros c' [i Ei]%list_elem_of_lookup. destruct (Forall2_lookup_r _ _ _ _ _ Hi Ei) as (c & Ec & Hcc). apply list_elem_of_lookup_2 in Ec.
    by apply (installed_family v d vs ws c c').
  - apply map_eq. intros cf. rewrite files_of_lookup. pose proof (installed_find ws _ _ cf Hi) as H. unfold GetColumnFamily at 1.
    destruct (find _ (column_family_set_ v)) as [c |] eqn:Ec.
    + destruct H as (c' & -> & Hcc). apply find_cfd in Ec as [Hc <-]. cbn. symmetry. by apply (installed_family v d vs ws c c').
    + rewrite H. cbn. destruct (d !! cf) as [x |] eqn:E; [| done]. destruct (Hdom cf) as [y Ey]; [by rewrite E |]. rewrite files_of_lookup in Ey. unfold GetColumnFamily in Ey. by rewrite Ec in Ey.
Qed.
Lemma db_edits_dom es : Forall (fun e => IsColumnFamilyManipulation e = false) es -> forall d d', db_edits all_opened es d = Some d' -> forall cf, is_Some (d' !! cf) -> is_Some (d !! cf).
Proof.
  induction 1 as [| e es He Hes IH]; intros d d' E cf H; cbn [db_edits] in E; [by injection E as <- |]. apply bind_Some in E as (d1 & E1 & E2). apply (IH d1 d' E2) in H.
  unfold db_apply in E1. unfold IsColumnFamilyManipulation in He. apply orb_false_iff in He as [He1 He2]. rewrite He1, He2 in E1. destruct (_ || _); [by injection E1 as <- |].
  destruct (d !! column_family_ e) as [[t |] |] eqn:Ed; [| by injection E1 as <- | done]. apply bind_Some in E1 as (t' & _ & [= <-]).
  destruct H as [x H]. apply lookup_insert_Some in H as [[<- _] | [_ H]]; [by rewrite Ed | by rewrite H].
Qed.

(** ** The edits of a new MANIFEST are not grouped *)

Lemma snapshot_single b v : families_ok v -> Forall (fun e => is_in_atomic_group_ e = false) (map fst (current_state b v)).
Proof.
  intros [_ Hcs _]. unfold current_state. rewrite !map_app. apply list.Forall_app. split; [destruct b; by repeat constructor |].
  apply list.Forall_app. split; [destruct (map_to_list _); by repeat constructor |]. constructor; [done |]. rewrite concat_map, map_map. cbn [map fst].
  apply Forall_concat, list.Forall_fmap. eapply list.Forall_impl; [exact Hcs |]. intros c Hc. cbn. destruct (state_edit_core v c (fy_blobs c Hc)) as (E1 & _ & _).
  set (e := state_edit v c) in *. clearbody e. injection E1 as _ _ _ _ _ _ _ _ H. constructor; [| by constructor]. unfold family_edit. by destruct (id_ c =? 0).
Qed.
Lemma single_batches es : Forall (fun e => is_in_atomic_group_ e = false) es -> Forall batch_wf (map (fun e => [e]) es) /\ concat (map (fun e => [e]) es) = es.
Proof.
  intros H. split; [apply list.Forall_fmap; eapply list.Forall_impl; [exact H |]; intros e He; left; by exists e |].
  clear H. induction es as [| e es IH]; cbn; [done |]. by rewrite IH.
Qed.
