(* ===== verification/ManifestWriterTheorems.v ===== *)
(** The MANIFEST and the versions in memory agree after every call of [LogAndApply]: a database that is recovered from the MANIFEST has the
    files of the versions that were current. *)

From stdpp Require Import gmap sorting.
From S2P Require Import Prelude Algorithms Coding Comparator DbFormat Status LogFormat LogWriter LogReader LogProofs VersionEdit VersionEditProofs VersionEditTheorems VersionStorage VersionBuilder VersionBuilderProofs VersionSaveProofs VersionBuilderTheorems Manifest ManifestProofs VersionSet VersionEditHandler VersionEditHandlerProofs ManifestTheorems ManifestWriter ManifestWriterProofs ManifestCommit.

Open Scope record_scope.

(** * The numbers that are added to edits *)

Record numbers_ok (v : VersionSet) : Prop := {
  nb_next : fits 64 (vset_next_file_number_ v);
  nb_prev : fits 64 (vset_prev_log_number_ v);
  nb_sequence : fits 64 (descriptor_last_sequence_ v);
  nb_max : fits 32 (max_cf_ v);
}.
(** The fields of an edit that fit, one by one. *)
Ltac edit_fields := intros [[H1 H2 H3 H4 H5 H6 H7 H8 H9 H10 H11 H12] Hs] Hn; split; [split; cbn; try assumption | exact Hs];
  repeat (rewrite list.Forall_cons in * || rewrite list.Forall_app in * ); destruct_and?; split_and?; first [assumption | by constructor | congruence].
Lemma fits_prev e n : edit_fits e -> fits 64 n -> edit_fits (e <| prev_log_number_ := Some n |>).
Proof. edit_fields. Qed.
Lemma fits_next e n : edit_fits e -> fits 64 n -> edit_fits (e <| next_file_number_ := Some n |>).
Proof. edit_fields. Qed.
Lemma fits_sequence e n : edit_fits e -> fits 64 n -> edit_fits (e <| last_sequence_ := Some n |>).
Proof. edit_fields. Qed.
Lemma fits_max e n : edit_fits e -> fits 32 n -> edit_fits (e <| max_column_family_ := Some n |>).
Proof. edit_fields. Qed.
Lemma fits_remaining e n : is_in_atomic_group_ e = true -> edit_fits e -> fits 32 n -> edit_fits (e <| remaining_entries_ := n |>).
Proof. intros Hg. edit_fields. Qed.
Lemma complete_edit_fits v e m : numbers_ok v -> fits 64 m -> edit_fits e -> edit_fits (complete_edit v e m).1 /\ fits 64 (complete_edit v e m).2.
Proof.
  intros [Hn Hp _ _] Hm He. unfold complete_edit. set (e1 := if prev_log_number_ e is Some _ then e else _).
  assert (H1 : edit_fits (e1 <| next_file_number_ := Some (vset_next_file_number_ v) |>)) by (apply fits_next; [| done]; unfold e1; destruct (prev_log_number_ e); [done | by apply fits_prev]).
  set (e2 := e1 <| next_file_number_ := _ |>) in *. destruct (last_sequence_ e2) as [n |] eqn:E; cbn [fst snd]; [| split; [by apply fits_sequence | done]].
  destruct (n >? m); cbn [fst snd]; split; [done | | by apply fits_sequence | done].
  assert (Hall := eo_numbers 0 e2 (proj1 H1)). rewrite !list.Forall_app in Hall. destruct Hall as (_ & _ & _ & _ & Hall & _). exact (option_list_Forall _ _ n Hall E).
Qed.

(** * The edits of the writers *)

Definition batch_edit (e : VersionEdit) : Prop := edit_fits e /\ IsColumnFamilyManipulation e = false.
Lemma complete_batch_edit v e m : numbers_ok v -> fits 64 m -> batch_edit e -> batch_edit (complete_edit v e m).1 /\ fits 64 (complete_edit v e m).2.
Proof.
  intros Hn Hm [He Hk]. destruct (complete_edit_fits v e m Hn Hm He) as [H1 H2]. split; [| done]. split; [done |]. destruct (complete_edit_keeps v e m) as (Hc & _).
  set (e' := (complete_edit v e m).1) in *. clearbody e'. injection Hc as _ H3 H4 _ _ _ _ _. unfold IsColumnFamilyManipulation in *. by rewrite H3, H4.
Qed.
Lemma fewer_batch_edit e k : batch_edit e -> is_in_atomic_group_ e = true -> batch_edit (fewer k e).
Proof. intros [He Hk] Hg. split; [| done]. apply fits_remaining; [done | done | apply wrap_fits; lia]. Qed.
(** Nothing was collected yet. *)
Lemma collected_start v op : families_ok v -> numbers_ok v -> collected v op batch_edit (files_of v) [] (NewBatch (descriptor_last_sequence_ v)).
Proof.
  intros [Hids Hfam _] Hn. split; cbn; [| | constructor | constructor | apply Hn].
  - exists (files_of v). split; [done |]. split; [| constructor | by intros ? ? ?%not_elem_of_nil]. intros c Hc. exists (version_files (current_ c)).
    rewrite files_of_lookup. unfold GetColumnFamily. rewrite (find_cfd_member _ c Hids Hc). split; [done |].
    assert (Hfc := proj1 (list.Forall_forall _ _) Hfam c Hc). destruct (family_version c Hfc) as [Hv En]. split.
    + split; [apply (vo_bounded (C := comparator (options_ c)) _ _ Hv) |]. intros n level f E. apply (hd_levels _ _ (vo_holds (C := comparator (options_ c)) _ _ Hv)) in E as [? _]. lia.
    + split; [apply (vo_located (C := comparator (options_ c)) _ _ Hv) |]. split; [done |]. split; [apply (vo_consistent (C := comparator (options_ c)) _ _ Hv) | apply Hfc].
  - exists [], []. split_and!; [done | constructor | done | done | done].
Qed.

(** The edits of column families that are still there. *)
Definition live_edits (v : VersionSet) (ws : list ManifestWriter) : list VersionEdit := concat (map edit_list (filter (fun w => IsDropped v w = false) ws)).
#[local] Instance same_core_preorder : PreOrder same_core.
Proof. split; [done |]. unfold same_core. intros x y z H1 H2. by rewrite H2. Qed.
Lemma add_edits_core v c es : forall b s b', add_edits v c es b = Some (s, b') -> status_ok s = true -> Forall2 same_core (map fst (batch_edits b) ++ es) (map fst (batch_edits b')).
Proof.
  induction es as [| e es IH]; intros b s b' E Hs; cbn [add_edits] in E; [injection E as <- <-; by rewrite app_nil_r |].
  apply bind_Some in E as ([[[s1 e1] m] vs] & E1 & E). destruct (status_ok s1) eqn:Es; cbn [negb] in E; [| injection E as <- <-; congruence].
  apply IH in E; [| done]. cbn [batch_edits] in E. etransitivity; [| exact E]. rewrite map_app, <- app_assoc. apply Forall2_app; [reflexivity |]. cbn. constructor; [| reflexivity].
  destruct (complete_edit_keeps v e (max_last_sequence b)) as (Hc & _). unfold LogAndApplyHelper in E1. destruct (complete_edit v e (max_last_sequence b)) as [e2 m2]. cbn [fst] in Hc.
  destruct (find_builder _ _); [apply bind_Some in E1 as ([s2 r2] & _ & E1) |]; by injection E1 as <- <- <- <-.
Qed.
Lemma collect_core v ws : forall b s n b', collect v ws b = Some (s, n, b') -> status_ok s = true ->
  Forall2 same_core (map fst (batch_edits b) ++ live_edits v (batch_writers ws)) (map fst (batch_edits b')).
Proof.
  induction ws as [| w ws IH]; intros b s n b' E Hs; cbn [collect batch_writers] in *; [injection E as <- <- <-; by rewrite app_nil_r |].
  destruct (head (edit_list w)) as [e |]; [| done]. cbn [mbind option_bind] in E. destruct (IsColumnFamilyManipulation e); [injection E as <- <- <-; by rewrite app_nil_r |].
  destruct (writer_cfd w) as [cf |] eqn:Ecf; [| done]. cbn [mbind option_bind] in E. apply bind_Some in E as ([s1 b1] & E1 & E). destruct (status_ok s1) eqn:Es; cbn [negb] in E; [| injection E as <- <- <-; congruence].
  apply bind_Some in E as ([[s2 n2] b2] & E2 & [= <- <- <-]). etransitivity; [| exact (IH _ _ _ _ E2 Hs)]. unfold live_edits. rewrite filter_cons.
  assert (Hd : IsDropped v w = negb (bool_decide (is_Some (GetColumnFamily cf v)))) by (unfold IsDropped; by rewrite Ecf).
  destruct (GetColumnFamily cf v) as [c |].
  - rewrite bool_decide_eq_true_2 in Hd by by eexists. rewrite decide_True by done. cbn [map concat]. rewrite app_assoc. apply Forall2_app; [| reflexivity].
    replace (batch_edits b) with (batch_edits (add_version c w b)) by (unfold add_version; destruct (find_builder _ _); [done | by destruct (IsAllWalEdits w)]).
    by apply (add_edits_core v c _ _ s1).
  - rewrite bool_decide_eq_false_2 in Hd by by intros [? ?]. rewrite decide_False by (by rewrite Hd). injection E1 as <- <-. apply Forall2_app; [| reflexivity].
    rewrite skip_writer_edits. apply skip_edits_core.
Qed.

Section Serve.
Context (v : VersionSet) (Hfam : families_ok v) (Hnum : numbers_ok v).

(** Writers with edits of files or of the WALs, whose edits are complete batches. *)
Record writers_ok (ws : list ManifestWriter) : Prop := {
  wo_edits : Forall (fun w => edit_list w <> []) ws;
  wo_served : Forall (writer_ok v batch_edit) (batch_writers ws);
  wo_batches : exists bs, Forall batch_wf bs /\ concat (map edit_list (batch_writers ws)) = concat bs;
}.
Lemma collect_batch ws : writers_ok ws -> exists s n b, collect v ws (NewBatch (descriptor_last_sequence_ v)) = Some (s, n, b) /\
  (status_ok s = true -> n = length (batch_writers ws) /\ collected v all_opened batch_edit (files_of v) [] b /\ Forall2 same_core (live_edits v (batch_writers ws)) (map fst (batch_edits b))).
Proof using Hfam Hnum.
  intros [H1 H2 (bs & Hbs & Ebs)]. destruct (collect_ok v all_opened batch_edit (fs_ids v Hfam) (files_of v) batch_edit) with (ws := ws) (rest := @nil VersionEdit) (b := NewBatch (descriptor_last_sequence_ v))
    as (s & n & b & E & Hs).
  - intros e m Hm He. by apply complete_batch_edit.
  - apply fewer_batch_edit.
  - intros c Hc. assert (Hfc := proj1 (list.Forall_forall _ _) (fs_families v Hfam) c Hc). split; [apply Hfc |]. apply (vo_consistent (C := comparator (options_ c)) _ _ (proj1 (family_version c Hfc))).
  - done.
  - done.
  - by apply collected_start.
  - split; [apply group_tail_nil |]. exists bs. by rewrite Ebs.
  - exists s, n, b. split; [done |]. intros Hok. destruct (Hs Hok) as [-> Hc]. split; [done |]. split; [done |]. exact (collect_core v ws _ _ _ _ E Hok).
Qed.
End Serve.

(** ** The batch as it is written *)

(** Only numbers are changed. *)
Definition touched (x y : VersionEdit * option Z) : Prop := same_core x.1 y.1 /\ grouping x.1 y.1 /\ y.2 = x.2 /\ (edit_fits x.1 -> edit_fits y.1).
#[local] Instance touched_preorder : PreOrder touched.
Proof.
  split; [done |]. intros x y z (H1 & [H2 H2'] & H3 & H4) (K1 & [K2 K2'] & K3 & K4). split; [by transitivity y.1 |]. split; [split; congruence |]. split; [congruence | auto].
Qed.
Lemma alter_touched f i l : (forall x, touched x (f x)) -> Forall2 touched l (alter f i l).
Proof.
  intros Hf. apply Forall2_same_length_lookup. split; [by rewrite length_alter |]. intros j x y Ex Ey. destruct (decide (i = j)) as [-> | Hne].
  - rewrite list_lookup_alter_eq, Ex in Ey. injection Ey as <-. apply Hf.
  - rewrite list_lookup_alter_ne, Ex in Ey by done. by injection Ey as <-.
Qed.
Lemma complete_batch_touched new_log dropped v l : numbers_ok v -> Forall2 touched l (complete_batch new_log dropped v l).
Proof.
  intros [Hn _ _ Hm]. unfold complete_batch. destruct new_log; [| reflexivity]. transitivity (update_last (fun e => e <| next_file_number_ := Some (vset_next_file_number_ v) |>) l).
  - apply alter_touched. intros x. split_and!; [done | done | done | intros He; by apply fits_next].
  - destruct (_ && _); [| reflexivity]. apply alter_touched.
    intros x. split_and!; [done | done | done | intros He; by apply fits_max].
Qed.
Lemma grouping_batch es es' : Forall2 grouping es es' -> batch_wf es -> batch_wf es'.
Proof.
  intros Hg [(e & -> & He) | [Hl H]].
  - apply Forall2_cons_inv_l in Hg as (e' & es1 & [Hg _] & Hn & ->). apply Forall2_nil_inv_l in Hn as ->. left. exists e'. split; [done | congruence].
  - right. unfold slen in *. rewrite <- (Forall2_length Hg). split; [done |]. intros i e' E. destruct (Forall2_lookup_r _ _ _ _ _ Hg E) as (e & Ee & H1 & H2). rewrite H1, H2. by apply H.
Qed.
Lemma grouping_batches bs : Forall batch_wf bs -> forall es, Forall2 grouping (concat bs) es -> exists bs', Forall batch_wf bs' /\ concat bs' = es.
Proof.
  induction 1 as [| b bs Hb Hbs IH]; intros es Hg; cbn [concat] in Hg; [apply Forall2_nil_inv_l in Hg as ->; by exists [] |].
  apply Forall2_app_inv_l in Hg as (b' & es' & H1 & H2 & ->). destruct (IH es' H2) as (bs' & Hbs' & <-). exists (b' :: bs'). split; [| done]. constructor; [by eapply grouping_batch | done].
Qed.
Lemma written_batches edits start : written [] edits start -> exists bs, Forall batch_wf bs /\ edits = concat bs.
Proof. intros (bs & kept & -> & Hbs & _ & _ & Hk). destruct kept as [| e l]; [exists bs; by rewrite app_nil_r | by destruct Hk]. Qed.

(** * Committed *)

Section Commit.
Context {F : Type} {W : WritableFileWriter F} {WL : WritableFileLaws F} (E : ManifestEnv F) (Hnew : new_files_empty E).

Definition skipped (v : VersionSet) (writer : ManifestWriter) (first : VersionEdit) : bool := IsDropped v writer && negb (IsColumnFamilyManipulation first).
Lemma commit_batch_ok (new_log : bool) o writer first b ws st es :
  families_ok (vset_ st) -> numbers_ok (vset_ st) -> Forall item_ok (batch_edits b) ->
  (if new_log then Forall (VersionEditProofs.edit_ok 0) (map fst (current_state (write_dbid_to_manifest E) (vset_ st))) else exists log, descriptor_log_ st = Some log /\ logged es log) ->
  (exists ws', prepare_versions (vset_ st) ws = Some ws') ->
  (forall v first' edits ws' pending size, column_family_set_ v = column_family_set_ (vset_ st) -> is_column_family_add_ first' = is_column_family_add_ first ->
     is_column_family_drop_ first' = is_column_family_drop_ first -> is_Some (install o first' writer edits ws' (max_last_sequence b) pending size v)) ->
  (forall l, Forall2 touched (batch_edits b) l -> skipped (vset_ st) writer first = false -> is_column_family_add_ (default first (head (map fst l))) = is_column_family_add_ first /\
     is_column_family_drop_ (default first (head (map fst l))) = is_column_family_drop_ first) ->
  exists s st', commit_batch E new_log o writer first b ws st = Some (s, st') /\ manifest_writers_ st' = manifest_writers_ st /\
    (status_ok s = false -> column_family_set_ (vset_ st') = column_family_set_ (vset_ st) /\ numbers_ok (vset_ st') /\ descriptor_log_ st' = None) /\
    (status_ok s = true -> exists l log v1 ws' first' pending size, Forall2 touched (batch_edits b) l /\ descriptor_log_ st' = Some log /\
       logged ((if new_log then map fst (current_state (write_dbid_to_manifest E) (vset_ st)) else es) ++ map fst l) log /\
       column_family_set_ v1 = column_family_set_ (vset_ st) /\ numbers_ok v1 /\ prepare_versions (vset_ st) ws = Some ws' /\
       first' = (if skipped (vset_ st) writer first then first else default first (head (map fst l))) /\
       install o first' writer (map fst l) ws' (max_last_sequence b) pending size v1 = Some (vset_ st')).
Proof using Hnew WL.
  intros Hf Hn Hitems Hlog (ws' & Ews) Hinst Hfirst. unfold commit_batch.
  set (p := if new_log then NewFileNumber (vset_ st) else (manifest_file_number_ (vset_ st), vset_ st)).
  assert (Hp : numbers_ok p.2 /\ column_family_set_ p.2 = column_family_set_ (vset_ st) /\ (forall b, current_state b p.2 = current_state b (vset_ st)) /\ wal_set_ p.2 = wal_set_ (vset_ st)).
  { unfold p. destruct new_log; [| done]. split; [| done]. destruct Hn as [? ? ? ?]. split; cbn; try done. apply wrap_fits. lia. }
  destruct p as [pending v]. cbn [snd] in Hp. destruct Hp as (Hnv & Ev & Ecur & Ewal).
  assert (Hdrop : IsDropped v writer = IsDropped (vset_ st) writer) by (unfold IsDropped, GetColumnFamily; by rewrite Ev).
  rewrite Hdrop. fold (skipped (vset_ st) writer first). set (batch := complete_batch _ _ v (batch_edits b)).
  assert (Hb : Forall2 touched (batch_edits b) batch) by (by apply complete_batch_touched).
  assert (Hbi : Forall item_ok batch).
  { eapply Forall2_Forall_r; [exact Hb |]. eapply list.Forall_impl; [exact Hitems |]. intros x [H1 H2] y (Hc & _ & Ets & Hfit). split; [by apply Hfit |]. rewrite Ets. destruct H2 as [? | [? H2]]; [by left | right].
    split; [done |]. injection Hc as _ _ _ _ _ _ _ Hnf. congruence. }
  set (first' := if skipped _ _ _ then first else _).
  assert (Hw : exists s io mio log, (if status_ok (load_versions E (versions b)) then write_manifest E new_log v batch (descriptor_log_ st) else Some (load_versions E (versions b), IOStatus_OK, IOStatus_OK, descriptor_log_ st))
    = Some (s, io, mio, log) /\ (status_ok s = true -> exists log1, log = Some log1 /\
      logged ((if new_log then map fst (current_state (write_dbid_to_manifest E) (vset_ st)) else es) ++ map fst batch) log1)).
  { destruct (status_ok (load_versions _ _)) eqn:El; [| eexists _, _, _, _; split; [done |]; by rewrite El]. rewrite <- Ecur in Hlog |- *.
    apply write_manifest_logged; [done | done |]. destruct new_log; [| done]. apply snapshot_items; [| done]. destruct Hf as [? ? ?]. by split; rewrite Ev. }
  destruct Hw as (s & io & mio & log & -> & Hs). cbn [mbind option_bind]. assert (Hprep : prepare_versions v ws = Some ws') by (rewrite <- Ews; unfold prepare_versions, GetColumnFamily; by rewrite Ev).
  rewrite Hprep. cbn [mbind option_bind]. set (q := if status_ok s && new_log then _ else _). assert (Hq : status_ok q.1.1 = true -> status_ok s = true).
  { unfold q. destruct (status_ok s) eqn:Es, new_log; cbn [andb]; try (destruct (LogWriter.ok _)); cbn; congruence. }
  destruct q as [[s2 io2] current]. cbn [fst] in Hq. set (r := if status_ok s2 then apply_wal_edits _ _ else _). assert (Hr : status_ok r.1 = true -> status_ok s2 = true).
  { unfold r. destruct (status_ok s2) eqn:Es2; [done |]. cbn [fst]. by rewrite Es2. }
  destruct r as [s3 wals]. cbn [fst] in Hr. destruct (status_ok s3) eqn:Es3.
  - destruct (Hs (Hq (Hr eq_refl))) as (log1 & -> & Hlog1). cbn [mbind option_bind].
    destruct (Hinst (v <| wal_set_ := wals |>) first' (map fst batch) ws' pending (GetFileSize E (dest_ log1))) as [v' Ev']; [done | | |].
    { unfold first'. destruct (skipped _ _ _) eqn:Esk; [done | by apply Hfirst]. }
    { unfold first'. destruct (skipped _ _ _) eqn:Esk; [done | by apply Hfirst]. }
    rewrite Ev'. cbn [mbind option_bind]. eexists _, _. split; [done |]. split; [done |]. split; [by rewrite Es3 |]. intros _.
    exists batch, log1, (v <| wal_set_ := wals |>), ws', first', pending, (GetFileSize E (dest_ log1)). split_and!; try done. by destruct Hnv.
  - eexists _, _. split; [done |]. split; [done |]. split; [| by rewrite Es3]. intros _. split; [done |]. split; [by destruct Hnv | done].
Qed.

(** ** The MANIFEST and the versions agree *)

(** The records of the log are complete batches of edits, and these leave the files of the current versions. *)
Record durable (st : ManifestState F) : Prop := {
  dr_families : families_ok (vset_ st);
  dr_numbers : numbers_ok (vset_ st);
  dr_log log : descriptor_log_ st = Some log -> exists bs, Forall batch_wf bs /\ Forall edit_fits (concat bs) /\ logged (concat bs) log /\
    db_edits all_opened (concat bs) db_start = Some (files_of (vset_ st));
}.
(** What a new MANIFEST would start with can be encoded. *)
Definition encodable (st : ManifestState F) : Prop := Forall (VersionEditProofs.edit_ok 0) (map fst (current_state (write_dbid_to_manifest E) (vset_ st))).
Lemma log_before st (new_log : bool) : durable st -> encodable st -> (new_log = false -> is_Some (descriptor_log_ st)) -> exists es,
  (if new_log then Forall (VersionEditProofs.edit_ok 0) (map fst (current_state (write_dbid_to_manifest E) (vset_ st))) else exists log, descriptor_log_ st = Some log /\ logged es log) /\
  let es' := if new_log then map fst (current_state (write_dbid_to_manifest E) (vset_ st)) else es in
  db_edits all_opened es' db_start = Some (files_of (vset_ st)) /\ Forall edit_fits es' /\ exists bs, Forall batch_wf bs /\ concat bs = es'.
Proof using.
  intros [Hf Hn Hl] He Hsome. destruct new_log.
  - exists []. split; [done |]. split; [by apply snapshot_files |]. split; [| destruct (single_batches _ (snapshot_single (write_dbid_to_manifest E) _ Hf)) as [H1 H2]; by eexists].
    apply list.Forall_fmap. eapply list.Forall_impl; [apply (snapshot_items _ _ Hf He) |]. by intros x [? _].
  - destruct (Hsome eq_refl) as [log El]. destruct (Hl log El) as (bs & H1 & H2 & H3 & H4). exists (concat bs). split; [by exists log |]. split; [done |]. split; [done |]. by exists bs.
Qed.
Lemma durable_next st st' es log l : durable st -> descriptor_log_ st' = Some log -> logged (es ++ l) log -> db_edits all_opened es db_start = Some (files_of (vset_ st)) ->
  Forall edit_fits es -> (exists bs, Forall batch_wf bs /\ concat bs = es) -> Forall edit_fits l -> (exists bs, Forall batch_wf bs /\ concat bs = l) ->
  db_edits all_opened l (files_of (vset_ st)) = Some (files_of (vset_ st')) -> families_ok (vset_ st') -> numbers_ok (vset_ st') -> durable st'.
Proof using.
  intros Hd El Hlog Ed He (bs & Hbs & Ebs) Hl (bs' & Hbs' & Ebs') Ed' Hf Hn. split; [done | done |]. intros log' El'. rewrite El in El'. injection El' as <-. exists (bs ++ bs').
  rewrite concat_app, Ebs, Ebs'. split_and!; [by apply list.Forall_app | by apply list.Forall_app | done |]. rewrite db_edits_app, Ed. done.
Qed.
Lemma durable_failed st st' : durable st -> column_family_set_ (vset_ st') = column_family_set_ (vset_ st) -> numbers_ok (vset_ st') -> descriptor_log_ st' = None -> durable st'.
Proof using. intros [[H1 H2 H3] _ _] Ev Hn El. split; [by split; rewrite Ev | done | by rewrite El]. Qed.
Lemma install_versions_numbers edits ws v : vset_next_file_number_ (install_versions edits ws v) = vset_next_file_number_ v /\ max_cf_ (install_versions edits ws v) = max_cf_ v.
Proof using.
  unfold install_versions. set (v1 := if _ =? 0 then _ else _). assert (H1 : vset_next_file_number_ v1 = vset_next_file_number_ v /\ max_cf_ v1 = max_cf_ v).
  { assert (H : forall v, vset_next_file_number_ (fold_left install_numbers edits v) = vset_next_file_number_ v /\ max_cf_ (fold_left install_numbers edits v) = max_cf_ v).
    { induction edits as [| e l IH]; intros v0; cbn [fold_left]; [done |]. apply (IH (install_numbers v0 e)). }
    unfold v1, MarkMinLogNumberToKeep. destruct (_ =? 0); [apply H |]. destruct (_ <? _); apply H. }
  clearbody v1. destruct H1 as [<- <-]. revert v1. induction ws as [| x ws IH]; intros v1; cbn [fold_left]; [done |]. apply (IH (AppendVersion x.1 x.2 v1)).
Qed.

(** What a call did: the edits, or nothing. *)
Record outcome (st st' : ManifestState F) (s : Status) (n : nat) (edits : list VersionEdit) : Prop := {
  oc_durable : durable st';
  oc_done : status_ok s = true -> is_Some (descriptor_log_ st') /\ manifest_writers_ st' = drop n (manifest_writers_ st) /\
    db_edits all_opened edits (files_of (vset_ st)) = Some (files_of (vset_ st'));
  oc_failed : status_ok s = false -> files_of (vset_ st') = files_of (vset_ st);
}.
Lemma outcome_nothing st s n edits : durable st -> status_ok s = false -> outcome st st s n edits.
Proof using. intros Hd Hs. split; [done | congruence | done]. Qed.
Lemma durable_pop st n : durable st -> durable (pop_writers n st).
Proof using. intros [H1 H2 H3]. by split. Qed.
Lemma prev_log_fits e : edit_fits e -> fits 64 (default 0 (prev_log_number_ e)).
Proof using.
  intros [He _]. assert (H := eo_numbers 0 e He). rewrite !list.Forall_app in H. destruct H as (_ & H & _).
  destruct (prev_log_number_ e) as [n |] eqn:En; [exact (option_list_Forall _ _ n H eq_refl) | small_fits].
Qed.
Lemma touched_edits l l' : Forall2 touched l l' -> Forall2 same_core (map fst l) (map fst l') /\ Forall2 grouping (map fst l) (map fst l').
Proof using.
  intros H. split; (apply Forall2_fmap; eapply list.Forall2_impl; [exact H |]); intros x y (? & ? & _); done.
Qed.
Lemma install_edits v v1 v' d vs ws o first writer edits m pending size : families_ok v -> built v d vs -> (forall cf, is_Some (d !! cf) -> is_Some (files_of v !! cf)) ->
  map fst ws = map fst vs -> Forall (new_version v d (fun _ w => w)) ws -> column_family_set_ v1 = column_family_set_ v -> numbers_ok v1 -> fits 64 m -> edit_fits first ->
  is_column_family_add_ first = false -> is_column_family_drop_ first = false -> install o first writer edits ws m pending size v1 = Some v' ->
  families_ok v' /\ files_of v' = d /\ numbers_ok v'.
Proof using.
  intros Hf Hb Hdom Hk Hws Ev [Hn1 _ _ Hn4] Hm He Ha Hd Ei. unfold install in Ei. rewrite Ha, Hd in Ei. cbn in Ei. injection Ei as <-.
  assert (Hi : Forall2 (installed ws) (column_family_set_ v) (column_family_set_ (install_versions edits ws v1))).
  { rewrite <- Ev. apply install_versions_installed. rewrite Hk. apply Hb. }
  set (v2 := install_versions edits ws v1) in *. assert (Hv2 := install_versions_numbers edits ws v1). fold v2 in Hv2. clearbody v2. destruct Hv2 as [E1 E2].
  destruct (installed_families v v2 d vs ws Hf Hb Hk Hws Hdom Hi) as [[H1 H2 H3] H4]. split; [by split |]. split; [done |]. split; cbn; [by rewrite E1 | by apply prev_log_fits | done | by rewrite E2].
Qed.

(** ** A batch of edits *)

Section Edits.
Context (new_log : bool) (writer : ManifestWriter) (first : VersionEdit) (st : ManifestState F) (b : Batch) (d : db).
Context (Hd : durable st) (He : encodable st) (Hlog : new_log = false -> is_Some (descriptor_log_ st)) (Hfirst : batch_edit first).
Context (Hgr : written [] (map fst (batch_edits b)) (group_start b)) (Hes : Forall batch_edit (map fst (batch_edits b))) (Hsz : Forall (fun ts_sz => ts_sz = Some 0) (map snd (batch_edits b))).
Context (Hseq : fits 64 (max_last_sequence b)) (Ed : db_edits all_opened (map fst (batch_edits b)) (files_of (vset_ st)) = Some d) (Hb : built (vset_ st) d (versions b)).

Lemma first_edit l : Forall2 touched (batch_edits b) l -> let f := default first (head (map fst l)) in batch_edit f.
Proof using Hfirst Hes.
  intros Ht. clear -Hfirst Hes Ht. destruct Ht as [| x y l1 l2 (Hc & _ & _ & Hf) Ht]; [done |]. change (batch_edit y.1). cbn [map] in Hes. apply list.Forall_cons in Hes as [[H1 H2] _]. split; [by apply Hf |].
  injection Hc as _ H3 H4 _ _ _ _ _. unfold IsColumnFamilyManipulation in *. by rewrite H3, H4.
Qed.
Lemma edits_installed es o l log v1 ws first' pending size st' : Forall2 touched (batch_edits b) l -> descriptor_log_ st' = Some log -> logged (es ++ map fst l) log ->
  db_edits all_opened es db_start = Some (files_of (vset_ st)) -> Forall edit_fits es -> (exists bs, Forall batch_wf bs /\ concat bs = es) ->
  column_family_set_ v1 = column_family_set_ (vset_ st) -> numbers_ok v1 -> map fst ws = map fst (versions b) -> Forall (new_version (vset_ st) d (fun _ w => w)) ws -> batch_edit first' ->
  install o first' writer (map fst l) ws (max_last_sequence b) pending size v1 = Some (vset_ st') -> durable st' /\ files_of (vset_ st') = d.
Proof using Hd Hgr Hes Hseq Ed Hb.
  intros Ht El Hlg Ees Hfes Hbs Ev1 Hn1 Hk Hws [Hf1 Hf2] Ei. destruct (touched_edits _ _ Ht) as [Hcore Hgrp]. apply orb_false_iff in Hf2 as [Hf2 Hf3].
  assert (Hes2 : Forall (batch_edit ∘ fst) (batch_edits b)) by (by apply list.Forall_fmap).
  assert (Hfl : Forall edit_fits (map fst l)).
  { apply list.Forall_fmap. eapply Forall2_Forall_r; [exact Ht |]. eapply list.Forall_impl; [exact Hes2 |]. intros x [Hx _] y (_ & _ & _ & Hy). by apply Hy. }
  destruct (install_edits (vset_ st) v1 (vset_ st') d (versions b) ws o first' writer (map fst l) (max_last_sequence b) pending size) as (H1 & H2 & H3); try done; [apply Hd | |].
  { apply (db_edits_dom (map fst (batch_edits b))); [| done]. eapply list.Forall_impl; [exact Hes |]. by intros e [_ ?]. }
  split; [| done]. destruct (written_batches _ _ Hgr) as (bs & Hbs1 & Ebs1). rewrite Ebs1 in Hgrp. destruct (grouping_batches bs Hbs1 _ Hgrp) as (bs' & Hbs' & Ebs').
  apply (durable_next st st' es log (map fst l)); try done; [by exists bs' |]. rewrite (same_core_edits all_opened _ _ Hcore), H2. exact Ed.
Qed.
(** The edits are in the log, and the versions are installed. *)
Lemma commit_edits o ws n : map fst ws = map fst (versions b) -> Forall (new_version (vset_ st) d PrepareAppend) ws ->
  exists s st', commit_batch E new_log o writer first b ws st = Some (s, st') /\ outcome st (pop_writers n st') s n (map fst (batch_edits b)).
Proof using Hnew WL Hd He Hlog Hfirst Hgr Hes Hsz Hseq Ed Hb.
  intros Hws1 Hws2. destruct (log_before st new_log Hd He Hlog) as (es & Hl & Ees & Hfes & Hbs). destruct (prepare_versions_ok (vset_ st) d ws Hws2) as (ws' & Ews & Ek & Hws').
  pose proof Hfirst as [_ Hfk]. apply orb_false_iff in Hfk as [Hfa Hfd].
  destruct (commit_batch_ok new_log o writer first b ws st es) as (s & st' & E1 & Eq & Hfail & Hok); [apply Hd | apply Hd | | done | by exists ws' | | | ].
  { apply list.Forall_forall. intros x Hx. split; [apply (proj1 (list.Forall_forall _ _) Hes x.1), (list_elem_of_fmap_2 fst _ _ Hx) | left].
    exact (proj1 (list.Forall_forall _ _) Hsz x.2 (list_elem_of_fmap_2 snd _ _ Hx)). }
  { intros v0 first' edits ws0 pending size _ Ha Hdr. unfold install. rewrite Ha, Hdr, Hfa, Hfd. cbn. by eexists. }
  { intros l Ht _. rewrite Hfa, Hfd. destruct (first_edit l Ht) as [_ Hk]. by apply orb_false_iff in Hk. }
  exists s, st'. split; [done |]. destruct (status_ok s) eqn:Es.
  - destruct (Hok eq_refl) as (l & log & v1 & ws1 & first' & pending & size & Ht & El & Hlg & Ev1 & Hn1 & Ew & Ef & Ei). rewrite Ews in Ew. injection Ew as <-.
    destruct (edits_installed _ o l log v1 ws' first' pending size st' Ht El Hlg Ees Hfes Hbs Ev1 Hn1) as [H1 H2]; [by rewrite Ek | done | | done |].
    { rewrite Ef. destruct (skipped _ _ _); [done | by apply first_edit]. }
    split; [by apply durable_pop | | congruence]. intros _. cbn. rewrite El, Eq, H2. split; [by eexists | done].
  - destruct (Hfail eq_refl) as (H1 & H2 & H3). split; [apply durable_pop; by apply (durable_failed st) | congruence |]. intros _. cbn. unfold files_of. by rewrite H1.
Qed.
End Edits.

(** ** A column family is added or dropped *)

Record options_ok (o : ColumnFamilyOptions) : Prop := {
  op_laws : ComparatorLaws (comparator o);
  op_checks : force_consistency_checks o = true;
  op_plain : timestamp_size (Comparator := comparator o) = 0;
}.
Record family_change (v : VersionSet) (o : option ColumnFamilyOptions) (w : ManifestWriter) (e : VersionEdit) : Prop := {
  fc_list : edit_list w = [e];
  fc_fits : edit_fits e;
  fc_single : is_in_atomic_group_ e = false;
  fc_files : new_files_ e = [];
  fc_kind : (is_column_family_add_ e = true /\ is_column_family_drop_ e = false /\ writer_cfd w = None /\ (column_family_ e ∉ map id_ (column_family_set_ v)) /\ exists o', o = Some o' /\ options_ok o') \/
    (is_column_family_add_ e = false /\ is_column_family_drop_ e = true /\ writer_cfd w = Some (column_family_ e) /\ column_family_ e ∈ map id_ (column_family_set_ v) /\ column_family_ e <> 0);
}.
Lemma GetColumnFamily_absent v cf : cf ∉ map id_ (column_family_set_ v) -> GetColumnFamily cf v = None.
Proof using. intros H. destruct (GetColumnFamily cf v) as [c |] eqn:E1; [| done]. apply find_cfd in E1 as [Hc <-]. destruct H. by apply list_elem_of_fmap_2. Qed.
Lemma find_cfd_app (p : ColumnFamilyData -> bool) l1 l2 : find p (l1 ++ l2) = match find p l1 with Some c => Some c | None => find p l2 end.
Proof using. induction l1 as [| c l1 IH]; cbn; [done |]. by destruct (p c). Qed.
Lemma added_family v o e : families_ok v -> options_ok o -> is_column_family_add_ e = true -> column_family_ e ∉ map id_ (column_family_set_ v) ->
  families_ok (CreateColumnFamily o e v) /\ db_apply all_opened e (files_of v) = Some (files_of (CreateColumnFamily o e v)).
Proof using.
  intros [H1 H2 H3] [HL Hf Hp] Ha Hnew'. set (v' := CreateColumnFamily o e v). assert (Ev : exists c, column_family_set_ v' = column_family_set_ v ++ [c] /\ id_ c = column_family_ e /\ options_ c = o /\ current_ c = empty_version o) by (by eexists).
  destruct Ev as (c & Ev & Eid & Eo & Ec). assert (Hc : family_ok c).
  { split; unfold cfd_ts_sz; rewrite ?Eo; [done | done | done | | by rewrite Ec]. rewrite Ec, empty_version_files. unfold empty_version. rewrite Hf. apply (made_first (C := comparator o) (TC := timestamps o)). }
  split.
  - split; rewrite Ev, ?map_app; [| by apply list.Forall_app; split; [| apply list.Forall_singleton] | apply elem_of_app; by left]. apply list.NoDup_app. split; [done |].
    split; [| apply NoDup_singleton]. intros x Hx Hx'. apply list_elem_of_singleton in Hx' as ->. cbn in Hx. by rewrite Eid in Hx.
  - unfold db_apply. rewrite Ha, files_of_lookup, GetColumnFamily_absent by done. cbn [fmap option_fmap option_map]. f_equal. apply map_eq. intros cf. rewrite files_of_lookup. unfold GetColumnFamily. rewrite Ev, find_cfd_app.
    destruct (decide (cf = column_family_ e)) as [-> | Hne].
    + rewrite lookup_insert_eq. change (find _ (column_family_set_ v)) with (GetColumnFamily (column_family_ e) v). rewrite GetColumnFamily_absent by done. cbn. rewrite Eid, Z.eqb_refl. cbn. by rewrite Ec, empty_version_files.
    + rewrite lookup_insert_ne, files_of_lookup by done. unfold GetColumnFamily. destruct (find _ (column_family_set_ v)); [done |]. cbn. rewrite Eid. by destruct (Z.eqb_spec (column_family_ e) cf); [congruence |].
Qed.
Lemma dropped_family v e : families_ok v -> is_column_family_add_ e = false -> is_column_family_drop_ e = true -> column_family_ e ∈ map id_ (column_family_set_ v) -> column_family_ e <> 0 ->
  families_ok (DropColumnFamily (column_family_ e) v) /\ db_apply all_opened e (files_of v) = Some (files_of (DropColumnFamily (column_family_ e) v)).
Proof using.
  intros [H1 H2 H3] Ha Hdr Hin Hne. set (cf := column_family_ e) in *. split.
  - split; cbn; [by apply remaining_NoDup | apply list.Forall_forall; intros x [_ Hx]%list_elem_of_filter; exact (proj1 (list.Forall_forall _ _) H2 x Hx) | by apply remaining_ids].
  - unfold db_apply. rewrite Ha, Hdr, files_of_lookup. fold cf. destruct (find_cfd_exists _ _ Hin) as [c Ec]. unfold GetColumnFamily at 1. rewrite Ec. cbn [fmap option_fmap option_map]. f_equal. apply map_eq. intros cf'.
    rewrite files_of_lookup. unfold GetColumnFamily. cbn. destruct (decide (cf' = cf)) as [-> | Hcf].
    + rewrite lookup_delete_eq. destruct (find _ (filter _ _)) as [x |] eqn:Ex; [| done]. apply find_cfd in Ex as [Hx Ex]. by apply list_elem_of_filter in Hx as [? _].
    + rewrite lookup_delete_ne, files_of_lookup by done. unfold GetColumnFamily. f_equal. symmetry. clear -Hcf.
      induction (column_family_set_ v) as [| c cs IH]; [done |]. rewrite filter_cons. destruct (decide (id_ c <> cf)) as [Hc | Hc]; cbn [find]; [by destruct (id_ c =? cf') |].
      rewrite IH. destruct (Z.eqb_spec (id_ c) cf'); [| done]. destruct Hc. congruence.
Qed.
Lemma cf_helper_keeps v e m : numbers_ok v -> fits 64 m -> edit_fits e -> let e' := LogAndApplyCFHelper v e m in same_core e e' /\ grouping e e' /\ edit_fits e'.
Proof using.
  intros [Hn _ _ Hmx] Hm He. unfold LogAndApplyCFHelper. set (e1 := e <| next_file_number_ := _ |> <| last_sequence_ := _ |>).
  assert (H1 : edit_fits e1) by (apply fits_sequence; [by apply fits_next | done]). destruct (is_column_family_drop_ e1); split_and!; try done. by apply fits_max.
Qed.
Lemma install_family v v1 v' o w e first edits ws m pending size : families_ok v -> family_change v o w e -> column_family_set_ v1 = column_family_set_ v -> numbers_ok v1 -> fits 64 m ->
  same_core e first -> edit_fits first -> install o first w edits ws m pending size v1 = Some v' ->
  families_ok v' /\ numbers_ok v' /\ db_apply all_opened e (files_of v) = Some (files_of v').
Proof using.
  intros Hf [_ He _ _ Hk] Ev [Hn1 Hn2 Hn3 Hn4] Hm Hc Hfst Ei. pose proof Hc as Hc'. injection Hc' as H1 H2 H3 H4 _ _ _ _. unfold install in Ei. rewrite H2, H3 in Ei.
  assert (Hf1 : families_ok v1) by (destruct Hf as [? ? ?]; split; by rewrite Ev). assert (Efo : files_of v1 = files_of v) by (unfold files_of; by rewrite Ev).
  destruct Hk as [(Ha & _ & _ & Hni & (o' & -> & Ho)) | (Ha & Hdr & Ew & Hin & Hne)].
  - rewrite Ha in Ei. cbn [mbind option_bind] in Ei. injection Ei as <-. rewrite <- H1, <- Ev in Hni. destruct (added_family v1 o' first Hf1 Ho ltac:(congruence) Hni) as [[G1 G2 G3] G4].
    split; [by split |]. split.
    + split; cbn; [done | by apply prev_log_fits | done |]. rewrite H1. assert (Hs := eo_small_numbers 0 e (proj1 He)). apply list.Forall_app in Hs as [_ Hs]. apply list.Forall_cons in Hs as [Hs _]. unfold fits in *. lia.
    + rewrite <- Efo, <- (same_core_apply all_opened e first) by done. exact G4.
  - rewrite Ha, Hdr, Ew in Ei. cbn [mbind option_bind] in Ei. injection Ei as <-. rewrite <- Ev in Hin. destruct (dropped_family v1 e Hf1 Ha Hdr Hin Hne) as [[G1 G2 G3] G4].
    split; [by split |]. split; [| by rewrite <- Efo]. split; cbn; [done | by apply prev_log_fits | done | done].
Qed.
Lemma commit_family (new_log : bool) o writer e st n : durable st -> encodable st -> (new_log = false -> is_Some (descriptor_log_ st)) -> family_change (vset_ st) o writer e ->
  let b := {| batch_edits := [(LogAndApplyCFHelper (vset_ st) e (descriptor_last_sequence_ (vset_ st)), None)]; versions := [];
              max_last_sequence := descriptor_last_sequence_ (vset_ st); group_start := None |} in
  exists s st', commit_batch E new_log o writer e b [] st = Some (s, st') /\ outcome st (pop_writers n st') s n [e].
Proof using Hnew WL.
  intros Hd He Hlog Hch b. pose proof Hch as [_ Hfe Hg Hnf Hk]. destruct (log_before st new_log Hd He Hlog) as (es & Hl & Ees & Hfes & Hbs).
  assert (Hm : fits 64 (descriptor_last_sequence_ (vset_ st))) by apply (dr_numbers st Hd).
  destruct (cf_helper_keeps (vset_ st) e (descriptor_last_sequence_ (vset_ st)) (dr_numbers st Hd) Hm Hfe) as (Hc & Hgr & Hf'). set (e' := LogAndApplyCFHelper _ _ _) in *.
  assert (Hskip : skipped (vset_ st) writer e = false) by (unfold skipped, IsColumnFamilyManipulation; destruct Hk as [(-> & _) | (_ & -> & _)]; [| rewrite orb_true_r]; apply andb_false_r).
  assert (Hone : forall l, Forall2 touched (batch_edits b) l -> exists x, l = [x] /\ same_core e x.1 /\ edit_fits x.1 /\ is_in_atomic_group_ x.1 = false).
  { intros l Ht. apply Forall2_cons_inv_l in Ht as (x & l' & (H1 & [H2 _] & _ & H3) & Hn & ->). apply Forall2_nil_inv_l in Hn as ->. exists x. split; [done |]. cbn in *. split; [by transitivity e' |]. split; [by apply H3 |].
    rewrite H2, (proj1 Hgr). done. }
  destruct (commit_batch_ok new_log o writer e b [] st es) as (s & st' & E1 & Eq & Hfail & Hok); [apply Hd | apply Hd | | done | by exists [] | | | ].
  { constructor; [| constructor]. split; [done |]. right. split; [done |]. injection Hc as _ _ _ _ _ _ _ H8. cbn. congruence. }
  { intros v0 first' edits ws0 pending size _ Ha Hdr. unfold install. rewrite Ha, Hdr. destruct Hk as [(-> & _ & _ & _ & (o' & -> & _)) | (-> & -> & -> & _)]; by eexists. }
  { intros l Ht _. destruct (Hone l Ht) as (x & -> & Hx & _). injection Hx as _ H2 H3 _ _ _ _ _. cbn. done. }
  exists s, st'. split; [done |]. destruct (status_ok s) eqn:Es.
  - destruct (Hok eq_refl) as (l & log & v1 & ws1 & first' & pending & size & Ht & El & Hlg & Ev1 & Hn1 & _ & Ef & Ei). destruct (Hone l Ht) as (x & -> & Hx & Hfx & Hgx).
    rewrite Hskip in Ef. cbn in Ef. subst first'. destruct (install_family (vset_ st) v1 (vset_ st') o writer e x.1 _ ws1 _ pending size (dr_families st Hd) Hch Ev1 Hn1 Hm Hx Hfx Ei) as (H1 & H2 & H3).
    assert (Hdb : db_edits all_opened [e] (files_of (vset_ st)) = Some (files_of (vset_ st'))) by (cbn [db_edits]; by rewrite H3).
    split; [| intros _; cbn [pop_writers descriptor_log_ manifest_writers_ vset_]; rewrite El, Eq; split; [by eexists | done] | congruence]. apply durable_pop.
    refine (durable_next st st' _ log [x.1] Hd El Hlg Ees Hfes Hbs _ _ _ H1 H2); [by constructor | exists [[x.1]]; split; [| done]; constructor; [left; by exists x.1 | constructor] |].
    cbn [db_edits]. by rewrite (same_core_apply all_opened e x.1), H3.
  - destruct (Hfail eq_refl) as (H1 & H2 & H3). split; [apply durable_pop; by apply (durable_failed st) | congruence |]. intros _. cbn. unfold files_of. by rewrite H1.
Qed.

(** ** A call *)

(** The writers at the front of the queue, [n] of them of the call: one that adds or drops a column family, or some with edits of column families. *)
Definition serve_ok (o : option ColumnFamilyOptions) (n : nat) (st : ManifestState F) : Prop := exists w q e, manifest_writers_ st = w :: q /\ head (edit_list w) = Some e /\ (0 < n)%nat /\
  if IsColumnFamilyManipulation e then n = 1%nat /\ (IsDropped (vset_ st) w = false -> family_change (vset_ st) o w e)
  else writers_ok (vset_ st) (w :: q) /\ (n <= length (batch_writers (w :: q)))%nat.
(** How many writers are served, and with which edits. *)
Definition served (v : VersionSet) (q : list ManifestWriter) : nat * list VersionEdit :=
  match q with
  | w :: _ =>
      match edit_list w with
      | e :: _ => if IsColumnFamilyManipulation e then (1%nat, [e]) else (length (batch_writers q), live_edits v (batch_writers q))
      | [] => (0%nat, [])
      end
  | [] => (0%nat, [])
  end.
Lemma batch_writers_prefix q : batch_writers q `prefix_of` q.
Proof using.
  induction q as [| w q IH]; cbn [batch_writers]; [done |]. destruct (head (edit_list w)) as [e |]; [| apply prefix_nil]. destruct (IsColumnFamilyManipulation e); [apply prefix_nil | by apply prefix_cons].
Qed.
Lemma live_edits_some v ws n q : batch_writers ws = q -> (n <= length q)%nat -> forallb (IsDropped v) (take n ws) = false -> Forall (fun w => edit_list w <> []) ws -> live_edits v q <> [].
Proof using.
  intros Eq Hn Hf Hne. assert (Ht : take n ws = take n q). { destruct (batch_writers_prefix ws) as [r Er]. rewrite Eq in Er. rewrite Er, take_app_le by lia. done. }
  rewrite Ht in Hf. assert (Hex : exists w, w ∈ take n q /\ IsDropped v w = false).
  { clear -Hf. induction (take n q) as [| w l IH]; [done |]. cbn in Hf. destruct (IsDropped v w) eqn:Ed; [destruct (IH Hf) as (x & Hx & ?); exists x; split; [by right | done] | exists w; split; [by left | done]]. }
  destruct Hex as (w & Hw & Hd). intros E1. assert (Hin : edit_list w ∈ map edit_list (filter (fun w => IsDropped v w = false) q)).
  { apply list_elem_of_fmap_2. apply list_elem_of_filter. split; [done |]. apply list_elem_of_In. rewrite <- (take_drop n q). apply list_elem_of_In, elem_of_app. by left. }
  assert (Hnil : edit_list w = []).
  { destruct (edit_list w) as [| e l] eqn:El; [done |]. assert (Hm : e ∈ live_edits v q); [| rewrite E1 in Hm; by apply not_elem_of_nil in Hm].
    unfold live_edits. apply list_elem_of_In, in_concat. exists (e :: l). split; [by apply list_elem_of_In | by left]. }
  rewrite <- Ht in Hw. apply list_elem_of_In in Hw. assert (Hws : w ∈ ws) by (rewrite <- (take_drop n ws); apply elem_of_app; left; by apply list_elem_of_In).
  by apply (proj1 (list.Forall_forall _ _) Hne w Hws).
Qed.
Lemma process_edits new_log o st n w q e : durable st -> encodable st -> manifest_writers_ st = w :: q -> head (edit_list w) = Some e -> IsColumnFamilyManipulation e = false ->
  writers_ok (vset_ st) (w :: q) -> (n <= length (batch_writers (w :: q)))%nat -> forallb (IsDropped (vset_ st)) (take n (w :: q)) = false ->
  exists s st', ProcessManifestWrites E new_log o st = Some (s, st') /\ outcome st st' s (length (batch_writers (w :: q))) (live_edits (vset_ st) (batch_writers (w :: q))).
Proof using Hnew WL.
  intros Hd He Eq Ee Hk Hw Hn Hdr. unfold ProcessManifestWrites, make_batch. rewrite Eq. cbn [head mbind option_bind]. rewrite Ee. cbn [mbind option_bind]. rewrite Hk.
  destruct (collect_batch (vset_ st) (dr_families st Hd) (dr_numbers st Hd) (w :: q) Hw) as (s & m & b & -> & Hc). cbn [mbind option_bind]. destruct (status_ok s) eqn:Es; cbn [negb mbind option_bind].
  2: { rewrite Es. cbn [negb]. eexists _, _. split; [done |]. by apply outcome_nothing. }
  destruct (Hc eq_refl) as (-> & [(d & Ed & Hb) Hgr Hes Hsz Hseq] & Hcore).
  destruct (save_versions_ok (vset_ st) d (versions b) (dr_families st Hd) Hb (versions b) ltac:(done)) as (s2 & ws & -> & Hs2). cbn [mbind option_bind]. destruct (status_ok s2) eqn:Es2; cbn [negb].
  2: { eexists _, _. split; [done |]. by apply outcome_nothing. }
  destruct (Hs2 eq_refl) as [Hk1 Hk2]. set (nl := new_log || _ || _).
  assert (Hne : batch_edits b <> []).
  { intros E0. rewrite E0 in Hcore. apply Forall2_nil_inv_r in Hcore. by apply (live_edits_some (vset_ st) (w :: q) n (batch_writers (w :: q))) in Hcore; [| | | | apply Hw]. }
  rewrite (bool_decide_eq_false_2 (batch_edits b = [])), andb_false_r by done.
  destruct (commit_edits nl w e st b d Hd He) with (o := o) (ws := ws) (n := length (batch_writers (w :: q))) as (s3 & st' & -> & Ho); try done.
  { intros Hnl. unfold nl in Hnl. apply orb_false_iff in Hnl as [Hnl _]. apply orb_false_iff in Hnl as [_ Hnl]. apply negb_false_iff in Hnl. by apply bool_decide_eq_true in Hnl. }
  { assert (Hin : w ∈ batch_writers (w :: q)) by (cbn [batch_writers]; rewrite Ee, Hk; by left). destruct (proj1 (list.Forall_forall _ _) (wo_served _ _ Hw) w Hin) as (cf & _ & HQ & _).
    apply (proj1 (list.Forall_forall _ _) HQ). destruct (edit_list w); [done |]. injection Ee as <-. by left. }
  cbn [mbind option_bind]. eexists _, _. split; [done |]. destruct Ho as [O1 O2 O3]. split; [done | | done]. intros Hs3. destruct (O2 Hs3) as (P1 & P2 & P3).
  split; [done |]. split; [done |]. by rewrite (same_core_edits all_opened _ _ Hcore) in P3.
Qed.
Lemma process_family new_log o st w q e : durable st -> encodable st -> manifest_writers_ st = w :: q -> head (edit_list w) = Some e -> IsColumnFamilyManipulation e = true ->
  family_change (vset_ st) o w e -> exists s st', ProcessManifestWrites E new_log o st = Some (s, st') /\ outcome st st' s 1 [e].
Proof using Hnew WL.
  intros Hd He Eq Ee Hk Hch. unfold ProcessManifestWrites, make_batch. rewrite Eq. cbn [head mbind option_bind]. rewrite Ee. cbn [mbind option_bind]. rewrite Hk. cbn [mbind option_bind].
  change (negb (status_ok Status_OK)) with false. cbv iota zeta. set (nl := new_log || _ || _). cbn [batch_edits]. rewrite (bool_decide_eq_false_2 (_ :: _ = [])), andb_false_r by done.
  destruct (commit_family nl o w e st 1 Hd He) as (s & st' & -> & Ho); [| done | by eexists _, _].
  intros Hnl. unfold nl in Hnl. apply orb_false_iff in Hnl as [Hnl _]. apply orb_false_iff in Hnl as [_ Hnl]. apply negb_false_iff in Hnl. by apply bool_decide_eq_true in Hnl.
Qed.
Lemma log_and_apply_outcome new_log o n st : durable st -> encodable st -> serve_ok o n st ->
  exists s st', LogAndApply E new_log o n st = Some (s, st') /\ outcome st st' s (served (vset_ st) (manifest_writers_ st)).1 (served (vset_ st) (manifest_writers_ st)).2.
Proof using Hnew WL.
  intros Hd He (w & q & e & Eq & Ee & Hn & Hs). unfold LogAndApply. destruct (forallb _ _) eqn:Ef.
  { eexists _, _. split; [done |]. split; [by apply durable_pop | done | done]. }
  rewrite Eq in Ef |- *. unfold served. destruct (edit_list w) as [| e' l] eqn:El; [done |]. injection Ee as ->. destruct (IsColumnFamilyManipulation e) eqn:Hk.
  - destruct Hs as [-> Hch]. cbn in Ef. rewrite andb_true_r in Ef. cbn [fst snd]. apply (process_family new_log o st w q e); try done; [by rewrite El | by apply Hch].
  - destruct Hs as [Hw Hl]. apply (process_edits new_log o st n w q e); try done. by rewrite El.
Qed.
End Commit.

(** * Recovery from the MANIFEST *)

(** ** Column families that are not opened *)

Definition covers (d d' : db) : Prop := forall cf, d' !! cf = d !! cf \/ d' !! cf = Some None /\ is_Some (d !! cf).
Lemma covers_apply op e d d' d1 d1' : covers d d' -> db_apply all_opened e d = Some d1 -> db_apply op e d' = Some d1' -> covers d1 d1'.
Proof.
  intros Hc E1 E2. assert (Hput : forall cf x y, x = y \/ y = None -> covers (<[cf := x]> d) (<[cf := y]> d')).
  { intros cf x y Hxy cf'. destruct (decide (cf = cf')) as [<- | Hne]; [rewrite !lookup_insert_eq; destruct Hxy as [-> | ->]; [by left | right; by eauto] | by rewrite !lookup_insert_ne]. }
  unfold db_apply in *. destruct (is_column_family_add_ e).
  { destruct (d !! _), (d' !! _); try done. injection E1 as <-. injection E2 as <-. apply Hput. destruct (op _); [by left | by right]. }
  destruct (is_column_family_drop_ e).
  { destruct (d !! _), (d' !! _); try done. injection E1 as <-. injection E2 as <-. intros cf'. destruct (decide (column_family_ e = cf')) as [<- | Hne]; [left; by rewrite !lookup_delete_eq | by rewrite !lookup_delete_ne]. }
  destruct (_ || _); [by injection E1 as <-; injection E2 as <- |]. destruct (Hc (column_family_ e)) as [Eq | [Eq [x Ex]]].
  - rewrite Eq in E2. destruct (d !! column_family_ e) as [[t |] |]; [| by injection E1 as <-; injection E2 as <- | done].
    apply bind_Some in E1 as (t1 & Et & [= <-]). rewrite Et in E2. cbn in E2. injection E2 as <-. apply Hput. by left.
  - rewrite Eq in E2. injection E2 as <-. rewrite Ex in E1. destruct x as [t |]; [| by injection E1 as <-]. apply bind_Some in E1 as (t1 & Et & [= <-]).
    intros cf'. destruct (decide (column_family_ e = cf')) as [<- | Hne]; [right; rewrite lookup_insert_eq; by eauto | by rewrite lookup_insert_ne].
Qed.
Lemma covers_edits op es : forall d d' d1 d1', covers d d' -> db_edits all_opened es d = Some d1 -> db_edits op es d' = Some d1' -> covers d1 d1'.
Proof.
  induction es as [| e es IH]; intros d d' d1 d1' Hc E1 E2; cbn [db_edits] in *; [by injection E1 as <-; injection E2 as <- |].
  apply bind_Some in E1 as (d2 & E1 & E3). apply bind_Some in E2 as (d2' & E2 & E4). by apply (IH d2 d2' d1 d1'); [eapply covers_apply |..].
Qed.

(** ** As many records as edits *)

Lemma framed_some recycle ln off data out off' : framed recycle ln off data out off' -> out <> [].
Proof.
  assert (Hp : forall t p l, physical_record ln t p ++ l <> []) by (intros t p l; unfold physical_record, physical_header; rewrite <- !app_assoc; by intros [_ ?]%app_eq_nil).
  assert (Hfr : forall off begin data out off', fragments recycle ln off begin data out off' -> out <> []).
  { intros o b x y o' [? ? ? ? | ? ? ? ? ? ? ? ? ?]; [rewrite <- (app_nil_r (physical_record _ _ _)) |]; apply Hp. }
  intros [? ? ? ? ? Hf | ? ? ? ? ? ? Hf]; [by eapply Hfr |]. apply Hfr in Hf. by intros [_ ?]%app_eq_nil.
Qed.
Lemma logged_length {F : Type} {W : WritableFileWriter F} {WL : WritableFileLaws F} es (log : Writer F) : logged es log -> (length es <= length (contents (dest_ log)))%nat.
Proof.
  intros (f & recs & H1 & H2 & Hw & He). rewrite (Forall2_length He).
  assert (Hfit : Forall (entry_fits false) (map LogRecord recs)) by (apply list.Forall_fmap, list.Forall_forall; done).
  destruct (write_log_layout (map LogRecord recs) (MakeWriter f 0 false false)) as (s & w' & out & off' & E & Hl & Hwr & _); [done | cbn; unfold kBlockSize; lia | done |].
  rewrite Hw in E. injection E as <- <-. destruct Hwr as (_ & _ & _ & Hc & _). rewrite Hc. cbn. rewrite H1. cbn [app]. cbn in Hl. clear -Hl.
  assert (Hrec : forall r, recorded_entries r (map LogRecord recs) = map LogRecord recs) by (clear; intros r; induction recs as [| x l IH]; cbn; [done | by rewrite IH]).
  rewrite Hrec in Hl. clear Hrec. revert Hl. generalize 0 at 2. revert out. induction recs as [| r recs IH]; intros out off Hl; [cbn; lia |]. cbn [map] in Hl. inversion Hl; subst.
  match goal with H : framed _ _ _ _ _ _ |- _ => apply framed_some in H end. match goal with H : log_layout _ _ _ _ _ _ |- _ => apply IH in H end.
  rewrite length_app. destruct out0; [done |]. cbn. lia.
Qed.
Lemma durable_recovered {FW : Type} {W : WritableFileWriter FW} {WL : WritableFileLaws FW} {FR : Type} {SF : SequentialFileReader FR} {SL : SequentialFileLaws FR}
    O files ingest (v0 : VersionSet) (st : ManifestState FW) (log : Writer FW) (file : FR) n fuel :
  point_in_time_ O = false -> handler_tracks_files_ O = false -> read_only_ O = false -> Forall (fun x => timestamp_size (Comparator := comparator x.2) = 0) (column_families_ O) -> column_family_set_ v0 = [] ->
  durable st -> descriptor_log_ st = Some log -> remaining file = contents (dest_ log) -> reliable file -> (length (remaining file) < n)%nat -> (length (remaining file) < fuel)%nat ->
  exists s id v, Recover files n fuel O ingest file v0 = Some (s, id, v) /\ (status_ok s = true -> recovered false (files_of (vset_ st)) v).
Proof.
  intros Hpit Htr Hro Hts Hv0 Hd El Hfile Hrel Hn Hfuel. destruct (dr_log st Hd log El) as (bs & Hbs & Hfit & Hlog & Ed). pose proof Hlog as (f & recs & H1 & H2 & Hw & He).
  pose proof (logged_length _ _ Hlog) as Hlen. rewrite (Forall2_length He), <- Hfile in Hlen.
  destruct (crashed_recovered O files Hpit Htr Hts v0 Hv0 f recs [] log log IOStatus_OK file bs [] ingest) as (k & _ & H); [| by rewrite app_nil_r | done | constructor | by rewrite app_nil_r |].
  { split; try done; by rewrite Hfile. }
  rewrite app_nil_r in H. destruct (H n fuel ltac:(lia) Hfuel) as (s & id & v & E & Hs). exists s, id, v. split; [done |]. intros Hok. destruct (Hs Hok) as (d & Ed' & Hrec).
  cbn [complete_batches] in Ed'. rewrite app_nil_r in Ed'. assert (Hcov := covers_edits (opened O) (concat bs) db_start db_start _ _ ltac:(by left) Ed Ed'). rewrite Hro in Hrec.
  assert (d = files_of (vset_ st)) as <-; [| done]. apply map_eq. intros cf. destruct (Hcov cf) as [? | [Hnone _]]; [done |]. by destruct (proj1 (proj2 Hrec) eq_refl cf).
Qed.



(** ** A flush of two column families, one of which was dropped *)

Definition example_env : ManifestEnv MemFile := {|
  NewWritableFile := (IOStatus_OK, ex_file); SyncManifest := IOStatus_OK; SetCurrentFile := IOStatus_OK; env_LoadTableHandlers _ _ := Status_OK;
  GetFileSize f := slen (mem_contents f); write_dbid_to_manifest := true; max_manifest_file_size := 1000; env_paranoid_checks := true;
|}.
Definition example_vset : VersionSet := CreateColumnFamily DefaultColumnFamilyOptions (NewVersionEdit <| column_family_name_ := kDefaultColumnFamilyName |>) (NewVersionSet []).
Definition group_edit (cf remaining : Z) (files : list (Z * FileMetaData)) : VersionEdit :=
  NewVersionEdit <| column_family_ := cf |> <| VersionEdit.log_number_ := Some 1 |> <| new_files_ := files |> <| is_in_atomic_group_ := true |> <| remaining_entries_ := remaining |>.
Definition example_queue : list ManifestWriter :=
  [{| writer_cfd := Some 0; edit_list := [group_edit 0 1 [(0, example_file 10 1 Byte.x61 Byte.x63)]] |};
   {| writer_cfd := Some 7; edit_list := [group_edit 7 0 [(0, example_file 11 1 Byte.x61 Byte.x63)]] |}].
Definition example_state : ManifestState MemFile := {|
  vset_ := example_vset; descriptor_log_ := None; vset_io_status_ := IOStatus_OK; obsolete_manifests_ := []; manifest_writers_ := example_queue; current_manifest_ := 0;
|}.
Definition example_after : ManifestState MemFile := match LogAndApply example_env false None 2 example_state with Some (_, st) => st | None => example_state end.
Lemma example_durable : durable example_state.
Proof.
  split; [| by split; small_fits | done]. split; [apply NoDup_singleton | | by left]. constructor; [| constructor]. split; [apply _ | done | done | | done].
  change (made (C := BytewiseComparatorImpl) (TC := timestamps DefaultColumnFamilyOptions) 7 (empty_version DefaultColumnFamilyOptions) (version_files (empty_version DefaultColumnFamilyOptions))).
  rewrite empty_version_files. exact (made_first (C := BytewiseComparatorImpl) (TC := timestamps DefaultColumnFamilyOptions) 7).
Qed.
Lemma example_group_fits cf remaining n : 0 <= cf < 2 ^ 32 -> 0 <= remaining < 2 ^ 32 -> n = 10 \/ n = 11 -> batch_edit (group_edit cf remaining [(0, example_file n 1 Byte.x61 Byte.x63)]).
Proof.
  intros Hc Hr Hn. split; [| done]. split; [| by repeat constructor]. destruct Hn as [-> | ->]; repeat constructor; cbn; try done; repeat constructor; try done; cbn; try lia; small_fits.
Qed.
Lemma example_serve : serve_ok None 2 example_state.
Proof.
  eexists _, _, _. split; [reflexivity |]. split; [reflexivity |]. split; [lia |]. split; [| cbn; lia]. split.
  - by repeat constructor.
  - constructor; [| constructor; [| constructor]]; eexists; (split; [reflexivity |]); (split; [constructor; [apply example_group_fits; [lia | lia | auto] | constructor] |]); [| done].
    intros c [= <-]. constructor; [| constructor]. split; [done | done | | by intros [? | ?]]. split; [| by repeat constructor]. split; repeat constructor; cbn; try lia. vm_compute. done.
  - exists [concat (map edit_list example_queue)]. split; [| done]. constructor; [| constructor]. right. split; [done |]. intros [| [| i]] e [= <-]; done.
Qed.
Lemma example_encodable : encodable example_env example_state.
Proof. repeat constructor; cbn; try done; repeat constructor; try done; cbn; try lia; small_fits. Qed.
Definition example_file_left : MemInput := {| mem_rest := match descriptor_log_ example_after with Some log => mem_contents (dest_ log) | None => [] end; mem_fail := false |}.
Lemma example_after_durable : durable example_after.
Proof.
  destruct (log_and_apply_outcome example_env ltac:(done) false None 2 example_state example_durable example_encodable example_serve) as (s & st' & E & [Ho _ _]).
  unfold example_after. rewrite E. exact Ho.
Qed.
