(* ===== verification/Recovery.v ===== *)
(** db/db_impl/db_impl_open.cc, [DBImpl::RecoverLogFiles]: the records of the logs are replayed
    into the memtables. This is a recovery with [read_only] and without a WAL filter, so that no
    memtable is flushed; the version set is its counters and the log numbers of the column
    families. *)

From stdpp Require Import gmap.
From S2P Require Import Prelude Coding Comparator DbFormat Status MergeOperator WriteBatch WriteBatchIter MemTable MemTableInserter UdtUtil LogWriter LogReader.

(** * State *)

Record RecoveryOptions (R B : Type) := {
  paranoid_checks : bool;
  wal_recovery_mode : WALRecoveryMode;
  rec_seq_per_batch : bool;
  rec_batch_per_txn : bool;
  rec_allow_2pc : bool;
  (** The database that is being opened, as [MemTableInserter] uses it. *)
  rec_db : gmap Z (ColumnFamilyData R B) -> Z -> bytes -> Z -> Status * PinnableWideColumns;
  (** [cfd->GetLiveSstFilesSize()]. *)
  live_sst_files_size : Z -> Z;
}.
Arguments paranoid_checks {R B}. Arguments wal_recovery_mode {R B}. Arguments rec_seq_per_batch {R B}.
Arguments rec_batch_per_txn {R B}. Arguments rec_allow_2pc {R B}. Arguments rec_db {R B}.
Arguments live_sst_files_size {R B}.

(** The local variables of the function and what it changes of the database. *)
Record RecoveryState (R B : Type) := {
  rec_mems : gmap Z (ColumnFamilyData R B);
  rec_transactions : RecoveredTransactions;
  rec_status : Status;
  next_sequence : Z;
  old_log_record : bool;
  stop_replay_for_corruption : bool;
  corrupted_wal_number : Z;
  corrupted_wal_found : bool;
  last_sequence_ : Z;
  next_file_number_ : Z;
}.
Arguments rec_mems {R B}. Arguments rec_transactions {R B}. Arguments rec_status {R B}.
Arguments next_sequence {R B}. Arguments old_log_record {R B}.
Arguments stop_replay_for_corruption {R B}. Arguments corrupted_wal_number {R B}.
Arguments corrupted_wal_found {R B}. Arguments last_sequence_ {R B}. Arguments next_file_number_ {R B}.

Section Recovery.
Context {R B : Type} {MRF : forall C : Comparator, MemTableRep R} {MF : MemTableFilter B} {H : NPHash}.
Context {F : Type} {SF : SequentialFileReader F}.
(** XXH3, the checksum of a record. *)
Context (rep_hash : bytes -> Z).
Context (o : RecoveryOptions R B).
Implicit Types st : RecoveryState R B.

Definition set_status st (s : Status) : RecoveryState R B :=
  {| rec_mems := rec_mems st; rec_transactions := rec_transactions st; rec_status := s;
     next_sequence := next_sequence st; old_log_record := old_log_record st;
     stop_replay_for_corruption := stop_replay_for_corruption st;
     corrupted_wal_number := corrupted_wal_number st; corrupted_wal_found := corrupted_wal_found st;
     last_sequence_ := last_sequence_ st; next_file_number_ := next_file_number_ st |}.
Definition set_old_log_record st (b : bool) : RecoveryState R B :=
  {| rec_mems := rec_mems st; rec_transactions := rec_transactions st; rec_status := rec_status st;
     next_sequence := next_sequence st; old_log_record := b;
     stop_replay_for_corruption := stop_replay_for_corruption st;
     corrupted_wal_number := corrupted_wal_number st; corrupted_wal_found := corrupted_wal_found st;
     last_sequence_ := last_sequence_ st; next_file_number_ := next_file_number_ st |}.
Definition set_stop_replay st (b : bool) : RecoveryState R B :=
  {| rec_mems := rec_mems st; rec_transactions := rec_transactions st; rec_status := rec_status st;
     next_sequence := next_sequence st; old_log_record := old_log_record st;
     stop_replay_for_corruption := b;
     corrupted_wal_number := corrupted_wal_number st; corrupted_wal_found := corrupted_wal_found st;
     last_sequence_ := last_sequence_ st; next_file_number_ := next_file_number_ st |}.
Definition set_corrupted st (wal_number : Z) : RecoveryState R B :=
  {| rec_mems := rec_mems st; rec_transactions := rec_transactions st; rec_status := rec_status st;
     next_sequence := next_sequence st; old_log_record := old_log_record st;
     stop_replay_for_corruption := stop_replay_for_corruption st;
     corrupted_wal_number := wal_number; corrupted_wal_found := true;
     last_sequence_ := last_sequence_ st; next_file_number_ := next_file_number_ st |}.
Definition set_last_sequence st (n : Z) : RecoveryState R B :=
  {| rec_mems := rec_mems st; rec_transactions := rec_transactions st; rec_status := rec_status st;
     next_sequence := next_sequence st; old_log_record := old_log_record st;
     stop_replay_for_corruption := stop_replay_for_corruption st;
     corrupted_wal_number := corrupted_wal_number st; corrupted_wal_found := corrupted_wal_found st;
     last_sequence_ := n; next_file_number_ := next_file_number_ st |}.
Definition MarkFileNumberUsed st (number : Z) : RecoveryState R B :=
  {| rec_mems := rec_mems st; rec_transactions := rec_transactions st; rec_status := rec_status st;
     next_sequence := next_sequence st; old_log_record := old_log_record st;
     stop_replay_for_corruption := stop_replay_for_corruption st;
     corrupted_wal_number := corrupted_wal_number st; corrupted_wal_found := corrupted_wal_found st;
     last_sequence_ := last_sequence_ st;
     next_file_number_ := if next_file_number_ st <=? number then u64 (number + 1) else next_file_number_ st |}.
(** What [InsertInto] leaves. *)
Definition set_inserted st (s : Status) (ins : Inserter R B) : RecoveryState R B :=
  {| rec_mems := mems ins; rec_transactions := recovered ins; rec_status := s;
     next_sequence := ins_sequence ins; old_log_record := old_log_record st;
     stop_replay_for_corruption := stop_replay_for_corruption st;
     corrupted_wal_number := corrupted_wal_number st; corrupted_wal_found := corrupted_wal_found st;
     last_sequence_ := last_sequence_ st; next_file_number_ := next_file_number_ st |}.

(** * Errors *)

Definition mode_is (m : WALRecoveryMode) : bool := bool_decide (wal_recovery_mode o = m).

Definition MaybeIgnoreError (s : Status) : Status :=
  if status_ok s || paranoid_checks o then s else Status_OK.

(** [LogReporter::Corruption]; [status] is null without paranoid checks and when corrupted
    records are skipped. *)
Definition LogReporter_Corruption st (s : Status) : RecoveryState R B :=
  let has_status := negb (negb (paranoid_checks o) || mode_is kSkipAnyCorruptedRecords) in
  if has_status && status_ok (rec_status st) then set_status st s else st.
Definition LogReporter_OldLogRecord st : RecoveryState R B := set_old_log_record st true.
Definition report_status (reason : DropReason) : Status :=
  match reason with ReadError => Status_IOError | _ => Status_Corruption end.
Definition on_report st (x : Report) : RecoveryState R B :=
  match x with
  | Corruption _ reason => LogReporter_Corruption st (report_status reason)
  | OldLogRecord _ => LogReporter_OldLogRecord st
  end.
(** The reports of one call of [ReadRecord]: [before] had been made already. *)
Definition on_reports st (before after : list Report) : RecoveryState R B :=
  fold_left on_report (drop (length before) after) st.

(** * One record *)

Definition inserter_args (wal_number : Z) : InserterArgs R B := {|
  ignore_missing_column_families_ := true; recovering_log_number_ := wal_number;
  concurrent_memtable_writes_ := false; seq_per_batch_ := rec_seq_per_batch o;
  batch_per_txn := rec_batch_per_txn o; allow_2pc := rec_allow_2pc o; db := Some (rec_db o);
|}.
Definition GetRunningColumnFamiliesTimestampSize st : gmap Z Z :=
  (fun c => timestamp_size (Comparator := cfd_comparator c)) <$> rec_mems st.

Inductive RecordStep :=
  | NextRecord (st : RecoveryState R B)
  | BreakLoop (st : RecoveryState R B)
  | ReturnStatus (s : Status) (st : RecoveryState R B).

(** The batch goes to the memtables, or replay has stopped. *)
Definition replay_batch (wal_number : Z) (batch : WriteBatch) st : option RecordStep :=
  let sequence := WriteBatchInternal_Sequence batch in
  if sequence >? kMaxSequenceNumber then
    Some (NextRecord (LogReporter_Corruption st Status_Corruption))
  else
    let st := if mode_is kPointInTimeRecovery && (sequence =? next_sequence st) then
                set_stop_replay st false else st in
    if mode_is kPointInTimeRecovery && stop_replay_for_corruption st then Some (BreakLoop st)
    else
      match InsertInto_batch (MRF := MRF) (inserter_args wal_number) batch (rec_mems st) (rec_transactions st) with
      | None => None
      | Some (s, ins) =>
          if aborted ins then None
          else
            let st := set_inserted st (MaybeIgnoreError s) ins in
            Some (NextRecord (if status_ok (rec_status st) then st
                              else LogReporter_Corruption st (rec_status st)))
      end.

(** The body of the loop over the records; [record_ts_sz] are the sizes of timestamps that the
    log has recorded. [None]: a batch that cannot be read. *)
Definition process_record (wal_number : Z) (record : bytes) (record_ts_sz : gmap Z Z) st : option RecordStep :=
  if slen record <? kHeader then Some (NextRecord (LogReporter_Corruption st Status_Corruption))
  else
    let '(s, batch) := WriteBatchInternal_SetContents (MakeWriteBatch 0 0 0) record in
    if negb (status_ok s) then Some (ReturnStatus s st)
    else
      match HandleWriteBatchTimestampSizeDifference batch (GetRunningColumnFamiliesTimestampSize st) record_ts_sz
              kReconcileInconsistency (rec_seq_per_batch o) (rec_batch_per_txn o) with
      | None => None
      | Some (s, new_batch) =>
          if negb (status_ok s) then Some (ReturnStatus s st)
          else
            let checksum := match new_batch with Some _ => None | None => Some (rep_hash record) end in
            match UpdateProtectionInfo (default batch new_batch) 8 rep_hash checksum with
            | None => None
            | Some (s, batch_to_use) =>
                if negb (status_ok s) then Some (ReturnStatus s st)
                else replay_batch wal_number batch_to_use st
            end
      end.

(** * One log *)

(** The loop over the records: at most [n] calls of [ReadRecord], each with [fuel]. The result is
    the status with which the function returns, if it does, and the state. *)
Fixpoint replay_records (n fuel : nat) (wal_number : Z) (r : Reader F) st
    : option (option Status * RecoveryState R B) :=
  match n with
  | O => None
  | Datatypes.S n =>
      match ReadRecord fuel (wal_recovery_mode o) r with
      | None => None
      | Some (record, r') =>
          let st := on_reports st (reports_ (input_ r)) (reports_ (input_ r')) in
          match record with
          | None => Some (None, st)
          | Some record =>
              if negb (status_ok (rec_status st)) then Some (None, st)
              else
                match process_record wal_number record (read_cf_to_ts_sz_ r') st with
                | None => None
                | Some (NextRecord st) => replay_records n fuel wal_number r' st
                | Some (BreakLoop st) => Some (None, st)
                | Some (ReturnStatus s st) => Some (Some s, st)
                end
          end
      end
  end.

(** What follows the loop. *)
Definition after_log (wal_number : Z) st : option Status * RecoveryState R B :=
  let finish st :=
    let last_sequence := u64 (next_sequence st - 1) in
    (None, if negb (next_sequence st =? kMaxSequenceNumber) && (last_sequence_ st <=? last_sequence) then
             set_last_sequence st last_sequence else st) in
  if negb (status_ok (rec_status st)) || old_log_record st then
    if IsNotSupported (rec_status st) then (Some (rec_status st), st)
    else if mode_is kSkipAnyCorruptedRecords then finish (set_status st Status_OK)
    else if mode_is kPointInTimeRecovery then
      if IsIOError (rec_status st) then (Some (rec_status st), st)
      else
        let st := set_old_log_record (set_status st Status_OK) false in
        finish (set_corrupted (set_stop_replay st true) wal_number)
    else (Some (rec_status st), st)
  else finish st.

(** A log that is opened, or the status of the error. *)
Definition recover_log (n fuel : nat) (wal_number : Z) (file : F + Status) st
    : option (option Status * RecoveryState R B) :=
  let st := MarkFileNumberUsed st wal_number in
  match file with
  | inr s =>
      let st := set_status st (MaybeIgnoreError s) in
      Some (if status_ok (rec_status st) then None else Some (rec_status st), st)
  | inl file =>
      let st := set_status st Status_OK in
      match replay_records n fuel wal_number (MakeReader file true wal_number) st with
      | None => None
      | Some (Some s, st) => Some (Some s, st)
      | Some (None, st) => Some (after_log wal_number st)
      end
  end.

(** * All logs *)

Fixpoint recover_logs (n fuel : nat) (min_wal_number : Z) (wals : list (Z * (F + Status))) st
    : option (option Status * RecoveryState R B) :=
  match wals with
  | [] => Some (None, st)
  | (wal_number, file) :: wals =>
      if wal_number <? min_wal_number then recover_logs n fuel min_wal_number wals st
      else
        match recover_log n fuel wal_number file st with
        | None => None
        | Some (Some s, st) => Some (Some s, st)
        | Some (None, st) => recover_logs n fuel min_wal_number wals st
        end
  end.

(** A column family whose files are ahead of the logs that were dropped. *)
Definition ahead_of_wals st : bool :=
  stop_replay_for_corruption st &&
  (mode_is kPointInTimeRecovery || mode_is kTolerateCorruptedTailRecords) &&
  existsb (fun p : Z * ColumnFamilyData R B =>
    (cfd_log_number p.2 >? corrupted_wal_number st) && (live_sst_files_size o p.1 >? 0))
    (map_to_list (rec_mems st)).

Definition RecoverLogFiles (n fuel : nat) (min_wal_number : Z) (wals : list (Z * (F + Status))) st
    : option (Status * RecoveryState R B) :=
  match recover_logs n fuel min_wal_number wals st with
  | None => None
  | Some (Some s, st) => Some (s, st)
  | Some (None, st) => Some (if ahead_of_wals st then Status_Corruption else rec_status st, st)
  end.

(** The state with which the function starts. *)
Definition MakeRecoveryState (m : gmap Z (ColumnFamilyData R B)) (t : RecoveredTransactions)
    (last_sequence next_file_number : Z) : RecoveryState R B :=
  {| rec_mems := m; rec_transactions := t; rec_status := Status_OK; next_sequence := kMaxSequenceNumber;
     old_log_record := false; stop_replay_for_corruption := false;
     corrupted_wal_number := kMaxSequenceNumber; corrupted_wal_found := false;
     last_sequence_ := last_sequence; next_file_number_ := next_file_number |}.
End Recovery.
