(* ===== verification/RecoveryProofs.v ===== *)
(** Replaying batches: [RecoverLogFiles] on logs that hold batches extends the history of every
    column family by the versions of those batches. *)

From stdpp Require Import gmap.
From S2P Require Import Prelude Coding Comparator DbFormat Status MergeOperator WriteBatch WriteBatchIter WriteBatchSpec WriteBatchProofs MemTable MemTableInserter MemTableSpec MemTableTheorems InserterProofs InserterTheorems UdtUtil UdtTheorems LogWriter LogReader LogProofs Recovery.

(** A batch in a log: its sequence number, its operations and the timestamp sizes that the log
    has recorded before it. *)
Record LoggedBatch := { lb_sequence : Z; lb_ops : list BatchOp; lb_sizes : gmap Z Z }.
Definition lb_record (b : LoggedBatch) : bytes := rep_of (EncodeFixed64 (lb_sequence b)) (lb_ops b).
Definition lb_entry (b : LoggedBatch) : bytes * gmap Z Z := (lb_record b, lb_sizes b).

(** ** Reconciliation when no family has timestamps *)

Definition no_log_data (ops : list BatchOp) : list BatchOp := filter (fun op => negb (is_log_data op)) ops.

Lemma reconcile_same running recorded ops : existsb (is_different running recorded) ops = false ->
  reconcile running recorded ops = no_log_data ops.
Proof.
  unfold reconcile, no_log_data. induction ops as [| op ops IH]; [done |]. cbn [existsb].
  rewrite orb_false_iff, !filter_cons. intros [Hd Hds]. destruct (is_log_data op); simpl; [by apply IH |].
  rewrite IH by done. f_equal. unfold is_different in Hd.
  assert (forall cf k, op_cf op = Some cf -> reconcile_key running recorded cf k = k) as Hk.
  { intros cf k E. rewrite E in Hd. unfold reconcile_key.
    destruct (cf_type running recorded cf); by cbn in Hd. }
  destruct op; cbn [map_keys]; try done; by rewrite ?Hk.
Qed.

Lemma all_recoverable running recorded ops : (forall cf t, running !! cf = Some t -> t = 0) ->
  existsb (has_type running recorded kUnrecoverable) ops = false.
Proof.
  intros Hz. apply not_true_is_false. intros (op & _ & Ht)%existsb_exists. unfold has_type in Ht.
  destruct (op_cf op) as [cf |]; [| done]. apply bool_decide_eq_true in Ht. unfold cf_type in Ht.
  destruct (running !! cf) as [t |] eqn:E; [| done]. apply Hz in E as ->. unfold GetRecoveryType in Ht.
  by destruct (recorded !! cf).
Qed.

Section Replay.
Context {R B : Type} {MRF : forall C : Comparator, MemTableRep R}
  {MRFL : forall C : Comparator, ComparatorLaws C -> MemTableRepLaws (MR := MRF C) R}
  {MF : MemTableFilter B} {MFL : MemTableFilterLaws B} {H : NPHash}.
Context (rep_hash : bytes -> Z) (o : RecoveryOptions R B).
Context (Hper_key : rec_seq_per_batch o = false).
Implicit Types (st : RecoveryState R B) (cfs : gmap Z (ColumnFamilyData R B)) (wal : Z).

Lemma ops_versions_no_log_data (a : InserterArgs R B) cfs seq ops :
  ops_versions a cfs seq (no_log_data ops) = ops_versions a cfs seq ops.
Proof.
  revert seq. unfold no_log_data. induction ops as [| op ops IH]; intros seq; [done |].
  rewrite filter_cons. destruct (is_log_data op) eqn:El; simpl.
  - rewrite IH. destruct op; try done. cbn. by destruct (ops_versions a cfs seq ops).
  - destruct (op_step a cfs seq op) as [added seq']. by rewrite IH.
Qed.
Lemma op_fits_no_log_data (a : InserterArgs R B) cfs ops :
  Forall (op_fits a cfs) (no_log_data ops) -> Forall (op_fits a cfs) ops.
Proof.
  rewrite !list.Forall_forall. intros Hf op Hin. destruct (is_log_data op) eqn:El; [by destruct op |].
  apply Hf, list_elem_of_filter. by rewrite El.
Qed.

(** ** What a batch adds *)

Definition running_sizes cfs : gmap Z Z := (fun c => timestamp_size (Comparator := cfd_comparator c)) <$> cfs.
Definition replayed_ops cfs (b : LoggedBatch) : list BatchOp :=
  reconcile (running_sizes cfs) (lb_sizes b) (lb_ops b).
Definition batch_versions wal cfs (b : LoggedBatch) : list (Z * Version) * Z :=
  ops_versions (inserter_args o wal) cfs (lb_sequence b) (replayed_ops cfs b).
Record batch_ok wal cfs (b : LoggedBatch) : Prop := {
  bo_sequence : 0 < lb_sequence b;
  bo_last : lb_sequence b + slen (lb_ops b) <= kMaxSequenceNumber;
  bo_ops : Forall op_ok (lb_ops b);
  bo_count : num_counted (lb_ops b) < 2 ^ 32;
  bo_sizes : Forall (reconcilable (running_sizes cfs) (lb_sizes b) false (rec_batch_per_txn o)) (lb_ops b);
  bo_fits : Forall (op_fits (inserter_args o wal) cfs) (replayed_ops cfs b);
}.

Lemma lb_batch b : fits 64 (lb_sequence b) -> Forall op_ok (lb_ops b) ->
  exists b0, WriteBatchInternal_SetContents (MakeWriteBatch 0 0 0) (lb_record b) = (Status_OK, b0) /\
    holds b0 (lb_ops b) /\ rep_ b0 = lb_record b /\ prot_info_ b0 = None /\
    WriteBatchInternal_Sequence b0 = lb_sequence b.
Proof.
  intros Hs Hops. eexists. split; [done |]. split_and!; try done.
  - split; [| done]. exists (EncodeFixed64 (lb_sequence b)). split; [slia | done].
  - unfold WriteBatchInternal_Sequence. cbn [set_content_flags set_rep rep_]. unfold lb_record, rep_of.
    by rewrite DecodeFixed64_Encode.
Qed.

(** The state after some batches. *)
Definition with_replay st cfs (next : Z) : RecoveryState R B :=
  {| rec_mems := cfs; rec_transactions := rec_transactions st; rec_status := rec_status st;
     next_sequence := next; old_log_record := old_log_record st;
     stop_replay_for_corruption := stop_replay_for_corruption st;
     corrupted_wal_number := corrupted_wal_number st; corrupted_wal_found := corrupted_wal_found st;
     last_sequence_ := last_sequence_ st; next_file_number_ := next_file_number_ st |}.

Lemma replay_batch_ok wal batch ops st hist : rec_status st = Status_OK ->
  (wal_recovery_mode o = kPointInTimeRecovery -> stop_replay_for_corruption st = false) ->
  holds batch ops -> prot_info_ batch = Some (omap op_prot ops) ->
  let seq := WriteBatchInternal_Sequence batch in
  Forall (op_fits (inserter_args o wal) (rec_mems st)) ops -> mems_inv (MRFL := MRFL) (rec_mems st) hist seq ->
  0 < seq -> seq + slen ops <= kMaxSequenceNumber ->
  let x := ops_versions (inserter_args o wal) (rec_mems st) seq ops in
  exists m, replay_batch (MRF := MRF) o wal batch st = Some (NextRecord (with_replay st m x.2)) /\
    same_families (rec_mems st) m /\ mems_inv (MRFL := MRFL) m (hist_after hist x.1) x.2.
Proof.
  intros Hst Hstop Hb Hp seq Hfit Hinv Hpos Hmax x. unfold replay_batch. fold seq.
  pose proof (slen_nonneg ops). rewrite Z.gtb_ltb, (proj2 (Z.ltb_ge _ _)) by lia.
  destruct (InsertInto_batch_ops (MRFL := MRFL) (inserter_args o wal) Hper_key eq_refl batch ops
    (rec_transactions st) (rec_mems st) hist) as (ins & E & Hfam & Hinv' & Eseq & Er & Ea); try done.
  { intros es Hes. rewrite Hp in Hes. by injection Hes as <-. }
  exists (mems ins). fold x in Hinv', Eseq.
  set (st1 := if _ && (seq =? _) then _ else st).
  assert (st1 = st) as ->.
  { unfold st1, mode_is. case_bool_decide as Hm; [| done]. specialize (Hstop Hm).
    destruct (_ =? _); [| done]. cbn. unfold set_stop_replay. rewrite <- Hstop. by destruct st. }
  assert (mode_is o kPointInTimeRecovery && stop_replay_for_corruption st = false) as ->
    by (unfold mode_is; case_bool_decide; [by rewrite Hstop | done]).
  rewrite E, Ea. unfold MaybeIgnoreError. change (status_ok Status_OK) with true. cbn [orb set_inserted rec_status].
  change (status_ok Status_OK) with true. split; [| done]. unfold with_replay, set_inserted.
  by rewrite Eseq, Er, Hst.
Qed.
(** The batch that is replayed: the one in the log, or a rebuilt one. *)
Lemma choose_batch wal cfs b b0 hist seq : batch_ok wal cfs b -> holds b0 (lb_ops b) -> prot_info_ b0 = None ->
  WriteBatchInternal_Sequence b0 = lb_sequence b -> mems_inv (MRFL := MRFL) cfs hist seq ->
  exists new ops, HandleWriteBatchTimestampSizeDifference b0 (running_sizes cfs) (lb_sizes b)
      kReconcileInconsistency false (rec_batch_per_txn o) = Some (Status_OK, new) /\
    holds (default b0 new) ops /\ WriteBatchInternal_Sequence (default b0 new) = lb_sequence b /\
    (forall es, prot_info_ (default b0 new) = Some es -> es = omap op_prot ops) /\
    ops_versions (inserter_args o wal) cfs (lb_sequence b) ops = batch_versions wal cfs b /\
    Forall (op_fits (inserter_args o wal) cfs) ops /\ slen ops <= slen (lb_ops b).
Proof.
  intros [_ _ _ Hn Hsz Hfit] Hb0 Ep Eq Hinv.
  destruct (Handle_spec (running_sizes cfs) (lb_sizes b) false (rec_batch_per_txn o) b0 _ Hb0 Hsz Hn)
    as ([s new] & Eh & Hr).
  rewrite Eh. unfold reconciled in Hr. rewrite all_recoverable in Hr.
  2: { intros cf t Ht. unfold running_sizes in Ht. rewrite lookup_fmap in Ht.
       destruct (cfs !! cf) as [c |] eqn:Ec; [| done]. injection Ht as <-. by eapply cf_ts, Hinv. }
  destruct (existsb _ _) eqn:Hd in Hr.
  - destruct Hr as (new' & [= -> ->] & Hnew & Eseq). exists (Some new'), (replayed_ops cfs b).
    rewrite <- Eq. split_and!; [done | apply Hnew | done | apply Hnew | by rewrite Eq | done |].
    unfold replayed_ops, reconcile, slen. rewrite length_map. pose proof (length_filter
      (fun op => negb (is_log_data op)) (lb_ops b)). lia.
  - injection Hr as -> ->. exists None, (lb_ops b). unfold batch_versions, replayed_ops in *.
    rewrite (reconcile_same _ _ _ Hd) in *. rewrite ops_versions_no_log_data. cbn [default from_option id].
    split_and!; try done; [by rewrite Ep | by apply op_fits_no_log_data].
Qed.

Lemma process_record_ok wal b st hist low : rec_status st = Status_OK ->
  (wal_recovery_mode o = kPointInTimeRecovery -> stop_replay_for_corruption st = false) ->
  batch_ok wal (rec_mems st) b -> low <= lb_sequence b -> mems_inv (MRFL := MRFL) (rec_mems st) hist low ->
  let x := batch_versions wal (rec_mems st) b in
  exists m, process_record (MRF := MRF) rep_hash o wal (lb_record b) (lb_sizes b) st =
      Some (NextRecord (with_replay st m x.2)) /\
    same_families (rec_mems st) m /\ mems_inv (MRFL := MRFL) m (hist_after hist x.1) x.2.
Proof.
  intros Hst Hstop Hok Hlow Hinv x. pose proof Hok as [Hpos Hmax Hops _ _ _].
  pose proof (slen_nonneg (lb_ops b)).
  assert (fits 64 (lb_sequence b)) as H64
    by (unfold fits; change kMaxSequenceNumber with (2 ^ 56 - 1) in Hmax; lia).
  destruct (lb_batch b H64 Hops) as (b0 & Eb0 & Hb0 & Er & Ep & Eq).
  destruct (choose_batch wal (rec_mems st) b b0 hist low Hok Hb0 Ep Eq Hinv)
    as (new & ops & Eh & Hh & Eseq & Hp & Ex & Hf & Hlen).
  unfold process_record. rewrite (proj2 (Z.ltb_ge _ _)).
  2: { rewrite <- Er. destruct (holds_rep _ _ Hb0) as (s & Hs & ->). destruct (rep_of_header s (lb_ops b) Hs) as (-> & _).
       pose proof (slen_nonneg (ops_bytes (lb_ops b))). unfold kHeader. lia. }
  rewrite Eb0. change (status_ok Status_OK) with true. cbn [negb]. rewrite Hper_key.
  change (GetRunningColumnFamiliesTimestampSize st) with (running_sizes (rec_mems st)).
  rewrite Eh. change (status_ok Status_OK) with true. cbn [negb].
  destruct (UpdateProtectionInfo_holds (default b0 new) ops rep_hash
    (match new with Some _ => None | None => Some (rep_hash (lb_record b)) end) Hh Hp) as (b1 & Eu & Er1 & Ep1).
  { destruct new; [by left | right; cbn; by rewrite Er]. }
  rewrite Eu. change (status_ok Status_OK) with true. cbn [negb].
  assert (WriteBatchInternal_Sequence b1 = lb_sequence b) as Eq1
    by (unfold WriteBatchInternal_Sequence in *; by rewrite Er1).
  assert (holds b1 ops) as Hb1 by (destruct Hh; split; [by rewrite Er1 | done]).
  destruct (replay_batch_ok wal b1 ops st hist Hst Hstop Hb1 Ep1) as (m & Em & Hfam & Hi);
    rewrite ?Eq1 in *; try done; [| lia | rewrite Ex in *; by exists m].
  intros cf c Hc. eapply cf_inv_seq; [exact Hlow | by apply Hinv].
Qed.
(** ** A list of batches *)

Lemma running_sizes_families m m' : same_families m m' -> running_sizes m' = running_sizes m.
Proof.
  intros Hf. apply map_eq. intros cf. unfold running_sizes. rewrite !lookup_fmap. specialize (Hf cf).
  destruct (m !! cf), (m' !! cf); try done. by rewrite Hf.
Qed.
Lemma batch_versions_families wal m m' b : same_families m m' -> batch_versions wal m' b = batch_versions wal m b.
Proof.
  intros Hf. unfold batch_versions, replayed_ops. rewrite (running_sizes_families m m' Hf).
  by rewrite (ops_versions_families _ m m').
Qed.
Lemma batch_ok_families wal m m' b : same_families m m' -> batch_ok wal m b -> batch_ok wal m' b.
Proof.
  intros Hf []. split; try done; [by rewrite (running_sizes_families m m' Hf) |].
  unfold replayed_ops in *. rewrite (running_sizes_families m m' Hf).
  eapply list.Forall_impl; [done |]. intros op. by apply op_fits_families.
Qed.

Fixpoint batches_versions wal cfs (seq : Z) (bs : list LoggedBatch) : list (Z * Version) * Z :=
  match bs with
  | [] => ([], seq)
  | b :: bs =>
      let x := batch_versions wal cfs b in
      let y := batches_versions wal cfs x.2 bs in
      (x.1 ++ y.1, y.2)
  end.
(** Every batch fits and starts where the one before has ended, or later. *)
Fixpoint batches_ok wal cfs (seq : Z) (bs : list LoggedBatch) : Prop :=
  match bs with
  | [] => True
  | b :: bs => batch_ok wal cfs b /\ seq <= lb_sequence b /\ batches_ok wal cfs (batch_versions wal cfs b).2 bs
  end.
Lemma batches_families wal m m' seq bs : same_families m m' ->
  batches_versions wal m' seq bs = batches_versions wal m seq bs /\
  (batches_ok wal m seq bs -> batches_ok wal m' seq bs).
Proof.
  intros Hf. revert seq. induction bs as [| b bs IH]; intros seq; [done |]. cbn.
  rewrite (batch_versions_families wal m m' b Hf). destruct (IH (batch_versions wal m b).2) as [-> Hok].
  split; [done |]. intros (Hb & Hs & Hbs). split_and!; [by eapply batch_ok_families | done | by apply Hok].
Qed.
Lemma batches_app wal cfs seq bs bs' :
  let x := batches_versions wal cfs seq bs in
  let y := batches_versions wal cfs x.2 bs' in
  batches_versions wal cfs seq (bs ++ bs') = (x.1 ++ y.1, y.2) /\
  (batches_ok wal cfs seq (bs ++ bs') <-> batches_ok wal cfs seq bs /\ batches_ok wal cfs x.2 bs').
Proof.
  revert seq. induction bs as [| b bs IH]; intros seq; cbn;
    [split; [by destruct (batches_versions wal cfs seq bs') | tauto] |].
  destruct (IH (batch_versions wal cfs b).2) as [-> ->]. rewrite <- app_assoc. split; [done | tauto].
Qed.

(** The next sequence number: that of the last batch, if there is one. *)
Definition next_after wal cfs (next seq : Z) (bs : list LoggedBatch) : Z :=
  match bs with [] => next | _ => (batches_versions wal cfs seq bs).2 end.

Lemma on_reports_same st rep : on_reports o st rep rep = st.
Proof. unfold on_reports. by rewrite drop_all. Qed.

Context {F : Type} {SF : SequentialFileReader F}.

(** The loop over the records of a log that can be read. *)
Lemma replay_reads_all wal N Q bs rep : forall r, reads_all (wal_recovery_mode o) N rep Q st0 r (map lb_entry bs) ->
  reports_ (input_ r) = rep ->
  forall st hist low, rec_status st = Status_OK ->
  (wal_recovery_mode o = kPointInTimeRecovery -> stop_replay_for_corruption st = false) ->
  mems_inv (MRFL := MRFL) (rec_mems st) hist low -> batches_ok wal (rec_mems st) low bs ->
  let x := batches_versions wal (rec_mems st) low bs in
  exists m r', Q r' /\ same_families (rec_mems st) m /\ mems_inv (MRFL := MRFL) m (hist_after hist x.1) x.2 /\
    forall n fuel, (length bs < n)%nat -> (N <= fuel)%nat ->
      replay_records (MRF := MRF) rep_hash o n fuel wal r st =
      Some (None, on_reports o (with_replay st m (next_after wal (rec_mems st) (next_sequence st) low bs))
        rep (reports_ (input_ r'))).
Proof.
  induction bs as [| b bs IH]; intros r Hr Hrep st hist low Hst Hstop Hinv Hok x; cbn [map] in Hr.
  - apply reads_all_nil_inv in Hr as (n & r' & Hread & Hn & HQ). exists (rec_mems st), r'.
    split_and!; [done | apply same_families_refl | by eapply mems_inv_ext; [| done]; intros cf;
      unfold hist_after, versions_of; cbn; rewrite app_nil_r |].
    intros n' fuel Hn' Hfuel. destruct n' as [| n']; [lia |]. cbn [replay_records]. unfold ReadRecord. fold st0.
    rewrite (Hread fuel), Hrep by lia. by destruct st.
  - apply reads_all_cons_inv in Hr as (n & r' & Hread & Hn & Hrep' & Hsz & Hrest).
    destruct Hok as (Hb & Hlow & Hbs).
    destruct (process_record_ok wal b st hist low Hst Hstop Hb Hlow Hinv) as (m1 & Ep & Hf1 & Hi1).
    set (x1 := batch_versions wal (rec_mems st) b) in *. set (st1 := with_replay st m1 x1.2) in *.
    destruct (batches_families wal (rec_mems st) m1 x1.2 bs Hf1) as [Ev Hbs'].
    destruct (IH r' Hrest Hrep' st1 (hist_after hist x1.1) x1.2 Hst Hstop Hi1 (Hbs' Hbs))
      as (m & r'' & HQ & Hf & Hi & Hrun). cbn [st1 with_replay rec_mems] in Hf, Hi. rewrite Ev in Hi.
    exists m, r''. split_and!; [done | by eapply same_families_trans | |].
    + eapply mems_inv_ext; [| exact Hi]. intros cf. unfold hist_after, versions_of, x. cbn.
      by rewrite list.filter_app, map_app, app_assoc.
    + intros n' fuel Hn' Hfuel. cbn [length] in Hn'. destruct n' as [| n']; [lia |]. cbn [replay_records].
      unfold ReadRecord. fold st0. rewrite (Hread fuel) by lia. rewrite Hrep', Hrep, Hsz, on_reports_same, Hst.
      change (status_ok Status_OK) with true. cbn [negb].
      rewrite Ep, Hrun by lia. cbn [st1 with_replay rec_mems next_sequence]. unfold next_after.
      rewrite Ev. by destruct bs.
Qed.
(** ** One log *)

(** Only the first corruption that is reported counts. *)
Definition is_corruption (x : Report) : Prop := exists n reason, x = Corruption n reason /\ reason <> ReadError.
Lemma later_reports st l : status_ok (rec_status st) = false -> Forall is_corruption l -> fold_left (on_report o) l st = st.
Proof.
  intros Hst. induction 1 as [| x l (n & reason & -> & _) Hl IH]; [done |]. cbn [fold_left on_report].
  unfold LogReporter_Corruption. by rewrite Hst, andb_false_r.
Qed.
Lemma first_report st l : rec_status st = Status_OK -> Forall is_corruption l ->
  fold_left (on_report o) l st = st \/ l <> [] /\ fold_left (on_report o) l st = set_status st Status_Corruption.
Proof.
  intros Hst. induction 1 as [| x l (n & reason & -> & Hne) Hl IH]; [by left |].
  cbn [fold_left on_report]. replace (report_status reason) with Status_Corruption by (by destruct reason).
  unfold LogReporter_Corruption. rewrite Hst. change (status_ok Status_OK) with true. rewrite andb_true_r.
  destruct (negb _); [right; by rewrite later_reports |].
  destruct IH as [-> | [_ ->]]; [by left | by right].
Qed.

(** The reports about a cut tail. *)
Lemma tail_status st tail : tail_reports (wal_recovery_mode o) tail -> rec_status st = Status_OK ->
  on_reports o st [] tail = st \/
  reports_incomplete (wal_recovery_mode o) = true /\ tail <> [] /\
    on_reports o st [] tail = set_status st Status_Corruption.
Proof.
  intros [Hnone Htail] Hst. unfold on_reports. change (drop (length []) tail) with tail.
  destruct (first_report st tail Hst Htail) as [-> | [Hne ->]]; [by left | right].
  split; [| done]. destruct (reports_incomplete _); [done | by apply Hne in Hnone].
Qed.

(** The sequence numbers that are set after a log. *)
Definition last_after (last next : Z) : Z :=
  if negb (next =? kMaxSequenceNumber) && (last <=? u64 (next - 1)) then u64 (next - 1) else last.

(** What a log that is replayed leaves of the rest of the state. *)
Record log_done wal st st' : Prop := {
  ld_mems : rec_mems st' = rec_mems st;
  ld_transactions : rec_transactions st' = rec_transactions st;
  ld_status : rec_status st' = Status_OK;
  ld_next : next_sequence st' = next_sequence st;
  ld_old : old_log_record st' = false;
  ld_last : last_sequence_ st' = last_after (last_sequence_ st) (next_sequence st);
  ld_stop : stop_replay_for_corruption st' = stop_replay_for_corruption st /\
      corrupted_wal_number st' = corrupted_wal_number st \/
    stop_replay_for_corruption st' = true /\ corrupted_wal_number st' = wal;
}.

Lemma after_log_ok wal st tail : rec_status st = Status_OK -> old_log_record st = false ->
  wal_recovery_mode o <> kAbsoluteConsistency -> tail_reports (wal_recovery_mode o) tail ->
  exists st', after_log o wal (on_reports o st [] tail) = (None, st') /\ log_done wal st st' /\
    (tail = [] -> stop_replay_for_corruption st' = stop_replay_for_corruption st).
Proof.
  intros Hst Hold Hm Ht. unfold after_log, last_after, mode_is.
  destruct (tail_status st tail Ht Hst) as [-> | (Hri & Hne & ->)].
  - rewrite Hst, Hold. change (status_ok Status_OK) with true. cbn [negb orb].
    eexists. split; [done |]. split; [| by destruct (_ && _)].
    split; destruct (_ && _) eqn:E; cbn; rewrite ?Hst, ?Hold; unfold last_after; rewrite ?E; try done; by left.
  - assert (wal_recovery_mode o = kPointInTimeRecovery) as -> by (by destruct (wal_recovery_mode o)).
    cbn [set_status rec_status]. change (status_ok Status_Corruption) with false. cbn [negb orb].
    change (IsNotSupported Status_Corruption) with false. change (IsIOError Status_Corruption) with false.
    rewrite bool_decide_false, bool_decide_true by done. eexists. split; [done |]. split; [| done].
    split; destruct (_ && _) eqn:E; cbn in *; unfold last_after; rewrite ?E; try done; by right.
Qed.
Lemma last_after_covers last next : 0 < next < 2 ^ 64 -> next <> kMaxSequenceNumber -> next - 1 <= last_after last next.
Proof.
  intros Hn Hne. unfold last_after. rewrite (proj2 (Z.eqb_neq _ _) Hne), wrap_small by (unfold fits; lia).
  cbn [negb andb]. destruct (Z.leb_spec last (next - 1)); lia.
Qed.

(** A log file that can be read to its end: it gives the batches [bs]; a log that is not [whole]
    may be reported as cut. *)
Definition readable wal (file : F) (bs : list LoggedBatch) (N : nat) (whole : Prop) : Prop :=
  reads_all (wal_recovery_mode o) N []
    (fun r' => tail_reports (wal_recovery_mode o) (reports_ (input_ r')) /\ (whole -> reports_ (input_ r') = []))
    st0 (MakeReader file true wal) (map lb_entry bs).

(** A state between two logs. *)
Record recovering_at st (hist : Z -> list Version) (low : Z) : Prop := {
  ra_old : old_log_record st = false;
  ra_status : rec_status st = Status_OK;
  ra_stop : wal_recovery_mode o = kPointInTimeRecovery -> stop_replay_for_corruption st = false;
  ra_mems : mems_inv (MRFL := MRFL) (rec_mems st) hist low;
}.
(** What a log changes. *)
Record log_replayed wal st st' (x : list (Z * Version) * Z) (hist : Z -> list Version) (next : Z) : Prop := {
  lr_families : same_families (rec_mems st) (rec_mems st');
  lr_mems : mems_inv (MRFL := MRFL) (rec_mems st') (hist_after hist x.1) x.2;
  lr_transactions : rec_transactions st' = rec_transactions st;
  lr_status : rec_status st' = Status_OK;
  lr_old : old_log_record st' = false;
  lr_next : next_sequence st' = next;
  lr_last : last_sequence_ st' = last_after (last_sequence_ st) next;
  lr_stop : stop_replay_for_corruption st' = stop_replay_for_corruption st /\
      corrupted_wal_number st' = corrupted_wal_number st \/
    stop_replay_for_corruption st' = true /\ corrupted_wal_number st' = wal;
}.

Context (Hmode : wal_recovery_mode o <> kAbsoluteConsistency).

Lemma recover_log_ok wal file bs N whole st hist low : readable wal file bs N whole ->
  recovering_at st hist low -> batches_ok wal (rec_mems st) low bs ->
  let x := batches_versions wal (rec_mems st) low bs in
  exists st', log_replayed wal st st' x hist (next_after wal (rec_mems st) (next_sequence st) low bs) /\
    (whole -> stop_replay_for_corruption st' = stop_replay_for_corruption st) /\
    forall n fuel, (length bs < n)%nat -> (N <= fuel)%nat ->
      recover_log (MRF := MRF) rep_hash o n fuel wal (inl file) st = Some (None, st').
Proof.
  intros Hread [Hold Hst Hstop Hinv] Hok x.
  set (st1 := set_status (MarkFileNumberUsed st wal) Status_OK).
  destruct (replay_reads_all wal N _ bs [] _ Hread eq_refl st1 hist low eq_refl Hstop Hinv Hok)
    as (m & r' & [Ht Hwhole] & Hf & Hi & Hrun).
  set (st2 := with_replay st1 m _) in Hrun.
  destruct (after_log_ok wal st2 (reports_ (input_ r')) eq_refl Hold Hmode Ht) as (st' & Ea & [] & Hs').
  exists st'. split_and!.
  - split; rewrite ?ld_mems0, ?ld_transactions0, ?ld_next0, ?ld_last0; try done.
  - intros Hw. by apply Hs', Hwhole.
  - intros n fuel Hn Hfuel. unfold recover_log. fold st1. rewrite Hrun by done. by rewrite Ea.
Qed.

(** ** All logs *)

Record Log := { lg_number : Z; lg_file : F; lg_batches : list LoggedBatch }.
Fixpoint logs_versions cfs (seq : Z) (gs : list Log) : list (Z * Version) * Z :=
  match gs with
  | [] => ([], seq)
  | g :: gs =>
      let x := batches_versions (lg_number g) cfs seq (lg_batches g) in
      let y := logs_versions cfs x.2 gs in
      (x.1 ++ y.1, y.2)
  end.
Fixpoint logs_ok cfs (seq : Z) (gs : list Log) : Prop :=
  match gs with
  | [] => True
  | g :: gs => batches_ok (lg_number g) cfs seq (lg_batches g) /\
      logs_ok cfs (batches_versions (lg_number g) cfs seq (lg_batches g)).2 gs
  end.
Lemma logs_families m m' seq gs : same_families m m' ->
  logs_versions m' seq gs = logs_versions m seq gs /\ (logs_ok m seq gs -> logs_ok m' seq gs).
Proof.
  intros Hf. revert seq. induction gs as [| g gs IH]; intros seq; [done |]. cbn.
  destruct (batches_families (lg_number g) m m' seq (lg_batches g) Hf) as [-> Hok].
  destruct (IH (batches_versions (lg_number g) m seq (lg_batches g)).2) as [-> Hoks].
  split; [done |]. intros [? ?]. split; auto.
Qed.
Definition lg_wal (g : Log) : Z * (F + Status) := (lg_number g, inl (lg_file g)).

(** What recovery leaves. *)
Record logs_replayed (last_wal : Z) st st' (x : list (Z * Version) * Z) (hist : Z -> list Version) (some : bool)
    : Prop := {
  lsr_families : same_families (rec_mems st) (rec_mems st');
  lsr_mems : mems_inv (MRFL := MRFL) (rec_mems st') (hist_after hist x.1) x.2;
  lsr_transactions : rec_transactions st' = rec_transactions st;
  lsr_status : rec_status st' = Status_OK;
  lsr_next : next_sequence st' = if some then x.2 else next_sequence st;
  lsr_last : next_sequence st' <> kMaxSequenceNumber -> 0 < next_sequence st' < 2 ^ 64 ->
    next_sequence st' - 1 <= last_sequence_ st';
  lsr_stop : stop_replay_for_corruption st' = stop_replay_for_corruption st \/
    stop_replay_for_corruption st' = true /\ corrupted_wal_number st' = last_wal;
}.
Definition some_batch (gs : list Log) : bool := existsb (fun g => negb (bool_decide (lg_batches g = []))) gs.

Lemma no_batches cfs seq gs : some_batch gs = false -> (logs_versions cfs seq gs).2 = seq.
Proof.
  revert seq. induction gs as [| g gs IH]; intros seq; [done |]. cbn. intros [Hg Hgs]%orb_false_iff.
  apply negb_false_iff, bool_decide_eq_true in Hg. rewrite Hg. by apply IH.
Qed.

Lemma recover_logs_ok min N gs g : Forall (fun g => min <= lg_number g) (gs ++ [g]) ->
  Forall (fun g => readable (lg_number g) (lg_file g) (lg_batches g) N True) gs ->
  readable (lg_number g) (lg_file g) (lg_batches g) N False ->
  forall st hist low, recovering_at st hist low -> logs_ok (rec_mems st) low (gs ++ [g]) ->
  let x := logs_versions (rec_mems st) low (gs ++ [g]) in
  exists st', logs_replayed (lg_number g) st st' x hist (some_batch (gs ++ [g])) /\
    forall n fuel, Forall (fun g => length (lg_batches g) < n)%nat (gs ++ [g]) -> (N <= fuel)%nat ->
      recover_logs (MRF := MRF) rep_hash o n fuel min (map lg_wal (gs ++ [g])) st = Some (None, st').
Proof.
  intros Hmin Hgs Hg. induction gs as [| g1 gs IH]; intros st hist low Hst Hok x; destruct Hok as [Hok Hoks]; cbn [app] in *.
  - destruct (recover_log_ok _ _ _ _ _ st hist low Hg Hst Hok) as (st' & [] & _ & Hrun).
    cbn in Hmin. apply list.Forall_cons in Hmin as [Hmin _]. exists st'. split.
    + split; try done.
      * unfold x. cbn [logs_versions fst snd]. by rewrite app_nil_r.
      * rewrite lr_next0. unfold next_after, some_batch, x. cbn. by destruct (lg_batches g).
      * intros Hne Hpos. rewrite lr_last0, <- lr_next0. by apply last_after_covers.
      * destruct lr_stop0 as [[? _] | ?]; [by left | by right].
    + intros n fuel Hn Hfuel. apply list.Forall_cons in Hn as [Hn _]. cbn [map recover_logs lg_wal].
      rewrite (proj2 (Z.ltb_ge _ _)) by lia. by rewrite Hrun.
  - apply list.Forall_cons in Hgs as [Hg1 Hgs]. apply list.Forall_cons in Hmin as [Hmin1 Hmin].
    destruct (recover_log_ok _ _ _ _ _ st hist low Hg1 Hst Hok) as (st1 & [] & Hstop & Hrun).
    set (x1 := batches_versions (lg_number g1) (rec_mems st) low (lg_batches g1)) in *.
    destruct (logs_families (rec_mems st) (rec_mems st1) x1.2 (gs ++ [g]) lr_families0) as [Ev Hoks'].
    destruct (IH Hmin Hgs st1 (hist_after hist x1.1) x1.2) as (st' & [] & Hrun').
    { split; try done. intros Hm. rewrite Hstop by done. by eapply ra_stop. }
    { by apply Hoks'. }
    exists st'. split.
    + rewrite Ev in *. split; try done.
      * by eapply same_families_trans.
      * fold x1. eapply mems_inv_ext; [| exact lsr_mems0]. intros cf. unfold hist_after, versions_of, x. cbn. fold x1.
        by rewrite list.filter_app, map_app, app_assoc.
      * congruence.
      * rewrite lsr_next0, lr_next0. cbn [some_batch existsb]. fold (some_batch (gs ++ [g])). fold x1.
        unfold x. cbn [logs_versions snd]. fold x1. unfold next_after. fold x1.
        destruct (some_batch (gs ++ [g])) eqn:Es; [by rewrite orb_true_r |].
        rewrite (no_batches _ _ _ Es). by destruct (lg_batches g1).
      * rewrite Hstop in lsr_stop0 by done. done.
    + intros n fuel Hn Hfuel. apply list.Forall_cons in Hn as [Hn1 Hn]. cbn [map recover_logs lg_wal].
      rewrite (proj2 (Z.ltb_ge _ _)) by lia. rewrite Hrun by done. by apply Hrun'.
Qed.

(** ** Sequence numbers *)

Definition below (n : Z) (l : list (Z * Version)) : Prop := Forall (fun v => v_seq v.2 < n) l.
Lemma below_mono n n' l : n <= n' -> below n l -> below n' l.
Proof. intros Hn Hb. eapply list.Forall_impl; [exact Hb |]. cbn. lia. Qed.

Lemma ops_versions_bounds (a : InserterArgs R B) cfs seq ops : let x := ops_versions a cfs seq ops in
  seq <= x.2 <= seq + slen ops /\ below x.2 x.1.
Proof.
  revert seq. induction ops as [| op ops IH]; intros seq; cbn; [by split; [slia | constructor] |].
  assert (seq <= (op_step a cfs seq op).2 <= seq + 1 /\ below (op_step a cfs seq op).2 (option_list (op_step a cfs seq op).1))
    as [Hs Hb].
  { unfold op_step. destruct (op_entry op) as [[[[cf k] v] t] |]; [| by split; [cbn; lia | constructor]].
    destruct (cfs !! cf); [destruct (negb _); [| destruct (drops _ _ _)] |];
      (split; [cbn; lia | repeat constructor; cbn; lia]). }
  destruct (op_step a cfs seq op) as [added seq']. specialize (IH seq'). cbn in *.
  destruct (ops_versions a cfs seq' ops) as [l n]. cbn in *. destruct IH as [IH1 IH2]. split; [slia |].
  apply Forall_app. split; [| done]. eapply below_mono; [| exact Hb]. lia.
Qed.

Lemma batches_bounds wal cfs seq bs : batches_ok wal cfs seq bs -> let x := batches_versions wal cfs seq bs in
  seq <= x.2 /\ (bs <> [] -> 0 < x.2 <= kMaxSequenceNumber) /\ below x.2 x.1.
Proof.
  revert seq. induction bs as [| b bs IH]; intros seq; cbn; [intros _; split_and!; [lia | done | constructor] |].
  intros ([Hpos Hmax _ _ _ _] & Hlow & Hbs).
  destruct (ops_versions_bounds (inserter_args o wal) cfs (lb_sequence b) (replayed_ops cfs b)) as [Hb Hbelow].
  fold (batch_versions wal cfs b) in Hb, Hbelow.
  assert (slen (replayed_ops cfs b) <= slen (lb_ops b)).
  { unfold replayed_ops, reconcile, slen. rewrite length_map.
    pose proof (length_filter (fun op => negb (is_log_data op)) (lb_ops b)). lia. }
  destruct (IH _ Hbs) as (H1 & H2 & H3). split_and!; [lia | |].
  - intros _. destruct bs; [cbn; lia | by apply H2].
  - apply Forall_app. split; [| done]. by eapply below_mono.
Qed.

Lemma logs_bounds cfs seq gs : logs_ok cfs seq gs -> let x := logs_versions cfs seq gs in
  seq <= x.2 /\ (some_batch gs = true -> 0 < x.2 <= kMaxSequenceNumber) /\ below x.2 x.1.
Proof.
  revert seq. induction gs as [| g gs IH]; intros seq; cbn; [intros _; split_and!; [lia | done | constructor] |].
  intros [Hg Hgs]. destruct (batches_bounds (lg_number g) cfs seq (lg_batches g) Hg) as (G1 & G2 & G3).
  destruct (IH _ Hgs) as (H1 & H2 & H3). split_and!; [lia | |].
  - intros Hs. fold (some_batch gs) in Hs. destruct (some_batch gs) eqn:E; [by apply H2 |].
    rewrite (no_batches _ _ _ E). apply G2. rewrite orb_false_r in Hs. by apply negb_true_iff, bool_decide_eq_false in Hs.
  - apply Forall_app. split; [| done]. by eapply below_mono.
Qed.
Lemma logs_ok_app cfs seq gs gs' : logs_ok cfs seq (gs ++ gs') <->
  logs_ok cfs seq gs /\ logs_ok cfs (logs_versions cfs seq gs).2 gs'.
Proof.
  revert seq. induction gs as [| g gs IH]; intros seq; cbn; [tauto |]. rewrite IH. tauto.
Qed.
End Replay.
