(* ===== verification/RecoveryTheorems.v ===== *)
(** Recovery from write-ahead logs: what survives of the logs is what the memtables hold. *)

From stdpp Require Import gmap sorting.
From S2P Require Import Prelude Coding Comparator DbFormat Status MergeOperator WriteBatch WriteBatchIter WriteBatchSpec WriteBatchProofs MemTable MemTableInserter MemTableSpec DynamicBloom SkipListRep MemTableTheorems InserterProofs InserterTheorems UdtUtil UdtTheorems LogWriter LogReader LogProofs Recovery RecoveryProofs.

(** The entries of a log hold these batches; [cf] are the timestamp sizes recorded before. *)
Definition holds_batches (cf : gmap Z Z) (es : list LogEntry) (bs : list LoggedBatch) : Prop :=
  sized_records cf (recorded_entries cf es) = map lb_entry bs.

(** A log file after a crash. A new writer added the batches [bs1], which reached the file, and
    then the batches [bs2], of which the file has some first bytes, all of them when the log is
    [complete]. *)
Definition survives {FW : Type} {W : WritableFileWriter FW} {WL : WritableFileLaws FW}
    {FR : Type} {S : SequentialFileReader FR} {SL : SequentialFileLaws FR}
    (ln : Z) (file : FR) (bs1 bs2 : list LoggedBatch) (complete : Prop) : Prop :=
  exists (f : FW) recycle manual es1 es2 w1 w2 s,
    contents f = [] /\ seen_error f = false /\ fits 32 ln /\
    Forall (entry_fits recycle) es1 /\ Forall (entry_fits recycle) es2 /\
    write_log (MakeWriter f ln recycle manual) es1 = Some (IOStatus_OK, w1) /\ write_log w1 es2 = Some (s, w2) /\
    contents (dest_ w1) `prefix_of` remaining file /\ remaining file `prefix_of` contents (dest_ w2) /\
    reliable file /\ holds_batches ∅ es1 bs1 /\ holds_batches (recorded_after ∅ es1) es2 bs2 /\
    (complete -> s = IOStatus_OK /\ remaining file = contents (dest_ w2)).

Section Survive.
Context {FW : Type} {W : WritableFileWriter FW} {WL : WritableFileLaws FW}.
Context {FR : Type} {S : SequentialFileReader FR} {SL : SequentialFileLaws FR}.
Context {R B : Type} (o : RecoveryOptions R B).

Lemma prefix_map {X Y} (f : X -> Y) l l' : l `prefix_of` map f l' -> exists k, k `prefix_of` l' /\ l = map f k.
Proof.
  intros [rest E]. exists (take (length l) l'). split; [apply prefix_take |].
  rewrite <- firstn_map, E. by rewrite take_app_length.
Qed.

Lemma survives_readable ln (file : FR) bs1 bs2 complete N : survives (FW := FW) ln file bs1 bs2 complete ->
  (length (remaining file) < N)%nat ->
  exists bs, bs `prefix_of` bs2 /\ (complete -> bs = bs2) /\ readable o ln file (bs1 ++ bs) N complete.
Proof.
  intros (f & recycle & manual & es1 & es2 & w1 & w2 & s & H1 & H2 & H3 & H4 & H5 & H6 & H7 & H8 & H9 & H10 & E1 & E2 & Hc) HN.
  destruct (crash_reads_all f ln recycle manual es1 es2 w1 w2 s file true (wal_recovery_mode o)
    H1 H2 H3 H4 H5 H6 H7 H8 H9 H10) as (l & Hpre & Hfull & Hall).
  unfold holds_batches in *. rewrite E1 in Hall. rewrite E2 in Hpre, Hfull.
  apply prefix_map in Hpre as (bs & Hbs & ->). exists bs. split_and!; [done | |].
  - intros Hcomp. pose proof (Hfull (Hc Hcomp)) as E. apply (f_equal length) in E. rewrite !length_map in E.
    apply prefix_length_eq; [done | lia].
  - unfold readable. rewrite map_app. eapply reads_all_weaken; [| | exact Hall]; [lia |].
    intros r' [Ht Hr']. split; [done |]. intros Hcomp. by apply Hr', Hc.
Qed.

(** All logs can be read with a bound on the iterations that any larger one respects. *)
Lemma logs_readable gs ln (file : FR) bs1 bs2 :
  Forall (fun g => survives (FW := FW) (lg_number g) (lg_file g) (lg_batches g) [] True) gs ->
  survives (FW := FW) ln file bs1 bs2 False ->
  exists N bs, bs `prefix_of` bs2 /\
    Forall (fun g => readable o (lg_number g) (lg_file g) (lg_batches g) N True) gs /\
    readable o ln file (bs1 ++ bs) N False /\
    forall fuel, Forall (fun g => length (remaining (lg_file g)) < fuel)%nat
      (gs ++ [{| lg_number := ln; lg_file := file; lg_batches := bs1 ++ bs |}]) -> (N <= fuel)%nat.
Proof.
  intros Hgs Hlast. set (lens := map (fun g => length (remaining (lg_file g))) gs ++ [length (remaining file)]).
  pose proof (proj1 (list_max_le lens (list_max lens)) (le_n _)) as [Hmax1 Hmax2]%Forall_app.
  rewrite Forall_map in Hmax1. apply List.Forall_inv in Hmax2.
  destruct (survives_readable ln file bs1 bs2 False (Datatypes.S (list_max lens)) Hlast) as (bs & Hbs & _ & Hread); [lia |].
  exists (Datatypes.S (list_max lens)), bs. split_and!; [done | | done |].
  - rewrite List.Forall_forall in Hgs, Hmax1 |- *. intros g Hg.
    destruct (survives_readable _ _ _ _ True (Datatypes.S (list_max lens)) (Hgs g Hg)) as (bs0 & Hp & _ & Hr).
    + specialize (Hmax1 g Hg). lia.
    + apply prefix_nil_inv in Hp as ->. by rewrite app_nil_r in Hr.
  - intros fuel Hf. apply Forall_app in Hf as [Hf1 Hf2]. apply List.Forall_inv in Hf2. destruct fuel as [| fuel].
    { cbn in Hf2. lia. }
    apply le_n_S, list_max_le, Forall_app. split; [apply Forall_map | constructor; [cbn in Hf2; lia | constructor]].
    eapply list.Forall_impl; [exact Hf1 |]. cbn. lia.
Qed.

(** No column family is ahead of the logs. *)
Lemma not_ahead cfs last (st st' : RecoveryState R B) : map_Forall (fun _ c => cfd_log_number c <= last) cfs ->
  same_families cfs (rec_mems st') -> stop_replay_for_corruption st = false ->
  stop_replay_for_corruption st' = stop_replay_for_corruption st \/
    stop_replay_for_corruption st' = true /\ corrupted_wal_number st' = last ->
  ahead_of_wals o st' = false.
Proof.
  intros Hl Hf Hst [E | [E Ew]]; unfold ahead_of_wals; rewrite E; [by rewrite Hst |].
  destruct (_ || _); [| done]. cbn [andb]. apply not_true_is_false.
  intros ([cf c'] & Hin & Hc)%existsb_exists. cbn in Hc. apply list_elem_of_In, elem_of_map_to_list in Hin.
  specialize (Hf cf). rewrite Hin in Hf. destruct (cfs !! cf) as [c |] eqn:Ec; [| done].
  apply Hl in Ec. rewrite Hf in Hc. cbn in Hc. rewrite Ew, Z.gtb_ltb, (proj2 (Z.ltb_ge _ _)) in Hc by lia. done.
Qed.
End Survive.


(** Two logs: the first is complete and has one batch; the second has one batch that reached the
    file and one that was cut. *)
Definition ex_logged (seq : Z) (ops : list BatchOp) : LoggedBatch := {| lb_sequence := seq; lb_ops := ops; lb_sizes := ∅ |}.
Definition ex_batch1 : LoggedBatch := ex_logged 1 ex_ops.
Definition ex_batch2 : LoggedBatch := ex_logged 5 [BPut 0 [Byte.x64] [Byte.x31]].
Definition ex_batch3 : LoggedBatch := ex_logged 6 [BDelete 0 [Byte.x61]].
Definition ex_wal_writer (ln : Z) (bs : list LoggedBatch) : Writer MemFile :=
  match write_log (MakeWriter ex_file ln false false) (map (fun b => LogRecord (lb_record b)) bs) with
  | Some (_, w) => w
  | None => MakeWriter ex_file ln false false
  end.
Definition ex_wal (ln : Z) (bs : list LoggedBatch) (cut : Z) : MemInput :=
  let log := mem_contents (dest_ (ex_wal_writer ln bs)) in
  {| mem_rest := stake (slen log - cut) log; mem_fail := false |}.
Definition ex_wal3 : MemInput := Eval vm_compute in ex_wal 3 [ex_batch1] 0.
Definition ex_wal4 : MemInput := Eval vm_compute in ex_wal 4 [ex_batch2; ex_batch3] 1.
Definition ex_options (m : WALRecoveryMode) : RecoveryOptions SkipListRep DynamicBloom := {|
  paranoid_checks := true; wal_recovery_mode := m; rec_seq_per_batch := false; rec_batch_per_txn := true;
  rec_allow_2pc := true; rec_db := fun _ _ _ _ => (Status_NotFound, PinnableWideColumns_Reset);
  live_sst_files_size := fun _ => 0;
|}.

Lemma ex_survives3 : survives (FW := MemFile) 3 ex_wal3 [ex_batch1] [] True.
Proof.
  exists ex_file, false, false, [LogRecord (lb_record ex_batch1)], [], (ex_wal_writer 3 [ex_batch1]),
    (ex_wal_writer 3 [ex_batch1]), IOStatus_OK.
  split_and!; try reflexivity; try done; try (repeat constructor; by vm_compute); by vm_compute.
Qed.
Lemma ex_survives4 : survives (FW := MemFile) 4 ex_wal4 [ex_batch2] [ex_batch3] False.
Proof.
  exists ex_file, false, false, [LogRecord (lb_record ex_batch2)], [LogRecord (lb_record ex_batch3)],
    (ex_wal_writer 4 [ex_batch2]), (ex_wal_writer 4 [ex_batch2; ex_batch3]), IOStatus_OK.
  split_and!; try reflexivity; try done; try (repeat constructor; by vm_compute).
  - eexists. vm_compute. reflexivity.
  - eexists. vm_compute. reflexivity.
Qed.
Definition ex_log3 : Log := {| lg_number := 3; lg_file := ex_wal3; lg_batches := [ex_batch1] |}.
Lemma ex_batch_ok wal seq ops : let o := ex_options kPointInTimeRecovery in
  0 < seq -> seq + slen ops <= kMaxSequenceNumber -> num_counted ops < 2 ^ 32 ->
  Forall (reconcilable (running_sizes ex_families) ∅ false true) ops ->
  replayed_ops ex_families (ex_logged seq ops) = ops -> Forall op_ok ops ->
  Forall (op_fits (ex_args wal) ex_families) ops ->
  batch_ok o wal ex_families (ex_logged seq ops).
Proof. intros o Hpos Hmax Hn Hr E Hops Hf. split; try done. by rewrite E. Qed.
Lemma ex_logs_ok : logs_ok (ex_options kPointInTimeRecovery) ex_families 0
  ([ex_log3] ++ [{| lg_number := 4; lg_file := ex_wal4; lg_batches := [ex_batch2] ++ [ex_batch3] |}]).
Proof.
  cbn [app logs_ok ex_log3 lg_number lg_batches batches_ok]. split_and!; try done.
  - apply ex_batch_ok; try done; try (repeat constructor; by vm_compute). apply ex_fits.
  - apply ex_batch_ok; try done; repeat constructor; by vm_compute.
  - apply ex_batch_ok; try done; repeat constructor; by vm_compute.
Qed.


(** Reports of corruption have no effect in the mode that skips corrupted records. *)
Lemma skip_reports {R B : Type} (o : RecoveryOptions R B) st before after :
  wal_recovery_mode o = kSkipAnyCorruptedRecords ->
  rec_mems (on_reports o st before after) = rec_mems st /\ rec_status (on_reports o st before after) = rec_status st /\
  next_sequence (on_reports o st before after) = next_sequence st.
Proof.
  intros Hm. unfold on_reports. generalize (drop (length before) after). intros l. revert st.
  induction l as [| x l IH]; intros st; [done |]. cbn [fold_left].
  destruct (IH (on_report o st x)) as (-> & -> & ->). destruct x; cbn; [| done].
  unfold LogReporter_Corruption, mode_is. by rewrite Hm, bool_decide_true, orb_true_r.
Qed.

(** C30: the mode that skips corrupted records does not skip a batch that cannot be inserted. When
    [InsertInto] fails on a batch (and the error is not that it is unsupported), the records that
    follow in the same log are not replayed, whatever they are: one more is read and dropped, the
    error is forgotten, and recovery goes on with the next log as if this one had ended. *)
Theorem skip_mode_drops_rest_of_log {R B : Type} {MRF : forall C : Comparator, MemTableRep R}
    {MF : MemTableFilter B} {H : NPHash} {F : Type} {SF : SequentialFileReader F} (rep_hash : bytes -> Z)
    (o : RecoveryOptions R B) (n fuel : nat) (wal : Z) (r r1 r2 : Reader F) (record : bytes) (next : option bytes)
    (st st1 : RecoveryState R B) (Hmode : wal_recovery_mode o = kSkipAnyCorruptedRecords)
    (Hst : rec_status st = Status_OK)
    (Hread : ReadRecord fuel (wal_recovery_mode o) r = Some (Some record, r1))
    (Hprocess : process_record (MRF := MRF) rep_hash o wal record (read_cf_to_ts_sz_ r1)
                  (on_reports o st (reports_ (input_ r)) (reports_ (input_ r1))) = Some (NextRecord st1))
    (Hfail : status_ok (rec_status st1) = false) (Hsupported : IsNotSupported (rec_status st1) = false)
    (Hnext : ReadRecord fuel (wal_recovery_mode o) r1 = Some (next, r2)) :
  exists st2, replay_records (MRF := MRF) rep_hash o (S (S n)) fuel wal r st = Some (None, st2) /\
    rec_mems st2 = rec_mems st1 /\ next_sequence st2 = next_sequence st1 /\
    exists st3, after_log o wal st2 = (None, st3) /\ rec_status st3 = Status_OK /\ rec_mems st3 = rec_mems st1.
Proof.
  set (st2 := on_reports o st1 (reports_ (input_ r1)) (reports_ (input_ r2))).
  destruct (skip_reports o st (reports_ (input_ r)) (reports_ (input_ r1)) Hmode) as (_ & Es & _).
  destruct (skip_reports o st1 (reports_ (input_ r1)) (reports_ (input_ r2)) Hmode) as (Em2 & Es2 & En2).
  fold st2 in Em2, Es2, En2. exists st2. split_and!; [| done | done |].
  - cbn [replay_records]. rewrite Hread, Es, Hst. change (status_ok Status_OK) with true. cbn [negb].
    rewrite Hprocess, Hnext. fold st2. rewrite Es2, Hfail. by destruct next.
  - unfold after_log. rewrite Es2, Hfail, Hsupported. cbn [negb orb]. unfold mode_is. rewrite Hmode, bool_decide_true by done.
    eexists. split; [done |]. by destruct (_ && _).
Qed.

(** A merge to a family without an operator, and a put. *)
Definition ex_plain_family : ColumnFamilyData SkipListRep DynamicBloom := {|
  cfd_comparator := BytewiseComparatorImpl; cfd_timestamps := DefaultTimestampComparator BytewiseComparatorImpl;
  cfd_moptions := {| protection_bytes_per_key := 0; memtable_whole_key_filtering := false; prefix_extractor_ := None;
                     merge_operator := None; persist_user_defined_timestamps_ := true |};
  max_successive_merges := 0; is_delete_range_supported := true; cfd_log_number := 0;
  cfd_mem := MakeMemTable (MR := ex_rep BytewiseComparatorImpl) 0 None;
|}.
Definition ex_bad_wal : MemInput := Eval vm_compute in
  ex_wal 3 [ex_logged 1 [BMerge 0 [Byte.x61] [Byte.x31]]; ex_logged 2 [BPut 0 [Byte.x62] [Byte.x31]]] 0.
Definition ex_skip_options : RecoveryOptions SkipListRep DynamicBloom := ex_options kSkipAnyCorruptedRecords.
Definition ex_bad_reader : Reader MemInput := MakeReader ex_bad_wal true 3.
Definition ex_read_next (r : Reader MemInput) : option bytes * Reader MemInput :=
  match ReadRecord 100 kSkipAnyCorruptedRecords r with Some x => x | None => (None, r) end.
Definition ex_bad_start : RecoveryState SkipListRep DynamicBloom :=
  MakeRecoveryState {[0 := ex_plain_family]} ex_transactions 0 5.
Definition ex_bad_step : RecoveryState SkipListRep DynamicBloom :=
  match process_record (MRF := ex_rep) (MF := bloom_filter) (H := ex_hash) (fun _ => 0) ex_skip_options 3
          (default [] (ex_read_next ex_bad_reader).1) ∅ ex_bad_start with
  | Some (NextRecord st) => st
  | _ => ex_bad_start
  end.
Lemma skip_mode_drops_rest_of_log_witness :
  (ex_read_next (ex_read_next ex_bad_reader).2).1 = Some (lb_record (ex_logged 2 [BPut 0 [Byte.x62] [Byte.x31]])) /\
  exists st2, replay_records (MRF := ex_rep) (MF := bloom_filter) (H := ex_hash) (fun _ => 0) ex_skip_options
      5 100 3 ex_bad_reader ex_bad_start = Some (None, st2) /\
    rec_mems st2 = rec_mems ex_bad_step /\ next_sequence st2 = next_sequence ex_bad_step /\
    exists st3, after_log ex_skip_options 3 st2 = (None, st3) /\ rec_status st3 = Status_OK /\
      rec_mems st3 = rec_mems ex_bad_step.
Proof.
  split; [vm_compute; reflexivity |].
  apply (skip_mode_drops_rest_of_log (MRF := ex_rep) (MF := bloom_filter) (H := ex_hash) (fun _ => 0) ex_skip_options
    3 100 3 ex_bad_reader (ex_read_next ex_bad_reader).2 (ex_read_next (ex_read_next ex_bad_reader).2).2
    (default [] (ex_read_next ex_bad_reader).1) (ex_read_next (ex_read_next ex_bad_reader).2).1 ex_bad_start ex_bad_step);
    [reflexivity | reflexivity | vm_compute; reflexivity | vm_compute; reflexivity | vm_compute; reflexivity
    | vm_compute; reflexivity | vm_compute; reflexivity].
Defined.
